(* ===== verification/_CoqProject ===== *)
-Q . S2P
Prelude.v
GoStr.v
Regex.v
GoPath.v
GoOS.v
GoOSFacts.v
GoNet.v
GoMatch.v
Base64.v
PrivPackages.v
PrivFirewall.v
PrivSet.v
PrivSetFacts.v
PrivCli.v
PrivCliFacts.v
Config.v
ConfigFacts.v
Files.v
FilesFacts.v
Handover.v
ImageRef.v
Alarms.v
AuditLog.v
Executor.v
Slots.v
Ops.v
OpsFacts.v
Tasks.v
TasksFacts.v
Stream.v
Dispatch.v
Jobs.v
CloudDB.v
CloudFeedDB.v
Localize.v
Cloud.v
CloudFacts.v
CloudNotify.v
CloudNotifyFacts.v
CloudTelemetry.v
CloudTelemetryFacts.v
Interleave.v
CloudTerminalDB.v
CloudTerminal.v
CloudTerminalFacts.v
CloudWakeup.v
TerminalPair.v
TerminalPairFacts.v
AtomicSave.v
Watched.v
ComposeStacks.v
ComposeStacksFacts.v
Cors.v
Logs.v
LogsFacts.v
Status.v
DaemonTerminal.v
DaemonSession.v
DaemonSessionFacts.v
ConfigApi.v
ConfigApiFacts.v
ContainerDetail.v
Registry.v
RegistryFacts.v
UpdateCheck.v
UpdateCheckFacts.v
DayFiles.v
Processes.v
ProcessHistory.v
ProcessHistoryFacts.v
Health.v
MetricsHistory.v
MetricsHistoryFacts.v
Stdio.v
FilesHttp.v
FilesHttpFacts.v
Relay.v
