(* ===== verification/Prelude.v ===== *)
(** * MaidCafe: a verification development

    MaidCafe lets a phone or a browser look after Linux hosts. A daemon runs on
    every host ([internal/daemon], [cmd/daemon]) under an account without
    privileges; a cloud service ([internal/cloud], [internal/handler],
    [cmd/cloud]) pairs hosts with users and relays to them; and a small helper,
    [maidkit-priv] ([internal/privfs], [cmd/maidkit-priv]), is the only program
    that runs as root: the daemon starts it through a sudoers rule and it acts
    only as a root-owned grant file allows. What an operator writes in the
    configuration files ([internal/config]) decides what all of them may do.

    This development models the helper; of the daemon its configuration and reload, the
    file API and its hand-over to the helper, what it runs for others (webhooks, actions,
    jobs, native operations, tasks, shells), what it watches (containers and their
    images, logs, processes, compose stacks, the host's health), what it records and how
    it sends it; and of the cloud who may do what, the queues and sockets through which
    requests reach a daemon, and what becomes of the reports and notifications.

    ** How Go is modelled

    - [Prelude]: a Go string is a list of bytes ([str], literal [$"..."]), a Go
      error a value ([error], which keeps a message as its format and arguments),
      a function that returns an error one into [res]; tactics and the sorting of
      strings.
    - [GoStr], [Regex], [GoPath], [GoNet], [GoMatch], [Base64]: what the program
      uses of the packages strings and strconv, regexp (anchored ASCII patterns,
      by derivatives), path/filepath, net (addresses and prefixes), path (Match)
      and encoding/base64, each with the facts the components share.
    - [GoOS], [GoOSFacts]: the file system as the package os shows it, and
      [os.Root]. A world holds a finite map from physical paths to nodes, the
      umask, the account, the order directories are read in and a script of
      faults; every system call consumes one entry of the script, so a theorem
      that quantifies over worlds holds whatever call fails. Path resolution
      follows links component by component, with the link budgets of the kernel
      (40) and of [os.Root] (8), which Go itself has. [touches] states that an
      operation leaves everything outside a set of paths alone; [hoare] is a
      small program logic for the all-or-nothing operations.

    What is not in the repository is a parameter, gathered in the classes of the
    component that uses it: decoders and parsers (viper's TOML, JSON, YAML, cron
    expressions, URLs, the text of times, days and floats), account lookup and the
    resolver, what commands print and how they end, what the host reports (gopsutil),
    registries, the workspace service, the publishers of events, handshakes and the pty,
    randomness, the clock and a file's modification time. Where a theorem needs such a
    thing to behave, the law is a named hypothesis with an instance that satisfies it.

    ** Components

    - [PrivPackages] and [PrivFirewall] (privfs/packages.go, firewall.go): package
      and firewall grants, the operand grammars and the commands they build.
    - [PrivSet], [PrivSetFacts] (privfs/privfs.go): profiles, the loader of the
      grant file, path confinement, and [Set_Write], [Set_Mkdir], [Set_Remove].
    - [PrivCli], [PrivCliFacts] (privfs/cli.go): [ParseArgs] and [Run], which
      yields the events of an invocation (lines printed, commands run, audit
      records) and its exit code.
    - [Config], [ConfigFacts] (config/config.go): the records, defaults and
      validators, [ValidateDaemon], [ValidateCloud], the fragment loaders and
      [Load].
    - [Files], [FilesFacts] (daemon/files.go, files_priv.go): [newFilePolicy],
      [resolve], the nine actions ([policy_list], [policy_read], [policy_write],
      ...), [fileStatus], [dispatchFileAction], [runFileAction] and the argument
      vector for the helper. The state is the world; the helper process is the
      operation [exec_command] of the class [FileEnv].
    - [FilesHttp], [FilesHttpFacts] (daemon/files_http.go and the pipe's entry in
      files.go): credentials, signatures, query strings and bodies, the JSON routes, and
      the raw download and upload ([serve_files], [runStdioFileAction]).
    - [Handover]: [FileEnv] instantiated with [PrivCli.Run] started as root, so
      that daemon and helper run together. The helper is taken to answer in time there:
      the daemon's kill after 30 seconds (files_priv.go) is only the 504 of [Files].
    - [ImageRef] (daemon/imageref.go) and [Alarms] (daemon/alarms.go).
    - [AuditLog] (daemon/audit.go): recording, rotation and [Recent], over files as
      lists of lines with the scanner's limit.
    - [Executor] (daemon/webhook.go): templates, the three entry points ([run],
      [ExecuteWebhook], [RunAction]) and [execute], which yields the events of a run
      and its response; [Slots]: the slot channels, their release and their replacement
      at a reload, as a step function over labels.
    - [Ops], [OpsFacts] (daemon/ops.go): the plans of every native operation
      ([planNativeOp]), the choice of a compose store and the run of a stage; what
      the host answers is the class [OpsHost].
    - [Tasks], [TasksFacts] (daemon/tasks.go, tasks_http.go and the task run of
      ops.go): the output window, the store, and the system of all runs as an
      executable step function [sys_step] over labels (dispatch, a step of a run,
      cancel, deadline, and the steps of the slots that are no task's, reloads among
      them), every interleaving being a list of labels.
    - [Dispatch] (ops.go): the same plans run inside the request that asks for them.
    - [Jobs] (daemon/jobs.go): the job table, its replacement at a reload, and the loop
      that runs what is due, a step function over labels.
    - [Stream] (daemon/stream.go): the hub, its subscribers and their bounded
      channels, a push cut at each channel operation.
    - [AtomicSave]: the temporary file and rename with which the daemon's stores persist
      themselves, with a failure or a crash at any call; [Watched]
      (daemon/watched_store.go) and [ComposeStacks], [ComposeStacksFacts]
      (daemon/compose_stacks.go, compose_stacks_http.go) are saved through it.
    - [Cors] (daemon/cors.go): which origins a browser may call from.
    - [Logs], [LogsFacts] (daemon/logs.go): tails, rings, files, alerts and uploads, one
      tick at a time.
    - [DaemonTerminal] (daemon/terminal.go, terminal_ws.go, terminal_relay.go,
      terminal_tmux.go): who gets a shell, and which; [DaemonSession],
      [DaemonSessionFacts]: a live session as a step function over its goroutines.
    - [ConfigApi], [ConfigApiFacts] (daemon/config_api.go, reload.go): the view and the
      patch of the configuration file, and the reload that follows.
    - [ContainerDetail] (daemon/container_detail.go, containers_http.go): the bounded
      reads of one container. [Registry], [RegistryFacts] (daemon/registry.go): the
      client that asks registries what a tag points at, with its authentication.
      [UpdateCheck], [UpdateCheckFacts] (daemon/updatecheck.go): its answers compared
      with the local images, cached and refreshed in rounds.
    - [Processes] (daemon/collectors.go): the process table and its groups. [DayFiles]:
      one file of JSON lines per day, under both [ProcessHistory],
      [ProcessHistoryFacts] (daemon/process_history.go) and [MetricsHistory],
      [MetricsHistoryFacts] (daemon/metrics.go). [Health] (daemon/health.go): the score
      of a sample, in binary64 arithmetic.
    - [Stdio] (daemon/stdio.go): the request loop over a pipe, as a function of the
      events its select meets.
    - [CloudDB] (database/models.go): the rows, the statements as the class
      [Database] with the laws [DatabaseLaws], and a database that satisfies them.
    - [Cloud], [CloudFacts] (cloud/service.go): the service functions in a monad of
      database state and errors, against the class [Database].
    - [CloudFeedDB], [Localize] (cloud/localization.go), [CloudNotify],
      [CloudNotifyFacts], [CloudTelemetry], [CloudTelemetryFacts] (cloud/service.go): the
      tables of reports and notifications, the texts of alarms, who is notified, and the
      ingestion, heartbeat, silence and retention of what daemons report. [Status] runs
      the status batch of the daemon (daemon/app.go) against that ingestion.
    - [Interleave]: calls served at the same time, a statement of one between two of
      another. [CloudTerminalDB], [CloudTerminal], [CloudTerminalFacts]
      (cloud/terminal.go): terminal sessions, their tickets, leases and waiters as such
      calls; [CloudWakeup]: what a creation does for the poll of its daemon.
      [TerminalPair], [TerminalPairFacts] (handler/terminal.go): the credential of a
      handshake, the registry that pairs two sockets, and the writes of a session's end.
    - [Relay] (handler/routes.go, server/router.go, daemon/relay.go): the handlers of
      the relay, the daemon's [process] and [pollOnce], the two programs together.

    ** What the theorems show

    - Authority. Whatever its command line, the helper runs a command only as
      root, with a sound grant file, and exactly what that file authorises
      ([Run_authorised]); it changes a path only below a granted profile or
      through such a command ([Run_confined]); a grant file is sound or refused
      ([LoadSet_sound]); each attempt is audited once ([Run_audited]).
    - Atomicity and exactness of its operations under any failing system call
      ([Set_Write_atomic], [Set_Remove_exact], [Set_Mkdir_correct]), and of its
      grammars ([safeRel_exact], [ParseArgs_exact], [ParseMode_roundtrip],
      [PackageArgv_safe], [ParseFirewallRule_sound], [FirewallCommands_safe],
      [firewall_delete_undoes]).
    - The file API. A request path belongs to the most specific root or is refused
      ([resolve_exact]); every change is accounted for by the most specific root of a
      path the request names, with writing enabled, and by the helper where that root is
      privileged ([dispatch_confined]; a privileged root nested below what is moved goes
      along unasked, [nested_root_moves]); reading, writing, listing and copying do exactly what
      they promise ([read_exact], [write_then_read], [list_exact],
      [copy_file_exact]). Over HTTP a file is read and changed only for who presents the
      credential where it may be, and with an empty or signed body, but for the raw
      upload ([file_http_confined]); HTTP, pipe and raw upload are the same action
      whatever order each ranges over its maps in ([file_transports_agree]; which of
      several ill-typed members a refusal names depends on it, [which_is_refused]).
    - The hand-over. What the daemon passes is what the helper takes
      ([handover_accepted]), and a write to a privileged root is, end to end, the
      helper's atomic write of the request's body ([privileged_write_refines]).
    - The configuration. A validated configuration satisfies what the rest of the
      program assumes ([ValidateDaemon_sound]), validation is stable
      ([ValidateDaemon_idempotent]) and fragments replace what they cover
      ([fragments_win]).
    - Image references are safe to pass on and stable ([image_reference_sound],
      [pinned_names_agree]); alarms fire exactly when due ([evaluate_exact]) and
      never within their cooldown ([alarm_cooldown]).
    - What the daemon runs. A command runs for a webhook only for its authorised
      caller and is the configured one ([webhook_authorised]); its captured output
      and outcome are exact ([captured_output_exact]); slots are counted
      ([slots_exact]); no caller can slip an option into a planned native operation or
      what it hands to the helper ([plan_arguments_safe]; the service labels of a stack
      update are the exception, [recreate_label]) and a compose operation addresses one store
      ([compose_one_store]); the audit log answers its newest entries
      ([audit_recent_exact]).
    - Tasks, with reloads of their slots. Every reachable state is well formed
      ([tasks_sound]); every run ends, but for the return of its slot when a reload has
      replaced the channel ([runs_terminate], [reload_strands]); a client that polls sees all of the output
      ([follow_exact]), and a task and a held request agree
      ([task_agrees_with_request]).
    - Jobs: one at a time, and never before its time ([jobs_sound]); every job due at a
      tick is started ([due_jobs_start]).
    - Shells. A shell starts only for who is authorised, as an allowed account
      ([shell_authorised]); whatever the interleaving, its client receives the output in
      order and at most one exit, which overtakes output only when the grace for the
      reader ran out ([session_sound], [exit_overtakes]), and a close ends
      ([session_close_ends]).
    - The configuration API. A patch is done as a whole or not at all
      ([patch_config_exact]) and changes the keys it names and nothing else
      ([patch_exact]).
    - Updates. Credentials are only sent where they belong ([credentials_confined]); an
      update badge is the comparison of the local digest with what was published
      ([badges_sound]); a full round covers exactly the containers it listed, with a
      bounded number of requests, and the endpoint shows what is cached of those that
      exist ([update_rounds_exact]; everything cached when none is listed,
      [gone_but_shown]).
    - Stores and samples. The stack registry and the watched list survive failing saves
      ([registry_exact], [watched_exact]); logs are captured once and in order
      ([capture_exact]) and uploaded without loss ([upload_exact]), and alert as
      configured ([log_alerts_exact]); the metrics history survives a restart
      ([metrics_survive]), the process history answers what was recorded
      ([history_exact]), and the health score is the share of what is fine
      ([health_exact]).
    - Transports: [cors_exact] for origins, [stdio_answers] for the pipe. The event
      stream: [hub_sound], and [processes_frames_exact] for the frames shared between
      subscribers.
    - The cloud. Access goes through a confirmed membership and stays with the daemon
      ([account_access_confined]); daemons are created within the quota
      ([daemon_created_exact]), rotated secrets replace the old ([secrets_exact]),
      reports keep their distance ([reports_spaced]); a credential is held to its
      scopes, and to nothing else ([credential_enqueue_exact], [scopes_roundtrip]).
      The relay queue loses nothing, its results are final and its leases exclusive
      ([queue_sound]), a poll hands out what it should ([poll_exact]), and, cloud and
      daemon together, a daemon runs what was queued for it and the result it stores
      is that of the run ([relay_end_to_end]).
    - Reports. A report is stored within bounds and quotas ([heartbeat_exact]), a daemon
      that falls silent is announced once ([disconnect_exact]), a notification is what
      its account's preference says ([notification_exact]), and the containers shown are
      those of the host, daemon and cloud together ([status_end_to_end]).
    - Terminal sessions in the cloud. A ticket opens one socket however the handshakes
      interleave ([ticket_once]), sessions only move forward ([terminal_lifecycle]),
      a creation wakes the parked poll of its daemon, unless two polls share a waiter
      ([wakeup_reaches]), frames are relayed verbatim and in order and the end of a
      session is fixed once, counted exactly in orderly runs and written unless three
      writes fail ([relayed_exact], [end_lost]), and a browser's credential is read back
      ([credential_roundtrip]).
    - Some theorems pin down behaviour that differs from what the code or its
      comments intend: [job_name_stored_untrimmed],
      [alarm_fragment_drops_other_target], [alarm_threshold_exact],
      [write_policy_refusal_exits_io], [fileStatus_answers], [move_escape_is_500],
      [firewalld_never_applied], parts of [copy_file_exact], [captured_output_exact],
      [slots_exact], [audit_recent_exact], [scopes_roundtrip] and
      [credential_enqueue_exact], and the examples [copy_into_itself],
      [copy_link_widens], [pinned_keeps_tag] and [recreate_label].

    ** Bounds

    Recursion is structural wherever the code's is. Elsewhere the fuel is enough
    by a lemma: directory reading takes at most one round per entry of the limit
    plus two ([readDir_loop_run]); [strip] of [GoStr] runs once per byte;
    [octal_digits] and [decimal_digits] have more digits than a 64-bit number.
    The recursion of [copyFileTree] is bounded by [depth], a parameter of every
    definition that reaches it; a tree deeper than that answers [too_deep], and
    [copy_into_itself] shows a case no bound is enough for. Integers are [Z]; the
    places where the width matters ([Atoi], [cooldown_of], [time_Sub], [wrap64]) write
    the bounds out. A task's termination takes every command to end; a push to a
    subscriber takes at most three steps.

    ** Not modelled

    Several processes changing the same tree at once: an operation runs against one file
    system, with faults but no interference. Calls of the cloud other than those on
    terminal sessions are taken one after the other, each statement of a call failing or
    not on its own. The text of messages and JSON is kept as format and arguments, or as
    an interface: what a field contains is modelled, not how it is written. Left out
    because they have no logic of their own: the route tables, start-up and signal
    handling ([cmd], daemon/app.go, server/router.go), the clients of gorm, NATS and
    gRPC, the handlers that only decode a request and encode an answer (most of
    handler/routes.go), and the landing page. Left out because what they reshape
    is the output of tools the repository does not contain: the collectors of
    containers, images, systemd units, databases and logins. The watcher that turns
    events of the configuration file into reloads, and the broadcasters of the stream,
    only decide when a modelled operation runs. *)

From stdpp Require Export base gmap list strings numbers sorting.
From Stdlib Require Ascii String.
From Stdlib Require Export ZArith Lia.
Export Stdlib.Strings.Ascii (ascii(..), nat_of_ascii, ascii_of_nat).
#[export] Set Default Goal Selector "!".

(** ** Go strings

    A Go [string] is a sequence of bytes; it is modelled as a list of
    [ascii] (an 8-bit byte), so the list library applies to it. A literal
    is written [$"..."]. *)
Abbreviation str := (list ascii).

Declare Scope go_scope.
Delimit Scope go_scope with go.
Notation "$ s" := (Stdlib.Strings.String.list_ascii_of_string s%string) (at level 1, s at level 0, format "$ s") : go_scope.
Open Scope go_scope.
Open Scope Z_scope.

(** ** Errors

    Go errors are values. [Errorf] keeps the format string of the source and
    its arguments instead of rendering them, [Errno] is a system call error
    (which [errors.Is] classifies) and [PathEscapes] is the refusal of
    [os.Root]. *)
Inductive errno :=
  | ENOENT | EACCES | EPERM | EEXIST | ENOTEMPTY | EISDIR | ENOTDIR
  | EINVAL | EXDEV | ELOOP | ENOSPC | EIO | EROFS | EBUSY.

Inductive error :=
  | Errno (e : errno)
  | PathEscapes
  | UsageError (fmt : string) (args : list farg)
  | Errorf (fmt : string) (args : list farg)
  | Foreign (tag : string) (args : list farg)
with farg :=
  | FStr (s : str)
  | FInt (z : Z)
  | FErr (e : error).

#[export] Instance errno_eq_dec : EqDecision errno.
Proof. solve_decision. Defined.

(** A Go function returning [(T, error)]. *)
Inductive res (A : Type) :=
  | Ok (a : A)
  | Err (e : error).
Arguments Ok {A} a.
Arguments Err {A} e.

Definition res_bind {A B} (r : res A) (k : A -> res B) : res B :=
  match r with
  | Ok a => k a
  | Err e => Err e
  end.

Notation "'let?' x ':=' r 'in' k" := (res_bind r (fun x => k))
  (at level 10, x pattern, r at level 100, k at level 200,
   format "'[' 'let?'  x  ':='  r  'in' ']' '/' k") : go_scope.

Definition is_ok {A} (r : res A) : bool :=
  match r with Ok _ => true | Err _ => false end.

Lemma res_bind_ok {A B} (r : res A) (k : A -> res B) b :
  res_bind r k = Ok b <-> exists a, r = Ok a /\ k a = Ok b.
Proof. destruct r; simpl; naive_solver. Qed.

(** Guards: [if bad then return error]. *)
Definition guard (bad : bool) (e : error) : res unit :=
  if bad then Err e else Ok tt.

Lemma guard_ok bad e u : guard bad e = Ok u <-> bad = false.
Proof. destruct bad, u; simpl; naive_solver. Qed.

(** ** Automation *)

(** Split a successful chain of [let?] into its steps. *)
Ltac inv_ok :=
  repeat match goal with
  | H : res_bind _ _ = Ok _ |- _ =>
      apply res_bind_ok in H;
      let a := fresh "a" in let H1 := fresh "Hstep" in destruct H as (a & H1 & H)
  | H : guard _ _ = Ok _ |- _ => apply guard_ok in H
  | H : Ok _ = Ok _ |- _ => injection H as H; subst
  | H : Err _ = Ok _ |- _ => discriminate H
  | H : Ok _ = Err _ |- _ => discriminate H
  end.

(** Case analysis on the innermost test of a hypothesis. *)
Ltac break_if_in H :=
  match type of H with
  | context [if ?b then _ else _] =>
      lazymatch b with
      | context [if _ then _ else _] => fail
      | _ => let E := fresh "Hif" in destruct b eqn:E
      end
  end.

Ltac break_if :=
  match goal with
  | |- context [if ?b then _ else _] =>
      let E := fresh "Hif" in destruct b eqn:E
  end.

(** Boolean facts to propositions. *)
Ltac bools :=
  cbv beta in *;
  repeat match goal with
  | H : bool_decide _ = true |- _ => apply bool_decide_eq_true_1 in H
  | H : bool_decide _ = false |- _ => apply bool_decide_eq_false_1 in H
  | H : andb _ _ = true |- _ => apply andb_true_iff in H; destruct H
  | H : orb _ _ = false |- _ => apply orb_false_iff in H; destruct H
  | H : negb _ = true |- _ => apply negb_true_iff in H
  | H : negb _ = false |- _ => apply negb_false_iff in H
  | H : (_ <? _)%Z = true |- _ => apply Z.ltb_lt in H
  | H : (_ <? _)%Z = false |- _ => apply Z.ltb_ge in H
  | H : (_ <=? _)%Z = true |- _ => apply Z.leb_le in H
  | H : (_ <=? _)%Z = false |- _ => apply Z.leb_gt in H
  | H : (_ =? _)%Z = true |- _ => apply Z.eqb_eq in H
  | H : (_ =? _)%Z = false |- _ => apply Z.eqb_neq in H
  end.

Definition is_Some_b {A} (o : option A) : bool := match o with Some _ => true | None => false end.

Create HintDb go.

(** ** Lists *)

Section lists.
Context {A : Type}.
Implicit Types (l k : list A) (x : A).

Lemma Forall_forallb (f : A -> bool) l :
  forallb f l = true <-> Forall (fun x => f x = true) l.
Proof. rewrite forallb_forall, Forall_forall. setoid_rewrite list_elem_of_In. done. Qed.

Lemma app_cons_inj_mid (P : A -> Prop) l1 l2 k1 k2 x y :
  Forall P l1 -> Forall P k1 -> ~ P x -> ~ P y ->
  l1 ++ x :: l2 = k1 ++ y :: k2 -> l1 = k1 /\ x = y /\ l2 = k2.
Proof.
  intros Hl; revert k1; induction Hl as [|a l1 Ha _ IH];
    intros [|b k1] Hk Hx Hy Heq; simpl in *; simplify_eq; [done| | |].
  - apply Forall_cons in Hk as [? _]. done.
  - done.
  - apply Forall_cons in Hk as [_ Hk].
    destruct (IH k1 Hk Hx Hy) as (-> & -> & ->); [|done]. congruence.
Qed.
End lists.

(** First duplicate-free prefix check: [seen] plays the map of the source. *)
Fixpoint nodupb `{EqDecision A} (l : list A) : bool :=
  match l with
  | [] => true
  | x :: l => negb (bool_decide (x ∈ l)) && nodupb l
  end.

Lemma nodupb_spec `{EqDecision A} (l : list A) : nodupb l = true <-> NoDup l.
Proof.
  induction l as [|x l IH]; simpl.
  - split; [constructor|done].
  - rewrite andb_true_iff, negb_true_iff, bool_decide_eq_false, NoDup_cons, IH. done.
Qed.

(** [sort.Strings]: byte-wise lexicographic order, as a merge sort. *)
Fixpoint str_leb (s t : str) : bool :=
  match s, t with
  | [], _ => true
  | _ :: _, [] => false
  | a :: s, b :: t =>
      match Nat.compare (nat_of_ascii a) (nat_of_ascii b) with
      | Lt => true
      | Eq => str_leb s t
      | Gt => false
      end
  end.
Definition str_le (s t : str) : Prop := str_leb s t = true.
#[export] Instance str_le_dec s t : Decision (str_le s t).
Proof. unfold str_le. apply _. Defined.

Lemma str_le_refl s : str_le s s.
Proof.
  unfold str_le. induction s as [|a s IH]; simpl; [done|].
  by rewrite Nat.compare_refl.
Qed.

Lemma str_le_total s t : str_le s t \/ str_le t s.
Proof.
  unfold str_le. revert t. induction s as [|a s IH]; intros [|b t]; simpl; auto.
  rewrite (Nat.compare_antisym (nat_of_ascii a)).
  destruct (Nat.compare _ _); simpl; auto.
Qed.

Lemma nat_of_ascii_inj a b : nat_of_ascii a = nat_of_ascii b -> a = b.
Proof. intros H. rewrite <-(Stdlib.Strings.Ascii.ascii_nat_embedding a), <-(Stdlib.Strings.Ascii.ascii_nat_embedding b). by rewrite H. Qed.

Lemma str_le_trans s t u : str_le s t -> str_le t u -> str_le s u.
Proof.
  unfold str_le. revert t u. induction s as [|a s IH]; intros [|b t] [|c u]; simpl; try done.
  destruct (Nat.compare_spec (nat_of_ascii a) (nat_of_ascii b)) as [E1|L1|G1]; [| |done];
  destruct (Nat.compare_spec (nat_of_ascii b) (nat_of_ascii c)) as [E2|L2|G2]; try done;
  intros H1 H2.
  - rewrite (proj2 (Nat.compare_eq_iff _ _)) by lia. eauto.
  - by rewrite (proj2 (Nat.compare_lt_iff _ _)) by lia.
  - by rewrite (proj2 (Nat.compare_lt_iff _ _)) by lia.
  - by rewrite (proj2 (Nat.compare_lt_iff _ _)) by lia.
Qed.

Lemma str_le_antisym s t : str_le s t -> str_le t s -> s = t.
Proof.
  unfold str_le. revert t. induction s as [|a s IH]; intros [|b t]; simpl; try done.
  rewrite (Nat.compare_antisym (nat_of_ascii a)).
  destruct (Nat.compare_spec (nat_of_ascii a) (nat_of_ascii b)) as [E|L|G]; simpl; try done.
  intros H1 H2. f_equal; [by apply nat_of_ascii_inj|by apply IH].
Qed.

#[export] Instance str_le_Total : Total str_le.
Proof. intros s t. apply str_le_total. Qed.
#[export] Instance str_le_Trans : Transitive str_le.
Proof. intros s t u. apply str_le_trans. Qed.
#[export] Instance str_le_AntiSymm : AntiSymm (=) str_le.
Proof. intros s t. apply str_le_antisym. Qed.

Definition sort_strings (l : list str) : list str := merge_sort str_le l.

Lemma sort_strings_perm l : sort_strings l ≡ₚ l.
Proof. apply merge_sort_Permutation. Qed.
Lemma sort_strings_sorted l : StronglySorted str_le (sort_strings l).
Proof. apply (StronglySorted_merge_sort str_le). Qed.
#[export] Hint Resolve sort_strings_perm sort_strings_sorted : go.

Lemma elem_of_sort_strings s l : s ∈ sort_strings l <-> s ∈ l.
Proof. by rewrite sort_strings_perm. Qed.

Lemma NoDup_sort_strings l : NoDup (sort_strings l) <-> NoDup l.
Proof. by rewrite sort_strings_perm. Qed.

Lemma StronglySorted_filter {A} (R : relation A) (P : A -> Prop) `{forall x, Decision (P x)} l :
  StronglySorted R l -> StronglySorted R (filter P l).
Proof.
  induction 1 as [|x l _ IH Hx]; [constructor|]. rewrite filter_cons. case_decide; [|done]. constructor; [done|].
  apply Forall_forall. intros y [_ Hy]%list_elem_of_filter. by eapply Forall_forall in Hx.
Qed.
(** A sorted list is a fixed point of the sort. *)
Lemma sort_strings_fixed l : StronglySorted str_le l -> sort_strings l = l.
Proof.
  intros Hs. apply (StronglySorted_unique str_le); auto with go.
Qed.
