(* ===== verification/GoStr.v ===== *)
(** * GoStr: the [strings], [strconv] and [fmt] functions the program uses,
    on byte strings. *)

From S2P Require Import Prelude.

(** ** Bytes *)

Definition byte (n : nat) : ascii := ascii_of_nat n.
Definition newline : ascii := byte 10.
Definition code (c : ascii) : nat := nat_of_ascii c.

Lemma code_byte n : (n < 256)%nat -> code (byte n) = n.
Proof. apply Stdlib.Strings.Ascii.nat_ascii_embedding. Qed.

Lemma code_inj c d : code c = code d -> c = d.
Proof. apply nat_of_ascii_inj. Qed.

(** [lo <= c <= hi] on byte values. *)
Definition in_range (lo hi : nat) (c : ascii) : bool :=
  (lo <=? code c)%nat && (code c <=? hi)%nat.

Definition is_lower (c : ascii) : bool := in_range 97 122 c.
Definition is_upper (c : ascii) : bool := in_range 65 90 c.
Definition is_digit (c : ascii) : bool := in_range 48 57 c.
Definition is_ascii (c : ascii) : bool := (code c <? 128)%nat.
(** Printing ASCII: neither a space nor a control byte. *)
Definition is_graphic (c : ascii) : bool := in_range 33 126 c.

Definition ch (s : string) : ascii :=
  match s with
  | Stdlib.Strings.String.String c _ => c
  | Stdlib.Strings.String.EmptyString => byte 0
  end.

(** ** [strings.TrimSpace]

    [lead s] strips one leading white space character: the six ASCII ones or
    the UTF-8 encoding of a Unicode one. [trail] does the same at the end,
    on the reversed string. *)
Definition lead (s : str) : option str :=
  match s with
  | [] => None
  | a :: r1 =>
      let x := code a in
      if in_range 9 13 a || (x =? 32)%nat then Some r1
      else
        match r1 with
        | [] => None
        | b :: r2 =>
            let y := code b in
            if (x =? 194)%nat && ((y =? 133)%nat || (y =? 160)%nat) then Some r2
            else
              match r2 with
              | [] => None
              | c :: r3 =>
                  let z := code c in
                  if (x =? 225)%nat && (y =? 154)%nat && (z =? 128)%nat
                     || (x =? 226)%nat && (y =? 128)%nat &&
                        ((128 <=? z)%nat && (z <=? 138)%nat
                         || (z =? 168)%nat || (z =? 169)%nat || (z =? 175)%nat)
                     || (x =? 226)%nat && (y =? 129)%nat && (z =? 159)%nat
                     || (x =? 227)%nat && (y =? 128)%nat && (z =? 128)%nat
                  then Some r3 else None
              end
        end
  end.

Definition trail (s : str) : option str :=
  match s with
  | [] => None
  | c :: r1 =>
      let z := code c in
      if in_range 9 13 c || (z =? 32)%nat then Some r1
      else
        match r1 with
        | [] => None
        | b :: r2 =>
            let y := code b in
            if (y =? 194)%nat && ((z =? 133)%nat || (z =? 160)%nat) then Some r2
            else
              match r2 with
              | [] => None
              | a :: r3 =>
                  let x := code a in
                  if (x =? 225)%nat && (y =? 154)%nat && (z =? 128)%nat
                     || (x =? 226)%nat && (y =? 128)%nat &&
                        ((128 <=? z)%nat && (z <=? 138)%nat
                         || (z =? 168)%nat || (z =? 169)%nat || (z =? 175)%nat)
                     || (x =? 226)%nat && (y =? 129)%nat && (z =? 159)%nat
                     || (x =? 227)%nat && (y =? 128)%nat && (z =? 128)%nat
                  then Some r3 else None
              end
        end
  end.

Fixpoint strip (f : str -> option str) (fuel : nat) (s : str) : str :=
  match fuel with
  | O => s
  | S fuel => match f s with Some r => strip f fuel r | None => s end
  end.

Definition TrimLeftSpace (s : str) : str := strip lead (List.length s) s.
Definition TrimRightSpace (s : str) : str := rev (strip trail (List.length s) (rev s)).
Definition TrimSpace (s : str) : str := TrimRightSpace (TrimLeftSpace s).

Section strip.
Variable f : str -> option str.
(** What both strippers satisfy: they drop a prefix, and do so whatever follows. *)
Hypothesis f_app : forall s r q, f s = Some r -> f (s ++ q) = Some (r ++ q).
Hypothesis f_suffix : forall s r, f s = Some r -> exists p, p <> [] /\ s = p ++ r.

Lemma strip_none n s : f s = None -> strip f n s = s.
Proof. intros H. destruct n; simpl; [done|]. by rewrite H. Qed.

Lemma strip_done n s : (List.length s <= n)%nat -> f (strip f n s) = None.
Proof.
  revert s. induction n as [|n IH]; intros s Hn; simpl.
  - destruct s; [|simpl in Hn; lia]. destruct (f []) eqn:E; [|done].
    apply f_suffix in E as (p & Hp & E). by destruct p.
  - destruct (f s) as [r|] eqn:E; [|done]. apply IH.
    apply f_suffix in E as (p & Hp & ->). destruct p; [done|].
    rewrite length_app in Hn. simpl in Hn. lia.
Qed.

Lemma strip_suffix n s : exists p, s = p ++ strip f n s.
Proof.
  revert s. induction n as [|n IH]; intros s; simpl; [by exists []|].
  destruct (f s) as [r|] eqn:E; [|by exists []].
  apply f_suffix in E as (p & _ & ->). destruct (IH r) as [q Hq].
  exists (p ++ q). by rewrite <-(assoc_L (++)), <-Hq.
Qed.

Lemma f_prefix_none s q : f (s ++ q) = None -> f s = None.
Proof.
  intros H. destruct (f s) as [r|] eqn:E; [|done].
  apply (f_app s r q) in E. congruence.
Qed.
End strip.

Ltac break_lead H :=
  repeat match type of H with
  | context [match ?l with [] => _ | _ :: _ => _ end] => is_var l; destruct l; simpl in H
  | context [if ?b then _ else _] => let E := fresh "E" in destruct b eqn:E
  end; try discriminate H.

Lemma lead_suffix s r : lead s = Some r -> exists p, p <> [] /\ s = p ++ r.
Proof.
  unfold lead. intros H. break_lead H; injection H as <-;
    first [by exists [a] | by exists [a; a0] | by exists [a; a0; a1]].
Qed.
Lemma trail_suffix s r : trail s = Some r -> exists p, p <> [] /\ s = p ++ r.
Proof.
  unfold trail. intros H. break_lead H; injection H as <-;
    first [by exists [a] | by exists [a; a0] | by exists [a; a0; a1]].
Qed.
Lemma lead_app s r q : lead s = Some r -> lead (s ++ q) = Some (r ++ q).
Proof.
  unfold lead. intros H. break_lead H; injection H as <-; simpl;
    repeat match goal with E : _ = _ |- _ => rewrite E; clear E end; done.
Qed.
Lemma trail_app s r q : trail s = Some r -> trail (s ++ q) = Some (r ++ q).
Proof.
  unfold trail. intros H. break_lead H; injection H as <-; simpl;
    repeat match goal with E : _ = _ |- _ => rewrite E; clear E end; done.
Qed.

Lemma lead_TrimSpace s : lead (TrimSpace s) = None.
Proof.
  unfold TrimSpace, TrimRightSpace.
  destruct (strip_suffix trail trail_suffix (List.length (TrimLeftSpace s)) (rev (TrimLeftSpace s)))
    as [p Hp].
  apply (f_equal (@rev ascii)) in Hp. rewrite rev_involutive, rev_app_distr in Hp.
  apply (f_prefix_none lead lead_app _ (rev p)). rewrite <-Hp.
  unfold TrimLeftSpace. apply (strip_done lead lead_suffix). lia.
Qed.
Lemma trail_TrimSpace s : trail (rev (TrimSpace s)) = None.
Proof.
  unfold TrimSpace, TrimRightSpace. rewrite rev_involutive.
  apply (strip_done trail trail_suffix). by rewrite length_rev.
Qed.

Lemma TrimSpace_fixed s : lead s = None -> trail (rev s) = None -> TrimSpace s = s.
Proof.
  intros H1 H2. unfold TrimSpace, TrimRightSpace, TrimLeftSpace.
  rewrite (strip_none lead _ s H1), (strip_none trail _ _ H2). apply rev_involutive.
Qed.

Lemma TrimSpace_idem s : TrimSpace (TrimSpace s) = TrimSpace s.
Proof. apply TrimSpace_fixed; [apply lead_TrimSpace|apply trail_TrimSpace]. Qed.

Lemma graphic_lead s : Forall (fun c => is_graphic c = true) s -> lead s = None.
Proof.
  unfold lead. destruct s as [|a s]; [done|]. intros [Ha _]%Forall_cons.
  unfold is_graphic, in_range in *. apply andb_true_iff in Ha as [?%Nat.leb_le ?%Nat.leb_le].
  repeat match goal with
  | |- context [(code a =? ?n)%nat] => rewrite (proj2 (Nat.eqb_neq (code a) n)) by lia
  end.
  rewrite (proj2 (Nat.leb_gt (code a) 13)) by lia. rewrite andb_false_r. simpl.
  destruct s as [|? [|? ?]]; done.
Qed.
Lemma graphic_trail_head a s : is_graphic a = true -> trail (a :: s) = None.
Proof.
  unfold trail. intros Ha.
  unfold is_graphic, in_range in *. apply andb_true_iff in Ha as [?%Nat.leb_le ?%Nat.leb_le].
  repeat match goal with
  | |- context [(code a =? ?n)%nat] => rewrite (proj2 (Nat.eqb_neq (code a) n)) by lia
  | |- context [(code a <=? ?n)%nat] => rewrite (proj2 (Nat.leb_gt (code a) n)) by lia
  | |- context [(?n <=? code a)%nat] => rewrite (proj2 (Nat.leb_gt n (code a))) by lia
  end.
  simpl. rewrite ?andb_false_r. destruct s as [|? [|? ?]]; try done.
  all: rewrite ?andb_false_r; try done.
Qed.
Lemma graphic_trail s : Forall (fun c => is_graphic c = true) s -> trail s = None.
Proof. destruct s as [|a s]; [done|]. intros [Ha _]%Forall_cons. by apply graphic_trail_head. Qed.

Lemma TrimSpace_graphic s : Forall (fun c => is_graphic c = true) s -> TrimSpace s = s.
Proof.
  intros H. apply TrimSpace_fixed; [by apply graphic_lead|].
  apply graphic_trail. by apply Forall_rev.
Qed.
#[export] Hint Resolve TrimSpace_graphic : go.

Example TrimSpace_ex : TrimSpace ([byte 194; byte 160] ++ $" a b " ++ [byte 10]) = $"a b".
Proof. reflexivity. Qed.

(** ** [strings.ToLower]

    ASCII letters are mapped here; a string with a non-ASCII byte goes through
    the Unicode tables, which are a parameter. *)
Class Unicode := {
  unicode_ToLower : str -> str;
  unicode_Quote : str -> str;
}.

Definition ascii_lower (c : ascii) : ascii :=
  if is_upper c then byte (code c + 32) else c.

Definition ToLower `{Unicode} (s : str) : str :=
  if forallb is_ascii s then ascii_lower <$> s else unicode_ToLower s.

(** [%q] ([strconv.Quote]) of an ASCII string. *)
Definition hex_digit (n : nat) : ascii := byte (if (n <? 10)%nat then 48 + n else 87 + n).
Definition quote_byte (c : ascii) : str :=
  let n := code c in
  if bool_decide (n = 34 \/ n = 92)%nat then [ch "\"; c]
  else if in_range 32 126 c then [c]
  else if bool_decide (n = 7)%nat then $"\a"
  else if bool_decide (n = 8)%nat then $"\b"
  else if bool_decide (n = 12)%nat then $"\f"
  else if bool_decide (n = 10)%nat then $"\n"
  else if bool_decide (n = 13)%nat then $"\r"
  else if bool_decide (n = 9)%nat then $"\t"
  else if bool_decide (n = 11)%nat then $"\v"
  else $"\x" ++ [hex_digit (n / 16); hex_digit (n mod 16)].
Definition dquote : ascii := byte 34.
Definition Quote `{Unicode} (s : str) : str :=
  if forallb is_ascii s then dquote :: concat (quote_byte <$> s) ++ [dquote]
  else unicode_Quote s.

(** ** Prefixes, suffixes, search *)

Definition HasPrefix (s p : str) : bool := bool_decide (p `prefix_of` s).
Definition HasSuffix (s p : str) : bool := bool_decide (p `suffix_of` s).
Definition TrimPrefix (s p : str) : str :=
  if HasPrefix s p then drop (List.length p) s else s.
Definition has_byte (c : ascii) (s : str) : bool := bool_decide (c ∈ s).
Definition ContainsAny (s chars : str) : bool := existsb (fun c => has_byte c chars) s.

(** [s[:i], s[i+1:]] at the first ([cut]) or last ([cut_last]) index of a byte. *)
Fixpoint cut (c : ascii) (s : str) : option (str * str) :=
  match s with
  | [] => None
  | d :: s =>
      if bool_decide (d = c) then Some ([], s)
      else match cut c s with Some (l, r) => Some (d :: l, r) | None => None end
  end.
Fixpoint cut_last (c : ascii) (s : str) : option (str * str) :=
  match s with
  | [] => None
  | d :: s =>
      match cut_last c s with
      | Some (l, r) => Some (d :: l, r)
      | None => if bool_decide (d = c) then Some ([], s) else None
      end
  end.

(** [strings.Contains]. *)
Fixpoint Contains (s sub : str) : bool :=
  HasPrefix s sub ||
  match s with
  | [] => false
  | _ :: s => Contains s sub
  end.

(** [strings.Split] on a one-byte separator, and [strings.Join]. *)
Fixpoint split_on (c : ascii) (s : str) : list str :=
  match s with
  | [] => [[]]
  | d :: s =>
      if bool_decide (d = c) then [] :: split_on c s
      else match split_on c s with
           | x :: l => (d :: x) :: l
           | [] => [[d]]
           end
  end.
Fixpoint join (sep : str) (l : list str) : str :=
  match l with
  | [] => []
  | [x] => x
  | x :: l => x ++ sep ++ join sep l
  end.

Lemma split_on_ne c s : split_on c s <> [].
Proof. destruct s as [|d s]; simpl; [done|]. case_bool_decide; [done|]. by destruct (split_on c s). Qed.

Lemma join_cons sep x l : l <> [] -> join sep (x :: l) = x ++ sep ++ join sep l.
Proof. by destruct l. Qed.

Lemma join_split c s : join [c] (split_on c s) = s.
Proof.
  induction s as [|d s IH]; simpl; [done|].
  pose proof (split_on_ne c s) as Hne.
  case_bool_decide as Hd; [subst d; rewrite join_cons by done; simpl; by f_equal|].
  destruct (split_on c s) as [|x [|y l]]; [done| |]; simpl in *; by f_equal.
Qed.

Lemma split_on_no_sep c s x : x ∈ split_on c s -> c ∉ x.
Proof.
  revert x. induction s as [|d s IH]; intros x; simpl.
  - intros ->%list_elem_of_singleton. apply not_elem_of_nil.
  - case_bool_decide as Hd.
    + intros [->|H]%elem_of_cons; [apply not_elem_of_nil|by apply IH].
    + destruct (split_on c s) as [|y l].
      * intros ->%list_elem_of_singleton. rewrite list_elem_of_singleton. congruence.
      * intros [->|H]%elem_of_cons.
        -- rewrite not_elem_of_cons. split; [congruence|]. apply IH. constructor.
        -- apply IH. by constructor.
Qed.

Lemma split_on_clean c s : c ∉ s -> split_on c s = [s].
Proof.
  induction s as [|d s IH]; intros H; simpl; [done|].
  apply not_elem_of_cons in H as [H1 H2].
  rewrite bool_decide_eq_false_2 by congruence. by rewrite IH.
Qed.

Lemma split_on_app c s t : c ∉ s -> split_on c (s ++ c :: t) = s :: split_on c t.
Proof.
  induction s as [|d s IH]; intros H; simpl.
  - by rewrite bool_decide_eq_true_2.
  - apply not_elem_of_cons in H as [H1 H2].
    rewrite bool_decide_eq_false_2 by congruence. by rewrite IH.
Qed.

Lemma split_join c l : l <> [] -> Forall (fun x => c ∉ x) l -> split_on c (join [c] l) = l.
Proof.
  intros Hne Hl. induction Hl as [|x l Hx Hl IH]; [done|].
  destruct l as [|y l]; [by apply split_on_clean|].
  rewrite join_cons by done.
  replace (x ++ [c] ++ join [c] (y :: l)) with (x ++ c :: join [c] (y :: l)) by done.
  rewrite split_on_app by done. by rewrite IH.
Qed.

Lemma cut_spec c s l r : cut c s = Some (l, r) <-> s = l ++ c :: r /\ c ∉ l.
Proof.
  revert l. induction s as [|d s IH]; intros l; simpl.
  - split; [done|]. intros [H _]. by destruct l.
  - case_bool_decide as Hd.
    + subst d. split.
      * intros [= <- <-]. split; [done|apply not_elem_of_nil].
      * intros [H Hl]. destruct l as [|e l]; simpl in *; simplify_eq; [done|].
        exfalso. apply Hl. constructor.
    + destruct (cut c s) as [[l' r']|] eqn:E.
      * split.
        -- intros [= <- <-]. destruct (proj1 (IH l') eq_refl) as [-> H].
           split; [done|]. by apply not_elem_of_cons.
        -- intros [H Hl]. destruct l as [|e l]; simpl in *; simplify_eq.
           apply not_elem_of_cons in Hl as [_ Hl].
           assert (Some (l', r') = Some (l, r)) as [= -> ->] by (by apply IH). done.
      * split; [done|]. intros [H Hl]. destruct l as [|e l]; simpl in *; simplify_eq.
        apply not_elem_of_cons in Hl as [_ Hl].
        assert (None = Some (l, r)) by (by apply IH). done.
Qed.

Lemma cut_none c s : cut c s = None <-> c ∉ s.
Proof.
  split.
  - intros H Hin. apply list_elem_of_split in Hin as (l & r & ->).
    revert H. induction l as [|d l IH]; simpl; [by rewrite bool_decide_eq_true_2|].
    case_bool_decide; [done|]. by destruct (cut c (l ++ c :: r)) as [[??]|].
  - intros H. destruct (cut c s) as [[l r]|] eqn:E; [|done].
    apply cut_spec in E as [-> _]. exfalso. apply H. set_solver.
Qed.

Lemma cut_last_spec c s l r : cut_last c s = Some (l, r) <-> s = l ++ c :: r /\ c ∉ r.
Proof.
  revert l r. induction s as [|d s IH]; intros l r; simpl.
  - split; [done|]. intros [H _]. by destruct l.
  - destruct (cut_last c s) as [[l' r']|] eqn:E.
    + destruct (proj1 (IH l' r') eq_refl) as [-> Hr']. split.
      * intros [= <- <-]. done.
      * intros [H Hr]. destruct l as [|e l]; simpl in *; simplify_eq.
        -- exfalso. apply Hr. set_solver.
        -- assert (Some (l', r') = Some (l, r)) as [= -> ->] by (by apply IH). done.
    + case_bool_decide as Hd.
      * subst d. split.
        -- intros [= <- <-]. split; [done|]. intros Hin.
           apply list_elem_of_split in Hin as (p & q & ->).
           clear IH. induction p as [|e p IHp]; simpl in E.
           ++ destruct (cut_last c q) as [[??]|]; [done|]. by rewrite bool_decide_eq_true_2 in E.
           ++ destruct (cut_last c (p ++ c :: q)) as [[??]|]; [done|]. by apply IHp.
        -- intros [H Hr]. destruct l as [|e l]; simpl in *; simplify_eq; [done|].
           assert (None = Some (l, r)) by (by apply IH). done.
      * split; [done|]. intros [H Hr]. destruct l as [|e l]; simpl in *; simplify_eq.
        assert (None = Some (l, r)) by (by apply IH). done.
Qed.

Lemma cut_last_none c s : cut_last c s = None <-> c ∉ s.
Proof.
  split.
  - intros H Hin. apply list_elem_of_split in Hin as (p & q & ->).
    revert H. induction p as [|e p IHp]; simpl; intros H.
    + destruct (cut_last c q) as [[??]|]; [done|]. by rewrite bool_decide_eq_true_2 in H.
    + destruct (cut_last c (p ++ c :: q)) as [[??]|]; [done|]. by apply IHp.
  - intros H. destruct (cut_last c s) as [[l r]|] eqn:E; [|done].
    apply cut_last_spec in E as [-> _]. exfalso. apply H. set_solver.
Qed.

Lemma has_byte_spec c s : has_byte c s = true <-> c ∈ s.
Proof. apply bool_decide_eq_true. Qed.
Lemma has_byte_false c s : has_byte c s = false <-> c ∉ s.
Proof. apply bool_decide_eq_false. Qed.
Lemma HasPrefix_spec s p : HasPrefix s p = true <-> exists r, s = p ++ r.
Proof. unfold HasPrefix, prefix. by rewrite bool_decide_eq_true. Qed.
Lemma TrimPrefix_app s p : TrimPrefix (p ++ s) p = s.
Proof.
  unfold TrimPrefix. rewrite (proj2 (HasPrefix_spec _ _)) by eauto. apply drop_app_length.
Qed.
Lemma ContainsAny_false s chars c : ContainsAny s chars = false -> c ∈ chars -> c ∉ s.
Proof.
  unfold ContainsAny. intros H Hc Hin. apply not_true_iff_false in H. apply H.
  apply existsb_exists. exists c. split; [by apply list_elem_of_In|by apply has_byte_spec].
Qed.

(** ** Numbers *)

Definition digit_val (c : ascii) : Z := Z.of_nat (code c) - 48.

(** [strconv.Atoi]: an optional sign, at least one digit, within [int64]. *)
Definition max_int64 : Z := 9223372036854775807.
Definition min_int64 : Z := -9223372036854775808.
Definition digits_value (s : str) : Z := fold_left (fun v c => 10 * v + digit_val c) s 0.
Definition Atoi (s : str) : option Z :=
  let '(neg, ds) :=
    match s with
    | c :: r => if bool_decide (c = ch "-") then (true, r)
                else if bool_decide (c = ch "+") then (false, r) else (false, s)
    | [] => (false, s)
    end in
  if bool_decide (ds = []) || negb (forallb is_digit ds) then None
  else
    let v := (if neg then -1 else 1) * digits_value ds in
    if (min_int64 <=? v) && (v <=? max_int64) then Some v else None.

(** [fmt.Sprintf("%04o", n)] for [0 <= n]: octal, at least four digits. *)
Fixpoint octal_digits (fuel : nat) (n : Z) : str :=
  match fuel with
  | O => []
  | S fuel =>
      (if n <? 8 then [] else octal_digits fuel (n / 8)) ++ [byte (48 + Z.to_nat (n mod 8))]
  end.
Definition fmt_04o (n : Z) : str :=
  let d := octal_digits 22 n in replicate (4 - List.length d) (ch "0") ++ d.

Example fmt_04o_ex : fmt_04o 420 = $"0644" /\ fmt_04o 493 = $"0755" /\ fmt_04o 4095 = $"7777".
Proof. done. Qed.

(** [fmt.Sprint] of a non-negative decimal. *)
Fixpoint decimal_digits (fuel : nat) (n : Z) : str :=
  match fuel with
  | O => []
  | S fuel =>
      (if n <? 10 then [] else decimal_digits fuel (n / 10)) ++ [byte (48 + Z.to_nat (n mod 10))]
  end.
Definition fmt_d (n : Z) : str :=
  if n <? 0 then ch "-" :: decimal_digits 20 (- n) else decimal_digits 20 n.
