(* ===== verification/Regex.v ===== *)
(** * Regex: anchored regular expressions, as [regexp.MatchString] runs them

    Every pattern of the program is anchored ([^...$]) and ranges over ASCII,
    so a match is membership of the whole byte string in a regular language.
    [matches] decides it by derivatives; [matches_spec] relates it to the
    language, and [all_in], [first_in] and [max_len] read facts off a pattern. *)

From S2P Require Import Prelude GoStr.

Inductive regex :=
  | RNone
  | REps
  | RCls (p : ascii -> bool)
  | RAlt (a b : regex)
  | RCat (a b : regex)
  | RStar (a : regex).

Inductive lang : regex -> str -> Prop :=
  | lang_eps : lang REps []
  | lang_cls p c : p c = true -> lang (RCls p) [c]
  | lang_alt_l a b s : lang a s -> lang (RAlt a b) s
  | lang_alt_r a b s : lang b s -> lang (RAlt a b) s
  | lang_cat a b s t : lang a s -> lang b t -> lang (RCat a b) (s ++ t)
  | lang_star_nil a : lang (RStar a) []
  | lang_star_cons a s t : lang a s -> lang (RStar a) t -> lang (RStar a) (s ++ t).
#[export] Hint Constructors lang : go.

Fixpoint nullable (r : regex) : bool :=
  match r with
  | RNone | RCls _ => false
  | REps | RStar _ => true
  | RAlt a b => nullable a || nullable b
  | RCat a b => nullable a && nullable b
  end.

(** Constructors that drop empty languages, so derivatives stay small. *)
Definition alt (a b : regex) : regex :=
  match a, b with
  | RNone, _ => b
  | _, RNone => a
  | _, _ => RAlt a b
  end.
Definition cat (a b : regex) : regex :=
  match a, b with
  | RNone, _ => RNone
  | REps, _ => b
  | _, RNone => RNone
  | _, _ => RCat a b
  end.

Fixpoint deriv (c : ascii) (r : regex) : regex :=
  match r with
  | RNone | REps => RNone
  | RCls p => if p c then REps else RNone
  | RAlt a b => alt (deriv c a) (deriv c b)
  | RCat a b =>
      if nullable a then alt (cat (deriv c a) b) (deriv c b) else cat (deriv c a) b
  | RStar a => cat (deriv c a) (RStar a)
  end.

Definition matches (r : regex) (s : str) : bool :=
  nullable (fold_left (fun r c => deriv c r) s r).

(** ** Pattern syntax *)

Definition rng (lo hi : string) (c : ascii) : bool := in_range (code (ch lo)) (code (ch hi)) c.
Definition one (s : string) (c : ascii) : bool := has_byte c ($s).
Definition cls (ps : list (ascii -> bool)) : regex := RCls (fun c => existsb (fun p => p c) ps).
Fixpoint seqs (rs : list regex) : regex :=
  match rs with
  | [] => REps
  | [r] => r
  | r :: rs => RCat r (seqs rs)
  end.
Definition opt (r : regex) : regex := RAlt r REps.
Definition plus (r : regex) : regex := RCat r (RStar r).
(** [r{0,n}]: nested optional copies. *)
Fixpoint upto (r : regex) (n : nat) : regex :=
  match n with
  | O => REps
  | S n => opt (RCat r (upto r n))
  end.
Fixpoint exactly (r : regex) (n : nat) : regex :=
  match n with
  | O => REps
  | S n => RCat r (exactly r n)
  end.
(** [r{lo,hi}] and [r{lo,}]. *)
Definition between (r : regex) (lo hi : nat) : regex := RCat (exactly r lo) (upto r (hi - lo)).
Definition at_least (r : regex) (lo : nat) : regex := RCat (exactly r lo) (RStar r).
Definition lit (s : string) : regex := seqs (map (fun c => RCls (fun d => bool_decide (d = c))) ($s)).

(** ** Correctness of the matcher *)

Lemma lang_none_inv s : ~ lang RNone s.
Proof. inversion 1. Qed.
Lemma lang_eps_inv s : lang REps s <-> s = [].
Proof. split; [by inversion 1|intros ->; constructor]. Qed.
Lemma lang_cls_inv p s : lang (RCls p) s <-> exists c, s = [c] /\ p c = true.
Proof. split; [inversion 1; eauto|intros (c & -> & H); by constructor]. Qed.
Lemma lang_alt_inv a b s : lang (RAlt a b) s <-> lang a s \/ lang b s.
Proof. split; [inversion 1; auto|intros [?|?]; auto with go]. Qed.
Lemma lang_cat_inv a b s :
  lang (RCat a b) s <-> exists s1 s2, s = s1 ++ s2 /\ lang a s1 /\ lang b s2.
Proof. split; [inversion 1; eauto|intros (s1 & s2 & -> & ? & ?); by constructor]. Qed.

Lemma lang_alt_smart a b s : lang (alt a b) s <-> lang a s \/ lang b s.
Proof.
  assert (HN : forall s, lang RNone s <-> False) by (intros ?; split; [inversion 1|done]).
  destruct a; [simpl; rewrite HN; tauto|..];
    destruct b; simpl; first [by rewrite lang_alt_inv|rewrite HN; tauto].
Qed.

Lemma lang_cat_smart a b s :
  lang (cat a b) s <-> exists s1 s2, s = s1 ++ s2 /\ lang a s1 /\ lang b s2.
Proof.
  assert (Hr : lang RNone s <-> exists s1 s2, s = s1 ++ s2 /\ lang a s1 /\ lang RNone s2).
  { split; [inversion 1|]. intros (? & ? & _ & _ & H). inversion H. }
  destruct a.
  - simpl. split; [inversion 1|]. intros (? & ? & _ & H & _). inversion H.
  - simpl. setoid_rewrite lang_eps_inv. split; [intros H; by exists [], s|].
    by intros (? & ? & -> & -> & ?).
  - destruct b; simpl; first [done|apply lang_cat_inv].
  - destruct b; simpl; first [done|apply lang_cat_inv].
  - destruct b; simpl; first [done|apply lang_cat_inv].
  - destruct b; simpl; first [done|apply lang_cat_inv].
Qed.

Lemma nullable_spec r : nullable r = true <-> lang r [].
Proof.
  induction r as [| |p|a IHa b IHb|a IHa b IHb|a IHa]; simpl.
  - split; [done|inversion 1].
  - split; auto with go.
  - split; [done|]. rewrite lang_cls_inv. by intros (? & ? & _).
  - by rewrite orb_true_iff, lang_alt_inv, IHa, IHb.
  - rewrite andb_true_iff, lang_cat_inv, IHa, IHb. split.
    + intros [??]. by exists [], [].
    + intros (s1 & s2 & H & ? & ?). symmetry in H. apply app_nil in H as [-> ->]. done.
  - split; auto with go.
Qed.

Lemma lang_star_cons_inv a c s :
  lang (RStar a) (c :: s) -> exists s1 s2, s = s1 ++ s2 /\ lang a (c :: s1) /\ lang (RStar a) s2.
Proof.
  remember (RStar a) as r eqn:Hr. remember (c :: s) as w eqn:Hw. intros H.
  induction H as [| | | | | |a' s1 t Ha _ Ht IH]; try discriminate.
  injection Hr as ->. destruct s1 as [|d s1]; simpl in Hw; [by apply IH|].
  injection Hw as -> <-. eauto.
Qed.

Lemma deriv_spec c r s : lang (deriv c r) s <-> lang r (c :: s).
Proof.
  revert s. induction r as [| |p|a IHa b IHb|a IHa b IHb|a IHa]; intros s; simpl.
  - split; inversion 1.
  - split; inversion 1.
  - rewrite lang_cls_inv. destruct (p c) eqn:E.
    + rewrite lang_eps_inv. split; [intros ->; eauto|by intros (d & [= -> ->] & _)].
    + split; [inversion 1|]. intros (d & [= -> ->] & ?). congruence.
  - by rewrite lang_alt_smart, lang_alt_inv, IHa, IHb.
  - assert (Hc : lang (cat (deriv c a) b) s <->
      exists s1 s2, s = s1 ++ s2 /\ lang a (c :: s1) /\ lang b s2).
    { rewrite lang_cat_smart. by setoid_rewrite IHa. }
    destruct (nullable a) eqn:Ea.
    + rewrite lang_alt_smart, Hc, IHb, lang_cat_inv. split.
      * intros [(s1 & s2 & -> & ? & ?)|H]; [by exists (c :: s1), s2|].
        exists [], (c :: s). apply nullable_spec in Ea. done.
      * intros ([|d s1] & s2 & Heq & H1 & H2); simpl in *; [subst; by right|].
        injection Heq as -> ->. left. eauto.
    + rewrite Hc, lang_cat_inv. split.
      * intros (s1 & s2 & -> & ? & ?). by exists (c :: s1), s2.
      * intros ([|d s1] & s2 & Heq & H1 & H2); simpl in *.
        -- apply nullable_spec in H1. congruence.
        -- injection Heq as -> ->. eauto.
  - rewrite lang_cat_smart. setoid_rewrite IHa. split.
    + intros (s1 & s2 & -> & ? & ?). by apply (lang_star_cons a (c :: s1) s2).
    + intros H. apply lang_star_cons_inv in H as (s1 & s2 & -> & ? & ?). eauto.
Qed.

(** The matcher decides the language. *)
Lemma matches_spec r s : matches r s = true <-> lang r s.
Proof.
  unfold matches. revert r. induction s as [|c s IH]; intros r; simpl.
  - apply nullable_spec.
  - rewrite IH. apply deriv_spec.
Qed.

(** ** Facts read off a pattern *)

Definition all_bytes : list ascii := map ascii_of_nat (seq 0 256).
Lemma elem_of_all_bytes c : c ∈ all_bytes.
Proof.
  unfold all_bytes. apply list_elem_of_In, in_map_iff. exists (code c). split.
  - apply Stdlib.Strings.Ascii.ascii_nat_embedding.
  - apply in_seq. pose proof (Stdlib.Strings.Ascii.nat_ascii_bounded c). unfold code. lia.
Qed.
Definition implies (p q : ascii -> bool) : bool := forallb (fun c => implb (p c) (q c)) all_bytes.
Lemma implies_spec p q : implies p q = true -> forall c, p c = true -> q c = true.
Proof.
  unfold implies. rewrite Forall_forallb, Forall_forall. intros H c Hp.
  specialize (H c (elem_of_all_bytes c)). simpl in H. by rewrite Hp in H.
Qed.

(** Every byte of a match satisfies [q]. *)
Fixpoint all_in (q : ascii -> bool) (r : regex) : bool :=
  match r with
  | RNone | REps => true
  | RCls p => implies p q
  | RAlt a b | RCat a b => all_in q a && all_in q b
  | RStar a => all_in q a
  end.
Lemma all_in_spec q r s : all_in q r = true -> lang r s -> Forall (fun c => q c = true) s.
Proof.
  intros Hq H. induction H; simpl in Hq.
  - constructor.
  - constructor; [|constructor]. by eapply implies_spec.
  - apply andb_true_iff in Hq as [? ?]. auto.
  - apply andb_true_iff in Hq as [? ?]. auto.
  - apply andb_true_iff in Hq as [? ?]. apply Forall_app. auto.
  - constructor.
  - apply Forall_app. auto.
Qed.

(** The first byte of a match, when there is one, satisfies [q]. *)
Fixpoint first_in (q : ascii -> bool) (r : regex) : bool :=
  match r with
  | RNone | REps => true
  | RCls p => implies p q
  | RAlt a b => first_in q a && first_in q b
  | RCat a b => first_in q a && (negb (nullable a) || first_in q b)
  | RStar a => first_in q a
  end.
Lemma first_in_spec q r c s : first_in q r = true -> lang r (c :: s) -> q c = true.
Proof.
  revert s. induction r as [| |p|a IHa b IHb|a IHa b IHb|a IHa]; intros s Hq H; simpl in Hq.
  - by inversion H.
  - by inversion H.
  - apply lang_cls_inv in H as (d & [= -> ->] & H). by eapply implies_spec.
  - apply andb_true_iff in Hq as [??]. apply lang_alt_inv in H as [?|?]; eauto.
  - apply andb_true_iff in Hq as [Ha Hb]. apply lang_cat_inv in H as ([|d s1] & s2 & Heq & H1 & H2).
    + simpl in Heq. subst s2. apply nullable_spec in H1. rewrite H1 in Hb. eauto.
    + injection Heq as -> ->. eauto.
  - apply lang_star_cons_inv in H as (s1 & s2 & _ & H & _). eauto.
Qed.

(** A bound on the length of a match. *)
Fixpoint max_len (r : regex) : option nat :=
  match r with
  | RNone | REps => Some O
  | RCls _ => Some 1%nat
  | RAlt a b =>
      match max_len a, max_len b with Some n, Some m => Some (Nat.max n m) | _, _ => None end
  | RCat a b =>
      match max_len a, max_len b with Some n, Some m => Some (n + m)%nat | _, _ => None end
  | RStar _ => None
  end.
Lemma max_len_spec r n s : max_len r = Some n -> lang r s -> (List.length s <= n)%nat.
Proof.
  intros Hn H. revert n Hn. induction H; intros n Hn; simpl in Hn; simplify_eq; simpl; try lia;
    destruct (max_len a) as [x|] eqn:Ea; simplify_eq;
    destruct (max_len b) as [y|] eqn:Eb; simplify_eq.
  - specialize (IHlang _ eq_refl). lia.
  - specialize (IHlang _ eq_refl). lia.
  - rewrite length_app. specialize (IHlang1 _ eq_refl). specialize (IHlang2 _ eq_refl). lia.
Qed.

(** The three readings, from a successful match. *)
Lemma matches_all q r s : all_in q r = true -> matches r s = true -> Forall (fun c => q c = true) s.
Proof. intros ? ?%matches_spec. by eapply all_in_spec. Qed.
Lemma matches_first q r c s : first_in q r = true -> matches r (c :: s) = true -> q c = true.
Proof. intros ? ?%matches_spec. by eapply first_in_spec. Qed.
Lemma matches_len r n s : max_len r = Some n -> matches r s = true -> (List.length s <= n)%nat.
Proof. intros ? ?%matches_spec. by eapply max_len_spec. Qed.
Lemma matches_nonempty r s : nullable r = false -> matches r s = true -> s <> [].
Proof. intros Hn Hm ->. unfold matches in Hm. simpl in Hm. congruence. Qed.

(** No byte of a match is [c]. *)
Lemma matches_no c r s :
  all_in (fun d => negb (bool_decide (d = c))) r = true -> matches r s = true -> c ∉ s.
Proof.
  intros Ha Hm Hin. pose proof (matches_all _ _ _ Ha Hm) as HF.
  rewrite Forall_forall in HF. specialize (HF _ Hin). simpl in HF.
  by rewrite bool_decide_eq_true_2 in HF.
Qed.
