(* ===== verification/GoPath.v ===== *)
(** * GoPath: [path/filepath] on Unix

    [Clean] is the lexical normalisation every path check of the program
    starts from. Its results are characterised by component lists: a clean
    absolute path is [abs_path l] and a clean relative one [rel_path l], so
    that the string tests of the program become prefix tests on components. *)

From S2P Require Import Prelude GoStr.

Definition slash : ascii := ch "/".
Definition dot : str := $".".
Definition dotdot : str := $"..".

Definition IsAbs (p : str) : bool := HasPrefix p [slash].

(** The components between separators, empty ones dropped. *)
Definition components (p : str) : list str := filter (fun x => x <> []) (split_on slash p).

(** One left-to-right pass; [stack] holds the output components, last first. *)
Fixpoint clean_stack (rooted : bool) (stack : list str) (l : list str) : list str :=
  match l with
  | [] => stack
  | x :: l =>
      if bool_decide (x = dot) then clean_stack rooted stack l
      else if bool_decide (x = dotdot) then
        match stack with
        | t :: stack' =>
            if bool_decide (t = dotdot) then clean_stack rooted (dotdot :: stack) l
            else clean_stack rooted stack' l
        | [] => clean_stack rooted (if rooted then [] else [dotdot]) l
        end
      else clean_stack rooted (x :: stack) l
  end.

Definition clean_comps (rooted : bool) (l : list str) : list str := rev (clean_stack rooted [] l).

Definition abs_path (l : list str) : str := slash :: join [slash] l.
Definition rel_path (l : list str) : str := if bool_decide (l = []) then dot else join [slash] l.

(** [filepath.Clean]. *)
Definition Clean (p : str) : str :=
  if bool_decide (p = []) then dot
  else if IsAbs p then abs_path (clean_comps true (components p))
  else rel_path (clean_comps false (components p)).

(** [filepath.Join]: leading empty elements are ignored. *)
Fixpoint Join (elems : list str) : str :=
  match elems with
  | [] => []
  | e :: rest => if bool_decide (e = []) then Join rest else Clean (join [slash] elems)
  end.

(** [filepath.Dir] and [filepath.Base]. *)
Definition Dir (p : str) : str :=
  match cut_last slash p with
  | Some (l, _) => Clean (l ++ [slash])
  | None => dot
  end.
Definition Base (p : str) : str :=
  if bool_decide (p = []) then dot
  else match last (components p) with
       | Some x => x
       | None => [slash]
       end.

Example Clean_ex :
  Clean ($"/a/./b//../c/") = $"/a/c" /\ Clean ($"a/../../b") = $"../b" /\
  Clean ($"/../x") = $"/x" /\ Clean ($"a/..") = $"." /\ Clean ($"") = $".".
Proof. done. Qed.
Example Dir_ex : Dir ($"a/b/c.txt") = $"a/b" /\ Dir ($"x") = $"." /\ Dir ($"/x") = $"/".
Proof. done. Qed.
Example Base_ex : Base ($"/a/b/") = $"b" /\ Base ($"/") = $"/".
Proof. done. Qed.

(** ** Components *)

(** A file name: what a directory entry can be called. *)
Definition name_ok (x : str) : Prop := x <> [] /\ slash ∉ x.
(** A component of a clean path below the starting point. *)
Definition proper (x : str) : Prop := name_ok x /\ x <> dot /\ x <> dotdot.
#[export] Instance name_ok_dec x : Decision (name_ok x).
Proof. unfold name_ok. apply _. Defined.
#[export] Instance proper_dec x : Decision (proper x).
Proof. unfold proper. apply _. Defined.

Lemma proper_name_ok x : proper x -> name_ok x.
Proof. by intros [? _]. Qed.
#[export] Hint Resolve proper_name_ok : go.
Lemma Forall_proper_name l : Forall proper l -> Forall name_ok l.
Proof. intros H. eapply Forall_impl; [apply H|]. auto with go. Qed.
#[export] Hint Resolve Forall_proper_name : go.

Lemma components_name_ok p : Forall name_ok (components p).
Proof.
  apply Forall_forall. intros x [Hx Hin]%list_elem_of_filter.
  split; [done|]. by eapply split_on_no_sep.
Qed.
#[export] Hint Resolve components_name_ok : go.

Lemma filter_id {A} (P : A -> Prop) `{forall x, Decision (P x)} l : Forall P l -> filter P l = l.
Proof.
  induction 1 as [|x l Hx _ IH]; [done|]. rewrite filter_cons. case_decide; [by rewrite IH|done].
Qed.

Lemma components_join l : Forall name_ok l -> components (join [slash] l) = l.
Proof.
  intros Hl. destruct l as [|x l]; [done|]. unfold components.
  rewrite split_join; [|done|].
  - apply filter_id. by eapply Forall_impl; [apply Hl|]; intros ? [? _].
  - by eapply Forall_impl; [apply Hl|]; intros ? [_ ?].
Qed.

Lemma components_slash p : components (slash :: p) = components p.
Proof. unfold components. simpl. by rewrite filter_cons_False by naive_solver. Qed.

Lemma components_abs l : Forall name_ok l -> components (abs_path l) = l.
Proof. intros. unfold abs_path. by rewrite components_slash, components_join. Qed.

Lemma components_app_slash p q : components (p ++ slash :: q) = components p ++ components q.
Proof.
  unfold components. rewrite <-filter_app. f_equal.
  induction p as [|c p IH]; simpl; [done|]. case_bool_decide; simpl; [by f_equal|].
  rewrite IH. pose proof (split_on_ne slash p). by destruct (split_on slash p).
Qed.

Lemma components_join2 l k : l <> [] -> k <> [] ->
  join [slash] (l ++ k) = join [slash] l ++ slash :: join [slash] k.
Proof.
  intros Hl Hk. induction l as [|x l IH]; [done|].
  destruct l as [|y l].
  - simpl. destruct k; [done|]. done.
  - simpl app in *. rewrite !join_cons by done. rewrite IH by done.
    by rewrite <-!(assoc_L (++)).
Qed.

Lemma IsAbs_abs l : IsAbs (abs_path l) = true.
Proof. apply HasPrefix_spec. by eexists. Qed.
Lemma IsAbs_spec p : IsAbs p = true <-> exists q, p = slash :: q.
Proof. unfold IsAbs. apply HasPrefix_spec. Qed.

Lemma join_head l : Forall name_ok l -> l <> [] -> exists c s, join [slash] l = c :: s /\ c <> slash.
Proof.
  intros [|x l' [Hx Hs] _] Hne; [done|]. destruct x as [|c x]; [done|].
  apply not_elem_of_cons in Hs as [Hs _]. exists c.
  destruct l'; simpl; eauto.
Qed.

Lemma IsAbs_join l : Forall name_ok l -> IsAbs (join [slash] l) = false.
Proof.
  intros Hl. apply not_true_iff_false. intros [q Hq]%IsAbs_spec.
  destruct l as [|x l]; [done|]. destruct (join_head (x :: l)) as (c & s & Heq & Hc); [done..|].
  congruence.
Qed.

Lemma join_inj l k : Forall name_ok l -> Forall name_ok k -> join [slash] l = join [slash] k -> l = k.
Proof. intros Hl Hk H. rewrite <-(components_join l), <-(components_join k) by done. by rewrite H. Qed.

(** ** What [Clean] returns *)

(** A rooted stack never holds ".."; a relative one holds them at the bottom. *)
Lemma clean_stack_rooted st l :
  Forall proper st -> Forall name_ok l -> Forall proper (clean_stack true st l).
Proof.
  intros Hst Hl. revert st Hst. induction Hl as [|x l Hx Hl IH]; intros st Hst; simpl; [done|].
  case_bool_decide; [by apply IH|]. case_bool_decide.
  - destruct Hst as [|t st Ht Hst]; [by apply IH; constructor|].
    case_bool_decide; [|by apply IH]. destruct Ht as (_ & _ & ?). done.
  - apply IH. by constructor.
Qed.

Definition rel_stack (st : list str) : Prop :=
  exists n l, st = l ++ replicate n dotdot /\ Forall proper l.

Lemma clean_stack_rel st l :
  rel_stack st -> Forall name_ok l -> rel_stack (clean_stack false st l).
Proof.
  intros Hst Hl. revert st Hst. induction Hl as [|x l Hx Hl IH]; intros st Hst; simpl; [done|].
  case_bool_decide; [by apply IH|]. case_bool_decide; [|apply IH].
  - destruct Hst as (n & k & -> & Hk). destruct Hk as [|t k Ht Hk]; simpl.
    + destruct n as [|n]; simpl; [apply IH; by exists 1%nat, []|].
      apply IH. by exists (S (S n)), [].
    + case_bool_decide; [destruct Ht as (_ & _ & ?); done|]. apply IH. by exists n, k.
  - destruct Hst as (n & k & -> & Hk). exists n, (x :: k). split; [done|]. by constructor.
Qed.

Lemma clean_comps_rooted p : Forall proper (clean_comps true (components p)).
Proof. apply Forall_rev, clean_stack_rooted; auto with go. Qed.

Lemma clean_comps_rel p :
  exists n l, clean_comps false (components p) = replicate n dotdot ++ l /\ Forall proper l.
Proof.
  destruct (clean_stack_rel [] (components p)) as (n & l & Heq & Hl); [by exists O, []|auto with go|].
  exists n, (rev l). unfold clean_comps. rewrite Heq, rev_app_distr. split; [|by apply Forall_rev].
  f_equal. clear. induction n as [|n IH]; [done|].
  change (rev (dotdot :: replicate n dotdot) = replicate (S n) dotdot). simpl rev. rewrite IH.
  by rewrite <-replicate_S_end.
Qed.

Lemma Clean_abs p : IsAbs p = true -> exists l, Clean p = abs_path l /\ Forall proper l.
Proof.
  intros H. unfold Clean. rewrite H. case_bool_decide; [by subst|].
  eexists. split; [done|]. apply clean_comps_rooted.
Qed.

Lemma Clean_rel p : IsAbs p = false ->
  exists n l, Clean p = rel_path (replicate n dotdot ++ l) /\ Forall proper l.
Proof.
  intros H. unfold Clean. rewrite H. case_bool_decide; [by exists O, []|].
  destruct (clean_comps_rel p) as (n & l & -> & ?). by exists n, l.
Qed.

(** ** [Clean] is idempotent *)

Lemma dot_name_ok : name_ok dot.
Proof. by apply (bool_decide_unpack _). Qed.
Lemma dotdot_name_ok : name_ok dotdot.
Proof. by apply (bool_decide_unpack _). Qed.
#[export] Hint Resolve dot_name_ok dotdot_name_ok : go.

Lemma dots_name_ok n l : Forall proper l -> Forall name_ok (replicate n dotdot ++ l).
Proof. intros. apply Forall_app. split; [|auto with go]. apply Forall_replicate. auto with go. Qed.
#[export] Hint Resolve dots_name_ok : go.

Lemma clean_stack_proper rooted st l :
  Forall proper l -> clean_stack rooted st l = rev l ++ st.
Proof.
  intros Hl. revert st. induction Hl as [|x l (_ & H1 & H2) _ IH]; intros st; simpl; [done|].
  rewrite !bool_decide_eq_false_2 by done. rewrite IH. by rewrite <-(assoc_L (++)).
Qed.

Lemma clean_stack_dots n k l :
  clean_stack false (replicate k dotdot) (replicate n dotdot ++ l)
  = clean_stack false (replicate (n + k) dotdot) l.
Proof.
  revert k. induction n as [|n IH]; intros k; simpl; [done|].
  destruct k as [|k]; simpl.
  - specialize (IH 1%nat). simpl in IH. rewrite IH. by rewrite Nat.add_1_r, Nat.add_0_r.
  - specialize (IH (S (S k))). simpl in IH. rewrite IH.
    by replace (n + S (S k))%nat with (S (n + S k)) by lia.
Qed.

Lemma rev_replicate {A} n (x : A) : rev (replicate n x) = replicate n x.
Proof.
  induction n as [|n IH]; [done|]. simpl. rewrite IH. by rewrite <-replicate_S_end.
Qed.

Lemma Clean_abs_path l : Forall proper l -> Clean (abs_path l) = abs_path l.
Proof.
  intros Hl. unfold Clean. rewrite IsAbs_abs. rewrite bool_decide_eq_false_2 by done.
  rewrite components_abs by auto with go. unfold clean_comps.
  by rewrite clean_stack_proper, app_nil_r, rev_involutive.
Qed.

Lemma rel_path_ne l : Forall name_ok l -> rel_path l <> [].
Proof.
  intros Hl. unfold rel_path. case_bool_decide; [done|].
  destruct (join_head l) as (c & s & -> & _); done.
Qed.
Lemma components_rel_path l :
  Forall name_ok l -> components (rel_path l) = if bool_decide (l = []) then [dot] else l.
Proof. intros Hl. unfold rel_path. case_bool_decide; [done|by apply components_join]. Qed.
Lemma IsAbs_rel_path l : Forall name_ok l -> IsAbs (rel_path l) = false.
Proof. intros. unfold rel_path. case_bool_decide; [done|by apply IsAbs_join]. Qed.

Lemma Clean_rel_path n l : Forall proper l ->
  Clean (rel_path (replicate n dotdot ++ l)) = rel_path (replicate n dotdot ++ l).
Proof.
  intros Hl. assert (Hk : Forall name_ok (replicate n dotdot ++ l)) by auto with go.
  unfold Clean. rewrite bool_decide_eq_false_2 by by apply rel_path_ne.
  rewrite IsAbs_rel_path, components_rel_path by done.
  unfold clean_comps. case_bool_decide as E; [by rewrite E|].
  pose proof (clean_stack_dots n 0 l) as Hd. simpl in Hd.
  rewrite Hd, Nat.add_0_r, clean_stack_proper by done.
  by rewrite rev_app_distr, rev_involutive, rev_replicate.
Qed.

Lemma Clean_Clean p : Clean (Clean p) = Clean p.
Proof.
  destruct (IsAbs p) eqn:E.
  - destruct (Clean_abs p E) as (l & -> & ?). by apply Clean_abs_path.
  - destruct (Clean_rel p E) as (n & l & -> & ?). by apply Clean_rel_path.
Qed.

(** ** Staying inside

    The tests of [safeRel] leave exactly the relative paths below the start. *)
Lemma Clean_inside p :
  IsAbs p = false -> Clean p <> dot -> Clean p <> dotdot ->
  HasPrefix (Clean p) (dotdot ++ [slash]) = false ->
  exists l, l <> [] /\ Forall proper l /\ Clean p = join [slash] l.
Proof.
  intros Hp H1 H2 H3. destruct (Clean_rel p Hp) as (n & l & Heq & Hl).
  rewrite Heq in *. unfold rel_path in *. case_bool_decide as E; [done|].
  destruct n as [|n]; [by exists l|]. exfalso. simpl in *.
  destruct (replicate n dotdot ++ l) as [|y k] eqn:Ek; [done|].
  apply not_true_iff_false in H3. apply H3. apply HasPrefix_spec.
  exists (join [slash] (y :: k)). done.
Qed.

(** [pathInside]'s string test, on clean absolute paths, is a component prefix. *)
Lemma abs_path_inj l k : Forall name_ok l -> Forall name_ok k -> abs_path l = abs_path k -> l = k.
Proof. unfold abs_path. intros ?? [= H]. by apply join_inj. Qed.

Lemma abs_path_app l k : l <> [] -> k <> [] -> abs_path (l ++ k) = abs_path l ++ slash :: join [slash] k.
Proof. intros. unfold abs_path. by rewrite components_join2. Qed.

Lemma abs_path_prefix l k :
  Forall name_ok l -> Forall name_ok k -> l <> [] ->
  HasPrefix (abs_path k) (abs_path l ++ [slash]) = true <->
  exists m, m <> [] /\ k = l ++ m.
Proof.
  intros Hl Hk Hne. rewrite HasPrefix_spec. split.
  - intros [r Hr]. rewrite <-(assoc_L (++)) in Hr. simpl in Hr. pose proof Hr as Hs.
    apply (f_equal components) in Hr.
    rewrite components_abs in Hr by done.
    change (slash :: join [slash] l ++ slash :: r) with (abs_path l ++ slash :: r) in Hr.
    rewrite components_app_slash, components_abs in Hr by done.
    exists (components r). split; [|done].
    intros E. rewrite E, app_nil_r in Hr. subst k. apply (f_equal (@List.length _)) in Hs.
    simpl in Hs. rewrite length_app in Hs. simpl in Hs. lia.
  - intros (m & Hm & ->). rewrite abs_path_app by done. exists (join [slash] m).
    by rewrite <-(assoc_L (++)).
Qed.
