(* ===== verification/GoOS.v ===== *)
(** * GoOS: the file system as the [os] package presents it

    A file system is a finite map from physical paths (component lists) to
    nodes. Every operation the program performs through [os] and [os.Root] is a
    state transformer on a [world], which also carries the process umask, the
    order [ReadDir] returns names in, and a script of injected faults: each
    system call consumes one entry, and [Some (e, n)] makes it fail with [e]
    (a short write leaves [n] bytes). Theorems quantify over the script, so they
    hold whatever call fails.

    Path resolution follows symbolic links component by component with the
    budget of the kernel or of [os.Root]; the latter refuses a step above the
    root and an absolute link ([PathEscapes]). *)

From S2P Require Import Prelude GoStr GoPath.

Abbreviation fpath := (list str).

Inductive content :=
  | CFile (data : str)
  | CDir
  | CLink (target : str)
  | COther.
#[export] Instance content_eq_dec : EqDecision content.
Proof. solve_decision. Defined.

Record node := Node { n_kind : content; n_perm : Z; n_uid : Z }.

Abbreviation fsys := (gmap fpath node).

Record world := World {
  w_fs : fsys;
  w_umask : Z;
  w_euid : Z;
  w_order : list str -> list str;
  w_faults : list (option (errno * nat));
}.

Definition set_fs (fs : fsys) (w : world) : world :=
  World fs (w_umask w) (w_euid w) (w_order w) (w_faults w).

(** ** The state monad *)

Definition M (A : Type) : Type := world -> A * world.

Definition ret {A} (a : A) : M A := fun w => (a, w).
Definition bind {A B} (m : M A) (k : A -> M B) : M B :=
  fun w => let '(a, w') := m w in k a w'.
(** Error-propagating bind: [if err != nil { return err }]. *)
Definition tryM {A B} (m : M (res A)) (k : A -> M (res B)) : M (res B) :=
  bind m (fun r => match r with Ok a => k a | Err e => ret (Err e) end).
Definition get_fs : M fsys := fun w => (w_fs w, w).
Definition lift {A} (r : res A) : M (res A) := ret r.

Notation "'do' x ':=' m 'in' k" := (bind m (fun x => k))
  (at level 10, x pattern, m at level 100, k at level 200,
   format "'[' 'do'  x  ':='  m  'in' ']' '/' k") : go_scope.
Notation "'let*' x ':=' m 'in' k" := (tryM m (fun x => k))
  (at level 10, x pattern, m at level 100, k at level 200,
   format "'[' 'let*'  x  ':='  m  'in' ']' '/' k") : go_scope.

(** One system call: take the next fault, or run. *)
Definition next_fault : M (option (errno * nat)) :=
  fun w =>
    match w_faults w with
    | [] => (None, w)
    | f :: fs => (f, World (w_fs w) (w_umask w) (w_euid w) (w_order w) fs)
    end.
Definition syscall {A} (f : fsys -> res (A * fsys)) : M (res A) :=
  do flt := next_fault in
  match flt with
  | Some (e, _) => ret (Err (Errno e))
  | None =>
      fun w =>
        match f (w_fs w) with
        | Ok (a, fs) => (Ok a, set_fs fs w)
        | Err e => (Err e, w)
        end
  end.
(** A call that only reads. *)
Definition query {A} (f : fsys -> res A) : M (res A) :=
  syscall (fun fs => let? a := f fs in Ok (a, fs)).

(** ** Path resolution *)

(** What may stand at the last component: a directory only, or anything,
    following a link there or not. *)
Inductive last_mode := LDir | LFollow | LNoFollow.
#[export] Instance last_mode_eq_dec : EqDecision last_mode.
Proof. solve_decision. Defined.

Section walk.
Variable look : fpath -> option content.
Variable confined : bool.
Variable mode : last_mode.

Fixpoint walk (budget : nat) : fpath -> list str -> res fpath :=
  fix go (cur : fpath) (rest : list str) {struct rest} : res fpath :=
    match rest with
    | [] => Ok cur
    | x :: rest' =>
        if bool_decide (x = dot) then go cur rest'
        else if bool_decide (x = dotdot) then
          if bool_decide (cur = []) then
            if confined then Err PathEscapes else go [] rest'
          else go (removelast cur) rest'
        else
          let p := cur ++ [x] in
          let final := bool_decide (rest' = []) in
          match look p with
          | Some CDir => go p rest'
          | Some (CLink t) =>
              if final && bool_decide (mode = LNoFollow) then Ok p
              else
                match budget with
                | O => Err (Errno ELOOP)
                | S budget =>
                    if IsAbs t then
                      if confined then Err PathEscapes
                      else walk budget [] (components t ++ rest')
                    else walk budget cur (components t ++ rest')
                end
          | Some _ => if final && negb (bool_decide (mode = LDir)) then Ok p else Err (Errno ENOTDIR)
          | None => if final && negb (bool_decide (mode = LDir)) then Ok p else Err (Errno ENOENT)
          end
    end.
End walk.

(** Links followed at most: [rootMaxSymlinks] of [os.Root], and the kernel's. *)
Definition rootMaxSymlinks : nat := 8.
Definition kernelMaxSymlinks : nat := 40.

Definition look_in (fs : fsys) (base p : fpath) : option content := n_kind <$> fs !! (base ++ p).

(** A path handed to an [os.Root] opened at [base]. *)
Definition root_resolve (fs : fsys) (base : fpath) (mode : last_mode) (rel : str) : res fpath :=
  if IsAbs rel then Err PathEscapes
  else
    let? p := walk (look_in fs base) true mode rootMaxSymlinks [] (components rel) in
    Ok (base ++ p).
(** An absolute path handed to the kernel. *)
Definition os_resolve (fs : fsys) (mode : last_mode) (path : str) : res fpath :=
  walk (look_in fs []) false mode kernelMaxSymlinks [] (components path).

Definition must_exist (fs : fsys) (p : fpath) : res node :=
  match fs !! p with Some n => Ok n | None => Err (Errno ENOENT) end.
Definition is_dir (n : node) : bool := bool_decide (n_kind n = CDir).
Definition is_link (n : node) : bool := match n_kind n with CLink _ => true | _ => false end.
Definition is_regular (n : node) : bool := match n_kind n with CFile _ => true | _ => false end.
(** [info.Size()]: the bytes of a file or of a link's target; what a directory
    or another node reports is up to the system, 0 here. *)
Definition file_size (n : node) : Z :=
  match n_kind n with CFile d | CLink d => Z.of_nat (List.length d) | _ => 0 end.

(** ** Package [os] *)

Definition os_Lstat (path : str) : M (res node) :=
  query (fun fs => let? p := os_resolve fs LNoFollow path in must_exist fs p).
Definition os_Stat (path : str) : M (res node) :=
  query (fun fs => let? p := os_resolve fs LFollow path in must_exist fs p).
Definition EvalSymlinks (path : str) : M (res str) :=
  query (fun fs =>
    let? p := os_resolve fs LFollow path in
    let? _ := must_exist fs p in
    Ok (abs_path p)).
Definition os_ReadFile (path : str) : M (res str) :=
  query (fun fs =>
    let? p := os_resolve fs LFollow path in
    let? n := must_exist fs p in
    match n_kind n with
    | CFile d => Ok d
    | CDir => Err (Errno EISDIR)
    | _ => Err (Errno EINVAL)
    end).
(** [os.OpenRoot]: the handle is the directory's physical path. *)
Definition OpenRoot (path : str) : M (res fpath) :=
  query (fun fs => os_resolve fs LDir path).

(** ** [os.Root] *)

Definition Root_Lstat (root : fpath) (rel : str) : M (res node) :=
  query (fun fs => let? p := root_resolve fs root LNoFollow rel in must_exist fs p).
Definition Root_Stat (root : fpath) (rel : str) : M (res node) :=
  query (fun fs => let? p := root_resolve fs root LFollow rel in must_exist fs p).
Definition Root_Readlink (root : fpath) (rel : str) : M (res str) :=
  query (fun fs =>
    let? p := root_resolve fs root LNoFollow rel in
    let? n := must_exist fs p in
    match n_kind n with CLink t => Ok t | _ => Err (Errno EINVAL) end).
(** Open for reading: the handle is the physical path. *)
Definition Root_Open (root : fpath) (rel : str) : M (res fpath) :=
  query (fun fs =>
    let? p := root_resolve fs root LFollow rel in
    let? _ := must_exist fs p in
    Ok p).

Definition apply_umask (umask perm : Z) : Z := Z.land perm (Z.lnot umask).

Definition with_umask {A} (k : Z -> Z -> M A) : M A := fun w => k (w_umask w) (w_euid w) w.

(** [OpenFile(rel, O_WRONLY|O_CREATE|O_EXCL, perm)]. *)
Definition Root_CreateExcl (root : fpath) (rel : str) (perm : Z) : M (res fpath) :=
  with_umask (fun umask uid => syscall (fun fs =>
    let? p := root_resolve fs root LNoFollow rel in
    match fs !! p with
    | Some _ => Err (Errno EEXIST)
    | None => Ok (p, <[p := Node (CFile []) (apply_umask umask perm) uid]> fs)
    end)).
(** [OpenFile(rel, O_WRONLY|O_CREATE|O_TRUNC, perm)]. *)
Definition Root_CreateTrunc (root : fpath) (rel : str) (perm : Z) : M (res fpath) :=
  with_umask (fun umask uid => syscall (fun fs =>
    let? p := root_resolve fs root LFollow rel in
    match fs !! p with
    | Some n =>
        match n_kind n with
        | CFile _ => Ok (p, <[p := Node (CFile []) (n_perm n) (n_uid n)]> fs)
        | CDir => Err (Errno EISDIR)
        | CLink _ => Err (Errno ELOOP)
        | COther => Ok (p, fs)
        end
    | None => Ok (p, <[p := Node (CFile []) (apply_umask umask perm) uid]> fs)
    end)).

Definition append_data (n : node) (data : str) : node :=
  match n_kind n with
  | CFile d => Node (CFile (d ++ data)) (n_perm n) (n_uid n)
  | _ => n
  end.

(** [file.Write] on an open handle: all of [data], or a short write. *)
Definition File_Write (h : fpath) (data : str) : M (res unit) :=
  do flt := next_fault in
  fun w =>
    match flt with
    | Some (e, n) => (Err (Errno e), set_fs (alter (fun x => append_data x (take n data)) h (w_fs w)) w)
    | None => (Ok tt, set_fs (alter (fun x => append_data x data) h (w_fs w)) w)
    end.
Definition set_perm (perm : Z) (n : node) : node := Node (n_kind n) perm (n_uid n).
Definition File_Chmod (h : fpath) (perm : Z) : M (res unit) :=
  syscall (fun fs => Ok (tt, alter (set_perm perm) h fs)).
Definition File_Sync (h : fpath) : M (res unit) := query (fun _ => Ok tt).
Definition File_Close (h : fpath) : M (res unit) := query (fun _ => Ok tt).
Definition File_Stat (h : fpath) : M (res node) := query (fun fs => must_exist fs h).
Definition File_Seek (h : fpath) : M (res unit) := query (fun _ => Ok tt).
(** The bytes of a regular file from [off], at most [n] of them. *)
Definition read_at (n : node) (off len : Z) : str :=
  match n_kind n with CFile d => take (Z.to_nat len) (drop (Z.to_nat off) d) | _ => [] end.
Definition File_ReadAt (h : fpath) (off len : Z) : M (res str) :=
  query (fun fs => let? n := must_exist fs h in Ok (read_at n off len)).

(** ** Directories *)

(** [strip_prefix p q] is what follows [p] in [q]. *)
Fixpoint strip_prefix (p q : fpath) : option fpath :=
  match p, q with
  | [], _ => Some q
  | x :: p, y :: q => if bool_decide (x = y) then strip_prefix p q else None
  | _ :: _, [] => None
  end.
Definition under (p q : fpath) : bool := bool_decide (p `prefix_of` q).

Definition children (fs : fsys) (p : fpath) : list str :=
  omap (fun kv => match strip_prefix p kv.1 with Some [x] => Some x | _ => None end) (map_to_list fs).

Definition File_ReadDir (h : fpath) : M (res (list str)) :=
  fun w => query (fun fs =>
    let? n := must_exist fs h in
    if is_dir n then Ok (w_order w (children fs h)) else Err (Errno ENOTDIR)) w.

Definition Root_Mkdir (root : fpath) (rel : str) (perm : Z) : M (res unit) :=
  with_umask (fun umask uid => syscall (fun fs =>
    let? p := root_resolve fs root LNoFollow rel in
    match fs !! p with
    | Some _ => Err (Errno EEXIST)
    | None => Ok (tt, <[p := Node CDir (apply_umask umask perm) uid]> fs)
    end)).

(** [MkdirAll]: each prefix of the path in turn. *)
Fixpoint mkdir_all (root : fpath) (done todo : list str) (perm : Z) : M (res unit) :=
  match todo with
  | [] => ret (Ok tt)
  | x :: todo =>
      let here := done ++ [x] in
      do st := Root_Stat root (rel_path here) in
      match st with
      | Ok n => if is_dir n then mkdir_all root here todo perm else ret (Err (Errno ENOTDIR))
      | Err (Errno ENOENT) =>
          let* _ := Root_Mkdir root (rel_path here) perm in
          mkdir_all root here todo perm
      | Err e => ret (Err e)
      end
  end.
Definition Root_MkdirAll (root : fpath) (rel : str) (perm : Z) : M (res unit) :=
  if IsAbs rel then ret (Err PathEscapes) else mkdir_all root [] (components rel) perm.

Definition Root_Chmod (root : fpath) (rel : str) (perm : Z) : M (res unit) :=
  syscall (fun fs =>
    let? p := root_resolve fs root LFollow rel in
    let? _ := must_exist fs p in
    Ok (tt, alter (set_perm perm) p fs)).
Definition Root_Symlink (root : fpath) (target rel : str) : M (res unit) :=
  with_umask (fun _ uid => syscall (fun fs =>
    let? p := root_resolve fs root LNoFollow rel in
    match fs !! p with
    | Some _ => Err (Errno EEXIST)
    | None => Ok (tt, <[p := Node (CLink target) 511 uid]> fs)
    end)).
Definition Root_Remove (root : fpath) (rel : str) : M (res unit) :=
  syscall (fun fs =>
    let? p := root_resolve fs root LNoFollow rel in
    let? n := must_exist fs p in
    if bool_decide (p = root) then Err (Errno EINVAL)
    else if is_dir n && negb (bool_decide (children fs p = [])) then Err (Errno ENOTEMPTY)
    else Ok (tt, delete p fs)).
(** [RemoveAll]: the whole subtree; a missing path is not an error. *)
Definition remove_tree (p : fpath) (fs : fsys) : fsys := filter (fun kv => under p kv.1 = false) fs.
Definition Root_RemoveAll (root : fpath) (rel : str) : M (res unit) :=
  syscall (fun fs =>
    let? p := root_resolve fs root LNoFollow rel in
    if bool_decide (p = root) then Err (Errno EINVAL)
    else Ok (tt, remove_tree p fs)).

(** [rename(2)]: the subtree at [old] replaces what stood at [new]. *)
Definition move_key (old new k : fpath) : option fpath :=
  match strip_prefix old k with
  | Some r => Some (new ++ r)
  | None => if under new k then None else Some k
  end.
Definition rename_tree (old new : fpath) (fs : fsys) : fsys :=
  list_to_map (omap (fun kv => (fun k => (k, kv.2)) <$> move_key old new kv.1) (map_to_list fs)).
Definition Root_Rename (root : fpath) (old new : str) : M (res unit) :=
  syscall (fun fs =>
    let? p := root_resolve fs root LNoFollow old in
    let? q := root_resolve fs root LNoFollow new in
    let? n := must_exist fs p in
    if bool_decide (p = q) then Ok (tt, fs)
    else if bool_decide (p = root) || bool_decide (q = root) then Err (Errno EBUSY)
    else if under p q then Err (Errno EINVAL)
    else if under q p then Err (Errno ENOTEMPTY)
    else
      match fs !! q with
      | Some m =>
          if is_dir n && negb (is_dir m) then Err (Errno ENOTDIR)
          else if is_dir m && negb (is_dir n) then Err (Errno EISDIR)
          else if is_dir m && negb (bool_decide (children fs q = [])) then Err (Errno ENOTEMPTY)
          else Ok (tt, rename_tree p q fs)
      | None => Ok (tt, rename_tree p q fs)
      end).

(** [os.ReadDir]: the entries in name order, each with what [Lstat] says of it. *)
Definition os_ReadDir (path : str) : M (res (list (str * node))) :=
  query (fun fs =>
    let? p := os_resolve fs LFollow path in
    let? n := must_exist fs p in
    if is_dir n then
      Ok (omap (fun x => (fun m => (x, m)) <$> fs !! (p ++ [x])) (sort_strings (children fs p)))
    else Err (Errno ENOTDIR)).
