(* ===== verification/GoOSFacts.v ===== *)
(** * GoOSFacts: what the file-system operations preserve

    [touches P m]: the operation [m] leaves every path outside [P] as it was,
    whatever faults are injected. The lemmas of the [touches] database compose
    it along the monad, so a confinement proof is a search. *)

From S2P Require Import Prelude GoStr GoPath GoOS.

Definition touches {A : Type} (P : fpath -> Prop) (m : M A) : Prop :=
  forall w p, ~ P p -> w_fs (m w).2 !! p = w_fs w !! p.

Create HintDb touches.

Lemma touches_ret {A : Type} P (a : A) : touches P (ret a).
Proof. done. Qed.
Lemma touches_bind {A B : Type} P (m : M A) (k : A -> M B) :
  touches P m -> (forall a, touches P (k a)) -> touches P (bind m k).
Proof.
  intros Hm Hk w p Hp. unfold bind. specialize (Hm w p Hp).
  destruct (m w) as [a w'] eqn:E. simpl in Hm. by rewrite (Hk a w' p Hp).
Qed.
Lemma touches_try {A B : Type} P (m : M (res A)) (k : A -> M (res B)) :
  touches P m -> (forall a, touches P (k a)) -> touches P (tryM m k).
Proof. intros Hm Hk. unfold tryM. apply touches_bind; [done|]. intros [a|e]; [apply Hk|apply touches_ret]. Qed.
Lemma touches_weaken {A : Type} (P Q : fpath -> Prop) (m : M A) : (forall p, P p -> Q p) -> touches P m -> touches Q m.
Proof. intros HPQ Hm w p Hp. apply Hm. naive_solver. Qed.
Lemma touches_lift {A : Type} P (r : res A) : touches P (lift r).
Proof. done. Qed.

Lemma touches_next_fault P : touches P next_fault.
Proof. intros w p _. unfold next_fault. by destruct (w_faults w). Qed.
#[export] Hint Resolve touches_ret touches_bind touches_try touches_lift touches_next_fault : touches.

Lemma touches_with_umask {A : Type} P (k : Z -> Z -> M A) :
  (forall u v, touches P (k u v)) -> touches P (with_umask k).
Proof. intros Hk w p Hp. by apply Hk. Qed.

Lemma touches_syscall {A : Type} (P : fpath -> Prop) (f : fsys -> res (A * fsys)) :
  (forall fs a fs' p, f fs = Ok (a, fs') -> ~ P p -> fs' !! p = fs !! p) ->
  touches P (syscall f).
Proof.
  intros Hf. apply touches_bind; [apply touches_next_fault|].
  intros [[e n]|]; [apply touches_ret|]. intros w p Hp.
  destruct (f (w_fs w)) as [[a fs']|e] eqn:E; [|done]. simpl. by eapply Hf.
Qed.

Lemma touches_query {A : Type} (P : fpath -> Prop) (f : fsys -> res A) : touches P (query f).
Proof. apply touches_syscall. intros fs a fs' p (b & _ & [= <- <-])%res_bind_ok _. done. Qed.
#[export] Hint Resolve touches_query : touches.

(** ** Confinement of [os.Root] *)

Lemma root_resolve_under fs base mode rel p :
  root_resolve fs base mode rel = Ok p -> base `prefix_of` p.
Proof.
  unfold root_resolve. destruct (IsAbs rel); [done|].
  intros (q & _ & [= <-])%res_bind_ok. by exists q.
Qed.

Lemma lookup_insert_outside (fs : fsys) (P : fpath -> Prop) p q n :
  P q -> ~ P p -> <[q := n]> fs !! p = fs !! p.
Proof. intros ??. apply lookup_insert_ne. congruence. Qed.
Lemma lookup_alter_outside (fs : fsys) (P : fpath -> Prop) f p q :
  P q -> ~ P p -> alter f q fs !! p = fs !! p.
Proof. intros ??. apply lookup_alter_ne. congruence. Qed.

Lemma strip_prefix_spec p q r : strip_prefix p q = Some r <-> q = p ++ r.
Proof.
  revert q. induction p as [|x p IH]; intros q; simpl.
  - split; [by intros [= ->]|by intros ->].
  - destruct q as [|y q]; [done|]. case_bool_decide; [|split; [done|]; intros [=]; congruence].
    subst y. rewrite IH. split; [by intros ->|by intros [= ->]].
Qed.
Lemma strip_prefix_none p q : strip_prefix p q = None <-> ~ p `prefix_of` q.
Proof.
  destruct (strip_prefix p q) as [r|] eqn:E.
  - apply strip_prefix_spec in E as ->. split; [done|]. intros H. destruct H. by exists r.
  - split; [|done]. intros _ [r ->]. rewrite (proj2 (strip_prefix_spec _ _ _) eq_refl) in E. done.
Qed.
Lemma strip_prefix_app p r : strip_prefix p (p ++ r) = Some r.
Proof. by apply strip_prefix_spec. Qed.
Lemma under_spec p q : under p q = true <-> p `prefix_of` q.
Proof. apply bool_decide_eq_true. Qed.
Lemma under_false p q : under p q = false <-> ~ p `prefix_of` q.
Proof. apply bool_decide_eq_false. Qed.

(** [rename_tree], pointwise: the keys of the new tree come from the old one. *)
Lemma move_key_inj old new k1 k2 k :
  move_key old new k1 = Some k -> move_key old new k2 = Some k -> k1 = k2.
Proof.
  unfold move_key. destruct (strip_prefix old k1) as [r1|] eqn:E1;
    destruct (strip_prefix old k2) as [r2|] eqn:E2; intros H1 H2; simplify_eq.
  - apply strip_prefix_spec in E1 as ->, E2 as ->. done.
  - apply strip_prefix_spec in E1 as ->. destruct (under new k2) eqn:E; simplify_eq.
    apply under_false in E. destruct E. by exists r1.
  - apply strip_prefix_spec in E2 as ->. destruct (under new k1) eqn:E; simplify_eq.
    apply under_false in E. destruct E. by exists r2.
  - destruct (under new k1), (under new k2); by simplify_eq.
Qed.

Lemma rename_tree_Some old new fs k n :
  rename_tree old new fs !! k = Some n <->
  exists k0, fs !! k0 = Some n /\ move_key old new k0 = Some k.
Proof.
  unfold rename_tree. set (f := fun kv : fpath * node => _).
  assert (Hf : forall kv x, f kv = Some x <-> move_key old new kv.1 = Some x.1 /\ x.2 = kv.2).
  { intros [k0 n0] [k1 n1]. unfold f. simpl. rewrite fmap_Some.
    split; [by intros (k2 & ? & [= -> ->])|]. intros [? ->]. eauto. }
  rewrite <-elem_of_list_to_map.
  - rewrite list_elem_of_omap. split.
    + intros ([k0 n0] & Hin & [H1 H2]%Hf). simpl in *. subst n0.
      apply elem_of_map_to_list in Hin. eauto.
    + intros (k0 & Hin & Hk). exists (k0, n). split; [by apply elem_of_map_to_list|]. by apply Hf.
  - pose proof (NoDup_fst_map_to_list fs) as Hnd. revert Hnd.
    generalize (map_to_list fs) as l. intros l. induction l as [|kv l IH]; [constructor|].
    rewrite fmap_cons. intros [Hni Hnd]%NoDup_cons. simpl.
    destruct (f kv) as [x|] eqn:E; [|by apply IH]. rewrite fmap_cons. apply NoDup_cons.
    split; [|by apply IH]. intros Hin. apply Hni.
    apply list_elem_of_fmap in Hin as (y & Hxy & Hy).
    apply list_elem_of_omap in Hy as (kv' & Hin & E').
    apply Hf in E as [E _]. apply Hf in E' as [E' _]. rewrite Hxy in E.
    rewrite (move_key_inj _ _ _ _ _ E E'). by apply list_elem_of_fmap_2.
Qed.

Lemma rename_tree_lookup old new fs k :
  ~ new `prefix_of` old ->
  rename_tree old new fs !! k =
    match strip_prefix new k with
    | Some r => fs !! (old ++ r)
    | None => if under old k then None else fs !! k
    end.
Proof.
  intros Hno. apply option_eq. intros n. rewrite rename_tree_Some. unfold move_key.
  destruct (strip_prefix new k) as [r|] eqn:En.
  - apply strip_prefix_spec in En as ->. split.
    + intros (k0 & Hk & Hm). destruct (strip_prefix old k0) as [r0|] eqn:E0.
      * apply strip_prefix_spec in E0 as ->. simplify_eq. done.
      * destruct (under new k0) eqn:E; simplify_eq. apply under_false in E. destruct E. by exists r.
    + intros Hk. exists (old ++ r). by rewrite strip_prefix_app.
  - apply strip_prefix_none in En. split.
    + intros (k0 & Hk & Hm). destruct (strip_prefix old k0) as [r0|] eqn:E0.
      * simplify_eq. destruct En. by eexists.
      * destruct (under new k0) eqn:E; simplify_eq. apply strip_prefix_none in E0.
        by rewrite (proj2 (under_false _ _) E0).
    + destruct (under old k) eqn:E; [done|]. intros Hk. exists k. split; [done|].
      apply under_false in E. apply strip_prefix_none in E. rewrite E.
      by rewrite (proj2 (under_false _ _) En).
Qed.

Lemma rename_tree_outside old new fs k :
  ~ old `prefix_of` k -> ~ new `prefix_of` k -> rename_tree old new fs !! k = fs !! k.
Proof.
  intros Ho Hn. apply option_eq. intros n. rewrite rename_tree_Some. unfold move_key. split.
  - intros (k0 & Hk & Hm). destruct (strip_prefix old k0) as [r0|] eqn:E0.
    + simplify_eq. destruct Hn. by eexists.
    + destruct (under new k0); by simplify_eq.
  - intros Hk. exists k. split; [done|].
    rewrite (proj2 (strip_prefix_none _ _) Ho). by rewrite (proj2 (under_false _ _) Hn).
Qed.

Lemma root_resolve_outside fs base mode rel q p :
  root_resolve fs base mode rel = Ok q -> ~ base `prefix_of` p -> ~ q `prefix_of` p.
Proof.
  intros [r ->]%root_resolve_under Hp [s ->]. apply Hp. exists (r ++ s). by rewrite (assoc_L (++)).
Qed.

Section confinement.
Variable root : fpath.
Let inside (p : fpath) : Prop := root `prefix_of` p.

Local Ltac confine :=
  intros fs a fs' p Heq Hp; inv_ok; repeat break_if_in Heq;
  repeat (case_match; simplify_eq/=); inv_ok; simplify_eq/=; try done.

Lemma resolve_not_inside fs mode rel p q :
  root_resolve fs root mode rel = Ok q -> ~ inside p -> p <> q.
Proof. intros H Hp ->. apply Hp. by eapply root_resolve_under. Qed.

Lemma touches_CreateExcl rel perm : touches inside (Root_CreateExcl root rel perm).
Proof.
  apply touches_with_umask. intros u v. apply touches_syscall. confine.
  apply lookup_insert_ne. intros ->. by eapply resolve_not_inside.
Qed.
Lemma touches_CreateTrunc rel perm : touches inside (Root_CreateTrunc root rel perm).
Proof.
  apply touches_with_umask. intros u v. apply touches_syscall. confine;
    apply lookup_insert_ne; intros ->; by eapply resolve_not_inside.
Qed.
Lemma touches_Mkdir rel perm : touches inside (Root_Mkdir root rel perm).
Proof.
  apply touches_with_umask. intros u v. apply touches_syscall. confine.
  apply lookup_insert_ne. intros ->. by eapply resolve_not_inside.
Qed.
Lemma touches_Symlink target rel : touches inside (Root_Symlink root target rel).
Proof.
  apply touches_with_umask. intros u v. apply touches_syscall. confine.
  apply lookup_insert_ne. intros ->. by eapply resolve_not_inside.
Qed.
Lemma touches_Chmod rel perm : touches inside (Root_Chmod root rel perm).
Proof.
  apply touches_syscall. confine.
  apply lookup_alter_ne. intros ->. by eapply resolve_not_inside.
Qed.
Lemma touches_Remove rel : touches inside (Root_Remove root rel).
Proof.
  apply touches_syscall. confine. 
  all: apply lookup_delete_ne; intros ->; by eapply resolve_not_inside.
Qed.
Lemma touches_RemoveAll rel : touches inside (Root_RemoveAll root rel).
Proof.
  apply touches_syscall. confine. unfold remove_tree.
  destruct (fs !! p) as [n|] eqn:E.
  - apply map_lookup_filter_Some. split; [done|]. simpl. apply under_false.
    by eapply root_resolve_outside.
  - apply map_lookup_filter_None. by left.
Qed.
Lemma touches_Rename old new : touches inside (Root_Rename root old new).
Proof.
  apply touches_syscall. confine;
    apply rename_tree_outside; by eapply root_resolve_outside.
Qed.
Lemma touches_mkdir_all done todo perm : touches inside (mkdir_all root done todo perm).
Proof.
  revert done. induction todo as [|x todo IH]; intros d; simpl; [apply touches_ret|].
  apply touches_bind; [apply touches_query|]. intros [n|[[]| | | |]]; auto with touches.
  - destruct (is_dir n); auto with touches.
  - apply touches_try; [apply touches_Mkdir|auto].
Qed.
Lemma touches_MkdirAll rel perm : touches inside (Root_MkdirAll root rel perm).
Proof. unfold Root_MkdirAll. destruct (IsAbs rel); [apply touches_ret|apply touches_mkdir_all]. Qed.
End confinement.

Lemma touches_File_Write (P : fpath -> Prop) h data : P h -> touches P (File_Write h data).
Proof.
  intros Hh. apply touches_bind; [apply touches_next_fault|].
  intros [[e n]|] w p Hp; simpl; by apply lookup_alter_outside with P.
Qed.
Lemma touches_File_Chmod (P : fpath -> Prop) h perm : P h -> touches P (File_Chmod h perm).
Proof. intros Hh. apply touches_syscall. intros fs a fs' p [= <- <-] Hp. by apply lookup_alter_outside with P. Qed.
Lemma touches_ReadDir P h : touches P (File_ReadDir h).
Proof. intros w p Hp. unfold File_ReadDir. by apply (touches_query P). Qed.
#[export] Hint Resolve touches_CreateExcl touches_CreateTrunc touches_Mkdir touches_Symlink
  touches_Chmod touches_Remove touches_RemoveAll touches_Rename touches_MkdirAll
  touches_File_Write touches_File_Chmod touches_ReadDir : touches.

(** ** A small Hoare logic

    [hoare uid P m Q]: started by the account [uid] on a file system satisfying
    [P], [m] returns [r] on a file system [fs] with [Q r fs], whatever fails. *)
Definition hoare {A : Type} (uid : Z) (P : fsys -> Prop) (m : M A) (Q : A -> fsys -> Prop) : Prop :=
  forall w, w_euid w = uid -> P (w_fs w) ->
    w_euid (m w).2 = uid /\ Q (m w).1 (w_fs (m w).2).

Section hoare.
Variable uid : Z.
Implicit Types (P : fsys -> Prop).

Lemma hoare_conseq {A : Type} (P P' : fsys -> Prop) (m : M A) (Q Q' : A -> fsys -> Prop) :
  hoare uid P m Q -> (forall fs, P' fs -> P fs) -> (forall a fs, Q a fs -> Q' a fs) ->
  hoare uid P' m Q'.
Proof. intros Hm HP HQ w Hu Hw. destruct (Hm w Hu (HP _ Hw)) as [? ?]. auto. Qed.
Lemma hoare_ret {A : Type} P (a : A) (Q : A -> fsys -> Prop) :
  (forall fs, P fs -> Q a fs) -> hoare uid P (ret a) Q.
Proof. intros H w Hu Hw. simpl. auto. Qed.
Lemma hoare_bind {A B : Type} P (m : M A) (k : A -> M B) R Q :
  hoare uid P m R -> (forall a, hoare uid (R a) (k a) Q) -> hoare uid P (bind m k) Q.
Proof.
  intros Hm Hk w Hu Hw. unfold bind. destruct (Hm w Hu Hw) as [Hu' HR].
  destruct (m w) as [a w']. by apply Hk.
Qed.
Lemma hoare_try {A B : Type} P (m : M (res A)) (k : A -> M (res B)) R Q :
  hoare uid P m R -> (forall a, hoare uid (R (Ok a)) (k a) Q) ->
  (forall e fs, R (Err e) fs -> Q (Err e) fs) -> hoare uid P (tryM m k) Q.
Proof.
  intros Hm Hk He. eapply hoare_bind; [exact Hm|]. intros [a|e]; [apply Hk|].
  apply hoare_ret. auto.
Qed.
Lemma hoare_pure {A : Type} (X : Prop) P (m : M A) Q :
  (X -> hoare uid P m Q) -> hoare uid (fun fs => X /\ P fs) m Q.
Proof. intros H w Hu [HX HP]. by apply H. Qed.
Lemma hoare_false {A : Type} (m : M A) Q P : (forall fs, P fs -> False) -> hoare uid P m Q.
Proof. intros H w Hu HP. by apply H in HP. Qed.

Lemma next_fault_fs w : w_fs (next_fault w).2 = w_fs w /\ w_euid (next_fault w).2 = w_euid w.
Proof. unfold next_fault. by destruct (w_faults w). Qed.

Lemma hoare_syscall {A : Type} P (f : fsys -> res (A * fsys)) (Q : res A -> fsys -> Prop) :
  (forall fs a fs', P fs -> f fs = Ok (a, fs') -> Q (Ok a) fs') ->
  (forall fs e, P fs -> Q (Err e) fs) -> hoare uid P (syscall f) Q.
Proof.
  intros Hok Herr w Hu Hw. unfold syscall, bind.
  destruct (next_fault_fs w) as [Hfs Hue]. destruct (next_fault w) as [[[e n]|] w']; simpl in *.
  - rewrite Hue, Hfs. auto.
  - destruct (f (w_fs w')) as [[a fs']|e] eqn:E; simpl.
    + split; [congruence|]. eapply Hok; [|exact E]. by rewrite Hfs.
    + rewrite Hue, Hfs. auto.
Qed.
Lemma hoare_query {A : Type} P (f : fsys -> res A) (Q : res A -> fsys -> Prop) :
  (forall fs a, P fs -> f fs = Ok a -> Q (Ok a) fs) ->
  (forall fs e, P fs -> Q (Err e) fs) -> hoare uid P (query f) Q.
Proof.
  intros Hok Herr. apply hoare_syscall; [|done].
  intros fs a fs' HP (b & Hb & [= <- <-])%res_bind_ok. auto.
Qed.
Lemma hoare_with_umask {A : Type} P (k : Z -> Z -> M A) Q :
  (forall u, hoare uid P (k u uid) Q) -> hoare uid P (with_umask k) Q.
Proof. intros H w Hu Hw. unfold with_umask. rewrite Hu. by apply H. Qed.
Lemma hoare_lift {A B : Type} P (r : res A) (k : A -> M (res B)) (Q : res B -> fsys -> Prop) :
  (forall a, r = Ok a -> hoare uid P (k a) Q) ->
  (forall e fs, r = Err e -> P fs -> Q (Err e) fs) ->
  hoare uid P (tryM (lift r) k) Q.
Proof. intros Hok Herr w Hu Hw. destruct r as [a|e]; [by apply Hok|]. simpl. auto. Qed.
Lemma hoare_File_Write P (h : fpath) (data : str) (Q : res unit -> fsys -> Prop) :
  (forall fs, P fs -> Q (Ok tt) (alter (fun n => append_data n data) h fs)) ->
  (forall fs e n, P fs -> Q (Err e) (alter (fun x => append_data x (take n data)) h fs)) ->
  hoare uid P (File_Write h data) Q.
Proof.
  intros Hok Herr w Hu Hw. unfold File_Write, bind.
  destruct (next_fault_fs w) as [Hfs Hue].
  destruct (next_fault w) as [[[e n]|] w']; simpl in *; rewrite Hfs; (split; [congruence|auto]).
Qed.
End hoare.

(** ** What path resolution returns *)

Section walk_facts.
Variable look : fpath -> option content.
Variable confined : bool.

Definition dirs_to (p : fpath) : Prop :=
  forall q, q `prefix_of` p -> q <> [] -> look q = Some CDir.

Lemma dirs_to_nil : dirs_to [].
Proof. intros q Hq Hne. by apply prefix_nil_inv in Hq. Qed.
Lemma dirs_to_snoc p x : dirs_to p -> look (p ++ [x]) = Some CDir -> dirs_to (p ++ [x]).
Proof.
  intros Hp Hx q [r Hr] Hne. destruct r as [|y r _] using rev_ind.
  - rewrite app_nil_r in Hr. by rewrite <-Hr.
  - rewrite (assoc_L (++)) in Hr. apply app_inj_tail in Hr as [-> ->].
    apply Hp; [by eexists|done].
Qed.
Lemma dirs_to_prefix p q : dirs_to p -> q `prefix_of` p -> dirs_to q.
Proof. intros Hp Hq r Hr. apply Hp. by etrans. Qed.
Lemma removelast_prefix (p : fpath) : removelast p `prefix_of` p.
Proof.
  destruct p as [|x p _] using rev_ind; [done|]. rewrite removelast_last. by eexists.
Qed.

Lemma Forall_removelast (P : str -> Prop) (p : fpath) : Forall P p -> Forall P (removelast p).
Proof.
  destruct p as [|x p _] using rev_ind; [done|]. rewrite removelast_last. by intros [? _]%Forall_app.
Qed.

(** The result names existing directories up to its last component, which is
    a directory too in mode [LDir]; its components are proper names. *)
Definition resolved (mode : last_mode) (p : fpath) : Prop :=
  Forall proper p /\ dirs_to (removelast p) /\ (mode = LDir -> dirs_to p) /\
  (mode <> LNoFollow -> p <> [] -> forall t, look p <> Some (CLink t)).

Lemma walk_resolved mode b cur rest p :
  Forall name_ok rest -> Forall proper cur -> dirs_to cur ->
  walk look confined mode b cur rest = Ok p -> resolved mode p.
Proof.
  revert cur rest. induction b as [|b IHb];
    intros cur rest; revert cur; induction rest as [|x rest IH]; intros cur Hr Hc Hd.
  1, 3: simpl; intros [= <-]; split_and!; [done| |done|];
    [eapply dirs_to_prefix; [done|apply removelast_prefix]|];
    intros _ Hne t; rewrite Hd by done; done.
  all: apply Forall_cons in Hr as [Hx Hr]; simpl.
  all: case_bool_decide as Hdot; [by apply IH|].
  all: case_bool_decide as Hdd.
  1, 3: case_bool_decide as Hnil;
    [destruct confined; [done|]; subst cur; by apply IH|];
    apply IH; [done| |eapply dirs_to_prefix; [done|apply removelast_prefix]];
    by apply Forall_removelast.
  all: assert (Hsnoc : Forall proper (cur ++ [x])) by (apply Forall_app; split; [done|by constructor]).
  all: assert (Hleaf : mode <> LDir -> (mode <> LNoFollow -> forall t, look (cur ++ [x]) <> Some (CLink t)) ->
    resolved mode (cur ++ [x]))
    by (intros ??; split_and!; [done|by rewrite removelast_last|done|auto]).
  all: destruct (look (cur ++ [x])) as [[d| |t|]|] eqn:El.
  all: try (destruct (bool_decide (rest = []) && negb (bool_decide (mode = LDir))) eqn:Ef;
    [|done]; bools; intros [= <-]; by apply Hleaf).
  all: try (apply IH; [done|done|by apply dirs_to_snoc]).
  all: destruct (bool_decide (rest = []) && bool_decide (mode = LNoFollow)) eqn:Ef;
    [bools; intros [= <-]; apply Hleaf; congruence|try done].
  destruct (IsAbs t); [destruct confined; [done|]|]; apply IHb; try done;
    try (apply Forall_app; split; [apply components_name_ok|done]); apply dirs_to_nil.
Qed.

(** A physical directory path resolves to itself. *)
Lemma walk_self mode b cur rest :
  Forall proper rest -> dirs_to (cur ++ rest) -> walk look confined mode b cur rest = Ok (cur ++ rest).
Proof.
  intros Hr. revert cur. induction Hr as [|x rest (_ & H1 & H2) _ IH]; intros cur Hd.
  - destruct b; simpl; by rewrite app_nil_r.
  - assert (Hl : look (cur ++ [x]) = Some CDir).
    { apply Hd; [exists rest; by rewrite <-(assoc_L (++))|by destruct cur]. }
    replace (cur ++ x :: rest) with ((cur ++ [x]) ++ rest) in * by by rewrite <-(assoc_L (++)).
    destruct b; simpl; rewrite !bool_decide_eq_false_2 by done; rewrite Hl; by apply IH.
Qed.

(** So does a physical path whose last component is not a link. *)
Lemma walk_self_last b d x :
  Forall proper (d ++ [x]) -> dirs_to d -> (forall t, look (d ++ [x]) <> Some (CLink t)) ->
  walk look confined LFollow b [] (d ++ [x]) = Ok (d ++ [x]).
Proof.
  intros Hp Hd Hx. enough (H : forall cur rest, Forall proper (rest ++ [x]) -> cur ++ rest = d ->
    walk look confined LFollow b cur (rest ++ [x]) = Ok (d ++ [x])) by (by apply H).
  clear Hp. intros cur rest; revert cur; induction rest as [|y rest IH]; intros cur;
    simpl app; intros [(_ & H1 & H2) Hr]%Forall_cons Heq.
  - rewrite app_nil_r in Heq. subst cur. destruct b; simpl;
      rewrite !bool_decide_eq_false_2 by done; destruct (look (d ++ [x])) as [[]|]; try done;
      by destruct (Hx target).
  - assert (Hl : look (cur ++ [y]) = Some CDir).
    { apply Hd; [exists rest; by rewrite <-(assoc_L (++))|by destruct cur]. }
    assert (Hgo : walk look confined LFollow b (cur ++ [y]) (rest ++ [x]) = Ok (d ++ [x])).
    { apply IH; [done|]. by rewrite <-(assoc_L (++)). }
    destruct b; simpl in *; rewrite !bool_decide_eq_false_2 by done; by rewrite Hl.
Qed.

(** Resolving a path without following its last component is resolving its
    directory. *)
Lemma walk_snoc b cur l x : proper x ->
  walk look confined LNoFollow b cur (l ++ [x]) =
  (let? d := walk look confined LDir b cur l in Ok (d ++ [x])).
Proof.
  intros (_ & Hx1 & Hx2). revert cur l.
  induction b as [|b IHb]; intros cur l; revert cur; induction l as [|y l IH]; intros cur; simpl.
  1, 3: rewrite (bool_decide_eq_false_2 (x = dot)), (bool_decide_eq_false_2 (x = dotdot)) by done;
    by destruct (look (cur ++ [x])) as [[]|].
  all: case_bool_decide; [apply IH|].
  all: case_bool_decide; [case_bool_decide; [destruct confined; [done|apply IH]|apply IH]|].
  all: rewrite (bool_decide_eq_false_2 (l ++ [x] = [])) by (by destruct l); simpl.
  all: rewrite !andb_false_r.
  all: destruct (look (cur ++ [y])) as [[]|]; try done; try apply IH.
  destruct (IsAbs target); [destruct confined; [done|]|]; by rewrite (assoc_L (++)), IHb.
Qed.
End walk_facts.

(** The same, of a path handed to the kernel. *)
Lemma os_resolve_resolved fs mode path p :
  os_resolve fs mode path = Ok p -> resolved (look_in fs []) mode p.
Proof.
  unfold os_resolve. generalize kernelMaxSymlinks as b. intros b H.
  eapply walk_resolved; [| | |exact H]; [auto with go|constructor|apply dirs_to_nil].
Qed.
Lemma os_resolve_last fs d x :
  Forall proper (d ++ [x]) -> dirs_to (look_in fs []) d ->
  (forall t, look_in fs [] (d ++ [x]) <> Some (CLink t)) ->
  os_resolve fs LFollow (abs_path (d ++ [x])) = Ok (d ++ [x]).
Proof.
  intros Hp Hd Hl. unfold os_resolve. generalize kernelMaxSymlinks as b. intros b.
  rewrite components_abs by auto with go. by apply walk_self_last.
Qed.
Lemma os_resolve_dir fs mode l :
  Forall proper l -> dirs_to (look_in fs []) l -> os_resolve fs mode (abs_path l) = Ok l.
Proof.
  intros Hp Hd. unfold os_resolve. generalize kernelMaxSymlinks as b. intros b.
  rewrite components_abs by auto with go. by apply (walk_self _ _ _ _ []).
Qed.

(** Resolution to a directory survives additions to the tree. *)
Lemma walk_mono look look' confined b cur l p :
  (forall q c, look q = Some c -> look' q = Some c) ->
  walk look confined LDir b cur l = Ok p -> walk look' confined LDir b cur l = Ok p.
Proof.
  intros Hl. revert cur l.
  induction b as [|b IHb]; intros cur l; revert cur; induction l as [|y l IH]; intros cur; simpl; try done.
  all: case_bool_decide; [apply IH|].
  all: case_bool_decide; [case_bool_decide; [destruct confined; [done|apply IH]|apply IH]|].
  all: rewrite !andb_false_r.
  all: destruct (look (cur ++ [y])) as [c|] eqn:E; [|done]; rewrite (Hl _ _ E).
  all: destruct c; try done; try apply IH.
  destruct (IsAbs target); [destruct confined; [done|]|]; apply IHb.
Qed.

(** A path given relative to a root, split into its directory and its name. *)
Lemma root_resolve_name fs root l x : Forall proper (l ++ [x]) ->
  root_resolve fs root LNoFollow (join [slash] (l ++ [x])) =
  (let? d := walk (look_in fs root) true LDir rootMaxSymlinks [] l in Ok (root ++ d ++ [x])).
Proof.
  intros Hl. unfold root_resolve. rewrite IsAbs_join by auto with go.
  rewrite components_join by auto with go. apply Forall_app in Hl as [_ Hx].
  apply Forall_cons in Hx as [Hx _]. rewrite (walk_snoc _ _ _ _ _ _ Hx).
  by destruct (walk (look_in fs root) true LDir rootMaxSymlinks [] l).
Qed.

(** ** Well-formed trees: only directories have entries *)
Definition fs_wf (fs : fsys) : Prop :=
  forall p x n, fs !! (p ++ [x]) = Some n -> exists d, fs !! p = Some d /\ n_kind d = CDir.

Lemma fs_wf_below fs p r n :
  fs_wf fs -> r <> [] -> fs !! (p ++ r) = Some n -> exists d, fs !! p = Some d /\ n_kind d = CDir.
Proof.
  intros Hwf. revert n. induction r as [|x r IH] using rev_ind; intros n Hne Hn; [done|].
  rewrite (assoc_L (++)) in Hn. apply Hwf in Hn as (d & Hd & Hk).
  destruct r as [|y r]; [rewrite app_nil_r in Hd; eauto|]. by eapply IH.
Qed.

Lemma fs_wf_no_children fs p : fs_wf fs ->
  (forall n, fs !! p = Some n -> n_kind n <> CDir) -> forall r, r <> [] -> fs !! (p ++ r) = None.
Proof.
  intros Hwf Hp r Hr. destruct (fs !! (p ++ r)) as [n|] eqn:E; [|done].
  apply fs_wf_below in E as (d & Hd & Hk); [|done..]. by destruct (Hp d Hd).
Qed.

(** ** Creating a file and renaming it into place *)

Lemma insert_name_look fs root d t n q c :
  fs !! (root ++ d ++ [t]) = None -> look_in fs root q = Some c ->
  look_in (<[root ++ d ++ [t] := n]> fs) root q = Some c.
Proof.
  unfold look_in. intros Hno Hq. rewrite lookup_insert_ne; [done|].
  intros E. rewrite E in Hno. by rewrite Hno in Hq.
Qed.

(** Names in a resolved directory stay where they are once a new entry is there. *)
Lemma root_resolve_insert fs root l x q t n :
  Forall proper (l ++ [x]) ->
  walk (look_in fs root) true LDir rootMaxSymlinks [] l = Ok q ->
  fs !! (root ++ q ++ [t]) = None ->
  root_resolve (<[root ++ q ++ [t] := n]> fs) root LNoFollow (join [slash] (l ++ [x])) = Ok (root ++ q ++ [x]).
Proof.
  intros Hl Hw Hno. rewrite root_resolve_name by done.
  erewrite walk_mono; [done| |exact Hw]. intros r c. by apply insert_name_look.
Qed.

Lemma rename_file_tree fs p q n :
  fs_wf fs -> p <> q -> fs !! p = None -> is_regular n = true ->
  (forall m, fs !! q = Some m -> n_kind m <> CDir) -> ~ p `prefix_of` q -> ~ q `prefix_of` p ->
  rename_tree p q (<[p := n]> fs) = <[q := n]> fs.
Proof.
  intros Hwf Hne Hp Hn Hq Hpq Hqp. apply map_eq. intros k. rewrite rename_tree_lookup by done.
  destruct (strip_prefix q k) as [r|] eqn:E.
  - apply strip_prefix_spec in E as ->. destruct r as [|x r].
    + rewrite !app_nil_r. by rewrite !lookup_insert_eq.
    + assert (Hno : forall m, fs !! p = Some m -> n_kind m <> CDir) by (intros m Hm; congruence).
      rewrite (lookup_insert_ne _ p).
      2: { intros E. apply (f_equal (@List.length _)) in E. rewrite length_app in E. simpl in E. lia. }
      rewrite (lookup_insert_ne _ q).
      2: { intros E. apply (f_equal (@List.length _)) in E. rewrite length_app in E. simpl in E. lia. }
      by rewrite !fs_wf_no_children.
  - apply strip_prefix_none in E. rewrite (lookup_insert_ne _ q) by (intros ->; by apply E).
    destruct (under p k) eqn:Eu.
    + apply under_spec in Eu as [r ->]. symmetry. destruct r as [|x r]; [by rewrite app_nil_r|].
      apply fs_wf_no_children; [done| |done]. intros m Hm. congruence.
    + apply under_false in Eu. by rewrite lookup_insert_ne by (intros ->; by apply Eu).
Qed.

Lemma sibling_prefix (p : fpath) x y : x <> y -> ~ (p ++ [x]) `prefix_of` (p ++ [y]).
Proof.
  intros Hne [r Hr]. rewrite <-(assoc_L (++)) in Hr. apply app_inv_head in Hr.
  destruct r; simplify_eq/=.
Qed.

(** Resolution depends on what stands at each path only. *)
Lemma walk_ext look look' confined mode b cur l :
  (forall q, look q = look' q) -> walk look confined mode b cur l = walk look' confined mode b cur l.
Proof.
  intros Hl. revert cur l.
  induction b as [|b IHb]; intros cur l; revert cur; induction l as [|y l IH]; intros cur; simpl; try done.
  all: case_bool_decide; [apply IH|].
  all: case_bool_decide; [case_bool_decide; [destruct confined; [done|apply IH]|apply IH]|].
  all: rewrite <-(Hl (cur ++ [y])); destruct (look (cur ++ [y])) as [[]|]; try done; try apply IH.
  case_match; [done|]. case_match; [destruct confined; [done|]|]; apply IHb.
Qed.

(** A directory entry of a resolved directory. *)
Lemma walk_dir_snoc look confined mode b cur l d x : proper x ->
  walk look confined LDir b cur l = Ok d -> look (d ++ [x]) = Some CDir ->
  walk look confined mode b cur (l ++ [x]) = Ok (d ++ [x]).
Proof.
  intros (_ & Hx1 & Hx2). revert cur l.
  induction b as [|b IHb]; intros cur l; revert cur; induction l as [|y l IH]; intros cur; simpl.
  1, 3: intros [= ->] ->; by rewrite (bool_decide_eq_false_2 (x = dot)), (bool_decide_eq_false_2 (x = dotdot)) by done.
  all: case_bool_decide; [apply IH|].
  all: case_bool_decide; [case_bool_decide; [destruct confined; [done|apply IH]|apply IH]|].
  all: rewrite (bool_decide_eq_false_2 (l ++ [x] = [])) by (by destruct l); simpl.
  all: rewrite !andb_false_r.
  all: destruct (look (cur ++ [y])) as [[]|]; try done; try apply IH.
  destruct (IsAbs target); [destruct confined; [done|]|]; rewrite (assoc_L (++)); apply IHb.
Qed.

(** The directory a relative path names, links followed. *)
Definition names_dir (fs : fsys) (root : fpath) (l : list str) (p : fpath) (n : node) : Prop :=
  walk (look_in fs root) true LFollow rootMaxSymlinks [] l = Ok p /\
  fs !! (root ++ p) = Some n /\ n_kind n = CDir.

Lemma root_resolve_join fs root mode l : Forall proper l -> l <> [] ->
  root_resolve fs root mode (join [slash] l) =
  (let? p := walk (look_in fs root) true mode rootMaxSymlinks [] l in Ok (root ++ p)).
Proof.
  intros Hl Hne. unfold root_resolve. rewrite IsAbs_join by auto with go.
  by rewrite components_join by auto with go.
Qed.

Lemma names_dir_mkdir fs root l x p perm uid : Forall proper (l ++ [x]) ->
  root_resolve fs root LNoFollow (join [slash] (l ++ [x])) = Ok p -> fs !! p = None ->
  exists q, names_dir (<[p := Node CDir perm uid]> fs) root (l ++ [x]) q (Node CDir perm uid).
Proof.
  intros Hl Hr Hno. rewrite root_resolve_name in Hr by done. inv_ok.
  exists (a ++ [x]). split_and!; [|by rewrite lookup_insert_eq|done].
  apply Forall_app in Hl as [Hl Hx]. apply Forall_cons in Hx as [Hx _].
  apply walk_dir_snoc; [done| |by unfold look_in; rewrite lookup_insert_eq].
  eapply walk_mono; [|exact Hstep]. intros q c. by apply insert_name_look.
Qed.

Lemma mkdir_all_spec uid root perm todo : forall done, Forall proper (done ++ todo) ->
  hoare uid (fun fs => todo = [] -> exists p n, names_dir fs root done p n)
    (mkdir_all root done todo perm)
    (fun r fs => r = Ok tt -> exists p n, names_dir fs root (done ++ todo) p n).
Proof.
  induction todo as [|x todo IH]; intros dn Hp; simpl.
  - apply hoare_ret. rewrite app_nil_r. auto.
  - replace (dn ++ x :: todo) with ((dn ++ [x]) ++ todo) in * by by rewrite <-(assoc_L (++)).
    pose proof (proj1 (Forall_app _ _ _) Hp) as [Hx _].
    assert (Hrp : rel_path (dn ++ [x]) = join [slash] (dn ++ [x])).
    { unfold rel_path. by rewrite bool_decide_eq_false_2 by (by destruct dn). }
    rewrite Hrp.
    eapply hoare_bind with (R := fun r fs => forall n, r = Ok n -> is_dir n = true ->
      exists p n, names_dir fs root (dn ++ [x]) p n).
    + apply hoare_query; [|done]. intros fs n _ Hn n' [= <-] Hdir.
      rewrite root_resolve_join in Hn; [|done|by destruct dn]. inv_ok.
      exists a0, n. split_and!; [done| |by apply bool_decide_eq_true in Hdir].
      unfold must_exist in Hn. by case_match; simplify_eq.
    + intros [n|e].
      * destruct (is_dir n) eqn:Hdir; [|by apply hoare_ret].
        eapply hoare_conseq; [by apply IH| |done]. intros fs H _. by eapply H.
      * destruct e as [[]| | | |]; try by apply hoare_ret.
        eapply hoare_try with (R := fun r fs => r = Ok tt -> exists p n, names_dir fs root (dn ++ [x]) p n);
          [|intros []; eapply hoare_conseq; [by apply IH|by intros fs H _; apply H|done]|by intros e fs _].
        apply hoare_with_umask. intros u. apply hoare_syscall; [|done].
        intros fs [] fs' _ Hm _. inv_ok. case_match eqn:Ea; [done|]. injection Hm as <-.
        destruct (names_dir_mkdir fs root dn x a (apply_umask u perm) uid) as [q Hq]; by eauto.
Qed.

(** Well-formedness, decided on a concrete tree. *)
Definition fs_wf_b (fs : fsys) : bool :=
  forallb (fun kv => bool_decide (kv.1 = []) ||
    match fs !! removelast kv.1 with Some d => is_dir d | None => false end) (map_to_list fs).
Lemma fs_wf_check fs : fs_wf_b fs = true -> fs_wf fs.
Proof.
  unfold fs_wf_b. intros H p x n Hn. apply Forall_forallb in H. rewrite Forall_forall in H.
  apply elem_of_map_to_list in Hn. specialize (H _ Hn). simpl in H. rewrite removelast_last in H.
  rewrite bool_decide_eq_false_2 in H by (by destruct p). simpl in H.
  destruct (fs !! p) as [d|]; [|done]. exists d. split; [done|]. by apply bool_decide_eq_true in H.
Qed.
