(* ===== verification/GoNet.v ===== *)
(** * GoNet: [net.ParseIP] and [net.ParseCIDR]

    Addresses are the sixteen bytes Go stores, IPv4 ones mapped under
    [::ffff:0:0/96]. The parsers follow [net/netip]. *)

From S2P Require Import Prelude GoStr.

Abbreviation ip16 := (list Z).

Definition v4_prefix : list Z := replicate 10 0 ++ [255; 255].
(** [ip.To4() != nil] on a sixteen-byte address. *)
Definition is4 (ip : ip16) : bool := bool_decide (take 12 ip = v4_prefix).

(** One dotted-decimal octet: digits, no leading zero, at most 255. *)
Definition parse_octet (s : str) : option Z :=
  if bool_decide (s = []) || negb (forallb is_digit s) then None
  else
    match s with
    | c :: _ :: _ => if bool_decide (c = ch "0") then None
                     else let v := digits_value s in if v <=? 255 then Some v else None
    | _ => Some (digits_value s)
    end.
Definition parse_v4 (s : str) : option (list Z) :=
  match split_on (ch ".") s with
  | [a; b; c; d] =>
      match parse_octet a, parse_octet b, parse_octet c, parse_octet d with
      | Some a, Some b, Some c, Some d => Some [a; b; c; d]
      | _, _, _, _ => None
      end
  | _ => None
  end.

Definition hex_val (c : ascii) : option Z :=
  if is_digit c then Some (digit_val c)
  else if in_range 97 102 c then Some (Z.of_nat (code c) - 87)
  else if in_range 65 70 c then Some (Z.of_nat (code c) - 55)
  else None.

(** The longest run of hex digits: its length, its value and the rest. *)
Fixpoint hex_run (n : nat) (acc : Z) (s : str) : nat * Z * str :=
  match s with
  | [] => (n, acc, [])
  | c :: r =>
      match hex_val c with
      | Some v => hex_run (S n) (16 * acc + v) r
      | None => (n, acc, s)
      end
  end.

(** The group loop: [bytes] parsed so far, the position of the ellipsis. *)
Fixpoint v6_groups (fuel : nat) (bytes : list Z) (ell : option nat) (s : str)
    : option (list Z * option nat) :=
  match fuel with
  | O => if bool_decide (s = []) then Some (bytes, ell) else None
  | S fuel =>
      let '(off, acc, rest) := hex_run 0 0 s in
      if (off =? 0)%nat || (4 <? off)%nat then None
      else
        match rest with
        | c :: r =>
            if bool_decide (c = ch ".") then
              if (bool_decide (ell = None) && negb (List.length bytes =? 12)%nat)
                 || (12 <? List.length bytes)%nat then None
              else match parse_v4 s with Some q => Some (bytes ++ q, ell) | None => None end
            else
              let bytes := bytes ++ [acc / 256; acc mod 256] in
              if negb (bool_decide (c = ch ":")) then None
              else
                match r with
                | [] => None
                | d :: r' =>
                    if bool_decide (d = ch ":") then
                      match ell with
                      | Some _ => None
                      | None =>
                          let ell := Some (List.length bytes) in
                          if bool_decide (r' = []) then Some (bytes, ell)
                          else v6_groups fuel bytes ell r'
                      end
                    else v6_groups fuel bytes ell r
                end
        | [] => Some (bytes ++ [acc / 256; acc mod 256], ell)
        end
  end.

Definition expand (bytes : list Z) (ell : option nat) : option ip16 :=
  let n := List.length bytes in
  match ell with
  | None => if (n =? 16)%nat then Some bytes else None
  | Some e => if (n <? 16)%nat then Some (take e bytes ++ replicate (16 - n) 0 ++ drop e bytes) else None
  end.

Definition parse_v6 (s : str) : option ip16 :=
  match s with
  | a :: b :: r =>
      if bool_decide (a = ch ":") && bool_decide (b = ch ":") then
        if bool_decide (r = []) then Some (replicate 16 0)
        else match v6_groups 8 [] (Some O) r with Some (bs, e) => expand bs e | None => None end
      else match v6_groups 8 [] None s with Some (bs, e) => expand bs e | None => None end
  | _ => None
  end.

(** [netip.ParseAddr] without a zone: the first of ['.'], [':'], ['%'] decides.
    The boolean says whether the text was IPv4. *)
Fixpoint addr_kind (s : str) : option bool :=
  match s with
  | [] => None
  | c :: s =>
      if bool_decide (c = ch ".") then Some true
      else if bool_decide (c = ch ":") then Some false
      else if bool_decide (c = ch "%") then None
      else addr_kind s
  end.
Definition ParseAddr (s : str) : option (bool * ip16) :=
  match addr_kind s with
  | Some true => match parse_v4 s with Some q => Some (true, v4_prefix ++ q) | None => None end
  | Some false => match parse_v6 s with Some ip => Some (false, ip) | None => None end
  | None => None
  end.

Definition ParseIP (s : str) : option ip16 := snd <$> ParseAddr s.

(** [CIDRMask] and [IP.Mask], bytewise. *)
Definition mask_byte (n : Z) : Z := if 8 <=? n then 255 else if n <=? 0 then 0 else 256 - 2 ^ (8 - n).
Definition mask16 (n : Z) (ip : ip16) : ip16 :=
  imap (fun i b => Z.land b (mask_byte (n - 8 * Z.of_nat i))) ip.
(** [net.ParseCIDR]: the network's address, masked. An IPv4 block keeps its four
    bytes, shown here under the mapped prefix. *)
Definition ParseCIDR (s : str) : option ip16 :=
  match cut (ch "/") s with
  | None => None
  | Some (addr, mask) =>
      match ParseAddr addr with
      | None => None
      | Some (v4, ip) =>
          if bool_decide (mask = []) || negb (forallb is_digit mask) then None
          else
            let n := digits_value mask in
            if (if v4 then 32 else 128) <? n then None
            else Some (mask16 (if v4 then 96 + n else n) ip)
      end
  end.

Example ParseIP_ex :
  (bool_decide (ParseIP ($"10.0.0.1") = Some (v4_prefix ++ [10; 0; 0; 1])),
   bool_decide (ParseIP ($"::1") = Some (replicate 15 0 ++ [1])),
   bool_decide (ParseIP ($"2001:db8::ff00:42:8329") =
      Some [32; 1; 13; 184; 0; 0; 0; 0; 0; 0; 255; 0; 0; 66; 131; 41]),
   ParseIP ($"10.0.0.01"), ParseIP ($"1::2::3"), ParseIP ($"fe80::1%eth0"), ParseIP ($"1:2"),
   ParseIP ($"::ffff:10.0.0.1"))
  = (true, true, true, None, None, None, None, Some (v4_prefix ++ [10; 0; 0; 1])).
Proof. vm_compute. reflexivity. Qed.
Example ParseCIDR_ex :
  (ParseCIDR ($"10.1.2.3/8"), ParseCIDR ($"10.0.0.0/33"), is4 <$> ParseCIDR ($"2001:db8::/32"))
  = (Some (v4_prefix ++ [10; 0; 0; 0]), None, Some false).
Proof. vm_compute. reflexivity. Qed.

(** ** The bytes of an accepted address *)

Definition addr_byte (c : ascii) : bool :=
  is_digit c || in_range 97 102 c || in_range 65 70 c || bool_decide (c = ch ".") || bool_decide (c = ch ":").

Lemma digit_addr c : is_digit c = true -> addr_byte c = true.
Proof. intros H. unfold addr_byte. by rewrite H. Qed.

Lemma parse_octet_bytes s v : parse_octet s = Some v -> Forall (fun c => addr_byte c = true) s.
Proof.
  unfold parse_octet. destruct (bool_decide (s = []) || negb (forallb is_digit s)) eqn:E; [done|].
  intros _. bools. apply Forall_forallb in H0. eapply Forall_impl; [exact H0|].
  intros c Hc. by apply digit_addr.
Qed.

Lemma parse_v4_bytes s q : parse_v4 s = Some q -> Forall (fun c => addr_byte c = true) s.
Proof.
  unfold parse_v4. rewrite <-(join_split (ch ".") s) at 2.
  destruct (split_on (ch ".") s) as [|a [|b [|c [|d [|]]]]]; try done.
  destruct (parse_octet a) eqn:Ea; [|done]. destruct (parse_octet b) eqn:Eb; [|done].
  destruct (parse_octet c) eqn:Ec; [|done]. destruct (parse_octet d) eqn:Ed; [|done].
  intros _. apply parse_octet_bytes in Ea, Eb, Ec, Ed. simpl.
  repeat (apply Forall_app; split; [done|]; apply Forall_cons; split; [done|]). done.
Qed.

Lemma hex_val_addr c x : hex_val c = Some x -> addr_byte c = true.
Proof.
  unfold hex_val, addr_byte. destruct (is_digit c); [done|].
  destruct (in_range 97 102 c); [done|]. by destruct (in_range 65 70 c).
Qed.

Lemma hex_run_bytes n acc s m v r :
  hex_run n acc s = (m, v, r) -> exists p, s = p ++ r /\ Forall (fun c => addr_byte c = true) p.
Proof.
  revert n acc. induction s as [|c s IH]; intros n acc; simpl.
  - intros [= _ _ <-]. exists []. split; [done|constructor].
  - destruct (hex_val c) as [x|] eqn:Ex; [|intros [= _ _ <-]; exists []; split; [done|constructor]].
    intros H. apply IH in H as (p & -> & Hp). exists (c :: p). split; [done|].
    constructor; [|done]. by eapply hex_val_addr.
Qed.

Lemma v6_groups_bytes fuel bytes ell s out :
  v6_groups fuel bytes ell s = Some out -> Forall (fun c => addr_byte c = true) s.
Proof.
  revert bytes ell s. induction fuel as [|fuel IH]; intros bytes ell s; simpl.
  - case_bool_decide; [by subst|done].
  - destruct (hex_run 0 0 s) as [[off acc] rest] eqn:E. destruct (_ || _); [done|].
    apply hex_run_bytes in E as (p & -> & Hp). intros H. apply Forall_app. split; [done|].
    destruct rest as [|c r]; [done|].
    case_bool_decide as Hc.
    + destruct (_ || _); [done|]. destruct (parse_v4 (p ++ c :: r)) as [q|] eqn:Eq; [|done].
      apply parse_v4_bytes, Forall_app in Eq as [_ ?]. done.
    + case_bool_decide as Hcc; simpl in H; [subst c|discriminate H].
      apply Forall_cons. split; [done|].
      destruct r as [|d r]; [done|]. case_bool_decide as Hd; [|by eapply IH].
      subst d. apply Forall_cons. split; [done|]. destruct ell; [done|].
      case_bool_decide; [by subst|]. by eapply IH.
Qed.

Lemma ParseAddr_bytes s a : ParseAddr s = Some a -> Forall (fun c => addr_byte c = true) s.
Proof.
  unfold ParseAddr. destruct (addr_kind s) as [[]|]; [| |done].
  - destruct (parse_v4 s) eqn:E; [|done]. intros _. by eapply parse_v4_bytes.
  - destruct (parse_v6 s) eqn:E; [|done]. intros _. unfold parse_v6 in E.
    destruct s as [|x [|y r]]; try done.
    destruct (bool_decide (x = ch ":") && bool_decide (y = ch ":")) eqn:Exy.
    + bools. subst. do 2 (apply Forall_cons; split; [done|]). case_bool_decide; [by subst|].
      destruct (v6_groups _ _ _ r) as [[]|] eqn:Eg; [|done]. by eapply v6_groups_bytes.
    + destruct (v6_groups _ _ _ _) as [[]|] eqn:Eg; [|done]. by eapply v6_groups_bytes.
Qed.

Definition source_byte (c : ascii) : bool := addr_byte c || bool_decide (c = ch "/").

Lemma ParseIP_bytes s ip : ParseIP s = Some ip -> Forall (fun c => source_byte c = true) s.
Proof.
  unfold ParseIP. intros (a & Ha & _)%fmap_Some. apply ParseAddr_bytes in Ha.
  eapply Forall_impl; [exact Ha|]. intros c Hc. unfold source_byte. by rewrite Hc.
Qed.
Lemma ParseCIDR_bytes s ip : ParseCIDR s = Some ip -> Forall (fun c => source_byte c = true) s.
Proof.
  unfold ParseCIDR. destruct (cut (ch "/") s) as [[addr mask]|] eqn:E; [|done].
  apply cut_spec in E as [-> _]. destruct (ParseAddr addr) as [[v4 i]|] eqn:Ea; [|done].
  destruct (_ || _) eqn:Em; [done|]. intros _. bools. apply ParseAddr_bytes in Ea.
  apply Forall_app. split; [|apply Forall_cons; split; [done|]].
  - eapply Forall_impl; [exact Ea|]. intros c Hc. unfold source_byte. by rewrite Hc.
  - apply Forall_forallb in H0. eapply Forall_impl; [exact H0|].
    intros c Hc. unfold source_byte. by rewrite (digit_addr c Hc).
Qed.
