(* ===== verification/GoMatch.v ===== *)
(** * GoMatch: path.Match

    The matcher of the standard library's [path] package on byte strings, with
    its error for a malformed pattern. [matchChunk] keeps checking the pattern
    once the match has failed, which is how a bad pattern is reported against any
    name. *)

From S2P Require Import Prelude GoStr.

(** ** Runes *)

Definition rune_error : Z := 65533.
Definition cont_byte (c : ascii) : bool := in_range 128 191 c.
Definition cbits (c : ascii) : Z := Z.of_nat (code c) - 128.

(** [utf8.DecodeRuneInString]: the rune and its width; an invalid encoding is one
    byte wide and decodes to U+FFFD. *)
Definition decode_rune (s : str) : Z * nat :=
  let bad := (rune_error, 1%nat) in
  match s with
  | [] => (rune_error, 0%nat)
  | c0 :: rest =>
      let b0 := Z.of_nat (code c0) in
      if b0 <? 128 then (b0, 1%nat)
      else if in_range 194 223 c0 then
        match rest with
        | c1 :: _ => if cont_byte c1 then ((b0 - 192) * 64 + cbits c1, 2%nat) else bad
        | _ => bad
        end
      else if in_range 224 239 c0 then
        match rest with
        | c1 :: c2 :: _ =>
            let lo := if b0 =? 224 then 160%nat else 128%nat in
            let hi := if b0 =? 237 then 159%nat else 191%nat in
            if in_range lo hi c1 && cont_byte c2
            then ((b0 - 224) * 4096 + cbits c1 * 64 + cbits c2, 3%nat) else bad
        | _ => bad
        end
      else if in_range 240 244 c0 then
        match rest with
        | c1 :: c2 :: c3 :: _ =>
            let lo := if b0 =? 240 then 144%nat else 128%nat in
            let hi := if b0 =? 244 then 143%nat else 191%nat in
            if in_range lo hi c1 && cont_byte c2 && cont_byte c3
            then ((b0 - 240) * 262144 + cbits c1 * 4096 + cbits c2 * 64 + cbits c3, 4%nat) else bad
        | _ => bad
        end
      else bad
  end.

(** ** Chunks *)

(** [getEsc]: one possibly escaped rune of a character class and what follows it,
    [None] for a bad pattern. *)
Definition getEsc (chunk : str) : option (Z * str) :=
  match chunk with
  | [] => None
  | c :: rest =>
      if bool_decide (c = ch "-") || bool_decide (c = ch "]") then None
      else
        let chunk := if bool_decide (c = ch "\") then rest else chunk in
        match chunk with
        | [] => None
        | _ =>
            let '(r, n) := decode_rune chunk in
            if (r =? rune_error) && (n =? 1)%nat then None
            else match drop n chunk with [] => None | nchunk => Some (r, nchunk) end
        end
  end.

(** The ranges of a class up to its closing bracket: whether [r] is in one of
    them, and the rest. Every round consumes a byte, so the chunk's length is
    enough fuel. *)
Fixpoint ranges (fuel : nat) (chunk : str) (r : Z) (nrange : nat) (found : bool) : option (bool * str) :=
  match fuel with
  | O => None
  | S fuel =>
      match chunk with
      | c :: rest =>
          if bool_decide (c = ch "]") && negb (nrange =? 0)%nat then Some (found, rest)
          else
            match getEsc chunk with
            | None => None
            | Some (lo, chunk) =>
                match chunk with
                | c :: rest =>
                    if bool_decide (c = ch "-") then
                      match getEsc rest with
                      | None => None
                      | Some (hi, chunk) => ranges fuel chunk r (S nrange) (found || (lo <=? r) && (r <=? hi))
                      end
                    else ranges fuel chunk r (S nrange) (found || (lo <=? r) && (r <=? lo))
                | [] => None
                end
            end
      | [] => None
      end
  end.

(** [matchChunk]: [None] for a bad pattern, [Some None] for no match, [Some (Some
    rest)] for a match of a prefix. [s = None] once the match has failed. *)
Fixpoint matchChunk (fuel : nat) (chunk : str) (s : option str) : option (option str) :=
  match chunk with
  | [] => Some s
  | c :: rest =>
      match fuel with
      | O => None
      | S fuel =>
          let s := match s with Some [] => None | _ => s end in
          let literal c rest :=
            matchChunk fuel rest (match s with Some (d :: s) => if bool_decide (c = d) then Some s else None | _ => None end) in
          if bool_decide (c = ch "[") then
            let '(r, s) := match s with
              | Some t => let '(r, n) := decode_rune t in (r, Some (drop n t))
              | None => (0, None) end in
            let '(negated, class) := match rest with
              | d :: rest' => if bool_decide (d = ch "^") then (true, rest') else (false, rest)
              | [] => (false, rest) end in
            match ranges (S (List.length class)) class r 0 false with
            | None => None
            | Some (found, rest) => matchChunk fuel rest (if Bool.eqb found negated then None else s)
            end
          else if bool_decide (c = ch "?") then
            matchChunk fuel rest (match s with
              | Some (d :: t) => if bool_decide (d = ch "/") then None else Some (drop (decode_rune (d :: t)).2 (d :: t))
              | _ => None end)
          else if bool_decide (c = ch "\") then
            match rest with
            | [] => None
            | c :: rest => literal c rest
            end
          else literal c rest
      end
  end.
Definition chunk_match (chunk s : str) : option (option str) := matchChunk (List.length chunk) chunk (Some s).

(** [scanChunk]: leading stars, the chunk up to the next star outside a class, the
    rest. *)
Fixpoint skip_stars (pattern : str) : bool * str :=
  match pattern with
  | c :: rest => if bool_decide (c = ch "*") then (true, (skip_stars rest).2) else (false, pattern)
  | [] => (false, [])
  end.
Fixpoint scan (inrange : bool) (pattern : str) : str * str :=
  match pattern with
  | [] => ([], [])
  | c :: rest =>
      if bool_decide (c = ch "\") then
        match rest with
        | d :: rest => let '(a, b) := scan inrange rest in (c :: d :: a, b)
        | [] => ([c], [])
        end
      else if bool_decide (c = ch "*") && negb inrange then ([], pattern)
      else
        let inrange := if bool_decide (c = ch "[") then true
                       else if bool_decide (c = ch "]") then false else inrange in
        let '(a, b) := scan inrange rest in (c :: a, b)
  end.
Definition scanChunk (pattern : str) : bool * str * str :=
  let '(star, pattern) := skip_stars pattern in
  let '(chunk, rest) := scan false pattern in (star, chunk, rest).

(** The remaining chunks are well formed. *)
Fixpoint rest_valid (fuel : nat) (pattern : str) : bool :=
  match pattern with
  | [] => true
  | _ =>
      match fuel with
      | O => false
      | S fuel =>
          let '(_, chunk, rest) := scanChunk pattern in
          match chunk_match chunk [] with None => false | Some _ => rest_valid fuel rest end
      end
  end.

(** The first position after a star where the chunk matches: [None] for a bad
    pattern, [Some None] for nowhere. *)
Fixpoint star_match (chunk : str) (last : bool) (name : str) : option (option str) :=
  match name with
  | [] => Some None
  | c :: name =>
      if bool_decide (c = ch "/") then Some None
      else
        match chunk_match chunk name with
        | Some (Some t) => if last && negb (bool_decide (t = [])) then star_match chunk last name else Some (Some t)
        | None => None
        | Some None => star_match chunk last name
        end
  end.

Fixpoint match_loop (fuel : nat) (pattern name : str) : option bool :=
  match pattern with
  | [] => Some (bool_decide (name = []))
  | _ =>
      match fuel with
      | O => None
      | S fuel =>
          let '(star, chunk, rest) := scanChunk pattern in
          if star && bool_decide (chunk = []) then Some (negb (has_byte (ch "/") name))
          else
            let last := bool_decide (rest = []) in
            let otherwise :=
              match (if star then star_match chunk last name else Some None) with
              | None => None
              | Some (Some t) => match_loop fuel rest t
              | Some None => if rest_valid (List.length rest) rest then Some false else None
              end in
            match chunk_match chunk name with
            | None => None
            | Some (Some t) => if bool_decide (t = []) || negb last then match_loop fuel rest t else otherwise
            | Some None => otherwise
            end
      end
  end.

(** [path.Match(pattern, name)]: [None] is [ErrBadPattern]. Every round consumes
    a byte of the pattern. *)
Definition path_Match (pattern name : str) : option bool := match_loop (List.length pattern) pattern name.

Example path_Match_ex :
  path_Match ($"*.example.com") ($"a.example.com") = Some true /\
  path_Match ($"*.example.com") ($"example.com") = Some false /\
  path_Match ($"https://*.x[a-c]?.org") ($"https://q.xbz.org") = Some true /\
  path_Match ($"a*c*e") ($"abcde") = Some true /\
  path_Match ($"*") ($"a/b") = Some false /\
  path_Match ($"[a-") ($"x") = None /\ path_Match ($"a[") ($"x") = None /\
  path_Match ($"[^b]x\") ($"ax") = None /\ path_Match ($"[]a]") ($"]") = None.
Proof. by vm_compute. Qed.
