(* ===== verification/Base64.v ===== *)
(** * Base64: [encoding/base64]'s [StdEncoding]

    The file API carries file contents as base64 inside JSON. The alphabet and
    the padding are those of RFC 4648; like Go's decoder, [DecodeString] skips
    carriage returns and newlines, wants the padding complete and does not look
    at the bits a final quantum leaves over. *)

From S2P Require Import Prelude GoStr GoPath.

Definition alphabet : str := $"ABCDEFGHIJKLMNOPQRSTUVWXYZabcdefghijklmnopqrstuvwxyz0123456789+/".
Definition pad : ascii := ch "=".

Definition b64_char (n : Z) : ascii := nth (Z.to_nat n) alphabet pad.
(** The value of a digit: its place in the alphabet. *)
Definition b64_digit (c : ascii) : option Z :=
  (fun p => Z.of_nat p.1) <$> list_find (fun d => d = c) alphabet.

Definition byteZ (n : Z) : ascii := byte (Z.to_nat n).
Definition codeZ (c : ascii) : Z := Z.of_nat (code c).

Fixpoint EncodeToString (s : str) : str :=
  match s with
  | [] => []
  | [x] =>
      let v := codeZ x * 65536 in
      [b64_char (v / 262144 mod 64); b64_char (v / 4096 mod 64); pad; pad]
  | [x; y] =>
      let v := codeZ x * 65536 + codeZ y * 256 in
      [b64_char (v / 262144 mod 64); b64_char (v / 4096 mod 64); b64_char (v / 64 mod 64); pad]
  | x :: y :: z :: rest =>
      let v := codeZ x * 65536 + codeZ y * 256 + codeZ z in
      b64_char (v / 262144 mod 64) :: b64_char (v / 4096 mod 64) :: b64_char (v / 64 mod 64) ::
      b64_char (v mod 64) :: EncodeToString rest
  end.

Fixpoint decode_quanta (s : str) : option str :=
  match s with
  | [] => Some []
  | a :: b :: c :: d :: rest =>
      i ← b64_digit a; j ← b64_digit b;
      if bool_decide (c = pad) then
        if bool_decide (d = pad /\ rest = []) then Some [byteZ ((i * 64 + j) / 16)] else None
      else
        k ← b64_digit c;
        if bool_decide (d = pad) then
          if bool_decide (rest = []) then
            let v := i * 4096 + j * 64 + k in Some [byteZ (v / 1024); byteZ (v / 4 mod 256)]
          else None
        else
          l ← b64_digit d;
          tail ← decode_quanta rest;
          let v := i * 262144 + j * 4096 + k * 64 + l in
          Some (byteZ (v / 65536) :: byteZ (v / 256 mod 256) :: byteZ (v mod 256) :: tail)
  | _ => None
  end.
Definition is_crlf (c : ascii) : Prop := c = byte 13 \/ c = byte 10.
#[export] Instance is_crlf_dec c : Decision (is_crlf c).
Proof. unfold is_crlf. apply _. Defined.
Definition DecodeString (s : str) : option str := decode_quanta (filter (fun c => ~ is_crlf c) s).

Example encode_ex : EncodeToString ($"any carnal pleas") = $"YW55IGNhcm5hbCBwbGVhcw==".
Proof. reflexivity. Qed.
Example decode_ex : DecodeString ($"YW55IGNhcm5h" ++ [byte 10] ++ $"bCBwbGVhc3U=") = Some ($"any carnal pleasu").
Proof. reflexivity. Qed.
Example decode_reject : DecodeString ($"YW5") = None /\ DecodeString ($"YW==YW5=") = None /\ DecodeString ($"Y=W5") = None.
Proof. done. Qed.

(** ** Round trip *)

Definition digit_ok (n : Z) : bool :=
  bool_decide (b64_digit (b64_char n) = Some n) && negb (bool_decide (b64_char n = pad))
  && negb (bool_decide (is_crlf (b64_char n))).
Lemma digits_ok : forallb digit_ok (Z.of_nat <$> seq 0 64) = true.
Proof. vm_compute. reflexivity. Qed.
Lemma digit_ok_all n : 0 <= n < 64 -> digit_ok n = true.
Proof.
  intros Hn. pose proof digits_ok as H. rewrite forallb_forall in H. apply H.
  rewrite <-(Z2Nat.id n) by lia. apply in_map, in_seq. lia.
Qed.
Lemma b64_digit_char n : 0 <= n < 64 -> b64_digit (b64_char n) = Some n.
Proof. intros H%digit_ok_all. unfold digit_ok in H. by bools. Qed.
Lemma b64_char_pad n : 0 <= n < 64 -> b64_char n <> pad.
Proof. intros H%digit_ok_all. unfold digit_ok in H. by bools. Qed.
Lemma b64_char_crlf n : 0 <= n < 64 -> ~ is_crlf (b64_char n).
Proof. intros H%digit_ok_all. unfold digit_ok in H. by bools. Qed.

Lemma codeZ_range c : 0 <= codeZ c < 256.
Proof. unfold codeZ, code. pose proof (Stdlib.Strings.Ascii.nat_ascii_bounded c). lia. Qed.
Lemma byteZ_codeZ c : byteZ (codeZ c) = c.
Proof. unfold byteZ, codeZ, byte, code. rewrite Nat2Z.id. apply Stdlib.Strings.Ascii.ascii_nat_embedding. Qed.
Lemma byteZ_eq n c : n = codeZ c -> byteZ n = c.
Proof. intros ->. apply byteZ_codeZ. Qed.

Ltac divmod := Z.to_euclidean_division_equations; lia.
Ltac digit := apply b64_digit_char || apply b64_char_pad || apply b64_char_crlf; apply Z.mod_pos_bound; lia.

(** Induction three bytes at a time. *)
Lemma triples_ind (P : str -> Prop) :
  P [] -> (forall x, P [x]) -> (forall x y, P [x; y]) ->
  (forall x y z s, P s -> P (x :: y :: z :: s)) -> forall s, P s.
Proof.
  intros H0 H1 H2 H3 s. remember (List.length s) as n eqn:Hn. revert s Hn.
  induction n as [n IH] using (well_founded_induction Wf_nat.lt_wf). intros s ->.
  destruct s as [|x [|y [|z rest]]]; auto. apply H3. eapply IH; [|reflexivity]. cbn. lia.
Qed.

Lemma encode_no_crlf s : Forall (fun c => ~ is_crlf c) (EncodeToString s).
Proof.
  assert (Hpad : ~ is_crlf pad) by (intros [?|?]; discriminate).
  induction s as [|x|x y|x y z s IH] using triples_ind; cbn [EncodeToString];
    repeat constructor; try done; digit.
Qed.

Lemma decode_encode s : decode_quanta (EncodeToString s) = Some s.
Proof.
  induction s as [|x|x y|x y z s IH] using triples_ind; [done| | |]; cbn [EncodeToString decode_quanta];
    repeat rewrite b64_digit_char by (apply Z.mod_pos_bound; lia); cbn [mbind option_bind];
    repeat first [rewrite (bool_decide_eq_true_2 (_ = pad)) by done
                 |rewrite (bool_decide_eq_false_2 (_ = pad)) by digit
                 |rewrite bool_decide_eq_true_2 by done];
    cbn [mbind option_bind].
  - pose proof (codeZ_range x). do 2 f_equal. apply byteZ_eq. divmod.
  - pose proof (codeZ_range x). pose proof (codeZ_range y). do 2 f_equal; [|f_equal]; apply byteZ_eq; divmod.
  - rewrite IH. cbn [mbind option_bind].
    pose proof (codeZ_range x). pose proof (codeZ_range y). pose proof (codeZ_range z).
    do 2 f_equal; [|f_equal; [|f_equal]]; apply byteZ_eq; divmod.
Qed.

(** What [EncodeToString] writes, [DecodeString] reads back. *)
Lemma DecodeString_EncodeToString s : DecodeString (EncodeToString s) = Some s.
Proof.
  unfold DecodeString. rewrite filter_id; [apply decode_encode|apply encode_no_crlf].
Qed.

(** ** [RawURLEncoding]

    The same digits with [-] and [_] for [+] and [/], and no padding. *)

Definition to_url (c : ascii) : ascii := if bool_decide (c = ch "+") then ch "-" else if bool_decide (c = ch "/") then ch "_" else c.
Definition from_url (c : ascii) : option ascii :=
  if bool_decide (c = ch "-") then Some (ch "+") else if bool_decide (c = ch "_") then Some (ch "/")
  else if bool_decide (c = ch "+" \/ c = ch "/" \/ c = pad) then None else Some c.
Definition missing_pad (n : nat) : str := match (n mod 4)%nat with 2%nat => [pad; pad] | 3%nat => [pad] | _ => [] end.
Definition RawURL_Encode (s : str) : str := to_url <$> filter (fun c => c <> pad) (EncodeToString s).
Definition RawURL_Decode (s : str) : option str :=
  digits ← mapM from_url (filter (fun c => ~ is_crlf c) s); decode_quanta (digits ++ missing_pad (List.length digits)).
Example url_ex : RawURL_Encode [byte 251; byte 255; byte 7] = $"-_8H" /\ RawURL_Decode ($"-_8") = Some [byte 251; byte 255] /\
  RawURL_Decode ($"+_8H") = None /\ RawURL_Decode ($"-_8=") = None /\ RawURL_Decode ($"-_8Ha") = None.
Proof. vm_compute. done. Qed.

Definition url_ok (n : Z) : bool :=
  bool_decide (from_url (to_url (b64_char n)) = Some (b64_char n)) && negb (bool_decide (is_crlf (to_url (b64_char n)))).
Lemma url_digits_ok : forallb url_ok (Z.of_nat <$> seq 0 64) = true.
Proof. vm_compute. reflexivity. Qed.
Definition digit_char (c : ascii) : Prop := exists n, 0 <= n < 64 /\ c = b64_char n.
Lemma digit_char_url c : digit_char c -> from_url (to_url c) = Some c /\ ~ is_crlf (to_url c) /\ c <> pad.
Proof.
  intros (n & Hn & ->). pose proof url_digits_ok as H. rewrite forallb_forall in H. specialize (H n).
  assert (Hok : url_ok n = true) by (apply H; rewrite <-(Z2Nat.id n) by lia; apply in_map, in_seq; lia).
  unfold url_ok in Hok. bools. split_and!; try done. by apply b64_char_pad.
Qed.
(** What is encoded: digits, then the padding their number lacks. *)
Lemma encode_digits s : exists body, EncodeToString s = body ++ missing_pad (List.length body) /\ Forall digit_char body.
Proof.
  assert (Hd : forall n, 0 <= n < 64 -> digit_char (b64_char n)) by (intros n Hn; by exists n).
  assert (Hm : forall n, digit_char (b64_char (n mod 64))) by (intros n; apply Hd, Z.mod_pos_bound; lia).
  induction s as [|x|x y|x y z s (body & IH & Hb)] using triples_ind; cbn [EncodeToString].
  - by exists [].
  - eexists [_; _]. split; [reflexivity|]. auto.
  - eexists [_; _; _]. split; [reflexivity|]. auto.
  - eexists (_ :: _ :: _ :: _ :: body). rewrite IH. split; [|by auto].
    replace (missing_pad (List.length (_ :: _ :: _ :: _ :: body))) with (missing_pad (List.length body)); [done|].
    unfold missing_pad. cbn [List.length]. change (S (S (S (S (List.length body))))) with (4 + List.length body)%nat.
    by rewrite Nat.add_comm, <-Nat.Div0.add_mod_idemp_r, Nat.Div0.mod_same, Nat.add_0_r.
Qed.
Lemma not_pad_filter body n : Forall digit_char body -> filter (fun c => c <> pad) (body ++ missing_pad n) = body.
Proof.
  intros Hb. rewrite filter_app. assert (Hp : filter (fun c => c <> pad) (missing_pad n) = []) by (unfold missing_pad; by destruct (n mod 4)%nat as [|[|[|[]]]]).
  rewrite Hp, app_nil_r. induction Hb as [|c body Hc _ IH]; [done|]. rewrite filter_cons_True, IH; [done|]. by apply digit_char_url.
Qed.
Lemma RawURL_Decode_Encode s : RawURL_Decode (RawURL_Encode s) = Some s.
Proof.
  destruct (encode_digits s) as (body & He & Hb). unfold RawURL_Decode, RawURL_Encode. rewrite He, not_pad_filter by done.
  assert (Hf : filter (fun c => ~ is_crlf c) (to_url <$> body) = to_url <$> body).
  { clear He. induction Hb as [|c body Hc _ IH]; [done|]. rewrite fmap_cons, filter_cons_True, IH; [done|]. by apply digit_char_url. }
  assert (Hu : mapM from_url (to_url <$> body) = Some body).
  { clear He Hf. apply mapM_Some. induction Hb as [|c body Hc _ IH]; [constructor|]. constructor; [by apply digit_char_url|done]. }
  rewrite Hf, Hu. cbn [mbind option_bind]. rewrite <-He. apply decode_encode.
Qed.
