(* ===== verification/PrivPackages.v ===== *)
(** * PrivPackages: internal/privfs/packages.go

    The package grant and the table of package-manager invocations. A Go
    [map[string]bool] that is only ever set to [true] is a finite set. *)

From S2P Require Import Prelude GoStr Regex.

Abbreviation strset := (gset str).

(** The keys of a set, sorted, as every error message lists them. *)
Definition sorted_keys (s : strset) : list str := sort_strings (elements s).

Definition packageManagers : gmap str str :=
  list_to_map [($"apt", $"apt-get"); ($"dnf", $"dnf"); ($"yum", $"yum"); ($"pacman", $"pacman");
               ($"zypper", $"zypper"); ($"apk", $"apk"); ($"xbps", $"xbps-install")].

Definition allowedPackageVerbs : strset :=
  list_to_set [$"refresh"; $"upgrade"; $"install"; $"remove"].

(** [^[A-Za-z0-9][A-Za-z0-9._+-]{0,127}$] *)
Definition packageNamePattern : regex :=
  RCat (cls [rng "A" "Z"; rng "a" "z"; rng "0" "9"])
       (upto (cls [rng "A" "Z"; rng "a" "z"; rng "0" "9"; one "._+-"]) 127).

Definition ValidPackageName (name : str) : bool := matches packageNamePattern name.

Record PackageGrant := mkPackageGrant { pg_Manager : str; pg_Verbs : strset }.

Definition PackageManagers : str :=
  join ($", ") (sort_strings (map_to_list packageManagers).*1).
Definition PackageVerbs : str := join ($", ") (sorted_keys allowedPackageVerbs).

Definition validPackageVerb (verb : str) : bool := bool_decide (verb ∈ allowedPackageVerbs).
Definition ValidPackageVerb (verb : str) : bool := bool_decide (verb ∈ allowedPackageVerbs).
Definition ValidPackageManager (manager : str) : bool := bool_decide (is_Some (packageManagers !! manager)).

(** The loop that validates and collects verbs; each is trimmed and lowered. *)
Fixpoint collect_verbs `{Unicode} (valid : str -> bool) (bad : str -> error)
    (allowed : strset) (verbs : list str) : res strset :=
  match verbs with
  | [] => Ok allowed
  | verb :: rest =>
      let verb := ToLower (TrimSpace verb) in
      if negb (valid verb) then Err (bad verb)
      else collect_verbs valid bad ({[verb]} ∪ allowed) rest
  end.

Definition buildPackageGrant `{Unicode} (manager : str) (verbs : list str) : res PackageGrant :=
  let manager := ToLower (TrimSpace manager) in
  if bool_decide (manager = []) then
    Err (Errorf "manager is required (one of: %s)" [FStr PackageManagers])
  else if negb (bool_decide (is_Some (packageManagers !! manager))) then
    Err (Errorf "manager %q is not one of: %s" [FStr manager; FStr PackageManagers])
  else if bool_decide (verbs = []) then
    Err (Errorf "manager %q declares no verbs" [FStr manager])
  else
    let? allowed := collect_verbs validPackageVerb
      (fun verb => Errorf "verb %q is not one of: %s" [FStr verb; FStr PackageVerbs]) ∅ verbs in
    Ok (mkPackageGrant manager allowed).

Definition PackageGrant_verbList (g : PackageGrant) : str := join ($",") (sorted_keys (pg_Verbs g)).

Definition PackageGrant_CheckVerb (g : PackageGrant) (verb : str) : res unit :=
  if negb (validPackageVerb verb) then
    Err (Errorf "verb %q is not one of: %s" [FStr verb; FStr PackageVerbs])
  else if negb (bool_decide (verb ∈ pg_Verbs g)) then
    let granted := sorted_keys (pg_Verbs g) in
    Err (Errorf "verb %q is not granted for %s (granted: %s)"
           [FStr verb; FStr (pg_Manager g); FStr (join ($", ") granted)])
  else Ok tt.

Definition managerBinary (manager verb : str) : str :=
  if bool_decide (manager = $"xbps") && bool_decide (verb = $"remove") then $"xbps-remove"
  else default [] (packageManagers !! manager).

Definition packageArgs (manager verb name : str) : list str :=
  let isv v := bool_decide (verb = v) in
  if bool_decide (manager = $"apt") then
    if isv ($"refresh") then [$"update"]
    else if isv ($"upgrade") then [$"-y"; $"upgrade"]
    else [$"-y"; verb; $"--"; name]
  else if bool_decide (manager = $"dnf") || bool_decide (manager = $"yum") then
    if isv ($"refresh") then [$"makecache"]
    else if isv ($"upgrade") then [$"-y"; $"upgrade"]
    else [$"-y"; verb; $"--"; name]
  else if bool_decide (manager = $"pacman") then
    if isv ($"refresh") then [$"-Sy"]
    else if isv ($"upgrade") then [$"--noconfirm"; $"-Syu"]
    else if isv ($"install") then [$"--noconfirm"; $"-S"; $"--"; name]
    else [$"--noconfirm"; $"-R"; $"--"; name]
  else if bool_decide (manager = $"zypper") then
    if isv ($"refresh") then [$"--non-interactive"; $"refresh"]
    else if isv ($"upgrade") then [$"--non-interactive"; $"update"]
    else [$"--non-interactive"; verb; $"--"; name]
  else if bool_decide (manager = $"apk") then
    if isv ($"refresh") then [$"update"]
    else if isv ($"upgrade") then [$"upgrade"]
    else if isv ($"install") then [$"add"; $"--"; name]
    else [$"del"; $"--"; name]
  else if bool_decide (manager = $"xbps") then
    if isv ($"refresh") then [$"-S"]
    else if isv ($"upgrade") then [$"-yu"]
    else if isv ($"install") then [$"-y"; $"--"; name]
    else [$"-y"; $"--"; name]
  else [].

Definition PackageCommand (manager verb name : str) : res (list str) :=
  if negb (ValidPackageManager manager) then
    Err (Errorf "package manager %q is not one of: %s" [FStr manager; FStr PackageManagers])
  else if negb (ValidPackageVerb verb) then
    Err (Errorf "package verb %q is not one of: %s" [FStr verb; FStr PackageVerbs])
  else
    let? _ :=
      if bool_decide (verb = $"install") || bool_decide (verb = $"remove") then
        guard (negb (ValidPackageName name))
          (Errorf "package name %q must be a plain name matching %s (a path, a URL, a version pin and an architecture qualifier are not accepted)"
             [FStr name])
      else if bool_decide (verb = $"refresh") || bool_decide (verb = $"upgrade") then
        guard (negb (bool_decide (name = []))) (Errorf "verb %q takes no package name" [FStr verb])
      else Ok tt in
    let binary := managerBinary manager verb in
    let args := packageArgs manager verb name in
    Ok (binary :: args).

Definition PackageGrant_PackageArgv (g : PackageGrant) (verb name : str) : res (list str) :=
  let? _ := PackageGrant_CheckVerb g verb in
  PackageCommand (pg_Manager g) verb name.

Definition PackageManagerPreference : list str :=
  [$"apt"; $"dnf"; $"yum"; $"pacman"; $"zypper"; $"apk"; $"xbps"].

Definition PackageEnv (manager : str) : list str :=
  if bool_decide (manager = $"apt") then [$"DEBIAN_FRONTEND=noninteractive"] else [].

Definition managerPaths : gmap str (list str) :=
  list_to_map [($"apt-get", [$"/usr/bin/apt-get"; $"/bin/apt-get"]);
    ($"dnf", [$"/usr/bin/dnf"; $"/bin/dnf"]);
    ($"yum", [$"/usr/bin/yum"; $"/bin/yum"]);
    ($"pacman", [$"/usr/bin/pacman"; $"/bin/pacman"]);
    ($"zypper", [$"/usr/bin/zypper"; $"/sbin/zypper"]);
    ($"apk", [$"/sbin/apk"; $"/usr/sbin/apk"]);
    ($"xbps-install", [$"/usr/bin/xbps-install"; $"/bin/xbps-install"]);
    ($"xbps-remove", [$"/usr/bin/xbps-remove"; $"/bin/xbps-remove"])].

(** ** Facts *)

(** The collecting loop accepts exactly when every normalised verb is valid. *)
Lemma collect_verbs_ok `{Unicode} valid bad allowed verbs s :
  collect_verbs valid bad allowed verbs = Ok s <->
  Forall (fun v => valid (ToLower (TrimSpace v)) = true) verbs /\
  s = allowed ∪ list_to_set ((fun v => ToLower (TrimSpace v)) <$> verbs).
Proof.
  revert allowed. induction verbs as [|v verbs IH]; intros allowed; simpl.
  - split; [intros [= ->]; split; [constructor|set_solver]|intros [_ ->]; f_equal; set_solver].
  - rewrite Forall_cons. destruct (valid (ToLower (TrimSpace v))) eqn:E; simpl.
    + rewrite IH. split; intros [H1 ->]; (split; [naive_solver|set_solver]).
    + split; [done|naive_solver].
Qed.

Lemma collect_verbs_sub `{Unicode} valid bad verbs s v :
  collect_verbs valid bad ∅ verbs = Ok s -> v ∈ s -> valid v = true.
Proof.
  intros [HF ->]%collect_verbs_ok Hv. rewrite Forall_forall in HF.
  rewrite left_id_L, elem_of_list_to_set, list_elem_of_fmap in Hv by apply _.
  destruct Hv as (u & -> & Hu). by apply HF.
Qed.

Definition package_grant_ok (g : PackageGrant) : Prop :=
  is_Some (packageManagers !! pg_Manager g) /\ pg_Verbs g ⊆ allowedPackageVerbs.

Lemma buildPackageGrant_ok `{Unicode} manager verbs g :
  buildPackageGrant manager verbs = Ok g -> package_grant_ok g /\ pg_Verbs g <> ∅.
Proof.
  unfold buildPackageGrant. set (m := ToLower (TrimSpace manager)). intros Hb.
  repeat break_if_in Hb; try discriminate; bools. inv_ok. simpl.
  apply collect_verbs_ok in Hstep as Hc. destruct Hc as [HF ->].
  split; [split|]; simpl.
  - done.
  - intros v Hv. eapply collect_verbs_sub in Hv; [|done]. by apply bool_decide_eq_true in Hv.
  - destruct verbs as [|v vs]; [done|]. intros E.
    assert (Hv : ToLower (TrimSpace v) ∈ (∅ : strset)).
    { rewrite <-E, fmap_cons. simpl. apply elem_of_union_r, elem_of_union_l.
      by apply elem_of_singleton. }
    by apply not_elem_of_empty in Hv.
Qed.

Lemma CheckVerb_ok g verb u :
  PackageGrant_CheckVerb g verb = Ok u <-> verb ∈ allowedPackageVerbs /\ verb ∈ pg_Verbs g.
Proof.
  unfold PackageGrant_CheckVerb, validPackageVerb. destruct u.
  repeat case_bool_decide; simpl; naive_solver.
Qed.

(** ** The command vector *)

(** The bytes of an accepted package name: none that a shell, an option parser,
    a URL or a version pin would give a meaning to. *)
Definition name_byte (c : ascii) : bool :=
  is_upper c || is_lower c || is_digit c || has_byte c ($"._+-").

Lemma ValidPackageName_bytes name : ValidPackageName name = true ->
  name <> [] /\ Forall (fun c => name_byte c = true) name /\ head name <> Some (ch "-") /\
  (List.length name <= 128)%nat.
Proof.
  unfold ValidPackageName. intros Hm. split_and!.
  - eapply matches_nonempty; [|exact Hm]. by vm_compute.
  - eapply matches_all; [|exact Hm]. by vm_compute.
  - destruct name as [|c s]; [done|]. simpl. intros [= ->].
    eapply (matches_first (fun c => negb (bool_decide (c = ch "-")))) in Hm; by vm_compute in Hm.
  - eapply matches_len in Hm; [exact Hm|]. by vm_compute.
Qed.

Lemma manager_cases m : is_Some (packageManagers !! m) ->
  m ∈ [$"apt"; $"dnf"; $"yum"; $"pacman"; $"zypper"; $"apk"; $"xbps"].
Proof.
  intros [b H]. apply elem_of_list_to_map_2 in H.
  repeat (apply elem_of_cons in H as [[= -> ->]|H]; [set_solver|]). by apply elem_of_nil in H.
Qed.
Lemma verb_cases v : v ∈ allowedPackageVerbs -> v ∈ [$"refresh"; $"upgrade"; $"install"; $"remove"].
Proof. apply elem_of_list_to_set. Qed.

(** Case analysis over a membership in a literal list. *)
Ltac each_elem H := repeat (apply elem_of_cons in H as [->|H]; [|]); [..|by apply elem_of_nil in H].

Lemma named_command m v : is_Some (packageManagers !! m) -> v = $"install" \/ v = $"remove" ->
  exists bin flags, is_Some (managerPaths !! bin) /\ forall name, ValidPackageName name = true ->
    PackageCommand m v name = Ok (bin :: flags ++ [$"--"; name]).
Proof.
  intros Hm%manager_cases Hv.
  exists (managerBinary m v), (take (List.length (packageArgs m v []) - 2) (packageArgs m v [])).
  each_elem Hm; destruct Hv as [-> | ->]; (split; [by apply (bool_decide_unpack _); vm_compute|]);
    intros name Hn; unfold PackageCommand; rewrite Hn; by vm_compute.
Qed.

Lemma bare_command m v : is_Some (packageManagers !! m) -> v = $"refresh" \/ v = $"upgrade" ->
  exists bin flags, is_Some (managerPaths !! bin) /\ PackageCommand m v [] = Ok (bin :: flags) /\
    forall name, name <> [] -> is_ok (PackageCommand m v name) = false.
Proof.
  intros Hm%manager_cases Hv. exists (managerBinary m v), (packageArgs m v []).
  each_elem Hm; destruct Hv as [-> | ->]; (split; [by apply (bool_decide_unpack _); vm_compute|]);
    (split; [by vm_compute|]); (intros [|c name] Hn; [done|by vm_compute]).
Qed.

(** What the helper runs for a package operation. For every well-formed grant
    and granted verb: [install] and [remove] succeed exactly for a plain package
    name, and the command is then a known binary, constant options, the separator
    [--] and the name as one last argument, where binary and options do not depend
    on the name; [refresh] and [upgrade] succeed exactly without a name and run a
    constant command. A verb the grant does not list is refused. The name is at
    most 128 bytes, cannot start with a dash and has none of the bytes of a path, a
    URL, a version pin or a shell. *)
Theorem PackageArgv_safe g verb : package_grant_ok g ->
  (verb ∉ pg_Verbs g -> forall name, is_ok (PackageGrant_PackageArgv g verb name) = false) /\
  (verb ∈ pg_Verbs g -> exists bin flags, is_Some (managerPaths !! bin) /\
     ((verb = $"install" \/ verb = $"remove") /\ (forall name, if ValidPackageName name
         then PackageGrant_PackageArgv g verb name = Ok (bin :: flags ++ [$"--"; name])
         else is_ok (PackageGrant_PackageArgv g verb name) = false)
      \/
      (verb = $"refresh" \/ verb = $"upgrade") /\ PackageGrant_PackageArgv g verb [] = Ok (bin :: flags) /\
        (forall name, name <> [] -> is_ok (PackageGrant_PackageArgv g verb name) = false))) /\
  (forall name, ValidPackageName name = true -> name <> [] /\ head name <> Some (ch "-") /\
     Forall (fun c => name_byte c = true) name /\ (List.length name <= 128)%nat).
Proof.
  intros [Hm Hsub]. split_and!.
  - intros Hv name. unfold PackageGrant_PackageArgv.
    destruct (PackageGrant_CheckVerb g verb) eqn:E; [|done]. by apply CheckVerb_ok in E as [_ ?].
  - intros Hv. pose proof (Hsub _ Hv) as Ha.
    assert (E : PackageGrant_CheckVerb g verb = Ok tt) by (by apply CheckVerb_ok).
    unfold PackageGrant_PackageArgv. rewrite E. cbn [res_bind].
    assert (Hc : (verb = $"install" \/ verb = $"remove") \/ (verb = $"refresh" \/ verb = $"upgrade")).
    { apply verb_cases in Ha. each_elem Ha; auto. }
    destruct Hc as [Hc|Hc].
    + destruct (named_command _ _ Hm Hc) as (bin & flags & Hb & Hcmd). exists bin, flags.
      split; [done|]. left. split; [done|]. intros name.
      destruct (ValidPackageName name) eqn:En; [by apply Hcmd|]. unfold PackageCommand.
      unfold ValidPackageManager, ValidPackageVerb. rewrite !bool_decide_eq_true_2 by done.
      destruct Hc as [-> | ->]; rewrite En; done.
    + destruct (bare_command _ _ Hm Hc) as (bin & flags & Hb & Hcmd & Hno). eauto 10.
  - intros name (?&?&?&?)%ValidPackageName_bytes. done.
Qed.

Lemma PackageArgv_safe_witness :
  package_grant_ok (mkPackageGrant ($"apt") {[ $"install" ]}) /\
  PackageGrant_PackageArgv (mkPackageGrant ($"apt") {[ $"install" ]}) ($"install") ($"nginx")
    = Ok [$"apt-get"; $"-y"; $"install"; $"--"; $"nginx"] /\
  ($"remove" ∉ pg_Verbs (mkPackageGrant ($"apt") {[ $"install" ]}) -> forall name,
     is_ok (PackageGrant_PackageArgv (mkPackageGrant ($"apt") {[ $"install" ]}) ($"remove") name) = false).
Proof.
  assert (Hg : package_grant_ok (mkPackageGrant ($"apt") {[ $"install" ]})).
  { split; [by apply (bool_decide_unpack _); vm_compute|by apply (bool_decide_unpack _); vm_compute]. }
  split; [exact Hg|]. split; [by vm_compute|].
  exact (proj1 (PackageArgv_safe (mkPackageGrant ($"apt") {[ $"install" ]}) ($"remove") Hg)).
Defined.
