(* ===== verification/PrivFirewall.v ===== *)
(** * PrivFirewall: internal/privfs/firewall.go

    The firewall grant, the rule grammar and the command table of the two
    backends. *)

From S2P Require Import Prelude GoStr Regex GoNet PrivPackages.

Definition firewallBackends : strset := list_to_set [$"ufw"; $"firewalld"].
Definition allowedFirewallVerbs : strset :=
  list_to_set [$"enable"; $"disable"; $"allow"; $"deny"; $"delete"].
Definition firewallProtocols : strset := list_to_set [$"tcp"; $"udp"; $"any"].

(** [^[0-9]{1,5}(:[0-9]{1,5})?$] *)
Definition firewallPortPattern : regex :=
  let d := cls [rng "0" "9"] in
  RCat (between d 1 5) (opt (RCat (lit ":") (between d 1 5))).
(** [^[A-Za-z][A-Za-z0-9_-]{0,31}$] *)
Definition firewallServicePattern : regex :=
  RCat (cls [rng "A" "Z"; rng "a" "z"])
       (upto (cls [rng "A" "Z"; rng "a" "z"; rng "0" "9"; one "_-"]) 31).

Record FirewallGrant := mkFirewallGrant { fg_Backend : str; fg_Verbs : strset }.

Record FirewallRule := mkFirewallRule {
  fr_Action : str;
  fr_Port : str;
  fr_Protocol : str;
  fr_Source : str;
}.

Definition FirewallRule_String (r : FirewallRule) : str :=
  let source := if bool_decide (fr_Source r = $"any") then [] else $" from " ++ fr_Source r in
  fr_Action r ++ $" " ++ fr_Port r ++ $"/" ++ fr_Protocol r ++ source.

Definition FirewallBackends : str := join ($", ") (sorted_keys firewallBackends).
Definition FirewallVerbs : str := join ($", ") (sorted_keys allowedFirewallVerbs).

Definition validFirewallVerb (verb : str) : bool := bool_decide (verb ∈ allowedFirewallVerbs).
Definition ValidFirewallBackend (backend : str) : bool := bool_decide (backend ∈ firewallBackends).
Definition ValidFirewallVerb (verb : str) : bool := bool_decide (verb ∈ allowedFirewallVerbs).

Definition buildFirewallGrant `{Unicode} (backend : str) (verbs : list str) : res FirewallGrant :=
  let backend := ToLower (TrimSpace backend) in
  if bool_decide (backend = []) then
    Err (Errorf "backend is required (one of: %s)" [FStr FirewallBackends])
  else if negb (bool_decide (backend ∈ firewallBackends)) then
    Err (Errorf "backend %q is not one of: %s" [FStr backend; FStr FirewallBackends])
  else if bool_decide (verbs = []) then
    Err (Errorf "backend %q declares no verbs" [FStr backend])
  else
    let? allowed := collect_verbs validFirewallVerb
      (fun verb => Errorf "verb %q is not one of: %s" [FStr verb; FStr FirewallVerbs]) ∅ verbs in
    Ok (mkFirewallGrant backend allowed).

Definition FirewallGrant_verbList (g : FirewallGrant) : str := join ($",") (sorted_keys (fg_Verbs g)).

Definition FirewallGrant_CheckVerb (g : FirewallGrant) (verb : str) : res unit :=
  if negb (validFirewallVerb verb) then
    Err (Errorf "verb %q is not one of: %s" [FStr verb; FStr FirewallVerbs])
  else if negb (bool_decide (verb ∈ fg_Verbs g)) then
    let granted := sorted_keys (fg_Verbs g) in
    Err (Errorf "verb %q is not granted for %s (granted: %s)"
           [FStr verb; FStr (fg_Backend g); FStr (join ($", ") granted)])
  else Ok tt.

Definition validFirewallSource (source : str) : bool :=
  bool_decide (is_Some (ParseIP source)) || bool_decide (is_Some (ParseCIDR source)).

(** The bound of one side of a port range. *)
Definition port_bound_ok (bound : str) : bool :=
  match Atoi bound with
  | Some v => (1 <=? v) && (v <=? 65535)
  | None => false
  end.

Definition ParseFirewallRule `{Unicode} (action port protocol source : str) : res FirewallRule :=
  let rule := mkFirewallRule (ToLower (TrimSpace action)) (TrimSpace port)
                (ToLower (TrimSpace protocol)) (TrimSpace source) in
  if negb (bool_decide (fr_Action rule = $"allow")) && negb (bool_decide (fr_Action rule = $"deny")) then
    Err (Errorf "rule action %q must be allow or deny" [FStr action])
  else if negb (matches firewallPortPattern (fr_Port rule))
          && negb (matches firewallServicePattern (fr_Port rule)) then
    Err (Errorf "port %q must be a number, a start:end range or a service name" [FStr port])
  else if matches firewallPortPattern (fr_Port rule)
          && negb (forallb port_bound_ok (split_on (ch ":") (fr_Port rule))) then
    Err (Errorf "port %q must be between 1 and 65535" [FStr port])
  else
    let protocol' := if bool_decide (fr_Protocol rule = []) then $"any" else fr_Protocol rule in
    if negb (bool_decide (protocol' ∈ firewallProtocols)) then
      Err (Errorf "protocol %q must be tcp, udp or any" [FStr protocol])
    else
      let source' := if bool_decide (fr_Source rule = []) then $"any" else fr_Source rule in
      if negb (bool_decide (source' = $"any")) && negb (validFirewallSource source') then
        Err (Errorf "source %q must be 'any', an address or a CIDR block" [FStr source])
      else Ok (mkFirewallRule (fr_Action rule) (fr_Port rule) protocol' source').

Definition FirewallBackendPreference : list str := [$"ufw"; $"firewalld"].
Definition FirewallBinaryFor (backend : str) : str :=
  if bool_decide (backend = $"firewalld") then $"firewall-cmd" else $"ufw".

Definition toggleCommands (backend verb : str) : res (list (list str)) :=
  if bool_decide (backend = $"ufw") then
    if bool_decide (verb = $"enable") then Ok [[$"ufw"; $"--force"; $"enable"]]
    else Ok [[$"ufw"; $"disable"]]
  else
    let action := if bool_decide (verb = $"disable") then $"stop" else $"start" in
    Ok [[$"systemctl"; action; $"firewalld.service"]].

Definition ufwRuleCommands (verb : str) (rule : FirewallRule) : res (list (list str)) :=
  let spec :=
    if negb (bool_decide (fr_Source rule = $"any")) then
      [$"from"; fr_Source rule; $"to"; $"any"; $"port"; fr_Port rule] ++
      (if negb (bool_decide (fr_Protocol rule = $"any")) then [$"proto"; fr_Protocol rule] else [])
    else
      [if negb (bool_decide (fr_Protocol rule = $"any"))
       then fr_Port rule ++ $"/" ++ fr_Protocol rule else fr_Port rule] in
  if bool_decide (verb = $"allow") || bool_decide (verb = $"deny") then
    Ok [[$"ufw"; verb] ++ spec]
  else
    Ok [[$"ufw"; $"--force"; $"delete"; fr_Action rule] ++ spec].

Definition reload (commands : list (list str)) : list (list str) :=
  commands ++ [[$"firewall-cmd"; $"--reload"]].

Section rich.
Context `{Unicode}.

Definition rich_render (target family source : str) (rule : FirewallRule) : str :=
  let parts :=
    [$"rule family=" ++ Quote family] ++
    (if negb (bool_decide (source = [])) then [$"source address=" ++ Quote source] else []) ++
    [$"port port=" ++ Quote (fr_Port rule) ++ $" protocol=" ++ Quote (fr_Protocol rule); target] in
  join ($" ") parts.

Definition source_family (source : str) : str :=
  if match ParseIP source with Some ip => negb (is4 ip) | None => false end then $"ipv6"
  else match ParseCIDR source with
       | Some block => if negb (is4 block) then $"ipv6" else $"ipv4"
       | None => $"ipv4"
       end.

Definition richRules (rule : FirewallRule) : res (list str) :=
  let target := if bool_decide (fr_Action rule = $"deny") then $"drop" else $"accept" in
  if negb (bool_decide (fr_Source rule = $"any")) then
    Ok [rich_render target (source_family (fr_Source rule)) (fr_Source rule) rule]
  else
    Ok [rich_render target ($"ipv4") [] rule; rich_render target ($"ipv6") [] rule].

Definition firewalldRuleCommands (verb : str) (rule : FirewallRule) : res (list (list str)) :=
  if bool_decide (fr_Protocol rule = $"any") then
    Err (Errorf "firewalld needs an explicit protocol for a port rule (tcp or udp); 'any' would have to be two rules, which this helper does not guess at" [])
  else
    let plain := bool_decide (fr_Action rule = $"allow") && bool_decide (fr_Source rule = $"any") in
    if plain then
      let portSpec := fr_Port rule ++ $"/" ++ fr_Protocol rule in
      let flag := if bool_decide (verb = $"delete") then $"--remove-port=" else $"--add-port=" in
      Ok (reload [[$"firewall-cmd"; $"--permanent"; flag ++ portSpec]])
    else
      let? rich := richRules rule in
      let flag := if bool_decide (verb = $"delete") then $"--remove-rich-rule=" else $"--add-rich-rule=" in
      let commands := (fun one => [$"firewall-cmd"; $"--permanent"; flag ++ one]) <$> rich in
      Ok (commands ++ reload []).

Definition ruleCommands (backend verb : str) (rule : FirewallRule) : res (list (list str)) :=
  if bool_decide (backend = $"ufw") then ufwRuleCommands verb rule
  else firewalldRuleCommands verb rule.

Definition FirewallCommand (backend verb : str) (rule : FirewallRule) : res (list (list str)) :=
  if negb (ValidFirewallBackend backend) then
    Err (Errorf "firewall backend %q is not one of: %s" [FStr backend; FStr FirewallBackends])
  else if negb (ValidFirewallVerb verb) then
    Err (Errorf "firewall verb %q is not one of: %s" [FStr verb; FStr FirewallVerbs])
  else if bool_decide (verb = $"enable") || bool_decide (verb = $"disable") then
    toggleCommands backend verb
  else ruleCommands backend verb rule.

Definition FirewallGrant_FirewallCommands (g : FirewallGrant) (verb : str) (rule : FirewallRule)
    : res (list (list str)) :=
  let? _ := FirewallGrant_CheckVerb g verb in
  FirewallCommand (fg_Backend g) verb rule.
End rich.

Definition systemctlPaths : list str := [$"/usr/bin/systemctl"; $"/bin/systemctl"].
Definition firewallPaths : gmap str (list str) :=
  list_to_map [($"ufw", [$"/usr/sbin/ufw"; $"/sbin/ufw"; $"/usr/bin/ufw"; $"/bin/ufw"]);
    ($"firewall-cmd", [$"/usr/bin/firewall-cmd"; $"/bin/firewall-cmd"]);
    ($"systemctl", systemctlPaths)].

(** ** Facts *)

Definition port_ok (port : str) : Prop :=
  matches firewallServicePattern port = true \/
  matches firewallPortPattern port = true /\ Forall (fun b => port_bound_ok b = true) (split_on (ch ":") port).

Record rule_ok (r : FirewallRule) : Prop := {
  rule_action : fr_Action r = $"allow" \/ fr_Action r = $"deny";
  rule_port : port_ok (fr_Port r);
  rule_protocol : fr_Protocol r ∈ firewallProtocols;
  rule_source : fr_Source r = $"any" \/ validFirewallSource (fr_Source r) = true;
}.

(** The bytes a rule operand can hold: nothing a command line, a rich rule or an
    option parser reads specially. *)
Definition operand_byte (c : ascii) : bool :=
  is_upper c || is_lower c || is_digit c || has_byte c ($"._:/-").
Definition operand_ok (s : str) : Prop :=
  s <> [] /\ Forall (fun c => operand_byte c = true) s /\ head s <> Some (ch "-").

Lemma operand_graphic c : operand_byte c = true -> is_graphic c = true.
Proof. apply (implies_spec operand_byte is_graphic). by vm_compute. Qed.

Lemma source_operand c : source_byte c = true -> operand_byte c = true.
Proof. apply (implies_spec source_byte operand_byte). by vm_compute. Qed.

Lemma operand_of_pattern r s :
  all_in operand_byte r = true ->
  first_in (fun c => negb (bool_decide (c = ch "-"))) r = true ->
  nullable r = false -> matches r s = true -> operand_ok s.
Proof.
  intros Ha Hf Hn Hm. split; [by eapply matches_nonempty|]. split; [by eapply matches_all|].
  destruct s as [|c s]; [done|]. simpl. intros [= ->].
  pose proof (matches_first _ _ _ _ Hf Hm) as H. by vm_compute in H.
Qed.

Lemma port_operand port : port_ok port -> operand_ok port.
Proof.
  intros [H|[H _]]; eapply operand_of_pattern; try exact H; by vm_compute.
Qed.

Lemma validFirewallSource_operand s : validFirewallSource s = true -> operand_ok s.
Proof.
  intros H. assert (HF : Forall (fun c => source_byte c = true) s).
  { unfold validFirewallSource in H. apply orb_true_iff in H as [H|H];
      apply bool_decide_eq_true in H as [ip H]; [by eapply ParseIP_bytes|by eapply ParseCIDR_bytes]. }
  repeat split.
  - intros ->. by vm_compute in H.
  - eapply Forall_impl; [exact HF|]. apply source_operand.
  - destruct s as [|c s]; [done|]. simpl. intros [= ->].
    apply Forall_cons in HF as [Hc _]. by vm_compute in Hc.
Qed.

Lemma protocol_cases p : p ∈ firewallProtocols -> p = $"tcp" \/ p = $"udp" \/ p = $"any".
Proof. unfold firewallProtocols. rewrite elem_of_list_to_set. set_solver. Qed.

Lemma rule_ok_operands r : rule_ok r ->
  operand_ok (fr_Action r) /\ operand_ok (fr_Port r) /\ operand_ok (fr_Protocol r) /\ operand_ok (fr_Source r).
Proof.
  intros [Ha Hp Hpr Hs].
  assert (Hlit : forall s : str,
    bool_decide (s <> []) && forallb operand_byte s && bool_decide (head s <> Some (ch "-")) = true -> operand_ok s).
  { intros s H. bools. split; [done|]. split; [by apply Forall_forallb|done]. }
  repeat split_and?.
  - destruct Ha as [-> | ->]; by apply Hlit.
  - by apply port_operand.
  - apply protocol_cases in Hpr as [-> | [-> | ->]]; by apply Hlit.
  - destruct Hs as [-> | Hs]; [by apply Hlit|by apply validFirewallSource_operand].
Qed.

Section parse.
Context `{Unicode}.

Lemma ParseFirewallRule_rule_ok action port protocol source r :
  ParseFirewallRule action port protocol source = Ok r -> rule_ok r.
Proof.
  unfold ParseFirewallRule. cbn [fr_Action fr_Port fr_Protocol fr_Source].
  generalize (ToLower (TrimSpace action)) as a, (TrimSpace port) as po,
    (ToLower (TrimSpace protocol)) as pr, (TrimSpace source) as so. intros a po pr so Hr.
  destruct (_ && _) eqn:E1 in Hr; [done|]. destruct (_ && _) eqn:E2 in Hr; [done|].
  destruct (_ && _) eqn:E3 in Hr; [done|]. destruct (negb _) eqn:E4 in Hr; [done|].
  destruct (_ && _) eqn:E5 in Hr; [done|]. injection Hr as <-.
  constructor; cbn [fr_Action fr_Port fr_Protocol fr_Source].
  - apply andb_false_iff in E1 as [E1|E1]; bools; auto.
  - apply andb_false_iff in E2 as [E2|E2]; [|left; by bools].
    right. bools. split; [done|]. rewrite E2 in E3. simpl in E3. bools. by apply Forall_forallb.
  - by bools.
  - apply andb_false_iff in E5 as [E5|E5]; bools; auto.
Qed.

Lemma ToLower_fixed s :
  forallb (fun c => is_ascii c && negb (is_upper c)) s = true -> ToLower s = s.
Proof.
  intros Hs. unfold ToLower. rewrite (proj2 (Forall_forallb is_ascii s)).
  - apply Forall_forallb in Hs. induction Hs as [|c s Hc _ IH]; [done|]. rewrite fmap_cons, IH.
    bools. unfold ascii_lower. match goal with Hu : is_upper c = false |- _ => by rewrite Hu end.
  - apply Forall_forallb in Hs. eapply Forall_impl; [exact Hs|]. intros c Hc. by bools.
Qed.

Lemma TrimSpace_operand s : operand_ok s -> TrimSpace s = s.
Proof.
  intros (_ & Hs & _). apply TrimSpace_graphic. eapply Forall_impl; [exact Hs|]. apply operand_graphic.
Qed.

Lemma rule_ok_reparse r : rule_ok r ->
  ParseFirewallRule (fr_Action r) (fr_Port r) (fr_Protocol r) (fr_Source r) = Ok r.
Proof.
  intros Hr. destruct (rule_ok_operands r Hr) as (H1 & H2 & H3 & H4).
  unfold ParseFirewallRule. rewrite !TrimSpace_operand by done.
  destruct Hr as [Ha Hp Hpr Hs]. cbn [fr_Action fr_Port fr_Protocol fr_Source].
  assert (HA : ToLower (fr_Action r) = fr_Action r) by (destruct Ha as [-> | ->]; by apply ToLower_fixed).
  assert (HP : ToLower (fr_Protocol r) = fr_Protocol r).
  { apply protocol_cases in Hpr as [-> | [-> | ->]]; by apply ToLower_fixed. }
  rewrite HA, HP.
  assert (E1 : negb (bool_decide (fr_Action r = $"allow")) && negb (bool_decide (fr_Action r = $"deny")) = false).
  { destruct Ha as [-> | ->]; by vm_compute. }
  rewrite E1. destruct H3 as [H3 _], H4 as [H4 _].
  rewrite (bool_decide_eq_false_2 (fr_Protocol r = [])) by done.
  rewrite (bool_decide_eq_false_2 (fr_Source r = [])) by done.
  rewrite (bool_decide_eq_true_2 (fr_Protocol r ∈ _)) by done.
  assert (E5 : negb (bool_decide (fr_Source r = $"any")) && negb (validFirewallSource (fr_Source r)) = false).
  { destruct Hs as [-> | ->]; [done|]. by rewrite andb_false_r. }
  rewrite E5. cbn [negb].
  destruct Hp as [Hp|[Hp Hb]]; rewrite Hp.
  - rewrite andb_false_r.
    destruct (matches firewallPortPattern (fr_Port r)) eqn:Em; [|by destruct r].
    exfalso. destruct (fr_Port r) as [|c s]; [done|].
    eapply (matches_first (fun c => is_digit c)) in Em; [|by vm_compute].
    eapply (matches_first (fun c => negb (is_digit c))) in Hp; [|by vm_compute].
    by rewrite Em in Hp.
  - rewrite (proj2 (Forall_forallb _ _) Hb). simpl. by destruct r.
Qed.
End parse.

Lemma firewall_CheckVerb_ok g verb u :
  FirewallGrant_CheckVerb g verb = Ok u <-> verb ∈ allowedFirewallVerbs /\ verb ∈ fg_Verbs g.
Proof.
  unfold FirewallGrant_CheckVerb, validFirewallVerb. destruct u.
  repeat case_bool_decide; simpl; naive_solver.
Qed.

Definition firewall_grant_ok (g : FirewallGrant) : Prop :=
  fg_Backend g ∈ firewallBackends /\ fg_Verbs g ⊆ allowedFirewallVerbs.

Lemma buildFirewallGrant_ok `{Unicode} backend verbs g :
  buildFirewallGrant backend verbs = Ok g -> firewall_grant_ok g.
Proof.
  unfold buildFirewallGrant. set (m := ToLower (TrimSpace backend)). intros Hb.
  repeat break_if_in Hb; try discriminate; bools. inv_ok. split; simpl; [done|].
  intros v Hv. eapply collect_verbs_sub in Hv; [|done]. by apply bool_decide_eq_true in Hv.
Qed.

(** ** What is accepted *)

Section accepted.
Context `{Unicode}.

(** The rule grammar: whatever bytes the caller sends, a rule the parser
    accepts says allow or deny, names a service or a port (each bound of a range
    between 1 and 65535), a protocol tcp, udp or any, and a source that is any,
    an address or a CIDR block; no field is empty, starts with a dash or holds a
    byte other than letters, digits, dot, underscore, colon, slash and dash; and
    parsing the fields of an accepted rule again gives that rule, so the helper
    reads exactly what the daemon validated. *)
Theorem ParseFirewallRule_sound action port protocol source r :
  ParseFirewallRule action port protocol source = Ok r ->
  rule_ok r /\
  Forall operand_ok [fr_Action r; fr_Port r; fr_Protocol r; fr_Source r] /\
  ParseFirewallRule (fr_Action r) (fr_Port r) (fr_Protocol r) (fr_Source r) = Ok r.
Proof.
  intros Hr%ParseFirewallRule_rule_ok. split; [done|]. split; [|by apply rule_ok_reparse].
  destruct (rule_ok_operands r Hr) as (?&?&?&?). rewrite !Forall_cons. auto.
Qed.
End accepted.

Definition plain_unicode : Unicode := {| unicode_ToLower := id; unicode_Quote := id |}.
Definition demo_rule : FirewallRule :=
  mkFirewallRule ($"deny") ($"8000:8080") ($"tcp") ($"10.0.0.0/8").

Lemma ParseFirewallRule_sound_witness :
  rule_ok demo_rule /\
  Forall operand_ok [$"deny"; $"8000:8080"; $"tcp"; $"10.0.0.0/8"] /\
  ParseFirewallRule (H := plain_unicode) ($"deny") ($"8000:8080") ($"tcp") ($"10.0.0.0/8") = Ok demo_rule.
Proof.
  apply (ParseFirewallRule_sound (H := plain_unicode) ($" Deny") ($"8000:8080 ") ($"TCP") ($"10.0.0.0/8") demo_rule).
  vm_compute. reflexivity.
Defined.

(** ** The commands *)

(** Words of a firewall command that do not come from the rule. *)
Definition fixed_words : list str :=
  [$"--force"; $"enable"; $"disable"; $"allow"; $"deny"; $"delete"; $"from"; $"to"; $"any"; $"port";
   $"proto"; $"start"; $"stop"; $"firewalld.service"; $"--permanent"; $"--reload"].

(** An argument the tools cannot misread: a constant word, an operand that is not
    an option and has no special byte, or one of four options carrying a value
    without line breaks or backslashes. *)
Definition option_value (v : str) : Prop := Forall (fun c => is_graphic c || bool_decide (c = ch " ") = true) v /\ ch "\" ∉ v.
Definition argument_ok (a : str) : Prop :=
  a ∈ fixed_words \/ operand_ok a \/
  exists flag v, flag ∈ [$"--add-port="; $"--remove-port="; $"--add-rich-rule="; $"--remove-rich-rule="] /\
    a = flag ++ v /\ option_value v.

(** A command: a known binary and arguments that cannot be misread. *)
Definition command_ok (c : list str) : Prop :=
  exists bin args, c = bin :: args /\ is_Some (firewallPaths !! bin) /\ Forall argument_ok args.

Lemma operand_app a b : operand_ok a -> operand_ok b -> operand_ok (a ++ $"/" ++ b).
Proof.
  intros (Ha & Hfa & Hha) (Hb & Hfb & Hhb). split_and!.
  - by destruct a.
  - rewrite !Forall_app. split_and!; [done| |done]. repeat constructor; by vm_compute.
  - by destruct a.
Qed.

Lemma option_value_app a b : option_value a -> option_value b -> option_value (a ++ b).
Proof.
  intros [Ha Ha'] [Hb Hb']. split; [by apply Forall_app|]. rewrite not_elem_of_app. auto.
Qed.
Lemma option_value_check s :
  forallb (fun c => (is_graphic c || bool_decide (c = ch " ")) && negb (bool_decide (c = ch "\"))) s = true ->
  option_value s.
Proof.
  intros H%Forall_forallb. split.
  - eapply Forall_impl; [exact H|]. intros c Hc. simpl in Hc. bools. done.
  - intros Hin. rewrite Forall_forall in H. apply H in Hin. bools. done.
Qed.
Lemma option_value_operand s : operand_ok s -> option_value s.
Proof.
  intros (_ & Hs & _). apply option_value_check, Forall_forallb. eapply Forall_impl; [exact Hs|].
  apply (implies_spec operand_byte). by vm_compute.
Qed.

Section quote.
Context `{Unicode}.
Lemma Quote_operand s : Forall (fun c => operand_byte c = true) s -> Quote s = dquote :: s ++ [dquote].
Proof.
  intros Hs. unfold Quote.
  rewrite (proj2 (Forall_forallb is_ascii s)).
  2: { eapply Forall_impl; [exact Hs|]. apply (implies_spec operand_byte). by vm_compute. }
  f_equal. f_equal. induction Hs as [|c s Hc _ IH]; [done|]. rewrite fmap_cons. cbn [concat]. rewrite IH.
  assert (Hq : bool_decide (quote_byte c = [c]) = true).
  { revert c Hc. apply (implies_spec operand_byte (fun c => bool_decide (quote_byte c = [c]))). by vm_compute. }
  apply bool_decide_eq_true in Hq. by rewrite Hq.
Qed.
Lemma option_value_quote s : operand_ok s -> option_value (Quote s).
Proof.
  intros Hs. rewrite Quote_operand by apply Hs.
  apply (option_value_app [dquote]); [by apply option_value_check|].
  apply option_value_app; [by apply option_value_operand|by apply option_value_check].
Qed.
End quote.
#[export] Hint Resolve option_value_app option_value_operand option_value_quote : go.

Lemma argument_fixed a : bool_decide (a ∈ fixed_words) = true -> argument_ok a.
Proof. intros H. left. by apply bool_decide_eq_true in H. Qed.
Lemma argument_operand a : operand_ok a -> argument_ok a.
Proof. by right; left. Qed.
Lemma argument_option flag v :
  bool_decide (flag ∈ [$"--add-port="; $"--remove-port="; $"--add-rich-rule="; $"--remove-rich-rule="]) = true ->
  option_value v -> argument_ok (flag ++ v).
Proof. intros Hf%bool_decide_eq_true Hv. right; right. by exists flag, v. Qed.

(** Arguments one by one: constants are recognised by computation. *)
Local Ltac arguments :=
  repeat lazymatch goal with
  | |- Forall argument_ok [] => constructor
  | |- Forall argument_ok (Stdlib.Strings.String.list_ascii_of_string _ :: _) =>
      apply Forall_cons; split; [by apply argument_fixed; vm_compute|]
  | |- Forall argument_ok ((Ascii _ _ _ _ _ _ _ _ :: _) :: _) =>
      apply Forall_cons; split; [by apply argument_fixed; vm_compute|]
  | |- Forall argument_ok (_ :: _) => apply Forall_cons; split; [try by apply argument_operand|]
  | |- Forall argument_ok (_ ++ _) => apply Forall_app; split
  | |- Forall argument_ok (if ?b then _ else _) => let H := fresh in generalize b; intros H; destruct H
  | |- command_ok _ =>
      eexists _, _; split; [reflexivity|]; split; [apply (bool_decide_unpack _); vm_compute; exact I|]
  end.

Lemma verb_operand verb : verb ∈ allowedFirewallVerbs -> argument_ok verb.
Proof.
  intros H. apply argument_fixed. unfold allowedFirewallVerbs in H. apply elem_of_list_to_set in H.
  by each_elem H; vm_compute.
Qed.

Lemma toggleCommands_ok backend verb cmds : toggleCommands backend verb = Ok cmds ->
  cmds <> [] /\ Forall command_ok cmds.
Proof.
  unfold toggleCommands. intros H. repeat break_if_in H; injection H as <-; (split; [done|]);
    (apply Forall_cons; split; [|constructor]); arguments.
Qed.

Lemma ufwRuleCommands_ok verb rule cmds : verb ∈ allowedFirewallVerbs -> rule_ok rule ->
  ufwRuleCommands verb rule = Ok cmds -> cmds <> [] /\ Forall command_ok cmds.
Proof.
  intros Hv Hr. destruct (rule_ok_operands rule Hr) as (Ha & Hp & Hpr & Hs).
  pose proof (verb_operand _ Hv) as Hva. pose proof (operand_app _ _ Hp Hpr) as Happ.
  unfold ufwRuleCommands. intros H.
  destruct (_ || _); injection H as <-; (split; [done|]);
    (apply Forall_cons; split; [|constructor]); arguments; try done;
    apply argument_operand; by break_if.
Qed.

Section firewalld.
Context `{Unicode}.

Lemma rich_render_value target family source rule :
  rule_ok rule -> operand_ok target -> operand_ok family -> source = [] \/ operand_ok source ->
  option_value (rich_render target family source rule).
Proof.
  intros Hr Ht Hf Hs. destruct (rule_ok_operands rule Hr) as (Ha & Hp & Hpr & _).
  unfold rich_render. destruct Hs as [-> | Hs].
  - change (negb (bool_decide (@nil ascii = []))) with false. cbv iota. cbn [app join].
    rewrite <-!(assoc_L (++)). repeat apply option_value_app; auto with go; by apply option_value_check.
  - rewrite bool_decide_eq_false_2 by apply Hs. cbv [negb]. cbn [app join].
    rewrite <-!(assoc_L (++)). repeat apply option_value_app; auto with go; by apply option_value_check.
Qed.

Lemma richRules_values rule rich : rule_ok rule -> richRules rule = Ok rich ->
  rich <> [] /\ Forall option_value rich.
Proof.
  intros Hr. destruct (rule_ok_operands rule Hr) as (_ & _ & _ & Hs).
  assert (Hlit : forall s : str,
    bool_decide (s <> []) && forallb operand_byte s && bool_decide (head s <> Some (ch "-")) = true -> operand_ok s).
  { intros s E. bools. split; [done|]. split; [by apply Forall_forallb|done]. }
  unfold richRules. intros E. break_if_in E; repeat break_if_in E; injection E as <-; (split; [done|]);
    repeat (apply Forall_cons; split); try constructor; apply rich_render_value; auto;
    unfold source_family; repeat break_if; repeat case_match; by apply Hlit; vm_compute.
Qed.

Lemma reload_ok cmds : Forall command_ok cmds -> reload cmds <> [] /\ Forall command_ok (reload cmds).
Proof.
  intros Hc. unfold reload. split; [by destruct cmds|]. apply Forall_app. split; [done|].
  apply Forall_cons; split; [|constructor]. arguments.
Qed.

Lemma firewalldRuleCommands_ok verb rule : rule_ok rule ->
  match firewalldRuleCommands verb rule with
  | Ok cmds => cmds <> [] /\ Forall command_ok cmds
  | Err _ => fr_Protocol rule = $"any"
  end.
Proof.
  intros Hr. destruct (rule_ok_operands rule Hr) as (Ha & Hp & Hpr & Hs).
  unfold firewalldRuleCommands. case_bool_decide; [done|]. destruct (_ && _).
  - apply reload_ok. apply Forall_cons; split; [|constructor]. arguments.
    apply argument_option; [by break_if|]. apply option_value_operand. by apply operand_app.
  - destruct (richRules rule) as [rich|] eqn:E; [|unfold richRules in E; by break_if_in E].
    simpl. apply richRules_values in E as [Hne HF]; [|done]. split; [by destruct rich|].
    apply Forall_app. split; [|apply reload_ok; constructor]. apply Forall_fmap.
    eapply Forall_impl; [exact HF|]. intros v Hv. simpl. arguments.
    apply argument_option; [by break_if|done].
Qed.

(** What the helper runs for a firewall operation. For a well-formed grant
    and an accepted rule (or a verb that takes none), the commands exist exactly
    when the verb is granted, except that firewalld refuses a rule for any
    protocol; there is at least one command, each starts with a binary of the
    fixed list, and each argument is a constant word, an operand of the rule that
    cannot be read as an option, or one of four constant options followed by a
    value without line breaks or backslashes. *)
Theorem FirewallCommands_safe g verb rule :
  firewall_grant_ok g -> verb ∈ [$"enable"; $"disable"] \/ rule_ok rule ->
  match FirewallGrant_FirewallCommands g verb rule with
  | Ok cmds => verb ∈ fg_Verbs g /\ cmds <> [] /\ Forall command_ok cmds
  | Err _ => verb ∉ fg_Verbs g \/
      fg_Backend g = $"firewalld" /\ fr_Protocol rule = $"any" /\ verb ∉ [$"enable"; $"disable"]
  end.
Proof.
  intros [Hb Hsub] Hrule. unfold FirewallGrant_FirewallCommands.
  destruct (FirewallGrant_CheckVerb g verb) as [u|] eqn:Ec; simpl.
  2: { left. intros Hv. pose proof (proj2 (firewall_CheckVerb_ok g verb tt)) as Hc.
       rewrite Ec in Hc. by specialize (Hc (conj (Hsub _ Hv) Hv)). }
  apply firewall_CheckVerb_ok in Ec as [Hva Hvg]. unfold FirewallCommand.
  unfold ValidFirewallBackend, ValidFirewallVerb. rewrite !bool_decide_eq_true_2 by done. simpl negb.
  cbv iota. destruct (bool_decide (verb = $"enable") || bool_decide (verb = $"disable")) eqn:Et.
  { destruct (toggleCommands _ _) as [cmds|e] eqn:E; [by apply toggleCommands_ok in E|].
    unfold toggleCommands in E. by repeat break_if_in E. }
  bools. destruct Hrule as [Hrule|Hr]; [exfalso; by each_elem Hrule|].
  unfold ruleCommands. case_bool_decide as Hbk.
  - destruct (ufwRuleCommands _ _) as [cmds|e] eqn:E; [by apply ufwRuleCommands_ok in E|].
    unfold ufwRuleCommands in E. by repeat break_if_in E.
  - pose proof (firewalldRuleCommands_ok verb rule Hr) as Hf.
    destruct (firewalldRuleCommands verb rule); [done|]. right. split_and!; [|done|].
    + unfold firewallBackends in Hb. apply elem_of_list_to_set in Hb. revert Hb Hbk.
      generalize (fg_Backend g). intros b Hb Hbk. by each_elem Hb.
    + intros Hin. by each_elem Hin.
Qed.
End firewalld.

Lemma FirewallCommands_safe_witness :
  let g := mkFirewallGrant ($"ufw") {[ $"deny" ]} in
  firewall_grant_ok g /\ rule_ok demo_rule /\
  match FirewallGrant_FirewallCommands (H := plain_unicode) g ($"deny") demo_rule with
  | Ok cmds => $"deny" ∈ fg_Verbs g /\ cmds <> [] /\ Forall command_ok cmds
  | Err _ => $"deny" ∉ fg_Verbs g \/
      fg_Backend g = $"firewalld" /\ fr_Protocol demo_rule = $"any" /\ $"deny" ∉ [$"enable"; $"disable"]
  end.
Proof.
  intros g. assert (Hg : firewall_grant_ok g) by (split; by apply (bool_decide_unpack _); vm_compute).
  assert (Hr : rule_ok demo_rule).
  { apply (ParseFirewallRule_rule_ok (H := plain_unicode) ($"deny") ($"8000:8080") ($"tcp") ($"10.0.0.0/8")).
    vm_compute. reflexivity. }
  split; [exact Hg|]. split; [exact Hr|].
  exact (FirewallCommands_safe (H := plain_unicode) g ($"deny") demo_rule Hg (or_intror Hr)).
Defined.

(** ** Deleting a rule *)

(** How a command of a deletion relates to the command that made the rule. *)
Inductive undoes : list str -> list str -> Prop :=
  | undo_ufw action spec :
      undoes ([$"ufw"; action] ++ spec) ([$"ufw"; $"--force"; $"delete"; action] ++ spec)
  | undo_port v : undoes [$"firewall-cmd"; $"--permanent"; $"--add-port=" ++ v]
      [$"firewall-cmd"; $"--permanent"; $"--remove-port=" ++ v]
  | undo_rich v : undoes [$"firewall-cmd"; $"--permanent"; $"--add-rich-rule=" ++ v]
      [$"firewall-cmd"; $"--permanent"; $"--remove-rich-rule=" ++ v]
  | undo_reload : undoes [$"firewall-cmd"; $"--reload"] [$"firewall-cmd"; $"--reload"].

Section delete.
Context `{Unicode}.

Lemma ufw_delete rule : rule_ok rule ->
  exists cmds cmds', ufwRuleCommands (fr_Action rule) rule = Ok cmds /\
    ufwRuleCommands ($"delete") rule = Ok cmds' /\ Forall2 undoes cmds cmds'.
Proof.
  intros Hr. unfold ufwRuleCommands. set (spec := if negb _ then _ else _).
  exists [[$"ufw"; fr_Action rule] ++ spec], [[$"ufw"; $"--force"; $"delete"; fr_Action rule] ++ spec].
  split_and!; [|done|].
  - by destruct (rule_action _ Hr) as [-> | ->].
  - constructor; [|constructor]. apply undo_ufw.
Qed.

Lemma firewalld_delete rule : rule_ok rule -> fr_Protocol rule <> $"any" ->
  exists cmds cmds', firewalldRuleCommands (fr_Action rule) rule = Ok cmds /\
    firewalldRuleCommands ($"delete") rule = Ok cmds' /\ Forall2 undoes cmds cmds'.
Proof.
  intros Hr Hp. unfold firewalldRuleCommands. rewrite !bool_decide_eq_false_2 by done.
  assert (Hd : bool_decide (fr_Action rule = $"delete") = false).
  { by destruct (rule_action _ Hr) as [-> | ->]; vm_compute. }
  rewrite Hd. rewrite (bool_decide_eq_true_2 ($"delete" = _)) by done. destruct (_ && _).
  - do 2 eexists. split; [done|]. split; [done|].
    constructor; [apply undo_port|]. constructor; [apply undo_reload|constructor].
  - destruct (richRules rule) as [rich|] eqn:E; [|unfold richRules in E; by break_if_in E].
    do 2 eexists. split; [done|]. split; [done|]. apply Forall2_app.
    + apply Forall2_fmap. clear E. induction rich; constructor; [apply undo_rich|done].
    + constructor; [apply undo_reload|constructor].
Qed.

Lemma FirewallCommand_rule backend verb rule : backend ∈ firewallBackends ->
  verb = $"allow" \/ verb = $"deny" \/ verb = $"delete" ->
  FirewallCommand backend verb rule = ruleCommands backend verb rule.
Proof.
  intros Hb Hv. unfold FirewallCommand, ValidFirewallBackend, ValidFirewallVerb.
  rewrite bool_decide_eq_true_2 by done. cbn [negb].
  by destruct Hv as [-> | [-> | ->]].
Qed.

(** Deleting undoes: for an accepted rule and either backend, the commands
    of [delete] are, one for one and in the same order, the inverses of the
    commands that made the rule, with the same rule text ([ufw] repeats the
    rule's own action; firewalld adds become removes and the reload stays last).
    Both exist except for a rule without protocol on firewalld, where both are
    refused. *)
Theorem firewall_delete_undoes backend rule :
  backend ∈ firewallBackends -> rule_ok rule ->
  match FirewallCommand backend (fr_Action rule) rule, FirewallCommand backend ($"delete") rule with
  | Ok cmds, Ok cmds' => Forall2 undoes cmds cmds'
  | Err _, Err _ => backend = $"firewalld" /\ fr_Protocol rule = $"any"
  | _, _ => False
  end.
Proof.
  intros Hb Hr. rewrite !FirewallCommand_rule; [|done|auto|done|destruct (rule_action _ Hr); auto].
  unfold ruleCommands.
  case_bool_decide as Hu.
  - destruct (ufw_delete rule Hr) as (c & c' & -> & -> & ?). done.
  - assert (Hfw : backend = $"firewalld").
    { unfold firewallBackends in Hb. apply elem_of_list_to_set in Hb. by each_elem Hb. }
    destruct (decide (fr_Protocol rule = $"any")) as [Hp|Hp].
    + unfold firewalldRuleCommands. by rewrite !bool_decide_eq_true_2 by done.
    + destruct (firewalld_delete rule Hr Hp) as (c & c' & -> & -> & ?). done.
Qed.
End delete.

Lemma firewall_delete_undoes_witness :
  $"firewalld" ∈ firewallBackends /\ rule_ok demo_rule /\
  match FirewallCommand (H := plain_unicode) ($"firewalld") (fr_Action demo_rule) demo_rule,
        FirewallCommand (H := plain_unicode) ($"firewalld") ($"delete") demo_rule with
  | Ok cmds, Ok cmds' => Forall2 undoes cmds cmds'
  | Err _, Err _ => $"firewalld" = $"firewalld" /\ fr_Protocol demo_rule = $"any"
  | _, _ => False
  end.
Proof.
  assert (Hb : $"firewalld" ∈ firewallBackends) by (by apply (bool_decide_unpack _); vm_compute).
  assert (Hr : rule_ok demo_rule).
  { apply (ParseFirewallRule_rule_ok (H := plain_unicode) ($"deny") ($"8000:8080") ($"tcp") ($"10.0.0.0/8")).
    vm_compute. reflexivity. }
  split; [exact Hb|]. split; [exact Hr|].
  exact (firewall_delete_undoes (H := plain_unicode) ($"firewalld") demo_rule Hb Hr).
Defined.
