(* ===== verification/PrivSet.v ===== *)
(** * PrivSet: internal/privfs/privfs.go

    Profiles, unit grants, the loader of the root-owned profile file and the
    three file operations of the helper. The TOML decoder (viper) is a
    parameter: it turns the file's bytes into [fileConfig]. *)

From S2P Require Import Prelude GoStr Regex GoPath GoOS GoOSFacts PrivPackages PrivFirewall.

Definition DefaultConfigPath : str := $"/etc/maidkit/priv.toml".
Definition DefaultHelperPath : str := $"/usr/local/libexec/maidkit-priv".
(** [4 << 20] *)
Definition MaxContentBytes : Z := Z.shiftl 4 20.

Definition ExitOK : Z := 0.
Definition ExitUsage : Z := 2.
Definition ExitRefused : Z := 3.
Definition ExitIO : Z := 4.
Definition ExitNotRoot : Z := 5.
Definition ExitConfigBad : Z := 6.

(** 0600, 0640, 0644, 0700, 0750, 0755 *)
Definition allowedModes : list Z := [384; 416; 420; 448; 488; 493].
Definition allowedModeSet : gset Z := list_to_set allowedModes.

(** [^[a-z0-9][a-z0-9_-]{0,63}$] *)
Definition profileNamePattern : regex :=
  RCat (cls [rng "a" "z"; rng "0" "9"]) (upto (cls [rng "a" "z"; rng "0" "9"; one "_-"]) 63).
Definition ValidProfileName (name : str) : bool := matches profileNamePattern name.

Record Profile := mkProfile { pr_Name : str; pr_Path : str; pr_Modes : gset Z }.
Record UnitGrant := mkUnitGrant { ug_Unit : str; ug_Verbs : strset }.
Record PSet := mkSet {
  byName : gmap str Profile;
  units : gmap str UnitGrant;
  packages : option PackageGrant;
  firewall : option FirewallGrant;
}.

(** [^[A-Za-z0-9:._@][A-Za-z0-9:._@-]*\.service$] *)
Definition systemdUnitPattern : regex :=
  seqs [cls [rng "A" "Z"; rng "a" "z"; rng "0" "9"; one ":._@"];
        RStar (cls [rng "A" "Z"; rng "a" "z"; rng "0" "9"; one ":._@-"]);
        lit ".service"].

Definition allowedSystemdVerbs : strset :=
  list_to_set [$"start"; $"stop"; $"restart"; $"reload"; $"enable"; $"disable"].
Definition validSystemdVerb (verb : str) : bool := bool_decide (verb ∈ allowedSystemdVerbs).
Definition SystemdVerbs : str := join ($", ") (sorted_keys allowedSystemdVerbs).

(** [Mode().Perm() & mask != 0] *)
Definition perm_any (n : node) (mask : Z) : bool := negb (Z.land (n_perm n) mask =? 0).

Fixpoint findExecutable_loop (candidates all : list str) (name : str) : M (res str) :=
  match candidates with
  | [] => ret (Err (Errorf "%s was not found in %s" [FStr name; FStr (join ($", ") all)]))
  | candidate :: rest =>
      do st := os_Stat candidate in
      match st with
      | Ok info =>
          if negb (is_dir info) && perm_any info 73 then ret (Ok candidate)
          else findExecutable_loop rest all name
      | Err _ => findExecutable_loop rest all name
      end
  end.
Definition findExecutable (candidates : list str) (name : str) : M (res str) :=
  findExecutable_loop candidates candidates name.
Definition FindSystemctl : M (res str) := findExecutable systemctlPaths ($"systemctl").
Definition FindManager (binary : str) : M (res str) :=
  match managerPaths !! binary with
  | None => ret (Err (Errorf "%s is not a package manager this helper runs" [FStr binary]))
  | Some candidates => findExecutable candidates binary
  end.
Definition FindFirewallBinary (binary : str) : M (res str) :=
  match firewallPaths !! binary with
  | None => ret (Err (Errorf "%s is not a firewall command this helper runs" [FStr binary]))
  | Some candidates => findExecutable candidates binary
  end.

(** ** Modes *)

(** The loop of [parseOctal], on [uint32]. *)
Fixpoint parseOctal_loop (value : Z) (text : str) : res Z :=
  match text with
  | [] => if 4095 <? value then Err (Errorf "out of range" []) else Ok value
  | digit :: text =>
      if (code digit <? 48)%nat || (55 <? code digit)%nat then Err (Errorf "not octal" [])
      else parseOctal_loop
             (Z.lor (Z.shiftl value 3 mod 2 ^ 32) (Z.of_nat (code digit) - 48)) text
  end.
Definition parseOctal (text : str) : res Z := parseOctal_loop 0 text.

Definition ModeList : str := join ($", ") (fmt_04o <$> allowedModes).

Definition ParseMode (raw : str) : res Z :=
  let text := TrimSpace raw in
  let len := List.length text in
  if negb (len =? 3)%nat && negb (len =? 4)%nat then
    Err (Errorf "mode %q must be three or four octal digits" [FStr raw])
  else if (len =? 4)%nat && negb (bool_decide (head text = Some (ch "0"))) then
    Err (Errorf "mode %q must have a leading 0" [FStr raw])
  else
    match parseOctal text with
    | Err _ => Err (Errorf "mode %q is not octal" [FStr raw])
    | Ok mode =>
        if negb (bool_decide (mode ∈ allowedModeSet)) then
          Err (Errorf "mode %q is not permitted (allowed: %s)" [FStr raw; FStr ModeList])
        else Ok mode
    end.

(** [sort.Ints] of the granted modes, rendered. *)
Definition Profile_modeList (p : Profile) : str :=
  join ($", ") (fmt_04o <$> merge_sort Z.le (elements (pr_Modes p))).

Definition Profile_checkMode (p : Profile) (mode : Z) : res unit :=
  if negb (bool_decide (mode ∈ allowedModeSet)) then
    Err (Errorf "mode %04o is not permitted (allowed: %s)" [FInt mode; FStr ModeList])
  else if negb (bool_decide (mode ∈ pr_Modes p)) then
    Err (Errorf "mode %04o is not granted by profile %q (granted: %s)"
           [FInt mode; FStr (pr_Name p); FStr (Profile_modeList p)])
  else Ok tt.

(** ** Loading *)

Record ProfileEntry := mkProfileEntry { pe_Name : str; pe_Path : str; pe_Modes : list str }.
Record UnitEntry := mkUnitEntry { ue_Unit : str; ue_Verbs : list str }.
Record ManagerEntry := mkManagerEntry { me_Name : str; me_Verbs : list str }.
Record fileConfig := mkFileConfig {
  fc_Profiles : list ProfileEntry;
  fc_Systemd : list UnitEntry;
  fc_Packages : option ManagerEntry;
  fc_Firewall : option ManagerEntry;
}.

Fixpoint collect_unit_verbs (unit : str) (allowed : strset) (verbs : list str) : res strset :=
  match verbs with
  | [] => Ok allowed
  | verb :: rest =>
      if negb (validSystemdVerb verb) then
        Err (Errorf "unit %q verb %q is not one of: %s" [FStr unit; FStr verb; FStr SystemdVerbs])
      else collect_unit_verbs unit ({[verb]} ∪ allowed) rest
  end.
Definition buildUnitGrant (unit : str) (verbs : list str) : res UnitGrant :=
  if negb (matches systemdUnitPattern unit) then
    Err (Errorf "unit %q must be a .service name such as nginx.service" [FStr unit])
  else if bool_decide (verbs = []) then Err (Errorf "unit %q declares no verbs" [FStr unit])
  else
    let? allowed := collect_unit_verbs unit ∅ verbs in
    Ok (mkUnitGrant unit allowed).

Fixpoint collect_modes (name : str) (allowed : gset Z) (modes : list str) : res (gset Z) :=
  match modes with
  | [] => Ok allowed
  | raw :: rest =>
      match ParseMode raw with
      | Err e => Err (Errorf "profile %q %w" [FStr name; FErr e])
      | Ok mode => collect_modes name ({[mode]} ∪ allowed) rest
      end
  end.
Definition buildProfile (name path : str) (modes : list str) : M (res Profile) :=
  if negb (matches profileNamePattern name) then ret (Err (Errorf "name %q must match %s" [FStr name]))
  else if negb (IsAbs path) || negb (bool_decide (Clean path = path)) then
    ret (Err (Errorf "path %q must be an absolute, clean path" [FStr path]))
  else
    do ev := EvalSymlinks path in
    match ev with
    | Err e => ret (Err (Errorf "path %q is not usable: %w" [FStr path; FErr e]))
    | Ok resolved =>
        do st := os_Stat resolved in
        match st with
        | Err e => ret (Err (Errorf "path %q is not usable: %w" [FStr resolved; FErr e]))
        | Ok info =>
            if negb (is_dir info) then ret (Err (Errorf "path %q is not a directory" [FStr resolved]))
            else if bool_decide (modes = []) then
              ret (Err (Errorf "profile %q declares no modes" [FStr name]))
            else
              let* allowed := lift (collect_modes name ∅ modes) in
              ret (Ok (mkProfile name resolved allowed))
        end
    end.

Fixpoint load_profiles (i : Z) (acc : gmap str Profile) (es : list ProfileEntry)
    : M (res (gmap str Profile)) :=
  match es with
  | [] => ret (Ok acc)
  | e :: es =>
      do r := buildProfile (pe_Name e) (pe_Path e) (pe_Modes e) in
      match r with
      | Err err => ret (Err (Errorf "profiles[%d]: %w" [FInt i; FErr err]))
      | Ok profile =>
          match acc !! pr_Name profile with
          | Some _ => ret (Err (Errorf "profiles[%d]: name %q is duplicated" [FInt i; FStr (pr_Name profile)]))
          | None => load_profiles (i + 1) (<[pr_Name profile := profile]> acc) es
          end
      end
  end.
Fixpoint load_units (i : Z) (acc : gmap str UnitGrant) (es : list UnitEntry) : res (gmap str UnitGrant) :=
  match es with
  | [] => Ok acc
  | e :: es =>
      match buildUnitGrant (ue_Unit e) (ue_Verbs e) with
      | Err err => Err (Errorf "systemd[%d]: %w" [FInt i; FErr err])
      | Ok grant =>
          match acc !! ug_Unit grant with
          | Some _ => Err (Errorf "systemd[%d]: unit %q is duplicated" [FInt i; FStr (ug_Unit grant)])
          | None => load_units (i + 1) (<[ug_Unit grant := grant]> acc) es
          end
      end
  end.

Section load.
Context `{Unicode}.
Variable viper_decode : str -> res fileConfig.

Definition assemble (configPath : str) (parsed : fileConfig) : M (res PSet) :=
  let* profiles := load_profiles 0 ∅ (fc_Profiles parsed) in
  let* units := lift (load_units 0 ∅ (fc_Systemd parsed)) in
  let* pk :=
    lift match fc_Packages parsed with
    | None => Ok None
    | Some e =>
        match buildPackageGrant (me_Name e) (me_Verbs e) with
        | Err err => Err (Errorf "packages: %w" [FErr err])
        | Ok g => Ok (Some g)
        end
    end in
  let* fw :=
    lift match fc_Firewall parsed with
    | None => Ok None
    | Some e =>
        match buildFirewallGrant (me_Name e) (me_Verbs e) with
        | Err err => Err (Errorf "firewall: %w" [FErr err])
        | Ok g => Ok (Some g)
        end
    end in
  if bool_decide (profiles = ∅) && bool_decide (units = ∅)
     && negb (is_Some_b pk) && negb (is_Some_b fw)
  then ret (Err (Errorf "%s declares no profiles, systemd units, packages or firewall" [FStr configPath]))
  else ret (Ok (mkSet profiles units pk fw)).

Definition LoadSet (configPath : str) (RequireRootOwner : bool) : M (res PSet) :=
  do st := os_Lstat configPath in
  match st with
  | Err e => ret (Err (Errorf "read %s: %w" [FStr configPath; FErr e]))
  | Ok info =>
      if is_link info then ret (Err (Errorf "%s must not be a symbolic link" [FStr configPath]))
      else if negb (is_regular info) then ret (Err (Errorf "%s must be a regular file" [FStr configPath]))
      else if perm_any info 18 then
        ret (Err (Errorf "%s must not be group- or other-writable (mode %04o)"
                    [FStr configPath; FInt (n_perm info)]))
      else if RequireRootOwner && negb (n_uid info =? 0) then
        ret (Err (Errorf "%s must be owned by root" [FStr configPath]))
      else
        do raw := os_ReadFile configPath in
        match raw with
        | Err e => ret (Err (Errorf "parse %s: %w" [FStr configPath; FErr e]))
        | Ok bytes =>
            match viper_decode bytes with
            | Err e => ret (Err (Errorf "parse %s: %w" [FStr configPath; FErr e]))
            | Ok parsed => assemble configPath parsed
            end
        end
  end.
End load.

(** ** Lookups *)

Definition sorted_dom {A} (m : gmap str A) : list str := sort_strings (map_to_list m).*1.

Definition Set_Lookup (s : PSet) (name : str) : res Profile :=
  match byName s !! name with
  | Some profile => Ok profile
  | None => Err (Errorf "unknown profile %q (configured: %s)"
                   [FStr name; FStr (join ($", ") (sorted_dom (byName s)))])
  end.
Definition Set_Names (s : PSet) : list str := sorted_dom (byName s).
Definition Set_GrantedUnits (s : PSet) : list str := sorted_dom (units s).
Definition Set_LookupUnit (s : PSet) (unit : str) : res UnitGrant :=
  match units s !! unit with
  | Some grant => Ok grant
  | None =>
      let names := sorted_dom (units s) in
      if bool_decide (names = []) then
        Err (Errorf "no systemd units are granted (add a [[systemd]] entry naming %s)" [FStr unit])
      else Err (Errorf "unit %q is not granted (granted: %s)" [FStr unit; FStr (join ($", ") names)])
  end.

Definition UnitGrant_CheckVerb (g : UnitGrant) (verb : str) : res unit :=
  if negb (validSystemdVerb verb) then
    Err (Errorf "verb %q is not one of: %s" [FStr verb; FStr SystemdVerbs])
  else if negb (bool_decide (verb ∈ ug_Verbs g)) then
    Err (Errorf "verb %q is not granted for %s (granted: %s)"
           [FStr verb; FStr (ug_Unit g); FStr (join ($", ") (sorted_keys (ug_Verbs g)))])
  else Ok tt.
Definition UnitGrant_systemdArgv (g : UnitGrant) (systemctl verb : str) : res (list str) :=
  let? _ := UnitGrant_CheckVerb g verb in
  Ok [systemctl; $"--no-ask-password"; $"--no-pager"; verb; $"--"; ug_Unit g].
Definition UnitGrant_SystemdArgv (g : UnitGrant) (verb : str) : M (res (list str)) :=
  let* systemctl := FindSystemctl in
  lift (UnitGrant_systemdArgv g systemctl verb).

(** ** File operations *)

Definition NUL : ascii := byte 0.

Definition safeRel (rel : str) : res str :=
  if bool_decide (rel = []) then Err (Errorf "a relative path is required" [])
  else if has_byte NUL rel then Err (Errorf "the path must not contain NUL" [])
  else if IsAbs rel then Err (Errorf "the path must be relative to the profile" [])
  else
    let clean := Clean rel in
    if bool_decide (clean = dot) || bool_decide (clean = dotdot)
       || HasPrefix clean (dotdot ++ [slash])
    then Err (Errorf "%q resolves outside the profile" [FStr rel])
    else Ok clean.

(** [hex.EncodeToString] *)
Definition hex_encode (bs : str) : str :=
  concat ((fun c => [hex_digit (code c / 16); hex_digit (code c mod 16)]) <$> bs).
(** [rnd] is what [crypto/rand] returned, [None] when it failed. *)
Definition tempName (rnd : option str) (now : Z) : str :=
  match rnd with
  | None => $".maidkit-priv-" ++ fmt_d now
  | Some suffix => $".maidkit-priv-" ++ hex_encode suffix
  end.

(** Clean up after a failed write: close, remove the temporary file, report. *)
Definition abandon (root file : fpath) (temp : str) (close : bool) (err : error) : M (res unit) :=
  do _ := (if close then File_Close file else ret (Ok tt)) in
  do _ := Root_Remove root temp in
  ret (Err err).

Definition Set_Write (rnd : option str) (now : Z) (profile : Profile) (rel : str) (mode : Z)
    (data : str) : M (res unit) :=
  let* rel := lift (safeRel rel) in
  let* _ := lift (Profile_checkMode profile mode) in
  if MaxContentBytes <? Z.of_nat (List.length data) then
    ret (Err (Errorf "content is %d bytes, over the %d-byte limit"
                [FInt (Z.of_nat (List.length data)); FInt MaxContentBytes]))
  else
    let* root := OpenRoot (pr_Path profile) in
    do st := Root_Lstat root rel in
    if match st with Ok info => is_dir info | Err _ => false end then
      ret (Err (Errorf "%s is a directory" [FStr rel]))
    else
      let dir := Dir rel in
      let temp := Join [dir; tempName rnd now] in
      let* file := Root_CreateExcl root temp mode in
      do w := File_Write file data in
      match w with
      | Err e => abandon root file temp true e
      | Ok _ =>
          do c := File_Chmod file mode in
          match c with
          | Err e => abandon root file temp true e
          | Ok _ =>
              do s := File_Sync file in
              match s with
              | Err e => abandon root file temp true e
              | Ok _ =>
                  do cl := File_Close file in
                  match cl with
                  | Err e => abandon root file temp false e
                  | Ok _ =>
                      do r := Root_Rename root temp rel in
                      match r with
                      | Err e => abandon root file temp false e
                      | Ok _ => ret (Ok tt)
                      end
                  end
              end
          end
      end.

Definition Set_Mkdir (profile : Profile) (rel : str) (mode : Z) : M (res unit) :=
  let* rel := lift (safeRel rel) in
  let* _ := lift (Profile_checkMode profile mode) in
  let* root := OpenRoot (pr_Path profile) in
  let* _ := Root_MkdirAll root rel mode in
  Root_Chmod root rel mode.

Definition Set_Remove (profile : Profile) (rel : str) : M (res unit) :=
  let* rel := lift (safeRel rel) in
  let* root := OpenRoot (pr_Path profile) in
  let* info := Root_Lstat root rel in
  if is_dir info then ret (Err (Errorf "refusing to remove the directory %s" [FStr rel]))
  else Root_Remove root rel.
