(* ===== verification/PrivSetFacts.v ===== *)
(** * PrivSetFacts: what the helper's profile file and file operations guarantee

    [safeRel] leaves exactly the relative paths below a profile; a loaded set is
    well formed; the three file operations stay below the profile's directory;
    a write is all or nothing. *)

From S2P Require Import Prelude GoStr Regex GoPath GoOS GoOSFacts PrivPackages PrivFirewall PrivSet.

(** ** Relative paths *)

Lemma safeRel_spec rel clean :
  (safeRel rel = Ok clean) <->
  (NUL ∉ rel) /\ IsAbs rel = false /\
  exists l, l <> [] /\ Forall proper l /\ Clean rel = join [slash] l /\ clean = join [slash] l.
Proof.
  unfold safeRel. split.
  - case_bool_decide as E1; [done|]. destruct (has_byte NUL rel) eqn:E2; [done|].
    destruct (IsAbs rel) eqn:E3; [done|].
    destruct (_ || _ || _) eqn:E4; [done|]. intros [= <-]. bools.
    split; [by apply has_byte_false|]. split; [done|].
    destruct (Clean_inside rel) as (l & ? & ? & ?); eauto 10.
  - intros (Hn & Ha & l & Hne & Hl & Hc & ->).
    rewrite bool_decide_eq_false_2.
    2: { intros ->. destruct l as [|x l]; [done|]. destruct (join_head (x :: l)) as (c & s & Hj & _); auto with go.
         apply (f_equal components) in Hc. rewrite components_join in Hc by auto with go.
         change ([dot] = x :: l) in Hc. injection Hc as <- <-.
         apply Forall_cons in Hl as [(_ & Hd & _) _]. done. }
    rewrite (proj2 (has_byte_false _ _) Hn), Ha, Hc.
    assert (Hcomp : components (join [slash] l) = l) by (apply components_join; auto with go).
    assert (Hno : forall x, ~ proper x -> name_ok x -> forall k, components (join [slash] l) <> x :: k).
    { intros x Hx _ k Hk. rewrite Hcomp in Hk. subst l. apply Forall_cons in Hl as [Hl _]. done. }
    rewrite (bool_decide_eq_false_2 (_ = dot)).
    2: { intros E. apply (Hno dot) with []; [by intros (_ & ? & _)|auto with go|by rewrite E]. }
    rewrite (bool_decide_eq_false_2 (_ = dotdot)).
    2: { intros E. apply (Hno dotdot) with []; [by intros (_ & _ & ?)|auto with go|by rewrite E]. }
    rewrite (proj1 (not_true_iff_false (HasPrefix _ _))); [done|].
    intros [r Hr]%HasPrefix_spec. rewrite <-(assoc_L (++)) in Hr.
    apply (Hno dotdot) with (components r); [by intros (_ & _ & ?)|auto with go|].
    rewrite Hr. change ([slash] ++ r) with (slash :: r). by rewrite components_app_slash.
Qed.

Lemma safeRel_inside rel clean : safeRel rel = Ok clean ->
  exists d x, Forall proper (d ++ [x]) /\ clean = join [slash] (d ++ [x]).
Proof.
  intros (_ & _ & l & Hne & Hl & _ & ->)%safeRel_spec.
  destruct l as [|x d _] using rev_ind; [done|]. eauto.
Qed.

(** The relative paths the helper accepts are exactly the ones that name
    something strictly below the profile: [safeRel] succeeds precisely when the
    path is non-empty, free of NUL and normalises to a non-empty list of proper
    names, which it returns joined. No absolute path and no path that climbs out
    is accepted, and none that stays inside is refused. *)
Theorem safeRel_exact rel clean :
  (safeRel rel = Ok clean) <->
  (NUL ∉ rel) /\ IsAbs rel = false /\
  exists l, l <> [] /\ Forall proper l /\ Clean rel = join [slash] l /\ clean = join [slash] l.
Proof. apply safeRel_spec. Qed.

(** ** Modes *)

Lemma allowedModeSet_spec m : m ∈ allowedModeSet <-> m ∈ allowedModes.
Proof. apply elem_of_list_to_set. Qed.

Lemma ParseMode_allowed raw m : ParseMode raw = Ok m -> m ∈ allowedModeSet.
Proof.
  unfold ParseMode. destruct (_ && _); [done|]. destruct (_ && _); [done|].
  destruct (parseOctal _) as [v|]; [|done]. case_bool_decide as E; [|done]. by intros [= <-].
Qed.

(** The mode grammar: [ParseMode] returns only one of the six permitted
    permission sets (so never a setuid, setgid, sticky, group-writable or
    other-writable one), and it reads back every permitted mode from the
    four-digit form the daemon renders with ["%04o"]. *)
Theorem ParseMode_roundtrip :
  (forall raw m, ParseMode raw = Ok m -> m ∈ allowedModeSet /\ Z.land m (Z.lnot 493) = 0) /\
  (forall m, m ∈ allowedModeSet -> ParseMode (fmt_04o m) = Ok m).
Proof.
  split.
  - intros raw m E%ParseMode_allowed. split; [done|]. apply allowedModeSet_spec in E.
    unfold allowedModes in E.
    repeat (apply elem_of_cons in E as [->|E]; [done|]). by apply elem_of_nil in E.
  - intros m E. apply allowedModeSet_spec in E. unfold allowedModes in E.
    repeat (apply elem_of_cons in E as [->|E]; [by vm_compute|]). by apply elem_of_nil in E.
Qed.

Lemma checkMode_ok p mode u :
  Profile_checkMode p mode = Ok u <-> mode ∈ allowedModeSet /\ mode ∈ pr_Modes p.
Proof. unfold Profile_checkMode. destruct u. repeat case_bool_decide; simpl; naive_solver. Qed.

Lemma unit_CheckVerb_ok g verb u :
  UnitGrant_CheckVerb g verb = Ok u <-> verb ∈ allowedSystemdVerbs /\ verb ∈ ug_Verbs g.
Proof.
  unfold UnitGrant_CheckVerb, validSystemdVerb. destruct u.
  repeat case_bool_decide; simpl; naive_solver.
Qed.

(** ** A loaded set is well formed *)

(** The directory a profile names, physically: no component is a link. *)
Definition physical_dir (fs : fsys) (path : str) : Prop :=
  exists l, Forall proper l /\ path = abs_path l /\ dirs_to (look_in fs []) l.

Record profile_ok (fs : fsys) (name : str) (p : Profile) : Prop := {
  profile_name : pr_Name p = name /\ ValidProfileName name = true;
  profile_dir : physical_dir fs (pr_Path p);
  profile_modes : pr_Modes p ⊆ allowedModeSet;
}.
Record unit_ok (name : str) (g : UnitGrant) : Prop := {
  unit_name : ug_Unit g = name /\ matches systemdUnitPattern name = true;
  unit_verbs : ug_Verbs g ⊆ allowedSystemdVerbs;
}.
Record set_ok (fs : fsys) (s : PSet) : Prop := {
  set_profiles : forall name p, byName s !! name = Some p -> profile_ok fs name p;
  set_units : forall name g, units s !! name = Some g -> unit_ok name g;
  set_packages : forall g, packages s = Some g -> package_grant_ok g;
  set_firewall : forall g, firewall s = Some g -> firewall_grant_ok g;
}.

Lemma collect_unit_verbs_ok unit allowed verbs s :
  collect_unit_verbs unit allowed verbs = Ok s -> allowed ⊆ allowedSystemdVerbs ->
  s ⊆ allowedSystemdVerbs.
Proof.
  revert allowed. induction verbs as [|v verbs IH]; intros allowed; simpl; [by intros [= ->]|].
  unfold validSystemdVerb. case_bool_decide; [|done]. simpl. intros Hc Ha.
  apply (IH _ Hc). set_solver.
Qed.
Lemma collect_modes_ok name allowed modes s :
  collect_modes name allowed modes = Ok s -> allowed ⊆ allowedModeSet -> s ⊆ allowedModeSet.
Proof.
  revert allowed. induction modes as [|v modes IH]; intros allowed; simpl; [by intros [= ->]|].
  destruct (ParseMode v) as [m|] eqn:E; [|done]. intros Hc Ha. apply (IH _ Hc).
  apply ParseMode_allowed in E. set_solver.
Qed.

Lemma buildUnitGrant_ok unit verbs g : buildUnitGrant unit verbs = Ok g -> unit_ok (ug_Unit g) g.
Proof.
  unfold buildUnitGrant. intros H. repeat break_if_in H; try discriminate. inv_ok. bools.
  constructor; simpl; [done|]. eapply collect_unit_verbs_ok; [done|set_solver].
Qed.

Lemma load_units_ok i acc es m : load_units i acc es = Ok m ->
  (forall name g, acc !! name = Some g -> unit_ok name g) ->
  forall name g, m !! name = Some g -> unit_ok name g.
Proof.
  revert i acc. induction es as [|e es IH]; intros i acc; simpl; [by intros [= ->]|].
  destruct (buildUnitGrant _ _) as [g|] eqn:E; [|done]. destruct (acc !! ug_Unit g); [done|].
  intros Hl Hacc. apply (IH _ _ Hl). intros name g' [[<- <-]|[_ ?]]%lookup_insert_Some; [|auto].
  by eapply buildUnitGrant_ok.
Qed.

(** [LoadSet] only reads. *)
Lemma touches_nothing_fs {A} (m : M A) : touches (fun _ => False) m -> forall w, w_fs (m w).2 = w_fs w.
Proof. intros H w. apply map_eq. intros p. apply H. tauto. Qed.

Lemma findExecutable_touches (P : fpath -> Prop) cs all name : touches P (findExecutable_loop cs all name).
Proof.
  induction cs as [|c cs IH]; simpl; [apply touches_ret|].
  apply touches_bind; [apply touches_query|]. intros [n|e]; [|done].
  destruct (_ && _); [apply touches_ret|done].
Qed.
#[export] Hint Resolve findExecutable_touches : touches.

Section at_fs.
Variable (uid : Z) (fs0 : fsys).
Let here (fs : fsys) : Prop := fs = fs0.

Lemma look_root (p : fpath) : look_in fs0 [] p = n_kind <$> fs0 !! p.
Proof. done. Qed.

(** A directory reached through [EvalSymlinks] is physical. *)
Lemma resolved_physical path p :
  os_resolve fs0 LFollow path = Ok p -> is_Some (fs0 !! p) ->
  forall p' n, os_resolve fs0 LFollow (abs_path p) = Ok p' -> fs0 !! p' = Some n -> is_dir n = true ->
  physical_dir fs0 (abs_path p).
Proof.
  intros Hp _ p' n Hp' Hn Hdir. apply os_resolve_resolved in Hp as (HF & Hd & _ & Hl).
  exists p. split; [done|]. split; [done|].
  destruct p as [|x d _] using rev_ind; [apply dirs_to_nil|]. rewrite removelast_last in Hd.
  rewrite os_resolve_last in Hp'; [|done|done|apply Hl; [done|by destruct d]].
  injection Hp' as <-. apply dirs_to_snoc; [done|]. rewrite look_root, Hn. simpl.
  f_equal. by apply bool_decide_eq_true in Hdir.
Qed.

Lemma buildProfile_ok name path modes :
  hoare uid here (buildProfile name path modes)
    (fun r fs => here fs /\ forall p, r = Ok p -> profile_ok fs0 (pr_Name p) p).
Proof.
  unfold buildProfile.
  destruct (matches profileNamePattern name) eqn:En; [|by apply hoare_ret]. simpl.
  destruct (_ || _); [by apply hoare_ret|].
  eapply hoare_bind with (R := fun r fs => here fs /\ forall s, r = Ok s ->
    exists p, s = abs_path p /\ os_resolve fs0 LFollow path = Ok p /\ is_Some (fs0 !! p)).
  - apply hoare_query; [|done]. intros fs s -> Hs. split; [done|]. intros ? [= <-]. inv_ok.
    exists a. split_and!; [done..|]. unfold must_exist in Hstep0. destruct (fs0 !! a); eauto; done.
  - intros [s|e]; [|by apply hoare_ret; intros fs [??]].
    eapply hoare_bind with (R := fun r fs => here fs /\ forall n, r = Ok n ->
      is_dir n = true -> physical_dir fs0 s).
    + apply hoare_query; [|by intros fs e [??]]. intros fs n [-> Hs] Hn. split; [done|].
      intros ? [= <-] Hdir. inv_ok. destruct (Hs s eq_refl) as (p & -> & Hp & Hsome).
      unfold must_exist in Hn. destruct (fs0 !! a) eqn:Ea; [|done]. injection Hn as ->.
      by eapply resolved_physical.
    + intros [n|e]; [|by apply hoare_ret; intros fs [??]].
      destruct (is_dir n) eqn:Hdir; simpl; [|by apply hoare_ret; intros fs [??]].
      case_bool_decide; [by apply hoare_ret; intros fs [??]|].
      apply hoare_lift; [|by intros e fs _ [??]]. intros ms Hms. apply hoare_ret.
      intros fs [Hfs Hn]. split; [done|]. intros p [= <-]. constructor; simpl; [done|by eapply Hn|].
      eapply collect_modes_ok; [done|set_solver].
Qed.

Lemma load_profiles_ok es : forall i acc,
  (forall name p, acc !! name = Some p -> profile_ok fs0 name p) ->
  hoare uid here (load_profiles i acc es)
    (fun r fs => here fs /\ forall m name p, r = Ok m -> m !! name = Some p -> profile_ok fs0 name p).
Proof.
  induction es as [|e es IH]; intros i acc Hacc; simpl.
  - apply hoare_ret. intros fs ->. split; [done|]. intros m name p [= <-]. apply Hacc.
  - eapply hoare_bind; [apply buildProfile_ok|]. intros [p|err]; [|by apply hoare_ret; intros fs [??]].
    destruct (acc !! pr_Name p) eqn:Ea; [by apply hoare_ret; intros fs [??]|].
    intros w Hw [Hh Hp]. apply IH; [|done|done].
    intros name q [[<- <-]|[_ ?]]%lookup_insert_Some; eauto.
Qed.
End at_fs.

Section load.
Context `{Unicode} (viper_decode : str -> res fileConfig).

Lemma assemble_ok uid fs0 path parsed :
  hoare uid (fun fs => fs = fs0) (assemble path parsed)
    (fun r fs => fs = fs0 /\ forall s, r = Ok s -> set_ok fs0 s).
Proof.
  unfold assemble. eapply hoare_try; [apply load_profiles_ok| |].
  - intros name p Hp. by rewrite lookup_empty in Hp.
  - intros profiles. apply hoare_lift; [|by intros e fs _ [??]]. intros us Hus.
    apply hoare_lift; [|by intros e fs _ [??]]. intros pk Hpk.
    apply hoare_lift; [|by intros e fs _ [??]]. intros fw Hfw.
    destruct (_ && _ && _ && _); [by apply hoare_ret; intros fs [??]|].
    apply hoare_ret. intros fs [-> Hp]. split; [done|]. intros s [= <-]. constructor; simpl.
    + intros name p. by apply Hp.
    + eapply load_units_ok; [done|]. intros name g Hg. by rewrite lookup_empty in Hg.
    + intros g ->. destruct (fc_Packages parsed); [|done].
      destruct (buildPackageGrant _ _) as [g'|] eqn:E; [|done].
      injection Hpk as ->. by eapply buildPackageGrant_ok.
    + intros g ->. destruct (fc_Firewall parsed); [|done].
      destruct (buildFirewallGrant _ _) as [g'|] eqn:E; [|done].
      injection Hfw as ->. by eapply buildFirewallGrant_ok.
  - by intros e fs [??].
Qed.

Lemma LoadSet_spec uid fs0 path own :
  hoare uid (fun fs => fs = fs0) (LoadSet viper_decode path own)
    (fun r fs => fs = fs0 /\ forall s, r = Ok s ->
       set_ok fs0 s /\
       exists p n, os_resolve fs0 LNoFollow path = Ok p /\ fs0 !! p = Some n /\
         is_regular n = true /\ Z.land (n_perm n) 18 = 0 /\ (own = true -> n_uid n = 0)).
Proof.
  unfold LoadSet. eapply hoare_bind with (R := fun r fs => fs = fs0 /\ forall n, r = Ok n ->
    exists p, os_resolve fs0 LNoFollow path = Ok p /\ fs0 !! p = Some n).
  { apply hoare_query; [|done]. intros fs n -> Hn. split; [done|]. intros ? [= <-]. inv_ok.
    exists a. split; [done|]. unfold must_exist in Hn. by destruct (fs0 !! a); simplify_eq. }
  intros [n|e]; [|by apply hoare_ret; intros fs [??]].
  destruct (is_link n); [by apply hoare_ret; intros fs [??]|].
  destruct (is_regular n) eqn:Hreg; simpl; [|by apply hoare_ret; intros fs [??]].
  destruct (perm_any n 18) eqn:Hperm; [by apply hoare_ret; intros fs [??]|].
  destruct (own && negb (n_uid n =? 0)) eqn:Hown; [by apply hoare_ret; intros fs [??]|].
  intros w Hu [Hw Hn]. destruct (Hn n eq_refl) as (p & Hp & Hnp).
  cut (hoare uid (fun fs => fs = fs0)
    (do raw := os_ReadFile path in
     match raw with
     | Ok bytes => match viper_decode bytes with
                   | Ok parsed => assemble path parsed
                   | Err e => ret (Err (Errorf "parse %s: %w" [FStr path; FErr e]))
                   end
     | Err e => ret (Err (Errorf "parse %s: %w" [FStr path; FErr e]))
     end) (fun r fs => fs = fs0 /\ forall s, r = Ok s -> set_ok fs0 s)).
  { intros Hh. destruct (Hh w Hu Hw) as [Hu' [Hfs Hs]]. split; [done|]. split; [done|].
    intros s Heq. split; [by apply Hs|]. exists p, n. split_and!; try done.
    - unfold perm_any in Hperm. by bools.
    - intros ->. simpl in Hown. by bools. }
  eapply hoare_bind with (R := fun _ fs => fs = fs0); [by apply hoare_query; intros|].
  intros [bytes|e]; [|by apply hoare_ret; intros fs ->].
  destruct (viper_decode bytes); [apply assemble_ok|by apply hoare_ret; intros fs ->].
Qed.

(** C38. Loading the profile file: whatever the decoder returns, a set is served
    only from a file that is not a symbolic link, is regular, is not writable by
    group or others and (in production) belongs to root; loading changes
    nothing; and every profile of the set has a valid name, permitted modes only
    and a directory that is physical (no component of it is a symbolic link),
    every unit grant a valid unit and known verbs, every package and firewall
    grant a known manager or backend and known verbs. *)
Theorem LoadSet_sound path own w s :
  (LoadSet viper_decode path own w).1 = Ok s ->
  w_fs (LoadSet viper_decode path own w).2 = w_fs w /\ set_ok (w_fs w) s /\
  exists p n, os_resolve (w_fs w) LNoFollow path = Ok p /\ w_fs w !! p = Some n /\
    is_regular n = true /\ Z.land (n_perm n) 18 = 0 /\ (own = true -> n_uid n = 0).
Proof.
  intros Hs. destruct (LoadSet_spec (w_euid w) (w_fs w) path own w eq_refl eq_refl) as (_ & Hfs & Hok).
  split; [done|]. by apply Hok.
Qed.
End load.

(** ** Temporary names *)

Lemma hex_digit_no_slash n : (n < 16)%nat -> slash <> hex_digit n.
Proof. intros Hn. do 16 (destruct n as [|n]; [by apply (bool_decide_unpack _)|]). lia. Qed.

Lemma hex_encode_no_slash bs : slash ∉ hex_encode bs.
Proof.
  unfold hex_encode. induction bs as [|c bs IH]; [apply not_elem_of_nil|].
  pose proof (Stdlib.Strings.Ascii.nat_ascii_bounded c) as Hc.
  rewrite fmap_cons. cbn [concat app]. rewrite !not_elem_of_cons. split_and!; [| |done].
  - apply hex_digit_no_slash. apply Nat.Div0.div_lt_upper_bound. unfold code. lia.
  - apply hex_digit_no_slash. apply Nat.mod_upper_bound. lia.
Qed.

Lemma decimal_no_slash fuel n : slash ∉ decimal_digits fuel n.
Proof.
  revert n. induction fuel as [|fuel IH]; intros n; simpl; [apply not_elem_of_nil|].
  rewrite not_elem_of_app. split; [case_match; [apply not_elem_of_nil|apply IH]|].
  rewrite list_elem_of_singleton. intros E. apply (f_equal code) in E.
  pose proof (Z.mod_pos_bound n 10 ltac:(lia)).
  rewrite code_byte in E by lia. change (code slash) with 47%nat in E. lia.
Qed.

Lemma tempName_proper rnd now : proper (tempName rnd now).
Proof.
  assert (H : forall s, slash ∉ s -> proper ($".maidkit-priv-" ++ s)).
  { intros s Hs. split; [split|]; [done| |done].
    rewrite not_elem_of_app. split; [|done]. by apply (bool_decide_unpack _). }
  unfold tempName. destruct rnd; apply H; [apply hex_encode_no_slash|].
  unfold fmt_d. case_match; [|apply decimal_no_slash].
  rewrite not_elem_of_cons. split; [done|apply decimal_no_slash].
Qed.

Lemma cut_last_join d x : Forall name_ok (d ++ [x]) ->
  cut_last slash (join [slash] (d ++ [x])) =
    match d with [] => None | _ => Some (join [slash] d, x) end.
Proof.
  intros H. apply Forall_app in H as [_ H]. apply Forall_cons in H as [[_ Hx] _].
  destruct d as [|y d]; [by apply cut_last_none|].
  rewrite components_join2 by done. by apply cut_last_spec.
Qed.

Lemma Dir_join d x : Forall proper (d ++ [x]) -> Dir (join [slash] (d ++ [x])) = rel_path d.
Proof.
  intros H. unfold Dir. rewrite cut_last_join by auto with go. apply Forall_app in H as [Hd _].
  destruct d as [|y d]; [done|]. unfold Clean.
  destruct (join_head (y :: d)) as (c & s & Hj & Hc); [auto with go|done|].
  rewrite bool_decide_eq_false_2 by (by rewrite Hj).
  replace (IsAbs _) with false.
  2: { symmetry. apply not_true_iff_false. intros [q Hq]%IsAbs_spec. rewrite Hj in Hq. simplify_eq/=. }
  rewrite components_app_slash, components_join by auto with go.
  change (components []) with (@nil str). rewrite app_nil_r. unfold clean_comps.
  by rewrite clean_stack_proper, app_nil_r, rev_involutive by done.
Qed.

Lemma Join_temp d t : Forall proper d -> proper t -> Join [rel_path d; t] = join [slash] (d ++ [t]).
Proof.
  intros Hd Ht. cbn [Join]. rewrite bool_decide_eq_false_2 by (apply rel_path_ne; auto with go).
  destruct d as [|y d].
  - change (join [slash] [rel_path []; t]) with (dot ++ slash :: t).
    assert (Hct : components t = [t]).
    { apply (components_join [t]). constructor; [auto with go|constructor]. }
    unfold Clean. change (IsAbs (dot ++ slash :: t)) with false.
    rewrite bool_decide_eq_false_2 by done. rewrite components_app_slash, Hct.
    change (components dot ++ [t]) with [dot; t]. unfold clean_comps.
    destruct Ht as (_ & H1 & H2). cbn [clean_stack].
    rewrite bool_decide_eq_true_2 by done.
    by rewrite (bool_decide_eq_false_2 (t = dot)), (bool_decide_eq_false_2 (t = dotdot)) by done.
  - unfold rel_path. rewrite bool_decide_eq_false_2 by done.
    change (join [slash] [join [slash] (y :: d); t]) with (join [slash] (y :: d) ++ slash :: join [slash] [t]).
    rewrite <-components_join2 by done.
    assert (HF : Forall proper ((y :: d) ++ [t])) by (apply Forall_app; split; [done|by constructor]).
    pose proof (Clean_rel_path O _ HF) as Hc. simpl replicate in Hc. rewrite app_nil_l in Hc.
    unfold rel_path in Hc. by rewrite bool_decide_eq_false_2 in Hc by done.
Qed.

(** ** Writing *)

Section write.
Variable (uid : Z) (fs0 : fsys).
Hypothesis fs0_wf : fs_wf fs0.

Variables (root d q : fpath) (x t : str).
Hypothesis Hproper : Forall proper (d ++ [x]).
Hypothesis Ht : proper t.
Hypothesis Hwalk : walk (look_in fs0 root) true LDir rootMaxSymlinks [] d = Ok q.
Let tmp : fpath := root ++ q ++ [t].
Let dest : fpath := root ++ q ++ [x].
Let temp : str := join [slash] (d ++ [t]).
Let rel : str := join [slash] (d ++ [x]).
Hypothesis Hfree : fs0 !! tmp = None.

(** Only the temporary file has been added. *)
Let temp_at (fs : fsys) : Prop :=
  exists n, is_regular n = true /\ fs = <[tmp := n]> fs0.
Let failed (fs : fsys) : Prop := fs = fs0 \/ temp_at fs.

Lemma temp_resolves n :
  root_resolve (<[tmp := n]> fs0) root LNoFollow temp = Ok tmp.
Proof.
  apply root_resolve_insert; [|done|done]. apply Forall_app in Hproper as [? _].
  apply Forall_app. split; [done|]. by constructor.
Qed.
Lemma dest_resolves n :
  root_resolve (<[tmp := n]> fs0) root LNoFollow rel = Ok dest.
Proof. by apply root_resolve_insert. Qed.

Lemma regular_append n data : is_regular n = true -> is_regular (append_data n data) = true.
Proof. unfold is_regular, append_data. by destruct (n_kind n) eqn:E; simpl; rewrite ?E. Qed.

Lemma abandon_spec file close err :
  hoare uid temp_at (abandon root file temp close err)
    (fun r fs => r = Err err /\ failed fs).
Proof.
  unfold abandon. apply hoare_bind with (R := fun _ => temp_at).
  { destruct close; [by apply hoare_query|by apply hoare_ret]. }
  intros _. apply hoare_bind with (R := fun _ => failed).
  - apply hoare_syscall; [|by right]. intros fs a fs' (n & Hn & ->) Hrm. left.
    rewrite temp_resolves in Hrm. simpl in Hrm. unfold must_exist in Hrm.
    rewrite lookup_insert_eq in Hrm. simpl in Hrm.
    repeat break_if_in Hrm; try discriminate. injection Hrm as _ <-.
    by apply delete_insert_id.
  - intros _. by apply hoare_ret.
Qed.

Lemma rename_spec n : is_regular n = true ->
  hoare uid (fun fs => fs = <[tmp := n]> fs0) (Root_Rename root temp rel)
    (fun r fs => match r with
                 | Ok _ => fs = <[dest := n]> fs0
                 | Err _ => fs = <[tmp := n]> fs0
                 end).
Proof.
  intros Hn. apply hoare_syscall; [|done]. intros fs a fs' -> Hren.
  rewrite temp_resolves, dest_resolves in Hren. simpl in Hren. unfold must_exist in Hren.
  rewrite lookup_insert_eq in Hren. simpl in Hren.
  case_bool_decide as Heq; [injection Hren as _ <-; by rewrite <-Heq|].
  destruct (_ || _); [done|]. destruct (under tmp dest); [done|]. destruct (under dest tmp); [done|].
  assert (Htx : t <> x) by (intros ->; by apply Heq).
  assert (Hnd : is_dir n = false) by (unfold is_regular, is_dir in *; by destruct (n_kind n)).
  rewrite Hnd in Hren. simpl in Hren. rewrite lookup_insert_ne in Hren by done.
  assert (Hmove : (forall m, fs0 !! dest = Some m -> n_kind m <> CDir) ->
    rename_tree tmp dest (<[tmp := n]> fs0) = <[dest := n]> fs0).
  { intros Hd. apply rename_file_tree; try done; unfold tmp, dest; rewrite !(assoc_L (++));
      by apply sibling_prefix. }
  destruct (fs0 !! dest) as [m|] eqn:Ed.
  - destruct (is_dir m) eqn:Em; simpl in Hren; [done|]. injection Hren as _ <-. apply Hmove.
    intros ? [= <-]. by apply bool_decide_eq_false in Em.
  - injection Hren as _ <-. by apply Hmove.
Qed.

(** The part of [Write] that follows the creation of the temporary file. *)
Lemma fill_spec data mode n : n_kind n = CFile [] -> n_uid n = uid ->
  hoare uid (fun fs => fs = <[tmp := n]> fs0)
    (do w := File_Write tmp data in
    match w with
    | Err e => abandon root tmp temp true e
    | Ok _ =>
        do c := File_Chmod tmp mode in
        match c with
        | Err e => abandon root tmp temp true e
        | Ok _ =>
            do s := File_Sync tmp in
            match s with
            | Err e => abandon root tmp temp true e
            | Ok _ =>
                do cl := File_Close tmp in
                match cl with
                | Err e => abandon root tmp temp false e
                | Ok _ =>
                    do r := Root_Rename root temp rel in
                    match r with
                    | Err e => abandon root tmp temp false e
                    | Ok _ => ret (Ok tt)
                    end
                end
            end
        end
    end)
    (fun r fs => match r with
                 | Ok _ => fs = <[dest := Node (CFile data) mode uid]> fs0
                 | Err _ => failed fs
                 end).
Proof.
  intros Hk Hu.
  assert (Hreg : forall data, is_regular (append_data n data) = true).
  { intros d'. apply regular_append. unfold is_regular. by rewrite Hk. }
  assert (Hab : forall file close e, hoare uid temp_at (abandon root file temp close e)
    (fun r fs => match r with
                 | Ok _ => fs = <[dest := Node (CFile data) mode uid]> fs0
                 | Err _ => failed fs
                 end)).
  { intros file close e. eapply hoare_conseq; [apply abandon_spec|done|]. by intros r fs [-> ?]. }
  set (full := Node (CFile data) mode uid).
  assert (Hfull : set_perm mode (append_data n data) = full).
  { unfold append_data. by rewrite Hk; unfold set_perm, full; simpl; rewrite Hu. }
  apply hoare_bind with (R := fun r fs => match r with
    | Ok _ => fs = <[tmp := append_data n data]> fs0 | Err _ => temp_at fs end).
  { apply hoare_File_Write.
    - intros fs ->. by rewrite alter_insert_eq.
    - intros fs e m ->. rewrite alter_insert_eq. eexists. split; [apply Hreg|done]. }
  intros [_|e]; [|apply Hab].
  apply hoare_bind with (R := fun r fs => match r with
    | Ok _ => fs = <[tmp := full]> fs0 | Err _ => temp_at fs end).
  { apply hoare_syscall.
    - intros fs a fs' -> [= _ <-]. by rewrite alter_insert_eq, Hfull.
    - intros fs e ->. eexists. split; [apply Hreg|done]. }
  intros [_|e]; [|apply Hab].
  assert (Hq : forall f : fsys -> res unit, hoare uid (fun fs => fs = <[tmp := full]> fs0) (query f)
    (fun r fs => match r with Ok _ => fs = <[tmp := full]> fs0 | Err _ => temp_at fs end)).
  { intros f. apply hoare_query; [done|]. intros fs e ->. by exists full. }
  eapply hoare_bind; [apply Hq|]. intros [_|e]; [|apply Hab].
  eapply hoare_bind; [apply Hq|]. intros [_|e]; [|apply Hab].
  eapply hoare_bind; [by apply rename_spec|]. intros [_|e]; [by apply hoare_ret|].
  eapply hoare_conseq; [apply Hab| |done]. intros fs ->. by exists full.
Qed.
End write.

(** What [Write] did: created or replaced one file, or nothing but at most a
    stray temporary file. *)
Definition written (fs0 : fsys) (profile : Profile) (rel : str) (n : node) (fs : fsys) : Prop :=
  exists l d x q,
    Forall proper l /\ pr_Path profile = abs_path l /\ Forall proper (d ++ [x]) /\
    safeRel rel = Ok (join [slash] (d ++ [x])) /\
    walk (look_in fs0 l) true LDir rootMaxSymlinks [] d = Ok q /\
    fs = <[l ++ q ++ [x] := n]> fs0.
Definition not_written (fs0 : fsys) (profile : Profile) (temp : str) (fs : fsys) : Prop :=
  fs = fs0 \/
  exists l q n, Forall proper l /\ pr_Path profile = abs_path l /\
    fs0 !! (l ++ q ++ [temp]) = None /\ is_regular n = true /\ fs = <[l ++ q ++ [temp] := n]> fs0.

Lemma OpenRoot_spec uid fs0 l : Forall proper l -> dirs_to (look_in fs0 []) l ->
  hoare uid (fun fs => fs = fs0) (OpenRoot (abs_path l))
    (fun r fs => fs = fs0 /\ forall root, r = Ok root -> root = l).
Proof.
  intros Hl Hd. apply hoare_query; [|done]. intros fs a -> Ha. split; [done|].
  rewrite os_resolve_dir in Ha by done. intros root [= <-]. by injection Ha.
Qed.

Lemma create_temp_spec uid fs0 root d t mode : Forall proper (d ++ [t]) ->
  hoare uid (fun fs => fs = fs0) (Root_CreateExcl root (join [slash] (d ++ [t])) mode)
    (fun r fs => match r with
                 | Ok p => exists q n, walk (look_in fs0 root) true LDir rootMaxSymlinks [] d = Ok q /\
                     p = root ++ q ++ [t] /\ fs0 !! p = None /\ n_kind n = CFile [] /\ n_uid n = uid /\
                     fs = <[p := n]> fs0
                 | Err _ => fs = fs0
                 end).
Proof.
  intros Hp. apply hoare_with_umask. intros u. apply hoare_syscall; [|done].
  intros fs a fs' -> Hc. rewrite root_resolve_name in Hc by done. inv_ok.
  case_match eqn:Ep; [done|]. injection Hc as <- <-. by repeat esplit.
Qed.

Lemma Set_Write_spec rnd now uid fs0 profile rel mode data :
  fs_wf fs0 -> physical_dir fs0 (pr_Path profile) ->
  hoare uid (fun fs => fs = fs0) (Set_Write rnd now profile rel mode data)
    (fun r fs => match r with
       | Ok _ => mode ∈ allowedModeSet /\ mode ∈ pr_Modes profile /\
           Z.of_nat (List.length data) <= MaxContentBytes /\
           written fs0 profile rel (Node (CFile data) mode uid) fs
       | Err _ => not_written fs0 profile (tempName rnd now) fs
       end).
Proof.
  intros Hwf (l & Hl & Hpath & Hdirs). unfold Set_Write.
  apply hoare_lift; [|by intros e fs _ ->; left]. intros rel' Hrel.
  apply hoare_lift; [|by intros e fs _ ->; left]. intros [] [Hm1 Hm2]%checkMode_ok.
  case_match eqn:Hlen; [by apply hoare_ret; intros fs ->; left|]. bools.
  destruct (safeRel_inside _ _ Hrel) as (d & x & Hdx & ->). pose proof Hdx as Hdx'.
  apply Forall_app in Hdx' as [Hd _]. pose proof (tempName_proper rnd now) as Ht.
  rewrite Hpath. eapply hoare_try; [by apply OpenRoot_spec| |by intros e fs [-> _]; left].
  intros root. eapply hoare_bind with (R := fun _ fs => fs = fs0 /\ root = l).
  { apply hoare_query; intros fs a [-> Hr]; auto. }
  intros st. destruct (match st with Ok info => is_dir info | Err _ => false end);
    [by apply hoare_ret; intros fs [-> _]; left|].
  rewrite Dir_join, Join_temp by done.
  destruct (decide (root = l)) as [->|]; [|by apply hoare_false; intros fs [_ ?]].
  eapply hoare_conseq with (P := fun fs => fs = fs0); [|by intros fs [? _]|by intros r fs H; apply H].
  eapply hoare_try; [apply create_temp_spec, Forall_app; auto| |by intros e fs ->; left].
  intros p w Hu (q & n & Hq & -> & Hfree & Hk & Hnu & Hfs).
  destruct (fill_spec uid fs0 Hwf l d q x (tempName rnd now) Hdx Ht Hq Hfree data mode n Hk Hnu w Hu Hfs)
    as [Hu' HQ]. split; [done|].
  destruct ((do _ := File_Write _ _ in _) w) as [[r|r] w']; cbn [fst snd] in *.
  - split_and!; try done. by exists l, d, x, q.
  - destruct HQ as [->|(n' & Hr & ->)]; [by left|]. right. by exists l, q, n'.
Qed.

(** C10. A privileged write is all or nothing, whatever system call fails. If
    [Write] reports success, the mode is permitted and granted, the content is
    within the limit and the file system is exactly the old one with one entry
    more or replaced: the named path below the profile's directory is a regular
    file with that content, that mode (the umask does not matter) and the owner
    of the helper. If it reports an error, nothing has changed, except that a
    fresh temporary file may have been left behind below the profile's directory;
    the target is untouched. *)
Theorem Set_Write_atomic rnd now w profile rel mode data :
  fs_wf (w_fs w) -> physical_dir (w_fs w) (pr_Path profile) ->
  match Set_Write rnd now profile rel mode data w with
  | (Ok _, w') => mode ∈ allowedModeSet /\ mode ∈ pr_Modes profile /\
      Z.of_nat (List.length data) <= MaxContentBytes /\
      written (w_fs w) profile rel (Node (CFile data) mode (w_euid w)) (w_fs w')
  | (Err _, w') => not_written (w_fs w) profile (tempName rnd now) (w_fs w')
  end.
Proof.
  intros Hwf Hd.
  destruct (Set_Write_spec rnd now (w_euid w) _ _ rel mode data Hwf Hd w eq_refl eq_refl) as [_ H].
  destruct (Set_Write rnd now profile rel mode data w) as [[r|r] w']; exact H.
Qed.

(** ** Removing *)

Lemma Set_Remove_spec uid fs0 profile rel :
  physical_dir fs0 (pr_Path profile) ->
  hoare uid (fun fs => fs = fs0) (Set_Remove profile rel)
    (fun r fs => match r with
       | Ok _ => exists l d x q n,
           pr_Path profile = abs_path l /\ Forall proper (d ++ [x]) /\
           safeRel rel = Ok (join [slash] (d ++ [x])) /\
           walk (look_in fs0 l) true LDir rootMaxSymlinks [] d = Ok q /\
           fs0 !! (l ++ q ++ [x]) = Some n /\ n_kind n <> CDir /\ fs = delete (l ++ q ++ [x]) fs0
       | Err _ => fs = fs0
       end).
Proof.
  intros (l & Hl & Hpath & Hdirs). unfold Set_Remove.
  apply hoare_lift; [|by intros e fs _ ->]. intros rel' Hrel.
  destruct (safeRel_inside _ _ Hrel) as (d & x & Hdx & ->).
  rewrite Hpath. eapply hoare_try; [by apply OpenRoot_spec| |by intros e fs [-> _]].
  intros root. destruct (decide (root = l)) as [->|]; [|by apply hoare_false; intros fs [_ ?]; auto].
  eapply hoare_conseq with (P := fun fs => fs = fs0); [|by intros fs [? _]|by intros r fs H; apply H].
  eapply hoare_try with (R := fun r fs => fs = fs0 /\ forall n, r = Ok n -> exists p,
    root_resolve fs0 l LNoFollow (join [slash] (d ++ [x])) = Ok p /\ fs0 !! p = Some n).
  - apply hoare_query; [|done]. intros fs n -> Hn. split; [done|]. intros ? [= <-]. inv_ok.
    exists a. split; [done|]. unfold must_exist in Hn. by case_match; simplify_eq.
  - intros n. destruct (is_dir n) eqn:Hdir; [by apply hoare_ret; intros fs [-> _]|].
    apply hoare_syscall; [|by intros fs e [-> _]]. intros fs [] fs' [-> Hn] Hrm.
    destruct (Hn n eq_refl) as (p & Hp & Hpn). rewrite Hp in Hrm. simpl in Hrm.
    unfold must_exist in Hrm. rewrite Hpn in Hrm. simpl in Hrm. rewrite Hdir in Hrm. simpl in Hrm.
    case_bool_decide; [done|]. injection Hrm as <-.
    rewrite root_resolve_name in Hp by done. inv_ok. exists l, d, x, a, n.
    split_and!; try done. intros Hk. by apply bool_decide_eq_false in Hdir.
  - by intros e fs [-> _].
Qed.

(** The helper removes exactly one entry and never a directory: on success
    the file system lost the one named entry below the profile, which was there
    and was not a directory (a symbolic link goes, its target stays); on any
    error nothing changed. *)
Theorem Set_Remove_exact w profile rel :
  physical_dir (w_fs w) (pr_Path profile) ->
  match Set_Remove profile rel w with
  | (Ok _, w') => exists l d x q n,
      pr_Path profile = abs_path l /\ Forall proper (d ++ [x]) /\
      safeRel rel = Ok (join [slash] (d ++ [x])) /\
      walk (look_in (w_fs w) l) true LDir rootMaxSymlinks [] d = Ok q /\
      w_fs w !! (l ++ q ++ [x]) = Some n /\ n_kind n <> CDir /\
      w_fs w' = delete (l ++ q ++ [x]) (w_fs w)
  | (Err _, w') => w_fs w' = w_fs w
  end.
Proof.
  intros Hd. destruct (Set_Remove_spec (w_euid w) _ _ rel Hd w eq_refl eq_refl) as [_ H].
  destruct (Set_Remove profile rel w) as [[r|r] w']; exact H.
Qed.

(** ** Confinement *)

Lemma OpenRoot_then {A : Type} (P : fpath -> Prop) l (k : fpath -> M (res A)) w p :
  Forall proper l -> dirs_to (look_in (w_fs w) []) l -> touches P (k l) -> ~ P p ->
  w_fs (tryM (OpenRoot (abs_path l)) k w).2 !! p = w_fs w !! p.
Proof.
  intros Hl Hd Hk Hp.
  destruct (OpenRoot_spec (w_euid w) (w_fs w) l Hl Hd w eq_refl eq_refl) as (_ & Hfs & Hr).
  unfold tryM, bind. destruct (OpenRoot (abs_path l) w) as [[root|e] w']; simpl in *; [|by rewrite Hfs].
  rewrite (Hr root eq_refl), (Hk w' p Hp). by rewrite Hfs.
Qed.

Lemma lift_then {A B : Type} (r : res A) (k : A -> M (res B)) w p :
  (forall a, r = Ok a -> w_fs (k a w).2 !! p = w_fs w !! p) ->
  w_fs (tryM (lift r) k w).2 !! p = w_fs w !! p.
Proof. intros H. unfold tryM, bind, lift, ret. destruct r; simpl; auto. Qed.

Lemma Set_Mkdir_outside w profile rel mode l :
  Forall proper l -> pr_Path profile = abs_path l -> dirs_to (look_in (w_fs w) []) l ->
  forall p, ~ l `prefix_of` p -> w_fs (Set_Mkdir profile rel mode w).2 !! p = w_fs w !! p.
Proof.
  intros Hl Hpath Hd p Hp. unfold Set_Mkdir. apply lift_then. intros rel' _. apply lift_then.
  intros _ _. rewrite Hpath. apply OpenRoot_then with (prefix l); auto with touches.
Qed.

Lemma set_perm_look fs root p perm q :
  look_in (alter (set_perm perm) p fs) root q = look_in fs root q.
Proof.
  unfold look_in. destruct (decide (p = root ++ q)) as [->|]; [|by rewrite lookup_alter_ne].
  rewrite lookup_alter_eq. by destruct (fs !! (root ++ q)).
Qed.

Lemma Set_Mkdir_spec uid fs0 profile rel mode :
  physical_dir fs0 (pr_Path profile) ->
  hoare uid (fun fs => fs = fs0) (Set_Mkdir profile rel mode)
    (fun r fs => r = Ok tt -> mode ∈ pr_Modes profile /\
       exists l k p n, Forall proper l /\ pr_Path profile = abs_path l /\
         safeRel rel = Ok (join [slash] k) /\ names_dir fs l k p n /\ n_perm n = mode).
Proof.
  intros (l & Hl & Hpath & Hdirs). unfold Set_Mkdir.
  apply hoare_lift; [|done]. intros rel' Hrel. apply hoare_lift; [|done]. intros [] [_ Hm]%checkMode_ok.
  destruct (safeRel_inside _ _ Hrel) as (d & x & Hdx & ->).
  assert (Hne : d ++ [x] <> []) by (by destruct d).
  rewrite Hpath. eapply hoare_try; [by apply OpenRoot_spec| |done].
  intros root. destruct (decide (root = l)) as [->|]; [|by apply hoare_false; intros fs [_ ?]; auto].
  eapply hoare_try with (R := fun r fs => r = Ok tt -> exists p n, names_dir fs l (d ++ [x]) p n); [| |done].
  - unfold Root_MkdirAll. rewrite IsAbs_join by auto with go. rewrite components_join by auto with go.
    eapply hoare_conseq; [by apply (mkdir_all_spec _ _ _ _ [])| |done].
    intros fs _ Hnil. by destruct d.
  - intros []. apply hoare_syscall; [|done]. intros fs [] fs' Hn Hc _. inv_ok.
    destruct (Hn eq_refl) as (p & n & Hw & Hp & Hk). rewrite root_resolve_join, Hw in Hstep by done.
    injection Hstep as <-. split; [done|]. exists l, (d ++ [x]), p, (set_perm mode n).
    split_and!; [done|done|done| |done]. split_and!; [|by rewrite lookup_alter_eq, Hp|done].
    erewrite walk_ext; [exact Hw|]. intros q. apply set_perm_look.
Qed.

(** A privileged mkdir does what was asked and stays in the profile: nothing
    outside the profile's directory changes, whatever is reported, and on success
    the named path is an existing directory with exactly the granted mode, whether
    it was there before or not and whatever the umask is. *)
Theorem Set_Mkdir_correct w profile rel mode :
  physical_dir (w_fs w) (pr_Path profile) ->
  exists l, pr_Path profile = abs_path l /\
    (forall p, ~ l `prefix_of` p -> w_fs (Set_Mkdir profile rel mode w).2 !! p = w_fs w !! p) /\
    ((Set_Mkdir profile rel mode w).1 = Ok tt -> mode ∈ pr_Modes profile /\
       exists k p n, safeRel rel = Ok (join [slash] k) /\
         names_dir (w_fs (Set_Mkdir profile rel mode w).2) l k p n /\ n_perm n = mode).
Proof.
  intros Hd. destruct (Set_Mkdir_spec (w_euid w) _ _ rel mode Hd w eq_refl eq_refl) as [_ H].
  destruct Hd as (l & Hl & Hpath & Hdirs). exists l. split; [done|]. split.
  - by apply Set_Mkdir_outside.
  - intros Hr. destruct (H Hr) as (Hm & l' & k & p & n & Hp' & Hl' & ? & ? & ?). split; [done|].
    exists k, p, n. assert (l' = l) as ->; [|done].
    rewrite Hpath in Hl'. symmetry. revert Hl'. apply abs_path_inj; auto with go.
Qed.

(** ** The theorems at work on a small tree *)

Definition demo_fs : fsys :=
  list_to_map [([], Node CDir 493 0); ([$"etc"], Node CDir 493 0);
    ([$"etc"; $"priv.toml"], Node (CFile []) 384 0);
    ([$"srv"], Node CDir 493 0); ([$"srv"; $"web"], Node CDir 493 0);
    ([$"srv"; $"web"; $"old"], Node (CFile ($"x")) 420 0);
    ([$"srv"; $"web"; $"out"], Node (CLink ($"/etc")) 511 0)].
Definition demo_world : world := World demo_fs 18 0 id [].
Definition demo_profile : Profile := mkProfile ($"web") ($"/srv/web") {[420; 493]}.

Lemma demo_dir : physical_dir (w_fs demo_world) (pr_Path demo_profile).
Proof.
  exists [$"srv"; $"web"]. split_and!; [|done|].
  - repeat constructor; by apply (bool_decide_unpack _).
  - apply (dirs_to_snoc _ [$"srv"]); [apply (dirs_to_snoc _ []); [apply dirs_to_nil|]|]; by vm_compute.
Defined.
Lemma demo_wf : fs_wf (w_fs demo_world).
Proof. apply fs_wf_check. by vm_compute. Qed.

Lemma Set_Write_atomic_witness :
  (Set_Write None 7 demo_profile ($"a/../index.html") 420 ($"hi") demo_world).1 = Ok tt /\
  match Set_Write None 7 demo_profile ($"a/../index.html") 420 ($"hi") demo_world with
  | (Ok _, w') => 420 ∈ allowedModeSet /\ 420 ∈ pr_Modes demo_profile /\
      Z.of_nat (List.length ($"hi")) <= MaxContentBytes /\
      written (w_fs demo_world) demo_profile ($"a/../index.html")
        (Node (CFile ($"hi")) 420 (w_euid demo_world)) (w_fs w')
  | (Err _, w') => not_written (w_fs demo_world) demo_profile (tempName None 7) (w_fs w')
  end.
Proof. split; [by vm_compute|]. apply Set_Write_atomic; [apply demo_wf|apply demo_dir]. Defined.

Lemma Set_Remove_exact_witness :
  (Set_Remove demo_profile ($"out") demo_world).1 = Ok tt /\
  match Set_Remove demo_profile ($"out") demo_world with
  | (Ok _, w') => exists l d x q n,
      pr_Path demo_profile = abs_path l /\ Forall proper (d ++ [x]) /\
      safeRel ($"out") = Ok (join [slash] (d ++ [x])) /\
      walk (look_in (w_fs demo_world) l) true LDir rootMaxSymlinks [] d = Ok q /\
      w_fs demo_world !! (l ++ q ++ [x]) = Some n /\ n_kind n <> CDir /\
      w_fs w' = delete (l ++ q ++ [x]) (w_fs demo_world)
  | (Err _, w') => w_fs w' = w_fs demo_world
  end.
Proof. split; [by vm_compute|]. apply Set_Remove_exact, demo_dir. Defined.

Lemma Set_Mkdir_correct_witness :
  (Set_Mkdir demo_profile ($"a/b") 493 demo_world).1 = Ok tt /\
  exists l, pr_Path demo_profile = abs_path l /\
    (forall p, ~ l `prefix_of` p ->
       w_fs (Set_Mkdir demo_profile ($"a/b") 493 demo_world).2 !! p = w_fs demo_world !! p) /\
    ((Set_Mkdir demo_profile ($"a/b") 493 demo_world).1 = Ok tt -> 493 ∈ pr_Modes demo_profile /\
       exists k p n, safeRel ($"a/b") = Ok (join [slash] k) /\
         names_dir (w_fs (Set_Mkdir demo_profile ($"a/b") 493 demo_world).2) l k p n /\ n_perm n = 493).
Proof. split; [by vm_compute|]. apply Set_Mkdir_correct, demo_dir. Defined.

Definition demo_unicode : Unicode := {| unicode_ToLower := id; unicode_Quote := id |}.
Definition demo_decode (bytes : str) : res fileConfig :=
  Ok (mkFileConfig [mkProfileEntry ($"web") ($"/srv/web") [$"0644"]]
        [mkUnitEntry ($"nginx.service") [$"restart"]] None None).
Definition demo_set : PSet :=
  mkSet {[ $"web" := mkProfile ($"web") ($"/srv/web") {[420]} ]}
        {[ $"nginx.service" := mkUnitGrant ($"nginx.service") {[ $"restart" ]} ]} None None.

Lemma LoadSet_sound_witness :
  exists s, w_fs (LoadSet (H := demo_unicode) demo_decode ($"/etc/priv.toml") true demo_world).2 = demo_fs /\
    set_ok demo_fs s /\
    exists p n, os_resolve demo_fs LNoFollow ($"/etc/priv.toml") = Ok p /\ demo_fs !! p = Some n /\
      is_regular n = true /\ Z.land (n_perm n) 18 = 0 /\ (true = true -> n_uid n = 0).
Proof.
  exists demo_set. apply (LoadSet_sound (H := demo_unicode) demo_decode ($"/etc/priv.toml") true demo_world).
  vm_compute. reflexivity.
Defined.
