(* ===== verification/PrivCli.v ===== *)
(** * PrivCli: internal/privfs/cli.go

    The helper's command line: argument parsing, the runners, the mapping to
    exit codes and the audit records. What one invocation prints and runs is a
    list of events; the external command itself ([exec_Run]), the TOML decoder,
    the digest and what standard input delivers are parameters. *)

From S2P Require Import Prelude GoStr Regex GoPath GoOS GoOSFacts PrivPackages PrivFirewall PrivSet PrivSetFacts.

Record Action := mkAction {
  Command : str;
  Verb : str;
  a_Profile : str;
  Rel : str;
  Mode : str;
  Unit : str;
  Package : str;
  Port : str;
  Protocol : str;
  Source : str;
  RuleAction : str;
  ConfigPath : str;
  User : str;
}.

(** ** Arguments *)

Definition usageErrorf (format : string) (args : list farg) : error := UsageError format args.

(** The action of each command, the fields it does not use left empty. *)
Definition plain_action (command user cfg : str) : Action :=
  mkAction command [] [] [] [] [] [] [] [] [] [] cfg user.
Definition package_action (verb name cfg : str) : Action :=
  mkAction ($"packages") verb [] [] [] [] name [] [] [] [] cfg [].
Definition firewall_action (verb action port protocol source cfg : str) : Action :=
  mkAction ($"firewall") verb [] [] [] [] [] port protocol source action cfg [].
Definition systemd_action (verb unit cfg : str) : Action :=
  mkAction ($"systemd") verb [] [] [] unit [] [] [] [] [] cfg [].
Definition fs_action (verb profile rel mode cfg : str) : Action :=
  mkAction ($"fs") verb profile rel mode [] [] [] [] [] [] cfg [].

Definition blank (s : str) : bool := bool_decide (TrimSpace s = []).

Definition parse_packages (cfg : str) (operands : list str) : res Action :=
  match operands with
  | [] => Err (usageErrorf "packages requires an operation (%s)" [FStr PackageVerbs])
  | verb :: rest =>
      if bool_decide (verb = $"refresh") || bool_decide (verb = $"upgrade") then
        match rest with
        | [] => Ok (package_action verb [] cfg)
        | _ => Err (usageErrorf "packages %s takes no package name" [FStr verb])
        end
      else if bool_decide (verb = $"install") || bool_decide (verb = $"remove") then
        match rest with
        | [name] =>
            if blank name then Err (usageErrorf "the package name must not be empty" [])
            else Ok (package_action verb name cfg)
        | _ => Err (usageErrorf "packages %s takes <name>" [FStr verb])
        end
      else Err (usageErrorf "unknown packages operation %q (one of: %s)" [FStr verb; FStr PackageVerbs])
  end.

Definition parse_firewall (cfg : str) (operands : list str) : res Action :=
  match operands with
  | [] => Err (usageErrorf "firewall requires an operation (%s)" [FStr FirewallVerbs])
  | verb :: rest =>
      if bool_decide (verb = $"enable") || bool_decide (verb = $"disable") then
        match rest with
        | [] => Ok (firewall_action verb [] [] [] [] cfg)
        | _ => Err (usageErrorf "firewall %s takes no arguments" [FStr verb])
        end
      else if bool_decide (verb = $"allow") || bool_decide (verb = $"deny") then
        match rest with
        | [port; protocol; source] => Ok (firewall_action verb [] port protocol source cfg)
        | _ => Err (usageErrorf "firewall %s takes <port> <protocol> <source>" [FStr verb])
        end
      else if bool_decide (verb = $"delete") then
        match rest with
        | [action; port; protocol; source] => Ok (firewall_action verb action port protocol source cfg)
        | _ => Err (usageErrorf "firewall delete takes <action> <port> <protocol> <source>" [])
        end
      else Err (usageErrorf "unknown firewall operation %q (one of: %s)" [FStr verb; FStr FirewallVerbs])
  end.

Definition parse_systemd (cfg : str) (operands : list str) : res Action :=
  match operands with
  | [verb; unit] =>
      if blank unit then Err (usageErrorf "the unit name must not be empty" [])
      else if negb (validSystemdVerb verb) then
        Err (usageErrorf "verb %q is not one of: %s" [FStr verb; FStr SystemdVerbs])
      else Ok (systemd_action verb unit cfg)
  | _ => Err (usageErrorf "systemd takes <verb> <unit>" [])
  end.

Definition parse_fs (cfg : str) (operands : list str) : res Action :=
  match operands with
  | [] => Err (usageErrorf "fs requires an operation (write, mkdir, remove, profiles)" [])
  | verb :: rest =>
      if bool_decide (verb = $"profiles") then
        match rest with
        | [] => Ok (fs_action verb [] [] [] cfg)
        | _ => Err (usageErrorf "fs profiles takes no arguments" [])
        end
      else
        let? action :=
          if bool_decide (verb = $"write") || bool_decide (verb = $"mkdir") then
            match rest with
            | [profile; rel; mode] => Ok (fs_action verb profile rel mode cfg)
            | _ => Err (usageErrorf "fs %s takes <profile> <relative-path> <mode>" [FStr verb])
            end
          else if bool_decide (verb = $"remove") then
            match rest with
            | [profile; rel] => Ok (fs_action verb profile rel [] cfg)
            | _ => Err (usageErrorf "fs remove takes <profile> <relative-path>" [])
            end
          else Err (usageErrorf "unknown fs operation %q" [FStr verb]) in
        if blank (a_Profile action) then Err (usageErrorf "the profile name must not be empty" [])
        else if blank (Rel action) then Err (usageErrorf "the relative path must not be empty" [])
        else Ok action
  end.

(** The arguments after an optional leading [--config <path>]. *)
Definition parse_command (cfg : str) (argv : list str) : res Action :=
  match list_find (fun arg => HasPrefix arg ($"-") = true) argv with
  | Some (_, arg) => Err (usageErrorf "unknown option %q" [FStr arg])
  | None =>
      match argv with
      | [] => Err (usageErrorf "a command is required" [])
      | command :: operands =>
          if bool_decide (command = $"version") then
            match operands with
            | [] => Ok (plain_action command [] cfg)
            | _ => Err (usageErrorf "version takes no arguments" [])
            end
          else if bool_decide (command = $"sudoers") then
            match operands with
            | [] => Ok (plain_action command ($"maidcafe") cfg)
            | [user] =>
                if blank user then Err (usageErrorf "the account name must not be empty" [])
                else Ok (plain_action command user cfg)
            | _ => Err (usageErrorf "sudoers takes at most one account name" [])
            end
          else if bool_decide (command = $"packages") then parse_packages cfg operands
          else if bool_decide (command = $"firewall") then parse_firewall cfg operands
          else if bool_decide (command = $"systemd") then parse_systemd cfg operands
          else if bool_decide (command = $"fs") then parse_fs cfg operands
          else Err (usageErrorf "unknown command %q" [FStr command])
      end
  end.

Definition ParseArgs (argv : list str) : res Action :=
  match argv with
  | [] => Err (usageErrorf "a command is required (fs, sudoers, version)" [])
  | first :: rest =>
      if bool_decide (first = $"--config") then
        match rest with
        | [] => Err (usageErrorf "--config requires a path" [])
        | path :: rest =>
            if blank path then Err (usageErrorf "--config requires a path" [])
            else
              match rest with
              | [] => Err (usageErrorf "a command is required after --config" [])
              | _ => parse_command path rest
              end
        end
      else parse_command DefaultConfigPath argv
  end.

(** ** What an invocation leaves behind *)

Record Env := mkEnv { EUID : Z; Invoker : str; InvokerUID : str }.

(** The audit record; [writeEntry] adds the time and the event name. *)
Record Entry := mkEntry {
  e_Verb : str; e_Profile : str; e_Unit : str; e_Package : str; e_Manager : str;
  e_Backend : str; e_Rule : str; e_Path : str; e_Mode : str; e_Bytes : Z; e_Digest : str;
  e_OK : bool; e_Error : option error; e_EUID : Z; e_Invoker : str; e_InvokerID : str;
}.
Definition fs_entry (verb profile path mode : str) (bytes : Z) (digest : str) : Entry :=
  mkEntry verb profile [] [] [] [] [] path mode bytes digest false None 0 [] [].
Definition unit_entry (verb unit : str) : Entry :=
  mkEntry verb [] unit [] [] [] [] [] [] 0 [] false None 0 [] [].
Definition package_entry (verb package manager : str) : Entry :=
  mkEntry verb [] [] package manager [] [] [] [] 0 [] false None 0 [] [].
Definition firewall_entry (verb backend rule : str) : Entry :=
  mkEntry verb [] [] [] [] backend rule [] [] 0 [] false None 0 [] [].
Definition set_outcome (ok : bool) (err : option error) (euid : Z) (invoker invokerID : str) (e : Entry) : Entry :=
  mkEntry (e_Verb e) (e_Profile e) (e_Unit e) (e_Package e) (e_Manager e) (e_Backend e) (e_Rule e)
    (e_Path e) (e_Mode e) (e_Bytes e) (e_Digest e) ok err euid invoker invokerID.
(** [OK: false, Error: ..., EUID: ...]. *)
Definition refused (env : Env) (err : error) (e : Entry) : Entry :=
  set_outcome false (Some err) (EUID env) [] [] e.
(** The same with the invoker. *)
Definition failed (env : Env) (err : error) (e : Entry) : Entry :=
  set_outcome false (Some err) (EUID env) (Invoker env) (InvokerUID env) e.
Definition succeeded (env : Env) (e : Entry) : Entry :=
  set_outcome true None (EUID env) (Invoker env) (InvokerUID env) e.

(** Lines on the two output streams, audit records, and commands that ran. *)
Inductive event :=
  | Stdout (format : string) (args : list farg)
  | Stderr (format : string) (args : list farg)
  | Audit (entry : Entry)
  | Exec (argv extraEnv : list str).

(** [fmt.Fprintf(stderr, "maidkit-priv: %v\n", err)] *)
Definition complain (err : error) : event := Stderr "maidkit-priv: %v" [FErr err].
Definition must_be_root : event :=
  Stderr "maidkit-priv: must run as root (install the sudoers rule printed by `maidkit-priv sudoers`)" [].
(** Report, audit, exit. *)
Definition stop (err : error) (entry : Entry) (code : Z) : list event * Z :=
  ([complain err; Audit entry], code).

Definition refuse (env : Env) (action : Action) (err : error) : list event * Z :=
  stop err (refused env err (fs_entry (Verb action) (a_Profile action) (Rel action) (Mode action) 0 [])) ExitRefused.
(** The test for [fs.ErrPermission] assigns the code it already has. *)
Definition fail_ (env : Env) (action : Action) (err : error) (bytes : Z) : list event * Z :=
  let code := ExitIO in
  let code := match err with Errno EACCES | Errno EPERM => ExitIO | _ => code end in
  stop err (failed env err (fs_entry (Verb action) (a_Profile action) (Rel action) (Mode action) bytes [])) code.

(** What [exec.Cmd.Run] returns: nil, an [*exec.ExitError] with its exit code
    (-1 for a signal), or another error. *)
Inductive run_result :=
  | RunOk
  | RunExit (code : Z) (err : error)
  | RunFailed (err : error).

Definition externalExitCode (r : run_result) : Z :=
  match r with
  | RunOk => ExitOK
  | RunExit code _ => if (ExitUsage <=? code) && (code <=? ExitConfigBad) then ExitIO else code
  | RunFailed _ => ExitIO
  end.

Definition nl : str := [byte 10].
Definition SudoersRule (user helperPath : str) : str :=
  $"# MaidCafe privileged helper. Every command resolves what it may touch" ++ nl ++
  $"# against " ++ DefaultConfigPath ++ $", which must stay root-owned and" ++ nl ++
  $"# unwritable by anyone else: that file, not this rule, is the boundary." ++ nl ++
  concat ((fun verb => user ++ $" ALL=(root) NOPASSWD: " ++ helperPath ++ $" fs " ++ verb ++ $" *" ++ nl)
            <$> [$"write"; $"mkdir"; $"remove"]) ++
  user ++ $" ALL=(root) NOPASSWD: " ++ helperPath ++ $" systemd *" ++ nl ++
  user ++ $" ALL=(root) NOPASSWD: " ++ helperPath ++ $" packages *" ++ nl ++
  user ++ $" ALL=(root) NOPASSWD: " ++ helperPath ++ $" firewall *" ++ nl.

(** ** The runners *)

Section runners.
Context `{Unicode}.
Variable viper_decode : str -> res fileConfig.
(** [command.Run()] of argv with extra environment. *)
Variable exec_Run : list str -> list str -> M run_result.
Variable Digest : str -> str.
Variable Version : str.
(** What reading standard input to its end gives, and the randomness and clock
    of the temporary name. *)
Variable stdin : res str.
Variable (rnd : option str) (now : Z).

Fixpoint runExternal (commands : list (list str)) (extraEnv : list str) (env : Env) (entry : Entry)
    : M (list event * Z) :=
  match commands with
  | [] => ret ([Audit (succeeded env entry)], ExitOK)
  | argv :: commands =>
      do r := exec_Run argv extraEnv in
      match r with
      | RunOk =>
          do out := runExternal commands extraEnv env entry in
          ret (Exec argv extraEnv :: out.1, out.2)
      | RunExit _ err | RunFailed err =>
          ret ([Exec argv extraEnv; Audit (failed env err entry)], externalExitCode r)
      end
  end.

Definition runSystemd (action : Action) (env : Env) : M (list event * Z) :=
  if negb (EUID env =? 0) then ret ([must_be_root], ExitNotRoot)
  else
    let entry := unit_entry (Verb action) (Unit action) in
    do loaded := LoadSet viper_decode (ConfigPath action) true in
    match loaded with
    | Err err => ret (stop err (refused env err entry) ExitConfigBad)
    | Ok set =>
        match Set_LookupUnit set (Unit action) with
        | Err err => ret (stop err (refused env err entry) ExitRefused)
        | Ok grant =>
            do argv := UnitGrant_SystemdArgv grant (Verb action) in
            match argv with
            | Err err => ret (stop err (refused env err entry) ExitRefused)
            | Ok argv => runExternal [argv] [] env entry
            end
        end
    end.

(** [argv[0] = path]; indexing an empty vector panics. *)
Definition resolve_argv (find : str -> M (res str)) (argv : list str) : M (res (list str)) :=
  match argv with
  | [] => ret (Err (Foreign "panic: index out of range" []))
  | binary :: args => let* path := find binary in ret (Ok (path :: args))
  end.

Definition runPackages (action : Action) (env : Env) : M (list event * Z) :=
  if negb (EUID env =? 0) then ret ([must_be_root], ExitNotRoot)
  else
    do loaded := LoadSet viper_decode (ConfigPath action) true in
    match loaded with
    | Err err => ret (stop err (refused env err (package_entry (Verb action) (Package action) [])) ExitConfigBad)
    | Ok set =>
        match packages set with
        | None =>
            let err := Errorf "no [packages] grant is configured in %s" [FStr (ConfigPath action)] in
            ret (stop err (refused env err (package_entry (Verb action) (Package action) [])) ExitRefused)
        | Some grant =>
            let entry := package_entry (Verb action) (Package action) (pg_Manager grant) in
            match PackageGrant_PackageArgv grant (Verb action) (Package action) with
            | Err err => ret (stop err (refused env err entry) ExitRefused)
            | Ok argv =>
                do resolved := resolve_argv FindManager argv in
                match resolved with
                | Err err => ret (stop err (refused env err entry) ExitRefused)
                | Ok argv => runExternal [argv] (PackageEnv (pg_Manager grant)) env entry
                end
            end
        end
    end.

Fixpoint resolve_all (commands : list (list str)) : M (res (list (list str))) :=
  match commands with
  | [] => ret (Ok [])
  | argv :: commands =>
      let* argv := resolve_argv FindFirewallBinary argv in
      let* rest := resolve_all commands in
      ret (Ok (argv :: rest))
  end.

(** Whether a firewall verb carries a rule, and the zero [FirewallRule]. *)
Definition rule_verb (verb : str) : bool :=
  bool_decide (verb = $"allow") || bool_decide (verb = $"deny") || bool_decide (verb = $"delete").
Definition no_rule : FirewallRule := mkFirewallRule [] [] [] [].

Definition runFirewall (action : Action) (env : Env) : M (list event * Z) :=
  if negb (EUID env =? 0) then ret ([must_be_root], ExitNotRoot)
  else
    do loaded := LoadSet viper_decode (ConfigPath action) true in
    match loaded with
    | Err err => ret (stop err (refused env err (firewall_entry (Verb action) [] [])) ExitConfigBad)
    | Ok set =>
        match firewall set with
        | None =>
            let err := Errorf "no [firewall] grant is configured in %s" [FStr (ConfigPath action)] in
            ret (stop err (refused env err (firewall_entry (Verb action) [] [])) ExitRefused)
        | Some grant =>
            let parsed :=
              if rule_verb (Verb action) then
                let ruleAction := if bool_decide (Verb action = $"delete") then RuleAction action else Verb action in
                let? rule := ParseFirewallRule ruleAction (Port action) (Protocol action) (Source action) in
                Ok (rule, FirewallRule_String rule)
              else Ok (no_rule, []) in
            match parsed with
            | Err err =>
                ret (stop err (refused env err (firewall_entry (Verb action) (fg_Backend grant) [])) ExitRefused)
            | Ok (rule, text) =>
                let entry := firewall_entry (Verb action) (fg_Backend grant) text in
                match FirewallGrant_FirewallCommands grant (Verb action) rule with
                | Err err => ret (stop err (refused env err entry) ExitRefused)
                | Ok commands =>
                    do resolved := resolve_all commands in
                    match resolved with
                    | Err err => ret (stop err (refused env err entry) ExitRefused)
                    | Ok commands => runExternal commands [] env entry
                    end
                end
            end
        end
    end.

Definition runProfiles (action : Action) (env : Env) : M (list event * Z) :=
  do loaded := LoadSet viper_decode (ConfigPath action) (EUID env =? 0) in
  match loaded with
  | Err err => ret ([complain err], ExitConfigBad)
  | Ok set =>
      let profiles := omap (fun name =>
        match Set_Lookup set name with
        | Ok p => Some (Stdout "profile\t%s\t%s\t%s"
                    [FStr (pr_Name p); FStr (pr_Path p); FStr (Profile_modeList p)])
        | Err _ => None
        end) (Set_Names set) in
      let pk := match packages set with
        | Some g => [Stdout "packages\t%s\tservice\t%s" [FStr (pg_Manager g); FStr (PackageGrant_verbList g)]]
        | None => [] end in
      let fw := match firewall set with
        | Some g => [Stdout "firewall\t%s\tservice\t%s" [FStr (fg_Backend g); FStr (FirewallGrant_verbList g)]]
        | None => [] end in
      let us := omap (fun unit =>
        match Set_LookupUnit set unit with
        | Ok g => Some (Stdout "systemd\t%s\t%s" [FStr (ug_Unit g); FStr (join ($",") (sorted_keys (ug_Verbs g)))])
        | Err _ => None
        end) (Set_GrantedUnits set) in
      ret (profiles ++ pk ++ fw ++ us, ExitOK)
  end.

(** [io.ReadAll(io.LimitReader(stdin, MaxContentBytes+1))] *)
Definition read_stdin : res str :=
  let? data := stdin in Ok (take (Z.to_nat (MaxContentBytes + 1)) data).

(** The three mutating operations of [fs], once the profile is known. *)
Definition runFs (set : PSet) (profile : Profile) (action : Action) (env : Env) : M (list event * Z) :=
  let done (mode : str) (bytes : Z) (digest : str) :=
    ([Audit (succeeded env (fs_entry (Verb action) (pr_Name profile) (Rel action) mode bytes digest))], ExitOK) in
  if bool_decide (Verb action = $"write") then
    match ParseMode (Mode action) with
    | Err err => ret (refuse env action err)
    | Ok mode =>
        match read_stdin with
        | Err err =>
            ret ([Stderr "maidkit-priv: read standard input: %v" [FErr err];
                  Audit (refused env err (fs_entry (Verb action) (pr_Name profile) (Rel action) [] 0 []))], ExitIO)
        | Ok data =>
            let len := Z.of_nat (List.length data) in
            if MaxContentBytes <? len then
              ret (refuse env action (Errorf "content is over the %d-byte limit" [FInt MaxContentBytes]))
            else
              do w := Set_Write rnd now profile (Rel action) mode data in
              match w with
              | Err err => ret (fail_ env action err len)
              | Ok _ => ret (done (Mode action) len (Digest data))
              end
        end
    end
  else if bool_decide (Verb action = $"mkdir") then
    match ParseMode (Mode action) with
    | Err err => ret (refuse env action err)
    | Ok mode =>
        do r := Set_Mkdir profile (Rel action) mode in
        match r with
        | Err err => ret (fail_ env action err 0)
        | Ok _ => ret (done (Mode action) 0 [])
        end
    end
  else if bool_decide (Verb action = $"remove") then
    do r := Set_Remove profile (Rel action) in
    match r with
    | Err err => ret (fail_ env action err 0)
    | Ok _ => ret (done [] 0 [])
    end
  else ret ([Stderr "maidkit-priv: unknown fs operation %q" [FStr (Verb action)]], ExitUsage).

Definition usage_lines : list event :=
  [Stderr "usage: maidkit-priv [--config <path>] fs write|mkdir|remove <profile> <relative-path> [mode]" [];
   Stderr "       maidkit-priv [--config <path>] systemd <verb> <unit>" [];
   Stderr "       maidkit-priv [--config <path>] packages <operation> [name]" [];
   Stderr "       maidkit-priv [--config <path>] firewall <operation> [...rule]" []].

Definition Run (argv : list str) (env : Env) : M (list event * Z) :=
  match ParseArgs argv with
  | Err err => ret (complain err :: usage_lines, ExitUsage)
  | Ok action =>
      let isc c := bool_decide (Command action = c) in
      if isc ($"version") then ret ([Stdout "%s" [FStr Version]], ExitOK)
      else if isc ($"sudoers") then
        ret ([Stdout "%s" [FStr (SudoersRule (User action) DefaultHelperPath)]], ExitOK)
      else if isc ($"systemd") then runSystemd action env
      else if isc ($"packages") then runPackages action env
      else if isc ($"firewall") then runFirewall action env
      else if bool_decide (Verb action = $"profiles") then runProfiles action env
      else if negb (EUID env =? 0) then ret ([must_be_root], ExitNotRoot)
      else
        let entry := fs_entry (Verb action) (a_Profile action) [] [] 0 [] in
        do loaded := LoadSet viper_decode (ConfigPath action) true in
        match loaded with
        | Err err => ret (stop err (refused env err entry) ExitConfigBad)
        | Ok set =>
            match Set_Lookup set (a_Profile action) with
            | Err err => ret (stop err (refused env err entry) ExitRefused)
            | Ok profile => runFs set profile action env
            end
        end
  end.
End runners.
