(* ===== verification/PrivCliFacts.v ===== *)
(** * PrivCliFacts: what one invocation of the helper can do

    The accepted command lines, the authority needed to run anything, where the
    file operations act, the exit codes and the audit trail. *)

From S2P Require Import Prelude GoStr Regex GoPath GoOS GoOSFacts PrivPackages PrivFirewall PrivSet PrivSetFacts PrivCli.

(** ** The command surface *)

(** The documented forms, with the action each one means. *)
Inductive form (cfg : str) : list str -> Action -> Prop :=
  | form_version : form cfg [$"version"] (plain_action ($"version") [] cfg)
  | form_sudoers : form cfg [$"sudoers"] (plain_action ($"sudoers") ($"maidcafe") cfg)
  | form_sudoers_user user : blank user = false ->
      form cfg [$"sudoers"; user] (plain_action ($"sudoers") user cfg)
  | form_profiles : form cfg [$"fs"; $"profiles"] (fs_action ($"profiles") [] [] [] cfg)
  | form_fs_mode verb profile rel mode : verb ∈ [$"write"; $"mkdir"] ->
      blank profile = false -> blank rel = false ->
      form cfg [$"fs"; verb; profile; rel; mode] (fs_action verb profile rel mode cfg)
  | form_fs_remove profile rel : blank profile = false -> blank rel = false ->
      form cfg [$"fs"; $"remove"; profile; rel] (fs_action ($"remove") profile rel [] cfg)
  | form_systemd verb unit : verb ∈ allowedSystemdVerbs -> blank unit = false ->
      form cfg [$"systemd"; verb; unit] (systemd_action verb unit cfg)
  | form_packages_all verb : verb ∈ [$"refresh"; $"upgrade"] ->
      form cfg [$"packages"; verb] (package_action verb [] cfg)
  | form_packages_one verb name : verb ∈ [$"install"; $"remove"] -> blank name = false ->
      form cfg [$"packages"; verb; name] (package_action verb name cfg)
  | form_firewall_toggle verb : verb ∈ [$"enable"; $"disable"] ->
      form cfg [$"firewall"; verb] (firewall_action verb [] [] [] [] cfg)
  | form_firewall_rule verb port protocol source : verb ∈ [$"allow"; $"deny"] ->
      form cfg [$"firewall"; verb; port; protocol; source] (firewall_action verb [] port protocol source cfg)
  | form_firewall_delete action port protocol source :
      form cfg [$"firewall"; $"delete"; action; port; protocol; source]
        (firewall_action ($"delete") action port protocol source cfg).

Definition no_option (arg : str) : Prop := HasPrefix arg ($"-") = false.

Local Ltac operands H :=
  repeat (match type of H with
          | context [match ?l with [] => _ | _ :: _ => _ end] => is_var l; destruct l; try discriminate H
          end).

Section forms.
Variable cfg : str.

Lemma parse_packages_form ops a : parse_packages cfg ops = Ok a -> form cfg ($"packages" :: ops) a.
Proof.
  unfold parse_packages. intros H. destruct ops as [|verb ops]; [done|].
  destruct (_ || _) eqn:E1 in H.
  - operands H. injection H as <-. apply form_packages_all.
    apply orb_true_iff in E1 as [E|E]; bools; subst; set_solver.
  - destruct (_ || _) eqn:E2 in H; [|done]. operands H. destruct (blank _) eqn:Eb; [done|].
    injection H as <-. apply form_packages_one; [|done].
    apply orb_true_iff in E2 as [E|E]; bools; subst; set_solver.
Qed.

Lemma parse_firewall_form ops a : parse_firewall cfg ops = Ok a -> form cfg ($"firewall" :: ops) a.
Proof.
  unfold parse_firewall. intros H. destruct ops as [|verb ops]; [done|].
  destruct (_ || _) eqn:E1 in H; [|destruct (_ || _) eqn:E2 in H; [|case_bool_decide; [subst|done]]];
    operands H; injection H as <-.
  - apply form_firewall_toggle. apply orb_true_iff in E1 as [E|E]; bools; subst; set_solver.
  - apply form_firewall_rule. apply orb_true_iff in E2 as [E|E]; bools; subst; set_solver.
  - apply form_firewall_delete.
Qed.

Lemma parse_systemd_form ops a : parse_systemd cfg ops = Ok a -> form cfg ($"systemd" :: ops) a.
Proof.
  unfold parse_systemd. intros H. operands H. destruct (blank _) eqn:Eb; [done|].
  destruct (validSystemdVerb _) eqn:Ev; [|done]. injection H as <-.
  apply form_systemd; [|done]. unfold validSystemdVerb in Ev. by bools.
Qed.

Lemma parse_fs_form ops a : parse_fs cfg ops = Ok a -> form cfg ($"fs" :: ops) a.
Proof.
  unfold parse_fs. intros H. destruct ops as [|verb ops]; [done|].
  case_bool_decide as Ep; [subst; operands H; injection H as <-; constructor|].
  inv_ok. destruct (blank (a_Profile _)) eqn:Eb1 in H; [done|].
  destruct (blank (Rel _)) eqn:Eb2 in H; [done|]. injection H as <-.
  destruct (_ || _) eqn:E1 in Hstep; [|case_bool_decide; [subst|done]]; operands Hstep;
    injection Hstep as <-; simpl in Eb1, Eb2.
  - apply form_fs_mode; [|done|done]. apply orb_true_iff in E1 as [E|E]; bools; subst; set_solver.
  - by apply form_fs_remove.
Qed.

Lemma parse_command_form argv a : parse_command cfg argv = Ok a -> Forall no_option argv /\ form cfg argv a.
Proof.
  unfold parse_command. destruct (list_find _ argv) as [[i arg]|] eqn:Ef; [done|].
  apply list_find_None in Ef. intros H. split.
  { eapply Forall_impl; [exact Ef|]. intros x Hx. by apply not_true_iff_false in Hx. }
  destruct argv as [|command ops]; [done|].
  case_bool_decide; [subst; operands H; injection H as <-; constructor|].
  case_bool_decide; [subst|].
  { operands H; [injection H as <-; constructor|]. destruct (blank _) eqn:Eb; [done|].
    injection H as <-. by constructor. }
  case_bool_decide; [subst; by apply parse_packages_form|].
  case_bool_decide; [subst; by apply parse_firewall_form|].
  case_bool_decide; [subst; by apply parse_systemd_form|].
  case_bool_decide; [subst; by apply parse_fs_form|done].
Qed.

Lemma form_parse_command argv a : Forall no_option argv -> form cfg argv a -> parse_command cfg argv = Ok a.
Proof.
  intros Hn Hf. unfold parse_command.
  assert (El : list_find (fun arg => HasPrefix arg ($"-") = true) argv = None).
  { apply list_find_None. eapply Forall_impl; [exact Hn|]. intros x Hx. by rewrite Hx. }
  rewrite El. clear El Hn.
  destruct Hf; try each_elem H; try done; cbn [bool_decide];
    repeat match goal with
    | |- context [bool_decide (?x = ?y)] =>
        first [rewrite (bool_decide_eq_true_2 (x = y)) by done|rewrite (bool_decide_eq_false_2 (x = y)) by done]
    end; cbn [orb]; unfold parse_packages, parse_firewall, parse_systemd, parse_fs, validSystemdVerb;
    repeat match goal with
    | |- context [bool_decide (?x = ?y)] =>
        first [rewrite (bool_decide_eq_true_2 (x = y)) by done|rewrite (bool_decide_eq_false_2 (x = y)) by done]
    | H : blank ?x = false |- context [blank ?x] => rewrite H
    end; try done.
  4: by rewrite bool_decide_eq_true_2.
  all: cbn [orb res_bind a_Profile Rel fs_action];
    repeat match goal with Hb : blank ?x = false |- context [blank ?x] => rewrite Hb end; done.
Qed.
End forms.

(** The command line is exactly the documented one: [ParseArgs] accepts an
    argument vector precisely when it is one of the documented forms, optionally
    preceded by [--config] and a non-blank path, and no argument after that starts
    with a dash; the action it returns is the one the form means. Every extra,
    missing or reordered argument, and every option in the middle, is refused. *)
Theorem ParseArgs_exact argv a :
  (ParseArgs argv = Ok a) <->
  exists cfg cmd,
    (argv = cmd /\ cfg = DefaultConfigPath \/ argv = $"--config" :: cfg :: cmd /\ blank cfg = false) /\
    Forall no_option cmd /\ form cfg cmd a.
Proof.
  unfold ParseArgs. split.
  - destruct argv as [|first rest]; [done|]. case_bool_decide as E.
    + subst. destruct rest as [|path rest]; [done|]. destruct (blank path) eqn:Eb; [done|].
      destruct rest as [|c rest]; [done|]. intros [Hn Hf]%parse_command_form. eauto 10.
    + intros [Hn Hf]%parse_command_form. eauto 10.
  - intros (cfg & cmd & [[-> ->]|[-> Hb]] & Hn & Hf).
    + destruct cmd as [|first rest]; [inversion Hf|].
      rewrite bool_decide_eq_false_2; [by apply form_parse_command|].
      intros ->. apply Forall_cons in Hn as [Hn _]. by vm_compute in Hn.
    + rewrite bool_decide_eq_true_2 by done. rewrite Hb.
      destruct cmd as [|c rest]; [inversion Hf|]. by apply form_parse_command.
Qed.

Lemma ParseArgs_exact_witness :
  ParseArgs [$"--config"; $"/x"; $"fs"; $"remove"; $"web"; $"a"]
    = Ok (fs_action ($"remove") ($"web") ($"a") [] ($"/x")) /\
  exists cfg cmd,
    ([$"--config"; $"/x"; $"fs"; $"remove"; $"web"; $"a"] = cmd /\ cfg = DefaultConfigPath \/
     [$"--config"; $"/x"; $"fs"; $"remove"; $"web"; $"a"] = $"--config" :: cfg :: cmd /\ blank cfg = false) /\
    Forall no_option cmd /\ form cfg cmd (fs_action ($"remove") ($"web") ($"a") [] ($"/x")).
Proof.
  split; [vm_compute; reflexivity|]. apply ParseArgs_exact. vm_compute. reflexivity.
Defined.

(** ** What may run *)

Lemma findExecutable_in cs all name w path :
  (findExecutable_loop cs all name w).1 = Ok path -> path ∈ cs.
Proof.
  revert w. induction cs as [|c cs IH]; intros w; simpl; [done|]. unfold bind.
  destruct (os_Stat c w) as [[n|e] w']; [|intros H%IH; by right].
  destruct (_ && _); [intros [= <-]; by left|intros H%IH; by right].
Qed.

(** The first word resolved to one of its fixed candidates. *)
Definition resolved_by (table : gmap str (list str)) (c c' : list str) : Prop :=
  exists bin args path candidates,
    c = bin :: args /\ c' = path :: args /\ table !! bin = Some candidates /\ path ∈ candidates.

Lemma resolve_argv_spec find table c c' w :
  (forall bin w path, (find bin w).1 = Ok path -> exists cs, table !! bin = Some cs /\ path ∈ cs) ->
  (resolve_argv find c w).1 = Ok c' -> resolved_by table c c'.
Proof.
  intros Hf. unfold resolve_argv. destruct c as [|bin args]; [done|]. unfold tryM, bind.
  destruct (find bin w) as [[path|e] w'] eqn:E; [|done]. intros [= <-].
  destruct (Hf bin w path) as (cs & ? & ?); [by rewrite E|]. by exists bin, args, path, cs.
Qed.
Lemma FindManager_in bin w path : (FindManager bin w).1 = Ok path ->
  exists cs, managerPaths !! bin = Some cs /\ path ∈ cs.
Proof. unfold FindManager. destruct (managerPaths !! bin) as [cs|]; [|done]. intros ?%findExecutable_in. eauto. Qed.
Lemma FindFirewallBinary_in bin w path : (FindFirewallBinary bin w).1 = Ok path ->
  exists cs, firewallPaths !! bin = Some cs /\ path ∈ cs.
Proof. unfold FindFirewallBinary. destruct (firewallPaths !! bin) as [cs|]; [|done]. intros ?%findExecutable_in. eauto. Qed.

Lemma resolve_all_spec cmds cmds' w : (resolve_all cmds w).1 = Ok cmds' ->
  Forall2 (resolved_by firewallPaths) cmds cmds'.
Proof.
  revert cmds' w. induction cmds as [|c cmds IH]; intros cmds' w; simpl; [by intros [= <-]; constructor|].
  unfold tryM, bind. destruct (resolve_argv FindFirewallBinary c w) as [[c'|e] w1] eqn:E; [|done].
  destruct (resolve_all cmds w1) as [[rest|e] w2] eqn:E2; [|done]. intros [= <-]. constructor.
  - eapply resolve_argv_spec; [apply FindFirewallBinary_in|]. by rewrite E.
  - eapply IH. by rewrite E2.
Qed.

Section authority.
Context `{Unicode}.

(** The commands a grant file lets one action run. *)
Inductive authorised (s : PSet) (a : Action) : list str -> list str -> Prop :=
  | auth_systemd g path : Command a = $"systemd" -> units s !! Unit a = Some g ->
      Verb a ∈ ug_Verbs g -> path ∈ systemctlPaths ->
      authorised s a [path; $"--no-ask-password"; $"--no-pager"; Verb a; $"--"; ug_Unit g] []
  | auth_packages g c c' : Command a = $"packages" -> packages s = Some g ->
      PackageGrant_PackageArgv g (Verb a) (Package a) = Ok c -> resolved_by managerPaths c c' ->
      authorised s a c' (PackageEnv (pg_Manager g))
  | auth_firewall g rule cmds c c' : Command a = $"firewall" -> firewall s = Some g ->
      (if rule_verb (Verb a) then
         ParseFirewallRule (if bool_decide (Verb a = $"delete") then RuleAction a else Verb a)
           (Port a) (Protocol a) (Source a) = Ok rule
       else rule = no_rule) ->
      FirewallGrant_FirewallCommands g (Verb a) rule = Ok cmds -> c ∈ cmds ->
      resolved_by firewallPaths c c' ->
      authorised s a c' [].
End authority.

Section facts.
Context `{Unicode} (viper_decode : str -> res fileConfig)
  (exec_Run : list str -> list str -> M run_result) (Digest : str -> str) (Version : str)
  (stdin : res str) (rnd : option str) (now : Z).
Local Abbreviation Run := (Run viper_decode exec_Run Digest Version stdin rnd now).
Local Abbreviation LoadSet := (LoadSet viper_decode).

Lemma runExternal_execs cmds extra env entry w a x :
  Exec a x ∈ (runExternal exec_Run cmds extra env entry w).1.1 -> a ∈ cmds /\ x = extra.
Proof.
  revert w. induction cmds as [|c cmds IH]; intros w; cbn [runExternal].
  - simpl. rewrite elem_of_cons. intros [?|Hn]; [done|by apply elem_of_nil in Hn].
  - unfold bind. destruct (exec_Run c extra w) as [[|code e|e] w1].
    + destruct (runExternal exec_Run cmds extra env entry w1) as [[evs code] w2] eqn:E. simpl.
      rewrite elem_of_cons. intros [[= -> ->]|Hin]; [split; [by left|done]|].
      destruct (IH w1) as [? ?]; [by rewrite E|]. split; [by right|done].
    + simpl. rewrite !elem_of_cons. intros [[= -> ->]|[?|Hn]]; [split; [by left|done]|done|by apply elem_of_nil in Hn].
    + simpl. rewrite !elem_of_cons. intros [[= -> ->]|[?|Hn]]; [split; [by left|done]|done|by apply elem_of_nil in Hn].
Qed.

Local Ltac no_exec :=
  exfalso; match goal with
  | Hin : Exec _ _ ∈ _ |- _ =>
      cbn [ret fst snd stop refuse fail_ usage_lines] in Hin;
      repeat (apply elem_of_cons in Hin as [?|Hin]; [done|]); by apply elem_of_nil in Hin
  end.

Lemma runSystemd_authorised action env w a x : Command action = $"systemd" ->
  Exec a x ∈ (runSystemd viper_decode exec_Run action env w).1.1 ->
  EUID env = 0 /\ exists s, (LoadSet (ConfigPath action) true w).1 = Ok s /\ authorised s action a x.
Proof.
  intros Hc. unfold runSystemd. destruct (EUID env =? 0) eqn:Eu; bools; cbn [negb]; [|intros Hin; no_exec].
  unfold bind. destruct (LoadSet (ConfigPath action) true w) as [[s|e] w1]; [|intros Hin; no_exec].
  unfold Set_LookupUnit. destruct (units s !! Unit action) as [g|] eqn:Eg.
  2: { intros Hin. case_bool_decide; no_exec. }
  unfold UnitGrant_SystemdArgv, FindSystemctl, findExecutable, tryM, bind.
  destruct (findExecutable_loop _ _ _ w1) as [[path|e] w2] eqn:Ef; [|intros Hin; no_exec].
  unfold UnitGrant_systemdArgv, lift, ret.
  destruct (UnitGrant_CheckVerb g (Verb action)) as [u|e] eqn:Ev; cbn [res_bind]; [|intros Hin; no_exec].
  intros [Hin ->]%runExternal_execs. apply elem_of_cons in Hin as [->|Hin]; [|by apply elem_of_nil in Hin].
  split; [done|]. exists s. split; [done|]. apply unit_CheckVerb_ok in Ev as [_ Ev].
  eapply auth_systemd; [done..|]. eapply findExecutable_in. by rewrite Ef.
Qed.

Lemma runPackages_authorised action env w a x : Command action = $"packages" ->
  Exec a x ∈ (runPackages viper_decode exec_Run action env w).1.1 ->
  EUID env = 0 /\ exists s, (LoadSet (ConfigPath action) true w).1 = Ok s /\ authorised s action a x.
Proof.
  intros Hc. unfold runPackages. destruct (EUID env =? 0) eqn:Eu; bools; cbn [negb]; [|intros Hin; no_exec].
  unfold bind. destruct (LoadSet (ConfigPath action) true w) as [[s|e] w1]; [|intros Hin; no_exec].
  destruct (packages s) as [g|] eqn:Eg; [|intros Hin; no_exec].
  destruct (PackageGrant_PackageArgv g _ _) as [c|e] eqn:Ec; [|intros Hin; no_exec].
  destruct (resolve_argv FindManager c w1) as [[c'|e] w2] eqn:Er; [|intros Hin; no_exec].
  intros [Hin ->]%runExternal_execs. apply elem_of_cons in Hin as [->|Hin]; [|by apply elem_of_nil in Hin].
  split; [done|]. exists s. split; [done|]. eapply auth_packages; [done..|].
  eapply resolve_argv_spec; [apply FindManager_in|]. by rewrite Er.
Qed.

Lemma runFirewall_authorised action env w a x : Command action = $"firewall" ->
  Exec a x ∈ (runFirewall viper_decode exec_Run action env w).1.1 ->
  EUID env = 0 /\ exists s, (LoadSet (ConfigPath action) true w).1 = Ok s /\ authorised s action a x.
Proof.
  intros Hc. unfold runFirewall. destruct (EUID env =? 0) eqn:Eu; bools; cbn [negb]; [|intros Hin; no_exec].
  unfold bind. destruct (LoadSet (ConfigPath action) true w) as [[s|e] w1]; [|intros Hin; no_exec].
  destruct (firewall s) as [g|] eqn:Eg; [|intros Hin; no_exec].
  set (parsed := if rule_verb (Verb action) then _ else _).
  destruct parsed as [[rule text]|e] eqn:Ep; [|intros Hin; no_exec].
  destruct (FirewallGrant_FirewallCommands g _ rule) as [cmds|e] eqn:Ec; [|intros Hin; no_exec].
  destruct (resolve_all cmds w1) as [[cmds'|e] w2] eqn:Er; [|intros Hin; no_exec].
  intros [Hin ->]%runExternal_execs. split; [done|]. exists s. split; [done|].
  assert (HF : Forall2 (resolved_by firewallPaths) cmds cmds') by (eapply resolve_all_spec; by rewrite Er).
  apply list_elem_of_lookup in Hin as [i Hi].
  destruct (Forall2_lookup_r _ _ _ _ _ HF Hi) as (c & Hci & Hres).
  eapply auth_firewall; [done|done| |done|by eapply list_elem_of_lookup_2|done].
  unfold parsed in Ep. destruct (rule_verb (Verb action)); [|by injection Ep].
  by inv_ok.
Qed.

Lemma runFs_no_exec set profile action env w a x :
  ~ Exec a x ∈ (runFs Digest stdin rnd now set profile action env w).1.1.
Proof.
  unfold runFs. intros Hin.
  repeat first [case_bool_decide|destruct (ParseMode _)|destruct (read_stdin _)|destruct (_ <? _)
    |progress unfold bind in Hin; destruct (Set_Write _ _ _ _ _ _ _) as [[]]
    |progress unfold bind in Hin; destruct (Set_Mkdir _ _ _ _) as [[]]
    |progress unfold bind in Hin; destruct (Set_Remove _ _ _) as [[]]]; no_exec.
Qed.

Lemma runProfiles_no_exec action env w a x :
  ~ Exec a x ∈ (runProfiles viper_decode action env w).1.1.
Proof.
  unfold runProfiles, bind. destruct (LoadSet _ _ w) as [[s|e] w1]; [|intros Hin; no_exec].
  simpl. rewrite !elem_of_app, !list_elem_of_omap.
  intros [(n & _ & Hn)|[Hn|[Hn|(n & _ & Hn)]]]; try (repeat case_match; simplify_eq; done);
    case_match; no_exec.
Qed.

(** C1. Nothing runs without a grant: every command an invocation executes is
    executed as root, after a valid command line and a sound grant file, and is
    exactly what that file authorises for that command line: the granted unit
    with a granted verb, the granted package manager's own command, or a command
    of the granted firewall backend for the parsed rule; its binary comes from a
    fixed list of absolute paths. *)
Theorem Run_authorised argv env w a x :
  Exec a x ∈ (Run argv env w).1.1 ->
  EUID env = 0 /\ exists action s, ParseArgs argv = Ok action /\
    (LoadSet (ConfigPath action) true w).1 = Ok s /\ set_ok (w_fs w) s /\ authorised s action a x.
Proof.
  intros Hin.
  enough (Hgoal : EUID env = 0 /\ exists action s, ParseArgs argv = Ok action /\
    (LoadSet (ConfigPath action) true w).1 = Ok s /\ authorised s action a x).
  { destruct Hgoal as (Hu & action & s & Hp & Hl & Ha). split; [done|]. exists action, s.
    split_and!; try done.
    destruct (LoadSet_spec viper_decode (w_euid w) (w_fs w) (ConfigPath action) true w eq_refl eq_refl)
      as (_ & _ & Hok). by apply Hok. }
  revert Hin. unfold PrivCli.Run. destruct (ParseArgs argv) as [action|e]; [|intros Hin; no_exec].
  case_bool_decide; [intros Hin; no_exec|].
  case_bool_decide; [intros Hin; no_exec|].
  case_bool_decide; [intros (? & s & ? & ?)%runSystemd_authorised; eauto 10|].
  case_bool_decide; [intros (? & s & ? & ?)%runPackages_authorised; eauto 10|].
  case_bool_decide; [intros (? & s & ? & ?)%runFirewall_authorised; eauto 10|].
  case_bool_decide; [intros Hin; by apply runProfiles_no_exec in Hin|].
  destruct (EUID env =? 0) eqn:Eu; bools; cbn [negb]; [|intros Hin; no_exec].
  unfold bind. destruct (LoadSet _ _ w) as [[s|e] w1]; [|intros Hin; no_exec].
  destruct (Set_Lookup s _); [|intros Hin; no_exec]. intros Hin. by apply runFs_no_exec in Hin.
Qed.
End facts.

(** ** Where the file operations act *)

Lemma find_touches (P : fpath -> Prop) cs name : touches P (findExecutable cs name).
Proof. apply findExecutable_touches. Qed.
Lemma FindManager_touches (P : fpath -> Prop) bin : touches P (FindManager bin).
Proof. unfold FindManager. destruct (_ !! _); [apply find_touches|apply touches_ret]. Qed.
Lemma FindFirewallBinary_touches (P : fpath -> Prop) bin : touches P (FindFirewallBinary bin).
Proof. unfold FindFirewallBinary. destruct (_ !! _); [apply find_touches|apply touches_ret]. Qed.
Lemma resolve_argv_touches (P : fpath -> Prop) find c :
  (forall bin, touches P (find bin)) -> touches P (resolve_argv find c).
Proof. intros Hf. unfold resolve_argv. destruct c; auto with touches. Qed.
Lemma resolve_all_touches (P : fpath -> Prop) cmds : touches P (resolve_all cmds).
Proof.
  induction cmds; simpl; [apply touches_ret|].
  apply touches_try; [apply resolve_argv_touches, FindFirewallBinary_touches|]. auto with touches.
Qed.

Section confinement.
Context `{Unicode} (viper_decode : str -> res fileConfig)
  (exec_Run : list str -> list str -> M run_result) (Digest : str -> str) (Version : str)
  (stdin : res str) (rnd : option str) (now : Z).
Local Abbreviation Run := (Run viper_decode exec_Run Digest Version stdin rnd now).
Local Abbreviation LoadSet := (LoadSet viper_decode).

(** Nothing changed, or a command ran. *)
Definition quiet (m : M (list event * Z)) (w : world) : Prop :=
  w_fs (m w).2 = w_fs w \/ exists a x, Exec a x ∈ (m w).1.1.

Lemma quiet_ret r w : quiet (ret r) w.
Proof. by left. Qed.
Lemma quiet_bind {A : Type} (m : M A) (k : A -> M (list event * Z)) w :
  w_fs (m w).2 = w_fs w -> quiet (k (m w).1) (m w).2 -> quiet (bind m k) w.
Proof.
  unfold quiet, bind. destruct (m w) as [r w1]. simpl. intros <-. done.
Qed.
Lemma quiet_external cmds extra env entry w : quiet (runExternal exec_Run cmds extra env entry) w.
Proof.
  destruct cmds as [|c cmds]; [apply quiet_ret|]. right. exists c, extra. cbn [runExternal]. unfold bind.
  destruct (exec_Run c extra w) as [[|code e|e] w1]; [|simpl; by left|simpl; by left].
  destruct (runExternal _ _ _ _ _ w1) as [[evs code] w2]. simpl. by left.
Qed.
Lemma LoadSet_fs path own w : w_fs (LoadSet path own w).2 = w_fs w.
Proof. apply (LoadSet_spec viper_decode (w_euid w) (w_fs w) path own w eq_refl eq_refl). Qed.
Lemma touches_fs {A : Type} (m : M A) w : (forall P, touches P m) -> w_fs (m w).2 = w_fs w.
Proof. intros Hm. apply touches_nothing_fs, Hm. Qed.

Lemma quiet_systemd action env w : quiet (runSystemd viper_decode exec_Run action env) w.
Proof.
  unfold runSystemd. destruct (negb _); [apply quiet_ret|]. apply quiet_bind; [apply LoadSet_fs|].
  destruct (LoadSet _ _ w).1; [|apply quiet_ret]. destruct (Set_LookupUnit _ _); [|apply quiet_ret].
  apply quiet_bind.
  - apply touches_fs. intros P. apply touches_try; [apply find_touches|]. auto with touches.
  - destruct (UnitGrant_SystemdArgv _ _ _).1; [apply quiet_external|apply quiet_ret].
Qed.
Lemma quiet_packages action env w : quiet (runPackages viper_decode exec_Run action env) w.
Proof.
  unfold runPackages. destruct (negb _); [apply quiet_ret|]. apply quiet_bind; [apply LoadSet_fs|].
  destruct (LoadSet _ _ w).1; [|apply quiet_ret]. destruct (packages _); [|apply quiet_ret].
  destruct (PackageGrant_PackageArgv _ _ _); [|apply quiet_ret]. apply quiet_bind.
  - apply touches_fs. intros P. apply resolve_argv_touches, FindManager_touches.
  - destruct (resolve_argv _ _ _).1; [apply quiet_external|apply quiet_ret].
Qed.
Lemma quiet_firewall action env w : quiet (runFirewall viper_decode exec_Run action env) w.
Proof.
  unfold runFirewall. destruct (negb _); [apply quiet_ret|]. apply quiet_bind; [apply LoadSet_fs|].
  destruct (LoadSet _ _ w).1; [|apply quiet_ret]. destruct (firewall _); [|apply quiet_ret].
  set (parsed := if rule_verb (Verb action) then _ else _).
  destruct parsed as [[rule text]|e]; [|apply quiet_ret].
  destruct (FirewallGrant_FirewallCommands _ _ _); [|apply quiet_ret]. apply quiet_bind.
  - apply touches_fs. intros P. apply resolve_all_touches.
  - destruct (resolve_all _ _).1; [apply quiet_external|apply quiet_ret].
Qed.
Lemma quiet_profiles action env w : quiet (runProfiles viper_decode action env) w.
Proof.
  unfold runProfiles. apply quiet_bind; [apply LoadSet_fs|].
  destruct (LoadSet _ _ w).1; apply quiet_ret.
Qed.

Lemma prefix_in (l q : fpath) (x : str) (p : fpath) (n : node) (fs : fsys) :
  <[l ++ q ++ [x] := n]> fs !! p <> fs !! p -> l `prefix_of` p.
Proof.
  intros Hp. destruct (decide (p = l ++ q ++ [x])) as [->|Hne]; [by eexists|].
  by rewrite lookup_insert_ne in Hp.
Qed.

Lemma Set_Write_outside w profile rel mode data l :
  fs_wf (w_fs w) -> Forall proper l -> pr_Path profile = abs_path l -> dirs_to (look_in (w_fs w) []) l ->
  forall p, w_fs (Set_Write rnd now profile rel mode data w).2 !! p <> w_fs w !! p -> l `prefix_of` p.
Proof.
  intros Hwf Hl Hpath Hd p Hp.
  assert (Hinj : forall l', Forall proper l' -> pr_Path profile = abs_path l' -> l' = l).
  { intros l' Hl' Hpath'. rewrite Hpath in Hpath'. symmetry. revert Hpath'. apply abs_path_inj; auto with go. }
  assert (Hdir : physical_dir (w_fs w) (pr_Path profile)) by (by exists l).
  destruct (Set_Write_spec rnd now (w_euid w) _ _ rel mode data Hwf Hdir w eq_refl eq_refl) as [_ HQ].
  destruct (Set_Write rnd now profile rel mode data w) as [[r|r] w']; cbn [fst snd] in *.
  - destruct HQ as (_ & _ & _ & l' & d & x & q & Hl' & Hpath' & _ & _ & _ & Hfs).
    rewrite Hfs, (Hinj _ Hl' Hpath') in Hp. by apply prefix_in in Hp.
  - destruct HQ as [Hfs|(l' & q & n & Hl' & Hpath' & _ & _ & Hfs)]; [congruence|].
    rewrite Hfs, (Hinj _ Hl' Hpath') in Hp. by apply prefix_in in Hp.
Qed.

Lemma Set_Remove_outside w profile rel l :
  Forall proper l -> pr_Path profile = abs_path l -> dirs_to (look_in (w_fs w) []) l ->
  forall p, ~ l `prefix_of` p -> w_fs (Set_Remove profile rel w).2 !! p = w_fs w !! p.
Proof.
  intros Hl Hpath Hd p Hp. unfold Set_Remove. apply lift_then. intros rel' _. rewrite Hpath.
  apply OpenRoot_then with (prefix l); [done|done| |done].
  apply touches_try; [apply touches_query|]. intros n. destruct (is_dir n); auto with touches.
Qed.

Lemma runFs_outside s profile action env w l :
  fs_wf (w_fs w) -> Forall proper l -> pr_Path profile = abs_path l -> dirs_to (look_in (w_fs w) []) l ->
  forall p, w_fs (runFs Digest stdin rnd now s profile action env w).2 !! p <> w_fs w !! p ->
    l `prefix_of` p.
Proof.
  intros Hwf Hl Hpath Hd p. unfold runFs. case_bool_decide.
  { destruct (ParseMode _) as [mode|]; [|done]. destruct (read_stdin _) as [data|]; [|done].
    destruct (_ <? _); [done|]. pose proof (Set_Write_outside w profile (Rel action) mode data l Hwf Hl Hpath Hd p) as Hw.
    unfold bind. by destruct (Set_Write _ _ _ _ _ _ _) as [[r|r] w']. }
  case_bool_decide.
  { destruct (ParseMode _) as [mode|]; [|done].
    pose proof (Set_Mkdir_outside w profile (Rel action) mode l Hl Hpath Hd p) as Hw.
    intros Hne. destruct (decide (l `prefix_of` p)) as [|Hno]; [done|]. specialize (Hw Hno).
    unfold bind in Hne. by destruct (Set_Mkdir _ _ _ _) as [[r|r] w']. }
  case_bool_decide; [|done].
  pose proof (Set_Remove_outside w profile (Rel action) l Hl Hpath Hd p) as Hw.
  intros Hne. destruct (decide (l `prefix_of` p)) as [|Hno]; [done|]. specialize (Hw Hno).
  unfold bind in Hne. by destruct (Set_Remove _ _ _) as [[r|r] w'].
Qed.

(** C37. Where an invocation can act: a path of the file system changes only if
    the invocation ran a command (which the grant file then authorised), or ran
    as root, loaded a sound grant file and named one of its profiles, and then
    only below that profile's own directory, a chain of real directories. Usage
    errors, refusals, [version], [sudoers] and [fs profiles] change nothing. *)
Theorem Run_confined argv env w p :
  fs_wf (w_fs w) -> w_fs (Run argv env w).2 !! p <> w_fs w !! p ->
  (exists a x, Exec a x ∈ (Run argv env w).1.1) \/
  EUID env = 0 /\ exists action s profile l,
    ParseArgs argv = Ok action /\ (LoadSet (ConfigPath action) true w).1 = Ok s /\
    byName s !! a_Profile action = Some profile /\ pr_Path profile = abs_path l /\
    dirs_to (look_in (w_fs w) []) l /\ l `prefix_of` p.
Proof.
  intros Hwf. assert (Hq : quiet (Run argv env) w -> w_fs (Run argv env w).2 !! p <> w_fs w !! p ->
    exists a x, Exec a x ∈ (Run argv env w).1.1) by (intros [->|?]; done).
  revert Hq. unfold PrivCli.Run. destruct (ParseArgs argv) as [action|e]; [|done].
  case_bool_decide; [done|]. case_bool_decide; [done|].
  case_bool_decide; [intros Hq Hne; left; apply Hq; [apply quiet_systemd|done]|].
  case_bool_decide; [intros Hq Hne; left; apply Hq; [apply quiet_packages|done]|].
  case_bool_decide; [intros Hq Hne; left; apply Hq; [apply quiet_firewall|done]|].
  case_bool_decide; [intros Hq Hne; left; apply Hq; [apply quiet_profiles|done]|].
  intros _. destruct (EUID env =? 0) eqn:Eu; bools; cbn [negb]; [|done].
  destruct (LoadSet_spec viper_decode (w_euid w) (w_fs w) (ConfigPath action) true w eq_refl eq_refl)
    as (_ & Hfs & Hok).
  unfold bind. destruct (LoadSet _ _ w) as [[s|e] w1] eqn:El; cbn [ret fst snd] in *; [|by rewrite Hfs].
  unfold Set_Lookup. destruct (byName s !! a_Profile action) as [profile|] eqn:Ep; [|cbn [ret fst snd]; by rewrite Hfs].
  destruct (Hok s eq_refl) as [[Hprof _ _ _] _]. destruct (Hprof _ _ Ep) as [_ (l & Hl & Hpath & Hd) _].
  rewrite <-Hfs in Hwf, Hd |- *. intros Hne. right. split; [done|].
  exists action, s, profile, l. rewrite El. split_and!; try done.
  by eapply runFs_outside.
Qed.
End confinement.

(** ** The audit trail and the exit code *)

Definition audits (evs : list event) : list Entry :=
  omap (fun ev => match ev with Audit e => Some e | _ => None end) evs.

Lemma externalExitCode_range r :
  externalExitCode r = match r with
    | RunOk => 0
    | RunExit c _ => if decide (2 <= c <= 6) then 4 else c
    | RunFailed _ => 4
    end.
Proof.
  destruct r as [|c e|e]; [done| |done]. unfold externalExitCode, ExitUsage, ExitConfigBad, ExitIO.
  destruct (decide (2 <= c <= 6)); [by rewrite !(proj2 (Z.leb_le _ _)) by lia|].
  destruct (2 <=? c) eqn:E1; [|done]. destruct (c <=? 6) eqn:E2; [|done]. bools. lia.
Qed.

Section audit.
Context `{Unicode} (viper_decode : str -> res fileConfig)
  (exec_Run : list str -> list str -> M run_result) (Digest : str -> str) (Version : str)
  (stdin : res str) (rnd : option str) (now : Z).
(** A command that exits with status 0 is not an error. *)
Hypothesis exec_status : forall argv extra w code e, (exec_Run argv extra w).1 = RunExit code e -> code <> 0.
Local Abbreviation Run := (Run viper_decode exec_Run Digest Version stdin rnd now).

(** One audit record that tells the outcome the exit code tells. *)
Definition audited (env : Env) (out : list event * Z) : Prop :=
  exists e, audits out.1 = [e] /\ e_EUID e = EUID env /\ (e_OK e = true <-> out.2 = ExitOK) /\
    (e_OK e = true <-> e_Error e = None).

Lemma audited_stop env err entry code : code <> 0 -> e_EUID entry = EUID env -> e_OK entry = false ->
  e_Error entry <> None -> audited env (stop err entry code).
Proof. intros Hc Hu Ho He. exists entry. split; [done|]. rewrite Ho. unfold ExitOK. simpl. naive_solver. Qed.
Lemma audited_ok env entry : audited env ([Audit (succeeded env entry)], ExitOK).
Proof. by eexists. Qed.
Lemma audited_refused env err entry code : code <> 0 -> audited env (stop err (refused env err entry) code).
Proof. intros Hc. by apply audited_stop. Qed.
Lemma audited_failed env err entry code : code <> 0 -> audited env (stop err (failed env err entry) code).
Proof. intros Hc. by apply audited_stop. Qed.

Lemma audited_exec env argv extra out : audited env out -> audited env (Exec argv extra :: out.1, out.2).
Proof. done. Qed.
Lemma audited_external cmds extra env entry w :
  audited env (runExternal exec_Run cmds extra env entry w).1.
Proof.
  revert w. induction cmds as [|c cmds IH]; intros w; cbn [runExternal]; [apply audited_ok|].
  unfold bind. destruct (exec_Run c extra w) as [[|code e|e] w1] eqn:Ex.
  - specialize (IH w1). destruct (runExternal _ _ _ _ _ w1) as [[evs code] w2]. exact IH.
  - assert (Hc : code <> 0) by (eapply (exec_status c extra w); by rewrite Ex).
    eexists. split; [done|]. split; [done|]. split; [|done]. rewrite externalExitCode_range.
    cbn [snd ret fst e_OK failed set_outcome]. split; [done|]. unfold ExitOK. case_decide; lia.
  - by eexists.
Qed.

Local Ltac audit := first
  [by apply audited_refused|by apply audited_failed|by apply audited_external|by apply audited_ok].

Lemma audited_fail env action err n : audited env (fail_ env action err n).
Proof. unfold fail_. destruct err as [[]| | | |]; audit. Qed.
Lemma audited_refuse env action err : audited env (refuse env action err).
Proof. audit. Qed.

Lemma audited_fs s profile action env w :
  Verb action ∈ [$"write"; $"mkdir"; $"remove"] ->
  audited env (runFs Digest stdin rnd now s profile action env w).1.
Proof.
  intros Hv. unfold runFs. case_bool_decide as H1.
  { destruct (ParseMode _); [|apply audited_refuse]. destruct (read_stdin _); [|by eexists].
    destruct (_ <? _); [apply audited_refuse|]. unfold bind.
    destruct (Set_Write _ _ _ _ _ _ _) as [[r|r] w']; [by eexists|apply audited_fail]. }
  case_bool_decide as H2.
  { destruct (ParseMode _); [|apply audited_refuse]. unfold bind.
    destruct (Set_Mkdir _ _ _ _) as [[r|r] w']; [by eexists|apply audited_fail]. }
  case_bool_decide as H3.
  { unfold bind. destruct (Set_Remove _ _ _) as [[r|r] w']; [by eexists|apply audited_fail]. }
  exfalso. rewrite !elem_of_cons in Hv. destruct Hv as [?|[?|[?|Hn]]]; try done. by apply elem_of_nil in Hn.
Qed.

Lemma audited_systemd action env w : EUID env = 0 ->
  audited env (runSystemd viper_decode exec_Run action env w).1.
Proof.
  intros Hu. unfold runSystemd. rewrite Hu. cbn [negb Z.eqb]. unfold bind.
  destruct (LoadSet _ _ _ w) as [[s|e] w1]; [|audit]. destruct (Set_LookupUnit _ _); [|audit].
  destruct (UnitGrant_SystemdArgv _ _ w1) as [[c|e] w2]; audit.
Qed.
Lemma audited_packages action env w : EUID env = 0 ->
  audited env (runPackages viper_decode exec_Run action env w).1.
Proof.
  intros Hu. unfold runPackages. rewrite Hu. cbn [negb Z.eqb]. unfold bind.
  destruct (LoadSet _ _ _ w) as [[s|e] w1]; [|audit]. destruct (packages _); [|audit].
  destruct (PackageGrant_PackageArgv _ _ _); [|audit].
  destruct (resolve_argv _ _ w1) as [[c|e] w2]; audit.
Qed.
Lemma audited_firewall action env w : EUID env = 0 ->
  audited env (runFirewall viper_decode exec_Run action env w).1.
Proof.
  intros Hu. unfold runFirewall. rewrite Hu. cbn [negb Z.eqb]. unfold bind.
  destruct (LoadSet _ _ _ w) as [[s|e] w1]; [|audit]. destruct (firewall _); [|audit].
  set (parsed := if rule_verb (Verb action) then _ else _). destruct parsed as [[rule text]|e]; [|audit].
  destruct (FirewallGrant_FirewallCommands _ _ _); [|audit].
  destruct (resolve_all _ w1) as [[c|e] w2]; audit.
Qed.

(** The command lines that change the machine. *)
Definition changing (a : Action) : Prop :=
  Command a ∈ [$"systemd"; $"packages"; $"firewall"] \/
  Command a = $"fs" /\ Verb a ∈ [$"write"; $"mkdir"; $"remove"].

(** Every attempt is accounted for. A valid command line that would change
    the machine either is stopped because the process is not root, with exit code
    5 and nothing done, or leaves exactly one audit record, which carries the
    effective user and says [OK] precisely when the exit code is 0, and says why
    otherwise. *)
Theorem Run_audited argv env w action :
  ParseArgs argv = Ok action -> changing action ->
  if EUID env =? 0 then audited env (Run argv env w).1
  else (Run argv env w) = (([must_be_root], ExitNotRoot), w).
Proof.
  intros Hp Hc. unfold PrivCli.Run. rewrite Hp.
  destruct Hc as [Hc|[Hc Hv]].
  - rewrite !elem_of_cons in Hc. destruct (EUID env =? 0) eqn:Eu.
    + bools. destruct Hc as [-> |[-> |[-> |Hn]]]; [..|by apply elem_of_nil in Hn].
      * by apply audited_systemd.
      * by apply audited_packages.
      * by apply audited_firewall.
    + destruct Hc as [-> |[-> |[-> |Hn]]]; [..|by apply elem_of_nil in Hn].
      * unfold runSystemd. by rewrite Eu.
      * unfold runPackages. by rewrite Eu.
      * unfold runFirewall. by rewrite Eu.
  - rewrite Hc. do 5 (rewrite bool_decide_eq_false_2 by done).
    rewrite bool_decide_eq_false_2; [|intros E; rewrite E in Hv; revert Hv; by apply (bool_decide_unpack _)].
    destruct (EUID env =? 0) eqn:Eu; cbn [negb]; [|done]. unfold bind.
    destruct (LoadSet _ _ _ w) as [[s|e] w1]; [|audit]. destruct (Set_Lookup _ _); [|audit].
    by apply audited_fs.
Qed.
End audit.

(** ** Refusals of the file operations *)

(** A write whose mode the profile does not grant, or whose path leaves the
    profile, is refused before anything is opened, but the invocation exits with
    4, the code of an I/O failure, and not with 3, the code of a refusal: only a
    malformed mode, an oversized content or an unknown profile exit with 3. *)
Theorem write_policy_refusal_exits_io (Digest : str -> str) stdin rnd now s profile action env w mode data err :
  Verb action = $"write" -> ParseMode (Mode action) = Ok mode ->
  read_stdin stdin = Ok data -> Z.of_nat (List.length data) <= MaxContentBytes ->
  safeRel (Rel action) = Err err \/ Profile_checkMode profile mode = Err err ->
  exists evs, runFs Digest stdin rnd now s profile action env w = ((evs, ExitIO), w).
Proof.
  intros Hv Hm Hd Hlen Hpol. unfold runFs. rewrite Hv, bool_decide_eq_true_2 by done. rewrite Hm, Hd.
  rewrite (proj2 (Z.ltb_ge _ _)) by done.
  assert (Hw : exists e, Set_Write rnd now profile (Rel action) mode data w = (Err e, w)).
  { unfold Set_Write, tryM, bind, lift, ret. destruct Hpol as [-> | Hc]; [by eexists|].
    destruct (safeRel (Rel action)); [rewrite Hc|]; by eexists. }
  destruct Hw as [e Hw]. unfold bind. rewrite Hw. unfold fail_, stop, ret.
  eexists. f_equal. f_equal. by destruct e as [[]| | | |].
Qed.

(** ** The theorems at work *)

Definition host_fs : fsys :=
  <[ [$"usr"] := Node CDir 493 0 ]> (<[ [$"usr"; $"bin"] := Node CDir 493 0 ]>
    (<[ [$"usr"; $"bin"; $"systemctl"] := Node (CFile []) 493 0 ]> demo_fs)).
Definition host_world : world := World host_fs 18 0 id [].
Definition host_env : Env := mkEnv 0 ($"maidcafe") ($"998").
Definition exec_nothing (argv extra : list str) : M run_result := ret RunOk.
Abbreviation host_run :=
  (Run (H := demo_unicode) demo_decode exec_nothing id ($"dev") (Ok ($"hi")) None 7).
Definition restart_argv : list str := [$"--config"; $"/etc/priv.toml"; $"systemd"; $"restart"; $"nginx.service"].
Definition write_argv : list str :=
  [$"--config"; $"/etc/priv.toml"; $"fs"; $"write"; $"web"; $"index.html"; $"0644"].

Lemma Run_authorised_witness :
  EUID host_env = 0 /\ exists action s, ParseArgs restart_argv = Ok action /\
    (LoadSet (H := demo_unicode) demo_decode (ConfigPath action) true host_world).1 = Ok s /\
    set_ok (w_fs host_world) s /\
    authorised (H := demo_unicode) s action
      [$"/usr/bin/systemctl"; $"--no-ask-password"; $"--no-pager"; $"restart"; $"--"; $"nginx.service"] [].
Proof.
  apply (Run_authorised (H := demo_unicode) demo_decode exec_nothing id ($"dev") (Ok ($"hi")) None 7
    restart_argv host_env host_world).
  vm_compute. left.
Defined.

Lemma host_wf : fs_wf (w_fs host_world).
Proof. apply fs_wf_check. by vm_compute. Qed.

Lemma Run_confined_witness :
  ((exists a x, Exec a x ∈ (host_run write_argv host_env host_world).1.1) \/
   EUID host_env = 0 /\ exists action s profile l,
     ParseArgs write_argv = Ok action /\
     (LoadSet (H := demo_unicode) demo_decode (ConfigPath action) true host_world).1 = Ok s /\
     byName s !! a_Profile action = Some profile /\ pr_Path profile = abs_path l /\
     dirs_to (look_in (w_fs host_world) []) l /\ l `prefix_of` [$"srv"; $"web"; $"index.html"]) /\
  (host_run write_argv host_env host_world).1.2 = ExitOK.
Proof.
  split; [|vm_compute; reflexivity].
  apply (Run_confined (H := demo_unicode) demo_decode exec_nothing id ($"dev") (Ok ($"hi")) None 7
    write_argv host_env host_world); [apply host_wf|]. by vm_compute.
Defined.

Lemma Run_audited_witness :
  (forall argv extra w code e, (exec_nothing argv extra w).1 = RunExit code e -> code <> 0) /\
  ParseArgs write_argv = Ok (fs_action ($"write") ($"web") ($"index.html") ($"0644") ($"/etc/priv.toml")) /\
  (if EUID host_env =? 0 then audited host_env (host_run write_argv host_env host_world).1
   else host_run write_argv host_env host_world = (([must_be_root], ExitNotRoot), host_world)).
Proof.
  assert (Hx : forall argv extra w code e, (exec_nothing argv extra w).1 = RunExit code e -> code <> 0) by done.
  split; [exact Hx|]. split; [vm_compute; reflexivity|].
  apply (Run_audited (H := demo_unicode) demo_decode exec_nothing id ($"dev") (Ok ($"hi")) None 7 Hx write_argv
    host_env host_world (fs_action ($"write") ($"web") ($"index.html") ($"0644") ($"/etc/priv.toml"))).
  - vm_compute. reflexivity.
  - right. split; [reflexivity|left].
Defined.

Lemma write_policy_refusal_exits_io_witness :
  exists evs, runFs id (Ok ($"hi")) None 7 demo_set demo_profile
    (fs_action ($"write") ($"web") ($"../x") ($"0644") ($"/etc/priv.toml")) host_env host_world
    = ((evs, ExitIO), host_world).
Proof.
  eapply (write_policy_refusal_exits_io id (Ok ($"hi")) None 7 demo_set demo_profile _ host_env host_world 420 ($"hi")).
  - reflexivity.
  - vm_compute. reflexivity.
  - vm_compute. reflexivity.
  - vm_compute. discriminate.
  - left. vm_compute. reflexivity.
Defined.
