(* ===== verification/Config.v ===== *)
(** * Config: internal/config/config.go

    The configuration records, their defaults, the fragment loaders and the
    validators. Decoding TOML (viper), looking up an account, parsing a URL, a
    listen address, a cron expression or a regular expression, and the gRPC
    environment fallback are parameters; [path.Match] is [GoMatch]. *)

From Stdlib Require Import QArith.
From S2P Require Import Prelude GoStr Regex GoPath GoOS GoMatch PrivPackages PrivFirewall PrivSet.
Open Scope Z_scope.

(** A [time.Duration] in nanoseconds. *)
Abbreviation duration := Z (only parsing).
Definition Second : Z := 1000000000.
Definition Minute : Z := 60 * Second.
Definition Hour : Z := 60 * Minute.

(** A [float64]: comparisons with NaN are false. *)
Inductive float64 := FNum (q : Q) | FInf (negative : bool) | FNaN.
Definition float_le (x : float64) (y : Q) : bool :=
  match x with FNum q => Qle_bool q y | FInf neg => neg | FNaN => false end.
Definition float_gt (x : float64) (y : Q) : bool :=
  match x with FNum q => negb (Qle_bool q y) | FInf neg => negb neg | FNaN => false end.

(** ** The records *)

Record CloudConfig := mkCloudConfig {
  DaemonDisconnectAfter : duration;
  DaemonDisconnectNotificationCooldown : duration;
  AlarmCheckInterval : duration;
}.
Record HTTPConfig := mkHTTPConfig { http_Port : str; http_AllowedOrigins : list str }.
Record GRPCConfig := mkGRPCConfig { CAFile : str; ClientCertFile : str; ClientKeyFile : str }.
Record DiscoveryConfig := mkDiscoveryConfig { disc_Target : str; disc_Service : str }.
Record AppConfig := mkAppConfig { app_Name : str }.
Record DatabaseConfig := mkDatabaseConfig { db_DSN : str }.
Record AuthConfig := mkAuthConfig { auth_TLSSkipVerify : bool }.
Record WorkspaceConfig := mkWorkspaceConfig { ws_Target : str; ws_UseTLS : bool; ws_TLSSkipVerify : bool }.
Record RingConfig := mkRingConfig { ring_Target : str; ring_UseTLS : bool; ring_TLSSkipVerify : bool }.
Record EventbusConfig := mkEventbusConfig { eb_URL : str; eb_SubjectPrefix : str }.

Record TerminalRelayConfig := mkTerminalRelayConfig {
  relay_Enabled : bool;
  relay_Users : list str;
  relay_PollWait : duration;
}.
Record TerminalConfig := mkTerminalConfig {
  term_Enabled : bool;
  term_Secret : str;
  term_Shells : list str;
  term_Users : list str;
  term_Cwd : str;
  term_Env : list str;
  term_AllowedOrigins : list str;
  term_AllowRemote : bool;
  term_MaxSessions : Z;
  term_IdleTimeout : duration;
  term_MaxLifetime : duration;
  term_Relay : TerminalRelayConfig;
}.
Record ComposeConfig := mkComposeConfig {
  StacksPath : str;
  ScanRoots : list str;
  ScanDepth : Z;
}.
Record FilesRootConfig := mkFilesRootConfig {
  root_Path : str;
  root_Privileged : bool;
  root_Profile : str;
}.
Record FilesConfig := mkFilesConfig {
  files_Enabled : bool;
  files_Secret : str;
  files_Roots : list FilesRootConfig;
  files_AllowWrite : bool;
  files_MaxReadBytes : Z;
  files_MaxWriteBytes : Z;
  files_MaxListEntries : Z;
}.
Record PrivConfig := mkPrivConfig {
  priv_Helper : str;
  priv_Systemd : bool;
  priv_Packages : bool;
  priv_Firewall : bool;
}.

Definition FilesDefaultMaxReadBytes : Z := Z.shiftl 8 20.
Definition FilesDefaultMaxWriteBytes : Z := Z.shiftl 8 20.
Definition FilesMaxTransferBytes : Z := Z.shiftl 1 30.
Definition FilesDefaultMaxListEntries : Z := 5000.
Definition FilesMaxListEntriesLimit : Z := 100000.
Definition FilesDefaultPrivilegedHelper : str := $"/usr/local/libexec/maidkit-priv".

(** An absent [*bool] is [None]. *)
Record LogAlertConfig := mkLogAlertConfig {
  alert_Name : str;
  alert_Pattern : str;
  alert_Container : str;
  alert_Title : str;
  alert_Enabled : option bool;
  alert_CooldownSeconds : Z;
}.
Record AlarmConfig := mkAlarmConfig {
  alarm_Kind : str;
  alarm_Threshold : float64;
  alarm_Target : str;
  alarm_Enabled : option bool;
  alarm_CooldownSeconds : Z;
}.
Record WebhookConfig := mkWebhookConfig {
  hook_Name : str;
  hook_Secret : str;
  hook_Command : str;
  hook_Args : list str;
  hook_Enabled : bool;
  hook_NotifyOnSuccess : bool;
  hook_NotifyOnFailure : bool;
  hook_DisplayName : str;
  hook_Script : bool;
  hook_Cwd : str;
  hook_User : str;
  hook_Env : list str;
  hook_Timeout : duration;
}.
(** A job's JSON body is kept as its fields' source text. *)
Record JobConfig := mkJobConfig {
  job_Name : str;
  job_Schedule : str;
  job_Action : str;
  job_Body : list (str * str);
  job_Enabled : option bool;
  job_Timeout : duration;
  job_NotifyOnFailure : bool;
}.

Record DaemonConfig := mkDaemonConfig {
  d_ID : str;
  d_HostID : str;
  d_Version : str;
  d_Transport : str;
  d_Listen : str;
  d_MetricsSecret : str;
  d_MetricsHistoryPath : str;
  d_MetricsRetentionDays : Z;
  d_AuditPath : str;
  d_ActionsDir : str;
  d_AlarmsDir : str;
  d_JobsDir : str;
  d_LogsDir : str;
  d_LogAlertsDir : str;
  d_Terminal : TerminalConfig;
  d_Files : FilesConfig;
  d_Compose : ComposeConfig;
  d_Priv : PrivConfig;
  d_CloudURL : str;
  d_CloudSecret : str;
  d_LogsUploadEnabled : bool;
  d_LogsUploadInterval : duration;
  d_LogsUploadBatchLines : Z;
  d_ManagedContainers : list str;
  d_ManagedComposes : list str;
  d_StatusUploadEnabled : bool;
  d_MetricsInterval : duration;
  d_StreamInterval : duration;
  d_ContainersInterval : duration;
  d_ImagesInterval : duration;
  d_ProcessesInterval : duration;
  d_SystemdInterval : duration;
  d_RuntimesInterval : duration;
  d_DatabaseMetricsInterval : duration;
  d_LogsInterval : duration;
  d_UpdateCheckInterval : duration;
  d_Runtimes : list str;
  d_WatchedProcesses : list str;
  d_WatchedProcessesFile : str;
  d_ProcessesLimit : Z;
  d_RequestTimeout : duration;
  d_ScriptTimeout : duration;
  d_MaxBodyBytes : Z;
  d_MaxConcurrentRuns : Z;
  d_Webhooks : list WebhookConfig;
  d_Actions : list WebhookConfig;
  d_Alarms : list AlarmConfig;
  d_Jobs : list JobConfig;
  d_LogAlerts : list LogAlertConfig;
}.

(** Assignments to the fields that loading and validation write. *)
Definition set_d_lists (actions : list WebhookConfig) (alarms : list AlarmConfig) (jobs : list JobConfig)
    (alerts : list LogAlertConfig) (c : DaemonConfig) : DaemonConfig :=
  mkDaemonConfig (d_ID c) (d_HostID c) (d_Version c) (d_Transport c) (d_Listen c) (d_MetricsSecret c)
    (d_MetricsHistoryPath c) (d_MetricsRetentionDays c) (d_AuditPath c) (d_ActionsDir c) (d_AlarmsDir c)
    (d_JobsDir c) (d_LogsDir c) (d_LogAlertsDir c) (d_Terminal c) (d_Files c) (d_Compose c) (d_Priv c)
    (d_CloudURL c) (d_CloudSecret c) (d_LogsUploadEnabled c) (d_LogsUploadInterval c)
    (d_LogsUploadBatchLines c) (d_ManagedContainers c) (d_ManagedComposes c) (d_StatusUploadEnabled c)
    (d_MetricsInterval c) (d_StreamInterval c) (d_ContainersInterval c) (d_ImagesInterval c)
    (d_ProcessesInterval c) (d_SystemdInterval c) (d_RuntimesInterval c) (d_DatabaseMetricsInterval c)
    (d_LogsInterval c) (d_UpdateCheckInterval c) (d_Runtimes c) (d_WatchedProcesses c)
    (d_WatchedProcessesFile c) (d_ProcessesLimit c) (d_RequestTimeout c) (d_ScriptTimeout c)
    (d_MaxBodyBytes c) (d_MaxConcurrentRuns c) (d_Webhooks c) actions alarms jobs alerts.
Definition set_d_HostID (id : str) (c : DaemonConfig) : DaemonConfig :=
  mkDaemonConfig (d_ID c) id (d_Version c) (d_Transport c) (d_Listen c) (d_MetricsSecret c)
    (d_MetricsHistoryPath c) (d_MetricsRetentionDays c) (d_AuditPath c) (d_ActionsDir c) (d_AlarmsDir c)
    (d_JobsDir c) (d_LogsDir c) (d_LogAlertsDir c) (d_Terminal c) (d_Files c) (d_Compose c) (d_Priv c)
    (d_CloudURL c) (d_CloudSecret c) (d_LogsUploadEnabled c) (d_LogsUploadInterval c)
    (d_LogsUploadBatchLines c) (d_ManagedContainers c) (d_ManagedComposes c) (d_StatusUploadEnabled c)
    (d_MetricsInterval c) (d_StreamInterval c) (d_ContainersInterval c) (d_ImagesInterval c)
    (d_ProcessesInterval c) (d_SystemdInterval c) (d_RuntimesInterval c) (d_DatabaseMetricsInterval c)
    (d_LogsInterval c) (d_UpdateCheckInterval c) (d_Runtimes c) (d_WatchedProcesses c)
    (d_WatchedProcessesFile c) (d_ProcessesLimit c) (d_RequestTimeout c) (d_ScriptTimeout c)
    (d_MaxBodyBytes c) (d_MaxConcurrentRuns c) (d_Webhooks c) (d_Actions c) (d_Alarms c) (d_Jobs c)
    (d_LogAlerts c).
Definition set_d_LogsUploadBatchLines (n : Z) (c : DaemonConfig) : DaemonConfig :=
  mkDaemonConfig (d_ID c) (d_HostID c) (d_Version c) (d_Transport c) (d_Listen c) (d_MetricsSecret c)
    (d_MetricsHistoryPath c) (d_MetricsRetentionDays c) (d_AuditPath c) (d_ActionsDir c) (d_AlarmsDir c)
    (d_JobsDir c) (d_LogsDir c) (d_LogAlertsDir c) (d_Terminal c) (d_Files c) (d_Compose c) (d_Priv c)
    (d_CloudURL c) (d_CloudSecret c) (d_LogsUploadEnabled c) (d_LogsUploadInterval c) n
    (d_ManagedContainers c) (d_ManagedComposes c) (d_StatusUploadEnabled c) (d_MetricsInterval c)
    (d_StreamInterval c) (d_ContainersInterval c) (d_ImagesInterval c) (d_ProcessesInterval c)
    (d_SystemdInterval c) (d_RuntimesInterval c) (d_DatabaseMetricsInterval c) (d_LogsInterval c)
    (d_UpdateCheckInterval c) (d_Runtimes c) (d_WatchedProcesses c) (d_WatchedProcessesFile c)
    (d_ProcessesLimit c) (d_RequestTimeout c) (d_ScriptTimeout c) (d_MaxBodyBytes c) (d_MaxConcurrentRuns c)
    (d_Webhooks c) (d_Actions c) (d_Alarms c) (d_Jobs c) (d_LogAlerts c).

Record Config := mkConfig {
  App : AppConfig;
  HTTP : HTTPConfig;
  Database : DatabaseConfig;
  Auth : AuthConfig;
  Discovery : DiscoveryConfig;
  Workspace : WorkspaceConfig;
  Eventbus : EventbusConfig;
  Ring : RingConfig;
  GRPC : GRPCConfig;
  Cloud : CloudConfig;
  Daemon : DaemonConfig;
}.
Definition set_Daemon (d : DaemonConfig) (c : Config) : Config :=
  mkConfig (App c) (HTTP c) (Database c) (Auth c) (Discovery c) (Workspace c) (Eventbus c)
    (Ring c) (GRPC c) (Cloud c) d.

(** ** Patterns and constants *)

(** [^[A-Za-z_][A-Za-z0-9_]*=], unanchored at the end. *)
Definition any_byte : ascii -> bool := fun _ => true.
Definition envAssignmentPattern : regex :=
  seqs [cls [rng "A" "Z"; rng "a" "z"; one "_"];
        RStar (cls [rng "A" "Z"; rng "a" "z"; rng "0" "9"; one "_"]); lit "="; RStar (RCls any_byte)].
Definition TerminalDefaultMaxSessions : Z := 2.
Definition TerminalMaxSessionsLimit : Z := 8.
Definition TerminalRelayDefaultPollWait : Z := 20 * Second.
Definition TerminalRelayMinPollWait : Z := 3 * Second.
Definition TerminalRelayMaxPollWait : Z := 25 * Second.
(** [^[a-z][a-z0-9_-]*$] *)
Definition runtimeNamePattern : regex :=
  RCat (cls [rng "a" "z"]) (RStar (cls [rng "a" "z"; rng "0" "9"; one "_-"])).
(** [^[A-Za-z0-9][A-Za-z0-9._-]{0,63}$] *)
Definition watchedProcessNamePattern : regex :=
  RCat (cls [rng "A" "Z"; rng "a" "z"; rng "0" "9"])
       (upto (cls [rng "A" "Z"; rng "a" "z"; rng "0" "9"; one "._-"]) 63).
Definition ValidWatchedProcessName (name : str) : bool := matches watchedProcessNamePattern name.
(** [^[A-Za-z0-9._-]+$] *)
Definition webhookNamePattern : regex := plus (cls [rng "A" "Z"; rng "a" "z"; rng "0" "9"; one "._-"]).

Definition NativeOpNames : list str :=
  [$"container.start"; $"container.stop"; $"container.restart";
   $"container.pause"; $"container.unpause"; $"container.kill"; $"container.remove";
   $"container.pull"; $"container.update";
   $"process.kill";
   $"systemd.start"; $"systemd.stop"; $"systemd.restart"; $"systemd.reload";
   $"systemd.enable"; $"systemd.disable";
   $"package.refresh"; $"package.upgrade"; $"package.install"; $"package.remove";
   $"firewall.enable"; $"firewall.disable"; $"firewall.allow"; $"firewall.deny"; $"firewall.delete";
   $"compose.up"; $"compose.stop"; $"compose.restart"; $"compose.pull"; $"compose.recreate"].
Fixpoint in_slugs (slugs : list str) (name : str) : bool :=
  match slugs with
  | [] => false
  | slug :: slugs => if bool_decide (slug = name) then true else in_slugs slugs name
  end.
Definition IsNativeOpName (name : str) : bool := in_slugs NativeOpNames name.

Definition Label (h : WebhookConfig) : str :=
  let name := TrimSpace (hook_DisplayName h) in
  if negb (bool_decide (name = [])) then name else hook_Name h.

(** ** Defaults *)

Definition default_terminal : TerminalConfig :=
  mkTerminalConfig false [] [] [] [] [] [] false TerminalDefaultMaxSessions (15 * Minute) (8 * Hour)
    (mkTerminalRelayConfig false [] TerminalRelayDefaultPollWait).
Definition default_files : FilesConfig :=
  mkFilesConfig false [] [] false FilesDefaultMaxReadBytes FilesDefaultMaxWriteBytes FilesDefaultMaxListEntries.
Definition default_daemon : DaemonConfig := {|
  d_ID := []; d_HostID := []; d_Version := [];
  d_Transport := $"http"; d_Listen := $"127.0.0.1:8747"; d_MetricsSecret := [];
  d_MetricsHistoryPath := $"/var/lib/maidcafe/metrics"; d_MetricsRetentionDays := 7;
  d_AuditPath := $"/var/lib/maidcafe/audit.jsonl";
  d_ActionsDir := $"/etc/maidcafe/actions"; d_AlarmsDir := $"/etc/maidcafe/alarms";
  d_JobsDir := $"/etc/maidcafe/jobs"; d_LogsDir := $"/var/lib/maidcafe/logs";
  d_LogAlertsDir := $"/etc/maidcafe/log-alerts";
  d_Terminal := default_terminal; d_Files := default_files;
  d_Compose := mkComposeConfig ($"/var/lib/maidcafe/compose-stacks.json") [] 0;
  d_Priv := mkPrivConfig [] false false false;
  d_CloudURL := $"https://mk.solsynth.dev"; d_CloudSecret := [];
  d_LogsUploadEnabled := false; d_LogsUploadInterval := 30 * Second; d_LogsUploadBatchLines := 100;
  d_ManagedContainers := []; d_ManagedComposes := []; d_StatusUploadEnabled := false;
  d_MetricsInterval := Minute; d_StreamInterval := Second; d_ContainersInterval := 5 * Second;
  d_ImagesInterval := Minute; d_ProcessesInterval := 10 * Second; d_SystemdInterval := 30 * Second;
  d_RuntimesInterval := 10 * Second; d_DatabaseMetricsInterval := 10 * Second;
  d_LogsInterval := 30 * Second; d_UpdateCheckInterval := 6 * Hour;
  d_Runtimes := [$"java"; $"dotnet"; $"python"; $"node"; $"deno"; $"go"; $"ruby"; $"php"];
  d_WatchedProcesses := []; d_WatchedProcessesFile := $"/var/lib/maidcafe/watched-processes.json";
  d_ProcessesLimit := 50; d_RequestTimeout := 10 * Second; d_ScriptTimeout := 30 * Second;
  d_MaxBodyBytes := 65536; d_MaxConcurrentRuns := 4;
  d_Webhooks := []; d_Actions := []; d_Alarms := []; d_Jobs := []; d_LogAlerts := [];
|}.
Definition default_config : Config := {|
  App := mkAppConfig ($"MaidCafe"); HTTP := mkHTTPConfig ($"8080") []; Database := mkDatabaseConfig [];
  Auth := mkAuthConfig true; Discovery := mkDiscoveryConfig [] ($"stargate");
  Workspace := mkWorkspaceConfig [] true false; Eventbus := mkEventbusConfig [] [];
  Ring := mkRingConfig [] false false; GRPC := mkGRPCConfig [] [] [];
  Cloud := mkCloudConfig (5 * Minute) (30 * Minute) Minute; Daemon := default_daemon;
|}.

(** ** Loops over configuration lists

    A [for i, x := range list] that keeps a set of names seen, may rewrite its
    element and stops at the first error. *)
Fixpoint for_range {A} (body : Z -> strset -> A -> res (A * strset)) (i : Z) (seen : strset) (l : list A)
    : res (list A) :=
  match l with
  | [] => Ok []
  | x :: l =>
      let? (y, seen) := body i seen x in
      let? rest := for_range body (i + 1) seen l in
      Ok (y :: rest)
  end.
(** A loop that only checks. *)
Definition check_range {A} (body : Z -> A -> res unit) (l : list A) : res unit :=
  let? _ := for_range (fun i seen x => let? _ := body i x in Ok (x, seen)) 0 ∅ l in Ok tt.

Definition add_name (name : str) (seen : strset) : strset := {[name]} ∪ seen.
Definition is_seen (name : str) (seen : strset) : bool := bool_decide (name ∈ seen).

(** ** Pure validators *)

(** What the validators ask of the host and of libraries that are not part of the
    program: [user.Lookup], [regexp.Compile], [cron.ParseStandard],
    [net.ResolveTCPAddr] (the port) and [url.Parse] (scheme, host, host name). *)
Class Host := {
  user_Lookup : str -> res unit;
  regexp_Compile : str -> res unit;
  cron_ParseStandard : str -> res unit;
  ResolveTCPAddr : str -> res Z;
  url_Parse : str -> option (str * str * str);
}.

Definition validateOriginPattern `{Unicode} (origin : str) : res unit :=
  if bool_decide (origin = []) || negb (bool_decide (TrimSpace origin = origin))
     || bool_decide (origin = $"*")
  then Err (Errorf "must be a host or scheme://host pattern (no bare *)" [])
  else
    match path_Match (ToLower origin) ($"x") with
    | None => Err (Errorf "%q is not a valid pattern: %w" [FStr origin; FErr (Foreign "path.ErrBadPattern" [])])
    | Some _ => Ok tt
    end.

Definition ValidateCloudURL `{Host} (raw : str) : res unit :=
  let value := TrimSpace raw in
  if bool_decide (value = []) then Ok tt
  else
    let bad := Err (Errorf "must be HTTPS, or HTTP to localhost" []) in
    match url_Parse value with
    | None => bad
    | Some (scheme, host, hostname) =>
        if bool_decide (host = [])
           || negb (bool_decide (scheme = $"https"))
              && negb (bool_decide (scheme = $"http")
                       && (bool_decide (hostname = $"127.0.0.1") || bool_decide (hostname = $"localhost")))
        then bad else Ok tt
    end.

Definition validateListen `{Host} (value : str) : res unit :=
  if bool_decide (TrimSpace value = []) then Err (Errorf "must not be empty" [])
  else
    match ResolveTCPAddr value with
    | Err e => Err (Errorf "invalid address: %w" [FErr e])
    | Ok port =>
        if negb (port =? 0) && (port <? 1024) then
          Err (Errorf "port %d requires root or CAP_NET_BIND_SERVICE; use a port >= 1024" [FInt port])
        else Ok tt
    end.
Definition validatePort `{Host} (value : str) : res unit :=
  if bool_decide (TrimSpace value = []) then Err (Errorf "must not be empty" [])
  else
    match ResolveTCPAddr ($":" ++ TrimPrefix value ($":")) with
    | Err e => Err (Errorf "invalid port: %w" [FErr e])
    | Ok _ => Ok tt
    end.

Definition validateHookExecution `{Host} (hook : WebhookConfig) (kind : str) (index : Z) : res unit :=
  if negb (bool_decide (hook_Cwd hook = [])) && negb (IsAbs (hook_Cwd hook)) then
    Err (Errorf "daemon.%s[%d].cwd must be an absolute path" [FStr kind; FInt index])
  else
    let? _ :=
      if bool_decide (hook_User hook = []) then Ok tt
      else
        match user_Lookup (hook_User hook) with
        | Err e => Err (Errorf "daemon.%s[%d].user %q does not exist: %w"
                     [FStr kind; FInt index; FStr (hook_User hook); FErr e])
        | Ok _ => Ok tt
        end in
    let? _ := check_range (fun i kv =>
      guard (negb (matches envAssignmentPattern kv))
        (Errorf "daemon.%s[%d].env[%d] must be KEY=VALUE with an identifier key" [FStr kind; FInt index; FInt i]))
      (hook_Env hook) in
    guard (hook_Timeout hook <? 0)
      (Errorf "daemon.%s[%d].timeout must not be negative" [FStr kind; FInt index]).

Section terminal.
Context `{Unicode, Host}.

Definition check_shell (i : Z) (seen : strset) (shell : str) : res (str * strset) :=
  if negb (IsAbs shell) then Err (Errorf "daemon.terminal.shells[%d] must be an absolute path" [FInt i])
  else if is_seen shell seen then
    Err (Errorf "daemon.terminal.shells[%d] %q is duplicated" [FInt i; FStr shell])
  else Ok (shell, add_name shell seen).
Definition check_user (i : Z) (seen : strset) (name : str) : res (str * strset) :=
  if is_seen name seen then Err (Errorf "daemon.terminal.users[%d] %q is duplicated" [FInt i; FStr name])
  else
    match user_Lookup name with
    | Err e => Err (Errorf "daemon.terminal.users[%d] %q does not exist: %w" [FInt i; FStr name; FErr e])
    | Ok _ => Ok (name, add_name name seen)
    end.
Definition check_relay_user (i : Z) (seen : strset) (name : str) : res (str * strset) :=
  if bool_decide (name = []) || negb (bool_decide (TrimSpace name = name)) then
    Err (Errorf "daemon.terminal.relay.users[%d] must be a non-empty cloud identity" [FInt i])
  else if is_seen name seen then
    Err (Errorf "daemon.terminal.relay.users[%d] %q is duplicated" [FInt i; FStr name])
  else Ok (name, add_name name seen).

Definition validateTerminal (cfg : TerminalConfig) : res unit :=
  let relay := term_Relay cfg in
  let? _ := guard ((term_Enabled cfg || relay_Enabled relay) && bool_decide (term_Shells cfg = []))
    (Errorf "daemon.terminal.shells must not be empty when the terminal is enabled" []) in
  let? _ := for_range check_shell 0 ∅ (term_Shells cfg) in
  let? _ := for_range check_user 0 ∅ (term_Users cfg) in
  let? _ := guard (negb (bool_decide (term_Cwd cfg = [])) && negb (IsAbs (term_Cwd cfg)))
    (Errorf "daemon.terminal.cwd must be an absolute path" []) in
  let? _ := check_range (fun i kv => guard (negb (matches envAssignmentPattern kv))
    (Errorf "daemon.terminal.env[%d] must be KEY=VALUE with an identifier key" [FInt i])) (term_Env cfg) in
  let? _ := guard (negb (bool_decide (TrimSpace (term_Secret cfg) = term_Secret cfg)))
    (Errorf "daemon.terminal.secret must not contain whitespace" []) in
  let? _ := check_range (fun i origin =>
    match validateOriginPattern origin with
    | Err e => Err (Errorf "daemon.terminal.allowedOrigins[%d] %w" [FInt i; FErr e])
    | Ok _ => Ok tt
    end) (term_AllowedOrigins cfg) in
  let? _ := guard ((term_MaxSessions cfg <? 0) || (TerminalMaxSessionsLimit <? term_MaxSessions cfg))
    (Errorf "daemon.terminal.maxSessions must be between 1 and %d" [FInt TerminalMaxSessionsLimit]) in
  let? _ := guard (term_IdleTimeout cfg <? 0) (Errorf "daemon.terminal.idleTimeout must not be negative" []) in
  let? _ := guard (term_MaxLifetime cfg <? 0) (Errorf "daemon.terminal.maxLifetime must not be negative" []) in
  let? _ := guard ((0 <? term_MaxLifetime cfg) && (0 <? term_IdleTimeout cfg)
                   && (term_MaxLifetime cfg <? term_IdleTimeout cfg))
    (Errorf "daemon.terminal.maxLifetime must not be shorter than idleTimeout" []) in
  let? _ := for_range check_relay_user 0 ∅ (relay_Users relay) in
  guard (negb (relay_PollWait relay =? 0)
         && ((relay_PollWait relay <? TerminalRelayMinPollWait) || (TerminalRelayMaxPollWait <? relay_PollWait relay)))
    (Errorf "daemon.terminal.relay.pollWait must be between %s and %s"
       [FInt TerminalRelayMinPollWait; FInt TerminalRelayMaxPollWait]).
End terminal.

(** ** Validators that look at the file system *)

Fixpoint check_file_roots (i : Z) (seen : strset) (roots : list FilesRootConfig) : M (res unit) :=
  match roots with
  | [] => ret (Ok tt)
  | root :: roots =>
      let path := root_Path root in
      if negb (bool_decide (TrimSpace path = path)) || bool_decide (path = []) then
        ret (Err (Errorf "daemon.files.roots[%d].path must be a non-empty absolute path" [FInt i]))
      else if negb (IsAbs path) then
        ret (Err (Errorf "daemon.files.roots[%d].path %q must be an absolute path" [FInt i; FStr path]))
      else
        let clean := Clean path in
        if is_seen clean seen then
          ret (Err (Errorf "daemon.files.roots[%d].path %q is duplicated" [FInt i; FStr path]))
        else
          do st := os_Stat clean in
          match st with
          | Err e =>
              ret (Err (Errorf "daemon.files.roots[%d].path %q is not usable: %w" [FInt i; FStr path; FErr e]))
          | Ok info =>
              if negb (is_dir info) then
                ret (Err (Errorf "daemon.files.roots[%d].path %q is not a directory" [FInt i; FStr path]))
              else if root_Privileged root && negb (ValidProfileName (root_Profile root)) then
                ret (Err (Errorf "daemon.files.roots[%d] is privileged and needs a profile name matching [a-z0-9][a-z0-9_-]*" [FInt i]))
              else if negb (root_Privileged root) && negb (bool_decide (root_Profile root = [])) then
                ret (Err (Errorf "daemon.files.roots[%d].profile is only meaningful with privileged = true" [FInt i]))
              else check_file_roots (i + 1) (add_name clean seen) roots
          end
  end.

Definition file_limits (cfg : FilesConfig) : res unit :=
  let? _ := guard (negb (bool_decide (files_Secret cfg = []))
                   && ContainsAny (files_Secret cfg) [ch " "; byte 9; byte 13; byte 10])
    (Errorf "daemon.files.secret must not contain whitespace" []) in
  let? _ := guard ((files_MaxReadBytes cfg <? 0) || (files_MaxWriteBytes cfg <? 0))
    (Errorf "daemon.files maxReadBytes and maxWriteBytes must not be negative" []) in
  let? _ := guard ((FilesMaxTransferBytes <? files_MaxReadBytes cfg) || (FilesMaxTransferBytes <? files_MaxWriteBytes cfg))
    (Errorf "daemon.files maxReadBytes and maxWriteBytes must be at most %d bytes" [FInt FilesMaxTransferBytes]) in
  guard ((files_MaxListEntries cfg <? 0) || (FilesMaxListEntriesLimit <? files_MaxListEntries cfg))
    (Errorf "daemon.files.maxListEntries must be between 1 and %d" [FInt FilesMaxListEntriesLimit]).

Definition validateFiles (cfg : FilesConfig) : M (res unit) :=
  let* _ := lift (file_limits cfg) in
  if negb (files_Enabled cfg) then ret (Ok tt)
  else if bool_decide (files_Roots cfg = []) then
    ret (Err (Errorf "daemon.files.roots must not be empty when the file API is enabled" []))
  else check_file_roots 0 ∅ (files_Roots cfg).

Fixpoint check_scan_roots (i : Z) (seen : strset) (roots : list str) : M (res unit) :=
  match roots with
  | [] => ret (Ok tt)
  | root :: roots =>
      if negb (bool_decide (TrimSpace root = root)) || bool_decide (root = []) then
        ret (Err (Errorf "daemon.compose.scanRoots[%d] must be a non-empty path" [FInt i]))
      else if negb (IsAbs root) then
        ret (Err (Errorf "daemon.compose.scanRoots[%d] %q must be an absolute path" [FInt i; FStr root]))
      else
        let clean := Clean root in
        if is_seen clean seen then
          ret (Err (Errorf "daemon.compose.scanRoots[%d] %q is duplicated" [FInt i; FStr root]))
        else
          do st := os_Stat clean in
          match st with
          | Err e => ret (Err (Errorf "daemon.compose.scanRoots[%d] %q is not usable: %w" [FInt i; FStr root; FErr e]))
          | Ok info =>
              if negb (is_dir info) then
                ret (Err (Errorf "daemon.compose.scanRoots[%d] %q is not a directory" [FInt i; FStr root]))
              else check_scan_roots (i + 1) (add_name clean seen) roots
          end
  end.
Definition validateCompose (cfg : ComposeConfig) : M (res unit) :=
  if negb (bool_decide (StacksPath cfg = [])) && negb (IsAbs (StacksPath cfg)) then
    ret (Err (Errorf "daemon.compose.stacksPath must be an absolute path" []))
  else if (ScanDepth cfg <? 0) || (12 <? ScanDepth cfg) then
    ret (Err (Errorf "daemon.compose.scanDepth must be between 0 and 12" []))
  else check_scan_roots 0 ∅ (ScanRoots cfg).

Definition needs_helper (cfg : PrivConfig) (files : FilesConfig) : bool :=
  priv_Systemd cfg || priv_Packages cfg || priv_Firewall cfg || existsb root_Privileged (files_Roots files).
Definition helper_path (cfg : PrivConfig) : str :=
  if bool_decide (priv_Helper cfg = []) then FilesDefaultPrivilegedHelper else priv_Helper cfg.
Definition validatePriv (cfg : PrivConfig) (files : FilesConfig) : M (res unit) :=
  if negb (bool_decide (priv_Helper cfg = [])) && negb (IsAbs (priv_Helper cfg)) then
    ret (Err (Errorf "daemon.priv.helper must be an absolute path" []))
  else if negb (needs_helper cfg files) then ret (Ok tt)
  else
    let helper := helper_path cfg in
    do st := os_Stat helper in
    match st with
    | Err e => ret (Err (Errorf "daemon.priv.helper %q is not usable: %w" [FStr helper; FErr e]))
    | Ok info =>
        if is_dir info || negb (perm_any info 73) then
          ret (Err (Errorf "daemon.priv.helper %q is not an executable file" [FStr helper]))
        else ret (Ok tt)
    end.

(** ** [ValidateDaemon] *)

(** [transport], normalised for the checks only. *)
Definition transport_of `{Unicode} (c : DaemonConfig) : str :=
  let t := ToLower (TrimSpace (d_Transport c)) in if bool_decide (t = []) then $"http" else t.

Section validate.
Context `{Unicode, Host}.

Definition check_transport (c : DaemonConfig) : res unit :=
  let transport := transport_of c in
  let? _ := guard (bool_decide (TrimSpace (d_ID c) = [])) (Errorf "daemon.id is required in daemon mode" []) in
  let? _ := guard (negb (bool_decide (transport = $"http")) && negb (bool_decide (transport = $"stdio")))
    (Errorf "daemon.transport must be http or stdio" []) in
  if bool_decide (transport = $"http") then
    match validateListen (d_Listen c) with
    | Err e => Err (Errorf "daemon.listen: %w" [FErr e])
    | Ok _ => guard (bool_decide (TrimSpace (d_MetricsSecret c) = []))
                (Errorf "daemon.metricsSecret is required for http transport" [])
    end
  else Ok tt.

Definition check_intervals (c : DaemonConfig) : res unit :=
  let positive v name := guard (v <=? 0) (Errorf "%s must be positive" [FStr name]) in
  let natural v name := guard (v <? 0) (Errorf "%s must not be negative" [FStr name]) in
  let? _ := positive (d_MetricsInterval c) ($"daemon.metricsInterval") in
  let? _ := positive (d_StreamInterval c) ($"daemon.streamInterval") in
  let? _ := natural (d_ContainersInterval c) ($"daemon.containersInterval") in
  let? _ := natural (d_ImagesInterval c) ($"daemon.imagesInterval") in
  let? _ := natural (d_ProcessesInterval c) ($"daemon.processesInterval") in
  let? _ := natural (d_SystemdInterval c) ($"daemon.systemdInterval") in
  let? _ := natural (d_LogsInterval c) ($"daemon.logsInterval") in
  let? _ := natural (d_UpdateCheckInterval c) ($"daemon.updateCheckInterval") in
  natural (d_RuntimesInterval c) ($"daemon.runtimesInterval").

Definition check_runtime (i : Z) (seen : strset) (name : str) : res (str * strset) :=
  if negb (matches runtimeNamePattern name) then
    Err (Errorf "daemon.runtimes[%d] must match [a-z][a-z0-9_-]*" [FInt i])
  else if is_seen name seen then Err (Errorf "daemon.runtimes[%d] %q is duplicated" [FInt i; FStr name])
  else Ok (name, add_name name seen).
Definition check_watched (i : Z) (seen : strset) (name : str) : res (str * strset) :=
  if negb (matches watchedProcessNamePattern name) then
    Err (Errorf "daemon.watchedProcesses[%d] must match [A-Za-z0-9][A-Za-z0-9._-]*" [FInt i])
  else if is_seen name seen then
    Err (Errorf "daemon.watchedProcesses[%d] %q is duplicated" [FInt i; FStr name])
  else Ok (name, add_name name seen).

Definition check_limits (c : DaemonConfig) : res unit :=
  let? _ := guard ((d_ProcessesLimit c <? 1) || (500 <? d_ProcessesLimit c))
    (Errorf "daemon.processesLimit must be between 1 and 500" []) in
  let? _ := guard ((d_MetricsRetentionDays c <? 0) || (30 <? d_MetricsRetentionDays c))
    (Errorf "daemon.metricsRetentionDays must be 0 (default) or between 1 and 30" []) in
  let? _ := guard (d_RequestTimeout c <=? 0) (Errorf "daemon.requestTimeout must be positive" []) in
  let? _ := guard (d_ScriptTimeout c <? 0)
    (Errorf "daemon.scriptTimeout must not be negative (0 disables the run deadline)" []) in
  let? _ := guard (d_MaxBodyBytes c <=? 0) (Errorf "daemon.maxBodyBytes must be positive" []) in
  guard (d_MaxConcurrentRuns c <=? 0) (Errorf "daemon.maxConcurrentRuns must be positive" []).

Definition bad_name (name : str) : bool :=
  bool_decide (TrimSpace name = []) || negb (matches webhookNamePattern name).

Definition check_webhook (i : Z) (seen : strset) (hook : WebhookConfig) : res (WebhookConfig * strset) :=
  let name := hook_Name hook in
  let? _ := guard (bad_name name) (Errorf "daemon.webhooks[%d].name must match [A-Za-z0-9._-]+" [FInt i]) in
  let? _ := guard (is_seen name seen) (Errorf "daemon.webhooks[%d].name %q is duplicated" [FInt i; FStr name]) in
  let? _ := guard (IsNativeOpName name)
    (Errorf "daemon.webhooks[%d].name %q is reserved for a built-in operation" [FInt i; FStr name]) in
  let? _ := guard (bool_decide (TrimSpace (hook_Secret hook) = []))
    (Errorf "daemon.webhooks[%d].secret is required" [FInt i]) in
  let? _ := guard (negb (IsAbs (hook_Command hook)))
    (Errorf "daemon.webhooks[%d].command must be an absolute path" [FInt i]) in
  let? _ := validateHookExecution hook ($"webhooks") i in
  Ok (hook, add_name name seen).

Definition check_action (hookNames : strset) (i : Z) (seen : strset) (action : WebhookConfig)
    : res (WebhookConfig * strset) :=
  let name := hook_Name action in
  let? _ := guard (bad_name name) (Errorf "daemon.actions[%d].name must match [A-Za-z0-9._-]+" [FInt i]) in
  let? _ := guard (is_seen name hookNames)
    (Errorf "daemon.actions[%d].name %q collides with a webhook of the same name" [FInt i; FStr name]) in
  let? _ := guard (is_seen name seen) (Errorf "daemon.actions[%d].name %q is duplicated" [FInt i; FStr name]) in
  let? _ := guard (IsNativeOpName name)
    (Errorf "daemon.actions[%d].name %q is reserved for a built-in operation" [FInt i; FStr name]) in
  let? _ := guard (negb (IsAbs (hook_Command action)))
    (Errorf "daemon.actions[%d].command must be an absolute path" [FInt i]) in
  let? _ := validateHookExecution action ($"actions") i in
  Ok (action, add_name name seen).

(** The batch size after its default, and the upload checks. *)
Definition check_upload (c : DaemonConfig) : res Z :=
  let? _ := guard (d_LogsUploadInterval c <? 0) (Errorf "daemon.logsUploadInterval must not be negative" []) in
  let batch := if d_LogsUploadBatchLines c <=? 0 then 100 else d_LogsUploadBatchLines c in
  let? _ := guard (500 <? batch) (Errorf "daemon.logsUploadBatchLines must be between 1 and 500" []) in
  let? _ := guard (d_LogsUploadEnabled c && (d_LogsUploadInterval c <=? 0))
    (Errorf "daemon.logsUploadInterval must be positive when logsUploadEnabled is true" []) in
  let? _ := guard (d_MaxBodyBytes c <=? 0) (Errorf "daemon.maxBodyBytes must be positive" []) in
  let? _ := guard (d_MaxConcurrentRuns c <=? 0) (Errorf "daemon.maxConcurrentRuns must be positive" []) in
  Ok batch.

Definition cooldown_or_default (n : Z) : Z := if n <=? 0 then 300 else n.
Definition enabled_or_default (e : option bool) : option bool := match e with None => Some true | _ => e end.

Definition check_alert (i : Z) (seen : strset) (alert : LogAlertConfig) : res (LogAlertConfig * strset) :=
  let name := TrimSpace (alert_Name alert) in
  let pattern := TrimSpace (alert_Pattern alert) in
  let container := TrimSpace (alert_Container alert) in
  let title := TrimSpace (alert_Title alert) in
  let? _ := guard (bool_decide (name = []) || negb (matches webhookNamePattern name))
    (Errorf "daemon.logAlerts[%d].name must match [A-Za-z0-9._-]+" [FInt i]) in
  let? _ := guard (is_seen name seen) (Errorf "daemon.logAlerts[%d].name %q is duplicated" [FInt i; FStr name]) in
  let? _ := guard (bool_decide (pattern = [])) (Errorf "daemon.logAlerts[%d].pattern is required" [FInt i]) in
  match regexp_Compile pattern with
  | Err e => Err (Errorf "daemon.logAlerts[%d].pattern is invalid: %w" [FInt i; FErr e])
  | Ok _ =>
      Ok (mkLogAlertConfig name pattern container
            (if bool_decide (title = []) then $"Container log alert: " ++ name else title)
            (enabled_or_default (alert_Enabled alert)) (cooldown_or_default (alert_CooldownSeconds alert)),
          add_name name seen)
  end.

(** The loop variable is a copy: the trimmed name is checked and forgotten; only
    [Enabled] is written back. *)
Definition check_job (i : Z) (seen : strset) (job : JobConfig) : res (JobConfig * strset) :=
  let name := TrimSpace (job_Name job) in
  let? _ := guard (bool_decide (name = []) || negb (matches webhookNamePattern name))
    (Errorf "daemon.jobs[%d].name must match [A-Za-z0-9._-]+" [FInt i]) in
  let? _ := guard (is_seen name seen) (Errorf "daemon.jobs[%d].name %q is duplicated" [FInt i; FStr name]) in
  let? _ := guard (bool_decide (TrimSpace (job_Schedule job) = []))
    (Errorf "daemon.jobs[%d].schedule is required" [FInt i]) in
  match cron_ParseStandard (job_Schedule job) with
  | Err e => Err (Errorf "daemon.jobs[%d].schedule %q is not a valid cron expression or descriptor: %w"
               [FInt i; FStr (job_Schedule job); FErr e])
  | Ok _ =>
      let? _ := guard (bool_decide (TrimSpace (job_Action job) = []))
        (Errorf "daemon.jobs[%d].action is required" [FInt i]) in
      let? _ := guard (job_Timeout job <? 0) (Errorf "daemon.jobs[%d].timeout must not be negative" [FInt i]) in
      Ok (mkJobConfig (job_Name job) (job_Schedule job) (job_Action job) (job_Body job)
            (enabled_or_default (job_Enabled job)) (job_Timeout job) (job_NotifyOnFailure job),
          add_name name seen)
  end.

Definition percent_kinds : list str := [$"cpu_percent"; $"memory_used_percent"; $"disk_used_percent"].
Definition check_alarm (i : Z) (seen : strset) (alarm : AlarmConfig) : res (AlarmConfig * strset) :=
  let kind := TrimSpace (alarm_Kind alarm) in
  let target := TrimSpace (alarm_Target alarm) in
  let? _ :=
    if bool_decide (kind ∈ percent_kinds) then
      let? _ := guard (float_le (alarm_Threshold alarm) 0 || float_gt (alarm_Threshold alarm) 100)
        (Errorf "daemon.alarms[%d].threshold must be between 0 and 100" [FInt i]) in
      guard (negb (bool_decide (target = [])))
        (Errorf "daemon.alarms[%d].target is only supported for container_down" [FInt i])
    else
      guard (negb (bool_decide (kind = $"container_down")))
        (Errorf "daemon.alarms[%d].kind must be cpu_percent, memory_used_percent, disk_used_percent, or container_down" [FInt i]) in
  let key := kind ++ [byte 0] ++ target in
  let? _ := guard (is_seen key seen)
    (Errorf "daemon.alarms[%d].kind %q with target %q is duplicated" [FInt i; FStr kind; FStr target]) in
  Ok (mkAlarmConfig kind (alarm_Threshold alarm) target (enabled_or_default (alarm_Enabled alarm))
        (cooldown_or_default (alarm_CooldownSeconds alarm)),
      add_name key seen).

Definition check_cloud (c : DaemonConfig) : res unit :=
  match ValidateCloudURL (d_CloudURL c) with
  | Err e => Err (Errorf "daemon.cloudUrl %w" [FErr e])
  | Ok _ =>
      if relay_Enabled (term_Relay (d_Terminal c)) then
        let? _ := guard (bool_decide (TrimSpace (d_CloudURL c) = []))
          (Errorf "daemon.cloudUrl is required when daemon.terminal.relay.enabled" []) in
        guard (bool_decide (TrimSpace (d_CloudSecret c) = []))
          (Errorf "daemon.cloudSecret is required when daemon.terminal.relay.enabled" [])
      else Ok tt
  end.

Definition hook_names (hooks : list WebhookConfig) : strset := list_to_set (hook_Name <$> hooks).

(** Every check that needs no file system, with the normalised configuration. *)
Definition validate_values (c : DaemonConfig) : res DaemonConfig :=
  let? _ := check_transport c in
  let? _ := check_intervals c in
  let? _ := guard (bool_decide (d_Runtimes c = [])) (Errorf "daemon.runtimes must not be empty" []) in
  let? _ := for_range check_runtime 0 ∅ (d_Runtimes c) in
  let? _ := for_range check_watched 0 ∅ (d_WatchedProcesses c) in
  let? _ := check_limits c in
  let? hooks := for_range check_webhook 0 ∅ (d_Webhooks c) in
  let? actions := for_range (check_action (hook_names hooks)) 0 ∅ (d_Actions c) in
  let? batch := check_upload c in
  let? alerts := for_range check_alert 0 ∅ (d_LogAlerts c) in
  let? jobs := for_range check_job 0 ∅ (d_Jobs c) in
  let? alarms := for_range check_alarm 0 ∅ (d_Alarms c) in
  let? _ := check_cloud c in
  let? _ := validateTerminal (d_Terminal c) in
  Ok (set_d_lists actions alarms jobs alerts (set_d_LogsUploadBatchLines batch c)).

(** The configuration as it is after a successful validation; after an error it is
    not used. *)
Definition ValidateDaemon (c : DaemonConfig) : M (res DaemonConfig) :=
  let* c := lift (validate_values c) in
  let* _ := validateFiles (d_Files c) in
  let* _ := validateCompose (d_Compose c) in
  let* _ := validatePriv (d_Priv c) (d_Files c) in
  ret (Ok c).
End validate.

(** ** Cloud mode *)

Section cloud.
Context `{Unicode, Host}.
(** [grpctls.FromEnv]. *)
Variable FromEnv : GRPCConfig.

Definition ClientFiles (c : Config) : GRPCConfig :=
  let g := GRPC c in
  let files := mkGRPCConfig (TrimSpace (CAFile g)) (TrimSpace (ClientCertFile g)) (TrimSpace (ClientKeyFile g)) in
  if bool_decide (CAFile files = []) && bool_decide (ClientCertFile files = [])
     && bool_decide (ClientKeyFile files = [])
  then FromEnv else files.

(** The two files of the map, in whatever order its iteration takes. *)
Fixpoint stat_files (named : list (str * str)) : M (res unit) :=
  match named with
  | [] => ret (Ok tt)
  | (name, path) :: named =>
      if bool_decide (path = []) then stat_files named
      else
        do st := os_Stat path in
        match st with
        | Err e => ret (Err (Errorf "%s: %w" [FStr name; FErr e]))
        | Ok _ => stat_files named
        end
  end.
Definition validateGRPC (reversed : bool) (c : Config) : M (res unit) :=
  let files := ClientFiles c in
  if negb (Bool.eqb (bool_decide (ClientCertFile files = [])) (bool_decide (ClientKeyFile files = []))) then
    ret (Err (Errorf "grpc.clientCertFile and grpc.clientKeyFile must be set together" []))
  else
    let named := [($"grpc.caFile", CAFile files); ($"grpc.clientCertFile", ClientCertFile files)] in
    stat_files (if reversed then rev named else named).

Definition ValidateCloud (reversed : bool) (c : Config) : M (res unit) :=
  let required v name := guard (bool_decide (TrimSpace v = [])) (Errorf "%s is required in cloud mode" [FStr name]) in
  let* _ := lift (
    let? _ := required (db_DSN (Database c)) ($"database.dsn") in
    let? _ := required (disc_Target (Discovery c)) ($"discovery.target") in
    let? _ := required (disc_Service (Discovery c)) ($"discovery.service") in
    required (ws_Target (Workspace c)) ($"workspace.target")) in
  let* _ := validateGRPC reversed c in
  lift (
    let? _ :=
      match validatePort (http_Port (HTTP c)) with
      | Err e => Err (Errorf "http.port: %w" [FErr e])
      | Ok _ => Ok tt
      end in
    let? _ := check_range (fun i origin =>
      match validateOriginPattern origin with
      | Err e => Err (Errorf "http.allowedOrigins[%d] %w" [FInt i; FErr e])
      | Ok _ => Ok tt
      end) (http_AllowedOrigins (HTTP c)) in
    let natural v name := guard (v <? 0) (Errorf "%s must not be negative" [FStr name]) in
    let? _ := natural (DaemonDisconnectAfter (Cloud c)) ($"cloud.daemonDisconnectAfter") in
    let? _ := natural (DaemonDisconnectNotificationCooldown (Cloud c)) ($"cloud.daemonDisconnectNotificationCooldown") in
    natural (AlarmCheckInterval (Cloud c)) ($"cloud.alarmCheckInterval")).
End cloud.

(** ** Fragments *)

(** The [.toml] files of a fragment directory in name order; [None] when the
    directory does not exist. *)
Definition fragment_paths (what : string) (dir : str) : M (res (option (list str))) :=
  do entries := os_ReadDir dir in
  match entries with
  | Err (Errno ENOENT) => ret (Ok None)
  | Err e => ret (Err (Errorf what [FStr dir; FErr e]))
  | Ok entries =>
      let named := filter (fun e => negb (is_dir e.2) && HasSuffix e.1 ($".toml") = true) entries in
      ret (Ok (Some (sort_strings ((fun e => Join [dir; e.1]) <$> named))))
  end.

(** The fragments at the paths, in order, with the names they carry. *)
Fixpoint load_all {A} (load : str -> M (res A)) (paths : list str) : M (res (list A)) :=
  match paths with
  | [] => ret (Ok [])
  | path :: paths =>
      let* x := load path in
      let* rest := load_all load paths in
      ret (Ok (x :: rest))
  end.

(** The inline entries no fragment covers, then the fragments. *)
Fixpoint uncovered {A} (key : A -> str) (names : strset) (inline : list A) : list A :=
  match inline with
  | [] => []
  | x :: inline => if is_seen (key x) names then uncovered key names inline else x :: uncovered key names inline
  end.
Definition merge {A} (key : A -> str) (inline fragments : list A) : list A :=
  uncovered key (list_to_set (key <$> fragments)) inline ++ fragments.

(** A whole loader: a blank directory name, a missing directory and (for three of
    the four) a directory without fragments leave the inline list alone. *)
Definition load_fragments {A} (what : string) (load : str -> M (res A)) (key : A -> str) (dir : str)
    (inline : list A) : M (res (list A)) :=
  let dir := TrimSpace dir in
  if bool_decide (dir = []) then ret (Ok inline)
  else
    let* paths := fragment_paths what dir in
    match paths with
    | None => ret (Ok inline)
    | Some paths =>
        if bool_decide (paths = []) then ret (Ok inline)
        else
          let* fragments := load_all load paths in
          ret (Ok (merge key inline fragments))
    end.

Section loading.
Context `{Unicode}.
(** viper: a TOML table read from a file's bytes, and its decoding. *)
Variable table : Type.
Variable ReadInConfig : str -> res table.
Variable Unmarshal_hook : table -> res WebhookConfig.
Variable Unmarshal_alarm : table -> res AlarmConfig.
Variable Unmarshal_job : table -> res JobConfig.
Variable Unmarshal_alert : table -> res LogAlertConfig.

(** One fragment: read, decode, and refuse a blank name. *)
Definition load_fragment {A} (read parse blank : string) (unmarshal : table -> res A) (key : A -> str)
    (path : str) : M (res A) :=
  do raw := os_ReadFile path in
  match (let? bytes := raw in ReadInConfig bytes) with
  | Err e => ret (Err (Errorf read [FStr path; FErr e]))
  | Ok t =>
      match unmarshal t with
      | Err e => ret (Err (Errorf parse [FStr path; FErr e]))
      | Ok x =>
          if bool_decide (TrimSpace (key x) = []) then ret (Err (Errorf blank [FStr path]))
          else ret (Ok x)
      end
  end.
Definition loadActionFragment : str -> M (res WebhookConfig) :=
  load_fragment "read action fragment %s: %w" "parse action fragment %s: %w" "action fragment %s has no name"
    Unmarshal_hook hook_Name.
Definition loadAlarmFragment : str -> M (res AlarmConfig) :=
  load_fragment "read alarm fragment %s: %w" "parse alarm fragment %s: %w" "alarm fragment %s has no kind"
    Unmarshal_alarm alarm_Kind.
Definition loadJobFragment : str -> M (res JobConfig) :=
  load_fragment "read job fragment %s: %w" "parse job fragment %s: %w" "job fragment %s has no name"
    Unmarshal_job job_Name.
Definition loadLogAlertFragment : str -> M (res LogAlertConfig) :=
  load_fragment "read log alert fragment %s: %w" "parse log alert fragment %s: %w"
    "log alert fragment %s has no name" Unmarshal_alert alert_Name.

Definition loadActionFragments (c : DaemonConfig) : M (res DaemonConfig) :=
  let* actions := load_fragments "read actions dir %s: %w" loadActionFragment hook_Name (d_ActionsDir c) (d_Actions c) in
  ret (Ok (set_d_lists actions (d_Alarms c) (d_Jobs c) (d_LogAlerts c) c)).
Definition loadAlarmFragments (c : DaemonConfig) : M (res DaemonConfig) :=
  let* alarms := load_fragments "read alarms dir %s: %w" loadAlarmFragment alarm_Kind (d_AlarmsDir c) (d_Alarms c) in
  ret (Ok (set_d_lists (d_Actions c) alarms (d_Jobs c) (d_LogAlerts c) c)).
Definition loadJobFragments (c : DaemonConfig) : M (res DaemonConfig) :=
  let* jobs := load_fragments "read jobs dir %s: %w" loadJobFragment job_Name (d_JobsDir c) (d_Jobs c) in
  ret (Ok (set_d_lists (d_Actions c) (d_Alarms c) jobs (d_LogAlerts c) c)).
(** This loader merges even when there are no fragments, which is the identity. *)
Definition loadLogAlertFragments (c : DaemonConfig) : M (res DaemonConfig) :=
  let dir := TrimSpace (d_LogAlertsDir c) in
  if bool_decide (dir = []) then ret (Ok c)
  else
    let* paths := fragment_paths "read log alerts dir %s: %w" dir in
    match paths with
    | None => ret (Ok c)
    | Some paths =>
        let* fragments := load_all loadLogAlertFragment paths in
        ret (Ok (set_d_lists (d_Actions c) (d_Alarms c) (d_Jobs c) (merge alert_Name (d_LogAlerts c) fragments) c))
    end.

(** Decoding the main file and the environment aliases over the defaults, and the
    variable that names the file when no argument does. *)
Variable Unmarshal_config : Config -> option table -> res Config.
Variable CONFIG_PATH : str.
Definition hostIDPath : str := $"/etc/maidcafe/host-id".

Definition Load (configPath : str) : M (res Config) :=
  let configPath := if bool_decide (configPath = []) then CONFIG_PATH else configPath in
  let* file :=
    if bool_decide (configPath = []) then ret (Ok None)
    else
      do raw := os_ReadFile configPath in
      match (let? bytes := raw in ReadInConfig bytes) with
      | Err e => ret (Err (Errorf "read config: %w" [FErr e]))
      | Ok t => ret (Ok (Some t))
      end in
  match Unmarshal_config default_config file with
  | Err e => ret (Err (Errorf "unmarshal config: %w" [FErr e]))
  | Ok cfg =>
      let* d := loadLogAlertFragments (Daemon cfg) in
      let* d := loadActionFragments d in
      let* d := loadAlarmFragments d in
      let* d := loadJobFragments d in
      do raw := os_ReadFile hostIDPath in
      let d := match raw with Ok id => set_d_HostID (TrimSpace id) d | Err _ => d end in
      ret (Ok (set_Daemon d cfg))
  end.
End loading.
