(* ===== verification/ConfigFacts.v ===== *)
(** * ConfigFacts: what a validated or loaded configuration guarantees *)

From Stdlib Require Import QArith.
From S2P Require Import Prelude GoStr Regex GoPath GoOS GoOSFacts GoMatch PrivPackages PrivFirewall PrivSet PrivSetFacts Config.
Open Scope Z_scope.

(** ** Loops *)

Lemma add_name_self x seen : x ∈ add_name x seen.
Proof. unfold add_name. apply elem_of_union. left. by apply elem_of_singleton. Qed.
Lemma add_name_mono x y seen : y ∈ seen -> y ∈ add_name x seen.
Proof. unfold add_name. rewrite elem_of_union. by right. Qed.

Section for_range.
Context {A : Type}.
Variable (body : Z -> strset -> A -> res (A * strset)) (key : A -> str) (R : A -> A -> Prop).
(** A round relates its element to what it becomes and records a new key. *)
Hypothesis round : forall i seen x y seen', body i seen x = Ok (y, seen') ->
  R x y /\ key x ∉ seen /\ seen' = add_name (key x) seen.

Lemma for_range_ok i seen l l' : for_range body i seen l = Ok l' ->
  Forall2 R l l' /\ NoDup (key <$> l) /\ Forall (fun x => key x ∉ seen) l.
Proof using round.
  revert i seen l'. induction l as [|x l IH]; intros i seen l'; cbn [for_range].
  - intros [= <-]. split_and!; constructor.
  - intros H. apply res_bind_ok in H as ([y seen1] & Hb & H). apply res_bind_ok in H as (rest & Hr & H).
    injection H as <-. apply round in Hb as (HR & Hk & ->). apply IH in Hr as (HF & Hnd & Hout).
    rewrite Forall_forall in Hout. split_and!; [by constructor| |].
    + rewrite fmap_cons. apply NoDup_cons. split; [|done]. intros (z & Hz & Hin)%list_elem_of_fmap.
      apply (Hout _ Hin). rewrite <-Hz. apply add_name_self.
    + constructor; [done|]. apply Forall_forall. intros z Hz Hin. apply (Hout _ Hz). by apply add_name_mono.
Qed.
End for_range.

(** Running the loop again over its own result changes nothing when each round
    is stable. *)
Section for_range_again.
Context {A : Type}.
Variable body : Z -> strset -> A -> res (A * strset).
Hypothesis stable : forall i seen x y seen', body i seen x = Ok (y, seen') -> body i seen y = Ok (y, seen').

Lemma for_range_again i seen l l' : for_range body i seen l = Ok l' -> for_range body i seen l' = Ok l'.
Proof using stable.
  revert i seen l'. induction l as [|x l IH]; intros i seen l'; cbn [for_range]; [by intros [= <-]|].
  intros H. apply res_bind_ok in H as ([y seen1] & Hb & H). apply res_bind_ok in H as (rest & Hr & H).
  injection H as <-. cbn [for_range]. rewrite (stable _ _ _ _ _ Hb). cbn [res_bind].
  by rewrite (IH _ _ _ Hr).
Qed.
End for_range_again.

Lemma Forall2_same {A} (P : A -> Prop) (l l' : list A) : Forall2 (fun x y => x = y /\ P y) l l' -> l = l' /\ Forall P l'.
Proof. induction 1 as [|x y l l' [-> HP] _ [-> HF]]; [done|]. split; [done|]. by constructor. Qed.

Lemma check_range_ok {A} (body : Z -> A -> res unit) (P : A -> Prop) l u :
  (forall i x v, body i x = Ok v -> P x) -> check_range body l = Ok u -> Forall P l.
Proof.
  intros Hb. unfold check_range. intros H. apply res_bind_ok in H as (l' & H & _).
  revert H. generalize 0, (∅ : strset), l'. clear l'. induction l as [|x l IH]; intros i seen l'; cbn [for_range]; [constructor|].
  intros H. apply res_bind_ok in H as ([y seen1] & H1 & H). apply res_bind_ok in H1 as (v & Hv & H1).
  apply res_bind_ok in H as (rest & H & _). injection H1 as <- <-. constructor; [by eapply Hb|by eapply IH].
Qed.

(** ** What validation establishes *)

Definition hook_exec_ok (h : WebhookConfig) : Prop :=
  (hook_Cwd h = [] \/ IsAbs (hook_Cwd h) = true) /\
  Forall (fun kv => matches envAssignmentPattern kv = true) (hook_Env h) /\ 0 <= hook_Timeout h.
Record hook_ok (h : WebhookConfig) : Prop := {
  hook_name_ok : matches webhookNamePattern (hook_Name h) = true;
  hook_not_native : hook_Name h ∉ NativeOpNames;
  hook_command_abs : IsAbs (hook_Command h) = true;
  hook_exec : hook_exec_ok h;
}.
Record alert_ok (a : LogAlertConfig) : Prop := {
  alert_name_ok : matches webhookNamePattern (alert_Name a) = true;
  alert_pattern : alert_Pattern a <> [];
  alert_title : alert_Title a <> [];
  alert_enabled : is_Some (alert_Enabled a);
  alert_cooldown : 0 < alert_CooldownSeconds a;
}.
Record job_ok (j : JobConfig) : Prop := {
  job_name_ok : matches webhookNamePattern (TrimSpace (job_Name j)) = true;
  job_action : TrimSpace (job_Action j) <> [];
  job_enabled : is_Some (job_Enabled j);
  job_timeout : 0 <= job_Timeout j;
}.
(** A percentage, or not a number. *)
Definition threshold_ok (t : float64) : Prop :=
  t = FNaN \/ exists q, t = FNum q /\ (0 < q)%Q /\ (q <= 100)%Q.
Record alarm_ok (a : AlarmConfig) : Prop := {
  alarm_kind : alarm_Kind a = $"container_down" \/
    alarm_Kind a ∈ percent_kinds /\ alarm_Target a = [] /\ threshold_ok (alarm_Threshold a);
  alarm_enabled : is_Some (alarm_Enabled a);
  alarm_cooldown : 0 < alarm_CooldownSeconds a;
}.
Record terminal_ok (t : TerminalConfig) : Prop := {
  term_shells : (term_Enabled t || relay_Enabled (term_Relay t) = true -> term_Shells t <> []) /\
    Forall (fun s => IsAbs s = true) (term_Shells t) /\ NoDup (term_Shells t);
  term_users : NoDup (term_Users t) /\ NoDup (relay_Users (term_Relay t)) /\ [] ∉ relay_Users (term_Relay t);
  term_env : Forall (fun kv => matches envAssignmentPattern kv = true) (term_Env t);
  term_origins : Forall (fun o => o <> [] /\ o <> $"*") (term_AllowedOrigins t);
  term_sessions : 0 <= term_MaxSessions t <= 8;
  term_times : 0 <= term_IdleTimeout t /\ 0 <= term_MaxLifetime t /\
    (0 < term_MaxLifetime t -> 0 < term_IdleTimeout t -> term_IdleTimeout t <= term_MaxLifetime t);
  term_poll : relay_PollWait (term_Relay t) = 0 \/
    3 * Second <= relay_PollWait (term_Relay t) <= 25 * Second;
}.

Section values.
Context `{Unicode, Host}.

Record daemon_ok (c : DaemonConfig) : Prop := {
  ok_names : NoDup ((hook_Name <$> d_Webhooks c) ++ (hook_Name <$> d_Actions c));
  ok_hooks : Forall hook_ok (d_Webhooks c ++ d_Actions c);
  ok_secrets : Forall (fun h => TrimSpace (hook_Secret h) <> []) (d_Webhooks c);
  ok_alerts : Forall alert_ok (d_LogAlerts c) /\ NoDup (alert_Name <$> d_LogAlerts c);
  ok_jobs : Forall job_ok (d_Jobs c) /\ NoDup ((fun j => TrimSpace (job_Name j)) <$> d_Jobs c);
  ok_alarms : Forall alarm_ok (d_Alarms c) /\ NoDup ((fun a => (alarm_Kind a, alarm_Target a)) <$> d_Alarms c);
  ok_runtimes : d_Runtimes c <> [] /\ NoDup (d_Runtimes c) /\
    Forall (fun r => matches runtimeNamePattern r = true) (d_Runtimes c);
  ok_watched : NoDup (d_WatchedProcesses c) /\
    Forall (fun p => ValidWatchedProcessName p = true) (d_WatchedProcesses c);
  ok_intervals : 0 < d_MetricsInterval c /\ 0 < d_StreamInterval c /\
    Forall (fun v => 0 <= v) [d_ContainersInterval c; d_ImagesInterval c; d_ProcessesInterval c;
      d_SystemdInterval c; d_LogsInterval c; d_UpdateCheckInterval c; d_RuntimesInterval c;
      d_LogsUploadInterval c; d_ScriptTimeout c];
  ok_limits : 1 <= d_ProcessesLimit c <= 500 /\ 0 <= d_MetricsRetentionDays c <= 30 /\
    0 < d_RequestTimeout c /\ 0 < d_MaxBodyBytes c /\ 0 < d_MaxConcurrentRuns c /\
    1 <= d_LogsUploadBatchLines c <= 500;
  ok_transport : (transport_of c = $"http" /\ TrimSpace (d_MetricsSecret c) <> []) \/ transport_of c = $"stdio";
  ok_relay : relay_Enabled (term_Relay (d_Terminal c)) = true ->
    TrimSpace (d_CloudURL c) <> [] /\ TrimSpace (d_CloudSecret c) <> [];
  ok_terminal : terminal_ok (d_Terminal c);
}.

(** ** Round by round *)

Lemma in_slugs_spec slugs name : in_slugs slugs name = true <-> name ∈ slugs.
Proof.
  induction slugs as [|s slugs IH]; cbn [in_slugs]; [split; [done|by intros ?%elem_of_nil]|].
  rewrite elem_of_cons, <-IH. case_bool_decide; naive_solver.
Qed.
Lemma IsNativeOpName_false name : IsNativeOpName name = false <-> name ∉ NativeOpNames.
Proof. unfold IsNativeOpName. rewrite <-in_slugs_spec. by destruct (in_slugs _ _). Qed.
Lemma is_seen_false name seen : is_seen name seen = false <-> name ∉ seen.
Proof. apply bool_decide_eq_false. Qed.

(** Invert a chain of guards that ends in [Ok (y, seen')]. *)
Local Ltac invert_round :=
  repeat (inv_ok; bools;
    match goal with
    | H : (if _ then _ else _) = Ok _ |- _ => break_if_in H; try discriminate H
    | H : match ?r with Ok _ => _ | Err _ => _ end = Ok _ |- _ => destruct r eqn:?; try discriminate H
    end); inv_ok; bools;
  repeat match goal with
  | H : is_seen _ _ = false |- _ => apply is_seen_false in H
  | H : IsNativeOpName _ = false |- _ => apply IsNativeOpName_false in H
  end; simplify_eq.

Lemma check_runtime_ok i seen x y seen' : check_runtime i seen x = Ok (y, seen') ->
  (x = y /\ matches runtimeNamePattern y = true) /\ x ∉ seen /\ seen' = add_name x seen.
Proof. unfold check_runtime. intros E. by invert_round. Qed.
Lemma check_watched_ok i seen x y seen' : check_watched i seen x = Ok (y, seen') ->
  (x = y /\ ValidWatchedProcessName y = true) /\ x ∉ seen /\ seen' = add_name x seen.
Proof. unfold check_watched. intros E. by invert_round. Qed.

Lemma validateHookExecution_ok hook kind i u : validateHookExecution hook kind i = Ok u -> hook_exec_ok hook.
Proof.
  unfold validateHookExecution. intros E. break_if_in E; [done|]. inv_ok. bools. split_and!; [|..|done].
  - apply andb_false_iff in Hif as [Hif|Hif]; bools; auto.
  - eapply check_range_ok; [|exact Hstep0]. intros j x v Hg. cbv beta in Hg. inv_ok. by bools.
Qed.

Lemma check_webhook_ok i seen x y seen' : check_webhook i seen x = Ok (y, seen') ->
  (x = y /\ (hook_ok y /\ TrimSpace (hook_Secret y) <> [])) /\ hook_Name x ∉ seen /\
  seen' = add_name (hook_Name x) seen.
Proof.
  unfold check_webhook, bad_name. intros E. invert_round.
  split; [split; [done|]|by split]. split; [|done]. constructor; [done..|by eapply validateHookExecution_ok].
Qed.
Lemma check_action_ok names i seen x y seen' : check_action names i seen x = Ok (y, seen') ->
  (x = y /\ (hook_ok y /\ hook_Name y ∉ names)) /\ hook_Name x ∉ seen /\ seen' = add_name (hook_Name x) seen.
Proof.
  unfold check_action, bad_name. intros E. invert_round.
  split; [split; [done|]|by split]. split; [|done].
  constructor; [done..|by eapply validateHookExecution_ok].
Qed.

Lemma cooldown_positive n : 0 < cooldown_or_default n.
Proof. unfold cooldown_or_default. destruct (n <=? 0) eqn:E; bools; lia. Qed.
Lemma enabled_some e : is_Some (enabled_or_default e).
Proof. by destruct e; eexists. Qed.

Lemma check_alert_ok i seen x y seen' : check_alert i seen x = Ok (y, seen') ->
  (alert_Name y = TrimSpace (alert_Name x) /\ alert_ok y) /\ TrimSpace (alert_Name x) ∉ seen /\
  seen' = add_name (TrimSpace (alert_Name x)) seen.
Proof.
  unfold check_alert. intros E. invert_round. cbn [alert_Name].
  split; [split; [done|]|by split].
  constructor; cbn; [done|done| |apply enabled_some|apply cooldown_positive]. by case_bool_decide.
Qed.
Lemma check_job_ok i seen x y seen' : check_job i seen x = Ok (y, seen') ->
  (job_Name y = job_Name x /\ job_ok y) /\ TrimSpace (job_Name x) ∉ seen /\
  seen' = add_name (TrimSpace (job_Name x)) seen.
Proof.
  unfold check_job. intros E. invert_round. cbn [job_Name].
  split; [split; [done|]|by split]. by constructor; cbn; [..|apply enabled_some|].
Qed.

Definition alarm_key (a : AlarmConfig) : str := TrimSpace (alarm_Kind a) ++ [byte 0] ++ TrimSpace (alarm_Target a).
Lemma check_alarm_ok i seen x y seen' : check_alarm i seen x = Ok (y, seen') ->
  (alarm_Kind y = TrimSpace (alarm_Kind x) /\ alarm_Target y = TrimSpace (alarm_Target x) /\ alarm_ok y) /\
  alarm_key x ∉ seen /\ seen' = add_name (alarm_key x) seen.
Proof.
  unfold check_alarm. intros E. inv_ok. bools. apply is_seen_false in Hstep0. simplify_eq. cbn [alarm_Kind alarm_Target].
  split; [split_and!; [done|done|]|by split].
  constructor; cbn; [|apply enabled_some|apply cooldown_positive].
  case_bool_decide as Hk; inv_ok; bools; [|auto]. right. split_and!; [done|done|].
  destruct (alarm_Threshold x) as [q|neg|]; [|by destruct neg|by left].
  right. exists q. split; [done|]. cbn in *. bools. split.
  - apply Qnot_le_lt. intros Hle. apply Qle_bool_iff in Hle. congruence.
  - by apply Qle_bool_iff.
Qed.

(** ** The whole *)

Lemma check_shell_ok i seen x y seen' : check_shell i seen x = Ok (y, seen') ->
  (x = y /\ IsAbs y = true) /\ x ∉ seen /\ seen' = add_name x seen.
Proof. unfold check_shell. intros E. by invert_round. Qed.
Lemma check_user_ok i seen x y seen' : check_user i seen x = Ok (y, seen') ->
  (x = y /\ True) /\ x ∉ seen /\ seen' = add_name x seen.
Proof. unfold check_user. intros E. by invert_round. Qed.
Lemma check_relay_user_ok i seen x y seen' : check_relay_user i seen x = Ok (y, seen') ->
  (x = y /\ [] <> y) /\ x ∉ seen /\ seen' = add_name x seen.
Proof. unfold check_relay_user. intros E. invert_round. by split_and!. Qed.
Lemma validateOriginPattern_ok o u : validateOriginPattern o = Ok u -> o <> [] /\ o <> $"*".
Proof. unfold validateOriginPattern. intros E. by invert_round. Qed.

Lemma map_id_list {A} (l : list A) : (fun x => x) <$> l = l.
Proof. apply list_fmap_id. Qed.

(** A loop that checks names: the names are distinct and each satisfies [P]. *)
Lemma for_range_names body (P : str -> Prop) l l' :
  (forall i seen x y seen', body i seen x = Ok (y, seen') -> (x = y /\ P y) /\ x ∉ seen /\ seen' = add_name x seen) ->
  for_range body 0 ∅ l = Ok l' -> NoDup l /\ Forall P l.
Proof.
  intros Hb E. destruct (for_range_ok body (fun x => x) (fun x y => x = y /\ P y) Hb _ _ _ _ E) as (HF & Hnd & _).
  rewrite map_id_list in Hnd. apply Forall2_same in HF as [-> HF]. done.
Qed.

Lemma validateTerminal_ok t u : validateTerminal t = Ok u -> terminal_ok t.
Proof.
  unfold validateTerminal. intros E. inv_ok. bools.
  destruct (for_range_names _ _ _ _ check_shell_ok Hstep0) as [Hs1 Hs2].
  destruct (for_range_names _ _ _ _ check_user_ok Hstep1) as [Hu1 _].
  destruct (for_range_names _ _ _ _ check_relay_user_ok Hstep10) as [Hr1 Hr2].
  constructor.
  - split_and!; [|done|done]. intros Hen Hnil. rewrite Hen, Hnil in Hstep. done.
  - split_and!; [done|done|]. intros Hin. rewrite Forall_forall in Hr2. by apply Hr2 in Hin.
  - eapply check_range_ok; [|exact Hstep3]. intros i x v Hg. cbv beta in Hg. inv_ok. by bools.
  - eapply check_range_ok; [|exact Hstep5]. intros i x v Hg. cbv beta in Hg.
    destruct (validateOriginPattern x) eqn:Eo; [|done]. by apply validateOriginPattern_ok in Eo.
  - unfold TerminalMaxSessionsLimit in *. lia.
  - split_and!; [done|done|]. intros Hx1 Hx2.
    rewrite (proj2 (Z.ltb_lt _ _) Hx1), (proj2 (Z.ltb_lt _ _) Hx2) in Hstep9. simpl in Hstep9. by bools.
  - unfold TerminalRelayMinPollWait, TerminalRelayMaxPollWait in *.
    destruct (relay_PollWait (term_Relay t) =? 0) eqn:Ep; bools; [by left|right].
    simpl in E. bools. lia.
Qed.

Lemma alarm_keys_nodup (l l' : list AlarmConfig) :
  Forall2 (fun x y => alarm_Kind y = TrimSpace (alarm_Kind x) /\ alarm_Target y = TrimSpace (alarm_Target x) /\ alarm_ok y) l l' ->
  NoDup (alarm_key <$> l) -> NoDup ((fun a => (alarm_Kind a, alarm_Target a)) <$> l').
Proof.
  intros HF Hnd.
  assert (E : alarm_key <$> l = (fun p : str * str => p.1 ++ [byte 0] ++ p.2) <$> ((fun a => (alarm_Kind a, alarm_Target a)) <$> l')).
  { clear Hnd. induction HF as [|x y l l' (Hk & Ht & _) _ IH]; [done|]. rewrite !fmap_cons, <-IH. simpl.
    unfold alarm_key. by rewrite Hk, Ht. }
  rewrite E in Hnd. by apply NoDup_fmap_1 in Hnd.
Qed.

Lemma fmap_Forall2 {A} (f g : A -> str) (R : A -> A -> Prop) (l l' : list A) :
  (forall x y, R x y -> g y = f x) -> Forall2 R l l' -> g <$> l' = f <$> l.
Proof. intros Hfg. induction 1 as [|x y l l' HR _ IH]; [done|]. rewrite !fmap_cons, IH. f_equal. by apply Hfg. Qed.
Lemma Forall2_right {A} (P : A -> Prop) (R : A -> A -> Prop) (l l' : list A) :
  (forall x y, R x y -> P y) -> Forall2 R l l' -> Forall P l'.
Proof. intros HP. induction 1; constructor; eauto. Qed.

Lemma check_intervals_ok c u : check_intervals c = Ok u ->
  0 < d_MetricsInterval c /\ 0 < d_StreamInterval c /\
  Forall (fun v => 0 <= v) [d_ContainersInterval c; d_ImagesInterval c; d_ProcessesInterval c;
    d_SystemdInterval c; d_LogsInterval c; d_UpdateCheckInterval c; d_RuntimesInterval c].
Proof. unfold check_intervals. intros E. inv_ok. bools. split_and!; [done..|]. by repeat constructor. Qed.
Lemma check_limits_ok c u : check_limits c = Ok u ->
  (1 <= d_ProcessesLimit c <= 500 /\ 0 <= d_MetricsRetentionDays c <= 30 /\
   0 < d_RequestTimeout c /\ 0 < d_MaxBodyBytes c /\ 0 < d_MaxConcurrentRuns c) /\ 0 <= d_ScriptTimeout c.
Proof. unfold check_limits. intros E. inv_ok. bools. done. Qed.
Lemma check_upload_ok c batch : check_upload c = Ok batch -> 1 <= batch <= 500 /\ 0 <= d_LogsUploadInterval c.
Proof.
  unfold check_upload. intros E. inv_ok. bools. split; [|done].
  destruct (d_LogsUploadBatchLines c <=? 0) eqn:Eb; bools; lia.
Qed.
Lemma check_transport_ok c u : check_transport c = Ok u ->
  (transport_of c = $"http" /\ TrimSpace (d_MetricsSecret c) <> []) \/ transport_of c = $"stdio".
Proof.
  unfold check_transport. intros E. inv_ok. bools.
  apply andb_false_iff in Hstep0 as [Hs|Hs]; bools; [|by right].
  rewrite bool_decide_eq_true_2 in E by done. destruct (validateListen _); [|done]. inv_ok. bools. by left.
Qed.
Lemma check_cloud_ok c u : check_cloud c = Ok u -> relay_Enabled (term_Relay (d_Terminal c)) = true ->
  TrimSpace (d_CloudURL c) <> [] /\ TrimSpace (d_CloudSecret c) <> [].
Proof.
  unfold check_cloud. destruct (ValidateCloudURL _); [|done]. intros E Hr. rewrite Hr in E. inv_ok. by bools.
Qed.

(** The four loops over hooks and names, on the configuration they return. *)
Lemma hooks_ok hooks actions hooks' actions' :
  for_range check_webhook 0 ∅ hooks = Ok hooks' ->
  for_range (check_action (hook_names hooks')) 0 ∅ actions = Ok actions' ->
  hooks' = hooks /\ actions' = actions /\
  NoDup ((hook_Name <$> hooks) ++ (hook_Name <$> actions)) /\ Forall hook_ok (hooks ++ actions) /\
  Forall (fun h => TrimSpace (hook_Secret h) <> []) hooks.
Proof.
  intros Hh Ha.
  destruct (for_range_ok _ hook_Name _ check_webhook_ok _ _ _ _ Hh) as (Hh1 & Hh2 & _).
  destruct (for_range_ok _ hook_Name _ (check_action_ok _) _ _ _ _ Ha) as (Ha1 & Ha2 & _).
  apply Forall2_same in Hh1 as [<- Hh1]. apply Forall2_same in Ha1 as [<- Ha1].
  split_and!; [done|done| | |eapply Forall_impl; [exact Hh1|naive_solver]].
  - apply NoDup_app. split_and!; [done| |done]. intros x Hx (a & -> & Hin)%list_elem_of_fmap.
    rewrite Forall_forall in Ha1. destruct (Ha1 _ Hin) as [_ Hno]. apply Hno. unfold hook_names.
    by apply elem_of_list_to_set.
  - apply Forall_app. split; eapply Forall_impl; [exact Hh1| |exact Ha1|]; naive_solver.
Qed.
Lemma alerts_ok l l' : for_range check_alert 0 ∅ l = Ok l' -> Forall alert_ok l' /\ NoDup (alert_Name <$> l').
Proof.
  intros E. destruct (for_range_ok _ _ _ check_alert_ok _ _ _ _ E) as (H1 & H2 & _).
  split; [eapply Forall2_right; [|exact H1]; naive_solver|].
  erewrite fmap_Forall2; [exact H2| |exact H1]. naive_solver.
Qed.
Lemma jobs_ok l l' : for_range check_job 0 ∅ l = Ok l' ->
  Forall job_ok l' /\ NoDup ((fun j => TrimSpace (job_Name j)) <$> l').
Proof.
  intros E. destruct (for_range_ok _ _ _ check_job_ok _ _ _ _ E) as (H1 & H2 & _).
  split; [eapply Forall2_right; [|exact H1]; naive_solver|].
  erewrite (fmap_Forall2 (fun j => TrimSpace (job_Name j)) (fun j => TrimSpace (job_Name j)));
    [exact H2| |exact H1]. intros x y [Hn _]. by rewrite Hn.
Qed.
Lemma alarms_ok l l' : for_range check_alarm 0 ∅ l = Ok l' ->
  Forall alarm_ok l' /\ NoDup ((fun a => (alarm_Kind a, alarm_Target a)) <$> l').
Proof.
  intros E. destruct (for_range_ok _ _ _ check_alarm_ok _ _ _ _ E) as (H1 & H2 & _).
  split; [eapply Forall2_right; [|exact H1]; naive_solver|]. by eapply alarm_keys_nodup.
Qed.

(** What a successful [validate_values] did, step by step. *)
Lemma validate_values_inv c c' : validate_values c = Ok c' ->
  exists runtimes watched batch alerts jobs alarms,
    check_transport c = Ok tt /\ check_intervals c = Ok tt /\ d_Runtimes c <> [] /\
    for_range check_runtime 0 ∅ (d_Runtimes c) = Ok runtimes /\
    for_range check_watched 0 ∅ (d_WatchedProcesses c) = Ok watched /\ check_limits c = Ok tt /\
    for_range check_webhook 0 ∅ (d_Webhooks c) = Ok (d_Webhooks c) /\
    for_range (check_action (hook_names (d_Webhooks c))) 0 ∅ (d_Actions c) = Ok (d_Actions c) /\
    check_upload c = Ok batch /\ for_range check_alert 0 ∅ (d_LogAlerts c) = Ok alerts /\
    for_range check_job 0 ∅ (d_Jobs c) = Ok jobs /\ for_range check_alarm 0 ∅ (d_Alarms c) = Ok alarms /\
    check_cloud c = Ok tt /\ validateTerminal (d_Terminal c) = Ok tt /\
    c' = set_d_lists (d_Actions c) alarms jobs alerts (set_d_LogsUploadBatchLines batch c).
Proof.
  unfold validate_values. intros E.
  apply res_bind_ok in E as ([] & Htr & E). apply res_bind_ok in E as ([] & Hint & E).
  apply res_bind_ok in E as ([] & Hrne & E). apply res_bind_ok in E as (runtimes & Hrt & E).
  apply res_bind_ok in E as (watched & Hw & E). apply res_bind_ok in E as ([] & Hlim & E).
  apply res_bind_ok in E as (hooks & Hh & E). apply res_bind_ok in E as (actions & Ha & E).
  apply res_bind_ok in E as (batch & Hb & E). apply res_bind_ok in E as (alerts & Hal & E).
  apply res_bind_ok in E as (jobs & Hj & E). apply res_bind_ok in E as (alarms & Hm & E).
  apply res_bind_ok in E as ([] & Hc & E). apply res_bind_ok in E as ([] & Ht & E).
  injection E as <-. destruct (hooks_ok _ _ _ _ Hh Ha) as (-> & -> & _). inv_ok. bools.
  exists runtimes, watched, batch, alerts, jobs, alarms. by split_and!.
Qed.

Lemma validate_values_ok c c' : validate_values c = Ok c' -> daemon_ok c'.
Proof.
  intros (rt & w & batch & alerts & jobs & alarms & Htr & Hint & Hrne & Hrt & Hw & Hlim & Hh & Ha & Hb & Hal
    & Hj & Hm & Hc & Ht & ->)%validate_values_inv.
  destruct (for_range_names _ _ _ _ check_runtime_ok Hrt) as [Hr1 Hr2].
  destruct (for_range_names _ _ _ _ check_watched_ok Hw) as [Hw1 Hw2].
  destruct (hooks_ok _ _ _ _ Hh Ha) as (_ & _ & Hn & Hho & Hse).
  apply check_intervals_ok in Hint as (Hi1 & Hi2 & Hi3). apply check_limits_ok in Hlim as [Hlim Hst].
  apply check_upload_ok in Hb as [Hb1 Hb2].
  constructor; cbn; try done.
  - by eapply alerts_ok.
  - by eapply jobs_ok.
  - by eapply alarms_ok.
  - split_and!; [done|done|]. apply (Forall_app_2 _ [_; _; _; _; _; _; _] [_; _]); [exact Hi3|].
    by repeat constructor.
  - naive_solver.
  - by eapply check_transport_ok.
  - by apply (check_cloud_ok c tt).
  - by eapply validateTerminal_ok.
Qed.

(** ** The file-system checks *)

(** A path that stands for an existing directory. *)
Definition is_directory (fs : fsys) (path : str) : Prop :=
  exists p n, os_resolve fs LFollow path = Ok p /\ fs !! p = Some n /\ n_kind n = CDir.
Record file_roots_ok (fs : fsys) (roots : list FilesRootConfig) : Prop := {
  roots_distinct : NoDup ((fun r => Clean (root_Path r)) <$> roots);
  roots_dirs : Forall (fun r => IsAbs (root_Path r) = true /\ is_directory fs (Clean (root_Path r))) roots;
  roots_profiles : Forall (fun r => if root_Privileged r then ValidProfileName (root_Profile r) = true
                                    else root_Profile r = []) roots;
}.
Definition executable (fs : fsys) (path : str) : Prop :=
  exists p n, os_resolve fs LFollow path = Ok p /\ fs !! p = Some n /\ n_kind n <> CDir /\ perm_any n 73 = true.
Record host_ok (fs : fsys) (c : DaemonConfig) : Prop := {
  host_files : files_Enabled (d_Files c) = true ->
    files_Roots (d_Files c) <> [] /\ file_roots_ok fs (files_Roots (d_Files c));
  host_limits : 0 <= files_MaxReadBytes (d_Files c) <= 2 ^ 30 /\ 0 <= files_MaxWriteBytes (d_Files c) <= 2 ^ 30 /\
    0 <= files_MaxListEntries (d_Files c) <= 100000;
  host_scan : Forall (fun r => IsAbs r = true /\ is_directory fs (Clean r)) (ScanRoots (d_Compose c)) /\
    NoDup (Clean <$> ScanRoots (d_Compose c));
  host_helper : priv_Systemd (d_Priv c) || priv_Packages (d_Priv c) || priv_Firewall (d_Priv c) = true \/
    Exists (fun r => root_Privileged r = true) (files_Roots (d_Files c)) ->
    executable fs (helper_path (d_Priv c));
}.

Lemma os_Stat_spec uid fs0 path :
  hoare uid (fun fs => fs = fs0) (os_Stat path)
    (fun r fs => fs = fs0 /\ forall n, r = Ok n -> exists p, os_resolve fs0 LFollow path = Ok p /\ fs0 !! p = Some n).
Proof.
  apply hoare_query; [|done]. intros fs n -> Hn. split; [done|]. intros ? [= <-]. inv_ok.
  exists a. split; [done|]. unfold must_exist in Hn. by case_match; simplify_eq.
Qed.
Lemma stat_directory fs path p n : os_resolve fs LFollow path = Ok p -> fs !! p = Some n -> is_dir n = true ->
  is_directory fs path.
Proof. intros Hp Hn Hd. exists p, n. split_and!; [done|done|]. by apply bool_decide_eq_true in Hd. Qed.

Lemma check_file_roots_ok uid fs0 roots : forall i seen,
  hoare uid (fun fs => fs = fs0) (check_file_roots i seen roots)
    (fun r fs => fs = fs0 /\ forall u, r = Ok u -> file_roots_ok fs0 roots /\
       Forall (fun r => Clean (root_Path r) ∉ seen) roots).
Proof.
  induction roots as [|root roots IH]; intros i seen; cbn [check_file_roots].
  { apply hoare_ret. intros fs ->. split; [done|]. intros _ _. split; [split; constructor|constructor]. }
  assert (Hno : forall e, hoare uid (fun fs => fs = fs0) (ret (Err e)) (fun (r : res unit) fs => fs = fs0 /\
    forall u, r = Ok u -> file_roots_ok fs0 (root :: roots) /\
      Forall (fun r => Clean (root_Path r) ∉ seen) (root :: roots))) by (intros e; by apply hoare_ret).
  destruct (_ || _); [apply Hno|]. destruct (IsAbs (root_Path root)) eqn:Habs; [|apply Hno]. cbn [negb].
  destruct (is_seen _ seen) eqn:Hs; [apply Hno|]. apply is_seen_false in Hs.
  eapply hoare_bind; [apply os_Stat_spec|]. intros [n|e]; [|eapply hoare_conseq; [apply Hno|by intros fs [? _]|done]].
  destruct (is_dir n) eqn:Hd; [|eapply hoare_conseq; [apply Hno|by intros fs [? _]|done]]. cbn [negb].
  destruct (root_Privileged root && _) eqn:Hp1; [eapply hoare_conseq; [apply Hno|by intros fs [? _]|done]|].
  destruct (negb (root_Privileged root) && _) eqn:Hp2; [eapply hoare_conseq; [apply Hno|by intros fs [? _]|done]|].
  intros w Hu [Hw Hn]. destruct (Hn n eq_refl) as (p & Hp & Hpn).
  destruct (IH (i + 1) (add_name (Clean (root_Path root)) seen) w Hu Hw) as (Hu' & Hfs & Hok).
  split; [done|]. split; [done|]. intros u Hr. destruct (Hok u Hr) as ([H1 H2 H3] & H4).
  rewrite Forall_forall in H4. split; [constructor|].
  - rewrite fmap_cons. apply NoDup_cons. split; [|done]. intros (z & Hz & Hin)%list_elem_of_fmap.
    apply (H4 _ Hin). rewrite <-Hz. apply add_name_self.
  - constructor; [|done]. split; [done|]. by eapply stat_directory.
  - constructor; [|done]. destruct (root_Privileged root); simpl in Hp1, Hp2; by bools.
  - constructor; [done|]. apply Forall_forall. intros z Hz Hin. apply (H4 _ Hz). by apply add_name_mono.
Qed.

Lemma check_scan_roots_ok uid fs0 roots : forall i seen,
  hoare uid (fun fs => fs = fs0) (check_scan_roots i seen roots)
    (fun r fs => fs = fs0 /\ forall u, r = Ok u ->
       Forall (fun r => IsAbs r = true /\ is_directory fs0 (Clean r)) roots /\ NoDup (Clean <$> roots) /\
       Forall (fun r => Clean r ∉ seen) roots).
Proof.
  induction roots as [|root roots IH]; intros i seen; cbn [check_scan_roots].
  { apply hoare_ret. intros fs ->. split; [done|]. intros _ _. split_and!; constructor. }
  assert (Hno : forall e, hoare uid (fun fs => fs = fs0) (ret (Err e)) (fun (r : res unit) fs => fs = fs0 /\
    forall u, r = Ok u ->
       Forall (fun r => IsAbs r = true /\ is_directory fs0 (Clean r)) (root :: roots) /\
       NoDup (Clean <$> root :: roots) /\ Forall (fun r => Clean r ∉ seen) (root :: roots)))
    by (intros e; by apply hoare_ret).
  destruct (_ || _); [apply Hno|]. destruct (IsAbs root) eqn:Habs; [|apply Hno]. cbn [negb].
  destruct (is_seen _ seen) eqn:Hs; [apply Hno|]. apply is_seen_false in Hs.
  eapply hoare_bind; [apply os_Stat_spec|]. intros [n|e]; [|eapply hoare_conseq; [apply Hno|by intros fs [? _]|done]].
  destruct (is_dir n) eqn:Hd; [|eapply hoare_conseq; [apply Hno|by intros fs [? _]|done]]. cbn [negb].
  intros w Hu [Hw Hn]. destruct (Hn n eq_refl) as (p & Hp & Hpn).
  destruct (IH (i + 1) (add_name (Clean root) seen) w Hu Hw) as (Hu' & Hfs & Hok).
  split; [done|]. split; [done|]. intros u Hr. destruct (Hok u Hr) as (H1 & H2 & H3).
  rewrite Forall_forall in H3. split_and!.
  - constructor; [|done]. split; [done|]. by eapply stat_directory.
  - rewrite fmap_cons. apply NoDup_cons. split; [|done]. intros (z & Hz & Hin)%list_elem_of_fmap.
    apply (H3 _ Hin). rewrite <-Hz. apply add_name_self.
  - constructor; [done|]. apply Forall_forall. intros z Hz Hin. apply (H3 _ Hz). by apply add_name_mono.
Qed.

Lemma validateFiles_ok uid fs0 cfg :
  hoare uid (fun fs => fs = fs0) (validateFiles cfg)
    (fun r fs => fs = fs0 /\ forall u, r = Ok u ->
      (files_Enabled cfg = true -> files_Roots cfg <> [] /\ file_roots_ok fs0 (files_Roots cfg)) /\
      (0 <= files_MaxReadBytes cfg <= 2 ^ 30 /\ 0 <= files_MaxWriteBytes cfg <= 2 ^ 30 /\
       0 <= files_MaxListEntries cfg <= 100000)).
Proof.
  unfold validateFiles. apply hoare_lift; [|by intros e fs _ ->]. intros [] Hl.
  assert (Hlim : 0 <= files_MaxReadBytes cfg <= 2 ^ 30 /\ 0 <= files_MaxWriteBytes cfg <= 2 ^ 30 /\
       0 <= files_MaxListEntries cfg <= 100000).
  { unfold file_limits in Hl. inv_ok. bools. unfold FilesMaxTransferBytes, FilesMaxListEntriesLimit in *.
    change (Z.shiftl 1 30) with (2 ^ 30) in *. lia. }
  destruct (files_Enabled cfg); cbn [negb]; [|by apply hoare_ret; intros fs ->].
  case_bool_decide; [by apply hoare_ret|].
  eapply hoare_conseq; [apply (check_file_roots_ok uid fs0)|done|]. intros r fs [Hfs Hr]. split; [done|].
  intros u Hu. destruct (Hr u Hu) as [? _]. done.
Qed.
Lemma validateCompose_ok uid fs0 cfg :
  hoare uid (fun fs => fs = fs0) (validateCompose cfg)
    (fun r fs => fs = fs0 /\ forall u, r = Ok u ->
      Forall (fun r => IsAbs r = true /\ is_directory fs0 (Clean r)) (ScanRoots cfg) /\ NoDup (Clean <$> ScanRoots cfg)).
Proof.
  unfold validateCompose. destruct (_ && _); [by apply hoare_ret|]. destruct (_ || _); [by apply hoare_ret|].
  eapply hoare_conseq; [apply (check_scan_roots_ok uid fs0)|done|]. intros r fs [Hfs Hr]. split; [done|].
  intros u Hu. destruct (Hr u Hu) as (? & ? & _). done.
Qed.
Lemma validatePriv_ok uid fs0 cfg files :
  hoare uid (fun fs => fs = fs0) (validatePriv cfg files)
    (fun r fs => fs = fs0 /\ forall u, r = Ok u -> needs_helper cfg files = true -> executable fs0 (helper_path cfg)).
Proof.
  unfold validatePriv. destruct (_ && _); [by apply hoare_ret|].
  destruct (needs_helper cfg files); cbn [negb]; [|by apply hoare_ret].
  eapply hoare_bind; [apply os_Stat_spec|]. intros [n|e]; [|by apply hoare_ret; intros fs [? _]].
  destruct (is_dir n || negb (perm_any n 73)) eqn:E; [by apply hoare_ret; intros fs [? _]|].
  apply hoare_ret. intros fs [Hfs Hn]. split; [done|]. intros _ _ _. destruct (Hn n eq_refl) as (p & Hp & Hpn).
  bools. exists p, n. split_and!; [done..| |done]. intros Hk.
  match goal with Hd : is_dir n = false |- _ => by apply bool_decide_eq_false in Hd end.
Qed.
Lemma needs_helper_spec cfg files : needs_helper cfg files = true <->
  priv_Systemd cfg || priv_Packages cfg || priv_Firewall cfg = true \/
  Exists (fun r => root_Privileged r = true) (files_Roots files).
Proof.
  unfold needs_helper. rewrite orb_true_iff. f_equiv. rewrite existsb_exists, Exists_exists.
  by setoid_rewrite list_elem_of_In.
Qed.

Lemma ValidateDaemon_spec uid fs0 c :
  hoare uid (fun fs => fs = fs0) (ValidateDaemon c)
    (fun r fs => fs = fs0 /\ forall c', r = Ok c' -> validate_values c = Ok c' /\ host_ok fs0 c').
Proof.
  unfold ValidateDaemon. apply hoare_lift; [|by intros e fs _ ->]. intros c1 Hv.
  eapply hoare_try; [apply validateFiles_ok| |by intros e fs [? _]]. intros u1.
  intros w Hu [Hw H1]. revert w Hu Hw.
  change (hoare uid (fun fs => fs = fs0)
    (let* _ := validateCompose (d_Compose c1) in let* _ := validatePriv (d_Priv c1) (d_Files c1) in ret (Ok c1))
    (fun r fs => fs = fs0 /\ forall c', r = Ok c' -> validate_values c = Ok c' /\ host_ok fs0 c')).
  eapply hoare_try; [apply validateCompose_ok| |by intros e fs [? _]]. intros u2.
  intros w Hu [Hw H2]. revert w Hu Hw.
  change (hoare uid (fun fs => fs = fs0) (let* _ := validatePriv (d_Priv c1) (d_Files c1) in ret (Ok c1))
    (fun r fs => fs = fs0 /\ forall c', r = Ok c' -> validate_values c = Ok c' /\ host_ok fs0 c')).
  eapply hoare_try; [apply validatePriv_ok| |by intros e fs [? _]]. intros u3.
  apply hoare_ret. intros fs [-> H3]. split; [done|]. intros c' [= <-]. split; [done|].
  destruct (H1 u1 eq_refl) as [Hf Hlim]. constructor; [done|done|by apply (H2 u2)|].
  intros Hn. apply (H3 u3); [done|]. by apply needs_helper_spec.
Qed.

(** ** Validating again *)

Lemma webhook_name_graphic name : matches webhookNamePattern name = true ->
  name <> [] /\ Forall (fun c => is_graphic c = true) name.
Proof. intros Hm. split; [eapply matches_nonempty|eapply matches_all]; [|exact Hm| |exact Hm]; by vm_compute. Qed.

Lemma alert_title_trimmed name : matches webhookNamePattern name = true ->
  TrimSpace ($"Container log alert: " ++ name) = $"Container log alert: " ++ name.
Proof.
  intros [Hne Hg]%webhook_name_graphic. apply TrimSpace_fixed; [done|].
  destruct name as [|c name _] using rev_ind; [done|]. apply Forall_app in Hg as [_ [Hc _]%Forall_cons].
  rewrite (assoc_L (++)), rev_app_distr. by apply graphic_trail_head.
Qed.

Lemma cooldown_idem n : cooldown_or_default (cooldown_or_default n) = cooldown_or_default n.
Proof. unfold cooldown_or_default at 1. pose proof (cooldown_positive n). by rewrite (proj2 (Z.leb_gt _ _)). Qed.
Lemma enabled_idem e : enabled_or_default (enabled_or_default e) = enabled_or_default e.
Proof. by destruct e. Qed.

Lemma check_alert_stable i seen x y seen' : check_alert i seen x = Ok (y, seen') -> check_alert i seen y = Ok (y, seen').
Proof.
  unfold check_alert. intros E. apply res_bind_ok in E as ([] & H1 & E). apply res_bind_ok in E as ([] & H2 & E).
  apply res_bind_ok in E as ([] & H3 & E). destruct (regexp_Compile _) eqn:Er; [|done]. injection E as <- <-.
  cbn [alert_Name alert_Pattern alert_Container alert_Title alert_Enabled alert_CooldownSeconds].
  set (title := if bool_decide (TrimSpace (alert_Title x) = []) then _ else _).
  assert (Ht : TrimSpace title = title /\ title <> []).
  { apply guard_ok in H1. bools. unfold title. destruct (bool_decide (TrimSpace (alert_Title x) = [])) eqn:Et.
    - split; [by apply alert_title_trimmed|done].
    - bools. by rewrite TrimSpace_idem. }
  destruct Ht as [Ht Hne].
  rewrite !TrimSpace_idem, H1, H2, H3, Er, cooldown_idem, enabled_idem, Ht. cbn [res_bind].
  by rewrite (bool_decide_eq_false_2 _ Hne).
Qed.
Lemma check_job_stable i seen x y seen' : check_job i seen x = Ok (y, seen') -> check_job i seen y = Ok (y, seen').
Proof.
  unfold check_job. intros E. apply res_bind_ok in E as ([] & H1 & E). apply res_bind_ok in E as ([] & H2 & E).
  apply res_bind_ok in E as ([] & H3 & E). destruct (cron_ParseStandard _) eqn:Ec; [|done].
  apply res_bind_ok in E as ([] & H4 & E). apply res_bind_ok in E as ([] & H5 & E). injection E as <- <-.
  cbn [job_Name job_Schedule job_Action job_Body job_Enabled job_Timeout job_NotifyOnFailure].
  rewrite H1, H2, H3, Ec. cbn [res_bind]. by rewrite H4, H5, enabled_idem.
Qed.
Lemma check_alarm_stable i seen x y seen' : check_alarm i seen x = Ok (y, seen') -> check_alarm i seen y = Ok (y, seen').
Proof.
  unfold check_alarm. intros E. apply res_bind_ok in E as ([] & H1 & E). apply res_bind_ok in E as ([] & H2 & E).
  injection E as <- <-. cbn [alarm_Kind alarm_Threshold alarm_Target alarm_Enabled alarm_CooldownSeconds].
  by rewrite !TrimSpace_idem, H1, H2, cooldown_idem, enabled_idem.
Qed.

Lemma validate_values_again c c' : validate_values c = Ok c' -> validate_values c' = Ok c'.
Proof.
  intros (rt & w & batch & alerts & jobs & alarms & Htr & Hint & Hrne & Hrt & Hw & Hlim & Hh & Ha & Hb & Hal
    & Hj & Hm & Hc & Ht & ->)%validate_values_inv.
  set (c' := set_d_lists _ _ _ _ _). unfold validate_values.
  change (check_transport c') with (check_transport c). change (check_intervals c') with (check_intervals c).
  change (check_limits c') with (check_limits c). change (check_cloud c') with (check_cloud c).
  change (d_Runtimes c') with (d_Runtimes c). change (d_WatchedProcesses c') with (d_WatchedProcesses c).
  change (d_Webhooks c') with (d_Webhooks c). change (d_Actions c') with (d_Actions c).
  change (d_LogAlerts c') with alerts. change (d_Jobs c') with jobs. change (d_Alarms c') with alarms.
  change (d_Terminal c') with (d_Terminal c).
  assert (Hb' : check_upload c' = Ok batch).
  { pose proof (check_upload_ok _ _ Hb) as [Hr _]. unfold check_upload in *.
    change (d_LogsUploadInterval c') with (d_LogsUploadInterval c).
    change (d_LogsUploadEnabled c') with (d_LogsUploadEnabled c). change (d_MaxBodyBytes c') with (d_MaxBodyBytes c).
    change (d_MaxConcurrentRuns c') with (d_MaxConcurrentRuns c). change (d_LogsUploadBatchLines c') with batch.
    rewrite (proj2 (Z.leb_gt batch 0)) by lia.
    apply res_bind_ok in Hb as ([] & -> & Hb). apply res_bind_ok in Hb as ([] & Hg & Hb).
    apply res_bind_ok in Hb as ([] & -> & Hb). apply res_bind_ok in Hb as ([] & -> & Hb).
    apply res_bind_ok in Hb as ([] & -> & Hb). injection Hb as Hb. cbn [res_bind].
    rewrite (proj2 (Z.ltb_ge 500 batch)) by lia. done. }
  rewrite Htr, Hint, Hrt, Hw, Hlim, Hh. cbn [res_bind]. rewrite (bool_decide_eq_false_2 _ Hrne). cbn [guard res_bind].
  rewrite Ha. cbn [res_bind]. rewrite Hb'. cbn [res_bind].
  rewrite (for_range_again _ check_alert_stable _ _ _ _ Hal). cbn [res_bind].
  rewrite (for_range_again _ check_job_stable _ _ _ _ Hj). cbn [res_bind].
  rewrite (for_range_again _ check_alarm_stable _ _ _ _ Hm). cbn [res_bind].
  rewrite Hc, Ht. cbn [res_bind]. by destruct c.
Qed.
End values.

Section theorems.
Context `{Unicode, Host}.

(** What a daemon configuration guarantees once it has been validated: webhook
    and action names form one namespace without duplicates or native operation
    names, each with an absolute command; alarms are unique by kind and target,
    jobs and log alerts by name, with their defaults filled in; every interval and
    limit is in range; the terminal policy is consistent; the file roots and scan
    roots are distinct existing directories, a privileged root names a valid
    profile, and the helper is an executable file whenever something is routed to
    it. Validation changes no file. *)
Theorem ValidateDaemon_sound c c' w :
  (ValidateDaemon c w).1 = Ok c' ->
  daemon_ok c' /\ host_ok (w_fs w) c' /\ w_fs (ValidateDaemon c w).2 = w_fs w.
Proof.
  intros Hv. destruct (ValidateDaemon_spec (w_euid w) (w_fs w) c w eq_refl eq_refl) as (_ & Hfs & Hok).
  destruct (Hok _ Hv) as [Hval Hhost]. split_and!; [by eapply validate_values_ok|done|done].
Qed.

(** Validation is a normalisation: the configuration it returns is accepted
    again, in the same state of the machine, and returned unchanged, so validating
    twice (at start and after a reload) never changes or rejects what was
    accepted. *)
Theorem ValidateDaemon_idempotent c c' w :
  (ValidateDaemon c w).1 = Ok c' -> (ValidateDaemon c' w).1 = Ok c'.
Proof.
  intros Hv. destruct (ValidateDaemon_spec (w_euid w) (w_fs w) c w eq_refl eq_refl) as (_ & _ & Hok).
  destruct (Hok _ Hv) as [Hval _]. revert Hv. unfold ValidateDaemon.
  by rewrite Hval, (validate_values_again _ _ Hval).
Qed.
End theorems.

(** ** Fragments *)

Lemma uncovered_spec {A} (key : A -> str) names inline :
  uncovered key names inline = filter (fun x => key x ∉ names) inline.
Proof.
  induction inline as [|x l IH]; [done|]. cbn [uncovered]. rewrite filter_cons, IH. unfold is_seen.
  case_bool_decide; case_decide; try done; by exfalso.
Qed.

(** The result of merging, as a specification: the inline entries whose key no
    fragment has, in order, then every fragment. *)
Lemma merge_spec {A} (key : A -> str) inline fragments :
  merge key inline fragments = filter (fun x => key x ∉ key <$> fragments) inline ++ fragments.
Proof.
  unfold merge. rewrite uncovered_spec. f_equal. apply list_filter_iff. intros x.
  by rewrite elem_of_list_to_set.
Qed.

Lemma NoDup_filter_keys {A} (key : A -> str) (P : A -> Prop) `{!forall x, Decision (P x)} l :
  NoDup (key <$> l) -> NoDup (key <$> filter P l).
Proof.
  induction l as [|x l IH]; [done|]. rewrite fmap_cons. intros [Hx Hl]%NoDup_cons.
  rewrite filter_cons. case_decide; [|by apply IH]. rewrite fmap_cons. apply NoDup_cons. split; [|by apply IH].
  intros (y & Hy & Hin)%list_elem_of_fmap. apply Hx. rewrite Hy. apply list_elem_of_fmap_2.
  by apply list_elem_of_filter in Hin as [_ ?].
Qed.
Lemma merge_nodup {A} (key : A -> str) inline fragments :
  NoDup (key <$> inline) -> NoDup (key <$> fragments) -> NoDup (key <$> merge key inline fragments).
Proof.
  intros Hi Hf. rewrite merge_spec, fmap_app. apply NoDup_app. split_and!; [by apply NoDup_filter_keys| |done].
  intros k (x & -> & [Hx _]%list_elem_of_filter)%list_elem_of_fmap. done.
Qed.

Lemma load_all_spec {A} (load : str -> M (res A)) paths l w :
  (load_all load paths w).1 = Ok l -> Forall2 (fun path x => exists w', (load path w').1 = Ok x) paths l.
Proof.
  revert l w. induction paths as [|p paths IH]; intros l w; cbn [load_all]; [by intros [= <-]|].
  unfold tryM, bind. destruct (load p w) as [[x|e] w1] eqn:E; [|done].
  destruct (load_all load paths w1) as [[rest|e] w2] eqn:E2; [|done]. intros [= <-].
  constructor; [exists w; by rewrite E|]. apply (IH _ w1). by rewrite E2.
Qed.

(** The fragment files of a directory: the [.toml] entries that are not
    directories, in name order. *)
Lemma fragment_paths_sorted what dir w paths : (fragment_paths what dir w).1 = Ok (Some paths) ->
  StronglySorted str_le paths.
Proof.
  unfold fragment_paths, bind. destruct (os_ReadDir dir w) as [[entries|e] w1].
  - intros [= <-]. apply sort_strings_sorted.
  - by destruct e as [[]| | | |].
Qed.

(** What one loader of fragments did to the inline list. *)
Definition merged {A} (key : A -> str) (load : str -> M (res A)) (inline l : list A) : Prop :=
  exists paths fragments, StronglySorted str_le paths /\
    Forall2 (fun path x => exists w, (load path w).1 = Ok x) paths fragments /\
    l = filter (fun x => key x ∉ key <$> fragments) inline ++ fragments.

Lemma merged_nothing {A} (key : A -> str) load (inline : list A) : merged key load inline inline.
Proof.
  exists [], []. split_and!; [constructor|constructor|]. rewrite app_nil_r.
  induction inline as [|x l IH]; [done|]. rewrite filter_cons, decide_True by apply not_elem_of_nil. by f_equal.
Qed.

Lemma load_fragments_merged {A} what (load : str -> M (res A)) key dir inline l w :
  (load_fragments what load key dir inline w).1 = Ok l -> merged key load inline l.
Proof.
  unfold load_fragments. case_bool_decide; [intros [= <-]; apply merged_nothing|].
  unfold tryM at 1, bind at 1. destruct (fragment_paths what _ w) as [[[paths|]|e] w1] eqn:Ep; [| |done].
  - case_bool_decide; [intros [= <-]; apply merged_nothing|].
    unfold tryM, bind. destruct (load_all load paths w1) as [[fragments|e] w2] eqn:El; [|done].
    intros [= <-]. exists paths, fragments. split_and!; [|by eapply load_all_spec; rewrite El|apply merge_spec].
    eapply fragment_paths_sorted. by rewrite Ep.
  - intros [= <-]. apply merged_nothing.
Qed.
(** The default configuration with an identity, a secret, and some jobs and
    alarms: what a minimal configuration file gives. *)
Definition identified (id secret : str) (jobs : list JobConfig) (alarms : list AlarmConfig) : DaemonConfig :=
  let c := default_daemon in
  mkDaemonConfig id (d_HostID c) (d_Version c) (d_Transport c) (d_Listen c) secret (d_MetricsHistoryPath c)
    (d_MetricsRetentionDays c) (d_AuditPath c) (d_ActionsDir c) (d_AlarmsDir c) (d_JobsDir c) (d_LogsDir c)
    (d_LogAlertsDir c) (d_Terminal c) (d_Files c) (d_Compose c) (d_Priv c) (d_CloudURL c) (d_CloudSecret c)
    (d_LogsUploadEnabled c) (d_LogsUploadInterval c) (d_LogsUploadBatchLines c) (d_ManagedContainers c)
    (d_ManagedComposes c) (d_StatusUploadEnabled c) (d_MetricsInterval c) (d_StreamInterval c)
    (d_ContainersInterval c) (d_ImagesInterval c) (d_ProcessesInterval c) (d_SystemdInterval c)
    (d_RuntimesInterval c) (d_DatabaseMetricsInterval c) (d_LogsInterval c) (d_UpdateCheckInterval c)
    (d_Runtimes c) (d_WatchedProcesses c) (d_WatchedProcessesFile c) (d_ProcessesLimit c) (d_RequestTimeout c)
    (d_ScriptTimeout c) (d_MaxBodyBytes c) (d_MaxConcurrentRuns c) (d_Webhooks c) (d_Actions c) alarms jobs
    (d_LogAlerts c).

Section fragments.
Context (table : Type) (ReadInConfig : str -> res table) (Unmarshal_hook : table -> res WebhookConfig)
  (Unmarshal_alarm : table -> res AlarmConfig) (Unmarshal_job : table -> res JobConfig)
  (Unmarshal_alert : table -> res LogAlertConfig).
Local Abbreviation action_fragment := (loadActionFragment table ReadInConfig Unmarshal_hook).
Local Abbreviation alarm_fragment := (loadAlarmFragment table ReadInConfig Unmarshal_alarm).
Local Abbreviation job_fragment := (loadJobFragment table ReadInConfig Unmarshal_job).
Local Abbreviation alert_fragment := (loadLogAlertFragment table ReadInConfig Unmarshal_alert).

Lemma alert_loader_merged c c' w : (loadLogAlertFragments table ReadInConfig Unmarshal_alert c w).1 = Ok c' ->
  merged alert_Name alert_fragment (d_LogAlerts c) (d_LogAlerts c') /\
  c' = set_d_lists (d_Actions c) (d_Alarms c) (d_Jobs c) (d_LogAlerts c') c.
Proof.
  unfold loadLogAlertFragments. case_bool_decide.
  { intros [= <-]. split; [apply merged_nothing|by destruct c]. }
  unfold tryM at 1, bind at 1. destruct (fragment_paths _ _ w) as [[[paths|]|e] w1] eqn:Ep; [| |done].
  - unfold tryM, bind. destruct (load_all _ paths w1) as [[fragments|e] w2] eqn:El; [|done].
    intros [= <-]. split; [|done]. exists paths, fragments.
    split_and!; [|by eapply load_all_spec; rewrite El|apply merge_spec].
    eapply fragment_paths_sorted. by rewrite Ep.
  - intros [= <-]. split; [apply merged_nothing|by destruct c].
Qed.

(** Fragments win: each of the four loaders returns the configuration with one
    list changed, and that list is the inline entries no fragment covers, in their
    order, followed by one entry per [.toml] file of the fragment directory, in
    file-name order; so a fragment replaces every inline entry of the same name and
    nothing else, and no entry is duplicated by loading. *)
Theorem fragments_win c c' w :
  ((loadActionFragments table ReadInConfig Unmarshal_hook c w).1 = Ok c' ->
    merged hook_Name action_fragment (d_Actions c) (d_Actions c') /\
    c' = set_d_lists (d_Actions c') (d_Alarms c) (d_Jobs c) (d_LogAlerts c) c) /\
  ((loadAlarmFragments table ReadInConfig Unmarshal_alarm c w).1 = Ok c' ->
    merged alarm_Kind alarm_fragment (d_Alarms c) (d_Alarms c') /\
    c' = set_d_lists (d_Actions c) (d_Alarms c') (d_Jobs c) (d_LogAlerts c) c) /\
  ((loadJobFragments table ReadInConfig Unmarshal_job c w).1 = Ok c' ->
    merged job_Name job_fragment (d_Jobs c) (d_Jobs c') /\
    c' = set_d_lists (d_Actions c) (d_Alarms c) (d_Jobs c') (d_LogAlerts c) c) /\
  ((loadLogAlertFragments table ReadInConfig Unmarshal_alert c w).1 = Ok c' ->
    merged alert_Name alert_fragment (d_LogAlerts c) (d_LogAlerts c') /\
    c' = set_d_lists (d_Actions c) (d_Alarms c) (d_Jobs c) (d_LogAlerts c') c).
Proof.
  split_and!.
  - unfold loadActionFragments, tryM at 1, bind at 1.
    destruct (load_fragments _ _ _ _ _ w) as [[l|e] w1] eqn:E; [|done]. intros [= <-]. split; [|done].
    eapply load_fragments_merged. by rewrite E.
  - unfold loadAlarmFragments, tryM at 1, bind at 1.
    destruct (load_fragments _ _ _ _ _ w) as [[l|e] w1] eqn:E; [|done]. intros [= <-]. split; [|done].
    eapply load_fragments_merged. by rewrite E.
  - unfold loadJobFragments, tryM at 1, bind at 1.
    destruct (load_fragments _ _ _ _ _ w) as [[l|e] w1] eqn:E; [|done]. intros [= <-]. split; [|done].
    eapply load_fragments_merged. by rewrite E.
  - apply alert_loader_merged.
Qed.
End fragments.

(** Alarms are merged by kind alone, although validation identifies an alarm
    by kind and target: a fragment for one container silently drops the inline
    alarm of another container, and the two together would have been accepted. *)
Theorem alarm_fragment_drops_other_target `{Unicode, Host} inline fragment :
  alarm_Kind inline = $"container_down" -> alarm_Kind fragment = $"container_down" ->
  TrimSpace (alarm_Target inline) <> TrimSpace (alarm_Target fragment) ->
  merge alarm_Kind [inline] [fragment] = [fragment] /\
  is_ok (for_range check_alarm 0 ∅ [inline; fragment]) = true.
Proof.
  intros Hi Hf Ht. split.
  - unfold merge. cbn [uncovered fmap list_fmap list_to_set]. unfold is_seen. rewrite bool_decide_eq_true_2; [done|].
    rewrite Hi, Hf. set_solver.
  - assert (Hk : TrimSpace ($"container_down") = $"container_down") by (by vm_compute).
    assert (Hp : bool_decide ($"container_down" ∈ percent_kinds) = false) by (by vm_compute).
    cbn [for_range]. unfold check_alarm at 1. rewrite Hi, Hk, Hp. rewrite (bool_decide_eq_true_2 ($"container_down" = _)) by done.
    cbn [negb guard res_bind]. unfold is_seen at 1. rewrite bool_decide_eq_false_2 by apply not_elem_of_empty.
    cbn [guard res_bind]. unfold check_alarm. rewrite Hf, Hk, Hp. rewrite (bool_decide_eq_true_2 ($"container_down" = _)) by done.
    cbn [negb guard res_bind]. unfold is_seen. rewrite bool_decide_eq_false_2; [done|].
    unfold add_name. rewrite elem_of_union, elem_of_singleton. intros [E|E]; [|by apply not_elem_of_empty in E].
    apply app_inv_head in E. injection E as E. by apply Ht.
Qed.

(** ** Two slips of validation *)

Section slips.
Context `{Unicode, Host}.

(** A job's name is checked trimmed but stored as it was: validation leaves
    every job name of the configuration unchanged (log alerts and alarms are
    stored trimmed), so a name with surrounding spaces passes the check on the
    trimmed name and stays in a form that the name pattern rejects. *)
Theorem job_name_stored_untrimmed c c' w :
  (ValidateDaemon c w).1 = Ok c' ->
  job_Name <$> d_Jobs c' = job_Name <$> d_Jobs c /\
  Forall (fun j => matches webhookNamePattern (TrimSpace (job_Name j)) = true) (d_Jobs c') /\
  alert_Name <$> d_LogAlerts c' = (fun a => TrimSpace (alert_Name a)) <$> d_LogAlerts c.
Proof.
  intros Hv. destruct (ValidateDaemon_spec (w_euid w) (w_fs w) c w eq_refl eq_refl) as (_ & _ & Hok).
  destruct (Hok _ Hv) as [(rt & wa & batch & alerts & jobs & alarms & _ & _ & _ & _ & _ & _ & _ & _ & _ & Hal
    & Hj & _ & _ & _ & ->)%validate_values_inv _]. cbn [d_Jobs d_LogAlerts set_d_lists].
  destruct (for_range_ok _ _ _ check_job_ok _ _ _ _ Hj) as (HF & _ & _).
  destruct (for_range_ok _ _ _ check_alert_ok _ _ _ _ Hal) as (HA & _ & _).
  split_and!.
  - eapply fmap_Forall2; [|exact HF]. naive_solver.
  - eapply Forall2_right; [|exact HF]. intros x y [_ Hy]. apply (job_name_ok _ Hy).
  - eapply fmap_Forall2; [|exact HA]. naive_solver.
Qed.

(** The threshold test of a percentage alarm accepts exactly the numbers above
    0 and up to 100, and NaN: every comparison with NaN is false, so an alarm whose
    threshold is not a number is accepted. *)
Theorem alarm_threshold_exact i a :
  TrimSpace (alarm_Kind a) ∈ percent_kinds -> TrimSpace (alarm_Target a) = [] ->
  is_ok (check_alarm i ∅ a) = true <-> threshold_ok (alarm_Threshold a).
Proof.
  intros Hk Ht. unfold check_alarm. rewrite bool_decide_eq_true_2 by done. rewrite Ht.
  rewrite (bool_decide_eq_true_2 ([] = [])) by done. unfold is_seen.
  rewrite bool_decide_eq_false_2 by apply not_elem_of_empty. cbn [negb guard res_bind].
  destruct (alarm_Threshold a) as [q|neg|]; cbn [float_le float_gt].
  - destruct (Qle_bool q 0) eqn:E1; [|destruct (Qle_bool q 100) eqn:E2]; cbn [negb orb guard res_bind is_ok].
    + split; [done|]. intros [?|(p & [= <-] & Hlt & _)]; [done|]. apply Qle_bool_iff in E1.
      exfalso. by apply (Qlt_not_le _ _ Hlt).
    + split; [|done]. intros _. right. exists q. split_and!; [done| |by apply Qle_bool_iff].
      apply Qnot_le_lt. intros Hle. apply Qle_bool_iff in Hle. congruence.
    + split; [done|]. intros [?|(p & [= <-] & _ & Hle)]; [done|]. apply Qle_bool_iff in Hle. congruence.
  - destruct neg; (split; [done|]); intros [?|(p & ? & _)]; done.
  - split; [by left|done].
Qed.
End slips.

(** ** The theorems at work *)

Definition demo_host : Host := {|
  user_Lookup := fun _ => Ok tt; regexp_Compile := fun _ => Ok tt; cron_ParseStandard := fun _ => Ok tt;
  ResolveTCPAddr := fun _ => Ok 8747;
  url_Parse := fun _ => Some ($"https", $"mk.solsynth.dev", $"mk.solsynth.dev");
|}.
Definition spaced_job : JobConfig := mkJobConfig ($" nightly ") ($"@daily") ($"backup") [] None 0 false.
Definition down_alarm (target : str) : AlarmConfig := mkAlarmConfig ($"container_down") (FNum 0) target None 0.
Definition demo_config : DaemonConfig := identified ($"host-1") ($"s3cret") [spaced_job] [down_alarm ($" web")].
Definition demo_valid : DaemonConfig :=
  identified ($"host-1") ($"s3cret")
    [mkJobConfig ($" nightly ") ($"@daily") ($"backup") [] (Some true) 0 false]
    [mkAlarmConfig ($"container_down") (FNum 0) ($"web") (Some true) 300].
Abbreviation demo_validate := (ValidateDaemon (H := demo_unicode) (H0 := demo_host)).

Lemma ValidateDaemon_sound_witness :
  (demo_validate demo_config demo_world).1 = Ok demo_valid /\
  daemon_ok (H := demo_unicode) demo_valid /\ host_ok (w_fs demo_world) demo_valid /\
  w_fs (demo_validate demo_config demo_world).2 = w_fs demo_world.
Proof.
  split; [vm_compute; reflexivity|].
  apply (ValidateDaemon_sound (H := demo_unicode) (H0 := demo_host)). vm_compute. reflexivity.
Defined.

Lemma ValidateDaemon_idempotent_witness : (demo_validate demo_valid demo_world).1 = Ok demo_valid.
Proof.
  apply (ValidateDaemon_idempotent (H := demo_unicode) (H0 := demo_host) demo_config). vm_compute. reflexivity.
Defined.

Lemma job_name_stored_untrimmed_witness :
  Exists (fun j => matches webhookNamePattern (job_Name j) = false) (d_Jobs demo_valid) /\
  job_Name <$> d_Jobs demo_valid = job_Name <$> d_Jobs demo_config /\
  Forall (fun j => matches webhookNamePattern (TrimSpace (job_Name j)) = true) (d_Jobs demo_valid) /\
  alert_Name <$> d_LogAlerts demo_valid = (fun a => TrimSpace (alert_Name a)) <$> d_LogAlerts demo_config.
Proof.
  split; [left; vm_compute; reflexivity|].
  apply (job_name_stored_untrimmed (H := demo_unicode) (H0 := demo_host) demo_config demo_valid demo_world).
  vm_compute. reflexivity.
Defined.

Lemma alarm_threshold_exact_witness :
  is_ok (check_alarm 0 ∅ (mkAlarmConfig ($"cpu_percent") FNaN [] None 0)) = true <->
  threshold_ok FNaN.
Proof.
  apply (alarm_threshold_exact 0 (mkAlarmConfig ($"cpu_percent") FNaN [] None 0)); [left|vm_compute; reflexivity].
Defined.

Lemma alarm_fragment_drops_other_target_witness :
  merge alarm_Kind [down_alarm ($"db")] [down_alarm ($"web")] = [down_alarm ($"web")] /\
  is_ok (for_range check_alarm 0 ∅ [down_alarm ($"db"); down_alarm ($"web")]) = true.
Proof.
  apply (alarm_fragment_drops_other_target (H := demo_unicode) (H0 := demo_host) (down_alarm ($"db")) (down_alarm ($"web")));
    [reflexivity|reflexivity|vm_compute; discriminate].
Defined.

Definition demo_hook (name command : str) : WebhookConfig :=
  mkWebhookConfig name [] command [] true false false [] false [] [] [] 0.
Definition frag_fs : fsys :=
  <[ [$"etc"; $"maidcafe"] := Node CDir 493 0 ]> (<[ [$"etc"; $"maidcafe"; $"actions"] := Node CDir 493 0 ]>
    (<[ [$"etc"; $"maidcafe"; $"actions"; $"b.toml"] := Node (CFile ($"backup")) 420 0 ]>
      (<[ [$"etc"; $"maidcafe"; $"actions"; $"a.toml"] := Node (CFile ($"deploy")) 420 0 ]> demo_fs))).
Definition frag_world : world := World frag_fs 18 0 id [].
Definition frag_config : DaemonConfig :=
  set_d_lists [demo_hook ($"backup") ($"/old"); demo_hook ($"rotate") ($"/rotate")] [] [] [] default_daemon.
Definition frag_decode (t : str) : res WebhookConfig := Ok (demo_hook t ($"/new")).

Lemma fragments_win_witness :
  let c' := set_d_lists [demo_hook ($"rotate") ($"/rotate"); demo_hook ($"deploy") ($"/new"); demo_hook ($"backup") ($"/new")]
              [] [] [] default_daemon in
  (loadActionFragments str Ok frag_decode frag_config frag_world).1 = Ok c' /\
  merged hook_Name (loadActionFragment str Ok frag_decode) (d_Actions frag_config) (d_Actions c').
Proof.
  intros c'. assert (E : (loadActionFragments str Ok frag_decode frag_config frag_world).1 = Ok c')
    by (vm_compute; reflexivity).
  split; [exact E|].
  exact (proj1 (proj1 (fragments_win str Ok frag_decode (fun _ => Err (Errno EIO)) (fun _ => Err (Errno EIO))
    (fun _ => Err (Errno EIO)) frag_config c' frag_world) E)).
Defined.
