(* ===== verification/Files.v ===== *)
(** * Files: the daemon's file-management API

    [internal/daemon/files.go] and [files_priv.go]: the policy built from the
    configuration, the lexical resolution of a request path to a root, the nine
    file actions over [os.Root], the hand-over to the privileged helper, and the
    audit entry each action leaves. Running the helper is [exec_command]; a
    file's modification time, the current time and the elapsed time are
    parameters. Closing a file that was opened for reading or whose close error
    is dropped has no effect the model can see and is left out. *)

From S2P Require Import Prelude GoStr GoPath GoOS Base64 PrivSet Config.

(** ** Results of a file action *)

Definition StatusBadRequest : Z := 400.
Definition StatusForbidden : Z := 403.
Definition StatusNotFound : Z := 404.
Definition StatusConflict : Z := 409.
Definition StatusRequestEntityTooLarge : Z := 413.
Definition StatusRequestedRangeNotSatisfiable : Z := 416.
Definition StatusFailedDependency : Z := 424.
Definition StatusInternalServerError : Z := 500.
Definition StatusNotImplemented : Z := 501.
Definition StatusBadGateway : Z := 502.
Definition StatusServiceUnavailable : Z := 503.
Definition StatusGatewayTimeout : Z := 504.

Record fileActionError := fileError { fe_status : Z; fe_format : string; fe_args : list farg }.

(** [(T, *fileActionError)] *)
Definition fres (A : Type) : Type := A + fileActionError.
Definition done {A} (a : A) : M (fres A) := ret (inl a).
Definition fail {A} (status : Z) (fmt : string) (args : list farg) : M (fres A) := ret (inr (fileError status fmt args)).
Definition ftry {A B} (m : M (fres A)) (k : A -> M (fres B)) : M (fres B) :=
  bind m (fun r => match r with inl a => k a | inr e => ret (inr e) end).
Notation "'let!' x ':=' m 'in' k" := (ftry m (fun x => k))
  (at level 10, x pattern, m at level 100, k at level 200,
   format "'[' 'let!'  x  ':='  m  'in' ']' '/' k") : go_scope.

Definition fileActionRoots : str := $"files.roots".
Definition fileActionList : str := $"files.list".
Definition fileActionStat : str := $"files.stat".
Definition fileActionRead : str := $"files.read".
Definition fileActionWrite : str := $"files.write".
Definition fileActionMkdir : str := $"files.mkdir".
Definition fileActionMove : str := $"files.move".
Definition fileActionCopy : str := $"files.copy".
Definition fileActionDelete : str := $"files.delete".
Definition isFileActionSlug (name : str) : bool :=
  bool_decide (name ∈ [fileActionRoots; fileActionList; fileActionStat; fileActionRead; fileActionWrite;
                       fileActionMkdir; fileActionMove; fileActionCopy; fileActionDelete]).

(** ** Errors of the file system *)

(** The error of [Root.Rename] and [Root.Symlink]: a [*LinkError], which
    [errors.Is] unwraps and which is not a [*fs.PathError]. *)
Definition LinkError (op old new : str) (e : error) : error :=
  Foreign "LinkError" [FStr op; FStr old; FStr new; FErr e].
Definition wrap_link {A} (op old new : str) (m : M (res A)) : M (res A) :=
  do r := m in ret (match r with Ok a => Ok a | Err e => Err (LinkError op old new e) end).

(** [errors.Is(err, target)] for targets decided by the system call error; a
    wrapped error is the last argument. *)
Fixpoint errors_Is (target : errno -> bool) (e : error) : bool :=
  let args := fix go l := match l with
    | [] => false
    | FErr e :: l => errors_Is target e || go l
    | _ :: l => go l
    end in
  match e with
  | Errno n => target n
  | Errorf _ l => args l
  | Foreign _ l => args l
  | _ => false
  end.
(** [errors.As(err, &pathErr)] finds a [*fs.PathError] whose own error is the
    refusal of [os.Root]. *)
Fixpoint PathError_escapes (e : error) : bool :=
  match e with
  | PathEscapes => true
  | Errorf _ l =>
      (fix go l := match l with
       | [] => false
       | FErr e :: l => PathError_escapes e || go l
       | _ :: l => go l
       end) l
  | _ => false
  end.
Definition ErrNotExist (n : errno) : bool := bool_decide (n = ENOENT).
Definition ErrPermission (n : errno) : bool := bool_decide (n = EACCES \/ n = EPERM).
(** [syscall.Errno.Is(fs.ErrExist)] holds of [EEXIST] and [ENOTEMPTY]. *)
Definition ErrExist (n : errno) : bool := bool_decide (n = EEXIST \/ n = ENOTEMPTY).

Definition fileStatus (err : error) : fileActionError :=
  if errors_Is ErrNotExist err then fileError StatusNotFound "no such file or directory" []
  else if errors_Is ErrPermission err then fileError StatusForbidden "permission denied" []
  else if errors_Is ErrExist err then fileError StatusConflict "already exists" []
  else if errors_Is (fun n => bool_decide (n = ENOTEMPTY)) err || errors_Is (fun n => bool_decide (n = EEXIST)) err then
    fileError StatusConflict "directory is not empty" []
  else if errors_Is (fun n => bool_decide (n = EISDIR)) err || errors_Is (fun n => bool_decide (n = ENOTDIR)) err
          || errors_Is (fun n => bool_decide (n = EINVAL)) err then
    fileError StatusBadRequest "invalid operation for this path" []
  else if errors_Is (fun n => bool_decide (n = EXDEV)) err then
    fileError StatusBadRequest "cross-device operation is not supported" []
  else if PathError_escapes err then fileError StatusForbidden "path escapes the allowed roots" []
  else fileError StatusInternalServerError "file operation failed: %v" [FErr err].

(** [if err != nil { return ..., fileStatus(err) }] *)
Definition status {A} (m : M (res A)) : M (fres A) :=
  do r := m in ret (match r with Ok a => inl a | Err e => inr (fileStatus e) end).

(** ** The policy *)

Record fileRoot := mkFileRoot { fr_path : str; fr_privileged : bool; fr_profile : str }.
Record filePolicy := mkFilePolicy {
  fp_secret : str;
  fp_allowWrite : bool;
  fp_maxRead : Z;
  fp_maxWrite : Z;
  fp_maxList : Z;
  fp_roots : list fileRoot;
}.

Definition default_if_unset (limit default : Z) : Z := if limit <=? 0 then default else limit.
Definition newFilePolicy (cfg : FilesConfig) : option filePolicy :=
  if negb (files_Enabled cfg) then None
  else Some (mkFilePolicy (files_Secret cfg) (files_AllowWrite cfg)
    (default_if_unset (files_MaxReadBytes cfg) FilesDefaultMaxReadBytes)
    (default_if_unset (files_MaxWriteBytes cfg) FilesDefaultMaxWriteBytes)
    (default_if_unset (files_MaxListEntries cfg) FilesDefaultMaxListEntries)
    ((fun root => mkFileRoot (Clean (root_Path root)) (root_Privileged root) (root_Profile root)) <$> files_Roots cfg)).

Record fileTarget := mkFileTarget {
  ft_rootPath : str;
  ft_rel : str;
  ft_path : str;
  ft_privileged : bool;
  ft_profile : str;
}.

(** [target] is [root] itself or sits beneath it. *)
Definition pathInside (root target : str) : bool :=
  bool_decide (target = root) || bool_decide (root = [slash]) || HasPrefix target (root ++ [slash]).

Definition longest (clean : str) (best : option fileRoot) (root : fileRoot) : option fileRoot :=
  if negb (pathInside (fr_path root) clean) then best
  else match best with
       | None => Some root
       | Some b => if (List.length (fr_path b) <? List.length (fr_path root))%nat then Some root else best
       end.

Definition resolve (p : filePolicy) (raw : str) : fres fileTarget :=
  if has_byte NUL raw then inr (fileError StatusBadRequest "path must not contain NUL" [])
  else if negb (IsAbs raw) then inr (fileError StatusBadRequest "path must be absolute" [])
  else
    let clean := Clean raw in
    match fold_left (longest clean) (fp_roots p) None with
    | None => inr (fileError StatusForbidden "path is outside the allowed roots" [])
    | Some best =>
        let rel := TrimPrefix (TrimPrefix clean (fr_path best)) [slash] in
        let rel := if bool_decide (rel = []) then dot else rel in
        inl (mkFileTarget (fr_path best) rel clean (fr_privileged best) (fr_profile best))
    end.

Definition target_open (t : fileTarget) : M (fres fpath) :=
  do r := OpenRoot (ft_rootPath t) in
  match r with
  | Ok root => done root
  | Err e => fail StatusInternalServerError "open root %s: %v" [FStr (ft_rootPath t); FErr e]
  end.

(** ** Results *)

Record fileEntry := mkFileEntry {
  en_Name : str; en_Path : str; en_Type : str; en_Size : Z; en_Mode : Z; en_ModifiedAt : Z;
  en_LinkTarget : str; en_TargetType : str;
}.
Record fileRootInfo := mkFileRootInfo { ri_Path : str; ri_Privileged : bool; ri_Profile : str }.
Inductive fileResult :=
  | RootsResult (roots : list fileRootInfo) (writable : bool)
  | ListResult (path : str) (entries : list fileEntry) (truncated : bool)
  | EntryResult (entry : fileEntry)
  | ReadResult (path : str) (offset size : Z) (content : str)
  | WriteResult (path : str) (size : Z)
  | PathResult (path : str)
  | MoveResult (from to : str).
Record fileActionRequest := mkFileActionRequest {
  rq_Path : str; rq_From : str; rq_To : str;
  rq_Parents : bool; rq_Recursive : bool; rq_Overwrite : bool; rq_Follow : option bool;
  rq_Offset : Z; rq_Limit : Z; rq_Content : str;
}.

(** What a helper process leaves: its output, whether it failed, and whether
    the deadline of [privRunnerTimeout] passed. *)
Record exec_result := mkExecResult {
  ex_stdout : str; ex_stderr : str; ex_err : option error; ex_deadline : bool;
}.
Class FileEnv := {
  ModTime : node -> Z;
  exec_command : list str -> option str -> M exec_result;
}.

(** ** Reading *)

(** [info.Mode().Perm()] *)
Definition Perm (n : node) : Z := Z.land (n_perm n) 511.
Definition fileType (n : node) : str :=
  if is_link n then $"symlink"
  else if is_dir n then $"directory"
  else if is_regular n then $"file"
  else $"other".

Definition rootInfos (p : filePolicy) : fileResult :=
  RootsResult ((fun r => mkFileRootInfo (fr_path r) (fr_privileged r) (fr_profile r)) <$> fp_roots p) (fp_allowWrite p).

(** The entries of an open directory that are still to be read: the names it
    holds, in the order of the file system. *)
Definition dir_stream (dir : fpath) : M (list str) := fun w => (w_order w (children (w_fs w) dir), w).
(** [dir.ReadDir(n)] for [0 < n]: at most [n] entries and what remains; at the
    end no entry, with [io.EOF]. *)
Definition ReadDir_batch (n : nat) (stream : list str) : M (res (list str * list str)) :=
  query (fun _ => Ok (take n stream, drop n stream)).
(** [entry.Info()]: what the directory holds under that name. *)
Definition DirEntry_Info (dir : fpath) (name : str) : M (res node) :=
  query (fun fs => must_exist fs (dir ++ [name])).

Fixpoint readDir_loop (fuel limit : nat) (stream entries : list str) : M (res (list str)) :=
  if (List.length entries <=? limit)%nat then
    match fuel with
    | O => ret (Err (Foreign "unreachable" []))
    | S fuel =>
        let* (batch, stream) := ReadDir_batch (Nat.min 256 (limit + 1 - List.length entries)) stream in
        let entries := entries ++ batch in
        if bool_decide (batch = []) then ret (Ok entries) else readDir_loop fuel limit stream entries
    end
  else ret (Ok entries).
Definition readDirLimited (dir : fpath) (limit : nat) : M (res (list str * bool)) :=
  do stream := dir_stream dir in
  let* entries := readDir_loop (S (S limit)) limit stream [] in
  if (limit <? List.length entries)%nat then ret (Ok (take limit entries, true)) else ret (Ok (entries, false)).

Section env.
Context `{FileEnv}.

Definition fillLinkTarget (root : fpath) (rel : str) (entry : fileEntry) : M fileEntry :=
  do target := Root_Readlink root rel in
  match target with
  | Err _ => ret entry
  | Ok target =>
      do resolved := Root_Stat root rel in
      ret (mkFileEntry (en_Name entry) (en_Path entry) (en_Type entry) (en_Size entry) (en_Mode entry)
             (en_ModifiedAt entry) target
             (match resolved with Ok n => fileType n | Err _ => en_TargetType entry end))
  end.
Definition make_entry (name path : str) (info : node) : fileEntry :=
  mkFileEntry name path (fileType info) (file_size info) (Perm info) (ModTime info) [] [].
Definition with_link_target (root : fpath) (rel : str) (entry : fileEntry) : M fileEntry :=
  if bool_decide (en_Type entry = $"symlink") then fillLinkTarget root rel entry else ret entry.

Fixpoint list_entries (root dir : fpath) (t : fileTarget) (names : list str) : M (fres (list fileEntry)) :=
  match names with
  | [] => done []
  | name :: names =>
      do info := DirEntry_Info dir name in
      match info with
      | Err e =>
          if errors_Is ErrNotExist e then list_entries root dir t names else ret (inr (fileStatus e))
      | Ok info =>
          do item := with_link_target root (Join [ft_rel t; name]) (make_entry name (Join [ft_path t; name]) info) in
          let! items := list_entries root dir t names in
          done (item :: items)
      end
  end.
Definition entry_le (e f : fileEntry) : Prop := str_le (en_Name e) (en_Name f).
#[local] Instance entry_le_dec e f : Decision (entry_le e f) := str_le_dec (en_Name e) (en_Name f).

Definition policy_list (p : filePolicy) (t : fileTarget) : M (fres fileResult) :=
  let! root := target_open t in
  let! info := status (Root_Stat root (ft_rel t)) in
  if negb (is_dir info) then fail StatusBadRequest "not a directory" []
  else
    let! dir := status (Root_Open root (ft_rel t)) in
    let! (entries, truncated) := status (readDirLimited dir (Z.to_nat (fp_maxList p))) in
    let! items := list_entries root dir t entries in
    done (ListResult (ft_path t) (merge_sort entry_le items) truncated).

Definition policy_stat (p : filePolicy) (t : fileTarget) (follow : bool) : M (fres fileResult) :=
  let! root := target_open t in
  let! info := status (Root_Lstat root (ft_rel t)) in
  let! info := (if follow && is_link info then status (Root_Stat root (ft_rel t)) else done info) in
  do entry := with_link_target root (ft_rel t) (make_entry (Base (ft_path t)) (ft_path t) info) in
  done (EntryResult entry).
End env.

(** The opened file, its size and how many bytes the window covers. *)
Definition openReadWindow (p : filePolicy) (t : fileTarget) (offset limit : Z) : M (fres (fpath * Z * Z)) :=
  let! root := target_open t in
  let! file := status (Root_Open root (ft_rel t)) in
  let! info := status (File_Stat file) in
  if negb (is_regular info) then fail StatusBadRequest "not a regular file" []
  else
    let size := file_size info in
    if (offset <? 0) || (size <? offset) then
      fail StatusRequestedRangeNotSatisfiable "offset %d is outside the file (%d bytes)" [FInt offset; FInt size]
    else if limit <? 0 then fail StatusBadRequest "limit must not be negative" []
    else if fp_maxRead p <? limit then
      fail StatusRequestEntityTooLarge "limit exceeds maxReadBytes (%d)" [FInt (fp_maxRead p)]
    else
      let remaining := size - offset in
      if (limit =? 0) && (fp_maxRead p <? remaining) then
        fail StatusRequestEntityTooLarge
          "file is larger than maxReadBytes (%d); read it in windows with offset and limit" [FInt (fp_maxRead p)]
      else
        let limit := if (limit =? 0) || (remaining <? limit) then remaining else limit in
        let! _ := status (File_Seek file) in
        done (file, size, limit).

(** [io.ReadFull] into a buffer of [window] bytes; [io.ErrUnexpectedEOF] leaves
    the rest of the buffer zero. *)
Definition ReadFull (file : fpath) (offset window : Z) : M (res str) :=
  if window =? 0 then ret (Ok [])
  else
    let* data := File_ReadAt file offset window in
    if bool_decide (data = []) then ret (Err (Foreign "EOF" []))
    else ret (Ok (data ++ replicate (Z.to_nat window - List.length data) (byte 0))).
Definition policy_read (p : filePolicy) (t : fileTarget) (offset limit : Z) : M (fres fileResult) :=
  let! (file, size, window) := openReadWindow p t offset limit in
  let! buf := status (ReadFull file offset window) in
  done (ReadResult (ft_path t) offset size (EncodeToString buf)).

(** ** Changing *)

Definition read_only {A} : M (fres A) := fail StatusForbidden "file API is read-only" [].
Definition not_routed {A} : M (fres A) :=
  fail StatusInternalServerError "internal error: privileged root not routed through the helper" [].

Definition policy_write (p : filePolicy) (t : fileTarget) (data : str) : M (fres fileResult) :=
  if negb (fp_allowWrite p) then read_only
  else if ft_privileged t then not_routed
  else if bool_decide (ft_rel t = dot) then fail StatusBadRequest "refusing to write a configured root" []
  else if fp_maxWrite p <? Z.of_nat (List.length data) then
    fail StatusRequestEntityTooLarge "body exceeds maxWriteBytes (%d)" [FInt (fp_maxWrite p)]
  else
    let! root := target_open t in
    do st := Root_Stat root (ft_rel t) in
    if match st with Ok info => is_dir info | Err _ => false end then fail StatusConflict "path is a directory" []
    else
      let! file := status (Root_CreateTrunc root (ft_rel t) 420) in
      let! _ := status (File_Write file data) in
      done (WriteResult (ft_path t) (Z.of_nat (List.length data))).

Definition policy_mkdir (p : filePolicy) (t : fileTarget) (parents : bool) : M (fres fileResult) :=
  if negb (fp_allowWrite p) then read_only
  else if ft_privileged t then not_routed
  else if bool_decide (ft_rel t = dot) then fail StatusConflict "path already exists" []
  else
    let! root := target_open t in
    let! _ := status (if parents then Root_MkdirAll root (ft_rel t) 493 else Root_Mkdir root (ft_rel t) 493) in
    done (PathResult (ft_path t)).

Definition policy_move (p : filePolicy) (from to : fileTarget) : M (fres fileResult) :=
  if negb (fp_allowWrite p) then read_only
  else if negb (bool_decide (ft_rootPath from = ft_rootPath to)) then
    fail StatusBadRequest "move must stay inside one configured root" []
  else if bool_decide (ft_rel from = dot) || bool_decide (ft_rel to = dot) then
    fail StatusBadRequest "refusing to move a configured root" []
  else
    let! root := target_open from in
    let! _ := status (Root_Lstat root (ft_rel from)) in
    let! _ := status (wrap_link ($"renameat") (ft_rel from) (ft_rel to) (Root_Rename root (ft_rel from) (ft_rel to))) in
    done (MoveResult (ft_path from) (ft_path to)).

(** [io.Copy] from an open file. *)
Definition File_ReadAll (h : fpath) : M (res str) :=
  query (fun fs =>
    let? n := must_exist fs h in
    match n_kind n with
    | CFile d => Ok d
    | CDir => Err (Errno EISDIR)
    | _ => Err (Errno EINVAL)
    end).
Definition copyFileContents (root : fpath) (fromRel toRel : str) (perm : Z) : M (res unit) :=
  let* source := Root_Open root fromRel in
  let* destination := Root_CreateTrunc root toRel perm in
  let* data := File_ReadAll source in
  let* _ := (if bool_decide (data = []) then ret (Ok tt) else File_Write destination data) in
  File_Sync destination.

(** The entries of one directory; [tree] copies a subdirectory. *)
Section copy_entries.
Variable tree : str -> str -> Z -> M (res unit).
Variables (root source : fpath) (fromRel toRel : str) (overwrite : bool).

Definition copy_link (childFrom childTo : str) : M (res unit) :=
  do target := Root_Readlink root childFrom in
  match target with
  | Err e => ret (Err (Errorf "read link %s: %w" [FStr childFrom; FErr e]))
  | Ok target =>
      do st := Root_Lstat root childTo in
      let* _ := (if is_ok st && overwrite then Root_Remove root childTo else ret (Ok tt)) in
      wrap_link ($"symlinkat") target childTo (Root_Symlink root target childTo)
  end.
Fixpoint copy_entries (names : list str) : M (res unit) :=
  match names with
  | [] => ret (Ok tt)
  | name :: names =>
      let childFrom := Join [fromRel; name] in
      let childTo := Join [toRel; name] in
      let* info := DirEntry_Info source name in
      let* _ :=
        (if is_dir info then tree childFrom childTo (Perm info)
         else if is_link info then copy_link childFrom childTo
         else if is_regular info then copyFileContents root childFrom childTo (Perm info)
         else ret (Ok tt)) in
      copy_entries names
  end.
End copy_entries.

(** The recursion is bounded by [depth], the levels of directories it may
    descend; beyond them the answer is [too_deep]. *)
Definition too_deep : error := Foreign "copy depth" [].
Fixpoint copyFileTree (depth : nat) (root : fpath) (fromRel toRel : str) (perm : Z) (overwrite : bool) : M (res unit) :=
  match depth with
  | O => ret (Err too_deep)
  | S depth =>
      let* _ := Root_MkdirAll root toRel (Z.lor perm 448) in
      let* source := Root_Open root fromRel in
      let* entries := File_ReadDir source in
      copy_entries (fun f t perm => copyFileTree depth root f t perm overwrite) root source fromRel toRel overwrite entries
  end.

Section copy.
Variable depth : nat.
Definition policy_copy (p : filePolicy) (from to : fileTarget) (overwrite : bool) : M (fres fileResult) :=
  if negb (fp_allowWrite p) then read_only
  else if negb (bool_decide (ft_rootPath from = ft_rootPath to)) then
    fail StatusBadRequest "copy must stay inside one configured root" []
  else if bool_decide (ft_rel from = dot) || bool_decide (ft_rel to = dot) then
    fail StatusBadRequest "refusing to copy a configured root" []
  else if bool_decide (ft_rel from = ft_rel to) then
    fail StatusBadRequest "source and destination are the same path" []
  else if HasPrefix (ft_rel to) (ft_rel from ++ [slash]) then
    fail StatusBadRequest "destination is inside the source" []
  else
    let! root := target_open from in
    let! info := status (Root_Lstat root (ft_rel from)) in
    do st := Root_Lstat root (ft_rel to) in
    let! _ :=
      match st with
      | Ok _ => if negb overwrite then fail StatusConflict "destination already exists" [] else done tt
      | Err e => if negb (errors_Is ErrNotExist e) then ret (inr (fileStatus e)) else done tt
      end in
    let! _ := status
      (if is_dir info then copyFileTree depth root (ft_rel from) (ft_rel to) (Perm info) overwrite
       else copyFileContents root (ft_rel from) (ft_rel to) (Perm info)) in
    done (MoveResult (ft_path from) (ft_path to)).
End copy.

Definition policy_delete (p : filePolicy) (t : fileTarget) (recursive : bool) : M (fres fileResult) :=
  if negb (fp_allowWrite p) then read_only
  else if ft_privileged t then not_routed
  else if bool_decide (ft_rel t = dot) then fail StatusBadRequest "refusing to delete a configured root" []
  else
    let! root := target_open t in
    let! _ := status (Root_Lstat root (ft_rel t)) in
    let! _ := status (if recursive then Root_RemoveAll root (ft_rel t) else Root_Remove root (ft_rel t)) in
    done (PathResult (ft_path t)).

(** ** The privileged helper *)

Record privRunner := mkPrivRunner { pr_sudo : list str }.
(** [sudo] says whether [exec.LookPath] found it. *)
Definition newPrivRunner (euid : Z) (sudo : bool) : option privRunner :=
  if euid =? 0 then Some (mkPrivRunner [])
  else if negb sudo then None
  else Some (mkPrivRunner [$"sudo"; $"-n"]).
Definition helperPath (cfg : PrivConfig) : str :=
  let path := TrimSpace (priv_Helper cfg) in
  if bool_decide (path <> []) then path else FilesDefaultPrivilegedHelper.
Definition privRunner_argv (r : privRunner) (path : str) (args : list str) : list str := pr_sudo r ++ path :: args.

Definition helperMessage (stderr : str) : str :=
  if bool_decide (stderr = []) then []
  else
    let lines := split_on (byte 10) stderr in
    match List.find (fun line => HasPrefix line ($"maidkit-priv: ")) lines with
    | Some line => TrimSpace line
    | None =>
        match List.find (fun line => negb (bool_decide (line = [])) && negb (HasPrefix line ($"{"))) (TrimSpace <$> rev lines) with
        | Some line => line
        | None => []
        end
    end.
Definition privFailure (err : error) (stderr path : str) : fileActionError :=
  if Contains stderr ($"a password is required") || Contains stderr ($"no tty present")
     || Contains stderr ($"no askpass program") then
    fileError StatusForbidden
      "the privileged helper needs a passwordless sudoers rule; install the one `%s sudoers` prints" [FStr path]
  else if Contains stderr ($"must run as root") then
    fileError StatusFailedDependency
      "the privileged helper %s was not granted root; install its sudoers rule" [FStr path]
  else if Contains stderr ($"command not found") || Contains stderr ($"No such file or directory") then
    fileError StatusFailedDependency "the privileged helper %s is not installed" [FStr path]
  else
    let message := helperMessage stderr in
    fileError StatusBadGateway "the privileged helper failed: %s"
      [if bool_decide (message = []) then FErr err else FStr message].

(** Seconds. *)
Definition privRunnerTimeout : Z := 30.
Definition privMkdirMode : Z := 493.
Definition privWriteModeFor (path : str) : M Z :=
  do info := os_Stat path in
  ret (match info with Ok n => if is_regular n then Perm n else 420 | Err _ => 420 end).

Definition checkPolicyWrite (policy : filePolicy) (target : fileTarget) (size : Z) : option fileActionError :=
  if negb (fp_allowWrite policy) then Some (fileError StatusForbidden "file API is read-only" [])
  else if bool_decide (ft_rel target = dot) then
    Some (fileError StatusBadRequest "refusing to modify a configured root" [])
  else if (0 <? fp_maxWrite policy) && (fp_maxWrite policy <? size) then
    Some (fileError StatusRequestEntityTooLarge "body exceeds maxWriteBytes (%d)" [FInt (fp_maxWrite policy)])
  else None.
Definition errPrivilegedMoveOrCopy : fileActionError :=
  fileError StatusNotImplemented
    "move and copy are not supported inside a privileged root; write the new path and delete the old one" [].

(** The parts of the daemon the file API reads: the live configuration, the
    runner made at start, and whether an audit log is open. *)
Record FileApp := mkFileApp {
  fa_files : FilesConfig;
  fa_priv_config : PrivConfig;
  fa_priv : option privRunner;
  fa_audit : bool;
}.
Definition filePolicyFrom (a : FileApp) : fres filePolicy :=
  match newFilePolicy (fa_files a) with
  | None => inr (fileError StatusForbidden "file API is disabled" [])
  | Some policy => inl policy
  end.

(** One audit entry of a file operation. *)
Record fileAudit := mkFileAudit {
  au_Name : str; au_Source : str; au_InvokedBy : str; au_Target : str; au_Privileged : bool;
  au_OK : bool; au_Error : option fileActionError;
}.
Definition recordFileOp (a : FileApp) (source action invokedBy target : str) (privileged : bool)
    (err : option fileActionError) : list fileAudit :=
  if negb (fa_audit a) then []
  else [mkFileAudit action source invokedBy target privileged (bool_decide (err = None)) err].

Section dispatch.
Context `{FileEnv}.
Variable depth : nat.
Variable a : FileApp.

Definition privRunner_run (r : privRunner) (path verb profile rel mode : str) (payload : option str)
    : M (str * str * option fileActionError) :=
  let args := privRunner_argv r path [$"fs"; verb; profile; rel] in
  let args := if bool_decide (mode <> []) then args ++ [mode] else args in
  do x := exec_command args payload in
  let errText := TrimSpace (ex_stderr x) in
  ret (ex_stdout x, errText,
    match ex_err x with
    | None => None
    | Some err =>
        if ex_deadline x then
          Some (fileError StatusGatewayTimeout "privileged helper timed out after %s" [FInt privRunnerTimeout])
        else Some (privFailure err errText path)
    end).

Definition no_helper : fileActionError :=
  fileError StatusServiceUnavailable "no privileged helper is available on this host" [].
Definition privWrite (target : fileTarget) (data : str) (mode : Z) : M (option fileActionError) :=
  match fa_priv a with
  | None => ret (Some no_helper)
  | Some r =>
      if MaxContentBytes <? Z.of_nat (List.length data) then
        ret (Some (fileError StatusRequestEntityTooLarge
          "content is over the privileged write limit (%d bytes)" [FInt MaxContentBytes]))
      else
        do (_, _, err) := privRunner_run r (helperPath (fa_priv_config a)) ($"write") (ft_profile target)
                            (ft_rel target) (fmt_04o mode) (Some data) in
        ret err
  end.
Definition privMkdir (target : fileTarget) (mode : Z) : M (option fileActionError) :=
  match fa_priv a with
  | None => ret (Some no_helper)
  | Some r =>
      do (_, _, err) := privRunner_run r (helperPath (fa_priv_config a)) ($"mkdir") (ft_profile target)
                          (ft_rel target) (fmt_04o mode) None in
      ret err
  end.
Definition privRemove (target : fileTarget) : M (option fileActionError) :=
  match fa_priv a with
  | None => ret (Some no_helper)
  | Some r =>
      do (_, _, err) := privRunner_run r (helperPath (fa_priv_config a)) ($"remove") (ft_profile target)
                          (ft_rel target) [] None in
      ret err
  end.

(** Every answer is the result or failure, with whether the helper was used. *)
Definition answer : Type := fres fileResult * bool.
Definition answer_err (e : fileActionError) : M answer := ret (inr e, false).
Definition plain (m : M (fres fileResult)) : M answer := do r := m in ret (r, false).
Definition elevated (m : M (option fileActionError)) (result : fileResult) : M answer :=
  do err := m in ret (match err with Some e => inr e | None => inl result end, true).

Definition writeFileData (policy : filePolicy) (target : fileTarget) (data : str) : M answer :=
  let size := Z.of_nat (List.length data) in
  if ft_privileged target then
    match checkPolicyWrite policy target size with
    | Some e => answer_err e
    | None =>
        do mode := privWriteModeFor (ft_path target) in
        elevated (privWrite target data mode) (WriteResult (ft_path target) size)
    end
  else plain (policy_write policy target data).

Definition mkdir_action (policy : filePolicy) (target : fileTarget) (parents : bool) : M answer :=
  if ft_privileged target then
    match checkPolicyWrite policy target 0 with
    | Some e => answer_err e
    | None => elevated (privMkdir target privMkdirMode) (PathResult (ft_path target))
    end
  else plain (policy_mkdir policy target parents).
Definition delete_action (policy : filePolicy) (target : fileTarget) (recursive : bool) : M answer :=
  if ft_privileged target then
    match checkPolicyWrite policy target 0 with
    | Some e => answer_err e
    | None =>
        if recursive then
          answer_err (fileError StatusNotImplemented
            "a privileged root only removes single files; recursive delete is not implemented" [])
        else elevated (privRemove target) (PathResult (ft_path target))
    end
  else plain (policy_delete policy target recursive).

(** [target, err := policy.resolve(...); if err != nil { return }] *)
Definition resolved_in (policy : filePolicy) (path : str) (k : fileTarget -> M answer) : M answer :=
  match resolve policy path with inr e => answer_err e | inl target => k target end.

Definition dispatchFileAction (policy : filePolicy) (action : str) (req : fileActionRequest) : M answer :=
  let one := resolved_in policy (rq_Path req) in
  let two k := resolved_in policy (rq_From req) (fun from => resolved_in policy (rq_To req) (fun to =>
    if ft_privileged from || ft_privileged to then answer_err errPrivilegedMoveOrCopy else plain (k from to))) in
  if bool_decide (action = fileActionRoots) then ret (inl (rootInfos policy), false)
  else if bool_decide (action = fileActionList) then one (fun t => plain (policy_list policy t))
  else if bool_decide (action = fileActionStat) then
    one (fun t => plain (policy_stat policy t (match rq_Follow req with Some f => f | None => true end)))
  else if bool_decide (action = fileActionRead) then
    one (fun t => plain (policy_read policy t (rq_Offset req) (rq_Limit req)))
  else if bool_decide (action = fileActionWrite) then
    one (fun t => match DecodeString (rq_Content req) with
      | None => answer_err (fileError StatusBadRequest "content must be base64" [])
      | Some data => writeFileData policy t data
      end)
  else if bool_decide (action = fileActionMkdir) then one (fun t => mkdir_action policy t (rq_Parents req))
  else if bool_decide (action = fileActionMove) then two (policy_move policy)
  else if bool_decide (action = fileActionCopy) then
    two (fun from to => policy_copy depth policy from to (rq_Overwrite req))
  else if bool_decide (action = fileActionDelete) then one (fun t => delete_action policy t (rq_Recursive req))
  else answer_err (fileError StatusBadRequest "unsupported file action" []).

Definition runFileAction (policy : filePolicy) (source action invokedBy : str) (req : fileActionRequest)
    : M (fres fileResult * list fileAudit) :=
  let target :=
    if bool_decide (action = fileActionMove) || bool_decide (action = fileActionCopy)
    then rq_From req ++ $" -> " ++ rq_To req else rq_Path req in
  do (result, privileged) := dispatchFileAction policy action req in
  ret (result, recordFileOp a source action invokedBy target privileged
                 (match result with inl _ => None | inr e => Some e end)).
End dispatch.
