(* ===== verification/FilesFacts.v ===== *)
(** * FilesFacts: what the file API promises

    Lexical resolution, confinement of the nine actions, the read window, the
    listing, copying, and the hand-over to the privileged helper. *)

From S2P Require Import Prelude GoStr GoPath GoOS GoOSFacts Base64 PrivPackages PrivFirewall PrivSet PrivSetFacts PrivCli Config Files.

(** ** Resolution *)

(** The roots are clean absolute directories. *)
Definition root_ok (r : fileRoot) : Prop := exists l, Forall proper l /\ fr_path r = abs_path l.
Definition policy_ok (p : filePolicy) : Prop := Forall root_ok (fp_roots p).

Lemma newFilePolicy_ok cfg p : Forall (fun r => IsAbs (root_Path r) = true) (files_Roots cfg) ->
  newFilePolicy cfg = Some p -> policy_ok p.
Proof.
  unfold newFilePolicy. intros Hr. destruct (files_Enabled cfg); [|done]. intros [= <-].
  apply Forall_fmap. eapply Forall_impl; [exact Hr|]. intros r Hr'. cbn.
  destruct (Clean_abs _ Hr') as (l & Hl & ?). by exists l.
Qed.

Lemma pathInside_spec l k : Forall proper l -> Forall proper k ->
  pathInside (abs_path l) (abs_path k) = true <-> l `prefix_of` k.
Proof.
  intros Hl Hk. unfold pathInside. rewrite !orb_true_iff, !bool_decide_eq_true. split.
  - intros [[H|H]|H].
    + apply abs_path_inj in H as ->; auto with go.
    + assert (l = []) as ->; [|by exists k]. apply abs_path_inj; auto with go.
    + destruct l as [|x l]; [by exists k|].
      apply abs_path_prefix in H as (m & _ & ->); [by eexists|auto with go..|done].
  - intros [m ->]. destruct m as [|y m]; [left; left; by rewrite app_nil_r|].
    destruct l as [|x l]; [by left; right|]. right. apply abs_path_prefix; auto with go. by exists (y :: m).
Qed.

Lemma abs_path_length l k : l `prefix_of` k -> (List.length (abs_path l) <= List.length (abs_path k))%nat.
Proof.
  intros [m ->]. destruct m as [|y m]; [by rewrite app_nil_r|].
  destruct l as [|x l]; [cbn; lia|]. rewrite abs_path_app by done. rewrite length_app. lia.
Qed.

Lemma abs_path_longer l k : Forall name_ok k -> l `prefix_of` k ->
  (List.length (abs_path k) <= List.length (abs_path l))%nat -> k = l.
Proof.
  intros Hk [m ->]. destruct m as [|y m]; [by rewrite app_nil_r|].
  apply Forall_app in Hk as [_ Hm].
  destruct (join_head (y :: m)) as (c & s & E & _); [done..|].
  destruct l as [|x l]; [cbn [app]; unfold abs_path; rewrite E; cbn; lia|].
  rewrite abs_path_app by done. rewrite length_app. cbn. lia.
Qed.

(** The fold keeps the longest root that holds the path. *)
Definition best_of (clean : str) (roots : list fileRoot) (best : option fileRoot) : Prop :=
  match best with
  | None => forall r, r ∈ roots -> pathInside (fr_path r) clean = false
  | Some b => b ∈ roots /\ pathInside (fr_path b) clean = true /\
      forall r, r ∈ roots -> pathInside (fr_path r) clean = true ->
        (List.length (fr_path r) <= List.length (fr_path b))%nat
  end.
Lemma longest_step clean seen best r :
  best_of clean seen best -> best_of clean (seen ++ [r]) (longest clean best r).
Proof.
  intros Hb. unfold longest. destruct (pathInside (fr_path r) clean) eqn:Er; cbn [negb].
  - destruct best as [b|]; cbn in *.
    + destruct Hb as (Hin & Hi & Hmax). case_match eqn:E; [apply Nat.ltb_lt in E|apply Nat.ltb_ge in E]; cbn.
      * split_and!; [apply elem_of_app; right; constructor|done|].
        intros r' [Hr'|Hr'%list_elem_of_singleton]%elem_of_app Hi'; [|by subst].
        specialize (Hmax _ Hr' Hi'). lia.
      * split_and!; [apply elem_of_app; by left|done|].
        intros r' [Hr'|Hr'%list_elem_of_singleton]%elem_of_app Hi'; [by apply Hmax|by subst].
    + split_and!; [apply elem_of_app; right; constructor|done|].
      intros r' [Hr'|Hr'%list_elem_of_singleton]%elem_of_app Hi'; [|by subst].
      by rewrite (Hb _ Hr') in Hi'.
  - destruct best as [b|]; cbn in *.
    + destruct Hb as (Hin & Hi & Hmax). split_and!; [apply elem_of_app; by left|done|].
      intros r' [Hr'|Hr'%list_elem_of_singleton]%elem_of_app Hi'; [by apply Hmax|subst; congruence].
    + intros r' [Hr'|Hr'%list_elem_of_singleton]%elem_of_app; [by apply Hb|by subst].
Qed.
Lemma longest_best clean roots : best_of clean roots (fold_left (longest clean) roots None).
Proof.
  enough (H : forall todo seen best, best_of clean seen best ->
    best_of clean (seen ++ todo) (fold_left (longest clean) todo best)).
  { apply (H roots [] None). intros r Hr. by apply not_elem_of_nil in Hr. }
  intros todo. induction todo as [|r todo IH]; intros seen best Hb; cbn; [by rewrite app_nil_r|].
  rewrite (cons_middle r seen todo), (assoc_L (++)). by apply IH, longest_step.
Qed.

(** The text that follows a root in a path below it. *)
Lemma trim_root l k : Forall name_ok (l ++ k) ->
  TrimPrefix (TrimPrefix (abs_path (l ++ k)) (abs_path l)) [slash] = join [slash] k.
Proof.
  intros Hlk. pose proof Hlk as [Hl Hk]%Forall_app.
  assert (Hnoslash : TrimPrefix (join [slash] k) [slash] = join [slash] k).
  { unfold TrimPrefix. change (HasPrefix (join [slash] k) [slash]) with (IsAbs (join [slash] k)).
    by rewrite IsAbs_join. }
  destruct l as [|x l].
  - cbn [app]. change (abs_path k) with (abs_path [] ++ join [slash] k). by rewrite TrimPrefix_app.
  - destruct k as [|y k].
    + rewrite app_nil_r. rewrite <-(app_nil_r (abs_path (x :: l))) at 1. by rewrite TrimPrefix_app.
    + rewrite abs_path_app, TrimPrefix_app by done.
      change (slash :: join [slash] (y :: k)) with ([slash] ++ join [slash] (y :: k)). by rewrite TrimPrefix_app.
Qed.

(** [t] is the target of the clean path [abs_path (l ++ k)] in the root [r]. *)
Definition target_of (r : fileRoot) (l k : list str) (t : fileTarget) : Prop :=
  Forall proper (l ++ k) /\ fr_path r = abs_path l /\
  t = mkFileTarget (abs_path l) (rel_path k) (abs_path (l ++ k)) (fr_privileged r) (fr_profile r).

Lemma resolve_ok p raw t : policy_ok p -> resolve p raw = inl t ->
  exists r l k, r ∈ fp_roots p /\ target_of r l k t /\ Clean raw = abs_path (l ++ k) /\
    forall r' l', r' ∈ fp_roots p -> Forall proper l' -> fr_path r' = abs_path l' ->
      l' `prefix_of` l ++ k -> l' `prefix_of` l.
Proof.
  intros Hp. unfold resolve. destruct (has_byte NUL raw); [done|].
  destruct (IsAbs raw) eqn:Ha; [|done]. cbn [negb].
  destruct (Clean_abs _ Ha) as (c & Hc & Hcp). rewrite Hc.
  pose proof (longest_best (abs_path c) (fp_roots p)) as Hb.
  destruct (fold_left _ _ _) as [b|]; [|done]. destruct Hb as (Hin & Hi & Hmax).
  destruct (proj1 (Forall_forall _ _) Hp b Hin) as (l & Hl & Hbl).
  rewrite Hbl in *. apply (pathInside_spec l c Hl Hcp) in Hi as [k ->]. intros [= <-].
  exists b, l, k. split_and!; [done|unfold target_of; split_and!; [done..|]|done|].
  - rewrite trim_root by auto with go. f_equal. unfold rel_path.
    case_bool_decide as E1; case_bool_decide as E2; try done; [|by subst].
    destruct k as [|y k]; [done|]. apply Forall_app in Hcp as [_ Hk].
    destruct (join_head (y :: k)) as (? & ? & E & _); [auto with go|done|congruence].
  - intros r' l' Hr' Hl' Hrl' Hpre. specialize (Hmax r' Hr'). rewrite Hrl' in Hmax.
    specialize (Hmax (proj2 (pathInside_spec l' (l ++ k) Hl' Hcp) Hpre)).
    destruct (prefix_weak_total l l' (l ++ k)) as [Hll|Hll]; [by exists k|done| |done].
    by rewrite (abs_path_longer l l') by auto with go.
Qed.

(** A request path is accepted only inside a root, and the most specific
    root decides. For a policy of clean absolute roots, a resolved target names
    the clean request path, split at a configured root into that root and the
    relative path below it, with the root's own privilege and profile, and every
    root that holds the path holds that root too; a refusal is 400 for a path that
    is relative or carries NUL, and 403 exactly when no root holds the path. *)
Theorem resolve_exact p raw : policy_ok p ->
  match resolve p raw with
  | inl t => NUL ∉ raw /\ IsAbs raw = true /\
      exists r l k, r ∈ fp_roots p /\ target_of r l k t /\ Clean raw = abs_path (l ++ k) /\
        forall r' l', r' ∈ fp_roots p -> Forall proper l' -> fr_path r' = abs_path l' ->
          l' `prefix_of` l ++ k -> l' `prefix_of` l
  | inr e =>
      (fe_status e = StatusBadRequest /\ (NUL ∈ raw \/ IsAbs raw = false)) \/
      (fe_status e = StatusForbidden /\ NUL ∉ raw /\ IsAbs raw = true /\
       forall r l k, r ∈ fp_roots p -> fr_path r = abs_path l -> Forall proper (l ++ k) ->
         Clean raw <> abs_path (l ++ k))
  end.
Proof.
  intros Hp. pose proof (resolve_ok p raw) as Hok. unfold resolve in *.
  destruct (has_byte NUL raw) eqn:Hn; [apply has_byte_spec in Hn; left; auto|apply has_byte_false in Hn].
  destruct (IsAbs raw) eqn:Ha; [|left; auto]. cbn [negb] in *.
  pose proof (longest_best (Clean raw) (fp_roots p)) as Hb.
  destruct (fold_left _ _ _) as [b|].
  - split_and!; [done..|]. by apply Hok.
  - right. split_and!; [done..|]. intros r l k Hr Hrl Hlk Hc. pose proof Hlk as [Hl _]%Forall_app.
    specialize (Hb r Hr). rewrite Hrl, Hc in Hb.
    rewrite (proj2 (pathInside_spec l (l ++ k) Hl Hlk)) in Hb; [done|by exists k].
Qed.

(** ** Confinement *)

Lemma touches_ftry {A B : Type} P (m : M (fres A)) (k : A -> M (fres B)) :
  touches P m -> (forall a, touches P (k a)) -> touches P (ftry m k).
Proof. intros Hm Hk. apply touches_bind; [done|]. intros [a|e]; [apply Hk|apply touches_ret]. Qed.
Lemma touches_status {A : Type} P (m : M (res A)) : touches P m -> touches P (status m).
Proof. intros Hm. apply touches_bind; [done|]. intros [a|e]; apply touches_ret. Qed.
Lemma touches_wrap_link {A : Type} P op old new (m : M (res A)) : touches P m -> touches P (wrap_link op old new m).
Proof. intros Hm. apply touches_bind; [done|]. intros [a|e]; apply touches_ret. Qed.
Lemma touches_done {A : Type} P (a : A) : touches P (done a).
Proof. apply touches_ret. Qed.
Lemma touches_fail {A : Type} P st fmt args : touches P (fail st fmt args : M (fres A)).
Proof. apply touches_ret. Qed.
Lemma touches_dir_stream P dir : touches P (dir_stream dir).
Proof. done. Qed.
#[export] Hint Resolve touches_ftry touches_status touches_wrap_link touches_done touches_fail touches_dir_stream : touches.

(** The calls that only look. *)
Definition looks {A : Type} (m : M A) : Prop := touches (fun _ => False) m.
Lemma looks_touches {A : Type} P (m : M A) : looks m -> touches P m.
Proof. intros Hm. eapply touches_weaken; [|exact Hm]. done. Qed.
Lemma looks_fs {A : Type} (m : M A) w : looks m -> w_fs (m w).2 = w_fs w.
Proof. intros Hm. by apply touches_nothing_fs. Qed.

Ltac looking :=
  repeat match goal with
  | |- looks _ => unfold looks
  | |- touches _ (let '(_, _) := ?x in _) => destruct x
  | |- touches _ (match ?x with _ => _ end) => destruct x
  | |- touches _ (ftry _ _) => apply touches_ftry; [|intros ?]
  | |- touches _ (tryM _ _) => apply touches_try; [|intros ?]
  | |- touches _ (bind _ _) => apply touches_bind; [|intros ?]
  | |- touches _ (status _) => apply touches_status
  | _ => solve [auto with touches]
  | |- touches _ _ => apply touches_query
  end.

Lemma looks_readDir_loop fuel limit stream entries : looks (readDir_loop fuel limit stream entries).
Proof.
  revert stream entries. induction fuel as [|fuel IH]; intros stream entries; cbn [readDir_loop]; looking.
  apply IH.
Qed.
Lemma looks_readDirLimited dir limit : looks (readDirLimited dir limit).
Proof. unfold readDirLimited. looking. apply looks_readDir_loop. Qed.
Lemma looks_target_open t : looks (target_open t).
Proof. unfold target_open. looking. Qed.
Lemma looks_openReadWindow p t offset limit : looks (openReadWindow p t offset limit).
Proof. unfold openReadWindow. looking. apply looks_target_open. Qed.
Lemma looks_ReadFull file offset window : looks (ReadFull file offset window).
Proof. unfold ReadFull. looking. Qed.
Lemma looks_policy_read p t offset limit : looks (policy_read p t offset limit).
Proof. unfold policy_read. looking; [apply looks_openReadWindow|apply looks_ReadFull]. Qed.
Section looks_env.
Context `{FileEnv}.
Lemma looks_with_link_target root rel entry : looks (with_link_target root rel entry).
Proof. unfold with_link_target, fillLinkTarget. looking. Qed.
Lemma looks_list_entries root dir t names : looks (list_entries root dir t names).
Proof.
  induction names as [|name names IH]; cbn [list_entries]; looking; try apply IH.
  apply looks_with_link_target.
Qed.
Lemma looks_policy_list p t : looks (policy_list p t).
Proof.
  unfold policy_list. looking; [apply looks_target_open|apply looks_readDirLimited|apply looks_list_entries].
Qed.
Lemma looks_policy_stat p t follow : looks (policy_stat p t follow).
Proof. unfold policy_stat. looking; [apply looks_target_open|apply looks_with_link_target]. Qed.
End looks_env.
Lemma looks_privWriteModeFor path : looks (privWriteModeFor path).
Proof. unfold privWriteModeFor. looking. Qed.

(** The calls that change stay below the opened root. *)
Lemma CreateTrunc_inside {A : Type} root rel perm (k : fpath -> M (res A)) :
  (forall h, root `prefix_of` h -> touches (prefix root) (k h)) ->
  touches (prefix root) (tryM (Root_CreateTrunc root rel perm) k).
Proof.
  intros Hk w p Hp. unfold tryM, bind.
  pose proof (touches_CreateTrunc root rel perm w p Hp) as Hfs.
  assert (Hin : forall h w', Root_CreateTrunc root rel perm w = (Ok h, w') -> root `prefix_of` h).
  { intros h w'. unfold Root_CreateTrunc, with_umask, syscall, bind.
    destruct (next_fault w) as [[[e n]|] w1]; [done|]. case_match eqn:E; [|done]. case_match. intros [= <- <-].
    inv_ok. case_match; [case_match|]; inv_ok; simplify_eq; by eapply root_resolve_under. }
  destruct (Root_CreateTrunc root rel perm w) as [[h|e] w']; cbn in *; [|done].
  by rewrite (Hk h (Hin h w' eq_refl) w' p Hp).
Qed.
Lemma touches_copyFileContents root fromRel toRel perm :
  touches (prefix root) (copyFileContents root fromRel toRel perm).
Proof.
  unfold copyFileContents. apply touches_try; [apply touches_query|]. intros source.
  apply CreateTrunc_inside. intros h Hh. looking.
Qed.
Lemma touches_copy_entries tree root source fromRel toRel overwrite names :
  (forall f t perm, touches (prefix root) (tree f t perm)) ->
  touches (prefix root) (copy_entries tree root source fromRel toRel overwrite names).
Proof.
  intros Ht. induction names as [|name names IH]; cbn [copy_entries]; [apply touches_ret|].
  apply touches_try; [apply touches_query|]. intros info.
  apply touches_try; [|intros _; apply IH].
  repeat case_match; [apply Ht| |apply touches_copyFileContents|apply touches_ret].
  unfold copy_link. looking.
Qed.
Lemma touches_copyFileTree depth root fromRel toRel perm overwrite :
  touches (prefix root) (copyFileTree depth root fromRel toRel perm overwrite).
Proof.
  revert fromRel toRel perm. induction depth as [|depth IH]; intros fromRel toRel perm; cbn [copyFileTree]; looking.
  apply touches_copy_entries. intros. apply IH.
Qed.

(** Where an operation on the root of [t] may change the file system [fs]. *)
Definition in_root (fs : fsys) (root : str) (q : fpath) : Prop :=
  exists base, os_resolve fs LDir root = Ok base /\ base `prefix_of` q.
Definition changes_within {A : Type} (m : M A) (R : fsys -> fpath -> Prop) : Prop :=
  forall w q, w_fs (m w).2 !! q <> w_fs w !! q -> R (w_fs w) q.

Lemma looks_within {A : Type} (m : M A) R : looks m -> changes_within m R.
Proof. intros Hm w q Hq. by rewrite (looks_fs _ _ Hm) in Hq. Qed.
Lemma within_weaken {A : Type} (m : M A) (R R' : fsys -> fpath -> Prop) :
  (forall fs q, R fs q -> R' fs q) -> changes_within m R -> changes_within m R'.
Proof. intros HR Hm w q Hq. by apply HR, Hm. Qed.
Lemma within_look {A B : Type} (m : M A) (k : A -> M B) R :
  looks m -> (forall a, changes_within (k a) R) -> changes_within (bind m k) R.
Proof.
  intros Hm Hk w q. unfold bind. pose proof (looks_fs m w Hm) as Hfs.
  destruct (m w) as [a w']. cbn in Hfs. rewrite <-Hfs. apply Hk.
Qed.
Lemma within_then_ret {A B : Type} (m : M A) (f : A -> B) R :
  changes_within m R -> changes_within (bind m (fun a => ret (f a))) R.
Proof. intros Hm w q. specialize (Hm w q). unfold bind. by destruct (m w). Qed.

Lemma target_open_within {A : Type} t (k : fpath -> M (fres A)) :
  (forall base, touches (prefix base) (k base)) ->
  changes_within (ftry (target_open t) k) (fun fs q => in_root fs (ft_rootPath t) q).
Proof.
  intros Hk w q. unfold ftry, bind.
  pose proof (looks_fs (target_open t) w (looks_target_open t)) as Hfs.
  assert (Hb : forall base w', target_open t w = (inl base, w') -> os_resolve (w_fs w) LDir (ft_rootPath t) = Ok base).
  { intros base w'. unfold target_open, OpenRoot, query, syscall, bind.
    destruct (next_fault_fs w) as [Hn _]. destruct (next_fault w) as [[[e n]|] w1]; [done|]. cbn in Hn. rewrite Hn.
    destruct (os_resolve (w_fs w) LDir (ft_rootPath t)) as [b|e]; cbn [res_bind]; [|done]. by intros [= <- _]. }
  destruct (target_open t w) as [[base|e] w']; cbn in Hfs; [|by rewrite <-Hfs].
  intros Hq. exists base. split; [by eapply Hb|].
  destruct (decide (base `prefix_of` q)) as [|Hout]; [done|]. exfalso. apply Hq. rewrite <-Hfs.
  by apply (Hk base w' q).
Qed.

(** Every change of the policy's own operations is below the root of its target. *)
Ltac refusals := repeat (match goal with |- changes_within (if ?b then _ else _) _ => destruct b end;
  [apply looks_within; apply touches_ret|]).
Definition own_change (p : filePolicy) (t : fileTarget) (fs : fsys) (q : fpath) : Prop :=
  fp_allowWrite p = true /\ in_root fs (ft_rootPath t) q.
Lemma own_change_within {A : Type} p t (m : M A) :
  fp_allowWrite p = true -> changes_within m (fun fs q => in_root fs (ft_rootPath t) q) ->
  changes_within m (own_change p t).
Proof. intros Hp. apply within_weaken. by split. Qed.
Ltac own p :=
  destruct (fp_allowWrite p) eqn:?; cbn [negb]; [|apply looks_within; apply touches_ret]; refusals;
  apply own_change_within; [done|]; apply target_open_within; intros base.

Lemma policy_write_within p t data : changes_within (policy_write p t data) (own_change p t).
Proof.
  unfold policy_write. own p. apply touches_bind; [apply touches_query|]. intros st.
  match goal with |- touches _ (if ?b then _ else _) => destruct b; [apply touches_fail|] end.
  unfold ftry, status. intros w q Hq.
  assert (H : touches (prefix base) (tryM (Root_CreateTrunc base (ft_rel t) 420) (fun file => File_Write file data)))
    by (apply CreateTrunc_inside; intros h Hh; by apply touches_File_Write).
  specialize (H w q Hq). unfold tryM, bind in *.
  destruct (Root_CreateTrunc base (ft_rel t) 420 w) as [[h|e] w']; cbn in *; [|done].
  by destruct (File_Write h data w') as [[u|e] w''].
Qed.
Lemma policy_mkdir_within p t parents : changes_within (policy_mkdir p t parents) (own_change p t).
Proof. unfold policy_mkdir. own p. looking. Qed.
Lemma policy_delete_within p t recursive : changes_within (policy_delete p t recursive) (own_change p t).
Proof. unfold policy_delete. own p. looking. Qed.
Lemma policy_move_within p from to : changes_within (policy_move p from to) (own_change p from).
Proof. unfold policy_move. own p. looking. Qed.
Lemma policy_copy_within depth p from to overwrite :
  changes_within (policy_copy depth p from to overwrite) (own_change p from).
Proof.
  unfold policy_copy. own p. looking; [apply touches_copyFileTree|apply touches_copyFileContents].
Qed.

(** The root a path resolves to is the most specific one that holds it. *)
Definition most_specific (p : filePolicy) (raw : str) (r : fileRoot) : Prop :=
  r ∈ fp_roots p /\ pathInside (fr_path r) (Clean raw) = true /\
  forall r', r' ∈ fp_roots p -> pathInside (fr_path r') (Clean raw) = true -> (List.length (fr_path r') <= List.length (fr_path r))%nat.
Lemma resolve_root p raw t : resolve p raw = inl t ->
  exists r, most_specific p raw r /\ ft_rootPath t = fr_path r /\ ft_privileged t = fr_privileged r /\
    ft_profile t = fr_profile r.
Proof.
  unfold resolve. destruct (has_byte NUL raw); [done|]. destruct (IsAbs raw); [|done]. cbn [negb].
  pose proof (longest_best (Clean raw) (fp_roots p)) as Hb.
  destruct (fold_left _ _ _) as [b|]; [|done]. destruct Hb as (Hin & Hi & Hmax). intros [= <-]. exists b. by split_and!.
Qed.

Section dispatch_confined.
Context `{FileEnv}.
Variables (depth : nat) (a : FileApp) (policy : filePolicy) (helper : fpath -> Prop).
Context {helper_dec : forall q, Decision (helper q)}.
Hypothesis helper_stays : forall argv payload, touches helper (exec_command argv payload).

(** A change of an action on some paths: that of a root one of them resolves to, where
    all of them resolve to roots of one kind. *)
Definition accounted (raws : list str) (fs : fsys) (q : fpath) : Prop :=
  fp_allowWrite policy = true /\
  exists raw t, raw ∈ raws /\ resolve policy raw = inl t /\ (if ft_privileged t then helper q else in_root fs (ft_rootPath t) q) /\
    forall raw' t', raw' ∈ raws -> resolve policy raw' = inl t' -> ft_privileged t' = ft_privileged t.
(** A change some root of the policy allows. *)
Definition allowed_change (fs : fsys) (q : fpath) : Prop :=
  fp_allowWrite policy = true /\
  exists r, r ∈ fp_roots policy /\ if fr_privileged r then helper q else in_root fs (fr_path r) q.
Lemma accounted_allowed raws fs q : accounted raws fs q -> allowed_change fs q.
Proof using.
  intros [Hw (raw & t & _ & Ht & Hq & _)]. split; [done|]. destruct (resolve_root _ _ _ Ht) as (r & (Hin & _) & Hp & Hv & _). exists r. split; [done|].
  rewrite <-Hp, <-Hv. exact Hq.
Qed.
Lemma accounted_one raw t fs q : fp_allowWrite policy = true -> resolve policy raw = inl t ->
  (if ft_privileged t then helper q else in_root fs (ft_rootPath t) q) -> accounted [raw] fs q.
Proof using.
  intros Hw Ht Hq. split; [done|]. exists raw, t. split_and!; [by left|done|done|]. 
  intros raw' t' ->%list_elem_of_singleton Ht'. congruence.
Qed.

Lemma resolved_within path R k :
  (forall t, resolve policy path = inl t -> changes_within (k t) R) -> changes_within (resolved_in policy path k) R.
Proof using.
  intros Hk. unfold resolved_in. destruct (resolve policy path) as [t|e]; [by apply Hk|].
  by apply looks_within.
Qed.
Lemma plain_within raw t m :
  resolve policy raw = inl t -> ft_privileged t = false -> changes_within m (own_change policy t) ->
  changes_within (plain m) (accounted [raw]).
Proof using.
  intros Ht Hpriv Hm. apply within_then_ret. eapply within_weaken; [|exact Hm].
  intros fs q [Hw Hr]. eapply accounted_one; [done..|]. by rewrite Hpriv.
Qed.
Lemma run_touches r path verb profile rel mode payload :
  touches helper (privRunner_run r path verb profile rel mode payload).
Proof using helper_stays.
  unfold privRunner_run. apply touches_bind; [apply helper_stays|]. intros x. apply touches_ret.
Qed.
Lemma helper_within raw t m result size :
  resolve policy raw = inl t -> ft_privileged t = true -> checkPolicyWrite policy t size = None ->
  touches helper m -> changes_within (elevated m result) (accounted [raw]).
Proof using helper_dec.
  intros Ht Hpriv Hc Hm. apply within_then_ret. intros w q Hq. eapply accounted_one; [|done|].
  - unfold checkPolicyWrite in Hc. by destruct (fp_allowWrite policy).
  - rewrite Hpriv. destruct (decide (helper q)) as [|Hno]; [done|]. by destruct Hq; apply Hm.
Qed.
Lemma privWrite_touches t data mode : touches helper (privWrite a t data mode).
Proof using helper_stays.
  unfold privWrite. destruct (fa_priv a); [|apply touches_ret]. case_match; [apply touches_ret|].
  apply touches_bind; [apply run_touches|]. intros [[? ?] ?]. apply touches_ret.
Qed.
Lemma privMkdir_touches t mode : touches helper (privMkdir a t mode).
Proof using helper_stays.
  unfold privMkdir. destruct (fa_priv a); [|apply touches_ret].
  apply touches_bind; [apply run_touches|]. intros [[? ?] ?]. apply touches_ret.
Qed.
Lemma privRemove_touches t : touches helper (privRemove a t).
Proof using helper_stays.
  unfold privRemove. destruct (fa_priv a); [|apply touches_ret].
  apply touches_bind; [apply run_touches|]. intros [[? ?] ?]. apply touches_ret.
Qed.

Lemma writeFileData_within raw t data : resolve policy raw = inl t ->
  changes_within (writeFileData a policy t data) (accounted [raw]).
Proof using helper_stays helper_dec.
  intros Ht. unfold writeFileData. destruct (ft_privileged t) eqn:Hp.
  - destruct (checkPolicyWrite _ _ _) eqn:Hc; [by apply looks_within|].
    apply within_look; [apply looks_privWriteModeFor|]. intros mode.
    eapply helper_within; [done..|apply privWrite_touches].
  - eapply plain_within; [done..|apply policy_write_within].
Qed.
Lemma mkdir_action_within raw t parents : resolve policy raw = inl t ->
  changes_within (mkdir_action a policy t parents) (accounted [raw]).
Proof using helper_stays helper_dec.
  intros Ht. unfold mkdir_action. destruct (ft_privileged t) eqn:Hp.
  - destruct (checkPolicyWrite _ _ _) eqn:Hc; [by apply looks_within|].
    eapply helper_within; [done..|apply privMkdir_touches].
  - eapply plain_within; [done..|apply policy_mkdir_within].
Qed.
Lemma delete_action_within raw t recursive : resolve policy raw = inl t ->
  changes_within (delete_action a policy t recursive) (accounted [raw]).
Proof using helper_stays helper_dec.
  intros Ht. unfold delete_action. destruct (ft_privileged t) eqn:Hp.
  - destruct (checkPolicyWrite _ _ _) eqn:Hc; [by apply looks_within|].
    destruct recursive; [by apply looks_within|]. eapply helper_within; [done..|apply privRemove_touches].
  - eapply plain_within; [done..|apply policy_delete_within].
Qed.
Lemma two_within from_raw to_raw (k : fileTarget -> fileTarget -> M (fres fileResult)) :
  (forall from to, changes_within (k from to) (own_change policy from)) ->
  changes_within (resolved_in policy from_raw (fun from => resolved_in policy to_raw (fun to =>
    if ft_privileged from || ft_privileged to then answer_err errPrivilegedMoveOrCopy else plain (k from to))))
    (accounted [from_raw; to_raw]).
Proof using.
  intros Hk. apply resolved_within. intros from Hf. apply resolved_within. intros to Ht.
  destruct (ft_privileged from) eqn:Hp; [by apply looks_within|].
  destruct (ft_privileged to) eqn:Hp'; [by apply looks_within|]. apply within_then_ret. eapply within_weaken; [|apply Hk].
  intros fs q [Hw Hr]. split; [done|]. exists from_raw, from. split_and!; [by left|done|by rewrite Hp|].
  intros raw t [->| ->%list_elem_of_singleton]%elem_of_cons Hr'; simplify_eq; congruence.
Qed.

Definition mutating : list str := [fileActionWrite; fileActionMkdir; fileActionMove; fileActionCopy; fileActionDelete].
(** The paths a request names. *)
Definition named (action : str) (req : fileActionRequest) : list str :=
  if bool_decide (action = fileActionMove) || bool_decide (action = fileActionCopy) then [rq_From req; rq_To req] else [rq_Path req].
Lemma dispatch_within action req :
  changes_within (dispatchFileAction depth a policy action req) (fun fs q => action ∈ mutating /\ accounted (named action req) fs q).
Proof using helper_stays helper_dec.
  assert (Hlook : forall A (m : M A), looks m -> changes_within m (fun fs q => action ∈ mutating /\ accounted (named action req) fs q))
    by (intros; by apply looks_within).
  assert (Hmut : forall m : M answer, action ∈ mutating -> changes_within m (accounted (named action req)) ->
    changes_within m (fun fs q => action ∈ mutating /\ accounted (named action req) fs q))
    by (intros m Hin; apply within_weaken; by split).
  assert (Hread : forall raw k, (forall t, looks (k t)) -> looks (resolved_in policy raw (fun t => plain (k t)))).
  { intros raw k Hk. unfold resolved_in, looks. destruct (resolve policy raw); [|apply touches_ret].
    apply touches_bind; [apply Hk|]. intros r. apply touches_ret. }
  unfold dispatchFileAction.
  case_bool_decide; [by apply Hlook|].
  case_bool_decide; [apply Hlook, Hread; intros t; apply looks_policy_list|].
  case_bool_decide; [apply Hlook, Hread; intros t; apply looks_policy_stat|].
  case_bool_decide; [apply Hlook, Hread; intros t; apply looks_policy_read|].
  repeat (case_bool_decide; [subst action; apply Hmut; [by apply (bool_decide_unpack _)|]|]).
  - apply resolved_within. intros t Ht. destruct (DecodeString (rq_Content req)); [|by apply looks_within].
    by eapply writeFileData_within.
  - apply resolved_within. intros t Ht. by eapply mkdir_action_within.
  - apply two_within. apply policy_move_within.
  - apply two_within. intros from to. apply policy_copy_within.
  - apply resolved_within. intros t Ht. by eapply delete_action_within.
  - by apply Hlook.
Qed.
End dispatch_confined.

(** C3. The file API writes only where the configuration lets it, and by whom. Whatever
    the request, whatever fails and wherever symbolic links point, if a path differs
    after an action then writing is enabled, the action is one of the five that change
    something, and the most specific root that holds a path the request names accounts
    for it: an ordinary root whose physical directory holds the changed path, or a
    privileged root, in which case the privileged helper made the change and not the
    daemon. All the paths a request names are of one kind of root, so no move or copy
    names a privileged one (a privileged root that lies below a directory the request
    names is not looked for: [nested_root_moves]). *)
Theorem dispatch_confined `{FileEnv} depth a policy (helper : fpath -> Prop) `{!forall q, Decision (helper q)} action req w q :
  (forall argv payload, touches helper (exec_command argv payload)) ->
  w_fs (dispatchFileAction depth a policy action req w).2 !! q <> w_fs w !! q ->
  action ∈ mutating /\ fp_allowWrite policy = true /\
  exists raw t r, raw ∈ named action req /\ resolve policy raw = inl t /\ most_specific policy raw r /\ ft_privileged t = fr_privileged r /\
    (if fr_privileged r then helper q else exists base, os_resolve (w_fs w) LDir (fr_path r) = Ok base /\ base `prefix_of` q) /\
    forall raw' t', raw' ∈ named action req -> resolve policy raw' = inl t' -> ft_privileged t' = fr_privileged r.
Proof.
  intros Hh Hq. destruct (dispatch_within depth a policy helper Hh action req w q Hq) as (Hm & Hw & raw & t & Hraw & Ht & Hc & Hall).
  split; [done|]. split; [done|]. destruct (resolve_root _ _ _ Ht) as (r & Hr & Hp & Hv & _). exists raw, t, r. rewrite <-Hv, <-Hp. by split_and!.
Qed.

(** ** Runs that succeed *)

Lemma query_inv {A : Type} (f : fsys -> res A) w a w' :
  query f w = (Ok a, w') -> f (w_fs w) = Ok a /\ w_fs w' = w_fs w.
Proof.
  unfold query, syscall, bind. destruct (next_fault_fs w) as [Hn _].
  destruct (next_fault w) as [[[e n]|] w1]; [done|]. cbn in Hn. rewrite Hn.
  destruct (f (w_fs w)) as [b|e]; cbn [res_bind]; [|done]. intros [= <- <-]. by split.
Qed.
Lemma status_inv {A : Type} (m : M (res A)) w a w' : status m w = (inl a, w') -> m w = (Ok a, w').
Proof. unfold status, bind. destruct (m w) as [[b|e] w1]; cbn; [|done]. by intros [= -> ->]. Qed.
Lemma ftry_inv {A B : Type} (m : M (fres A)) (k : A -> M (fres B)) w b w' :
  ftry m k w = (inl b, w') -> exists a w1, m w = (inl a, w1) /\ k a w1 = (inl b, w').
Proof. unfold ftry, bind. destruct (m w) as [[a|e] w1]; cbn; [|done]. eauto. Qed.
Lemma try_inv {A B : Type} (m : M (res A)) (k : A -> M (res B)) w b w' :
  tryM m k w = (Ok b, w') -> exists a w1, m w = (Ok a, w1) /\ k a w1 = (Ok b, w').
Proof. unfold tryM, bind. destruct (m w) as [[a|e] w1]; cbn; [|done]. eauto. Qed.
Lemma fail_inv {A : Type} st fmt args w (a : A) w' : fail st fmt args w = (inl a, w') -> False.
Proof. done. Qed.
Lemma done_inv {A : Type} (a b : A) w w' : done a w = (inl b, w') -> a = b /\ w = w'.
Proof. by intros [= -> ->]. Qed.
Lemma target_open_inv t w base w' : target_open t w = (inl base, w') ->
  os_resolve (w_fs w) LDir (ft_rootPath t) = Ok base /\ w_fs w' = w_fs w.
Proof.
  unfold target_open. unfold bind. destruct (OpenRoot (ft_rootPath t) w) as [[b|e] w1] eqn:E; lazy beta iota.
  - intros [-> ->]%done_inv. by apply query_inv in E.
  - intros H. destruct (fail_inv _ _ _ _ _ _ H).
Qed.
Lemma must_exist_ok fs p n : must_exist fs p = Ok n <-> fs !! p = Some n.
Proof. unfold must_exist. destruct (fs !! p); naive_solver. Qed.

(** Without faults, a call does what it says. *)
Lemma query_run {A : Type} (f : fsys -> res A) w : w_faults w = [] -> query f w = (f (w_fs w), w).
Proof.
  intros Hf. unfold query, syscall, bind, next_fault. rewrite Hf.
  destruct (f (w_fs w)); cbn [res_bind]; [|done]. f_equal. by destruct w.
Qed.

(** Split a successful run into its steps. *)
Ltac run_steps :=
  repeat match goal with
  | H : ftry (target_open _) _ _ = (inl _, _) |- _ =>
      let H1 := fresh "Hopen" in let H2 := fresh "Hfs" in
      apply ftry_inv in H as (? & ? & H1 & H); apply target_open_inv in H1 as [H1 H2]
  | H : ftry (status (query _)) _ _ = (inl _, _) |- _ =>
      let H1 := fresh "Hq" in let H2 := fresh "Hfs" in
      apply ftry_inv in H as (? & ? & H1 & H); apply status_inv in H1; apply query_inv in H1 as [H1 H2]
  | H : ftry _ _ _ = (inl _, _) |- _ =>
      let H1 := fresh "Hrun" in apply ftry_inv in H as (? & ? & H1 & H)
  | H : (if ?b then _ else _) _ = (inl _, _) |- _ =>
      let E := fresh "Hif" in destruct b eqn:E
  | H : fail _ _ _ _ = (inl _, _) |- _ => exfalso; exact (fail_inv _ _ _ _ _ _ H)
  | H : done _ _ = (inl _, _) |- _ => apply done_inv in H as [? ?]
  end.

(** ** The read window *)

Definition window_len (size offset limit : Z) : Z :=
  if limit =? 0 then size - offset else Z.min limit (size - offset).
(** The regular file a target names, links followed inside the root. *)
Definition names_file (fs : fsys) (t : fileTarget) (h : fpath) (d : str) : Prop :=
  exists base n, os_resolve fs LDir (ft_rootPath t) = Ok base /\
    root_resolve fs base LFollow (ft_rel t) = Ok h /\ fs !! h = Some n /\ n_kind n = CFile d.
Definition window_ok (p : filePolicy) (size offset limit : Z) : Prop :=
  0 <= offset <= size /\ 0 <= limit <= fp_maxRead p /\ window_len size offset limit <= fp_maxRead p.

Lemma openReadWindow_inv p t offset limit w h size len w' : 0 < fp_maxRead p ->
  openReadWindow p t offset limit w = (inl (h, size, len), w') ->
  w_fs w' = w_fs w /\ exists d, names_file (w_fs w) t h d /\ size = Z.of_nat (List.length d) /\
    len = window_len size offset limit /\ window_ok p size offset limit.
Proof.
  intros Hmax. unfold openReadWindow, Root_Open, File_Stat, File_Seek. intros H. run_steps.
  injection H as -> <- <-. subst x6. split; [congruence|].
  apply res_bind_ok in Hq as (h' & Hres & Hq). apply res_bind_ok in Hq as (n & Hn & [= ->]).
  apply must_exist_ok in Hn, Hq0. rewrite Hfs0, Hfs in Hq0. rewrite Hfs in Hres, Hn.
  assert (x3 = n) as -> by congruence.
  unfold is_regular, file_size in *. destruct (n_kind n) as [d| | |] eqn:Hk; try done. cbn [negb] in *.
  exists d. split_and!; [by exists x, n|done| |]; bools; apply andb_false_iff in Hif3;
    unfold window_ok, window_len; destruct (Z.eqb_spec limit 0); cbn [orb andb] in *;
    destruct Hif3; bools; try (destruct (Z.ltb_spec (Z.of_nat (List.length d) - offset) limit)); try done; lia.
Qed.

Lemma window_bytes (d : str) offset len : 0 <= offset -> 0 <= len -> offset + len <= Z.of_nat (List.length d) ->
  List.length (take (Z.to_nat len) (drop (Z.to_nat offset) d)) = Z.to_nat len.
Proof. intros. rewrite length_take, length_drop. lia. Qed.
Lemma window_len_bounds p size offset limit : window_ok p size offset limit ->
  0 <= window_len size offset limit /\ offset + window_len size offset limit <= size.
Proof. unfold window_ok, window_len. destruct (limit =? 0); lia. Qed.

(** The buffer holds the window, with nothing missing. *)
Lemma ReadFull_window (d : str) offset len : 0 <= offset -> 0 < len -> offset + len <= Z.of_nat (List.length d) ->
  let data := take (Z.to_nat len) (drop (Z.to_nat offset) d) in
  data <> [] /\ data ++ replicate (Z.to_nat len - List.length data) (byte 0) = data.
Proof.
  intros Ho Hl Hd. cbv zeta. pose proof (window_bytes d offset len) as Hb. rewrite Hb by lia. split.
  - intros Hn. rewrite Hn in Hb. cbn in Hb. lia.
  - by rewrite Nat.sub_diag, app_nil_r.
Qed.

Lemma policy_read_inv p t offset limit w r w' : 0 < fp_maxRead p ->
  policy_read p t offset limit w = (inl r, w') -> w_fs w' = w_fs w /\ exists h d content,
    names_file (w_fs w) t h d /\ window_ok p (Z.of_nat (List.length d)) offset limit /\
    r = ReadResult (ft_path t) offset (Z.of_nat (List.length d)) content /\
    DecodeString content =
      Some (take (Z.to_nat (window_len (Z.of_nat (List.length d)) offset limit)) (drop (Z.to_nat offset) d)).
Proof.
  intros Hmax. unfold policy_read. intros H. apply ftry_inv in H as ([[h size] len] & w1 & Hwin & H).
  apply openReadWindow_inv in Hwin as (Hfs & d & Hd & -> & -> & Hok); [|done].
  apply ftry_inv in H as (buf & w2 & Hbuf & [<- ->]%done_inv). apply status_inv in Hbuf.
  pose proof (window_len_bounds _ _ _ _ Hok) as [Hl1 Hl2].
  set (len := window_len (Z.of_nat (List.length d)) offset limit) in *.
  enough (w_fs w' = w_fs w1 /\ buf = take (Z.to_nat len) (drop (Z.to_nat offset) d)) as [Hfs' ->].
  { split; [congruence|]. exists h, d. eexists. split_and!; [done..|]. apply DecodeString_EncodeToString. }
  unfold ReadFull in Hbuf. destruct (Z.eqb_spec len 0) as [E|Hne]; [rewrite E; by injection Hbuf as <- <-|].
  apply try_inv in Hbuf as (data & w3 & Hdata & Hbuf). apply query_inv in Hdata as [Hdata Hfs'].
  apply res_bind_ok in Hdata as (n & Hn & [= <-]). apply must_exist_ok in Hn.
  destruct Hd as (base & n' & _ & _ & Hn' & Hk). rewrite Hfs in Hn. assert (n' = n) as -> by congruence.
  unfold read_at in Hbuf. rewrite Hk in Hbuf.
  destruct (ReadFull_window d offset len) as [Hnn Happ]; [destruct Hok; lia..|].
  rewrite bool_decide_eq_false_2 in Hbuf by done. rewrite Happ in Hbuf. by injection Hbuf as <- <-.
Qed.

Lemma ftry_query_run {A B : Type} (f : fsys -> res A) (k : A -> M (fres B)) w a : w_faults w = [] ->
  f (w_fs w) = Ok a -> ftry (status (query f)) k w = k a w.
Proof. intros Hw Hf. unfold ftry, status, bind. rewrite query_run by done. by rewrite Hf. Qed.
Lemma try_query_run {A B : Type} (f : fsys -> res A) (k : A -> M (res B)) w a : w_faults w = [] ->
  f (w_fs w) = Ok a -> tryM (query f) k w = k a w.
Proof. intros Hw Hf. unfold tryM, bind. rewrite query_run by done. by rewrite Hf. Qed.
Lemma target_open_run {A : Type} t (k : fpath -> M (fres A)) w base : w_faults w = [] ->
  os_resolve (w_fs w) LDir (ft_rootPath t) = Ok base -> ftry (target_open t) k w = k base w.
Proof.
  intros Hw Hb. unfold ftry, target_open, OpenRoot, bind. rewrite query_run by done. by rewrite Hb.
Qed.

Lemma policy_read_run p t offset limit w h d : w_faults w = [] -> names_file (w_fs w) t h d ->
  window_ok p (Z.of_nat (List.length d)) offset limit ->
  exists r, policy_read p t offset limit w = (inl r, w).
Proof.
  intros Hw Hd Hok. pose proof (window_len_bounds _ _ _ _ Hok) as [Hl1 Hl2].
  assert (Hopen : openReadWindow p t offset limit w =
    (inl (h, Z.of_nat (List.length d), window_len (Z.of_nat (List.length d)) offset limit), w)).
  { destruct Hd as (base & n & Hb & Hr & Hn & Hk). unfold openReadWindow.
    rewrite (target_open_run _ _ _ _ Hw Hb). unfold Root_Open.
    erewrite ftry_query_run; [|done|rewrite Hr; cbn [res_bind]; by rewrite (proj2 (must_exist_ok _ _ _) Hn)].
    unfold File_Stat. erewrite ftry_query_run; [|done|by apply must_exist_ok].
    unfold is_regular, file_size. rewrite Hk. cbn [negb].
    destruct Hok as (Ho & Hlim & Hlen). unfold window_len in *.
    rewrite (proj2 (Z.ltb_ge offset 0)), (proj2 (Z.ltb_ge _ offset)), (proj2 (Z.ltb_ge limit 0)),
      (proj2 (Z.ltb_ge (fp_maxRead p) limit)) by lia. cbn [orb].
    destruct (Z.eqb_spec limit 0) as [->|Hne]; cbn [andb orb].
    - rewrite (proj2 (Z.ltb_ge (fp_maxRead p) _)) by lia. unfold File_Seek. by erewrite ftry_query_run.
    - unfold File_Seek. erewrite ftry_query_run by done. unfold done, ret. do 3 f_equal.
      destruct (Z.ltb_spec (Z.of_nat (List.length d) - offset) limit); lia. }
  unfold policy_read. unfold ftry at 1, bind. rewrite Hopen.
  set (len := window_len (Z.of_nat (List.length d)) offset limit) in *.
  unfold ReadFull. destruct (Z.eqb_spec len 0) as [_|Hne]; [eexists; reflexivity|].
  destruct Hd as (base & n & _ & _ & Hn & Hk). unfold ftry, status, bind, File_ReadAt.
  erewrite try_query_run; [|done|by rewrite (proj2 (must_exist_ok _ _ _) Hn)].
  unfold read_at. rewrite Hk. destruct (ReadFull_window d offset len) as [Hnn _]; [destruct Hok; lia..|].
  rewrite bool_decide_eq_false_2 by done. eexists. reflexivity.
Qed.

(** A read returns exactly the window that was asked for. On success the
    target is, inside its root, a regular file; the answer carries its whole size
    and, in base64, its bytes from [offset], [limit] of them or what is left when
    there are fewer, and all that is left when no limit was given; the window
    never exceeds [maxReadBytes], and a file too large for it is refused and not
    cut short. Without faults every such request succeeds, so nothing else is
    refused. *)
Theorem read_exact p t offset limit w : 0 < fp_maxRead p ->
  match policy_read p t offset limit w with
  | (inl r, w') => w_fs w' = w_fs w /\ exists h d content,
      names_file (w_fs w) t h d /\ window_ok p (Z.of_nat (List.length d)) offset limit /\
      r = ReadResult (ft_path t) offset (Z.of_nat (List.length d)) content /\
      DecodeString content =
        Some (take (Z.to_nat (window_len (Z.of_nat (List.length d)) offset limit)) (drop (Z.to_nat offset) d))
  | (inr _, _) => w_faults w = [] -> forall h d, names_file (w_fs w) t h d ->
      ~ window_ok p (Z.of_nat (List.length d)) offset limit
  end.
Proof.
  intros Hmax. destruct (policy_read p t offset limit w) as [[r|e] w'] eqn:E; [by eapply policy_read_inv|].
  intros Hw h d Hd Hok. destruct (policy_read_run p t offset limit w h d Hw Hd Hok) as [r Hr]. congruence.
Qed.

(** ** Writing *)

(** Resolution does not notice a leaf, a missing path or a regular file, that
    becomes a regular file. *)
Definition leaf (o : option content) : Prop := match o with None | Some (CFile _) => True | _ => False end.
Definition same_but_leaf (look look' : fpath -> option content) : Prop :=
  forall q, look' q = look q \/ (leaf (look q) /\ exists d, look' q = Some (CFile d)).
Lemma walk_leaf look look' confined mode b cur l p : same_but_leaf look look' ->
  walk look confined mode b cur l = Ok p -> walk look' confined mode b cur l = Ok p.
Proof.
  intros Hl. revert cur l.
  induction b as [|b IHb]; intros cur l; revert cur; induction l as [|y l IH]; intros cur; simpl; try done.
  all: case_bool_decide; [apply IH|].
  all: case_bool_decide; [case_bool_decide; [destruct confined; [done|apply IH]|apply IH]|].
  all: destruct (Hl (cur ++ [y])) as [->|[Hleaf [d' ->]]];
    [|by destruct (look (cur ++ [y])) as [[]|]; try done; destruct (_ && _)].
  all: destruct (look (cur ++ [y])) as [[]|]; try done; try apply IH.
  case_match; [done|]. case_match; [destruct confined; [done|]|]; apply IHb.
Qed.
Lemma insert_leaf fs base h d n : leaf (n_kind <$> fs !! h) -> n_kind n = CFile d ->
  same_but_leaf (look_in fs base) (look_in (<[h := n]> fs) base).
Proof.
  intros Hh Hn q. unfold look_in. destruct (decide (h = base ++ q)) as [->|Hne].
  - right. split; [done|]. exists d. rewrite lookup_insert_eq. cbn. by rewrite Hn.
  - left. by rewrite lookup_insert_ne.
Qed.
Lemma os_resolve_leaf fs fs' mode path p : same_but_leaf (look_in fs []) (look_in fs' []) ->
  os_resolve fs mode path = Ok p -> os_resolve fs' mode path = Ok p.
Proof. intros Hl. unfold os_resolve. generalize kernelMaxSymlinks as b. intros b. by apply walk_leaf. Qed.
Lemma root_resolve_leaf fs fs' base mode rel p : same_but_leaf (look_in fs base) (look_in fs' base) ->
  root_resolve fs base mode rel = Ok p -> root_resolve fs' base mode rel = Ok p.
Proof.
  intros Hl. unfold root_resolve. destruct (IsAbs rel); [done|]. intros (q & Hq & [= <-])%res_bind_ok.
  by rewrite (walk_leaf _ _ _ _ _ _ _ _ Hl Hq).
Qed.

(** What a completed truncating open and write leave: the node keeps its mode
    and owner, or is new. *)
Definition stored (umask uid perm : Z) (old : option node) (data : str) : node :=
  match old with
  | Some n => Node (CFile data) (n_perm n) (n_uid n)
  | None => Node (CFile data) (apply_umask umask perm) uid
  end.
Definition not_other (o : option content) : Prop := o <> Some COther.

Lemma CreateTrunc_inv root rel perm w h w' : Root_CreateTrunc root rel perm w = (Ok h, w') ->
  root_resolve (w_fs w) root LFollow rel = Ok h /\
  (not_other (n_kind <$> w_fs w !! h) ->
   leaf (n_kind <$> w_fs w !! h) /\
   w_fs w' = <[h := stored (w_umask w) (w_euid w) perm (w_fs w !! h) []]> (w_fs w)).
Proof.
  unfold Root_CreateTrunc, with_umask, syscall, bind.
  assert (Hn : w_fs (next_fault w).2 = w_fs w) by apply next_fault_fs.
  destruct (next_fault w) as [[[e n]|] w1]; [done|]. cbn [snd] in Hn. rewrite Hn.
  destruct (root_resolve (w_fs w) root LFollow rel) as [p|e]; cbn [res_bind]; [|done].
  destruct (w_fs w !! p) as [n|] eqn:Ep.
  - destruct (n_kind n) as [d| |tg|] eqn:Hk; try done; intros [= <- <-]; (split; [done|]); rewrite Ep; cbn; rewrite Hk;
      intros Hno; [by split|by destruct Hno].
  - intros [= <- <-]. split; [done|]. by rewrite Ep.
Qed.
Lemma File_Write_inv h data w u w' : File_Write h data w = (Ok u, w') ->
  w_fs w' = alter (fun x => append_data x data) h (w_fs w).
Proof.
  unfold File_Write, bind. destruct (next_fault_fs w) as [Hn _].
  destruct (next_fault w) as [[[e n]|] w1]; [done|]. cbn in Hn. intros [= _ <-]. cbn. by rewrite Hn.
Qed.
Lemma stored_append umask uid perm old data :
  append_data (stored umask uid perm old []) data = stored umask uid perm old data.
Proof. by destruct old. Qed.

(** The place a target names for writing, links followed inside the root. *)
Definition names_place (fs : fsys) (t : fileTarget) (h : fpath) : Prop :=
  exists base, os_resolve fs LDir (ft_rootPath t) = Ok base /\ root_resolve fs base LFollow (ft_rel t) = Ok h.

Lemma bind_query_fs {A B : Type} (f : fsys -> res A) (k : res A -> M B) w r w' :
  (do x := query f in k x) w = (r, w') ->
  exists x w1, k x w1 = (r, w') /\ w_fs w1 = w_fs w /\ w_umask w1 = w_umask w /\ w_euid w1 = w_euid w.
Proof.
  unfold bind. assert (H : w_fs (query f w).2 = w_fs w /\ w_umask (query f w).2 = w_umask w /\ w_euid (query f w).2 = w_euid w).
  { unfold query, syscall, bind, next_fault.
    destruct (w_faults w) as [|[[]|] fs]; cbn; try done; destruct (f (w_fs w)); done. }
  destruct (query f w) as [x w1]. intros Hk. by exists x, w1.
Qed.
Lemma target_open_same {A : Type} t (k : fpath -> M (fres A)) w r w' :
  ftry (target_open t) k w = (inl r, w') ->
  exists base w1, os_resolve (w_fs w) LDir (ft_rootPath t) = Ok base /\ k base w1 = (inl r, w') /\
    w_fs w1 = w_fs w /\ w_umask w1 = w_umask w /\ w_euid w1 = w_euid w.
Proof.
  intros H. apply ftry_inv in H as (base & w1 & Ho & Hk). exists base, w1.
  pose proof (target_open_inv _ _ _ _ Ho) as [Hb _]. unfold target_open, OpenRoot in Ho.
  apply bind_query_fs in Ho as (x & w2 & Hx & Hs). split_and!; try done; destruct x as [b|e];
    try (by destruct (fail_inv _ _ _ _ _ _ Hx)); apply done_inv in Hx as [_ <-]; by destruct_and! Hs.
Qed.

Lemma policy_write_inv p t data w r w' : policy_write p t data w = (inl r, w') ->
  r = WriteResult (ft_path t) (Z.of_nat (List.length data)) /\
  fp_allowWrite p = true /\ ft_privileged t = false /\ ft_rel t <> dot /\
  Z.of_nat (List.length data) <= fp_maxWrite p /\
  exists h, names_place (w_fs w) t h /\
    (not_other (n_kind <$> w_fs w !! h) ->
     leaf (n_kind <$> w_fs w !! h) /\
     w_fs w' = <[h := stored (w_umask w) (w_euid w) 420 (w_fs w !! h) data]> (w_fs w)).
Proof.
  unfold policy_write, read_only, not_routed. intros H.
  destruct (fp_allowWrite p); cbn [negb] in H; [|by destruct (fail_inv _ _ _ _ _ _ H)].
  destruct (ft_privileged t); [by destruct (fail_inv _ _ _ _ _ _ H)|].
  case_bool_decide as Hrel; [by destruct (fail_inv _ _ _ _ _ _ H)|].
  destruct (fp_maxWrite p <? _) eqn:Hlen; [by destruct (fail_inv _ _ _ _ _ _ H)|]. bools.
  apply target_open_same in H as (base & w1 & Hb & H & Hfs & Hum & Hue).
  apply bind_query_fs in H as (st & w2 & H & Hfs2 & Hum2 & Hue2).
  destruct (match st with Ok info => is_dir info | Err _ => false end); [by destruct (fail_inv _ _ _ _ _ _ H)|].
  apply ftry_inv in H as (h & w3 & Hc & H). apply status_inv, CreateTrunc_inv in Hc as [Hr Hc].
  apply ftry_inv in H as (u & w4 & Hw & [<- ->]%done_inv). apply status_inv, File_Write_inv in Hw.
  rewrite Hfs2, Hfs in *. rewrite Hum2, Hum, Hue2, Hue in Hc. split_and!; try done.
  exists h. split; [by exists base|]. intros Hno. destruct (Hc Hno) as [Hleaf Hc']. split; [done|].
  by rewrite Hw, Hc', alter_insert_eq, stored_append.
Qed.

(** What a write stores, a read returns. If a write through the file API
    succeeds, the data is within [maxWriteBytes], the target is not a configured
    root and not in a privileged one, and the one thing that changed is the file
    the target names: a regular file with exactly the data, keeping the mode and
    owner it had, or new, owned by the daemon, with mode 0644 less the umask. A read
    of the same target then answers the data, in base64, whenever it fits
    [maxReadBytes] and no call fails. *)
Theorem write_then_read p t data w r w' :
  (forall h, names_place (w_fs w) t h -> not_other (n_kind <$> w_fs w !! h)) ->
  policy_write p t data w = (inl r, w') ->
  Z.of_nat (List.length data) <= fp_maxWrite p /\ ft_rel t <> dot /\ ft_privileged t = false /\
  (exists h, names_place (w_fs w) t h /\
     w_fs w' = <[h := stored (w_umask w) (w_euid w) 420 (w_fs w !! h) data]> (w_fs w)) /\
  (0 < fp_maxRead p -> Z.of_nat (List.length data) <= fp_maxRead p -> w_faults w' = [] ->
   exists content, policy_read p t 0 0 w' = (inl (ReadResult (ft_path t) 0 (Z.of_nat (List.length data)) content), w') /\
     DecodeString content = Some data).
Proof.
  intros Hno (_ & _ & Hp & Hrel & Hlen & h & Hplace & Hfs)%policy_write_inv.
  specialize (Hfs (Hno h Hplace)) as [Hleaf Hfs]. split_and!; try done; [by exists h|].
  intros Hmax Hfit Hw'. set (n := stored _ _ _ _ _) in Hfs.
  assert (Hn : n_kind n = CFile data) by (unfold n, stored; by destruct (w_fs w !! h)).
  assert (Hfile : names_file (w_fs w') t h data).
  { destruct Hplace as (base & Hb & Hr). exists base, n. rewrite Hfs.
    split_and!; [by eapply os_resolve_leaf; [eapply insert_leaf|]|by eapply root_resolve_leaf; [eapply insert_leaf|]| |done].
    by rewrite lookup_insert_eq. }
  destruct (policy_read_run p t 0 0 w' h data Hw' Hfile) as [r' Hr'].
  { unfold window_ok, window_len. cbn. lia. }
  pose proof (policy_read_inv p t 0 0 w' r' w' Hmax Hr') as (_ & h' & d & content & Hfile' & _ & -> & Hc).
  assert (d = data) as ->.
  { destruct Hfile as (b1 & n1 & Hb1 & Hr1 & Hn1 & Hk1), Hfile' as (b2 & n2 & Hb2 & Hr2 & Hn2 & Hk2).
    rewrite Hb1 in Hb2. injection Hb2 as <-. rewrite Hr1 in Hr2. injection Hr2 as <-. congruence. }
  exists content. split; [done|]. rewrite Hc. unfold window_len. cbn [Z.eqb Z.to_nat drop].
  by rewrite Z.sub_0_r, Nat2Z.id, firstn_all.
Qed.

(** ** Listing *)

Lemma take_batch {A} (n m : nat) (s : list A) : (n <= m)%nat ->
  take n s ++ take (m - List.length (take n s)) (drop n s) = take m s.
Proof.
  intros Hnm. rewrite length_take. destruct (Nat.le_gt_cases n (List.length s)) as [Hle|Hgt].
  - rewrite Nat.min_l by done. replace m with (n + (m - n))%nat at 2 by lia. by rewrite take_take_drop.
  - rewrite (drop_ge s n) by lia. rewrite take_nil, app_nil_r. by rewrite !take_ge by lia.
Qed.
(** The loop reads one entry more than the limit, when there are that many. *)
Lemma readDir_loop_run fuel limit stream entries w : w_faults w = [] ->
  (List.length entries <= limit + 1)%nat -> (limit + 1 - List.length entries < fuel)%nat ->
  readDir_loop fuel limit stream entries w = (Ok (entries ++ take (limit + 1 - List.length entries) stream), w).
Proof.
  intros Hw. revert stream entries. induction fuel as [|fuel IH]; intros stream entries Hle Hfuel; [lia|].
  cbn [readDir_loop]. destruct (Nat.leb_spec (List.length entries) limit) as [Hl|Hl].
  - unfold ReadDir_batch. erewrite try_query_run; [|done|reflexivity]. cbv beta iota.
    set (n := Nat.min 256 (limit + 1 - List.length entries)). assert (Hn : (1 <= n)%nat) by lia.
    case_bool_decide as Hb.
    + assert (stream = []) as ->.
      { destruct stream as [|x stream]; [done|]. destruct n; [lia|done]. }
      unfold ret. by rewrite Hb, take_nil.
    + assert (Hpos : (1 <= List.length (take n stream) <= n)%nat).
      { rewrite length_take. destruct (take n stream) eqn:E; [done|]. apply (f_equal (@List.length _)) in E.
        rewrite length_take in E. cbn in E. lia. }
      rewrite IH; [|rewrite length_app; lia..]. do 2 f_equal.
      rewrite <-(assoc_L (++)). f_equal. rewrite length_app, Nat.sub_add_distr.
      apply take_batch. lia.
  - unfold ret. replace (limit + 1 - List.length entries)%nat with 0%nat by lia. by rewrite take_0, app_nil_r.
Qed.
Lemma readDirLimited_run dir limit w : w_faults w = [] ->
  readDirLimited dir limit w =
    let names := w_order w (children (w_fs w) dir) in
    (Ok (take limit names, bool_decide (limit < List.length names)%nat), w).
Proof.
  intros Hw. unfold readDirLimited, bind at 1, dir_stream. cbv zeta.
  set (names := w_order w (children (w_fs w) dir)). unfold tryM, bind.
  rewrite readDir_loop_run by (done || cbn; lia). cbn [app List.length]. rewrite Nat.sub_0_r, length_take.
  destruct (Nat.ltb_spec limit (Nat.min (limit + 1) (List.length names))) as [Hl|Hl].
  - rewrite bool_decide_eq_true_2 by lia. rewrite take_take. by rewrite Nat.min_l by lia.
  - rewrite bool_decide_eq_false_2 by lia. unfold ret. by rewrite !take_ge by lia.
Qed.

Lemma elem_of_children fs dir x : x ∈ children fs dir <-> exists n, fs !! (dir ++ [x]) = Some n.
Proof.
  unfold children. rewrite list_elem_of_omap. split.
  - intros ([k n] & Hin & Hx). cbn in Hx. apply elem_of_map_to_list in Hin.
    destruct (strip_prefix dir k) as [[|y [|? ?]]|] eqn:E; try done. injection Hx as ->.
    apply strip_prefix_spec in E as ->. by exists n.
  - intros [n Hn]. exists (dir ++ [x], n). split; [by apply elem_of_map_to_list|]. cbn. by rewrite strip_prefix_app.
Qed.
Lemma children_NoDup fs dir : NoDup (children fs dir).
Proof.
  unfold children. pose proof (NoDup_fst_map_to_list fs) as Hnd. revert Hnd. generalize (map_to_list fs) as l.
  intros l. induction l as [|[k n] l IH]; [constructor|]. rewrite fmap_cons. intros [Hni Hnd]%NoDup_cons.
  cbn. destruct (strip_prefix dir k) as [[|x [|? ?]]|] eqn:E; try by apply IH.
  apply NoDup_cons. split; [|by apply IH]. apply strip_prefix_spec in E as ->.
  intros ([k' n'] & Hin & Hx)%list_elem_of_omap. cbn in Hx.
  destruct (strip_prefix dir k') as [[|y [|? ?]]|] eqn:E; try done. injection Hx as ->.
  apply strip_prefix_spec in E as ->. apply Hni. by apply (list_elem_of_fmap_2 fst) in Hin.
Qed.

Section listing.
Context `{FileEnv}.

(** What a listing says of one name of the directory. *)
Definition describes (fs : fsys) (dir : fpath) (t : fileTarget) (e : fileEntry) : Prop :=
  exists m, fs !! (dir ++ [en_Name e]) = Some m /\ en_Path e = Join [ft_path t; en_Name e] /\
    en_Type e = fileType m /\ en_Size e = file_size m /\ en_Mode e = Perm m /\ en_ModifiedAt e = ModTime m.

Lemma with_link_target_run root rel e w : w_faults w = [] ->
  exists link kind, with_link_target root rel e w =
    (mkFileEntry (en_Name e) (en_Path e) (en_Type e) (en_Size e) (en_Mode e) (en_ModifiedAt e) link kind, w).
Proof using.
  intros Hw. unfold with_link_target. case_bool_decide; [|unfold ret; destruct e; by do 2 eexists].
  unfold fillLinkTarget, Root_Readlink, Root_Stat, bind. rewrite query_run by done.
  destruct (let? p := _ in _) as [target|err]; [|unfold ret; destruct e; by do 2 eexists].
  rewrite query_run by done. by do 2 eexists.
Qed.
Lemma list_entries_run root dir t names w : w_faults w = [] ->
  (forall x, x ∈ names -> is_Some (w_fs w !! (dir ++ [x]))) ->
  exists items, list_entries root dir t names w = (inl items, w) /\ en_Name <$> items = names /\
    Forall (describes (w_fs w) dir t) items.
Proof using.
  intros Hw. induction names as [|x names IH]; intros Hx; [by exists []|].
  destruct (Hx x ltac:(constructor)) as [m Hm].
  destruct IH as (items & Hrun & Hnames & Hdesc); [intros y Hy; apply Hx; by constructor|].
  cbn [list_entries]. unfold DirEntry_Info. unfold bind at 1. rewrite query_run by done.
  rewrite (proj2 (must_exist_ok _ _ _) Hm). unfold bind.
  destruct (with_link_target_run root (Join [ft_rel t; x]) (make_entry x (Join [ft_path t; x]) m) w Hw)
    as (link & kind & ->).
  unfold ftry, bind. rewrite Hrun. eexists. split; [reflexivity|]. split; [by rewrite fmap_cons, Hnames|].
  constructor; [|done]. exists m. split_and!; done.
Qed.

#[local] Existing Instance entry_le_dec.
#[local] Instance entry_le_trans : Transitive entry_le.
Proof. intros e f g. unfold entry_le. apply str_le_trans. Qed.
#[local] Instance entry_le_total : Total entry_le.
Proof. intros e f. apply str_le_total. Qed.

(** A directory listing is complete, truthful and sorted. If the target is a
    directory inside its root and no call fails, the listing succeeds and changes
    nothing; its entries have distinct names, sorted; each is an entry of the
    directory with the path, kind, size, permissions and modification time it
    has; there are at most [maxListEntries]; and the listing is marked truncated
    exactly when the directory holds more, while otherwise every name is there. *)
Theorem list_exact p t w base dir n :
  w_faults w = [] -> (forall l, w_order w l ≡ₚ l) ->
  os_resolve (w_fs w) LDir (ft_rootPath t) = Ok base ->
  root_resolve (w_fs w) base LFollow (ft_rel t) = Ok dir -> w_fs w !! dir = Some n -> is_dir n = true ->
  exists entries truncated,
    policy_list p t w = (inl (ListResult (ft_path t) entries truncated), w) /\
    StronglySorted entry_le entries /\ NoDup (en_Name <$> entries) /\
    Forall (describes (w_fs w) dir t) entries /\
    List.length entries = Nat.min (Z.to_nat (fp_maxList p)) (List.length (children (w_fs w) dir)) /\
    truncated = bool_decide (Z.to_nat (fp_maxList p) < List.length (children (w_fs w) dir))%nat /\
    (truncated = false -> forall x, x ∈ en_Name <$> entries <-> is_Some (w_fs w !! (dir ++ [x]))).
Proof using.
  intros Hw Hord Hb Hr Hn Hd. unfold policy_list. rewrite (target_open_run _ _ _ _ Hw Hb).
  unfold Root_Stat. erewrite ftry_query_run; [|done|rewrite Hr; cbn [res_bind]; by apply must_exist_ok].
  rewrite Hd. cbn [negb]. unfold Root_Open.
  erewrite ftry_query_run; [|done|rewrite Hr; cbn [res_bind]; by rewrite (proj2 (must_exist_ok _ _ _) Hn)].
  unfold ftry at 1, status, bind. rewrite readDirLimited_run by done. cbv zeta beta iota.
  set (limit := Z.to_nat (fp_maxList p)). set (names := w_order w (children (w_fs w) dir)).
  assert (Hperm : names ≡ₚ children (w_fs w) dir) by apply Hord.
  destruct (list_entries_run base dir t (take limit names) w Hw) as (items & Hrun & Hnames & Hdesc).
  { intros x Hx%elem_of_take. destruct Hx as (i & Hx & _). apply list_elem_of_lookup_2 in Hx.
    rewrite Hperm in Hx. by apply elem_of_children. }
  unfold ftry, bind. unfold ret at 1. cbv beta iota. rewrite Hrun. eexists _, _. split; [reflexivity|].
  pose proof (merge_sort_Permutation entry_le items) as Hsort.
  assert (Hn' : en_Name <$> merge_sort entry_le items ≡ₚ take limit names) by (by rewrite Hsort, Hnames).
  split_and!.
  - apply (StronglySorted_merge_sort _).
  - apply (NoDup_Permutation_proper _ _ Hn'), (sublist_NoDup _ names); [|apply sublist_take].
    apply (NoDup_Permutation_proper _ _ Hperm), children_NoDup.
  - eapply Permutation_Forall; [by symmetry; apply Hsort|done].
  - rewrite (Permutation_length Hsort), <-(length_fmap en_Name), Hnames, length_take.
    by rewrite (Permutation_length Hperm).
  - by rewrite (Permutation_length Hperm).
  - intros Hfit%bool_decide_eq_false x.
    etrans; [|apply elem_of_children]. rewrite (elem_of_Permutation_proper x _ _ Hn').
    rewrite <-(elem_of_Permutation_proper x _ _ Hperm). by rewrite take_ge by lia.
Qed.
End listing.

(** ** Errors *)

(** A weaker target is found wherever a stronger one is. *)
Lemma errors_Is_mono (f g : errno -> bool) : (forall n, f n = true -> g n = true) ->
  forall e, errors_Is f e = true -> errors_Is g e = true.
Proof.
  intros Hfg. fix IH 1. intros [n| |s l|s l|s l]; try done; cbn; [apply Hfg|..].
  all: induction l as [|x l IHl]; [done|]; destruct x as [t|z|e]; try exact IHl.
  all: rewrite !orb_true_iff; intros [He|He]; [left; exact (IH e He)|right; exact (IHl He)].
Qed.

(** The status of a file system error. The refusal of [os.Root] is a 403 when
    it comes alone, but a 500 inside the [LinkError] that a rename or a symlink
    creation returns; a directory that is not empty counts as "already exists",
    because [ENOTEMPTY] is an [fs.ErrExist], so the answer "directory is not
    empty" never occurs. *)
Theorem fileStatus_answers :
  (forall e, fe_format (fileStatus e) <> "directory is not empty"%string) /\
  fileStatus (Errno ENOTEMPTY) = fileError StatusConflict "already exists" [] /\
  fileStatus PathEscapes = fileError StatusForbidden "path escapes the allowed roots" [] /\
  forall op old new, fe_status (fileStatus (LinkError op old new PathEscapes)) = StatusInternalServerError.
Proof.
  split_and!; [|done..]. intros e. unfold fileStatus.
  destruct (errors_Is ErrNotExist e); [done|]. destruct (errors_Is ErrPermission e); [done|].
  destruct (errors_Is ErrExist e) eqn:Hex; [done|].
  assert (Hno : forall n, ErrExist n = true -> errors_Is (fun m => bool_decide (m = n)) e = false).
  { intros n Hn. apply not_true_iff_false. intros H. apply not_true_iff_false in Hex. apply Hex.
    eapply errors_Is_mono; [|exact H]. by intros m ->%bool_decide_eq_true_1. }
  rewrite !Hno by done. cbn [orb]. by repeat case_match.
Qed.

(** Moving a file out of its root is refused, but not as a refusal: when the
    destination escapes the root through a symbolic link, nothing moves and the
    answer is a 500, not the 403 that [fileStatus] means for it. *)
Theorem move_escape_is_500 p from to w base q n :
  w_faults w = [] -> fp_allowWrite p = true -> ft_rootPath from = ft_rootPath to ->
  ft_rel from <> dot -> ft_rel to <> dot ->
  os_resolve (w_fs w) LDir (ft_rootPath from) = Ok base ->
  root_resolve (w_fs w) base LNoFollow (ft_rel from) = Ok q -> w_fs w !! q = Some n ->
  root_resolve (w_fs w) base LNoFollow (ft_rel to) = Err PathEscapes ->
  exists e, policy_move p from to w = (inr e, w) /\ fe_status e = StatusInternalServerError.
Proof.
  intros Hw Hp Hroot Hf Ht Hb Hq Hn Hesc. unfold policy_move. rewrite Hp, !bool_decide_eq_true_2 by done.
  cbn [negb]. rewrite !bool_decide_eq_false_2 by done. cbn [orb].
  rewrite (target_open_run _ _ _ _ Hw Hb). unfold Root_Lstat.
  erewrite ftry_query_run; [|done|rewrite Hq; by apply must_exist_ok].
  unfold Root_Rename, syscall, ftry, status, wrap_link, bind, next_fault. rewrite Hw, Hq, Hesc.
  eexists. split; [reflexivity|]. done.
Qed.

(** ** Copying *)

Lemma CreateTrunc_run root rel perm w h : w_faults w = [] ->
  root_resolve (w_fs w) root LFollow rel = Ok h -> leaf (n_kind <$> w_fs w !! h) ->
  Root_CreateTrunc root rel perm w =
    (Ok h, set_fs (<[h := stored (w_umask w) (w_euid w) perm (w_fs w !! h) []]> (w_fs w)) w).
Proof.
  intros Hw Hr Hl. unfold Root_CreateTrunc, with_umask, syscall, bind, next_fault. rewrite Hw, Hr. cbn [res_bind].
  destruct (w_fs w !! h) as [n|]; [|done]. cbn in Hl. by destruct (n_kind n).
Qed.
Lemma File_Write_run h data w : w_faults w = [] ->
  File_Write h data w = (Ok tt, set_fs (alter (fun x => append_data x data) h (w_fs w)) w).
Proof. intros Hw. unfold File_Write, bind, next_fault. by rewrite Hw. Qed.

(** Copying one regular file; through a link back to the source, the source is
    truncated before it is read. *)
Lemma copyFileContents_run root fromRel toRel perm w s h n d : w_faults w = [] ->
  root_resolve (w_fs w) root LFollow fromRel = Ok s -> w_fs w !! s = Some n -> n_kind n = CFile d ->
  root_resolve (w_fs w) root LFollow toRel = Ok h -> leaf (n_kind <$> w_fs w !! h) ->
  copyFileContents root fromRel toRel perm w =
    (Ok tt, set_fs (<[h := stored (w_umask w) (w_euid w) perm (w_fs w !! h)
                             (if decide (s = h) then [] else d)]> (w_fs w)) w).
Proof.
  intros Hw Hs Hn Hk Hh Hl. unfold copyFileContents, Root_Open.
  erewrite try_query_run; [|done|rewrite Hs; cbn [res_bind]; by rewrite (proj2 (must_exist_ok _ _ _) Hn)].
  unfold tryM at 1, bind. rewrite (CreateTrunc_run _ _ _ _ _ Hw Hh Hl).
  set (old := w_fs w !! h). set (n0 := stored _ _ _ old []). set (w1 := set_fs _ w).
  assert (Hw1 : w_faults w1 = []) by done.
  assert (Hread : w_fs w1 !! s = Some (if decide (s = h) then n0 else n)).
  { unfold w1. cbn [w_fs set_fs]. destruct (decide (s = h)) as [->|]; [by rewrite lookup_insert_eq|].
    by rewrite lookup_insert_ne by done. }
  assert (Hk0 : n_kind n0 = CFile []) by (unfold n0, stored; by destruct old).
  unfold File_ReadAll, tryM at 1, bind. rewrite query_run by done.
  rewrite (proj2 (must_exist_ok _ _ _) Hread). cbn [res_bind].
  assert (Hdata : n_kind (if decide (s = h) then n0 else n) = CFile (if decide (s = h) then [] else d))
    by (by destruct (decide (s = h))).
  rewrite Hdata. set (data := if decide (s = h) then [] else d) in *.
  assert (Hend : forall w2, w_faults w2 = [] -> File_Sync h w2 = (Ok tt, w2)) by (intros; by apply query_run).
  case_bool_decide as Hnil.
  - unfold tryM, bind, ret. rewrite Hend by done. f_equal. unfold w1, n0. by rewrite Hnil.
  - unfold tryM, bind. rewrite File_Write_run by done. rewrite Hend by done. f_equal.
    unfold w1, set_fs. cbn [w_fs w_umask w_euid w_order w_faults]. rewrite alter_insert_eq. unfold n0.
    by rewrite stored_append.
Qed.

(** Copying a regular file, exactly. When the copy is allowed and no call
    fails, it succeeds and one file changes: the one the destination names, links
    followed inside the root, which keeps its mode and owner or is new with the
    source's permissions less the umask, and which now holds the bytes of the
    source - unless the destination leads back to the source through a symbolic
    link: then that one file is left empty and its bytes are gone. *)
Theorem copy_file_exact depth p from to overwrite w base s h h0 n d :
  w_faults w = [] -> fp_allowWrite p = true -> ft_rootPath from = ft_rootPath to ->
  ft_rel from <> dot -> ft_rel to <> dot -> ft_rel from <> ft_rel to ->
  HasPrefix (ft_rel to) (ft_rel from ++ [slash]) = false ->
  os_resolve (w_fs w) LDir (ft_rootPath from) = Ok base ->
  root_resolve (w_fs w) base LNoFollow (ft_rel from) = Ok s ->
  root_resolve (w_fs w) base LFollow (ft_rel from) = Ok s ->
  w_fs w !! s = Some n -> n_kind n = CFile d ->
  root_resolve (w_fs w) base LNoFollow (ft_rel to) = Ok h0 -> (overwrite = true \/ w_fs w !! h0 = None) ->
  root_resolve (w_fs w) base LFollow (ft_rel to) = Ok h -> leaf (n_kind <$> w_fs w !! h) ->
  exists w', policy_copy depth p from to overwrite w = (inl (MoveResult (ft_path from) (ft_path to)), w') /\
    w_fs w' = <[h := stored (w_umask w) (w_euid w) (Perm n) (w_fs w !! h)
                       (if decide (s = h) then [] else d)]> (w_fs w).
Proof.
  intros Hw Hp Hroot Hf Ht Hne Hpre Hb Hs Hs' Hn Hk Hh0 Hov Hh Hl. unfold policy_copy.
  rewrite Hp, Hpre, !bool_decide_eq_true_2 by done. cbn [negb].
  rewrite !bool_decide_eq_false_2 by done. cbn [orb].
  rewrite (target_open_run _ _ _ _ Hw Hb). unfold Root_Lstat.
  erewrite ftry_query_run; [|done|rewrite Hs; by apply must_exist_ok].
  unfold bind at 1. rewrite query_run by done. rewrite Hh0. cbn [res_bind].
  assert (Hst : forall k : unit -> M (fres fileResult), ftry (match must_exist (w_fs w) h0 with
      | Ok _ => if negb overwrite then fail StatusConflict "destination already exists" [] else done tt
      | Err e => if negb (errors_Is ErrNotExist e) then ret (inr (fileStatus e)) else done tt
      end) k w = k tt w).
  { intros k. unfold must_exist. destruct Hov as [->|Hnone]; [by destruct (w_fs w !! h0)|by rewrite Hnone]. }
  rewrite Hst. assert (is_dir n = false) as -> by (unfold is_dir; by rewrite Hk).
  unfold ftry, status, bind. rewrite (copyFileContents_run _ _ _ _ _ _ _ _ _ Hw Hs' Hn Hk Hh Hl).
  eexists. split; reflexivity.
Qed.

(** ** The theorems at work on a small site *)

Definition site_fs : fsys :=
  list_to_map [([], Node CDir 493 0); ([$"etc"], Node CDir 493 0);
    ([$"etc"; $"maidkit"], Node CDir 493 0); ([$"etc"; $"maidkit"; $"priv.toml"], Node (CFile []) 384 0);
    ([$"srv"], Node CDir 493 0); ([$"srv"; $"web"], Node CDir 493 0);
    ([$"srv"; $"web"; $"old"], Node (CFile ($"x")) 420 0);
    ([$"srv"; $"www"], Node CDir 493 998);
    ([$"srv"; $"www"; $"a.txt"], Node (CFile ($"hello")) 416 998);
    ([$"srv"; $"www"; $"again"], Node (CLink ($"a.txt")) 511 998);
    ([$"srv"; $"www"; $"out"], Node (CLink ($"../../etc")) 511 998)].
Definition site_world : world := World site_fs 18 998 id [].
Definition site_config : FilesConfig :=
  mkFilesConfig true [] [mkFilesRootConfig ($"/srv/www/") false []; mkFilesRootConfig ($"/srv/web") true ($"web")]
    true 0 0 0.
Definition site_policy : filePolicy :=
  mkFilePolicy [] true FilesDefaultMaxReadBytes FilesDefaultMaxWriteBytes FilesDefaultMaxListEntries
    [mkFileRoot ($"/srv/www") false []; mkFileRoot ($"/srv/web") true ($"web")].
Definition site_app : FileApp :=
  mkFileApp site_config (mkPrivConfig [] false false false) (Some (mkPrivRunner [$"sudo"; $"-n"])) true.
(** A target of the ordinary root. *)
Definition www (name : str) : fileTarget := mkFileTarget ($"/srv/www") name ($"/srv/www/" ++ name) false [].
Definition blank_request : fileActionRequest := mkFileActionRequest [] [] [] false false false None 0 0 [].
Definition request (path content : str) : fileActionRequest :=
  mkFileActionRequest path [] [] false false false None 0 0 content.
Definition site_env : FileEnv :=
  {| ModTime := fun _ => 0; exec_command := fun _ _ => ret (mkExecResult [] [] (Some (Foreign "absent" [])) false) |}.

Example site_policy_ex : newFilePolicy site_config = Some site_policy.
Proof. reflexivity. Qed.
Lemma site_policy_ok : policy_ok site_policy.
Proof. apply (newFilePolicy_ok site_config); [by repeat constructor|reflexivity]. Defined.

Lemma resolve_exact_witness :
  resolve site_policy ($"/srv/www/sub/../a.txt") = inl (www ($"a.txt")) /\
  match resolve site_policy ($"/srv/www/sub/../a.txt") with
  | inl t => NUL ∉ ($"/srv/www/sub/../a.txt") /\ IsAbs ($"/srv/www/sub/../a.txt") = true /\
      exists r l k, r ∈ fp_roots site_policy /\ target_of r l k t /\
        Clean ($"/srv/www/sub/../a.txt") = abs_path (l ++ k) /\
        forall r' l', r' ∈ fp_roots site_policy -> Forall proper l' -> fr_path r' = abs_path l' ->
          l' `prefix_of` l ++ k -> l' `prefix_of` l
  | inr e => False
  end.
Proof.
  split; [by vm_compute|].
  pose proof (resolve_exact site_policy ($"/srv/www/sub/../a.txt") site_policy_ok) as H.
  destruct (resolve site_policy ($"/srv/www/sub/../a.txt")) as [t|e] eqn:E; [exact H|]. vm_compute in E. discriminate E.
Defined.

Lemma dispatch_confined_witness :
  let q := [$"srv"; $"www"; $"a.txt"] in let req := request ($"/srv/www/a.txt") ($"aGk=") in
  let out := dispatchFileAction (H := site_env) 9 site_app site_policy fileActionWrite req site_world in
  out.1.2 = false /\ fileActionWrite ∈ mutating /\ fp_allowWrite site_policy = true /\
  exists raw t r, raw ∈ named fileActionWrite req /\ resolve site_policy raw = inl t /\ most_specific site_policy raw r /\
    ft_privileged t = fr_privileged r /\
    (if fr_privileged r then False
     else exists base, os_resolve (w_fs site_world) LDir (fr_path r) = Ok base /\ base `prefix_of` q) /\
    forall raw' t', raw' ∈ named fileActionWrite req -> resolve site_policy raw' = inl t' ->
      ft_privileged t' = fr_privileged r.
Proof.
  cbv zeta. split; [by vm_compute|].
  apply (dispatch_confined (H := site_env) 9 site_app site_policy (fun _ => False) fileActionWrite
           (request ($"/srv/www/a.txt") ($"aGk=")) site_world).
  - intros argv payload. apply touches_ret.
  - by vm_compute.
Defined.

(** A privileged root nested in an ordinary one: a request that names a path in it is
    the helper's, but nothing looks at the roots below a named directory, so moving the
    ordinary parent carries the privileged root along without the helper. *)
Definition nested_policy : filePolicy :=
  mkFilePolicy [] true FilesDefaultMaxReadBytes FilesDefaultMaxWriteBytes FilesDefaultMaxListEntries
    [mkFileRoot ($"/srv") false []; mkFileRoot ($"/srv/d/web") true ($"web")].
Definition nested_world : world :=
  World (<[ [$"srv"; $"d"; $"web"] := Node CDir 493 0 ]> (<[ [$"srv"; $"d"] := Node CDir 493 998 ]> site_fs)) 18 998 id [].
Definition move_request (from to : str) : fileActionRequest :=
  mkFileActionRequest [] from to false false false None 0 0 [].
Example nested_root_moves :
  let move from := dispatchFileAction (H := site_env) 9 site_app nested_policy fileActionMove
                     (move_request ($from) ($"/srv/e")) nested_world in
  (move "/srv/d/web"%string).1 = (inr errPrivilegedMoveOrCopy, false) /\
  (move "/srv/d"%string).1.2 = false /\
  w_fs (move "/srv/d"%string).2 !! [$"srv"; $"d"; $"web"] = None /\
  w_fs (move "/srv/d"%string).2 !! [$"srv"; $"e"; $"web"] = Some (Node CDir 493 0).
Proof. by vm_compute. Qed.

Lemma a_txt_named : names_file (w_fs site_world) (www ($"again")) [$"srv"; $"www"; $"a.txt"] ($"hello").
Proof. exists [$"srv"; $"www"], (Node (CFile ($"hello")) 416 998). split_and!; by vm_compute. Defined.
Lemma read_exact_witness :
  (policy_read site_policy (www ($"again")) 1 3 site_world).1
    = inl (ReadResult ($"/srv/www/again") 1 5 (EncodeToString ($"ell"))) /\
  match policy_read site_policy (www ($"again")) 1 3 site_world with
  | (inl r, w') => w_fs w' = w_fs site_world /\ exists h d content,
      names_file (w_fs site_world) (www ($"again")) h d /\ window_ok site_policy (Z.of_nat (List.length d)) 1 3 /\
      r = ReadResult ($"/srv/www/again") 1 (Z.of_nat (List.length d)) content /\
      DecodeString content = Some (take (Z.to_nat (window_len (Z.of_nat (List.length d)) 1 3)) (drop (Z.to_nat 1) d))
  | (inr _, _) => w_faults site_world = [] -> forall h d, names_file (w_fs site_world) (www ($"again")) h d ->
      ~ window_ok site_policy (Z.of_nat (List.length d)) 1 3
  end.
Proof. split; [by vm_compute|]. apply (read_exact site_policy (www ($"again")) 1 3 site_world). by vm_compute. Defined.

Lemma a_txt_not_other h : names_place (w_fs site_world) (www ($"again")) h -> not_other (n_kind <$> w_fs site_world !! h).
Proof.
  intros (base & Hb & Hr). vm_compute in Hb. injection Hb as <-. vm_compute in Hr. injection Hr as <-. by vm_compute.
Defined.
Lemma write_then_read_witness :
  exists r w', policy_write site_policy (www ($"again")) ($"new") site_world = (inl r, w') /\
    exists content, policy_read site_policy (www ($"again")) 0 0 w' = (inl (ReadResult ($"/srv/www/again") 0 3 content), w') /\
      DecodeString content = Some ($"new").
Proof.
  assert (H1 : (policy_write site_policy (www ($"again")) ($"new") site_world).1 = inl (WriteResult ($"/srv/www/again") 3))
    by (vm_compute; reflexivity).
  assert (H2 : w_faults (policy_write site_policy (www ($"again")) ($"new") site_world).2 = []) by (vm_compute; reflexivity).
  destruct (policy_write site_policy (www ($"again")) ($"new") site_world) as [r0 w'] eqn:E. cbn [fst snd] in H1, H2. subst r0.
  eexists _, w'. split; [reflexivity|].
  destruct (write_then_read site_policy (www ($"again")) ($"new") site_world _ w' a_txt_not_other E)
    as (_ & _ & _ & _ & H).
  apply H; [by vm_compute|by vm_compute|exact H2].
Defined.

Lemma list_exact_witness :
  exists entries truncated,
    policy_list (H := site_env) site_policy (www dot) site_world
      = (inl (ListResult (ft_path (www dot)) entries truncated), site_world) /\
    StronglySorted entry_le entries /\ NoDup (en_Name <$> entries) /\
    Forall (describes (H := site_env) (w_fs site_world) [$"srv"; $"www"] (www dot)) entries /\
    List.length entries = Nat.min (Z.to_nat FilesDefaultMaxListEntries)
      (List.length (children (w_fs site_world) [$"srv"; $"www"])) /\
    truncated = bool_decide (Z.to_nat FilesDefaultMaxListEntries <
                               List.length (children (w_fs site_world) [$"srv"; $"www"]))%nat /\
    (truncated = false -> forall x, x ∈ en_Name <$> entries <-> is_Some (w_fs site_world !! ([$"srv"; $"www"] ++ [x]))).
Proof.
  assert (Hb : os_resolve (w_fs site_world) LDir ($"/srv/www") = Ok [$"srv"; $"www"]) by (vm_compute; reflexivity).
  assert (Hr : root_resolve (w_fs site_world) [$"srv"; $"www"] LFollow dot = Ok [$"srv"; $"www"])
    by (vm_compute; reflexivity).
  assert (Hn : w_fs site_world !! [$"srv"; $"www"] = Some (Node CDir 493 998)) by (vm_compute; reflexivity).
  destruct (list_exact (H := site_env) site_policy (www dot) site_world [$"srv"; $"www"] [$"srv"; $"www"] (Node CDir 493 998)
    eq_refl (fun l => reflexivity l) Hb Hr Hn eq_refl) as (entries & truncated & Hrest).
  exists entries, truncated. exact Hrest.
Defined.

Lemma move_escape_is_500_witness :
  exists e, policy_move site_policy (www ($"a.txt")) (www ($"out/x")) site_world = (inr e, site_world) /\
    fe_status e = StatusInternalServerError.
Proof.
  apply (move_escape_is_500 site_policy (www ($"a.txt")) (www ($"out/x")) site_world [$"srv"; $"www"]
    [$"srv"; $"www"; $"a.txt"] (Node (CFile ($"hello")) 416 998)); try by vm_compute.
Defined.

(** Copying a file over a link to itself empties it. *)
Lemma copy_file_exact_witness :
  exists w', policy_copy 9 site_policy (www ($"a.txt")) (www ($"again")) true site_world
      = (inl (MoveResult ($"/srv/www/a.txt") ($"/srv/www/again")), w') /\
    w_fs w' = <[ [$"srv"; $"www"; $"a.txt"] := Node (CFile []) 416 998 ]> (w_fs site_world).
Proof.
  apply (copy_file_exact 9 site_policy (www ($"a.txt")) (www ($"again")) true site_world [$"srv"; $"www"]
    [$"srv"; $"www"; $"a.txt"] [$"srv"; $"www"; $"a.txt"] [$"srv"; $"www"; $"again"]
    (Node (CFile ($"hello")) 416 998) ($"hello")); try by vm_compute.
  by left.
Defined.

(** Copying a link copies the file behind it, with the permissions of the link:
    the 0640 file comes out 0755. *)
Example copy_link_widens :
  let out := policy_copy 9 site_policy (www ($"again")) (www ($"b.txt")) false site_world in
  out.1 = inl (MoveResult ($"/srv/www/again") ($"/srv/www/b.txt")) /\
  w_fs site_world !! [$"srv"; $"www"; $"a.txt"] = Some (Node (CFile ($"hello")) 416 998) /\
  w_fs out.2 !! [$"srv"; $"www"; $"b.txt"] = Some (Node (CFile ($"hello")) 493 998).
Proof. by vm_compute. Qed.

(** A destination that lies inside the source only through a symbolic link passes
    the lexical check; the copy then finds its own output and descends without
    end. *)
Definition looped_world : world :=
  World (<[ [$"srv"; $"www"; $"d"] := Node CDir 493 998 ]>
    (<[ [$"srv"; $"www"; $"l"] := Node (CLink ($"d")) 511 998 ]> site_fs)) 18 998 id [].
Example copy_into_itself :
  let out := policy_copy 7 site_policy (www ($"d")) (www ($"l/x")) false looped_world in
  out.1 = inr (fileStatus too_deep) /\
  is_Some (w_fs out.2 !! ([$"srv"; $"www"; $"d"] ++ replicate 7 ($"x"))).
Proof. vm_compute. eauto. Qed.
