(* ===== verification/Handover.v ===== *)
(** * Handover: the daemon and the privileged helper together

    The daemon reaches root only by running [maidkit-priv]. Here the command it
    runs is the model of that very program ([PrivCli.Run]), started as root with
    the request body on standard input, so that a file action on a privileged root
    can be followed from the request to the file. What [sudo] does before it
    starts the helper and how the helper's report is rendered are parameters. *)

From S2P Require Import Prelude GoStr Regex GoPath GoOS GoOSFacts Base64 PrivPackages PrivFirewall PrivSet PrivSetFacts PrivCli PrivCliFacts Config Files FilesFacts.

(** ** What the daemon hands over is what the helper takes *)

Lemma elem_of_join (c : ascii) sep l : c ∈ join sep l -> c ∈ sep \/ exists x, x ∈ l /\ c ∈ x.
Proof.
  induction l as [|x l IH]; [by intros ?%not_elem_of_nil|].
  destruct l as [|y l]; [intros Hc; right; exists x; split; [by constructor|done]|].
  rewrite join_cons by done. intros [Hc|[Hc|Hc]%elem_of_app]%elem_of_app; [right; exists x|by left|].
  - split; [by constructor|done].
  - destruct (IH Hc) as [?|(z & Hz & ?)]; [by left|]. right. exists z. split; [by constructor|done].
Qed.
Lemma join_elem_of c sep x l : x ∈ l -> c ∈ x -> c ∈ join sep l.
Proof.
  intros Hx Hc. induction Hx as [x l|x y l Hx IH].
  - destruct l; [done|]. rewrite join_cons by done. by apply elem_of_app; left.
  - destruct l as [|z l]; [by apply not_elem_of_nil in Hx|]. rewrite join_cons by done.
    apply elem_of_app. right. apply elem_of_app. right. by apply IH.
Qed.
Lemma elem_of_component c x p : x ∈ components p -> c ∈ x -> c ∈ p.
Proof.
  intros [_ Hx]%list_elem_of_filter Hc. rewrite <-(join_split slash p). by eapply join_elem_of.
Qed.
Lemma elem_of_clean_stack rooted y l : forall st, y ∈ clean_stack rooted st l -> y ∈ st \/ y ∈ l \/ y = dotdot.
Proof.
  induction l as [|x l IH]; intros st; cbn [clean_stack]; [by left|].
  case_bool_decide; [intros Hy; destruct (IH _ Hy) as [?|[?|?]]; auto; right; left; by constructor|].
  case_bool_decide.
  - destruct st as [|t st].
    + intros Hy. destruct (IH _ Hy) as [Hin|[?|?]]; [|right; left; by constructor|auto].
      destruct rooted; [by apply not_elem_of_nil in Hin|]. apply list_elem_of_singleton in Hin. auto.
    + case_bool_decide; intros Hy; destruct (IH _ Hy) as [Hin|[?|?]]; auto; try (right; left; by constructor).
      * apply elem_of_cons in Hin as [->|?]; auto.
      * left. by constructor.
  - intros Hy. destruct (IH _ Hy) as [Hin|[?|?]]; auto; [|right; left; by constructor].
    apply elem_of_cons in Hin as [->|?]; [right; left; constructor|auto].
Qed.
(** Cleaning a path brings in no new name but "..". *)
Lemma Clean_names p l x : IsAbs p = true -> Clean p = abs_path l -> Forall proper l -> x ∈ l -> x ∈ components p.
Proof.
  intros Ha Hc Hl Hx. unfold Clean in Hc. rewrite Ha in Hc.
  rewrite bool_decide_eq_false_2 in Hc by by intros ->.
  apply abs_path_inj in Hc; [|apply Forall_proper_name, clean_comps_rooted|by auto with go].
  assert (Hne : x <> dotdot) by (rewrite Forall_forall in Hl; by destruct (Hl x Hx) as (_ & _ & ?)).
  rewrite <-Hc in Hx. unfold clean_comps in Hx. rewrite list_elem_of_In, <-in_rev, <-list_elem_of_In in Hx.
  apply elem_of_clean_stack in Hx as [Hx|[Hx|Hx]]; [by apply not_elem_of_nil in Hx|done|done].
Qed.

Lemma no_dash_octal : forallb (fun z => negb (HasPrefix (fmt_04o z) ($"-"))) (Z.of_nat <$> seq 0 512) = true.
Proof. by vm_compute. Qed.
Lemma fmt_04o_no_dash z : 0 <= z < 512 -> HasPrefix (fmt_04o z) ($"-") = false.
Proof.
  intros Hz. pose proof no_dash_octal as H. rewrite forallb_forall in H.
  apply negb_true_iff, H. rewrite <-(Z2Nat.id z) by lia. apply in_map, in_seq. lia.
Qed.

(** The helper takes what the daemon hands over. For every path the daemon
    resolves to something below a root, the relative path it passes is one the
    helper accepts as it stands: no escape, no normalisation left to do. The
    helper's command line accepts the whole request exactly when neither the
    profile name nor that path is blank or starts with a dash - so a file whose
    path below a privileged root starts with a dash, or is all white space, can
    never be written through the daemon. *)
Theorem handover_accepted policy raw t mode :
  policy_ok policy -> resolve policy raw = inl t -> ft_rel t <> dot -> 0 <= mode < 512 ->
  safeRel (ft_rel t) = Ok (ft_rel t) /\
  (ParseArgs [$"fs"; $"write"; ft_profile t; ft_rel t; fmt_04o mode] =
     Ok (fs_action ($"write") (ft_profile t) (ft_rel t) (fmt_04o mode) DefaultConfigPath) <->
   HasPrefix (ft_profile t) ($"-") = false /\ blank (ft_profile t) = false /\
   HasPrefix (ft_rel t) ($"-") = false /\ blank (ft_rel t) = false).
Proof.
  intros Hp Ht Hrel Hmode. split.
  - assert (Hraw : NUL ∉ raw /\ IsAbs raw = true).
    { unfold resolve in Ht. destruct (has_byte NUL raw) eqn:Hn; [done|]. destruct (IsAbs raw); [|done].
      split; [by apply has_byte_false|done]. }
    destruct Hraw as [Hn Ha]. destruct (resolve_ok _ _ _ Hp Ht) as (r & l & k & _ & (Hlk & _ & ->) & Hc & _).
    cbn [ft_rel] in *. assert (Hk : k <> []) by (intros ->; done). pose proof Hlk as [_ Hkp]%Forall_app.
    apply safeRel_spec. assert (Hj : rel_path k = join [slash] k) by (unfold rel_path; by rewrite bool_decide_eq_false_2).
    split_and!; [|apply IsAbs_rel_path; auto with go|exists k; split_and!; try done;
      rewrite <-Hj; apply (Clean_rel_path 0 k Hkp)].
    rewrite Hj. intros [Hs|(x & Hx & Hcx)]%elem_of_join; [by apply list_elem_of_singleton in Hs|].
    apply Hn. apply (elem_of_component NUL x raw); [|done].
    apply (Clean_names raw (l ++ k)); try done. apply elem_of_app. by right.
  - unfold ParseArgs. rewrite bool_decide_eq_false_2 by done. unfold parse_command.
    destruct (list_find _ _) as [[i arg]|] eqn:Hf.
    + split; [done|]. intros (H1 & _ & H2 & _). apply list_find_Some in Hf as (Hi & Harg & _).
      pose proof (fmt_04o_no_dash mode Hmode) as H3.
      do 5 (destruct i as [|i]; [injection Hi as <-; first [discriminate Harg|congruence]|]). done.
    + apply list_find_None in Hf. repeat rewrite Forall_cons in Hf. destruct Hf as (_ & _ & H1 & H2 & _).
      apply not_true_iff_false in H1, H2. rewrite H1, H2.
      rewrite !(bool_decide_eq_false_2 ($"fs" = _)) by done. rewrite bool_decide_eq_true_2 by done. unfold parse_fs.
      rewrite (bool_decide_eq_false_2 (_ = $"profiles")), (bool_decide_eq_true_2 (_ = $"write")) by done.
      cbn [orb res_bind fs_action a_Profile Rel].
      destruct (blank (ft_profile t)); [by split; [|intros (_ & ? & _)]|].
      destruct (blank (ft_rel t)); [by split; [|intros (_ & _ & _ & ?)]|]. by split.
Qed.

(** ** The helper as the command the daemon runs *)

Definition as_uid (uid : Z) (w : world) : world := World (w_fs w) (w_umask w) uid (w_order w) (w_faults w).

Section helper.
Context `{Unicode}.
Variable viper_decode : str -> res fileConfig.
Variable exec_Run : list str -> list str -> M run_result.
Variable Digest : str -> str.
Variable Version : str.
Variables (rnd : option str) (now : Z).
(** How events appear on the two output streams. *)
Variables (render_stdout render_stderr : list event -> str).
Variable mtime : node -> Z.
(** The words before the helper's own arguments: the sudo prefix and its path. *)
Variable words : list str.
Variable env : Env.

Definition helper_exec (argv : list str) (payload : option str) : M exec_result := fun w =>
  match strip_prefix words argv with
  | None => (mkExecResult [] [] (Some (Foreign "exec" [])) false, w)
  | Some args =>
      let '((evs, code), w') :=
        Run viper_decode exec_Run Digest Version (Ok (default [] payload)) rnd now args env (as_uid 0 w) in
      (mkExecResult (render_stdout evs) (render_stderr evs)
         (if code =? ExitOK then None else Some (Foreign "exit status" [FInt code])) false,
       as_uid (w_euid w) w')
  end.
#[local] Instance helper_env : FileEnv := { ModTime := mtime; exec_command := helper_exec }.

(** ** One write, as the helper sees it *)

Lemma fs_write_parsed profile rel mode action :
  ParseArgs [$"fs"; $"write"; profile; rel; mode] = Ok action ->
  action = fs_action ($"write") profile rel mode DefaultConfigPath.
Proof using.
  unfold ParseArgs. rewrite bool_decide_eq_false_2 by done. unfold parse_command.
  destruct (list_find _ _) as [[? ?]|]; [done|].
  rewrite !bool_decide_eq_false_2 by done. rewrite bool_decide_eq_true_2 by done. unfold parse_fs.
  rewrite (bool_decide_eq_false_2 (_ = $"profiles")), (bool_decide_eq_true_2 (_ = $"write")) by done.
  cbn [orb res_bind fs_action a_Profile Rel]. destruct (blank profile); [done|]. destruct (blank rel); [done|].
  by intros [= <-].
Qed.

(** What a write by the helper leaves: the file, or nothing but a stray
    temporary file. *)
Definition helper_wrote (fs : fsys) (w : world) (profile rel : str) (mode uid : Z) (data : str) (fs' : fsys) : Prop :=
  exists s pr, (LoadSet viper_decode DefaultConfigPath true w).1 = Ok s /\ byName s !! profile = Some pr /\
    mode ∈ allowedModeSet /\ mode ∈ pr_Modes pr /\ written fs pr rel (Node (CFile data) mode uid) fs'.
Definition helper_declined (fs : fsys) (fs' : fsys) : Prop :=
  fs' = fs \/ exists pr, not_written fs pr (tempName rnd now) fs'.

Lemma runFs_write_spec s pr profile rel mode data w : fs_wf (w_fs w) -> physical_dir (w_fs w) (pr_Path pr) ->
  Z.of_nat (List.length data) <= MaxContentBytes ->
  let '((evs, code), w') :=
    runFs Digest (Ok data) rnd now s pr (fs_action ($"write") profile rel mode DefaultConfigPath) env w in
  if code =? ExitOK then exists m, ParseMode mode = Ok m /\ m ∈ allowedModeSet /\ m ∈ pr_Modes pr /\
      written (w_fs w) pr rel (Node (CFile data) m (w_euid w)) (w_fs w')
  else helper_declined (w_fs w) (w_fs w').
Proof using.
  intros Hwf Hd Hlen. unfold runFs. cbn [Verb fs_action Mode Rel a_Profile].
  rewrite bool_decide_eq_true_2 by done. destruct (ParseMode mode) as [m|e]; [|by left]. unfold read_stdin. cbn [res_bind].
  rewrite take_ge by lia. rewrite (proj2 (Z.ltb_ge _ _)) by done.
  destruct (Set_Write_spec rnd now (w_euid w) _ _ rel m data Hwf Hd w eq_refl eq_refl) as [_ Hs].
  unfold bind. destruct (Set_Write rnd now pr rel m data w) as [[[]|e] w']; cbn [fst snd] in Hs.
  - destruct Hs as (? & ? & _ & ?). by exists m.
  - unfold fail_, stop, ret. replace (_ =? ExitOK) with false by (by destruct e as [[]| | | |]).
    right. by exists pr.
Qed.

Lemma helper_write_spec profile rel mode data w : fs_wf (w_fs w) ->
  Z.of_nat (List.length data) <= MaxContentBytes ->
  let '((evs, code), w') := Run viper_decode exec_Run Digest Version (Ok data) rnd now
                              [$"fs"; $"write"; profile; rel; mode] env w in
  if code =? ExitOK then exists m, ParseMode mode = Ok m /\
      helper_wrote (w_fs w) w profile rel m (w_euid w) data (w_fs w')
  else helper_declined (w_fs w) (w_fs w').
Proof using.
  intros Hwf Hlen. unfold Run. destruct (ParseArgs _) as [action|e] eqn:Hparse; [|by left].
  apply fs_write_parsed in Hparse as ->. cbn [Command Verb fs_action ConfigPath a_Profile].
  rewrite !(bool_decide_eq_false_2 (_ = _)) by done. destruct (EUID env =? 0); cbn [negb]; [|by left].
  destruct (LoadSet_spec viper_decode (w_euid w) (w_fs w) DefaultConfigPath true w eq_refl eq_refl)
    as (Hue & Hfs & Hok). unfold helper_wrote.
  unfold bind at 1. destruct (LoadSet _ _ _ w) as [[s|e] w1]; cbn [fst snd] in *; [|by left].
  unfold Set_Lookup. destruct (byName s !! profile) as [pr|] eqn:Ep; [|by left].
  destruct (Hok s eq_refl) as [[Hprof _ _ _] _]. destruct (Hprof _ _ Ep) as [_ Hdir _].
  rewrite <-Hfs in Hwf, Hdir |- *. rewrite <-Hue.
  pose proof (runFs_write_spec s pr profile rel mode data w1 Hwf Hdir Hlen) as Hrun.
  destruct (runFs _ _ _ _ _ _ _ _ w1) as [[evs code] w2]. destruct (code =? ExitOK); [|done].
  destruct Hrun as (m & ? & ? & ? & ?). exists m. split; [done|]. by exists s, pr.
Qed.

(** A mode the helper read from the daemon's rendering is the mode meant. *)
Lemma octal_exact : forallb (fun z =>
  match ParseMode (fmt_04o z) with Ok m => m =? z | Err _ => true end) (Z.of_nat <$> seq 0 512) = true.
Proof using. by vm_compute. Qed.
Lemma ParseMode_fmt z m : 0 <= z < 512 -> ParseMode (fmt_04o z) = Ok m -> m = z.
Proof using.
  intros Hz Hm. pose proof octal_exact as H1. rewrite forallb_forall in H1. specialize (H1 z).
  rewrite Hm in H1. apply Z.eqb_eq, H1. rewrite <-(Z2Nat.id z) by lia. apply in_map, in_seq. lia.
Qed.
Lemma fmt_04o_ne z : fmt_04o z <> [].
Proof using.
  unfold fmt_04o. destruct (octal_digits 22 z) as [|c d] eqn:E; [done|]. intros Hn%app_nil. by destruct Hn.
Qed.
Lemma privWriteModeFor_range path w : 0 <= (privWriteModeFor path w).1 < 512.
Proof using.
  unfold privWriteModeFor, bind, ret. destruct (os_Stat path w) as [[n|e] w1]; cbn; [|lia].
  destruct (is_regular n); [|lia]. unfold Perm. change 511 with (Z.ones 9). rewrite Z.land_ones by lia.
  apply Z.mod_pos_bound. lia.
Qed.
Lemma privWriteModeFor_fs path w : w_fs (privWriteModeFor path w).2 = w_fs w.
Proof using. apply looks_fs, looks_privWriteModeFor. Qed.

Lemma helper_exec_write profile rel mode data w : fs_wf (w_fs w) ->
  Z.of_nat (List.length data) <= MaxContentBytes ->
  match helper_exec (words ++ [$"fs"; $"write"; profile; rel; mode]) (Some data) w with
  | (x, w') =>
      match ex_err x with
      | None => exists m, ParseMode mode = Ok m /\
          helper_wrote (w_fs w) (as_uid 0 w) profile rel m 0 data (w_fs w')
      | Some _ => helper_declined (w_fs w) (w_fs w')
      end
  end.
Proof using.
  intros Hwf Hlen. unfold helper_exec. rewrite strip_prefix_app. cbn [default].
  pose proof (helper_write_spec profile rel mode data (as_uid 0 w) Hwf Hlen) as Hrun.
  change (default [] (Some data)) with data.
  destruct (Run _ _ _ _ _ _ _ _ _ _) as [[evs code] w1]. cbn [ex_err].
  by destruct (code =? ExitOK).
Qed.

(** ** The whole way *)

(** C2. A write to a privileged root, from the request to the file. The daemon
    hands the decoded body to the helper with the profile name and the relative
    path of the root, never a directory, and a mode: the permissions of the file
    already there, or 0644. If the daemon answers success, the helper, as root and
    from its own grant file, found that profile, the mode is permitted and granted,
    and the file system differs in exactly the one file below the profile's
    directory, which holds the body, with that mode, owned by root. If it answers
    failure, nothing differs but at most one stray temporary file. *)
Theorem privileged_write_refines depth a policy req w t r data :
  fs_wf (w_fs w) -> resolve policy (rq_Path req) = inl t -> ft_privileged t = true ->
  DecodeString (rq_Content req) = Some data ->
  fa_priv a = Some r -> words = pr_sudo r ++ [helperPath (fa_priv_config a)] ->
  let mode := (privWriteModeFor (ft_path t) w).1 in
  match dispatchFileAction depth a policy fileActionWrite req w with
  | ((inl result, privileged), w') =>
      privileged = true /\ result = WriteResult (ft_path t) (Z.of_nat (List.length data)) /\
      fp_allowWrite policy = true /\ ft_rel t <> dot /\
      exists w0, w_fs w0 = w_fs w /\
        helper_wrote (w_fs w) w0 (ft_profile t) (ft_rel t) mode 0 data (w_fs w')
  | ((inr _, _), w') => helper_declined (w_fs w) (w_fs w')
  end.
Proof using.
  intros Hwf Ht Hp Hdata Hr Hwords mode. unfold dispatchFileAction.
  rewrite !(bool_decide_eq_false_2 (fileActionWrite = _)) by done. rewrite bool_decide_eq_true_2 by done.
  unfold resolved_in. rewrite Ht, Hdata. unfold writeFileData. rewrite Hp.
  destruct (checkPolicyWrite _ _ _) eqn:Hc; [by left|].
  unfold bind at 1. subst mode. pose proof (privWriteModeFor_range (ft_path t) w) as Hrange.
  pose proof (privWriteModeFor_fs (ft_path t) w) as Hfs.
  destruct (privWriteModeFor (ft_path t) w) as [mode w1]. cbn [fst snd] in *.
  unfold elevated, privWrite. rewrite Hr.
  destruct (MaxContentBytes <? _) eqn:Hlen; [by left|]. bools.
  unfold privRunner_run, privRunner_argv. rewrite (bool_decide_eq_true_2 (fmt_04o mode <> [])) by apply fmt_04o_ne.
  cbn [exec_command helper_env].
  pose proof (helper_exec_write (ft_profile t) (ft_rel t) (fmt_04o mode) data w1) as Hx.
  rewrite Hfs in Hx. specialize (Hx Hwf Hlen). 
  replace (words ++ _) with ((pr_sudo r ++ helperPath (fa_priv_config a) :: [$"fs"; $"write"; ft_profile t; ft_rel t]) ++ [fmt_04o mode])
    in Hx by (rewrite Hwords, <-!(assoc_L (++)); done).
  unfold bind, ret.
  destruct (helper_exec _ _ w1) as [x w2]. destruct (ex_err x) as [e|].
  - by destruct (ex_deadline x).
  - destruct Hx as (m & Hm & Hx). apply ParseMode_fmt in Hm as ->; [|done].
    unfold checkPolicyWrite in Hc. destruct (fp_allowWrite policy); [|done]. cbn [negb] in Hc.
    case_bool_decide; [done|]. split_and!; try done. by exists (as_uid 0 w1).
Qed.
End helper.

(** ** The theorems at work *)

Definition site_target : fileTarget := mkFileTarget ($"/srv/web") ($"index.html") ($"/srv/web/index.html") true ($"web").
Lemma site_resolves : resolve site_policy ($"/srv/web/index.html") = inl site_target.
Proof. vm_compute. reflexivity. Defined.

Lemma handover_accepted_witness :
  safeRel ($"index.html") = Ok ($"index.html") /\
  (ParseArgs [$"fs"; $"write"; $"web"; $"index.html"; fmt_04o 420] =
     Ok (fs_action ($"write") ($"web") ($"index.html") (fmt_04o 420) DefaultConfigPath) <->
   HasPrefix ($"web") ($"-") = false /\ blank ($"web") = false /\
   HasPrefix ($"index.html") ($"-") = false /\ blank ($"index.html") = false).
Proof.
  apply (handover_accepted site_policy ($"/srv/web/index.html") site_target 420 site_policy_ok site_resolves); [done|lia].
Defined.

Lemma site_wf : fs_wf (w_fs site_world).
Proof. apply fs_wf_check. by vm_compute. Qed.
Definition silent (evs : list event) : str := [].
Abbreviation site_words := [$"sudo"; $"-n"; FilesDefaultPrivilegedHelper].
Abbreviation site_helper :=
  (helper_env (H := demo_unicode) demo_decode exec_nothing id ($"dev") None 7 silent silent (fun _ => 0)
     site_words host_env).
Abbreviation site_write :=
  (dispatchFileAction (H := site_helper) 9 site_app site_policy fileActionWrite
     (request ($"/srv/web/index.html") ($"aGk=")) site_world).

Lemma privileged_write_refines_witness :
  exists w', site_write = ((inl (WriteResult ($"/srv/web/index.html") 2), true), w') /\
    exists w0, w_fs w0 = w_fs site_world /\
      helper_wrote (H := demo_unicode) demo_decode (w_fs site_world) w0 ($"web") ($"index.html") 420 0 ($"hi") (w_fs w').
Proof.
  assert (H1 : site_write.1 = (inl (WriteResult ($"/srv/web/index.html") 2), true)) by (vm_compute; reflexivity).
  assert (Hm : (privWriteModeFor ($"/srv/web/index.html") site_world).1 = 420) by (vm_compute; reflexivity).
  pose proof (privileged_write_refines (H := demo_unicode) demo_decode exec_nothing id ($"dev") None 7 silent silent
    (fun _ => 0) site_words host_env 9 site_app site_policy (request ($"/srv/web/index.html") ($"aGk=")) site_world
    site_target (mkPrivRunner [$"sudo"; $"-n"]) ($"hi") site_wf site_resolves eq_refl eq_refl eq_refl eq_refl) as H.
  cbv zeta in H. cbn [ft_path site_target] in H. rewrite Hm in H.
  destruct site_write as [r0 w'] eqn:E. cbn [fst] in H1. subst r0. cbn [ft_profile ft_rel site_target] in H.
  exists w'. split; [reflexivity|]. by destruct H as (_ & _ & _ & _ & H).
Defined.
