(* ===== verification/ImageRef.v ===== *)
(** * ImageRef: container image references

    [internal/daemon/imageref.go]: the parser that every image reference passes
    before it reaches a runtime's command line or a registry URL, its printer, and
    the parser of the name a runtime records for a pulled image. *)

From S2P Require Import Prelude GoStr Regex GoPath.

Definition dockerHubRegistry : str := $"docker.io".
Definition dockerHubAPIHost : str := $"registry-1.docker.io".
Definition indexRegistry : str := $"index.docker.io".
Definition libraryPrefix : str := $"library/".

Record imageReference := mkImageReference {
  ref_Registry : str;
  ref_Repository : str;
  ref_Tag : str;
  ref_Digest : str;
}.

Definition lower_alnum : regex := cls [rng "a" "z"; rng "0" "9"].
Definition imageComponent : regex :=
  RCat (plus lower_alnum)
    (RStar (RCat (RAlt (cls [one "._"]) (RAlt (lit "__") (plus (cls [one "-"])))) (plus lower_alnum))).
Definition imageRepositoryPattern : regex := RCat imageComponent (RStar (RCat (lit "/") imageComponent)).
Definition tag_class (more : string) : regex := cls [rng "A" "Z"; rng "a" "z"; rng "0" "9"; one more].
Definition imageTagPattern : regex := RCat (tag_class "_") (upto (tag_class "._-") 127).
Definition imageDigestPattern : regex :=
  RCat (plus lower_alnum) (RCat (lit ":") (at_least (cls [rng "0" "9"; rng "a" "f"]) 32)).
Definition registryHostPattern : regex :=
  RCat (cls [rng "A" "Z"; rng "a" "z"; rng "0" "9"]) (RStar (tag_class ".:-")).

Definition at_sign : ascii := ch "@".
Definition colon : ascii := ch ":".

(** A first segment is a registry host when it looks like one. *)
Definition looks_like_host (first : str) : bool := ContainsAny first ($".:") || bool_decide (first = $"localhost").

Definition parseImageReference (raw : str) : res imageReference :=
  let raw := TrimSpace raw in
  if bool_decide (raw = []) then Err (Errorf "empty image reference" [])
  else if HasPrefix raw ($"-") then Err (Errorf "invalid image reference %q" [FStr raw])
  else
    let? (name, digest) :=
      match cut at_sign raw with
      | None => Ok (raw, [])
      | Some (name, digest) =>
          if matches imageDigestPattern digest then Ok (name, digest)
          else Err (Errorf "invalid image digest %q" [FStr digest])
      end in
    let? (registry, name) :=
      match cut slash name with
      | None => Ok ([], name)
      | Some (first, rest) =>
          if looks_like_host first then
            if matches registryHostPattern first then Ok (first, rest)
            else Err (Errorf "invalid registry host %q" [FStr first])
          else Ok ([], name)
      end in
    let '(name, tag) := match cut_last colon name with None => (name, []) | Some nt => nt end in
    if bool_decide (name = []) then Err (Errorf "missing repository in image reference %q" [FStr raw])
    else
      let hub := bool_decide (registry = []) || bool_decide (registry = dockerHubRegistry)
                 || bool_decide (registry = indexRegistry) in
      let registry := if hub then dockerHubRegistry else registry in
      let name := if hub && negb (Contains name ($"/")) then libraryPrefix ++ name else name in
      if negb (matches imageRepositoryPattern name) then Err (Errorf "invalid image repository %q" [FStr name])
      else if negb (bool_decide (tag = [])) && negb (matches imageTagPattern tag) then
        Err (Errorf "invalid image tag %q" [FStr tag])
      else
        let tag := if bool_decide (tag = []) && bool_decide (digest = []) then $"latest" else tag in
        Ok (mkImageReference registry name tag digest).

Definition imageReference_Pinned (r : imageReference) : bool := negb (bool_decide (ref_Digest r = [])).
Definition imageReference_APIHost (r : imageReference) : str :=
  if bool_decide (ref_Registry r = dockerHubRegistry) || bool_decide (ref_Registry r = indexRegistry)
  then dockerHubAPIHost else ref_Registry r.
Definition imageReference_String (r : imageReference) : str :=
  let out := ref_Registry r ++ slash :: ref_Repository r in
  if negb (bool_decide (ref_Digest r = [])) then out ++ at_sign :: ref_Digest r
  else out ++ colon :: ref_Tag r.

Record imageName := mkImageName { in_Registry : str; in_Repository : str; in_Digest : str }.
Definition parseImageNameDigest (raw : str) : res imageName :=
  let raw := TrimSpace raw in
  match cut_last at_sign raw with
  | None | Some ([], _) => Err (Errorf "image name %q has no digest" [FStr raw])
  | Some (name, digest) =>
      if negb (matches imageDigestPattern digest) then
        Err (Errorf "image name %q has an invalid digest" [FStr raw])
      else
        let '(registry, repository) :=
          match cut slash name with
          | Some (first, rest) => if looks_like_host first then (first, rest) else (dockerHubRegistry, name)
          | None => (dockerHubRegistry, name)
          end in
        let registry := if bool_decide (registry = indexRegistry) then dockerHubRegistry else registry in
        let repository :=
          if bool_decide (registry = dockerHubRegistry) && negb (Contains repository ($"/"))
          then libraryPrefix ++ repository else repository in
        Ok (mkImageName registry repository digest)
  end.
Definition sameRepository (n : imageName) (ref : imageReference) : bool :=
  bool_decide (in_Registry n = ref_Registry ref) && bool_decide (in_Repository n = ref_Repository ref).

Example parse_ex1 : parseImageReference ($" nginx ") = Ok (mkImageReference ($"docker.io") ($"library/nginx") ($"latest") []).
Proof. vm_compute. reflexivity. Qed.
Example parse_ex2 : parseImageReference ($"localhost:5000/team/app:v1.2")
  = Ok (mkImageReference ($"localhost:5000") ($"team/app") ($"v1.2") []).
Proof. vm_compute. reflexivity. Qed.
Example parse_ex3 : is_ok (parseImageReference ($"ghcr.io/../x")) = false /\ is_ok (parseImageReference ($"--privileged")) = false.
Proof. vm_compute. done. Qed.

(** ** Well-formed references *)

Record ref_wf (r : imageReference) : Prop := {
  wf_registry : ref_Registry r = dockerHubRegistry \/
    matches registryHostPattern (ref_Registry r) = true /\ looks_like_host (ref_Registry r) = true /\
    ref_Registry r <> indexRegistry;
  wf_repository : matches imageRepositoryPattern (ref_Repository r) = true;
  wf_library : ref_Registry r = dockerHubRegistry -> slash ∈ ref_Repository r;
  wf_tag : ref_Tag r = [] \/ matches imageTagPattern (ref_Tag r) = true;
  wf_digest : ref_Digest r = [] \/ matches imageDigestPattern (ref_Digest r) = true;
  wf_version : ref_Tag r <> [] \/ ref_Digest r <> [];
}.

Lemma Contains_byte s c : Contains s [c] = true <-> c ∈ s.
Proof.
  induction s as [|d s IH]; cbn [Contains].
  - split; [|by intros ?%not_elem_of_nil]. rewrite orb_false_r. intros [r Hr]%HasPrefix_spec. done.
  - rewrite orb_true_iff, IH, HasPrefix_spec, elem_of_cons. split.
    + intros [[r [= -> _]]|?]; auto.
    + intros [->|?]; [left; by exists s|by right].
Qed.
Lemma Contains_slash s : Contains s ($"/") = bool_decide (slash ∈ s).
Proof.
  change ($"/") with [slash]. case_bool_decide as H; [by apply Contains_byte|].
  apply not_true_iff_false. by rewrite Contains_byte.
Qed.

Lemma Ok_inj {A} (a b : A) : Ok a = Ok b -> a = b.
Proof. by intros [=]. Qed.
Lemma parse_wf raw r : parseImageReference raw = Ok r -> ref_wf r.
Proof.
  unfold parseImageReference. set (s := TrimSpace raw). case_bool_decide; [done|].
  destruct (HasPrefix s _); [done|]. clear H. intros H. apply res_bind_ok in H as ([name digest] & Hd & H).
  assert (Hdig : digest = [] \/ matches imageDigestPattern digest = true).
  { destruct (cut at_sign s) as [[l d]|]; [|by injection Hd as _ <-; left].
    destruct (matches imageDigestPattern d) eqn:E; [|done]. injection Hd as _ <-. by right. }
  clear Hd. apply res_bind_ok in H as ([registry name1] & Hr & H).
  assert (Hreg : registry = [] \/ matches registryHostPattern registry = true /\ looks_like_host registry = true).
  { destruct (cut slash name) as [[first rest]|]; [|by injection Hr as <- _; left].
    destruct (looks_like_host first) eqn:El; [|by injection Hr as <- _; left].
    destruct (matches registryHostPattern first) eqn:E; [|done]. injection Hr as <- _. by right. }
  clear Hr. destruct (match cut_last colon name1 with None => _ | Some nt => nt end) as [name2 tag].
  case_bool_decide; [done|]. set (hub := _ || _ || _) in H.
  destruct (matches imageRepositoryPattern _) eqn:Hrepo in H; cbn [negb] in H; [|done].
  destruct (negb (bool_decide (tag = [])) && _) eqn:Htag; [done|]. apply Ok_inj in H. subst r.
  split; cbn [ref_Registry ref_Repository ref_Tag ref_Digest].
  - destruct hub eqn:Eh; [by left|]. subst hub. bools. right. destruct Hreg as [?|[? ?]]; done.
  - done.
  - destruct hub eqn:Eh; cbn [andb].
    + intros _. rewrite Contains_slash. destruct (bool_decide (slash ∈ name2)) eqn:Es; cbn [negb]; [by bools|].
      apply elem_of_app. left. by apply (bool_decide_unpack _).
    + subst hub. bools. done.
  - destruct (bool_decide (tag = [])) eqn:Et; cbn [andb negb] in *.
    + destruct (bool_decide (digest = [])); [right; by vm_compute|bools; by left].
    + right. destruct (matches imageTagPattern tag); [done|discriminate Htag].
  - done.
  - destruct (bool_decide (tag = [])) eqn:Et; cbn [andb]; [|bools; by left].
    destruct (bool_decide (digest = [])) eqn:Ed; [by left|bools; by right].
Qed.

(** ** Printing and parsing *)

(** The printed form of a reference, with its version part. *)
Definition version_of (r : imageReference) : str :=
  if bool_decide (ref_Digest r = []) then colon :: ref_Tag r else at_sign :: ref_Digest r.
Lemma String_form r : imageReference_String r = ref_Registry r ++ slash :: ref_Repository r ++ version_of r.
Proof.
  unfold imageReference_String, version_of. case_bool_decide; cbn [negb]; by rewrite <-(assoc_L (++)).
Qed.

Definition plain_byte (c : ascii) : bool :=
  rng "A" "Z" c || rng "a" "z" c || rng "0" "9" c || has_byte c ($".:_-/@").
Lemma plain_graphic c : plain_byte c = true -> is_graphic c = true.
Proof. apply implies_spec. by vm_compute. Qed.

Section wf.
Variable r : imageReference.
Hypothesis Hr : ref_wf r.

Lemma registry_host : matches registryHostPattern (ref_Registry r) = true /\ looks_like_host (ref_Registry r) = true /\
  ref_Registry r <> indexRegistry.
Proof using Hr. destruct (wf_registry _ Hr) as [->|H]; [|done]. by vm_compute. Qed.
Lemma registry_no c : c ∈ [slash; at_sign] -> c ∉ ref_Registry r.
Proof using Hr.
  intros Hc. destruct registry_host as [Hm _]. eapply matches_no; [|exact Hm].
  repeat (apply elem_of_cons in Hc as [->|Hc]; [by vm_compute|]). by apply not_elem_of_nil in Hc.
Qed.
Lemma repository_no c : c ∈ [colon; at_sign] -> c ∉ ref_Repository r.
Proof using Hr.
  intros Hc. eapply matches_no; [|exact (wf_repository _ Hr)].
  repeat (apply elem_of_cons in Hc as [->|Hc]; [by vm_compute|]). by apply not_elem_of_nil in Hc.
Qed.
Lemma tag_no c : c ∈ [colon; at_sign] -> c ∉ ref_Tag r.
Proof using Hr.
  intros Hc. destruct (wf_tag _ Hr) as [->|Hm]; [apply not_elem_of_nil|].
  eapply matches_no; [|exact Hm].
  repeat (apply elem_of_cons in Hc as [->|Hc]; [by vm_compute|]). by apply not_elem_of_nil in Hc.
Qed.
Lemma repository_ne : ref_Repository r <> [].
Proof using Hr. eapply matches_nonempty; [|exact (wf_repository _ Hr)]. by vm_compute. Qed.

Lemma String_plain : Forall (fun c => plain_byte c = true) (imageReference_String r).
Proof using Hr.
  rewrite String_form. destruct registry_host as [Hh _].
  apply Forall_app. split; [eapply matches_all; [|exact Hh]; by vm_compute|].
  constructor; [done|]. apply Forall_app. split; [eapply matches_all; [|exact (wf_repository _ Hr)]; by vm_compute|].
  unfold version_of. case_bool_decide; (constructor; [done|]).
  - destruct (wf_tag _ Hr) as [->|Hm]; [constructor|]. eapply matches_all; [|exact Hm]. by vm_compute.
  - destruct (wf_digest _ Hr) as [?|Hm]; [done|]. eapply matches_all; [|exact Hm]. by vm_compute.
Qed.
Lemma String_no_dash : HasPrefix (imageReference_String r) ($"-") = false.
Proof using Hr.
  rewrite String_form. destruct registry_host as [Hh _].
  destruct (ref_Registry r) as [|c s]; [by vm_compute in Hh|]. cbn [app].
  apply not_true_iff_false. intros [q Hq]%HasPrefix_spec. injection Hq as -> _.
  assert (Hc : negb (one "-" (ch "-")) = true); [|by vm_compute in Hc].
  eapply (matches_first (fun c => negb (one "-" c))); [|exact Hh]. by vm_compute.
Qed.
End wf.

Section reparse.
Variable r : imageReference.
Hypothesis Hr : ref_wf r.

(** What is left of a printed reference once the digest is cut off. *)
Lemma String_cut_digest :
  cut at_sign (imageReference_String r) =
    if bool_decide (ref_Digest r = []) then None
    else Some (ref_Registry r ++ slash :: ref_Repository r, ref_Digest r).
Proof using Hr.
  assert (H1 : at_sign ∉ ref_Registry r) by (apply registry_no; [done|right; left]).
  assert (H2 : at_sign ∉ ref_Repository r) by (apply repository_no; [done|right; left]).
  assert (H3 : at_sign ∉ ref_Tag r) by (apply tag_no; [done|right; left]).
  assert (Hs : at_sign <> slash) by done. assert (Hc : at_sign <> colon) by done.
  rewrite String_form. unfold version_of. case_bool_decide as Hd.
  - apply cut_none. intros [?|[?|[?|[?|?]%elem_of_cons]%elem_of_app]%elem_of_cons]%elem_of_app; done.
  - apply cut_spec. split; [by rewrite <-(assoc_L (++))|].
    intros [?|[?|?]%elem_of_cons]%elem_of_app; done.
Qed.
Lemma String_cut_registry rest : cut slash (ref_Registry r ++ slash :: rest) = Some (ref_Registry r, rest).
Proof using Hr. apply cut_spec. split; [done|]. apply registry_no; [done|left]. Qed.
Lemma String_cut_tag :
  cut_last colon (ref_Repository r ++ colon :: ref_Tag r) = Some (ref_Repository r, ref_Tag r) /\
  cut_last colon (ref_Repository r) = None.
Proof using Hr.
  split; [apply cut_last_spec; split; [done|]; apply tag_no; [done|left]|].
  apply cut_last_none, repository_no; [done|left].
Qed.

(** The hub, its library prefix and the patterns change nothing any more. *)
Lemma parse_String_fixed :
  let hub := bool_decide (ref_Registry r = []) || bool_decide (ref_Registry r = dockerHubRegistry)
             || bool_decide (ref_Registry r = indexRegistry) in
  (if hub then dockerHubRegistry else ref_Registry r) = ref_Registry r /\
  (if hub && negb (Contains (ref_Repository r) ($"/")) then libraryPrefix ++ ref_Repository r else ref_Repository r)
    = ref_Repository r.
Proof using Hr.
  cbv zeta. destruct (registry_host _ Hr) as (Hm & _ & Hi).
  rewrite (bool_decide_eq_false_2 (ref_Registry r = [])) by (intros E; rewrite E in Hm; by vm_compute in Hm).
  rewrite (bool_decide_eq_false_2 (ref_Registry r = indexRegistry)) by done. rewrite orb_false_r. cbn [orb].
  case_bool_decide as Hd; [|done]. split; [done|]. cbn [andb].
  rewrite Contains_slash, bool_decide_eq_true_2 by (by apply (wf_library _ Hr)). done.
Qed.

Lemma parse_String :
  parseImageReference (imageReference_String r) =
    Ok (if imageReference_Pinned r then mkImageReference (ref_Registry r) (ref_Repository r) [] (ref_Digest r) else r).
Proof using Hr.
  unfold parseImageReference. rewrite TrimSpace_graphic.
  2: { eapply Forall_impl; [apply String_plain, Hr|]. apply plain_graphic. }
  rewrite bool_decide_eq_false_2 by (rewrite String_form; by destruct (ref_Registry r)).
  rewrite String_no_dash by done. rewrite String_cut_digest.
  destruct (registry_host _ Hr) as (Hm & Hl & _). pose proof parse_String_fixed as [Hf1 Hf2].
  pose proof (wf_repository _ Hr) as Hrepo. pose proof (repository_ne _ Hr) as Hne.
  destruct String_cut_tag as [Hct Hcn]. unfold imageReference_Pinned.
  destruct (bool_decide (ref_Digest r = [])) eqn:Ed; bools; cbn [negb].
  - rewrite String_form. unfold version_of. rewrite (bool_decide_eq_true_2 (ref_Digest r = [])) by done.
    cbn [res_bind]. rewrite String_cut_registry, Hl, Hm. cbn [res_bind]. rewrite Hct.
    rewrite (bool_decide_eq_false_2 (ref_Repository r = [])) by done. cbv zeta. rewrite Hf1, Hf2, Hrepo. cbn [negb].
    destruct (wf_version _ Hr) as [Htag|]; [|done]. rewrite (bool_decide_eq_false_2 (ref_Tag r = [])) by done.
    destruct (wf_tag _ Hr) as [?|Hmt]; [done|]. rewrite Hmt. cbn [negb andb].
    destruct r as [reg repo tag dig]. cbn in *. by subst dig.
  - destruct (wf_digest _ Hr) as [?|Hmd]; [done|]. rewrite Hmd. cbn [res_bind].
    rewrite String_cut_registry, Hl, Hm. cbn [res_bind]. rewrite Hcn.
    rewrite (bool_decide_eq_false_2 (ref_Repository r = [])) by done. cbv zeta. rewrite Hf1, Hf2, Hrepo. cbn [negb].
    rewrite (bool_decide_eq_true_2 ([] = [])), (bool_decide_eq_false_2 (ref_Digest r = [])) by done. done.
Qed.
End reparse.

(** An accepted image reference is safe to pass on and is stable. It names a
    registry host (Docker Hub spelled one way), a repository, a tag or a digest in
    their grammars; printed, it is one word of plain characters that no option
    parser takes for a flag; and the printed form parses back to the same
    reference, a pinned one without the tag it may have carried. *)
Theorem image_reference_sound raw r : parseImageReference raw = Ok r ->
  ref_wf r /\
  Forall (fun c => plain_byte c = true) (imageReference_String r) /\
  HasPrefix (imageReference_String r) ($"-") = false /\
  parseImageReference (imageReference_String r) =
    Ok (if imageReference_Pinned r then mkImageReference (ref_Registry r) (ref_Repository r) [] (ref_Digest r) else r).
Proof.
  intros Hr%parse_wf. split_and!; [done|by apply String_plain|by apply String_no_dash|by apply parse_String].
Qed.
Definition pinned_raw : str := $"nginx:1.25@sha256:" ++ replicate 64 (ch "a").
Definition pinned_ref : imageReference :=
  mkImageReference ($"docker.io") ($"library/nginx") ($"1.25") ($"sha256:" ++ replicate 64 (ch "a")).
Lemma image_reference_sound_witness :
  ref_wf pinned_ref /\
  Forall (fun c => plain_byte c = true) (imageReference_String pinned_ref) /\
  HasPrefix (imageReference_String pinned_ref) ($"-") = false /\
  parseImageReference (imageReference_String pinned_ref) =
    Ok (mkImageReference ($"docker.io") ($"library/nginx") [] (ref_Digest pinned_ref)).
Proof. apply (image_reference_sound pinned_raw pinned_ref). vm_compute. reflexivity. Defined.

(** A reference pinned by digest does carry the tag it was written with. *)
Example pinned_keeps_tag : exists r, parseImageReference pinned_raw = Ok r /\
  imageReference_Pinned r = true /\ ref_Tag r = $"1.25".
Proof. exists pinned_ref. split_and!; vm_compute; reflexivity. Qed.

(** The two parsers agree on what a repository is. The printed form of a
    reference pinned by digest is also a name a runtime could record; read as one
    it carries the same digest and counts as the same repository, so the update
    check compares digests of the same image. *)
Theorem pinned_names_agree raw r : parseImageReference raw = Ok r -> imageReference_Pinned r = true ->
  exists n, parseImageNameDigest (imageReference_String r) = Ok n /\
    sameRepository n r = true /\ in_Digest n = ref_Digest r.
Proof.
  intros Hr%parse_wf Hp. unfold imageReference_Pinned in Hp. bools.
  destruct (wf_digest _ Hr) as [?|Hmd]; [done|]. destruct (registry_host _ Hr) as (Hm & Hl & Hi).
  unfold parseImageNameDigest. rewrite TrimSpace_graphic.
  2: { eapply Forall_impl; [apply String_plain, Hr|]. apply plain_graphic. }
  rewrite String_form. unfold version_of. rewrite bool_decide_eq_false_2 by done.
  assert (Hcut : cut_last at_sign (ref_Registry r ++ slash :: ref_Repository r ++ at_sign :: ref_Digest r)
    = Some (ref_Registry r ++ slash :: ref_Repository r, ref_Digest r)).
  { apply cut_last_spec. split; [by rewrite <-(assoc_L (++))|]. eapply matches_no; [|exact Hmd]. by vm_compute. }
  rewrite Hcut. destruct (ref_Registry r) as [|c reg] eqn:Ereg; [by vm_compute in Hm|]. cbn [app].
  rewrite Hmd. cbn [negb].
  change (c :: reg ++ slash :: ref_Repository r) with ((c :: reg) ++ slash :: ref_Repository r).
  rewrite <-Ereg in *. rewrite String_cut_registry, Hl by done.
  rewrite (bool_decide_eq_false_2 (ref_Registry r = indexRegistry)) by done. cbv zeta.
  pose proof (parse_String_fixed _ Hr) as [_ Hfix].
  assert (Hname : (if bool_decide (ref_Registry r = dockerHubRegistry) && negb (Contains (ref_Repository r) ($"/"))
    then libraryPrefix ++ ref_Repository r else ref_Repository r) = ref_Repository r).
  { destruct (bool_decide (ref_Registry r = dockerHubRegistry)) eqn:Ed; [|done]. bools. cbn [andb].
    rewrite Contains_slash, bool_decide_eq_true_2 by by apply (wf_library _ Hr). done. }
  rewrite Hname. eexists. split; [reflexivity|]. unfold sameRepository. cbn.
  by rewrite !bool_decide_eq_true_2.
Qed.
Lemma pinned_names_agree_witness :
  exists n, parseImageNameDigest (imageReference_String pinned_ref) = Ok n /\
    sameRepository n pinned_ref = true /\ in_Digest n = ref_Digest pinned_ref.
Proof. apply (pinned_names_agree pinned_raw pinned_ref); vm_compute; reflexivity. Defined.
