(* ===== verification/Alarms.v ===== *)
(** * Alarms: threshold alarms and their cooldown

    [internal/daemon/alarms.go]: the evaluator that turns each metric sample and
    container listing into notifications, holding back an alarm that fired less
    than its cooldown ago. The disk usage is computed in binary64 arithmetic
    ([SpecFloat]); a time is its nanoseconds, a duration a 64-bit integer. A title or
    body is kept as its format and arguments. *)

From Stdlib Require Import SpecFloat QArith.
From S2P Require Import Prelude GoStr Config.
Open Scope Z_scope.

(** ** binary64 *)

Definition float64_of_Z (n : Z) : spec_float := binary_normalize 53 1024 n 0 false.
Definition float_mul : spec_float -> spec_float -> spec_float := SFmul 53 1024.
Definition float_div : spec_float -> spec_float -> spec_float := SFdiv 53 1024.
(** The value of a float. *)
Definition value_of (x : spec_float) : float64 :=
  match x with
  | S754_zero _ => FNum 0
  | S754_infinity neg => FInf neg
  | S754_nan => FNaN
  | S754_finite neg m e =>
      let n := if neg then Zneg m else Zpos m in
      FNum (if 0 <=? e then inject_Z (n * 2 ^ e) else Qmake n (Z.to_pos (2 ^ (- e))))
  end.
(** [x < y]: false when either is NaN. *)
Definition float_lt (x y : float64) : bool :=
  match x, y with
  | FNum p, FNum q => negb (Qle_bool q p)
  | FInf neg, FNum _ => neg
  | FNum _, FInf neg => negb neg
  | FInf a, FInf b => a && negb b
  | _, _ => false
  end.

(** ** Durations *)

Definition wrap64 (n : Z) : Z := (n + 2 ^ 63) mod 2 ^ 64 - 2 ^ 63.
(** [time.Duration(cooldownSeconds) * time.Second] *)
Definition cooldown_of (seconds : Z) : Z := wrap64 (seconds * 1000000000).
(** [now.Sub(last)] saturates. *)
Definition time_Sub (now last : Z) : Z := Z.max min_int64 (Z.min max_int64 (now - last)).

(** ** The evaluator *)

Record DiskUsage := mkDiskUsage { du_Mount : str; du_Filesystem : str; du_TotalKb : Z; du_AvailableKb : Z }.
Record MetricsPayload := mkMetricsPayload {
  SentAt : Z;
  m_HostID : str;
  UptimeSeconds : Z;
  ProcessMemoryBytes : Z;
  CPUPercent : float64;
  CPUCount : Z;
  Load1 : float64;
  Load5 : float64;
  Load15 : float64;
  MemoryUsedPercent : float64;
  MemoryUsedBytes : Z;
  MemoryTotalBytes : Z;
  SwapTotalKb : Z;
  SwapFreeKb : Z;
  DiskTotalKb : Z;
  DiskAvailableKb : Z;
  Disks : list DiskUsage;
  NetRxBytes : Z;
  NetTxBytes : Z;
  WebhookExecutions : Z;
  WebhookFailures : Z;
  HealthScore : Z;
  HealthStatus : str;
}.
Record containerEntry := mkContainerEntry {
  ct_ID : str; ct_Name : str; ct_Image : str; ct_State : str; ct_Status : str; ct_ComposeProject : str;
}.
Record containersRuntimePayload := mkRuntimePayload {
  rt_Runtime : str; rt_Available : bool; rt_Error : option str; rt_Store : str; rt_Rootless : option bool;
  rt_Cgroups : str; rt_ComposeTool : str; rt_Containers : list containerEntry;
}.

(** A rendered text is kept as its format and arguments. *)
Inductive text_arg := TStr (s : str) | TFloat (x : float64).
Record text := mkText { tx_format : string; tx_args : list text_arg }.
Record notificationPayload := mkNotification {
  nt_Kind : str; nt_Title : text; nt_Subtitle : text; nt_Body : text; nt_Metadata : list (str * text_arg);
}.
Definition no_text : text := mkText "" [].
Definition threshold_notification (kind : str) (value threshold : float64) : notificationPayload :=
  mkNotification ($"daemon.alarm." ++ kind)
    (mkText "%s threshold exceeded" [TStr kind]) no_text
    (mkText "%s reached %.2f%% (threshold %.2f%%)" [TStr kind; TFloat value; TFloat threshold])
    [($"value", TFloat value); ($"threshold", TFloat threshold)].
Definition container_notification (container : containerEntry) (runtime : str) : notificationPayload :=
  mkNotification ($"daemon.alarm.container_down") (mkText "container_down alarm" []) no_text
    (mkText "container %s is %s" [TStr (ct_Name container); TStr (ct_State container)])
    [($"container_id", TStr (ct_ID container)); ($"container_name", TStr (ct_Name container));
     ($"state", TStr (ct_State container)); ($"runtime", TStr runtime)].

(** When each key last fired. *)
Abbreviation alarmEvaluator := (gmap str Z).
Definition newAlarmEvaluator : alarmEvaluator := ∅.

Definition ready (key : str) (cooldownSeconds now : Z) (state : alarmEvaluator) : bool * alarmEvaluator :=
  let cooldown := cooldown_of cooldownSeconds in
  match state !! key with
  | Some last => if time_Sub now last <? cooldown then (false, state) else (true, <[key := now]> state)
  | None => (true, <[key := now]> state)
  end.

Definition NULsep : str := [byte 0].
Definition alarm_disabled (alarm : AlarmConfig) : bool :=
  match alarm_Enabled alarm with Some enabled => negb enabled | None => false end.

(** The measured value an alarm watches; [None] skips it. *)
Definition alarm_value (alarm : AlarmConfig) (sample : MetricsPayload) : option float64 :=
  if bool_decide (alarm_Kind alarm = $"cpu_percent") then Some (CPUPercent sample)
  else if bool_decide (alarm_Kind alarm = $"memory_used_percent") then Some (MemoryUsedPercent sample)
  else if bool_decide (alarm_Kind alarm = $"disk_used_percent") then
    if (DiskTotalKb sample <=? 0) || (DiskAvailableKb sample <? 0) || (DiskTotalKb sample <? DiskAvailableKb sample)
    then None
    else Some (value_of (float_div
           (float_mul (float64_of_Z 100) (float64_of_Z (DiskTotalKb sample - DiskAvailableKb sample)))
           (float64_of_Z (DiskTotalKb sample))))
  else None.
Definition alarm_key (alarm : AlarmConfig) : str := alarm_Kind alarm ++ NULsep ++ alarm_Target alarm.

(** Append the notification when the key is ready. *)
Definition notify (key : str) (cooldownSeconds now : Z) (n : notificationPayload)
    (acc : list notificationPayload * alarmEvaluator) : list notificationPayload * alarmEvaluator :=
  let '(ok, state) := ready key cooldownSeconds now acc.2 in
  if ok then (acc.1 ++ [n], state) else (acc.1, state).

Definition evaluate (alarms : list AlarmConfig) (sample : MetricsPayload) (now : Z) (state : alarmEvaluator)
    : list notificationPayload * alarmEvaluator :=
  fold_left (fun acc alarm =>
    if alarm_disabled alarm then acc
    else
      match alarm_value alarm sample with
      | None => acc
      | Some value =>
          if float_lt value (alarm_Threshold alarm) then acc
          else notify (alarm_key alarm) (alarm_CooldownSeconds alarm) now
                 (threshold_notification (alarm_Kind alarm) value (alarm_Threshold alarm)) acc
      end) alarms ([], state).

Definition container_key (alarm : AlarmConfig) (container : containerEntry) : str :=
  $"container_down" ++ NULsep ++ alarm_Target alarm ++ NULsep ++ ct_ID container.
Definition watches (alarm : AlarmConfig) (container : containerEntry) : bool :=
  bool_decide (alarm_Target alarm = []) || bool_decide (alarm_Target alarm = ct_Name container)
  || bool_decide (alarm_Target alarm = ct_ID container).

Definition evaluateContainers (alarms : list AlarmConfig) (runtimes : list containersRuntimePayload) (now : Z)
    (state : alarmEvaluator) : list notificationPayload * alarmEvaluator :=
  fold_left (fun acc alarm =>
    if negb (bool_decide (alarm_Kind alarm = $"container_down")) || alarm_disabled alarm then acc
    else
      fold_left (fun acc runtime =>
        if negb (rt_Available runtime) || is_Some_b (rt_Error runtime) then acc
        else
          fold_left (fun acc container =>
            if negb (watches alarm container) then acc
            else if bool_decide (ct_State container = $"running") then acc
            else notify (container_key alarm container) (alarm_CooldownSeconds alarm) now
                   (container_notification container (rt_Runtime runtime)) acc)
            (rt_Containers runtime) acc)
        runtimes acc)
    alarms ([], state).

(** The evaluator over a sequence of metric samples, with when each was taken. *)
Fixpoint run (alarms : list AlarmConfig) (ticks : list (Z * MetricsPayload)) (state : alarmEvaluator)
    : list (Z * list notificationPayload) :=
  match ticks with
  | [] => []
  | (now, sample) :: ticks =>
      let '(out, state) := evaluate alarms sample now state in
      (now, out) :: run alarms ticks state
  end.

Definition cpu_alarm : AlarmConfig := mkAlarmConfig ($"cpu_percent") (FNum 90) [] None 60.
Definition disk_alarm : AlarmConfig := mkAlarmConfig ($"disk_used_percent") (FNum 80) [] None 60.
Definition busy : MetricsPayload :=
  mkMetricsPayload 0 [] 0 0 (FNum 95) 4 (FNum 1) (FNum 1) (FNum 1) (FNum 10) 0 0 0 0 1000 200 [] 0 0 0 0 100 ($"ok").
Example run_ex :
  (fun o => (o.1, List.length o.2)) <$>
    run [cpu_alarm; disk_alarm] ((fun s => (s * 1000000000, busy)) <$> [0; 30; 59; 60; 100]) newAlarmEvaluator
  = [(0, 2%nat); (30000000000, 0%nat); (59000000000, 0%nat); (60000000000, 2%nat); (100000000000, 0%nat)].
Proof. vm_compute. reflexivity. Qed.

(** ** One evaluation, exactly *)

Definition due (now : Z) (state : alarmEvaluator) (key : str) (cooldownSeconds : Z) : bool :=
  match state !! key with Some last => cooldown_of cooldownSeconds <=? time_Sub now last | None => true end.
(** The notification of an alarm that is enabled and at or over its threshold. *)
Definition crossed (sample : MetricsPayload) (alarm : AlarmConfig) : option notificationPayload :=
  if alarm_disabled alarm then None
  else
    match alarm_value alarm sample with
    | None => None
    | Some value =>
        if float_lt value (alarm_Threshold alarm) then None
        else Some (threshold_notification (alarm_Kind alarm) value (alarm_Threshold alarm))
    end.
Definition fires (sample : MetricsPayload) (now : Z) (state : alarmEvaluator) (alarm : AlarmConfig)
    : option notificationPayload :=
  if due now state (alarm_key alarm) (alarm_CooldownSeconds alarm) then crossed sample alarm else None.

Lemma notify_due key cd now n acc :
  notify key cd now n acc =
    if due now acc.2 key cd then (acc.1 ++ [n], <[key := now]> acc.2) else (acc.1, acc.2).
Proof.
  unfold notify, ready, due. destruct (acc.2 !! key) as [last|]; [|done].
  destruct (Z.ltb_spec (time_Sub now last) (cooldown_of cd)), (Z.leb_spec (cooldown_of cd) (time_Sub now last)); try done; lia.
Qed.

Section evaluate.
Variables (sample : MetricsPayload) (now : Z).

Definition evaluate_step (acc : list notificationPayload * alarmEvaluator) (alarm : AlarmConfig) :=
  match fires sample now acc.2 alarm with
  | Some n => (acc.1 ++ [n], <[alarm_key alarm := now]> acc.2)
  | None => acc
  end.
Lemma evaluate_steps alarms state : evaluate alarms sample now state = fold_left evaluate_step alarms ([], state).
Proof using.
  unfold evaluate. generalize (@nil notificationPayload, state) as acc.
  induction alarms as [|a alarms IH]; intros acc; [done|]. cbn [fold_left]. rewrite IH. f_equal.
  unfold evaluate_step, fires, crossed. destruct acc as [out st]. cbn [snd].
  destruct (alarm_disabled a); [by destruct (due _ _ _ _)|].
  destruct (alarm_value a sample) as [v|]; [|by destruct (due _ _ _ _)].
  destruct (float_lt v _); [by destruct (due _ _ _ _)|]. rewrite notify_due. cbn [fst snd].
  by destruct (due _ _ _ _).
Qed.

Lemma fires_insert state alarm key : alarm_key alarm <> key ->
  fires sample now (<[key := now]> state) alarm = fires sample now state alarm.
Proof using. intros Hne. unfold fires, due. by rewrite lookup_insert_ne. Qed.

(** The alarms of a list with distinct keys do not see each other. *)
Lemma steps_spec alarms out state : NoDup (alarm_key <$> alarms) ->
  let r := fold_left evaluate_step alarms (out, state) in
  r.1 = out ++ omap (fires sample now state) alarms /\
  (forall a, a ∈ alarms -> is_Some (fires sample now state a) -> r.2 !! alarm_key a = Some now) /\
  (forall key, (forall a, a ∈ alarms -> alarm_key a = key -> fires sample now state a = None) ->
     r.2 !! key = state !! key).
Proof using.
  revert out state. induction alarms as [|a alarms IH]; intros out state; cbn [fold_left fmap list_fmap omap list_omap].
  - intros _. split_and!; [by rewrite app_nil_r|by intros a ?%not_elem_of_nil|done].
  - intros [Hni Hnd]%NoDup_cons. unfold evaluate_step at 2 4 6. cbn [fst snd].
    destruct (fires sample now state a) as [n|] eqn:Ef.
    + assert (Hsame : forall b, b ∈ alarms -> fires sample now (<[alarm_key a := now]> state) b = fires sample now state b).
      { intros b Hb. apply fires_insert. intros E. apply Hni. rewrite <-E. by apply list_elem_of_fmap_2. }
      destruct (IH (out ++ [n]) (<[alarm_key a := now]> state) Hnd) as (H1 & H2 & H3). split_and!.
      * rewrite H1, <-(assoc_L (++)). do 2 f_equal. clear -Hsame.
        induction alarms as [|b alarms IH]; [done|]. cbn. rewrite (Hsame b) by constructor.
        rewrite IH; [done|]. intros c Hc. apply Hsame. by constructor.
      * intros b [->|Hb]%elem_of_cons Hf; [|apply H2; [done|by rewrite Hsame]].
        rewrite H3; [by rewrite lookup_insert_eq|]. intros b Hb E. destruct Hni. rewrite <-E. by apply list_elem_of_fmap_2.
      * intros key Hkey. assert (Hne : alarm_key a <> key).
        { intros E. specialize (Hkey a ltac:(constructor) E). congruence. }
        rewrite H3; [by rewrite lookup_insert_ne|]. intros b Hb E. rewrite Hsame by done. apply Hkey; [by constructor|done].
    + destruct (IH out state Hnd) as (H1 & H2 & H3). split_and!; [done| |].
      * intros b [->|Hb]%elem_of_cons Hf; [rewrite Ef in Hf; by destruct Hf|by apply H2].
      * intros key Hkey. apply H3. intros b Hb. apply Hkey. by constructor.
Qed.
End evaluate.

(** One evaluation of the metric alarms, exactly. With distinct alarm keys,
    the notifications are, in the order of the alarms, those of the alarms that
    are enabled, whose measured value is not below the threshold, and that never
    fired or fired at least their cooldown ago; exactly their keys are marked with
    the present time and every other key keeps its mark. *)
Theorem evaluate_exact alarms sample now state : NoDup (alarm_key <$> alarms) ->
  (evaluate alarms sample now state).1 = omap (fires sample now state) alarms /\
  (forall a, a ∈ alarms -> is_Some (fires sample now state a) ->
     (evaluate alarms sample now state).2 !! alarm_key a = Some now) /\
  (forall key, (forall a, a ∈ alarms -> alarm_key a = key -> fires sample now state a = None) ->
     (evaluate alarms sample now state).2 !! key = state !! key).
Proof. intros Hnd. rewrite evaluate_steps. by apply steps_spec. Qed.

(** ** Cooldown *)

Lemma cooldown_of_exact s : 0 <= s <= 9223372036 -> cooldown_of s = s * 1000000000.
Proof. intros Hs. unfold cooldown_of, wrap64. rewrite Z.mod_small; lia. Qed.
Lemma time_Sub_le now last c : 0 <= c -> c <= time_Sub now last -> c <= now - last.
Proof. unfold time_Sub, max_int64, min_int64. lia. Qed.

(** [out] holds a notification of the alarm [a]. *)
Definition fired_in (a : AlarmConfig) (out : list notificationPayload) : Prop :=
  exists n, n ∈ out /\ nt_Kind n = $"daemon.alarm." ++ alarm_Kind a.

Section cooldown.
Variables (alarms : list AlarmConfig) (a : AlarmConfig).
Hypothesis keys_distinct : NoDup (alarm_key <$> alarms).
Hypothesis a_in : a ∈ alarms.
Hypothesis a_alone : forall b, b ∈ alarms -> alarm_Kind b = alarm_Kind a -> b = a.
Hypothesis a_cooldown : 0 <= alarm_CooldownSeconds a <= 9223372036.

Lemma fired_due sample now state : fired_in a (evaluate alarms sample now state).1 ->
  is_Some (fires sample now state a).
Proof using keys_distinct a_in a_alone.
  intros (n & Hv & Hkind). rewrite evaluate_steps in Hv.
  destruct (steps_spec sample now alarms [] state keys_distinct) as [H1 _]. rewrite H1 in Hv. cbn [app] in Hv.
  apply list_elem_of_omap in Hv as (b & Hb & Hf). assert (alarm_Kind b = alarm_Kind a) as Hk.
  { unfold fires, crossed in Hf. repeat case_match; try done. apply Some_inj in Hf. subst n.
    unfold threshold_notification in Hkind. cbn [nt_Kind] in Hkind. by apply app_inv_head in Hkind. }
  apply a_alone in Hk as ->; [|done]. by rewrite Hf.
Qed.
Lemma last_fired sample now state last : state !! alarm_key a = Some last ->
  exists last', (evaluate alarms sample now state).2 !! alarm_key a = Some last' /\
    (last' = now \/ last' = last).
Proof using keys_distinct a_in.
  intros Hl. rewrite evaluate_steps.
  destruct (steps_spec sample now alarms [] state keys_distinct) as (_ & H2 & H3).
  destruct (fires sample now state a) as [n|] eqn:Ef; [exists now; rewrite H2 by done; auto|].
  exists last. split; [|by right]. rewrite H3; [done|]. intros b Hb E.
  enough (b = a) as -> by done.
  apply list_elem_of_lookup in Hb as [i Hi], a_in as [j Hj].
  assert (i = j) as ->; [|congruence].
  apply (NoDup_lookup _ _ _ (alarm_key a) keys_distinct); rewrite list_lookup_fmap; [by rewrite Hi; cbn; rewrite E|by rewrite Hj].
Qed.

(** Once marked at or after [t0], the alarm stays quiet until its cooldown has passed. *)
Lemma quiet_after t0 ticks state last : state !! alarm_key a = Some last -> t0 <= last ->
  Forall (fun tick => t0 <= tick.1) ticks ->
  forall t out, (t, out) ∈ run alarms ticks state -> fired_in a out ->
    alarm_CooldownSeconds a * 1000000000 <= t - t0.
Proof using All.
  revert state last. induction ticks as [|[now sample] ticks IH]; intros state last Hl Ht0 Hts t out; cbn [run].
  - by intros ?%not_elem_of_nil.
  - apply Forall_cons in Hts as [Hnow Hts]. cbn in Hnow.
    pose proof (fired_due sample now state) as Hdue. destruct (last_fired sample now state last Hl) as (last' & Hl' & Hor).
    destruct (evaluate alarms sample now state) as [o st] eqn:E. cbn [fst snd] in *.
    intros [[= -> ->]|Hin]%elem_of_cons Hf.
    + destruct (Hdue Hf) as [n Hn]. unfold fires, due in Hn. rewrite Hl in Hn.
      destruct (Z.leb_spec (cooldown_of (alarm_CooldownSeconds a)) (time_Sub now last)) as [Hc|]; [|done].
      rewrite cooldown_of_exact in Hc by done. apply time_Sub_le in Hc; lia.
    + eapply IH; [exact Hl'|destruct Hor; lia|exact Hts|exact Hin|exact Hf].
Qed.

Lemma run_cooldown ticks state : StronglySorted (fun s t => s.1 <= t.1) ticks ->
  forall i j ti tj oi oj, (i < j)%nat ->
    run alarms ticks state !! i = Some (ti, oi) -> run alarms ticks state !! j = Some (tj, oj) ->
    fired_in a oi -> fired_in a oj -> alarm_CooldownSeconds a * 1000000000 <= tj - ti.
Proof using All.
  intros Hs. revert state. induction Hs as [|[now sample] ticks Hs IH Hle]; intros state i j ti tj oi oj Hij; cbn [run]; [done|].
  destruct (evaluate alarms sample now state) as [o st] eqn:E.
  destruct i as [|i], j as [|j]; try lia; cbn [lookup list_lookup].
  - intros [= -> ->] Hj Hi Hfj. assert (Hd : is_Some (fires sample ti state a)) by (apply fired_due; by rewrite E).
    assert (Hmark : st !! alarm_key a = Some ti).
    { change st with (oi, st).2. rewrite <-E, evaluate_steps.
      destruct (steps_spec sample ti alarms [] state keys_distinct) as (_ & H2 & _). by apply H2. }
    eapply (quiet_after ti ticks st ti Hmark); [lia| |by eapply list_elem_of_lookup_2|done].
    eapply Forall_impl; [exact Hle|]. by intros.
  - intros Hi Hj. eapply (IH st i j); try done. lia.
Qed.
End cooldown.

(** An alarm respects its cooldown. Over any sequence of samples taken at
    times that do not go back, with whatever values, two notifications of the same
    alarm are at least its cooldown apart. *)
Theorem alarm_cooldown alarms a ticks i j ti tj oi oj :
  NoDup (alarm_key <$> alarms) -> a ∈ alarms ->
  (forall b, b ∈ alarms -> alarm_Kind b = alarm_Kind a -> b = a) ->
  0 <= alarm_CooldownSeconds a <= 9223372036 ->
  StronglySorted (fun s t => s.1 <= t.1) ticks -> (i < j)%nat ->
  run alarms ticks newAlarmEvaluator !! i = Some (ti, oi) ->
  run alarms ticks newAlarmEvaluator !! j = Some (tj, oj) ->
  fired_in a oi -> fired_in a oj ->
  alarm_CooldownSeconds a * 1000000000 <= tj - ti.
Proof. intros. by eapply (run_cooldown alarms a). Qed.

(** ** The theorems at work *)

Definition minute_ticks : list (Z * MetricsPayload) := (fun s => (s * 1000000000, busy)) <$> [0; 30; 59; 60; 100].
Lemma two_keys : NoDup (alarm_key <$> [cpu_alarm; disk_alarm]).
Proof. apply (bool_decide_unpack _). vm_compute. exact I. Defined.
Lemma evaluate_exact_witness :
  (evaluate [cpu_alarm; disk_alarm] busy 5 newAlarmEvaluator).1
    = omap (fires busy 5 newAlarmEvaluator) [cpu_alarm; disk_alarm] /\
  (evaluate [cpu_alarm; disk_alarm] busy 5 newAlarmEvaluator).2 !! alarm_key cpu_alarm = Some 5.
Proof.
  destruct (evaluate_exact [cpu_alarm; disk_alarm] busy 5 newAlarmEvaluator two_keys) as (H1 & H2 & _).
  split; [exact H1|]. apply H2; [left|vm_compute; eauto].
Defined.
Lemma alarm_cooldown_witness : 60 * 1000000000 <= 60000000000 - 0.
Proof.
  apply (alarm_cooldown [cpu_alarm; disk_alarm] cpu_alarm minute_ticks 0 3 0 60000000000
    (evaluate [cpu_alarm; disk_alarm] busy 0 newAlarmEvaluator).1 (evaluate [cpu_alarm; disk_alarm] busy 0 newAlarmEvaluator).1).
  - exact two_keys.
  - left.
  - intros b [->|[->|Hb]%elem_of_cons]%elem_of_cons; [done|done|by apply not_elem_of_nil in Hb].
  - cbn. lia.
  - unfold minute_ticks. cbn. repeat constructor; cbn; lia.
  - lia.
  - vm_compute. reflexivity.
  - vm_compute. reflexivity.
  - eexists. split; [left|reflexivity].
  - eexists. split; [left|reflexivity].
Defined.
