(* ===== verification/AuditLog.v ===== *)
(** * AuditLog: the audit log of the daemon

    [internal/daemon/audit.go]: one JSON line per run, appended to a file that is
    rotated once to [path.1]; and the reader of the newest entries. The two files
    are byte strings or absent, a call of the file system can fail as its [io]
    says. The JSON encoding is a parameter, [AuditJSON]; the time stamp and the
    duration of an entry are left out. *)

From S2P Require Import Prelude GoStr.
Open Scope Z_scope.

Definition auditMaxBytes : Z := Z.shiftl 1 20.

Record auditEntry := mkAuditEntry {
  ae_Name : str;
  ae_DisplayName : str;
  ae_Source : str;
  ae_InvokedBy : str;
  ae_Target : str;
  ae_Privileged : bool;
  ae_OK : bool;
  ae_ExitCode : Z;
  ae_Stdout : str;
  ae_Stderr : str;
  ae_Error : str;
}.

(** [json.Marshal] of an entry (which cannot fail: there is nothing in it that has
    no encoding) and [json.Unmarshal] into one. *)
Class AuditJSON := {
  Marshal : auditEntry -> str;
  Unmarshal : str -> option auditEntry;
}.

(** The active file and the rotated one. *)
Record auditFiles := mkAuditFiles { active : option str; rotated : option str }.
(** Which calls succeed; [io_write] is [Some n] when only [n] bytes are written. *)
Record io := mkIO { io_open : bool; io_stat : bool; io_rename : bool; io_reopen : bool; io_write : option nat }.
Definition io_ok : io := mkIO true true true true None.

(** An open for appending creates the file. *)
Definition opened (f : option str) : str := default [] f.
Definition append_line (f : io) (content line : str) : str :=
  let data := line ++ [newline] in
  content ++ match io_write f with Some n => take n data | None => data end.

(** The rotation: [os.Rename] replaces [path.1]; when it fails the file stays. *)
Definition rotate (f : io) (content : str) (files : auditFiles) : auditFiles :=
  if io_rename f then mkAuditFiles None (Some content) else mkAuditFiles (Some content) (rotated files).

Definition Record_ `{AuditJSON} (f : io) (entry : auditEntry) (files : auditFiles) : auditFiles :=
  if negb (io_open f) then files
  else
    let content := opened (active files) in
    if io_stat f && (auditMaxBytes <=? Z.of_nat (List.length content)) then
      let files := rotate f content files in
      if negb (io_reopen f) then files
      else mkAuditFiles (Some (append_line f (opened (active files)) (Marshal entry))) (rotated files)
    else mkAuditFiles (Some (append_line f content (Marshal entry))) (rotated files).

(** [os.Remove] of both files, the active one first; a missing file is no error. *)
Definition Clear (remove_active remove_rotated : bool) (files : auditFiles) : bool * auditFiles :=
  let files1 := if remove_active then mkAuditFiles None (rotated files) else files in
  if negb (remove_active || negb (is_Some_b (active files))) then (false, files)
  else if negb (remove_rotated || negb (is_Some_b (rotated files))) then (false, files1)
  else (true, mkAuditFiles (active files1) (if remove_rotated then None else rotated files)).

(** ** [bufio.Scanner] over lines

    A token may not fill the buffer of [bufio.MaxScanTokenSize] bytes: a line of
    65536 bytes or more, without its newline, ends the scan. *)
Definition MaxScanTokenSize : Z := 64 * 1024.
Definition dropCR (line : str) : str :=
  match last line with
  | Some c => if bool_decide (c = byte 13) then removelast line else line
  | None => line
  end.
Fixpoint scan_lines (lines : list str) : list str :=
  match lines with
  | [] => []
  | [l] => if bool_decide (l = []) || (MaxScanTokenSize <=? Z.of_nat (List.length l)) then [] else [dropCR l]
  | l :: lines => if MaxScanTokenSize <=? Z.of_nat (List.length l) then [] else dropCR l :: scan_lines lines
  end.
Definition Scan (content : str) : list str := scan_lines (split_on newline content).

(** The entries of one file: malformed lines are skipped. *)
Definition appendFile `{AuditJSON} (f : option str) : list auditEntry :=
  match f with Some content => omap Unmarshal (Scan content) | None => [] end.

Definition recent_limit (limit : Z) : Z :=
  let limit := if limit <=? 0 then 50 else limit in if 500 <? limit then 500 else limit.
(** [entries[len(entries)-limit:]], reversed in place. *)
Definition Recent `{AuditJSON} (limit : Z) (files : auditFiles) : list auditEntry :=
  let entries := appendFile (rotated files) ++ appendFile (active files) in
  let limit := recent_limit limit in
  rev (if limit <? Z.of_nat (List.length entries)
       then drop (List.length entries - Z.to_nat limit) entries else entries).

(** A sequence of calls of [Record]. *)
Definition record_all `{AuditJSON} (calls : list (io * auditEntry)) (files : auditFiles) : auditFiles :=
  fold_left (fun files call => Record_ call.1 call.2 files) calls files.

(** ** What the log keeps *)

Definition file_of `{AuditJSON} (entries : list auditEntry) : str :=
  concat ((fun e => Marshal e ++ [newline]) <$> entries).
(** No line is torn: a write is whole or does nothing. *)
Definition untorn (f : io) : Prop := io_write f = None \/ io_write f = Some 0%nat.
Definition short `{AuditJSON} (e : auditEntry) : Prop := Z.of_nat (List.length (Marshal e)) < MaxScanTokenSize.

Section log.
Context `{AuditJSON}.
(** An encoded entry is one line, a JSON object; decoding it yields [decoded]
    (the entry itself when its strings are valid UTF-8). *)
Context (decoded : auditEntry -> auditEntry).
Hypothesis marshal_line : forall e, newline ∉ Marshal e.
Hypothesis marshal_object : forall e, last (Marshal e) = Some (ch "}").
Hypothesis marshal_decoded : forall e, Unmarshal (Marshal e) = Some (decoded e).

Lemma split_on_app_sep l s : newline ∉ l -> split_on newline (l ++ newline :: s) = l :: split_on newline s.
Proof using.
  induction l as [|c l IH]; cbn [app split_on]; [by rewrite bool_decide_true|].
  intros [Hc Hl]%not_elem_of_cons. rewrite bool_decide_false by congruence. by rewrite IH.
Qed.
Lemma split_file es : split_on newline (file_of es) = (Marshal <$> es) ++ [[]].
Proof using marshal_line.
  induction es as [|e es IH]; [done|]. unfold file_of. cbn [fmap list_fmap concat].
  rewrite <-app_assoc. cbn [app]. rewrite split_on_app_sep by auto. unfold file_of in IH. by rewrite IH.
Qed.
Lemma dropCR_object e : dropCR (Marshal e) = Marshal e.
Proof using marshal_object. unfold dropCR. by rewrite marshal_object. Qed.
Lemma scan_cons_short l lines : lines <> [] -> Z.of_nat (List.length l) < MaxScanTokenSize ->
  scan_lines (l :: lines) = dropCR l :: scan_lines lines.
Proof using. intros Hne Hl. destruct lines; [done|]. cbn [scan_lines]. by rewrite (proj2 (Z.leb_gt _ _)). Qed.

(** A file is read up to its first over-long line. *)
Lemma appendFile_prefix pre rest : Forall short pre -> (rest = [] \/ exists e post, rest = e :: post /\ ~ short e) ->
  appendFile (Some (file_of (pre ++ rest))) = decoded <$> pre.
Proof using marshal_line marshal_object marshal_decoded.
  intros Hpre Hrest. unfold appendFile, Scan. rewrite split_file.
  induction Hpre as [|e pre He Hpre IH]; cbn [app fmap list_fmap].
  - destruct Hrest as [->|(e & post & -> & He)]; [done|]. cbn [fmap list_fmap app].
    destruct (Marshal <$> post) eqn:E; cbn [app scan_lines];
      unfold short in He; rewrite (proj2 (Z.leb_le _ _)) by lia; done.
  - rewrite scan_cons_short; [|by destruct (Marshal <$> _)|done]. cbn [omap list_omap].
    rewrite dropCR_object, marshal_decoded. cbn [app fmap list_fmap]. f_equal. apply IH.
Qed.
Lemma appendFile_short es : Forall short es -> appendFile (Some (file_of es)) = decoded <$> es.
Proof using marshal_line marshal_object marshal_decoded.
  intros Hs. rewrite <-(app_nil_r es) at 1. apply appendFile_prefix; auto.
Qed.

(** A file that holds the lines of [es]. *)
Definition holds (f : option str) (es : list auditEntry) : Prop := opened f = file_of es.
Lemma appendFile_holds f es : holds f es -> Forall short es -> appendFile f = decoded <$> es.
Proof using marshal_line marshal_object marshal_decoded.
  intros Hf Hs. rewrite <-appendFile_short by done. unfold holds, opened in Hf.
  destruct f as [s|]; cbn in *; [by rewrite Hf|]. destruct es as [|e es]; [done|].
  unfold file_of in Hf. cbn in Hf. by destruct (Marshal e).
Qed.
Lemma file_of_snoc es e : file_of (es ++ [e]) = file_of es ++ Marshal e ++ [newline].
Proof using. unfold file_of. rewrite fmap_app, concat_app. cbn. by rewrite app_nil_r. Qed.

(** The log after some calls: [dropped] were rotated away, [old] are in the
    rotated file, [cur] in the active one. *)
Record log_state (files : auditFiles) (dropped old cur : list auditEntry) : Prop := {
  log_old : holds (rotated files) old;
  log_cur : holds (active files) cur;
  log_dropped : dropped = [] \/ auditMaxBytes <= Z.of_nat (List.length (file_of old));
}.
Lemma append_holds f content es e : untorn f -> content = file_of es ->
  exists new, (new = [e] \/ new = []) /\ (io_write f = None -> new = [e]) /\
    holds (Some (append_line f content (Marshal e))) (es ++ new).
Proof using.
  intros [Hw|Hw] ->; unfold append_line, holds; rewrite Hw; cbn [opened default from_option].
  - exists [e]. split_and!; [by left|done|]. by rewrite file_of_snoc.
  - exists []. split_and!; [by right|done|]. by rewrite take_0, !app_nil_r.
Qed.
Lemma record_step f e files dropped old cur : untorn f -> log_state files dropped old cur ->
  exists dropped' old' cur' new, log_state (Record_ f e files) dropped' old' cur' /\
    dropped' ++ old' ++ cur' = dropped ++ old ++ cur ++ new /\
    (new = [e] \/ new = []) /\ (f = io_ok -> new = [e]).
Proof using.
  assert (Hok' : f = io_ok -> io_write f = None) by (intros ->; done). intros Hf [Ho Hc Hd]. unfold Record_. destruct (io_open f) eqn:Eo; cbn [negb];
    [|exists dropped, old, cur, []; split_and!; [done|by rewrite app_nil_r|by right|by intros E; rewrite E in *; done]].
  destruct (io_stat f && _) eqn:Es.
  - apply andb_true_iff in Es as [_ Hsz%Z.leb_le]. destruct (io_rename f) eqn:Er; unfold rotate; rewrite Er.
    + destruct (io_reopen f) eqn:Ep; cbn [negb].
      * destruct (append_holds f [] [] e Hf eq_refl) as (new & Hnew & Hok & Hh).
        exists (dropped ++ old), cur, new, new. split_and!; [|by rewrite <-!app_assoc|done|by eauto].
        split; [done|done|right]. by rewrite <-Hc.
      * exists (dropped ++ old), cur, [], []. split_and!; [|by rewrite <-!app_assoc, !app_nil_r|by right|by intros E; rewrite E in *; done].
        split; [done|done|right]. by rewrite <-Hc.
    + destruct (io_reopen f) eqn:Ep; cbn [negb].
      * destruct (append_holds f _ cur e Hf Hc) as (new & Hnew & Hok & Hh).
        exists dropped, old, (cur ++ new), new. split_and!; [by split|done|done|by eauto].
      * exists dropped, old, cur, []. split_and!; [by split|by rewrite app_nil_r|by right|by intros E; rewrite E in *; done].
  - destruct (append_holds f _ cur e Hf Hc) as (new & Hnew & Hok & Hh).
    exists dropped, old, (cur ++ new), new. split_and!; [by split|done|done|by eauto].
Qed.
Lemma record_all_state calls files dropped old cur :
  Forall (fun call => untorn call.1) calls -> log_state files dropped old cur ->
  exists dropped' old' cur' news, log_state (record_all calls files) dropped' old' cur' /\
    dropped' ++ old' ++ cur' = dropped ++ old ++ cur ++ news /\
    news `sublist_of` calls.*2 /\ (Forall (fun call => call.1 = io_ok) calls -> news = calls.*2).
Proof using.
  revert files dropped old cur. induction calls as [|[f e] calls IH]; intros files dropped old cur Hu Hs.
  - exists dropped, old, cur, []. by rewrite app_nil_r.
  - apply Forall_cons in Hu as [Hf Hu]. destruct (record_step f e _ _ _ _ Hf Hs) as (d1 & o1 & c1 & n1 & Hs1 & E1 & Hn1 & Hok1).
    destruct (IH _ _ _ _ Hu Hs1) as (d2 & o2 & c2 & n2 & Hs2 & E2 & Hn2 & Hok2).
    exists d2, o2, c2, (n1 ++ n2). split_and!; [done| | |].
    + rewrite E2. transitivity ((d1 ++ o1 ++ c1) ++ n2); [by rewrite <-!app_assoc|]. by rewrite E1, <-!app_assoc.
    + cbn [fmap list_fmap snd]. destruct Hn1 as [-> | ->]; cbn [app]; [by constructor|by apply sublist_cons].
    + intros [Hok Hoks]%Forall_cons. cbn [fmap list_fmap fst snd] in *. by rewrite Hok1, Hok2.
Qed.

Lemma recent_take limit (entries : list auditEntry) :
  rev (if recent_limit limit <? Z.of_nat (List.length entries)
       then drop (List.length entries - Z.to_nat (recent_limit limit)) entries else entries)
  = take (Z.to_nat (recent_limit limit)) (rev entries).
Proof using.
  destruct (Z.ltb_spec (recent_limit limit) (Z.of_nat (List.length entries))) as [Hl|Hl].
  - by rewrite firstn_rev.
  - rewrite take_ge by (rewrite length_rev; lia). done.
Qed.
Lemma Recent_state files dropped old cur limit : log_state files dropped old cur -> Forall short (old ++ cur) ->
  Recent limit files = take (Z.to_nat (recent_limit limit)) (rev (decoded <$> (old ++ cur))).
Proof using marshal_line marshal_object marshal_decoded.
  intros [Ho Hc _] [Hso Hsc]%Forall_app. unfold Recent.
  rewrite (appendFile_holds _ _ Ho Hso), (appendFile_holds _ _ Hc Hsc), <-fmap_app. apply recent_take.
Qed.

(** The audit log keeps what it is told and shows it newest first. After any
    calls of [Record] on a fresh log whose entries encode to less than 64 KiB each,
    whatever calls of the file system fail (short of tearing a line), the newest
    entries read back are the first [limit] (50 when not positive, 500 at most), newest
    first, of a subsequence [kept] of the recorded entries; when no call fails,
    [kept] is the whole list but for a beginning that was rotated away, and
    something is only rotated away while at least 1 MiB of newer records is kept. But
    an entry of 64 KiB or more hides every later one of its file from the reader. *)
Theorem audit_recent_exact calls limit :
  Forall (fun call => untorn call.1 /\ short call.2) calls ->
  (exists kept dropped newer, kept `sublist_of` calls.*2 /\
    Recent limit (record_all calls (mkAuditFiles None None))
      = take (Z.to_nat (recent_limit limit)) (rev (decoded <$> kept)) /\
    (Forall (fun call => call.1 = io_ok) calls -> calls.*2 = dropped ++ kept /\
       newer `prefix_of` kept /\ (dropped = [] \/ auditMaxBytes <= Z.of_nat (List.length (file_of newer))))) /\
  (forall old pre long post, Forall short pre -> ~ short long ->
     Recent limit (mkAuditFiles old (Some (file_of (pre ++ long :: post))))
       = Recent limit (mkAuditFiles old (Some (file_of pre)))).
Proof using All.
  intros Hcalls. split.
  - destruct (record_all_state calls (mkAuditFiles None None) [] [] []) as (dropped & old & cur & news & Hs & E & Hsub & Hok).
    { eapply Forall_impl; [done|]. by intros ? []. }
    { split; [done|done|by left]. }
    cbn [app] in E. assert (Hshort : Forall short (old ++ cur)).
    { assert (Hin : (old ++ cur) `sublist_of` calls.*2).
      { etrans; [|exact Hsub]. rewrite <-E. by apply sublist_inserts_l. }
      apply Forall_forall. intros e He. eapply elem_of_sublist in He; [|exact Hin].
      apply list_elem_of_fmap in He as (call & -> & Hcall). by apply (proj1 (Forall_forall _ _) Hcalls). }
    exists (old ++ cur), dropped, old. split_and!.
    + etrans; [|exact Hsub]. rewrite <-E. by apply sublist_inserts_l.
    + by apply Recent_state with (dropped := dropped).
    + intros Hall. rewrite <-Hok, <-E by done. split_and!; [done|by exists cur|by destruct Hs].
  - intros old pre long post Hpre Hlong. unfold Recent. cbn [active rotated].
    rewrite (appendFile_prefix pre (long :: post)) by eauto. by rewrite appendFile_short.
Qed.
End log.

(** A log of two runs under a toy encoding that keeps the name only. *)
Definition name_only (name : str) : auditEntry := mkAuditEntry name [] [] [] [] false true 0 [] [] [].
Definition no_newline (s : str) : str := filter (fun c => c <> newline) s.
#[local] Instance toy_json : AuditJSON := {
  Marshal e := $"{" ++ no_newline (ae_Name e) ++ $"}";
  Unmarshal line := Some (name_only (removelast (tail line)));
}.
Lemma audit_recent_exact_witness :
  exists kept, kept `sublist_of` [name_only ($"deploy"); name_only ($"backup")] /\
    Recent 10 (record_all [(io_ok, name_only ($"deploy")); (io_ok, name_only ($"backup"))] (mkAuditFiles None None))
      = rev ((fun e => name_only (no_newline (ae_Name e))) <$> kept).
Proof.
  destruct (audit_recent_exact (fun e => name_only (no_newline (ae_Name e)))) with
    (calls := [(io_ok, name_only ($"deploy")); (io_ok, name_only ($"backup"))]) (limit := 10)
    as [(kept & dropped & newer & Hk & Hr & _) _].
  - intros e. cbn [Marshal toy_json]. rewrite !not_elem_of_app. split_and!.
    + intros []%list_elem_of_In; [done|by destruct H].
    + unfold no_newline. intros Hin. by apply list_elem_of_filter in Hin as [].
    + intros []%list_elem_of_In; [done|by destruct H].
  - intros e. cbn [Marshal toy_json]. exact (last_snoc (ch "}") (($"{") ++ no_newline (ae_Name e))).
  - intros e. cbn [Marshal Unmarshal toy_json]. cbn [app tail Stdlib.Strings.String.list_ascii_of_string]. by rewrite removelast_last.
  - repeat constructor; by left.
  - exists kept. split; [exact Hk|]. rewrite Hr. rewrite take_ge; [done|].
    rewrite length_rev, length_fmap. apply sublist_length in Hk. cbn in Hk |- *. lia.
Defined.
