(* ===== verification/Executor.v ===== *)
(** * Executor: webhooks and script actions

    [internal/daemon/webhook.go]: the template of a script, the bounded output
    buffer and what [os/exec] does with it, the checks of the three entry points
    ([run] for HTTP, [ExecuteWebhook] for the cloud relay, [RunAction] for SSH and
    scheduled jobs) and [execute], which yields the response, the status and the
    events of a run: files made and removed, the command started, the counters, the
    completion report and the audit record. The HMAC, the decoding of the JSON body
    and the text of an error are parameters ([ExecEnv]); what the system answers is
    the argument [host]. *)

From S2P Require Import Prelude GoStr GoPath Config AuditLog.
Open Scope Z_scope.

Class ExecEnv := {
  hmac_hex : str -> str -> str;
  (** [json.Unmarshal] of the body into a map, each value as [fmt.Sprint] shows it; [None] is null *)
  template_values : str -> gmap str (option str);
  error_text : error -> str;
}.

(** ** Templates

    [\{\{\s*([^{}]+?)\s*\}\}]: two braces, a non-empty text without braces, two
    braces. The name is the text without the white space around it; of a text that is
    all white space [\s*] leaves the last byte to the name. *)
Definition is_space (c : ascii) : bool := bool_decide (code c = 9 \/ code c = 10 \/ code c = 12 \/ code c = 13 \/ code c = 32)%nat.
Definition is_brace (c : ascii) : bool := bool_decide (c = ch "{" \/ c = ch "}").
Fixpoint span (f : ascii -> bool) (s : str) : str * str :=
  match s with
  | [] => ([], [])
  | c :: s' => if f c then let '(l, r) := span f s' in (c :: l, r) else ([], s)
  end.
Definition var_name (text : str) : str :=
  let t := (span is_space text).2 in
  if bool_decide (t = []) then drop (List.length text - 1) text else rev (span is_space (rev t)).2.
(** The match of the pattern at the start of the string: its text and what follows. *)
Definition placeholder_at (s : str) : option (str * str) :=
  match s with
  | a :: b :: r =>
      if bool_decide (a = ch "{" /\ b = ch "{") then
        let '(text, rest) := span (fun c => negb (is_brace c)) r in
        match rest with
        | c :: d :: rest =>
            if bool_decide (c = ch "}" /\ d = ch "}") && negb (bool_decide (text = [])) then Some (text, rest) else None
        | _ => None
        end
      else None
  | _ => None
  end.
Inductive piece := PLit (c : ascii) | PVar (text : str).
(** [ReplaceAllStringFunc]: the pieces from left to right; [skip] bytes belong to
    the placeholder before them. *)
Fixpoint pieces (skip : nat) (s : str) : list piece :=
  match s with
  | [] => []
  | c :: s' =>
      match skip with
      | S skip => pieces skip s'
      | O =>
          match placeholder_at s with
          | Some (text, _) => PVar text :: pieces (List.length text + 3) s'
          | None => PLit c :: pieces 0 s'
          end
      end
  end.
Definition piece_value (values : gmap str (option str)) (p : piece) : str :=
  match p with
  | PLit c => [c]
  | PVar text =>
      match values !! var_name text with
      | Some v => default [] v
      | None => $"{{" ++ text ++ $"}}"
      end
  end.
Definition piece_missing (values : gmap str (option str)) (p : piece) : option str :=
  match p with
  | PVar text => match values !! var_name text with Some _ => None | None => Some (var_name text) end
  | PLit _ => None
  end.
Definition substitute (source : str) (values : gmap str (option str)) : res str :=
  let ps := pieces 0 source in
  let missing := omap (piece_missing values) ps in
  if bool_decide (missing = []) then Ok (concat (piece_value values <$> ps))
  else Err (Errorf "action requires %s" [FStr (join ($", ") missing)]).
Definition substituteScriptTemplate `{ExecEnv} (source : res str) (body : str) : res str :=
  match source with
  | Err e => Err (Errorf "read action script: %w" [FErr e])
  | Ok source => substitute source (if bool_decide (TrimSpace body = []) then ∅ else template_values body)
  end.

Example substitute_ex :
  substitute ($"run {{ a }} {{{b}} {{}} {{ c") (<[$"a" := Some ($"{{b}}")]> (<[$"b" := None]> ∅)) = Ok ($"run {{b}} { {{}} {{ c").
Proof. vm_compute. reflexivity. Qed.

(** ** Captured output *)

Record limitedBuffer := mkLimitedBuffer { lb_buf : str; lb_limit : nat }.
(** [Write] returns the length of [p] as it is after the truncation. *)
Definition limitedBuffer_Write (b : limitedBuffer) (p : str) : limitedBuffer * nat :=
  if (0 <? lb_limit b)%nat && (List.length (lb_buf b) <? lb_limit b)%nat then
    let remaining := (lb_limit b - List.length (lb_buf b))%nat in
    let p := if (remaining <? List.length p)%nat then take remaining p else p in
    (mkLimitedBuffer (lb_buf b ++ p) (lb_limit b), List.length p)
  else (b, List.length p).
(** [io.Copy] of what a command prints, chunk by chunk: a short write ends it. *)
Fixpoint copy_output (b : limitedBuffer) (chunks : list str) : limitedBuffer * bool :=
  match chunks with
  | [] => (b, false)
  | p :: chunks =>
      let '(b, n) := limitedBuffer_Write b p in
      if (n =? List.length p)%nat then copy_output b chunks else (b, true)
  end.
Definition outputLimit : nat := 8192.

(** What a started command prints and how it ends; [cmd.Run] reports its own
    failure first and a failed copy otherwise. *)
Inductive run_error := ExitError (code : Z) | ErrShortWrite | OtherError (e : error).
Record process := mkProcess { pr_stdout : list str; pr_stderr : list str; pr_exit : option run_error }.
Definition cmd_Run (p : process) : str * str * option run_error :=
  let '(out, short_out) := copy_output (mkLimitedBuffer [] outputLimit) (pr_stdout p) in
  let '(err, short_err) := copy_output (mkLimitedBuffer [] outputLimit) (pr_stderr p) in
  (lb_buf out, lb_buf err,
   match pr_exit p with
   | Some e => Some e
   | None => if short_out || short_err then Some ErrShortWrite else None
   end).

(** ** The executor *)

(** [hooks] holds the webhooks and the actions, [actions] the actions alone; the
    slots are the tokens in the channel and its capacity. *)
Record WebhookExecutor := mkExecutor {
  ex_hooks : gmap str WebhookConfig;
  ex_actions : gmap str WebhookConfig;
  ex_scriptTimeout : Z;
  ex_maxBodyBytes : Z;
  ex_taken : nat;
  ex_slots : nat;
  ex_audited : bool;
}.
Definition table (hooks : list WebhookConfig) (m : gmap str WebhookConfig) : gmap str WebhookConfig :=
  fold_left (fun m hook => <[hook_Name hook := hook]> m) hooks m.
Definition SetHooks (webhooks actions : list WebhookConfig) (e : WebhookExecutor) : WebhookExecutor :=
  mkExecutor (table actions (table webhooks ∅)) (table actions ∅) (ex_scriptTimeout e) (ex_maxBodyBytes e)
    (ex_taken e) (ex_slots e) (ex_audited e).
Definition NewWebhookExecutor (webhooks actions : list WebhookConfig) (scriptTimeout maxBodyBytes : Z) (maxConcurrentRuns : nat) : WebhookExecutor :=
  SetHooks webhooks actions (mkExecutor ∅ ∅ scriptTimeout maxBodyBytes 0 maxConcurrentRuns false).

Record executionResponse := mkResponse {
  rs_OK : bool; rs_Name : str; rs_ExitCode : Z; rs_Stdout : str; rs_Stderr : str; rs_Error : str;
}.
Definition no_response : executionResponse := mkResponse false [] 0 [] [] [].
Definition failed_response (name err : str) : executionResponse := mkResponse false name 0 [] [] err.
Definition auditErrorTail (response : executionResponse) : str :=
  take 512 (if bool_decide (rs_Error response = []) then rs_Stderr response else rs_Error response).

(** *** Credentials *)
Definition EqualFold_ascii (s t : str) : bool := bool_decide (ascii_lower <$> s = ascii_lower <$> t).
Definition bearerSecret (authorization : str) : str * bool :=
  let value := TrimSpace authorization in
  if (List.length value <? 7)%nat || negb (EqualFold_ascii (take 7 value) ($"Bearer ")) then ([], false)
  else let secret := TrimSpace (drop 7 value) in (secret, negb (bool_decide (secret = []))).
Definition authorizedRequest (authorization expected : str) : bool :=
  let '(secret, ok) := bearerSecret authorization in
  ok && negb (bool_decide (TrimSpace expected = [])) && bool_decide (secret = expected).
Definition signatureValid `{ExecEnv} (secret body provided : str) : bool :=
  if bool_decide (secret = []) || bool_decide (provided = []) then false
  else bool_decide (hmac_hex secret body = TrimSpace provided).

(** *** Commands *)
Record run_command := mkCommand { rc_argv : list str; rc_Dir : str; rc_Env : list str; rc_deadline : option Z }.
Definition buildRunCommand (deadline : option Z) (hook : WebhookConfig) (command : str) (args : list str) : run_command :=
  if bool_decide (hook_User hook = []) then
    mkCommand (command :: args) (if bool_decide (hook_Cwd hook = []) then $"/" else hook_Cwd hook) (hook_Env hook) deadline
  else
    mkCommand ([$"sudo"; $"-H"; $"-u"; hook_User hook] ++ hook_Env hook ++ [command] ++ args)
      (if negb (hook_Script hook) then hook_Cwd hook else []) [] deadline.
(** [strings.ReplaceAll(cwd, "'", "'\\''")] *)
Definition quote_cwd (cwd : str) : str :=
  concat ((fun c => if bool_decide (c = ch "'") then $"'\''" else [c]) <$> cwd).
Definition cd_line (cwd : str) : str := $"cd -- '" ++ quote_cwd cwd ++ $"'" ++ [newline].
Definition prependWorkingDirectory (cwd script : str) : str :=
  let line := cd_line cwd in
  if HasPrefix script ($"#!") then
    match cut newline script with
    | Some (head, tail) => head ++ [newline] ++ line ++ tail
    | None => script ++ [newline] ++ line
    end
  else line ++ script.

(** *** Events *)
Inductive event :=
  | EMkdirAll (dir : str) (perm : Z)
  | ECreateTemp (dir name : str)
  | EWriteTemp (name content : str)
  | EChmod (name : str) (mode : Z)
  | ERemove (name : str)
  | EStart (c : run_command) (stdin : str)
  | ECount (success : bool)
  | EComplete (hook : WebhookConfig) (ok : bool) (exitCode : Z) (stderr : str)
  | EAudit (entry : auditEntry).

(** What the system answers to one run. *)
Record host := mkHost {
  h_script : str -> res str;
  h_mkdir : option error;
  h_create : str -> res str;
  h_write : option error;
  h_chmod : option error;
  h_close : option error;
  h_run : run_command -> str -> process;
  h_timed_out : bool;
}.

Definition renderScriptTemp (h : host) (hook : WebhookConfig) (script : str) : res str * list event :=
  let dir := if bool_decide (hook_User hook = []) then [] else Join [Dir (hook_Command hook); $"run"] in
  let mode := if bool_decide (hook_User hook = []) then 448 else 493 in
  let made := if bool_decide (hook_User hook = []) then [] else [EMkdirAll dir 504] in
  match (if bool_decide (hook_User hook = []) then None else h_mkdir h) with
  | Some e => (Err (Errorf "create runtime script directory %s: %w (is it writable by the daemon user?)" [FStr dir; FErr e]), made)
  | None =>
      match h_create h dir with
      | Err e => (Err (Errorf "create runtime script: %w" [FErr e]), made)
      | Ok name =>
          let evs := made ++ [ECreateTemp dir name; EWriteTemp name script] in
          match h_write h with
          | Some e => (Err (Errorf "write runtime script: %w" [FErr e]), evs ++ [ERemove name])
          | None =>
              match h_chmod h with
              | Some e => (Err (Errorf "chmod runtime script: %w" [FErr e]), evs ++ [EChmod name mode; ERemove name])
              | None =>
                  match h_close h with
                  | Some e => (Err (Errorf "close runtime script: %w" [FErr e]), evs ++ [EChmod name mode; ERemove name])
                  | None => (Ok name, evs ++ [EChmod name mode])
                  end
              end
          end
      end
  end.

Definition StatusOK := 200.
Definition StatusBadRequest := 400.
Definition StatusUnauthorized := 401.
Definition StatusNotFound := 404.
Definition StatusRequestEntityTooLarge := 413.
Definition StatusTooManyRequests := 429.
Definition StatusInternalServerError := 500.
Definition StatusBadGateway := 502.
Definition StatusGatewayTimeout := 504.

(** The command of a hook with its arguments, rendered first when it is a script. *)
Definition prepare `{ExecEnv} (h : host) (hook : WebhookConfig) (body : str)
    : (str + executionResponse * Z) * list event :=
  if hook_Script hook then
    match substituteScriptTemplate (h_script h (hook_Command hook)) body with
    | Err e => (inr (failed_response (hook_Name hook) (error_text e), StatusBadRequest), [])
    | Ok script =>
        let script := if negb (bool_decide (hook_Cwd hook = [])) && negb (bool_decide (hook_User hook = []))
                      then prependWorkingDirectory (hook_Cwd hook) script else script in
        match renderScriptTemp h hook script with
        | (Err e, evs) => (inr (failed_response (hook_Name hook) (error_text e), StatusInternalServerError), evs)
        | (Ok name, evs) => (inl name, evs)
        end
    end
  else (inl (hook_Command hook), []).

(** Start the command and account for it. *)
Definition run_process (h : host) (hook : WebhookConfig) (c : run_command) (body : str)
    : (executionResponse * Z) * list event :=
  let '(stdout, stderr, err) := cmd_Run (h_run h c body) in
  let ok := negb (is_Some_b err) in
  let exitCode := match err with Some (ExitError code) => code | _ => 0 end in
  let status := if ok then StatusOK else if h_timed_out h then StatusGatewayTimeout else StatusBadGateway in
  ((mkResponse ok (hook_Name hook) exitCode stdout stderr [], status),
   [EStart c body; ECount ok; EComplete hook ok exitCode stderr]).

Definition audit_of (hook : WebhookConfig) (source invokedBy : str) (r : executionResponse) : auditEntry :=
  mkAuditEntry (hook_Name hook) (TrimSpace (hook_DisplayName hook)) source invokedBy [] false
    (rs_OK r) (rs_ExitCode r) (rs_Stdout r) (rs_Stderr r) (auditErrorTail r).
Definition effective_timeout (e : WebhookExecutor) (hook : WebhookConfig) : Z :=
  if 0 <? hook_Timeout hook then hook_Timeout hook else ex_scriptTimeout e.
Definition deadline_of (timeout : Z) : option Z := if timeout <=? 0 then None else Some timeout.

(** [execute]: no slot, no run and no record. The deferred calls run last to
    first: the file goes before the record is written. *)
Definition execute `{ExecEnv} (e : WebhookExecutor) (h : host) (hook : WebhookConfig) (body source invokedBy : str)
    : (executionResponse * Z) * list event :=
  if negb (ex_taken e <? ex_slots e)%nat then ((no_response, StatusTooManyRequests), [])
  else
    let '(out, evs) :=
      match prepare h hook body with
      | (inr out, evs) => (out, evs)
      | (inl command, evs) =>
          let c := buildRunCommand (deadline_of (effective_timeout e hook)) hook command (hook_Args hook) in
          let '(out, evs') := run_process h hook c body in
          (out, evs ++ evs' ++ (if hook_Script hook then [ERemove command] else []))
      end in
    (out, evs ++ (if ex_audited e then [EAudit (audit_of hook source invokedBy out.1)] else [])).

(** *** Entry points *)
Record requestError := mkRequestError { re_status : Z; re_message : string }.
Record http_request := mkHTTPRequest { rq_body : str; rq_failed : bool; rq_Signature : str; rq_InvokedBy : str }.

(** [io.ReadAll(io.LimitReader(r.Body, max+1))]: the failure of a body is only
    seen when the limit was not reached before it. A limit of [2 ^ 63 - 1] bytes, whose
    successor wraps in Go, is outside the model. *)
Definition read_limited (rq : http_request) (max : Z) : option str :=
  let limit := Z.to_nat (max + 1) in
  if rq_failed rq && (List.length (rq_body rq) <? limit)%nat then None else Some (take limit (rq_body rq)).

Definition run `{ExecEnv} (e : WebhookExecutor) (h : host) (name : str) (rq : http_request)
    : (executionResponse * Z + requestError) * list event :=
  let fail status message := (inr (mkRequestError status message), []) in
  match ex_hooks e !! name with
  | None => fail StatusNotFound "not found"%string
  | Some hook =>
      if negb (hook_Enabled hook) then fail StatusNotFound "not found"%string
      else
        match read_limited rq (ex_maxBodyBytes e) with
        | None => fail StatusBadRequest "read request body"%string
        | Some body =>
            if ex_maxBodyBytes e <? Z.of_nat (List.length body) then fail StatusRequestEntityTooLarge "request body too large"%string
            else if negb (signatureValid (hook_Secret hook) body (rq_Signature rq)) then fail StatusUnauthorized "unauthorized"%string
            else
              let '(out, evs) := execute e h hook body ($"http") (rq_InvokedBy rq) in
              if out.2 =? StatusTooManyRequests then (inr (mkRequestError out.2 "too many concurrent runs"), evs)
              else (inl out, evs)
        end
  end.

Definition ExecuteWebhook `{ExecEnv} (e : WebhookExecutor) (h : host) (name body signature source invokedBy : str)
    : (executionResponse * Z) * list event :=
  match ex_hooks e !! name with
  | None => ((no_response, StatusNotFound), [])
  | Some hook =>
      if negb (hook_Enabled hook) then ((no_response, StatusNotFound), [])
      else if negb (bool_decide (hook_Secret hook = [])) && negb (signatureValid (hook_Secret hook) body signature)
           then ((no_response, StatusUnauthorized), [])
           else execute e h hook body source invokedBy
  end.

Definition RunAction `{ExecEnv} (e : WebhookExecutor) (h : host) (name body source invokedBy : str)
    : (executionResponse + requestError) * list event :=
  if ex_maxBodyBytes e <? Z.of_nat (List.length body) then
    (inr (mkRequestError StatusRequestEntityTooLarge "request body too large"), [])
  else
    match ex_actions e !! name with
    | None => (inr (mkRequestError StatusNotFound "not found"), [])
    | Some hook =>
        if negb (hook_Enabled hook) then (inr (mkRequestError StatusNotFound "not found"), [])
        else
          let '(out, evs) := execute e h hook body source invokedBy in
          if out.2 =? StatusTooManyRequests then (inr (mkRequestError StatusTooManyRequests "too many concurrent runs"), evs)
          else (inl out.1, evs)
    end.

(** ** What starts a command *)

(** The events of a rendering: none of them starts a command or is a record, and a
    file it made is removed unless it is handed on. *)
Definition quiet (evs : list event) : Prop :=
  Forall (fun ev => match ev with EMkdirAll _ _ | ECreateTemp _ _ | EWriteTemp _ _ | EChmod _ _ | ERemove _ => True | _ => False end) evs.
Definition removed_or_kept (kept : option str) (evs : list event) : Prop :=
  forall dir name, ECreateTemp dir name ∈ evs -> ERemove name ∈ evs \/ kept = Some name.
Lemma renderScriptTemp_quiet h hook script :
  let r := renderScriptTemp h hook script in
  quiet r.2 /\ removed_or_kept (match r.1 with Ok name => Some name | Err _ => None end) r.2.
Proof.
  unfold renderScriptTemp. destruct (bool_decide (hook_User hook = [])); [|destruct (h_mkdir h)];
    [destruct (h_create h _) as [name|err]| |destruct (h_create h _) as [name|err]];
    try destruct (h_write h); try destruct (h_chmod h); try destruct (h_close h); cbn [fst snd app];
    (split; [by repeat constructor|]); intros dir' name' Hin;
    repeat (apply elem_of_cons in Hin as [Hin|Hin];
            [try discriminate Hin; injection Hin as -> ->; first [by right | left; repeat constructor; fail]|]);
    by apply not_elem_of_nil in Hin.
Qed.
Lemma prepare_quiet `{ExecEnv} h hook body :
  let r := prepare h hook body in
  quiet r.2 /\ removed_or_kept (match r.1 with inl name => if hook_Script hook then Some name else None | inr _ => None end) r.2.
Proof.
  unfold prepare. destruct (hook_Script hook); [|by split; [constructor|intros ?? ?%not_elem_of_nil]].
  destruct (substituteScriptTemplate _ _) as [script|err]; [|by split; [constructor|intros ?? ?%not_elem_of_nil]].
  match goal with |- context [renderScriptTemp h hook ?s] => pose proof (renderScriptTemp_quiet h hook s) as Hq; destruct (renderScriptTemp h hook s) as [[name|err] evs] end;
    exact Hq.
Qed.
Lemma quiet_elem evs c stdin : quiet evs -> EStart c stdin ∉ evs.
Proof. intros Hq Hin. by apply (proj1 (Forall_forall _ _) Hq) in Hin. Qed.
(** The records of a list of events. *)
Definition audits (evs : list event) : list auditEntry := omap (fun ev => match ev with EAudit a => Some a | _ => None end) evs.
Lemma quiet_audits evs : quiet evs -> audits evs = [].
Proof. induction 1 as [|ev evs Hev _ IH]; [done|]. by destruct ev. Qed.
Lemma audits_app evs1 evs2 : audits (evs1 ++ evs2) = audits evs1 ++ audits evs2.
Proof. apply omap_app. Qed.

(** The command [execute] starts for a hook: the configured one, or the rendered script. *)
Definition command_of (e : WebhookExecutor) (hook : WebhookConfig) (command : str) : run_command :=
  buildRunCommand (deadline_of (effective_timeout e hook)) hook command (hook_Args hook).

Section execute.
Context `{ExecEnv} (e : WebhookExecutor) (h : host) (hook : WebhookConfig) (body source invokedBy : str).

(** The outcome of [execute] in one of three shapes. *)
Inductive executed : (executionResponse * Z) * list event -> Prop :=
  | executed_busy : (ex_slots e <= ex_taken e)%nat -> executed ((no_response, StatusTooManyRequests), [])
  | executed_unprepared out evs : prepare h hook body = (inr out, evs) ->
      executed (out, evs ++ (if ex_audited e then [EAudit (audit_of hook source invokedBy out.1)] else []))
  | executed_run command evs stdout stderr err r status :
      prepare h hook body = (inl command, evs) ->
      cmd_Run (h_run h (command_of e hook command) body) = (stdout, stderr, err) ->
      r = mkResponse (negb (is_Some_b err)) (hook_Name hook) (match err with Some (ExitError code) => code | _ => 0 end) stdout stderr [] ->
      status = (if negb (is_Some_b err) then StatusOK else if h_timed_out h then StatusGatewayTimeout else StatusBadGateway) ->
      executed ((r, status), evs ++ [EStart (command_of e hook command) body; ECount (rs_OK r); EComplete hook (rs_OK r) (rs_ExitCode r) (rs_Stderr r)]
        ++ (if hook_Script hook then [ERemove command] else [])
        ++ (if ex_audited e then [EAudit (audit_of hook source invokedBy r)] else [])).
Lemma execute_executed : executed (execute e h hook body source invokedBy).
Proof using.
  unfold execute. destruct (Nat.ltb_spec (ex_taken e) (ex_slots e)); cbn [negb]; [|by constructor].
  destruct (prepare h hook body) as [[command|out] evs] eqn:Ep; [|by constructor].
  unfold run_process. fold (command_of e hook command).
  destruct (cmd_Run _) as [[stdout stderr] err] eqn:Er.
  pose proof (executed_run command evs stdout stderr err _ _ Ep Er eq_refl eq_refl) as He.
  cbn [rs_OK rs_ExitCode rs_Stderr] in He. rewrite <-app_assoc, <-app_assoc. exact He.
Qed.
Lemma prepared r evs : prepare h hook body = (r, evs) ->
  quiet evs /\ removed_or_kept (match r with inl name => if hook_Script hook then Some name else None | inr _ => None end) evs.
Proof using. intros E. pose proof (prepare_quiet h hook body) as Hq. by rewrite E in Hq. Qed.
Lemma audit_if (a : auditEntry) (b : bool) ev : ev ∈ (if b then [EAudit a] else []) -> ev = EAudit a.
Proof using. destruct b; [by intros ?%list_elem_of_singleton|by intros ?%not_elem_of_nil]. Qed.
Lemma execute_starts c stdin : EStart c stdin ∈ (execute e h hook body source invokedBy).2 ->
  stdin = body /\ exists command, c = command_of e hook command /\
    (hook_Script hook = false -> command = hook_Command hook).
Proof using.
  destruct execute_executed as [Hb|out evs Hp|command evs stdout stderr err r status Hp Hr -> ->]; cbn [snd].
  - by intros ?%not_elem_of_nil.
  - apply prepared in Hp as [Hq _]. intros [Hin|Hin]%elem_of_app; [by apply quiet_elem in Hin|by apply audit_if in Hin].
  - destruct (prepared _ _ Hp) as [Hq _]. intros [Hin|[Hin|[Hin|Hin]%elem_of_app]%elem_of_app]%elem_of_app;
      [by apply quiet_elem in Hin| |destruct (hook_Script hook); [by apply list_elem_of_singleton in Hin|by apply not_elem_of_nil in Hin]
      |by apply audit_if in Hin].
    apply elem_of_cons in Hin as [E|Hin]; [|by repeat (apply elem_of_cons in Hin as [Hin|Hin]; [done|]); apply not_elem_of_nil in Hin].
    injection E as -> ->. split; [done|]. exists command. split; [done|]. intros Hs.
    unfold prepare in Hp. rewrite Hs in Hp. by injection Hp.
Qed.
(** One record of what is answered, unless the executor is busy; and no file is left. *)
Lemma execute_audits : let r := execute e h hook body source invokedBy in
  audits r.2 = (if ex_audited e && (ex_taken e <? ex_slots e)%nat then [audit_of hook source invokedBy r.1.1] else []).
Proof using.
  assert (Hb : (ex_taken e <? ex_slots e)%nat = false -> execute e h hook body source invokedBy = ((no_response, StatusTooManyRequests), [])).
  { unfold execute. by intros ->. }
  destruct (ex_taken e <? ex_slots e)%nat eqn:El; [|rewrite Hb by done; by rewrite andb_false_r]. rewrite andb_true_r.
  destruct execute_executed as [Hbusy|out evs Hp|command evs stdout stderr err r status Hp Hr Er Es]; cbn [fst snd].
  - apply Nat.ltb_lt in El. lia.
  - rewrite audits_app, quiet_audits by apply (prepared _ _ Hp). by destruct (ex_audited e).
  - rewrite !audits_app, quiet_audits by apply (prepared _ _ Hp). by destruct (ex_audited e), (hook_Script hook).
Qed.
Lemma execute_removes : removed_or_kept None (execute e h hook body source invokedBy).2.
Proof using.
  destruct execute_executed as [Hbusy|out evs Hp|command evs stdout stderr err r status Hp Hr Er Es]; cbn [snd];
    intros dir name Hin; [by apply not_elem_of_nil in Hin| |]; destruct (prepared _ _ Hp) as [_ Hk].
  - apply elem_of_app in Hin as [Hin|Hin]; [|by apply audit_if in Hin].
    destruct (Hk _ _ Hin) as [Hr|]; [|done]. left. apply elem_of_app. by left.
  - rewrite !elem_of_app in Hin. destruct Hin as [Hin|[Hin|[Hin|Hin]]].
    + left. destruct (Hk _ _ Hin) as [Hrm|Heq]; [apply elem_of_app; by left|].
      destruct (hook_Script hook); [injection Heq as ->|done]. rewrite !elem_of_app. right. right. left. constructor.
    + by repeat (apply elem_of_cons in Hin as [Hin|Hin]; [done|]); apply not_elem_of_nil in Hin.
    + by destruct (hook_Script hook); [apply list_elem_of_singleton in Hin|apply not_elem_of_nil in Hin].
    + by apply audit_if in Hin.
Qed.
End execute.

(** ** The three entry points *)

Inductive entry := ViaHTTP (rq : http_request) | ViaRelay (body signature source invokedBy : str) | ViaAction (body source invokedBy : str).
Definition invoke `{ExecEnv} (e : WebhookExecutor) (h : host) (name : str) (en : entry) : list event :=
  match en with
  | ViaHTTP rq => (run e h name rq).2
  | ViaRelay body signature source invokedBy => (ExecuteWebhook e h name body signature source invokedBy).2
  | ViaAction body source invokedBy => (RunAction e h name body source invokedBy).2
  end.
(** What each entry point demands of a caller. *)
Definition authorises `{ExecEnv} (e : WebhookExecutor) (name : str) (en : entry) (hook : WebhookConfig) (body : str) : Prop :=
  hook_Enabled hook = true /\
  match en with
  | ViaHTTP rq =>
      ex_hooks e !! name = Some hook /\ body = rq_body rq /\ Z.of_nat (List.length body) <= ex_maxBodyBytes e /\
      hook_Secret hook <> [] /\ TrimSpace (rq_Signature rq) = hmac_hex (hook_Secret hook) body
  | ViaRelay b signature _ _ =>
      ex_hooks e !! name = Some hook /\ body = b /\
      (hook_Secret hook = [] \/ TrimSpace signature = hmac_hex (hook_Secret hook) body)
  | ViaAction b _ _ =>
      ex_actions e !! name = Some hook /\ body = b /\ Z.of_nat (List.length body) <= ex_maxBodyBytes e
  end.

Lemma signatureValid_true `{ExecEnv} secret body provided : signatureValid secret body provided = true ->
  secret <> [] /\ TrimSpace provided = hmac_hex secret body.
Proof. unfold signatureValid. destruct (_ || _) eqn:E; [done|]. intros. bools. done. Qed.
Lemma read_limited_all rq max body : 0 <= max -> read_limited rq max = Some body ->
  Z.of_nat (List.length body) <= max -> body = rq_body rq.
Proof.
  unfold read_limited. intros Hm. destruct (rq_failed rq && _); [done|]. intros [= <-].
  rewrite length_take. intros Hl. apply take_ge. lia.
Qed.
Lemma execute_busy `{ExecEnv} e h hook body source invokedBy : (ex_slots e <= ex_taken e)%nat ->
  (execute e h hook body source invokedBy).2 = [].
Proof. intros Hl. unfold execute. by rewrite (proj2 (Nat.ltb_ge _ _)). Qed.

(** Nothing happens, or it is an authorised [execute]. *)
Lemma invoke_inv `{ExecEnv} e h name en : 0 <= ex_maxBodyBytes e ->
  invoke e h name en = [] \/
  exists hook body source invokedBy, authorises e name en hook body /\ (ex_taken e < ex_slots e)%nat /\
    invoke e h name en = (execute e h hook body source invokedBy).2.
Proof.
  intros Hmax. destruct (Nat.ltb_spec (ex_taken e) (ex_slots e)) as [Hfree|Hbusy].
  2:{ left. destruct en as [rq|b sig s i|b s i]; cbn [invoke]; unfold run, ExecuteWebhook, RunAction; repeat case_match; try done;
        cbn [snd]; try (by apply execute_busy);
        match goal with E : execute _ _ ?k ?b ?s ?i = (_, ?l) |- ?l = [] => pose proof (execute_busy e h k b s i Hbusy) as Hl; by rewrite E in Hl end. }
  destruct en as [rq|b sig s i|b s i]; cbn [invoke]; unfold authorises.
  - unfold run. destruct (ex_hooks e !! name) as [hook|] eqn:Eh; [|by left]. destruct (hook_Enabled hook) eqn:En; cbn [negb]; [|by left].
    destruct (read_limited rq _) as [body|] eqn:Er; [|by left]. destruct (Z.ltb_spec (ex_maxBodyBytes e) (Z.of_nat (List.length body))); [by left|].
    destruct (signatureValid _ _ _) eqn:Es; cbn [negb]; [|by left]. apply signatureValid_true in Es as [Hs Hsig].
    right. exists hook, body, ($"http"), (rq_InvokedBy rq). split_and!; try done; [by eapply read_limited_all|].
    destruct (execute _ _ _ _ _ _) as [out evs]. by destruct (out.2 =? _).
  - unfold ExecuteWebhook. destruct (ex_hooks e !! name) as [hook|] eqn:Eh; [|by left]. destruct (hook_Enabled hook) eqn:En; cbn [negb]; [|by left].
    destruct (bool_decide (hook_Secret hook = [])) eqn:Es; cbn [negb andb].
    + right. exists hook, b, s, i. bools. split_and!; try done. by left.
    + destruct (signatureValid _ _ _) eqn:Ev; cbn [negb]; [|by left]. apply signatureValid_true in Ev as [_ Hsig].
      right. exists hook, b, s, i. split_and!; try done. by right.
  - unfold RunAction. destruct (Z.ltb_spec (ex_maxBodyBytes e) (Z.of_nat (List.length b))); [by left|].
    destruct (ex_actions e !! name) as [hook|] eqn:Eh; [|by left]. destruct (hook_Enabled hook) eqn:En; cbn [negb]; [|by left].
    right. exists hook, b, s, i. split_and!; try done. destruct (execute _ _ _ _ _ _) as [out evs]. by destruct (out.2 =? _).
Qed.

(** C14. Who may start what. Through any of the three entry points, an invocation
    either does nothing at all or is authorised: the hook is known and enabled; over
    HTTP the body is complete, within the limit and signed with the hook's non-empty
    secret; over the relay it is signed unless the hook has no secret; an action is in
    the action table and its body within the limit. Then there was a free slot; every
    command started is the hook's own, as [buildRunCommand] builds it, on exactly
    that body; exactly one record is audited (when auditing is on); and every
    temporary script made is removed. *)
Theorem webhook_authorised `{ExecEnv} e h name en : 0 <= ex_maxBodyBytes e ->
  invoke e h name en = [] \/
  exists hook body, authorises e name en hook body /\ (ex_taken e < ex_slots e)%nat /\
    (forall c stdin, EStart c stdin ∈ invoke e h name en ->
       stdin = body /\ exists command, c = command_of e hook command /\
         (hook_Script hook = false -> command = hook_Command hook)) /\
    List.length (audits (invoke e h name en)) = (if ex_audited e then 1%nat else 0%nat) /\
    (forall dir tmp, ECreateTemp dir tmp ∈ invoke e h name en -> ERemove tmp ∈ invoke e h name en).
Proof.
  intros Hmax. destruct (invoke_inv e h name en Hmax) as [->|(hook & body & source & invokedBy & Ha & Hfree & ->)]; [by left|].
  right. exists hook, body. split_and!; [done|done| | |].
  - intros c stdin. apply execute_starts.
  - rewrite execute_audits, (proj2 (Nat.ltb_lt _ _)) by done. by destruct (ex_audited e).
  - intros dir tmp Hc. by destruct (execute_removes e h hook body source invokedBy dir tmp Hc).
Qed.

(** ** What is captured of a command's output *)

Lemma outputLimit_pos : (0 < outputLimit)%nat.
Proof. apply Nat.ltb_lt. vm_compute. reflexivity. Qed.
(** A chunk begins below the limit and ends over it. *)
Definition crosses (limit : nat) (chunks : list str) : Prop :=
  exists pre p post, chunks = pre ++ p :: post /\ (List.length (concat pre) < limit < List.length (concat pre) + List.length p)%nat.

Lemma copy_output_spec limit chunks buf : (0 < limit)%nat -> (List.length buf <= limit)%nat ->
  let r := copy_output (mkLimitedBuffer buf limit) chunks in
  lb_buf r.1 = take limit (buf ++ concat chunks) /\
  (r.2 = true <-> exists pre p post, chunks = pre ++ p :: post /\
     (List.length (buf ++ concat pre) < limit < List.length (buf ++ concat pre) + List.length p)%nat).
Proof.
  intros Hpos. revert buf. induction chunks as [|p chunks IH]; intros buf Hlen.
  - cbn. rewrite app_nil_r, take_ge by lia. split; [done|]. split; [done|]. intros ([|? ?] & p & post & E & _); done.
  - cbn [copy_output concat]. unfold limitedBuffer_Write. cbn [lb_buf lb_limit].
    destruct (Nat.ltb_spec 0 limit); [cbn [andb]|lia]. destruct (Nat.ltb_spec (List.length buf) limit) as [Hb|Hb]; cbn [andb].
    + destruct (Nat.ltb_spec (limit - List.length buf) (List.length p)) as [Hp|Hp].
      * rewrite length_take. destruct (Nat.eqb_spec (Nat.min (limit - List.length buf) (List.length p)) (List.length p)); [lia|].
        cbn [fst snd lb_buf]. split.
        -- rewrite take_app_ge by lia. f_equal. rewrite take_app_le by lia. done.
        -- split; [intros _|done]. exists [], p, chunks. split; [done|]. cbn [concat]. rewrite app_nil_r. lia.
      * rewrite Nat.eqb_refl. destruct (IH (buf ++ p)) as [IH1 IH2]; [rewrite length_app; lia|]. rewrite <-(assoc_L (++)) in IH1.
        split; [exact IH1|]. rewrite IH2. split.
        -- intros (pre & q & post & -> & Hq). exists (p :: pre), q, post. split; [done|]. cbn [concat]. rewrite (assoc_L (++)). exact Hq.
        -- intros (pre & q & post & E & Hq). destruct pre as [|p' pre]; cbn [app] in E; injection E as -> ->.
           ++ cbn [concat] in Hq. rewrite app_nil_r in Hq. lia.
           ++ exists pre, q, post. split; [done|]. cbn [concat] in Hq. by rewrite (assoc_L (++)) in Hq.
    + rewrite Nat.eqb_refl. destruct (IH buf Hlen) as [IH1 IH2]. split.
      * rewrite IH1. rewrite !take_app_le by lia. done.
      * rewrite IH2. split; intros (pre & q & post & E & Hq); rewrite length_app in Hq; lia.
Qed.

(** What is captured of a command, and what is made of it. Each stream is kept
    up to its first 8192 bytes, however it is cut into chunks, and a command that
    fails is reported with its own failure. But a command that succeeds is reported as
    succeeding only if no chunk of its output crosses the limit: [limitedBuffer.Write]
    answers the truncated length, which the copy loop takes for a short write, so the
    run is answered 502 with exit code 0 and counted as a failure. *)
Theorem captured_output_exact h hook c body p : h_run h c body = p ->
  let r := (run_process h hook c body).1 in
  rs_Stdout r.1 = take outputLimit (concat (pr_stdout p)) /\ rs_Stderr r.1 = take outputLimit (concat (pr_stderr p)) /\
  (rs_OK r.1 = true <-> pr_exit p = None /\ ~ crosses outputLimit (pr_stdout p) /\ ~ crosses outputLimit (pr_stderr p)) /\
  (pr_exit p = None -> rs_ExitCode r.1 = 0) /\ (r.2 = StatusOK <-> rs_OK r.1 = true).
Proof.
  intros Hp. unfold run_process. rewrite Hp. unfold cmd_Run.
  destruct (copy_output_spec outputLimit (pr_stdout p) []) as [Ho1 Ho2]; [exact outputLimit_pos|apply Nat.le_0_l|].
  destruct (copy_output_spec outputLimit (pr_stderr p) []) as [He1 He2]; [exact outputLimit_pos|apply Nat.le_0_l|].
  destruct (copy_output _ (pr_stdout p)) as [out so]. destruct (copy_output _ (pr_stderr p)) as [err se].
  cbn [fst snd app] in *. fold (crosses outputLimit (pr_stdout p)) in Ho2. fold (crosses outputLimit (pr_stderr p)) in He2.
  destruct (pr_exit p) as [x|]; cbn [is_Some_b negb rs_Stdout rs_Stderr rs_OK rs_ExitCode].
  - split_and!; [done|done|by split; [done|intros [? _]]|done|]. by destruct (h_timed_out h).
  - destruct so, se; cbn [orb is_Some_b negb]; split_and!; try done; try (by destruct (h_timed_out h)); split; try done; naive_solver.
Qed.

(** ** A concrete hook *)
Definition deploy_hook : WebhookConfig :=
  mkWebhookConfig ($"deploy") ($"s3cret") ($"/opt/deploy.sh") [$"now"] true false false [] false [] ($"app") [$"A=1"] 0.
Definition demo_executor : WebhookExecutor :=
  let e := NewWebhookExecutor [deploy_hook] [] 30 1024 2 in
  mkExecutor (ex_hooks e) (ex_actions e) (ex_scriptTimeout e) (ex_maxBodyBytes e) 1 (ex_slots e) true.
#[local] Instance demo_env : ExecEnv := {
  hmac_hex secret body := secret ++ $":" ++ body;
  template_values _ := ∅;
  error_text _ := [];
}.
Definition long_output : process := mkProcess [replicate 8000 (ch "a"); replicate 200 (ch "b")] [] None.
Definition demo_host : host := mkHost (fun _ => Ok []) None (fun _ => Ok ($"/tmp/x")) None None None (fun _ _ => long_output) false.
Definition demo_request : entry := ViaHTTP (mkHTTPRequest ($"{}") false ($"s3cret:{} ") []).
Example deploy_runs : exists r, invoke demo_executor demo_host ($"deploy") demo_request =
  EStart (mkCommand [$"sudo"; $"-H"; $"-u"; $"app"; $"A=1"; $"/opt/deploy.sh"; $"now"] [] [] (Some 30)) ($"{}") :: r.
Proof. eexists. vm_compute. reflexivity. Qed.
Lemma webhook_authorised_witness :
  exists hook body, authorises demo_executor ($"deploy") demo_request hook body /\
    List.length (audits (invoke demo_executor demo_host ($"deploy") demo_request)) = 1%nat.
Proof.
  destruct (webhook_authorised demo_executor demo_host ($"deploy") demo_request) as [E|(hook & body & Ha & _ & _ & Hl & _)].
  - vm_compute. discriminate.
  - destruct deploy_runs as [r Hr]. rewrite Hr in E. discriminate E.
  - exists hook, body. split; [exact Ha|exact Hl].
Defined.
Lemma captured_output_exact_witness :
  let r := (run_process demo_host deploy_hook (mkCommand [] [] [] None) []).1 in
  rs_Stdout r.1 = take outputLimit (concat (pr_stdout long_output)) /\ rs_ExitCode r.1 = 0 /\ rs_OK r.1 = false.
Proof.
  destruct (captured_output_exact demo_host deploy_hook (mkCommand [] [] [] None) [] long_output eq_refl) as (H1 & _ & _ & H2 & _).
  split_and!; [exact H1|by apply H2|by vm_compute].
Defined.
