(* ===== verification/Slots.v ===== *)
(** * Slots: the concurrency slots under a configuration reload

    The slots of [internal/daemon/webhook.go] (acquireSlot, releaseSlot,
    SetMaxConcurrentRuns) and [ops.go] (the same two of nativeOpRunner) as a
    transition system. A slot is a token in a buffered channel; a reload replaces
    the channel. A webhook run takes and returns its token under [slotsMu], and may
    block on the channel while it holds that mutex; a native operation uses the
    channel without it. *)

From S2P Require Import Prelude.
Open Scope Z_scope.

(** The state of a run: a webhook run, one that has locked [slotsMu] to return its
    slot, a native run, and one about to receive from the channel it has read. *)
Inductive phase := WRun | WRel | NRun | NRel (ch : nat).
#[export] Instance phase_eq_dec : EqDecision phase.
Proof. solve_decision. Defined.
Record chan := mkChan { ch_tokens : nat; ch_cap : nat }.
Record slots_state := mkSlots { sl_cur : nat; sl_chans : list chan; sl_mutex : option nat; sl_runs : gmap nat phase }.

(** What can happen next; the number names a run. *)
Inductive label := AcquireW (t : nat) | LockW (t : nat) | ReceiveW (t : nat) | AcquireN (t : nat) | ReadN (t : nat) | ReceiveN (t : nat) | Swap (n : nat).
Definition is_native (l : label) : bool := match l with AcquireN _ | ReadN _ | ReceiveN _ => true | _ => false end.
Definition is_swap (l : label) : bool := match l with Swap _ => true | _ => false end.

(** [select { case slots <- struct{}{}: ... default: }] and [<-slots]; [None]: the
    first answers false, the second blocks. *)
Definition send (c : chan) : option chan :=
  if (ch_tokens c <? ch_cap c)%nat then Some (mkChan (S (ch_tokens c)) (ch_cap c)) else None.
Definition receive (c : chan) : option chan :=
  match ch_tokens c with O => None | S k => Some (mkChan k (ch_cap c)) end.
Definition on_chan (i : nat) (f : chan -> option chan) (s : slots_state) : option slots_state :=
  match sl_chans s !! i with
  | Some c =>
      match f c with
      | Some c => Some (mkSlots (sl_cur s) (<[i := c]> (sl_chans s)) (sl_mutex s) (sl_runs s))
      | None => None
      end
  | None => None
  end.
Definition set_runs (f : gmap nat phase -> gmap nat phase) (s : slots_state) : slots_state :=
  mkSlots (sl_cur s) (sl_chans s) (sl_mutex s) (f (sl_runs s)).
Definition set_mutex (m : option nat) (s : slots_state) : slots_state :=
  mkSlots (sl_cur s) (sl_chans s) m (sl_runs s).

Definition acquireSlot (start : phase) (t : nat) (s : slots_state) : option slots_state :=
  set_runs (<[t := start]>) <$> on_chan (sl_cur s) send s.
Definition SetMaxConcurrentRuns (n : nat) (s : slots_state) : slots_state :=
  mkSlots (List.length (sl_chans s)) (sl_chans s ++ [mkChan 0 n]) (sl_mutex s) (sl_runs s).

(** A step that is not possible yields [None]. *)
Definition step (l : label) (s : slots_state) : option slots_state :=
  match l with
  | AcquireW t =>
      match sl_runs s !! t, sl_mutex s with None, None => acquireSlot WRun t s | _, _ => None end
  | LockW t =>
      match sl_runs s !! t, sl_mutex s with
      | Some WRun, None => Some (set_mutex (Some t) (set_runs (<[t := WRel]>) s))
      | _, _ => None
      end
  | ReceiveW t =>
      match sl_runs s !! t with
      | Some WRel => (fun s => set_mutex None (set_runs (delete t) s)) <$> on_chan (sl_cur s) receive s
      | _ => None
      end
  | AcquireN t => match sl_runs s !! t with None => acquireSlot NRun t s | _ => None end
  | ReadN t => match sl_runs s !! t with Some NRun => Some (set_runs (<[t := NRel (sl_cur s)]>) s) | _ => None end
  | ReceiveN t =>
      match sl_runs s !! t with
      | Some (NRel ch) => set_runs (delete t) <$> on_chan ch receive s
      | _ => None
      end
  | Swap n => match sl_mutex s with None => Some (SetMaxConcurrentRuns n s) | Some _ => None end
  end.
Fixpoint steps (ls : list label) (s : slots_state) : option slots_state :=
  match ls with
  | [] => Some s
  | l :: ls => match step l s with Some s => steps ls s | None => None end
  end.
Definition start (n : nat) : slots_state := mkSlots 0 [mkChan 0 n] None ∅.

Example slots_ex : (fun s => (ch_tokens <$> sl_chans s, sl_runs s !! 1%nat)) <$>
  steps [AcquireW 1; AcquireN 2; LockW 1; ReceiveW 1; ReadN 2] (start 2) = Some ([1%nat], None).
Proof. vm_compute. reflexivity. Qed.

(** The run a step is one of; a replacement of the channel is none's. *)
Definition label_run (l : label) : option nat :=
  match l with AcquireW t | LockW t | ReceiveW t | AcquireN t | ReadN t | ReceiveN t => Some t | Swap _ => None end.
(** A native run that is about to give its slot back to a channel without a token. *)
Definition stranded (t : nat) (s : slots_state) : Prop :=
  exists i c, sl_runs s !! t = Some (NRel i) /\ sl_chans s !! i = Some c /\ ch_tokens c = 0%nat.
(** All the tokens, in whichever channel, and all the room there ever was. *)
Definition tokens (s : slots_state) : nat := sum_list_with ch_tokens (sl_chans s).
Definition room (s : slots_state) : nat := sum_list_with ch_cap (sl_chans s).

(** ** Whatever is reloaded *)

Lemma size_insert_None (m : gmap nat phase) t p : m !! t = None -> size (<[t := p]> m) = S (size m).
Proof. apply map_size_insert_None. Qed.
Lemma size_insert_Some (m : gmap nat phase) t p q : m !! t = Some q -> size (<[t := p]> m) = size m.
Proof. intros. by apply map_size_insert_Some. Qed.
Lemma size_delete_Some (m : gmap nat phase) t p : m !! t = Some p -> size m = S (size (delete t m)).
Proof.
  intros Ht. assert (Hs : is_Some (m !! t)) by (by exists p).
  rewrite (map_size_delete_Some _ _ Hs). apply map_size_ne_0_lookup_2 in Hs. lia.
Qed.
Lemma sum_insert {A} (f : A -> nat) (l : list A) i x y : l !! i = Some x -> (sum_list_with f (<[i := y]> l) + f x = sum_list_with f l + f y)%nat.
Proof.
  revert i. induction l as [|z l IH]; intros [|i] Hi; [done|done| |].
  - injection Hi as ->. cbn. lia.
  - specialize (IH i Hi). change (<[S i := y]> (z :: l)) with (z :: <[i := y]> l). cbn [sum_list_with]. lia.
Qed.
(** The tokens are those of the runs that hold a slot, and no channel is over its
    capacity, however often the channel was replaced. *)
Record slots_ok (s : slots_state) : Prop := {
  ok_tokens : tokens s = size (sl_runs s);
  ok_caps : Forall (fun c => (ch_tokens c <= ch_cap c)%nat) (sl_chans s);
  ok_cur : (sl_cur s < List.length (sl_chans s))%nat;
  ok_read : forall t i, sl_runs s !! t = Some (NRel i) -> (i < List.length (sl_chans s))%nat;
}.
Lemma start_ok n : slots_ok (start n).
Proof. split; cbn; [by rewrite map_size_empty|apply Forall_singleton, Nat.le_0_l|apply Nat.lt_0_1|intros t i; by rewrite lookup_empty]. Qed.
(** What the two channel operations do. *)
Lemma on_chan_inv f i s s' : on_chan i f s = Some s' ->
  exists c c', sl_chans s !! i = Some c /\ f c = Some c' /\ s' = mkSlots (sl_cur s) (<[i := c']> (sl_chans s)) (sl_mutex s) (sl_runs s).
Proof. unfold on_chan. destruct (sl_chans s !! i) as [c|]; [|done]. destruct (f c) as [c'|] eqn:E; [|done]. intros [= <-]. by exists c, c'. Qed.
Lemma slots_ok_send i s s' t p : slots_ok s -> on_chan i send s = Some s' -> sl_runs s !! t = None -> (forall j, p <> NRel j) -> slots_ok (set_runs (<[t := p]>) s').
Proof.
  intros [H1 H2 H3 H4] (c & c' & Hc & Hf & ->)%on_chan_inv Ht Hp. unfold send in Hf. destruct (Nat.ltb_spec (ch_tokens c) (ch_cap c)); [|done]. injection Hf as <-.
  split; cbn [set_runs sl_runs sl_chans sl_cur]; rewrite ?length_insert.
  - rewrite size_insert_None by done. unfold tokens in *. pose proof (sum_insert ch_tokens _ _ _ (mkChan (S (ch_tokens c)) (ch_cap c)) Hc) as E. cbn in *. lia.
  - apply Forall_insert; [done|]. cbn. lia.
  - done.
  - intros u j. destruct (decide (t = u)) as [->|]; [rewrite lookup_insert_eq; intros [= ?]; by destruct (Hp j)|]. rewrite lookup_insert_ne by done. apply H4.
Qed.
Lemma slots_ok_receive i s s' t p : slots_ok s -> on_chan i receive s = Some s' -> sl_runs s !! t = Some p -> slots_ok (set_runs (delete t) s').
Proof.
  intros [H1 H2 H3 H4] (c & c' & Hc & Hf & ->)%on_chan_inv Ht. unfold receive in Hf. destruct (ch_tokens c) as [|k] eqn:Ek; [done|]. injection Hf as <-.
  split; cbn [set_runs sl_runs sl_chans sl_cur]; rewrite ?length_insert.
  - rewrite (size_delete_Some _ _ _ Ht) in H1. unfold tokens in *. pose proof (sum_insert ch_tokens _ _ _ (mkChan k (ch_cap c)) Hc) as E. cbn in *. lia.
  - apply Forall_insert; [done|]. eapply Forall_lookup_1 in H2; [|exact Hc]. cbn in *. lia.
  - done.
  - intros u j [_ Hu]%lookup_delete_Some. by eapply H4.
Qed.
Lemma slots_ok_runs t p q s m : slots_ok s -> sl_runs s !! t = Some q -> (forall j, p = NRel j -> j = sl_cur s) -> slots_ok (set_mutex m (set_runs (<[t := p]>) s)).
Proof.
  intros [H1 H2 H3 H4] Ht Hp. split; cbn [set_mutex set_runs sl_runs sl_chans sl_cur]; [|done|done|].
  - rewrite (size_insert_Some _ _ _ _ Ht). exact H1.
  - intros u j. destruct (decide (t = u)) as [->|]; [rewrite lookup_insert_eq; intros [= Hj]; by rewrite (Hp j Hj)|]. rewrite lookup_insert_ne by done. apply H4.
Qed.
Lemma slots_ok_mutex m s : slots_ok s -> slots_ok (set_mutex m s).
Proof. by intros [? ? ? ?]. Qed.
Lemma slots_ok_step l s s' : slots_ok s -> step l s = Some s' -> slots_ok s' /\ (room s <= room s')%nat.
Proof.
  intros Hs Hl. assert (Hsame : forall f i s1, (forall c c', f c = Some c' -> ch_cap c' = ch_cap c) -> on_chan i f s = Some s1 -> room s1 = room s).
  { intros f i s1 Hf (c & c' & Hc & Hcc & ->)%on_chan_inv. unfold room. pose proof (sum_insert ch_cap _ _ _ c' Hc) as E. apply Hf in Hcc. cbn. lia. }
  assert (Hsend : forall c c', send c = Some c' -> ch_cap c' = ch_cap c) by (intros c c'; unfold send; case_match; [by intros [= <-]|done]).
  assert (Hrec : forall c c', receive c = Some c' -> ch_cap c' = ch_cap c) by (intros c c'; unfold receive; case_match; [done|by intros [= <-]]).
  destruct l as [t|t|t|t|t|t|n]; cbn [step] in Hl.
  - destruct (sl_runs s !! t) eqn:Et, (sl_mutex s); try done. unfold acquireSlot in Hl. destruct (on_chan _ _ _) as [s1|] eqn:E; [|done]. injection Hl as <-.
    split; [by eapply slots_ok_send|]. pose proof (Hsame _ _ _ Hsend E) as Hr. unfold room in *. cbn. lia.
  - destruct (sl_runs s !! t) as [[]|] eqn:Et, (sl_mutex s); try done. injection Hl as <-. split; [by eapply slots_ok_runs|done].
  - destruct (sl_runs s !! t) as [[]|] eqn:Et; try done. destruct (on_chan _ _ _) as [s1|] eqn:E; [|done]. injection Hl as <-.
    split; [by eapply slots_ok_mutex, slots_ok_receive|]. pose proof (Hsame _ _ _ Hrec E) as Hr. unfold room in *. cbn. lia.
  - destruct (sl_runs s !! t) eqn:Et; try done. unfold acquireSlot in Hl. destruct (on_chan _ _ _) as [s1|] eqn:E; [|done]. injection Hl as <-.
    split; [by eapply slots_ok_send|]. pose proof (Hsame _ _ _ Hsend E) as Hr. unfold room in *. cbn. lia.
  - destruct (sl_runs s !! t) as [[]|] eqn:Et; try done. injection Hl as <-. split; [|done].
    apply (slots_ok_runs t _ _ s (sl_mutex s) Hs Et). by intros j [= ->].
  - destruct (sl_runs s !! t) as [[]|] eqn:Et; try done. destruct (on_chan _ _ _) as [s1|] eqn:E; [|done]. injection Hl as <-.
    split; [by eapply slots_ok_receive|]. pose proof (Hsame _ _ _ Hrec E) as Hr. unfold room in *. cbn. lia.
  - destruct (sl_mutex s); [done|]. injection Hl as <-. destruct Hs as [H1 H2 H3 H4]. split.
    + split; cbn [SetMaxConcurrentRuns sl_runs sl_chans sl_cur]; rewrite ?length_app; cbn [List.length].
      * unfold tokens in *. cbn. rewrite sum_list_with_app. cbn. lia.
      * apply Forall_app. split; [done|]. apply Forall_singleton, Nat.le_0_l.
      * lia.
      * intros u j Hu. specialize (H4 u j Hu). lia.
    + unfold room. cbn. rewrite sum_list_with_app. lia.
Qed.
Lemma tokens_room s : slots_ok s -> (size (sl_runs s) <= room s)%nat.
Proof. intros [<- Hc _ _]. unfold tokens, room. induction Hc; cbn; lia. Qed.
(** A step is about its own run. *)
Lemma step_others l s s' t : step l s = Some s' -> label_run l <> Some t -> sl_runs s' !! t = sl_runs s !! t.
Proof.
  intros Hl Hne. assert (Hne' : forall u, label_run l = Some u -> u <> t) by (intros u Hu ->; by destruct Hne).
  assert (Hsame : forall f i s1, on_chan i f s = Some s1 -> sl_runs s1 = sl_runs s) by (by intros f i s1 (c & c' & _ & _ & ->)%on_chan_inv).
  destruct l as [u|u|u|u|u|u|n]; cbn [step] in Hl; try (specialize (Hne' u eq_refl)).
  - destruct (sl_runs s !! u), (sl_mutex s); try done. unfold acquireSlot in Hl. destruct (on_chan _ _ _) as [s1|] eqn:E; [|done]. injection Hl as <-. cbn. by rewrite lookup_insert_ne, (Hsame _ _ _ E).
  - destruct (sl_runs s !! u) as [[]|], (sl_mutex s); try done. injection Hl as <-. cbn. by rewrite lookup_insert_ne.
  - destruct (sl_runs s !! u) as [[]|]; try done. destruct (on_chan _ _ _) as [s1|] eqn:E; [|done]. injection Hl as <-. cbn. by rewrite lookup_delete_ne, (Hsame _ _ _ E).
  - destruct (sl_runs s !! u); try done. unfold acquireSlot in Hl. destruct (on_chan _ _ _) as [s1|] eqn:E; [|done]. injection Hl as <-. cbn. by rewrite lookup_insert_ne, (Hsame _ _ _ E).
  - destruct (sl_runs s !! u) as [[]|]; try done. injection Hl as <-. cbn. by rewrite lookup_insert_ne.
  - destruct (sl_runs s !! u) as [[]|]; try done. destruct (on_chan _ _ _) as [s1|] eqn:E; [|done]. injection Hl as <-. cbn. by rewrite lookup_delete_ne, (Hsame _ _ _ E).
  - destruct (sl_mutex s); [done|]. by injection Hl as <-.
Qed.
(** What the three steps of a native run do to it. *)
Lemma native_runs l s s' t : step l s = Some s' -> label_run l = Some t ->
  match l with
  | AcquireN _ => sl_runs s !! t = None /\ sl_runs s' !! t = Some NRun
  | ReadN _ => sl_runs s !! t = Some NRun /\ sl_runs s' !! t = Some (NRel (sl_cur s))
  | ReceiveN _ => (exists i, sl_runs s !! t = Some (NRel i)) /\ sl_runs s' !! t = None
  | _ => True
  end.
Proof.
  assert (Hsame : forall f i s1, on_chan i f s = Some s1 -> sl_runs s1 = sl_runs s) by (by intros f i s1 (c & c' & _ & _ & ->)%on_chan_inv).
  destruct l as [u|u|u|u|u|u|n]; cbn [step label_run]; try done; intros Hl [= ->].
  - destruct (sl_runs s !! t); try done. unfold acquireSlot in Hl. destruct (on_chan _ _ _) as [s1|] eqn:E; [|done]. injection Hl as <-. cbn. by rewrite lookup_insert_eq.
  - destruct (sl_runs s !! t) as [[]|]; try done. injection Hl as <-. cbn. by rewrite lookup_insert_eq.
  - destruct (sl_runs s !! t) as [[]|]; try done. destruct (on_chan _ _ _) as [s1|] eqn:E; [|done]. injection Hl as <-. cbn. rewrite lookup_delete_eq. by eauto.
Qed.
(** Giving a slot back: reading the channel is always possible, receiving from it
    unless it has no token. *)
Lemma read_possible t s : sl_runs s !! t = Some NRun -> is_Some (step (ReadN t) s).
Proof. intros Ht. cbn [step]. by rewrite Ht. Qed.
Lemma receive_possible t i s : slots_ok s -> sl_runs s !! t = Some (NRel i) -> is_Some (step (ReceiveN t) s) \/ stranded t s /\ step (ReceiveN t) s = None.
Proof.
  intros [_ _ _ Hr] Ht. cbn [step]. rewrite Ht. unfold on_chan, receive. pose proof (Hr t i Ht) as Hi. apply lookup_lt_is_Some in Hi as [c Hc]. rewrite Hc.
  destruct (ch_tokens c) as [|k] eqn:Ek; [right|left; by eexists]. split; [|done]. by exists i, c.
Qed.

(** ** Without a reload *)

Record balanced (n : nat) (s : slots_state) : Prop := {
  bal_cur : sl_cur s = 0%nat;
  bal_chan : sl_chans s = [mkChan (size (sl_runs s)) n];
  bal_cap : (size (sl_runs s) <= n)%nat;
  bal_mutex : forall t, sl_runs s !! t = Some WRel <-> sl_mutex s = Some t;
  bal_read : forall t ch, sl_runs s !! t = Some (NRel ch) -> ch = 0%nat;
}.
Lemma balanced_start n : balanced n (start n).
Proof.
  split; cbn [start sl_cur sl_chans sl_mutex sl_runs]; rewrite ?map_size_empty; [done|done|lia| |].
  - intros t. by rewrite lookup_empty.
  - intros t ch. by rewrite lookup_empty.
Qed.

Lemma balanced_acquire n p t s s' : balanced n s -> (p = WRun \/ p = NRun) -> sl_runs s !! t = None ->
  acquireSlot p t s = Some s' -> balanced n s'.
Proof.
  intros [Hc Hch Hcap Hm Hr] Hp Ht. unfold acquireSlot, on_chan, send. rewrite Hc, Hch. cbn [lookup list_lookup ch_tokens ch_cap].
  destruct (Nat.ltb_spec (size (sl_runs s)) n); [|done]. intros [= <-].
  split; cbn [set_runs sl_cur sl_chans sl_mutex sl_runs]; [done| | | |]; rewrite ?size_insert_None by done; [done|lia| |].
  - intros t'. rewrite <-Hm. destruct (decide (t = t')) as [->|]; [rewrite lookup_insert_eq|by rewrite lookup_insert_ne].
    rewrite Ht. split; [intros [= ->]; by destruct Hp|done].
  - intros t' ch. destruct (decide (t = t')) as [->|]; [rewrite lookup_insert_eq; intros [= ->]; by destruct Hp|].
    rewrite lookup_insert_ne by done. apply Hr.
Qed.
Lemma on_chan_receive n s t p : balanced n s -> sl_runs s !! t = Some p ->
  on_chan 0 receive s = Some (mkSlots (sl_cur s) [mkChan (size (delete t (sl_runs s))) n] (sl_mutex s) (sl_runs s)).
Proof.
  intros [Hc Hch Hcap Hm Hr] Ht. unfold on_chan, receive. rewrite Hch. cbn [lookup list_lookup ch_tokens ch_cap].
  by rewrite (size_delete_Some _ _ _ Ht).
Qed.
Lemma lookup_delete_phase (m : gmap nat phase) t t' p : delete t m !! t' = Some p <-> t' <> t /\ m !! t' = Some p.
Proof. rewrite lookup_delete_Some. naive_solver. Qed.

Lemma balanced_step n l s s' : is_swap l = false -> balanced n s -> step l s = Some s' -> balanced n s'.
Proof.
  intros Hl Hs. pose proof Hs as [Hc Hch Hcap Hm Hr]. destruct l as [t|t|t|t|t|t|k]; cbn [step]; [| | | | | |done].
  - destruct (sl_runs s !! t) eqn:Et, (sl_mutex s) eqn:Em; try done. by eapply balanced_acquire; eauto.
  - destruct (sl_runs s !! t) as [[]|] eqn:Et, (sl_mutex s) eqn:Em; try done. intros [= <-].
    split; cbn [set_runs set_mutex sl_cur sl_chans sl_mutex sl_runs]; rewrite ?(size_insert_Some _ _ _ _ Et); try done.
    + intros t'. destruct (decide (t = t')) as [->|]; [by rewrite lookup_insert_eq|]. rewrite lookup_insert_ne, Hm by done. naive_solver.
    + intros t' ch. destruct (decide (t = t')) as [->|]; [by rewrite lookup_insert_eq|]. rewrite lookup_insert_ne by done. apply Hr.
  - destruct (sl_runs s !! t) as [[]|] eqn:Et; try done. rewrite Hc, (on_chan_receive _ _ _ _ Hs Et). intros [= <-].
    split; cbn [set_runs set_mutex sl_cur sl_chans sl_mutex sl_runs]; [done|done| | |].
    + rewrite (size_delete_Some _ _ _ Et) in Hcap. lia.
    + intros t'. rewrite lookup_delete_phase, Hm. apply Hm in Et. naive_solver congruence.
    + intros t' ch [_ Hin]%lookup_delete_phase. by eapply Hr.
  - destruct (sl_runs s !! t) eqn:Et; try done. by eapply balanced_acquire; eauto.
  - destruct (sl_runs s !! t) as [[]|] eqn:Et; try done. intros [= <-].
    split; cbn [set_runs sl_cur sl_chans sl_mutex sl_runs]; rewrite ?(size_insert_Some _ _ _ _ Et); try done.
    + intros t'. rewrite <-Hm. destruct (decide (t = t')) as [->|]; [rewrite lookup_insert_eq|by rewrite lookup_insert_ne].
      rewrite Et. split; done.
    + intros t' ch. destruct (decide (t = t')) as [->|]; [rewrite lookup_insert_eq; by intros [= <-]|]. rewrite lookup_insert_ne by done. apply Hr.
  - destruct (sl_runs s !! t) as [[| | |ch]|] eqn:Et; try done. rewrite (Hr _ _ Et), (on_chan_receive _ _ _ _ Hs Et). intros [= <-].
    split; cbn [set_runs sl_cur sl_chans sl_mutex sl_runs]; [done|done| | |].
    + rewrite (size_delete_Some _ _ _ Et) in Hcap. lia.
    + intros t'. rewrite lookup_delete_phase, <-Hm. split; [naive_solver|]. intros E. split; [|done]. intros ->. congruence.
    + intros t' ch' [_ Hin]%lookup_delete_phase. by eapply Hr.
Qed.
Lemma balanced_steps n ls s s' : forallb (fun l => negb (is_swap l)) ls = true -> balanced n s -> steps ls s = Some s' -> balanced n s'.
Proof.
  revert s. induction ls as [|l ls IH]; intros s; cbn [steps forallb]; [by intros _ ? [= <-]|].
  intros [Hl Hls]%andb_true_iff Hs. apply negb_true_iff in Hl. destruct (step l s) as [s1|] eqn:E; [|done].
  apply IH; [done|]. by eapply balanced_step.
Qed.

(** ** After a reload *)

(** A webhook run holds the mutex over an empty channel. *)
Definition wedged (s : slots_state) : Prop :=
  exists t c, sl_mutex s = Some t /\ sl_runs s !! t = Some WRel /\
    (forall t', sl_runs s !! t' = Some WRel -> t' = t) /\ sl_chans s !! sl_cur s = Some c /\ ch_tokens c = 0%nat.
Lemma wedged_stuck s l : wedged s -> is_native l = false -> step l s = None.
Proof.
  intros (t & c & Hm & Ht & Huniq & Hc & H0) Hl. destruct l as [u|u|u|u|u|u|n]; cbn [step]; try done; rewrite ?Hm.
  - by destruct (sl_runs s !! u).
  - by destruct (sl_runs s !! u) as [[]|].
  - destruct (sl_runs s !! u) as [[]|]; try done. unfold on_chan, receive. by rewrite Hc, H0.
  - done.
Qed.

(** The slots. As long as the channel is not replaced, the tokens in it are the
    runs that hold a slot, never more than the limit, and returning one never
    blocks: a run that locked the mutex can always receive, and so can a native run.
    But a reload replaces the channel, and a run in flight then returns its slot to
    the new, empty one: it blocks while holding [slotsMu], after which no webhook or
    action can acquire a slot, no other run can return one and no reload can
    complete, until a native operation happens to put a token in the channel. *)
Theorem slots_exact n ls s : steps ls (start n) = Some s ->
  (forallb (fun l => negb (is_swap l)) ls = true ->
     sl_chans s = [mkChan (size (sl_runs s)) n] /\ (size (sl_runs s) <= n)%nat /\
     (forall t, sl_runs s !! t = Some WRel -> is_Some (step (ReceiveW t) s)) /\
     (forall t, sl_runs s !! t = Some WRun -> sl_mutex s = None -> is_Some (steps [LockW t; ReceiveW t] s)) /\
     (forall t, sl_runs s !! t = Some NRun -> is_Some (steps [ReadN t; ReceiveN t] s)) /\
     (forall t k s1, sl_runs s !! t = Some WRun -> steps [Swap k; LockW t] s = Some s1 ->
        forall l, is_native l = false -> step l s1 = None)).
Proof.
  intros Hsteps Hno. pose proof (balanced_steps n ls _ s Hno (balanced_start n) Hsteps) as Hs.
  pose proof Hs as [Hc Hch Hcap Hm Hr]. split_and!; [done|done| | | |].
  - intros t Ht. cbn [step]. rewrite Ht, Hc, (on_chan_receive _ _ _ _ Hs Ht). by eexists.
  - intros t Ht Hmu. cbn [steps step]. rewrite Ht, Hmu.
    set (s1 := set_mutex _ _). assert (Hs1 : balanced n s1).
    { eapply (balanced_step n (LockW t) s); [done|done|]. cbn [step]. by rewrite Ht, Hmu. }
    assert (Ht1 : sl_runs s1 !! t = Some WRel) by apply lookup_insert_eq.
    rewrite Ht1, (bal_cur _ _ Hs1), (on_chan_receive _ _ _ _ Hs1 Ht1). by eexists.
  - intros t Ht. cbn [steps step]. rewrite Ht.
    set (s1 := set_runs _ _). assert (Hs1 : balanced n s1).
    { eapply (balanced_step n (ReadN t) s); [done|done|]. cbn [step]. by rewrite Ht. }
    assert (Ht1 : sl_runs s1 !! t = Some (NRel (sl_cur s))) by apply lookup_insert_eq.
    rewrite Ht1, Hc, (on_chan_receive _ _ _ _ Hs1 Ht1). by eexists.
  - intros t k s1 Ht Hs1 l Hl. cbn [steps step] in Hs1. destruct (sl_mutex s) eqn:Em; [done|].
    cbn [SetMaxConcurrentRuns sl_runs sl_mutex] in Hs1. rewrite Ht, Em in Hs1. injection Hs1 as <-.
    apply wedged_stuck; [|done]. exists t, (mkChan 0 k). cbn [set_mutex set_runs SetMaxConcurrentRuns sl_mutex sl_runs sl_chans sl_cur].
    split_and!; [done|apply lookup_insert_eq| |by rewrite lookup_app_r, Nat.sub_diag by lia|done].
    intros t' Ht'. destruct (decide (t = t')) as [->|]; [done|]. rewrite lookup_insert_ne in Ht' by done.
    apply Hm in Ht'. congruence.
Qed.

Lemma slots_exact_witness :
  exists s, steps [AcquireW 1] (start 2) = Some s /\ sl_chans s = [mkChan 1 2] /\
    (forall s1, steps [Swap 4; LockW 1] s = Some s1 -> step (AcquireW 2) s1 = None).
Proof.
  eexists. split; [reflexivity|]. destruct (slots_exact 2 [AcquireW 1] _ eq_refl) as (H1 & _ & _ & _ & _ & H2); [reflexivity|].
  split; [exact H1|]. intros s1 Hs1. eapply H2; [|exact Hs1|]; reflexivity.
Defined.
