(* ===== verification/Ops.v ===== *)
(** * Ops: the native operations

    [internal/daemon/ops.go], with [composeTools] of compose_stacks.go and
    [elevationPrefix] of collectors.go: the validation of an operation's parameters,
    the compose identity of a container, the store a project lives in, the stages of
    a plan ([planNativeOp]) and the run of one stage ([runStage]). What the host
    answers (installed programs, the runtimes' listings) is the class [OpsHost]; a
    stage that is built during the run is asked again, on the host as it is then. *)

From S2P Require Import Prelude GoStr Regex GoPath PrivPackages PrivFirewall Config Files ImageRef AuditLog Executor.
Open Scope Z_scope.

(** ** Data *)

Record composeStore := mkComposeStore { cs_Runtime : str; cs_Path : str; cs_Elevated : bool }.
Record containerInspect := mkContainerInspect { ci_ImageRef : str; ci_Labels : gmap str str; ci_Elevated : bool }.
Record projectContainer := mkProjectContainer {
  pc_id : str; pc_name : str; pc_image : str; pc_state : str; pc_status : str; pc_project : str; pc_service : str;
}.
Record composeStack := mkComposeStack { st_Project : str; st_Directory : str; st_Files : list str; st_Services : list str; st_ScannedAt : Z }.

(** What the host answers: the probed runtimes, whether the daemon runs as root, the
    programs of its path, [inspect], whether [sudo -n] runs a program, the containers
    a store lists, the image a container runs and the one a reference resolves to;
    and Unicode case folding. *)
Class OpsHost := {
  oh_runtimes : gmap str str;
  oh_root : bool;
  LookPath : str -> option str;
  inspectContainer : str -> str -> res containerInspect;
  sudo_version : str -> bool;
  store_listing : composeStore -> res (list projectContainer);
  store_running : composeStore -> str -> option str;
  store_image : composeStore -> str -> option str;
  EqualFold : str -> str -> bool;
}.

Record opAttempt := mkAttempt { at_command : str; at_args : list str; at_cwd : str; at_env : list str }.
Definition attempt (argv : list str) : opAttempt := mkAttempt (default [] (head argv)) (tail argv) [] [].
Record opStage := mkStage {
  sg_label : str;
  sg_attempts : list opAttempt;
  sg_build : option (OpsHost -> res (list opAttempt));
  sg_idle : str;
}.
Record nativeOpPlan := mkPlan { pl_stages : list opStage; pl_target : str; pl_timeout : Z }.
Record opParams := mkOpParams {
  op_target : str; op_pid : Z; op_force : bool; op_directory : str; op_name : str;
  op_port : str; op_protocol : str; op_source : str; op_ruleAction : str;
}.
Record opPrivPolicy := mkOpPrivPolicy {
  pp_helper : str; pp_runner : privRunner; pp_systemd : bool; pp_packages : bool; pp_firewall : bool;
}.
(** The runner: its timeout, how it reaches root, and the managed stacks by the key
    of their project ([None]: no registry). *)
Record nativeOpRunner := mkRunner {
  nr_scriptTimeout : Z;
  nr_priv : option opPrivPolicy;
  nr_stacks : option (gmap str composeStack);
}.
Record opFailure := mkOpFailure { of_status : Z; of_error : error }.

Definition slowOpTimeout : Z := 5 * 60 * 1000000000.

(** ** Patterns and tables *)

(** [^[A-Za-z0-9][A-Za-z0-9_.:-]*$] *)
Definition nativeContainerRefPattern : regex :=
  RCat (cls [rng "A" "Z"; rng "a" "z"; rng "0" "9"]) (RStar (tag_class "_.:-")).
(** [^[A-Za-z0-9:._@][A-Za-z0-9:._@\-]*\.service$] *)
Definition nativeSystemdUnitPattern : regex :=
  RCat (tag_class ":._@") (RCat (RStar (tag_class ":._@-")) (lit ".service")).
(** [^[a-zA-Z0-9][a-zA-Z0-9_.-]*$] *)
Definition nativeProjectPattern : regex :=
  RCat (cls [rng "A" "Z"; rng "a" "z"; rng "0" "9"]) (RStar (tag_class "_.-")).
(** [^/[a-zA-Z0-9_./-]+$] *)
Definition nativeDirectoryPattern : regex :=
  RCat (lit "/") (RCat (tag_class "_./-") (RStar (tag_class "_./-"))).

Definition nativeContainerVerbs : gmap str str :=
  list_to_map [($"start", $"start"); ($"stop", $"stop"); ($"restart", $"restart"); ($"pause", $"pause");
    ($"unpause", $"unpause"); ($"kill", $"kill"); ($"remove", $"rm")].
Definition nativeSystemdVerbs : gmap str str :=
  list_to_map ((fun v => (v, v)) <$> [$"start"; $"stop"; $"restart"; $"reload"; $"enable"; $"disable"]).
Definition nativeComposeVerbs : gmap str str :=
  list_to_map [($"up", $"up -d"); ($"stop", $"stop"); ($"restart", $"restart"); ($"pull", $"pull");
    ($"recreate", $"up -d --force-recreate")].
(** [strings.Fields] of a text whose only white space is spaces. *)
Definition Fields (s : str) : list str := filter (fun w => w <> []) (split_on (ch " ") s).
Definition isNativeOpSlug (name : str) : bool := bool_decide (name ∈ NativeOpNames).
Definition taskNativeOp (slug : str) : bool :=
  bool_decide (slug ∈ [$"container.pull"; $"container.update"; $"compose.pull"; $"compose.update"; $"compose.recreate"]).
Definition nativeOpVerb (slug : str) : str := match cut (ch ".") slug with Some (_, verb) => verb | None => slug end.
Definition validNativeDirectory (value : str) : bool :=
  negb (bool_decide (value = [])) && negb (Contains value ($"..")) && matches nativeDirectoryPattern value.
Definition normalizeProtocol `{Unicode} (value : str) : str :=
  let value := ToLower (TrimSpace value) in if bool_decide (value = []) then $"any" else value.
Definition normalizeSource (value : str) : str :=
  let value := TrimSpace value in if bool_decide (value = []) then $"any" else value.

(** ** Reaching root *)

Definition elevationPrefix `{OpsHost} : option (list str) :=
  if oh_root then None else match LookPath ($"sudo") with Some _ => Some [$"sudo"; $"-n"] | None => None end.
Definition elevationAttempt `{OpsHost} (path : str) (args : list str) : option (list str) :=
  match elevationPrefix with Some prefix => Some (prefix ++ path :: args) | None => None end.
(** nativeOpRunner.sudoAttempt is the same question. *)
Definition sudoAttempt `{OpsHost} : option (list str) := elevationPrefix.
Definition sudoRuns `{OpsHost} (command : str) : bool :=
  match elevationPrefix with Some _ => sudo_version command | None => false end.

(** A routed operation: the attempt that runs it through the helper. *)
Definition helperAttempt (policy : option opPrivPolicy) (routed : opPrivPolicy -> bool) (args : list str) : option opAttempt :=
  match policy with
  | Some p => if routed p then Some (attempt (privRunner_argv (pp_runner p) (pp_helper p) args)) else None
  | None => None
  end.
Definition systemdHelperAttempt (r : nativeOpRunner) (verb unit : str) : option opAttempt :=
  helperAttempt (nr_priv r) pp_systemd [$"systemd"; verb; unit].
Definition packageHelperAttempt (r : nativeOpRunner) (verb name : str) : option opAttempt :=
  helperAttempt (nr_priv r) pp_packages ([$"packages"; verb] ++ if bool_decide (name = []) then [] else [name]).
Definition rule_verb (verb : str) : bool := bool_decide (verb ∈ [$"allow"; $"deny"; $"delete"]).
Definition firewallHelperAttempt `{Unicode} (r : nativeOpRunner) (verb : str) (params : opParams) : option opAttempt :=
  helperAttempt (nr_priv r) pp_firewall
    ([$"firewall"; verb] ++
     if rule_verb verb then
       (if bool_decide (verb = $"delete") then [op_ruleAction params] else []) ++
       [op_port params; normalizeProtocol (op_protocol params); normalizeSource (op_source params)]
     else []).

Definition detectPackageManager `{OpsHost} : option str :=
  List.find (fun manager =>
    match PackageCommand manager ($"refresh") [] with
    | Ok (name :: _) => is_Some_b (LookPath name)
    | _ => false
    end) PackageManagerPreference.
Definition detectFirewallBackend `{OpsHost} : option str :=
  List.find (fun backend => is_Some_b (LookPath (FirewallBinaryFor backend))) FirewallBackendPreference.

(** ** Compose identity *)

Record opContainerResolution := mkResolution { rz_store : composeStore; rz_ImageRef : str; rz_Labels : gmap str str }.
Fixpoint resolve_on `{OpsHost} (names : list str) (target : str) (lastErr : option error) : res opContainerResolution :=
  match names with
  | [] =>
      match lastErr with
      | Some e => Err (Errorf "resolve container %s: %w" [FStr target; FErr e])
      | None => Err (Errorf "no container runtime available" [])
      end
  | runtime :: names =>
      match oh_runtimes !! runtime with
      | None => resolve_on names target lastErr
      | Some path =>
          match inspectContainer path target with
          | Err e => resolve_on names target (Some e)
          | Ok info =>
              if bool_decide (ci_ImageRef info = []) then Err (Errorf "container %s records no image reference" [FStr target])
              else Ok (mkResolution (mkComposeStore runtime path (ci_Elevated info)) (ci_ImageRef info) (ci_Labels info))
          end
      end
  end.
Definition runtimeOrder : list str := [$"podman"; $"docker"].
Definition resolveOpContainer `{OpsHost} (target : str) : res opContainerResolution := resolve_on runtimeOrder target None.

Record composeUpdateTarget := mkTarget { ct_Project : str; ct_Service : str; ct_Directory : str; ct_Files : list str }.
Definition validComposeLabelPath (value : str) : bool :=
  negb (ContainsAny value [byte 0; byte 10; byte 13]) && negb (bool_decide ($".." ∈ split_on slash value)).
Definition validComposeLabelDirectory (value : str) : bool :=
  negb (bool_decide (value = [])) && IsAbs value && validComposeLabelPath value.
Definition validComposeLabelFile (value : str) : bool := negb (bool_decide (value = [])) && validComposeLabelPath value.
Definition resolveComposeFile (directory file : str) : option str :=
  if IsAbs file then Some file else if bool_decide (directory = []) then None else Some (Join [directory; file]).
Definition composeLabel (labels : gmap str str) (key : str) : str :=
  let get prefix := TrimSpace (default [] (labels !! (prefix ++ key))) in
  let docker := get ($"com.docker.compose.") in
  if bool_decide (docker = []) then get ($"io.podman.compose.") else docker.
Definition composeUpdateTargetFromLabels (labels : gmap str str) : res composeUpdateTarget :=
  let project := composeLabel labels ($"project") in
  let service := composeLabel labels ($"service") in
  if bool_decide (project = []) || bool_decide (service = []) then Err (Errorf "the container is not compose-managed" [])
  else if negb (matches nativeProjectPattern project) || negb (matches nativeProjectPattern service) then
    Err (Errorf "the container's compose labels name an invalid project or service" [])
  else
    let directory := composeLabel labels ($"project.working_dir") in
    Ok (mkTarget project service (if validComposeLabelDirectory directory then directory else [])
          (filter (fun file => validComposeLabelFile file = true)
             (TrimSpace <$> split_on (ch ",") (composeLabel labels ($"project.config_files"))))).

Definition composeStack_of `{Unicode} (r : nativeOpRunner) (project : str) : option composeStack :=
  match nr_stacks r with Some stacks => stacks !! ToLower (TrimSpace project) | None => None end.
Definition composeTargetDirectory `{Unicode} (r : nativeOpRunner) (target : composeUpdateTarget) : res composeUpdateTarget :=
  if negb (bool_decide (ct_Directory target = [])) then Ok target
  else
    match composeStack_of r (ct_Project target) with
    | None => Err (Errorf "the container's compose labels record no usable working directory, and project %q is not a stack this daemon manages — run a compose scan to assign it" [FStr (ct_Project target)])
    | Some stack =>
        Ok (mkTarget (ct_Project target) (ct_Service target) (st_Directory stack)
              (if bool_decide (ct_Files target = []) then st_Files stack else ct_Files target))
    end.
Definition composeDirectory `{Unicode} (r : nativeOpRunner) (project directory : str) : res (str * list str) :=
  if negb (bool_decide (directory = [])) then
    if negb (validNativeDirectory directory) then Err (Errorf "invalid compose directory" []) else Ok (directory, [])
  else
    match composeStack_of r project with
    | None => Err (Errorf "project %q is not a stack this daemon manages; run a compose scan to assign it, or send the directory" [FStr project])
    | Some stack => Ok (st_Directory stack, st_Files stack)
    end.

(** ** Stores *)

Definition composeStores `{OpsHost} : list composeStore :=
  concat ((fun runtime =>
    match oh_runtimes !! runtime with
    | Some path =>
        mkComposeStore runtime path false ::
        (if is_Some_b (elevationAttempt path []) then [mkComposeStore runtime path true] else [])
    | None => []
    end) <$> runtimeOrder).
(** A store's listing, kept to the project's containers; root's store needs sudo. *)
Definition storeProjectContainerFacts `{OpsHost} (store : composeStore) (project : str) : res (list projectContainer) :=
  if cs_Elevated store && negb (is_Some_b (elevationAttempt (cs_Path store) [])) then
    Err (Errorf "root's store is out of reach for this daemon: `%s` is not installed" [FStr ($"sudo")])
  else
    let? listed := store_listing store in
    Ok (filter (fun c => EqualFold (pc_project c) project = true) listed).
Definition describe (s : composeStore) : str :=
  cs_Runtime s ++ if cs_Elevated s then $" in root's store" else $" in the daemon user's own store".
Definition summarizeContainers (containers : list projectContainer) : str :=
  let one c := (if bool_decide (pc_name c = []) then take 12 (pc_id c) else pc_name c) ++ $" (" ++
                 (if bool_decide (pc_state c = []) then $"unknown" else pc_state c) ++ $")" in
  join ($", ") ((one <$> take 4 containers) ++
    if (4 <? List.length containers)%nat then [$"and " ++ fmt_d (Z.of_nat (List.length containers - 4)) ++ $" more"] else []).

Fixpoint find_stores `{OpsHost} (stores : list composeStore) (project : str) : res (list (composeStore * list projectContainer)) :=
  match stores with
  | [] => Ok []
  | store :: stores =>
      match storeProjectContainerFacts store project with
      | Err e =>
          if cs_Elevated store && sudoRuns (cs_Path store) then
            Err (Errorf "cannot read %s (%v), and a project that might be there must not be written a second time" [FStr (describe store); FErr e])
          else find_stores stores project
      | Ok containers =>
          let? found := find_stores stores project in
          Ok (if bool_decide (containers = []) then found else (store, containers) :: found)
      end
  end.
Definition composeProjectStores `{OpsHost} (project : str) : res (list (composeStore * list projectContainer)) :=
  find_stores composeStores project.
Definition composeProjectStore `{OpsHost} (project : str) (fallback : option composeStore) : res composeStore :=
  let? found := composeProjectStores project in
  match found with
  | [presence] => Ok presence.1
  | _ :: _ :: _ =>
      Err (Errorf "project %q exists in more than one store (%s); this daemon will not choose between them — remove the copy you do not want, then try again"
             [FStr project; FStr (join ($"; ") ((fun p => describe p.1 ++ $": " ++ summarizeContainers p.2) <$> found))])
  | [] =>
      match fallback with
      | Some store => Ok store
      | None =>
          match List.find (fun runtime => is_Some_b (oh_runtimes !! runtime)) runtimeOrder with
          | Some runtime => Ok (mkComposeStore runtime (default [] (oh_runtimes !! runtime)) false)
          | None => Err (Errorf "no container runtime available" [])
          end
      end
  end.

(** ** Attempts *)

Record composeTool := mkTool { tl_command : str; tl_prefix : list str }.
Definition runtimeName `{Unicode} (path : str) : str :=
  let name := ToLower (Base path) in
  if Contains name ($"podman") then $"podman" else if Contains name ($"docker") then $"docker" else [].
Definition composeToolName `{Unicode} (path : str) : str :=
  if bool_decide (runtimeName path = $"podman") then $"podman-compose"
  else if bool_decide (runtimeName path = $"docker") then $"docker-compose" else [].
Definition standaloneComposePath `{Unicode} `{OpsHost} (path : str) : str :=
  let name := composeToolName path in if bool_decide (name = []) then [] else default [] (LookPath name).
Definition composeTools `{Unicode} `{OpsHost} (path : str) : list composeTool :=
  let runtimeTool := mkTool path [$"compose"] in
  let standalone := standaloneComposePath path in
  if bool_decide (standalone = []) then [runtimeTool]
  else
    let direct := mkTool standalone [] in
    if bool_decide (composeToolName path = $"podman-compose") then [direct; runtimeTool] else [runtimeTool; direct].

Definition compose_argv (tool : composeTool) (target : composeUpdateTarget) (files args : list str) : list str :=
  tl_prefix tool ++ [$"-p"; ct_Project target] ++ concat ((fun file => [$"-f"; file]) <$> files) ++ args.
(** The tools in order; in root's store it ends at the first that sudo may not run. *)
Fixpoint tool_attempts `{OpsHost} (tools : list composeTool) (store : composeStore) (target : composeUpdateTarget)
    (files args : list str) (attempts : list opAttempt) : res (list opAttempt) :=
  match tools with
  | [] => Ok attempts
  | tool :: tools =>
      let inner := compose_argv tool target files args in
      if negb (cs_Elevated store) then
        tool_attempts tools store target files args (attempts ++ [mkAttempt (tl_command tool) inner (ct_Directory target) []])
      else if negb (sudoRuns (tl_command tool)) then
        if bool_decide (attempts <> []) then Ok attempts
        else Err (Errorf "project %q lives in %s, and the compose tool that runs there — %s — may not be run through `sudo -n` on this host; grant it (for example `maidcafe ALL=(root) NOPASSWD: %s` in a file under /etc/sudoers.d/) or run the step yourself as root"
                    [FStr (ct_Project target); FStr (describe store); FStr (tl_command tool); FStr (tl_command tool)])
      else
        tool_attempts tools store target files args
          (attempts ++ [mkAttempt ($"sudo") ([$"-n"; tl_command tool] ++ inner) (ct_Directory target) []])
  end.
Definition composeAttempts `{Unicode} `{OpsHost} (store : composeStore) (target : composeUpdateTarget) (args : list str) : res (list opAttempt) :=
  tool_attempts (composeTools (cs_Path store)) store target (omap (resolveComposeFile (ct_Directory target)) (ct_Files target)) args [].
Definition runtimePullAttempts `{OpsHost} (store : composeStore) (imageRef : str) : res (list opAttempt) :=
  if negb (cs_Elevated store) then Ok [mkAttempt (cs_Path store) [$"pull"; imageRef] [] []]
  else if negb (sudoRuns (cs_Path store)) then
    Err (Errorf "the container lives in %s, and `sudo -n` may not run %s on this host; grant it (for example `maidcafe ALL=(root) NOPASSWD: %s` in a file under /etc/sudoers.d/) or pull the image yourself"
           [FStr (describe store); FStr (cs_Path store); FStr (cs_Path store)])
  else Ok [mkAttempt ($"sudo") [$"-n"; cs_Path store; $"pull"; imageRef] [] []].

(** A container is behind unless it runs the image its reference points at now: one
    that went away is skipped, one whose reference resolves to nothing counts as behind. *)
Definition is_behind `{OpsHost} (store : composeStore) (c : projectContainer) : bool :=
  match store_running store (pc_id c) with
  | None => false
  | Some running =>
      let wanted := TrimSpace (default [] (store_image store (pc_image c))) in
      negb (negb (bool_decide (wanted = [])) && bool_decide (TrimSpace running = wanted) && bool_decide (pc_state c = $"running"))
  end.
Definition storeProjectContainersBehind `{OpsHost} (store : composeStore) (project : str) : res (list projectContainer * bool) :=
  let? containers := storeProjectContainerFacts store project in
  if bool_decide (containers = []) then Ok ([], false)
  else Ok (filter (fun c => is_behind store c = true) containers, true).

Fixpoint dedup_services (services seen : list str) : list str :=
  match services with
  | [] => []
  | s :: services => if bool_decide (s ∈ seen) then dedup_services services seen else s :: dedup_services services (s :: seen)
  end.
Definition recreate_args : list str := [$"up"; $"-d"; $"--force-recreate"].
Definition composeUpdateRecreate `{Unicode} `{OpsHost} (store : composeStore) (target : composeUpdateTarget) : res (list opAttempt) :=
  let wholeProject := composeAttempts store target recreate_args in
  let? (behind, present) := storeProjectContainersBehind store (ct_Project target) in
  if negb present then wholeProject
  else if bool_decide ([] ∈ pc_service <$> behind) then wholeProject
  else
    let services := dedup_services (pc_service <$> behind) [] in
    if bool_decide (services = []) then Ok []
    else composeAttempts store target (recreate_args ++ services).

(** ** Plans *)

Definition planned : Type := nativeOpPlan + opFailure.
Definition bad (e : error) : planned := inr (mkOpFailure StatusBadRequest e).
Definition on_ok {A} (r : res A) (k : A -> planned) : planned := match r with Ok a => k a | Err e => bad e end.
Notation "'plan?' x ':=' r 'in' k" := (on_ok r (fun x => k))
  (at level 10, x pattern, r at level 100, k at level 200, format "'[' 'plan?'  x  ':='  r  'in' ']' '/' k") : go_scope.
Definition message (m : string) : error := Errorf m [].

(** The end of the function: a single stage named after the verb, or a refusal. *)
Definition single_stage (slug target : str) (timeout : Z) (attempts : list opAttempt) : planned :=
  if bool_decide (attempts = []) then inr (mkOpFailure StatusBadGateway (message "no container runtime available"))
  else inl (mkPlan [mkStage (nativeOpVerb slug) attempts None []] target timeout).
Definition stage_of (label : str) (attempts : list opAttempt) : opStage := mkStage label attempts None [].
(** A direct attempt and its elevated variant. *)
Definition with_sudo `{OpsHost} (argv env : list str) : list opAttempt :=
  mkAttempt (default [] (head argv)) (tail argv) [] env ::
  match sudoAttempt with
  | Some sudo => let argv := sudo ++ argv in [mkAttempt (default [] (head argv)) (tail argv) [] env]
  | None => []
  end.
Definition at_least_slow (timeout : Z) : Z := if timeout <? slowOpTimeout then slowOpTimeout else timeout.

Section plan.
Context `{Unicode} `{OpsHost} (r : nativeOpRunner) (slug : str) (params : opParams).
Definition timeout : Z := nr_scriptTimeout r.
Definition verb_of (family : str) : str := TrimPrefix slug family.

Definition plan_image : planned :=
  if negb (matches nativeContainerRefPattern (op_target params)) then bad (message "invalid container reference")
  else
    match resolveOpContainer (op_target params) with
    | Err e => inr (mkOpFailure StatusBadGateway e)
    | Ok resolved =>
        match parseImageReference (rz_ImageRef resolved) with
        | Err e => bad (Errorf "container image reference is unusable: %v" [FErr e])
        | Ok _ =>
            if bool_decide (slug = $"container.pull") then
              plan? attempts := runtimePullAttempts (rz_store resolved) (rz_ImageRef resolved) in
              single_stage slug (rz_ImageRef resolved) (at_least_slow timeout) attempts
            else
              match (let? compose := composeUpdateTargetFromLabels (rz_Labels resolved) in composeTargetDirectory r compose) with
              | Err e =>
                  bad (Errorf "%s (runtime %s); the daemon recreates only compose-managed containers whose project it can find — pull the image with container.pull and recreate this one on the host" [FErr e; FStr (cs_Runtime (rz_store resolved))])
              | Ok compose =>
                  plan? store := composeProjectStore (ct_Project compose) (Some (rz_store resolved)) in
                  plan? pull := composeAttempts store compose [$"pull"; ct_Service compose] in
                  plan? recreate := composeAttempts store compose (recreate_args ++ [ct_Service compose]) in
                  inl (mkPlan [stage_of ($"pull") pull; stage_of ($"recreate") recreate] (op_target params) (at_least_slow timeout))
              end
        end
    end.

Definition plan_container : planned :=
  let verb := verb_of ($"container.") in
  match nativeContainerVerbs !! verb with
  | None => bad (message "unknown container action")
  | Some cliVerb =>
      if negb (matches nativeContainerRefPattern (op_target params)) then bad (message "invalid container reference")
      else
        let args := cliVerb :: (if bool_decide (verb = $"remove") && op_force params then [$"-f"] else []) ++ [op_target params] in
        let attempts := concat ((fun runtime =>
          match oh_runtimes !! runtime with
          | Some path => attempt (path :: args) :: match elevationAttempt path args with Some argv => [attempt argv] | None => [] end
          | None => []
          end) <$> runtimeOrder) in
        single_stage slug (op_target params) timeout attempts
  end.

Definition plan_process : planned :=
  if op_pid params <=? 1 then bad (message "invalid process id")
  else
    let pid := fmt_d (op_pid params) in
    single_stage slug pid timeout (with_sudo [$"kill"; $"-s"; $"KILL"; $"--"; pid] []).

Definition plan_systemd : planned :=
  let verb := verb_of ($"systemd.") in
  match nativeSystemdVerbs !! verb with
  | None => bad (message "unknown systemd action")
  | Some _ =>
      let unit := TrimSpace (op_target params) in
      let unit := if negb (bool_decide (unit = [])) && negb (Contains unit ($".")) then unit ++ $".service" else unit in
      if negb (matches nativeSystemdUnitPattern unit) then bad (message "invalid systemd unit")
      else
        match systemdHelperAttempt r verb unit with
        | Some routed => single_stage slug unit timeout [routed]
        | None => single_stage slug unit timeout (with_sudo [$"systemctl"; verb; unit] [])
        end
  end.

Definition plan_package : planned :=
  let verb := verb_of ($"package.") in
  if negb (ValidPackageVerb verb) then bad (message "unknown package action")
  else
    let name := TrimSpace (op_name params) in
    let named := bool_decide (verb = $"install") || bool_decide (verb = $"remove") in
    if named && negb (ValidPackageName name) then bad (message "invalid package name")
    else if negb named && negb (bool_decide (name = [])) then bad (message "this package action takes no package name")
    else
      let target := if bool_decide (name = []) then verb else name in
      match packageHelperAttempt r verb name with
      | Some routed => single_stage slug target timeout [routed]
      | None =>
          match detectPackageManager with
          | None => bad (message "no package manager is installed on this host")
          | Some manager =>
              match PackageCommand manager verb name with
              | Err _ => bad (message "invalid package action")
              | Ok argv =>
                  single_stage slug target timeout
                    match LookPath (default [] (head argv)) with
                    | Some path => with_sudo (path :: tail argv) (PackageEnv manager)
                    | None => []
                    end
              end
          end
      end.

(** One command after the other, each with its elevated variant. *)
Fixpoint firewall_attempts (commands : list (list str)) : res (list opAttempt) :=
  match commands with
  | [] => Ok []
  | argv :: commands =>
      match LookPath (default [] (head argv)) with
      | None => Err (Errorf "%s is not installed on this host" [FStr (default [] (head argv))])
      | Some path => let? rest := firewall_attempts commands in Ok (with_sudo (path :: tail argv) [] ++ rest)
      end
  end.
Definition plan_firewall : planned :=
  let verb := verb_of ($"firewall.") in
  if negb (ValidFirewallVerb verb) then bad (message "unknown firewall action")
  else
    let parsed :=
      if rule_verb verb then
        let action := if bool_decide (verb = $"delete") then TrimSpace (op_ruleAction params) else verb in
        let? rule := ParseFirewallRule action (op_port params) (op_protocol params) (op_source params) in
        Ok (rule, FirewallRule_String rule)
      else Ok (mkFirewallRule [] [] [] [], verb) in
    plan? (rule, target) := parsed in
    match firewallHelperAttempt r verb params with
    | Some routed => single_stage slug target timeout [routed]
    | None =>
        match detectFirewallBackend with
        | None => bad (message "no supported firewall is installed on this host")
        | Some backend =>
            plan? commands := FirewallCommand backend verb rule in
            plan? attempts := firewall_attempts commands in
            single_stage slug target timeout attempts
        end
    end.

Definition plan_compose : planned :=
  let verb := verb_of ($"compose.") in
  if negb (matches nativeProjectPattern (op_target params)) then bad (message "invalid compose project")
  else
    plan? (directory, files) := composeDirectory r (op_target params) (op_directory params) in
    let compose := mkTarget (op_target params) [] directory files in
    plan? store := composeProjectStore (op_target params) None in
    if bool_decide (verb = $"update") then
      plan? pull := composeAttempts store compose [$"pull"] in
      inl (mkPlan [stage_of ($"pull") pull;
                   mkStage ($"recreate") [] (Some (fun later => @composeUpdateRecreate _ later store compose))
                     ($"every container of project " ++ Quote (op_target params) ++ $" already runs the image its reference points at; nothing to recreate")]
             (op_target params) (at_least_slow timeout))
    else
      match nativeComposeVerbs !! verb with
      | None => bad (message "unknown compose action")
      | Some cliArgs =>
          plan? attempts := composeAttempts store compose (Fields cliArgs) in
          single_stage slug (op_target params) (at_least_slow timeout) attempts
      end.

Definition planNativeOp : planned :=
  if bool_decide (slug = $"container.pull") || bool_decide (slug = $"container.update") then plan_image
  else if HasPrefix slug ($"container.") then plan_container
  else if bool_decide (slug = $"process.kill") then plan_process
  else if HasPrefix slug ($"systemd.") then plan_systemd
  else if HasPrefix slug ($"package.") then plan_package
  else if HasPrefix slug ($"firewall.") then plan_firewall
  else if HasPrefix slug ($"compose.") then plan_compose
  else bad (message "unknown operation").
End plan.

(** ** Running a stage *)

(** One attempt: its output and exit code, and the error of [cmd.Run]. *)
Definition runOpOnce (p : process) : str * str * Z * option run_error :=
  let '(stdout, stderr, err) := cmd_Run p in
  (stdout, stderr, match err with Some (ExitError code) => code | _ => 0 end, err).

(** What a stage answers, and which of its attempts were made. *)
Record stage_result := mkStageResult {
  sr_Stdout : str; sr_Stderr : str; sr_ExitCode : Z; sr_err : option run_error; sr_made : list opAttempt;
}.
(** [exec i t] is what the [i]-th attempt of the run does and whether the deadline
    has passed after it. The first failure is the one reported. *)
Fixpoint run_attempts (exec : nat -> opAttempt -> process * bool) (i : nat) (attempts : list opAttempt) (primary : stage_result) : stage_result :=
  match attempts with
  | [] => primary
  | t :: attempts =>
      let '(p, late) := exec i t in
      let '(stdout, stderr, code, err) := runOpOnce p in
      let made := sr_made primary ++ [t] in
      match err with
      | None => mkStageResult stdout stderr 0 None made
      | Some e =>
          let primary := match sr_err primary with
                         | None => mkStageResult stdout stderr code (Some e) made
                         | Some _ => mkStageResult (sr_Stdout primary) (sr_Stderr primary) (sr_ExitCode primary) (sr_err primary) made
                         end in
          if late then primary else run_attempts exec (S i) attempts primary
      end
  end.
Definition runStage (exec : nat -> opAttempt -> process * bool) (i : nat) (attempts : list opAttempt) : stage_result :=
  run_attempts exec i attempts (mkStageResult [] [] 0 None []).

(** Joining the outputs of the stages. *)
Definition appendStageOutput (builder next : str) : str :=
  if bool_decide (next = []) then builder
  else if bool_decide (builder = []) then next else builder ++ newline :: next.
