(* ===== verification/OpsFacts.v ===== *)
(** * OpsFacts: what the native operations may run

    No caller can slip an option into a planned command, nor into what the helper is
    handed ([plan_arguments_safe]; [recreate_label] shows the step it excludes); a
    compose step stays in the store of its project ([compose_one_store]); and what the
    alternatives of a stage mean for the several commands of a firewall rule
    ([firewalld_never_applied]). *)

From S2P Require Import Prelude GoStr Regex GoPath GoMatch PrivPackages PrivFirewall Config Files ImageRef Executor Ops.
Open Scope Z_scope.

(** ** Arguments *)

Definition no_dash (a : str) : Prop := head a <> Some (ch "-").
#[export] Instance no_dash_dec a : Decision (no_dash a).
Proof. unfold no_dash. apply _. Defined.
(** The options the daemon itself writes. *)
Definition constant_options : list str :=
  [$"-n"; $"-f"; $"-s"; $"--"; $"-p"; $"-d"; $"--force-recreate"; $"-y"; $"--noconfirm"; $"-Sy"; $"-Syu"; $"-S"; $"-R";
   $"--non-interactive"; $"-yu"; $"--permanent"; $"--reload"; $"--force"].
Definition firewall_option (a : str) : Prop :=
  exists flag v, flag ∈ [$"--add-port="; $"--remove-port="; $"--add-rich-rule="; $"--remove-rich-rule="] /\
    a = flag ++ v /\ option_value v.
(** An argument that is no option, or one of the daemon's own. *)
Definition safe_arg (a : str) : Prop := no_dash a \/ a ∈ constant_options \/ firewall_option a.
Definition safe_attempt (t : opAttempt) : Prop := no_dash (at_command t) /\ Forall safe_arg (at_args t).

(** The host answers absolute paths; the registry holds absolute directories. *)
Record host_ok (h : OpsHost) : Prop := {
  host_runtimes : forall name path, @oh_runtimes h !! name = Some path -> IsAbs path = true;
  host_paths : forall name path, @LookPath h name = Some path -> IsAbs path = true;
}.
Definition stacks_ok (r : nativeOpRunner) : Prop :=
  forall stacks key stack, nr_stacks r = Some stacks -> stacks !! key = Some stack -> IsAbs (st_Directory stack) = true.

Lemma safe_no_dash a : no_dash a -> safe_arg a.
Proof. by left. Qed.
Lemma safe_constant a : bool_decide (a ∈ constant_options \/ no_dash a) = true -> safe_arg a.
Proof. intros [H|H]%bool_decide_eq_true; [right; by left|by left]. Qed.
Lemma abs_no_dash p : IsAbs p = true -> no_dash p.
Proof. intros [q ->]%IsAbs_spec. by vm_compute. Qed.
Lemma pattern_no_dash r s : first_in (fun c => negb (bool_decide (c = ch "-"))) r = true -> matches r s = true -> no_dash s.
Proof.
  intros Hf Hm. destruct s as [|c s]; [done|]. intros [= ->].
  pose proof (matches_first _ _ _ _ Hf Hm) as Hc. by vm_compute in Hc.
Qed.
Lemma container_no_dash s : matches nativeContainerRefPattern s = true -> no_dash s.
Proof. apply pattern_no_dash. by vm_compute. Qed.
Lemma project_no_dash s : matches nativeProjectPattern s = true -> no_dash s.
Proof. apply pattern_no_dash. by vm_compute. Qed.
Lemma unit_no_dash s : matches nativeSystemdUnitPattern s = true -> no_dash s.
Proof. apply pattern_no_dash. by vm_compute. Qed.
Lemma package_no_dash s : ValidPackageName s = true -> no_dash s.
Proof. intros Hv%ValidPackageName_bytes. by destruct Hv as (_ & _ & ? & _). Qed.
Definition is_slash (c : ascii) : bool := bool_decide (c = slash).
Lemma directory_abs s : validNativeDirectory s = true -> IsAbs s = true.
Proof.
  unfold validNativeDirectory. intros [_ Hm]%andb_true_iff. apply IsAbs_spec.
  destruct s as [|c s]; [by vm_compute in Hm|]. exists s. f_equal.
  assert (Hc : is_slash c = true) by (eapply matches_first; [|exact Hm]; by vm_compute).
  by apply bool_decide_eq_true in Hc.
Qed.
Lemma argument_safe a : argument_ok a -> safe_arg a.
Proof.
  intros [Hf|[Ho|Ho]]; [|left; apply Ho|by right; right].
  apply safe_constant. revert a Hf. apply Forall_forall. apply Forall_forallb. by vm_compute.
Qed.
Lemma decimal_no_dash n : 0 < n -> no_dash (fmt_d n).
Proof.
  intros Hn. unfold fmt_d. rewrite (proj2 (Z.ltb_ge _ _)) by lia. generalize 20%nat. intros fuel. revert n Hn.
  assert (Hd : forall d, 0 <= d < 10 -> byte (48 + Z.to_nat d) <> ch "-").
  { intros d Hd E. apply (f_equal code) in E. rewrite code_byte in E by lia. vm_compute in E. lia. }
  induction fuel as [|fuel IH]; intros n Hn; [done|]. cbn [decimal_digits].
  destruct (Z.ltb_spec n 10) as [Hl|Hl].
  - intros [= E]. apply (Hd (n mod 10)); [apply Z.mod_pos_bound; lia|done].
  - specialize (IH (n / 10) ltac:(apply Z.div_str_pos; lia)). unfold no_dash in *.
    destruct (decimal_digits fuel (n / 10)) as [|c l] eqn:E; cbn [app head] in *; [|done].
    intros [= E']. apply (Hd (n mod 10)); [apply Z.mod_pos_bound; lia|done].
Qed.
Lemma Join_abs d f : IsAbs d = true -> IsAbs (Join [d; f]) = true.
Proof.
  intros [q ->]%IsAbs_spec. cbn [Join]. rewrite bool_decide_false by done.
  destruct (Clean_abs (join [slash] [slash :: q; f])) as (l & -> & _); [by apply IsAbs_spec; eexists|apply IsAbs_abs].
Qed.
Lemma TrimRightSpace_prefix s : exists k, s = TrimRightSpace s ++ k.
Proof.
  unfold TrimRightSpace. destruct (strip_suffix trail trail_suffix (List.length s) (rev s)) as [k Hk].
  exists (rev k). by rewrite <-rev_app_distr, <-Hk, rev_involutive.
Qed.
(** A leading dash survives the trimming. *)
Lemma TrimSpace_dash s : TrimSpace (ch "-" :: s) = [] \/ exists t, TrimSpace (ch "-" :: s) = ch "-" :: t.
Proof.
  unfold TrimSpace. assert (EL : TrimLeftSpace (ch "-" :: s) = ch "-" :: s) by (unfold TrimLeftSpace; by destruct s as [|b [|c s]]).
  rewrite EL. destruct (TrimRightSpace_prefix (ch "-" :: s)) as [k Hk].
  destruct (TrimRightSpace (ch "-" :: s)) as [|c t]; [by left|]. right. injection Hk as <- _. by exists t.
Qed.
Lemma trimmed_no_dash s : TrimSpace s <> [] -> no_dash (TrimSpace s) -> no_dash s.
Proof.
  intros Hne Hd. destruct s as [|c s]; [done|]. intros E0. apply Some_inj in E0. subst c. destruct (TrimSpace_dash s) as [E|[t E]]; [done|]. by rewrite E in Hd.
Qed.
(** An accepted image reference is passed on as it was written. *)
Lemma image_no_dash raw r : parseImageReference raw = Ok r -> no_dash raw.
Proof.
  unfold parseImageReference. destruct raw as [|c s]; [done|]. intros Hp E0. apply Some_inj in E0. subst c. cbv zeta in Hp.
  destruct (TrimSpace_dash s) as [E|[t E]]; rewrite E in Hp; [done|].
  replace (HasPrefix (ch "-" :: t) ($"-")) with true in Hp by (symmetry; apply HasPrefix_spec; by exists t).
  by destruct (bool_decide (ch "-" :: t = [])).
Qed.
Lemma operand_no_dash s : operand_ok s -> no_dash s.
Proof. by intros (_ & _ & ?). Qed.
Lemma lowered_no_dash `{Unicode} s : (forall s, no_dash (unicode_ToLower s) -> no_dash s) -> no_dash (ToLower s) -> no_dash s.
Proof.
  intros Hl. unfold ToLower. destruct (forallb is_ascii s); [|apply Hl]. destruct s as [|c s]; [done|].
  cbn [fmap list_fmap head]. intros Hd [= ->]. by vm_compute in Hd.
Qed.
(** What a parsed rule says of the fields it was parsed from. *)
Lemma ParseFirewallRule_fields `{Unicode} action port protocol source rule : ParseFirewallRule action port protocol source = Ok rule ->
  fr_Action rule = ToLower (TrimSpace action) /\ fr_Port rule = TrimSpace port /\
  fr_Protocol rule = normalizeProtocol protocol /\ fr_Source rule = normalizeSource source.
Proof.
  unfold ParseFirewallRule. cbv zeta. cbn [fr_Action fr_Port fr_Protocol fr_Source]. do 5 (destruct (_ : bool) in |- * at 1; [done|]).
  by intros <-%Ok_inj.
Qed.

(** ** Attempts *)

Ltac safe_words := repeat (apply Forall_cons; split; [by apply safe_constant; vm_compute|]).
Lemma attempt_safe argv : argv <> [] -> no_dash (default [] (head argv)) -> Forall safe_arg (tail argv) -> safe_attempt (attempt argv).
Proof. intros. by split. Qed.
Lemma elevated_safe `{OpsHost} path args argv : no_dash path -> Forall safe_arg args -> elevationAttempt path args = Some argv -> safe_attempt (attempt argv).
Proof.
  intros Hp Ha. unfold elevationAttempt, elevationPrefix. destruct oh_root; [done|]. destruct (LookPath _); [|done].
  intros [= <-]. split; [by vm_compute|]. cbn [attempt at_args tail app]. safe_words. apply Forall_cons. split; [by left|done].
Qed.
Lemma with_sudo_safe `{OpsHost} argv env : argv <> [] -> no_dash (default [] (head argv)) -> Forall safe_arg (tail argv) ->
  Forall safe_attempt (with_sudo argv env).
Proof.
  intros Hne Hh Ht. unfold with_sudo. apply Forall_cons. split; [by split|].
  unfold sudoAttempt, elevationPrefix. destruct oh_root; [constructor|]. destruct (LookPath _); [|constructor].
  apply Forall_cons. split; [|constructor]. split; [by vm_compute|]. cbn [at_args tail app]. safe_words.
  destruct argv as [|a argv]; [done|]. apply Forall_cons. split; [by left|done].
Qed.

(** *** Compose *)
Record target_ok (t : composeUpdateTarget) : Prop := {
  target_project : no_dash (ct_Project t);
  target_directory : IsAbs (ct_Directory t) = true;
}.
Lemma files_safe t : target_ok t -> Forall (fun f => IsAbs f = true) (omap (resolveComposeFile (ct_Directory t)) (ct_Files t)).
Proof.
  intros Ht. apply Forall_forall. intros f Hf. apply list_elem_of_omap in Hf as (file & _ & Hr). unfold resolveComposeFile in Hr.
  destruct (IsAbs file) eqn:E; [by injection Hr as <-|]. destruct (bool_decide _); [done|]. injection Hr as <-.
  apply Join_abs, Ht.
Qed.
Lemma compose_argv_safe tool t files args : target_ok t -> Forall safe_arg (tl_prefix tool) ->
  Forall (fun f => IsAbs f = true) files -> Forall safe_arg args -> Forall safe_arg (compose_argv tool t files args).
Proof.
  intros Ht Hp Hf Ha. unfold compose_argv. rewrite !Forall_app. split_and!; [done| | |done].
  - safe_words. apply Forall_cons. split; [|constructor]. left. apply Ht.
  - induction Hf as [|f files Hf _ IH]; [constructor|]. cbn [fmap list_fmap concat app]. safe_words.
    apply Forall_cons. split; [by left; apply abs_no_dash|done].
Qed.
(** Where an attempt runs: root's store through [sudo -n], the daemon user's directly. *)
Definition in_store (store : composeStore) (command : str) (t : opAttempt) : Prop :=
  if cs_Elevated store then at_command t = $"sudo" /\ exists args, at_args t = [$"-n"; command] ++ args
  else at_command t = command.
Definition tool_safe (tool : composeTool) : Prop := no_dash (tl_command tool) /\ Forall safe_arg (tl_prefix tool).
(** An attempt of a compose step: a safe command, safe arguments, then the step's own. *)
Definition compose_shape (args : list str) (x : opAttempt) : Prop :=
  no_dash (at_command x) /\ exists pre, at_args x = pre ++ args /\ Forall safe_arg pre.
Lemma compose_argv_shape tool t files args : tool_safe tool -> target_ok t -> Forall (fun f => IsAbs f = true) files ->
  exists pre, compose_argv tool t files args = pre ++ args /\ Forall safe_arg pre.
Proof.
  intros [_ Hp] Ht Hf. exists (compose_argv tool t files []). split; [|by apply compose_argv_safe].
  unfold compose_argv. by rewrite app_nil_r, !(assoc_L (++)).
Qed.
Lemma tool_attempts_ok `{OpsHost} tools store t files args acc attempts :
  tool_attempts tools store t files args acc = Ok attempts ->
  exists new, attempts = acc ++ new /\
    (Forall tool_safe tools -> target_ok t -> Forall (fun f => IsAbs f = true) files -> Forall (compose_shape args) new) /\
    Forall (fun x => exists tool, tool ∈ tools /\ in_store store (tl_command tool) x /\ at_cwd x = ct_Directory t) new.
Proof.
  revert acc. induction tools as [|tool tools IH]; intros acc; cbn [tool_attempts].
  - intros [= <-]. exists []. rewrite app_nil_r. split_and!; try done; constructor.
  - assert (Hmono : forall new, Forall (fun x => exists t', t' ∈ tools /\ in_store store (tl_command t') x /\ at_cwd x = ct_Directory t) new ->
      Forall (fun x => exists t', t' ∈ tool :: tools /\ in_store store (tl_command t') x /\ at_cwd x = ct_Directory t) new).
    { intros new Hn. eapply Forall_impl; [exact Hn|]. intros x (t' & ? & ?). exists t'. split; [by constructor|done]. }
    destruct (cs_Elevated store) eqn:Ee; cbn [negb].
    + destruct (sudoRuns (tl_command tool)); cbn [negb].
      * intros Hr. apply IH in Hr as (new & -> & Hs & Hi). eexists (_ :: new). split_and!; [by rewrite <-(assoc_L (++))| |].
        -- intros [Ht1 Hts]%Forall_cons Ht Hf. apply Forall_cons. split; [|by apply Hs]. split; [by vm_compute|]. cbn [at_args].
           destruct (compose_argv_shape tool t files args Ht1 Ht Hf) as (pre & -> & Hp). exists ($"-n" :: tl_command tool :: pre).
           split; [done|]. safe_words. apply Forall_cons. split; [left; apply Ht1|done].
        -- apply Forall_cons. split; [|by apply Hmono]. exists tool. split_and!; [constructor| |done].
           unfold in_store. rewrite Ee. split; [done|]. by eexists.
      * destruct (bool_decide _); [|done]. intros [= <-]. exists []. rewrite app_nil_r. split_and!; try done; constructor.
    + intros Hr. apply IH in Hr as (new & -> & Hs & Hi). eexists (_ :: new). split_and!; [by rewrite <-(assoc_L (++))| |].
      * intros [Ht1 Hts]%Forall_cons Ht Hf. apply Forall_cons. split; [|by apply Hs]. split; [apply Ht1|]. by apply compose_argv_shape.
      * apply Forall_cons. split; [|by apply Hmono]. exists tool. split_and!; [constructor| |done].
        unfold in_store. by rewrite Ee.
Qed.
Lemma composeTools_safe `{Unicode} (h : OpsHost) path : host_ok h -> no_dash path -> Forall tool_safe (composeTools path).
Proof.
  intros Hh Hp. unfold composeTools. assert (Hr : tool_safe (mkTool path [$"compose"])).
  { split; [done|]. cbn. safe_words. constructor. }
  destruct (bool_decide (standaloneComposePath path = [])) eqn:E; [by apply Forall_singleton|].
  assert (Hd : tool_safe (mkTool (standaloneComposePath path) [])).
  { split; [|constructor]. cbn [tl_command]. unfold standaloneComposePath in *. destruct (bool_decide (composeToolName path = [])); [done|].
    destruct (LookPath (composeToolName path)) as [p|] eqn:El; [|done]. cbn. by eapply abs_no_dash, host_paths. }
  destruct (bool_decide (composeToolName path = _)); by rewrite Forall_cons, Forall_singleton.
Qed.

(** What a compose step is: its arguments, and the store it runs in. *)
Lemma composeAttempts_ok `{Unicode} (h : OpsHost) store t args attempts :
  composeAttempts store t args = Ok attempts ->
  (host_ok h -> no_dash (cs_Path store) -> target_ok t -> Forall (compose_shape args) attempts) /\
  Forall (fun x => exists tool, tool ∈ composeTools (cs_Path store) /\ in_store store (tl_command tool) x /\ at_cwd x = ct_Directory t) attempts.
Proof.
  unfold composeAttempts. intros Ha. apply tool_attempts_ok in Ha as (new & -> & Hs & Hi). split; [|exact Hi].
  intros Hh Hp Ht. apply Hs; try done; [by apply composeTools_safe|by apply files_safe].
Qed.
Lemma compose_safe `{Unicode} (h : OpsHost) store t args attempts : host_ok h -> no_dash (cs_Path store) -> target_ok t ->
  Forall safe_arg args -> composeAttempts store t args = Ok attempts -> Forall safe_attempt attempts.
Proof.
  intros Hh Hp Ht Hargs Ha. destruct (composeAttempts_ok h _ _ _ _ Ha) as [Hs _]. eapply Forall_impl; [by apply Hs|].
  intros x [Hc (pre & E & Hpre)]. split; [done|]. rewrite E. by apply Forall_app.
Qed.

Lemma composeProjectStore_path (h : OpsHost) project fallback store : host_ok h ->
  (forall s, fallback = Some s -> no_dash (cs_Path s)) -> composeProjectStore project fallback = Ok store -> no_dash (cs_Path store).
Proof.
  intros Hh Hf. unfold composeProjectStore. destruct (composeProjectStores project) as [found|] eqn:Ef; [|done]. cbn [res_bind].
  assert (Hs : Forall (fun p => no_dash (cs_Path p.1)) found).
  { unfold composeProjectStores in Ef. assert (Hall : Forall (fun s => no_dash (cs_Path s)) composeStores).
    { unfold composeStores. apply Forall_concat, Forall_fmap, Forall_forall. intros runtime _. cbn.
      destruct (oh_runtimes !! runtime) as [path|] eqn:Er; [|constructor].
      assert (no_dash path) by (by eapply abs_no_dash, host_runtimes).
      destruct (is_Some_b _); repeat (apply Forall_cons; split; [done|]); constructor. }
    revert found Ef. induction Hall as [|s stores Hs _ IH]; intros found; cbn [find_stores]; [by intros [= <-]|].
    destruct (storeProjectContainerFacts s project) as [cs|]; [|destruct (_ && _); [done|apply IH]].
    destruct (find_stores stores project) as [rest|]; [|done]. cbn [res_bind]. intros [= <-].
    destruct (bool_decide _); [by apply IH|]. apply Forall_cons. split; [done|by apply IH]. }
  destruct found as [|p [|p' found]]; [| |done].
  - destruct fallback as [s|]; [intros [= <-]; by apply Hf|]. destruct (List.find _ _) as [runtime|] eqn:El; [|done].
    intros [= <-]. cbn [cs_Path]. apply find_some in El as [_ El]. destruct (oh_runtimes !! runtime) as [path|] eqn:Er; [|done].
    by eapply abs_no_dash, host_runtimes.
  - intros [= <-]. by apply Forall_cons in Hs as [? _].
Qed.
Lemma resolve_path (h : OpsHost) target resolved : host_ok h -> resolveOpContainer target = Ok resolved -> no_dash (cs_Path (rz_store resolved)).
Proof.
  intros Hh. unfold resolveOpContainer. generalize (@None error) as e. generalize runtimeOrder as names.
  induction names as [|name names IH]; intros e; cbn [resolve_on]; [by destruct e|].
  destruct (oh_runtimes !! name) as [path|] eqn:Er; [|apply IH]. destruct (inspectContainer path target) as [info|]; [|apply IH].
  destruct (bool_decide _); [done|]. intros [= <-]. cbn. by eapply abs_no_dash, host_runtimes.
Qed.
Lemma labels_target `{Unicode} r labels t t' : stacks_ok r -> composeUpdateTargetFromLabels labels = Ok t -> composeTargetDirectory r t = Ok t' ->
  target_ok t' /\ no_dash (ct_Service t').
Proof.
  intros Hst. unfold composeUpdateTargetFromLabels. destruct (_ || _); [done|]. destruct (_ || _) eqn:Em; [done|]. bools.
  intros [= <-]. unfold composeTargetDirectory. cbn [ct_Directory ct_Project ct_Service ct_Files].
  destruct (validComposeLabelDirectory _) eqn:Ev.
  - unfold validComposeLabelDirectory in Ev. bools. rewrite bool_decide_false by done. cbn [negb]. intros [= <-].
    split; [split|]; cbn; [by apply project_no_dash|done|by apply project_no_dash].
  - rewrite bool_decide_true by done. cbn [negb]. destruct (composeStack_of r _) as [stack|] eqn:Es; [|done]. intros [= <-].
    split; [split|]; cbn; [by apply project_no_dash| |by apply project_no_dash].
    unfold composeStack_of in Es. destruct (nr_stacks r) as [stacks|] eqn:En; [|done]. by eapply Hst.
Qed.
Lemma directory_target `{Unicode} r project directory d files : stacks_ok r -> composeDirectory r project directory = Ok (d, files) -> IsAbs d = true.
Proof.
  intros Hst. unfold composeDirectory. destruct (bool_decide (directory = [])); cbn [negb].
  - destruct (composeStack_of r project) as [stack|] eqn:Es; [|done]. intros [= <- _].
    unfold composeStack_of in Es. destruct (nr_stacks r) as [stacks|] eqn:En; [|done]. by eapply Hst.
  - destruct (validNativeDirectory directory) eqn:Ev; [|done]. cbn [negb]. intros [= <- _]. by apply directory_abs.
Qed.

(** ** Plans *)

(** The family of the slug is routed through the helper. *)
Definition routed (r : nativeOpRunner) (slug : str) : option opPrivPolicy :=
  match nr_priv r with
  | Some p =>
      if HasPrefix slug ($"systemd.") && pp_systemd p || HasPrefix slug ($"package.") && pp_packages p
         || HasPrefix slug ($"firewall.") && pp_firewall p then Some p else None
  | None => None
  end.
(** The service name a listed container of the project is labelled with, as it is. *)
Definition service_label (h : OpsHost) (project a : str) : Prop :=
  exists store listed c, @store_listing h store = Ok listed /\ c ∈ listed /\
    @EqualFold h (pc_project c) project = true /\ a = pc_service c.
(** An attempt of the recreate step built during a stack update: everything up to
    [up -d --force-recreate] is safe, the service labels follow. *)
Definition recreate_shape (h : OpsHost) (project : str) (x : opAttempt) : Prop :=
  no_dash (at_command x) /\
  exists pre labels, at_args x = pre ++ recreate_args ++ labels /\ Forall safe_arg pre /\ Forall (service_label h project) labels.
Definition stage_ok (project : str) (stage : opStage) : Prop :=
  Forall safe_attempt (sg_attempts stage) /\
  forall build, sg_build stage = Some build -> forall later attempts, host_ok later -> build later = Ok attempts ->
    Forall (recreate_shape later project) attempts.
(** The unit a systemd operation names. *)
Definition unit_name (target : str) : str :=
  let unit := TrimSpace target in
  if negb (bool_decide (unit = [])) && negb (Contains unit ($".")) then unit ++ $".service" else unit.
(** The rule a firewall operation carries. *)
Definition rule_of `{Unicode} (verb : str) (params : opParams) : res FirewallRule :=
  ParseFirewallRule (if bool_decide (verb = $"delete") then TrimSpace (op_ruleAction params) else verb)
    (op_port params) (op_protocol params) (op_source params).
(** What the helper is handed: the family, a verb of its table, and checked operands. *)
Inductive helper_args `{Unicode} (slug : str) (params : opParams) : list str -> Prop :=
  | systemd_args verb :
      slug = $"systemd." ++ verb -> is_Some (nativeSystemdVerbs !! verb) ->
      matches nativeSystemdUnitPattern (unit_name (op_target params)) = true ->
      helper_args slug params [$"systemd"; verb; unit_name (op_target params)]
  | package_named_args verb :
      slug = $"package." ++ verb -> verb ∈ [$"install"; $"remove"] -> ValidPackageName (TrimSpace (op_name params)) = true ->
      helper_args slug params [$"packages"; verb; TrimSpace (op_name params)]
  | package_args verb :
      slug = $"package." ++ verb -> verb ∈ [$"refresh"; $"upgrade"] -> helper_args slug params [$"packages"; verb]
  | firewall_toggle_args verb :
      slug = $"firewall." ++ verb -> verb ∈ [$"enable"; $"disable"] -> helper_args slug params [$"firewall"; verb]
  | firewall_rule_args verb rule :
      slug = $"firewall." ++ verb -> verb ∈ [$"allow"; $"deny"] -> rule_of verb params = Ok rule -> rule_ok rule ->
      helper_args slug params [$"firewall"; verb; op_port params; fr_Protocol rule; fr_Source rule]
  | firewall_delete_args rule :
      slug = $"firewall.delete" -> rule_of ($"delete") params = Ok rule -> rule_ok rule ->
      helper_args slug params [$"firewall"; $"delete"; op_ruleAction params; op_port params; fr_Protocol rule; fr_Source rule].
(** The only attempt is the helper's, with those arguments and none of them an option. *)
Definition helper_only `{Unicode} (slug : str) (params : opParams) (p : opPrivPolicy) (stages : list opStage) : Prop :=
  exists args, stages = [mkStage (nativeOpVerb slug) [attempt (privRunner_argv (pp_runner p) (pp_helper p) args)] None []] /\
    helper_args slug params args /\ Forall no_dash args.
Definition known_slug (slug : str) : Prop := slug ∈ $"compose.update" :: NativeOpNames.
Definition stages_good `{Unicode} (r : nativeOpRunner) (slug : str) (params : opParams) (stages : list opStage) : Prop :=
  match routed r slug with
  | Some p => helper_only slug params p stages
  | None => Forall (stage_ok (op_target params)) stages
  end.
Definition plan_good `{Unicode} (r : nativeOpRunner) (slug : str) (params : opParams) (plan : nativeOpPlan) : Prop :=
  known_slug slug /\ stages_good r slug params (pl_stages plan).

Lemma single_stage_inv slug target timeout attempts plan : single_stage slug target timeout attempts = inl plan ->
  pl_stages plan = [mkStage (nativeOpVerb slug) attempts None []].
Proof. unfold single_stage. destruct (bool_decide _); [done|]. by intros [= <-]. Qed.
Lemma on_ok_inl {A} (x : res A) k plan : on_ok x k = inl plan -> exists a, x = Ok a /\ k a = inl plan.
Proof. destruct x as [a|e]; cbn; [by exists a|done]. Qed.
Lemma stage_of_ok project label attempts : Forall safe_attempt attempts -> stage_ok project (mkStage label attempts None []).
Proof. by split. Qed.
Lemma single_good project slug target timeout attempts plan : single_stage slug target timeout attempts = inl plan ->
  Forall safe_attempt attempts -> Forall (stage_ok project) (pl_stages plan).
Proof. intros ->%single_stage_inv Ha. apply Forall_singleton. by apply stage_of_ok. Qed.
Lemma family_slug slug family (verbs : list str) : HasPrefix slug family = true -> TrimPrefix slug family ∈ verbs ->
  bool_decide (Forall known_slug ((app family) <$> verbs)) = true -> known_slug slug.
Proof.
  intros [v ->]%HasPrefix_spec. rewrite TrimPrefix_app. intros Hv Hall%bool_decide_eq_true.
  by apply (proj1 (Forall_forall _ _) Hall), list_elem_of_fmap_2.
Qed.
Lemma map_verb (l : list (str * str)) (v c : str) : (list_to_map l : gmap str str) !! v = Some c -> v ∈ l.*1.
Proof. intros Hv%elem_of_list_to_map_2. by apply (list_elem_of_fmap_2 fst) in Hv. Qed.
Lemma helper_attempt_inv policy route args t : helperAttempt policy route args = Some t ->
  exists p, policy = Some p /\ route p = true /\ t = attempt (privRunner_argv (pp_runner p) (pp_helper p) args).
Proof. unfold helperAttempt. destruct policy as [p|]; [|done]. destruct (route p) eqn:E; [|done]. intros [= <-]. by exists p. Qed.
(** Either the family is routed and the only attempt is the helper's, or it is not. *)
Lemma routed_family r slug (route : opPrivPolicy -> bool) args : routed r slug = match nr_priv r with Some p => if route p then Some p else None | None => None end ->
  match helperAttempt (nr_priv r) route args with
  | Some t => exists p, routed r slug = Some p /\ t = attempt (privRunner_argv (pp_runner p) (pp_helper p) args)
  | None => routed r slug = None
  end.
Proof. intros ->. unfold helperAttempt. destruct (nr_priv r) as [p|]; [|done]. destruct (route p); [by exists p|done]. Qed.
Lemma routed_plan `{Unicode} r slug params (route : opPrivPolicy -> bool) args target timeout rest plan :
  routed r slug = match nr_priv r with Some p => if route p then Some p else None | None => None end ->
  match helperAttempt (nr_priv r) route args with Some t => single_stage slug target timeout [t] | None => rest end = inl plan ->
  helper_args slug params args /\ Forall no_dash args ->
  (rest = inl plan -> Forall (stage_ok (op_target params)) (pl_stages plan)) -> stages_good r slug params (pl_stages plan).
Proof.
  intros Hr Hp Ha Hrest. unfold stages_good. pose proof (routed_family r slug route args Hr) as Hf. destruct (helperAttempt _ _ _) as [t|].
  - destruct Hf as (p & -> & ->). exists args. by apply single_stage_inv in Hp.
  - rewrite Hf. by apply Hrest.
Qed.
Lemma prefixed slug family others : HasPrefix slug family = true -> forallb (fun o => negb (HasPrefix family o) && negb (HasPrefix o family)) others = true ->
  forall o, o ∈ others -> HasPrefix slug o = false.
Proof.
  intros [v ->]%HasPrefix_spec Hall o Ho. apply not_true_iff_false. intros [w Hw]%HasPrefix_spec.
  apply Forall_forallb in Hall. apply (proj1 (Forall_forall _ _) Hall) in Ho. apply andb_true_iff in Ho as [H1%negb_true_iff H2%negb_true_iff].
  assert (Hc : (exists k : str, family = o ++ k) \/ (exists k : str, o = family ++ k)).
  { assert (family `prefix_of` family ++ v) as Hf by (by exists v). assert (o `prefix_of` family ++ v) as Ho by (rewrite Hw; by exists w).
    destruct (prefix_weak_total _ _ _ Hf Ho) as [[k ->]|[k ->]]; eauto. }
  destruct Hc as [Hc|Hc]; apply HasPrefix_spec in Hc; congruence.
Qed.

Lemma FirewallCommand_ok `{Unicode} backend verb rule cmds : FirewallCommand backend verb rule = Ok cmds ->
  verb ∈ [$"enable"; $"disable"] \/ rule_ok rule -> Forall command_ok cmds.
Proof.
  unfold FirewallCommand. destruct (ValidFirewallBackend backend); [|done]. destruct (ValidFirewallVerb verb) eqn:Ev; [|done]. cbn [negb].
  apply bool_decide_eq_true in Ev. destruct (_ || _) eqn:Et.
  - intros Hc _. by apply toggleCommands_ok in Hc as [_ ?].
  - intros Hc [Hin|Hr]; [exfalso; bools; by each_elem Hin|]. unfold ruleCommands in Hc. destruct (bool_decide (backend = $"ufw")).
    + by apply ufwRuleCommands_ok in Hc as [_ ?].
    + pose proof (firewalldRuleCommands_ok verb rule Hr) as Hf. rewrite Hc in Hf. by destruct Hf as [_ ?].
Qed.
Lemma firewall_attempts_safe (h : OpsHost) cmds attempts : host_ok h -> Forall command_ok cmds -> firewall_attempts cmds = Ok attempts -> Forall safe_attempt attempts.
Proof.
  intros Hh Hc. revert attempts. induction Hc as [|cmd cmds (bin & args & -> & _ & Hargs) _ IH]; intros attempts; cbn [firewall_attempts]; [by intros [= <-]|].
  cbn [head default from_option tail]. unfold id. destruct (LookPath bin) as [path|] eqn:El; [|done].
  destruct (firewall_attempts cmds) as [rest|]; [|done]. cbn [res_bind]. intros <-%Ok_inj. apply Forall_app. split; [|by apply IH].
  apply with_sudo_safe; [done|by eapply abs_no_dash, host_paths|]. eapply Forall_impl; [exact Hargs|]. apply argument_safe.
Qed.

(** A slug of another family is not routed. *)
Lemma routed_none r slug : forallb (fun f => negb (HasPrefix slug f)) [$"systemd."; $"package."; $"firewall."] = true -> routed r slug = None.
Proof.
  cbn [forallb]. rewrite !andb_true_iff, !negb_true_iff. intros (H1 & H2 & H3 & _). unfold routed.
  rewrite H1, H2, H3. by destruct (nr_priv r).
Qed.
Lemma not_routed r slug family : HasPrefix slug family = true ->
  forallb (fun o => negb (HasPrefix family o) && negb (HasPrefix o family)) [$"systemd."; $"package."; $"firewall."] = true ->
  routed r slug = None.
Proof.
  intros Hp Ho. apply routed_none. apply Forall_forallb, Forall_forall. intros o Hin. by rewrite (prefixed _ _ _ Hp Ho o Hin).
Qed.

(** The arguments of a package command: constants, and a checked name. *)
Lemma package_argv_safe manager verb name argv : manager ∈ PackageManagerPreference ->
  verb ∈ [$"refresh"; $"upgrade"; $"install"; $"remove"] -> PackageCommand manager verb name = Ok argv ->
  (verb = $"install" \/ verb = $"remove" -> ValidPackageName name = true) -> Forall safe_arg (tail argv).
Proof.
  intros Hm Hv Hc Hn. unfold PackageCommand in Hc. destruct (ValidPackageManager manager); [|done]. destruct (ValidPackageVerb verb); [|done].
  cbn [negb] in Hc. apply res_bind_ok in Hc as (u & _ & Hc). cbv zeta in Hc. apply Ok_inj in Hc. subst argv.
  assert (Hargs : Forall safe_arg (packageArgs manager verb name)).
  { assert (Hsafe : verb = $"install" \/ verb = $"remove" -> safe_arg name) by (intros Hi; left; by apply package_no_dash, Hn).
    clear Hn. unfold PackageManagerPreference in Hm. each_elem Hm; each_elem Hv; cbv [packageArgs]; 
      repeat (rewrite bool_decide_true by done || rewrite bool_decide_false by done); cbn [orb]; safe_words;
      first [apply Forall_nil_2 | apply Forall_singleton, Hsafe; by auto]. }
  exact Hargs.
Qed.
Lemma container_verb_safe v cli : nativeContainerVerbs !! v = Some cli -> safe_arg cli.
Proof.
  unfold nativeContainerVerbs. intros Ev%elem_of_list_to_map_2. apply (list_elem_of_fmap_2 snd) in Ev. revert cli Ev.
  apply Forall_forall. safe_words. constructor.
Qed.
Lemma native_no_dash verb v : nativeSystemdVerbs !! verb = Some v -> no_dash verb.
Proof.
  intros Hv%map_verb. revert verb Hv. apply Forall_forall. by apply (bool_decide_unpack _).
Qed.
(** The operands a firewall operation hands to the helper. *)
Lemma rule_args_ok `{Unicode} verb params rule : (forall s, no_dash (unicode_ToLower s) -> no_dash s) -> rule_of verb params = Ok rule ->
  rule_ok rule /\ Forall no_dash [op_port params; fr_Protocol rule; fr_Source rule] /\ (verb = $"delete" -> no_dash (op_ruleAction params)) /\
  normalizeProtocol (op_protocol params) = fr_Protocol rule /\ normalizeSource (op_source params) = fr_Source rule.
Proof.
  intros Hl Hr. pose proof (ParseFirewallRule_rule_ok _ _ _ _ _ Hr) as Hok. destruct (rule_ok_operands _ Hok) as (Ha & Hp & Hpr & Hs).
  destruct (ParseFirewallRule_fields _ _ _ _ _ Hr) as (Ea & Ep & Epr & Es). split_and!; try done.
  - repeat (apply Forall_cons; split); try (by apply operand_no_dash); [|constructor]. rewrite Ep in Hp.
    apply trimmed_no_dash; [apply Hp|by apply operand_no_dash].
  - intros ->. rewrite bool_decide_true in Ea by done. rewrite Ea in Ha.
    assert (Hne : TrimSpace (TrimSpace (op_ruleAction params)) <> []) by (intros E; rewrite E in Ha; by destruct Ha).
    assert (Hd : no_dash (TrimSpace (TrimSpace (op_ruleAction params)))) by (apply lowered_no_dash; [done|by apply operand_no_dash]).
    apply trimmed_no_dash; [|by apply trimmed_no_dash]. intros E. by rewrite E in Hne.
Qed.

Section safe.
Context `{Unicode} (h : OpsHost) (r : nativeOpRunner) (slug : str) (params : opParams).
Hypothesis h_ok : host_ok h.
Hypothesis r_ok : stacks_ok r.
(** Lower casing does not invent or hide a leading dash: it maps rune by rune, and the
    dash to itself. *)
Hypothesis lower_dash : forall s, no_dash (unicode_ToLower s) -> no_dash s.

Lemma image_good plan : slug = $"container.pull" \/ slug = $"container.update" -> plan_image r slug params = inl plan -> plan_good r slug params plan.
Proof using h_ok r_ok.
  intros Hslug Hp. assert (Hn : routed r slug = None) by (destruct Hslug as [-> | ->]; by apply routed_none).
  unfold plan_good, stages_good. rewrite Hn. split; [destruct Hslug as [-> | ->]; apply (bool_decide_unpack _); vm_compute; exact I|].
  revert Hp. unfold plan_image. destruct (negb _); [done|].
  destruct (resolveOpContainer (op_target params)) as [resolved|] eqn:Er; [|done].
  destruct (parseImageReference _) as [ref|] eqn:Ei; [|done]. pose proof (resolve_path _ _ _ h_ok Er) as Hrp.
  destruct (bool_decide (slug = $"container.pull")).
  - intros (attempts & Ha & Hs)%on_ok_inl. eapply single_good; [exact Hs|]. unfold runtimePullAttempts in Ha.
    apply image_no_dash in Ei. destruct (cs_Elevated _); cbn [negb] in Ha.
    + destruct (sudoRuns _); [|done]. injection Ha as <-. apply Forall_singleton. split; [by vm_compute|]. cbn. safe_words.
      apply Forall_cons. split; [by left|]. safe_words. apply Forall_singleton. by left.
    + injection Ha as <-. apply Forall_singleton. split; [done|]. cbn. safe_words. apply Forall_singleton. by left.
  - destruct (composeUpdateTargetFromLabels _) as [t|] eqn:Et; [|done]. cbn [res_bind].
    destruct (composeTargetDirectory r t) as [t'|] eqn:Et'; [|done].
    destruct (labels_target _ _ _ _ r_ok Et Et') as [Htok Hserv].
    intros (store & Hst & (pull & Hpull & (recreate & Hrec & [= <-])%on_ok_inl)%on_ok_inl)%on_ok_inl. cbn [pl_stages].
    assert (no_dash (cs_Path store)) by (eapply composeProjectStore_path; [exact h_ok| |exact Hst]; by intros s [= <-]).
    apply Forall_cons. split; [|apply Forall_singleton]; apply stage_of_ok.
    + eapply (compose_safe h store t'); [done|done|done| |exact Hpull]. safe_words. apply Forall_singleton. by left.
    + eapply (compose_safe h store t'); [done|done|done| |exact Hrec]. cbn [recreate_args app]. safe_words. apply Forall_singleton. by left.
Qed.

Lemma container_good plan : HasPrefix slug ($"container.") = true -> plan_container r slug params = inl plan -> plan_good r slug params plan.
Proof using h_ok.
  intros Hf Hp. unfold plan_good, stages_good. rewrite (not_routed _ _ ($"container.") Hf) by by vm_compute.
  revert Hp. unfold plan_container, verb_of. destruct (nativeContainerVerbs !! _) as [cli|] eqn:Ev; [|done].
  destruct (matches nativeContainerRefPattern (op_target params)) eqn:Em; [|done]. cbn [negb]. intros Hs.
  split; [eapply family_slug; [exact Hf|exact (map_verb _ _ _ Ev)|by vm_compute]|].
  apply container_no_dash in Em. eapply single_good; [exact Hs|].
  pose proof (container_verb_safe _ _ Ev) as Hcli.
  set (args := cli :: _). assert (Hargs : Forall safe_arg args).
  { apply Forall_cons. split; [done|]. apply Forall_app. split; [|apply Forall_singleton; by left].
    destruct (_ && _); [|constructor]. apply Forall_singleton. by apply safe_constant; vm_compute. }
  apply Forall_concat, Forall_fmap, Forall_forall. intros runtime _. cbn.
  destruct (oh_runtimes !! runtime) as [path|] eqn:Ep; [|constructor].
  assert (no_dash path) by (by eapply abs_no_dash, host_runtimes). apply Forall_cons. split; [by apply attempt_safe|].
  destruct (elevationAttempt path args) as [argv|] eqn:Ee; [|constructor]. apply Forall_singleton.
  by apply (elevated_safe path args).
Qed.

Lemma process_good plan : slug = $"process.kill" -> plan_process r slug params = inl plan -> plan_good r slug params plan.
Proof using.
  intros Hslug Hp. unfold plan_good, stages_good. rewrite routed_none by by rewrite Hslug.
  split; [rewrite Hslug; apply (bool_decide_unpack _); vm_compute; exact I|].
  revert Hp. unfold plan_process. destruct (Z.leb_spec (op_pid params) 1) as [|Hpid]; [done|]. intros Hs. eapply single_good; [exact Hs|].
  apply with_sudo_safe; [done|by vm_compute|]. cbn [tail].
  do 3 (apply Forall_cons; split; [by apply safe_constant; vm_compute|]). apply Forall_singleton. left. apply decimal_no_dash. lia.
Qed.

Lemma systemd_good plan : HasPrefix slug ($"systemd.") = true -> plan_systemd r slug params = inl plan -> plan_good r slug params plan.
Proof using.
  intros Hf. unfold plan_systemd, verb_of. destruct (nativeSystemdVerbs !! _) as [v|] eqn:Ev; [|done].
  set (unit := if negb (bool_decide (TrimSpace (op_target params) = [])) && _ then _ else _).
  destruct (matches nativeSystemdUnitPattern unit) eqn:Em; [|done]. cbn [negb]. intros Hp.
  pose proof (map_verb _ _ _ Ev) as Hv. split; [eapply family_slug; [exact Hf|exact Hv|by vm_compute]|].
  eapply routed_plan; [|exact Hp| |].
  - unfold routed. rewrite Hf. pose proof (prefixed _ _ [$"package."; $"firewall."] Hf ltac:(by vm_compute)) as Ho.
    rewrite (Ho ($"package.")), (Ho ($"firewall.")) by (repeat constructor). destruct (nr_priv r) as [p|]; [|done]. cbn [andb]. by rewrite !orb_false_r.
  - apply HasPrefix_spec in Hf as [verb ->]. rewrite TrimPrefix_app in *. split; [by constructor|].
    apply Forall_cons; split; [by vm_compute|]. apply Forall_cons; split; [by eapply native_no_dash|]. apply Forall_singleton. by apply unit_no_dash.
  - intros Hs. eapply single_good; [exact Hs|]. apply with_sudo_safe; [done|by vm_compute|]. cbn [tail].
    apply Forall_cons. split; [left; by eapply native_no_dash|apply Forall_singleton; left; by apply unit_no_dash].
Qed.

Lemma package_args_ok verb : slug = $"package." ++ verb -> verb ∈ [$"refresh"; $"upgrade"; $"install"; $"remove"] ->
  (verb ∈ [$"install"; $"remove"] -> ValidPackageName (TrimSpace (op_name params)) = true) ->
  (verb ∈ [$"refresh"; $"upgrade"] -> TrimSpace (op_name params) = []) ->
  let args := [$"packages"; verb] ++ if bool_decide (TrimSpace (op_name params) = []) then [] else [TrimSpace (op_name params)] in
  helper_args slug params args /\ Forall no_dash args.
Proof using.
  intros Hslug Hv Hn He. cbv zeta. assert (Hc : verb ∈ [$"refresh"; $"upgrade"] \/ verb ∈ [$"install"; $"remove"]).
  { each_elem Hv; [left|left|right|right]; repeat constructor. }
  assert (Hd : no_dash verb) by (by each_elem Hv). destruct Hc as [Hc|Hc].
  - rewrite bool_decide_true by by apply He. cbn [app]. split; [by apply package_args|]. by repeat constructor.
  - specialize (Hn Hc). rewrite bool_decide_false by (intros E; rewrite E in Hn; by vm_compute in Hn). cbn [app].
    split; [by apply package_named_args|]. apply package_no_dash in Hn. by repeat constructor.
Qed.
Lemma package_good plan : HasPrefix slug ($"package.") = true -> plan_package r slug params = inl plan -> plan_good r slug params plan.
Proof using h_ok.
  intros Hf. unfold plan_package, verb_of. destruct (ValidPackageVerb _) eqn:Ev; [|done]. cbn [negb].
  set (verb := TrimPrefix slug ($"package.")) in *. set (name := TrimSpace (op_name params)).
  set (named := bool_decide (verb = $"install") || bool_decide (verb = $"remove")).
  destruct (named && negb (ValidPackageName name)) eqn:En; [done|]. destruct (negb named && _) eqn:Eb; [done|]. intros Hp.
  apply bool_decide_eq_true, verb_cases in Ev. split; [eapply family_slug; [exact Hf|exact Ev|by vm_compute]|].
  eapply routed_plan; [|exact Hp| |].
  - unfold routed. rewrite Hf. pose proof (prefixed _ _ [$"systemd."; $"firewall."] Hf ltac:(by vm_compute)) as Ho.
    rewrite (Ho ($"systemd.")), (Ho ($"firewall.")) by (repeat constructor). destruct (nr_priv r) as [p|]; [|done]. cbn [andb orb]. by rewrite !orb_false_r.
  - apply HasPrefix_spec in Hf as [v Hslug]. assert (v = verb) as -> by (unfold verb; by rewrite Hslug, TrimPrefix_app).
    apply package_args_ok; [done|exact Ev|..]; intros Hv.
    + assert (E : named = true) by (unfold named; clear - Hv; clearbody verb; by each_elem Hv; vm_compute). rewrite E in En. cbn [andb] in En. by apply negb_false_iff in En.
    + assert (E : named = false) by (unfold named; clear - Hv; clearbody verb; by each_elem Hv; vm_compute). rewrite E in Eb. cbn [negb andb] in Eb. by bools.
  - destruct detectPackageManager as [manager|] eqn:Ed; [|done]. destruct (PackageCommand manager verb name) as [argv|] eqn:Ec; [|done].
    intros Hs. eapply single_good; [exact Hs|]. destruct (LookPath _) as [path|] eqn:El; [|constructor].
    apply with_sudo_safe; [done|by eapply abs_no_dash, host_paths|]. cbn [tail].
    apply find_some in Ed as [Hm _]. apply list_elem_of_In in Hm. eapply package_argv_safe; [exact Hm|exact Ev|exact Ec|].
    intros Hn. unfold named in En. destruct (bool_decide (verb = $"install")) eqn:E1, (bool_decide (verb = $"remove")) eqn:E2; cbn [orb andb] in En;
      try (by apply negb_false_iff in En). bools. by destruct Hn.
Qed.

Lemma firewall_args_ok rule target : HasPrefix slug ($"firewall.") = true ->
  TrimPrefix slug ($"firewall.") ∈ [$"enable"; $"disable"; $"allow"; $"deny"; $"delete"] ->
  (if rule_verb (TrimPrefix slug ($"firewall.")) then
     let? rule := rule_of (TrimPrefix slug ($"firewall.")) params in Ok (rule, FirewallRule_String rule)
   else Ok (mkFirewallRule [] [] [] [], TrimPrefix slug ($"firewall."))) = Ok (rule, target) ->
  let verb := TrimPrefix slug ($"firewall.") in
  let args := [$"firewall"; verb] ++
     if rule_verb verb then
       (if bool_decide (verb = $"delete") then [op_ruleAction params] else []) ++
       [op_port params; normalizeProtocol (op_protocol params); normalizeSource (op_source params)]
     else [] in
  helper_args slug params args /\ Forall no_dash args.
Proof using lower_dash.
  intros [verb Hslug]%HasPrefix_spec. rewrite Hslug, TrimPrefix_app. intros Hv Hp. cbv zeta.
  destruct (rule_verb verb) eqn:Er.
  - destruct (rule_of verb params) as [r'|] eqn:Epr; [|done]. cbn [res_bind] in Hp. injection Hp as -> _.
    destruct (rule_args_ok verb params rule lower_dash Epr) as (Hok & Hargs & Hdel & -> & ->).
    assert (Hd : no_dash verb) by (by each_elem Hv). cbn [app]. destruct (bool_decide (verb = $"delete")) eqn:Ed; cbn [app].
    + bools. subst verb. split; [by eapply firewall_delete_args|]. repeat (apply Forall_cons; split; [first [by vm_compute|by apply Hdel]|]). done.
    + assert (verb ∈ [$"allow"; $"deny"]) by (bools; each_elem Hv; try (by vm_compute in Er); try done; repeat constructor).
      split; [by eapply firewall_rule_args|]. by do 2 (apply Forall_cons; split; [by vm_compute || done|]).
  - each_elem Hv; try (by vm_compute in Er); cbn [app]; (split; [by constructor; [reflexivity|repeat constructor]|]);
      repeat (apply Forall_cons; split; [by vm_compute|]); constructor.
Qed.
Lemma firewall_good plan : HasPrefix slug ($"firewall.") = true -> plan_firewall r slug params = inl plan -> plan_good r slug params plan.
Proof using h_ok lower_dash.
  intros Hf. unfold plan_firewall, verb_of. destruct (ValidFirewallVerb _) eqn:Ev; [|done]. cbn [negb].
  set (verb := TrimPrefix slug ($"firewall.")) in *. intros ([rule target] & Hparse & Hp)%on_ok_inl.
  apply bool_decide_eq_true in Ev. unfold allowedFirewallVerbs in Ev. apply elem_of_list_to_set in Ev.
  split; [eapply family_slug; [exact Hf|exact Ev|by vm_compute]|]. eapply routed_plan; [|exact Hp| |].
  - unfold routed. rewrite Hf. pose proof (prefixed _ _ [$"systemd."; $"package."] Hf ltac:(by vm_compute)) as Ho.
    rewrite (Ho ($"systemd.")), (Ho ($"package.")) by (repeat constructor). by destruct (nr_priv r) as [p|].
  - by eapply firewall_args_ok.
  - destruct detectFirewallBackend as [backend|]; [|done]. intros (cmds & Hc & (attempts & Ha & Hs)%on_ok_inl)%on_ok_inl.
    eapply single_good; [exact Hs|]. eapply firewall_attempts_safe; [exact h_ok| |exact Ha]. eapply FirewallCommand_ok; [exact Hc|].
    destruct (rule_verb verb) eqn:Er.
    + right. destruct (ParseFirewallRule _ _ _ _) as [rule'|] eqn:Epr; [|done]. cbn [res_bind] in Hparse. injection Hparse as <- _.
      by eapply ParseFirewallRule_rule_ok.
    + left. unfold rule_verb in Er. bools. clear -Ev Er. revert Ev Er. generalize verb. intros v Ev Er.
      repeat (apply elem_of_cons in Ev as [->|Ev]; [first [by repeat constructor|by destruct Er; repeat constructor]|]). by apply not_elem_of_nil in Ev.
Qed.

Lemma compose_verb_slug verb : verb = $"update" \/ is_Some (nativeComposeVerbs !! verb) -> verb ∈ $"update" :: [$"up"; $"stop"; $"restart"; $"pull"; $"recreate"].
Proof using. intros [-> | [c Hc]]; [constructor|]. constructor. by apply map_verb in Hc. Qed.
Lemma Fields_safe verb args : nativeComposeVerbs !! verb = Some args -> Forall safe_arg (Fields args).
Proof using.
  unfold nativeComposeVerbs. intros Ev%elem_of_list_to_map_2. apply (list_elem_of_fmap_2 snd) in Ev. revert args Ev.
  apply Forall_forall. cbn [fmap list_fmap snd].
  repeat (apply Forall_cons; split; [apply Forall_forall; intros a Ha; apply safe_constant; revert a Ha; apply Forall_forall, Forall_forallb; by vm_compute|]).
  constructor.
Qed.
Lemma dedup_in services seen a : a ∈ dedup_services services seen -> a ∈ services.
Proof using.
  revert seen. induction services as [|s services IH]; intros seen; cbn [dedup_services]; [done|].
  destruct (bool_decide _); [intros Ha; right; by eapply IH|]. intros [->|Ha]%elem_of_cons; [left|right; by eapply IH].
Qed.
Lemma recreate_ok (later : OpsHost) store t attempts : host_ok later -> no_dash (cs_Path store) -> target_ok t ->
  @composeUpdateRecreate _ later store t = Ok attempts -> Forall (recreate_shape later (ct_Project t)) attempts.
Proof using.
  intros Hl Hp Ht. unfold composeUpdateRecreate.
  assert (Hq : forall services as_, Forall (service_label later (ct_Project t)) services ->
    @composeAttempts _ later store t (recreate_args ++ services) = Ok as_ -> Forall (recreate_shape later (ct_Project t)) as_).
  { intros services as_ Hs Ha. destruct (composeAttempts_ok later _ _ _ _ Ha) as [Hok _].
    eapply Forall_impl; [by apply Hok|]. intros x [Hc (pre & E & Hpre)]. split; [done|]. by exists pre, services. }
  unfold storeProjectContainersBehind. destruct (storeProjectContainerFacts store (ct_Project t)) as [cs|] eqn:Ef; [|done]. cbn [res_bind].
  destruct (bool_decide (cs = [])); cbn [res_bind negb]; [intros Ha; apply (Hq [] _ ltac:(constructor)); exact Ha|].
  destruct (bool_decide ([] ∈ _)); [intros Ha; apply (Hq []); [constructor|exact Ha]|]. destruct (bool_decide _); [intros [= <-]; constructor|].
  apply Hq. apply Forall_forall. intros a Ha%dedup_in. apply list_elem_of_fmap in Ha as (c & -> & Hc).
  apply list_elem_of_filter in Hc as [_ Hc]. unfold storeProjectContainerFacts in Ef. destruct (_ && _); [done|].
  destruct (store_listing store) as [listed|] eqn:El; [|done]. cbn [res_bind] in Ef. apply Ok_inj in Ef. subst cs.
  apply list_elem_of_filter in Hc as [He Hc]. by exists store, listed, c.
Qed.
Lemma compose_good plan : HasPrefix slug ($"compose.") = true -> plan_compose r slug params = inl plan -> plan_good r slug params plan.
Proof using h_ok r_ok.
  intros Hf. unfold plan_good, stages_good. rewrite (not_routed _ _ ($"compose.") Hf) by by vm_compute.
  unfold plan_compose, verb_of. set (verb := TrimPrefix slug ($"compose.")).
  destruct (matches nativeProjectPattern (op_target params)) eqn:Em; [|done]. cbn [negb].
  intros ([directory files] & Hd & (store & Hst & Hp)%on_ok_inl)%on_ok_inl. apply project_no_dash in Em.
  assert (Hsp : no_dash (cs_Path store)) by (eapply composeProjectStore_path; [exact h_ok| |exact Hst]; done).
  assert (Ht : target_ok (mkTarget (op_target params) [] directory files)).
  { split; [done|]. cbn. by eapply directory_target. }
  assert (Hslug : verb = $"update" \/ is_Some (nativeComposeVerbs !! verb) -> known_slug slug).
  { intros Hv%compose_verb_slug. eapply family_slug; [exact Hf|exact Hv|by vm_compute]. }
  destruct (bool_decide (verb = $"update")) eqn:Eu.
  - apply on_ok_inl in Hp as (pull & Hpull & Hp). apply (f_equal (fun x => match x with inl p => Some p | inr _ => None end)) in Hp.
    apply Some_inj in Hp. subst plan. bools. split; [by apply Hslug; left|]. cbn [pl_stages].
    apply Forall_cons. split; [|apply Forall_singleton; split; [constructor|]].
    + apply stage_of_ok. eapply (compose_safe h store); [done|done|exact Ht| |exact Hpull]. safe_words. constructor.
    + cbn [sg_build]. intros build Hb%Some_inj later attempts Hl. subst build. by apply recreate_ok.
  - destruct (nativeComposeVerbs !! verb) as [cli|] eqn:Ev; [|done]. apply on_ok_inl in Hp as (attempts & Ha & Hs).
    split; [by apply Hslug; right|]. eapply single_good; [exact Hs|].
    eapply (compose_safe h store); [done|done|exact Ht| |exact Ha]. by eapply Fields_safe.
Qed.

(** C39. No caller can slip an option into a planned command. Every plan is for one
    of the known operations. A family routed through the privileged helper has the
    helper's invocation as its only attempt, and its arguments are exactly the
    family, a verb of the table and the operands the checks of the operation
    accepted (the unit that matches the unit pattern, the valid package name, the
    fields of a rule that parses), none of which begins with a dash. Otherwise every
    argument of every attempt the plan holds that begins with a dash is an option
    the daemon itself writes (a constant, or one of the four of firewall-cmd with a
    value without line breaks), whatever the caller, the container's labels or its
    image name say, and no command begins with one. The theorem does not promise
    this of the recreate step of a stack update, which is built during the run: there
    all arguments up to [up -d --force-recreate] are safe, and what follows are the
    service labels of listed containers of the project, which the code does not
    check ([recreate_label]). *)
Theorem plan_arguments_safe plan : planNativeOp r slug params = inl plan ->
  known_slug slug /\
  match routed r slug with
  | Some p => helper_only slug params p (pl_stages plan)
  | None => Forall (stage_ok (op_target params)) (pl_stages plan)
  end.
Proof using h_ok r_ok lower_dash.
  unfold planNativeOp.
  destruct (bool_decide (slug = $"container.pull")) eqn:E1; [bools; by apply image_good; left|].
  destruct (bool_decide (slug = $"container.update")) eqn:E2; [bools; by apply image_good; right|]. cbn [orb].
  destruct (HasPrefix slug ($"container.")) eqn:E3; [by apply container_good|].
  destruct (bool_decide (slug = $"process.kill")) eqn:E4; [bools; by apply process_good|].
  destruct (HasPrefix slug ($"systemd.")) eqn:E5; [by apply systemd_good|].
  destruct (HasPrefix slug ($"package.")) eqn:E6; [by apply package_good|].
  destruct (HasPrefix slug ($"firewall.")) eqn:E7; [by apply firewall_good|].
  destruct (HasPrefix slug ($"compose.")) eqn:E8; [by apply compose_good|]. done.
Qed.
End safe.

(** ** The store of a project *)

Lemma find_stores_spec `{OpsHost} stores project found : find_stores stores project = Ok found ->
  (forall s cs, s ∈ stores -> storeProjectContainerFacts s project = Ok cs -> cs <> [] -> (s, cs) ∈ found) /\
  (forall s, s ∈ stores -> cs_Elevated s = true -> sudoRuns (cs_Path s) = true -> is_ok (storeProjectContainerFacts s project) = true).
Proof.
  revert found. induction stores as [|s stores IH]; intros found; cbn [find_stores].
  - intros _. by split; intros ? ?; [intros ?%not_elem_of_nil|]; [|intros]; set_solver.
  - destruct (storeProjectContainerFacts s project) as [cs|e] eqn:Es.
    + destruct (find_stores stores project) as [rest|]; [|done]. cbn [res_bind]. intros Hf%Ok_inj.
      destruct (IH rest eq_refl) as [IH1 IH2]. split.
      * intros s' cs' [->|Hs']%elem_of_cons Hok Hne.
        -- rewrite Es in Hok. apply Ok_inj in Hok. subst cs' found. rewrite bool_decide_false by done. constructor.
        -- specialize (IH1 s' cs' Hs' Hok Hne). subst found. destruct (bool_decide _); [done|by constructor].
      * intros s' [->|Hs']%elem_of_cons; [by rewrite Es|by apply IH2].
    + destruct (cs_Elevated s && sudoRuns (cs_Path s)) eqn:Eu; [done|]. intros Hf. destruct (IH found Hf) as [IH1 IH2]. split.
      * intros s' cs' [->|Hs']%elem_of_cons Hok Hne; [congruence|by apply IH1].
      * intros s' [->|Hs']%elem_of_cons He Hsu; [by rewrite He, Hsu in Eu|by apply IH2].
Qed.
(** The store chosen for a project is the only one in which a container of the
    project is seen, and root's store could be read wherever [sudo -n] may run it. *)
Definition only_store `{OpsHost} (project : str) (store : composeStore) : Prop :=
  (forall s cs, s ∈ composeStores -> storeProjectContainerFacts s project = Ok cs -> cs <> [] -> s = store) /\
  (forall s, s ∈ composeStores -> cs_Elevated s = true -> sudoRuns (cs_Path s) = true -> is_ok (storeProjectContainerFacts s project) = true).
Lemma composeProjectStore_only `{OpsHost} project fallback store : composeProjectStore project fallback = Ok store -> only_store project store.
Proof.
  unfold composeProjectStore, composeProjectStores. destruct (find_stores composeStores project) as [found|] eqn:Ef; [|done]. cbn [res_bind].
  destruct (find_stores_spec _ _ _ Ef) as [H1 H2]. intros Hst. split; [|exact H2]. intros s cs Hs Hok Hne. specialize (H1 s cs Hs Hok Hne).
  destruct found as [|p [|p' found]]; [by apply not_elem_of_nil in H1| |done]. apply list_elem_of_singleton in H1. subst p. by apply Ok_inj in Hst.
Qed.
(** Every attempt of the stages runs a compose tool of the store, in that store. *)
Definition runs_in `{Unicode} (store : composeStore) (h : OpsHost) (x : opAttempt) : Prop :=
  exists tool, tool ∈ composeTools (cs_Path store) /\ in_store store (tl_command tool) x.
Definition stages_in `{Unicode} `{OpsHost} (store : composeStore) (stages : list opStage) : Prop :=
  Forall (fun stage => Forall (runs_in store _) (sg_attempts stage) /\
    forall build later attempts, sg_build stage = Some build -> build later = Ok attempts -> Forall (runs_in store later) attempts) stages.
Lemma compose_runs_in `{Unicode} (h : OpsHost) store t args attempts : composeAttempts store t args = Ok attempts -> Forall (runs_in store h) attempts.
Proof.
  intros Ha. destruct (composeAttempts_ok h _ _ _ _ Ha) as [_ Hi]. eapply Forall_impl; [exact Hi|]. intros x (tool & ? & ? & _). by exists tool.
Qed.
Lemma recreate_runs_in `{Unicode} (later : OpsHost) store t attempts :
  @composeUpdateRecreate _ later store t = Ok attempts -> Forall (runs_in store later) attempts.
Proof.
  unfold composeUpdateRecreate. destruct (storeProjectContainersBehind store (ct_Project t)) as [[behind present]|]; [|done]. cbn [res_bind].
  destruct present; cbn [negb]; [|apply compose_runs_in]. destruct (bool_decide ([] ∈ _)); [apply compose_runs_in|].
  destruct (bool_decide _); [intros [= <-]; constructor|apply compose_runs_in].
Qed.
Lemma stage_in `{Unicode} (h : OpsHost) store label attempts : Forall (runs_in store h) attempts ->
  Forall (runs_in store h) (sg_attempts (mkStage label attempts None [])) /\
  forall build later attempts', sg_build (mkStage label attempts None []) = Some build -> build later = Ok attempts' -> Forall (runs_in store later) attempts'.
Proof. by split. Qed.

(** A compose step runs in the store of its project and nowhere else. A plan for
    a compose operation, or for the update of a compose-managed container, has one
    store: no other store in reach shows a container of the project, root's store was
    readable wherever [sudo -n] may use it, and every attempt of every stage, the ones
    built during the run included, runs a compose tool of that store's runtime in it
    (through [sudo -n] exactly for root's store). *)
Theorem compose_one_store `{Unicode} `{OpsHost} r slug params plan :
  HasPrefix slug ($"compose.") = true \/ slug = $"container.update" ->
  planNativeOp r slug params = inl plan ->
  exists project store, only_store project store /\ stages_in store (pl_stages plan) /\
    (HasPrefix slug ($"compose.") = true -> project = op_target params).
Proof.
  intros [Hf| ->].
  - assert (Hno : forall family, family ∈ [$"container."; $"process.kill"; $"systemd."; $"package."; $"firewall."] -> HasPrefix slug family = false).
    { apply (prefixed slug ($"compose.")); [done|by vm_compute]. }
    unfold planNativeOp. rewrite !bool_decide_false; [|intros ->; by vm_compute in Hf..]. cbn [orb].
    rewrite (Hno ($"container.")), (Hno ($"systemd.")), (Hno ($"package.")), (Hno ($"firewall.")), Hf by (repeat constructor).
    unfold plan_compose. destruct (negb _); [done|]. intros ([directory files] & _ & (store & Hst & Hp)%on_ok_inl)%on_ok_inl.
    exists (op_target params), store. split; [by eapply composeProjectStore_only|]. split; [|done]. destruct (bool_decide (verb_of slug _ = _)).
    + apply on_ok_inl in Hp as (pull & Hpull & Hp). apply (f_equal (fun x => match x with inl p => Some p | inr _ => None end)) in Hp.
      apply Some_inj in Hp. subst plan. cbn [pl_stages]. apply Forall_cons. split; [apply stage_in; by eapply compose_runs_in|].
      apply Forall_singleton. split; [constructor|]. cbn [sg_build]. intros build later attempts Hb%Some_inj. subst build. apply recreate_runs_in.
    + destruct (nativeComposeVerbs !! _) as [cli|]; [|done]. apply on_ok_inl in Hp as (attempts & Ha & Hs).
      apply single_stage_inv in Hs. rewrite Hs. apply Forall_singleton, stage_in. by eapply compose_runs_in.
  - unfold planNativeOp. rewrite (bool_decide_true (_ = $"container.update")) by done. rewrite orb_true_r. unfold plan_image.
    destruct (negb _); [done|]. destruct (resolveOpContainer _) as [resolved|]; [|done]. destruct (parseImageReference _); [|done].
    rewrite bool_decide_false by by vm_compute. destruct (res_bind _ _) as [t|]; [|done].
    intros (store & Hst & (pull & Hpull & (recreate & Hrec & [= <-])%on_ok_inl)%on_ok_inl)%on_ok_inl.
    exists (ct_Project t), store. split; [by eapply composeProjectStore_only|]. split; [|by vm_compute]. cbn [pl_stages].
    apply Forall_cons. split; [|apply Forall_singleton]; apply stage_in; by eapply compose_runs_in.
Qed.

(** ** Alternatives and sequences *)

Definition succeeds (p : process) : bool := negb (is_Some_b (cmd_Run p).2).
Definition is_reload (x : opAttempt) : bool := bool_decide (last (at_args x) = Some ($"--reload")).
Lemma runOpOnce_ok p : succeeds p = true -> exists o e, runOpOnce p = (o, e, 0, None).
Proof. unfold succeeds, runOpOnce. destruct (cmd_Run p) as [[o e] [err|]]; [done|]. by exists o, e. Qed.
Lemma runOpOnce_err p : succeeds p = false -> exists o e c err, runOpOnce p = (o, e, c, Some err).
Proof. unfold succeeds, runOpOnce. destruct (cmd_Run p) as [[o e] [err|]]; [|done]. by repeat eexists. Qed.
Lemma run_attempts_success exec i t rest primary : succeeds (exec i t).1 = true ->
  sr_made (run_attempts exec i (t :: rest) primary) = sr_made primary ++ [t] /\ sr_err (run_attempts exec i (t :: rest) primary) = None.
Proof. intros Hs. cbn [run_attempts]. destruct (exec i t) as [p late]. cbn in Hs. destruct (runOpOnce_ok p Hs) as (o & e & ->). done. Qed.
Lemma run_attempts_failure exec i t rest primary : succeeds (exec i t).1 = false -> (exec i t).2 = false ->
  exists primary', run_attempts exec i (t :: rest) primary = run_attempts exec (S i) rest primary'.
Proof.
  intros Hs Hl. cbn [run_attempts]. destruct (exec i t) as [p late]. cbn in Hs, Hl. destruct (runOpOnce_err p Hs) as (o & e & c & err & ->).
  subst late. by eexists.
Qed.
(** When exactly the attempts that satisfy [q] succeed, the stage succeeds iff there is one. *)
Lemma run_attempts_only exec (q : opAttempt -> bool) attempts i primary : (forall i t, succeeds (exec i t).1 = q t /\ (exec i t).2 = false) ->
  existsb q attempts = true -> sr_err (run_attempts exec i attempts primary) = None.
Proof.
  intros He. revert i primary. induction attempts as [|t attempts IH]; intros i primary; [done|]. destruct (He i t) as [Hs Hl]. cbn [existsb].
  destruct (q t) eqn:Eq.
  - intros _. by apply run_attempts_success.
  - intros Hex. destruct (run_attempts_failure exec i t attempts primary Hs Hl) as [primary' ->]. by apply IH.
Qed.

Lemma with_sudo_reload `{OpsHost} path argv env : argv <> [] -> Forall (fun x => is_reload x = bool_decide (last argv = Some ($"--reload"))) (with_sudo (path :: argv) env).
Proof.
  intros Hne. unfold with_sudo, is_reload. apply Forall_cons. split; [done|]. unfold sudoAttempt, elevationPrefix. destruct oh_root; [constructor|].
  destruct (LookPath _); [|constructor]. apply Forall_singleton. cbn [app at_args tail]. by destruct argv.
Qed.
(** The commands of a firewalld rule: the changes, then the reload. *)
Lemma firewalld_commands `{Unicode} verb rule cmds : firewalldRuleCommands verb rule = Ok cmds ->
  exists changes, cmds = changes ++ [[$"firewall-cmd"; $"--reload"]] /\ changes <> [] /\
    Forall (fun c => exists argv, c = $"firewall-cmd" :: argv /\ argv <> [] /\ last argv <> Some ($"--reload")) changes.
Proof.
  unfold firewalldRuleCommands. destruct (bool_decide (fr_Protocol rule = _)); [done|].
  assert (Hflag : forall b v : str, forall verb : str, last [$"--permanent"; (if bool_decide (verb = $"delete") then $"--remove-" else $"--add-") ++ b ++ v] <> Some ($"--reload")).
  { intros b v vb. cbn [last]. intros E%Some_inj. destruct (bool_decide _); apply (f_equal (take 5)) in E; cbn in E; discriminate E. }
  assert (Hsplit : forall b v : str, (if bool_decide (verb = $"delete") then $"--remove-" else $"--add-") ++ b ++ v =
    (if bool_decide (verb = $"delete") then $"--remove-" ++ b else $"--add-" ++ b) ++ v) by (intros; by destruct (bool_decide _)).
  destruct (_ && _).
  - intros Hc%Ok_inj. unfold reload in Hc. subst cmds. eexists [_]. split; [reflexivity|]. split; [done|]. apply Forall_singleton.
    eexists. split; [reflexivity|]. split; [done|]. specialize (Hflag ($"port=") (fr_Port rule ++ $"/" ++ fr_Protocol rule) verb).
    rewrite Hsplit in Hflag. exact Hflag.
  - destruct (richRules rule) as [rich|] eqn:Er; [|done]. cbn [res_bind]. intros Hc%Ok_inj. subst cmds. eexists. split; [reflexivity|]. split.
    + destruct rich as [|one rich]; [|done]. unfold richRules in Er. repeat case_match; done.
    + apply Forall_fmap, Forall_forall. intros one _. eexists. split; [reflexivity|]. split; [done|].
      specialize (Hflag ($"rich-rule=") one verb). rewrite Hsplit in Hflag. exact Hflag.
Qed.
Lemma firewall_attempts_app `{OpsHost} l1 l2 : firewall_attempts (l1 ++ l2) = let? a1 := firewall_attempts l1 in let? a2 := firewall_attempts l2 in Ok (a1 ++ a2).
Proof.
  induction l1 as [|c l1 IH]; cbn [app firewall_attempts]; [by destruct (firewall_attempts l2)|]. destruct (LookPath _); [|done]. rewrite IH.
  destruct (firewall_attempts l1); [|done]. cbn [res_bind]. destruct (firewall_attempts l2); [|done]. cbn [res_bind]. by rewrite (assoc_L (++)).
Qed.
Lemma firewall_attempts_changes `{OpsHost} cmds attempts :
  Forall (fun c => exists argv, c = $"firewall-cmd" :: argv /\ argv <> [] /\ last argv <> Some ($"--reload")) cmds -> cmds <> [] ->
  firewall_attempts cmds = Ok attempts -> attempts <> [] /\ Forall (fun x => is_reload x = false) attempts.
Proof.
  intros Hc Hne. assert (Hall : forall as_, firewall_attempts cmds = Ok as_ -> Forall (fun x => is_reload x = false) as_).
  { clear Hne. induction Hc as [|c cmds (argv & -> & Ha & Hl) _ IH]; intros as_; cbn [firewall_attempts]; [intros <-%Ok_inj; constructor|].
    destruct (LookPath _) as [path|]; [|done]. destruct (firewall_attempts cmds) as [rest|]; [|done]. cbn [res_bind]. intros <-%Ok_inj.
    apply Forall_app. split; [|by apply IH]. cbn [tail]. eapply Forall_impl; [by apply with_sudo_reload|]. intros x ->. by apply bool_decide_eq_false. }
  intros Ha. split; [|by apply Hall]. destruct cmds as [|c cmds]; [done|]. cbn [firewall_attempts] in Ha. destruct (LookPath _); [|done].
  destruct (firewall_attempts cmds); [|done]. cbn [res_bind] in Ha. apply Ok_inj in Ha. by subst attempts.
Qed.

(** A firewall rule without the helper, on a firewalld host. The permanent
    change and the reload that applies it become alternative attempts of one stage,
    and a stage ends with its first success. So whenever the first attempt succeeds
    nothing else is run, and the reload never is; and when every form of the change
    fails and the reload succeeds, the operation is reported as successful. *)
Theorem firewalld_never_applied `{Unicode} `{OpsHost} r slug params plan :
  HasPrefix slug ($"firewall.") = true -> rule_verb (TrimPrefix slug ($"firewall.")) = true ->
  routed r slug = None -> detectFirewallBackend = Some ($"firewalld") -> planNativeOp r slug params = inl plan ->
  exists attempts, pl_stages plan = [mkStage (nativeOpVerb slug) attempts None []] /\
    existsb is_reload attempts = true /\
    (forall exec first rest, attempts = first :: rest -> succeeds (exec 0%nat first).1 = true ->
       sr_made (runStage exec 0 attempts) = [first] /\ is_reload first = false /\ sr_err (runStage exec 0 attempts) = None) /\
    (forall exec, (forall i t, succeeds (exec i t).1 = is_reload t /\ (exec i t).2 = false) -> sr_err (runStage exec 0 attempts) = None).
Proof.
  intros Hf Hv Hr Hb. assert (Hno : forall family, family ∈ [$"container."; $"process.kill"; $"systemd."; $"package."] -> HasPrefix slug family = false).
  { apply (prefixed slug ($"firewall.")); [done|by vm_compute]. }
  unfold planNativeOp. rewrite !bool_decide_false; [|intros ->; by vm_compute in Hf..]. cbn [orb].
  rewrite (Hno ($"container.")), (Hno ($"systemd.")), (Hno ($"package.")), Hf by (repeat constructor).
  unfold plan_firewall, verb_of. destruct (ValidFirewallVerb _) eqn:Ev; [|done]. cbn [negb]. intros ([rule target] & _ & Hp)%on_ok_inl.
  assert (Hn : firewallHelperAttempt r (TrimPrefix slug ($"firewall.")) params = None).
  { unfold firewallHelperAttempt. revert Hr. unfold routed, helperAttempt. rewrite Hf. destruct (nr_priv r) as [p|]; [|done].
    rewrite (Hno ($"systemd.")), (Hno ($"package.")) by (repeat constructor). cbn [andb orb]. by destruct (pp_firewall p). }
  rewrite Hn, Hb in Hp. apply on_ok_inl in Hp as (cmds & Hc & (attempts & Ha & Hs)%on_ok_inl).
  apply single_stage_inv in Hs. exists attempts. split; [done|].
  unfold FirewallCommand in Hc. rewrite Ev in Hc. destruct (ValidFirewallBackend _); [|done]. cbn [negb] in Hc.
  assert (Ht : bool_decide (TrimPrefix slug ($"firewall.") = $"enable") || bool_decide (TrimPrefix slug ($"firewall.") = $"disable") = false).
  { apply orb_false_iff. split; apply bool_decide_eq_false; intros E; rewrite E in Hv; by vm_compute in Hv. }
  rewrite Ht in Hc. unfold ruleCommands in Hc. rewrite bool_decide_false in Hc by by vm_compute.
  apply firewalld_commands in Hc as (changes & -> & Hne & Hch). rewrite firewall_attempts_app in Ha.
  destruct (firewall_attempts changes) as [a1|] eqn:E1; [|done]. cbn [res_bind firewall_attempts] in Ha. unfold default, from_option, head in Ha.
  destruct (LookPath _) as [path|]; [|done]. cbn [res_bind tail] in Ha. rewrite app_nil_r in Ha. apply Ok_inj in Ha. subst attempts.
  destruct (firewall_attempts_changes _ _ Hch Hne E1) as [Hne1 Hnr]. pose proof (with_sudo_reload path [$"--reload"] [] ltac:(done)) as Hrel.
  assert (Hex : existsb is_reload (a1 ++ with_sudo (path :: [$"--reload"]) []) = true).
  { rewrite existsb_app. apply orb_true_iff. right. unfold with_sudo in *. cbn [existsb]. apply Forall_cons in Hrel as [Hx _]. rewrite Hx. by vm_compute. }
  split_and!; [exact Hex| |].
  - intros exec first rest Hfr Hsucc. rewrite Hfr. unfold runStage. destruct (run_attempts_success exec 0 first rest (mkStageResult [] [] 0 None []) Hsucc) as [H1 H2].
    split_and!; [exact H1| |exact H2]. destruct a1 as [|x a1]; [done|]. injection Hfr as -> _. by apply Forall_cons in Hnr as [? _].
  - intros exec He. by apply (run_attempts_only exec is_reload).
Qed.

(** ** A concrete host *)

#[local] Instance demo_unicode : Unicode := {| unicode_ToLower s := s; unicode_Quote s := s |}.
(** A host with podman and firewalld; root's store holds the project "shop", whose
    container "web" is labelled with the service [label]. *)
Definition demo_container (label : str) : projectContainer :=
  mkProjectContainer ($"c1") ($"web") ($"nginx") ($"running") [] ($"shop") label.
Definition demo_ops_host (label : str) : OpsHost := {|
  oh_runtimes := {[ $"podman" := $"/usr/bin/podman" ]};
  oh_root := false;
  LookPath name := if bool_decide (name ∈ [$"sudo"; $"firewall-cmd"]) then Some ($"/usr/bin/" ++ name) else None;
  inspectContainer _ _ := Err (Errorf "no such container" []);
  sudo_version _ := true;
  store_listing s := Ok (if cs_Elevated s then [demo_container label] else []);
  store_running _ _ := Some ($"old");
  store_image _ _ := None;
  EqualFold s t := bool_decide (s = t);
|}.
Definition demo_runner : nativeOpRunner :=
  mkRunner 30 None (Some {[ $"shop" := mkComposeStack ($"shop") ($"/srv/shop") [$"compose.yml"] [] 0 ]}).
Definition shop_params : opParams := mkOpParams ($"shop") 0 false [] [] [] [] [] [].
Definition rule_params : opParams := mkOpParams [] 0 false [] [] ($"8080") ($"tcp") [] [].
Definition plan_attempts (p : planned) : list (list str) :=
  match p with inl plan => (fun x => at_command x :: at_args x) <$> concat (sg_attempts <$> pl_stages plan) | inr _ => [] end.
Example firewall_plan : plan_attempts (planNativeOp (H0 := demo_ops_host []) demo_runner ($"firewall.allow") rule_params) =
  [[$"/usr/bin/firewall-cmd"; $"--permanent"; $"--add-port=8080/tcp"];
   [$"sudo"; $"-n"; $"/usr/bin/firewall-cmd"; $"--permanent"; $"--add-port=8080/tcp"];
   [$"/usr/bin/firewall-cmd"; $"--reload"]; [$"sudo"; $"-n"; $"/usr/bin/firewall-cmd"; $"--reload"]].
Proof. vm_compute. reflexivity. Qed.
(** A container whose image reference resolves to nothing on the host is recreated,
    and its service label is passed to compose as it is. *)
Example recreate_label :
  match @composeUpdateRecreate _ (demo_ops_host ($"--help")) (mkComposeStore ($"podman") ($"/usr/bin/podman") true)
    (mkTarget ($"shop") [] ($"/srv/shop") []) with
  | Ok attempts => at_args <$> attempts
  | Err _ => []
  end = [[$"-n"; $"/usr/bin/podman"; $"compose"; $"-p"; $"shop"; $"up"; $"-d"; $"--force-recreate"; $"--help"]].
Proof. vm_compute. reflexivity. Qed.
(** [compose.update] can be planned but is not in the list the relay, the stdio
    transport and the jobs dispatch by. *)
Example compose_update_unlisted : isNativeOpSlug ($"compose.update") = false /\
  List.length (plan_attempts (planNativeOp (H0 := demo_ops_host ($"web")) demo_runner ($"compose.update") shop_params)) = 1%nat.
Proof. vm_compute. auto. Qed.

Lemma demo_host_ok label : host_ok (demo_ops_host label).
Proof.
  split; cbn; intros name path.
  - destruct (decide (name = $"podman")) as [->|]; [rewrite lookup_insert_eq; by intros <-%Some_inj|by rewrite lookup_insert_ne].
  - destruct (bool_decide _); [|done]. by intros <-%Some_inj.
Qed.
Lemma demo_stacks_ok : stacks_ok demo_runner.
Proof.
  intros stacks key stack. cbn. intros <-%Some_inj. destruct (decide (key = $"shop")) as [->|]; [rewrite lookup_insert_eq; by intros <-%Some_inj|].
  by rewrite lookup_insert_ne.
Qed.
Definition planned_of (p : planned) : nativeOpPlan := match p with inl plan => plan | inr _ => mkPlan [] [] 0 end.
(** The same host, with the firewall routed through the helper. *)
Definition routed_policy : opPrivPolicy := mkOpPrivPolicy ($"/usr/libexec/maidkit-priv") {| pr_sudo := [$"sudo"; $"-n"] |} false false true.
Definition routed_runner : nativeOpRunner := mkRunner 30 (Some routed_policy) None.
Definition delete_params : opParams := mkOpParams [] 0 false [] [] ($" 8080 ") ($"TCP") [] ($"Allow").
Example routed_firewall : plan_attempts (planNativeOp (H0 := demo_ops_host []) routed_runner ($"firewall.delete") delete_params) =
  [[$"sudo"; $"-n"; $"/usr/libexec/maidkit-priv"; $"firewall"; $"delete"; $"Allow"; $" 8080 "; $"tcp"; $"any"]].
Proof. vm_compute. reflexivity. Qed.
Lemma plan_arguments_safe_witness :
  (let plan := planned_of (planNativeOp (H0 := demo_ops_host ($"web")) demo_runner ($"compose.update") shop_params) in
   known_slug ($"compose.update") /\ Forall (stage_ok ($"shop")) (pl_stages plan)) /\
  (let plan := planned_of (planNativeOp (H0 := demo_ops_host []) routed_runner ($"firewall.delete") delete_params) in
   known_slug ($"firewall.delete") /\ helper_only ($"firewall.delete") delete_params routed_policy (pl_stages plan)).
Proof.
  split; intros plan.
  - destruct (plan_arguments_safe (H := demo_unicode) (demo_ops_host ($"web")) demo_runner ($"compose.update") shop_params (demo_host_ok _) demo_stacks_ok (fun s Hs => Hs) plan) as [Hk Hs].
    + unfold plan. destruct (planNativeOp _ _ _) as [p|e] eqn:E; [done|]. exfalso.
      pose proof (proj2 compose_update_unlisted) as Hl. rewrite E in Hl. discriminate Hl.
    + split; [exact Hk|exact Hs].
  - assert (Hok : stacks_ok routed_runner) by (by intros stacks key stack).
    destruct (plan_arguments_safe (H := demo_unicode) (demo_ops_host []) routed_runner ($"firewall.delete") delete_params (demo_host_ok _) Hok (fun s Hs => Hs) plan) as [Hk Hs].
    + unfold plan. destruct (planNativeOp _ _ _) as [p|e] eqn:E; [done|]. exfalso.
      pose proof routed_firewall as Hl. rewrite E in Hl. discriminate Hl.
    + split; [exact Hk|exact Hs].
Defined.
Lemma compose_one_store_witness :
  let plan := planned_of (planNativeOp (H0 := demo_ops_host ($"web")) demo_runner ($"compose.update") shop_params) in
  exists store, @only_store (demo_ops_host ($"web")) ($"shop") store /\ @stages_in _ (demo_ops_host ($"web")) store (pl_stages plan).
Proof.
  intros plan. destruct (compose_one_store (H0 := demo_ops_host ($"web")) demo_runner ($"compose.update") shop_params plan) as (project & store & Ho & Hs & Hp).
  - left. vm_compute. reflexivity.
  - unfold plan. destruct (planNativeOp _ _ _) as [p|e] eqn:E; [done|]. exfalso.
    pose proof (proj2 compose_update_unlisted) as Hl. rewrite E in Hl. discriminate Hl.
  - exists store. assert (project = $"shop") as -> by (apply Hp; vm_compute; reflexivity). split; [exact Ho|exact Hs].
Defined.
Lemma firewalld_never_applied_witness :
  let plan := planned_of (planNativeOp (H0 := demo_ops_host []) demo_runner ($"firewall.allow") rule_params) in
  exists attempts, pl_stages plan = [mkStage ($"allow") attempts None []] /\ existsb is_reload attempts = true.
Proof.
  intros plan. destruct (firewalld_never_applied (H0 := demo_ops_host []) demo_runner ($"firewall.allow") rule_params plan) as (attempts & Hs & Hr & _).
  - vm_compute. reflexivity.
  - vm_compute. reflexivity.
  - vm_compute. reflexivity.
  - vm_compute. reflexivity.
  - unfold plan. destruct (planNativeOp _ _ _) as [p|e] eqn:E; [done|]. exfalso.
    pose proof firewall_plan as Hl. rewrite E in Hl. discriminate Hl.
  - exists attempts. split; [exact Hs|exact Hr].
Defined.
