(* ===== verification/Tasks.v ===== *)
(** * Tasks: native operations that outlive their request

    [internal/daemon/tasks.go], [tasks_http.go] and the task half of [ops.go]
    ([dispatchTask], [runStages]). A task is a shared object: the store, the run that
    writes to it and the handlers that read it hold the same pointer. It is kept in a
    heap of the system, each of its methods, which takes the task's lock, is one
    atomic function, and [step] interleaves them. Executable methods first; the run of
    a task as a small-step machine; the system, which shares the slots of [Slots] with
    webhook runs, held operations and the reloads that replace them. *)

From S2P Require Import Prelude GoStr Alarms AuditLog Executor Slots Ops.
Open Scope Z_scope.

(** ** The task *)

(** The four states of a task, and the one of a stage the plan has not reached. *)
Inductive taskStatus := taskStatusRunning | taskStatusSucceeded | taskStatusFailed | taskStatusCanceled | stageStatusPending.
#[export] Instance taskStatus_eq_dec : EqDecision taskStatus.
Proof. solve_decision. Defined.
Definition taskOutputLimit : Z := 32 * 1024.
Definition taskHistoryLimit : nat := 32.

Record opTaskStage := mkTaskStage { ts_Label : str; ts_Status : taskStatus; ts_StartedAt : option Z; ts_FinishedAt : option Z }.
(** The error of a run's context, [ctx.Err()]. *)
Inductive ctxError := Canceled | DeadlineExceeded.
#[export] Instance ctxError_eq_dec : EqDecision ctxError.
Proof. solve_decision. Defined.
(** [tk_done]: the channel is closed. The texts of a failure are kept as the error
    they show. *)
Record opTask := mkTask {
  tk_id : str; tk_name : str; tk_displayName : str; tk_target : str; tk_source : str; tk_invokedBy : str;
  tk_status : taskStatus; tk_startedAt : Z; tk_finishedAt : option Z; tk_stages : list opTaskStage;
  tk_ok : bool; tk_exitCode : Z; tk_stdout : str; tk_stderr : str; tk_failure : error;
  tk_output : str; tk_written : Z; tk_done : bool;
}.
Definition no_failure : error := Errorf "" [].
Definition newOpTask (id name displayName target source invokedBy : str) (stages : list opStage) (now : Z) : opTask :=
  mkTask id name displayName target source invokedBy taskStatusRunning now None
    ((fun stage => mkTaskStage (sg_label stage) stageStatusPending None None) <$> stages)
    false 0 [] [] no_failure [] 0 false.
Definition set_stages (f : list opTaskStage -> list opTaskStage) (t : opTask) : opTask :=
  mkTask (tk_id t) (tk_name t) (tk_displayName t) (tk_target t) (tk_source t) (tk_invokedBy t) (tk_status t) (tk_startedAt t)
    (tk_finishedAt t) (f (tk_stages t)) (tk_ok t) (tk_exitCode t) (tk_stdout t) (tk_stderr t) (tk_failure t)
    (tk_output t) (tk_written t) (tk_done t).

(** The loop over the stages: the first one that matches is changed. *)
Fixpoint update_first {A} (P : A -> bool) (f : A -> A) (l : list A) : list A :=
  match l with
  | [] => []
  | x :: l => if P x then f x :: l else x :: update_first P f l
  end.
Definition stageStarted (label : str) (now : Z) (t : opTask) : opTask :=
  set_stages (update_first (fun s => bool_decide (ts_Label s = label) && bool_decide (ts_Status s = stageStatusPending))
    (fun s => mkTaskStage (ts_Label s) taskStatusRunning (Some now) (ts_FinishedAt s))) t.
Definition stageFinished (label : str) (ok : bool) (now : Z) (t : opTask) : opTask :=
  set_stages (update_first (fun s => bool_decide (ts_Label s = label) && bool_decide (ts_Status s = taskStatusRunning))
    (fun s => mkTaskStage (ts_Label s) (if ok then taskStatusSucceeded else taskStatusFailed) (ts_StartedAt s) (Some now))) t.

(** [Write]: the retained tail and the 64-bit count of everything written. *)
Definition Write (p : str) (t : opTask) : opTask :=
  let output := tk_output t ++ p in
  let output := if taskOutputLimit <? Z.of_nat (List.length output)
                then drop (List.length output - Z.to_nat taskOutputLimit) output else output in
  mkTask (tk_id t) (tk_name t) (tk_displayName t) (tk_target t) (tk_source t) (tk_invokedBy t) (tk_status t) (tk_startedAt t)
    (tk_finishedAt t) (tk_stages t) (tk_ok t) (tk_exitCode t) (tk_stdout t) (tk_stderr t) (tk_failure t)
    output (wrap64 (tk_written t + Z.of_nat (List.length p))) (tk_done t).

Definition finish_status (ok : bool) (ctxErr : option ctxError) : taskStatus :=
  match ctxErr with
  | None => if ok then taskStatusSucceeded else taskStatusFailed
  | Some Canceled => taskStatusCanceled
  | Some DeadlineExceeded => taskStatusFailed
  end.
(** [finish] closes [done] after the update; closing it twice would panic ([None]). *)
Definition finish (response : executionResponse) (ctxErr : option ctxError) (timeout now : Z) (t : opTask) : option opTask :=
  if tk_done t then None
  else
    Some (mkTask (tk_id t) (tk_name t) (tk_displayName t) (tk_target t) (tk_source t) (tk_invokedBy t)
      (finish_status (rs_OK response) ctxErr) (tk_startedAt t) (Some now) (tk_stages t)
      (rs_OK response) (rs_ExitCode response) (rs_Stdout response) (rs_Stderr response)
      match ctxErr with
      | Some Canceled => Errorf "the run was cancelled" []
      | Some DeadlineExceeded => Errorf "the run timed out after %s" [FInt timeout]
      | None => if rs_OK response then no_failure else Errorf "%s" [FStr (auditErrorTail response)]
      end
      (tk_output t) (tk_written t) true).
Definition finished (t : opTask) : bool := negb (bool_decide (tk_status t = taskStatusRunning)).

(** [outputSince]: the chunk, where it begins, and whether it replaces what the
    client holds. *)
Definition outputSince (since : Z) (t : opTask) : str * Z * bool :=
  let from := tk_written t - Z.of_nat (List.length (tk_output t)) in
  if since <? 0 then (tk_output t, from, false)
  else if since <? from then (tk_output t, from, true)
  else
    let since := if tk_written t <? since then tk_written t else since in
    let offset := Z.min (since - from) (Z.of_nat (List.length (tk_output t))) in
    (drop (Z.to_nat offset) (tk_output t), since, false).

(** ** The store *)

Abbreviation pointer := nat.
Record taskStore := mkTaskStore { byID : gmap str pointer; order : list str }.
Definition newTaskStore : taskStore := mkTaskStore ∅ [].
Section store.
(** What a pointer points to. *)
Context (heap : list opTask).
Definition task_finished (p : pointer) : bool := match heap !! p with Some t => finished t | None => false end.
Definition id_finished (m : gmap str pointer) (id : str) : bool := match m !! id with Some p => task_finished p | None => false end.
(** The second loop of [add], from the oldest: [rev_order] is walked from its head,
    finished tasks are dropped while there are more than the limit. *)
Fixpoint trim (rev_order : list str) (m : gmap str pointer) (finished : nat) : list str * gmap str pointer :=
  match rev_order with
  | [] => ([], m)
  | id :: rest =>
      if (finished <=? taskHistoryLimit)%nat then (rev_order, m)
      else if id_finished m id then trim rest (delete id m) (finished - 1)
      else let '(kept, m) := trim rest m finished in (id :: kept, m)
  end.
Definition add (id : str) (p : pointer) (s : taskStore) : taskStore :=
  let m := <[id := p]> (byID s) in
  let ids := id :: order s in
  let count := List.length (filter (fun i => id_finished m i = true) ids) in
  let '(kept, m) := trim (rev ids) m count in
  mkTaskStore m (rev kept).
Definition get (id : str) (s : taskStore) : option pointer := byID s !! id.
(** [list]: pointers of the newest tasks; each is then read on its own. *)
Definition list_tasks (limit : Z) (s : taskStore) : list pointer :=
  let ordered := omap (fun id => byID s !! id) (order s) in
  if (limit <=? 0) || (Z.of_nat (List.length ordered) <? limit) then ordered else take (Z.to_nat limit) ordered.
End store.

(** ** The HTTP handlers *)

(** [handleTaskGet]: the query's [since] as a byte count, [None] for a 400. *)
Definition parse_since (raw : str) : option Z :=
  if bool_decide (raw = []) then Some (-1)
  else match Atoi raw with Some v => if v <? 0 then None else Some v | None => None end.
Definition taskListLimit : Z := 64.
Definition parse_limit (raw : str) : option Z :=
  if bool_decide (raw = []) then Some 20
  else match Atoi raw with Some v => if v <=? 0 then None else Some (Z.min v taskListLimit) | None => None end.

Example output_ex :
  let t := Write ($"hello ") (Write ($"world") (newOpTask [] [] [] [] [] [] [] 0)) in
  outputSince 0 t = ($"worldhello ", 0, false) /\ outputSince 5 t = ($"hello ", 5, false) /\ outputSince 99 t = ([], 11, false).
Proof. vm_compute. auto. Qed.

(** ** The run of a task

    [runStages] with a task, and the goroutine of [dispatchTask] around it, cut at
    every point where it takes the task's lock or waits for the system. *)

(** The outputs so far, and the exit code of the failure that ended the plan. *)
Record run_acc := mkAcc { ac_stdout : str; ac_stderr : str; ac_failure : option Z }.
Definition no_acc : run_acc := mkAcc [] [] None.
Definition primary_failure : Type := str * str * Z.
Inductive pc :=
  | PNext (stages : list opStage) (acc : run_acc)
  | PStage (stage : opStage) (rest : list opStage) (acc : run_acc)
  | PTry (label : str) (attempts : list opAttempt) (primary : option primary_failure) (rest : list opStage) (acc : run_acc)
  | PStream (writes : list str) (result : str * str * Z * option run_error) (late : bool)
      (label : str) (attempts : list opAttempt) (primary : option primary_failure) (rest : list opStage) (acc : run_acc)
  | PEnd (label : str) (ok : bool) (rest : list opStage) (acc : run_acc)
  | PReport (acc : run_acc)
  | PFinish (response : executionResponse)
  | PRelease
  | PReceive
  | PStopped.

(** The chunks of a stream that reach the task: those the bounded buffer took whole. *)
Fixpoint delivered (b : limitedBuffer) (chunks : list str) : list str :=
  match chunks with
  | [] => []
  | p :: chunks =>
      let '(b, n) := limitedBuffer_Write b p in
      if (n =? List.length p)%nat then p :: delivered b chunks else []
  end.
(** [l] is [l1] and [l2] in some order that keeps each. *)
Fixpoint interleaves (l1 l2 l : list str) : bool :=
  match l with
  | [] => bool_decide (l1 = []) && bool_decide (l2 = [])
  | x :: l =>
      match l1 with y :: l1' => bool_decide (x = y) && interleaves l1' l2 l | [] => false end
      || match l2 with y :: l2' => bool_decide (x = y) && interleaves l1 l2' l | [] => false end
  end.
(** What a step of a run is told by the system: the host a stage is built on, what
    the command does, the order its output arrives in, and whether the deadline has
    passed when it ends. *)
Record choice := mkChoice { ch_host : OpsHost; ch_process : process; ch_writes : list str; ch_late : bool }.

Section run.
Context `{ExecEnv} (c : choice) (now : Z).
Definition stage_attempts (stage : opStage) : res (list opAttempt) :=
  match sg_build stage with Some build => build (ch_host c) | None => Ok (sg_attempts stage) end.
Definition append_out (acc : run_acc) (stdout stderr : str) : run_acc :=
  mkAcc (appendStageOutput (ac_stdout acc) stdout) (appendStageOutput (ac_stderr acc) stderr) (ac_failure acc).
Definition fail_acc (acc : run_acc) (exitCode : Z) : run_acc := mkAcc (ac_stdout acc) (ac_stderr acc) (Some exitCode).

(** One step: the new program counter and what it does to the task. *)
Definition advance (p : pc) : option (pc * (opTask -> opTask)) :=
  match p with
  | PNext [] acc => Some (PReport acc, id)
  | PNext (stage :: rest) acc => Some (PStage stage rest acc, stageStarted (sg_label stage) now)
  | PStage stage rest acc =>
      match stage_attempts stage with
      | Err e => Some (PEnd (sg_label stage) false rest (fail_acc (append_out acc [] (error_text e)) (-1)), id)
      | Ok [] =>
          let note := TrimSpace (sg_idle stage) in
          if bool_decide (note = []) then Some (PEnd (sg_label stage) true rest acc, id)
          else Some (PEnd (sg_label stage) true rest (append_out acc note []), Write (note ++ [newline]))
      | Ok attempts => Some (PTry (sg_label stage) attempts None rest acc, id)
      end
  | PTry label [] primary rest acc => None
  | PTry label (t :: attempts) primary rest acc =>
      let out := delivered (mkLimitedBuffer [] outputLimit) (pr_stdout (ch_process c)) in
      let err := delivered (mkLimitedBuffer [] outputLimit) (pr_stderr (ch_process c)) in
      if interleaves out err (ch_writes c) then
        Some (PStream (ch_writes c) (runOpOnce (ch_process c)) (ch_late c) label attempts primary rest acc, id)
      else None
  | PStream (p :: writes) result late label attempts primary rest acc =>
      Some (PStream writes result late label attempts primary rest acc, Write p)
  | PStream [] (stdout, stderr, code, err) late label attempts primary rest acc =>
      match err with
      | None => Some (PEnd label true rest (append_out acc stdout stderr), id)
      | Some _ =>
          let first := default (stdout, stderr, code) primary in
          if late || bool_decide (attempts = []) then
            Some (PEnd label false rest (fail_acc (append_out acc first.1.1 first.1.2) first.2), id)
          else Some (PTry label attempts (Some first) rest acc, id)
      end
  | PEnd label ok rest acc =>
      Some (if ok then PNext rest acc else PReport acc, stageFinished label ok now)
  | PReport _ | PFinish _ | PRelease | PReceive | PStopped => None
  end.
End run.
#[export] Instance opAttempt_eq_dec : EqDecision opAttempt.
Proof. solve_decision. Defined.

(** ** The system *)

(** A run: what [runContext] gave it (its context's error and its deadline), who asked. *)
Record task_run := mkRun { rn_pc : pc; rn_ctx : option ctxError; rn_timeout : Z }.
(** Task [i] of the heap is the one run [i] writes to, and run [task_key i] of the slots;
    the odd keys are the runs of webhooks and of held operations. The audit log and
    the failure notifications are kept in order. *)
Record system := mkSystem {
  sy_heap : list opTask;
  sy_runs : list task_run;
  sy_store : taskStore;
  sy_slots : slots_state;
  sy_audit : list (pointer * auditEntry);
  sy_notified : list (str * str);
}.
Definition task_key (i : pointer) : nat := 2 * i.
Definition start_system (cap : nat) : system := mkSystem [] [] newTaskStore (Slots.start cap) [] [].

(** [Slot]: a step of another run with its slot, or the replacement of the slots. *)
Inductive label :=
  | Dispatch (id slug displayName : str) (plan : nativeOpPlan) (source invokedBy : str) (now : Z)
  | Run (i : nat) (c : choice) (now : Z)
  | CancelTask (id : str)
  | CancelAll
  | Deadline (i : nat)
  | Slot (l : Slots.label).

Definition set_run (i : nat) (r : task_run) (s : system) : system :=
  mkSystem (sy_heap s) (<[i := r]> (sy_runs s)) (sy_store s) (sy_slots s) (sy_audit s) (sy_notified s).
Definition set_slots (slots : slots_state) (s : system) : system :=
  mkSystem (sy_heap s) (sy_runs s) (sy_store s) slots (sy_audit s) (sy_notified s).
Definition cancel_run (i : nat) (s : system) : system :=
  match sy_heap s !! i, sy_runs s !! i with
  | Some t, Some r => if finished t then s else set_run i (mkRun (rn_pc r) (Some (default Canceled (rn_ctx r))) (rn_timeout r)) s
  | _, _ => s
  end.
Definition with_run (i : nat) (r : task_run) (t : opTask) (s : system) : system :=
  mkSystem (<[i := t]> (sy_heap s)) (<[i := r]> (sy_runs s)) (sy_store s) (sy_slots s) (sy_audit s) (sy_notified s).
Definition response_of (t : opTask) (acc : run_acc) : executionResponse :=
  mkResponse (negb (is_Some_b (ac_failure acc))) (tk_name t) (default 0 (ac_failure acc)) (ac_stdout acc) (ac_stderr acc) [].
Definition audit_of_task (t : opTask) (r : executionResponse) : auditEntry :=
  mkAuditEntry (tk_name t) (tk_displayName t) (tk_source t) (tk_invokedBy t) [] false
    (rs_OK r) (rs_ExitCode r) (rs_Stdout r) (rs_Stderr r) (auditErrorTail r).
(** publishFailure: the title and the body of the notification of a failed operation. *)
Definition failure_notice (t : opTask) (r : executionResponse) : list (str * str) :=
  if rs_OK r || bool_decide (tk_source t = $"job") then []
  else
    let body := TrimSpace (rs_Stderr r) in
    let body := if bool_decide (body = []) then TrimSpace (rs_Stdout r) else body in
    [(tk_displayName t ++ $" failed", take 4096 body)].

(** [releaseSlot] reads the field of the executor and receives from the channel it found. *)
Definition run_step `{ExecEnv} (i : nat) (c : choice) (now : Z) (s : system) : option system :=
  match sy_heap s !! i, sy_runs s !! i with
  | Some t, Some r =>
      let goto p := set_run i (mkRun p (rn_ctx r) (rn_timeout r)) in
      match rn_pc r with
      | PReport acc =>
          let response := response_of t acc in
          Some (mkSystem (sy_heap s) (<[i := mkRun (PFinish response) (rn_ctx r) (rn_timeout r)]> (sy_runs s)) (sy_store s)
                  (sy_slots s) (sy_audit s ++ [(i, audit_of_task t response)]) (sy_notified s ++ failure_notice t response))
      | PFinish response =>
          match finish response (rn_ctx r) (rn_timeout r) now t with
          | Some t => Some (with_run i (mkRun PRelease (rn_ctx r) (rn_timeout r)) t s)
          | None => None
          end
      | PRelease => (fun slots => goto PReceive (set_slots slots s)) <$> Slots.step (ReadN (task_key i)) (sy_slots s)
      | PReceive => (fun slots => goto PStopped (set_slots slots s)) <$> Slots.step (ReceiveN (task_key i)) (sy_slots s)
      | p =>
          match advance c now p with
          | Some (p, f) => Some (with_run i (mkRun p (rn_ctx r) (rn_timeout r)) (f t) s)
          | None => None
          end
      end
  | _, _ => None
  end.

(** Whether a step of the slots is none of a task's. *)
Definition foreign (l : Slots.label) : bool := match label_run l with Some t => Nat.odd t | None => true end.
Definition sys_step `{ExecEnv} (l : label) (s : system) : option system :=
  match l with
  | Dispatch id slug displayName plan source invokedBy now =>
      let p := List.length (sy_heap s) in
      match Slots.step (AcquireN (task_key p)) (sy_slots s) with
      | Some slots =>
          let heap := sy_heap s ++ [newOpTask id slug displayName (pl_target plan) source invokedBy (pl_stages plan) now] in
          Some (mkSystem heap (sy_runs s ++ [mkRun (PNext (pl_stages plan) no_acc) None (pl_timeout plan)])
                  (add heap id p (sy_store s)) slots (sy_audit s) (sy_notified s))
      | None => None
      end
  | Run i c now => run_step i c now s
  | CancelTask id => match get id (sy_store s) with Some p => Some (cancel_run p s) | None => None end
  | CancelAll => Some (fold_left (fun s p => cancel_run p s) (map_to_list (byID (sy_store s))).*2 s)
  | Deadline i =>
      match sy_runs s !! i with
      | Some (mkRun p None timeout) => if 0 <? timeout then Some (set_run i (mkRun p (Some DeadlineExceeded) timeout) s) else None
      | _ => None
      end
  | Slot l => if foreign l then (fun slots => set_slots slots s) <$> Slots.step l (sy_slots s) else None
  end.
Fixpoint sys_steps `{ExecEnv} (ls : list label) (s : system) : option system :=
  match ls with
  | [] => Some s
  | l :: ls => match sys_step l s with Some s => sys_steps ls s | None => None end
  end.
