(* ===== verification/TasksFacts.v ===== *)
(** * TasksFacts: what a task's watcher sees, and how its run ends

    A client that polls for output holds exactly a tail of what was written
    ([follow_exact]); the reachable states of the task system ([tasks_sound]); and
    every run ends, with its task finished and, unless the slots were replaced under it,
    its slot returned ([runs_terminate]). *)

From stdpp Require Import relations.
From Stdlib Require Import Relations.Relation_Operators Wellfounded.Lexicographic_Product Wellfounded.Inverse_Image Wellfounded.Inclusion.
From S2P Require Import Prelude GoStr Alarms AuditLog Executor Slots Ops Tasks.
Open Scope Z_scope.

(** ** Following the output *)

(** What happens to a task as one watcher sees it. *)
Inductive watched := Wrote (p : str) | Polled.
(** The watcher: the text it holds and the offset it asks from; it starts without one. *)
Record watcher := mkWatcher { wt_text : str; wt_next : Z }.
Definition poll (t : opTask) (w : watcher) : watcher :=
  let '(chunk, from, truncated) := outputSince (wt_next w) t in
  mkWatcher (if truncated then chunk else wt_text w ++ chunk) (from + Z.of_nat (List.length chunk)).
Definition watch (ev : watched) (s : opTask * watcher) : opTask * watcher :=
  match ev with Wrote p => (Write p s.1, s.2) | Polled => (s.1, poll s.1 s.2) end.
Definition play (evs : list watched) (s : opTask * watcher) : opTask * watcher := fold_left (fun s ev => watch ev s) evs s.

(** The specification: the bytes read by the last poll, those written after it, and
    whether too many were ever written between two polls. *)
Record log_spec := mkLog { lg_read : str; lg_unread : str; lg_overrun : bool }.
Definition watch_spec (ev : watched) (l : log_spec) : log_spec :=
  match ev with
  | Wrote p => mkLog (lg_read l) (lg_unread l ++ p) (lg_overrun l)
  | Polled => mkLog (lg_read l ++ lg_unread l) [] (lg_overrun l || (taskOutputLimit <? Z.of_nat (List.length (lg_unread l))))
  end.
Definition play_spec (evs : list watched) (l : log_spec) : log_spec := fold_left (fun l ev => watch_spec ev l) evs l.
Definition full_log (l : log_spec) : str := lg_read l ++ lg_unread l.

(** The task's side: the tail of the log and its length. *)
Definition tail_of (full : str) : str := drop (List.length full - Z.to_nat taskOutputLimit) full.
Record holds_log (full : str) (t : opTask) : Prop := {
  hl_output : tk_output t = tail_of full;
  hl_written : tk_written t = Z.of_nat (List.length full);
}.
(** The watcher's side. *)
Record follows (l : log_spec) (w : watcher) : Prop := {
  fw_text : exists gone, lg_read l = gone ++ wt_text w /\ (lg_overrun l = false -> gone = []);
  fw_next : wt_next w = Z.of_nat (List.length (lg_read l)) \/ wt_next w = -1 /\ lg_read l = [] /\ wt_text w = [];
}.

Lemma taskOutputLimit_pos : 0 < taskOutputLimit.
Proof. by vm_compute. Qed.
Lemma length_tail full : Z.of_nat (List.length (tail_of full)) = Z.min taskOutputLimit (Z.of_nat (List.length full)).
Proof. unfold tail_of. rewrite length_drop. pose proof taskOutputLimit_pos. lia. Qed.
Lemma tail_of_app full p : tail_of (tail_of full ++ p) = tail_of (full ++ p).
Proof.
  unfold tail_of. rewrite !length_app, length_drop. generalize (Z.to_nat taskOutputLimit) as n. intros n.
  destruct (Nat.le_ge_cases (List.length full) n).
  - rewrite (proj2 (Nat.sub_0_le (List.length full) n)) by done. rewrite drop_0. do 2 f_equal. lia.
  - rewrite <-(drop_app_le full p (List.length full - n)) by lia. rewrite drop_drop. f_equal. lia.
Qed.
Lemma Write_tail p t : tk_output (Write p t) = tail_of (tk_output t ++ p).
Proof.
  unfold Write. cbn [tk_output]. unfold tail_of. destruct (Z.ltb_spec taskOutputLimit (Z.of_nat (List.length (tk_output t ++ p)))); [done|].
  rewrite (proj2 (Nat.sub_0_le _ _)); [by rewrite drop_0|]. pose proof taskOutputLimit_pos. lia.
Qed.
Lemma wrap64_small n : 0 <= n < 2 ^ 63 -> wrap64 n = n.
Proof. intros Hn. unfold wrap64. rewrite Z.mod_small; lia. Qed.
Lemma holds_Write full p t : holds_log full t -> Z.of_nat (List.length (full ++ p)) < 2 ^ 63 -> holds_log (full ++ p) (Write p t).
Proof.
  intros [Ho Hw] Hl. split.
  - by rewrite Write_tail, Ho, tail_of_app.
  - unfold Write. cbn [tk_written]. rewrite Hw, length_app in *. rewrite wrap64_small; lia.
Qed.
Lemma follows_poll l w t : holds_log (full_log l) t -> follows l w -> follows (watch_spec Polled l) (poll t w).
Proof.
  intros [Ho Hw] [(gone & Hr & Hg) Hn]. unfold poll, outputSince. rewrite Ho, Hw, length_tail.
  pose proof taskOutputLimit_pos as Hpos. set (full := full_log l) in *. cbv zeta.
  assert (Htail : full = take (List.length full - Z.to_nat taskOutputLimit) full ++ tail_of full) by (unfold tail_of; by rewrite take_drop).
  assert (Hlen : Z.of_nat (List.length full) = Z.of_nat (List.length (lg_read l)) + Z.of_nat (List.length (lg_unread l)))
    by (unfold full, full_log; rewrite length_app; lia).
  destruct Hn as [Hn|(Hn & Hr0 & Ht0)]; rewrite Hn.
  - rewrite (proj2 (Z.ltb_ge _ 0)) by lia. destruct (Z.ltb_spec (Z.of_nat (List.length (lg_read l))) (Z.of_nat (List.length full) - Z.min taskOutputLimit (Z.of_nat (List.length full)))) as [Hb|Hb].
    + split; cbn [wt_text wt_next watch_spec lg_read lg_overrun].
      * exists (take (List.length full - Z.to_nat taskOutputLimit) full). split; [exact Htail|].
        intros [_ Hov%Z.ltb_ge]%orb_false_iff. exfalso. lia.
      * left. rewrite length_tail. fold full. unfold full_log in full. fold full. lia.
    + rewrite (proj2 (Z.ltb_ge (Z.of_nat (List.length full)) _)) by lia.
      rewrite Z.min_l by lia. set (k := Z.to_nat _).
      assert (Hk : drop k (tail_of full) = lg_unread l).
      { unfold tail_of. rewrite drop_drop. transitivity (drop (List.length (lg_read l)) full); [f_equal; unfold k; lia|]. unfold full, full_log. apply drop_app_length. }
      rewrite Hk. split; cbn [wt_text wt_next watch_spec lg_read lg_overrun].
      * exists gone. split; [by rewrite Hr, <-(assoc_L (++))|]. intros [Hov _]%orb_false_iff. by apply Hg.
      * left. rewrite length_app. lia.
  - rewrite (proj2 (Z.ltb_lt (-1) 0)) by lia. rewrite Ht0. split; cbn [wt_text wt_next watch_spec lg_read lg_overrun app].
    + exists (take (List.length full - Z.to_nat taskOutputLimit) full). split; [exact Htail|].
      intros [_ Hov%Z.ltb_ge]%orb_false_iff. rewrite Hr0 in Hlen. cbn in Hlen. replace (List.length full - Z.to_nat taskOutputLimit)%nat with 0%nat by lia. done.
    + left. rewrite length_tail. unfold full_log in full. fold full. lia.
Qed.
Lemma play_follows evs l t w : holds_log (full_log l) t -> follows l w -> Z.of_nat (List.length (full_log (play_spec evs l))) < 2 ^ 63 ->
  let s := play evs (t, w) in holds_log (full_log (play_spec evs l)) s.1 /\ follows (play_spec evs l) s.2.
Proof.
  assert (Hgrow : forall evs l, (List.length (full_log l) <= List.length (full_log (play_spec evs l)))%nat).
  { clear. induction evs as [|ev evs IH]; intros l; [done|]. cbn [play_spec fold_left]. etrans; [|apply IH].
    destruct ev; unfold full_log; cbn [watch_spec lg_read lg_unread]; rewrite ?length_app; cbn; lia. }
  revert l t w. induction evs as [|ev evs IH]; intros l t w Ht Hw Hlen; [done|].
  change (play (ev :: evs) (t, w)) with (play evs (watch ev (t, w))). change (play_spec (ev :: evs) l) with (play_spec evs (watch_spec ev l)) in *.
  rewrite (surjective_pairing (watch ev (t, w))). apply IH; [| |exact Hlen].
  - destruct ev as [p|]; cbn [watch fst watch_spec].
    + unfold full_log. cbn [lg_read lg_unread]. rewrite (assoc_L (++)). apply holds_Write; [exact Ht|].
      specialize (Hgrow evs (watch_spec (Wrote p) l)). unfold full_log at 1 in Hgrow. cbn [watch_spec lg_read lg_unread] in Hgrow.
      rewrite (assoc_L (++)) in Hgrow. cbn [watch_spec] in Hlen. lia.
    + unfold full_log. cbn [lg_read lg_unread]. by rewrite app_nil_r.
  - destruct ev as [p|]; cbn [watch snd]; [by destruct Hw|]. by apply follows_poll.
Qed.

(** Following a task. Whatever is written to a task and whenever a client polls,
    appending the chunk or, when told so, replacing its text by it, and asking next
    from where the chunk ended: after each poll the client's text is a tail of exactly
    the bytes written before it, and all of them unless more than
    [taskOutputLimit] bytes were ever written between two polls. *)
Theorem follow_exact evs t : tk_output t = [] -> tk_written t = 0 ->
  let l := play_spec evs (mkLog [] [] false) in
  Z.of_nat (List.length (full_log l)) < 2 ^ 63 ->
  let w := (play evs (t, mkWatcher [] (-1))).2 in
  exists gone, lg_read l = gone ++ wt_text w /\ (lg_overrun l = false -> gone = []) /\
    (lg_read l <> [] -> wt_next w = Z.of_nat (List.length (lg_read l))).
Proof.
  intros Ho Hw l Hl w. destruct (play_follows evs (mkLog [] [] false) t (mkWatcher [] (-1))) as [_ [(gone & Hr & Hg) Hn]]; [by split| |exact Hl|].
  { split; [by exists []|by right]. }
  exists gone. split_and!; [exact Hr|exact Hg|]. intros Hne. by destruct Hn as [|(_ & ? & _)].
Qed.

(** ** The plan of a task *)

Definition statuses (t : opTask) : list taskStatus := ts_Status <$> tk_stages t.
Definition labels (t : opTask) : list str := ts_Label <$> tk_stages t.
(** [k] stages succeeded, then [cur], and the rest are pending. *)
Definition at_stage (k : nat) (cur : list taskStatus) (m : nat) (t : opTask) : Prop :=
  statuses t = replicate k taskStatusSucceeded ++ cur ++ replicate m stageStatusPending.
Definition plan_ended (ok : bool) (t : opTask) : Prop :=
  if ok then at_stage (List.length (tk_stages t)) [] 0 t
  else exists k m, at_stage k [taskStatusFailed] m t.
(** The current stage is running and the rest of the plan is to come. *)
Definition in_stage (label : str) (rest : list opStage) (t : opTask) : Prop :=
  exists k, at_stage k [taskStatusRunning] (List.length rest) t /\ drop k (labels t) = label :: (sg_label <$> rest).
Definition plan_shape (p : pc) (t : opTask) : Prop :=
  match p with
  | PNext stages acc => ac_failure acc = None /\ exists k, at_stage k [] (List.length stages) t /\ drop k (labels t) = sg_label <$> stages
  | PStage stage rest acc => ac_failure acc = None /\ in_stage (sg_label stage) rest t
  | PTry label attempts _ rest acc => ac_failure acc = None /\ attempts <> [] /\ in_stage label rest t
  | PStream _ _ _ label _ _ rest acc => ac_failure acc = None /\ in_stage label rest t
  | PEnd label ok rest acc => ok = negb (is_Some_b (ac_failure acc)) /\ in_stage label rest t
  | PReport acc => plan_ended (negb (is_Some_b (ac_failure acc))) t
  | PFinish response => plan_ended (rs_OK response) t
  | PRelease | PReceive | PStopped => plan_ended (tk_ok t) t
  end.
Definition ended (p : pc) : bool := match p with PRelease | PReceive | PStopped => true | _ => false end.
Definition stopped (p : pc) : bool := match p with PStopped => true | _ => false end.
Definition reported (p : pc) : bool := match p with PFinish _ | PRelease | PReceive | PStopped => true | _ => false end.
(** What the run has of the slots: it holds one, is giving it back, or has none. *)
Definition holding (p : pc) (o : option phase) : Prop :=
  match p with PStopped => o = None | PReceive => exists i, o = Some (NRel i) | _ => o = Some NRun end.
(** The state of the task agrees with its run. *)
Definition task_state (p : pc) (t : opTask) : Prop :=
  if ended p then exists ctx, tk_status t = finish_status (tk_ok t) ctx /\ tk_done t = true /\ is_Some (tk_finishedAt t)
  else tk_status t = taskStatusRunning /\ tk_done t = false /\ tk_finishedAt t = None.
Definition run_ok (p : pc) (t : opTask) : Prop := plan_shape p t /\ task_state p t.

Lemma update_first_split {A} (P : A -> bool) f (l1 l2 : list A) x : Forall (fun y => P y = false) l1 -> P x = true ->
  update_first P f (l1 ++ x :: l2) = l1 ++ f x :: l2.
Proof.
  intros Hl Hx. induction Hl as [|y l1 Hy _ IH]; cbn [app update_first]; [by rewrite Hx|]. rewrite Hy. by rewrite IH.
Qed.
(** Changing the stage at position [k], when no stage before it matches. *)
Lemma update_stage P f (t : opTask) k cur new label rest m :
  at_stage k cur m t -> List.length cur = 0%nat \/ List.length cur = 1%nat ->
  drop k (labels t) = label :: rest -> (forall s, ts_Status s = taskStatusSucceeded -> P s = false) ->
  (forall s, ts_Label s = label -> Some (ts_Status s) = head (cur ++ replicate m stageStatusPending) -> P s = true /\ ts_Label (f s) = label /\ ts_Status (f s) = new) ->
  let t' := set_stages (update_first P f) t in
  statuses t' = replicate k taskStatusSucceeded ++ new :: tail (cur ++ replicate m stageStatusPending) /\ labels t' = labels t.
Proof.
  intros Hst Hcur Hlab HP Hf. unfold at_stage, statuses, labels, set_stages in *. cbn [tk_stages]. set (l := tk_stages t) in *. clearbody l.
  assert (Hk : exists l1 x l2, l = l1 ++ x :: l2 /\ List.length l1 = k).
  { exists (take k l). destruct (drop k l) as [|x l2] eqn:E; [by rewrite skipn_map, E in Hlab|]. exists x, l2. split; [by rewrite <-E, take_drop|].
    rewrite length_take. assert (Hd : (List.length (drop k l) > 0)%nat) by (rewrite E; cbn; lia). rewrite length_drop in Hd. lia. }
  destruct Hk as (l1 & x & l2 & -> & Hk). rewrite !fmap_app in *. cbn [fmap list_fmap] in *. rewrite drop_app_length' in Hlab by by rewrite length_fmap.
  injection Hlab as Hx Hr. apply app_inj_1 in Hst as [Hst1 Hst2]; [|by rewrite length_fmap, length_replicate].
  assert (Hhead : Some (ts_Status x) = head (cur ++ replicate m stageStatusPending)) by (rewrite <-Hst2; done).
  destruct (Hf x Hx Hhead) as (HPx & Hfl & Hfs). rewrite update_first_split; [|clear -Hst1 HP Hk|done].
  - rewrite !fmap_app. cbn [fmap list_fmap]. change ((fun s => ts_Status s) <$> l1) with (ts_Status <$> l1). rewrite Hst1, Hfs, Hfl, Hx. rewrite <-Hst2. done.
  - apply Forall_forall. intros y Hy. apply HP. assert (Hin : ts_Status y ∈ ts_Status <$> l1) by by apply list_elem_of_fmap_2.
    rewrite Hst1 in Hin. by apply elem_of_replicate in Hin as [-> _].
Qed.
Lemma started_shape stage rest t now : (exists k, at_stage k [] (S (List.length rest)) t /\ drop k (labels t) = sg_label stage :: (sg_label <$> rest)) ->
  in_stage (sg_label stage) rest (stageStarted (sg_label stage) now t).
Proof.
  intros (k & Hst & Hlab). unfold stageStarted.
  destruct (update_stage (fun s => bool_decide (ts_Label s = sg_label stage) && bool_decide (ts_Status s = stageStatusPending))
    (fun s => mkTaskStage (ts_Label s) taskStatusRunning (Some now) (ts_FinishedAt s)) t k [] taskStatusRunning (sg_label stage) _ _ Hst ltac:(by left) Hlab) as [H1 H2].
  - intros s ->. by rewrite andb_false_r.
  - intros s -> [= Hs]. rewrite Hs. split_and!; [|done|done]. by rewrite !bool_decide_true.
  - exists k. unfold at_stage. rewrite H1, H2. done.
Qed.
Lemma finished_shape label ok rest t now : in_stage label rest t ->
  let t' := stageFinished label ok now t in
  if ok then exists k, at_stage k [] (List.length rest) t' /\ drop k (labels t') = sg_label <$> rest
  else exists k, at_stage k [taskStatusFailed] (List.length rest) t'.
Proof.
  intros (k & Hst & Hlab) t'.
  destruct (update_stage (fun s => bool_decide (ts_Label s = label) && bool_decide (ts_Status s = taskStatusRunning))
    (fun s => mkTaskStage (ts_Label s) (if ok then taskStatusSucceeded else taskStatusFailed) (ts_StartedAt s) (Some now)) t k [taskStatusRunning]
    (if ok then taskStatusSucceeded else taskStatusFailed) label _ _ Hst ltac:(by right) Hlab) as [H1 H2].
  - intros s ->. by rewrite andb_false_r.
  - intros s -> [= Hs]. rewrite Hs. split_and!; [|done|done]. by rewrite !bool_decide_true.
  - fold (stageFinished label ok now t) in H1, H2. fold t' in H1, H2. destruct ok.
    + exists (S k). unfold at_stage. rewrite H1, H2. split; [rewrite replicate_S_end, <-(assoc_L (++)); done|].
      apply (f_equal (drop 1)) in Hlab. rewrite drop_drop in Hlab. by rewrite Nat.add_comm in Hlab.
    + exists k. unfold at_stage. by rewrite H1.
Qed.
Lemma all_succeeded t k : at_stage k [] 0 t -> plan_ended true t.
Proof.
  unfold plan_ended, at_stage. intros Hst. pose proof (f_equal List.length Hst) as Hl. unfold statuses in Hl. rewrite length_fmap, length_app, length_replicate in Hl.
  cbn in Hl. rewrite Nat.add_0_r in Hl. by rewrite Hl.
Qed.

(** What the methods of a task leave alone. *)
Record same_task (t t' : opTask) : Prop := {
  sm_id : tk_id t' = tk_id t;
  sm_status : tk_status t' = tk_status t;
  sm_done : tk_done t' = tk_done t;
  sm_finishedAt : tk_finishedAt t' = tk_finishedAt t;
}.
Lemma same_state p p' t t' : same_task t t' -> ended p = false -> ended p' = false -> task_state p t -> task_state p' t'.
Proof. intros [_ H1 H2 H3] He He'. unfold task_state. rewrite He, He', H1, H2, H3. done. Qed.
Lemma in_stage_Write label rest p t : in_stage label rest t -> in_stage label rest (Write p t).
Proof. done. Qed.

Ltac shape := split; [cbn [plan_shape]|by repeat split].
Section advance.
Context `{ExecEnv} (c : choice) (now : Z).
(** A step of the plan keeps its shape, and nothing else of the task. *)
Lemma advance_shape p p' f t : plan_shape p t -> advance c now p = Some (p', f) ->
  plan_shape p' (f t) /\ same_task t (f t) /\ ended p = false /\ ended p' = false /\ reported p = false /\ reported p' = false.
Proof.
  intros Hp Ha. destruct p as [[|stage stages] acc|stage rest acc|lb attempts primary rest acc|writes [[[out err] code] e] late lb attempts primary rest acc
    |lb ok rest acc| | | | |]; cbn [advance] in Ha; try done.
  - apply Some_inj in Ha. injection Ha as <- <-. destruct Hp as (Hn & k & Hst & _). shape. rewrite Hn. by eapply all_succeeded.
  - apply Some_inj in Ha. injection Ha as <- <-. destruct Hp as (Hn & Hk). shape. split; [done|]. by apply started_shape.
  - destruct Hp as (Hn & Hin). destruct (stage_attempts c stage) as [[|a attempts]|e].
    + case_bool_decide; apply Some_inj in Ha; injection Ha as <- <-; shape; (split; [cbn [ac_failure append_out]; by rewrite Hn|done]).
    + apply Some_inj in Ha. injection Ha as <- <-. shape. done.
    + apply Some_inj in Ha. injection Ha as <- <-. shape. done.
  - destruct Hp as (Hn & Hne & Hin). destruct attempts as [|a attempts]; [done|]. destruct (interleaves _ _ _); [|done].
    apply Some_inj in Ha. injection Ha as <- <-. shape. done.
  - destruct Hp as (Hn & Hin). destruct writes as [|w writes].
    + destruct e as [e|].
      * destruct (late || bool_decide (attempts = [])) eqn:El; apply Some_inj in Ha; injection Ha as <- <-; shape; [by split|].
        split_and!; [done| |done]. intros ->. by rewrite orb_true_r in El.
      * apply Some_inj in Ha. injection Ha as <- <-. shape. split; [|done]. cbn [ac_failure append_out]. by rewrite Hn.
    + apply Some_inj in Ha. injection Ha as <- <-. shape. done.
  - destruct Hp as (Hok & Hin). apply Some_inj in Ha. injection Ha as <- <-. pose proof (finished_shape lb ok rest t now Hin) as Hf. cbn zeta in Hf.
    destruct ok; shape.
    + split; [by destruct (ac_failure acc)|exact Hf].
    + rewrite <-Hok. destruct Hf as [k Hf]. by exists k, (List.length rest).
Qed.
End advance.

(** ** The store *)

Definition live (p : pc) : nat := if stopped p then 0 else 1.
Fixpoint live_count (ps : list pc) : nat := match ps with [] => 0 | p :: ps => live p + live_count ps end.
Lemma live_insert ps i p p' : ps !! i = Some p -> (live_count (<[i:=p']> ps) + live p = live_count ps + live p')%nat.
Proof.
  revert i. induction ps as [|q ps IH]; intros [|i] Hi; [done|done| |].
  - injection Hi as ->. cbn. lia.
  - specialize (IH i Hi). change (<[S i:=p']> (q :: ps)) with (q :: <[i:=p']> ps). cbn [live_count]. lia.
Qed.
Lemma live_count_app ps qs : live_count (ps ++ qs) = (live_count ps + live_count qs)%nat.
Proof. induction ps; cbn; lia. Qed.
(** Distinct runs that have not stopped are counted. *)
Lemma live_distinct (ns : list nat) ps : NoDup ns -> (forall i, i ∈ ns -> exists p, ps !! i = Some p /\ stopped p = false) -> (List.length ns <= live_count ps)%nat.
Proof.
  intros Hnd. revert ps. induction Hnd as [|i ns Hi _ IH]; intros ps Hps; cbn; [lia|].
  destruct (Hps i ltac:(by left)) as (p & Hp & Hs). pose proof (live_insert ps i p PStopped Hp) as Hl.
  assert (Hlp : live p = 1%nat) by (unfold live; by rewrite Hs). change (live PStopped) with 0%nat in Hl.
  enough (List.length ns <= live_count (<[i:=PStopped]> ps))%nat by lia. apply IH. intros j Hj.
  rewrite list_lookup_insert_ne by (by intros ->). apply Hps. by right.
Qed.

Section store.
Context (heap : list opTask).
Abbreviation fin m := (fun i => id_finished heap m i = true).
Lemma id_finished_delete m i j : i <> j -> id_finished heap (delete i m) j = id_finished heap m j.
Proof. intros Hij. unfold id_finished. by rewrite lookup_delete_ne. Qed.
Lemma count_ext m m' (l : list str) : (forall j, j ∈ l -> id_finished heap m j = id_finished heap m' j) ->
  List.length (filter (fin m) l) = List.length (filter (fin m') l).
Proof.
  induction l as [|j l IH]; intros Hl; [done|]. rewrite !filter_cons, (Hl j) by by left.
  destruct (decide _); cbn; [f_equal|]; apply IH; intros; apply Hl; by right.
Qed.
(** What trimming keeps: some of the identifiers, in order; all but finished ones; and
    at most the limit of those. *)
Record trimmed (l kept : list str) (m m' : gmap str pointer) : Prop := {
  tr_sub : kept `sublist_of` l;
  tr_kept : forall id, id ∉ l \/ id ∈ kept -> m' !! id = m !! id;
  tr_gone : forall id, id ∈ l -> id ∉ kept -> m' !! id = None /\ id_finished heap m id = true;
  tr_count : (List.length (filter (fin m) kept) <= taskHistoryLimit)%nat;
}.
Lemma trim_spec l m n kept m' : NoDup l -> n = List.length (filter (fin m) l) -> trim heap l m n = (kept, m') -> trimmed l kept m m'.
Proof.
  intros Hnd. revert m n kept m'. induction Hnd as [|id l Hid Hnd IH]; intros m n kept m' Hn Ht; cbn [trim] in Ht.
  { injection Ht as <- <-. split; [done|done|by intros ? ?%elem_of_nil|cbn; lia]. }
  destruct (Nat.leb_spec n taskHistoryLimit) as [Hle|Hgt].
  { injection Ht as <- <-. subst n. split; [done|done| |done]. intros j Hj Hj'. done. }
  rewrite filter_cons in Hn. destruct (id_finished heap m id) eqn:Ef.
  - rewrite decide_True in Hn by done. assert (Hother : forall j, j ∈ l -> id_finished heap (delete id m) j = id_finished heap m j)
      by (intros j Hj; apply id_finished_delete; by intros ->).
    apply IH in Ht as [Hs Hk Hg Hc]; [|rewrite (count_ext _ m l) by done; cbn in Hn; lia].
    assert (Hnk : id ∉ kept) by (intros Hin; apply Hid; by eapply elem_of_sublist).
    split.
    + by apply sublist_cons.
    + intros j Hj. rewrite Hk.
      * destruct (decide (j = id)) as [->|Hne]; [|by rewrite lookup_delete_ne]. destruct Hj as [Hj|Hj]; [|done]. destruct Hj. by left.
      * destruct Hj as [Hj|Hj]; [left; intros ?; apply Hj; by right|by right].
    + intros j Hj Hj'. apply elem_of_cons in Hj as [->|Hj].
      * split; [|done]. rewrite Hk by by left. apply lookup_delete_eq.
      * rewrite <-Hother by done. by apply Hg.
    + rewrite <-(count_ext (delete id m) m kept); [done|]. intros j Hj. apply Hother. by eapply elem_of_sublist.
  - destruct (trim heap l m n) as [kept0 m0] eqn:Et. injection Ht as <- <-. rewrite decide_False in Hn by congruence.
    apply IH in Et as [Hs Hk Hg Hc]; [|done]. split.
    + by apply sublist_skip.
    + intros j Hj. apply Hk. destruct Hj as [Hj|Hj]; [left; intros ?; apply Hj; by right|]. apply elem_of_cons in Hj as [->|Hj]; [by left|by right].
    + intros j Hj Hj'. apply Hg; [|by intros ?; apply Hj'; right]. apply elem_of_cons in Hj as [->|Hj]; [|done]. destruct Hj'. by left.
    + rewrite filter_cons, decide_False by congruence. done.
Qed.
End store.

(** ** The reachable states *)

Definition pcs (s : system) : list pc := rn_pc <$> sy_runs s.
Definition audits_of (i : nat) (s : system) : nat := List.length (filter (fun e => e.1 = i) (sy_audit s)).
Definition times (b : bool) : nat := if b then 1 else 0.
Record store_ok (heap : list opTask) (store : taskStore) : Prop := {
  st_order : NoDup (order store);
  st_domain : forall id, id ∈ order store <-> is_Some (byID store !! id);
  st_points : forall id p, byID store !! id = Some p -> exists t, heap !! p = Some t /\ tk_id t = id;
  st_keeps : forall p t, heap !! p = Some t -> finished t = false -> byID store !! tk_id t = Some p;
}.
Record system_ok (s : system) : Prop := {
  so_runs : Forall2 run_ok (pcs s) (sy_heap s);
  so_slots : slots_ok (sy_slots s);
  so_held : forall i p, pcs s !! i = Some p -> holding p (sl_runs (sy_slots s) !! task_key i);
  so_fresh : forall i, (List.length (sy_heap s) <= i)%nat -> sl_runs (sy_slots s) !! task_key i = None;
  so_store : store_ok (sy_heap s) (sy_store s);
  so_bound : (List.length (order (sy_store s)) <= taskHistoryLimit + room (sy_slots s))%nat;
  so_audit : forall i p, pcs s !! i = Some p -> audits_of i s = times (reported p);
  so_audited : Forall (fun e => (e.1 < List.length (sy_heap s))%nat) (sy_audit s);
}.

Lemma run_finished p t : run_ok p t -> finished t = ended p.
Proof.
  intros [_ Ht]. unfold task_state in Ht. unfold finished. destruct (ended p).
  - destruct Ht as (ctx & -> & _). unfold finish_status. by destruct ctx as [[]|], (tk_ok t).
  - destruct Ht as [-> _]. by rewrite bool_decide_true.
Qed.

Lemma holding_running p o : ended p = false -> holding p o <-> o = Some NRun.
Proof. by destruct p. Qed.
Lemma task_key_inj i j : task_key i = task_key j -> i = j.
Proof. unfold task_key. lia. Qed.
(** What one step of run [i] does. *)
Record moved (i : nat) (s s' : system) (p p' : pc) (t t' : opTask) : Prop := {
  mv_pc : pcs s !! i = Some p;
  mv_task : sy_heap s !! i = Some t;
  mv_pcs : pcs s' = <[i := p']> (pcs s);
  mv_heap : sy_heap s' = <[i := t']> (sy_heap s);
  mv_store : sy_store s' = sy_store s;
  mv_slots : slots_ok (sy_slots s) -> slots_ok (sy_slots s') /\ (room (sy_slots s) <= room (sy_slots s'))%nat;
  mv_held : holding p (sl_runs (sy_slots s) !! task_key i) -> holding p' (sl_runs (sy_slots s') !! task_key i);
  mv_keys : forall k, k <> task_key i -> sl_runs (sy_slots s') !! k = sl_runs (sy_slots s) !! k;
  mv_ok : run_ok p t -> run_ok p' t';
  mv_id : tk_id t' = tk_id t;
  mv_ended : ended p = true -> ended p' = true;
  mv_audit : (audits_of i s' + times (reported p) = audits_of i s + times (reported p'))%nat;
  mv_audits : forall j, j <> i -> audits_of j s' = audits_of j s;
  mv_audited : forall e, e ∈ sy_audit s' -> e ∈ sy_audit s \/ e.1 = i;
}.
Section moving.
Context `{ExecEnv} (i : nat) (c : choice) (now : Z).
Lemma advance_task p p' f t : advance c now p = Some (p', f) ->
  tk_id (f t) = tk_id t /\ ended p = false /\ ended p' = false /\ reported p = false /\ reported p' = false /\ stopped p = false /\ stopped p' = false.
Proof.
  intros Ha. destruct p as [[|stage stages] acc|stage rest acc|lb [|a attempts] primary rest acc|[|w writes] [[[out err] code] e] late lb attempts primary rest acc
    |lb ok rest acc| | | | |]; cbn [advance] in Ha; try done; repeat (case_match; try done); simplify_eq; done.
Qed.
Lemma run_step_moved s s' : run_step i c now s = Some s' -> exists p p' t t', moved i s s' p p' t t'.
Proof.
  unfold run_step. destruct (sy_heap s !! i) as [t|] eqn:Et; [|done]. destruct (sy_runs s !! i) as [r|] eqn:Er; [|done]. intros Hs.
  assert (Hpc : pcs s !! i = Some (rn_pc r)) by (unfold pcs; by rewrite list_lookup_fmap, Er).
  assert (Hplain : forall p f, advance c now (rn_pc r) = Some (p, f) -> s' = with_run i (mkRun p (rn_ctx r) (rn_timeout r)) (f t) s ->
    exists p p' t t', moved i s s' p p' t t').
  { intros p f Ha ->. exists (rn_pc r), p, t, (f t). destruct (advance_task _ _ _ t Ha) as (Hid & He & He' & Hr & Hr' & Hs0 & Hs1).
    split; try done; cbn [with_run sy_slots sy_audit].
    - unfold pcs. cbn. by rewrite list_fmap_insert.
    - intros Hh. apply (holding_running p _ He'). by apply (holding_running _ _ He) in Hh.
    - intros [Hp Ht]. destruct (advance_shape c now _ _ _ _ Hp Ha) as (Hp' & Hsame & _). split; [done|]. exact (same_state _ _ _ _ Hsame He He' Ht).
    - by rewrite He.
    - unfold audits_of. cbn [sy_audit with_run]. rewrite Hr, Hr'. lia.
    - by left. }
  destruct (rn_pc r) as [stages acc|stage rest acc|lb attempts primary rest acc|writes result late lb attempts primary rest acc|lb ok rest acc|acc|response| | |] eqn:Ep.
  all: try (destruct (advance c now _) as [[p f]|] eqn:Ha; [|done]; apply Some_inj in Hs; by eapply (Hplain p f)).
  - apply Some_inj in Hs. subst s'. exists (PReport acc), (PFinish (response_of t acc)), t, t. split; try done; cbn.
    + unfold pcs. cbn. by rewrite list_fmap_insert.
    + by rewrite list_insert_id.
    + unfold audits_of. cbn [sy_audit]. rewrite filter_app, filter_cons, decide_True by done. rewrite length_app. cbn. lia.
    + intros j Hj. unfold audits_of. cbn [sy_audit]. rewrite filter_app, filter_cons, decide_False by (cbn; congruence). cbn. by rewrite app_nil_r.
    + intros e [He|He%list_elem_of_singleton]%elem_of_app; [by left|right; by subst].
  - destruct (finish response (rn_ctx r) (rn_timeout r) now t) as [t'|] eqn:Ef; [|done]. apply Some_inj in Hs. subst s'.
    unfold finish in Ef. destruct (tk_done t); [done|]. apply Some_inj in Ef.
    exists (PFinish response), PRelease, t, t'. split; try done; cbn.
    + unfold pcs. cbn. by rewrite list_fmap_insert.
    + intros [Hp _]. subst t'. split; [exact Hp|]. by exists (rn_ctx r).
    + by subst t'.
    + by left.
  - destruct (Slots.step _ _) as [slots|] eqn:Es; [|done]. injection Hs as <-. exists PRelease, PReceive, t, t.
    pose proof (native_runs _ _ _ (task_key i) Es eq_refl) as [_ Hn]. split; try done; cbn.
    + unfold pcs. cbn. by rewrite list_fmap_insert.
    + by rewrite list_insert_id.
    + intros Hok. by apply (slots_ok_step _ _ _ Hok Es).
    + by exists (sl_cur (sy_slots s)).
    + intros k Hk. apply (step_others _ _ _ _ Es). by intros [= ?].
    + by left.
  - destruct (Slots.step _ _) as [slots|] eqn:Es; [|done]. injection Hs as <-. exists PReceive, PStopped, t, t.
    pose proof (native_runs _ _ _ (task_key i) Es eq_refl) as [_ Hn]. split; try done; cbn.
    + unfold pcs. cbn. by rewrite list_fmap_insert.
    + by rewrite list_insert_id.
    + intros Hok. by apply (slots_ok_step _ _ _ Hok Es).
    + intros k Hk. apply (step_others _ _ _ _ Es). by intros [= ?].
    + by left.
Qed.
End moving.

Lemma store_ok_ext heap heap' store : store_ok heap store -> tk_id <$> heap' = tk_id <$> heap ->
  (forall p t t', heap !! p = Some t -> heap' !! p = Some t' -> finished t' = false -> finished t = false) -> store_ok heap' store.
Proof.
  intros [H1 H2 H3 H4] Hids Hfin.
  assert (Hback : forall p t', heap' !! p = Some t' -> exists t, heap !! p = Some t /\ tk_id t = tk_id t').
  { intros p t' Hp. pose proof (f_equal (fun l => l !! p) Hids) as He. cbn in He. rewrite !list_lookup_fmap, Hp in He. cbn in He.
    destruct (heap !! p) as [t|]; [|done]. injection He as He. by exists t. }
  assert (Hforth : forall p t, heap !! p = Some t -> exists t', heap' !! p = Some t' /\ tk_id t' = tk_id t).
  { intros p t Hp. pose proof (f_equal (fun l => l !! p) Hids) as He. cbn in He. rewrite !list_lookup_fmap, Hp in He. cbn in He.
    destruct (heap' !! p) as [t'|]; [|done]. injection He as He. by exists t'. }
  split; [done|done| |].
  - intros id p Hp. destruct (H3 id p Hp) as (t & Ht & <-). destruct (Hforth p t Ht) as (t' & Ht' & Hid). by exists t'.
  - intros p t' Hp Hf. destruct (Hback p t' Hp) as (t & Ht & <-). apply H4; [done|]. by eapply Hfin.
Qed.
Lemma moved_ok i s s' p p' t t' : moved i s s' p p' t t' -> system_ok s -> system_ok s'.
Proof.
  intros M [Hruns Hsl Hheld Hfresh Hst Hb Hau Hin]. destruct M.
  assert (Hok : run_ok p t) by by eapply Forall2_lookup_lr.
  assert (Hlen : (i < List.length (sy_heap s))%nat) by by eapply lookup_lt_Some.
  destruct (mv_slots0 Hsl) as [Hsl' Hroom]. split.
  - rewrite mv_pcs0, mv_heap0. apply Forall2_insert; auto.
  - done.
  - intros j q Hq. rewrite mv_pcs0 in Hq. destruct (decide (j = i)) as [->|Hne].
    + rewrite list_lookup_insert_eq in Hq by by eapply lookup_lt_Some. injection Hq as <-. auto.
    + rewrite list_lookup_insert_ne in Hq by done. rewrite mv_keys0 by (by intros ?%task_key_inj). auto.
  - intros j Hj. rewrite mv_heap0, length_insert in Hj. rewrite mv_keys0; [by apply Hfresh|]. intros ->%task_key_inj. lia.
  - rewrite mv_store0, mv_heap0. apply (store_ok_ext (sy_heap s)); [done| |].
    + rewrite list_fmap_insert, mv_id0. apply list_insert_id. by rewrite list_lookup_fmap, mv_task0.
    + intros j u u' Hu Hu' Hf. destruct (decide (j = i)) as [->|Hne]; [|rewrite list_lookup_insert_ne in Hu' by done; congruence].
      rewrite list_lookup_insert_eq in Hu' by done. simplify_eq. rewrite (run_finished p) by done.
      rewrite (run_finished p') in Hf by auto. destruct (ended p); [|done]. by rewrite mv_ended0 in Hf.
  - rewrite mv_store0. lia.
  - intros j q Hq. rewrite mv_pcs0 in Hq. destruct (decide (j = i)) as [->|Hne].
    + rewrite list_lookup_insert_eq in Hq by by eapply lookup_lt_Some. injection Hq as <-. rewrite (Hau i p mv_pc0) in mv_audit0. lia.
    + rewrite list_lookup_insert_ne in Hq by done. rewrite mv_audits0 by done. by apply Hau.
  - rewrite mv_heap0, length_insert. apply Forall_forall. intros e He. destruct (mv_audited0 e He) as [Ho| ->]; [|done].
    by eapply Forall_forall in Hin.
Qed.

(** The steps that only touch the contexts of the runs. *)
Record same_but_ctx (s s' : system) : Prop := {
  sc_pcs : pcs s' = pcs s;
  sc_heap : sy_heap s' = sy_heap s;
  sc_store : sy_store s' = sy_store s;
  sc_slots : sy_slots s' = sy_slots s;
  sc_audit : sy_audit s' = sy_audit s;
}.
Lemma same_but_ctx_ok s s' : same_but_ctx s s' -> system_ok s -> system_ok s'.
Proof.
  intros [H1 H2 H3 H4 H5] [Hruns Hsl Hheld Hfresh Hst Hb Hau Hin]. split; rewrite ?H1, ?H2, ?H3, ?H4, ?H5; try done.
  intros i p Hp. unfold audits_of. rewrite H5. rewrite ?H1 in Hp. by apply Hau.
Qed.
Lemma with_ctx_same s i r ctx : sy_runs s !! i = Some r -> same_but_ctx s (set_run i (mkRun (rn_pc r) ctx (rn_timeout r)) s).
Proof.
  intros Hr. split; try done. unfold pcs. cbn. rewrite list_fmap_insert. cbn. apply list_insert_id. by rewrite list_lookup_fmap, Hr.
Qed.
Lemma cancel_same i s : same_but_ctx s (cancel_run i s).
Proof.
  unfold cancel_run. destruct (sy_heap s !! i) as [t|]; [|by split]. destruct (sy_runs s !! i) as [r|] eqn:Er; [|by split].
  destruct (finished t); [by split|]. by apply with_ctx_same.
Qed.
Lemma cancel_all_ok ps s : system_ok s -> system_ok (fold_left (fun s p => cancel_run p s) ps s) /\
  sy_heap (fold_left (fun s p => cancel_run p s) ps s) = sy_heap s.
Proof.
  revert s. induction ps as [|p ps IH]; intros s Hs; [done|]. cbn. destruct (IH (cancel_run p s)) as [H1 H2].
  - by eapply same_but_ctx_ok, Hs; apply cancel_same.
  - split; [done|]. rewrite H2. by apply sc_heap, cancel_same.
Qed.

(** Adding a fresh task to a store. *)
Lemma rev_perm (l : list str) : rev l ≡ₚ l.
Proof. symmetry. apply Permutation_rev. Qed.
Lemma add_ok heap store t : store_ok heap store -> tk_id t ∉ (tk_id <$> heap) ->
  let heap' := heap ++ [t] in let store' := add heap' (tk_id t) (List.length heap) store in
  store_ok heap' store' /\ (List.length (filter (fun i => id_finished heap' (byID store') i = true) (order store')) <= taskHistoryLimit)%nat.
Proof.
  intros [Hnd Hdom Hpts Hkeep] Hfresh heap' store'.
  assert (Hno : byID store !! tk_id t = None).
  { destruct (byID store !! tk_id t) as [p|] eqn:E; [|done]. destruct (Hpts _ _ E) as (u & Hu & Hid). destruct Hfresh. rewrite <-Hid. by apply list_elem_of_fmap_2, (list_elem_of_lookup_2 _ p). }
  assert (Hnid : tk_id t ∉ order store) by (rewrite Hdom, Hno; by intros [? ?]).
  unfold store', add. set (m := <[tk_id t := List.length heap]> (byID store)).
  destruct (trim heap' (rev (tk_id t :: order store)) m _) as [kept m'] eqn:Et.
  apply trim_spec in Et as [Hs Hk Hg Hc]; [|by rewrite rev_perm; constructor|by rewrite rev_perm].
  set (l := rev (tk_id t :: order store)) in *.
  assert (Hl : forall j, j ∈ l <-> is_Some (m !! j)).
  { intros j. unfold l. rewrite rev_perm, elem_of_cons, Hdom. unfold m. destruct (decide (j = tk_id t)) as [->|Hne].
    - rewrite lookup_insert_eq. split; [by eexists|by left].
    - rewrite lookup_insert_ne by done. naive_solver. }
  assert (Hsub : forall j, j ∈ kept -> j ∈ l) by (intros j Hj; by eapply elem_of_sublist).
  assert (Hin : forall j, j ∈ rev kept <-> j ∈ kept) by (intros j; by rewrite rev_perm).
  assert (Hlast : heap' !! List.length heap = Some t) by by apply list_lookup_middle.
  cbn [byID order]. split; [split; cbn [byID order]|].
  - rewrite rev_perm. eapply sublist_NoDup; [|exact Hs]. unfold l. rewrite rev_perm. by constructor.
  - intros j. rewrite Hin. split; intros Hj.
    + rewrite Hk by by right. by apply Hl, Hsub.
    + destruct (decide (j ∈ kept)) as [|Hnk]; [done|]. destruct (decide (j ∈ l)) as [Hjl|Hjl].
      * destruct (Hg j Hjl Hnk) as [Hno' _]. rewrite Hno' in Hj. by destruct Hj.
      * rewrite Hk in Hj by by left. by apply Hl in Hj.
  - intros j p Hj. assert (Hm : m !! j = Some p).
    { destruct (decide (j ∈ l)) as [Hjl|Hjl]; [|by rewrite <-Hk by by left]. destruct (decide (j ∈ kept)) as [|Hnk]; [by rewrite <-Hk by by right|].
      destruct (Hg j Hjl Hnk) as [Hno' _]. congruence. }
    unfold m in Hm. destruct (decide (j = tk_id t)) as [->|Hne].
    + rewrite lookup_insert_eq in Hm. injection Hm as <-. by exists t.
    + rewrite lookup_insert_ne in Hm by done. destruct (Hpts j p Hm) as (u & Hu & Hid). exists u. split; [|done]. by apply lookup_app_l_Some.
  - intros p u Hu Hf.
    assert (Hm : m !! tk_id u = Some p).
    { unfold m. apply lookup_app_Some in Hu as [Hu|[Hle Hu]].
      - rewrite lookup_insert_ne; [by apply Hkeep|]. intros He. apply Hfresh. rewrite He. by apply list_elem_of_fmap_2, (list_elem_of_lookup_2 _ p).
      - apply list_lookup_singleton_Some in Hu as [H0 <-]. rewrite lookup_insert_eq. f_equal. lia. }
    destruct (decide (tk_id u ∈ kept)) as [|Hnk]; [by rewrite Hk by by right|].
    destruct (decide (tk_id u ∈ l)) as [Hjl|Hjl]; [|by rewrite Hk by by left].
    destruct (Hg _ Hjl Hnk) as [_ Hfin]. unfold id_finished, task_finished in Hfin. rewrite Hm, Hu in Hfin. congruence.
  - rewrite rev_perm. rewrite (count_ext _ m' m); [done|]. intros j Hj. unfold id_finished. by rewrite Hk by by right.
Qed.
(** The tasks of a store that have not finished are runs that have not stopped. *)
Lemma unfinished_bound heap store ps : store_ok heap store -> Forall2 run_ok ps heap ->
  (List.length (order store) <= List.length (filter (fun i => id_finished heap (byID store) i = true) (order store)) + live_count ps)%nat.
Proof.
  intros [Hnd Hdom Hpts _] Hruns. pose proof (Permutation_length (filter_app_complement (fun i => id_finished heap (byID store) i = true) (order store))) as Hc.
  rewrite length_app in Hc. set (rest := filter (fun x => ~ _) (order store)) in Hc. set (ptr := fun id => default 0%nat (byID store !! id)).
  assert (Hrest : forall id, id ∈ rest -> exists p t, byID store !! id = Some p /\ heap !! p = Some t /\ tk_id t = id /\ finished t = false).
  { intros id [HnP Hin]%list_elem_of_filter. apply Hdom in Hin as [p Hp]. destruct (Hpts id p Hp) as (t & Ht & Hid). exists p, t. split_and!; try done.
    unfold id_finished, task_finished in HnP. rewrite Hp, Ht in HnP. by apply not_true_is_false. }
  enough (List.length (ptr <$> rest) <= live_count ps)%nat as Hle by (rewrite length_fmap in Hle; rewrite <-Hc; by apply Nat.add_le_mono_l).
  apply live_distinct.
  - apply NoDup_fmap_2_strong; [|by apply NoDup_filter]. intros x y Hx Hy. unfold ptr.
    destruct (Hrest x Hx) as (p & t & Hp & Ht & Hid & _), (Hrest y Hy) as (q & u & Hq & Hu & Hid' & _). rewrite Hp, Hq. cbn. congruence.
  - intros p Hp. apply list_elem_of_fmap in Hp as (id & -> & Hid). destruct (Hrest id Hid) as (p & t & Hp & Ht & _ & Hf).
    unfold ptr. rewrite Hp. cbn. destruct (Forall2_lookup_r _ _ _ _ _ Hruns Ht) as (q & Hq & Hok). exists q. split; [done|].
    rewrite (run_finished q) in Hf by done. by destruct q.
Qed.
Lemma new_run_ok id slug displayName target source invokedBy stages now :
  run_ok (PNext stages no_acc) (newOpTask id slug displayName target source invokedBy stages now).
Proof.
  split; [|done]. split; [done|]. exists 0%nat. unfold at_stage, statuses, labels, newOpTask. cbn [tk_stages]. rewrite <-!list_fmap_compose. split; [|done].
  cbn. induction stages as [|g stages IH]; cbn; [done|]. by rewrite IH.
Qed.

(** Each run that has not stopped has a slot of its own. *)
Lemma live_le ps (m : gmap nat phase) : (forall i p, ps !! i = Some p -> stopped p = false -> is_Some (m !! task_key i)) -> (live_count ps <= size m)%nat.
Proof.
  revert m. induction ps as [|p ps IH] using rev_ind; intros m Hm; [cbn; lia|]. rewrite live_count_app. cbn [live_count].
  assert (Hpre : forall m' : gmap nat phase, (forall i, (i < List.length ps)%nat -> m' !! task_key i = m !! task_key i) -> (live_count ps <= size m')%nat).
  { intros m' Hm'. apply IH. intros i q Hq Hs. rewrite Hm' by (by eapply lookup_lt_Some). apply (Hm i q); [by apply lookup_app_l_Some|done]. }
  unfold live. destruct (stopped p) eqn:Es; [specialize (Hpre m ltac:(done)); lia|].
  destruct (Hm (List.length ps) p) as [q Hq]; [by apply list_lookup_middle|done|]. rewrite (size_delete_Some _ _ _ Hq).
  assert (live_count ps <= size (delete (task_key (List.length ps)) m))%nat; [|lia]. apply Hpre.
  intros i Hi. rewrite lookup_delete_ne; [done|]. intros E%task_key_inj. lia.
Qed.
Lemma holding_live p o : holding p o -> stopped p = false -> is_Some o.
Proof. destruct p; cbn; try done; naive_solver. Qed.
(** A step of the slots that is none of a task's. *)
Lemma foreign_key l i : foreign l = true -> label_run l <> Some (task_key i).
Proof. unfold foreign. intros Hl E. rewrite E in Hl. unfold task_key in Hl. by rewrite Nat.odd_even in Hl. Qed.
Section reach.
Context `{ExecEnv}.
Definition dispatched (ls : list label) : list str := omap (fun l => match l with Dispatch id _ _ _ _ _ _ => Some id | _ => None end) ls.
Lemma dispatch_ok id slug displayName plan source invokedBy now slots s : let p := List.length (sy_heap s) in
  let t := newOpTask id slug displayName (pl_target plan) source invokedBy (pl_stages plan) now in
  let heap := sy_heap s ++ [t] in
  system_ok s -> Slots.step (AcquireN (task_key p)) (sy_slots s) = Some slots -> id ∉ (tk_id <$> sy_heap s) ->
  system_ok (mkSystem heap (sy_runs s ++ [mkRun (PNext (pl_stages plan) no_acc) None (pl_timeout plan)]) (add heap id p (sy_store s)) slots (sy_audit s) (sy_notified s)).
Proof.
  intros p t heap [Hruns Hsl Hheld Hfresh Hst Hb Hau Hin] Hs Hid. set (runs := sy_runs s ++ _).
  destruct (add_ok (sy_heap s) (sy_store s) t Hst Hid) as [Hst' Hfin]. cbn in Hst', Hfin. fold heap in Hst', Hfin.
  assert (Hruns' : Forall2 run_ok (rn_pc <$> runs) heap).
  { unfold runs. rewrite fmap_app. apply Forall2_app; [done|]. constructor; [|done]. apply new_run_ok. }
  pose proof (Forall2_length _ _ _ Hruns) as Hlen. destruct (slots_ok_step _ _ _ Hsl Hs) as [Hsl' _].
  destruct (native_runs _ _ _ (task_key p) Hs eq_refl) as [_ Hn].
  assert (Hothers : forall i, i <> p -> sl_runs slots !! task_key i = sl_runs (sy_slots s) !! task_key i).
  { intros i Hi. apply (step_others _ _ _ _ Hs). intros [= E%task_key_inj]. by apply Hi. }
  assert (Hheld' : forall i q, (rn_pc <$> runs) !! i = Some q -> holding q (sl_runs slots !! task_key i)).
  { intros i q Hq. unfold runs in Hq. rewrite fmap_app in Hq. apply lookup_app_Some in Hq as [Hq|[Hle Hq]].
    - rewrite Hothers; [by apply Hheld|]. apply lookup_lt_Some in Hq. unfold pcs in Hlen. lia.
    - apply list_lookup_singleton_Some in Hq as [Hi <-]. assert (i = p) as -> by (unfold pcs, p in *; lia). exact Hn. }
  split; cbn [sy_store sy_heap sy_slots sy_audit]; unfold pcs; cbn [sy_runs]; [done|done|done| |exact Hst'| | |].
  - intros i Hi. unfold heap in Hi. rewrite length_app in Hi. cbn in Hi. rewrite Hothers; [apply Hfresh|unfold p]; lia.
  - etrans; [exact (unfinished_bound _ _ _ Hst' Hruns')|]. apply Nat.add_le_mono; [exact Hfin|]. etrans; [|by apply tokens_room]. apply live_le.
    intros i q Hq Hq'. by eapply holding_live; [apply Hheld'|].
  - intros i q Hp. unfold audits_of. cbn [sy_audit]. unfold runs in Hp. rewrite fmap_app in Hp. apply lookup_app_Some in Hp as [Hp|[Hle Hp]]; [by apply Hau|].
    apply list_lookup_singleton_Some in Hp as [Hi <-]. cbn. destruct (filter _ (sy_audit s)) as [|e l] eqn:Ef; [done|].
    assert (He : e ∈ filter (fun e => e.1 = i) (sy_audit s)) by (rewrite Ef; by left). apply list_elem_of_filter in He as [Hei He].
    pose proof (proj1 (Forall_forall _ _) Hin e He) as Hb'. cbn in Hb'.
    exfalso. apply (Nat.lt_irrefl i). rewrite <-Hei at 1. eapply Nat.lt_le_trans; [exact Hb'|]. rewrite <-Hlen. exact Hle.
  - eapply Forall_impl; [exact Hin|]. intros e He. cbn in He |- *. unfold heap. rewrite length_app. lia.
Qed.
Lemma slot_step_ok l slots s : system_ok s -> foreign l = true -> Slots.step l (sy_slots s) = Some slots -> system_ok (set_slots slots s).
Proof.
  intros [Hruns Hsl Hheld Hfresh Hst Hb Hau Hin] Hl Hs. destruct (slots_ok_step _ _ _ Hsl Hs) as [Hsl' Hroom].
  assert (Hkeys : forall i, sl_runs slots !! task_key i = sl_runs (sy_slots s) !! task_key i) by (intros i; by apply (step_others _ _ _ _ Hs), foreign_key).
  split; try done; cbn [set_slots sy_heap sy_slots sy_store].
  - intros i p Hp. rewrite Hkeys. by apply Hheld.
  - intros i Hi. rewrite Hkeys. by apply Hfresh.
  - lia.
Qed.
Lemma sys_step_ok l s s' : system_ok s -> sys_step l s = Some s' -> (forall id, id ∈ dispatched [l] -> id ∉ (tk_id <$> sy_heap s)) ->
  system_ok s' /\ tk_id <$> sy_heap s' = (tk_id <$> sy_heap s) ++ dispatched [l].
Proof.
  intros Hok Hs Hfresh. destruct l as [id slug displayName plan source invokedBy now|i c now|id| |i|l]; cbn [sys_step] in Hs; cbn [dispatched omap list_omap] in *;
    rewrite ?app_nil_r.
  - destruct (Slots.step _ _) as [slots|] eqn:Es; [|done]. apply Some_inj in Hs. subst s'. cbn [sy_heap].
    split; [|by rewrite fmap_app]. apply dispatch_ok; [done|done|]. apply Hfresh. by left.
  - apply run_step_moved in Hs as (p & p' & t & t' & M). split; [by eapply moved_ok|]. destruct M. rewrite mv_heap0, list_fmap_insert, mv_id0.
    apply list_insert_id. by rewrite list_lookup_fmap, mv_task0.
  - destruct (get id (sy_store s)) as [p|]; [|done]. apply Some_inj in Hs. subst s'. pose proof (cancel_same p s) as Hc.
    split; [by eapply same_but_ctx_ok|]. by rewrite (sc_heap _ _ Hc).
  - apply Some_inj in Hs. subst s'. destruct (cancel_all_ok (map_to_list (byID (sy_store s))).*2 s Hok) as [H1 ->]. by split.
  - destruct (sy_runs s !! i) as [[p [x|] timeout]|] eqn:Er; [done| |done]. destruct (0 <? timeout); [|done]. apply Some_inj in Hs. subst s'.
    split; [|done]. eapply same_but_ctx_ok; [|exact Hok]. by apply (with_ctx_same s i (mkRun p None timeout)).
  - destruct (foreign l) eqn:El; [|done]. destruct (Slots.step l _) as [slots|] eqn:Es; [|done]. injection Hs as <-. split; [by eapply slot_step_ok|done].
Qed.
Lemma start_system_ok cap : system_ok (start_system cap).
Proof.
  split; [constructor|apply Slots.start_ok|done|intros i _; apply lookup_empty| |apply Nat.le_0_l|done|constructor].
  split; cbn; [constructor|intros id; rewrite lookup_empty; split; [by intros ?%elem_of_nil|by intros [? ?]]|done|done].
Qed.
Lemma sys_steps_ok ls s s' : system_ok s -> sys_steps ls s = Some s' -> NoDup (dispatched ls) -> (forall id, id ∈ dispatched ls -> id ∉ (tk_id <$> sy_heap s)) -> system_ok s'.
Proof.
  revert s. induction ls as [|l ls IH]; intros s Hok Hs Hnd Hfresh; cbn [sys_steps] in Hs; [by apply Some_inj in Hs; subst|].
  destruct (sys_step l s) as [s1|] eqn:E; [|done]. change (l :: ls) with ([l] ++ ls) in *. unfold dispatched in Hnd, Hfresh. rewrite omap_app in Hnd, Hfresh.
  fold (dispatched [l]) in *. fold (dispatched ls) in *. apply NoDup_app in Hnd as (_ & Hdis & Hnd).
  destruct (sys_step_ok l s s1 Hok E) as [Hok1 Hids]; [intros id Hid; apply Hfresh, elem_of_app; by left|].
  apply (IH s1); try done. intros id Hid. rewrite Hids, elem_of_app. intros [Hx|Hx]; [|by eapply Hdis].
  revert Hx. apply Hfresh, elem_of_app. by right.
Qed.
(** The configuration was not reloaded: the slots are those of the start. *)
Definition unreplaced (ls : list label) : bool := forallb (fun l => match l with Slot l => negb (is_swap l) | _ => true end) ls.
Lemma run_step_slots i c now s s' : run_step i c now s = Some s' ->
  sy_slots s' = sy_slots s \/ exists l, is_swap l = false /\ Slots.step l (sy_slots s) = Some (sy_slots s').
Proof.
  unfold run_step. destruct (sy_heap s !! i); [|done]. destruct (sy_runs s !! i) as [r|]; [|done]. cbv zeta.
  destruct (rn_pc r) as [stages acc|stage rest acc|lb attempts primary rest acc|writes result late lb attempts primary rest acc|lb ok rest acc|acc|response| | |].
  all: try (destruct (advance c now _) as [[? ?]|]; [|done]; intros [= <-]; by left).
  - intros [= <-]. by left.
  - destruct (finish _ _ _ _ _); [|done]. intros [= <-]. by left.
  - destruct (Slots.step _ _) as [slots|] eqn:E; [|done]. intros [= <-]. right. by exists (ReadN (task_key i)).
  - destruct (Slots.step _ _) as [slots|] eqn:E; [|done]. intros [= <-]. right. by exists (ReceiveN (task_key i)).
Qed.
Lemma balanced_run cap i c now s s' : balanced cap (sy_slots s) -> run_step i c now s = Some s' -> balanced cap (sy_slots s').
Proof. intros Hb [->|(l & Hl & Hs)]%run_step_slots; [done|]. by eapply balanced_step. Qed.
Lemma balanced_sys cap ls s s' : unreplaced ls = true -> balanced cap (sy_slots s) -> sys_steps ls s = Some s' -> balanced cap (sy_slots s').
Proof.
  revert s. induction ls as [|l ls IH]; intros s; cbn [sys_steps unreplaced forallb]; [by intros _ ? [= <-]|].
  intros [Hl Hls]%andb_true_iff Hb. destruct (sys_step l s) as [s1|] eqn:E; [|done]. apply IH; [done|].
  destruct l as [id slug displayName plan source invokedBy now|i c now|id| |i|l]; cbn [sys_step] in E.
  - destruct (Slots.step _ _) as [slots|] eqn:Es; [|done]. injection E as <-. exact (balanced_step _ (AcquireN _) _ _ eq_refl Hb Es).
  - exact (balanced_run _ _ _ _ _ _ Hb E).
  - destruct (get id (sy_store s)) as [p|]; [|done]. injection E as <-. by rewrite (sc_slots _ _ (cancel_same p s)).
  - injection E as <-. generalize (map_to_list (byID (sy_store s))).*2 as ps. intros ps. revert s Hb. induction ps as [|p ps IHps]; intros s Hb; [done|].
    cbn. apply IHps. by rewrite (sc_slots _ _ (cancel_same p s)).
  - destruct (sy_runs s !! i) as [[p [x|] timeout]|]; [done| |done]. destruct (0 <? timeout); [|done]. by injection E as <-.
  - destruct (foreign l); [|done]. destruct (Slots.step l _) as [slots|] eqn:Es; [|done]. injection E as <-. apply negb_true_iff in Hl. exact (balanced_step _ _ _ _ Hl Hb Es).
Qed.
End reach.

(** C11. The task system. In every state it can reach, however runs, cancels, deadlines,
    webhook runs, held operations, reloads and new dispatches interleave: each task's
    stages are succeeded up to the point its run has reached, at most one is running
    or failed and the rest are pending; the task is running, unfinished and its channel
    open until its run publishes the result, and has its end time, status and closed
    channel from then on; each run that has not stopped holds one slot, the tokens in
    the slot channels, old and new, are together as many as the runs that hold one, and
    no channel is over its own capacity; the store lists each identifier once, every
    task that has not finished is found in it under its own identifier, and it holds
    at most [taskHistoryLimit] tasks more than the channels have room for; and a run is
    in the audit log once when its result is out, not before. As long as no reload
    replaces the channel, there is only the first one, so the runs that hold a slot
    are never more than the capacity. *)
Theorem tasks_sound `{ExecEnv} cap ls s : sys_steps ls (start_system cap) = Some s -> NoDup (dispatched ls) ->
  system_ok s /\
  (unreplaced ls = true ->
     sl_chans (sy_slots s) = [mkChan (size (sl_runs (sy_slots s))) cap] /\ (size (sl_runs (sy_slots s)) <= cap)%nat /\
     (List.length (order (sy_store s)) <= taskHistoryLimit + cap)%nat).
Proof.
  intros Hs Hnd. assert (Hok : system_ok s).
  { apply (sys_steps_ok ls (start_system cap)); [apply start_system_ok|exact Hs|exact Hnd|]. intros id _. apply not_elem_of_nil. }
  split; [done|]. intros Hun. pose proof (balanced_sys cap ls (start_system cap) s Hun (balanced_start cap) Hs) as [_ Hch Hcap _ _]. split_and!; [done|done|].
  pose proof (so_bound _ Hok) as Hb. unfold room in Hb. rewrite Hch in Hb. cbn [sum_list_with ch_cap] in Hb. by rewrite Nat.add_0_r in Hb.
Qed.

(** ** Termination *)

(** The stages left, then the attempts of the current one, then the writes to come. *)
Definition rank (p : pc) : nat * (nat * nat) :=
  match p with
  | PNext stages _ => (4 * List.length stages + 5, (0, 0))
  | PEnd _ _ rest _ => (4 * List.length rest + 6, (0, 0))
  | PTry _ attempts _ rest _ => (4 * List.length rest + 7, (2 * List.length attempts, 0))
  | PStream writes _ _ _ attempts _ rest _ => (4 * List.length rest + 7, (2 * List.length attempts + 1, List.length writes))
  | PStage _ rest _ => (4 * List.length rest + 8, (0, 0))
  | PReport _ => (4, (0, 0))
  | PFinish _ => (3, (0, 0))
  | PRelease => (2, (0, 0))
  | PReceive => (1, (0, 0))
  | PStopped => (0, (0, 0))
  end%nat.
Definition rank_lt : nat * (nat * nat) -> nat * (nat * nat) -> Prop := slexprod nat (nat * nat) lt (slexprod nat nat lt lt).
Definition pc_lt (p' p : pc) : Prop := rank_lt (rank p') (rank p).
(** One run of the list has advanced. *)
Definition one_less (ps' ps : list pc) : Prop := exists i p p', ps !! i = Some p /\ ps' = <[i := p']> ps /\ pc_lt p' p.

Lemma pc_lt_wf : well_founded pc_lt.
Proof. unfold pc_lt. apply (wf_inverse_image pc _ rank_lt rank), wf_slexprod; [apply lt_wf|]. apply wf_slexprod; apply lt_wf. Qed.
Lemma rank_first a b c d : (a < b)%nat -> rank_lt (a, c) (b, d).
Proof. intros. by apply left_slex. Qed.
Lemma one_less_wf : well_founded one_less.
Proof.
  intros ps. induction ps as [|p ps IHps]; [constructor; by intros ps' (i & q & q' & Hi & _)|].
  revert ps IHps. induction (pc_lt_wf p) as [p _ IHp]. intros ps Hps. induction Hps as [ps Hps IHps].
  constructor. intros qs (i & q & q' & Hi & -> & Hlt). destruct i as [|i].
  - injection Hi as <-. apply IHp; [done|]. by constructor.
  - apply IHps. by exists i, q, q'.
Qed.

Section terminate.
Context `{ExecEnv}.
Lemma advance_less c now p p' f : advance c now p = Some (p', f) -> pc_lt p' p.
Proof.
  intros Ha. unfold pc_lt. destruct p as [[|stage stages] acc|stage rest acc|lb [|a attempts] primary rest acc|[|w writes] [[[out err] code] e] late lb attempts primary rest acc
    |lb ok rest acc| | | | |]; cbn [advance] in Ha; try done; repeat (case_match; try done); simplify_eq; cbn [rank List.length].
  all: try (apply rank_first; lia).
  all: apply right_slex; try (apply left_slex; lia).
  apply right_slex. lia.
Qed.
Lemma run_step_less i c now s s' : run_step i c now s = Some s' -> one_less (pcs s') (pcs s).
Proof.
  unfold run_step. destruct (sy_heap s !! i) as [t|] eqn:Et; [|done]. destruct (sy_runs s !! i) as [r|] eqn:Er; [|done]. intros Hs.
  exists i, (rn_pc r). enough (exists p', pcs s' = <[i := p']> (pcs s) /\ pc_lt p' (rn_pc r)) as (p' & H1 & H2).
  { exists p'. split; [|by split]. unfold pcs. by rewrite list_lookup_fmap, Er. }
  destruct (rn_pc r) as [stages acc|stage rest acc|lb attempts primary rest acc|writes result late lb attempts primary rest acc|lb ok rest acc|acc|response| | |] eqn:Ep.
  all: try (destruct (advance c now _) as [[p' f]|] eqn:Ha; [|done]; apply Some_inj in Hs; subst s'; exists p'; split; [unfold pcs; cbn; by rewrite list_fmap_insert|by eapply advance_less]).
  - apply Some_inj in Hs. subst s'. exists (PFinish (response_of t acc)). split; [unfold pcs; cbn; by rewrite list_fmap_insert|]. apply rank_first. cbn. lia.
  - destruct (finish _ _ _ _ _) as [t'|]; [|done]. apply Some_inj in Hs. subst s'. exists PRelease. split; [unfold pcs; cbn; by rewrite list_fmap_insert|]. apply rank_first. lia.
  - destruct (Slots.step _ _); [|done]. injection Hs as <-. exists PReceive. split; [unfold pcs; cbn; by rewrite list_fmap_insert|]. apply rank_first. lia.
  - destruct (Slots.step _ _); [|done]. injection Hs as <-. exists PStopped. split; [unfold pcs; cbn; by rewrite list_fmap_insert|]. apply rank_first. lia.
Qed.

Lemma interleaves_app l1 l2 : interleaves l1 l2 (l1 ++ l2) = true.
Proof.
  assert (Hnil : interleaves [] l2 l2 = true) by (induction l2 as [|x l2 IH]; [done|]; cbn; by rewrite bool_decide_true, IH).
  induction l1 as [|x l1 IH]; [done|]. cbn [app interleaves]. by rewrite bool_decide_true, IH.
Qed.
(** A run that has not stopped can go on, whatever the host holds and the command does,
    unless it waits to give its slot back to a channel without a token. *)
Lemma run_progress s i p : system_ok s -> pcs s !! i = Some p -> stopped p = false ->
  (forall host process late now, exists writes s', run_step i (mkChoice host process writes late) now s = Some s') \/
  p = PReceive /\ stranded (task_key i) (sy_slots s) /\ forall c now, run_step i c now s = None.
Proof.
  intros [Hruns Hsl Hheld _ _ _ _ _] Hp Hstop. pose proof (Hheld i p Hp) as Hh.
  destruct (Forall2_lookup_l _ _ _ _ _ Hruns Hp) as (t0 & Ht0 & _). assert (Hr0 : exists r, sy_runs s !! i = Some r /\ rn_pc r = p).
  { unfold pcs in Hp. rewrite list_lookup_fmap in Hp. destruct (sy_runs s !! i) as [r|]; [|done]. injection Hp as Hr. by exists r. }
  assert (Hrec : p = PReceive -> (exists slots, Slots.step (ReceiveN (task_key i)) (sy_slots s) = Some slots) \/
    stranded (task_key i) (sy_slots s) /\ forall c now, run_step i c now s = None).
  { intros ->. destruct Hh as [j Hj]. destruct (receive_possible (task_key i) j _ Hsl Hj) as [[slots Hs]|[Hst Hs]]; [left; by exists slots|right]. split; [done|].
    intros c now. unfold run_step. destruct Hr0 as (r & -> & ->). by rewrite Ht0, Hs. }
  assert (Hgo : (p = PReceive -> exists slots, Slots.step (ReceiveN (task_key i)) (sy_slots s) = Some slots) \/
    p = PReceive /\ stranded (task_key i) (sy_slots s) /\ forall c now, run_step i c now s = None).
  { destruct p; try (by left). destruct (Hrec eq_refl) as [?|?]; [by left|by right]. }
  destruct Hgo as [Hgo|?]; [left|by right]. clear Hrec Hr0 t0 Ht0. intros host process late now.
  exists (delivered (mkLimitedBuffer [] outputLimit) (pr_stdout process) ++ delivered (mkLimitedBuffer [] outputLimit) (pr_stderr process)).
  destruct (Forall2_lookup_l _ _ _ _ _ Hruns Hp) as (t & Ht & [Hshape Hstate]).
  unfold pcs in Hp. rewrite list_lookup_fmap in Hp.
  destruct (sy_runs s !! i) as [r|] eqn:Er; [|done]. injection Hp as Hr. unfold run_step. rewrite Ht, Er, Hr.
  destruct p as [[|stage stages] acc|stage rest acc|lb [|a attempts] primary rest acc|[|w writes] [[[out err] code] e] lt lb attempts primary rest acc
    |lb ok rest acc|acc|response| | |]; cbn [advance]; try done; try (by eexists).
  - destruct (stage_attempts _ stage) as [[|]|]; [case_bool_decide|..]; by eexists.
  - by destruct Hshape as (_ & ? & _).
  - cbn [ch_process ch_writes]. rewrite interleaves_app. by eexists.
  - destruct e; [destruct (lt || bool_decide (attempts = []))|]; by eexists.
  - unfold finish. destruct Hstate as (_ & -> & _). by eexists.
  - destruct (read_possible (task_key i) (sy_slots s) Hh) as [slots ->]. by eexists.
  - destruct (Hgo eq_refl) as [slots ->]. by eexists.
Qed.

(** A host with nothing on it. *)
Definition empty_host : OpsHost :=
  Build_OpsHost ∅ true (fun _ => None) (fun _ _ => Err no_failure) (fun _ => false) (fun _ => Ok []) (fun _ _ => None) (fun _ _ => None) (fun _ _ => false).
(** The runs on their own: no new dispatch, no cancel. *)
Definition run_rel (s s' : system) : Prop := exists i c now, run_step i c now s = Some s'.
Record all_ended (s : system) : Prop := {
  ae_tasks : Forall (fun t => finished t = true /\ tk_done t = true) (sy_heap s);
  ae_runs : forall i p, pcs s !! i = Some p -> p = PStopped /\ sl_runs (sy_slots s) !! task_key i = None \/ p = PReceive /\ stranded (task_key i) (sy_slots s);
  ae_audit : forall i, (i < List.length (sy_heap s))%nat -> audits_of i s = 1%nat;
}.
Lemma run_rel_ok s s' : system_ok s -> rtc run_rel s s' -> system_ok s'.
Proof.
  intros Hok Hr. induction Hr as [|s s1 s' (i & c & now & Hs) _ IH]; [done|]. apply IH.
  apply run_step_moved in Hs as (p & p' & t & t' & M). by eapply moved_ok.
Qed.
Lemma run_rel_wf s : Acc (fun s' s => run_rel s s') s.
Proof.
  revert s. apply (wf_incl _ _ (fun s' s => one_less (pcs s') (pcs s))).
  - intros s1 s2 (i & c & now & Hs). by eapply run_step_less.
  - apply (wf_inverse_image system _ one_less pcs), one_less_wf.
Qed.
Definition at_rest (s : system) (i : nat) (p : pc) : Prop := p = PStopped \/ p = PReceive /\ stranded (task_key i) (sy_slots s).
Lemma rest_ended s : system_ok s -> (forall i p, pcs s !! i = Some p -> at_rest s i p) -> all_ended s.
Proof.
  intros [Hruns _ Hheld _ _ _ Hau _] Hall.
  assert (Hend : forall i p, pcs s !! i = Some p -> ended p = true /\ reported p = true) by (intros i p Hp; by destruct (Hall i p Hp) as [->|[-> _]]).
  split.
  - apply Forall_lookup_2. intros i t Ht. destruct (Forall2_lookup_r _ _ _ _ _ Hruns Ht) as (p & Hp & Hok). destruct (Hend i p Hp) as [He _].
    rewrite (run_finished p t Hok). split; [done|]. destruct Hok as [_ Hok]. unfold task_state in Hok. rewrite He in Hok. by destruct Hok as (ctx & _ & Hd & _).
  - intros i p Hp. destruct (Hall i p Hp) as [->|?]; [left; split; [done|]; exact (Hheld i _ Hp)|by right].
  - intros i Hi. rewrite <-(Forall2_length _ _ _ Hruns) in Hi. apply lookup_lt_is_Some in Hi as [p Hp]. rewrite (Hau i p Hp). by destruct (Hend i p Hp) as [_ ->].
Qed.
(** Either all runs are at rest, or one can take a step. *)
Lemma rest_or_step s : system_ok s -> (forall i p, pcs s !! i = Some p -> at_rest s i p) \/ exists s', run_rel s s'.
Proof.
  intros Hok. assert (Hone : forall n, (forall i p, (i < n)%nat -> pcs s !! i = Some p -> at_rest s i p) \/ exists s', run_rel s s').
  { induction n as [|n [IH|?]]; [left; lia| |by right]. destruct (pcs s !! n) as [p|] eqn:Hp.
    - assert (at_rest s n p \/ exists s', run_rel s s') as [Hr|?]; [|left|by right].
      + destruct (stopped p) eqn:Est; [left; left; by destruct p|].
        destruct (run_progress s n p Hok Hp Est) as [Hgo|(-> & Hst & _)]; [right|by left; right].
        destruct (Hgo empty_host (mkProcess [] [] None) false 0) as (writes & s' & Hs'). by exists s', n, (mkChoice empty_host (mkProcess [] [] None) writes false), 0.
      + intros i q Hi Hq. destruct (decide (i = n)) as [->|]; [by simplify_eq|]. apply IH; [lia|done].
    - left. intros i q Hi Hq. destruct (decide (i = n)) as [->|]; [congruence|]. apply IH; [lia|done]. }
  destruct (Hone (List.length (pcs s))) as [Hall|?]; [left|by right]. intros i p Hp. apply Hall; [by eapply lookup_lt_Some|done].
Qed.
Lemma balanced_not_stranded cap t s : balanced cap s -> ~ stranded t s.
Proof.
  intros [_ Hch _ _ Hread] (i & c & Ht & Hc & H0). rewrite (Hread t i Ht), Hch in Hc. injection Hc as <-. cbn in H0. apply map_size_empty_inv in H0. by rewrite H0, lookup_empty in Ht.
Qed.
Lemma balanced_rel cap s s' : balanced cap (sy_slots s) -> rtc run_rel s s' -> balanced cap (sy_slots s').
Proof. intros Hb Hr. induction Hr as [|s s1 s' (i & c & now & Hs) _ IH]; [done|]. apply IH. by eapply balanced_run. Qed.
End terminate.

(** C12. Runs end. From every reachable state, reloads included: the runs cannot go on
    for ever, however their steps interleave (each command they start is taken to end,
    with any result); a run that has not stopped can go on, whatever the host holds, its
    command answers and the deadline does, except that giving its slot back waits while
    the channel it found has no token; wherever the runs come to rest every task is
    finished with its channel closed and in the audit log exactly once, and each run
    has given its slot back or waits in that way; and such a state is reached. No run
    ever waits unless a reload has replaced the channel: without one, all slots are
    given back. *)
Theorem runs_terminate `{ExecEnv} cap ls s : sys_steps ls (start_system cap) = Some s -> NoDup (dispatched ls) ->
  Acc (fun s' s => run_rel s s') s /\
  (forall s', rtc run_rel s s' ->
    (forall i p, pcs s' !! i = Some p -> stopped p = false ->
      (forall host process late now, exists writes s'', run_step i (mkChoice host process writes late) now s' = Some s'') \/
      p = PReceive /\ stranded (task_key i) (sy_slots s') /\ forall c now, run_step i c now s' = None) /\
    ((forall s'', ~ run_rel s' s'') -> all_ended s') /\
    (unreplaced ls = true -> forall i, ~ stranded (task_key i) (sy_slots s'))) /\
  exists s', rtc run_rel s s' /\ all_ended s'.
Proof.
  intros Hs Hnd. assert (Hok : system_ok s).
  { apply (sys_steps_ok ls (start_system cap)); [apply start_system_ok|exact Hs|exact Hnd|]. intros id _. apply not_elem_of_nil. }
  split_and!.
  - apply run_rel_wf.
  - intros s' Hr. pose proof (run_rel_ok _ _ Hok Hr) as Hok'. split_and!; [intros i p Hp Hst; by apply run_progress| |].
    + intros Hno. destruct (rest_or_step s' Hok') as [?|[s'' Hs'']]; [by apply rest_ended|by destruct (Hno s'')].
    + intros Hun i. eapply balanced_not_stranded, balanced_rel, Hr. exact (balanced_sys cap ls (start_system cap) s Hun (balanced_start cap) Hs).
  - clear Hs Hnd ls. revert Hok. induction (run_rel_wf s) as [s _ IH]. intros Hok. destruct (rest_or_step s Hok) as [Hend|[s1 Hs1]]; [by exists s; split; [|apply rest_ended]|].
    destruct (IH s1 Hs1) as (s' & Hr & Hend); [by eapply run_rel_ok, rtc_once|]. exists s'. split; [by eapply rtc_l|done].
Qed.

(** ** Witnesses *)

Definition demo_task : opTask := newOpTask ($"t1") ($"image.pull") ($"Pull an image") ($"nginx") ($"relay") ($"ada") [] 0.
Definition demo_follow : list watched := [Polled; Wrote ($"pulling "); Polled; Wrote ($"layer"); Wrote ($" done"); Polled; Wrote ($"!")].
Lemma follow_exact_witness :
  play_spec demo_follow (mkLog [] [] false) = mkLog ($"pulling layer done") ($"!") false /\
  exists gone, $"pulling layer done" = gone ++ wt_text (play demo_follow (demo_task, mkWatcher [] (-1))).2 /\ gone = [].
Proof.
  split; [by vm_compute|].
  destruct (follow_exact demo_follow demo_task eq_refl eq_refl ltac:(by vm_compute)) as (gone & H1 & H2 & _).
  exists gone. split; [exact H1|by apply H2].
Defined.

#[local] Instance task_env : ExecEnv := {
  hmac_hex _ _ := [];
  template_values _ := ∅;
  error_text _ := [];
}.
(** Two tasks with two slots: the first pulls an image, fails and is cancelled on the
    way; a webhook run takes the slot it leaves. *)
Definition demo_plan : nativeOpPlan :=
  mkPlan [mkStage ($"Pull") [attempt [$"docker"; $"pull"; $"nginx"]] None []; mkStage ($"Recreate") [attempt [$"docker"; $"up"]] None []] ($"nginx") 60.
Definition demo_choice : choice :=
  mkChoice empty_host (mkProcess [$"layer"] [$"denied"] (Some (ExitError 1))) [$"layer"; $"denied"] false.
Definition demo_run (i : nat) : label := Run i demo_choice 7.
Definition demo_trace : list label :=
  [Dispatch ($"t1") ($"image.pull") ($"Pull an image") demo_plan ($"relay") ($"ada") 1; demo_run 0; demo_run 0;
   Dispatch ($"t2") ($"image.pull") ($"Pull an image") demo_plan ($"job") [] 2; demo_run 0; demo_run 1; demo_run 0;
   CancelTask ($"t1"); demo_run 0; demo_run 0; demo_run 0; demo_run 0; demo_run 0; demo_run 0; demo_run 0; Slot (AcquireW 1)].
Definition demo_state : system := default (start_system 2) (sys_steps demo_trace (start_system 2)).
Lemma demo_steps : sys_steps demo_trace (start_system 2) = Some demo_state.
Proof.
  assert (Hs : is_Some_b (sys_steps demo_trace (start_system 2)) = true) by (vm_compute; reflexivity).
  unfold demo_state. by destruct (sys_steps demo_trace (start_system 2)).
Qed.
Example demo_task_end : (fun t => (tk_status t, statuses t, tk_output t)) <$> sy_heap demo_state =
  [(taskStatusCanceled, [taskStatusFailed; stageStatusPending], $"layerdenied"); (taskStatusRunning, [taskStatusRunning; stageStatusPending], [])].
Proof. vm_compute. reflexivity. Qed.
(** A reload while a task runs: its slot is in the old channel, and it waits for a token
    of the new one. *)
Definition reload_trace : list label :=
  [Dispatch ($"t1") ($"image.pull") ($"Pull an image") demo_plan ($"relay") ($"ada") 1; Slot (Swap 2)] ++ replicate 10 (demo_run 0).
Example reload_strands : (fun s => (pcs s, sl_chans (sy_slots s), sl_runs (sy_slots s) !! task_key 0, tk_status <$> sy_heap s)) <$> sys_steps reload_trace (start_system 2) =
  Some ([PReceive], [mkChan 1 2; mkChan 0 2], Some (NRel 1), [taskStatusFailed]).
Proof. vm_compute. reflexivity. Qed.
Lemma tasks_sound_witness : exists s, sys_steps demo_trace (start_system 2) = Some s /\ system_ok s /\ (size (sl_runs (sy_slots s)) <= 2)%nat.
Proof.
  exists demo_state. split; [exact demo_steps|]. destruct (tasks_sound 2 demo_trace demo_state demo_steps) as [H1 H2]; [by apply (bool_decide_unpack (NoDup (dispatched demo_trace))); vm_compute|].
  split; [exact H1|]. by apply (H2 eq_refl).
Defined.
Lemma runs_terminate_witness : exists s s', sys_steps demo_trace (start_system 2) = Some s /\ rtc run_rel s s' /\ all_ended s'.
Proof.
  destruct (runs_terminate 2 demo_trace demo_state demo_steps) as (_ & _ & s' & Hr & Hend); [by apply (bool_decide_unpack (NoDup (dispatched demo_trace))); vm_compute|].
  exists demo_state, s'. exact (conj demo_steps (conj Hr Hend)).
Defined.
