(* ===== verification/Stream.v ===== *)
(** * Stream: the event hub

    [internal/daemon/stream.go]: subscribers with a bounded queue each, buckets per
    event type, and broadcasts that never wait for a slow reader. A broadcast holds
    the hub's lock, the readers do not: one push is the three channel operations of
    [pushLocked], and a reader may take a frame between any two of them. The
    executable operations come first, then the machine that interleaves them. *)

From S2P Require Import Prelude GoStr.
Open Scope Z_scope.

Definition subscriberBufferSize : nat := 8.
Definition streamEventTypes : list str :=
  [$"metric"; $"containers"; $"images"; $"processes"; $"systemd"; $"runtimes"; $"databaseMetrics"; $"logs"].
Definition maxProcessesLimit : Z := 10000.

(** ** Queries *)

(** The loops that keep the first occurrence of each wanted name. *)
Fixpoint unique_from (seen : list str) (names : list str) : list str :=
  match names with
  | [] => []
  | raw :: names =>
      let t := TrimSpace raw in
      if bool_decide (t = []) || bool_decide (t ∈ seen) then unique_from seen names
      else t :: unique_from (t :: seen) names
  end.
Definition unique_types (types : list str) : list str := unique_from [] types.
Fixpoint known_from (seen : list str) (parts : list str) : res (list str) :=
  match parts with
  | [] => Ok []
  | part :: parts =>
      let t := TrimSpace part in
      if bool_decide (t = []) then known_from seen parts
      else if negb (bool_decide (t ∈ streamEventTypes)) then Err (Errorf "unknown event type %q" [FStr t])
      else if bool_decide (t ∈ seen) then known_from seen parts
      else let? types := known_from (t :: seen) parts in Ok (t :: types)
  end.
Definition parseEventsParam (raw : str) : res (list str) :=
  let raw := TrimSpace raw in
  if bool_decide (raw = []) then Ok [] else known_from [] (split_on (ch ",") raw).
(** The start of [handleStream]: no type means every type. *)
Definition requested_types (raw : str) : res (list str) :=
  let? types := parseEventsParam raw in Ok (if bool_decide (types = []) then streamEventTypes else types).
Definition parseProcessesLimit (raw : str) (defaultLimit : Z) : res Z :=
  if bool_decide (TrimSpace raw = []) then Ok defaultLimit
  else
    match Atoi (TrimSpace raw) with
    | None => Err (Errorf "limit must be an integer" [])
    | Some n =>
        if (n <? 0) || (maxProcessesLimit <? n)
        then Err (Errorf "limit must be 0 (all) or between 1 and %d" [FInt maxProcessesLimit]) else Ok n
    end.

(** ** The hub *)

(** A subscriber: its queue, whether it is closed, and what its handler has read so
    far. [sb_offered] is history: the frames pushed to it, in order. *)
Record Subscriber := mkSubscriber {
  sb_Types : list str;
  sb_ProcessesLimit : Z;
  sb_ch : list str;
  sb_closed : bool;
  sb_got : list str;
  sb_offered : list str;
}.
Abbreviation sid := nat.
Record StreamHub := mkHub { all : gset sid; subs : gmap str (gset sid) }.
Definition NewStreamHub : StreamHub := mkHub ∅ ∅.
Definition bucket (h : StreamHub) (event : str) : gset sid := default ∅ (subs h !! event).
Definition Subscribers (h : StreamHub) (event : str) : nat := size (bucket h event).
Definition Len (h : StreamHub) : nat := size (all h).

(** The work of the broadcast that holds the lock: the pushes to come, and how far
    the first one is. No work means the lock is free. *)
Inductive stage := TrySend | DropOldest | SendAgain.
Record hub_state := mkState {
  hs_subs : list Subscriber;
  hs_hub : StreamHub;
  hs_work : list (sid * str);
  hs_stage : stage;
}.
Definition start_hub : hub_state := mkState [] NewStreamHub [] TrySend.

Definition add_type (s : sid) (t : str) (m : gmap str (gset sid)) : gmap str (gset sid) := <[t := {[s]} ∪ default ∅ (m !! t)]> m.
Definition drop_type (s : sid) (t : str) (m : gmap str (gset sid)) : gmap str (gset sid) :=
  match m !! t with
  | Some b => if bool_decide (b ∖ {[s]} = ∅) then delete t m else <[t := b ∖ {[s]}]> m
  | None => m
  end.
Definition Subscribe (types : list str) (limit : Z) (st : hub_state) : hub_state :=
  let s := List.length (hs_subs st) in
  let unique := unique_types types in
  mkState (hs_subs st ++ [mkSubscriber unique limit [] false [] []])
    (mkHub ({[s]} ∪ all (hs_hub st)) (fold_left (fun m t => add_type s t m) unique (subs (hs_hub st))))
    (hs_work st) (hs_stage st).
Definition close_ch (s : Subscriber) : Subscriber :=
  mkSubscriber (sb_Types s) (sb_ProcessesLimit s) (sb_ch s) true (sb_got s) (sb_offered s).
Definition Unsubscribe (i : sid) (st : hub_state) : hub_state :=
  match hs_subs st !! i with
  | Some s =>
      if bool_decide (i ∈ all (hs_hub st)) then
        mkState (<[i := close_ch s]> (hs_subs st))
          (mkHub (all (hs_hub st) ∖ {[i]}) (fold_left (fun m t => drop_type i t m) (sb_Types s) (subs (hs_hub st))))
          (hs_work st) (hs_stage st)
      else st
  | None => st
  end.

(** The three channel operations of a push; a send on a closed channel panics. *)
Definition enqueue (frame : str) (s : Subscriber) : Subscriber :=
  mkSubscriber (sb_Types s) (sb_ProcessesLimit s) (sb_ch s ++ [frame]) (sb_closed s) (sb_got s) (sb_offered s ++ [frame]).
Definition pass_over (frame : str) (s : Subscriber) : Subscriber :=
  mkSubscriber (sb_Types s) (sb_ProcessesLimit s) (sb_ch s) (sb_closed s) (sb_got s) (sb_offered s ++ [frame]).
Definition drop_oldest (s : Subscriber) : Subscriber :=
  mkSubscriber (sb_Types s) (sb_ProcessesLimit s) (tail (sb_ch s)) (sb_closed s) (sb_got s) (sb_offered s).
Definition has_room (s : Subscriber) : bool := (List.length (sb_ch s) <? subscriberBufferSize)%nat.
Definition pushLocked (st : hub_state) : option hub_state :=
  match hs_work st with
  | [] => None
  | (i, frame) :: work =>
      match hs_subs st !! i with
      | None => None
      | Some s =>
          let next s work stage := Some (mkState (<[i := s]> (hs_subs st)) (hs_hub st) work stage) in
          match hs_stage st with
          | TrySend =>
              if sb_closed s then None
              else if has_room s then next (enqueue frame s) work TrySend else next s ((i, frame) :: work) DropOldest
          | DropOldest => next (drop_oldest s) ((i, frame) :: work) SendAgain
          | SendAgain =>
              if sb_closed s then None
              else next (if has_room s then enqueue frame s else pass_over frame s) work TrySend
          end
      end
  end.
(** The handler takes the next frame; [None] when it waits or its stream has ended. *)
Definition receive (i : sid) (st : hub_state) : option hub_state :=
  match hs_subs st !! i with
  | Some (mkSubscriber types limit (frame :: ch) closed got offered) =>
      Some (mkState (<[i := mkSubscriber types limit ch closed (got ++ [frame]) offered]> (hs_subs st)) (hs_hub st) (hs_work st) (hs_stage st))
  | _ => None
  end.

(** ** Broadcasts

    [order] is the order in which the range over the bucket visits it. *)

Definition frame_of (event data : str) : str := $"event: " ++ event ++ [newline] ++ $"data: " ++ data ++ [newline; newline].
Definition broadcastLocked (event data : str) (order : list sid) : list (sid * str) := (fun i => (i, frame_of event data)) <$> order.

(** json.Marshal of the payload with the first rows of the process table. *)
Class ProcessJSON := { processEntry : Type; Marshal_processes : list processEntry -> option str }.
Section processes.
Context `{ProcessJSON} (limit_of : sid -> Z).
(** The common limit of the bucket, and whether there is one. *)
Fixpoint common_limit (common : Z) (order : list sid) : Z * bool :=
  match order with
  | [] => (common, true)
  | s :: order =>
      if common =? -1 then common_limit (limit_of s) order
      else if limit_of s =? common then common_limit common order else (common, false)
  end.
Definition limited (limit : Z) (entries : list processEntry) : list processEntry :=
  if (0 <? limit) && (limit <? Z.of_nat (List.length entries)) then take (Z.to_nat limit) entries else entries.
Definition processes_work (entries : list processEntry) (order : list sid) : list (sid * str) :=
  match order with
  | [] => []
  | _ =>
      let '(common, shared) := common_limit (-1) order in
      if shared then
        match Marshal_processes (limited common entries) with
        | Some data => broadcastLocked ($"processes") data order
        | None => []
        end
      else
        omap (fun s => (fun data => (s, frame_of ($"processes") data)) <$> Marshal_processes (limited (limit_of s) entries)) order
  end.
End processes.

Inductive label `{ProcessJSON} :=
  | LSubscribe (types : list str) (limit : Z)
  | LUnsubscribe (i : sid)
  | LBroadcast (event data : str) (order : list sid)
  | LBroadcastProcesses (entries : list processEntry) (order : list sid)
  | LPush
  | LReceive (i : sid).
Definition limit_in (st : hub_state) (i : sid) : Z := match hs_subs st !! i with Some s => sb_ProcessesLimit s | None => 0 end.
Definition locked (st : hub_state) : bool := negb (bool_decide (hs_work st = [])).
Definition begin_work (work : list (sid * str)) (st : hub_state) : hub_state := mkState (hs_subs st) (hs_hub st) work TrySend.
Definition hub_step `{ProcessJSON} (l : label) (st : hub_state) : option hub_state :=
  match l with
  | LPush => pushLocked st
  | LReceive i => receive i st
  | _ =>
      if locked st then None
      else
        match l with
        | LSubscribe types limit => Some (Subscribe types limit st)
        | LUnsubscribe i => Some (Unsubscribe i st)
        | LBroadcast event data order =>
            if bool_decide (order ≡ₚ elements (bucket (hs_hub st) event)) then Some (begin_work (broadcastLocked event data order) st) else None
        | LBroadcastProcesses entries order =>
            if bool_decide (order ≡ₚ elements (bucket (hs_hub st) ($"processes"))) then Some (begin_work (processes_work (limit_in st) entries order) st) else None
        | _ => None
        end
  end.
Fixpoint hub_steps `{ProcessJSON} (ls : list label) (st : hub_state) : option hub_state :=
  match ls with
  | [] => Some st
  | l :: ls => match hub_step l st with Some st => hub_steps ls st | None => None end
  end.

(** ** Facts *)

Definition in_bucket (m : gmap str (gset sid)) (t : str) (i : sid) : Prop := i ∈ (default ∅ (m !! t) : gset sid).
Definition no_empty (m : gmap str (gset sid)) : Prop := forall t b, m !! t = Some b -> b <> ∅.
Lemma add_type_spec s t m : no_empty m ->
  no_empty (add_type s t m) /\ forall t' i, in_bucket (add_type s t m) t' i <-> in_bucket m t' i \/ (i = s /\ t' = t).
Proof.
  intros Hm. unfold add_type, in_bucket. split.
  - intros t' b. destruct (decide (t' = t)) as [->|Hne]; [rewrite lookup_insert_eq; intros [= <-]; set_solver|].
    rewrite lookup_insert_ne by done. apply Hm.
  - intros t' i. destruct (decide (t' = t)) as [->|Hne]; [rewrite lookup_insert_eq; cbn; set_solver|].
    rewrite lookup_insert_ne by done. naive_solver.
Qed.
Lemma drop_type_spec s t m : no_empty m ->
  no_empty (drop_type s t m) /\ forall t' i, in_bucket (drop_type s t m) t' i <-> in_bucket m t' i /\ ~ (i = s /\ t' = t).
Proof.
  intros Hm. unfold drop_type. destruct (m !! t) as [b|] eqn:Et.
  - case_bool_decide as Hb; unfold in_bucket; split.
    + intros t' b' [_ Hl]%lookup_delete_Some. by apply (Hm t').
    + intros t' i. destruct (decide (t' = t)) as [->|Hne]; [rewrite lookup_delete_eq, Et; cbn; set_solver|].
      rewrite lookup_delete_ne by done. naive_solver.
    + intros t' b'. destruct (decide (t' = t)) as [->|Hne]; [rewrite lookup_insert_eq; congruence|]. rewrite lookup_insert_ne by done. apply Hm.
    + intros t' i. destruct (decide (t' = t)) as [->|Hne]; [rewrite lookup_insert_eq, Et; cbn; set_solver|].
      rewrite lookup_insert_ne by done. naive_solver.
  - split; [done|]. unfold in_bucket. intros t' i. split; [|by intros [? _]]. intros Hi. split; [done|]. intros [-> ->]. rewrite Et in Hi. set_solver.
Qed.
Lemma add_types_spec s ts m : no_empty m -> let m' := fold_left (fun m t => add_type s t m) ts m in
  no_empty m' /\ forall t i, in_bucket m' t i <-> in_bucket m t i \/ (i = s /\ t ∈ ts).
Proof.
  revert m. induction ts as [|t ts IH]; intros m Hm; cbn [fold_left]; [split; [done|]; intros t i; rewrite elem_of_nil; naive_solver|].
  destruct (add_type_spec s t m Hm) as [Hm1 H1]. destruct (IH _ Hm1) as [Hm2 H2]. split; [done|]. intros t' i. rewrite H2, H1, elem_of_cons. naive_solver.
Qed.
Lemma drop_types_spec s ts m : no_empty m -> let m' := fold_left (fun m t => drop_type s t m) ts m in
  no_empty m' /\ forall t i, in_bucket m' t i <-> in_bucket m t i /\ ~ (i = s /\ t ∈ ts).
Proof.
  revert m. induction ts as [|t ts IH]; intros m Hm; cbn [fold_left]; [split; [done|]; intros t i; rewrite elem_of_nil; naive_solver|].
  destruct (drop_type_spec s t m Hm) as [Hm1 H1]. destruct (IH _ Hm1) as [Hm2 H2]. split; [done|]. intros t' i. rewrite H2, H1, elem_of_cons. naive_solver.
Qed.
Lemma unique_from_spec seen names : NoDup (unique_from seen names) /\
  forall t, t ∈ unique_from seen names <-> t <> [] /\ t ∉ seen /\ t ∈ TrimSpace <$> names.
Proof.
  revert seen. induction names as [|raw names IH]; intros seen; cbn [unique_from]; [split; [constructor|intros t; cbn; rewrite elem_of_nil; naive_solver]|].
  rewrite fmap_cons. destruct (bool_decide (TrimSpace raw = [])) eqn:E1; cbn [orb].
  { apply bool_decide_eq_true in E1. destruct (IH seen) as [Hn Hi]. split; [done|]. intros t. rewrite Hi, elem_of_cons, E1. naive_solver. }
  apply bool_decide_eq_false in E1. destruct (bool_decide (TrimSpace raw ∈ seen)) eqn:E2.
  { apply bool_decide_eq_true in E2. destruct (IH seen) as [Hn Hi]. split; [done|]. intros t. rewrite Hi, elem_of_cons. naive_solver. }
  apply bool_decide_eq_false in E2. destruct (IH (TrimSpace raw :: seen)) as [Hn Hi]. split.
  - constructor; [|done]. rewrite Hi, elem_of_cons. naive_solver.
  - intros t. rewrite !elem_of_cons, Hi, elem_of_cons. destruct (decide (t = TrimSpace raw)); naive_solver.
Qed.

(** ** The invariant *)

(** The queue of a subscriber whose newest frame may still be on its way. *)
Definition mid_push (st : hub_state) (i : sid) : bool :=
  match hs_work st, hs_stage st with (j, _) :: _, SendAgain => bool_decide (j = i) | _, _ => false end.
Record queue_ok (pending : bool) (s : Subscriber) : Prop := {
  qo_bound : (List.length (sb_ch s) <= subscriberBufferSize)%nat;
  qo_order : (sb_got s ++ sb_ch s) `sublist_of` sb_offered s;
  qo_newest : pending = false -> last (sb_got s ++ sb_ch s) = last (sb_offered s);
}.
Record hub_ok (st : hub_state) : Prop := {
  ho_all : forall i, i ∈ all (hs_hub st) <-> exists s, hs_subs st !! i = Some s /\ sb_closed s = false;
  ho_bucket : forall t i, in_bucket (subs (hs_hub st)) t i <-> i ∈ all (hs_hub st) /\ exists s, hs_subs st !! i = Some s /\ t ∈ sb_Types s;
  ho_no_empty : no_empty (subs (hs_hub st));
  ho_queues : forall i s, hs_subs st !! i = Some s -> queue_ok (mid_push st i) s;
  ho_work : Forall (fun w => w.1 ∈ all (hs_hub st)) (hs_work st);
  ho_stage : hs_work st = [] -> hs_stage st = TrySend;
  ho_room : forall i frame work s, hs_work st = (i, frame) :: work -> hs_stage st = SendAgain -> hs_subs st !! i = Some s -> has_room s = true;
}.

Lemma has_room_spec s : has_room s = true <-> (List.length (sb_ch s) < subscriberBufferSize)%nat.
Proof. unfold has_room. apply Nat.ltb_lt. Qed.
Lemma enqueue_ok frame s pending : queue_ok pending s -> has_room s = true -> queue_ok false (enqueue frame s).
Proof.
  intros [Hb Ho Hn] Hr%has_room_spec. unfold enqueue. split; cbn [sb_ch sb_got sb_offered].
  - rewrite length_app. cbn. lia.
  - rewrite (assoc_L (++)). by apply sublist_app.
  - intros _. by rewrite (assoc_L (++)), !last_snoc.
Qed.
Lemma drop_oldest_ok s pending : queue_ok pending s -> queue_ok true (drop_oldest s) /\ has_room (drop_oldest s) = true.
Proof.
  intros [Hb Ho Hn]. rewrite has_room_spec. unfold drop_oldest. cbn [sb_ch]. destruct (sb_ch s) as [|f q] eqn:Eq; cbn [tail].
  - split; [|cbn; unfold subscriberBufferSize; lia]. split; cbn [sb_ch sb_got sb_offered tail]; rewrite ?Eq; cbn [tail]; [cbn; lia|done|done].
  - cbn in Hb. split; [|lia]. split; cbn [sb_ch sb_got sb_offered tail]; rewrite ?Eq; cbn [tail]; [lia| |done].
    etrans; [|exact Ho]. apply sublist_app; [done|]. by apply sublist_cons.
Qed.
Lemma read_ok pending types limit frame q closed got offered : queue_ok pending (mkSubscriber types limit (frame :: q) closed got offered) ->
  queue_ok pending (mkSubscriber types limit q closed (got ++ [frame]) offered).
Proof.
  intros [Hb Ho Hn]. cbn [sb_ch sb_got sb_offered] in *. split; cbn [sb_ch sb_got sb_offered]; rewrite <-?(assoc_L (++)); cbn [app]; [cbn in Hb; lia|done|done].
Qed.

(** A step that changes one subscriber's queue. *)
Lemma hub_ok_queue st i s s' work stage : hub_ok st -> hs_subs st !! i = Some s ->
  sb_Types s' = sb_Types s -> sb_closed s' = sb_closed s ->
  let st' := mkState (<[i := s']> (hs_subs st)) (hs_hub st) work stage in
  queue_ok (mid_push st' i) s' ->
  (forall j, j <> i -> mid_push st j = true -> mid_push st' j = true) ->
  Forall (fun w => w.1 ∈ all (hs_hub st)) work -> (work = [] -> stage = TrySend) ->
  (forall j frame work' u, work = (j, frame) :: work' -> stage = SendAgain -> <[i := s']> (hs_subs st) !! j = Some u -> has_room u = true) ->
  hub_ok st'.
Proof.
  intros [Ha Hbk Hne Hq _ _ _] Hs Ht Hc st' Hq' Hmid Hw Hst Hroom.
  assert (Hl : (i < List.length (hs_subs st))%nat) by by eapply lookup_lt_Some.
  assert (Hsame : forall (P : Subscriber -> Prop), (P s' <-> P s) -> forall j, (exists u, <[i := s']> (hs_subs st) !! j = Some u /\ P u) <-> exists u, hs_subs st !! j = Some u /\ P u).
  { intros P HP j. destruct (decide (j = i)) as [->|Hj]; [|by rewrite list_lookup_insert_ne]. rewrite list_lookup_insert_eq by done. rewrite Hs. naive_solver. }
  split; unfold st'; cbn [hs_subs hs_hub hs_work hs_stage]; try done.
  - intros j. rewrite Ha. symmetry. apply Hsame. by rewrite Hc.
  - intros t j. rewrite Hbk. rewrite (Hsame (fun u => t ∈ sb_Types u)); [done|by rewrite Ht].
  - intros j u Hu. destruct (decide (j = i)) as [->|Hj].
    + rewrite list_lookup_insert_eq in Hu by done. injection Hu as <-. exact Hq'.
    + rewrite list_lookup_insert_ne in Hu by done. destruct (Hq j u Hu) as [H1 H2 H3]. split; [done|done|]. intros Hp. apply H3.
      destruct (mid_push st j) eqn:E; [|done]. apply (Hmid j Hj) in E. unfold st' in E. congruence.
Qed.
Lemma push_ok st st' : hub_ok st -> pushLocked st = Some st' -> hub_ok st'.
Proof.
  intros Hok. unfold pushLocked. destruct (hs_work st) as [|[i frame] work] eqn:Ew; [done|]. destruct (hs_subs st !! i) as [s|] eqn:Es; [|done].
  pose proof (ho_queues _ Hok i s Es) as Hq. pose proof (ho_work _ Hok) as Hw. rewrite Ew in Hw. pose proof Hw as Hall. apply Forall_cons in Hw as [Hi Hw].
  assert (Hother : forall stage j, j <> i -> mid_push (mkState (hs_subs st) (hs_hub st) ((i, frame) :: work) stage) j = false).
  { intros stage j Hj. unfold mid_push. cbn. destruct stage; try done. by rewrite bool_decide_false. }
  assert (Hst : st = mkState (hs_subs st) (hs_hub st) ((i, frame) :: work) (hs_stage st)) by (rewrite <-Ew; by destruct st).
  assert (Hmid : forall (st' : hub_state) j, j <> i -> mid_push st j = true -> mid_push st' j = true).
  { intros st0 j Hj Hm. rewrite Hst, Hother in Hm by done. done. }
  destruct (hs_stage st) eqn:Eg.
  - destruct (sb_closed s); [done|]. destruct (has_room s) eqn:Er; intros [= <-].
    + eapply hub_ok_queue; eauto; [|done]. eapply enqueue_ok in Er; [|exact Hq]. unfold mid_push. cbn. destruct work as [|[]]; exact Er.
    + eapply hub_ok_queue; eauto; try done. unfold mid_push in *. by rewrite Ew, Eg in Hq.
  - intros [= <-]. destruct (drop_oldest_ok _ _ Hq) as [Hq' Hr]. eapply hub_ok_queue; eauto; try done.
    + unfold mid_push. cbn. by rewrite bool_decide_true.
    + intros j f w u [= -> -> ->] _. rewrite list_lookup_insert_eq by by eapply lookup_lt_Some. by intros [= <-].
  - destruct (sb_closed s); [done|]. rewrite (ho_room _ Hok i frame work s Ew Eg Es). intros [= <-].
    eapply hub_ok_queue; eauto; [|done]. eapply enqueue_ok in Hq; [|by eapply ho_room]. unfold mid_push. cbn. destruct work as [|[]]; exact Hq.
Qed.
Lemma receive_ok st st' i : hub_ok st -> receive i st = Some st' -> hub_ok st'.
Proof.
  intros Hok. unfold receive. destruct (hs_subs st !! i) as [[types limit [|frame q] closed got offered]|] eqn:Es; [done| |done]. intros [= <-].
  pose proof (ho_queues _ Hok i _ Es) as Hq. eapply hub_ok_queue; [exact Hok|exact Es|done|done|..]; cbn [hs_work hs_stage].
  - by apply read_ok.
  - intros j _ Hm. exact Hm.
  - apply (ho_work _ Hok).
  - apply (ho_stage _ Hok).
  - intros j f w u Hw Hg. destruct (decide (j = i)) as [->|Hj].
    + rewrite list_lookup_insert_eq by by eapply lookup_lt_Some. intros [= <-]. pose proof (ho_room _ Hok i f w _ Hw Hg Es) as Hr.
      rewrite has_room_spec in *. cbn in *. lia.
    + rewrite list_lookup_insert_ne by done. by eapply (ho_room _ Hok).
Qed.
Lemma queue_weaken b s : queue_ok false s -> queue_ok b s.
Proof. intros [H1 H2 H3]. split; auto. Qed.
Lemma mid_push_free st i : locked st = false -> mid_push st i = false.
Proof. unfold locked. intros Hl%negb_false_iff%bool_decide_eq_true. unfold mid_push. by rewrite Hl. Qed.
Lemma locked_free st : locked st = false -> hs_work st = [].
Proof. unfold locked. by intros Hl%negb_false_iff%bool_decide_eq_true. Qed.
Lemma subscribe_ok types limit st : hub_ok st -> locked st = false -> hub_ok (Subscribe types limit st).
Proof.
  intros [Ha Hbk Hne Hq Hw Hst Hr] Hl. pose proof (locked_free st Hl) as Hfree. unfold Subscribe. set (n := List.length (hs_subs st)).
  assert (Hnew : forall i s, (hs_subs st ++ [mkSubscriber (unique_types types) limit [] false [] []]) !! i = Some s <->
    hs_subs st !! i = Some s \/ i = n /\ s = mkSubscriber (unique_types types) limit [] false [] []).
  { intros i s. rewrite lookup_app_Some, list_lookup_singleton_Some. unfold n. split; [intros [?|(? & ? & <-)]; [by left|right; split; [lia|done]]|].
    intros [?|[-> ->]]; [by left|right]. split; [lia|]. split; [lia|done]. }
  assert (Hold : n ∉ all (hs_hub st)) by (rewrite Ha; intros (s & Hs%lookup_lt_Some & _); unfold n in Hs; lia).
  destruct (add_types_spec n (unique_types types) _ Hne) as [Hne' Hin]. split; cbn [hs_subs hs_hub hs_work hs_stage all subs].
  - intros i. rewrite elem_of_union, elem_of_singleton, Ha. split.
    + intros [->|(s & Hs & Hc)]; [eexists; split; [apply Hnew; by right|done]|exists s; split; [|done]; apply Hnew; by left].
    + intros (s & [Hs|[-> ->]]%Hnew & Hc); [right; by exists s|by left].
  - intros t i. rewrite Hin, Hbk, elem_of_union, elem_of_singleton. split.
    + intros [(Hi & s & Hs & Ht)|(-> & Ht)]; [split; [by right|exists s; split; [|done]; apply Hnew; by left]|split; [by left|]].
      eexists. split; [apply Hnew; by right|done].
    + intros (Hi & s & [Hs|[-> ->]]%Hnew & Ht); [left|by right]. destruct Hi as [->|Hi]; [|split; [done|by exists s]].
      apply lookup_lt_Some in Hs. unfold n in Hs. lia.
  - exact Hne'.
  - intros i s [Hs|[_ ->]]%Hnew; [|split; cbn; [lia|done|done]]. specialize (Hq i s Hs). rewrite mid_push_free in Hq by done. by apply queue_weaken.
  - rewrite Hfree. constructor.
  - done.
  - rewrite Hfree. done.
Qed.
Lemma unsubscribe_ok i st : hub_ok st -> locked st = false -> hub_ok (Unsubscribe i st).
Proof.
  intros Hok Hl. unfold Unsubscribe. destruct (hs_subs st !! i) as [s|] eqn:Es; [|done]. case_bool_decide as Hi; [|done].
  destruct Hok as [Ha Hbk Hne Hq Hw Hst Hr]. pose proof (locked_free st Hl) as Hfree.
  assert (Hlt : (i < List.length (hs_subs st))%nat) by by eapply lookup_lt_Some.
  destruct (drop_types_spec i (sb_Types s) _ Hne) as [Hne' Hin]. split; cbn [hs_subs hs_hub hs_work hs_stage all subs].
  - intros j. rewrite elem_of_difference, elem_of_singleton, Ha. destruct (decide (j = i)) as [->|Hj].
    + rewrite list_lookup_insert_eq by done. split; [by intros [_ []]|]. by intros (u & [= <-] & Hc).
    + rewrite list_lookup_insert_ne by done. naive_solver.
  - intros t j. rewrite Hin, Hbk, elem_of_difference, elem_of_singleton. destruct (decide (j = i)) as [->|Hj].
    + rewrite Es. naive_solver.
    + rewrite list_lookup_insert_ne by done. naive_solver.
  - exact Hne'.
  - intros j u Hu. destruct (decide (j = i)) as [->|Hj].
    + rewrite list_lookup_insert_eq in Hu by done. injection Hu as <-. specialize (Hq i s Es). rewrite mid_push_free in Hq by done. apply queue_weaken. by destruct Hq.
    + rewrite list_lookup_insert_ne in Hu by done. specialize (Hq j u Hu). rewrite mid_push_free in Hq by done. by apply queue_weaken.
  - rewrite Hfree. constructor.
  - done.
  - rewrite Hfree. done.
Qed.
Lemma begin_ok work st : hub_ok st -> locked st = false -> Forall (fun w => w.1 ∈ all (hs_hub st)) work -> hub_ok (begin_work work st).
Proof.
  intros [Ha Hbk Hne Hq Hw Hst Hr] Hl Hwork. split; try done. cbn. intros i s Hs. specialize (Hq i s Hs). rewrite mid_push_free in Hq by done.
  by apply queue_weaken.
Qed.
Section hub.
Context `{ProcessJSON}.
Lemma bucket_targets st event order : hub_ok st -> order ≡ₚ elements (bucket (hs_hub st) event) -> Forall (fun i => i ∈ all (hs_hub st)) order.
Proof.
  intros Hok Ho. apply Forall_forall. intros i Hi. rewrite Ho, elem_of_elements in Hi. by apply (ho_bucket _ Hok event i) in Hi as [? _].
Qed.
Lemma broadcast_targets event data order (P : sid -> Prop) : Forall P order -> Forall (fun w => P w.1) (broadcastLocked event data order).
Proof. intros Ho. apply Forall_fmap. eapply Forall_impl; [exact Ho|]. by intros i. Qed.
Lemma processes_targets limit_of entries order (P : sid -> Prop) : Forall P order -> Forall (fun w => P w.1) (processes_work limit_of entries order).
Proof.
  intros Ho. unfold processes_work. destruct order as [|s order]; [constructor|]. destruct (common_limit _ _ _) as [common shared]. destruct shared.
  - destruct (Marshal_processes _); [by apply broadcast_targets|constructor].
  - apply Forall_forall. intros [i f] (j & Hj & Hf)%list_elem_of_omap. apply fmap_Some in Hf as (data & _ & [= -> ->]). by eapply Forall_forall in Ho.
Qed.
Lemma hub_step_ok l st st' : hub_ok st -> hub_step l st = Some st' -> hub_ok st'.
Proof.
  intros Hok. unfold hub_step. destruct l as [types limit|i|event data order|entries order| |i]; [..|by apply push_ok|by apply receive_ok];
    (destruct (locked st) eqn:El; [done|]).
  - intros [= <-]. by apply subscribe_ok.
  - intros [= <-]. by apply unsubscribe_ok.
  - case_bool_decide as Ho; [|done]. intros [= <-]. apply begin_ok; [done|done|]. apply (broadcast_targets event data order (fun i => i ∈ all (hs_hub st))). by eapply bucket_targets.
  - case_bool_decide as Ho; [|done]. intros [= <-]. apply begin_ok; [done|done|]. apply (processes_targets _ entries order (fun i => i ∈ all (hs_hub st))). by eapply bucket_targets.
Qed.
Lemma start_hub_ok : hub_ok start_hub.
Proof.
  split; try done; cbn.
  - intros i. rewrite elem_of_empty. split; [done|]. by intros (s & Hs & _).
  - intros t i. unfold in_bucket. rewrite lookup_empty. cbn. rewrite !elem_of_empty. naive_solver.
Qed.
Lemma hub_steps_ok ls st st' : hub_ok st -> hub_steps ls st = Some st' -> hub_ok st'.
Proof.
  revert st. induction ls as [|l ls IH]; intros st Hok Hs; cbn [hub_steps] in Hs; [by injection Hs as <-|].
  destruct (hub_step l st) as [st1|] eqn:E; [|done]. by eapply IH, Hs; eapply hub_step_ok.
Qed.

(** ** Delivery *)

Definition frames_for (i : sid) (work : list (sid * str)) : list str := snd <$> filter (fun w => w.1 = i) work.
Definition remaining (st : hub_state) : nat :=
  match hs_work st, hs_stage st with
  | [], _ => 0
  | work, TrySend => 3 * List.length work
  | work, DropOldest => 3 * List.length work - 1
  | work, SendAgain => 3 * List.length work - 2
  end.
(** A push is never stuck, and brings the broadcast closer to its end. *)
Lemma push_progress st : hub_ok st -> hs_work st <> [] -> exists st', pushLocked st = Some st' /\ (remaining st' < remaining st)%nat /\
  forall i s, hs_subs st !! i = Some s -> exists s', hs_subs st' !! i = Some s' /\
    sb_offered s' ++ frames_for i (hs_work st') = sb_offered s ++ frames_for i (hs_work st).
Proof.
  intros Hok Hne. unfold pushLocked, remaining. destruct (hs_work st) as [|[i frame] work] eqn:Ew; [done|].
  pose proof (ho_work _ Hok) as Hw. rewrite Ew in Hw. apply Forall_cons in Hw as [Hi _]. cbn in Hi. apply (ho_all _ Hok) in Hi as (s & Hs & Hc). rewrite Hs, Hc.
  assert (Hlen : (i < List.length (hs_subs st))%nat) by by eapply lookup_lt_Some.
  assert (Hsubs : forall u work', sb_offered u ++ frames_for i work' = sb_offered s ++ frames_for i ((i, frame) :: work) ->
    (forall j, j <> i -> frames_for j work' = frames_for j ((i, frame) :: work)) ->
    forall j v, hs_subs st !! j = Some v -> exists v', <[i := u]> (hs_subs st) !! j = Some v' /\
      sb_offered v' ++ frames_for j work' = sb_offered v ++ frames_for j ((i, frame) :: work)).
  { intros u work' Hu Hj j v Hv. destruct (decide (j = i)) as [->|Hne'].
    - exists u. rewrite list_lookup_insert_eq by done. split; [done|]. rewrite Hs in Hv. by injection Hv as <-.
    - exists v. rewrite list_lookup_insert_ne by done. split; [done|]. by rewrite Hj. }
  assert (Htake : forall j, frames_for j ((i, frame) :: work) = (if decide (i = j) then [frame] else []) ++ frames_for j work)
    by (intros j; unfold frames_for; rewrite filter_cons; cbn; by destruct (decide (i = j))).
  assert (Hpop : forall u, sb_offered u = sb_offered s ++ [frame] -> forall j v, hs_subs st !! j = Some v -> exists v', <[i := u]> (hs_subs st) !! j = Some v' /\
      sb_offered v' ++ frames_for j work = sb_offered v ++ frames_for j ((i, frame) :: work)).
  { intros u Hu. apply Hsubs; [by rewrite Hu, Htake, decide_True, <-(assoc_L (++))|]. intros j Hj. by rewrite Htake, decide_False by done. }
  destruct (hs_stage st).
  - destruct (has_room s); eexists; split; [done| |done|]; cbn [hs_subs hs_work hs_stage].
    + split; [destruct work; cbn; lia|]. by apply Hpop.
    + split; [cbn; lia|]. by apply Hsubs.
  - eexists; split; [done|]; cbn [hs_subs hs_work hs_stage]. split; [cbn; lia|]. by apply Hsubs.
  - eexists; split; [done|]; cbn [hs_subs hs_work hs_stage]. split; [destruct work; cbn; lia|]. apply Hpop. by destruct (has_room s).
Qed.
Lemma push_finish st : hub_ok st -> exists n st', (n <= remaining st)%nat /\ hub_steps (replicate n LPush) st = Some st' /\ hs_work st' = [] /\
  forall i s, hs_subs st !! i = Some s -> exists s', hs_subs st' !! i = Some s' /\ sb_offered s' = sb_offered s ++ frames_for i (hs_work st).
Proof.
  remember (remaining st) as m eqn:Em. revert st Em. induction (lt_wf m) as [m _ IH]. intros st -> Hok.
  destruct (decide (hs_work st = [])) as [Hw|Hw].
  { exists 0%nat, st. split_and!; [lia|done|done|]. intros i s Hs. exists s. rewrite Hw. split; [done|]. cbn. by rewrite app_nil_r. }
  destruct (push_progress st Hok Hw) as (st1 & Hp & Hlt & Hoff). destruct (IH _ Hlt st1 eq_refl) as (n & st' & Hn & Hs & Hend & Hfin); [by eapply push_ok|].
  exists (S n), st'. split_and!; [lia| |done|].
  - cbn [replicate hub_steps hub_step]. by rewrite Hp.
  - intros i s Hsi. destruct (Hoff i s Hsi) as (s1 & Hs1 & He). destruct (Hfin i s1 Hs1) as (s' & Hs' & He'). exists s'. split; [done|]. by rewrite He'.
Qed.

(** A push to [i] that did not find room at first. *)
Definition crowded (i : sid) (st : hub_state) : bool :=
  match hs_work st, hs_stage st with (j, _) :: _, (DropOldest | SendAgain) => bool_decide (j = i) | _, _ => false end.
Fixpoint overran (i : sid) (ls : list label) (st : hub_state) : bool :=
  crowded i st || match ls with [] => false | l :: ls => match hub_step l st with Some st => overran i ls st | None => false end end.
Definition lossless (i : sid) (st : hub_state) : Prop := forall s, hs_subs st !! i = Some s -> sb_got s ++ sb_ch s = sb_offered s.
Lemma lossless_insert i u s' st work stage : hs_subs st !! i = Some u -> (sb_got u ++ sb_ch u = sb_offered u -> sb_got s' ++ sb_ch s' = sb_offered s') ->
  lossless i st -> lossless i (mkState (<[i := s']> (hs_subs st)) (hs_hub st) work stage).
Proof.
  intros Hu Hs Hl v. cbn. rewrite list_lookup_insert_eq by by eapply lookup_lt_Some. intros [= <-]. by apply Hs, Hl.
Qed.
Lemma lossless_other i j s' st hub work stage : i <> j -> lossless i st -> lossless i (mkState (<[j := s']> (hs_subs st)) hub work stage).
Proof. intros Hne Hl v. cbn. rewrite list_lookup_insert_ne by done. apply Hl. Qed.
Lemma lossless_step i l st st' : lossless i st -> crowded i st = false -> hub_step l st = Some st' -> lossless i st'.
Proof.
  intros Hl Hc. unfold hub_step. destruct l as [types limit|j|event data order|entries order| |j].
  5: { unfold pushLocked, crowded in *. destruct (hs_work st) as [|[j frame] work]; [done|]. destruct (hs_subs st !! j) as [u|] eqn:Eu; [|done].
    destruct (decide (i = j)) as [->|Hne].
    - destruct (hs_stage st); [|by rewrite bool_decide_true in Hc..]. destruct (sb_closed u); [done|].
      destruct (has_room u); intros [= <-]; (eapply lossless_insert; [exact Eu| |exact Hl]); [cbn; rewrite (assoc_L (++)); by intros ->|done].
    - destruct (hs_stage st); [destruct (sb_closed u); [done|]; destruct (has_room u)| |destruct (sb_closed u); [done|]]; intros [= <-]; by apply lossless_other. }
  5: { unfold receive. destruct (hs_subs st !! j) as [[types limit [|frame q] closed got offered]|] eqn:Eu; [done| |done]. intros [= <-].
    destruct (decide (i = j)) as [->|Hne]; [|by apply lossless_other]. eapply lossless_insert; [exact Eu| |exact Hl]. cbn. by rewrite <-(assoc_L (++)). }
  all: destruct (locked st); [done|].
  - intros [= <-] v. unfold Subscribe. cbn [hs_subs]. rewrite lookup_app_Some, list_lookup_singleton_Some. intros [?|(_ & _ & <-)]; [by apply Hl|done].
  - intros [= <-]. unfold Unsubscribe. destruct (hs_subs st !! j) as [u|] eqn:Eu; [|done]. case_bool_decide; [|done].
    destruct (decide (i = j)) as [->|Hne]; [|by apply lossless_other]. intros v. cbn [hs_subs]. rewrite list_lookup_insert_eq by by eapply lookup_lt_Some.
    intros [= <-]. exact (Hl u Eu).
  - case_bool_decide; [|done]. by intros [= <-].
  - case_bool_decide; [|done]. by intros [= <-].
Qed.
Lemma lossless_steps i ls st st' : lossless i st -> overran i ls st = false -> hub_steps ls st = Some st' -> lossless i st'.
Proof.
  revert st. induction ls as [|l ls IH]; intros st Hl Ho Hs; cbn [overran hub_steps] in *; apply orb_false_iff in Ho as [Hc Ho]; [by injection Hs as <-|].
  destruct (hub_step l st) as [st1|] eqn:E; [|done]. by eapply IH, Hs; [eapply lossless_step|].
Qed.
End hub.

(** C34. The hub under any interleaving of its broadcasts with its readers, new
    subscribers and leaving ones. The subscribers it counts are the open ones, each in
    the buckets of exactly its types, and no bucket is empty. No queue holds more than
    [subscriberBufferSize] frames; what a subscriber has read and still has queued is
    in the order of the frames it was sent, none twice, and always ends with the
    newest; it is all of them as long as no push found its queue full. No push waits or
    meets a closed channel, so a broadcast ends after at most three steps per
    subscriber, having sent each of them its frame. *)
Theorem hub_sound `{ProcessJSON} ls st : hub_steps ls start_hub = Some st ->
  hub_ok st /\
  (forall i s, hs_subs st !! i = Some s -> overran i ls start_hub = false -> sb_got s ++ sb_ch s = sb_offered s) /\
  exists n st', (n <= 3 * List.length (hs_work st))%nat /\ hub_steps (replicate n LPush) st = Some st' /\ hs_work st' = [] /\
    forall i s, hs_subs st !! i = Some s ->
      exists s', hs_subs st' !! i = Some s' /\ sb_offered s' = sb_offered s ++ frames_for i (hs_work st).
Proof.
  intros Hs. assert (Hok : hub_ok st) by (eapply hub_steps_ok, Hs; apply start_hub_ok). split_and!; [done| |].
  - intros i s Hi Ho. eapply lossless_steps; [|exact Ho|exact Hs|exact Hi]. by intros u Hu.
  - destruct (push_finish st Hok) as (n & st' & Hn & Hrest). exists n, st'. split; [|exact Hrest].
    etrans; [exact Hn|]. unfold remaining. destruct (hs_work st), (hs_stage st); lia.
Qed.

(** ** Process snapshots *)

Lemma common_limit_spec (limit_of : sid -> Z) c order : 0 <= c -> Forall (fun s => 0 <= limit_of s) order ->
  common_limit limit_of c order = (c, true) /\ Forall (fun s => limit_of s = c) order \/ (common_limit limit_of c order).2 = false.
Proof.
  intros Hc. induction order as [|s order IH]; intros Ho; cbn [common_limit]; [left; by split|]. apply Forall_cons in Ho as [Hs Ho].
  rewrite (proj2 (Z.eqb_neq c (-1))) by lia. destruct (Z.eqb_spec (limit_of s) c) as [He|He]; [|by right].
  destruct (IH Ho) as [[-> Hall]|Hno]; [left; split; [done|by constructor]|by right].
Qed.
Lemma omap_Forall {A B} (f g : A -> option B) (l : list A) : Forall (fun x => f x = g x) l -> omap f l = omap g l.
Proof. induction 1 as [|x l Hx _ IH]; [done|]. cbn. by rewrite Hx, IH. Qed.
Lemma omap_total {A B} (f : A -> B) (l : list A) : omap (fun x => Some (f x)) l = f <$> l.
Proof. induction l as [|x l IH]; [done|]. cbn. by rewrite IH. Qed.
Lemma omap_nothing {A B} (l : list A) : omap (fun _ => @None B) l = [].
Proof. by induction l. Qed.

(** A process snapshot. Sharing one frame among the subscribers whose limit is the
    same never shows: in whatever order the bucket is walked, each of its subscribers
    is sent the frame with the first rows of the table up to its own limit, all rows
    when that is zero, and nothing only if that frame cannot be marshalled. *)
Theorem processes_frames_exact `{ProcessJSON} (limit_of : sid -> Z) entries order : Forall (fun s => 0 <= limit_of s) order ->
  processes_work limit_of entries order =
    omap (fun s => (fun data => (s, frame_of ($"processes") data)) <$>
                   Marshal_processes (if limit_of s =? 0 then entries else take (Z.to_nat (limit_of s)) entries)) order.
Proof.
  intros Ho. assert (Hlim : forall n, 0 <= n -> limited n entries = if n =? 0 then entries else take (Z.to_nat n) entries).
  { intros n Hn. unfold limited. destruct (Z.eqb_spec n 0) as [->|Hne]; [done|]. rewrite (proj2 (Z.ltb_lt 0 n)) by lia. cbn [andb].
    destruct (Z.ltb_spec n (Z.of_nat (List.length entries))); [done|]. rewrite take_ge; [done|lia]. }
  unfold processes_work. destruct order as [|s order]; [done|]. cbn [common_limit]. rewrite Z.eqb_refl.
  pose proof Ho as [Hs Hrest]%Forall_cons. destruct (common_limit_spec limit_of _ order Hs Hrest) as [[-> Hall]|Hno].
  - assert (Hc : Forall (fun x => (fun data => (x, frame_of ($"processes") data)) <$> Marshal_processes (if limit_of x =? 0 then entries else take (Z.to_nat (limit_of x)) entries)
      = (fun data => (x, frame_of ($"processes") data)) <$> Marshal_processes (limited (limit_of s) entries)) (s :: order)).
    { constructor; [by rewrite Hlim|]. eapply Forall_impl; [exact Hall|]. cbn. intros x ->. by rewrite Hlim. }
    rewrite (omap_Forall _ _ _ Hc). destruct (Marshal_processes _); symmetry; [apply omap_total|apply omap_nothing].
  - destruct (common_limit limit_of (limit_of s) order) as [c b]. cbn in Hno. subst b. apply omap_Forall. eapply Forall_impl; [exact Ho|].
    cbn. intros x Hx. by rewrite Hlim.
Qed.

(** ** Witnesses *)

#[local] Instance demo_processes : ProcessJSON := {
  processEntry := nat;
  Marshal_processes entries := Some (fmt_d (Z.of_nat (List.length entries)));
}.
(** Two subscribers; the slow one is sent nine metric frames and reads one. *)
Definition demo_hub : list label :=
  [LSubscribe [$"metric"; $" metric"; $"processes"] 2; LSubscribe [$"logs"; $"processes"] 0] ++
  concat (replicate 9 [LBroadcast ($"metric") ($"1") [0%nat]; LPush]) ++ [LPush; LReceive 0; LPush] ++
  [LBroadcastProcesses [1; 2; 3]%nat [0%nat; 1%nat]; LPush; LPush; LUnsubscribe 1; LReceive 1].
Example demo_queues : (fun st => ((fun s => (List.length (sb_ch s), List.length (sb_got s), sb_closed s)) <$> hs_subs st, Subscribers (hs_hub st) ($"processes"))) <$> hub_steps demo_hub start_hub
  = Some ([(8%nat, 1%nat, false); (0%nat, 1%nat, true)], 1%nat).
Proof. vm_compute. reflexivity. Qed.
Lemma hub_sound_witness : exists st s, hub_steps demo_hub start_hub = Some st /\ hub_ok st /\
  hs_subs st !! 1%nat = Some s /\ overran 1 demo_hub start_hub = false /\ sb_got s ++ sb_ch s = sb_offered s.
Proof.
  destruct (hub_steps demo_hub start_hub) as [st|] eqn:E; [|by vm_compute in E].
  assert (Hs : exists s, hs_subs st !! 1%nat = Some s).
  { destruct (hs_subs st) as [|a [|b l]] eqn:El; [..|by exists b]; exfalso;
      assert (Hn : (fun st => List.length (hs_subs st)) <$> hub_steps demo_hub start_hub = Some 2%nat) by (vm_compute; reflexivity);
      rewrite E in Hn; cbn in Hn; rewrite El in Hn; done. }
  destruct Hs as [s Hs]. assert (Ho : overran 1 demo_hub start_hub = false) by (vm_compute; reflexivity).
  destruct (hub_sound demo_hub st E) as (Hok & Hl & _). exists st, s. exact (conj eq_refl (conj Hok (conj Hs (conj Ho (Hl 1%nat s Hs Ho))))).
Defined.
Definition demo_table : list (@processEntry demo_processes) := [1; 2; 3]%nat.
Lemma processes_frames_exact_witness : processes_work (fun i => Z.of_nat i) demo_table [2%nat; 0%nat] =
  [(2%nat, frame_of ($"processes") ($"2")); (0%nat, frame_of ($"processes") ($"3"))].
Proof. rewrite (processes_frames_exact (fun i => Z.of_nat i) demo_table [2%nat; 0%nat]); [vm_compute; reflexivity|by repeat constructor]. Defined.
