(* ===== verification/Dispatch.v ===== *)
(** * Dispatch: a native operation inside the request that asks for it

    [nativeOpRunner.dispatch] and [runStages] of [internal/daemon/ops.go] without a task,
    which the relay, stdio and the scheduled jobs use, with the decoding of an
    operation's parameters. The theorem compares it with the run of a task ([Tasks]):
    the two run the same plan to the same results. *)

From S2P Require Import Prelude GoStr Config AuditLog Executor Ops Tasks TasksFacts.
Open Scope Z_scope.

(** ** A native operation inside its request *)

Definition nativeOpDisplayNames : gmap str str := list_to_map
  [($"container.start", $"Start container"); ($"container.stop", $"Stop container"); ($"container.restart", $"Restart container");
   ($"container.pause", $"Pause container"); ($"container.unpause", $"Unpause container"); ($"container.kill", $"Kill container");
   ($"container.remove", $"Remove container"); ($"container.pull", $"Pull container image"); ($"container.update", $"Update container");
   ($"process.kill", $"Kill process"); ($"systemd.start", $"Start systemd unit"); ($"systemd.stop", $"Stop systemd unit");
   ($"systemd.restart", $"Restart systemd unit"); ($"systemd.reload", $"Reload systemd unit"); ($"systemd.enable", $"Enable systemd unit");
   ($"systemd.disable", $"Disable systemd unit"); ($"package.refresh", $"Refresh package indexes"); ($"package.upgrade", $"Upgrade packages");
   ($"package.install", $"Install package"); ($"package.remove", $"Remove package"); ($"firewall.enable", $"Enable firewall");
   ($"firewall.disable", $"Disable firewall"); ($"firewall.allow", $"Allow firewall rule"); ($"firewall.deny", $"Deny firewall rule");
   ($"firewall.delete", $"Delete firewall rule"); ($"compose.up", $"Compose up"); ($"compose.stop", $"Compose stop");
   ($"compose.restart", $"Compose restart"); ($"compose.pull", $"Compose pull"); ($"compose.recreate", $"Compose recreate");
   ($"compose.update", $"Update compose stack")].

(** A decoded JSON value, as far as [nativeParamsFromValues] tells them apart; a number
    is its [int]. *)
Inductive json := JStr (s : str) | JNum (n : Z) | JBool (b : bool) | JOther.
Definition as_str (v : option json) : str := match v with Some (JStr s) => s | _ => [] end.
Definition as_bool (v : option json) : bool := match v with Some (JBool b) => b | _ => false end.
(** The number [strconv.Atoi] gives along with its error, which the caller drops: zero
    for a text that is no number, the nearest [int64] for one that is out of range. *)
Definition Atoi_value (s : str) : Z :=
  let negative := match s with c :: _ => bool_decide (c = ch "-") | [] => false end in
  let digits := match s with c :: r => if bool_decide (c = ch "-" \/ c = ch "+") then r else s | [] => s end in
  if bool_decide (digits = []) || negb (forallb is_digit digits) then 0
  else Z.max min_int64 (Z.min max_int64 ((if negative then -1 else 1) * digits_value digits)).
Definition no_params : opParams := mkOpParams [] 0 false [] [] [] [] [] [].
Definition nativeParamsFromValues (slug : str) (values : gmap str json) : opParams :=
  let text key := as_str (values !! ($key)) in
  if HasPrefix slug ($"container.") then mkOpParams (text "id"%string) 0 (as_bool (values !! ($"force"))) [] [] [] [] [] []
  else if bool_decide (slug = $"process.kill") then
    let pid := match values !! ($"pid") with
               | Some (JNum n) => n
               | Some (JStr s) => Atoi_value s
               | _ => 0
               end in
    mkOpParams [] pid false [] [] [] [] [] []
  else if HasPrefix slug ($"systemd.") then mkOpParams (text "unit"%string) 0 false [] [] [] [] [] []
  else if HasPrefix slug ($"compose.") then mkOpParams (text "project"%string) 0 false (text "directory"%string) [] [] [] [] []
  else if HasPrefix slug ($"package.") then mkOpParams [] 0 false [] (text "name"%string) [] [] [] []
  else if HasPrefix slug ($"firewall.") then
    mkOpParams [] 0 false [] [] (text "port"%string) (text "protocol"%string) (text "source"%string) (text "rule_action"%string)
  else no_params.

(** What a run of an operation does, in order. *)
Inductive op_event :=
  | OStart (t : opAttempt)
  | OAudit (a : auditEntry)
  | ONotify (title body : str).
(** What the host answers during it: the host it is planned on, whether a slot is free,
    the host each stage is built on, what each attempt of each stage does (and whether
    the deadline has passed after it), and whether it has at the end. *)
Record ops_env := mkOpsEnv {
  oe_runner : nativeOpRunner; oe_host : OpsHost; oe_slot : bool; oe_builds : nat -> OpsHost;
  oe_exec : nat -> nat -> opAttempt -> process * bool; oe_late : bool; oe_publisher : bool;
}.
Section dispatch.
Context `{Unicode, ExecEnv} (oe : ops_env).
Definition built (i : nat) (stage : opStage) : res (list opAttempt) :=
  match sg_build stage with Some build => build (oe_builds oe i) | None => Ok (sg_attempts stage) end.
Fixpoint stages_run (i : nat) (stages : list opStage) (acc : run_acc) : run_acc * list op_event :=
  match stages with
  | [] => (acc, [])
  | stage :: rest =>
      match built i stage with
      | Err e => (fail_acc (append_out acc [] (error_text e)) (-1), [])
      | Ok [] =>
          let note := TrimSpace (sg_idle stage) in
          stages_run (S i) rest (if bool_decide (note = []) then acc else append_out acc note [])
      | Ok attempts =>
          let r := runStage (oe_exec oe i) 0 attempts in
          let acc := append_out acc (sr_Stdout r) (sr_Stderr r) in
          let started := OStart <$> sr_made r in
          match sr_err r with
          | Some _ => (fail_acc acc (sr_ExitCode r), started)
          | None => let '(acc, evs) := stages_run (S i) rest acc in (acc, started ++ evs)
          end
      end
  end.
Definition publishFailure (displayName : str) (response : executionResponse) : list op_event :=
  if oe_publisher oe then
    let body := TrimSpace (rs_Stderr response) in
    let body := if bool_decide (body = []) then TrimSpace (rs_Stdout response) else body in
    [ONotify (displayName ++ $" failed") (take 4096 body)]
  else [].
Definition runStages (slug displayName : str) (stages : list opStage) (source invokedBy : str) : (executionResponse * Z) * list op_event :=
  let '(acc, evs) := stages_run 0 stages no_acc in
  let ok := negb (is_Some_b (ac_failure acc)) in
  let response := mkResponse ok slug (default 0 (ac_failure acc)) (ac_stdout acc) (ac_stderr acc) [] in
  let entry := mkAuditEntry slug displayName source invokedBy [] false ok (rs_ExitCode response) (rs_Stdout response) (rs_Stderr response) (auditErrorTail response) in
  let status := if ok then StatusOK else if oe_late oe then StatusGatewayTimeout else StatusBadGateway in
  let notice := if ok || bool_decide (source = $"job") then [] else publishFailure displayName response in
  ((response, status), evs ++ [OAudit entry] ++ notice).
Definition dispatch (slug : str) (params : opParams) (source invokedBy : str) : ((executionResponse * Z) + opFailure) * list op_event :=
  match planNativeOp (H0 := oe_host oe) (oe_runner oe) slug params with
  | inr failure => (inr failure, [])
  | inl plan =>
      if oe_slot oe then
        let '(out, evs) := runStages slug (default [] (nativeOpDisplayNames !! slug)) (pl_stages plan) source invokedBy in
        (inl out, evs)
      else (inl (mkResponse false slug 0 [] [] [], StatusTooManyRequests), [])
  end.
End dispatch.

(** ** A task and a request run a plan alike *)

Section agree.
Context `{ExecEnv}.
(** The steps of one run, whatever the system tells it and whatever they do to its task. *)
Inductive task_path : pc -> pc -> Prop :=
  | tp_end p : task_path p p
  | tp_step c now p p' f q : advance c now p = Some (p', f) -> task_path p' q -> task_path p q.
Lemma path_to_report p acc : task_path p (PReport acc) -> p = PReport acc \/ exists c now p' f, advance c now p = Some (p', f) /\ task_path p' (PReport acc).
Proof. inversion 1; subst; [by left|right]. by do 4 eexists. Qed.

Lemma stages_run_ext oe oe' stages : forall i acc, (forall k, (i <= k)%nat -> oe_builds oe k = oe_builds oe' k /\ oe_exec oe k = oe_exec oe' k) ->
  stages_run oe i stages acc = stages_run oe' i stages acc.
Proof.
  induction stages as [|stage rest IH]; intros i acc Hk; [done|]. cbn [stages_run]. unfold built. destruct (Hk i (le_n i)) as [-> ->].
  assert (Hr : forall acc, stages_run oe (S i) rest acc = stages_run oe' (S i) rest acc) by (intros; apply IH; intros k Hle; apply Hk; lia).
  destruct (match sg_build stage with Some _ => _ | None => _ end) as [[|t l]|e]; [apply Hr| |done]. by destruct (sr_err _); rewrite ?Hr.
Qed.
Lemma run_attempts_ext exec exec' attempts : forall i primary, (forall k t, (i <= k)%nat -> exec k t = exec' k t) ->
  run_attempts exec i attempts primary = run_attempts exec' i attempts primary.
Proof.
  induction attempts as [|t l IH]; intros i primary Hk; [done|]. cbn [run_attempts]. rewrite (Hk i t (le_n i)). destruct (exec' i t) as [p late].
  destruct (runOpOnce p) as [[[o e] c] [err|]]; [|done]. destruct late; [done|]. apply IH. intros k t' Hle. apply Hk. lia.
Qed.
(** The first failure of a stage, as the two runs keep it. *)
Definition same_failure (primary : option primary_failure) (r : stage_result) : Prop :=
  match primary with
  | None => sr_err r = None
  | Some f => f = (sr_Stdout r, sr_Stderr r, sr_ExitCode r) /\ sr_err r <> None
  end.
(** Where a stage that answered [r] leaves the run. *)
Definition stage_end (label : str) (rest : list opStage) (acc : run_acc) (r : stage_result) : pc :=
  let acc := append_out acc (sr_Stdout r) (sr_Stderr r) in
  match sr_err r with None => PEnd label true rest acc | Some _ => PEnd label false rest (fail_acc acc (sr_ExitCode r)) end.
Lemma stream_path (c : choice) writes result late label attempts primary rest acc q :
  task_path (PStream [] result late label attempts primary rest acc) q -> task_path (PStream writes result late label attempts primary rest acc) q.
Proof. intros Hp. induction writes as [|p writes IH]; [done|]. by apply (tp_step c 0 _ (PStream writes result late label attempts primary rest acc) (Write p)). Qed.
Lemma stream_drained writes result late label attempts primary rest acc q :
  task_path (PStream writes result late label attempts primary rest acc) (PReport q) -> task_path (PStream [] result late label attempts primary rest acc) (PReport q).
Proof.
  induction writes as [|p writes IH]; [done|]. intros [[=]|(c & now & p' & f & Ha & Hp)]%path_to_report. injection Ha as <- _. by apply IH.
Qed.
(** From a stage of a task to a run of the stage's attempts. *)
Lemma try_to_attempts label rest acc out attempts : forall primary r0 i, same_failure primary r0 ->
  task_path (PTry label attempts primary rest acc) (PReport out) ->
  exists exec, task_path (stage_end label rest acc (run_attempts exec i attempts r0)) (PReport out).
Proof.
  induction attempts as [|t attempts IH]; intros primary r0 i Hs; intros [[=]|(c & now & p' & f & Ha & Hp)]%path_to_report; [done|].
  cbn [advance] in Ha. destruct (interleaves _ _ _); [|done]. injection Ha as <- _. apply stream_drained in Hp.
  destruct (runOpOnce (ch_process c)) as [[[o e] code] err] eqn:Er.
  apply path_to_report in Hp as [[=]|(c' & now' & p' & f' & Ha & Hp)]. cbn [advance] in Ha. destruct err as [err|].
  - set (r1 := match sr_err r0 with None => mkStageResult o e code (Some err) (sr_made r0 ++ [t])
               | Some _ => mkStageResult (sr_Stdout r0) (sr_Stderr r0) (sr_ExitCode r0) (sr_err r0) (sr_made r0 ++ [t]) end).
    assert (Hf : default (o, e, code) primary = (sr_Stdout r1, sr_Stderr r1, sr_ExitCode r1) /\ sr_err r1 <> None).
    { unfold r1. destruct primary as [pf|]; cbn in Hs |- *; [destruct Hs as [-> Hn]; by destruct (sr_err r0)|by rewrite Hs]. }
    destruct Hf as [Hf Hn]. destruct (ch_late c || bool_decide (attempts = [])) eqn:El; injection Ha as <- _; rewrite Hf in Hp.
    + exists (fun _ _ => (ch_process c, ch_late c)). cbn [run_attempts]. rewrite Er. fold r1.
      destruct (ch_late c); [|apply bool_decide_eq_true in El; subst attempts]; cbn [run_attempts]; unfold stage_end; by destruct (sr_err r1).
    + apply orb_false_iff in El as [El _]. destruct (IH (Some (sr_Stdout r1, sr_Stderr r1, sr_ExitCode r1)) r1 (S i)) as [exec He]; [by split|exact Hp|].
      exists (fun k t => if decide (k = i) then (ch_process c, false) else exec k t). cbn [run_attempts]. rewrite decide_True, Er by done. fold r1.
      rewrite (run_attempts_ext _ exec); [exact He|]. intros k t' Hk. rewrite decide_False; [done|lia].
  - injection Ha as <- _. exists (fun _ _ => (ch_process c, false)). cbn [run_attempts]. rewrite Er. exact Hp.
Qed.
(** And back. *)
Lemma attempts_to_try (h : OpsHost) exec label rest acc q attempts : forall primary r0 i, attempts <> [] -> same_failure primary r0 ->
  task_path (stage_end label rest acc (run_attempts exec i attempts r0)) q -> task_path (PTry label attempts primary rest acc) q.
Proof.
  induction attempts as [|t attempts IH]; intros primary r0 i Hne Hs Hp; [done|]. cbn [run_attempts] in Hp. destruct (exec i t) as [p late].
  set (c := mkChoice h p (delivered (mkLimitedBuffer [] outputLimit) (pr_stdout p) ++ delivered (mkLimitedBuffer [] outputLimit) (pr_stderr p)) late).
  eapply (tp_step c 0); [cbn [advance ch_process ch_writes c]; by rewrite interleaves_app|]. apply (stream_path c).
  cbn [ch_late ch_process c]. destruct (runOpOnce p) as [[[o e] code] [err|]].
  - set (r1 := match sr_err r0 with None => mkStageResult o e code (Some err) (sr_made r0 ++ [t])
               | Some _ => mkStageResult (sr_Stdout r0) (sr_Stderr r0) (sr_ExitCode r0) (sr_err r0) (sr_made r0 ++ [t]) end) in Hp.
    assert (Hf : default (o, e, code) primary = (sr_Stdout r1, sr_Stderr r1, sr_ExitCode r1) /\ sr_err r1 <> None).
    { unfold r1. destruct primary as [pf|]; cbn in Hs |- *; [destruct Hs as [-> Hn]; by destruct (sr_err r0)|by rewrite Hs]. }
    destruct Hf as [Hf Hn]. destruct late; [|destruct (decide (attempts = [])) as [->|Hm]].
    + eapply (tp_step c 0); [reflexivity|]. rewrite Hf. unfold stage_end in Hp. by destruct (sr_err r1).
    + eapply (tp_step c 0); [reflexivity|]. rewrite Hf. cbn [run_attempts] in Hp. unfold stage_end in Hp. by destruct (sr_err r1).
    + eapply (tp_step c 0 _ (PTry label attempts (Some _) rest acc) id); [cbn [advance orb]; by rewrite bool_decide_false|].
      rewrite Hf. eapply (IH (Some _)); [done|by split|exact Hp].
  - eapply (tp_step c 0); [reflexivity|]. exact Hp.
Qed.

Definition no_env (r : nativeOpRunner) (h : OpsHost) : ops_env := mkOpsEnv r h true (fun _ => h) (fun _ _ _ => (mkProcess [] [] None, false)) false false.
(** The same environment with another answer at one stage. *)
Definition at_stage (i : nat) (h : OpsHost) (exec : nat -> opAttempt -> process * bool) (oe : ops_env) : ops_env :=
  mkOpsEnv (oe_runner oe) (oe_host oe) (oe_slot oe) (fun k => if decide (k = i) then h else oe_builds oe k)
    (fun k => if decide (k = i) then exec else oe_exec oe k) (oe_late oe) (oe_publisher oe).
Lemma at_stage_here i h exec oe : oe_builds (at_stage i h exec oe) i = h /\ oe_exec (at_stage i h exec oe) i = exec.
Proof. cbn. by rewrite !decide_True. Qed.
Lemma at_stage_later i h exec oe stages acc : stages_run (at_stage i h exec oe) (S i) stages acc = stages_run oe (S i) stages acc.
Proof. apply stages_run_ext. intros k Hk. cbn. rewrite !decide_False by lia. done. Qed.
Lemma task_to_request (r : nativeOpRunner) (h : OpsHost) stages : forall i acc out, task_path (PNext stages acc) (PReport out) -> exists oe, (stages_run oe i stages acc).1 = out.
Proof.
  induction stages as [|stage rest IH]; intros i acc out [[=]|(c & now & p' & f & Ha & Hp)]%path_to_report; injection Ha as <- _.
  { exists (no_env r h). apply path_to_report in Hp as [[= ->]|(? & ? & ? & ? & [=] & _)]. done. }
  apply path_to_report in Hp as [[=]|(c1 & now1 & p' & f' & Ha & Hp)]. cbn [advance] in Ha. unfold stage_attempts in Ha.
  assert (Hend : forall acc, task_path (PEnd (sg_label stage) true rest acc) (PReport out) -> task_path (PNext rest acc) (PReport out)).
  { intros acc1 [[=]|(? & ? & ? & ? & [= <- _] & Hq)]%path_to_report. done. }
  assert (Hfail : forall acc, task_path (PEnd (sg_label stage) false rest acc) (PReport out) -> acc = out).
  { intros acc1 [[=]|(? & ? & ? & ? & [= <- _] & Hq)]%path_to_report. by apply path_to_report in Hq as [[= ->]|(? & ? & ? & ? & [=] & _)]. }
  destruct (match sg_build stage with Some build => build (ch_host c1) | None => Ok (sg_attempts stage) end) as [[|t attempts]|e] eqn:Eb.
  - set (acc1 := if bool_decide (TrimSpace (sg_idle stage) = []) then acc else append_out acc (TrimSpace (sg_idle stage)) []).
    assert (Hq : task_path (PEnd (sg_label stage) true rest acc1) (PReport out)) by (unfold acc1; case_bool_decide; by injection Ha as <- _).
    apply Hend, (IH (S i)) in Hq as [oe He]. exists (at_stage i (ch_host c1) (fun _ _ => (mkProcess [] [] None, false)) oe).
    cbn [stages_run]. unfold built. rewrite (proj1 (at_stage_here _ _ _ _)), Eb. fold acc1. by rewrite at_stage_later.
  - injection Ha as <- _. apply (try_to_attempts _ _ _ _ _ None (mkStageResult [] [] 0 None []) 0) in Hp as [exec Hp]; [|done].
    change (run_attempts exec 0 (t :: attempts) _) with (runStage exec 0 (t :: attempts)) in Hp. unfold stage_end in Hp.
    destruct (sr_err (runStage exec 0 (t :: attempts))) as [err|] eqn:Ee.
    + apply Hfail in Hp. exists (at_stage i (ch_host c1) exec (no_env r h)). cbn [stages_run]. unfold built.
      rewrite (proj1 (at_stage_here _ _ _ _)), (proj2 (at_stage_here _ _ _ _)), Eb, Ee. done.
    + apply Hend, (IH (S i)) in Hp as [oe He]. exists (at_stage i (ch_host c1) exec oe). cbn [stages_run]. unfold built.
      rewrite (proj1 (at_stage_here _ _ _ _)), (proj2 (at_stage_here _ _ _ _)), Eb, Ee, at_stage_later. by destruct (stages_run oe (S i) rest _).
  - injection Ha as <- _. apply Hfail in Hp. exists (at_stage i (ch_host c1) (fun _ _ => (mkProcess [] [] None, false)) (no_env r h)).
    cbn [stages_run]. unfold built. by rewrite (proj1 (at_stage_here _ _ _ _)), Eb.
Qed.
Lemma request_to_task oe stages : forall i acc, task_path (PNext stages acc) (PReport (stages_run oe i stages acc).1).
Proof.
  induction stages as [|stage rest IH]; intros i acc; set (c := mkChoice (oe_builds oe i) (mkProcess [] [] None) [] false).
  { eapply (tp_step c 0); [reflexivity|constructor]. }
  eapply (tp_step c 0); [reflexivity|]. cbn [stages_run]. unfold built.
  assert (Hend : forall acc, task_path (PEnd (sg_label stage) true rest acc) (PReport (stages_run oe (S i) rest acc).1)).
  { intros acc1. eapply (tp_step c 0); [reflexivity|]. apply IH. }
  assert (Hfail : forall acc, task_path (PEnd (sg_label stage) false rest acc) (PReport acc)).
  { intros acc1. eapply (tp_step c 0); [reflexivity|]. constructor. }
  destruct (match sg_build stage with Some build => build (oe_builds oe i) | None => Ok (sg_attempts stage) end) as [[|t attempts]|e] eqn:Eb.
  - set (acc1 := if bool_decide (TrimSpace (sg_idle stage) = []) then acc else append_out acc (TrimSpace (sg_idle stage)) []).
    assert (Hadv : exists f, advance c 0 (PStage stage rest acc) = Some (PEnd (sg_label stage) true rest acc1, f)).
    { cbn [advance]. unfold stage_attempts. cbn [ch_host c]. rewrite Eb. unfold acc1. case_bool_decide; by eexists. }
    destruct Hadv as [f Hadv]. eapply tp_step; [exact Hadv|apply Hend].
  - eapply (tp_step c 0 _ (PTry (sg_label stage) (t :: attempts) None rest acc)); [cbn [advance]; unfold stage_attempts; cbn [ch_host c]; by rewrite Eb|].
    eapply (attempts_to_try (oe_builds oe i) (oe_exec oe i) _ _ _ _ _ None (mkStageResult [] [] 0 None []) 0); [done|done|].
    change (run_attempts _ 0 (t :: attempts) _) with (runStage (oe_exec oe i) 0 (t :: attempts)). unfold stage_end.
    destruct (sr_err (runStage (oe_exec oe i) 0 (t :: attempts))) as [err|]; [apply Hfail|].
    pose proof (Hend (append_out acc (sr_Stdout (runStage (oe_exec oe i) 0 (t :: attempts))) (sr_Stderr (runStage (oe_exec oe i) 0 (t :: attempts))))) as Hq.
    by destruct (stages_run oe (S i) rest _).
  - eapply (tp_step c 0 _ (PEnd (sg_label stage) false rest (fail_acc (append_out acc [] (error_text e)) (-1)))); [|apply Hfail].
    cbn [advance]. unfold stage_attempts. cbn [ch_host c]. by rewrite Eb.
Qed.

(** Holding the request open or starting a task makes no difference to a plan: the
    outputs and the exit code with which the run of a task can end are exactly those
    with which the run inside a request can answer, whatever the stages, the attempts
    and the order in which their output arrives. *)
Theorem task_agrees_with_request (r : nativeOpRunner) (h : OpsHost) stages out :
  task_path (PNext stages no_acc) (PReport out) <-> exists oe, oe_runner oe = r /\ oe_host oe = h /\ (stages_run oe 0 stages no_acc).1 = out.
Proof.
  split.
  - intros [oe He]%(task_to_request r h _ 0). exists (mkOpsEnv r h (oe_slot oe) (oe_builds oe) (oe_exec oe) (oe_late oe) (oe_publisher oe)).
    split; [done|]. split; [done|]. by rewrite <-He.
  - intros (oe & _ & _ & <-). apply request_to_task.
Qed.
End agree.
