(* ===== verification/Jobs.v ===== *)
(** * Jobs: the scheduled jobs of the daemon

    [internal/daemon/jobs.go]. The cron library is an interface: parsing an expression,
    and the next time of a schedule, which it leaves at the zero time when there is none
    within five years. The table, the states it points to and the one loop that ticks
    and runs what is due are a step function over labels; [SetJobs] may come between any
    two steps. What a run does is that of [Dispatch] and [Executor]. *)

From S2P Require Import Prelude GoStr Config Executor Ops Dispatch.
Open Scope Z_scope.

(** [None] is [time.Time{}], which is before every time. *)
Class Cron := {
  cron_Schedule : Type;
  cron_Parse : str -> option cron_Schedule;
  cron_Next : cron_Schedule -> Z -> option Z;
}.
Definition next_After (next : option Z) (now : Z) : bool := match next with Some n => now <? n | None => false end.

Section jobs.
Context `{Cron}.

Record jobState := mkJobState { js_cfg : JobConfig; js_schedule : cron_Schedule; js_next : option Z; js_running : bool }.
Abbreviation jid := nat.
(** The loop: waiting, with jobs of a tick left to run, or running one of them. *)
Inductive job_loop := Waiting | Due (due : list jid) | Running (p : jid) (due : list jid).
(** A start: the job, the tick that found it due, when it started. *)
Record job_start := mkStart { st_job : jid; st_tick : Z; st_time : Z }.
Record jobRunner := mkJobRunner {
  jr_heap : list jobState;
  jr_jobs : gmap str jid;
  jr_wake : bool;
  jr_loop : job_loop;
  jr_tick : Z;
  jr_started : list job_start;
}.
Definition newJobRunner : jobRunner := mkJobRunner [] ∅ false Waiting 0 [].
Definition job_enabled (job : JobConfig) : bool := match job_Enabled job with Some false => false | _ => true end.
(** The states [SetJobs] makes, with the table of their names, from index [p]. *)
Fixpoint job_table (now : Z) (p : jid) (jobs : list JobConfig) (heap : list jobState) (next : gmap str jid) : list jobState * gmap str jid :=
  match jobs with
  | [] => (heap, next)
  | job :: jobs =>
      match (if job_enabled job then cron_Parse (job_Schedule job) else None) with
      | None => job_table now p jobs heap next
      | Some schedule =>
          job_table now (S p) jobs (heap ++ [mkJobState job schedule (cron_Next schedule now) false]) (<[job_Name job := p]> next)
      end
  end.
Definition SetJobs (jobs : list JobConfig) (now : Z) (r : jobRunner) : jobRunner :=
  let '(heap, next) := job_table now (List.length (jr_heap r)) jobs (jr_heap r) ∅ in
  mkJobRunner heap next true (jr_loop r) (jr_tick r) (jr_started r).

Definition is_due (r : jobRunner) (now : Z) (p : jid) : bool :=
  match jr_heap r !! p with Some st => negb (next_After (js_next st) now) | None => false end.
Definition pointers (m : gmap str jid) : list jid := (map_to_list m).*2.
(** What a tick finds due, in the order the map is ranged over. *)
Definition due_order (r : jobRunner) (now : Z) (order : list jid) : bool :=
  bool_decide (NoDup order) && forallb (fun p => bool_decide (p ∈ pointers (jr_jobs r)) && is_due r now p) order &&
  forallb (fun p => negb (is_due r now p) || bool_decide (p ∈ order)) (pointers (jr_jobs r)).
Definition continue (due : list jid) : job_loop := match due with [] => Waiting | _ => Due due end.
Definition with_next (now : Z) (running : bool) (st : jobState) : jobState :=
  mkJobState (js_cfg st) (js_schedule st) (cron_Next (js_schedule st) now) running.
Definition with_running (running : bool) (st : jobState) : jobState :=
  mkJobState (js_cfg st) (js_schedule st) (js_next st) running.

Inductive job_label :=
  | JSet (jobs : list JobConfig) (now : Z)
  | JWake
  | JTick (now : Z) (order : list jid)
  | JStart (now : Z)
  | JFinish.
Definition job_step (l : job_label) (r : jobRunner) : option jobRunner :=
  match l, jr_loop r with
  | JSet jobs now, _ => Some (SetJobs jobs now r)
  | JWake, Waiting => if jr_wake r then Some (mkJobRunner (jr_heap r) (jr_jobs r) false Waiting (jr_tick r) (jr_started r)) else None
  | JTick now order, Waiting =>
      if due_order r now order then Some (mkJobRunner (jr_heap r) (jr_jobs r) (jr_wake r) (continue order) now (jr_started r)) else None
  | JStart now, Due (p :: due) =>
      match jr_heap r !! p with
      | None => None
      | Some st =>
          if js_running st then
            Some (mkJobRunner (<[p := with_next now true st]> (jr_heap r)) (jr_jobs r) (jr_wake r) (continue due) (jr_tick r) (jr_started r))
          else
            Some (mkJobRunner (<[p := with_next now true st]> (jr_heap r)) (jr_jobs r) (jr_wake r) (Running p due) (jr_tick r)
                    (jr_started r ++ [mkStart p (jr_tick r) now]))
      end
  | JFinish, Running p due =>
      match jr_heap r !! p with
      | None => None
      | Some st => Some (mkJobRunner (<[p := with_running false st]> (jr_heap r)) (jr_jobs r) (jr_wake r) (continue due) (jr_tick r) (jr_started r))
      end
  | _, _ => None
  end.
Fixpoint job_steps (ls : list job_label) (r : jobRunner) : option jobRunner :=
  match ls with
  | [] => Some r
  | l :: ls => match job_step l r with Some r => job_steps ls r | None => None end
  end.
End jobs.

(** ** One run *)

(** What a run of a job meets: the operations runner, the executor and its host, the
    JSON of a body and its decoding, and whether a publisher is configured. *)
Record job_env := mkJobEnv {
  je_ops : ops_env; je_executor : WebhookExecutor; je_host : host;
  je_body : list (str * str) -> str; je_values : str -> option (gmap str json); je_publisher : bool;
}.
Section run_job.
Context `{Unicode, ExecEnv} (je : job_env).
Definition timeoutFor (job : JobConfig) : Z := if 0 <? job_Timeout job then job_Timeout job else ex_scriptTimeout (je_executor je).
Definition job_invoker (job : JobConfig) : str := $"job:" ++ job_Name job.
(** Whether the action succeeded and what it printed as its error, with what was done. *)
Definition run_action (job : JobConfig) : bool * str * list (event + op_event) :=
  let body := je_body je (job_Body job) in
  if isNativeOpSlug (job_Action job) then
    let params := if bool_decide (body = []) then no_params
                  else match je_values je body with Some values => nativeParamsFromValues (job_Action job) values | None => no_params end in
    match dispatch (je_ops je) (job_Action job) params ($"job") (job_invoker job) with
    | (inr failure, evs) => (false, error_text (of_error failure), inr <$> evs)
    | (inl (response, _), evs) => (rs_OK response, rs_Stderr response, inr <$> evs)
    end
  else
    match RunAction (je_executor je) (je_host je) (job_Action job) body ($"job") (job_invoker job) with
    | (inr failure, evs) => (false, $(re_message failure), inl <$> evs)
    | (inl response, evs) => (rs_OK response, rs_Stderr response, inl <$> evs)
    end.
Definition runJob (job : JobConfig) : list (event + op_event) * option (str * str) :=
  let '(ok, stderr, evs) := run_action job in
  (evs,
   if negb ok && job_NotifyOnFailure job && je_publisher je
   then Some ($"Job " ++ job_Name job ++ $" failed", take 4096 (TrimSpace stderr)) else None).
End run_job.

(** ** The loop over every sequence of steps *)

Section jobs_facts.
Context `{Cron}.
Implicit Types (r : jobRunner).

Definition left_to_start (l : job_loop) : list nat := match l with Waiting => [] | Due due | Running _ due => due end.
(** Every pointer the ticks found due, in the order they found them. *)
Definition asked (ls : list job_label) : list nat := concat ((fun l => match l with JTick _ order => order | _ => [] end) <$> ls).
Definition last_start (p : nat) (log : list job_start) : option job_start := last (filter (fun x => st_job x = p) log).
#[local] Arguments last_start : simpl never.
(** A start comes at a tick not before the time its schedule gave at the start before. *)
Definition spaced (heap : list jobState) (log : list job_start) : Prop :=
  forall l1 y l2 st, log = l1 ++ y :: l2 -> heap !! st_job y = Some st ->
    match last_start (st_job y) l1 with
    | Some x => next_After (cron_Next (js_schedule st) (st_time x)) (st_tick y) = false
    | None => True
    end.
Record jobs_ok (r : jobRunner) : Prop := {
  jk_table : forall name p, jr_jobs r !! name = Some p -> (p < List.length (jr_heap r))%nat;
  jk_left : forall p, p ∈ left_to_start (jr_loop r) -> exists st, jr_heap r !! p = Some st /\ next_After (js_next st) (jr_tick r) = false;
  jk_nodup : NoDup (left_to_start (jr_loop r));
  jk_running : forall p st, jr_heap r !! p = Some st -> js_running st = true <-> exists due, jr_loop r = Running p due;
  jk_current : forall p due, jr_loop r = Running p due -> (p < List.length (jr_heap r))%nat;
  jk_next : forall p st x, jr_heap r !! p = Some st -> last_start p (jr_started r) = Some x -> js_next st = cron_Next (js_schedule st) (st_time x);
  jk_known : forall x, x ∈ jr_started r -> (st_job x < List.length (jr_heap r))%nat;
  jk_spaced : spaced (jr_heap r) (jr_started r);
  jk_due : jr_loop r <> Due [];
}.

Lemma last_start_in p log x : last_start p log = Some x -> x ∈ log /\ st_job x = p.
Proof. intros Hx%last_Some_elem_of. apply list_elem_of_filter in Hx as [Hp Hx]. done. Qed.
Lemma last_start_snoc p log x : last_start p (log ++ [x]) = if decide (st_job x = p) then Some x else last_start p log.
Proof.
  unfold last_start. rewrite filter_app, filter_cons, filter_nil. destruct (decide (st_job x = p)); [by rewrite last_snoc|by rewrite app_nil_r].
Qed.
Lemma spaced_snoc heap log x : spaced heap log ->
  (forall st, heap !! st_job x = Some st -> match last_start (st_job x) log with Some y => next_After (cron_Next (js_schedule st) (st_time y)) (st_tick x) = false | None => True end) ->
  spaced heap (log ++ [x]).
Proof.
  intros Hs Hx l1 y l2 st Hl Hst. destruct l2 as [|z l2 _] using rev_ind.
  - apply app_inj_tail in Hl as [-> ->]. by apply Hx.
  - rewrite app_comm_cons, app_assoc in Hl. apply app_inj_tail in Hl as [Hl _]. by eapply Hs.
Qed.
(** What a change of the states may not touch. *)
Definition same_schedules (heap heap' : list jobState) : Prop :=
  List.length heap' = List.length heap /\ forall p st', heap' !! p = Some st' -> exists st, heap !! p = Some st /\ js_schedule st' = js_schedule st.
Lemma spaced_ext heap heap' log : (forall p st', p ∈ st_job <$> log -> heap' !! p = Some st' -> exists st, heap !! p = Some st /\ js_schedule st' = js_schedule st) ->
  spaced heap log -> spaced heap' log.
Proof.
  intros He Hs l1 y l2 st' -> Hst'. destruct (He (st_job y) st') as (st & Hst & Heq); [|done|rewrite Heq; by apply (Hs l1 y l2)].
  rewrite fmap_app, fmap_cons. apply elem_of_app. right. left.
Qed.
Lemma job_table_spec now jobs : forall p heap next heap' next', p = List.length heap -> job_table now p jobs heap next = (heap', next') ->
  (exists new, heap' = heap ++ new /\ Forall (fun st => js_running st = false) new) /\
  (forall name q, next' !! name = Some q -> next !! name = Some q \/ (q < List.length heap')%nat).
Proof.
  induction jobs as [|job jobs IH]; intros p heap next heap' next' Hp Ht; cbn in Ht; [injection Ht as <- <-; split; [exists []; by rewrite app_nil_r|by left]|].
  destruct (if job_enabled job then cron_Parse (job_Schedule job) else None) as [sch|]; [|by eapply IH].
  apply IH in Ht as [(new & -> & Hnew) Hn]; [|by rewrite length_app; subst p; cbn; lia]. split.
  - rewrite <-app_assoc. eexists. split; [done|]. by constructor.
  - intros name q Hq. apply Hn in Hq as [[[<- <-]|[_ Hq]]%lookup_insert_Some|Hq]; [right|by left|by right].
    rewrite !length_app. subst p. cbn. lia.
Qed.
Lemma new_ok : jobs_ok newJobRunner.
Proof.
  split; cbn; [intros name p Hp; by rewrite lookup_empty in Hp|by intros p ?%elem_of_nil|constructor|done|done|done|by intros x ?%elem_of_nil| |done].
  intros [] y l2 st Hl; discriminate Hl.
Qed.
Lemma left_continue due : left_to_start (continue due) = due.
Proof. by destruct due. Qed.
Lemma continue_not_due due : continue due <> Due [].
Proof. by destruct due. Qed.
Lemma continue_not_running due p due' : continue due <> Running p due'.
Proof. by destruct due. Qed.
Lemma due_order_spec r now order : due_order r now order = true <->
  NoDup order /\ (forall p, p ∈ order <-> p ∈ pointers (jr_jobs r) /\ is_due r now p = true).
Proof.
  unfold due_order. rewrite !andb_true_iff, bool_decide_eq_true, !Forall_forallb, !Forall_forall. setoid_rewrite andb_true_iff. setoid_rewrite bool_decide_eq_true.
  setoid_rewrite orb_true_iff. setoid_rewrite negb_true_iff. setoid_rewrite bool_decide_eq_true. split.
  - intros [[Hn H1] H2]. split; [done|]. intros p. split; [apply H1|]. intros [Hp Hd]. destruct (H2 p Hp); [congruence|done].
  - intros [Hn Hi]. split; [split; [done|intros p; apply Hi]|]. intros p Hp. destruct (is_due r now p) eqn:Ed; [right; by apply Hi|by left].
Qed.
Lemma is_due_spec r now p : is_due r now p = true -> exists st, jr_heap r !! p = Some st /\ next_After (js_next st) now = false.
Proof. unfold is_due. destruct (jr_heap r !! p) as [st|]; [|done]. intros Hd%negb_true_iff. by exists st. Qed.
Lemma set_jobs_ok jobs now r : jobs_ok r -> jobs_ok (SetJobs jobs now r).
Proof.
  intros [H1 H2 H3 H4 H5 H6 H7 H8 H9]. unfold SetJobs. destruct (job_table _ _ _ _ _) as [heap next] eqn:Et.
  apply job_table_spec in Et as [(new & -> & Hnew) Hn]; [|done].
  assert (Hold : forall p st, jr_heap r !! p = Some st -> (jr_heap r ++ new) !! p = Some st) by (intros p st Hp; by apply lookup_app_l_Some).
  assert (Hcase : forall p st, (jr_heap r ++ new) !! p = Some st -> jr_heap r !! p = Some st \/ (List.length (jr_heap r) <= p)%nat /\ js_running st = false).
  { intros p st [Hp|[Hl Hp]]%lookup_app_Some; [by left|right]. split; [done|]. by apply (Forall_lookup_1 _ _ _ _ Hnew Hp). }
  split; cbn.
  - intros name p Hp. apply Hn in Hp as [Hp|Hp]; [by rewrite lookup_empty in Hp|done].
  - intros p Hp. destruct (H2 p Hp) as (st & Hst & Hd). exists st. eauto.
  - done.
  - intros p st [Hp|[Hl Hr]]%Hcase; [by apply H4|]. rewrite Hr. split; [done|]. intros [due Hd]. apply H5 in Hd. lia.
  - intros p due Hd. rewrite length_app. apply H5 in Hd. lia.
  - intros p st x [Hp|[Hl _]]%Hcase Hx; [by eapply H6|]. apply last_start_in in Hx as [Hx <-]. apply H7 in Hx. lia.
  - intros x Hx. rewrite length_app. apply H7 in Hx. lia.
  - apply (spaced_ext (jr_heap r)); [|done]. intros p st' (x & -> & Hx)%list_elem_of_fmap Hst'. exists st'. split; [|done].
    apply H7 in Hx. by rewrite lookup_app_l in Hst'.
  - exact H9.
Qed.
(** The state of one job replaced, its schedule kept. *)
Lemma spaced_insert heap p st st' log : heap !! p = Some st -> js_schedule st' = js_schedule st -> spaced heap log -> spaced (<[p := st']> heap) log.
Proof.
  intros Hp Hs. apply spaced_ext. intros q x _ [(-> & <- & _)|[Hn Hx]]%list_lookup_insert_Some; [by exists st|by exists x].
Qed.
Lemma job_start_ok p due now st r : jobs_ok r -> jr_loop r = Due (p :: due) -> jr_heap r !! p = Some st -> js_running st = false ->
  jobs_ok (mkJobRunner (<[p := with_next now true st]> (jr_heap r)) (jr_jobs r) (jr_wake r) (Running p due) (jr_tick r) (jr_started r ++ [mkStart p (jr_tick r) now])).
Proof.
  intros [H1 H2 H3 H4 H5 H6 H7 H8 H9] Hl Hp Hr. rewrite Hl in H2, H3, H4. cbn in H2, H3. apply NoDup_cons in H3 as [Hn3 H3].
  assert (Hlt : (p < List.length (jr_heap r))%nat) by by eapply lookup_lt_Some.
  split; cbn; rewrite ?length_insert; try done.
  - intros q Hq. destruct (H2 q) as (x & Hx & Hd); [by right|]. exists x. split; [|done]. rewrite list_lookup_insert_ne; [done|congruence].
  - intros q x [(-> & <- & _)|[Hn Hx]]%list_lookup_insert_Some; [split; [by exists due|done]|]. rewrite (H4 q x Hx). split; intros [d Hd]; congruence.
  - intros q d [= -> ->]. done.
  - intros q x y [(-> & <- & _)|[Hn Hx]]%list_lookup_insert_Some; rewrite last_start_snoc; cbn.
    + rewrite decide_True by done. by intros [= <-].
    + rewrite decide_False by done. by apply H6.
  - intros x [Hx| ->%list_elem_of_singleton]%elem_of_app; [by apply H7|done].
  - apply spaced_snoc; [by eapply spaced_insert|]. cbn. intros x. rewrite list_lookup_insert_eq by done. intros [= <-]. cbn.
    destruct (last_start p (jr_started r)) as [y|] eqn:Ey; [|done]. rewrite <-(H6 p st y Hp Ey). destruct (H2 p) as (x & Hx & Hd); [by left|]. congruence.
Qed.
Lemma job_finish_ok p due st r : jobs_ok r -> jr_loop r = Running p due -> jr_heap r !! p = Some st ->
  jobs_ok (mkJobRunner (<[p := with_running false st]> (jr_heap r)) (jr_jobs r) (jr_wake r) (continue due) (jr_tick r) (jr_started r)).
Proof.
  intros [H1 H2 H3 H4 H5 H6 H7 H8 H9] Hl Hp. rewrite Hl in H2, H3, H4. cbn in H2, H3.
  split; cbn; rewrite ?length_insert, ?left_continue; try done; try apply continue_not_due.
  - intros q Hq. destruct (H2 q Hq) as (x & Hx & Hd). destruct (decide (q = p)) as [->|Hn].
    + exists (with_running false st). rewrite list_lookup_insert_eq by (by eapply lookup_lt_Some). split; [done|]. cbn. congruence.
    + exists x. by rewrite list_lookup_insert_ne.
  - intros q x [(-> & <- & _)|[Hn Hx]]%list_lookup_insert_Some.
    + cbn. split; [done|]. intros [d Hd]. by apply continue_not_running in Hd.
    + rewrite (H4 q x Hx). split; intros [d Hd]; [congruence|by apply continue_not_running in Hd].
  - intros q d Hd. by apply continue_not_running in Hd.
  - intros q x y [(-> & <- & _)|[Hn Hx]]%list_lookup_insert_Some Hy; [by apply (H6 _ _ _ Hp)|by eapply H6].
  - by eapply spaced_insert.
Qed.
Lemma job_step_ok l r r' : jobs_ok r -> job_step l r = Some r' ->
  jobs_ok r' /\ (st_job <$> jr_started r') ++ left_to_start (jr_loop r') = (st_job <$> jr_started r) ++ left_to_start (jr_loop r) ++ asked [l].
Proof.
  intros Hok Hs. unfold job_step in Hs. destruct l as [jobs now| |now order|now|].
  - assert (r' = SetJobs jobs now r) as -> by (by destruct (jr_loop r); injection Hs as <-). split; [by apply set_jobs_ok|].
    unfold SetJobs. destruct (job_table _ _ _ _ _) as [heap next]. cbn. by rewrite app_nil_r.
  - destruct (jr_loop r) eqn:El; try done. destruct (jr_wake r); [|done]. injection Hs as <-. split; [|cbn; by rewrite !app_nil_r].
    destruct Hok as [H1 H2 H3 H4 H5 H6 H7 H8 H9]. rewrite El in *. by split.
  - destruct (jr_loop r) eqn:El; try done. destruct (due_order r now order) eqn:Ed; [|done]. injection Hs as <-.
    apply due_order_spec in Ed as [Hn Hi]. split; [|cbn; by rewrite left_continue, !app_nil_r].
    destruct Hok as [H1 H2 H3 H4 H5 H6 H7 H8 H9]. rewrite El in *. split; cbn; rewrite ?left_continue; try done; try apply continue_not_due.
    + intros p Hp. apply Hi in Hp as [_ Hp]. by apply is_due_spec.
    + intros p st Hp. rewrite (H4 p st Hp). split; intros [d Hd]; [done|by apply continue_not_running in Hd].
    + intros p d Hd. by apply continue_not_running in Hd.
  - destruct (jr_loop r) as [|[|p due]|] eqn:El; try done. destruct (jk_left r Hok p) as (st & Hst & _); [rewrite El; by left|].
    rewrite Hst in Hs. destruct (js_running st) eqn:Er.
    + apply (jk_running r Hok p st Hst) in Er as [d Hd]. congruence.
    + injection Hs as <-. split; [by apply job_start_ok|]. cbn. rewrite fmap_app, app_nil_r, <-app_assoc. done.
  - destruct (jr_loop r) as [|d|p due] eqn:El; try done. destruct (jr_heap r !! p) as [st|] eqn:Ep; [|done]. injection Hs as <-.
    split; [by apply job_finish_ok|]. cbn. by rewrite left_continue, app_nil_r.
Qed.
Lemma job_steps_ok ls : forall r r', jobs_ok r -> job_steps ls r = Some r' ->
  jobs_ok r' /\ (st_job <$> jr_started r') ++ left_to_start (jr_loop r') = (st_job <$> jr_started r) ++ left_to_start (jr_loop r) ++ asked ls.
Proof.
  induction ls as [|l ls IH]; intros r r' Hok Hs; cbn in Hs; [injection Hs as <-; split; [done|]; cbn; by rewrite app_nil_r|].
  destruct (job_step l r) as [r1|] eqn:E1; [|done]. apply job_step_ok in E1 as [Hok1 E1]; [|done]. destruct (IH _ _ Hok1 Hs) as [Hok' E'].
  split; [done|]. rewrite E', (assoc_L (++)), E1. change (asked (l :: ls)) with (asked ([l] ++ ls)). unfold asked. rewrite fmap_app, concat_app.
  by rewrite <-!(assoc_L (++)).
Qed.

(** C13. Over every sequence of ticks, runs and reloads: at most one job runs at a time,
    so that the test for a run still in flight never finds one; a job starts at a tick
    not before the time its schedule gave when it started last; and a job whose schedule
    has no next time, such as the thirtieth of February, is due at every tick. *)
Theorem jobs_sound ls r : job_steps ls newJobRunner = Some r ->
  (forall p st, jr_heap r !! p = Some st -> js_running st = true <-> exists due, jr_loop r = Running p due) /\
  (forall p due, jr_loop r = Due (p :: due) -> exists st, jr_heap r !! p = Some st /\ js_running st = false) /\
  spaced (jr_heap r) (jr_started r) /\
  (forall name p st now order, jr_jobs r !! name = Some p -> jr_heap r !! p = Some st -> js_next st = None -> due_order r now order = true -> p ∈ order).
Proof.
  intros Hs. apply job_steps_ok in Hs as [Hok _]; [|apply new_ok]. split; [apply (jk_running _ Hok)|]. split; [|split; [apply (jk_spaced _ Hok)|]].
  - intros p due Hl. destruct (jk_left _ Hok p) as (st & Hst & _); [rewrite Hl; by left|]. exists st. split; [done|].
    destruct (js_running st) eqn:Er; [|done]. apply (jk_running _ Hok p st Hst) in Er as [d Hd]. congruence.
  - intros name p st now order Hp Hst Hz [_ Hi]%due_order_spec. apply Hi. split.
    + unfold pointers. apply list_elem_of_fmap. exists (name, p). split; [done|by apply elem_of_map_to_list].
    + unfold is_due. by rewrite Hst, Hz.
Qed.

Definition own_step (l : job_label) : Prop := match l with JStart _ | JFinish => True | _ => False end.
Lemma loop_ends (now : Z) r : jobs_ok r -> exists ls r', Forall own_step ls /\ job_steps ls r = Some r' /\ jr_loop r' = Waiting.
Proof.
  assert (Hdue : forall due r, jobs_ok r -> jr_loop r = continue due -> exists ls r', Forall own_step ls /\ job_steps ls r = Some r' /\ jr_loop r' = Waiting).
  { induction due as [|p due IH]; intros r0 Hok Hl; [by exists [], r0|]. cbn in Hl.
    destruct (jk_left _ Hok p) as (st & Hst & _); [rewrite Hl; by left|].
    assert (Hr : js_running st = false) by (destruct (js_running st) eqn:Er; [|done]; apply (jk_running _ Hok p st Hst) in Er as [d Hd]; congruence).
    pose proof (job_start_ok p due now st r0 Hok Hl Hst Hr) as Hok1. set (r1 := mkJobRunner _ _ _ _ _ _) in Hok1.
    assert (Hst1 : jr_heap r1 !! p = Some (with_next now true st)) by (apply list_lookup_insert_eq; by eapply lookup_lt_Some).
    pose proof (job_finish_ok p due _ r1 Hok1 eq_refl Hst1) as Hok2. destruct (IH _ Hok2 eq_refl) as (ls & r' & Hf & Hls & Hw).
    exists (JStart now :: JFinish :: ls), r'. split; [by repeat constructor|]. split; [|done].
    cbn [job_steps]. unfold job_step at 1. rewrite Hl, Hst, Hr. fold r1. unfold job_step at 1. cbn [jr_loop r1]. rewrite Hst1. exact Hls. }
  intros Hok. destruct (jr_loop r) as [|due|p due] eqn:El.
  - by exists [], r.
  - destruct due as [|p due]; [by apply jk_due in El|by apply (Hdue (p :: due))].
  - destruct (lookup_lt_is_Some_2 (jr_heap r) p) as [st Hst]; [by eapply jk_current|].
    pose proof (job_finish_ok p due st r Hok El Hst) as Hok1. destruct (Hdue due _ Hok1 eq_refl) as (ls & r' & Hf & Hls & Hw).
    exists (JFinish :: ls), r'. split; [by constructor|]. split; [|done]. cbn [job_steps]. unfold job_step at 1. by rewrite El, Hst.
Qed.

(** Every job a tick found due starts, once, and in the order the tick listed them,
    whatever reloads come between: the starts so far are the jobs asked for so far, less
    those still waiting for their turn; and from every reachable state the loop, by its
    own steps alone, comes to rest with all of them started. *)
Theorem due_jobs_start (now : Z) ls r : job_steps ls newJobRunner = Some r ->
  (st_job <$> jr_started r) ++ left_to_start (jr_loop r) = asked ls /\
  exists ls' r', Forall own_step ls' /\ job_steps ls' r = Some r' /\ jr_loop r' = Waiting /\ st_job <$> jr_started r' = asked ls.
Proof.
  intros Hs. apply job_steps_ok in Hs as [Hok Ha]; [|apply new_ok]. cbn in Ha. split; [done|].
  destruct (loop_ends now r Hok) as (ls' & r' & Hf & Hs' & Hw). exists ls', r'. split_and!; try done.
  apply job_steps_ok in Hs' as [_ Hs']; [|done]. rewrite Hw, app_nil_r, (assoc_L (++)), Ha in Hs'. rewrite Hs'.
  replace (asked ls') with (@nil nat); [by rewrite app_nil_r|]. symmetry. unfold asked. clear -Hf. induction Hf as [|l ls' Hl _ IH]; [done|]. by destruct l.
Qed.
End jobs_facts.

(** ** A small schedule *)

(** Every ten units, and never. *)
Definition demo_cron : Cron := {|
  cron_Schedule := bool;
  cron_Parse s := if bool_decide (s = $"@every 10") then Some true else if bool_decide (s = $"0 0 30 2 *") then Some false else None;
  cron_Next every now := if every then Some (now + 10) else None;
|}.
#[local] Existing Instance demo_cron.
Definition demo_job (name schedule : string) : JobConfig := mkJobConfig ($name) ($schedule) ($"backup") [] None 0 true.
Definition demo_jobs : list job_label :=
  [JSet [demo_job "tidy" "@every 10"; demo_job "leap" "0 0 30 2 *"; demo_job "bad" "x"] 0; JWake;
   JTick 1 [1%nat]; JStart 1; JFinish; JTick 2 [1%nat]; JStart 2; JSet [] 3; JFinish].
Lemma jobs_sound_witness : exists r, job_steps demo_jobs newJobRunner = Some r /\
  ((fun x => (st_job x, st_tick x)) <$> jr_started r) = [(1%nat, 1); (1%nat, 2)] /\ spaced (jr_heap r) (jr_started r).
Proof.
  destruct (job_steps demo_jobs newJobRunner) as [r|] eqn:E; [|vm_compute in E; discriminate E].
  exists r. split; [reflexivity|]. split; [vm_compute in E; injection E as <-; vm_compute; reflexivity|]. apply (jobs_sound demo_jobs r E).
Defined.
Lemma due_jobs_start_witness : exists r, job_steps (take 7 demo_jobs) newJobRunner = Some r /\
  asked (take 7 demo_jobs) = [1%nat; 1%nat] /\ exists ls' r', Forall own_step ls' /\ job_steps ls' r = Some r' /\ jr_loop r' = Waiting.
Proof.
  destruct (job_steps (take 7 demo_jobs) newJobRunner) as [r|] eqn:E; [|vm_compute in E; discriminate E].
  exists r. split; [reflexivity|]. split; [reflexivity|].
  destruct (due_jobs_start 5 _ r E) as (_ & ls' & r' & Hf & Hs & Hw & _). exists ls', r'. split; [exact Hf|]. split; [exact Hs|exact Hw].
Defined.
