(* ===== verification/CloudDB.v ===== *)
(** * CloudDB: the tables of the cloud and the database that holds them

    The rows of [internal/database/models.go] the modelled part of the service uses,
    and what it relies on of gorm and SQL, one operation per statement it issues: an
    interface [Database] with its laws [DatabaseLaws]. Every statement may fail, and
    then changes nothing. At the end the laws hold of a database of lists. *)

From stdpp Require Import sorting.
From S2P Require Import Prelude GoStr Config.
Open Scope Z_scope.

(** ** Rows *)

Record Daemon := mkDaemon {
  dm_ID : str; dm_AccountID : str; dm_WorkspaceID : str; dm_Name : str; dm_SecretHash : str; dm_HostID : str;
  dm_Enabled : bool; dm_TerminalRelayEnabled : bool; dm_LastSeenAt : option Z; dm_DisconnectedAt : option Z;
  dm_CreatedAt : Z;
}.
Record DaemonAction := mkDaemonAction {
  da_DaemonID : str; da_Name : str; da_DisplayName : str; da_Enabled : bool; da_NotifyOnSuccess : bool;
  da_NotifyOnFailure : bool; da_Timeout : str; da_Cwd : str; da_User : str; da_UpdatedAt : Z;
}.
Record WebhookRequest := mkWebhookRequest {
  wr_ID : str; wr_DaemonID : str; wr_Name : str; wr_Body : str; wr_Signature : str; wr_InvokedBy : str;
  wr_Status : str; wr_LeasedAt : option Z; wr_ResultCode : Z; wr_ResultBody : str; wr_ResultError : str;
  wr_CreatedAt : Z; wr_UpdatedAt : Z;
}.
Record CredentialRow := mkCredentialRow {
  cr_ID : str; cr_AccountID : str; cr_Label : str; cr_TokenHash : str;
  cr_DaemonIDs : str; cr_HostIDs : str; cr_ActionNames : str; cr_CreatedAt : Z; cr_LastUsedAt : option Z;
}.
Record DaemonMetric := mkDaemonMetric {
  mt_ID : str; mt_DaemonID : str; mt_SentAt : Z; mt_ReceivedAt : Z; mt_UptimeSeconds : Z; mt_ProcessMemoryBytes : Z;
  mt_CPUPercent : float64; mt_CPUCount : Z; mt_Load1 : float64; mt_Load5 : float64; mt_Load15 : float64;
  mt_MemoryUsedPercent : float64; mt_MemoryUsedBytes : Z; mt_MemoryTotalBytes : Z; mt_SwapTotalKb : Z; mt_SwapFreeKb : Z;
  mt_DiskTotalKb : Z; mt_DiskAvailableKb : Z; mt_NetRxBytes : Z; mt_NetTxBytes : Z; mt_WebhookExecutions : Z;
  mt_WebhookFailures : Z; mt_HealthScore : Z; mt_HealthStatus : str;
}.
Record DaemonLog := mkDaemonLog { lg_ID : str; lg_DaemonID : str; lg_ContainerID : str; lg_Timestamp : Z; lg_ReceivedAt : Z; lg_Line : str }.
Record DaemonContainer := mkDaemonContainer {
  dc_DaemonID : str; dc_ContainerID : str; dc_Runtime : str; dc_WorkspaceID : str; dc_Name : str; dc_Image : str; dc_State : str;
  dc_Status : str; dc_ComposeProject : str; dc_FirstSeenAt : Z; dc_LastSeenAt : Z; dc_ReceivedAt : Z;
}.
Record Notification := mkNotification {
  nt_ID : str; nt_AccountID : str; nt_WorkspaceID : str; nt_DaemonID : str; nt_Kind : str; nt_Title : str; nt_Subtitle : str;
  nt_Body : str; nt_Metadata : str; nt_ReadAt : option Z; nt_CreatedAt : Z;
}.
Record NotificationPreference := mkNotificationPreference {
  np_ID : str; np_AccountID : str; np_WorkspaceID : str; np_DaemonID : str; np_Topic : str; np_Preference : Z;
  np_CreatedAt : Z; np_UpdatedAt : Z;
}.
Record TerminalSession := mkTerminalSession {
  ts_ID : str; ts_DaemonID : str; ts_WorkspaceID : str; ts_AccountID : str; ts_InvokedBy : str; ts_Shell : str; ts_User : str;
  ts_Tmux : str; ts_Columns : Z; ts_Rows : Z; ts_TicketHash : str; ts_Status : str; ts_LeasedAt : option Z; ts_StartedAt : option Z;
  ts_EndedAt : option Z; ts_ExitCode : Z; ts_Error : str; ts_BytesIn : Z; ts_BytesOut : Z; ts_CreatedAt : Z; ts_UpdatedAt : Z;
}.
Definition container_key (c : DaemonContainer) : str * str := (dc_DaemonID c, dc_ContainerID c).
Definition preference_key (p : NotificationPreference) : str * str * str := (np_AccountID p, np_DaemonID p, np_Topic p).
(** What the daemons report, and who wants to hear of it. The rows of the preferences
    go by their unique index, [idx_notification_preferences_scope]. *)
Record feed := mkFeed {
  f_metrics : gmap str DaemonMetric;
  f_logs : gmap str DaemonLog;
  f_containers : gmap (str * str) DaemonContainer;
  f_notifications : gmap str Notification;
  f_preferences : gmap (str * str * str) NotificationPreference;
}.
(** The tables, by primary key. *)
Record tables := mkTables {
  t_daemons : gmap str Daemon;
  t_actions : gmap (str * str) DaemonAction;
  t_requests : gmap str WebhookRequest;
  t_credentials : gmap str CredentialRow;
  t_feed : feed;
  t_sessions : gmap str TerminalSession;
}.
Definition with_daemons (f : gmap str Daemon -> gmap str Daemon) (t : tables) : tables :=
  mkTables (f (t_daemons t)) (t_actions t) (t_requests t) (t_credentials t) (t_feed t) (t_sessions t).
Definition with_actions (f : gmap (str * str) DaemonAction -> gmap (str * str) DaemonAction) (t : tables) : tables :=
  mkTables (t_daemons t) (f (t_actions t)) (t_requests t) (t_credentials t) (t_feed t) (t_sessions t).
Definition with_requests (f : gmap str WebhookRequest -> gmap str WebhookRequest) (t : tables) : tables :=
  mkTables (t_daemons t) (t_actions t) (f (t_requests t)) (t_credentials t) (t_feed t) (t_sessions t).
Definition with_credentials (f : gmap str CredentialRow -> gmap str CredentialRow) (t : tables) : tables :=
  mkTables (t_daemons t) (t_actions t) (t_requests t) (f (t_credentials t)) (t_feed t) (t_sessions t).
Definition with_feed (f : feed -> feed) (t : tables) : tables :=
  mkTables (t_daemons t) (t_actions t) (t_requests t) (t_credentials t) (f (t_feed t)) (t_sessions t).
Definition with_sessions (f : gmap str TerminalSession -> gmap str TerminalSession) (t : tables) : tables :=
  mkTables (t_daemons t) (t_actions t) (t_requests t) (t_credentials t) (t_feed t) (f (t_sessions t)).
(** [UPDATE ... WHERE]. *)
Definition update_where `{Countable K} {A} (P : A -> bool) (f : A -> A) (m : gmap K A) : gmap K A := (fun r => if P r then f r else r) <$> m.

(** The columns the service's updates set. *)
Definition set_disconnected (at_ : option Z) (d : Daemon) : Daemon :=
  mkDaemon (dm_ID d) (dm_AccountID d) (dm_WorkspaceID d) (dm_Name d) (dm_SecretHash d) (dm_HostID d) (dm_Enabled d)
    (dm_TerminalRelayEnabled d) (dm_LastSeenAt d) at_ (dm_CreatedAt d).
Definition set_lease (status : str) (leased : option Z) (now : Z) (r : WebhookRequest) : WebhookRequest :=
  mkWebhookRequest (wr_ID r) (wr_DaemonID r) (wr_Name r) (wr_Body r) (wr_Signature r) (wr_InvokedBy r) status leased
    (wr_ResultCode r) (wr_ResultBody r) (wr_ResultError r) (wr_CreatedAt r) now.
Definition set_result (status : str) (code : Z) (body error : str) (now : Z) (r : WebhookRequest) : WebhookRequest :=
  mkWebhookRequest (wr_ID r) (wr_DaemonID r) (wr_Name r) (wr_Body r) (wr_Signature r) (wr_InvokedBy r) status (wr_LeasedAt r)
    code body error (wr_CreatedAt r) now.
Definition set_used (now : Z) (c : CredentialRow) : CredentialRow :=
  mkCredentialRow (cr_ID c) (cr_AccountID c) (cr_Label c) (cr_TokenHash c) (cr_DaemonIDs c) (cr_HostIDs c) (cr_ActionNames c)
    (cr_CreatedAt c) (Some now).

(** ** The interface *)

Inductive db_error := ErrRecordNotFound | DBFailure (e : error).
Class Database := {
  db : Type;
  rows : db -> tables;
  first_daemon : str -> db -> (Daemon + db_error) * db;
  count_daemons : str -> db -> (Z + db_error) * db;
  (** the daemons of a workspace, the newest first *)
  find_daemons : str -> db -> (list Daemon + db_error) * db;
  create_daemon : Daemon -> db -> (unit + db_error) * db;
  save_daemon : Daemon -> db -> (unit + db_error) * db;
  update_disconnected : str -> option Z -> db -> (unit + db_error) * db;
  delete_actions : str -> db -> (unit + db_error) * db;
  create_actions : list DaemonAction -> db -> (unit + db_error) * db;
  find_actions : str -> db -> (list DaemonAction + db_error) * db;
  create_credential : CredentialRow -> db -> (unit + db_error) * db;
  first_credential : str -> db -> (CredentialRow + db_error) * db;
  (** the credentials of an account, the newest first *)
  find_credentials : str -> db -> (list CredentialRow + db_error) * db;
  delete_credential : str -> str -> db -> (Z + db_error) * db;
  update_last_used : str -> Z -> db -> (unit + db_error) * db;
  create_request : WebhookRequest -> db -> (unit + db_error) * db;
  first_request : str -> str -> db -> (WebhookRequest + db_error) * db;
  (** [status], [leased_at] and [updated_at] of the rows of a daemon that have a status
      and were leased before a time *)
  release_requests : str -> str -> Z -> str -> Z -> db -> (unit + db_error) * db;
  (** the oldest rows of a daemon with a status, at most so many *)
  find_requests : str -> str -> nat -> db -> (list WebhookRequest + db_error) * db;
  (** [status], [leased_at] and [updated_at] of the rows of a daemon with these keys *)
  lease_requests : str -> list str -> str -> Z -> db -> (unit + db_error) * db;
  (** status and result of the row of a daemon with this key and status *)
  complete_request : str -> str -> str -> str -> Z -> str -> str -> Z -> db -> (Z + db_error) * db;
  Transaction {A} : (db -> res A * db) -> db -> res A * db;
}.
Definition leased_before (daemon status : str) (before : Z) (r : WebhookRequest) : bool :=
  bool_decide (wr_DaemonID r = daemon) && bool_decide (wr_Status r = status) &&
  match wr_LeasedAt r with Some at_ => at_ <? before | None => false end.
Definition of_daemon_in (daemon : str) (ids : list str) (r : WebhookRequest) : bool :=
  bool_decide (wr_DaemonID r = daemon) && bool_decide (wr_ID r ∈ ids).
Definition of_daemon_with (daemon status : str) (r : WebhookRequest) : bool :=
  bool_decide (wr_DaemonID r = daemon) && bool_decide (wr_Status r = status).

Section laws.
Context `{Database}.
(** A query changes nothing and, when it answers, answers so. *)
Definition queries {A} (m : db -> (A + db_error) * db) (answers : tables -> A -> Prop) (none : tables -> Prop) : Prop :=
  forall s r s', m s = (r, s') -> rows s' = rows s /\
    match r with inl a => answers (rows s) a | inr ErrRecordNotFound => none (rows s) | inr (DBFailure _) => True end.
(** A statement has its effect when it answers, and none when it fails. *)
Definition changes {A} (m : db -> (A + db_error) * db) (effect : tables -> A -> tables -> Prop) : Prop :=
  forall s r s', m s = (r, s') -> match r with inl a => effect (rows s) a (rows s') | inr _ => rows s' = rows s end.
(** The newest rows first: [ORDER BY created_at DESC]. *)
Definition newer {A} (created : A -> Z) (x y : A) : Prop := created y <= created x.
(** The oldest matching rows. *)
Record oldest (P : WebhookRequest -> bool) (limit : nat) (t : tables) (l : list WebhookRequest) : Prop := {
  ol_rows : forall r, r ∈ l -> t_requests t !! wr_ID r = Some r /\ P r = true;
  ol_distinct : NoDup (wr_ID <$> l);
  ol_limit : (List.length l <= limit)%nat;
  ol_rest : forall r, t_requests t !! wr_ID r = Some r -> P r = true -> r ∉ l ->
    List.length l = limit /\ Forall (fun x => wr_CreatedAt x <= wr_CreatedAt r) l;
  ol_sorted : StronglySorted (fun x y => wr_CreatedAt x <= wr_CreatedAt y) l;
}.
End laws.

Class DatabaseLaws (D : Database) : Prop := {
  keyed_daemons : forall s id d, t_daemons (rows s) !! id = Some d -> dm_ID d = id;
  keyed_requests : forall s id r, t_requests (rows s) !! id = Some r -> wr_ID r = id;
  keyed_credentials : forall s id c, t_credentials (rows s) !! id = Some c -> cr_ID c = id;
  keyed_actions : forall s key a, t_actions (rows s) !! key = Some a -> (da_DaemonID a, da_Name a) = key;
  first_daemon_law id : queries (first_daemon id) (fun t d => t_daemons t !! id = Some d) (fun t => t_daemons t !! id = None);
  count_daemons_law workspace : queries (count_daemons workspace)
    (fun t n => n = Z.of_nat (size (filter (fun kv : str * Daemon => dm_WorkspaceID kv.2 = workspace) (t_daemons t)))) (fun _ => False);
  find_daemons_law workspace : queries (find_daemons workspace)
    (fun t l => (forall d, d ∈ l <-> t_daemons t !! dm_ID d = Some d /\ dm_WorkspaceID d = workspace) /\ StronglySorted (newer dm_CreatedAt) l)
    (fun _ => False);
  create_daemon_law d : changes (create_daemon d) (fun t _ t' => t_daemons t !! dm_ID d = None /\ t' = with_daemons <[dm_ID d := d]> t);
  save_daemon_law d : changes (save_daemon d) (fun t _ t' => t' = with_daemons <[dm_ID d := d]> t);
  update_disconnected_law id at_ : changes (update_disconnected id at_)
    (fun t _ t' => t' = with_daemons (update_where (fun d => bool_decide (dm_ID d = id)) (set_disconnected at_)) t);
  delete_actions_law daemon : changes (delete_actions daemon)
    (fun t _ t' => t' = with_actions (filter (fun kv => kv.1.1 <> daemon)) t);
  create_actions_law l : changes (create_actions l)
    (fun t _ t' => t' = with_actions (fun m => list_to_map ((fun a => ((da_DaemonID a, da_Name a), a)) <$> l) ∪ m) t);
  find_actions_law daemon : queries (find_actions daemon)
    (fun t l => forall a, a ∈ l <-> t_actions t !! (da_DaemonID a, da_Name a) = Some a /\ da_DaemonID a = daemon) (fun _ => False);
  create_credential_law c : changes (create_credential c) (fun t _ t' => t_credentials t !! cr_ID c = None /\ t' = with_credentials <[cr_ID c := c]> t);
  first_credential_law hash : queries (first_credential hash)
    (fun t c => t_credentials t !! cr_ID c = Some c /\ cr_TokenHash c = hash) (fun t => forall id c, t_credentials t !! id = Some c -> cr_TokenHash c <> hash);
  find_credentials_law account : queries (find_credentials account)
    (fun t l => (forall c, c ∈ l <-> t_credentials t !! cr_ID c = Some c /\ cr_AccountID c = account) /\ StronglySorted (newer cr_CreatedAt) l)
    (fun _ => False);
  delete_credential_law id account : changes (delete_credential id account)
    (fun t n t' => match t_credentials t !! id with
                   | Some c => if bool_decide (cr_AccountID c = account) then n = 1 /\ t' = with_credentials (delete id) t else n = 0 /\ t' = t
                   | None => n = 0 /\ t' = t
                   end);
  update_last_used_law id now : changes (update_last_used id now)
    (fun t _ t' => t' = with_credentials (update_where (fun c => bool_decide (cr_ID c = id)) (set_used now)) t);
  create_request_law r : changes (create_request r) (fun t _ t' => t_requests t !! wr_ID r = None /\ t' = with_requests <[wr_ID r := r]> t);
  first_request_law daemon id : queries (first_request daemon id)
    (fun t r => t_requests t !! id = Some r /\ wr_DaemonID r = daemon)
    (fun t => forall r, t_requests t !! id = Some r -> wr_DaemonID r <> daemon);
  release_requests_law daemon from before to now : changes (release_requests daemon from before to now)
    (fun t _ t' => t' = with_requests (update_where (leased_before daemon from before) (set_lease to None now)) t);
  find_requests_law daemon status limit : queries (find_requests daemon status limit)
    (fun t l => oldest (of_daemon_with daemon status) limit t l) (fun _ => False);
  lease_requests_law daemon ids status now : changes (lease_requests daemon ids status now)
    (fun t _ t' => t' = with_requests (update_where (of_daemon_in daemon ids) (set_lease status (Some now) now)) t);
  complete_request_law daemon id from to code body error now : changes (complete_request daemon id from to code body error now)
    (fun t n t' =>
       match t_requests t !! id with
       | Some r => if of_daemon_with daemon from r then n = 1 /\ t' = with_requests <[id := set_result to code body error now r]> t else n = 0 /\ t' = t
       | None => n = 0 /\ t' = t
       end);
  (** begin, run, commit or roll back *)
  Transaction_law {A} (f : db -> res A * db) s r s' : Transaction f s = (r, s') ->
    match r with
    | Ok a => exists s0 s1, rows s0 = rows s /\ f s0 = (Ok a, s1) /\ rows s' = rows s1
    | Err _ => rows s' = rows s
    end;
}.

(** ** A database of lists

    The laws can hold: tables as lists of rows, the first one of a key counting, and
    no statement ever failing. *)

Section by_key.
Context `{Countable K} {A : Type} (key : A -> K).
Definition by_key (l : list A) : gmap K A := list_to_map ((fun x => (key x, x)) <$> l).
Lemma by_key_nil : by_key [] = ∅.
Proof. done. Qed.
Lemma by_key_cons x l : by_key (x :: l) = <[key x := x]> (by_key l).
Proof. done. Qed.
Lemma by_key_key l k x : by_key l !! k = Some x -> key x = k.
Proof.
  induction l as [|y l IH]; [by rewrite by_key_nil, lookup_empty|]. rewrite by_key_cons, lookup_insert_Some. intros [[<- <-]|[_ Hl]]; [done|by apply IH].
Qed.
Lemma by_key_map f l : (forall x, key (f x) = key x) -> by_key (f <$> l) = f <$> by_key l.
Proof.
  intros Hf. induction l as [|y l IH]; [by rewrite by_key_nil, fmap_empty|]. change (f <$> y :: l) with (f y :: (f <$> l)). by rewrite !by_key_cons, fmap_insert, Hf, IH.
Qed.
Lemma by_key_filter (P : A -> Prop) (Q : K -> Prop) `{forall x, Decision (P x), forall k, Decision (Q k)} l :
  (forall x, P x <-> Q (key x)) -> by_key (filter P l) = filter (fun kv => Q kv.1) (by_key l).
Proof.
  intros HPQ. induction l as [|y l IH]; [done|]. rewrite filter_cons, by_key_cons. destruct (decide (P y)) as [Hy|Hy].
  - rewrite by_key_cons, IH, map_filter_insert_True; [done|by apply HPQ].
  - rewrite IH. apply map_eq. intros k. apply option_eq. intros x. rewrite !map_lookup_filter_Some, lookup_insert_Some. cbn.
    split; [|naive_solver]. intros [Hl Hk]. split; [right|done]. split; [|done]. intros <-. by apply Hy, HPQ.
Qed.
Definition values (m : gmap K A) : list A := (map_to_list m).*2.
Lemma elem_of_values l x : x ∈ values (by_key l) <-> by_key l !! key x = Some x.
Proof.
  unfold values. rewrite list_elem_of_fmap. split.
  - intros ([k y] & -> & Hy%elem_of_map_to_list). cbn. by rewrite (by_key_key l k y Hy).
  - intros Hx. exists (key x, x). split; [done|]. by apply elem_of_map_to_list.
Qed.
Lemma values_keys l : key <$> values (by_key l) = (map_to_list (by_key l)).*1.
Proof.
  unfold values. rewrite <-list_fmap_compose. apply list_fmap_ext. intros i [k y] Hy. cbn.
  apply (by_key_key l k y). by apply elem_of_map_to_list, list_elem_of_lookup_2 with i.
Qed.
End by_key.

Record list_feed := mkListFeed {
  lf_metrics : list DaemonMetric; lf_logs : list DaemonLog; lf_containers : list DaemonContainer;
  lf_notifications : list Notification; lf_preferences : list NotificationPreference;
}.
Definition feed_rows (f : list_feed) : feed :=
  mkFeed (by_key mt_ID (lf_metrics f)) (by_key lg_ID (lf_logs f)) (by_key container_key (lf_containers f))
    (by_key nt_ID (lf_notifications f)) (by_key preference_key (lf_preferences f)).
Definition no_feed : list_feed := mkListFeed [] [] [] [] [].
Record list_db := mkListDB {
  ld_daemons : list Daemon; ld_actions : list DaemonAction; ld_requests : list WebhookRequest; ld_credentials : list CredentialRow;
  ld_feed : list_feed; ld_sessions : list TerminalSession;
}.
Definition action_key (a : DaemonAction) : str * str := (da_DaemonID a, da_Name a).
Definition list_rows (s : list_db) : tables :=
  mkTables (by_key dm_ID (ld_daemons s)) (by_key action_key (ld_actions s)) (by_key wr_ID (ld_requests s)) (by_key cr_ID (ld_credentials s))
    (feed_rows (ld_feed s)) (by_key ts_ID (ld_sessions s)).
Definition ask {A} (a : option A) (s : list_db) : (A + db_error) * list_db :=
  (match a with Some a => inl a | None => inr ErrRecordNotFound end, s).
Definition done_ {A} (a : A) (s : list_db) : (A + db_error) * list_db := (inl a, s).
Definition refused {A} (s : list_db) : (A + db_error) * list_db := (inr (DBFailure (Errorf "duplicate key" [])), s).
Definition set_ld_daemons l s := mkListDB l (ld_actions s) (ld_requests s) (ld_credentials s) (ld_feed s) (ld_sessions s).
Definition set_ld_actions l s := mkListDB (ld_daemons s) l (ld_requests s) (ld_credentials s) (ld_feed s) (ld_sessions s).
Definition set_ld_requests l s := mkListDB (ld_daemons s) (ld_actions s) l (ld_credentials s) (ld_feed s) (ld_sessions s).
Definition set_ld_credentials l s := mkListDB (ld_daemons s) (ld_actions s) (ld_requests s) l (ld_feed s) (ld_sessions s).
Definition set_ld_feed l s := mkListDB (ld_daemons s) (ld_actions s) (ld_requests s) (ld_credentials s) l (ld_sessions s).
Definition set_ld_sessions l s := mkListDB (ld_daemons s) (ld_actions s) (ld_requests s) (ld_credentials s) (ld_feed s) l.
Definition created_le (x y : WebhookRequest) : Prop := wr_CreatedAt x <= wr_CreatedAt y.
#[export] Instance created_le_dec x y : Decision (created_le x y).
Proof. unfold created_le. apply _. Defined.
#[export] Instance created_le_trans : Transitive created_le.
Proof. unfold created_le. intros x y z. lia. Qed.
#[export] Instance created_le_total : Total created_le.
Proof. unfold created_le. intros x y. lia. Qed.

#[export] Instance newer_dec {A} (created : A -> Z) x y : Decision (newer created x y).
Proof. unfold newer. apply _. Defined.
#[export] Instance newer_trans {A} (created : A -> Z) : Transitive (newer created).
Proof. unfold newer. intros x y z. lia. Qed.
#[export] Instance newer_total {A} (created : A -> Z) : Total (newer created).
Proof. unfold newer. intros x y. lia. Qed.
Lemma newest_law {A} (created : A -> Z) (l : list A) (P : A -> Prop) : (forall x, x ∈ l <-> P x) ->
  (forall x, x ∈ merge_sort (newer created) l <-> P x) /\ StronglySorted (newer created) (merge_sort (newer created) l).
Proof.
  intros Hl. split; [|apply StronglySorted_merge_sort; apply _]. intros x. by rewrite merge_sort_Permutation.
Qed.

#[export] Instance ListDatabase : Database := {
  db := list_db;
  rows := list_rows;
  first_daemon id s := ask (t_daemons (list_rows s) !! id) s;
  count_daemons w s := done_ (Z.of_nat (size (filter (fun kv : str * Daemon => dm_WorkspaceID kv.2 = w) (t_daemons (list_rows s))))) s;
  find_daemons w s := done_ (merge_sort (newer dm_CreatedAt) (filter (fun d => dm_WorkspaceID d = w) (values (t_daemons (list_rows s))))) s;
  create_daemon d s := if bool_decide (t_daemons (list_rows s) !! dm_ID d = None) then done_ tt (set_ld_daemons (d :: ld_daemons s) s) else refused s;
  save_daemon d s := done_ tt (set_ld_daemons (d :: ld_daemons s) s);
  update_disconnected id at_ s :=
    done_ tt (set_ld_daemons ((fun d => if bool_decide (dm_ID d = id) then set_disconnected at_ d else d) <$> ld_daemons s) s);
  delete_actions daemon s := done_ tt (set_ld_actions (filter (fun a => da_DaemonID a <> daemon) (ld_actions s)) s);
  create_actions l s := done_ tt (set_ld_actions (l ++ ld_actions s) s);
  find_actions daemon s := done_ (filter (fun a => da_DaemonID a = daemon) (values (t_actions (list_rows s)))) s;
  create_credential c s := if bool_decide (t_credentials (list_rows s) !! cr_ID c = None) then done_ tt (set_ld_credentials (c :: ld_credentials s) s) else refused s;
  first_credential hash s := ask (List.find (fun c => bool_decide (cr_TokenHash c = hash)) (values (t_credentials (list_rows s)))) s;
  find_credentials account s := done_ (merge_sort (newer cr_CreatedAt) (filter (fun c => cr_AccountID c = account) (values (t_credentials (list_rows s))))) s;
  delete_credential id account s :=
    match t_credentials (list_rows s) !! id with
    | Some c => if bool_decide (cr_AccountID c = account) then done_ 1 (set_ld_credentials (filter (fun c => cr_ID c <> id) (ld_credentials s)) s) else done_ 0 s
    | None => done_ 0 s
    end;
  update_last_used id now s :=
    done_ tt (set_ld_credentials ((fun c => if bool_decide (cr_ID c = id) then set_used now c else c) <$> ld_credentials s) s);
  create_request r s := if bool_decide (t_requests (list_rows s) !! wr_ID r = None) then done_ tt (set_ld_requests (r :: ld_requests s) s) else refused s;
  first_request daemon id s :=
    ask (match t_requests (list_rows s) !! id with Some r => if bool_decide (wr_DaemonID r = daemon) then Some r else None | None => None end) s;
  release_requests daemon from before to now s :=
    done_ tt (set_ld_requests ((fun r => if leased_before daemon from before r then set_lease to None now r else r) <$> ld_requests s) s);
  find_requests daemon status limit s :=
    done_ (take limit (merge_sort created_le (filter (fun r => of_daemon_with daemon status r = true) (values (t_requests (list_rows s)))))) s;
  lease_requests daemon ids status now s :=
    done_ tt (set_ld_requests ((fun r => if of_daemon_in daemon ids r then set_lease status (Some now) now r else r) <$> ld_requests s) s);
  complete_request daemon id from to code body error now s :=
    match t_requests (list_rows s) !! id with
    | Some r => if of_daemon_with daemon from r then done_ 1 (set_ld_requests (set_result to code body error now r :: ld_requests s) s) else done_ 0 s
    | None => done_ 0 s
    end;
  Transaction A f s := match f s with (Ok a, s') => (Ok a, s') | (Err e, _) => (Err e, s) end;
}.

Lemma by_key_update `{Countable K} {A} (key : A -> K) (P : A -> bool) f l : (forall x, key (f x) = key x) ->
  by_key key ((fun x => if P x then f x else x) <$> l) = update_where P f (by_key key l).
Proof. intros Hf. unfold update_where. apply (by_key_map key (fun x => if P x then f x else x)). intros x. by destruct (P x). Qed.
Lemma take_sorted {A} (l : list A) limit (R : A -> A -> Prop) r : StronglySorted R l -> r ∈ l -> r ∉ take limit l ->
  List.length (take limit l) = limit /\ Forall (fun x => R x r) (take limit l).
Proof.
  intros Hs Hr Hn. assert (Hd : r ∈ drop limit l) by (rewrite <-(take_drop limit l) in Hr; by apply elem_of_app in Hr as [|]).
  split.
  - rewrite length_take. apply list_elem_of_lookup in Hd as [i Hi]. apply lookup_lt_Some in Hi. rewrite length_drop in Hi. lia.
  - apply Forall_forall. intros x Hx. rewrite <-(take_drop limit l) in Hs. by eapply StronglySorted_app_1_elem_of.
Qed.
Lemma find_law {A} `{Countable K} (key : A -> K) l (P : A -> Prop) `{forall x, Decision (P x)} x :
  x ∈ filter P (values (by_key key l)) <-> by_key key l !! key x = Some x /\ P x.
Proof. rewrite list_elem_of_filter, elem_of_values. naive_solver. Qed.
Lemma filter_sub {A} (P : A -> Prop) `{forall x, Decision (P x)} (l : list A) : filter P l `sublist_of` l.
Proof. induction l as [|x l IH]; [done|]. rewrite filter_cons. destruct (decide (P x)); [by apply sublist_skip|by apply sublist_cons]. Qed.
Lemma oldest_law l (P : WebhookRequest -> bool) limit :
  oldest P limit (mkTables ∅ ∅ (by_key wr_ID l) ∅ (feed_rows no_feed) ∅) (take limit (merge_sort created_le (filter (fun r => P r = true) (values (by_key wr_ID l))))).
Proof.
  set (found := filter (fun r => P r = true) (values (by_key wr_ID l))).
  assert (Hperm : merge_sort created_le found ≡ₚ found) by apply merge_sort_Permutation.
  assert (Hin : forall r, r ∈ found <-> by_key wr_ID l !! wr_ID r = Some r /\ P r = true) by (intros r; apply (find_law wr_ID l (fun r => P r = true))).
  assert (Hsort : StronglySorted created_le (merge_sort created_le found)) by (apply StronglySorted_merge_sort; apply _).
  assert (Hsub : forall r, r ∈ take limit (merge_sort created_le found) -> r ∈ found) by (intros r Hr; rewrite <-Hperm; by eapply elem_of_submseteq, submseteq_take).
  split; cbn [t_requests].
  - intros r Hr. by apply Hin, Hsub.
  - apply (sublist_NoDup _ (wr_ID <$> merge_sort created_le found)); [|apply (fmap_sublist wr_ID), sublist_take]. rewrite Hperm.
    apply (sublist_NoDup _ (wr_ID <$> values (by_key wr_ID l))); [|apply (fmap_sublist wr_ID), filter_sub]. rewrite values_keys. apply NoDup_fst_map_to_list.
  - rewrite length_take. lia.
  - intros r Hr HP Hn. apply (take_sorted _ limit created_le r Hsort); [|done]. rewrite Hperm. by apply Hin.
  - rewrite <-(take_drop limit (merge_sort created_le found)) in Hsort. by eapply StronglySorted_app_1_l.
Qed.

Lemma oldest_requests P limit t u l : t_requests t = t_requests u -> oldest P limit t l -> oldest P limit u l.
Proof. intros Ht [H1 H2 H3 H4 H5]. split; rewrite <-?Ht; done. Qed.
Ltac table_step := intros s r s' [= <- <-];
  unfold rows, ListDatabase, list_rows, with_daemons, with_actions, with_requests, with_credentials;
  cbn [ld_daemons ld_actions ld_requests ld_credentials set_ld_daemons set_ld_actions set_ld_requests set_ld_credentials
       t_daemons t_actions t_requests t_credentials].
Lemma delete_actions_list daemon l : by_key action_key (filter (fun a => da_DaemonID a <> daemon) l) =
  filter (fun kv : (str * str) * DaemonAction => kv.1.1 <> daemon) (by_key action_key l).
Proof. exact (by_key_filter action_key (fun a => da_DaemonID a <> daemon) (fun k : str * str => k.1 <> daemon) l (fun _ => iff_refl _)). Qed.
Lemma delete_credential_list id l : by_key cr_ID (filter (fun c => cr_ID c <> id) l) = delete id (by_key cr_ID l).
Proof.
  rewrite (by_key_filter cr_ID (fun c => cr_ID c <> id) (fun k : str => k <> id) l (fun _ => iff_refl _)). apply map_eq. intros k. apply option_eq. intros x.
  rewrite map_lookup_filter_Some, lookup_delete_Some. naive_solver.
Qed.
Lemma first_credential_list hash : queries (H := ListDatabase) (first_credential hash)
  (fun t c => t_credentials t !! cr_ID c = Some c /\ cr_TokenHash c = hash) (fun t => forall id c, t_credentials t !! id = Some c -> cr_TokenHash c <> hash).
Proof.
  intros s r s' [= <- <-]. split; [done|]. cbn. set (l := values (by_key cr_ID (ld_credentials s))).
  destruct (List.find _ l) as [c|] eqn:Ef.
  - apply find_some in Ef as [Hin Hc]. split; [by apply elem_of_values, list_elem_of_In|by apply bool_decide_eq_true in Hc].
  - intros id c Hc Hh. pose proof (find_none _ _ Ef c) as Hn. cbn in Hn. rewrite bool_decide_true in Hn by done. discriminate Hn.
    apply list_elem_of_In, elem_of_values. by rewrite (by_key_key _ _ _ _ Hc).
Qed.
#[export] Instance ListLaws : DatabaseLaws ListDatabase.
Proof.
  split.
  - intros s id d. apply by_key_key.
  - intros s id d. apply by_key_key.
  - intros s id d. apply by_key_key.
  - intros s key a Ha. by apply (by_key_key action_key) in Ha.
  - intros id s r s' [= <- <-]. split; [done|]. cbn. by destruct (by_key dm_ID (ld_daemons s) !! id).
  - intros w s r s' [= <- <-]. done.
  - intros w s r s' [= <- <-]. split; [done|]. apply newest_law. intros d. apply (find_law dm_ID).
  - intros d s r s'. cbn. case_bool_decide as Hd; intros [= <- <-]; done.
  - intros d s r s' [= <- <-]. done.
  - intros id at_. table_step.
    rewrite <-(by_key_update dm_ID (fun d => bool_decide (dm_ID d = id)) (set_disconnected at_)) by done. done.
  - intros daemon. table_step.
    by rewrite delete_actions_list.
  - intros l. table_step.
    f_equal. unfold by_key. by rewrite fmap_app, list_to_map_app.
  - intros daemon s r s' [= <- <-]. split; [done|]. intros a. apply (find_law action_key).
  - intros c s r s'. cbn. case_bool_decide as Hd; intros [= <- <-]; done.
  - intros hash. apply first_credential_list.
  - intros account s r s' [= <- <-]. split; [done|]. apply newest_law. intros c. apply (find_law cr_ID).
  - intros id account s r s'. cbn. destruct (by_key cr_ID (ld_credentials s) !! id) as [c|]; [|by intros [= <- <-]].
    case_bool_decide as Ha; intros [= <- <-]; [|done]. split; [done|].
    unfold rows, ListDatabase, list_rows, with_credentials.
    cbn [ld_daemons ld_actions ld_requests ld_credentials set_ld_credentials t_daemons t_actions t_requests t_credentials].
    by rewrite delete_credential_list.
  - intros id now. table_step.
    rewrite <-(by_key_update cr_ID (fun c => bool_decide (cr_ID c = id)) (set_used now)) by done. done.
  - intros q s r s'. cbn. case_bool_decide as Hd; intros [= <- <-]; done.
  - intros daemon id s r s' [= <- <-]. split; [done|]. cbn. destruct (by_key wr_ID (ld_requests s) !! id) as [q|]; [|done].
    cbn. case_bool_decide as Hq; cbn; [done|]. by intros q' [= <-].
  - intros daemon from before to now. table_step.
    rewrite <-(by_key_update wr_ID (leased_before daemon from before) (set_lease to None now)) by done. done.
  - intros daemon status limit s r s' [= <- <-]. split; [done|]. eapply oldest_requests; [|apply oldest_law]. done.
  - intros daemon ids status now. table_step.
    rewrite <-(by_key_update wr_ID (of_daemon_in daemon ids) (set_lease status (Some now) now)) by done. done.
  - intros daemon id from to code body error now s r s'. cbn. destruct (by_key wr_ID (ld_requests s) !! id) as [q|] eqn:Eq; [|by intros [= <- <-]].
    destruct (of_daemon_with daemon from q); intros [= <- <-]; [|done]. split; [done|]. cbn. unfold set_ld_requests, list_rows. cbn [ld_requests].
    by rewrite by_key_cons, <-(by_key_key wr_ID _ _ _ Eq).
  - intros A f s r s'. cbn. destruct (f s) as [[a|e] s1] eqn:Ef; intros [= <- <-]; [|done]. by exists s, s1.
Qed.
