(* ===== verification/CloudFeedDB.v ===== *)
(** * CloudFeedDB: the tables of what daemons report and of notifications

    The statements the service issues on metrics, logs, containers, notifications and
    preferences, and on the heartbeat columns of a daemon: an interface over the
    database of [CloudDB] with its laws, and the same database of lists behind it. *)

From stdpp Require Import sorting.
From S2P Require Import Prelude GoStr Config CloudDB.
Open Scope Z_scope.

(** ** Columns the updates set *)

Definition with_metrics (g : gmap str DaemonMetric -> gmap str DaemonMetric) : tables -> tables :=
  with_feed (fun f => mkFeed (g (f_metrics f)) (f_logs f) (f_containers f) (f_notifications f) (f_preferences f)).
Definition with_logs (g : gmap str DaemonLog -> gmap str DaemonLog) : tables -> tables :=
  with_feed (fun f => mkFeed (f_metrics f) (g (f_logs f)) (f_containers f) (f_notifications f) (f_preferences f)).
Definition with_containers (g : gmap (str * str) DaemonContainer -> gmap (str * str) DaemonContainer) : tables -> tables :=
  with_feed (fun f => mkFeed (f_metrics f) (f_logs f) (g (f_containers f)) (f_notifications f) (f_preferences f)).
Definition with_notifications (g : gmap str Notification -> gmap str Notification) : tables -> tables :=
  with_feed (fun f => mkFeed (f_metrics f) (f_logs f) (f_containers f) (g (f_notifications f)) (f_preferences f)).
Definition with_preferences (g : gmap (str * str * str) NotificationPreference -> gmap (str * str * str) NotificationPreference) : tables -> tables :=
  with_feed (fun f => mkFeed (f_metrics f) (f_logs f) (f_containers f) (f_notifications f) (g (f_preferences f))).
Definition touched (now : Z) (host : option str) (d : Daemon) : Daemon :=
  mkDaemon (dm_ID d) (dm_AccountID d) (dm_WorkspaceID d) (dm_Name d) (dm_SecretHash d) (default (dm_HostID d) host) (dm_Enabled d)
    (dm_TerminalRelayEnabled d) (Some now) (dm_DisconnectedAt d) (dm_CreatedAt d).
Definition set_preference (preference now : Z) (p : NotificationPreference) : NotificationPreference :=
  mkNotificationPreference (np_ID p) (np_AccountID p) (np_WorkspaceID p) (np_DaemonID p) (np_Topic p) preference (np_CreatedAt p) now.
Definition set_read (now : Z) (n : Notification) : Notification :=
  mkNotification (nt_ID n) (nt_AccountID n) (nt_WorkspaceID n) (nt_DaemonID n) (nt_Kind n) (nt_Title n) (nt_Subtitle n) (nt_Body n)
    (nt_Metadata n) (Some now) (nt_CreatedAt n).
Definition set_texts (title body : str) (n : Notification) : Notification :=
  mkNotification (nt_ID n) (nt_AccountID n) (nt_WorkspaceID n) (nt_DaemonID n) (nt_Kind n) title (nt_Subtitle n) body
    (nt_Metadata n) (nt_ReadAt n) (nt_CreatedAt n).
(** [ON CONFLICT ... DO UPDATE]: the workspace and the first sighting of a row stay. *)
Definition resighted (new old : DaemonContainer) : DaemonContainer :=
  mkDaemonContainer (dc_DaemonID old) (dc_ContainerID old) (dc_Runtime new) (dc_WorkspaceID old) (dc_Name new) (dc_Image new)
    (dc_State new) (dc_Status new) (dc_ComposeProject new) (dc_FirstSeenAt old) (dc_LastSeenAt new) (dc_ReceivedAt new).
Definition upsert (m : gmap (str * str) DaemonContainer) (c : DaemonContainer) : gmap (str * str) DaemonContainer :=
  <[container_key c := match m !! container_key c with Some old => resighted c old | None => c end]> m.

(** ** Conditions *)

Definition is_daemon (id : str) (d : Daemon) : bool := bool_decide (dm_ID d = id).
Definition is_down (d : Daemon) : bool := is_Some_b (dm_DisconnectedAt d).
Definition before_ok (before : option Z) (at_ : Z) : bool := match before with Some b => at_ <? b | None => true end.
Definition opt_eq (wanted : option str) (x : str) : bool := match wanted with Some w => bool_decide (x = w) | None => true end.
Definition metric_matches (daemon : str) (before : option Z) (r : DaemonMetric) : bool :=
  bool_decide (mt_DaemonID r = daemon) && before_ok before (mt_SentAt r).
Definition log_matches (daemon : str) (container : option str) (before : option Z) (r : DaemonLog) : bool :=
  bool_decide (lg_DaemonID r = daemon) && opt_eq container (lg_ContainerID r) && before_ok before (lg_Timestamp r).
Definition container_matches (daemon : str) (compose state : option str) (before : option Z) (r : DaemonContainer) : bool :=
  bool_decide (dc_DaemonID r = daemon) && opt_eq compose (dc_ComposeProject r) && opt_eq state (dc_State r) && before_ok before (dc_LastSeenAt r).
Definition gone (daemon : str) (covered ids : list str) (r : DaemonContainer) : bool :=
  bool_decide (dc_DaemonID r = daemon) && (bool_decide (dc_Runtime r ∈ covered) || bool_decide (dc_Runtime r = [])) &&
  negb (bool_decide (dc_ContainerID r ∈ ids)).
Definition notification_matches (workspace : str) (unread : bool) (daemon : option str) (before : option Z) (n : Notification) : bool :=
  bool_decide (nt_WorkspaceID n = workspace) && (negb unread || negb (is_Some_b (nt_ReadAt n))) && opt_eq daemon (nt_DaemonID n) &&
  before_ok before (nt_CreatedAt n).
Definition of_kind (daemon kind : str) (n : Notification) : bool := bool_decide (nt_DaemonID n = daemon) && bool_decide (nt_Kind n = kind).
Definition preference_matches (account workspace : str) (daemon topic : option str) (p : NotificationPreference) : bool :=
  bool_decide (np_AccountID p = account) && bool_decide (np_WorkspaceID p = workspace) && opt_eq daemon (np_DaemonID p) && opt_eq topic (np_Topic p).
(** Whether a daemon with this id is in the workspace. *)
Definition in_workspace (t : tables) (workspace id : str) : bool :=
  match t_daemons t !! id with Some d => bool_decide (dm_WorkspaceID d = workspace) | None => false end.

(** The first rows of [ORDER BY ... LIMIT]. *)
Record window {A} (le : A -> A -> Prop) (stored : A -> Prop) (limit : nat) (l : list A) : Prop := {
  wn_rows : forall r, r ∈ l -> stored r;
  wn_distinct : NoDup l;
  wn_limit : (List.length l <= limit)%nat;
  wn_rest : forall r, stored r -> r ∉ l -> List.length l = limit /\ Forall (fun x => le x r) l;
  wn_sorted : StronglySorted le l;
}.
Definition newer {A} (at_ : A -> Z) (x y : A) : Prop := at_ y <= at_ x.

(** The rows of a table that meet a condition. *)
Definition stored_in `{Countable K} {A} (key : A -> K) (m : gmap K A) (P : A -> bool) (r : A) : Prop := m !! key r = Some r /\ P r = true.

Class FeedDatabase (D : Database) := {
  create_metric : DaemonMetric -> db -> (unit + db_error) * db;
  find_metrics : str -> option Z -> nat -> db -> (list DaemonMetric + db_error) * db;
  latest_metric : str -> db -> (DaemonMetric + db_error) * db;
  create_logs : list DaemonLog -> db -> (unit + db_error) * db;
  find_logs : str -> option str -> option Z -> nat -> db -> (list DaemonLog + db_error) * db;
  upsert_containers : list DaemonContainer -> db -> (unit + db_error) * db;
  drop_containers : str -> list str -> list str -> db -> (unit + db_error) * db;
  find_containers : str -> option str -> option str -> option Z -> nat -> db -> (list DaemonContainer + db_error) * db;
  workspace_ids : db -> (list str + db_error) * db;
  prune_metrics : str -> Z -> db -> (unit + db_error) * db;
  prune_logs : str -> Z -> db -> (unit + db_error) * db;
  prune_containers : str -> Z -> db -> (unit + db_error) * db;
  find_enabled : db -> (list Daemon + db_error) * db;
  touch_daemon : str -> Z -> option str -> db -> (unit + db_error) * db;
  (** the number of rows these two changed *)
  mark_connected : str -> db -> (Z + db_error) * db;
  mark_disconnected : str -> Z -> db -> (Z + db_error) * db;
  create_notification : Notification -> db -> (unit + db_error) * db;
  first_notification : str -> db -> (Notification + db_error) * db;
  last_notification : str -> str -> db -> (Notification + db_error) * db;
  find_notifications : str -> bool -> option str -> option Z -> nat -> db -> (list Notification + db_error) * db;
  read_notification : str -> Z -> db -> (unit + db_error) * db;
  read_notifications : str -> Z -> db -> (unit + db_error) * db;
  update_texts : str -> str -> str -> db -> (unit + db_error) * db;
  notification_kinds : str -> db -> (list str + db_error) * db;
  first_preference : str -> str -> str -> str -> db -> (NotificationPreference + db_error) * db;
  create_preference : NotificationPreference -> db -> (unit + db_error) * db;
  update_preference : str -> Z -> Z -> db -> (unit + db_error) * db;
  find_preferences : str -> str -> option str -> db -> (list NotificationPreference + db_error) * db;
  delete_preferences : str -> str -> str -> option str -> db -> (unit + db_error) * db;
}.


Class FeedLaws (D : Database) (F : FeedDatabase D) : Prop := {
  keyed_metrics : forall s k r, f_metrics (t_feed (rows s)) !! k = Some r -> mt_ID r = k;
  keyed_logs : forall s k r, f_logs (t_feed (rows s)) !! k = Some r -> lg_ID r = k;
  keyed_containers : forall s k r, f_containers (t_feed (rows s)) !! k = Some r -> container_key r = k;
  keyed_notifications : forall s k r, f_notifications (t_feed (rows s)) !! k = Some r -> nt_ID r = k;
  keyed_preferences : forall s k r, f_preferences (t_feed (rows s)) !! k = Some r -> preference_key r = k;
  create_metric_law r : changes (create_metric r)
    (fun t _ t' => f_metrics (t_feed t) !! mt_ID r = None /\ t' = with_metrics <[mt_ID r := r]> t);
  find_metrics_law daemon before limit : queries (find_metrics daemon before limit)
    (fun t l => window (newer mt_SentAt) (stored_in mt_ID (f_metrics (t_feed t)) (metric_matches daemon before)) limit l) (fun _ => False);
  latest_metric_law daemon : queries (latest_metric daemon)
    (fun t r => window (newer mt_SentAt) (stored_in mt_ID (f_metrics (t_feed t)) (metric_matches daemon None)) 1 [r])
    (fun t => forall r, ~ stored_in mt_ID (f_metrics (t_feed t)) (metric_matches daemon None) r);
  create_logs_law l : changes (create_logs l)
    (fun t _ t' => NoDup (lg_ID <$> l) /\ Forall (fun r => f_logs (t_feed t) !! lg_ID r = None) l /\
       t' = with_logs (fun m => list_to_map ((fun r => (lg_ID r, r)) <$> l) ∪ m) t);
  find_logs_law daemon container before limit : queries (find_logs daemon container before limit)
    (fun t l => window (newer lg_Timestamp) (stored_in lg_ID (f_logs (t_feed t)) (log_matches daemon container before)) limit l) (fun _ => False);
  upsert_containers_law l : changes (upsert_containers l) (fun t _ t' => t' = with_containers (fun m => fold_left upsert l m) t);
  drop_containers_law daemon covered ids : changes (drop_containers daemon covered ids)
    (fun t _ t' => t' = with_containers (filter (fun kv => gone daemon covered ids kv.2 = false)) t);
  find_containers_law daemon compose state before limit : queries (find_containers daemon compose state before limit)
    (fun t l => window (newer dc_LastSeenAt) (stored_in container_key (f_containers (t_feed t)) (container_matches daemon compose state before)) limit l)
    (fun _ => False);
  workspace_ids_law : queries workspace_ids
    (fun t l => NoDup l /\ forall w, w ∈ l <-> exists id d, t_daemons t !! id = Some d /\ dm_WorkspaceID d = w) (fun _ => False);
  prune_metrics_law workspace cutoff : changes (prune_metrics workspace cutoff)
    (fun t _ t' => t' = with_metrics (filter (fun kv => in_workspace t workspace (mt_DaemonID kv.2) && (mt_ReceivedAt kv.2 <? cutoff) = false)) t);
  prune_logs_law workspace cutoff : changes (prune_logs workspace cutoff)
    (fun t _ t' => t' = with_logs (filter (fun kv => in_workspace t workspace (lg_DaemonID kv.2) && (lg_ReceivedAt kv.2 <? cutoff) = false)) t);
  prune_containers_law workspace cutoff : changes (prune_containers workspace cutoff)
    (fun t _ t' => t' = with_containers (filter (fun kv => in_workspace t workspace (dc_DaemonID kv.2) && (dc_LastSeenAt kv.2 <? cutoff) = false)) t);
  find_enabled_law : queries find_enabled
    (fun t l => NoDup (dm_ID <$> l) /\ forall d, d ∈ l <-> t_daemons t !! dm_ID d = Some d /\ dm_Enabled d = true) (fun _ => False);
  touch_daemon_law id now host : changes (touch_daemon id now host)
    (fun t _ t' => t' = with_daemons (update_where (is_daemon id) (touched now host)) t);
  mark_connected_law id : changes (mark_connected id)
    (fun t n t' => match t_daemons t !! id with
       | Some d => n = (if is_down d then 1 else 0) /\ t' = with_daemons (update_where (is_daemon id) (set_disconnected None)) t
       | None => n = 0 /\ t' = t
       end);
  mark_disconnected_law id now : changes (mark_disconnected id now)
    (fun t n t' => match t_daemons t !! id with
       | Some d => if is_down d then n = 0 /\ t' = t else n = 1 /\ t' = with_daemons (update_where (is_daemon id) (set_disconnected (Some now))) t
       | None => n = 0 /\ t' = t
       end);
  create_notification_law n : changes (create_notification n)
    (fun t _ t' => f_notifications (t_feed t) !! nt_ID n = None /\ t' = with_notifications <[nt_ID n := n]> t);
  first_notification_law id : queries (first_notification id)
    (fun t n => f_notifications (t_feed t) !! id = Some n) (fun t => f_notifications (t_feed t) !! id = None);
  last_notification_law daemon kind : queries (last_notification daemon kind)
    (fun t n => window (newer nt_CreatedAt) (stored_in nt_ID (f_notifications (t_feed t)) (of_kind daemon kind)) 1 [n])
    (fun t => forall n, ~ stored_in nt_ID (f_notifications (t_feed t)) (of_kind daemon kind) n);
  find_notifications_law workspace unread daemon before limit : queries (find_notifications workspace unread daemon before limit)
    (fun t l => window (newer nt_CreatedAt) (stored_in nt_ID (f_notifications (t_feed t)) (notification_matches workspace unread daemon before)) limit l)
    (fun _ => False);
  read_notification_law id now : changes (read_notification id now)
    (fun t _ t' => t' = with_notifications (update_where (fun n => bool_decide (nt_ID n = id)) (set_read now)) t);
  read_notifications_law workspace now : changes (read_notifications workspace now)
    (fun t _ t' => t' = with_notifications (update_where (notification_matches workspace true None None) (set_read now)) t);
  update_texts_law id title body : changes (update_texts id title body)
    (fun t _ t' => t' = with_notifications (update_where (fun n => bool_decide (nt_ID n = id)) (set_texts title body)) t);
  notification_kinds_law workspace : queries (notification_kinds workspace)
    (fun t l => NoDup l /\ forall k, k ∈ l <-> exists id n, f_notifications (t_feed t) !! id = Some n /\ nt_WorkspaceID n = workspace /\ nt_Kind n = k)
    (fun _ => False);
  first_preference_law account workspace daemon topic : queries (first_preference account workspace daemon topic)
    (fun t p => f_preferences (t_feed t) !! (account, daemon, topic) = Some p /\ np_WorkspaceID p = workspace)
    (fun t => forall p, f_preferences (t_feed t) !! (account, daemon, topic) = Some p -> np_WorkspaceID p <> workspace);
  (** the unique index and the primary key *)
  create_preference_law p : changes (create_preference p)
    (fun t _ t' => f_preferences (t_feed t) !! preference_key p = None /\
       (forall k q, f_preferences (t_feed t) !! k = Some q -> np_ID q <> np_ID p) /\ t' = with_preferences <[preference_key p := p]> t);
  update_preference_law id preference now : changes (update_preference id preference now)
    (fun t _ t' => t' = with_preferences (update_where (fun p => bool_decide (np_ID p = id)) (set_preference preference now)) t);
  find_preferences_law account workspace daemon : queries (find_preferences account workspace daemon)
    (fun t l => forall p, p ∈ l <-> stored_in preference_key (f_preferences (t_feed t)) (preference_matches account workspace daemon None) p)
    (fun _ => False);
  delete_preferences_law account workspace daemon topic : changes (delete_preferences account workspace daemon topic)
    (fun t _ t' => t' = with_preferences (filter (fun kv => preference_matches account workspace (Some daemon) topic kv.2 = false)) t);
}.

(** ** The database of lists *)

Definition set_lf_metrics l (f : list_feed) := mkListFeed l (lf_logs f) (lf_containers f) (lf_notifications f) (lf_preferences f).
Definition set_lf_logs l (f : list_feed) := mkListFeed (lf_metrics f) l (lf_containers f) (lf_notifications f) (lf_preferences f).
Definition set_lf_containers l (f : list_feed) := mkListFeed (lf_metrics f) (lf_logs f) l (lf_notifications f) (lf_preferences f).
Definition set_lf_notifications l (f : list_feed) := mkListFeed (lf_metrics f) (lf_logs f) (lf_containers f) l (lf_preferences f).
Definition set_lf_preferences l (f : list_feed) := mkListFeed (lf_metrics f) (lf_logs f) (lf_containers f) (lf_notifications f) l.
Definition put (g : list_feed -> list_feed) (s : list_db) : list_db := set_ld_feed (g (ld_feed s)) s.
(** The rows that count, those shadowed by a later one of their key left out. *)
Definition live `{Countable K} {A} (key : A -> K) (l : list A) : list A := values (by_key key l).
Definition change {A} (P : A -> bool) (f : A -> A) (l : list A) : list A := (fun x => if P x then f x else x) <$> l.
#[export] Instance newer_dec {A} (at_ : A -> Z) x y : Decision (newer at_ x y).
Proof. unfold newer. apply _. Defined.
#[export] Instance newer_trans {A} (at_ : A -> Z) : Transitive (newer at_).
Proof. unfold newer. intros x y z. lia. Qed.
#[export] Instance newer_total {A} (at_ : A -> Z) : Total (newer at_).
Proof. unfold newer. intros x y. lia. Qed.
Definition in_order {A} (R : A -> A -> Prop) `{forall x y, Decision (R x y)} (P : A -> bool) (limit : nat) (l : list A) : list A :=
  take limit (merge_sort R (filter (fun r => P r = true) l)).
Definition newest {A} (at_ : A -> Z) (P : A -> bool) (limit : nat) (l : list A) : list A := in_order (newer at_) P limit l.
Definition upsert_list (l : list DaemonContainer) (c : DaemonContainer) : list DaemonContainer :=
  match by_key container_key l !! container_key c with Some old => resighted c old | None => c end :: l.

#[export] Instance ListFeed : FeedDatabase ListDatabase := {
  create_metric r s := if bool_decide (f_metrics (t_feed (list_rows s)) !! mt_ID r = None) then done_ tt (put (fun f => set_lf_metrics (r :: lf_metrics f) f) s) else refused s;
  find_metrics daemon before limit s := done_ (newest mt_SentAt (metric_matches daemon before) limit (live mt_ID (lf_metrics (ld_feed s)))) s;
  latest_metric daemon s := ask (head (newest mt_SentAt (metric_matches daemon None) 1 (live mt_ID (lf_metrics (ld_feed s))))) s;
  create_logs l s :=
    if bool_decide (NoDup (lg_ID <$> l)) && forallb (fun r => bool_decide (f_logs (t_feed (list_rows s)) !! lg_ID r = None)) l
    then done_ tt (put (fun f => set_lf_logs (l ++ lf_logs f) f) s) else refused s;
  find_logs daemon container before limit s := done_ (newest lg_Timestamp (log_matches daemon container before) limit (live lg_ID (lf_logs (ld_feed s)))) s;
  upsert_containers l s := done_ tt (put (fun f => set_lf_containers (fold_left upsert_list l (lf_containers f)) f) s);
  drop_containers daemon covered ids s :=
    done_ tt (put (fun f => set_lf_containers (filter (fun c => gone daemon covered ids c = false) (live container_key (lf_containers f))) f) s);
  find_containers daemon compose state before limit s :=
    done_ (newest dc_LastSeenAt (container_matches daemon compose state before) limit (live container_key (lf_containers (ld_feed s)))) s;
  workspace_ids s := done_ (remove_dups (dm_WorkspaceID <$> live dm_ID (ld_daemons s))) s;
  prune_metrics workspace cutoff s :=
    done_ tt (put (fun f => set_lf_metrics (filter (fun r => in_workspace (list_rows s) workspace (mt_DaemonID r) && (mt_ReceivedAt r <? cutoff) = false) (live mt_ID (lf_metrics f))) f) s);
  prune_logs workspace cutoff s :=
    done_ tt (put (fun f => set_lf_logs (filter (fun r => in_workspace (list_rows s) workspace (lg_DaemonID r) && (lg_ReceivedAt r <? cutoff) = false) (live lg_ID (lf_logs f))) f) s);
  prune_containers workspace cutoff s :=
    done_ tt (put (fun f => set_lf_containers (filter (fun r => in_workspace (list_rows s) workspace (dc_DaemonID r) && (dc_LastSeenAt r <? cutoff) = false) (live container_key (lf_containers f))) f) s);
  find_enabled s := done_ (filter (fun d => dm_Enabled d = true) (live dm_ID (ld_daemons s))) s;
  touch_daemon id now host s := done_ tt (set_ld_daemons (change (is_daemon id) (touched now host) (ld_daemons s)) s);
  mark_connected id s :=
    match t_daemons (list_rows s) !! id with
    | Some d => done_ (if is_down d then 1 else 0) (set_ld_daemons (change (is_daemon id) (set_disconnected None) (ld_daemons s)) s)
    | None => done_ 0 s
    end;
  mark_disconnected id now s :=
    match t_daemons (list_rows s) !! id with
    | Some d => if is_down d then done_ 0 s else done_ 1 (set_ld_daemons (change (is_daemon id) (set_disconnected (Some now)) (ld_daemons s)) s)
    | None => done_ 0 s
    end;
  create_notification n s :=
    if bool_decide (f_notifications (t_feed (list_rows s)) !! nt_ID n = None) then done_ tt (put (fun f => set_lf_notifications (n :: lf_notifications f) f) s) else refused s;
  first_notification id s := ask (f_notifications (t_feed (list_rows s)) !! id) s;
  last_notification daemon kind s := ask (head (newest nt_CreatedAt (of_kind daemon kind) 1 (live nt_ID (lf_notifications (ld_feed s))))) s;
  find_notifications workspace unread daemon before limit s :=
    done_ (newest nt_CreatedAt (notification_matches workspace unread daemon before) limit (live nt_ID (lf_notifications (ld_feed s)))) s;
  read_notification id now s := done_ tt (put (fun f => set_lf_notifications (change (fun n => bool_decide (nt_ID n = id)) (set_read now) (lf_notifications f)) f) s);
  read_notifications workspace now s :=
    done_ tt (put (fun f => set_lf_notifications (change (notification_matches workspace true None None) (set_read now) (lf_notifications f)) f) s);
  update_texts id title body s :=
    done_ tt (put (fun f => set_lf_notifications (change (fun n => bool_decide (nt_ID n = id)) (set_texts title body) (lf_notifications f)) f) s);
  notification_kinds workspace s :=
    done_ (remove_dups (nt_Kind <$> filter (fun n => nt_WorkspaceID n = workspace) (live nt_ID (lf_notifications (ld_feed s))))) s;
  first_preference account workspace daemon topic s :=
    ask (match f_preferences (t_feed (list_rows s)) !! (account, daemon, topic) with
         | Some p => if bool_decide (np_WorkspaceID p = workspace) then Some p else None
         | None => None
         end) s;
  create_preference p s :=
    if bool_decide (f_preferences (t_feed (list_rows s)) !! preference_key p = None) &&
       forallb (fun q => negb (bool_decide (np_ID q = np_ID p))) (live preference_key (lf_preferences (ld_feed s)))
    then done_ tt (put (fun f => set_lf_preferences (p :: lf_preferences f) f) s) else refused s;
  update_preference id preference now s :=
    done_ tt (put (fun f => set_lf_preferences (change (fun p => bool_decide (np_ID p = id)) (set_preference preference now) (lf_preferences f)) f) s);
  find_preferences account workspace daemon s :=
    done_ (filter (fun p => preference_matches account workspace daemon None p = true) (live preference_key (lf_preferences (ld_feed s)))) s;
  delete_preferences account workspace daemon topic s :=
    done_ tt (put (fun f => set_lf_preferences (filter (fun p => preference_matches account workspace (Some daemon) topic p = false) (live preference_key (lf_preferences f))) f) s);
}.

Section live.
Context `{Countable K} {A : Type} (key : A -> K).
Implicit Types (l : list A).
Lemma live_keys l : NoDup (key <$> live key l).
Proof. unfold live. rewrite values_keys. apply NoDup_fst_map_to_list. Qed.
Lemma elem_of_live l x : x ∈ live key l <-> by_key key l !! key x = Some x.
Proof. apply elem_of_values. Qed.
Lemma by_key_distinct l k x : NoDup (key <$> l) -> by_key key l !! k = Some x <-> x ∈ l /\ key x = k.
Proof.
  intros Hn. unfold by_key. rewrite <-elem_of_list_to_map by (by rewrite <-list_fmap_compose).
  rewrite list_elem_of_fmap. split; [intros (y & [= -> ->] & Hy); done|]. intros [Hx <-]. by exists x.
Qed.
Lemma by_key_live_filter l (P : A -> Prop) `{forall x, Decision (P x)} :
  by_key key (filter P (live key l)) = filter (fun kv => P kv.2) (by_key key l).
Proof.
  apply map_eq. intros k. apply option_eq. intros x. rewrite by_key_distinct.
  - rewrite list_elem_of_filter, elem_of_live, map_lookup_filter_Some. cbn. split; [intros [[HP Hx] <-]; done|].
    intros [Hx HP]. assert (key x = k) as <- by by eapply by_key_key. done.
  - eapply sublist_NoDup; [apply live_keys|]. apply (fmap_sublist key), filter_sub.
Qed.
Lemma window_in_order (R : A -> A -> Prop) `{forall x y, Decision (R x y)} `{!Transitive R, !Total R} l (P : A -> bool) limit :
  window R (stored_in key (by_key key l) P) limit (in_order R P limit (live key l)).
Proof.
  unfold in_order. set (found := filter (fun r => P r = true) (live key l)).
  assert (Hperm : merge_sort R found ≡ₚ found) by apply merge_sort_Permutation.
  assert (Hin : forall r, r ∈ found <-> stored_in key (by_key key l) P r) by (intros r; unfold found, stored_in; rewrite list_elem_of_filter, elem_of_live; tauto).
  assert (Hsort : StronglySorted R (merge_sort R found)) by (apply StronglySorted_merge_sort; apply _).
  split.
  - intros r Hr. apply Hin. rewrite <-Hperm. by eapply elem_of_submseteq, submseteq_take.
  - eapply sublist_NoDup; [|apply sublist_take]. rewrite Hperm. unfold found. apply NoDup_filter. apply (NoDup_fmap_1 key), live_keys.
  - rewrite length_take. lia.
  - intros r Hr Hn. apply (take_sorted _ limit _ r Hsort); [|done]. rewrite Hperm. by apply Hin.
  - rewrite <-(take_drop limit (merge_sort R found)) in Hsort. by eapply StronglySorted_app_1_l.
Qed.
Lemma window_newest l (P : A -> bool) (at_ : A -> Z) limit :
  window (newer at_) (stored_in key (by_key key l) P) limit (newest at_ P limit (live key l)).
Proof. apply window_in_order; apply _. Qed.
Lemma head_newest l (P : A -> bool) (at_ : A -> Z) :
  match head (newest at_ P 1 (live key l)) with
  | Some r => window (newer at_) (stored_in key (by_key key l) P) 1 [r]
  | None => forall r, ~ stored_in key (by_key key l) P r
  end.
Proof.
  pose proof (window_newest l P at_ 1) as Hw. destruct (newest at_ P 1 (live key l)) as [|r rest] eqn:E; cbn.
  - intros r Hr. destruct (wn_rest _ _ _ _ Hw r Hr) as [Hl _]; [by intros ?%elem_of_nil|discriminate Hl].
  - pose proof (wn_limit _ _ _ _ Hw) as Hl. destruct rest; [done|cbn in Hl; lia].
Qed.
End live.
Lemma by_key_upserts l m : by_key container_key (fold_left upsert_list l m) = fold_left upsert l (by_key container_key m).
Proof.
  revert m. induction l as [|c l IH]; intros m; [done|]. cbn [fold_left]. rewrite IH. f_equal. unfold upsert_list, upsert. rewrite by_key_cons.
  destruct (by_key container_key m !! container_key c) as [old|] eqn:E; [|done]. apply by_key_key in E. by rewrite <-E.
Qed.
Ltac feed_step := intros s r s' [= <- <-];
  unfold rows, ListDatabase, list_rows, put, feed_rows, with_daemons, with_metrics, with_logs, with_containers, with_notifications, with_preferences, with_feed, change;
  cbn [ld_daemons ld_actions ld_requests ld_credentials ld_feed set_ld_feed set_ld_daemons set_lf_metrics set_lf_logs set_lf_containers set_lf_notifications
       set_lf_preferences lf_metrics lf_logs lf_containers lf_notifications lf_preferences t_daemons t_actions t_requests t_credentials t_feed
       f_metrics f_logs f_containers f_notifications f_preferences].
Lemma update_down (f : Daemon -> Daemon) id l : (forall d, dm_ID (f d) = dm_ID d) ->
  by_key dm_ID ((fun x => if is_daemon id x then f x else x) <$> l) = update_where (is_daemon id) f (by_key dm_ID l).
Proof. intros Hf. by apply (by_key_update dm_ID). Qed.
Lemma workspace_ids_list l w : w ∈ remove_dups (dm_WorkspaceID <$> live dm_ID l) <-> exists id d, by_key dm_ID l !! id = Some d /\ dm_WorkspaceID d = w.
Proof.
  rewrite elem_of_remove_dups, list_elem_of_fmap. split.
  - intros (d & -> & Hd%elem_of_live). eauto.
  - intros (id & d & Hd & <-). exists d. split; [done|]. apply elem_of_live. by rewrite (by_key_key _ _ _ _ Hd).
Qed.
Lemma kinds_list l workspace k : k ∈ remove_dups (nt_Kind <$> filter (fun n => nt_WorkspaceID n = workspace) (live nt_ID l)) <->
  exists id n, by_key nt_ID l !! id = Some n /\ nt_WorkspaceID n = workspace /\ nt_Kind n = k.
Proof.
  rewrite elem_of_remove_dups, list_elem_of_fmap. setoid_rewrite list_elem_of_filter. setoid_rewrite elem_of_live. split.
  - intros (n & -> & Hw & Hn). eauto.
  - intros (id & n & Hn & Hw & <-). exists n. split_and!; [done..|]. by rewrite (by_key_key _ _ _ _ Hn).
Qed.
Lemma create_preference_list p : changes (H := ListDatabase) (create_preference p)
  (fun t _ t' => f_preferences (t_feed t) !! preference_key p = None /\
     (forall k q, f_preferences (t_feed t) !! k = Some q -> np_ID q <> np_ID p) /\ t' = with_preferences <[preference_key p := p]> t).
Proof.
  intros s r s'. cbn. case_bool_decide as Hk; cbn; [|by intros [= <- <-]]. destruct (forallb _ _) eqn:Ef; intros [= <- <-]; [|done].
  split_and!; [done| |done]. intros k q Hq Hid. apply Forall_forallb in Ef. rewrite Forall_forall in Ef.
  specialize (Ef q). rewrite bool_decide_true in Ef by done. discriminate Ef. apply elem_of_live. by rewrite (by_key_key _ _ _ _ Hq).
Qed.
Lemma create_logs_list l : changes (H := ListDatabase) (create_logs l)
  (fun t _ t' => NoDup (lg_ID <$> l) /\ Forall (fun r => f_logs (t_feed t) !! lg_ID r = None) l /\
     t' = with_logs (fun m => list_to_map ((fun r => (lg_ID r, r)) <$> l) ∪ m) t).
Proof.
  intros s r s'. cbn -[by_key]. case_bool_decide as Hn; cbn [andb]; [|by intros [= <- <-]]. destruct (forallb _ _) eqn:Ef; intros [= <- <-]; [|done].
  split_and!; [done| |].
  - apply Forall_forallb in Ef. eapply Forall_impl; [exact Ef|]. intros x Hx. by apply bool_decide_eq_true in Hx.
  - unfold with_logs, with_feed, put, set_ld_feed, list_rows, feed_rows, set_lf_logs. cbn [ld_feed lf_logs lf_metrics lf_containers lf_notifications lf_preferences f_logs f_metrics f_containers f_notifications f_preferences t_feed t_daemons t_actions t_requests t_credentials ld_daemons ld_actions ld_requests ld_credentials].
    do 2 f_equal. unfold by_key. by rewrite fmap_app, list_to_map_app.
Qed.
#[export] Instance ListFeedLaws : FeedLaws ListDatabase ListFeed.
Proof.
  split; try (intros s k r Hr; by apply by_key_key in Hr);
    try (intros ? s res s'; cbn; case_bool_decide; intros [= <- <-]; done);
    try (intros; intros s res s' [= <- <-]; split; [done|apply window_newest]).
  - intros daemon s r s' [= <- <-]. split; [done|]. pose proof (head_newest mt_ID (lf_metrics (ld_feed s)) (metric_matches daemon None) mt_SentAt) as Hh.
    destruct (head _); exact Hh.
  - intros l. apply create_logs_list.
  - intros l. feed_step. by rewrite by_key_upserts.
  - intros daemon covered ids. feed_step. by rewrite (by_key_live_filter container_key _ (fun c => gone daemon covered ids c = false)).
  - intros s r s' [= <- <-]. split; [done|]. split; [apply NoDup_remove_dups|]. intros w. apply workspace_ids_list.
  - intros w cutoff. feed_step. by rewrite (by_key_live_filter mt_ID _ (fun r => in_workspace _ w (mt_DaemonID r) && (mt_ReceivedAt r <? cutoff) = false)).
  - intros w cutoff. feed_step. by rewrite (by_key_live_filter lg_ID _ (fun r => in_workspace _ w (lg_DaemonID r) && (lg_ReceivedAt r <? cutoff) = false)).
  - intros w cutoff. feed_step. by rewrite (by_key_live_filter container_key _ (fun r => in_workspace _ w (dc_DaemonID r) && (dc_LastSeenAt r <? cutoff) = false)).
  - intros s r s' [= <- <-]. split; [done|]. split.
    + eapply sublist_NoDup; [apply (live_keys dm_ID (ld_daemons s))|]. apply (fmap_sublist dm_ID), filter_sub.
    + intros d. apply (find_law dm_ID).
  - intros id now host. feed_step. by rewrite update_down.
  - intros id s r s'. cbn. destruct (by_key dm_ID (ld_daemons s) !! id) as [d|]; intros [= <- <-]; [|done]. split; [done|].
    unfold with_daemons, list_rows, set_ld_daemons, change. cbn [ld_daemons t_daemons t_actions t_requests t_credentials t_feed ld_actions ld_requests ld_credentials ld_feed]. by rewrite update_down.
  - intros id now s r s'. cbn. destruct (by_key dm_ID (ld_daemons s) !! id) as [d|]; [|by intros [= <- <-]]. destruct (is_down d); intros [= <- <-]; [done|]. split; [done|].
    unfold with_daemons, list_rows, set_ld_daemons, change. cbn [ld_daemons t_daemons t_actions t_requests t_credentials t_feed ld_actions ld_requests ld_credentials ld_feed]. by rewrite update_down.
  - intros id s r s' [= <- <-]. split; [done|]. cbn. by destruct (by_key nt_ID (lf_notifications (ld_feed s)) !! id).
  - intros daemon kind s r s' [= <- <-]. split; [done|].
    pose proof (head_newest nt_ID (lf_notifications (ld_feed s)) (of_kind daemon kind) nt_CreatedAt) as Hh. destruct (head _); exact Hh.
  - intros id now. feed_step. by rewrite (by_key_update nt_ID (fun n => bool_decide (nt_ID n = id)) (set_read now)).
  - intros w now. feed_step. by rewrite (by_key_update nt_ID (notification_matches w true None None) (set_read now)).
  - intros id title body. feed_step. by rewrite (by_key_update nt_ID (fun n => bool_decide (nt_ID n = id)) (set_texts title body)).
  - intros w s r s' [= <- <-]. split; [done|]. split; [apply NoDup_remove_dups|]. intros k. apply kinds_list.
  - intros account w daemon topic s r s' [= <- <-]. split; [done|]. cbn. destruct (by_key preference_key (lf_preferences (ld_feed s)) !! (account, daemon, topic)) as [p|]; [|done].
    cbn. case_bool_decide as Hw; cbn; [done|]. by intros q [= <-].
  - intros p. apply create_preference_list.
  - intros id preference now. feed_step. by rewrite (by_key_update preference_key (fun p => bool_decide (np_ID p = id)) (set_preference preference now)).
  - intros account w daemon s r s' [= <- <-]. split; [done|]. intros p. apply (find_law preference_key).
  - intros account w daemon topic. feed_step. by rewrite (by_key_live_filter preference_key _ (fun p => preference_matches account w (Some daemon) topic p = false)).
Qed.
