(* ===== verification/Localize.v ===== *)
(** * Localize: the texts of alarms

    [internal/cloud/localization.go]: the messages in three languages, the choice of a
    language, and the filling of the placeholders. Go ranges over the map of arguments
    in no fixed order, so the order is an argument; the theorem says when it does not
    matter. Values are those JSON decodes to, and the integers the service puts in; how [fmt] prints a float with [%v] is an
    argument. *)

From Stdlib Require Import SpecFloat.
From S2P Require Import Prelude GoStr.
Open Scope Z_scope.

(** ** Values *)

Inductive any :=
  | ANil | ABool (b : bool) | AInt (n : Z) | AFloat (x : spec_float) | AString (s : str) | AList (l : list any) | AMap (m : list (str * any)).
(** [m[key]]: nil when there is none. *)
Definition index (m : gmap str any) (key : string) : any := default ANil (m !! ($key)).
(** How [fmt] prints a float with [%v]. *)
Class FloatText := { float_text : spec_float -> str }.

(** [strings.ReplaceAll], for a text to replace that is not empty. *)
Fixpoint replace_from (skip : nat) (old new s : str) : str :=
  match s with
  | [] => []
  | c :: r =>
      match skip with
      | S skip => replace_from skip old new r
      | O => if HasPrefix s old then new ++ replace_from (List.length old - 1) old new r else c :: replace_from 0 old new r
      end
  end.
Definition ReplaceAll (s old new : str) : str := replace_from 0 old new s.

(** [%.2f]: the exact value to the nearest hundredth, ties to even. *)
Definition round_even (n d : Z) : Z :=
  let q := n / d in let r := n mod d in
  if 2 * r <? d then q else if d <? 2 * r then q + 1 else if Z.even q then q else q + 1.
Definition hundredths (m : positive) (e : Z) : Z :=
  if 0 <=? e then 100 * Zpos m * 2 ^ e else round_even (100 * Zpos m) (2 ^ (- e)).
Definition decimal (n : Z) : str := decimal_digits (S (Z.to_nat (Z.log2 n))) n.
Definition fixed2 (neg : bool) (h : Z) : str :=
  (if neg then $"-" else []) ++ decimal (h / 100) ++ $"." ++ fmt_d (h mod 100 / 10) ++ fmt_d (h mod 10).
Definition Sprintf_2f (x : spec_float) : str :=
  match x with
  | S754_zero neg => fixed2 neg 0
  | S754_infinity neg => if neg then $"-Inf" else $"+Inf"
  | S754_nan => $"NaN"
  | S754_finite neg m e => fixed2 neg (hundredths m e)
  end.

Section localize.
Context `{Unicode, FloatText}.
(** [fmt.Sprint] of a value; a map is printed in the order of its keys. *)
Fixpoint Sprint (v : any) : str :=
  match v with
  | ANil => $"<nil>"
  | ABool b => if b then $"true" else $"false"
  | AInt n => fmt_d n
  | AFloat x => float_text x
  | AString s => s
  | AList l => $"[" ++ join ($" ") (Sprint <$> l) ++ $"]"
  | AMap m => $"map[" ++ join ($" ") ((fun kv => kv.1 ++ $":" ++ kv.2) <$> merge_sort (fun x y => str_le x.1 y.1) ((fun kv => (kv.1, Sprint kv.2)) <$> m)) ++ $"]"
  end.
Definition alarmMessages : list (str * list (str * str)) := [
  ($"en", [
    ($"cpu_percent.title", $"CPU threshold exceeded");
    ($"cpu_percent.body", $"CPU usage reached {value}% (threshold {threshold}%).");
    ($"memory_used_percent.title", $"Memory threshold exceeded");
    ($"memory_used_percent.body", $"Memory usage reached {value}% (threshold {threshold}%).");
    ($"disk_used_percent.title", $"Disk threshold exceeded");
    ($"disk_used_percent.body", $"Disk usage reached {value}% (threshold {threshold}%).");
    ($"container_down.title", $"Container is down");
    ($"container_down.body", $"Container {name} is {state}.");
    ($"disconnected.title", $"Daemon disconnected");
    ($"disconnected.body", $"No metrics received for {age}; last seen at {last_seen}.");
    ($"reconnected.title", $"Daemon reconnected");
    ($"reconnected.body", $"Metrics resumed after {downtime}.");
    ($"webhook.success.title", $"Webhook {name} completed");
    ($"webhook.success.body", $"{body}");
    ($"webhook.failure.title", $"Webhook {name} failed");
    ($"webhook.failure.body", $"{body}")]);
  ($"zh-cn", [
    ($"cpu_percent.title", $"CPU 已超过阈值");
    ($"cpu_percent.body", $"CPU 使用率达到 {value}%（阈值 {threshold}%）。");
    ($"memory_used_percent.title", $"内存已超过阈值");
    ($"memory_used_percent.body", $"内存使用率达到 {value}%（阈值 {threshold}%）。");
    ($"disk_used_percent.title", $"磁盘已超过阈值");
    ($"disk_used_percent.body", $"磁盘使用率达到 {value}%（阈值 {threshold}%）。");
    ($"container_down.title", $"容器已停止");
    ($"container_down.body", $"容器 {name} 当前状态为 {state}。");
    ($"webhook.success.title", $"Webhook {name} 已完成");
    ($"webhook.success.body", $"{body}");
    ($"webhook.failure.title", $"Webhook {name} 执行失败");
    ($"webhook.failure.body", $"{body}");
    ($"disconnected.title", $"守护进程已断开连接");
    ($"disconnected.body", $"已有 {age} 未收到指标；最后上报时间为 {last_seen}。");
    ($"reconnected.title", $"守护进程已重新连接");
    ($"reconnected.body", $"指标已恢复上报，间隔 {downtime}。")]);
  ($"zh-tw", [
    ($"cpu_percent.title", $"CPU 已超過閾值");
    ($"cpu_percent.body", $"CPU 使用率達到 {value}%（閾值 {threshold}%）。");
    ($"memory_used_percent.title", $"記憶體已超過閾值");
    ($"memory_used_percent.body", $"記憶體使用率達到 {value}%（閾值 {threshold}%）。");
    ($"webhook.success.title", $"Webhook {name} 已完成");
    ($"webhook.success.body", $"{body}");
    ($"webhook.failure.title", $"Webhook {name} 執行失敗");
    ($"webhook.failure.body", $"{body}");
    ($"disk_used_percent.title", $"磁碟已超過閾值");
    ($"disk_used_percent.body", $"磁碟使用率達到 {value}%（閾值 {threshold}%）。");
    ($"container_down.title", $"容器已停止");
    ($"container_down.body", $"容器 {name} 目前狀態為 {state}。");
    ($"reconnected.title", $"守護程式已重新連線");
    ($"reconnected.body", $"指標已恢復回報，間隔 {downtime}。");
    ($"disconnected.title", $"守護程式已中斷連線");
    ($"disconnected.body", $"已有 {age} 未收到指標；最後回報時間為 {last_seen}。")])].

Fixpoint assoc {A} (key : str) (l : list (str * A)) : option A :=
  match l with [] => None | (k, v) :: l => if bool_decide (k = key) then Some v else assoc key l end.
Definition normalizeAlarmLocale (language : str) : str :=
  let language := ToLower (TrimSpace language) in
  if HasPrefix language ($"zh-tw") || HasPrefix language ($"zh-hk") then $"zh-tw"
  else if HasPrefix language ($"zh-cn") || HasPrefix language ($"zh-sg") || HasPrefix language ($"zh-hans") || HasPrefix language ($"zh") then $"zh-cn"
  else $"en".
Definition formatAlarmValue (value : any) : str := match value with AFloat number => Sprintf_2f number | _ => Sprint value end.
Definition alarm_kind (kind : str) : str :=
  if HasPrefix kind ($"daemon.alarm.") then TrimPrefix kind ($"daemon.alarm.") else TrimPrefix kind ($"daemon.").
Definition alarm_messages (language : str) : list (str * str) :=
  match assoc (normalizeAlarmLocale language) alarmMessages with Some messages => messages | None => default [] (assoc ($"en") alarmMessages) end.
(** The title and the body before the placeholders are filled. *)
Definition alarm_templates (language kind : str) : option (str * str) :=
  let messages := alarm_messages language in let kind := alarm_kind kind in
  match assoc (kind ++ $".title") messages, assoc (kind ++ $".body") messages with
  | Some title, Some body => Some (title, body)
  | _, _ => None
  end.
Definition or_nil (a b : any) : any := match a with ANil => b | _ => a end.
Definition alarm_args (metadata : gmap str any) : list (str * str) :=
  let name := or_nil (or_nil (index metadata "container_name") (index metadata "display_name")) (index metadata "name") in
  [($"value", formatAlarmValue (index metadata "value"));
   ($"threshold", formatAlarmValue (index metadata "threshold"));
   ($"name", Sprint name);
   ($"state", Sprint (index metadata "state"));
   ($"age", Sprint (index metadata "age"));
   ($"last_seen", Sprint (index metadata "last_seen"));
   ($"downtime", Sprint (index metadata "downtime"));
   ($"body", Sprint (index metadata "body"))].
Definition placeholder (name : str) : str := $"{" ++ name ++ $"}".
Definition fill (text : str) (args : list (str * str)) : str :=
  fold_left (fun text (arg : str * str) => ReplaceAll text (placeholder arg.1) arg.2) args text.
(** [order] is the order the map of arguments is ranged over. *)
Definition localizeAlarm (order : list (str * str) -> list (str * str)) (language kind : str) (metadata : gmap str any) : option (str * str) :=
  match alarm_templates language kind with
  | None => None
  | Some (title, body) => let args := order (alarm_args metadata) in Some (fill title args, fill body args)
  end.
End localize.

(** ** Filling all placeholders at once *)

Definition open_brace : ascii := ch "{".
Definition close_brace : ascii := ch "}".
Inductive segment := Lit (c : ascii) | Hole (name : str).
Fixpoint parse_template (fuel : nat) (s : str) : list segment :=
  match fuel, s with
  | S fuel, c :: r =>
      if bool_decide (c = open_brace) then
        match cut close_brace r with
        | Some (name, rest) => Hole name :: parse_template fuel rest
        | None => Lit c :: parse_template fuel r
        end
      else Lit c :: parse_template fuel r
  | _, _ => []
  end.
Definition template (s : str) : list segment := parse_template (List.length s) s.
Definition segment_text (args : list (str * str)) (x : segment) : str :=
  match x with Lit c => [c] | Hole name => default (placeholder name) (assoc name args) end.
Definition render (args : list (str * str)) (t : list segment) : str := concat (segment_text args <$> t).
Definition plain (s : str) : Prop := open_brace ∉ s /\ close_brace ∉ s.
Definition segment_ok (x : segment) : Prop := match x with Lit c => c <> open_brace | Hole name => plain name end.
#[export] Instance plain_dec s : Decision (plain s).
Proof. unfold plain. apply _. Defined.
#[export] Instance segment_ok_dec x : Decision (segment_ok x).
Proof. destruct x; cbn; apply _. Defined.

Lemma ReplaceAll_nil old new : ReplaceAll [] old new = [].
Proof. done. Qed.
Lemma replace_skip k old new s : replace_from k old new s = replace_from 0 old new (drop k s).
Proof. revert k. induction s as [|c s IH]; intros [|k]; cbn [replace_from drop]; done. Qed.
(** An occurrence at the front is replaced. *)
Lemma ReplaceAll_hit old new s : old <> [] -> ReplaceAll (old ++ s) old new = new ++ ReplaceAll s old new.
Proof.
  intros Ho. destruct old as [|c old]; [done|]. unfold ReplaceAll. cbn [app replace_from]. unfold HasPrefix. rewrite bool_decide_true by (by exists s).
  rewrite replace_skip. cbn [List.length]. replace (S (List.length old) - 1)%nat with (List.length old) by lia. by rewrite drop_app_length.
Qed.
Lemma ReplaceAll_miss old new c s : HasPrefix (c :: s) old = false -> ReplaceAll (c :: s) old new = c :: ReplaceAll s old new.
Proof. unfold ReplaceAll. cbn [replace_from]. by intros ->. Qed.
(** A text without the first character of what is replaced stays. *)
Lemma ReplaceAll_plain name new a s : open_brace ∉ a -> ReplaceAll (a ++ s) (placeholder name) new = a ++ ReplaceAll s (placeholder name) new.
Proof.
  induction a as [|c a IH]; intros Ha; [done|]. apply not_elem_of_cons in Ha as [Hc Ha]. cbn [app]. rewrite ReplaceAll_miss, IH; [done..|].
  apply bool_decide_false. intros [k Hk]. injection Hk as Hc' _. by subst c.
Qed.
Lemma app_close_inj (m n s k : str) : close_brace ∉ m -> close_brace ∉ n -> m ++ close_brace :: s = n ++ close_brace :: k -> m = n.
Proof.
  revert n. induction m as [|c m IH]; intros [|d n] Hm Hn He; cbn in He; try done.
  - injection He as He _. apply not_elem_of_cons in Hn as [Hd _]. by destruct Hd.
  - injection He as He _. apply not_elem_of_cons in Hm as [Hc _]. by destruct Hc.
  - injection He as -> He. apply not_elem_of_cons in Hm as [_ Hm]. apply not_elem_of_cons in Hn as [_ Hn]. f_equal. by eapply IH.
Qed.
Lemma placeholder_cons name : placeholder name = open_brace :: (name ++ [close_brace]).
Proof. done. Qed.
(** Another placeholder stays. *)
Lemma ReplaceAll_other name m new s : plain name -> plain m -> m <> name ->
  ReplaceAll (placeholder m ++ s) (placeholder name) new = placeholder m ++ ReplaceAll s (placeholder name) new.
Proof.
  intros [Hn1 Hn2] [Hm1 Hm2] Hmn. rewrite (placeholder_cons m). cbn [app]. rewrite ReplaceAll_miss.
  - f_equal. apply ReplaceAll_plain. rewrite not_elem_of_app. split; [done|]. rewrite list_elem_of_singleton. done.
  - apply bool_decide_false. rewrite placeholder_cons. intros [k Hk]. injection Hk as Hk. rewrite <-!(assoc_L (++)) in Hk. cbn in Hk.
    by apply app_close_inj in Hk.
Qed.
Lemma assoc_app {A} name (l k : list (str * A)) : assoc name (l ++ k) = match assoc name l with Some v => Some v | None => assoc name k end.
Proof. induction l as [|[m v] l IH]; [done|]. cbn. by case_bool_decide. Qed.
Lemma assoc_in {A} name (l : list (str * A)) v : assoc name l = Some v -> (name, v) ∈ l.
Proof. induction l as [|[m w] l IH]; [done|]. cbn. case_bool_decide as Hm; [intros [= ->]; subst; left|intros Hl; right; auto]. Qed.
Lemma assoc_none {A} name (l : list (str * A)) : name ∉ l.*1 -> assoc name l = None.
Proof. induction l as [|[m w] l IH]; [done|]. cbn. rewrite not_elem_of_cons. intros [Hm Hl]. rewrite bool_decide_false by congruence. auto. Qed.
Lemma assoc_nodup {A} name (l : list (str * A)) v : NoDup l.*1 -> (name, v) ∈ l -> assoc name l = Some v.
Proof.
  intros Hn Hl. destruct (assoc name l) as [w|] eqn:E.
  - apply assoc_in in E. f_equal. apply list_elem_of_lookup in E as [i Hi], Hl as [j Hj].
    assert (i = j) as <-; [|congruence]. eapply NoDup_lookup; [exact Hn| |]; rewrite list_lookup_fmap; [rewrite Hi|rewrite Hj]; done.
  - exfalso. revert E Hl. clear Hn. induction l as [|[m w] l IH]; [by intros _ ?%elem_of_nil|]. cbn. case_bool_decide as Hm; [done|].
    intros E [[= -> ->]|Hl]%elem_of_cons; auto.
Qed.
#[local] Arguments placeholder : simpl never.
#[local] Arguments ReplaceAll : simpl never.
(** One more placeholder filled. *)
Lemma ReplaceAll_render args name v t : Forall (fun a => open_brace ∉ a.2) args -> plain name -> assoc name args = None -> Forall segment_ok t ->
  ReplaceAll (render args t) (placeholder name) v = render (args ++ [(name, v)]) t.
Proof.
  intros Ha Hn Hname. induction 1 as [|x t Hx _ IH]; [done|]. unfold render in *. cbn [fmap list_fmap concat]. destruct x as [c|m]; cbn [segment_text segment_ok] in *.
  - rewrite (ReplaceAll_plain _ _ [c]); [by rewrite IH|]. rewrite list_elem_of_singleton. congruence.
  - rewrite assoc_app. destruct (assoc m args) as [w|] eqn:Em.
    + cbn [default]. rewrite ReplaceAll_plain; [by rewrite IH|]. apply assoc_in in Em. rewrite Forall_forall in Ha. by apply (Ha (m, w)).
    + cbn. case_bool_decide as Hm.
      * subst m. cbn. rewrite ReplaceAll_hit by done. by rewrite IH.
      * cbn. rewrite ReplaceAll_other by congruence || done. by rewrite IH.
Qed.
Lemma fill_render args done_args t : Forall (fun a => open_brace ∉ a.2) (done_args ++ args) -> Forall (fun a => plain a.1) args ->
  NoDup ((done_args ++ args).*1) -> Forall segment_ok t -> fill (render done_args t) args = render (done_args ++ args) t.
Proof.
  intros Hv Hp Hd Ht. revert done_args Hv Hd. induction args as [|[name v] args IH]; intros da Hv Hd; [by rewrite app_nil_r|].
  apply Forall_cons in Hp as [Hn Hp]. cbn in Hn. unfold fill in *. cbn [fold_left fst snd]. rewrite ReplaceAll_render; [| |done| |done].
  - rewrite (IH Hp); rewrite <-?(assoc_L (++)); done.
  - by apply Forall_app in Hv as [Hv _].
  - apply assoc_none. rewrite fmap_app in Hd. apply NoDup_app in Hd as (_ & Hd & _). intros Hin. apply (Hd name Hin). left.
Qed.
Lemma render_perm args args' t : args ≡ₚ args' -> NoDup args.*1 -> render args t = render args' t.
Proof.
  intros Hp Hn. unfold render. f_equal. apply list_fmap_ext. intros _ [c|m] _; [done|]. cbn. f_equal.
  destruct (assoc m args) as [v|] eqn:E.
  - symmetry. apply assoc_nodup; [by rewrite <-Hp|]. rewrite <-Hp. by apply assoc_in.
  - destruct (assoc m args') as [v|] eqn:E'; [|done]. apply assoc_in in E'. rewrite <-Hp in E'. apply (assoc_nodup _ _ _ Hn) in E'. congruence.
Qed.

(** ** The localized texts *)

Section texts.
Context `{Unicode, FloatText}.
Definition all_messages : list str := ((fun kv => kv.2) <$> (alarmMessages ≫= snd)).
Lemma messages_ok : Forall (fun s => render [] (template s) = s /\ Forall segment_ok (template s)) all_messages.
Proof. apply (bool_decide_unpack _). vm_compute. exact I. Qed.
Lemma alarm_messages_in language key v : assoc key (alarm_messages language) = Some v -> v ∈ all_messages.
Proof.
  intros Hv. apply assoc_in in Hv. unfold alarm_messages in Hv. unfold all_messages. apply list_elem_of_fmap. exists (key, v). split; [done|].
  apply list_elem_of_bind. destruct (assoc (normalizeAlarmLocale language) alarmMessages) as [l|] eqn:E.
  - apply assoc_in in E. by exists (normalizeAlarmLocale language, l).
  - destruct (assoc ($"en") alarmMessages) as [l|] eqn:E'; [|by apply elem_of_nil in Hv]. apply assoc_in in E'. by exists ($"en", l).
Qed.
Lemma alarm_templates_in language kind title body : alarm_templates language kind = Some (title, body) -> title ∈ all_messages /\ body ∈ all_messages.
Proof.
  unfold alarm_templates. destruct (assoc _ _) as [t|] eqn:Et; [|done]. destruct (assoc (_ ++ $".body") _) as [b|] eqn:Eb; [|done].
  intros [= <- <-]. eauto using alarm_messages_in.
Qed.
Lemma alarm_args_names md : NoDup (alarm_args md).*1 /\ Forall (fun a => plain a.1) (alarm_args md).
Proof.
  assert (Hn : (alarm_args md).*1 = (alarm_args ∅).*1) by done. split.
  - rewrite Hn. apply (bool_decide_unpack _). vm_compute. exact I.
  - change (Forall (plain ∘ fst) (alarm_args md)). rewrite <-Forall_fmap, Hn. apply (bool_decide_unpack _). vm_compute. exact I.
Qed.
Lemma fill_message order md m : (forall l, order l ≡ₚ l) -> Forall (fun a => open_brace ∉ a.2) (alarm_args md) -> m ∈ all_messages ->
  fill m (order (alarm_args md)) = render (alarm_args md) (template m).
Proof.
  intros Ho Hv Hm. pose proof messages_ok as Hok. rewrite Forall_forall in Hok. destruct (Hok m Hm) as [Hr Hs].
  destruct (alarm_args_names md) as [Hn Hp]. rewrite <-Hr at 1. rewrite fill_render; cbn [app]; rewrite ?Ho; try done.
  symmetry. apply render_perm; [by symmetry|done].
Qed.
Lemma assoc_some {A} key (l : list (str * A)) : is_Some (assoc key l) <-> key ∈ l.*1.
Proof.
  split; [intros [v Hv%assoc_in]; apply list_elem_of_fmap; by exists (key, v)|]. intros Hk. destruct (assoc key l) as [v|] eqn:E; [by exists v|].
  exfalso. revert E Hk. induction l as [|[m w] l IH]; [by intros _ ?%elem_of_nil|]. cbn. case_bool_decide as Hm; [done|]. intros E [->|Hk]%elem_of_cons; [done|auto].
Qed.
Lemma same_keys language : (alarm_messages language).*1 ≡ₚ (default [] (assoc ($"en") alarmMessages)).*1.
Proof.
  unfold alarm_messages, normalizeAlarmLocale. generalize (ToLower (TrimSpace language)). intros l.
  destruct (HasPrefix l ($"zh-tw") || HasPrefix l ($"zh-hk")); [apply (bool_decide_unpack _); vm_compute; exact I|].
  destruct (HasPrefix l ($"zh-cn") || _ || _ || _); apply (bool_decide_unpack _); vm_compute; exact I.
Qed.

(** An alarm has its texts in every language or in none. When no argument holds an
    opening brace they are the language's messages with every placeholder replaced at
    once by its argument, whatever order the map of arguments is ranged over; but an
    argument that looks like a placeholder, such as the output of a webhook, is filled
    in or not depending on that order. *)
Theorem localizeAlarm_exact (order : list (str * str) -> list (str * str)) language kind md : (forall l, order l ≡ₚ l) ->
  (Forall (fun a => open_brace ∉ a.2) (alarm_args md) ->
   localizeAlarm order language kind md =
     (fun texts => (render (alarm_args md) (template texts.1), render (alarm_args md) (template texts.2))) <$> alarm_templates language kind) /\
  (is_Some (localizeAlarm order language kind md) <-> is_Some (alarm_templates ($"en") kind)) /\
  (exists order' md', (forall l, order' l ≡ₚ l) /\ localizeAlarm order' ($"en") ($"webhook.success") md' <> localizeAlarm (fun l => l) ($"en") ($"webhook.success") md').
Proof.
  intros Ho. split; [|split].
  - intros Hv. unfold localizeAlarm. destruct (alarm_templates language kind) as [[title body]|] eqn:E; [|done].
    apply alarm_templates_in in E as [Ht Hb]. cbn. by rewrite !fill_message.
  - transitivity (is_Some (alarm_templates language kind)).
    { unfold localizeAlarm. destruct (alarm_templates language kind) as [[]|]; [|done]. split; by eexists. }
    assert (Hk : forall k, is_Some (assoc k (alarm_messages language)) <-> is_Some (assoc k (alarm_messages ($"en")))).
    { intros k. rewrite !assoc_some. by rewrite (same_keys language), (same_keys ($"en")). }
    assert (Hs : forall lang, is_Some (alarm_templates lang kind) <->
      is_Some (assoc (alarm_kind kind ++ $".title") (alarm_messages lang)) /\ is_Some (assoc (alarm_kind kind ++ $".body") (alarm_messages lang))).
    { intros lang. unfold alarm_templates. destruct (assoc _ _); [|split; [by intros [? [=]]|by intros [[? [=]] _]]].
      destruct (assoc _ _); split; [done| |by intros [? [=]]|by intros [_ [? [=]]]]. intros _. by eexists. }
    by rewrite !Hs, !Hk.
  - exists (@rev (str * str)), {[ $"body" := AString ($"{state}") ]}. split; [intros l; symmetry; apply Permutation_rev|]. vm_compute. discriminate.
Qed.
End texts.

(** ** An alarm in Traditional Chinese *)

Definition demo_unicode : Unicode := {| unicode_ToLower s := s; unicode_Quote s := s |}.
Definition demo_floats : FloatText := {| float_text _ := $"?" |}.
#[local] Existing Instance demo_unicode.
#[local] Existing Instance demo_floats.
(** 90 and 93.4375 *)
Definition demo_values : gmap str any :=
  {[ $"value" := AFloat (S754_finite false 5980 (-6)); $"threshold" := AFloat (S754_finite false 45 1) ]}.
Lemma localizeAlarm_exact_witness :
  localizeAlarm (@rev _) ($" zh-HK ") ($"daemon.alarm.cpu_percent") demo_values = Some ($"CPU 已超過閾值", $"CPU 使用率達到 93.44%（閾值 90.00%）。") /\
  (fun texts => (render (alarm_args demo_values) (template texts.1), render (alarm_args demo_values) (template texts.2))) <$>
    alarm_templates ($" zh-HK ") ($"daemon.alarm.cpu_percent") = Some ($"CPU 已超過閾值", $"CPU 使用率達到 93.44%（閾值 90.00%）。").
Proof.
  split; [vm_compute; reflexivity|]. rewrite <-(proj1 (localizeAlarm_exact (@rev _) ($" zh-HK ") ($"daemon.alarm.cpu_percent") demo_values (fun l => symmetry (Permutation_rev l)))).
  - vm_compute. reflexivity.
  - apply (bool_decide_unpack _). vm_compute. exact I.
Defined.
