(* ===== verification/Cloud.v ===== *)
(** * Cloud: accounts, daemons and the relay queue of the cloud service

    [internal/cloud/service.go], the parts that decide who may do what: membership of
    a workspace, the life of a daemon and its secret, the reported actions, the
    workspace quotas, the credentials, and the queue through which webhooks and
    actions reach a daemon. A service function takes what it asks of its surroundings
    (the clock, the generators, the workspace service) as a [Call] and acts on the
    database of [CloudDB]. Calls are taken one after the other. *)

From S2P Require Import Prelude GoStr GoMatch Base64 Alarms CloudDB.
Open Scope Z_scope.

(** ** Surroundings *)

Definition ErrUnauthorized : error := Errorf "unauthorized" [].
Definition ErrNotFound : error := Errorf "not found" [].
Definition ErrForbidden : error := Errorf "forbidden" [].
Definition ErrRateLimited : error := Errorf "rate limited" [].

(** [WorkspaceClient], the service of another program. *)
Record WorkspaceClient := mkWorkspaceClient {
  IsMemberWithRole : str -> str -> list Z -> res bool;
  GetPlanQuota : str -> res (gmap str Z);
}.
(** What one call gets from its surroundings: the time, [uuid.NewRandom], 32 random
    bytes as text ([generateSecret]), [bcrypt.GenerateFromPassword], and the
    workspace service, when there is one. *)
Record Call := mkCall {
  c_now : Z; c_uuid : res str; generateSecret : res str; c_bcrypt : str -> res str; c_workspaces : option WorkspaceClient;
}.
Class Crypto := {
  CompareHashAndPassword : str -> str -> bool;
  sha256_hex : str -> str;
}.

(** [utf8.ValidString] *)
Fixpoint valid_runes (fuel : nat) (s : str) : bool :=
  match fuel, s with
  | _, [] => true
  | O, _ => false
  | S fuel, _ => let '(r, n) := decode_rune s in negb (bool_decide (r = rune_error /\ n = 1%nat)) && valid_runes fuel (drop n s)
  end.
Definition ValidString (s : str) : bool := valid_runes (List.length s) s.

(** Effects: a call takes a state on and may fail; a failure ends it, with what it had
    changed. *)
Definition act (S A : Type) : Type := S -> res A * S.
Section monad.
Context {S : Type}.
Definition ret {A} (a : A) : act S A := fun s => (Ok a, s).
Definition fail {A} (e : error) : act S A := fun s => (Err e, s).
Definition lift {A} (r : res A) : act S A := fun s => (r, s).
Definition bind {A B} (m : act S A) (k : A -> act S B) : act S B :=
  fun s => match m s with (Ok a, s) => k a s | (Err e, s) => (Err e, s) end.
Definition when_ (b : bool) (e : error) : act S unit := lift (guard b e).
End monad.
Section statements.
Context `{Database}.
Definition M (A : Type) : Type := act db A.
Definition sql_error (missing : error) (e : db_error) : error :=
  match e with ErrRecordNotFound => missing | DBFailure e => e end.
(** A statement; [missing] is what the caller answers for [gorm.ErrRecordNotFound]. *)
Definition sql {A} (missing : error) (m : db -> (A + db_error) * db) : M A :=
  fun s => match m s with (inl a, s) => (Ok a, s) | (inr e, s) => (Err (sql_error missing e), s) end.
Definition exec {A} (m : db -> (A + db_error) * db) : M A := sql (Errorf "record not found" []) m.
End statements.
Notation "'let!' x ':=' m 'in' k" := (bind m (fun x => k))
  (at level 10, x pattern, m at level 100, k at level 200, format "'[' 'let!'  x  ':='  m  'in' ']' '/' k") : go_scope.

Section service.
Context `{Database, Crypto}.

(** ** Access through workspace membership *)

Definition workspaceMemberRole : Z := 50.
Definition authorizeWorkspace (c : Call) (accountID workspaceID : str) : res unit :=
  match c_workspaces c with
  | None => Err ErrForbidden
  | Some w =>
      match IsMemberWithRole w workspaceID accountID [workspaceMemberRole] with
      | Err e => Err (Errorf "check workspace membership: %w" [FErr e])
      | Ok member => guard (negb member) ErrForbidden
      end
  end.
Definition daemonForAccount (c : Call) (accountID id : str) : M Daemon :=
  let! d := sql ErrNotFound (first_daemon id) in
  let! _ := lift (authorizeWorkspace c accountID (dm_WorkspaceID d)) in
  ret d.
Definition workspaceQuota (c : Call) (workspaceID : str) : res (gmap str Z) :=
  match c_workspaces c with
  | None => Err ErrForbidden
  | Some w => match GetPlanQuota w workspaceID with
              | Err e => Err (Errorf "resolve workspace quota: %w" [FErr e])
              | Ok quotas => Ok quotas
              end
  end.
(** A missing key of a Go map is its zero. *)
Definition dimension (quotas : gmap str Z) (key : string) : Z := default 0 (quotas !! ($key)).

(** ** Throttling *)

Definition prune (now : Z) (pollHit : gmap str Z) : gmap str Z :=
  if 10000 <? Z.of_nat (size pollHit) then filter (fun kv => ~ 3600000000000 < time_Sub now kv.2) pollHit else pollHit.
Definition enforcePollInterval (daemon : Daemon) (quotas : gmap str Z) (now : Z) (pollHit : gmap str Z) : res unit * gmap str Z :=
  let intervalSeconds := dimension quotas "polling_interval_seconds" in
  if intervalSeconds <=? 0 then (Ok tt, pollHit)
  else
    let interval := wrap64 (intervalSeconds * 1000000000) in
    let too_soon := match pollHit !! dm_ID daemon with Some last => time_Sub now last <? interval | None => false end in
    if too_soon then (Err ErrRateLimited, pollHit)
    else (Ok tt, prune now (<[dm_ID daemon := now]> pollHit)).
Definition clampRetentionDays (days : Z) : Z := if days <? 0 then 0 else if 3650 <? days then 3650 else days.

(** ** The life of a daemon *)

(** [updated_at], which gorm keeps, is left out of the row and of the view. *)
Record DaemonView := mkDaemonView {
  dv_ID : str; dv_WorkspaceID : str; dv_Name : str; dv_HostID : str; dv_Enabled : bool; dv_TerminalRelayEnabled : bool;
  dv_LastSeenAt : option Z; dv_DisconnectedAt : option Z; dv_CreatedAt : Z;
}.
Definition viewDaemon (d : Daemon) : DaemonView :=
  mkDaemonView (dm_ID d) (dm_WorkspaceID d) (dm_Name d) (dm_HostID d) (dm_Enabled d) (dm_TerminalRelayEnabled d) (dm_LastSeenAt d) (dm_DisconnectedAt d)
    (dm_CreatedAt d).
(** gorm fills in the time of the insert. *)
Definition CreateDaemon (c : Call) (accountID workspaceID name : str) : M (DaemonView * str) :=
  let workspaceID := TrimSpace workspaceID in
  let! _ := when_ (bool_decide (workspaceID = [])) (Errorf "workspace_id is required" []) in
  let name := TrimSpace name in
  let! _ := when_ (bool_decide (name = [])) (Errorf "name is required" []) in
  let! _ := lift (authorizeWorkspace c accountID workspaceID) in
  let! quotas := lift (workspaceQuota c workspaceID) in
  let maxDaemons := dimension quotas "max_daemons" in
  let! count := exec (count_daemons workspaceID) in
  let! _ := when_ (maxDaemons <=? count) (Errorf "workspace daemon limit reached (%d of %d)" [FInt count; FInt maxDaemons]) in
  let! secret := lift (generateSecret c) in
  let! hash := lift (c_bcrypt c secret) in
  let! id := lift (c_uuid c) in
  let d := mkDaemon id accountID workspaceID name hash [] true false None None (c_now c) in
  let! _ := exec (create_daemon d) in
  ret (viewDaemon d, secret).
Definition ListDaemons (c : Call) (accountID workspaceID : str) : M (list DaemonView) :=
  let workspaceID := TrimSpace workspaceID in
  let! _ := when_ (bool_decide (workspaceID = [])) (Errorf "workspace_id is required" []) in
  let! _ := lift (authorizeWorkspace c accountID workspaceID) in
  let! rows := exec (find_daemons workspaceID) in
  ret (viewDaemon <$> rows).
Definition GetDaemon (c : Call) (accountID id : str) : M DaemonView :=
  let! d := daemonForAccount c accountID id in ret (viewDaemon d).
Definition renamed (name : option str) (d : Daemon) : res Daemon :=
  match name with
  | None => Ok d
  | Some name =>
      let name := TrimSpace name in
      let? _ := guard (bool_decide (name = [])) (Errorf "name is required" []) in
      Ok (mkDaemon (dm_ID d) (dm_AccountID d) (dm_WorkspaceID d) name (dm_SecretHash d) (dm_HostID d) (dm_Enabled d)
            (dm_TerminalRelayEnabled d) (dm_LastSeenAt d) (dm_DisconnectedAt d) (dm_CreatedAt d))
  end.
Definition with_enabled (enabled : bool) (disconnected : option Z) (d : Daemon) : Daemon :=
  mkDaemon (dm_ID d) (dm_AccountID d) (dm_WorkspaceID d) (dm_Name d) (dm_SecretHash d) (dm_HostID d) enabled
    (dm_TerminalRelayEnabled d) (dm_LastSeenAt d) disconnected (dm_CreatedAt d).
Definition switched (enabled : option bool) (d : Daemon) : Daemon :=
  match enabled with
  | None => d
  | Some true => with_enabled true (dm_DisconnectedAt d) d
  | Some false => with_enabled false None d
  end.
Definition relayed (relay : option bool) (d : Daemon) : Daemon :=
  match relay with
  | None => d
  | Some relay => mkDaemon (dm_ID d) (dm_AccountID d) (dm_WorkspaceID d) (dm_Name d) (dm_SecretHash d) (dm_HostID d) (dm_Enabled d)
                    relay (dm_LastSeenAt d) (dm_DisconnectedAt d) (dm_CreatedAt d)
  end.
Definition UpdateDaemon (c : Call) (accountID id : str) (name : option str) (enabled relay : option bool) : M DaemonView :=
  let! d := daemonForAccount c accountID id in
  let! d := lift (renamed name d) in
  let d := relayed relay (switched enabled d) in
  let! _ := exec (save_daemon d) in
  ret (viewDaemon d).
Definition with_secret (hash : str) (d : Daemon) : Daemon :=
  mkDaemon (dm_ID d) (dm_AccountID d) (dm_WorkspaceID d) (dm_Name d) hash (dm_HostID d) (dm_Enabled d)
    (dm_TerminalRelayEnabled d) (dm_LastSeenAt d) (dm_DisconnectedAt d) (dm_CreatedAt d).
Definition RotateSecret (c : Call) (accountID id : str) : M str :=
  let! d := daemonForAccount c accountID id in
  let! secret := lift (generateSecret c) in
  let! hash := lift (c_bcrypt c secret) in
  let! _ := exec (save_daemon (with_secret hash d)) in
  ret secret.
Definition DisableDaemon (c : Call) (accountID id : str) : M unit :=
  Transaction (
    let! d := sql ErrNotFound (first_daemon id) in
    let! _ := lift (authorizeWorkspace c accountID (dm_WorkspaceID d)) in
    let d := with_enabled false (dm_DisconnectedAt d) d in
    let! _ := exec (save_daemon d) in
    exec (update_disconnected (dm_ID d) None)).
(** Any error of the lookup is "unauthorized". *)
Definition authenticateDaemon (id secret : str) : M Daemon := fun s =>
  match exec (first_daemon id) s with
  | (Err _, s) => (Err ErrUnauthorized, s)
  | (Ok d, s) => (if negb (dm_Enabled d) || negb (CompareHashAndPassword (dm_SecretHash d) secret) then Err ErrUnauthorized else Ok d, s)
  end.
Definition GetDaemonQuota (c : Call) (id secret : str) : M (str * gmap str Z) :=
  let! d := authenticateDaemon id secret in
  let! quotas := lift (workspaceQuota c (dm_WorkspaceID d)) in
  ret (dm_WorkspaceID d, quotas).
Definition GetWorkspaceQuota (c : Call) (accountID workspaceID : str) : M (str * gmap str Z) :=
  let workspaceID := TrimSpace workspaceID in
  let! _ := when_ (bool_decide (workspaceID = [])) (Errorf "workspace_id is required" []) in
  let! _ := lift (authorizeWorkspace c accountID workspaceID) in
  let! quotas := lift (workspaceQuota c workspaceID) in
  ret (workspaceID, quotas).

(** ** The actions a daemon reports *)

Record ActionInput := mkActionInput {
  ai_Name : str; ai_DisplayName : str; ai_Enabled : bool; ai_NotifyOnSuccess : bool; ai_NotifyOnFailure : bool;
  ai_Timeout : str; ai_Cwd : str; ai_User : str;
}.
Fixpoint checked_actions (names : list str) (input : list ActionInput) : res (list ActionInput) :=
  match input with
  | [] => Ok []
  | a :: input =>
      let name := TrimSpace (ai_Name a) in
      let? _ := guard (bool_decide (name = []) || (128 <? Z.of_nat (List.length name)) || negb (ValidString name))
                  (Errorf "action name exceeds bounds or is empty" []) in
      let? _ := guard (bool_decide (name ∈ names)) (Errorf "duplicate action name %q" [FStr name]) in
      let a := mkActionInput name (TrimSpace (ai_DisplayName a)) (ai_Enabled a) (ai_NotifyOnSuccess a) (ai_NotifyOnFailure a)
                 (ai_Timeout a) (ai_Cwd a) (ai_User a) in
      let? _ := guard ((128 <? Z.of_nat (List.length (ai_DisplayName a))) || (32 <? Z.of_nat (List.length (ai_Timeout a))) ||
                       (1024 <? Z.of_nat (List.length (ai_Cwd a))) || (64 <? Z.of_nat (List.length (ai_User a))))
                  (Errorf "action field exceeds bounds" []) in
      let? rest := checked_actions (name :: names) input in
      Ok (a :: rest)
  end.
Definition action_row (daemon : str) (now : Z) (a : ActionInput) : DaemonAction :=
  mkDaemonAction daemon (ai_Name a) (ai_DisplayName a) (ai_Enabled a) (ai_NotifyOnSuccess a) (ai_NotifyOnFailure a)
    (ai_Timeout a) (ai_Cwd a) (ai_User a) now.
Definition SyncActions (c : Call) (id secret : str) (input : list ActionInput) : M unit :=
  let! d := authenticateDaemon id secret in
  let! input := lift (checked_actions [] input) in
  Transaction (
    let! _ := exec (delete_actions (dm_ID d)) in
    if bool_decide (input = []) then ret tt
    else exec (create_actions (action_row (dm_ID d) (c_now c) <$> input))).
Definition ListActions (c : Call) (accountID daemonID : str) : M (list DaemonAction) :=
  let! _ := daemonForAccount c accountID daemonID in
  exec (find_actions daemonID).

(** ** Credentials *)

Definition CredentialTokenPrefix : str := $"mk_".
Definition splitCredentialScopes (raw : str) : list str := filter (fun v => v <> []) (TrimSpace <$> split_on (ch ",") raw).
Fixpoint kept_scopes (seen : list str) (parts : list str) : list str :=
  match parts with
  | [] => []
  | part :: parts =>
      let value := TrimSpace part in
      if bool_decide (value = []) || (191 <? Z.of_nat (List.length value)) || bool_decide (value ∈ seen) then kept_scopes seen parts
      else value :: kept_scopes (value :: seen) parts
  end.
Definition joinCredentialScopes (parts : list str) : str := join ($",") (kept_scopes [] parts).
Definition hashCredentialToken (token : str) : str := sha256_hex token.
Record CredentialView := mkCredentialView {
  cv_ID : str; cv_Label : str; cv_DaemonIDs : list str; cv_HostIDs : list str; cv_ActionNames : list str; cv_CreatedAt : Z; cv_LastUsedAt : option Z;
}.
Definition viewCredential (row : CredentialRow) : CredentialView :=
  mkCredentialView (cr_ID row) (cr_Label row) (splitCredentialScopes (cr_DaemonIDs row)) (splitCredentialScopes (cr_HostIDs row))
    (splitCredentialScopes (cr_ActionNames row)) (cr_CreatedAt row) (cr_LastUsedAt row).
Definition CreateCredential (c : Call) (accountID label : str) (daemonIDs hostIDs actionNames : list str) : M (CredentialView * str) :=
  let label := TrimSpace label in
  let! _ := when_ (bool_decide (label = []) || (128 <? Z.of_nat (List.length label)) || negb (ValidString label))
              (Errorf "label is required and must be at most 128 bytes" []) in
  let! token := lift (generateSecret c) in
  let token := CredentialTokenPrefix ++ token in
  let! id := lift (c_uuid c) in
  let row := mkCredentialRow id accountID label (hashCredentialToken token) (joinCredentialScopes daemonIDs)
               (joinCredentialScopes hostIDs) (joinCredentialScopes actionNames) (c_now c) None in
  let! _ := exec (create_credential row) in
  ret (viewCredential row, token).
Definition ListCredentials (accountID : str) : M (list CredentialView) :=
  let! rows := exec (find_credentials accountID) in ret (viewCredential <$> rows).
Definition DeleteCredential (accountID id : str) : M unit :=
  let! affected := exec (delete_credential id accountID) in
  when_ (affected =? 0) ErrNotFound.
Definition CredentialByToken (token : str) : M CredentialRow := sql ErrUnauthorized (first_credential (hashCredentialToken token)).
Definition outside (scopes : list str) (x : str) : bool := negb (bool_decide (scopes = [])) && negb (bool_decide (x ∈ scopes)).
Definition authorizeCredential (credential : CredentialRow) (daemonID actionName : str) : M unit :=
  let! _ := when_ (outside (splitCredentialScopes (cr_DaemonIDs credential)) daemonID) ErrForbidden in
  let hosts := splitCredentialScopes (cr_HostIDs credential) in
  let! _ := (if bool_decide (hosts = []) then ret tt
             else let! daemon := sql ErrNotFound (first_daemon daemonID) in
                  when_ (negb (bool_decide (dm_HostID daemon ∈ hosts))) ErrForbidden) in
  when_ (outside (splitCredentialScopes (cr_ActionNames credential)) actionName) ErrForbidden.

(** ** The relay queue *)

Definition webhookStatusPending : str := $"pending".
Definition webhookStatusLeased : str := $"leased".
Definition webhookStatusDone : str := $"done".
Definition webhookLeaseDuration : Z := 2 * 60 * 1000000000.
Definition webhookBodyLimit : Z := 256 * 1024.
Definition webhookPendingLimit : Z := 50.
Record WebhookRequestView := mkWebhookRequestView {
  wv_ID : str; wv_DaemonID : str; wv_Name : str; wv_Body : str; wv_Signature : str; wv_InvokedBy : str; wv_Status : str;
  wv_ResultCode : Z; wv_ResultBody : str; wv_ResultError : str; wv_CreatedAt : Z; wv_UpdatedAt : Z;
}.
Definition viewWebhookRequest (row : WebhookRequest) : WebhookRequestView :=
  mkWebhookRequestView (wr_ID row) (wr_DaemonID row) (wr_Name row) (EncodeToString (wr_Body row)) (wr_Signature row) (wr_InvokedBy row)
    (wr_Status row) (wr_ResultCode row) (EncodeToString (wr_ResultBody row)) (wr_ResultError row) (wr_CreatedAt row) (wr_UpdatedAt row).
Definition EnqueueWebhook (c : Call) (accountID daemonID name body signature invokedBy : str) (credential : option CredentialRow) : M WebhookRequestView :=
  let! _ := match credential with
            | Some credential =>
                let! _ := authorizeCredential credential daemonID name in
                exec (update_last_used (cr_ID credential) (c_now c))
            | None => let! _ := daemonForAccount c accountID daemonID in ret tt
            end in
  let! _ := when_ (bool_decide (TrimSpace name = []) || bool_decide (body = []) || (webhookBodyLimit <? Z.of_nat (List.length body)))
              (Errorf "webhook request requires a name and body" []) in
  let! id := lift (c_uuid c) in
  let row := mkWebhookRequest id daemonID (TrimSpace name) body (TrimSpace signature) invokedBy webhookStatusPending None 0 [] [] (c_now c) (c_now c) in
  let! _ := exec (create_request row) in
  ret (viewWebhookRequest row).
Definition pending_limit (limit : Z) : Z := if (limit <=? 0) || (webhookPendingLimit <? limit) then webhookPendingLimit else limit.
Definition ListPendingWebhooks (c : Call) (daemonID secret : str) (limit : Z) : M (list WebhookRequestView) :=
  let! _ := authenticateDaemon daemonID secret in
  let limit := pending_limit limit in
  let now := c_now c in
  let! _ := exec (release_requests daemonID webhookStatusLeased (now - webhookLeaseDuration) webhookStatusPending now) in
  let! rows := exec (find_requests daemonID webhookStatusPending (Z.to_nat limit)) in
  if bool_decide (rows = []) then ret []
  else
    let ids := wr_ID <$> rows in
    let! _ := exec (lease_requests daemonID ids webhookStatusLeased now) in
    ret (viewWebhookRequest <$> rows).
Definition CompleteWebhook (c : Call) (daemonID secret requestID : str) (code : Z) (body resultError : str) : M unit :=
  let! _ := authenticateDaemon daemonID secret in
  let! affected := exec (complete_request daemonID requestID webhookStatusLeased webhookStatusDone code body (take 512 resultError) (c_now c)) in
  when_ (affected =? 0) ErrNotFound.
Definition GetWebhookResult (c : Call) (accountID daemonID requestID : str) : M WebhookRequestView :=
  let! _ := daemonForAccount c accountID daemonID in
  let! row := sql ErrNotFound (first_request daemonID requestID) in
  ret (viewWebhookRequest row).
End service.
