(* ===== verification/CloudFacts.v ===== *)
(** * CloudFacts: who may do what in the cloud, and what becomes of a relayed request

    The theorems of [Cloud]: access to a daemon goes through a confirmed membership of
    its workspace, a credential's scopes are enforced where the code enforces them, the
    daemon quota holds, and the relay queue hands a request to its daemon under an
    exclusive lease until its result is final. *)

From S2P Require Import Prelude GoStr GoMatch Base64 Alarms CloudDB Cloud.
Open Scope Z_scope.

(** ** Steps of a call *)

Section binds.
Context {S : Type}.
Lemma bind_inv {A B} (m : act S A) (k : A -> act S B) s r s' : bind m k s = (r, s') ->
  (exists e, m s = (Err e, s') /\ r = Err e) \/ (exists a s1, m s = (Ok a, s1) /\ k a s1 = (r, s')).
Proof. unfold bind. destruct (m s) as [[a|e] s1]; [by right; exists a, s1|]. intros [= <- <-]. left. by exists e. Qed.
Lemma bind_ok {A B} (m : act S A) (k : A -> act S B) s b s' : bind m k s = (Ok b, s') -> exists a s1, m s = (Ok a, s1) /\ k a s1 = (Ok b, s').
Proof. intros [(e & _ & [=])|Hb]%bind_inv. done. Qed.
Lemma lift_inv {A B} (r0 : res A) (k : A -> act S B) s r s' : bind (lift r0) k s = (r, s') ->
  (exists e, r0 = Err e /\ r = Err e /\ s' = s) \/ (exists a, r0 = Ok a /\ k a s = (r, s')).
Proof. intros [(e & [= -> ->] & ->)|(a & s1 & [= -> <-] & Hk)]%bind_inv; [left|right]; eauto. Qed.
End binds.
Section steps.
Context `{Database}.
Lemma sql_query {A} missing (m : db -> (A + db_error) * db) answers none s r s' :
  queries m answers none -> sql missing m s = (r, s') -> rows s' = rows s /\ match r with Ok a => answers (rows s) a | Err _ => True end.
Proof.
  intros Hq. unfold sql. destruct (m s) as [[a|e] s1] eqn:Em; intros [= <- <-]; apply Hq in Em as [Hr Ha]; done.
Qed.
Lemma sql_change {A} missing (m : db -> (A + db_error) * db) effect s r s' :
  changes m effect -> sql missing m s = (r, s') -> match r with Ok a => effect (rows s) a (rows s') | Err _ => rows s' = rows s end.
Proof. intros Hc. unfold sql. destruct (m s) as [[a|e] s1] eqn:Em; intros [= <- <-]; by apply Hc in Em. Qed.

(** The kinds of statement, with what follows. *)
Lemma sql_query_inv {A B} missing (m : db -> (A + db_error) * db) answers none (k : A -> M B) s r s' : queries m answers none ->
  bind (sql missing m) k s = (r, s') ->
  (exists e, r = Err e /\ rows s' = rows s) \/ (exists a s1, answers (rows s) a /\ rows s1 = rows s /\ k a s1 = (r, s')).
Proof.
  intros Hq [(e & He & ->)|(a & s1 & Ha & Hk)]%bind_inv.
  - apply (sql_query _ _ _ _ _ _ _ Hq) in He as [Hr _]. left. eauto.
  - apply (sql_query _ _ _ _ _ _ _ Hq) in Ha as [Hr Ha]. right. eauto.
Qed.
Lemma sql_change_inv {A B} missing (m : db -> (A + db_error) * db) effect (k : A -> M B) s r s' : changes m effect ->
  bind (sql missing m) k s = (r, s') ->
  (exists e, r = Err e /\ rows s' = rows s) \/ (exists a s1, effect (rows s) a (rows s1) /\ k a s1 = (r, s')).
Proof.
  intros Hq [(e & He & ->)|(a & s1 & Ha & Hk)]%bind_inv; [left|right];
    [apply (sql_change _ _ _ _ _ _ Hq) in He; by exists e|apply (sql_change _ _ _ _ _ _ Hq) in Ha; by exists a, s1].
Qed.

(** A call that changes no row. *)
Definition reads {A} (m : M A) : Prop := forall s r s', m s = (r, s') -> rows s' = rows s.
Lemma reads_ret {A} (a : A) : reads (ret a).
Proof. by intros s r s' [= <- <-]. Qed.
Lemma reads_lift {A} (r : res A) : reads (lift r).
Proof. by intros s r' s' [= <- <-]. Qed.
Lemma reads_when b e : reads (when_ b e).
Proof. apply reads_lift. Qed.
Lemma reads_bind {A B} (m : M A) (k : A -> M B) : reads m -> (forall a, reads (k a)) -> reads (bind m k).
Proof.
  intros Hm Hk s r s' [(e & He & _)|(a & s1 & H1 & H2)]%bind_inv; [by eapply Hm|]. rewrite (Hk a _ _ _ H2). by eapply Hm.
Qed.
Lemma reads_sql {A} missing (m : db -> (A + db_error) * db) answers none : queries m answers none -> reads (sql missing m).
Proof. intros Hq s r s' [Hr _]%(sql_query missing m answers none); done. Qed.
End steps.
#[export] Hint Resolve reads_ret reads_lift reads_when reads_bind : go.

(** Open a call that answered into its steps. *)
Ltac opened H :=
  repeat match type of H with
  | bind _ _ _ = (Ok _, _) =>
      let a := fresh "a" in let s := fresh "s" in let H1 := fresh "Hs" in apply bind_ok in H as (a & s & H1 & H)
  | ret _ _ = (Ok _, _) => unfold ret in H; injection H as <- <-
  end.

Section cloud.
Context `{D : Database} `{L : !DatabaseLaws D} `{Crypto}.

Lemma reads_authenticate id secret : reads (authenticateDaemon id secret).
Proof.
  intros s r s'. unfold authenticateDaemon. destruct (exec (first_daemon id) s) as [[d|e] s1] eqn:Ef; intros [= <- <-];
    by eapply reads_sql in Ef; [|apply first_daemon_law].
Qed.
Lemma authenticate_ok id secret s d s' : authenticateDaemon id secret s = (Ok d, s') ->
  rows s' = rows s /\ t_daemons (rows s) !! id = Some d /\ dm_Enabled d = true /\ CompareHashAndPassword (dm_SecretHash d) secret = true.
Proof.
  unfold authenticateDaemon. destruct (exec (first_daemon id) s) as [[d0|e] s1] eqn:Ef; [|done].
  apply (sql_query _ _ _ _ _ _ _ (first_daemon_law id)) in Ef as [Hr Hd].
  destruct (negb (dm_Enabled d0) || _) eqn:Ec; intros [= <- <-]. apply orb_false_iff in Ec as [E1%negb_false_iff E2%negb_false_iff]. done.
Qed.

(** A member of the workspace with the role, by the workspace service's own word. *)
Definition confirmed (c : Call) (accountID workspaceID : str) : Prop :=
  exists w, c_workspaces c = Some w /\ IsMemberWithRole w workspaceID accountID [workspaceMemberRole] = Ok true.
Lemma authorizeWorkspace_ok c account workspace : authorizeWorkspace c account workspace = Ok tt <-> confirmed c account workspace.
Proof.
  unfold authorizeWorkspace, confirmed. destruct (c_workspaces c) as [w|]; [|by split; [|intros (? & [=] & _)]].
  destruct (IsMemberWithRole w workspace account _) as [[]|e] eqn:E; cbn; split; try done; [by exists w| |]; intros (w' & [= <-] & Ew); congruence.
Qed.
Lemma reads_daemonForAccount c account id : reads (daemonForAccount c account id).
Proof. apply reads_bind; [eapply reads_sql, first_daemon_law|auto with go]. Qed.
Lemma daemonForAccount_ok c account id s d s' : daemonForAccount c account id s = (Ok d, s') ->
  rows s' = rows s /\ t_daemons (rows s) !! id = Some d /\ dm_ID d = id /\ confirmed c account (dm_WorkspaceID d).
Proof.
  intros Hd. assert (Hr : rows s' = rows s) by by eapply reads_daemonForAccount. unfold daemonForAccount in Hd. opened Hd.
  apply (sql_query _ _ _ _ _ _ _ (first_daemon_law id)) in Hs as [Hr0 Hd]. injection Hs0 as Ha <-. destruct a0.
  apply authorizeWorkspace_ok in Ha. eauto using keyed_daemons.
Qed.

(** ** What an account does to a daemon *)

Inductive daemon_op :=
  | OpGet | OpUpdate (name : option str) (enabled relay : option bool) | OpRotate | OpDisable | OpActions
  | OpEnqueue (name body signature invokedBy : str) | OpResult (requestID : str).
Definition done_with {A} (m : M A) : M unit := let! _ := m in ret tt.
Definition serve_op (c : Call) (account id : str) (op : daemon_op) : M unit :=
  match op with
  | OpGet => done_with (GetDaemon c account id)
  | OpUpdate name enabled relay => done_with (UpdateDaemon c account id name enabled relay)
  | OpRotate => done_with (RotateSecret c account id)
  | OpDisable => DisableDaemon c account id
  | OpActions => done_with (ListActions c account id)
  | OpEnqueue name body signature invokedBy => done_with (EnqueueWebhook c account id name body signature invokedBy None)
  | OpResult requestID => done_with (GetWebhookResult c account id requestID)
  end.
(** What remains of a daemon whatever its accounts do. *)
Definition same_daemon (d d' : Daemon) : Prop :=
  dm_ID d' = dm_ID d /\ dm_AccountID d' = dm_AccountID d /\ dm_WorkspaceID d' = dm_WorkspaceID d /\ dm_HostID d' = dm_HostID d.
Record confined_to (id : str) (t t' : tables) : Prop := {
  cf_others : forall id', id' <> id -> t_daemons t' !! id' = t_daemons t !! id';
  cf_daemon : forall d, t_daemons t !! id = Some d -> exists d', t_daemons t' !! id = Some d' /\ same_daemon d d';
  cf_actions : t_actions t' = t_actions t;
  cf_credentials : t_credentials t' = t_credentials t;
  cf_requests : forall i r, t_requests t !! i = Some r -> t_requests t' !! i = Some r;
  cf_new_requests : forall i r, t_requests t' !! i = Some r -> t_requests t !! i = Some r \/ wr_DaemonID r = id /\ wr_Status r = webhookStatusPending;
}.
Lemma confined_refl id t t' : t' = t -> confined_to id t t'.
Proof. intros ->. split; try done; [intros d Hd; by exists d|by left]. Qed.
Lemma confined_trans id t t1 t' : confined_to id t t1 -> confined_to id t1 t' -> confined_to id t t'.
Proof.
  intros [H1 H2 H3 H4 H5 H6] [G1 G2 G3 G4 G5 G6]. split; [| |congruence|congruence|auto|].
  - intros id' Hn. by rewrite G1, H1.
  - intros d (d1 & Hd & (S1 & S2 & S3 & S4))%H2. apply G2 in Hd as (d' & Hd & (T1 & T2 & T3 & T4)). exists d'. split; [done|]. by split_and!; etrans.
  - intros i r [Hi|Hi]%G6; [by apply H6|by right].
Qed.
Lemma confined_daemon t d d' : t_daemons t !! dm_ID d = Some d -> same_daemon d d' -> confined_to (dm_ID d) t (with_daemons <[dm_ID d' := d']> t).
Proof.
  intros Hd Hs. pose proof (proj1 Hs) as Hid. rewrite Hid. split; cbn; try done; try by left.
  - intros id' Hn. by rewrite lookup_insert_ne by done.
  - intros d0 Hd0. exists d'. rewrite lookup_insert_eq. split; [done|]. by replace d0 with d by congruence.
Qed.
Lemma confined_request t id r : t_requests t !! wr_ID r = None -> wr_DaemonID r = id -> wr_Status r = webhookStatusPending ->
  confined_to id t (with_requests <[wr_ID r := r]> t).
Proof.
  intros Hn Hid Hp. split; cbn; try done.
  - intros d Hd. by exists d.
  - intros i q Hq. rewrite lookup_insert_ne; congruence.
  - intros i q [[<- <-]|[_ Hq]]%lookup_insert_Some; [by right|by left].
Qed.

(** The rule of every operation: nothing before the daemon and the membership. *)
Definition guarded (c : Call) (account id : str) {A} (m : M A) : Prop := forall s r s', m s = (r, s') ->
  (rows s' = rows s /\ is_ok r = false \/ exists d, t_daemons (rows s) !! id = Some d /\ confirmed c account (dm_WorkspaceID d)) /\
  confined_to id (rows s) (rows s').
Lemma guarded_bind c account id {A} (k : Daemon -> M A) :
  (forall d, dm_ID d = id -> forall s r s', t_daemons (rows s) !! id = Some d -> k d s = (r, s') -> confined_to id (rows s) (rows s')) ->
  guarded c account id (let! d := daemonForAccount c account id in k d).
Proof.
  intros Hk s r s' [(e & He & ->)|(d & s1 & Hd & Hr)]%bind_inv.
  - apply reads_daemonForAccount in He. split; [by left|by apply confined_refl].
  - apply daemonForAccount_ok in Hd as (Hs & Hd & Hid & Hc). split; [right; by exists d|].
    rewrite <-Hs in Hd |- *. by eapply Hk.
Qed.
Lemma guarded_reads c account id {A} (k : Daemon -> M A) : (forall d, reads (k d)) -> guarded c account id (let! d := daemonForAccount c account id in k d).
Proof. intros Hk. apply guarded_bind. intros d _ s r s' _ Hr%Hk. by apply confined_refl. Qed.
Lemma guarded_done c account id {A} (m : M A) : guarded c account id m -> guarded c account id (done_with m).
Proof.
  intros Hm s r s' [(e & He & ->)|(a & s1 & Ha & [= <- <-])]%bind_inv; [by apply (Hm _ _ _ He)|].
  destruct (Hm _ _ _ Ha) as [[[_ [=]]|Hd] Hc]. split; [by right|done].
Qed.
Lemma saved_confined d d' id s r s' : exec (save_daemon d') s = (r, s') -> dm_ID d = id -> t_daemons (rows s) !! id = Some d -> same_daemon d d' ->
  confined_to id (rows s) (rows s').
Proof.
  intros Hr <- Hd Hs. apply (sql_change _ _ _ _ _ _ (save_daemon_law d')) in Hr.
  destruct r; [rewrite Hr; by apply confined_daemon|by apply confined_refl].
Qed.

Lemma renamed_same name d d' : renamed name d = Ok d' -> same_daemon d d'.
Proof. destruct name as [n|]; cbn; [|by intros [= <-]]. case_bool_decide; [done|]. by intros [= <-]. Qed.
Lemma switched_same enabled relay d : same_daemon d (relayed relay (switched enabled d)).
Proof. by destruct enabled as [[]|], relay. Qed.
Lemma same_daemon_trans d1 d2 d3 : same_daemon d1 d2 -> same_daemon d2 d3 -> same_daemon d1 d3.
Proof. intros (A1 & A2 & A3 & A4) (B1 & B2 & B3 & B4). by split_and!; etrans. Qed.
Lemma update_guarded c account id name enabled relay : guarded c account id (UpdateDaemon c account id name enabled relay).
Proof.
  apply guarded_bind. intros d Hid s r s' Hd [(e & He & ->)|(d1 & s1 & H1 & H2)]%bind_inv.
  - apply reads_lift in He. by apply confined_refl.
  - injection H1 as H1 <-.
    assert (Hs : same_daemon d (relayed relay (switched enabled d1))) by (eapply same_daemon_trans; [by eapply renamed_same|apply switched_same]).
    apply bind_inv in H2 as [(e & He & ->)|(u & s2 & H2 & [= <- <-])]; (eapply saved_confined; [eassumption|exact Hid|exact Hd|exact Hs]).
Qed.
Lemma rotate_guarded c account id : guarded c account id (RotateSecret c account id).
Proof.
  apply guarded_bind. intros d Hid s r s' Hd [(e & He & ->)|(secret & s1 & H1 & H2)]%bind_inv; [apply reads_lift in He; by apply confined_refl|].
  injection H1 as _ <-. apply bind_inv in H2 as [(e & He & ->)|(hash & s1 & H1 & H2)]; [apply reads_lift in He; by apply confined_refl|].
  injection H1 as _ <-. apply bind_inv in H2 as [(e & He & ->)|(u & s2 & H2 & [= <- <-])]; (eapply saved_confined; [eassumption|exact Hid|exact Hd|by split_and!]).
Qed.
Lemma update_where_key `{Countable K} {A} (key : A -> K) (f : A -> A) (m : gmap K A) k r : (forall i y, m !! i = Some y -> key y = i) -> m !! k = Some r ->
  update_where (fun y => bool_decide (key y = k)) f m = <[k := f r]> m.
Proof.
  intros Hk Hr. apply map_eq. intros i. unfold update_where. rewrite lookup_fmap. destruct (decide (i = k)) as [->|Hi].
  - rewrite Hr, lookup_insert_eq. cbn. by rewrite bool_decide_true by by apply Hk.
  - rewrite lookup_insert_ne by done. destruct (m !! i) as [y|] eqn:E; [|done]. cbn. apply Hk in E. by rewrite bool_decide_false by congruence.
Qed.
Lemma update_disconnected_one id at_ t d : t_daemons t !! id = Some d -> dm_ID d = id -> (forall k d, t_daemons t !! k = Some d -> dm_ID d = k) ->
  with_daemons (update_where (fun d => bool_decide (dm_ID d = id)) (set_disconnected at_)) t = with_daemons <[id := set_disconnected at_ d]> t.
Proof. intros Hd Hid Hk. unfold with_daemons. f_equal. by apply update_where_key. Qed.
Lemma disconnected_confined id at_ s r s' : (exists d, t_daemons (rows s) !! id = Some d) -> exec (update_disconnected id at_) s = (r, s') ->
  confined_to id (rows s) (rows s').
Proof.
  intros [d Hd] Hr. apply (sql_change _ _ _ _ _ _ (update_disconnected_law id at_)) in Hr.
  destruct r; [|by apply confined_refl]. pose proof (keyed_daemons _ _ _ Hd) as Hid.
  rewrite Hr, (update_disconnected_one id at_ (rows s) d) by eauto using keyed_daemons. rewrite <-Hid in Hd |- *. by apply (confined_daemon _ d (set_disconnected at_ d)).
Qed.
Lemma disable_guarded c account id : guarded c account id (DisableDaemon c account id).
Proof.
  intros s r s' Hr. unfold DisableDaemon in Hr. apply Transaction_law in Hr. destruct r as [[]|e]; [|split; [by left|by apply confined_refl]].
  destruct Hr as (s0 & s1 & H0 & Hf & ->). rewrite <-H0. apply bind_ok in Hf as (d & s2 & Hd & Hf).
  apply (sql_query _ _ _ _ _ _ _ (first_daemon_law id)) in Hd as [H2 Hd]. apply bind_ok in Hf as ([] & s3 & Ha & Hf).
  injection Ha as Ha <-. apply authorizeWorkspace_ok in Ha. split; [right; by exists d|].
  rewrite <-H2 in Hd |- *. pose proof (keyed_daemons _ _ _ Hd) as Hid. apply bind_ok in Hf as (u & s4 & Hs & Hf).
  assert (Hc : confined_to id (rows s2) (rows s4)) by (eapply saved_confined; [exact Hs|exact Hid|done|by split_and!]).
  eapply confined_trans; [exact Hc|]. cbn [dm_ID with_enabled] in Hf. rewrite Hid in Hf. eapply disconnected_confined; [|exact Hf].
  destruct (cf_daemon _ _ _ Hc _ Hd) as (d' & Hd' & _). by exists d'.
Qed.
Lemma enqueue_guarded c account id name body signature invokedBy : guarded c account id (EnqueueWebhook c account id name body signature invokedBy None).
Proof.
  intros s r s' Hr. unfold EnqueueWebhook in Hr. revert s r s' Hr.
  match goal with |- forall s r s', bind (bind ?m ?j) ?k s = (r, s') -> _ => assert (Ha : forall s, bind (bind m j) k s = bind m (fun _ => k tt) s) end.
  { intros s. unfold bind. destruct (daemonForAccount c account id s) as [[] ?]; done. }
  intros s r s' Hr. rewrite Ha in Hr. clear Ha. revert s r s' Hr. apply guarded_bind. intros d Hid s r s' Hd Hr.
  apply bind_inv in Hr as [(e & He & ->)|(u & s1 & H1 & Hr)]; [apply reads_when in He; by apply confined_refl|]. injection H1 as _ <-.
  apply bind_inv in Hr as [(e & He & ->)|(i & s1 & H1 & Hr)]; [apply reads_lift in He; by apply confined_refl|]. injection H1 as _ <-.
  set (row := mkWebhookRequest _ _ _ _ _ _ _ _ _ _ _ _ _) in Hr.
  apply bind_inv in Hr as [(e & He & ->)|(v & s1 & H1 & [= <- <-])].
  - apply (sql_change _ _ _ _ _ _ (create_request_law row)) in He. by apply confined_refl.
  - apply (sql_change _ _ _ _ _ _ (create_request_law row)) in H1 as [Hn ->]. by apply confined_request.
Qed.
Lemma op_guarded c account id op : guarded c account id (serve_op c account id op).
Proof.
  destruct op; cbn [serve_op]; try apply guarded_done.
  - apply guarded_reads. auto with go.
  - apply update_guarded.
  - apply rotate_guarded.
  - apply disable_guarded.
  - apply guarded_reads. intros d. eapply reads_sql, find_actions_law.
  - apply enqueue_guarded.
  - apply guarded_reads. intros d. apply reads_bind; [eapply reads_sql, first_request_law|auto with go].
Qed.

(** C6. What an account asks about a daemon is refused, and changes no row, unless the
    daemon exists and the workspace service has confirmed the account as a member (role
    50) of the daemon's own workspace: no workspace service, an unreachable one and a
    denial all refuse. What is then done stays with that daemon: other daemons, the
    reported actions, the credentials and the queued requests are as they were, the
    daemon keeps its identifier, its owner, its workspace and its host, and the only new
    requests are pending ones of this daemon. *)
Theorem account_access_confined c account id op s r s' : serve_op c account id op s = (r, s') ->
  (is_ok r = true \/ rows s' <> rows s -> exists d, t_daemons (rows s) !! id = Some d /\ confirmed c account (dm_WorkspaceID d)) /\
  confined_to id (rows s) (rows s').
Proof.
  intros Hr. destruct (op_guarded c account id op s r s' Hr) as [[[Hs Hn]|Hd] Hc]; split; try done. intros [Ho|Ho]; congruence.
Qed.

(** ** The relay queue *)

Definition expired (daemon : str) (now : Z) : WebhookRequest -> bool := leased_before daemon webhookStatusLeased (now - webhookLeaseDuration).
Definition release (daemon : str) (now : Z) : gmap str WebhookRequest -> gmap str WebhookRequest :=
  update_where (expired daemon now) (set_lease webhookStatusPending None now).
Definition lease (daemon : str) (ids : list str) (now : Z) : gmap str WebhookRequest -> gmap str WebhookRequest :=
  update_where (of_daemon_in daemon ids) (set_lease webhookStatusLeased (Some now) now).
Lemma lease_none daemon now m : lease daemon [] now m = m.
Proof.
  unfold lease, update_where. rewrite <-(map_fmap_id m) at 2. apply map_fmap_ext. intros i r _. unfold of_daemon_in.
  by rewrite (bool_decide_false (wr_ID r ∈ [])), andb_false_r by set_solver.
Qed.
Lemma with_requests_same f t : f (t_requests t) = t_requests t -> t = with_requests f t.
Proof. intros Hf. unfold with_requests. rewrite Hf. by destruct t. Qed.
Lemma lookup_update_where `{Countable K} {A} (P : A -> bool) (f : A -> A) (m : gmap K A) (i : K) r : m !! i = Some r -> update_where P f m !! i = Some (if P r then f r else r).
Proof. intros Hi. unfold update_where. by rewrite lookup_fmap, Hi. Qed.
Lemma lookup_update_where_None `{Countable K} {A} (P : A -> bool) (f : A -> A) (m : gmap K A) (i : K) : m !! i = None -> update_where P f m !! i = None.
Proof. intros Hi. unfold update_where. by rewrite lookup_fmap, Hi. Qed.

Lemma poll_spec c daemon secret limit s r s' : ListPendingWebhooks c daemon secret limit s = (r, s') ->
  let t1 := with_requests (release daemon (c_now c)) (rows s) in
  match r with
  | Ok views =>
      (exists d, t_daemons (rows s) !! daemon = Some d /\ dm_Enabled d = true /\ CompareHashAndPassword (dm_SecretHash d) secret = true) /\
      exists l, oldest (of_daemon_with daemon webhookStatusPending) (Z.to_nat (pending_limit limit)) t1 l /\
        views = viewWebhookRequest <$> l /\ rows s' = with_requests (lease daemon (wr_ID <$> l) (c_now c)) t1
  | Err _ => rows s' = rows s \/ rows s' = t1
  end.
Proof.
  intros Hp t1. apply bind_inv in Hp as [(e & He & ->)|(d & s1 & Hd & Hp)]; [left; by eapply reads_authenticate|].
  apply authenticate_ok in Hd as (Hs1 & Hd & He & Hc). cbv zeta in Hp.
  apply bind_inv in Hp as [(e & Hr & ->)|(u & s2 & Hr & Hp)];
    apply (sql_change _ _ _ _ _ _ (release_requests_law _ _ _ _ _)) in Hr; [left; congruence|].
  assert (H2 : rows s2 = t1) by (rewrite Hr, Hs1; done). clear Hr.
  apply bind_inv in Hp as [(e & Hf & ->)|(l & s3 & Hf & Hp)];
    apply (sql_query _ _ _ _ _ _ _ (find_requests_law _ _ _)) in Hf as [Hs3 Hl]; [right; congruence|]. rewrite H2 in Hl, Hs3.
  case_bool_decide as Hn.
  - injection Hp as <- <-. split; [by exists d|]. exists []. subst l. split; [done|]. split; [done|]. rewrite Hs3.
    by apply with_requests_same, lease_none.
  - apply bind_inv in Hp as [(e & Hr & ->)|(u' & s4 & Hr & Hp)];
      apply (sql_change _ _ _ _ _ _ (lease_requests_law _ _ _ _)) in Hr; [right; congruence|].
    injection Hp as <- <-. split; [by exists d|]. exists l. split; [done|]. split; [done|]. by rewrite Hr, Hs3.
Qed.

(** A poll that answers was made by the enabled daemon with its secret, and hands
    out exactly the oldest pending requests of that daemon, at most the limit (50 when
    none or too large a one is asked), oldest first, where a lease older than two
    minutes counts as pending again; each of these is then leased at the time of the
    poll and no other row changes. A poll that fails hands out nothing, and changes at
    most the expired leases. *)
Theorem poll_exact c daemon secret limit s r s' : ListPendingWebhooks c daemon secret limit s = (r, s') ->
  let t1 := with_requests (release daemon (c_now c)) (rows s) in
  match r with
  | Ok views =>
      (exists d, t_daemons (rows s) !! daemon = Some d /\ dm_Enabled d = true /\ CompareHashAndPassword (dm_SecretHash d) secret = true) /\
      exists l, oldest (of_daemon_with daemon webhookStatusPending) (Z.to_nat (pending_limit limit)) t1 l /\
        views = viewWebhookRequest <$> l /\ rows s' = with_requests (lease daemon (wr_ID <$> l) (c_now c)) t1
  | Err _ => rows s' = rows s \/ rows s' = t1
  end.
Proof. apply poll_spec. Qed.
Lemma complete_spec c daemon secret i code body error s r s' : CompleteWebhook c daemon secret i code body error s = (r, s') ->
  rows s' = rows s \/ exists q, t_requests (rows s) !! i = Some q /\ of_daemon_with daemon webhookStatusLeased q = true /\
    rows s' = with_requests <[i := set_result webhookStatusDone code body (take 512 error) (c_now c) q]> (rows s).
Proof.
  intros [(e & He & ->)|(d & s1 & Hd & Hp)]%bind_inv; [left; by eapply reads_authenticate|].
  apply reads_authenticate in Hd. rewrite <-Hd.
  assert (Hw : forall n s2, when_ (n =? 0) ErrNotFound s2 = (r, s') -> rows s' = rows s2) by (intros n s2 Hn; by eapply reads_when).
  apply bind_inv in Hp as [(e & He & ->)|(n & s2 & He & Hp)]; apply (sql_change _ _ _ _ _ _ (complete_request_law _ _ _ _ _ _ _ _)) in He; [by left|].
  apply Hw in Hp. rewrite Hp. destruct (t_requests (rows s1) !! i) as [q|]; [|by left; destruct He].
  destruct (of_daemon_with daemon _ q) eqn:Eq; destruct He as [_ He]; [right|by left]. by exists q.
Qed.

(** ** Credentials *)

Definition in_scope (t : tables) (q : CredentialRow) (daemonID name : str) : Prop :=
  let within scopes x := scopes = [] \/ x ∈ scopes in
  within (splitCredentialScopes (cr_DaemonIDs q)) daemonID /\
  (splitCredentialScopes (cr_HostIDs q) = [] \/
   exists d, t_daemons t !! daemonID = Some d /\ dm_HostID d ∈ splitCredentialScopes (cr_HostIDs q)) /\
  within (splitCredentialScopes (cr_ActionNames q)) name.
Lemma outside_false scopes x : outside scopes x = false <-> scopes = [] \/ x ∈ scopes.
Proof. unfold outside. rewrite andb_false_iff, !negb_false_iff, !bool_decide_eq_true. done. Qed.
Lemma reads_authorizeCredential q daemonID name : reads (authorizeCredential q daemonID name).
Proof.
  apply reads_bind; [apply reads_when|]. intros _. apply reads_bind; [|intros; apply reads_when].
  case_bool_decide; [apply reads_ret|]. apply reads_bind; [eapply reads_sql, first_daemon_law|intros; apply reads_when].
Qed.
Lemma authorizeCredential_ok q daemonID name s s' : authorizeCredential q daemonID name s = (Ok tt, s') -> in_scope (rows s) q daemonID name.
Proof.
  intros Ha. unfold authorizeCredential in Ha. opened Ha. injection Hs as H1 <-. apply guard_ok, outside_false in H1.
  injection Ha as H3 <-. apply guard_ok, outside_false in H3. split; [done|]. split; [|done].
  case_bool_decide as Hh; [by left|right]. opened Hs0.
  apply (sql_query _ _ _ _ _ _ _ (first_daemon_law daemonID)) in Hs as [_ Hd]. exists a1. split; [done|].
  injection Hs0 as Hg _. apply guard_ok, negb_false_iff, bool_decide_eq_true in Hg. done.
Qed.
Definition request_of (c : Call) (id daemonID name body signature invokedBy : str) : WebhookRequest :=
  mkWebhookRequest id daemonID (TrimSpace name) body (TrimSpace signature) invokedBy webhookStatusPending None 0 [] [] (c_now c) (c_now c).
Definition used (c : Call) (q : CredentialRow) (t : tables) : tables :=
  with_credentials (update_where (fun x => bool_decide (cr_ID x = cr_ID q)) (set_used (c_now c))) t.
(** The tail of [EnqueueWebhook], common to accounts and credentials. *)
Definition enqueue_row (c : Call) (daemonID name body signature invokedBy : str) : M WebhookRequestView :=
  let! _ := when_ (bool_decide (TrimSpace name = []) || bool_decide (body = []) || (webhookBodyLimit <? Z.of_nat (List.length body)))
              (Errorf "webhook request requires a name and body" []) in
  let! id := lift (c_uuid c) in
  let! _ := exec (create_request (request_of c id daemonID name body signature invokedBy)) in
  ret (viewWebhookRequest (request_of c id daemonID name body signature invokedBy)).
Lemma enqueue_row_spec c daemonID name body signature invokedBy s r s' : enqueue_row c daemonID name body signature invokedBy s = (r, s') ->
  match r with
  | Ok v => exists id, c_uuid c = Ok id /\ let q := request_of c id daemonID name body signature invokedBy in
      v = viewWebhookRequest q /\ t_requests (rows s) !! id = None /\ rows s' = with_requests <[id := q]> (rows s) /\
      TrimSpace name <> [] /\ body <> [] /\ Z.of_nat (List.length body) <= webhookBodyLimit
  | Err _ => rows s' = rows s
  end.
Proof.
  intros [(e & He & ->)|(u & s1 & H1 & Hr)]%bind_inv; [by eapply reads_when|]. injection H1 as Hg <-. apply guard_ok in Hg. bools.
  apply bind_inv in Hr as [(e & He & ->)|(i & s1 & Hi & Hr)]; [by eapply reads_lift|]. injection Hi as Hi <-.
  apply bind_inv in Hr as [(e & He & ->)|(v & s2 & Hc & [= <- <-])].
  - by apply (sql_change _ _ _ _ _ _ (create_request_law _)) in He.
  - apply (sql_change _ _ _ _ _ _ (create_request_law _)) in Hc as [Hn Hs]. exists i. by split_and!.
Qed.
Lemma enqueue_with_credential c account daemonID name body signature invokedBy q s :
  EnqueueWebhook c account daemonID name body signature invokedBy (Some q) s =
  bind (let! _ := authorizeCredential q daemonID name in exec (update_last_used (cr_ID q) (c_now c)))
    (fun _ => enqueue_row c daemonID name body signature invokedBy) s.
Proof. done. Qed.
Lemma enqueue_credential_spec c account daemonID name body signature invokedBy q s r s' :
  EnqueueWebhook c account daemonID name body signature invokedBy (Some q) s = (r, s') ->
  match r with
  | Ok v => in_scope (rows s) q daemonID name /\ exists id, c_uuid c = Ok id /\ let row := request_of c id daemonID name body signature invokedBy in
      v = viewWebhookRequest row /\ t_requests (rows s) !! id = None /\ rows s' = with_requests <[id := row]> (used c q (rows s)) /\
      TrimSpace name <> [] /\ body <> [] /\ Z.of_nat (List.length body) <= webhookBodyLimit
  | Err _ => rows s' = rows s \/ in_scope (rows s) q daemonID name /\ rows s' = used c q (rows s)
  end.
Proof.
  rewrite enqueue_with_credential. intros [(e & He & ->)|(u & s1 & Hu & Hr)]%bind_inv.
  - apply bind_inv in He as [(e' & He & [= ->])|([] & s1 & Ha & Hu)]; [left; by eapply reads_authorizeCredential|].
    apply reads_authorizeCredential in Ha. left. apply (sql_change _ _ _ _ _ _ (update_last_used_law _ _)) in Hu. congruence.
  - apply bind_ok in Hu as ([] & s2 & Ha & Hu). pose proof (authorizeCredential_ok _ _ _ _ _ Ha) as Hin. apply reads_authorizeCredential in Ha.
    apply (sql_change _ _ _ _ _ _ (update_last_used_law _ _)) in Hu. rewrite Ha in Hu. apply enqueue_row_spec in Hr.
    destruct r as [v|e]; [|right; split; [done|]; by rewrite Hr, Hu]. split; [done|]. destruct Hr as (i & Hi & Hv & Hn & Hs & Hb). exists i.
    rewrite Hu in Hs, Hn. done.
Qed.

(** A credential enqueues a request only within its scopes - the daemon, the host of
    the daemon and the name each in its list when the list is not empty - and then
    stores exactly the pending request of that name, body and signature; out of scope
    nothing is stored. Nothing else is asked: the outcome is the same for every account
    and whatever the workspace service says, so an unrestricted credential enqueues for
    every daemon of every workspace. *)
Theorem credential_enqueue_exact c account daemonID name body signature invokedBy q s r s' :
  EnqueueWebhook c account daemonID name body signature invokedBy (Some q) s = (r, s') ->
  match r with
  | Ok v => in_scope (rows s) q daemonID name /\ exists id, c_uuid c = Ok id /\ let row := request_of c id daemonID name body signature invokedBy in
      v = viewWebhookRequest row /\ t_requests (rows s) !! id = None /\ rows s' = with_requests <[id := row]> (used c q (rows s)) /\
      TrimSpace name <> [] /\ body <> [] /\ Z.of_nat (List.length body) <= webhookBodyLimit
  | Err _ => rows s' = rows s \/ in_scope (rows s) q daemonID name /\ rows s' = used c q (rows s)
  end /\
  forall account' workspaces,
    EnqueueWebhook (mkCall (c_now c) (c_uuid c) (generateSecret c) (c_bcrypt c) workspaces) account' daemonID name body signature invokedBy (Some q) s = (r, s').
Proof. intros He. split; [by eapply enqueue_credential_spec|done]. Qed.

(** ** The service as a state machine *)

Inductive service_call :=
  | AsAccount (account id : str) (op : daemon_op)
  | AsCredential (q : CredentialRow) (account daemonID name body signature : str)
  | NewDaemon (account workspace name : str)
  | NewCredential (account label : str) (daemons hosts actions : list str)
  | DropCredential (account id : str)
  | Report (id secret : str) (input : list ActionInput)
  | Poll (id secret : str) (limit : Z)
  | Complete (id secret requestID : str) (code : Z) (body error : str).
Definition silent {A} (m : M A) : M (list WebhookRequestView) := let! _ := m in ret [].
(** One call, and the requests it hands out. *)
Definition serve (c : Call) (call : service_call) : M (list WebhookRequestView) :=
  match call with
  | AsAccount account id op => silent (serve_op c account id op)
  | AsCredential q account daemonID name body signature => silent (EnqueueWebhook c account daemonID name body signature (cr_Label q) (Some q))
  | NewDaemon account workspace name => silent (CreateDaemon c account workspace name)
  | NewCredential account label daemons hosts actions => silent (CreateCredential c account label daemons hosts actions)
  | DropCredential account id => silent (DeleteCredential account id)
  | Report id secret input => silent (SyncActions c id secret input)
  | Poll id secret limit => ListPendingWebhooks c id secret limit
  | Complete id secret requestID code body error => silent (CompleteWebhook c id secret requestID code body error)
  end.
Definition handed (now : Z) (r : res (list WebhookRequestView)) : list (Z * str) :=
  match r with Ok views => (fun v => (now, wv_ID v)) <$> views | Err _ => [] end.
(** Calls one after the other, whatever each answers. *)
Fixpoint serve_all (calls : list (Call * service_call)) (s : db) : list (Z * str) * db :=
  match calls with
  | [] => ([], s)
  | (c, call) :: calls =>
      let '(r, s) := serve c call s in
      let '(h, s) := serve_all calls s in
      (handed (c_now c) r ++ h, s)
  end.
(** The clock does not go back. *)
Fixpoint clock_from (now : Z) (calls : list (Call * service_call)) : Prop :=
  match calls with
  | [] => True
  | (c, _) :: calls => now <= c_now c /\ clock_from (c_now c) calls
  end.

(** What a request keeps, and how it moves. *)
Definition same_request (r r' : WebhookRequest) : Prop :=
  wr_ID r' = wr_ID r /\ wr_DaemonID r' = wr_DaemonID r /\ wr_Name r' = wr_Name r /\ wr_Body r' = wr_Body r /\
  wr_Signature r' = wr_Signature r /\ wr_InvokedBy r' = wr_InvokedBy r /\ wr_CreatedAt r' = wr_CreatedAt r.
Inductive moves (now : Z) (r : WebhookRequest) : WebhookRequest -> Prop :=
  | mv_same : moves now r r
  | mv_released at_ : wr_Status r = webhookStatusLeased -> wr_LeasedAt r = Some at_ -> at_ < now - webhookLeaseDuration ->
      moves now r (set_lease webhookStatusPending None now r)
  | mv_leased : wr_Status r = webhookStatusPending -> moves now r (set_lease webhookStatusLeased (Some now) now r)
  | mv_renewed at_ : wr_Status r = webhookStatusLeased -> wr_LeasedAt r = Some at_ -> at_ < now - webhookLeaseDuration ->
      moves now r (set_lease webhookStatusLeased (Some now) now r)
  | mv_done code body error : wr_Status r = webhookStatusLeased -> moves now r (set_result webhookStatusDone code body error now r).
Lemma statuses : webhookStatusPending <> webhookStatusLeased /\ webhookStatusPending <> webhookStatusDone /\ webhookStatusLeased <> webhookStatusDone.
Proof. by vm_compute. Qed.
Lemma moves_keeps now r r' : moves now r r' -> same_request r r' /\ (wr_Status r = webhookStatusDone -> r' = r).
Proof.
  destruct statuses as (N1 & N2 & N3). intros [| | | |]; (split; [by split_and!|]); intros Hs; try done; exfalso; congruence.
Qed.
(** A call's effect on the queue: every request moves, the new ones are pending, and the
    ones handed out were not leased and now are. *)
Record queue_step (now : Z) (t : tables) (r : res (list WebhookRequestView)) (t' : tables) : Prop := {
  qs_moves : forall i q, t_requests t !! i = Some q -> exists q', t_requests t' !! i = Some q' /\ moves now q q';
  qs_new : forall i q, t_requests t' !! i = Some q -> t_requests t !! i = None -> wr_Status q = webhookStatusPending;
  qs_handed : forall i, (now, i) ∈ handed now r -> exists q, t_requests t !! i = Some q /\
    (wr_Status q = webhookStatusPending \/ wr_Status q = webhookStatusLeased /\ exists at_, wr_LeasedAt q = Some at_ /\ at_ < now - webhookLeaseDuration) /\
    t_requests t' !! i = Some (set_lease webhookStatusLeased (Some now) now q);
  qs_once : NoDup (handed now r);
}.
Lemma queue_step_quiet now t r t' : (handed now r = []) -> (forall i q, t_requests t !! i = Some q -> t_requests t' !! i = Some q) ->
  (forall i q, t_requests t' !! i = Some q -> t_requests t !! i = Some q \/ wr_Status q = webhookStatusPending) -> queue_step now t r t'.
Proof.
  intros Hr Hk Hn. split; rewrite ?Hr; [|intros i q [Hq|Hq]%Hn Hi; [congruence|done]|by intros i Hi%not_elem_of_nil|constructor].
  intros i q Hq%Hk. exists q. split; [done|constructor].
Qed.
Lemma queue_step_same now t r t' : handed now r = [] -> t_requests t' = t_requests t -> queue_step now t r t'.
Proof. intros Hr Ht. apply queue_step_quiet; rewrite ?Ht; auto. Qed.

Definition keeps_queue {A} (m : M A) : Prop := forall s r s', m s = (r, s') -> t_requests (rows s') = t_requests (rows s).
Lemma keeps_reads {A} (m : M A) : reads m -> keeps_queue m.
Proof. by intros Hm s r s' ->%Hm. Qed.
Lemma keeps_bind {A B} (m : M A) (k : A -> M B) : keeps_queue m -> (forall a, keeps_queue (k a)) -> keeps_queue (bind m k).
Proof.
  intros Hm Hk s r s' [(e & He & _)|(a & s1 & H1 & H2)]%bind_inv; [by eapply Hm|]. rewrite (Hk a _ _ _ H2). by eapply Hm.
Qed.
Lemma keeps_sql {A} missing (m : db -> (A + db_error) * db) effect : changes m effect ->
  (forall t a t', effect t a t' -> t_requests t' = t_requests t) -> keeps_queue (sql missing m).
Proof. intros Hc He s r s' Hr. apply (sql_change _ _ _ _ _ _ Hc) in Hr. destruct r; [by eapply He|by rewrite Hr]. Qed.
Lemma keeps_transaction {A} (m : M A) : keeps_queue m -> keeps_queue (Transaction m).
Proof. intros Hm s r s' Hr%Transaction_law. destruct r; [|by rewrite Hr]. destruct Hr as (s0 & s1 & H0 & Hf%Hm & ->). by rewrite Hf, H0. Qed.
Lemma keeps_create_daemon c account workspace name : keeps_queue (CreateDaemon c account workspace name).
Proof.
  unfold CreateDaemon. repeat (apply keeps_bind; [first [apply keeps_reads, reads_lift|apply keeps_reads, reads_when|eapply keeps_reads, reads_sql, count_daemons_law|idtac]|intros ?]);
    [|apply keeps_reads, reads_ret]. eapply keeps_sql; [apply create_daemon_law|]. by intros t a' t' [_ ->].
Qed.
Lemma keeps_create_credential c account label daemons hosts actions : keeps_queue (CreateCredential c account label daemons hosts actions).
Proof.
  unfold CreateCredential. repeat (apply keeps_bind; [first [apply keeps_reads, reads_lift|apply keeps_reads, reads_when|idtac]|intros ?]);
    [|apply keeps_reads, reads_ret]. eapply keeps_sql; [apply create_credential_law|]. by intros t a' t' [_ ->].
Qed.
Lemma keeps_delete_credential account id : keeps_queue (DeleteCredential account id).
Proof.
  apply keeps_bind; [|intros; apply keeps_reads, reads_when]. eapply keeps_sql; [apply delete_credential_law|].
  cbn. intros t n t' Ht. destruct (t_credentials t !! id) as [q|]; [case_bool_decide|]; destruct Ht as [_ ->]; done.
Qed.
Lemma keeps_sync c id secret input : keeps_queue (SyncActions c id secret input).
Proof.
  apply keeps_bind; [apply keeps_reads, reads_authenticate|intros d]. apply keeps_bind; [apply keeps_reads, reads_lift|intros l].
  apply keeps_transaction, keeps_bind; [eapply keeps_sql; [apply delete_actions_law|by intros t a t' ->]|intros _].
  case_bool_decide; [apply keeps_reads, reads_ret|eapply keeps_sql; [apply create_actions_law|by intros t a t' ->]].
Qed.

Lemma silent_inv {A} (m : M A) s r s' now : silent m s = (r, s') -> (exists r0, m s = (r0, s')) /\ handed now r = [].
Proof. intros [(e & He & ->)|(a & s1 & Ha & [= <- <-])]%bind_inv; eauto. Qed.
Lemma serve_silent {A} (m : M A) c s r s' : keeps_queue m -> silent m s = (r, s') -> queue_step (c_now c) (rows s) r (rows s').
Proof. intros Hm [[r0 Hr%Hm] Hh]%(silent_inv m s r s' (c_now c)). by apply queue_step_same. Qed.
Lemma account_step c account id op s r s' : silent (serve_op c account id op) s = (r, s') -> queue_step (c_now c) (rows s) r (rows s').
Proof.
  intros [[r0 Hr] Hh]%(silent_inv _ _ _ _ (c_now c)). destruct (op_guarded c account id op s r0 s' Hr) as [_ Hc].
  apply queue_step_quiet; [done|exact (cf_requests _ _ _ Hc)|]. intros i q Hq. destruct (cf_new_requests _ _ _ Hc i q Hq) as [Hi|[_ Hi]]; auto.
Qed.
Lemma credential_step c account daemonID name body signature q s r s' :
  silent (EnqueueWebhook c account daemonID name body signature (cr_Label q) (Some q)) s = (r, s') -> queue_step (c_now c) (rows s) r (rows s').
Proof.
  intros [[r0 Hr] Hh]%(silent_inv _ _ _ _ (c_now c)). apply enqueue_credential_spec in Hr. destruct r0 as [v|e].
  - destruct Hr as (_ & i & _ & _ & Hn & Hs & _). apply queue_step_quiet; [done| |]; rewrite Hs; cbn.
    + intros j x Hx. rewrite lookup_insert_ne; [done|congruence].
    + intros j x [[<- <-]|[_ Hx]]%lookup_insert_Some; [by right|by left].
  - apply queue_step_same; [done|]. by destruct Hr as [Hr|[_ Hr]]; rewrite Hr.
Qed.
Lemma complete_step c id secret i code body error s r s' :
  silent (CompleteWebhook c id secret i code body error) s = (r, s') -> queue_step (c_now c) (rows s) r (rows s').
Proof.
  intros [[r0 Hr] Hh]%(silent_inv _ _ _ _ (c_now c)). apply complete_spec in Hr as [Hr|(q & Hq & Hw & Hr)]; [apply queue_step_same; by rewrite ?Hr|].
  apply andb_true_iff in Hw as [_ Hw%bool_decide_eq_true]. split; rewrite ?Hh; try (intros j Hj; by apply not_elem_of_nil in Hj); [| |constructor]; rewrite Hr; cbn.
  - intros j x Hx. destruct (decide (j = i)) as [->|Hn].
    + rewrite lookup_insert_eq. replace x with q by congruence. eexists. split; [done|by constructor].
    + rewrite lookup_insert_ne by done. exists x. split; [done|constructor].
  - intros j x [[<- <-]|[_ Hx]]%lookup_insert_Some Hn; congruence.
Qed.

(** The request of a row after a poll's two updates. *)
Lemma polled_row daemon now ids m i q : m !! i = Some q ->
  lease daemon ids now (release daemon now m) !! i =
    Some (let q1 := if expired daemon now q then set_lease webhookStatusPending None now q else q in
          if of_daemon_in daemon ids q1 then set_lease webhookStatusLeased (Some now) now q1 else q1).
Proof. intros Hi. unfold lease, release. by apply lookup_update_where, lookup_update_where. Qed.
Lemma expired_true daemon now q : expired daemon now q = true ->
  wr_Status q = webhookStatusLeased /\ exists at_, wr_LeasedAt q = Some at_ /\ at_ < now - webhookLeaseDuration.
Proof. unfold expired, leased_before. intros He. bools. split; [done|]. destruct (wr_LeasedAt q) as [a|]; [|done]. bools. by exists a. Qed.
Lemma poll_handed c id l limit s i q :
  oldest (of_daemon_with id webhookStatusPending) limit (with_requests (release id (c_now c)) (rows s)) l ->
  t_requests (rows s) !! i = Some q -> i ∈ wr_ID <$> l ->
  (wr_Status q = webhookStatusPending \/ wr_Status q = webhookStatusLeased /\ exists at_, wr_LeasedAt q = Some at_ /\ at_ < c_now c - webhookLeaseDuration) /\
  lease id (wr_ID <$> l) (c_now c) (release id (c_now c) (t_requests (rows s))) !! i = Some (set_lease webhookStatusLeased (Some (c_now c)) (c_now c) q).
Proof.
  intros Ho Hq Hi. rewrite (polled_row _ _ _ _ _ _ Hq). pose proof (keyed_requests _ _ _ Hq) as Hid.
  pose proof Hi as Hin. apply list_elem_of_fmap in Hi as (x & Hx0 & Hx). apply (ol_rows _ _ _ _ Ho) in Hx as [Hx Hw].
  cbn [with_requests t_requests] in Hx. rewrite <-Hx0 in Hx. unfold release in Hx. rewrite (lookup_update_where _ _ _ _ _ Hq) in Hx.
  injection Hx as Hx. apply andb_true_iff in Hw as [Hd%bool_decide_eq_true Hw%bool_decide_eq_true]. cbv zeta. rewrite Hx.
  assert (Hof : of_daemon_in id (wr_ID <$> l) x = true) by (unfold of_daemon_in; by rewrite !bool_decide_true by congruence).
  rewrite Hof. destruct (expired id (c_now c) q) eqn:He; subst x; [|by split; [left|]].
  split; [right; by eapply expired_true|done].
Qed.
Lemma released_moves id now q : moves now q (if expired id now q then set_lease webhookStatusPending None now q else q).
Proof. destruct (expired id now q) eqn:He; [|constructor]. destruct (expired_true _ _ _ He) as (Hs & a & Ha & Hl). by eapply mv_released. Qed.
Lemma poll_step c id secret limit s r s' : ListPendingWebhooks c id secret limit s = (r, s') -> queue_step (c_now c) (rows s) r (rows s').
Proof.
  intros Hp%poll_spec. destruct r as [views|e].
  - destruct Hp as (_ & l & Ho & -> & Hr).
    assert (Hh : handed (c_now c) (Ok (viewWebhookRequest <$> l)) = (fun i => (c_now c, i)) <$> (wr_ID <$> l)).
    { cbn. rewrite <-!list_fmap_compose. done. }
    split; rewrite ?Hh, ?Hr; cbn [with_requests t_requests].
    + intros i q Hq. destruct (decide (i ∈ wr_ID <$> l)) as [Hi|Hi].
      * destruct (poll_handed c id l _ s i q Ho Hq Hi) as [Hs Hl]. eexists. split; [exact Hl|].
        destruct Hs as [Hs|(Hs & a & Ha & Hlt)]; [by apply mv_leased|by eapply mv_renewed].
      * rewrite (polled_row _ _ _ _ _ _ Hq). eexists. split; [done|]. cbv zeta. unfold of_daemon_in at 1.
        replace (wr_ID (if expired id (c_now c) q then _ else q)) with i; [|rewrite <-(keyed_requests _ _ _ Hq); by destruct (expired id (c_now c) q)].
        rewrite (bool_decide_false (i ∈ _)), andb_false_r by done. apply released_moves.
    + intros i q Hq Hn. unfold lease, release in Hq. by rewrite (lookup_update_where_None _ _ _ _ (lookup_update_where_None _ _ _ _ Hn)) in Hq.
    + intros i Hi. apply list_elem_of_fmap in Hi as (j & [= <-] & Hi). pose proof Hi as Hin. apply list_elem_of_fmap in Hi as (x & -> & Hx).
      apply (ol_rows _ _ _ _ Ho) in Hx as [Hx _]. cbn [with_requests t_requests] in Hx.
      destruct (t_requests (rows s) !! wr_ID x) as [q|] eqn:Eq; [|unfold release in Hx; by rewrite (lookup_update_where_None _ _ _ _ Eq) in Hx].
      exists q. split; [done|]. by eapply poll_handed.
    + apply NoDup_fmap_2; [by intros ?? [= ->]|]. apply (ol_distinct _ _ _ _ Ho).
  - destruct Hp as [Hp|Hp]; [by apply queue_step_same; rewrite ?Hp|]. split; rewrite ?Hp; cbn [with_requests t_requests handed].
    + intros i q Hq. unfold release. rewrite (lookup_update_where _ _ _ _ _ Hq). eexists. split; [done|apply released_moves].
    + intros i q Hq Hn. unfold release in Hq. by rewrite (lookup_update_where_None _ _ _ _ Hn) in Hq.
    + by intros i Hi%not_elem_of_nil.
    + constructor.
Qed.
Lemma serve_step c call s r s' : serve c call s = (r, s') -> queue_step (c_now c) (rows s) r (rows s').
Proof.
  destruct call; cbn [serve].
  - apply account_step.
  - apply credential_step.
  - apply serve_silent, keeps_create_daemon.
  - apply serve_silent, keeps_create_credential.
  - apply serve_silent, keeps_delete_credential.
  - apply serve_silent, keeps_sync.
  - apply poll_step.
  - apply complete_step.
Qed.

(** The state of a request handed out at [t1], any time later. *)
Definition was_handed (i : str) (t1 cur : Z) (t : tables) : Prop := exists q, t_requests t !! i = Some q /\
  (wr_Status q = webhookStatusLeased /\ (exists at_, wr_LeasedAt q = Some at_ /\ t1 <= at_) \/ wr_Status q = webhookStatusDone \/
   wr_Status q = webhookStatusPending /\ t1 + webhookLeaseDuration < cur).
Lemma handed_time now r t i : (t, i) ∈ handed now r -> t = now.
Proof. destruct r as [views|e]; [|by intros ?%not_elem_of_nil]. by intros (v & [= -> ->] & _)%list_elem_of_fmap. Qed.
Lemma was_handed_step i t1 cur now t r t' : was_handed i t1 cur t -> cur <= now -> queue_step now t r t' ->
  was_handed i t1 now t' /\ ((now, i) ∈ handed now r -> t1 + webhookLeaseDuration < now).
Proof.
  destruct statuses as (N1 & N2 & N3). intros (q & Hq & Hs) Hc Hstep. split.
  - destruct (qs_moves _ _ _ _ Hstep i q Hq) as (q' & Hq' & Hm). exists q'. split; [done|].
    destruct Hs as [(Hs & a & Ha & Hl)|[Hs|[Hs Hl]]]; inversion Hm as [|a' Hs' Ha' Hlt|Hs'|a' Hs' Ha' Hlt|code body error Hs']; subst; cbn;
      try congruence; try (by right; left).
    + left. split; [done|]. by exists a.
    + right; right. split; [done|]. assert (a' = a) as -> by congruence. lia.
    + left. split; [done|]. exists now. split; [done|]. assert (a' = a) as -> by congruence. unfold webhookLeaseDuration in *. lia.
    + right; right. split; [done|lia].
    + left. split; [done|]. exists now. unfold webhookLeaseDuration in *. split; [done|lia].
  - intros Hi. destruct (qs_handed _ _ _ _ Hstep i Hi) as (q' & Hq' & Hs' & _). replace q' with q in * by congruence.
    destruct Hs as [(Hs & a & Ha & Hl)|[Hs|[Hs Hl]]], Hs' as [Hs'|(Hs' & a' & Ha' & Hlt)]; try congruence; [|lia].
    assert (a' = a) as -> by congruence. lia.
Qed.
Lemma just_handed i now t r t' : (now, i) ∈ handed now r -> queue_step now t r t' -> was_handed i now now t'.
Proof.
  intros Hi Hstep. destruct (qs_handed _ _ _ _ Hstep i Hi) as (q & _ & _ & Hq). eexists. split; [exact Hq|]. left. split; [done|]. by exists now.
Qed.
Lemma never_again i t1 calls : forall s h s' cur, serve_all calls s = (h, s') -> clock_from cur calls -> was_handed i t1 cur (rows s) ->
  forall t2, (t2, i) ∈ h -> t1 + webhookLeaseDuration < t2.
Proof.
  induction calls as [|[c call] calls IH]; intros s h s' cur Hs Hc Hw t2; cbn in Hs; [injection Hs as <- _; by intros ?%not_elem_of_nil|].
  destruct (serve c call s) as [r s1] eqn:E1, (serve_all calls s1) as [h1 s2] eqn:E2. injection Hs as <- <-. destruct Hc as [Hc Hcs].
  destruct (was_handed_step _ _ _ _ _ _ _ Hw Hc (serve_step _ _ _ _ _ E1)) as [Hw1 Hn].
  intros [Hi|Hi]%elem_of_app; [|by eapply IH]. by rewrite (handed_time _ _ _ _ Hi) in Hi |- *; apply Hn.
Qed.
Definition apart (x y : Z * str) : Prop := x.2 = y.2 -> x.1 + webhookLeaseDuration < y.1.
Lemma pairs_app {A} (R : A -> A -> Prop) l k : ForallOrdPairs R l -> ForallOrdPairs R k -> (forall x y, x ∈ l -> y ∈ k -> R x y) -> ForallOrdPairs R (l ++ k).
Proof.
  intros Hl Hk. induction Hl as [|x l Hx Hl IH]; cbn; [done|]. intros Hlk. constructor.
  - apply Forall_app. split; [done|]. apply Forall_forall. intros y Hy. apply Hlk; [by left|done].
  - apply IH. intros y z Hy. apply Hlk. by right.
Qed.
Lemma pairs_distinct (l : list (Z * str)) now : NoDup l -> (forall x, x ∈ l -> x.1 = now) -> ForallOrdPairs apart l.
Proof.
  induction 1 as [|x l Hx Hl IH]; intros Ht; constructor; [|apply IH; intros y Hy; apply Ht; by right].
  apply Forall_forall. intros y Hy Hxy. exfalso. apply Hx. replace x with y; [done|]. destruct x as [tx ix], y as [ty iy]. cbn in Hxy. subst iy.
  f_equal. etrans; [apply (Ht (ty, ix)); by right|symmetry; apply (Ht (tx, ix)); by left].
Qed.
Lemma leases_exclusive calls : forall s h s' cur, serve_all calls s = (h, s') -> clock_from cur calls -> ForallOrdPairs apart h.
Proof.
  induction calls as [|[c call] calls IH]; intros s h s' cur Hs Hc; cbn in Hs; [injection Hs as <- _; constructor|].
  destruct (serve c call s) as [r s1] eqn:E1, (serve_all calls s1) as [h1 s2] eqn:E2. injection Hs as <- <-. destruct Hc as [Hc Hcs].
  pose proof (serve_step _ _ _ _ _ E1) as Hstep. apply pairs_app; [|by eapply IH|].
  - apply (pairs_distinct _ (c_now c)); [apply (qs_once _ _ _ _ Hstep)|]. intros [t i] Hi. by eapply handed_time.
  - intros [t1 i] [t2 j] Hi Hj. intros Hij. cbn in Hij |- *. subst j. rewrite (handed_time _ _ _ _ Hi) in Hi |- *.
    eapply never_again; [exact E2|exact Hcs|by eapply just_handed|done].
Qed.
Lemma kept_by_all calls : forall s h s' i q, serve_all calls s = (h, s') -> t_requests (rows s) !! i = Some q ->
  exists q', t_requests (rows s') !! i = Some q' /\ same_request q q' /\ (wr_Status q = webhookStatusDone -> q' = q).
Proof.
  induction calls as [|[c call] calls IH]; intros s h s' i q Hs Hq; cbn in Hs; [injection Hs as _ <-; by exists q|].
  destruct (serve c call s) as [r s1] eqn:E1, (serve_all calls s1) as [h1 s2] eqn:E2. injection Hs as _ <-.
  destruct (qs_moves _ _ _ _ (serve_step _ _ _ _ _ E1) i q Hq) as (q1 & Hq1 & [Hsame Hdone]%moves_keeps).
  destruct (IH _ _ _ _ _ E2 Hq1) as (q' & Hq' & Hsame' & Hdone'). exists q'. split; [done|]. split.
  - destruct Hsame as (A1 & A2 & A3 & A4 & A5 & A6 & A7), Hsame' as (B1 & B2 & B3 & B4 & B5 & B6 & B7). by split_and!; etrans.
  - intros Hd. pose proof (Hdone Hd) as ->. by apply Hdone'.
Qed.
Lemma done_not_handed calls : forall s h s' i q t, serve_all calls s = (h, s') -> t_requests (rows s) !! i = Some q ->
  wr_Status q = webhookStatusDone -> (t, i) ∉ h.
Proof.
  destruct statuses as (N1 & N2 & N3).
  induction calls as [|[c call] calls IH]; intros s h s' i q t Hs Hq Hd; cbn in Hs; [injection Hs as <- _; by apply not_elem_of_nil|].
  destruct (serve c call s) as [r s1] eqn:E1, (serve_all calls s1) as [h1 s2] eqn:E2. injection Hs as <- _.
  pose proof (serve_step _ _ _ _ _ E1) as Hstep. intros [Hi|Hi]%elem_of_app.
  - rewrite (handed_time _ _ _ _ Hi) in Hi. destruct (qs_handed _ _ _ _ Hstep i Hi) as (q' & Hq' & [Hw|[Hw _]] & _); congruence.
  - destruct (qs_moves _ _ _ _ Hstep i q Hq) as (q1 & Hq1 & [_ Heq]%moves_keeps). rewrite (Heq Hd) in Hq1. by eapply IH.
Qed.

(** C9. The relay queue, over every sequence of calls of accounts, credentials and
    daemons: a stored request is never lost and keeps its identifier, daemon, name,
    body, signature, invoker and time; once its result is stored, neither it nor its
    result changes any more. While the clock does not go back, leases are exclusive: the
    same request is handed out again only more than two minutes after it was handed out
    before, and never after its result was stored. *)
Theorem queue_sound calls s h s' cur : serve_all calls s = (h, s') -> clock_from cur calls ->
  (forall i q, t_requests (rows s) !! i = Some q ->
     exists q', t_requests (rows s') !! i = Some q' /\ same_request q q' /\ (wr_Status q = webhookStatusDone -> q' = q)) /\
  (forall i q t, t_requests (rows s) !! i = Some q -> wr_Status q = webhookStatusDone -> (t, i) ∉ h) /\
  ForallOrdPairs apart h.
Proof.
  intros Hs Hc. split; [|split].
  - intros i q. by eapply kept_by_all.
  - intros i q t. by eapply done_not_handed.
  - by eapply leases_exclusive.
Qed.

(** ** Scopes as stored *)

Lemma TrimSpace_infix s : exists p q, s = p ++ TrimSpace s ++ q.
Proof.
  unfold TrimSpace, TrimRightSpace. set (t := TrimLeftSpace s).
  destruct (strip_suffix lead lead_suffix (List.length s) s) as [p Hp]. fold (TrimLeftSpace s) in Hp. fold t in Hp.
  destruct (strip_suffix trail trail_suffix (List.length t) (rev t)) as [q Hq].
  exists p, (rev q). rewrite <-rev_app_distr, <-Hq, rev_involutive. done.
Qed.
Lemma TrimSpace_notin c s : c ∉ s -> c ∉ TrimSpace s.
Proof. intros Hs Ht. apply Hs. destruct (TrimSpace_infix s) as (p & q & ->). by apply elem_of_app; right; apply elem_of_app; left. Qed.
Definition scope_of (parts : list str) (x : str) : Prop := x <> [] /\ Z.of_nat (List.length x) <= 191 /\ x ∈ TrimSpace <$> parts.
Lemma kept_scopes_spec parts : forall seen, NoDup (kept_scopes seen parts) /\ forall x, x ∈ kept_scopes seen parts <-> scope_of parts x /\ x ∉ seen.
Proof.
  induction parts as [|p parts IH]; intros seen; cbn [kept_scopes].
  { split; [constructor|]. intros x. rewrite elem_of_nil. split; [done|]. by intros [(_ & _ & Hx%elem_of_nil) _]. }
  unfold scope_of. rewrite fmap_cons. setoid_rewrite elem_of_cons.
  destruct (bool_decide (TrimSpace p = []) || (191 <? Z.of_nat (List.length (TrimSpace p))) || bool_decide (TrimSpace p ∈ seen)) eqn:Hskip.
  - destruct (IH seen) as [Hn Hi]. split; [done|]. intros x. rewrite Hi. unfold scope_of. split; [by intros [(? & ? & ?) ?]; auto|].
    intros [(H1 & H2 & [->|H3]) H4]; [exfalso|done]. apply orb_true_iff in Hskip as [[Hs|Hs]%orb_true_iff|Hs]; bools; try done. apply Z.ltb_lt in Hs. lia.
  - destruct (IH (TrimSpace p :: seen)) as [Hn Hi]. bools. split; [constructor; [|done]; rewrite Hi, elem_of_cons; naive_solver|].
    intros x. rewrite elem_of_cons, Hi, elem_of_cons. unfold scope_of. destruct (decide (x = TrimSpace p)) as [->|Hx]; naive_solver lia.
Qed.
Lemma scopes_kept parts : Forall (fun p => ch "," ∉ p) parts -> splitCredentialScopes (joinCredentialScopes parts) = kept_scopes [] parts.
Proof.
  intros Hp. destruct (kept_scopes_spec parts []) as [_ Hi]. unfold splitCredentialScopes, joinCredentialScopes.
  assert (Hk : forall x, x ∈ kept_scopes [] parts -> x <> [] /\ TrimSpace x = x /\ ch "," ∉ x).
  { intros x [(Hx & _ & (p & -> & Hin)%list_elem_of_fmap) _]%Hi. split; [done|]. split; [apply TrimSpace_idem|].
    apply TrimSpace_notin. by eapply Forall_forall in Hp. }
  clear Hi. generalize dependent (kept_scopes [] parts). intros l Hk. destruct l as [|x l]; [done|].
  change ($",") with [ch ","]. rewrite split_join; [|done|by apply Forall_forall; intros y Hy; apply Hk].
  assert (Hm : TrimSpace <$> x :: l = x :: l).
  { etrans; [|apply list_fmap_id]. apply list_fmap_ext. intros i y Hy. by apply Hk, list_elem_of_lookup_2 with i. }
  rewrite Hm. clear Hm. induction (x :: l) as [|y k IH]; [done|]. rewrite filter_cons_True by (by apply Hk; left). f_equal. apply IH.
  intros z Hz. apply Hk. by right.
Qed.

(** The scopes a credential is given, when none has a comma in it, are read back as
    given: each once, without the white space around it, and without the blank ones and
    the ones of more than 191 bytes. When only such were given the dimension is stored
    as the empty list, which restricts nothing. *)
Theorem scopes_roundtrip parts : Forall (fun p => ch "," ∉ p) parts ->
  let scopes := splitCredentialScopes (joinCredentialScopes parts) in
  NoDup scopes /\ (forall x, x ∈ scopes <-> scope_of parts x) /\
  ((forall p, p ∈ parts -> TrimSpace p = [] \/ 191 < Z.of_nat (List.length (TrimSpace p))) -> forall x, outside scopes x = false).
Proof.
  intros Hp scopes. unfold scopes. rewrite scopes_kept by done. destruct (kept_scopes_spec parts []) as [Hn Hi]. split; [done|]. split.
  - intros x. rewrite Hi. split; [by intros []|]. intros Hx. split; [done|apply not_elem_of_nil].
  - intros Hall x. apply outside_false. left. destruct (kept_scopes [] parts) as [|y l]; [done|exfalso].
    destruct (proj1 (Hi y)) as [(Hy & Hl & (p & -> & Hin)%list_elem_of_fmap) _]; [by left|]. destruct (Hall p Hin); [done|lia].
Qed.

(** ** Secrets and quotas *)

Lemma rotate_spec c account id s r s' : RotateSecret c account id s = (r, s') ->
  match r with
  | Ok secret => exists d hash, t_daemons (rows s) !! id = Some d /\ confirmed c account (dm_WorkspaceID d) /\
      generateSecret c = Ok secret /\ c_bcrypt c secret = Ok hash /\ rows s' = with_daemons <[id := with_secret hash d]> (rows s)
  | Err _ => rows s' = rows s
  end.
Proof.
  intros [(e & He & ->)|(d & s1 & Hd & Hr)]%bind_inv; [by eapply reads_daemonForAccount|]. apply daemonForAccount_ok in Hd as (Hs & Hd & Hid & Hc).
  rewrite <-Hs in *. apply lift_inv in Hr as [(e & _ & -> & ->)|(secret & Hg & Hr)]; [done|].
  apply lift_inv in Hr as [(e & _ & -> & ->)|(hash & Hb & Hr)]; [done|].
  apply (sql_change_inv _ _ _ _ _ _ _ (save_daemon_law _)) in Hr as [(e & -> & Hr)|(u & s2 & Hr & [= <- <-])]; [done|].
  exists d, hash. split_and!; try done. rewrite Hr. cbn [dm_ID with_secret]. by rewrite Hid.
Qed.
Lemma disable_spec c account id s s' : DisableDaemon c account id s = (Ok tt, s') -> exists d, t_daemons (rows s') !! id = Some d /\ dm_Enabled d = false.
Proof.
  intros (s0 & s1 & H0 & Hf & ->)%Transaction_law. apply bind_ok in Hf as (d & s2 & Hd & Hf).
  apply (sql_query _ _ _ _ _ _ _ (first_daemon_law id)) in Hd as [H2 Hd]. pose proof (keyed_daemons _ _ _ Hd) as Hid.
  apply bind_ok in Hf as ([] & s3 & Ha & Hf). injection Ha as _ <-. apply bind_ok in Hf as (u & s4 & Hs & Hf).
  apply (sql_change _ _ _ _ _ _ (save_daemon_law _)) in Hs. apply (sql_change _ _ _ _ _ _ (update_disconnected_law _ _)) in Hf.
  rewrite Hf, Hs. cbn [t_daemons with_daemons dm_ID with_enabled]. erewrite lookup_update_where by (rewrite Hid; apply lookup_insert_eq).
  eexists. split; [done|]. by case_bool_decide.
Qed.

(** A secret that was rotated is the one the member was shown: after [RotateSecret]
    the daemon is authenticated only by secrets that match the hash of the new one, and
    nothing else of the daemon changed; a rotation that fails changes nothing. After
    [DisableDaemon] no secret authenticates the daemon. *)
Theorem secrets_exact c account id s :
  (forall r s', RotateSecret c account id s = (r, s') ->
     match r with
     | Ok secret => exists d hash, t_daemons (rows s) !! id = Some d /\ generateSecret c = Ok secret /\ c_bcrypt c secret = Ok hash /\
         rows s' = with_daemons <[id := with_secret hash d]> (rows s) /\
         forall attempt d' s2, authenticateDaemon id attempt s' = (Ok d', s2) -> d' = with_secret hash d /\ CompareHashAndPassword hash attempt = true
     | Err _ => rows s' = rows s
     end) /\
  (forall s', DisableDaemon c account id s = (Ok tt, s') -> forall attempt d' s2, authenticateDaemon id attempt s' <> (Ok d', s2)).
Proof.
  split.
  - intros r s' Hr%rotate_spec. destruct r as [secret|e]; [|done]. destruct Hr as (d & hash & Hd & _ & Hg & Hb & Hr). exists d, hash. split_and!; try done.
    intros attempt d' s2 (_ & Hd' & _ & Hc)%authenticate_ok. rewrite Hr in Hd'. cbn in Hd'. rewrite lookup_insert_eq in Hd'. injection Hd' as <-. done.
  - intros s' (d & Hd & He)%disable_spec attempt d' s2 (_ & Hd' & He' & _)%authenticate_ok. congruence.
Qed.

(** [CreateDaemon] answers only a confirmed member of the workspace, and only while
    the workspace has fewer daemons than its quota [max_daemons]: with the new daemon
    they are at most that many. The new row is the caller's, in that workspace, enabled,
    under a new identifier, and holds the hash of the secret that is shown; nothing else
    is stored, and a call that fails stores nothing. *)
Theorem daemon_created_exact c account workspace name s r s' : CreateDaemon c account workspace name s = (r, s') ->
  match r with
  | Ok (v, secret) => exists quotas d, confirmed c account (TrimSpace workspace) /\ workspaceQuota c (TrimSpace workspace) = Ok quotas /\
      Z.of_nat (size (filter (fun kv : str * Daemon => dm_WorkspaceID kv.2 = TrimSpace workspace) (t_daemons (rows s')))) <= dimension quotas "max_daemons" /\
      t_daemons (rows s) !! dm_ID d = None /\ rows s' = with_daemons <[dm_ID d := d]> (rows s) /\
      dm_AccountID d = account /\ dm_WorkspaceID d = TrimSpace workspace /\ dm_Name d = TrimSpace name /\ TrimSpace name <> [] /\
      dm_Enabled d = true /\ generateSecret c = Ok secret /\ c_bcrypt c secret = Ok (dm_SecretHash d) /\ v = viewDaemon d
  | Err _ => rows s' = rows s
  end.
Proof.
  intros Hr. unfold CreateDaemon in Hr. apply lift_inv in Hr as [(e & _ & -> & ->)|(u1 & _ & Hr)]; [done|].
  apply lift_inv in Hr as [(e & _ & -> & ->)|(u2 & Hn & Hr)]; [done|]. apply guard_ok, bool_decide_eq_false in Hn.
  apply lift_inv in Hr as [(e & _ & -> & ->)|([] & Ha & Hr)]; [done|]. apply authorizeWorkspace_ok in Ha.
  apply lift_inv in Hr as [(e & _ & -> & ->)|(quotas & Hq & Hr)]; [done|].
  apply (sql_query_inv _ _ _ _ _ _ _ _ (count_daemons_law _)) in Hr as [(e & -> & Hr)|(count & s1 & Hc & Hs1 & Hr)]; [done|]. rewrite <-Hs1 in *.
  apply lift_inv in Hr as [(e & _ & -> & ->)|(u3 & Hlt & Hr)]; [done|]. apply guard_ok, Z.leb_gt in Hlt.
  apply lift_inv in Hr as [(e & _ & -> & ->)|(secret & Hg & Hr)]; [done|].
  apply lift_inv in Hr as [(e & _ & -> & ->)|(hash & Hb & Hr)]; [done|].
  apply lift_inv in Hr as [(e & _ & -> & ->)|(id & Hi & Hr)]; [done|]. set (d := mkDaemon _ _ _ _ _ _ _ _ _ _ _) in Hr.
  apply (sql_change_inv _ _ _ _ _ _ _ (create_daemon_law d)) in Hr as [(e & -> & Hr)|(u & s2 & [Hnew Hr] & [= <- <-])]; [done|].
  exists quotas, d. split_and!; try done. rewrite Hr. cbn [with_daemons t_daemons].
  rewrite map_filter_insert_True by done. rewrite map_size_insert_None; [lia|]. apply map_lookup_filter_None. by left.
Qed.
End cloud.

(** ** Throttling *)

(** The reports that pass [enforcePollInterval], by time and daemon. *)
Fixpoint passed (reports : list (Daemon * gmap str Z * Z)) (pollHit : gmap str Z) : list (Z * str) :=
  match reports with
  | [] => []
  | (d, quotas, now) :: reports =>
      match enforcePollInterval d quotas now pollHit with
      | (Ok _, pollHit) => (now, dm_ID d) :: passed reports pollHit
      | (Err _, pollHit) => passed reports pollHit
      end
  end.
Fixpoint reports_from (now : Z) (reports : list (Daemon * gmap str Z * Z)) : Prop :=
  match reports with [] => True | (_, _, at_) :: reports => now <= at_ /\ reports_from at_ reports end.
(** A daemon's quota stays at [n] seconds. *)
Definition quota_is (id : str) (n : Z) (reports : list (Daemon * gmap str Z * Z)) : Prop :=
  Forall (fun r => dm_ID r.1.1 = id -> dimension r.1.2 "polling_interval_seconds" = n) reports.
Definition hour : Z := 3600000000000.
Definition hit_since (id : str) (t1 cur : Z) (pollHit : gmap str Z) : Prop :=
  match pollHit !! id with Some last => t1 <= last | None => t1 + hour < cur end.
Lemma seconds_exact n : 0 < n <= 3600 -> wrap64 (n * 1000000000) = n * 1000000000.
Proof. intros Hn. unfold wrap64. rewrite Z.mod_small; lia. Qed.
Lemma prune_hit id t1 now hits : hit_since id t1 now hits -> hit_since id t1 now (prune now hits).
Proof.
  unfold prune, hit_since, hour. destruct (10000 <? _); [|done]. destruct (hits !! id) as [last|] eqn:El.
  - intros Ht. destruct (decide (3600000000000 < time_Sub now last)) as [Hold|Hnew].
    + rewrite (proj2 (map_lookup_filter_None _ _ _)); [|right; intros x Hx; cbn; replace x with last by congruence; tauto].
      assert (3600000000000 < now - last) by (unfold time_Sub, max_int64, min_int64 in Hold; lia). lia.
    + rewrite (proj2 (map_lookup_filter_Some _ _ _ _) (conj El Hnew)). done.
  - intros Ht. by rewrite (proj2 (map_lookup_filter_None _ _ _)) by (by left).
Qed.
Lemma hit_step id n t1 cur d quotas now hits : 0 < n <= 3600 -> hit_since id t1 cur hits -> cur <= now ->
  (dm_ID d = id -> dimension quotas "polling_interval_seconds" = n) ->
  hit_since id t1 now (enforcePollInterval d quotas now hits).2 /\
  (dm_ID d = id -> is_ok (enforcePollInterval d quotas now hits).1 = true -> t1 + n * 1000000000 <= now).
Proof.
  intros Hn Hh Hc Hq. unfold enforcePollInterval.
  assert (Hnow : hit_since id t1 now hits) by (unfold hit_since in *; destruct (hits !! id); lia).
  destruct (dimension quotas "polling_interval_seconds" <=? 0) eqn:Ez; [split; [done|]; intros Hd; rewrite (Hq Hd) in Ez; apply Z.leb_le in Ez; lia|].
  assert (Hset : t1 <= now -> hit_since id t1 now (prune now (<[dm_ID d := now]> hits))).
  { intros Ht. apply prune_hit. unfold hit_since in *. destruct (decide (dm_ID d = id)) as [->|Hd]; [by rewrite lookup_insert_eq|by rewrite lookup_insert_ne]. }
  destruct (decide (dm_ID d = id)) as [Hd|Hd].
  - rewrite Hd in Hset |- *. rewrite (Hq Hd). unfold hit_since in Hnow. destruct (hits !! id) as [last|] eqn:El.
    + destruct (time_Sub now last <? _) eqn:Et; cbn [fst snd is_ok]; [split; [by unfold hit_since; rewrite El|done]|].
      apply Z.ltb_ge in Et. rewrite seconds_exact in Et by done. apply time_Sub_le in Et; [|lia]. split; [apply Hset; lia|intros _ _; lia].
    + cbn [fst snd]. unfold hour in Hnow. split; [apply Hset; lia|intros _ _; lia].
  - split; [|done]. destruct (hits !! dm_ID d) as [last|]; [destruct (time_Sub now last <? _); [done|]|]; cbn [snd];
      apply prune_hit; unfold hit_since in *; by rewrite lookup_insert_ne.
Qed.
Lemma passed_since id n t1 reports : forall cur hits, 0 < n <= 3600 -> hit_since id t1 cur hits -> reports_from cur reports -> quota_is id n reports ->
  forall t2, (t2, id) ∈ passed reports hits -> t1 + n * 1000000000 <= t2.
Proof.
  induction reports as [|[[d quotas] now] reports IH]; intros cur hits Hn Hh Hr Hq t2; cbn; [by intros ?%not_elem_of_nil|].
  destruct Hr as [Hc Hr]. apply Forall_cons in Hq as [Hq0 Hq]. destruct (hit_step id n t1 cur d quotas now hits Hn Hh Hc Hq0) as [Hs Ha].
  destruct (enforcePollInterval d quotas now hits) as [[[]|e] hits']; cbn [fst snd is_ok] in *; [|by apply (IH now)].
  intros [[= -> Hd]|Hi]%elem_of_cons; [by apply Ha|by apply (IH now hits')].
Qed.
Lemma just_passed id n d quotas now hits hits' : 0 < n -> dm_ID d = id -> dimension quotas "polling_interval_seconds" = n ->
  enforcePollInterval d quotas now hits = (Ok tt, hits') -> hit_since id now now hits'.
Proof.
  intros Hn Hd Hq. unfold enforcePollInterval. rewrite Hq, (proj2 (Z.leb_gt n 0)) by lia. intros He.
  assert (Hh : hits' = prune now (<[dm_ID d := now]> hits)) by (destruct (hits !! dm_ID d) as [last|]; [destruct (time_Sub now last <? _); [done|]|]; congruence).
  rewrite Hh. apply prune_hit. unfold hit_since. by rewrite Hd, lookup_insert_eq.
Qed.
(** The polling quota holds: of a daemon whose workspace allows one report in [n]
    seconds, up to an hour, two reports that pass are at least [n] seconds apart,
    whatever the other daemons report and whatever is pruned from the table in between. *)
Theorem reports_spaced id n reports : forall cur hits, 0 < n <= 3600 -> reports_from cur reports -> quota_is id n reports ->
  ForallOrdPairs (fun x y => x.2 = id -> y.2 = id -> x.1 + n * 1000000000 <= y.1) (passed reports hits).
Proof.
  induction reports as [|[[d quotas] now] reports IH]; intros cur hits Hn Hr Hq; cbn; [constructor|].
  destruct Hr as [Hc Hr]. apply Forall_cons in Hq as [Hq0 Hq]. destruct (enforcePollInterval d quotas now hits) as [[[]|e] hits'] eqn:Ee; [|by apply (IH now)].
  constructor; [|by apply (IH now)]. apply Forall_forall. intros [t2 id2] Hi Hd Hd2. cbn in Hd, Hd2 |- *. subst id2.
  eapply (passed_since id n now); [done| |exact Hr|exact Hq|exact Hi]. apply (just_passed id n d quotas now hits hits'); [lia|done|by apply Hq0|exact Ee].
Qed.

(** ** A small cloud *)

Definition demo_crypto : Crypto := {| CompareHashAndPassword h p := bool_decide (h = $"hash:" ++ p); sha256_hex t := $"sha:" ++ t |}.
Definition demo_workspaces : WorkspaceClient :=
  mkWorkspaceClient (fun w a _ => Ok (bool_decide (w = $"ws" /\ a = $"ada"))) (fun _ => Ok {[ $"max_daemons" := 2 ]}).
Definition demo_call (now : Z) (id : string) : Call := mkCall now (Ok ($id)) (Ok ($"fresh")) (fun p => Ok ($"hash:" ++ p)) (Some demo_workspaces).
Definition demo_daemon : Daemon := mkDaemon ($"d1") ($"ada") ($"ws") ($"box") ($"hash:old") ($"host-1") true false None None 0.
Definition demo_db : list_db := mkListDB [demo_daemon] [] [] [] no_feed [].
(** A credential of another account, restricted in no way. *)
Definition demo_credential : CredentialRow := mkCredentialRow ($"c1") ($"mallory") ($"ci") ($"sha:mk_x") [] [] [] 0 None.
Definition demo_calls : list (Call * service_call) :=
  let minute := 60000000000 in
  [(demo_call 0 "r1", AsAccount ($"ada") ($"d1") (OpEnqueue ($"deploy") ($"{}") [] ($"@ada")));
   (demo_call 1 "u1", Poll ($"d1") ($"old") 0);
   (demo_call minute "u2", Poll ($"d1") ($"old") 0);
   (demo_call (3 * minute) "u3", Poll ($"d1") ($"old") 0);
   (demo_call (4 * minute) "u4", Complete ($"d1") ($"old") ($"r1") 200 ($"done") []);
   (demo_call (9 * minute) "u5", Poll ($"d1") ($"old") 0)].
#[local] Existing Instance demo_crypto.

Lemma account_access_confined_witness :
  (serve_op (demo_call 5 "u") ($"ada") ($"d1") OpRotate demo_db).1 = Ok tt /\
  confined_to ($"d1") (rows demo_db) (rows (serve_op (demo_call 5 "u") ($"ada") ($"d1") OpRotate demo_db).2).
Proof.
  split; [vm_compute; reflexivity|].
  apply (account_access_confined (D := ListDatabase) (demo_call 5 "u") ($"ada") ($"d1") OpRotate demo_db _ _ (surjective_pairing _)).
Defined.
Lemma poll_exact_witness :
  let s := (serve_all (take 1 demo_calls) demo_db).2 in
  exists views l, (ListPendingWebhooks (demo_call 1 "u1") ($"d1") ($"old") 0 s).1 = Ok views /\ wv_Name <$> views = [$"deploy"] /\ views = viewWebhookRequest <$> l.
Proof.
  intros s. pose proof (poll_exact (D := ListDatabase) (demo_call 1 "u1") ($"d1") ($"old") 0 s _ _ (surjective_pairing _)) as Hp.
  destruct ((ListPendingWebhooks (demo_call 1 "u1") ($"d1") ($"old") 0 s).1) as [views|e] eqn:E; [|vm_compute in E; discriminate E].
  destruct Hp as (_ & l & _ & Hv & _). exists views, l. split; [reflexivity|]. split; [|exact Hv]. vm_compute in E. injection E as <-. vm_compute. reflexivity.
Defined.
Lemma credential_enqueue_exact_witness :
  let c := mkCall 5 (Ok ($"r7")) (Ok []) (fun _ => Ok []) None in
  let out := EnqueueWebhook c ($"mallory") ($"d1") ($"deploy") ($"{}") [] ($"ci") (Some demo_credential) demo_db in
  is_ok out.1 = true /\ wr_DaemonID <$> ld_requests out.2 = [$"d1"] /\
  forall account, EnqueueWebhook c account ($"d1") ($"deploy") ($"{}") [] ($"ci") (Some demo_credential) demo_db = out.
Proof.
  intros c out. split; [vm_compute; reflexivity|]. split; [vm_compute; reflexivity|]. intros account.
  pose proof (proj2 (credential_enqueue_exact (D := ListDatabase) c ($"mallory") ($"d1") ($"deploy") ($"{}") [] ($"ci") demo_credential demo_db _ _ (surjective_pairing _)) account None) as Hc.
  rewrite (surjective_pairing out). exact Hc.
Defined.
Lemma queue_sound_witness :
  let h := (serve_all demo_calls demo_db).1 in
  h = [(1, $"r1"); (180000000000, $"r1")] /\ clock_from 0 demo_calls /\ ForallOrdPairs apart h.
Proof.
  intros h. split; [vm_compute; reflexivity|]. split; [cbn; lia|].
  apply (queue_sound (D := ListDatabase) demo_calls demo_db _ _ 0 (surjective_pairing _)). cbn. lia.
Defined.
Lemma scopes_roundtrip_witness :
  splitCredentialScopes (joinCredentialScopes [$" d1 "; $"d2"; $"d1"; []]) = [$"d1"; $"d2"] /\
  NoDup (splitCredentialScopes (joinCredentialScopes [$" d1 "; $"d2"; $"d1"; []])).
Proof.
  split; [vm_compute; reflexivity|]. apply (scopes_roundtrip [$" d1 "; $"d2"; $"d1"; []]). apply (bool_decide_unpack _). vm_compute. exact I.
Defined.
Lemma daemon_created_exact_witness :
  let out := CreateDaemon (demo_call 5 "d2") ($"ada") ($" ws ") ($"new box") demo_db in
  (exists v, out.1 = Ok (v, $"fresh") /\ dv_Name v = $"new box") /\
  exists d, rows out.2 = with_daemons <[dm_ID d := d]> (rows demo_db) /\ dm_SecretHash d = $"hash:fresh".
Proof.
  intros out. pose proof (daemon_created_exact (D := ListDatabase) (demo_call 5 "d2") ($"ada") ($" ws ") ($"new box") demo_db _ _ (surjective_pairing _)) as Hc.
  fold out in Hc. destruct (out.1) as [[v secret]|e] eqn:E; [|vm_compute in E; discriminate E].
  destruct Hc as (quotas & d & _ & _ & _ & _ & Hr & _ & _ & _ & _ & _ & Hg & Hb & _). injection Hg as <-. split.
  - exists v. split; [reflexivity|]. vm_compute in E. injection E as <-. vm_compute. reflexivity.
  - exists d. split; [exact Hr|]. injection Hb as <-. vm_compute. reflexivity.
Defined.
Lemma secrets_exact_witness :
  let out := RotateSecret (demo_call 5 "u") ($"ada") ($"d1") demo_db in
  out.1 = Ok ($"fresh") /\
  (exists d, rows out.2 = with_daemons <[$"d1" := with_secret ($"hash:fresh") d]> (rows demo_db)) /\
  (authenticateDaemon ($"d1") ($"old") out.2).1 = Err ErrUnauthorized /\ is_ok (authenticateDaemon ($"d1") ($"fresh") out.2).1 = true.
Proof.
  intros out. assert (E : out.1 = Ok ($"fresh")) by (vm_compute; reflexivity).
  split; [exact E|]. split; [|split; vm_compute; reflexivity].
  pose proof (proj1 (secrets_exact (D := ListDatabase) (demo_call 5 "u") ($"ada") ($"d1") demo_db) _ _ (surjective_pairing _)) as Hs.
  fold out in Hs. rewrite E in Hs. destruct Hs as (d & hash & _ & _ & Hb & Hr & _). exists d. injection Hb as <-. exact Hr.
Defined.
Lemma reports_spaced_witness :
  let q : gmap str Z := {[ $"polling_interval_seconds" := 10 ]} in
  let reports := [(demo_daemon, q, 0); (demo_daemon, q, 9999999999); (demo_daemon, q, 10000000000)] in
  passed reports ∅ = [(0, $"d1"); (10000000000, $"d1")] /\
  ForallOrdPairs (fun x y => x.2 = $"d1" -> y.2 = $"d1" -> x.1 + 10 * 1000000000 <= y.1) (passed reports ∅).
Proof.
  intros q reports. split; [vm_compute; reflexivity|]. apply (reports_spaced ($"d1") 10 reports 0 ∅); [lia|cbn; lia|]. repeat constructor.
Defined.
