(* ===== verification/CloudNotify.v ===== *)
(** * CloudNotify: notifications and who wants them

    [internal/cloud/service.go]: the preferences of an account for a topic, the
    notifications of daemons and of users, their delivery to the publishers and the
    feed that lists them. A call acts on the database, on the events handed to the
    publisher, and on the memory of the polling throttle. *)

From S2P Require Import Prelude GoStr Config Alarms CloudDB CloudFeedDB Localize Cloud.
Open Scope Z_scope.

(** ** Surroundings *)

Record NotificationEvent := mkNotificationEvent {
  ev_EventID : str; ev_Timestamp : Z; ev_AccountID : str; ev_WorkspaceID : str; ev_DaemonID : str; ev_NotificationID : str;
  ev_Kind : str; ev_Title : str; ev_Subtitle : str; ev_Body : str; ev_Metadata : str;
}.
(** A publisher takes an event, or says why it did not; of several every one gets it,
    and the first error is reported. *)
Definition PushPublisher : Type := NotificationEvent -> option error.
Fixpoint FanoutPublisher (publishers : list (option PushPublisher)) (event : NotificationEvent) : option error :=
  match publishers with
  | [] => None
  | None :: publishers => FanoutPublisher publishers event
  | Some Publish :: publishers =>
      let err := Publish event in
      let rest := FanoutPublisher publishers event in
      match err with Some err => Some err | None => rest end
  end.
(** What a call asks for beyond [Call]: [uuid.NewString] (the k-th of the call), the
    publisher and the account service, when there is one; it gives the language of an
    account it knows. Last, the order in which the map of arguments of an alarm is
    ranged over. *)
Record Sources := mkSources {
  n_call : Call; n_uuid : nat -> str; n_publisher : option PushPublisher; n_accounts : option (str -> res (option str));
  n_order : list (str * str) -> list (str * str);
}.
(** JSON of the standard library; the text of a time is RFC 3339, with or without
    fractions of a second. *)
Class Json := { json_Unmarshal : str -> option any; json_Marshal : any -> option str }.
Class TimeText := { RFC3339 : Z -> str; RFC3339Nano : Z -> str }.
(** Into a [map[string]any]: null gives a nil map, which every caller replaces. *)
Definition unmarshal_map `{Json} (text : str) : option (gmap str any) :=
  match json_Unmarshal text with Some (AMap m) => Some (list_to_map m) | Some ANil => Some ∅ | _ => None end.
Definition marshal_map `{Json} (m : gmap str any) : option str := json_Marshal (AMap (map_to_list m)).

(** ** Bounds *)

Definition ErrPublishFailed : error := Errorf "notification publish failed" [].
Definition bound (value : str) (max : Z) : res str :=
  let value := TrimSpace value in
  if bool_decide (value = []) || (max <? Z.of_nat (List.length value)) || negb (ValidString value)
  then Err (Errorf "value exceeds bounds or is empty" []) else Ok value.
Definition wrapped {A} (format : string) (r : res A) : res A :=
  match r with Ok a => Ok a | Err e => Err (Errorf format [FErr e]) end.
Inductive NotificationPreferenceLevel := NotificationPreferenceNormal | NotificationPreferenceSilent | NotificationPreferenceReject.
Definition level_value (level : NotificationPreferenceLevel) : Z :=
  match level with NotificationPreferenceNormal => 0 | NotificationPreferenceSilent => 1 | NotificationPreferenceReject => 2 end.
Definition validateNotificationPreference (value : Z) : res unit :=
  guard ((value <? level_value NotificationPreferenceNormal) || (level_value NotificationPreferenceReject <? value))
    (Errorf "preference must be 0 (normal), 1 (silent), or 2 (reject)" []).
Definition normalizeNotificationPreference (value : Z) : NotificationPreferenceLevel :=
  if value =? 1 then NotificationPreferenceSilent else if value =? 2 then NotificationPreferenceReject else NotificationPreferenceNormal.

(** ** Topics *)

Definition is_separator (c : ascii) : bool := bool_decide (c = ch "." \/ c = ch "_" \/ c = ch "-").
Fixpoint FieldsFunc (sep : ascii -> bool) (word s : str) : list str :=
  match s with
  | [] => if bool_decide (word = []) then [] else [word]
  | c :: s =>
      if sep c then (if bool_decide (word = []) then [] else [word]) ++ FieldsFunc sep [] s
      else FieldsFunc sep (word ++ [c]) s
  end.
(** [strings.ToUpper] of one byte: a byte that is no character on its own becomes the
    replacement character. *)
Definition upper_byte (c : ascii) : str :=
  if is_lower c then [byte (code c - 32)] else if is_ascii c then [c] else [byte 239; byte 191; byte 189].
Definition capitalized (word : str) : str := match word with [] => [] | c :: r => upper_byte c ++ r end.
Definition notificationTopicDescription (topic : str) : str :=
  match FieldsFunc is_separator [] topic with [] => $"Notifications" | words => join ($" ") (capitalized <$> words) end.
Definition known_topics : list (str * str) := [
  ($"daemon.alarm.container_down", $"Container down alarms");
  ($"daemon.alarm.cpu_percent", $"CPU alarms");
  ($"daemon.alarm.disk_used_percent", $"Disk alarms");
  ($"daemon.alarm.memory_used_percent", $"Memory alarms");
  ($"daemon.disconnected", $"Daemon disconnected");
  ($"daemon.reconnected", $"Daemon reconnected");
  ($"daemon.notification", $"Daemon notifications");
  ($"test.notification", $"Test notifications");
  ($"user.request", $"User requests");
  ($"webhook.failure", $"Webhook failures");
  ($"webhook.success", $"Webhook successes")].
Definition add_topic (topics : gmap str str) (topic : str) : gmap str str :=
  match topics !! topic with Some _ => topics | None => <[topic := notificationTopicDescription topic]> topics end.

(** ** Preferences *)

Section preferences.
Context `{FeedDatabase, Crypto}.
Definition notificationPreference (accountID workspaceID daemonID topic : str) : M NotificationPreferenceLevel := fun s =>
  match first_preference accountID workspaceID daemonID topic s with
  | (inl row, s) => (Ok (normalizeNotificationPreference (np_Preference row)), s)
  | (inr (DBFailure e), s) => (Err e, s)
  | (inr ErrRecordNotFound, s) =>
      match first_preference accountID workspaceID [] topic s with
      | (inl row, s) => (Ok (normalizeNotificationPreference (np_Preference row)), s)
      | (inr (DBFailure e), s) => (Err e, s)
      | (inr ErrRecordNotFound, s) => (Ok NotificationPreferenceNormal, s)
      end
  end.
Definition ListNotificationPreferences (c : Call) (accountID workspaceID daemonID : str) : M (list NotificationPreference) :=
  let workspaceID := TrimSpace workspaceID in
  let! _ := when_ (bool_decide (workspaceID = [])) (Errorf "workspace_id is required" []) in
  let! _ := lift (authorizeWorkspace c accountID workspaceID) in
  exec (find_preferences accountID workspaceID (if bool_decide (daemonID = []) then None else Some daemonID)).
Definition ListNotificationTopics (c : Call) (accountID workspaceID : str) : M (list (str * str)) :=
  let workspaceID := TrimSpace workspaceID in
  let! _ := when_ (bool_decide (workspaceID = [])) (Errorf "workspace_id is required" []) in
  let! _ := lift (authorizeWorkspace c accountID workspaceID) in
  let! kinds := exec (notification_kinds workspaceID) in
  let! preferences := exec (find_preferences accountID workspaceID None) in
  let topics := fold_left add_topic (np_Topic <$> preferences) (fold_left add_topic kinds (list_to_map known_topics)) in
  let names := sort_strings (map_to_list topics).*1 in
  ret ((fun topic => (topic, default [] (topics !! topic))) <$> names).
(** The row of one scope, made or changed. *)
Definition put_preference (id accountID workspaceID daemonID topic : str) (preference now : Z) : M unit := fun s =>
  match first_preference accountID workspaceID daemonID topic s with
  | (inr ErrRecordNotFound, s) =>
      exec (create_preference (mkNotificationPreference id accountID workspaceID daemonID topic preference now now)) s
  | (inr (DBFailure e), s) => (Err e, s)
  | (inl row, s) => exec (update_preference (np_ID row) preference now) s
  end.
(** The daemon a preference names must be in the workspace it names. *)
Definition scope_daemon (c : Call) (accountID workspaceID daemonID : str) : M unit :=
  let! daemon := daemonForAccount c accountID daemonID in
  when_ (negb (bool_decide (dm_WorkspaceID daemon = workspaceID))) ErrForbidden.
Definition SetNotificationPreference (src : Sources) (accountID workspaceID daemonID topic : str) (preference : Z) : M unit :=
  let c := n_call src in
  let workspaceID := TrimSpace workspaceID in
  let! _ := when_ (bool_decide (workspaceID = [])) (Errorf "workspace_id is required" []) in
  let! _ := lift (validateNotificationPreference preference) in
  let! topic := lift (wrapped "topic: %w" (bound topic 128)) in
  let! _ := lift (authorizeWorkspace c accountID workspaceID) in
  let! _ := (if bool_decide (daemonID = []) then ret tt else scope_daemon c accountID workspaceID daemonID) in
  put_preference (n_uuid src 0) accountID workspaceID daemonID topic preference (c_now c).
Fixpoint put_preferences (src : Sources) (k : nat) (accountID workspaceID daemonID : str) (topics : list str) (preference : Z) : M unit :=
  match topics with
  | [] => ret tt
  | topic :: topics =>
      let! _ := put_preference (n_uuid src k) accountID workspaceID daemonID topic preference (c_now (n_call src)) in
      put_preferences src (S k) accountID workspaceID daemonID topics preference
  end.
Definition SetAllDaemonNotificationPreferences (src : Sources) (accountID workspaceID daemonID : str) (preference : Z) : M unit :=
  let c := n_call src in
  let workspaceID := TrimSpace workspaceID in
  let! _ := when_ (bool_decide (workspaceID = [])) (Errorf "workspace_id is required" []) in
  let! _ := lift (validateNotificationPreference preference) in
  let! _ := lift (authorizeWorkspace c accountID workspaceID) in
  let! _ := scope_daemon c accountID workspaceID daemonID in
  let! topics := ListNotificationTopics c accountID workspaceID in
  Transaction (put_preferences src 0 accountID workspaceID daemonID topics.*1 preference).
Definition DeleteAllDaemonNotificationPreferences (c : Call) (accountID workspaceID daemonID : str) : M unit :=
  let workspaceID := TrimSpace workspaceID in
  let! _ := when_ (bool_decide (workspaceID = [])) (Errorf "workspace_id is required" []) in
  let! _ := lift (authorizeWorkspace c accountID workspaceID) in
  let! _ := scope_daemon c accountID workspaceID daemonID in
  exec (delete_preferences accountID workspaceID daemonID None).
Definition DeleteNotificationPreference (c : Call) (accountID workspaceID daemonID topic : str) : M unit :=
  let workspaceID := TrimSpace workspaceID in
  let! _ := when_ (bool_decide (workspaceID = [])) (Errorf "workspace_id is required" []) in
  let! topic := lift (wrapped "topic: %w" (bound topic 128)) in
  let! _ := lift (authorizeWorkspace c accountID workspaceID) in
  let! _ := (if bool_decide (daemonID = []) then ret tt else scope_daemon c accountID workspaceID daemonID) in
  exec (delete_preferences accountID workspaceID daemonID (Some topic)).
End preferences.

(** ** Publishing *)

Section notifications.
Context `{FeedDatabase, Crypto, Unicode, FloatText, Json, TimeText}.
(** What a call acts on. *)
Record nstate := mkNState { ns_db : db; ns_events : list NotificationEvent; ns_pollHit : gmap str Z }.
Definition N (A : Type) : Type := act nstate A.
Definition on_db {A} (m : M A) : N A := fun s =>
  let '(r, d) := m (ns_db s) in (r, mkNState d (ns_events s) (ns_pollHit s)).
Definition language_of (src : Sources) (accountID : str) : option str :=
  match n_accounts src with
  | None => None
  | Some accounts => match accounts accountID with Ok (Some language) => Some language | _ => None end
  end.
Definition notificationSourcePrefix (src : Sources) (accountID : str) : str :=
  match language_of src accountID with
  | None => $"From"
  | Some language =>
      let locale := normalizeAlarmLocale language in
      if bool_decide (locale = $"zh-cn") then $"来自" else if bool_decide (locale = $"zh-tw") then $"來自" else $"From"
  end.
Definition notificationSubtitle (daemonName subtitle sourcePrefix : str) : str :=
  let source := TrimSpace sourcePrefix ++ $" " ++ TrimSpace daemonName in
  let subtitle := TrimSpace subtitle in
  if bool_decide (subtitle = []) then source else source ++ $": " ++ subtitle.
(** The identity of the daemon goes over what the metadata says. *)
Definition identified (daemon : Daemon) (meta : gmap str any) : gmap str any :=
  let meta := <[$"daemon_name" := AString (dm_Name daemon)]> (<[$"daemon_id" := AString (dm_ID daemon)]> meta) in
  if bool_decide (dm_HostID daemon = []) then meta else <[$"host_id" := AString (dm_HostID daemon)]> meta.
Definition event_metadata (daemon : Daemon) (metadata : str) : str :=
  let meta := if bool_decide (metadata = []) then ∅ else default ∅ (unmarshal_map metadata) in
  default metadata (marshal_map (identified daemon meta)).
Definition notification_event (src : Sources) (id : str) (daemon : Daemon) (n : Notification) : NotificationEvent :=
  mkNotificationEvent id (nt_CreatedAt n) (nt_AccountID n) (nt_WorkspaceID n) (nt_DaemonID n) (nt_ID n) (nt_Kind n) (nt_Title n)
    (notificationSubtitle (dm_Name daemon) (nt_Subtitle n) (notificationSourcePrefix src (nt_AccountID n))) (nt_Body n)
    (event_metadata daemon (nt_Metadata n)).
Definition publishNotification (src : Sources) (id : str) (daemon : Daemon) (n : Notification) : N unit := fun s =>
  match n_publisher src with
  | None => (Ok tt, s)
  | Some Publish =>
      let event := notification_event src id daemon n in
      (match Publish event with Some err => Err (Errorf "%w: %v" [FErr ErrPublishFailed; FErr err]) | None => Ok tt end,
       mkNState (ns_db s) (ns_events s ++ [event]) (ns_pollHit s))
  end.

(** ** Notifications *)

Definition localizableNotificationKind (kind : str) : bool :=
  bool_decide (kind = $"daemon.disconnected") || bool_decide (kind = $"daemon.reconnected") || bool_decide (kind = $"webhook.success") ||
  bool_decide (kind = $"webhook.failure") || HasPrefix kind ($"daemon.alarm.").
Definition localizedAlarm (src : Sources) (accountID kind title body metadata : str) : str * str :=
  if negb (localizableNotificationKind kind) then (title, body)
  else
    match language_of src accountID with
    | None => (title, body)
    | Some language =>
        match unmarshal_map metadata with
        | None => (title, body)
        | Some values => default (title, body) (localizeAlarm (n_order src) language kind (<[$"body" := AString body]> values))
        end
    end.
Record NotificationInput := mkNotificationInput { ni_Kind : str; ni_Title : str; ni_Subtitle : str; ni_Body : str; ni_Metadata : str }.
Definition checked_subtitle (subtitle : str) : res str :=
  let subtitle := TrimSpace subtitle in
  if negb (bool_decide (subtitle = [])) && ((128 <? Z.of_nat (List.length subtitle)) || negb (ValidString subtitle))
  then Err (Errorf "subtitle exceeds bounds" []) else Ok subtitle.
(** The metadata again as JSON, at most 16 KiB of it. *)
Definition checked_metadata (metadata : str) : res str :=
  let metadata := if bool_decide (metadata = []) then $"{}" else metadata in
  match json_Unmarshal metadata with
  | None => Err (Errorf "metadata: invalid json" [])
  | Some decoded =>
      match json_Marshal decoded with
      | Some normalized => if 16 * 1024 <? Z.of_nat (List.length normalized) then Err (Errorf "metadata exceeds bounds" []) else Ok normalized
      | None => Err (Errorf "metadata exceeds bounds" [])
      end
  end.
(** Stored unless the preference rejects it, published when it is normal; [None] is the
    empty view a rejected one is answered with. *)
Definition deliver (src : Sources) (daemon : Daemon) (level : NotificationPreferenceLevel) (n : Notification) : N (option Notification) :=
  let! _ := on_db (exec (create_notification n)) in
  match level with
  | NotificationPreferenceNormal => let! _ := publishNotification src (n_uuid src 1) daemon n in ret (Some n)
  | _ => ret (Some n)
  end.
Definition CreateNotification (src : Sources) (id secret : str) (input : NotificationInput) : N (option Notification) :=
  let! d := on_db (authenticateDaemon id secret) in
  let! kind := lift (wrapped "kind: %w" (bound (ni_Kind input) 128)) in
  let! title := lift (wrapped "title: %w" (bound (ni_Title input) 128)) in
  let! _ := when_ ((4096 <? Z.of_nat (List.length (ni_Body input))) || negb (ValidString (ni_Body input))) (Errorf "body exceeds bounds" []) in
  let body := TrimSpace (ni_Body input) in
  let! subtitle := lift (checked_subtitle (ni_Subtitle input)) in
  let! _ := when_ (bool_decide (body = [])) (Errorf "body is required" []) in
  let! metadata := lift (checked_metadata (ni_Metadata input)) in
  let! preference := on_db (notificationPreference (dm_AccountID d) (dm_WorkspaceID d) (dm_ID d) kind) in
  match preference with
  | NotificationPreferenceReject => ret None
  | _ =>
      let '(title, body) := localizedAlarm src (dm_AccountID d) kind title body metadata in
      deliver src d preference (mkNotification (n_uuid src 0) (dm_AccountID d) (dm_WorkspaceID d) (dm_ID d) kind title subtitle body metadata None (c_now (n_call src)))
  end.
Definition CreatePushNotification (src : Sources) (accountID daemonID : str) (input : NotificationInput) : N (option Notification) :=
  let! daemon := on_db (daemonForAccount (n_call src) accountID daemonID) in
  let! kind := lift (wrapped "kind: %w" (bound (ni_Kind input) 128)) in
  let! title := lift (wrapped "title: %w" (bound (ni_Title input) 128)) in
  let! subtitle := lift (checked_subtitle (ni_Subtitle input)) in
  let body := TrimSpace (ni_Body input) in
  let! _ := when_ (bool_decide (body = []) || (4096 <? Z.of_nat (List.length body)) || negb (ValidString body))
              (Errorf "body is required and must be at most 4096 bytes" []) in
  let! normalized := lift (checked_metadata (ni_Metadata input)) in
  let! preference := on_db (notificationPreference accountID (dm_WorkspaceID daemon) daemonID kind) in
  match preference with
  | NotificationPreferenceReject => ret None
  | _ =>
      let '(title, body) := localizedAlarm src accountID kind title body normalized in
      deliver src daemon preference (mkNotification (n_uuid src 0) accountID (dm_WorkspaceID daemon) daemonID kind title subtitle body normalized None (c_now (n_call src)))
  end.

(** ** The feed *)

Definition feed_limit (limit : Z) : Z := let limit := if limit <=? 0 then 50 else limit in if 100 <? limit then 100 else limit.
Definition ListNotifications (c : Call) (accountID workspaceID : str) (unread : bool) (daemonID : str) (limit : Z) (before : option Z) : M (list Notification) :=
  let workspaceID := TrimSpace workspaceID in
  let! _ := when_ (bool_decide (workspaceID = [])) (Errorf "workspace_id is required" []) in
  let! _ := lift (authorizeWorkspace c accountID workspaceID) in
  exec (find_notifications workspaceID unread (if bool_decide (daemonID = []) then None else Some daemonID) before (Z.to_nat (feed_limit limit))).
Definition MarkNotificationRead (c : Call) (accountID id : str) : M unit :=
  let! n := sql ErrNotFound (first_notification id) in
  let! _ := lift (authorizeWorkspace c accountID (nt_WorkspaceID n)) in
  match nt_ReadAt n with Some _ => ret tt | None => exec (read_notification (nt_ID n) (c_now c)) end.
Definition MarkAllNotificationsRead (c : Call) (accountID workspaceID : str) : M unit :=
  let workspaceID := TrimSpace workspaceID in
  let! _ := when_ (bool_decide (workspaceID = [])) (Errorf "workspace_id is required" []) in
  let! _ := lift (authorizeWorkspace c accountID workspaceID) in
  exec (read_notifications workspaceID (c_now c)).
End notifications.
