(* ===== verification/CloudNotifyFacts.v ===== *)
(** * CloudNotifyFacts: what becomes of a notification

    The theorems of [CloudNotify]: a notification is stored and published exactly as the
    preference of its account says, a preference is what was set last in its scope, and
    the feed shows a member the newest notifications of the workspace. *)

From S2P Require Import Prelude GoStr Config Alarms CloudDB CloudFeedDB Localize Cloud CloudFacts CloudNotify.
Open Scope Z_scope.

(** ** Steps that only read *)

Lemma reads_inv `{Database} {A B} (m : M A) (k : A -> M B) (x : db) r x' : reads m -> bind m k x = (r, x') ->
  (exists e, r = Err e /\ rows x' = rows x) \/ (exists a x1, m x = (Ok a, x1) /\ rows x1 = rows x /\ k a x1 = (r, x')).
Proof. intros Hm [(e & He & ->)|(a & x1 & Ha & Hk)]%bind_inv; [left|right]; [apply Hm in He; eauto|exists a, x1; split_and!; [done|by eapply Hm|done]]. Qed.
(** A step that only reads: its failure leaves the rows, or the call goes on. *)
Ltac calm H Ha Hr := let e := fresh in let He := fresh in let a := fresh "a" in let x := fresh "x" in
  apply reads_inv in H as [(e & -> & He)|(a & x & Ha & Hr & H)]; [congruence| |solve [auto with go]].
Ltac settled H Ha := let e := fresh in let a := fresh "a" in apply lift_inv in H as [(e & _ & -> & ->)|(a & Ha & H)]; [congruence|].

Section notify.
Context `{D : Database} `{L : !DatabaseLaws D} `{F : !FeedDatabase D} `{FL : !FeedLaws D F} `{CR : Crypto, UN : Unicode, FT : FloatText, JS : Json, TT : TimeText}.
Implicit Types (s : nstate) (x : db).

Definition nrows s : tables := rows (ns_db s).
(** A step that changes no row and publishes nothing. *)
Record same s s' : Prop := { sm_rows : nrows s' = nrows s; sm_events : ns_events s' = ns_events s; sm_hits : ns_pollHit s' = ns_pollHit s }.
Definition quiet {A} (m : N A) : Prop := forall s r s', m s = (r, s') -> same s s'.
Lemma same_refl s : same s s.
Proof. done. Qed.
Lemma same_trans s s1 s' : same s s1 -> same s1 s' -> same s s'.
Proof. intros [Ha Hb Hc] [Ga Gb Gc]. split; congruence. Qed.
Lemma on_db_inv {A} (m : M A) s r s' : on_db m s = (r, s') -> exists d, m (ns_db s) = (r, d) /\ s' = mkNState d (ns_events s) (ns_pollHit s).
Proof. unfold on_db. destruct (m (ns_db s)) as [r0 d] eqn:E. intros [= <- <-]. by exists d. Qed.
Lemma quiet_db {A} (m : M A) : reads m -> quiet (on_db m).
Proof. intros Hm s r s' (d & Hd & ->)%on_db_inv. apply Hm in Hd. by split. Qed.
Lemma quiet_lift {A} (r : res A) : quiet (lift r).
Proof. by intros s r' s' [= <- <-]. Qed.
Lemma quiet_when b e : quiet (when_ b e).
Proof. apply quiet_lift. Qed.
(** After a quiet step the call has failed with nothing done, or goes on. *)
Lemma quiet_inv {A B} (m : N A) (k : A -> N B) s r s' : quiet m -> bind m k s = (r, s') ->
  (exists e, r = Err e /\ same s s') \/ (exists a s1, m s = (Ok a, s1) /\ same s s1 /\ k a s1 = (r, s')).
Proof. intros Hm [(e & He & ->)|(a & s1 & Ha & Hk)]%bind_inv; [left|right]; [apply Hm in He; eauto|exists a, s1; split_and!; [done|by eapply Hm|done]]. Qed.

(** ** Preferences *)

(** The level the rows give: that of the daemon, else the account's own, else normal. *)
Definition scope_level (t : tables) (account workspace daemon topic : str) : option NotificationPreferenceLevel :=
  match f_preferences (t_feed t) !! (account, daemon, topic) with
  | Some p => if bool_decide (np_WorkspaceID p = workspace) then Some (normalizeNotificationPreference (np_Preference p)) else None
  | None => None
  end.
Definition effective_level (t : tables) (account workspace daemon topic : str) : NotificationPreferenceLevel :=
  match scope_level t account workspace daemon topic with
  | Some level => level
  | None => default NotificationPreferenceNormal (scope_level t account workspace [] topic)
  end.
Lemma first_preference_level account workspace daemon topic x r x' : first_preference account workspace daemon topic x = (r, x') ->
  rows x' = rows x /\
  match r with
  | inl p => scope_level (rows x) account workspace daemon topic = Some (normalizeNotificationPreference (np_Preference p))
  | inr ErrRecordNotFound => scope_level (rows x) account workspace daemon topic = None
  | inr (DBFailure _) => True
  end.
Proof.
  intros Hq. apply (first_preference_law account workspace daemon topic) in Hq as [Hr Hq]. split; [done|]. unfold scope_level.
  destruct r as [p|[|e]]; [|destruct (_ !! _) as [p|]; [|done]|done].
  - destruct Hq as [-> Hw]. by rewrite bool_decide_true.
  - rewrite bool_decide_false; [done|]. by apply Hq.
Qed.
Lemma notificationPreference_inv account workspace daemon topic x r x' : notificationPreference account workspace daemon topic x = (r, x') ->
  rows x' = rows x /\ match r with Ok level => level = effective_level (rows x) account workspace daemon topic | Err _ => True end.
Proof.
  unfold notificationPreference, effective_level. destruct (first_preference account workspace daemon topic x) as [r1 x1] eqn:E1.
  apply first_preference_level in E1 as [Hr1 H1]. destruct r1 as [p|[|e]]; [intros [= <- <-]; by rewrite H1| |by intros [= <- <-]]. rewrite H1.
  destruct (first_preference account workspace [] topic x1) as [r2 x2] eqn:E2. apply first_preference_level in E2 as [Hr2 H2]. rewrite Hr1 in *.
  destruct r2 as [p|[|e]]; intros [= <- <-]; split; try done; by rewrite H2.
Qed.
Lemma reads_preference account workspace daemon topic : reads (notificationPreference account workspace daemon topic).
Proof. by intros x r x' [Hr _]%notificationPreference_inv. Qed.

(** ** Delivery *)

Definition publications (src : Sources) (id : str) (d : Daemon) (level : NotificationPreferenceLevel) (n : Notification) : list NotificationEvent :=
  match level, n_publisher src with
  | NotificationPreferenceNormal, Some _ => [notification_event src id d n]
  | _, _ => []
  end.
Record delivered (src : Sources) (d : Daemon) (level : NotificationPreferenceLevel) (n : Notification) s s' : Prop := {
  dl_wanted : level <> NotificationPreferenceReject;
  dl_fresh : f_notifications (t_feed (nrows s)) !! nt_ID n = None;
  dl_rows : nrows s' = with_notifications <[nt_ID n := n]> (nrows s);
  dl_events : ns_events s' = ns_events s ++ publications src (n_uuid src 1) d level n;
  dl_hits : ns_pollHit s' = ns_pollHit s;
}.
(** The publisher did not take it. *)
Definition refused_event (src : Sources) (d : Daemon) (n : Notification) : Prop :=
  exists Publish err, n_publisher src = Some Publish /\ Publish (notification_event src (n_uuid src 1) d n) = Some err.
Lemma deliver_inv src d level n s r s' : level <> NotificationPreferenceReject -> deliver src d level n s = (r, s') ->
  match r with
  | Ok v => v = Some n /\ delivered src d level n s s'
  | Err _ => same s s' \/ level = NotificationPreferenceNormal /\ delivered src d level n s s' /\ refused_event src d n
  end.
Proof.
  intros Hw [(e & He & ->)|([] & s1 & H1 & Hk)]%bind_inv.
  - apply on_db_inv in He as (x & Hx & ->). left. apply (sql_change _ _ _ _ _ _ (create_notification_law n)) in Hx. by split.
  - apply on_db_inv in H1 as (x & Hx & ->). apply (sql_change _ _ _ _ _ _ (create_notification_law n)) in Hx as [Hf Hx].
    set (s1 := mkNState x _ _) in Hk. destruct level; [|injection Hk as <- <-; split; [done|split; try done; by rewrite app_nil_r]|done].
    unfold bind, publishNotification in Hk.
    destruct (n_publisher src) as [Publish|] eqn:Ep.
    + destruct (Publish _) as [err|] eqn:Ee; injection Hk as <- <-.
      * right. split; [done|]. split; [|by exists Publish, err]. split; try done. unfold publications. by rewrite Ep.
      * split; [done|]. split; try done. unfold publications. by rewrite Ep.
    + injection Hk as <- <-. split; [done|]. split; try done. unfold publications. by rewrite Ep, app_nil_r.
Qed.

Inductive sender := ByDaemon (id secret : str) | ByAccount (accountID daemonID : str).
Definition submit (src : Sources) (from : sender) (input : NotificationInput) : N (option Notification) :=
  match from with
  | ByDaemon id secret => CreateNotification src id secret input
  | ByAccount accountID daemonID => CreatePushNotification src accountID daemonID input
  end.
(** The daemon a notification is about and the account it is for. *)
Definition admitted (c : Call) (from : sender) (t : tables) (d : Daemon) (account : str) : Prop :=
  match from with
  | ByDaemon id secret => t_daemons t !! id = Some d /\ dm_ID d = id /\ dm_Enabled d = true /\ CompareHashAndPassword (dm_SecretHash d) secret = true /\ account = dm_AccountID d
  | ByAccount accountID id => t_daemons t !! id = Some d /\ dm_ID d = id /\ confirmed c accountID (dm_WorkspaceID d) /\ account = accountID
  end.
(** The notification an input makes. *)
Definition notice_of (src : Sources) (input : NotificationInput) (d : Daemon) (account : str) (n : Notification) : Prop :=
  exists kind title subtitle metadata,
    bound (ni_Kind input) 128 = Ok kind /\ bound (ni_Title input) 128 = Ok title /\ checked_subtitle (ni_Subtitle input) = Ok subtitle /\
    checked_metadata (ni_Metadata input) = Ok metadata /\ TrimSpace (ni_Body input) <> [] /\
    let texts := localizedAlarm src account kind title (TrimSpace (ni_Body input)) metadata in
    n = mkNotification (n_uuid src 0) account (dm_WorkspaceID d) (dm_ID d) kind texts.1 subtitle texts.2 metadata None (c_now (n_call src)).
Definition level_for (t : tables) (d : Daemon) (account kind : str) : NotificationPreferenceLevel :=
  effective_level t account (dm_WorkspaceID d) (dm_ID d) kind.
Lemma wrapped_ok {A} format (r : res A) a : wrapped format r = Ok a -> r = Ok a.
Proof. by destruct r; intros [= ->]. Qed.
(** A failure before anything is done closes the case. *)
Ltac early H e := let Hs := fresh in destruct H as (e & -> & Hs); left; exists e; split; [reflexivity|exact Hs].
Ltac checked H Hn := let e := fresh in let a := fresh "a" in
  apply lift_inv in H as [(e & _ & -> & ->)|(a & Hn & H)]; [by left; eexists|].
(** The common end of both calls. *)
Definition weigh (src : Sources) (d : Daemon) (account kind title subtitle body metadata : str) : N (option Notification) :=
  let! preference := on_db (notificationPreference account (dm_WorkspaceID d) (dm_ID d) kind) in
  match preference with
  | NotificationPreferenceReject => ret None
  | _ =>
      let '(title, body) := localizedAlarm src account kind title body metadata in
      deliver src d preference (mkNotification (n_uuid src 0) account (dm_WorkspaceID d) (dm_ID d) kind title subtitle body metadata None (c_now (n_call src)))
  end.
Lemma weigh_inv src d account kind title subtitle body metadata s r s' : weigh src d account kind title subtitle body metadata s = (r, s') ->
  (exists e, r = Err e /\ same s s') \/
  (level_for (nrows s) d account kind = NotificationPreferenceReject /\ r = Ok None /\ same s s') \/
  (exists s1, let texts := localizedAlarm src account kind title body metadata in
     level_for (nrows s) d account kind <> NotificationPreferenceReject /\ same s s1 /\
     deliver src d (level_for (nrows s) d account kind)
       (mkNotification (n_uuid src 0) account (dm_WorkspaceID d) (dm_ID d) kind texts.1 subtitle texts.2 metadata None (c_now (n_call src))) s1 = (r, s')).
Proof.
  intros Hr. unfold weigh in Hr. apply quiet_inv in Hr as [He|(level & s1 & Hl & H1 & Hr)]; [early He e| |apply quiet_db, reads_preference].
  apply on_db_inv in Hl as (x & Hl & ->). apply notificationPreference_inv in Hl as [_ Hl]. change (level = level_for (nrows s) d account kind) in Hl.
  right. rewrite <-Hl. destruct (localizedAlarm src account kind title body metadata) as [title' body'].
  destruct level; [right|right|left; injection Hr as <- <-; done]; by eexists.
Qed.
Definition submitted (src : Sources) (from : sender) (input : NotificationInput) s (r : res (option Notification)) s' : Prop :=
  (exists e, r = Err e /\ same s s') \/
  (exists d account kind, admitted (n_call src) from (nrows s) d account /\ bound (ni_Kind input) 128 = Ok kind /\
     level_for (nrows s) d account kind = NotificationPreferenceReject /\ r = Ok None /\ same s s') \/
  (exists d account n s1, admitted (n_call src) from (nrows s) d account /\ notice_of src input d account n /\
     level_for (nrows s) d account (nt_Kind n) <> NotificationPreferenceReject /\ same s s1 /\
     deliver src d (level_for (nrows s) d account (nt_Kind n)) n s1 = (r, s')).
Lemma weigh_submitted src from input d account kind title subtitle metadata s s1 r s' : same s s1 -> admitted (n_call src) from (nrows s) d account ->
  bound (ni_Kind input) 128 = Ok kind -> bound (ni_Title input) 128 = Ok title -> checked_subtitle (ni_Subtitle input) = Ok subtitle ->
  checked_metadata (ni_Metadata input) = Ok metadata -> TrimSpace (ni_Body input) <> [] ->
  weigh src d account kind title subtitle (TrimSpace (ni_Body input)) metadata s1 = (r, s') -> submitted src from input s r s'.
Proof.
  intros H1 Had Hk Ht Hs Hm Hb [(e & -> & H2)|[(Hl & -> & H2)|(s2 & Hl & H2 & Hd)]]%weigh_inv; rewrite ?(sm_rows _ _ H1) in *.
  - left. exists e. split; [done|by eapply same_trans].
  - right; left. exists d, account, kind. split_and!; [done..|by eapply same_trans].
  - right; right. cbn zeta in Hl, Hd.
    match type of Hd with deliver _ _ _ ?n _ = _ => exists d, account, n, s2 end. split; [done|]. split; [|split; [exact Hl|split; [by eapply same_trans|exact Hd]]].
    exists kind, title, subtitle, metadata. done.
Qed.
Lemma submit_inv src from input s r s' : submit src from input s = (r, s') -> submitted src from input s r s'.
Proof.
  destruct from as [id secret|account id]; cbn [submit]; intros Hr.
  - unfold CreateNotification in Hr. apply quiet_inv in Hr as [He|(d & s1 & Hd & H1 & Hr)]; [early He e| |apply quiet_db, reads_authenticate].
    apply on_db_inv in Hd as (x & Hd & ->). apply authenticate_ok in Hd as (_ & Hd & He & Hsec). set (s1 := mkNState x _ _) in *.
    assert (Hid : dm_ID d = id) by (by apply keyed_daemons in Hd).
    checked Hr Hk. checked Hr Ht. checked Hr Hx. checked Hr Hs. checked Hr Hb. checked Hr Hm.
    apply wrapped_ok in Hk, Ht. apply guard_ok, bool_decide_eq_false in Hb. by eapply weigh_submitted.
  - unfold CreatePushNotification in Hr. apply quiet_inv in Hr as [He|(d & s1 & Hd & H1 & Hr)]; [early He e| |apply quiet_db, reads_daemonForAccount].
    apply on_db_inv in Hd as (x & Hd & ->). apply daemonForAccount_ok in Hd as (_ & Hd & Hid & Hc). set (s1 := mkNState x _ _) in *.
    checked Hr Hk. checked Hr Ht. checked Hr Hs. checked Hr Hb. checked Hr Hm. subst id.
    apply wrapped_ok in Hk, Ht. apply guard_ok in Hb. rewrite !orb_false_iff in Hb. destruct Hb as [[Hb%bool_decide_eq_false _] _]. by eapply weigh_submitted.
Qed.

(** C30. A notification of a daemon or of a user, over every failure: it is taken only
    from the daemon's secret or a confirmed member, its fields in bounds; the
    preference of its account decides, the daemon's own before the account's, normal
    when there is none: rejected, nothing happens; silent, exactly one row is stored;
    normal, the row is stored and exactly one event with it is published. An error
    leaves nothing behind, but for a row stored whose event a publisher refused. *)
Theorem notification_exact src from input s r s' : submit src from input s = (r, s') ->
  match r with
  | Ok None => same s s' /\ exists d account kind, admitted (n_call src) from (nrows s) d account /\ bound (ni_Kind input) 128 = Ok kind /\
      level_for (nrows s) d account kind = NotificationPreferenceReject
  | Ok (Some n) => exists d account, admitted (n_call src) from (nrows s) d account /\ notice_of src input d account n /\
      delivered src d (level_for (nrows s) d account (nt_Kind n)) n s s'
  | Err _ => same s s' \/ exists d account n, admitted (n_call src) from (nrows s) d account /\ notice_of src input d account n /\
      level_for (nrows s) d account (nt_Kind n) = NotificationPreferenceNormal /\ delivered src d NotificationPreferenceNormal n s s' /\ refused_event src d n
  end.
Proof.
  assert (Hsame : forall d level n s1, same s s1 -> delivered src d level n s1 s' -> delivered src d level n s s').
  { intros d level n s1 [H1 H2 H3] [G1 G2 G3 G4 G5]. split; congruence. }
  intros [(e & -> & Hs)|[(d & account & kind & Ha & Hk & Hl & -> & Hs)|(d & account & n & s1 & Ha & Hn & Hl & H1 & Hd)]]%submit_inv; [by left| |].
  - split; [done|]. by exists d, account, kind.
  - apply deliver_inv in Hd; [|done]. destruct r as [v|e].
    + destruct Hd as [-> Hd]. exists d, account. eauto.
    + destruct Hd as [Hs|(Hl' & Hd & He)]; [left; by eapply same_trans|]. right. exists d, account, n. rewrite Hl' in Hd. split_and!; try done. eauto.
Qed.

(** ** Setting and deleting preferences *)

(** The primary key of the preferences. *)
Definition ids_unique (t : tables) : Prop :=
  forall k p k' q, f_preferences (t_feed t) !! k = Some p -> f_preferences (t_feed t) !! k' = Some q -> np_ID p = np_ID q -> k = k'.
Record scope_set (k : str * str * str) (workspace : str) (preference : Z) (t t' : tables) : Prop := {
  ss_row : exists p, f_preferences (t_feed t') !! k = Some p /\ np_WorkspaceID p = workspace /\ np_Preference p = preference;
  ss_others : forall k', k' <> k -> f_preferences (t_feed t') !! k' = f_preferences (t_feed t) !! k';
  ss_rest : exists g, t' = with_preferences g t;
  ss_ids : ids_unique t';
}.
Lemma scope_set_level account workspace daemon topic preference t t' : scope_set (account, daemon, topic) workspace preference t t' ->
  scope_level t' account workspace daemon topic = Some (normalizeNotificationPreference preference).
Proof. intros [(p & Hp & Hw & <-) _ _ _]. unfold scope_level. rewrite Hp. by rewrite bool_decide_true. Qed.
Lemma put_preference_inv id account workspace daemon topic preference now x r x' : ids_unique (rows x) ->
  put_preference id account workspace daemon topic preference now x = (r, x') ->
  match r with
  | Err _ => rows x' = rows x
  | Ok _ => scope_set (account, daemon, topic) workspace preference (rows x) (rows x') /\
      forall p, f_preferences (t_feed (rows x)) !! (account, daemon, topic) = Some p -> np_WorkspaceID p = workspace
  end.
Proof.
  intros Hu. unfold put_preference. destruct (first_preference account workspace daemon topic x) as [r1 x1] eqn:E1.
  apply (first_preference_law account workspace daemon topic) in E1 as [Hr1 E1]. destruct r1 as [p|[|e]].
  - destruct E1 as [Hp Hw]. intros Hx. apply (sql_change _ _ _ _ _ _ (update_preference_law (np_ID p) preference now)) in Hx. rewrite Hr1 in Hx.
    destruct r as [u|e]; [|done]. split; [|by intros q Hq; replace q with p by congruence]. rewrite Hx. split; cbn [with_preferences with_feed t_feed f_preferences].
    + exists (set_preference preference now p). split; [|done]. erewrite lookup_update_where by exact Hp. by rewrite bool_decide_true.
    + intros k Hk. destruct (f_preferences (t_feed (rows x)) !! k) as [q|] eqn:Eq; [|by apply lookup_update_where_None].
      erewrite lookup_update_where by exact Eq. rewrite bool_decide_false; [done|]. intros He. apply Hk. by eapply Hu.
    + by eexists.
    + intros k q k' q'. cbn. unfold update_where. rewrite !lookup_fmap, !fmap_Some. intros (q0 & Hq0 & ->) (q1 & Hq1 & ->) He.
      eapply Hu; [exact Hq0|exact Hq1|]. by revert He; do 2 case_bool_decide.
  - set (p := mkNotificationPreference _ _ _ _ _ _ _ _). intros Hx. apply (sql_change _ _ _ _ _ _ (create_preference_law p)) in Hx. rewrite Hr1 in Hx.
    destruct r as [u|e]; [|done]. destruct Hx as (Hn & Hid & Hx). change (preference_key p) with (account, daemon, topic) in *.
    split; [|by intros q Hq; rewrite Hn in Hq]. rewrite Hx. split; cbn [with_preferences with_feed t_feed f_preferences].
    + exists p. by rewrite lookup_insert_eq.
    + intros k Hk. by rewrite lookup_insert_ne.
    + by eexists.
    + intros k q k' q'. cbn. rewrite !lookup_insert_Some. intros [[<- <-]|[Hk Hq]] [[<- <-]|[Hk' Hq']] He; [done| | |by eapply Hu].
      * by destruct (Hid _ _ Hq').
      * by destruct (Hid _ _ Hq).
  - by intros [= <- <-].
Qed.
Lemma scope_daemon_ok c account workspace daemon x x' u : scope_daemon c account workspace daemon x = (Ok u, x') ->
  rows x' = rows x /\ exists d, t_daemons (rows x) !! daemon = Some d /\ dm_WorkspaceID d = workspace.
Proof.
  intros Hx. unfold scope_daemon in Hx. opened Hx. apply daemonForAccount_ok in Hs as (Hr & Hd & _ & _). injection Hx as Hw <-.
  apply guard_ok, negb_false_iff, bool_decide_eq_true in Hw. split; [done|]. by exists a.
Qed.
Lemma reads_scope_daemon c account workspace daemon : reads (scope_daemon c account workspace daemon).
Proof. apply reads_bind; [apply reads_daemonForAccount|auto with go]. Qed.
Lemma put_preferences_inv src account workspace daemon preference topics : forall k x r x', ids_unique (rows x) ->
  put_preferences src k account workspace daemon topics preference x = (r, x') ->
  match r with
  | Err _ => True
  | Ok _ => (forall topic, topic ∈ topics -> scope_level (rows x') account workspace daemon topic = Some (normalizeNotificationPreference preference)) /\
      (forall k, (forall topic, topic ∈ topics -> k <> (account, daemon, topic)) -> f_preferences (t_feed (rows x')) !! k = f_preferences (t_feed (rows x)) !! k) /\
      (exists g, rows x' = with_preferences g (rows x)) /\ ids_unique (rows x')
  end.
Proof.
  induction topics as [|topic topics IH]; intros k x r x' Hu Hx; cbn [put_preferences] in Hx.
  - injection Hx as <- <-. split_and!; [by intros ? ?%elem_of_nil|done| |done]. exists (fun m => m). by destruct (rows x) as [? ? ? ? []].
  - apply bind_inv in Hx as [(e & _ & ->)|([] & x1 & H1 & Hx)]; [done|]. apply put_preference_inv in H1 as [H1 _]; [|done].
    pose proof (ss_ids _ _ _ _ _ H1) as Hu1. specialize (IH _ _ _ _ Hu1 Hx). destruct r as [u|e]; [|done].
    destruct IH as (Hl & Ho & (g & Hg) & Hu'). split_and!; [|..|done].
    + intros t [->|Ht]%elem_of_cons; [|by apply Hl]. destruct (decide (topic ∈ topics)) as [Ht|Ht]; [by apply Hl|].
      rewrite <-(scope_set_level _ _ _ _ _ _ _ H1). unfold scope_level. rewrite Ho; [done|]. intros t' Ht' [= ->]. done.
    + intros k' Hk'. rewrite Ho; [|by intros t Ht; apply Hk'; right]. apply (ss_others _ _ _ _ _ H1). apply Hk'. left.
    + destruct (ss_rest _ _ _ _ _ H1) as [g1 Hg1]. exists (fun m => g (g1 m)). rewrite Hg, Hg1. done.
Qed.

Lemma add_topics_dom l : forall m topic, is_Some (fold_left add_topic l m !! topic) <-> is_Some (m !! topic) \/ topic ∈ l.
Proof.
  induction l as [|k l IH]; intros m topic; cbn [fold_left]; [split; [by left|intros [Hm|Hl]; [done|by apply elem_of_nil in Hl]]|].
  rewrite IH, elem_of_cons. unfold add_topic. destruct (m !! k) as [v|] eqn:Ek.
  - split; [tauto|]. intros [Hm|[->|Hl]]; [by left|left; by exists v|by right].
  - rewrite lookup_insert_is_Some. destruct (decide (k = topic)) as [->|Hn]; [tauto|]. split; [tauto|]. intros [Hm|[->|Hl]]; tauto.
Qed.
#[local] Opaque known_topics.
(** The topics a member sees: the known ones, the kinds the workspace has seen and the
    topics of the account's own preferences, each once and in order. *)
Lemma ListNotificationTopics_ok c account workspace x l x' : ListNotificationTopics c account workspace x = (Ok l, x') ->
  rows x' = rows x /\ confirmed c account (TrimSpace workspace) /\ NoDup l.*1 /\ StronglySorted str_le l.*1 /\
  forall topic, topic ∈ l.*1 <-> topic ∈ known_topics.*1 \/
    (exists id n, f_notifications (t_feed (rows x)) !! id = Some n /\ nt_WorkspaceID n = TrimSpace workspace /\ nt_Kind n = topic) \/
    (exists p, stored_in preference_key (f_preferences (t_feed (rows x))) (preference_matches account (TrimSpace workspace) None None) p /\ np_Topic p = topic).
Proof.
  intros Hx. unfold ListNotificationTopics in Hx. opened Hx. injection Hs as _ <-. injection Hs0 as Ha <-. destruct a0. apply authorizeWorkspace_ok in Ha.
  apply (sql_query _ _ _ _ _ _ _ (notification_kinds_law (TrimSpace workspace))) in Hs1 as [Hr1 [_ Hk]].
  apply (sql_query _ _ _ _ _ _ _ (find_preferences_law account (TrimSpace workspace) None)) in Hs2 as [Hr2 Hp].
  set (topics := fold_left add_topic _ _). rewrite <-list_fmap_compose. unfold compose. cbn [fst]. rewrite list_fmap_id. split_and!; [congruence|done| |apply sort_strings_sorted|].
  - apply NoDup_sort_strings, NoDup_fst_map_to_list.
  - intros topic. rewrite elem_of_sort_strings. transitivity (is_Some (topics !! topic)).
    { rewrite list_elem_of_fmap. split; [intros ([k v] & -> & Hv%elem_of_map_to_list); by exists v|]. intros [v Hv]. exists (topic, v). split; [done|by apply elem_of_map_to_list]. }
    unfold topics. rewrite !add_topics_dom, (Hk topic).
    assert (Hm : is_Some ((list_to_map known_topics : gmap str str) !! topic) <-> topic ∈ known_topics.*1).
    { by rewrite <-(elem_of_dom (D := gset str)), dom_list_to_map_L, elem_of_list_to_set. }
    assert (Ht : topic ∈ np_Topic <$> a2 <-> exists p, stored_in preference_key (f_preferences (t_feed (rows x))) (preference_matches account (TrimSpace workspace) None None) p /\ np_Topic p = topic); [|tauto].
    rewrite list_elem_of_fmap. rewrite Hr1 in Hp. split; intros (p & He & Hq); exists p; split; try done; by apply Hp.
Qed.

(** The daemon a preference is for, when it is for one, is of the workspace. *)
Definition its_daemon (workspace daemon : str) t : Prop := daemon <> [] -> exists d, t_daemons t !! daemon = Some d /\ dm_WorkspaceID d = workspace.
Lemma scope_if_ok c account workspace daemon x x' u :
  (if bool_decide (daemon = []) then ret tt else scope_daemon c account workspace daemon) x = (Ok u, x') -> its_daemon workspace daemon (rows x).
Proof. case_bool_decide as Hd; [by intros _ Hn|]. intros Hs%scope_daemon_ok _. naive_solver. Qed.
#[local] Hint Resolve reads_scope_daemon reads_daemonForAccount : go.
Lemma reads_scope_if c account workspace daemon : reads (if bool_decide (daemon = []) then ret tt else scope_daemon c account workspace daemon).
Proof. case_bool_decide; auto with go. Qed.
#[local] Hint Resolve reads_scope_if : go.
Lemma reads_topics c account workspace : reads (ListNotificationTopics c account workspace).
Proof.
  unfold ListNotificationTopics. cbv zeta. apply reads_bind; [auto with go|intros _]. apply reads_bind; [auto with go|intros _].
  apply reads_bind; [eapply reads_sql, notification_kinds_law|intros kinds]. apply reads_bind; [eapply reads_sql, find_preferences_law|auto with go].
Qed.
#[local] Hint Resolve reads_topics : go.
Lemma validate_ok preference : validateNotificationPreference preference = Ok tt <-> 0 <= preference <= 2.
Proof. unfold validateNotificationPreference. rewrite guard_ok. cbn. rewrite orb_false_iff, !Z.ltb_ge. lia. Qed.
Lemma set_preference_spec src account workspace daemon topic preference x r x' : let ws := TrimSpace workspace in
  ids_unique (rows x) -> SetNotificationPreference src account workspace daemon topic preference x = (r, x') ->
  match r with
  | Err _ => rows x' = rows x
  | Ok _ => confirmed (n_call src) account ws /\ its_daemon ws daemon (rows x) /\ 0 <= preference <= 2 /\ exists topic', bound topic 128 = Ok topic' /\
      scope_set (account, daemon, topic') ws preference (rows x) (rows x') /\
      forall p, f_preferences (t_feed (rows x)) !! (account, daemon, topic') = Some p -> np_WorkspaceID p = ws
  end.
Proof.
  intros ws Hu Hx. unfold SetNotificationPreference in Hx. cbv zeta in Hx. settled Hx Hw. settled Hx Hv. settled Hx Ht. settled Hx Hc. calm Hx Hd Hr.
  apply scope_if_ok in Hd. destruct a0, a2. apply put_preference_inv in Hx; rewrite Hr in *; [|done]. destruct r as [u|e]; [|done].
  apply validate_ok in Hv. apply wrapped_ok in Ht. apply authorizeWorkspace_ok in Hc. destruct Hx as [Hx Hp]. split; [done|]. split; [done|]. split; [lia|]. by exists a1.
Qed.
Lemma set_all_spec src account workspace daemon preference x r x' : let ws := TrimSpace workspace in
  ids_unique (rows x) -> SetAllDaemonNotificationPreferences src account workspace daemon preference x = (r, x') ->
  match r with
  | Err _ => rows x' = rows x
  | Ok _ => confirmed (n_call src) account ws /\ its_daemon ws daemon (rows x) /\ 0 <= preference <= 2 /\ ids_unique (rows x') /\
      (forall topic, topic ∈ known_topics.*1 \/ (exists id n, f_notifications (t_feed (rows x)) !! id = Some n /\ nt_WorkspaceID n = ws /\ nt_Kind n = topic) ->
         scope_level (rows x') account ws daemon topic = Some (normalizeNotificationPreference preference)) /\
      (forall k, k.1 <> (account, daemon) -> f_preferences (t_feed (rows x')) !! k = f_preferences (t_feed (rows x)) !! k)
  end.
Proof.
  intros ws Hu Hx. unfold SetAllDaemonNotificationPreferences in Hx. cbv zeta in Hx. settled Hx Hw. settled Hx Hv. settled Hx Hc. calm Hx Hd Hr. calm Hx Ht Hr'.
  apply ListNotificationTopics_ok in Ht as (_ & _ & _ & _ & Ht). unfold ws in *. rewrite TrimSpace_idem in Ht. apply Transaction_law in Hx.
  destruct r as [u|e]; [|congruence]. destruct Hx as (y & y' & Hy & Hx & Hy'). assert (Hu' : ids_unique (rows y)) by (rewrite Hy, Hr', Hr; done).
  apply put_preferences_inv in Hx as (Hl & Ho & _ & Hu2); [|done]. rewrite Hy'. apply scope_daemon_ok in Hd. destruct a0, a1. apply validate_ok in Hv. apply authorizeWorkspace_ok in Hc.
  split; [done|]. split; [by intros _; apply Hd|]. split_and!; try lia; try done.
  - intros topic Htop. apply Hl, Ht. rewrite Hr. tauto.
  - intros k Hk. rewrite Ho; [by rewrite Hy, Hr', Hr|]. intros topic _ ->. by apply Hk.
Qed.
Lemma delete_preference_spec c account workspace daemon topic x r x' : let ws := TrimSpace workspace in
  DeleteNotificationPreference c account workspace daemon topic x = (r, x') ->
  match r with
  | Err _ => rows x' = rows x
  | Ok _ => confirmed c account ws /\ its_daemon ws daemon (rows x) /\ exists topic', bound topic 128 = Ok topic' /\
      effective_level (rows x') account ws daemon topic' =
        (if bool_decide (daemon = []) then NotificationPreferenceNormal else effective_level (rows x) account ws [] topic') /\
      (forall k, k <> (account, daemon, topic') -> f_preferences (t_feed (rows x')) !! k = f_preferences (t_feed (rows x)) !! k)
  end.
Proof.
  intros ws Hx. unfold DeleteNotificationPreference in Hx. cbv zeta in Hx. settled Hx Hw. settled Hx Ht. settled Hx Hc. calm Hx Hd Hr.
  apply (sql_change _ _ _ _ _ _ (delete_preferences_law account ws daemon (Some a0))) in Hx. rewrite Hr in Hx. destruct r as [u|e]; [|done].
  apply scope_if_ok in Hd. destruct a1. apply wrapped_ok in Ht. apply authorizeWorkspace_ok in Hc. split; [done|]. split; [done|]. exists a0. split; [done|].
  assert (Hk : forall k p, f_preferences (t_feed (rows x')) !! k = Some p <-> f_preferences (t_feed (rows x)) !! k = Some p /\
    preference_matches account ws (Some daemon) (Some a0) p = false) by (intros k p; rewrite Hx; cbn; by rewrite map_lookup_filter_Some).
  assert (Hkey : forall k p, f_preferences (t_feed (rows x)) !! k = Some p -> preference_matches account ws (Some daemon) (Some a0) p = true -> k = (account, daemon, a0)).
  { intros k p Hp Hm. apply keyed_preferences in Hp as <-. unfold preference_matches in Hm. cbn in Hm. rewrite !andb_true_iff, !bool_decide_eq_true in Hm.
    destruct Hm as [[[<- _] <-] <-]. done. }
  assert (Ho : forall k, k <> (account, daemon, a0) -> f_preferences (t_feed (rows x')) !! k = f_preferences (t_feed (rows x)) !! k).
  { intros k Hn. apply option_eq. intros p. rewrite Hk. split; [tauto|]. intros Hp. split; [done|]. destruct (preference_matches _ _ _ _ p) eqn:Em; [|done].
    by destruct Hn; eapply Hkey. }
  split; [|done]. clear Hw Hd. assert (Hnone : scope_level (rows x') account ws daemon a0 = None).
  { unfold scope_level. destruct (_ !! _) as [p|] eqn:Ep; [|done]. apply Hk in Ep as [Hp Hm]. case_bool_decide as Hpw; [|done].
    pose proof (keyed_preferences _ _ _ Hp) as He. unfold preference_key in He. injection He as H1 H2 H3. unfold preference_matches in Hm. cbn in Hm.
    rewrite !bool_decide_true in Hm by done. discriminate Hm. }
  unfold effective_level. rewrite Hnone. case_bool_decide as Hdm; [subst daemon; by rewrite Hnone|].
  assert (He : scope_level (rows x') account ws [] a0 = scope_level (rows x) account ws [] a0) by (unfold scope_level; rewrite Ho; congruence).
  rewrite He. by destruct (scope_level (rows x) account ws [] a0).
Qed.

(** A member sets how an account hears of a topic, of a daemon only in the daemon's own
    workspace: afterwards that level decides in its scope and every other scope is as before; for all topics of a daemon at once,
    all are set or nothing is; deleting leaves the daemon to the account's own level.
    Failure changes nothing. The unique index leaves the workspace out, so an account
    that has set a topic in one workspace can never set it in another. *)
Theorem preferences_exact src account workspace daemon : let ws := TrimSpace workspace in let c := n_call src in
  (forall topic preference x r x', ids_unique (rows x) -> SetNotificationPreference src account workspace daemon topic preference x = (r, x') ->
    match r with
    | Err _ => rows x' = rows x
    | Ok _ => confirmed c account ws /\ its_daemon ws daemon (rows x) /\ 0 <= preference <= 2 /\ exists topic', bound topic 128 = Ok topic' /\
        scope_set (account, daemon, topic') ws preference (rows x) (rows x') /\
        forall p, f_preferences (t_feed (rows x)) !! (account, daemon, topic') = Some p -> np_WorkspaceID p = ws
    end) /\
  (forall preference x r x', ids_unique (rows x) -> SetAllDaemonNotificationPreferences src account workspace daemon preference x = (r, x') ->
    match r with
    | Err _ => rows x' = rows x
    | Ok _ => confirmed c account ws /\ its_daemon ws daemon (rows x) /\ 0 <= preference <= 2 /\ ids_unique (rows x') /\
        (forall topic, topic ∈ known_topics.*1 \/ (exists id n, f_notifications (t_feed (rows x)) !! id = Some n /\ nt_WorkspaceID n = ws /\ nt_Kind n = topic) ->
           scope_level (rows x') account ws daemon topic = Some (normalizeNotificationPreference preference)) /\
        (forall k, k.1 <> (account, daemon) -> f_preferences (t_feed (rows x')) !! k = f_preferences (t_feed (rows x)) !! k)
    end) /\
  (forall topic x r x', DeleteNotificationPreference c account workspace daemon topic x = (r, x') ->
    match r with
    | Err _ => rows x' = rows x
    | Ok _ => confirmed c account ws /\ its_daemon ws daemon (rows x) /\ exists topic', bound topic 128 = Ok topic' /\
        effective_level (rows x') account ws daemon topic' =
          (if bool_decide (daemon = []) then NotificationPreferenceNormal else effective_level (rows x) account ws [] topic') /\
        (forall k, k <> (account, daemon, topic') -> f_preferences (t_feed (rows x')) !! k = f_preferences (t_feed (rows x)) !! k)
    end).
Proof.
  intros ws c. split; [|split].
  - intros topic preference x r x'. apply set_preference_spec.
  - intros preference x r x'. apply set_all_spec.
  - intros topic x r x'. apply delete_preference_spec.
Qed.

(** ** The feed *)

Lemma opt_eq_daemon (daemon x : str) : opt_eq (if bool_decide (daemon = []) then None else Some daemon) x = true <-> (daemon <> [] -> x = daemon).
Proof. case_bool_decide as Hd; cbn; [tauto|]. rewrite bool_decide_eq_true. tauto. Qed.
Lemma before_ok_spec before at_ : before_ok before at_ = true <-> (forall b, before = Some b -> at_ < b).
Proof. destruct before as [b|]; cbn; [rewrite Z.ltb_lt|done]. split; [by intros Hb ? [= <-]|by intros Hb; apply Hb]. Qed.
Lemma notification_matches_spec workspace unread daemon before n :
  notification_matches workspace unread (if bool_decide (daemon = []) then None else Some daemon) before n = true <->
  nt_WorkspaceID n = workspace /\ (unread = true -> nt_ReadAt n = None) /\ (daemon <> [] -> nt_DaemonID n = daemon) /\
  (forall b, before = Some b -> nt_CreatedAt n < b).
Proof.
  unfold notification_matches. rewrite !andb_true_iff, bool_decide_eq_true, opt_eq_daemon, before_ok_spec.
  assert (Hu : (negb unread || negb (is_Some_b (nt_ReadAt n))) = true <-> (unread = true -> nt_ReadAt n = None)) by (destruct unread, (nt_ReadAt n); cbn; naive_solver).
  rewrite Hu. tauto.
Qed.
Lemma feed_limit_range limit : 0 < feed_limit limit <= 100.
Proof. unfold feed_limit. repeat case_match; lia. Qed.
(** Only a confirmed member sees or marks the notifications of a workspace: the
    list is the newest of those asked for, at most a hundred, none newer left out;
    marking one sets the time it was read once and for all, marking all does so for
    exactly the unread ones, and nothing else changes. *)
Theorem feed_exact c account : 
  (forall workspace unread daemon limit before x l x', ListNotifications c account workspace unread daemon limit before x = (Ok l, x') ->
     rows x' = rows x /\ confirmed c account (TrimSpace workspace) /\ (List.length l <= 100)%nat /\
     window (newer nt_CreatedAt) (fun n => f_notifications (t_feed (rows x)) !! nt_ID n = Some n /\ nt_WorkspaceID n = TrimSpace workspace /\
       (unread = true -> nt_ReadAt n = None) /\ (daemon <> [] -> nt_DaemonID n = daemon) /\ (forall b, before = Some b -> nt_CreatedAt n < b))
       (Z.to_nat (feed_limit limit)) l) /\
  (forall id x x', MarkNotificationRead c account id x = (Ok tt, x') ->
     exists n, f_notifications (t_feed (rows x)) !! id = Some n /\ confirmed c account (nt_WorkspaceID n) /\
       rows x' = match nt_ReadAt n with Some _ => rows x | None => with_notifications <[id := set_read (c_now c) n]> (rows x) end) /\
  (forall workspace x x', MarkAllNotificationsRead c account workspace x = (Ok tt, x') ->
     confirmed c account (TrimSpace workspace) /\
     forall id n, f_notifications (t_feed (rows x)) !! id = Some n -> f_notifications (t_feed (rows x')) !! id =
       Some (if bool_decide (nt_WorkspaceID n = TrimSpace workspace) && negb (is_Some_b (nt_ReadAt n)) then set_read (c_now c) n else n)).
Proof.
  split; [|split].
  - intros workspace unread daemon limit before x l x' Hx. unfold ListNotifications in Hx. cbv zeta in Hx. opened Hx.
    injection Hs as _ <-. injection Hs0 as Ha <-. destruct a0. apply authorizeWorkspace_ok in Ha.
    apply (sql_query _ _ _ _ _ _ _ (find_notifications_law _ _ _ _ _)) in Hx as [Hr [W1 W2 W3 W4 W5]]. pose proof (feed_limit_range limit) as Hl.
    assert (Hst : forall n, stored_in nt_ID (f_notifications (t_feed (rows x))) (notification_matches (TrimSpace workspace) unread (if bool_decide (daemon = []) then None else Some daemon) before) n <->
      f_notifications (t_feed (rows x)) !! nt_ID n = Some n /\ nt_WorkspaceID n = TrimSpace workspace /\
       (unread = true -> nt_ReadAt n = None) /\ (daemon <> [] -> nt_DaemonID n = daemon) /\ (forall b, before = Some b -> nt_CreatedAt n < b)).
    { intros n. unfold stored_in. by rewrite notification_matches_spec. }
    split_and!; [done|done|lia|]. split; [intros n Hn; by apply Hst, W1|done|done|intros n Hn; apply W4; by apply Hst|done].
  - intros id x x' Hx. unfold MarkNotificationRead in Hx. opened Hx. apply (sql_query _ _ _ _ _ _ _ (first_notification_law id)) in Hs as [Hr Hn].
    injection Hs0 as Ha <-. destruct a0. apply authorizeWorkspace_ok in Ha. exists a. split_and!; [done..|]. destruct (nt_ReadAt a); [by injection Hx as <-; rewrite Hr|].
    apply (sql_change _ _ _ _ _ _ (read_notification_law _ _)) in Hx. rewrite Hx, Hr. unfold with_notifications, with_feed.
    do 2 f_equal. assert (nt_ID a = id) as -> by (by apply keyed_notifications in Hn). by apply update_where_key; [apply keyed_notifications|].
  - intros workspace x x' Hx. unfold MarkAllNotificationsRead in Hx. cbv zeta in Hx. opened Hx. injection Hs as _ <-. injection Hs0 as Ha <-. destruct a0.
    apply authorizeWorkspace_ok in Ha. apply (sql_change _ _ _ _ _ _ (read_notifications_law _ _)) in Hx. split; [done|]. intros id n Hn. rewrite Hx. cbn.
    erewrite lookup_update_where by exact Hn. do 2 f_equal. unfold notification_matches. cbn. by rewrite !andb_true_r.
Qed.
End notify.

(** ** A small feed *)

Definition demo_json : Json := {| json_Unmarshal t := if bool_decide (t = $"{}") then Some (AMap []) else None; json_Marshal _ := Some ($"{}") |}.
Definition demo_times : TimeText := {| RFC3339 t := fmt_d t; RFC3339Nano t := fmt_d t |}.
#[local] Existing Instance demo_crypto.
#[local] Existing Instance demo_unicode.
#[local] Existing Instance demo_floats.
#[local] Existing Instance demo_json.
#[local] Existing Instance demo_times.
Definition demo_ids (base : string) (k : nat) : str := $base ++ fmt_d (Z.of_nat k).
Definition demo_sources (now : Z) (base : string) : Sources :=
  mkSources (demo_call now base) (demo_ids base) (Some (fun _ => None)) None (fun l => l).
(** Ada hears of backups in silence, but of those of her box aloud. *)
Definition demo_wishes : list_db :=
  (SetNotificationPreference (demo_sources 2 "q") ($"ada") ($"ws") ($"d1") ($"backup") 0
     (SetNotificationPreference (demo_sources 1 "p") ($"ada") ($" ws ") [] ($"backup") 1 demo_db).2).2.
Definition demo_notice (kind : string) : NotificationInput := mkNotificationInput ($kind) ($"done") [] ($" all fine ") [].
Definition demo_feed : res (option Notification) * nstate :=
  submit (demo_sources 3 "n") (ByDaemon ($"d1") ($"old")) (demo_notice "backup") (mkNState demo_wishes [] ∅).
Lemma notification_exact_witness : exists n, demo_feed.1 = Ok (Some n) /\ nt_Body n = $"all fine" /\
  ev_NotificationID <$> ns_events demo_feed.2 = [nt_ID n] /\
  exists d account, delivered (demo_sources 3 "n") d (level_for (rows demo_wishes) d account (nt_Kind n)) n (mkNState demo_wishes [] ∅) demo_feed.2.
Proof.
  pose proof (notification_exact (D := ListDatabase) (demo_sources 3 "n") (ByDaemon ($"d1") ($"old")) (demo_notice "backup") (mkNState demo_wishes [] ∅) _ _ (surjective_pairing _)) as Hn.
  change (submit _ _ _ _) with demo_feed in Hn. destruct (demo_feed.1) as [[n|]|e] eqn:E; [|vm_compute in E; discriminate E..].
  exists n. split; [reflexivity|]. split; [vm_compute in E; injection E as <-; reflexivity|]. split; [vm_compute in E; injection E as <-; vm_compute; reflexivity|].
  destruct Hn as (d & account & _ & _ & Hd). exists d, account. exact Hd.
Defined.
Lemma preferences_exact_witness :
  let out := SetNotificationPreference (demo_sources 2 "q") ($"ada") ($"ws") ($"d1") ($"backup") 2 demo_db in
  out.1 = Ok tt /\ scope_set ($"ada", $"d1", $"backup") ($"ws") 2 (rows demo_db) (rows out.2).
Proof.
  intros out. pose proof (proj1 (preferences_exact (D := ListDatabase) (demo_sources 2 "q") ($"ada") ($"ws") ($"d1")) ($"backup") 2 demo_db _ _ (fun k p k' q H => ltac:(vm_compute in H; discriminate H)) (surjective_pairing _)) as Hp.
  change (SetNotificationPreference _ _ _ _ _ _ _) with out in Hp. destruct (out.1) as [[]|e] eqn:E; [|vm_compute in E; discriminate E]. split; [reflexivity|].
  destruct Hp as (_ & _ & _ & topic & Ht & Hs & _). vm_compute in Ht. injection Ht as <-. exact Hs.
Defined.
Lemma feed_exact_witness :
  let out := ListNotifications (demo_call 4 "x") ($"ada") ($"ws") true [] 0 None (ns_db demo_feed.2) in
  exists l, out.1 = Ok l /\ nt_Kind <$> l = [$"backup"] /\ (List.length l <= 100)%nat.
Proof.
  intros out. destruct (out.1) as [l|e] eqn:E; [|vm_compute in E; discriminate E]. exists l. split; [reflexivity|].
  split; [vm_compute in E; injection E as <-; vm_compute; reflexivity|].
  apply (proj1 (feed_exact (D := ListDatabase) (demo_call 4 "x") ($"ada")) ($"ws") true [] 0 None (ns_db demo_feed.2) l out.2).
  change (out = (Ok l, out.2)). rewrite <-E. apply surjective_pairing.
Defined.
