(* ===== verification/CloudTelemetry.v ===== *)
(** * CloudTelemetry: what daemons report, and when they fall silent

    [internal/cloud/service.go]: the ingestion of metrics, logs and container snapshots
    with their bounds and quotas, the heartbeat and the notifications of a daemon that
    disconnects or returns, retention, and the lists members read. *)

From Stdlib Require Import SpecFloat QArith.
From S2P Require Import Prelude GoStr Config Alarms CloudDB CloudFeedDB Localize Cloud CloudNotify.
Open Scope Z_scope.

Definition second : Z := 1000000000.
Definition day : Z := 86400 * second.
(** [now.AddDate(0, 0, -days)], in UTC. *)
Definition days_before (now days : Z) : Z := now - days * day.
(** [d.Round(time.Second)] of a duration that is not negative. *)
Definition round_second (d : Z) : Z :=
  let r := d mod second in
  if 2 * r <? second then d - r else Z.min max_int64 (d - r + second).
(** [String] of a whole number of seconds. *)
Definition seconds_String (d : Z) : str :=
  let s := d / second in
  let h := s / 3600 in let m := s / 60 mod 60 in
  (if 0 <? h then fmt_d h ++ $"h" else []) ++ (if 0 <? s / 60 then fmt_d m ++ $"m" else []) ++ fmt_d (s mod 60) ++ $"s".

Section telemetry.
Context `{FeedDatabase, Crypto, Unicode, FloatText, Json, TimeText}.

(** ** Metrics *)

(** [None] is a time that is zero. *)
Record MetricInput := mkMetricInput {
  mi_SentAt : option Z; mi_HostID : str; mi_UptimeSeconds : Z; mi_ProcessMemoryBytes : Z; mi_CPUPercent : float64; mi_CPUCount : Z;
  mi_Load1 : float64; mi_Load5 : float64; mi_Load15 : float64; mi_MemoryUsedPercent : float64; mi_MemoryUsedBytes : Z;
  mi_MemoryTotalBytes : Z; mi_SwapTotalKb : Z; mi_SwapFreeKb : Z; mi_DiskTotalKb : Z; mi_DiskAvailableKb : Z;
  mi_NetRxBytes : Z; mi_NetTxBytes : Z; mi_WebhookExecutions : Z; mi_WebhookFailures : Z; mi_HealthScore : Z; mi_HealthStatus : str;
}.
Definition percent_bad (x : float64) : bool := float_lt x (FNum 0) || float_lt (FNum 100) x.
(** The time of a metric that is in bounds. *)
Definition checked_metric (input : MetricInput) : res Z :=
  match mi_SentAt input with
  | None => Err (Errorf "invalid metric" [])
  | Some sent =>
      if (mi_UptimeSeconds input <? 0) || (mi_ProcessMemoryBytes input <? 0) || percent_bad (mi_CPUPercent input) ||
         percent_bad (mi_MemoryUsedPercent input) || (mi_HealthScore input <? 0) || (100 <? mi_HealthScore input)
      then Err (Errorf "invalid metric" []) else Ok sent
  end.
Definition health_status (status : str) : str := take 16 (TrimSpace status).
Definition metric_row (id daemon : str) (sent now : Z) (i : MetricInput) : DaemonMetric :=
  mkDaemonMetric id daemon sent now (mi_UptimeSeconds i) (mi_ProcessMemoryBytes i) (mi_CPUPercent i) (mi_CPUCount i) (mi_Load1 i)
    (mi_Load5 i) (mi_Load15 i) (mi_MemoryUsedPercent i) (mi_MemoryUsedBytes i) (mi_MemoryTotalBytes i) (mi_SwapTotalKb i) (mi_SwapFreeKb i)
    (mi_DiskTotalKb i) (mi_DiskAvailableKb i) (mi_NetRxBytes i) (mi_NetTxBytes i) (mi_WebhookExecutions i) (mi_WebhookFailures i)
    (mi_HealthScore i) (health_status (mi_HealthStatus i)).
Definition ErrMetricOutOfRetention : error := Errorf "metric outside retention window" [].
(** The throttle, whose memory outlives a failure of the call. *)
Definition throttle (daemon : Daemon) (quotas : gmap str Z) (now : Z) : N unit := fun s =>
  let '(r, hits) := enforcePollInterval daemon quotas now (ns_pollHit s) in (r, mkNState (ns_db s) (ns_events s) hits).
Definition retention_days (quotas : gmap str Z) : Z := clampRetentionDays (dimension quotas "metrics_retention_days").
Definition too_old (quotas : gmap str Z) (now sent : Z) : bool :=
  (0 <? retention_days quotas) && (sent <? days_before now (retention_days quotas)).
(** The body of the notification of a return, and its metadata. *)
Definition reconnected (now : Z) (disconnected : option Z) : str * gmap str any :=
  let metadata := {[ $"reconnected_at" := AString (RFC3339Nano now); $"last_seen_at" := AString (RFC3339Nano now) ]} in
  match disconnected with
  | None => ($"Metrics received again after the daemon disconnected.", <[$"downtime" := AString ($"an unknown interval")]> metadata)
  | Some at_ =>
      let downtime := Z.max 0 (time_Sub now at_) in
      let downtimeText := seconds_String (round_second downtime) in
      ($"Metrics resumed after " ++ downtimeText ++ $".",
       <[$"downtime" := AString downtimeText]> (<[$"downtime_seconds" := AInt (downtime / second)]> (<[$"disconnected_at" := AString (RFC3339Nano at_)]> metadata)))
  end.
Definition kind_reconnected : str := $"daemon.reconnected".
Definition kind_disconnected : str := $"daemon.disconnected".
Definition encode (metadata : gmap str any) : res str :=
  match marshal_map metadata with Some text => Ok text | None => Err (Errorf "json: unsupported value" []) end.
Definition notify_return (src : Sources) (d : Daemon) : N unit :=
  let now := c_now (n_call src) in
  let '(body, metadata) := reconnected now (dm_DisconnectedAt d) in
  let! encoded := lift (encode metadata) in
  let! preference := on_db (notificationPreference (dm_AccountID d) (dm_WorkspaceID d) (dm_ID d) kind_reconnected) in
  match preference with
  | NotificationPreferenceReject => ret tt
  | _ =>
      let '(title, body) := localizedAlarm src (dm_AccountID d) kind_reconnected ($"Daemon reconnected") body encoded in
      let! _ := deliver src d preference (mkNotification (n_uuid src 0) (dm_AccountID d) (dm_WorkspaceID d) (dm_ID d) kind_reconnected title [] body encoded None now) in
      ret tt
  end.
Definition new_host (input : MetricInput) (d : Daemon) : option str :=
  let hostID := TrimSpace (mi_HostID input) in
  if bool_decide (hostID <> []) && negb (bool_decide (hostID = dm_HostID d)) then Some hostID else None.
Definition IngestMetric (src : Sources) (id secret : str) (input : MetricInput) : N unit :=
  let c := n_call src in let now := c_now c in
  let! d := on_db (authenticateDaemon id secret) in
  let! sent := lift (checked_metric input) in
  let! quotas := lift (workspaceQuota c (dm_WorkspaceID d)) in
  let! _ := throttle d quotas now in
  let! _ := when_ (too_old quotas now sent) (Errorf "%w: sent_at older than %d days" [FErr ErrMetricOutOfRetention; FInt (retention_days quotas)]) in
  let! _ := on_db (exec (create_metric (metric_row (n_uuid src 2) (dm_ID d) sent now input))) in
  let! _ := on_db (exec (touch_daemon (dm_ID d) now (new_host input d))) in
  let! affected := on_db (exec (mark_connected (dm_ID d))) in
  if affected =? 1 then notify_return src d else ret tt.

Definition metrics_limit (limit : Z) : Z := let limit := if limit <=? 0 then 100 else limit in if 100 <? limit then 100 else limit.
Definition ListMetrics (c : Call) (accountID daemonID : str) (limit : Z) (before : option Z) : M (list DaemonMetric) :=
  let! _ := daemonForAccount c accountID daemonID in
  exec (find_metrics daemonID before (Z.to_nat (metrics_limit limit))).
Definition DefaultDaemonDisconnectAfter : Z := 5 * 60 * second.
Definition DefaultDaemonDisconnectNotificationCooldown : Z := 30 * 60 * second.
Record DaemonHealthView := mkDaemonHealthView {
  hv_DaemonID : str; hv_Score : Z; hv_Status : str; hv_EvaluatedAt : Z; hv_ReceivedAt : Z; hv_Stale : bool;
}.
Definition DaemonHealth (c : Call) (accountID daemonID : str) : M DaemonHealthView :=
  let! _ := daemonForAccount c accountID daemonID in
  let! row := sql ErrNotFound (latest_metric daemonID) in
  let status := TrimSpace (mt_HealthStatus row) in
  let status := if bool_decide (status = []) then $"unknown" else status in
  ret (mkDaemonHealthView (mt_DaemonID row) (mt_HealthScore row) status (mt_SentAt row) (mt_ReceivedAt row)
         (DefaultDaemonDisconnectAfter <? time_Sub (c_now c) (mt_ReceivedAt row))).

(** ** Logs *)

Record LogInput := mkLogInput { li_ContainerID : str; li_Timestamp : option Z; li_Line : str }.
Definition log_row (id daemon : str) (quotas : gmap str Z) (now : Z) (entry : LogInput) : res DaemonLog :=
  let container := TrimSpace (li_ContainerID entry) in
  let? _ := guard (bool_decide (container = []) || (128 <? Z.of_nat (List.length container)) || negb (ValidString container))
              (Errorf "container_id exceeds bounds or is empty" []) in
  match li_Timestamp entry with
  | None => Err (Errorf "timestamp is required" [])
  | Some at_ =>
      let? _ := guard (too_old quotas now at_) (Errorf "log outside retention window" []) in
      let? _ := guard (bool_decide (li_Line entry = []) || (4096 <? Z.of_nat (List.length (li_Line entry))) || negb (ValidString (li_Line entry)))
                  (Errorf "line exceeds bounds or is empty" []) in
      Ok (mkDaemonLog id daemon container at_ now (li_Line entry))
  end.
Fixpoint log_rows (uuid : nat -> str) (k : nat) (daemon : str) (quotas : gmap str Z) (now : Z) (entries : list LogInput) : res (list DaemonLog) :=
  match entries with
  | [] => Ok []
  | entry :: entries =>
      let? row := log_row (uuid k) daemon quotas now entry in
      let? rows := log_rows uuid (S k) daemon quotas now entries in
      Ok (row :: rows)
  end.
Definition IngestLogs (src : Sources) (id secret : str) (entries : list LogInput) : M unit :=
  let! d := authenticateDaemon id secret in
  let! _ := when_ (bool_decide (entries = []) || (500 <? Z.of_nat (List.length entries))) (Errorf "entries must contain between 1 and 500 lines" []) in
  let! quotas := lift (workspaceQuota (n_call src) (dm_WorkspaceID d)) in
  let! rows := lift (log_rows (n_uuid src) 0 (dm_ID d) quotas (c_now (n_call src)) entries) in
  exec (create_logs rows).
Definition list_limit (limit : Z) : Z := if (limit <=? 0) || (500 <? limit) then 100 else limit.
Definition filter_of (value : str) : option str := let value := TrimSpace value in if bool_decide (value = []) then None else Some value.
Definition ListLogs (c : Call) (accountID daemonID containerID : str) (limit : Z) (before : option Z) : M (list DaemonLog) :=
  let! _ := daemonForAccount c accountID daemonID in
  exec (find_logs daemonID (filter_of containerID) before (Z.to_nat (list_limit limit))).

(** ** Containers *)

Record ContainerStatusInput := mkContainerStatusInput {
  ci_ContainerID : str; ci_Runtime : str; ci_Name : str; ci_Image : str; ci_State : str; ci_Status : str; ci_ComposeProject : str;
}.
Fixpoint covered_runtimes (seen : list str) (runtimes : list str) : res (list str) :=
  match runtimes with
  | [] => Ok []
  | r :: runtimes =>
      let name := TrimSpace r in
      let? _ := guard (bool_decide (name = []) || (64 <? Z.of_nat (List.length name)) || negb (ValidString name))
                  (Errorf "runtime name exceeds bounds or is empty" []) in
      if bool_decide (name ∈ seen) then covered_runtimes seen runtimes
      else let? rest := covered_runtimes (name :: seen) runtimes in Ok (name :: rest)
  end.
Definition normalizeCoveredRuntimes (runtimes : list str) : res (list str) :=
  let? _ := guard (8 <? Z.of_nat (List.length runtimes)) (Errorf "runtimes must not exceed 8 entries" []) in
  covered_runtimes [] runtimes.
Definition container_row (d : Daemon) (now : Z) (c : ContainerStatusInput) : res DaemonContainer :=
  let cid := TrimSpace (ci_ContainerID c) in
  let? _ := guard (bool_decide (cid = []) || (128 <? Z.of_nat (List.length cid)) || negb (ValidString cid))
              (Errorf "container_id exceeds bounds or is empty" []) in
  Ok (mkDaemonContainer (dm_ID d) cid (TrimSpace (ci_Runtime c)) (dm_WorkspaceID d) (take 255 (TrimSpace (ci_Name c))) (ci_Image c)
        (ci_State c) (ci_Status c) (ci_ComposeProject c) now now now).
Fixpoint container_rows (d : Daemon) (now : Z) (l : list ContainerStatusInput) : res (list DaemonContainer) :=
  match l with
  | [] => Ok []
  | c :: l => let? row := container_row d now c in let? rows := container_rows d now l in Ok (row :: rows)
  end.
Definition IngestContainerStatus (c : Call) (id secret : str) (containers : list ContainerStatusInput) (runtimes : list str) : M unit :=
  let! d := authenticateDaemon id secret in
  let! _ := when_ (500 <? Z.of_nat (List.length containers)) (Errorf "containers must not exceed 500 entries" []) in
  let! covered := lift (normalizeCoveredRuntimes runtimes) in
  let! _ := when_ (bool_decide (containers = []) && bool_decide (covered = [])) (Errorf "a batch needs at least one container or one covered runtime" []) in
  let! rows := lift (container_rows d (c_now c) containers) in
  Transaction (
    let! _ := (if bool_decide (rows = []) then ret tt else exec (upsert_containers rows)) in
    if bool_decide (covered = []) then ret tt else exec (drop_containers (dm_ID d) covered (dc_ContainerID <$> rows))).
Definition ListContainerStatus (c : Call) (accountID daemonID compose state : str) (limit : Z) (before : option Z) : M (list DaemonContainer) :=
  let! _ := daemonForAccount c accountID daemonID in
  exec (find_containers daemonID (filter_of compose) (filter_of state) before (Z.to_nat (list_limit limit))).

(** ** Retention *)

(** A failure is logged and passed over. *)
Definition attempt {A} (m : M A) : M (res A) := fun s => let '(r, s) := m s in (Ok r, s).
Definition prune_workspace (c : Call) (workspaceID : str) : M unit :=
  match workspaceQuota c workspaceID with
  | Err _ => ret tt
  | Ok quotas =>
      let retentionDays := retention_days quotas in
      if retentionDays <=? 0 then ret tt
      else
        let cutoff := days_before (c_now c) retentionDays in
        let! metrics := attempt (exec (prune_metrics workspaceID cutoff)) in
        match metrics with
        | Err _ => ret tt
        | Ok _ =>
            let! _ := attempt (exec (prune_logs workspaceID cutoff)) in
            let! _ := attempt (exec (prune_containers workspaceID cutoff)) in
            ret tt
        end
  end.
Fixpoint prune_all (c : Call) (workspaces : list str) : M unit :=
  match workspaces with
  | [] => ret tt
  | w :: workspaces => let! _ := prune_workspace c w in prune_all c workspaces
  end.
Definition PruneMetrics (c : Call) : M unit :=
  let! workspaceIDs := exec workspace_ids in
  prune_all c workspaceIDs.

(** ** Daemons that fall silent *)

Definition stale (after now : Z) (d : Daemon) : bool :=
  match dm_LastSeenAt d with Some last => last + after <=? now | None => false end.
Definition silence (after now : Z) (d : Daemon) (last : Z) : str * gmap str any :=
  let age := time_Sub now last in
  let text := seconds_String (round_second age) in
  ($"No metrics received for " ++ text ++ $"; last seen at " ++ RFC3339 last ++ $".",
   list_to_map [($"last_seen_at", AString (RFC3339Nano last)); ($"disconnected_at", AString (RFC3339Nano now));
                ($"threshold_seconds", AInt (after / second)); ($"age_seconds", AInt (age / second)); ($"age", AString text);
                ($"last_seen", AString (RFC3339 last))]).
(** A daemon newly silent: it is marked, and unless it was announced [recent]ly the
    notification is stored. *)
Definition mark_silent (uuid : str) (after now : Z) (store recent : bool) (daemon : Daemon) (last : Z) : M (option Notification) :=
  let! affected := exec (mark_disconnected (dm_ID daemon) now) in
  if recent || negb (affected =? 1) then ret None
  else
    let '(body, metadata) := silence after now daemon last in
    let! metadata := lift (encode metadata) in
    if negb store then ret None
    else
      let n := mkNotification uuid (dm_AccountID daemon) (dm_WorkspaceID daemon) (dm_ID daemon) kind_disconnected
                 ($"Daemon disconnected") [] body metadata None now in
      let! _ := exec (create_notification n) in
      ret (Some n).
(** The transaction of one daemon: what it stores to be published. *)
Definition evaluate_daemon (uuid : str) (after cooldown now : Z) (store : bool) (id : str) : M (option Notification) := fun s =>
  match first_daemon id s with
  | (inr ErrRecordNotFound, s) => (Ok None, s)
  | (inr (DBFailure e), s) => (Err e, s)
  | (inl daemon, s) =>
      match dm_LastSeenAt daemon, stale after now daemon with
      | Some last, true =>
          match dm_DisconnectedAt daemon with
          | Some _ => (Ok None, s)
          | None =>
              match last_notification (dm_ID daemon) kind_disconnected s with
              | (inr (DBFailure e), s) => (Err e, s)
              | (inr ErrRecordNotFound, s) => mark_silent uuid after now store false daemon last s
              | (inl previous, s) => mark_silent uuid after now store (now <? nt_CreatedAt previous + cooldown) daemon last s
              end
          end
      | _, _ =>
          match dm_DisconnectedAt daemon with
          | Some _ => (let! _ := exec (update_disconnected (dm_ID daemon) None) in ret None) s
          | None => (Ok None, s)
          end
      end
  end.
(** What follows the transaction: the texts in the account's language, and the event. *)
Definition announce (src : Sources) (k : nat) (candidate : Daemon) (publish : bool) (n : Notification) : N unit :=
  let '(title, body) := localizedAlarm src (nt_AccountID n) (nt_Kind n) (nt_Title n) (nt_Body n) (nt_Metadata n) in
  let! n := (if bool_decide (title = nt_Title n) && bool_decide (body = nt_Body n) then ret n
             else let! _ := on_db (exec (update_texts (nt_ID n) title body)) in ret (set_texts title body n)) in
  if publish then publishNotification src (n_uuid src k) candidate n else ret tt.
(** One daemon of the list. *)
Definition evaluate_candidate (src : Sources) (k : nat) (after cooldown now : Z) (candidate : Daemon) : N unit :=
  let! preference := on_db (notificationPreference (dm_AccountID candidate) (dm_WorkspaceID candidate) (dm_ID candidate) kind_disconnected) in
  let store := match preference with NotificationPreferenceReject => false | _ => true end in
  let publish := match preference with NotificationPreferenceNormal => true | _ => false end in
  let! notification := on_db (Transaction (evaluate_daemon (n_uuid src (2 * k)) after cooldown now store (dm_ID candidate))) in
  match notification with
  | None => ret tt
  | Some n => announce src (2 * k + 1) candidate publish n
  end.
(** Every daemon is taken, the first error is reported. *)
Fixpoint evaluate_all (src : Sources) (k : nat) (after cooldown now : Z) (daemons : list Daemon) : N unit := fun s =>
  match daemons with
  | [] => (Ok tt, s)
  | candidate :: daemons =>
      let '(r, s) := evaluate_candidate src k after cooldown now candidate s in
      let '(rest, s) := evaluate_all src (S k) after cooldown now daemons s in
      (match r with Err e => Err e | Ok _ => rest end, s)
  end.
Definition EvaluateDisconnectedDaemonsWithCooldown (src : Sources) (disconnectedAfter cooldown : Z) (now : option Z) : N unit :=
  let after := if disconnectedAfter <=? 0 then DefaultDaemonDisconnectAfter else disconnectedAfter in
  let cooldown := if cooldown <=? 0 then DefaultDaemonDisconnectNotificationCooldown else cooldown in
  let now := default (c_now (n_call src)) now in
  let! daemons := on_db (exec find_enabled) in
  evaluate_all src 0 after cooldown now daemons.
Definition EvaluateDisconnectedDaemons (src : Sources) (disconnectedAfter : Z) (now : option Z) : N unit :=
  EvaluateDisconnectedDaemonsWithCooldown src disconnectedAfter DefaultDaemonDisconnectNotificationCooldown now.
End telemetry.
