(* ===== verification/CloudTelemetryFacts.v ===== *)
(** * CloudTelemetryFacts: reports, silence and retention

    The theorems of [CloudTelemetry]: which daemons are found silent and announced, what
    a metric, a batch of logs and a snapshot of containers leave in the tables, what
    retention removes, and who reads it all. *)

From Stdlib Require Import QArith.
From S2P Require Import Prelude GoStr Config Alarms CloudDB CloudFeedDB Localize Cloud CloudFacts CloudNotify CloudNotifyFacts CloudTelemetry.
Open Scope Z_scope.

Section telemetry.
Context `{D : Database} `{L : !DatabaseLaws D} `{F : !FeedDatabase D} `{FL : !FeedLaws D F} `{CR : Crypto, UN : Unicode, FT : FloatText, JS : Json, TT : TimeText}.
Implicit Types (s : nstate) (x : db) (t : tables).

#[local] Hint Resolve reads_authenticate reads_daemonForAccount reads_preference : go.

(** ** Silence *)

(** A notification of this daemon's silence less than the cooldown ago. *)
Definition recently (cooldown now : Z) t (id : str) : bool :=
  existsb (fun kv : str * Notification => of_kind id kind_disconnected kv.2 && (now <? nt_CreatedAt kv.2 + cooldown)) (map_to_list (f_notifications (t_feed t))).
(** The row of a daemon after it was looked at. *)
Definition judged (after now : Z) (d : Daemon) : Daemon :=
  set_disconnected (if stale after now d then Some (default now (dm_DisconnectedAt d)) else None) d.
Definition newly_silent (after now : Z) (d : Daemon) : bool := stale after now d && negb (is_down d).
Definition noted (v : option Notification) t : tables := match v with Some n => with_notifications <[nt_ID n := n]> t | None => t end.
(** The notification of a silence. *)
Definition silence_notice (now : Z) (d : Daemon) (n : Notification) : Prop :=
  nt_AccountID n = dm_AccountID d /\ nt_WorkspaceID n = dm_WorkspaceID d /\ nt_DaemonID n = dm_ID d /\ nt_Kind n = kind_disconnected /\
  nt_ReadAt n = None /\ nt_CreatedAt n = now.

Lemma recently_spec cooldown now t id : (forall k n, f_notifications (t_feed t) !! k = Some n -> nt_ID n = k) -> recently cooldown now t id = true <->
  exists n, stored_in nt_ID (f_notifications (t_feed t)) (of_kind id kind_disconnected) n /\ now < nt_CreatedAt n + cooldown.
Proof.
  intros Hk. unfold recently, stored_in. rewrite existsb_exists. split.
  - intros ([k n] & Hin%list_elem_of_In%elem_of_map_to_list & Hb). cbn in Hb. apply andb_true_iff in Hb as [Ho Hn%Z.ltb_lt]. exists n. by rewrite (Hk _ _ Hin).
  - intros (n & [Hn Ho] & Hlt). exists (nt_ID n, n). split; [by apply list_elem_of_In, elem_of_map_to_list|]. cbn [snd]. rewrite Ho. by apply Z.ltb_lt.
Qed.
Lemma last_notification_recent id x p x' cooldown now : last_notification id kind_disconnected x = (p, x') ->
  rows x' = rows x /\ match p with
  | inl p => (now <? nt_CreatedAt p + cooldown) = recently cooldown now (rows x) id
  | inr ErrRecordNotFound => recently cooldown now (rows x) id = false
  | inr (DBFailure _) => True
  end.
Proof.
  intros Hp. apply (last_notification_law id kind_disconnected) in Hp as [Hr Hp]. split; [done|]. pose proof (keyed_notifications x) as Hk. destruct p as [p|[|e]]; [| |done].
  - apply eq_true_iff_eq. rewrite recently_spec, Z.ltb_lt by done. destruct Hp as [W1 _ _ W4 _]. split; [intros Hlt; exists p; split; [apply W1; left|done]|].
    intros (n & Hn & Hlt). destruct (decide (nt_CreatedAt n <= nt_CreatedAt p)) as [Hle|Hgt]; [lia|].
    destruct (W4 n Hn) as [_ [Hle _]%Forall_cons]; [intros ->%list_elem_of_singleton; lia|]. unfold newer in Hle. lia.
  - apply not_true_is_false. rewrite recently_spec by done. intros (n & Hn & _). by eapply Hp.
Qed.
Lemma set_same t id d : t_daemons t !! id = Some d -> with_daemons <[id := d]> t = t.
Proof. intros Hd. unfold with_daemons. rewrite insert_id by done. by destruct t. Qed.
Lemma set_disconnected_same d : set_disconnected (dm_DisconnectedAt d) d = d.
Proof. by destruct d. Qed.
Lemma mark_disconnected_inv id now x r x' d : t_daemons (rows x) !! id = Some d -> is_down d = false -> exec (mark_disconnected id now) x = (r, x') ->
  match r with Ok n => n = 1 /\ rows x' = with_daemons <[id := set_disconnected (Some now) d]> (rows x) | Err _ => rows x' = rows x end.
Proof.
  intros Hd Hn Hx. apply (sql_change _ _ _ _ _ _ (mark_disconnected_law id now)) in Hx. destruct r as [n|e]; [|done]. rewrite Hd, Hn in Hx. destruct Hx as [-> ->].
  split; [done|]. apply update_disconnected_one; eauto using keyed_daemons.
Qed.
Lemma mark_silent_ok uuid after now store recent d last x v x' : t_daemons (rows x) !! dm_ID d = Some d -> is_down d = false ->
  mark_silent uuid after now store recent d last x = (Ok v, x') ->
  rows x' = noted v (with_daemons <[dm_ID d := set_disconnected (Some now) d]> (rows x)) /\ (is_Some v <-> store = true /\ recent = false) /\
  forall n, v = Some n -> silence_notice now d n /\ f_notifications (t_feed (rows x)) !! nt_ID n = None.
Proof.
  intros Hd Hn Hx. unfold mark_silent in Hx. apply bind_ok in Hx as (n & x1 & H1 & Hx). eapply mark_disconnected_inv in H1 as [-> H1]; [|done|done].
  cbn [negb Z.eqb] in Hx. rewrite orb_false_r in Hx. destruct recent; [injection Hx as <- <-; split_and!; [done|by split; [intros [? [=]]|intros [_ [=]]]|done]|].
  destruct (silence after now d last) as [body metadata]. apply bind_ok in Hx as (m & x2 & H2 & Hx). injection H2 as _ <-.
  destruct store; cbn [negb] in Hx; [|injection Hx as <- <-; split_and!; [done|by split; [intros [? [=]]|intros [[=] _]]|done]].
  apply bind_ok in Hx as (u & x3 & H3 & Hx). injection Hx as <- <-. set (n := mkNotification _ _ _ _ _ _ _ _ _ _ _) in H3 |- *.
  apply (sql_change _ _ _ _ _ _ (create_notification_law n)) in H3 as [Hf H3]. rewrite H1 in *. split_and!; [done|by split|]. intros ? [= <-]. done.
Qed.
Lemma evaluate_daemon_ok uuid after cooldown now store id x v x' : evaluate_daemon uuid after cooldown now store id x = (Ok v, x') ->
  match t_daemons (rows x) !! id with
  | None => v = None /\ rows x' = rows x
  | Some d => rows x' = noted v (with_daemons <[id := judged after now d]> (rows x)) /\
      (is_Some v <-> newly_silent after now d = true /\ store = true /\ recently cooldown now (rows x) id = false) /\
      forall n, v = Some n -> silence_notice now d n /\ f_notifications (t_feed (rows x)) !! nt_ID n = None
  end.
Proof.
  unfold evaluate_daemon. destruct (first_daemon id x) as [r1 x1] eqn:E1. apply (first_daemon_law id) in E1 as [Hr1 E1].
  destruct r1 as [d|[|e]]; [|intros [= <- <-]; by rewrite E1|done]. rewrite E1. pose proof (keyed_daemons _ _ _ E1) as Hid. rewrite Hid.
  assert (Hquiet : newly_silent after now d = false -> rows x' = with_daemons <[id := judged after now d]> (rows x) -> v = None ->
    rows x' = noted v (with_daemons <[id := judged after now d]> (rows x)) /\
    (is_Some v <-> newly_silent after now d = true /\ store = true /\ recently cooldown now (rows x) id = false) /\
    forall n, v = Some n -> silence_notice now d n /\ f_notifications (t_feed (rows x)) !! nt_ID n = None).
  { intros Hs Hx ->. split_and!; [done| |done]. rewrite Hs. split; [by intros [? [=]]|by intros [[=] _]]. }
  unfold newly_silent, judged, is_down in *. destruct (stale after now d) eqn:Es; [destruct (dm_LastSeenAt d) as [last|] eqn:El; [|by unfold stale in Es; rewrite El in Es]|].
  - destruct (dm_DisconnectedAt d) as [at_|] eqn:Ed.
    + intros [= <- <-]. apply Hquiet; try done. cbn. by rewrite <-Ed, set_disconnected_same, set_same.
    + assert (Hmark : forall recent x2, rows x2 = rows x -> recent = recently cooldown now (rows x) id -> mark_silent uuid after now store recent d last x2 = (Ok v, x') ->
        rows x' = noted v (with_daemons <[id := set_disconnected (Some now) d]> (rows x)) /\ (is_Some v <-> true = true /\ store = true /\ recently cooldown now (rows x) id = false) /\
        forall n, v = Some n -> silence_notice now d n /\ f_notifications (t_feed (rows x)) !! nt_ID n = None).
      { intros recent x2 Hr Hrec Hx. apply mark_silent_ok in Hx; [|by rewrite Hr, Hid|by unfold is_down; rewrite Ed]. rewrite Hr, Hid, Hrec in Hx. tauto. }
      destruct (last_notification id kind_disconnected x1) as [p x2] eqn:E2. apply (last_notification_recent _ _ _ _ cooldown now) in E2 as [Hr2 E2]. rewrite Hr1 in E2, Hr2.
      destruct p as [p|[|e]]; [|by apply Hmark|done]. by apply Hmark.
  - assert (Hel : match dm_DisconnectedAt d with Some _ => (let! _ := exec (update_disconnected id None) in ret None) x1 | None => (Ok None, x1) end = (Ok v, x') ->
      rows x' = with_daemons <[id := set_disconnected None d]> (rows x) /\ v = None).
    { destruct (dm_DisconnectedAt d) as [at_|] eqn:Ed.
      - intros Hx. apply bind_ok in Hx as (u & x2 & Hx & [= <- <-]). apply (sql_change _ _ _ _ _ _ (update_disconnected_law id None)) in Hx.
        rewrite Hx, Hr1. split; [|done]. apply update_disconnected_one; eauto using keyed_daemons.
      - intros [= <- <-]. split; [|done]. by rewrite <-Ed, set_disconnected_same, set_same. }
    intros Hx. apply Hquiet; [done|by destruct (dm_LastSeenAt d); apply Hel..].
Qed.

(** ** One daemon after the other *)

Definition wanted (level : NotificationPreferenceLevel) : bool := match level with NotificationPreferenceReject => false | _ => true end.
Definition silence_level t (d : Daemon) : NotificationPreferenceLevel := level_for t d (dm_AccountID d) kind_disconnected.
(** Whether the silence of a daemon is announced now. *)
Definition alarmed (after cooldown now : Z) t (d : Daemon) : bool :=
  newly_silent after now d && wanted (silence_level t d) && negb (recently cooldown now t (dm_ID d)).
Lemma noted_texts t n title body : (forall k m, f_notifications (t_feed (noted (Some n) t)) !! k = Some m -> nt_ID m = k) ->
  with_notifications (update_where (fun m => bool_decide (nt_ID m = nt_ID n)) (set_texts title body)) (noted (Some n) t) = noted (Some (set_texts title body n)) t.
Proof.
  intros Hk. cbn [noted] in *. unfold with_notifications, with_feed in *. cbn in *. do 2 f_equal.
  etransitivity; [apply (update_where_key nt_ID (set_texts title body) _ (nt_ID n) n Hk), lookup_insert_eq|apply insert_insert_eq].
Qed.
Lemma publish_inv src id d n s r s' : publishNotification src id d n s = (r, s') ->
  nrows s' = nrows s /\ ns_pollHit s' = ns_pollHit s /\ ns_events s' = ns_events s ++ publications src id d NotificationPreferenceNormal n.
Proof.
  unfold publishNotification, publications. destruct (n_publisher src) as [Publish|]; [|intros [= <- <-]; by rewrite app_nil_r].
  by destruct (Publish _); intros [= <- <-].
Qed.
Lemma announce_ok src k c level n t s s' : wanted level = true -> nrows s = noted (Some n) t ->
  announce src k c (match level with NotificationPreferenceNormal => true | _ => false end) n s = (Ok tt, s') ->
  exists n', nt_ID n' = nt_ID n /\ (forall now d, silence_notice now d n -> silence_notice now d n') /\ nrows s' = noted (Some n') t /\
    ns_pollHit s' = ns_pollHit s /\ ns_events s' = ns_events s ++ publications src (n_uuid src k) c level n'.
Proof.
  intros Hw Hr Ha. unfold announce in Ha. destruct (localizedAlarm _ _ _ _ _ _) as [title body]. apply bind_ok in Ha as (n' & s1 & H1 & Ha).
  assert (H1' : nt_ID n' = nt_ID n /\ (forall now d, silence_notice now d n -> silence_notice now d n') /\ nrows s1 = noted (Some n') t /\ ns_pollHit s1 = ns_pollHit s /\ ns_events s1 = ns_events s).
  { destruct (bool_decide _ && _); [by injection H1 as <- <-|]. apply bind_ok in H1 as (u & s2 & H1 & [= <- <-]). apply on_db_inv in H1 as (x & Hx & ->).
    apply (sql_change _ _ _ _ _ _ (update_texts_law _ _ _)) in Hx. split_and!; try done. cbn. unfold nrows in *. cbn. rewrite Hx, Hr. apply noted_texts.
    rewrite <-Hr. apply keyed_notifications. }
  destruct H1' as (Hid & Hn & Hr1 & Hh & He). exists n'. split_and!; [done..| | |].
  - destruct level; [apply publish_inv in Ha as (-> & _ & _)|injection Ha as <-|]; done.
  - destruct level; [apply publish_inv in Ha as (_ & -> & _)|injection Ha as <-|]; done.
  - destruct level; [apply publish_inv in Ha as (_ & _ & ->); by rewrite He|injection Ha as <-; by rewrite app_nil_r|done].
Qed.
Lemma evaluate_candidate_ok src k after cooldown now c s s' : t_daemons (nrows s) !! dm_ID c = Some c ->
  evaluate_candidate src k after cooldown now c s = (Ok tt, s') ->
  exists v, nrows s' = noted v (with_daemons <[dm_ID c := judged after now c]> (nrows s)) /\ ns_pollHit s' = ns_pollHit s /\
    (is_Some v <-> alarmed after cooldown now (nrows s) c = true) /\
    (forall n, v = Some n -> silence_notice now c n /\ f_notifications (t_feed (nrows s)) !! nt_ID n = None) /\
    ns_events s' = ns_events s ++ match v with Some n => publications src (n_uuid src (2 * k + 1)) c (silence_level (nrows s) c) n | None => [] end.
Proof.
  intros Hc Hs. unfold evaluate_candidate in Hs. apply bind_ok in Hs as (level & s1 & H1 & Hs). apply on_db_inv in H1 as (x & Hx & ->).
  apply notificationPreference_inv in Hx as [Hx Hl]. change (level = silence_level (nrows s) c) in Hl.
  apply bind_ok in Hs as (v & s2 & H2 & Hs). apply on_db_inv in H2 as (x2 & Hx2 & ->). apply Transaction_law in Hx2 as (y & y' & Hy & He & Hx2). cbn in Hy.
  apply evaluate_daemon_ok in He. rewrite Hy, Hx in He. change (rows (ns_db s)) with (nrows s) in He. rewrite Hc in He. destruct He as (Hr & Hv & Hn).
  assert (Hv' : is_Some v <-> alarmed after cooldown now (nrows s) c = true).
  { rewrite Hv. unfold alarmed. rewrite !andb_true_iff, negb_true_iff, <-Hl. destruct level; cbn; tauto. }
  destruct v as [n|].
  - destruct (Hn n eq_refl) as [Hnotice Hfresh]. assert (Hw : wanted level = true) by (pose proof (proj1 Hv' ltac:(done)) as Ha; unfold alarmed in Ha; rewrite !andb_true_iff, <-Hl in Ha; tauto).
    eapply announce_ok in Hs as (n' & Hid & Hnn & Hr' & Hh & He); [|done|]; [|unfold nrows; cbn; by rewrite Hx2, Hr].
    exists (Some n'). split_and!; [done|done| |intros ? [= <-]; rewrite Hid; eauto|by rewrite He, Hl]. rewrite <-Hv'. by split.
  - injection Hs as <-. exists None. split_and!; [unfold nrows; cbn; by rewrite Hx2, Hr|done|done|done|by rewrite app_nil_r].
Qed.

(** What a round of the survey does, with the daemons announced and their notifications. *)
Record surveyed (src : Sources) (after cooldown now : Z) (l : list Daemon) s s' (new : list (Daemon * Notification)) : Prop := {
  sv_daemons : forall id, t_daemons (nrows s') !! id =
    if bool_decide (id ∈ dm_ID <$> l) then judged after now <$> t_daemons (nrows s) !! id else t_daemons (nrows s) !! id;
  sv_new : new.*1 = filter (fun d => alarmed after cooldown now (nrows s) d = true) l;
  sv_notices : forall d n, (d, n) ∈ new -> silence_notice now d n /\ f_notifications (t_feed (nrows s)) !! nt_ID n = None;
  sv_stored : f_notifications (t_feed (nrows s')) = list_to_map ((fun n => (nt_ID n, n)) <$> new.*2) ∪ f_notifications (t_feed (nrows s));
  sv_ids : NoDup (nt_ID <$> new.*2);
  sv_rest : exists g h, nrows s' = with_notifications g (with_daemons h (nrows s));
  sv_events : exists ids, List.length ids = List.length new /\
    ns_events s' = ns_events s ++ concat (zip_with (fun id dn => publications src id dn.1 (silence_level (nrows s) dn.1) dn.2) ids new);
  sv_hits : ns_pollHit s' = ns_pollHit s;
}.
Lemma recently_noted cooldown now s s1 v g id : nrows s1 = noted v (with_daemons g (nrows s)) ->
  (forall n, v = Some n -> nt_DaemonID n <> id /\ f_notifications (t_feed (nrows s)) !! nt_ID n = None) ->
  recently cooldown now (nrows s1) id = recently cooldown now (nrows s) id.
Proof.
  intros Hr Hv. apply eq_true_iff_eq. rewrite !recently_spec by apply keyed_notifications. rewrite Hr. destruct v as [n|]; [|done].
  destruct (Hv n eq_refl) as [Hd Hn]. unfold stored_in. cbn [noted with_notifications with_feed t_feed f_notifications with_daemons].
  split; intros (m & [Hm Hk] & Hlt); exists m; (split; [split; [|exact Hk]|exact Hlt]).
  - apply lookup_insert_Some in Hm as [[_ <-]|[_ Hm]]; [|exact Hm]. unfold of_kind in Hk. rewrite bool_decide_false in Hk by done. done.
  - rewrite lookup_insert_ne; [exact Hm|]. intros He. rewrite <-He in Hm. congruence.
Qed.
Lemma alarmed_noted after cooldown now s s1 v g d : nrows s1 = noted v (with_daemons g (nrows s)) ->
  (forall n, v = Some n -> nt_DaemonID n <> dm_ID d /\ f_notifications (t_feed (nrows s)) !! nt_ID n = None) ->
  silence_level (nrows s1) d = silence_level (nrows s) d /\ alarmed after cooldown now (nrows s1) d = alarmed after cooldown now (nrows s) d.
Proof.
  intros Hr Hv. assert (Hl : silence_level (nrows s1) d = silence_level (nrows s) d) by (rewrite Hr; by destruct v). split; [done|].
  unfold alarmed. by rewrite Hl, (recently_noted _ _ _ _ _ _ _ Hr Hv).
Qed.
Lemma publications_ext src t t1 ids (new : list (Daemon * Notification)) : (forall dn, dn ∈ new -> silence_level t1 dn.1 = silence_level t dn.1) ->
  zip_with (fun id dn => publications src id dn.1 (silence_level t1 dn.1) dn.2) ids new = zip_with (fun id dn => publications src id dn.1 (silence_level t dn.1) dn.2) ids new.
Proof.
  revert ids. induction new as [|dn new IH]; intros [|id ids] He; cbn; [done..|]. rewrite (He dn) by left. f_equal. apply IH. intros x Hx. apply He. by right.
Qed.
Lemma filter_ext_in {A} (P Q : A -> Prop) `{forall y, Decision (P y), forall y, Decision (Q y)} (l : list A) : (forall y, y ∈ l -> P y <-> Q y) -> filter P l = filter Q l.
Proof.
  induction l as [|y l IH]; intros Hl; [done|]. rewrite !filter_cons. rewrite IH by (intros z Hz; apply Hl; by right).
  destruct (Hl y) as [H1 H2]; [left|]. repeat case_decide; naive_solver.
Qed.
Lemma surveyed_cons src after cooldown now c l s s1 s' v id new :
  nrows s1 = noted v (with_daemons <[dm_ID c := judged after now c]> (nrows s)) -> ns_pollHit s1 = ns_pollHit s ->
  (is_Some v <-> alarmed after cooldown now (nrows s) c = true) ->
  (forall n, v = Some n -> silence_notice now c n /\ f_notifications (t_feed (nrows s)) !! nt_ID n = None) ->
  ns_events s1 = ns_events s ++ match v with Some n => publications src id c (silence_level (nrows s) c) n | None => [] end ->
  (forall d, d ∈ l -> silence_level (nrows s1) d = silence_level (nrows s) d /\ alarmed after cooldown now (nrows s1) d = alarmed after cooldown now (nrows s) d) ->
  t_daemons (nrows s) !! dm_ID c = Some c -> dm_ID c ∉ dm_ID <$> l ->
  surveyed src after cooldown now l s1 s' new -> surveyed src after cooldown now (c :: l) s s' (match v with Some n => (c, n) :: new | None => new end).
Proof.
  intros Hr Hh Hv Hn He Hother Hcs Hc [S1 S2 S3 S4 S5 S6 S7 S8].
  assert (Hm : f_notifications (t_feed (nrows s1)) = match v with Some n => <[nt_ID n := n]> (f_notifications (t_feed (nrows s))) | None => f_notifications (t_feed (nrows s)) end)
    by (rewrite Hr; by destruct v).
  assert (Hlevel : forall dn, dn ∈ new -> silence_level (nrows s1) dn.1 = silence_level (nrows s) dn.1).
  { intros dn Hdn. apply Hother. apply (list_elem_of_fmap_2 fst) in Hdn. rewrite S2 in Hdn. by apply list_elem_of_filter in Hdn as [_ Hdn]. }
  assert (Hfresh : forall n, v = Some n -> nt_ID n ∉ nt_ID <$> new.*2).
  { intros n -> (m & Hid & Hin)%list_elem_of_fmap. apply list_elem_of_fmap in Hin as ([d m'] & -> & Hin). apply S3 in Hin as [_ Hf]. cbn in Hid. by rewrite Hm, <-Hid, lookup_insert_eq in Hf. }
  split.
  - intros i. rewrite S1, Hr. replace (t_daemons (noted v _)) with (<[dm_ID c := judged after now c]> (t_daemons (nrows s))) by by destruct v.
    destruct (decide (i = dm_ID c)) as [->|Hi].
    + rewrite bool_decide_false by done. rewrite bool_decide_true by (rewrite fmap_cons; left). by rewrite lookup_insert_eq, Hcs.
    + rewrite lookup_insert_ne by done. replace (bool_decide (i ∈ dm_ID <$> c :: l)) with (bool_decide (i ∈ dm_ID <$> l)); [done|].
      apply bool_decide_ext. rewrite fmap_cons, elem_of_cons. tauto.
  - rewrite filter_cons. assert (Hf : filter (fun d => alarmed after cooldown now (nrows s1) d = true) l = filter (fun d => alarmed after cooldown now (nrows s) d = true) l).
    { apply filter_ext_in. intros d Hd. by rewrite (proj2 (Hother d Hd)). }
    destruct v as [n|].
    + rewrite decide_True by (by apply Hv). cbn. by rewrite S2, Hf.
    + rewrite decide_False; [by rewrite S2, Hf|]. intros Ha%Hv. by destruct Ha.
  - intros d n Hdn. assert (Hnew : (d, n) ∈ new -> silence_notice now d n /\ f_notifications (t_feed (nrows s)) !! nt_ID n = None).
    { intros Hi. destruct (S3 d n Hi) as [Hs Hf]. split; [done|]. rewrite Hm in Hf. destruct v; [by apply lookup_insert_None in Hf as [Hf _]|done]. }
    destruct v as [m|]; [|by apply Hnew]. apply elem_of_cons in Hdn as [[= -> ->]|Hdn]; [by apply Hn|by apply Hnew].
  - rewrite S4, Hm. destruct v as [n|]; [|done]. cbn. rewrite <-insert_union_l, <-insert_union_r; [done|]. apply not_elem_of_list_to_map_1. rewrite <-(list_fmap_compose (fun n => (nt_ID n, n)) fst). by apply Hfresh.
  - destruct v as [n|]; [|done]. cbn. constructor; [by apply Hfresh|done].
  - destruct S6 as (g & h & S6). rewrite S6, Hr. destruct v as [n|]; [exists (fun m => g (<[nt_ID n := n]> m))|exists g]; by exists (fun m => h (<[dm_ID c := judged after now c]> m)).
  - destruct S7 as (ids & Hl & S7). rewrite (publications_ext src (nrows s)) in S7 by done. rewrite S7, He. destruct v as [n|].
    + exists (id :: ids). split; [cbn; by rewrite Hl|]. cbn. by rewrite <-(assoc_L (++)).
    + exists ids. by rewrite app_nil_r.
  - congruence.
Qed.
Lemma evaluate_all_ok src after cooldown now l : forall k s s', NoDup (dm_ID <$> l) -> (forall d, d ∈ l -> t_daemons (nrows s) !! dm_ID d = Some d) ->
  evaluate_all src k after cooldown now l s = (Ok tt, s') -> exists new, surveyed src after cooldown now l s s' new.
Proof.
  induction l as [|c l IH]; intros k s s' Hnd Hl Hs; cbn [evaluate_all] in Hs.
  - injection Hs as <-. exists []. split; cbn; [done|done|by intros d n ?%elem_of_nil|by rewrite (left_id_L ∅ (∪))|constructor| |exists []; by rewrite app_nil_r|done].
    exists (fun m => m), (fun m => m). by destruct (nrows s) as [? ? ? ? []].
  - destruct (evaluate_candidate src k after cooldown now c s) as [r1 s1] eqn:E1. destruct (evaluate_all src (S k) after cooldown now l s1) as [r2 s2] eqn:E2.
    destruct r1 as [[]|e]; [|done]. injection Hs as -> ->. rewrite fmap_cons in Hnd. apply NoDup_cons in Hnd as [Hc Hnd].
    apply evaluate_candidate_ok in E1 as (v & Hr & Hh & Hv & Hn & He); [|apply Hl; left].
    assert (Hother : forall d, d ∈ l -> silence_level (nrows s1) d = silence_level (nrows s) d /\ alarmed after cooldown now (nrows s1) d = alarmed after cooldown now (nrows s) d).
    { intros d Hd. eapply alarmed_noted; [exact Hr|]. intros n Hvn. destruct (Hn n Hvn) as [(_ & _ & -> & _) Hf]. split; [|exact Hf].
      intros Hid. apply Hc. rewrite Hid. by apply list_elem_of_fmap_2. }
    assert (Hdm : forall id, t_daemons (nrows s1) !! id = if bool_decide (id = dm_ID c) then Some (judged after now c) else t_daemons (nrows s) !! id).
    { intros id. replace (t_daemons (nrows s1)) with (<[dm_ID c := judged after now c]> (t_daemons (nrows s))) by (rewrite Hr; by destruct v).
      case_bool_decide as Hid; [subst id; apply lookup_insert_eq|by rewrite lookup_insert_ne]. }
    destruct (IH (S k) s1 s') as [new [S1 S2 S3 S4 S5 S6 S7 S8]]; [done| |exact E2|].
    { intros d Hd. rewrite Hdm, bool_decide_false; [apply Hl; by right|]. intros Hid. apply Hc. rewrite <-Hid. by apply list_elem_of_fmap_2. }
    eexists. eapply surveyed_cons; [exact Hr|exact Hh|exact Hv|exact Hn|exact He|exact Hother|apply Hl; left|exact Hc|by split].
Qed.

(** C29. A survey that meets no failure leaves every enabled daemon marked disconnected
    exactly when nothing was heard of it for the threshold, the others as they were. It
    announces exactly those newly silent whose account does not reject it and that were
    not announced less than the cooldown ago: each with one row, and with one event
    unless the account wants silence; so two announcements of a daemon are a cooldown
    apart. A silence that begins within the cooldown of the last is marked without a
    word, and as long as it lasts no later survey announces it. *)
Theorem disconnect_exact src disconnectedAfter notificationCooldown at_ s s' :
  EvaluateDisconnectedDaemonsWithCooldown src disconnectedAfter notificationCooldown at_ s = (Ok tt, s') ->
  let after := if disconnectedAfter <=? 0 then DefaultDaemonDisconnectAfter else disconnectedAfter in
  let cooldown := if notificationCooldown <=? 0 then DefaultDaemonDisconnectNotificationCooldown else notificationCooldown in
  let now := default (c_now (n_call src)) at_ in
  exists l new, NoDup (dm_ID <$> l) /\ (forall d, d ∈ l <-> t_daemons (nrows s) !! dm_ID d = Some d /\ dm_Enabled d = true) /\
    surveyed src after cooldown now l s s' new /\
    (forall d n o, (d, n) ∈ new -> f_notifications (t_feed (nrows s)) !! nt_ID o = Some o -> nt_DaemonID o = dm_ID d -> nt_Kind o = kind_disconnected ->
       nt_CreatedAt o + cooldown <= nt_CreatedAt n) /\
    (forall d, d ∈ l -> newly_silent after now d = true -> recently cooldown now (nrows s) (dm_ID d) = true -> is_down (judged after now d) = true /\ d ∉ new.*1) /\
    (forall d, is_down d = true -> d ∉ new.*1).
Proof.
  intros Hs after cooldown now. unfold EvaluateDisconnectedDaemonsWithCooldown in Hs. apply bind_ok in Hs as (l & s1 & H1 & Hs).
  apply on_db_inv in H1 as (x & Hx & ->). apply (sql_query _ _ _ _ _ _ _ find_enabled_law) in Hx as [Hr [Hnd Hl]].
  change (rows (ns_db s)) with (nrows s) in *. set (s1 := mkNState x _ _) in Hs. assert (Hr1 : nrows s1 = nrows s) by exact Hr.
  apply evaluate_all_ok in Hs as [new Hs]; [|done|by intros d [Hd _]%Hl; rewrite Hr1].
  assert (Hs' : surveyed src after cooldown now l s s' new) by (destruct Hs; split; rewrite <-?Hr1; done). clear Hs.
  assert (Hnew : forall d, d ∈ new.*1 -> alarmed after cooldown now (nrows s) d = true) by (intros d Hd; rewrite (sv_new _ _ _ _ _ _ _ _ Hs') in Hd; by apply list_elem_of_filter in Hd as [Hd _]).
  exists l, new. split_and!; [done|done|done| | |].
  - intros d n o Hdn Ho Hd Hk. pose proof (Hnew d (list_elem_of_fmap_2 fst _ _ Hdn)) as Ha. unfold alarmed in Ha. rewrite !andb_true_iff, negb_true_iff in Ha. destruct Ha as [_ Ha].
    destruct (sv_notices _ _ _ _ _ _ _ _ Hs' d n Hdn) as [(_ & _ & _ & _ & _ & ->) _]. destruct (Z.le_gt_cases (nt_CreatedAt o + cooldown) now) as [Hle|Hgt]; [done|].
    assert (Hrec : recently cooldown now (nrows s) (dm_ID d) = true); [|congruence]. apply recently_spec; [apply keyed_notifications|]. exists o. split; [|lia].
    split; [done|]. unfold of_kind. by rewrite !bool_decide_true.
  - intros d Hd Hn Hrec. split; [|intros Hin%Hnew; unfold alarmed in Hin; by rewrite Hrec, andb_false_r in Hin]. unfold newly_silent in Hn. apply andb_true_iff in Hn as [Hst _].
    unfold judged. by rewrite Hst.
  - intros d Hd Hin%Hnew. unfold alarmed, newly_silent in Hin. by rewrite Hd, andb_false_r in Hin.
Qed.

(** ** Snapshots of containers *)

Definition merged (r : DaemonContainer) (old : option DaemonContainer) : DaemonContainer :=
  match old with Some old => resighted r old | None => r end.
(** A row as the ingest makes it. *)
Definition row_of (d : Daemon) (now : Z) (r : DaemonContainer) : Prop :=
  dc_DaemonID r = dm_ID d /\ dc_WorkspaceID r = dm_WorkspaceID d /\ dc_FirstSeenAt r = now /\ dc_LastSeenAt r = now.
Lemma container_rows_ok d now l : forall rows, container_rows d now l = Ok rows -> Forall (row_of d now) rows /\ dc_ContainerID <$> rows = (fun c => TrimSpace (ci_ContainerID c)) <$> l.
Proof.
  induction l as [|c l IH]; intros rows Hr; cbn in Hr; [by injection Hr as <-|]. unfold container_row in Hr.
  destruct (guard _ _) as [[]|]; [|done]. cbn in Hr. destruct (container_rows d now l) as [rest|]; [|done]. cbn in Hr. injection Hr as <-.
  destruct (IH rest eq_refl) as [H1 H2]. split; [by constructor|]. cbn. by rewrite H2.
Qed.
Lemma upsert_lookup m r key : upsert m r !! key = if bool_decide (key = container_key r) then Some (merged r (m !! key)) else m !! key.
Proof. unfold upsert. case_bool_decide as Hk; [subst key; rewrite lookup_insert_eq|by rewrite lookup_insert_ne]. by destruct (m !! container_key r). Qed.
Lemma merged_twice d now r r' old : row_of d now r -> row_of d now r' -> container_key r' = container_key r -> merged r' (Some (merged r old)) = merged r' old.
Proof.
  intros (H1 & H2 & H3 & _) (G1 & G2 & G3 & _) Hk. injection Hk as Hk1 Hk2. destruct old as [old|]; [done|]. destruct r, r'. cbn in *. unfold resighted. cbn. by subst.
Qed.
Lemma upserts_lookup d now rows : forall m key, Forall (row_of d now) rows ->
  (key ∉ container_key <$> rows -> fold_left upsert rows m !! key = m !! key) /\
  (key ∈ container_key <$> rows -> exists r, r ∈ rows /\ container_key r = key /\ fold_left upsert rows m !! key = Some (merged r (m !! key))).
Proof.
  induction rows as [|r rows IH]; intros m key Hm; cbn [fold_left fmap list_fmap]; [by split; [|intros ?%elem_of_nil]|].
  apply Forall_cons in Hm as [Hr Hm]. destruct (IH (upsert m r) key Hm) as [IH1 IH2]. rewrite upsert_lookup in IH1, IH2. split.
  - intros [Hk Hn]%not_elem_of_cons. rewrite IH1 by done. by rewrite bool_decide_false.
  - intros Hk. destruct (decide (key ∈ container_key <$> rows)) as [Hin|Hni].
    + destruct (IH2 Hin) as (r' & Hr' & Hk' & ->). exists r'. split_and!; [by right|done|]. f_equal. case_bool_decide as He; [|done].
      rewrite Forall_forall in Hm. apply (merged_twice d now); [done|by apply Hm|congruence].
    + apply elem_of_cons in Hk as [->|]; [|done]. exists r. split_and!; [by left|done|]. rewrite IH1 by done. by rewrite bool_decide_true.
Qed.
Lemma covered_runtimes_ok runtimes : forall seen l, covered_runtimes seen runtimes = Ok l ->
  NoDup l /\ forall r, r ∈ l <-> r ∈ TrimSpace <$> runtimes /\ r ∉ seen.
Proof.
  induction runtimes as [|x runtimes IH]; intros seen l Hl; cbn in Hl; [injection Hl as <-; split; [constructor|]; intros r; split; [by intros ?%elem_of_nil|by intros [?%elem_of_nil _]]|].
  destruct (guard _ _) as [[]|]; [|done]. cbn in Hl. rewrite fmap_cons. setoid_rewrite elem_of_cons. case_bool_decide as Hs.
  - apply IH in Hl as [Hn Hi]. split; [done|]. intros r. rewrite Hi. naive_solver.
  - destruct (covered_runtimes _ _) as [rest|] eqn:E; [|done]. cbn in Hl. injection Hl as <-. apply IH in E as [Hn Hi]. setoid_rewrite elem_of_cons in Hi. split.
    + constructor; [|done]. rewrite Hi. tauto.
    + intros r. rewrite elem_of_cons, Hi. destruct (decide (r = TrimSpace x)) as [->|]; naive_solver.
Qed.

Lemma batch_stored batch covered id y u y' :
  (let! _ := (if bool_decide (batch = []) then ret tt else exec (upsert_containers batch)) in
   if bool_decide (covered = []) then ret tt else exec (drop_containers id covered (dc_ContainerID <$> batch))) y = (Ok u, y') ->
  rows y' = with_containers (fun m => let m := fold_left upsert batch m in
    if bool_decide (covered = []) then m else filter (fun kv => gone id covered (dc_ContainerID <$> batch) kv.2 = false) m) (rows y).
Proof.
  intros Hy. apply bind_ok in Hy as ([] & y1 & H1 & Hy).
  assert (H1' : rows y1 = with_containers (fold_left upsert batch) (rows y)).
  { destruct (decide (batch = [])) as [->|Hb]; [injection H1 as <-; by destruct (rows y) as [? ? ? ? []]|]. rewrite bool_decide_false in H1 by done.
    by apply (sql_change _ _ _ _ _ _ (upsert_containers_law batch)) in H1. }
  case_bool_decide as Hc; [injection Hy as _ <-; by rewrite H1'|]. apply (sql_change _ _ _ _ _ _ (drop_containers_law _ _ _)) in Hy. by rewrite Hy, H1'.
Qed.
Lemma kept_lookup (covered ids : list str) (id : str) (m : gmap (str * str) DaemonContainer) (key : str * str) :
  (if bool_decide (covered = []) then m else filter (fun kv => gone id covered ids kv.2 = false) m) !! key =
  match m !! key with Some r => if bool_decide (covered <> []) && gone id covered ids r then None else Some r | None => None end.
Proof.
  destruct (decide (covered = [])) as [->|Hc]; [cbn; by destruct (m !! key)|]. rewrite (bool_decide_false _ Hc), (bool_decide_true (covered <> [])) by done. cbn [andb].
  destruct (m !! key) as [r|] eqn:E; [|apply map_lookup_filter_None; by left]. destruct (gone id covered ids r) eqn:Eg.
  - apply map_lookup_filter_None. right. intros r' Hr'. replace r' with r by congruence. cbn. by rewrite Eg.
  - by apply map_lookup_filter_Some.
Qed.
(** A status batch is a snapshot: it is taken from the daemon's secret only, wholly
    or not at all. Afterwards a container it names has the row of the batch, with the
    time it was first seen kept; one it does not name is gone exactly when the batch
    speaks for its runtime, or for any when the row has none; no row of another daemon
    is touched. *)
Theorem snapshot_exact c id secret containers runtimes x r x' : IngestContainerStatus c id secret containers runtimes x = (r, x') ->
  match r with
  | Err _ => rows x' = rows x
  | Ok _ => exists d covered batch g,
      t_daemons (rows x) !! id = Some d /\ dm_Enabled d = true /\ CompareHashAndPassword (dm_SecretHash d) secret = true /\
      normalizeCoveredRuntimes runtimes = Ok covered /\ container_rows d (c_now c) containers = Ok batch /\ rows x' = with_containers g (rows x) /\
      (forall key, key.1 <> id -> f_containers (t_feed (rows x')) !! key = f_containers (t_feed (rows x)) !! key) /\
      (forall cid, cid ∈ dc_ContainerID <$> batch -> exists row, row ∈ batch /\ dc_ContainerID row = cid /\
         f_containers (t_feed (rows x')) !! (id, cid) = Some (merged row (f_containers (t_feed (rows x)) !! (id, cid)))) /\
      (forall cid old, cid ∉ dc_ContainerID <$> batch -> f_containers (t_feed (rows x)) !! (id, cid) = Some old ->
         f_containers (t_feed (rows x')) !! (id, cid) =
           if bool_decide (covered <> []) && (bool_decide (dc_Runtime old ∈ covered) || bool_decide (dc_Runtime old = [])) then None else Some old)
  end.
Proof.
  intros Hx. unfold IngestContainerStatus in Hx. cbv zeta in Hx. calm Hx Hd Hr1. settled Hx Hlen. settled Hx Hcov. settled Hx Hne. settled Hx Hb.
  apply authenticate_ok in Hd as (_ & Hd & Hen & Hsec). pose proof (keyed_daemons _ _ _ Hd) as Hid. apply Transaction_law in Hx.
  destruct r as [u|e]; [|congruence]. destruct Hx as (y & y' & Hy & Hx & Hy'). apply batch_stored in Hx. rewrite Hid in Hx.
  destruct (container_rows_ok _ _ _ _ Hb) as [Hrow _]. assert (Hkey : forall cid, (id, cid) ∈ container_key <$> a3 <-> cid ∈ dc_ContainerID <$> a3).
  { intros cid. rewrite !list_elem_of_fmap. rewrite Forall_forall in Hrow. split; intros (q & He & Hq); exists q; (split; [|done]); [by injection He as _ <-|].
    destruct (Hrow q Hq) as [Hq1 _]. unfold container_key. congruence. }
  exists a, a1, a3, (fun m => let m := fold_left upsert a3 m in if bool_decide (a1 = []) then m else filter (fun kv => gone id a1 (dc_ContainerID <$> a3) kv.2 = false) m).
  split_and!; try done; [by rewrite Hy', Hx, Hy, Hr1| | |]; rewrite Hy', Hx, Hy, Hr1; cbn [with_containers with_feed t_feed f_containers].
  - intros key Hk. rewrite kept_lookup, (proj1 (upserts_lookup _ _ _ _ _ Hrow)).
    + destruct (_ !! key) as [q|] eqn:E; [|done]. apply keyed_containers in E. rewrite <-E in Hk. unfold gone. cbn in Hk. by rewrite (bool_decide_false (dc_DaemonID q = id)), andb_false_r by done.
    + intros (q & -> & Hq)%list_elem_of_fmap. rewrite Forall_forall in Hrow. destruct (Hrow q Hq) as [Hq1 _]. cbn in Hk. congruence.
  - intros cid Hc. apply Hkey in Hc. destruct (proj2 (upserts_lookup _ _ _ (f_containers (t_feed (rows x))) _ Hrow) Hc) as (q & Hq & Hqk & Hm). injection Hqk as Hqd Hqc.
    exists q. split_and!; [done|done|]. rewrite kept_lookup, Hm. replace (gone id a1 _ _) with false; [by rewrite andb_false_r|]. symmetry. unfold gone.
    replace (dc_ContainerID (merged q _)) with cid; [by rewrite (bool_decide_true (cid ∈ _)), andb_false_r by by apply Hkey|].
    destruct (f_containers (t_feed (rows x)) !! (id, cid)) as [old|] eqn:E; [|done]. cbn. apply keyed_containers in E. by injection E as _ <-.
  - intros cid old Hc Hold. rewrite kept_lookup, (proj1 (upserts_lookup _ _ _ _ _ Hrow)) by (by rewrite Hkey). rewrite Hold. f_equal. f_equal. unfold gone.
    pose proof (keyed_containers _ _ _ Hold) as E. injection E as -> ->. by rewrite (bool_decide_true (id = id)), (bool_decide_false (cid ∈ _)), andb_true_r by done.
Qed.

(** ** Metrics and the heartbeat *)

(** A report that may be stored: from the daemon's secret, in bounds, within the quotas
    of its workspace. *)
Record admissible (src : Sources) (id secret : str) (input : MetricInput) s (d : Daemon) (sent : Z) (quotas : gmap str Z) : Prop := {
  ad_daemon : t_daemons (nrows s) !! id = Some d /\ dm_Enabled d = true /\ CompareHashAndPassword (dm_SecretHash d) secret = true;
  ad_sent : mi_SentAt input = Some sent;
  ad_numbers : 0 <= mi_UptimeSeconds input /\ 0 <= mi_ProcessMemoryBytes input /\ 0 <= mi_HealthScore input <= 100;
  ad_percent : percent_bad (mi_CPUPercent input) = false /\ percent_bad (mi_MemoryUsedPercent input) = false;
  ad_quotas : workspaceQuota (n_call src) (dm_WorkspaceID d) = Ok quotas;
  ad_interval : (enforcePollInterval d quotas (c_now (n_call src)) (ns_pollHit s)).1 = Ok tt;
  ad_age : 0 < retention_days quotas -> days_before (c_now (n_call src)) (retention_days quotas) <= sent;
}.
Lemma checked_metric_ok input sent : checked_metric input = Ok sent -> mi_SentAt input = Some sent /\
  (0 <= mi_UptimeSeconds input /\ 0 <= mi_ProcessMemoryBytes input /\ 0 <= mi_HealthScore input <= 100) /\
  percent_bad (mi_CPUPercent input) = false /\ percent_bad (mi_MemoryUsedPercent input) = false.
Proof.
  unfold checked_metric. destruct (mi_SentAt input) as [t|]; [|done]. destruct (_ || _) eqn:E; [done|]. intros [= ->].
  rewrite !orb_false_iff, !Z.ltb_ge in E. destruct E as [[[[[E1 E2] E3] E4] E5] E6]. split_and!; done || lia.
Qed.
Lemma too_old_false quotas now sent : too_old quotas now sent = false -> 0 < retention_days quotas -> days_before now (retention_days quotas) <= sent.
Proof. unfold too_old. intros [H0|H0]%andb_false_iff; [apply Z.ltb_ge in H0; lia|]. by apply Z.ltb_ge in H0. Qed.
(** The notification of a return. *)
Definition return_notice (now : Z) (d : Daemon) (n : Notification) : Prop :=
  nt_AccountID n = dm_AccountID d /\ nt_WorkspaceID n = dm_WorkspaceID d /\ nt_DaemonID n = dm_ID d /\ nt_Kind n = kind_reconnected /\
  nt_ReadAt n = None /\ nt_CreatedAt n = now.
Lemma notify_return_inv src d s r s' : notify_return src d s = (r, s') ->
  let level := level_for (nrows s) d (dm_AccountID d) kind_reconnected in
  f_metrics (t_feed (nrows s')) = f_metrics (t_feed (nrows s)) /\ ns_pollHit s' = ns_pollHit s /\
  match r with
  | Ok _ => exists v, nrows s' = noted v (nrows s) /\ (is_Some v <-> level <> NotificationPreferenceReject) /\
      (forall n, v = Some n -> return_notice (c_now (n_call src)) d n /\ f_notifications (t_feed (nrows s)) !! nt_ID n = None) /\
      ns_events s' = ns_events s ++ match v with Some n => publications src (n_uuid src 1) d level n | None => [] end
  | Err _ => True
  end.
Proof.
  intros Hs level. unfold notify_return in Hs. destruct (reconnected _ _) as [body metadata].
  apply quiet_inv in Hs as [(e & -> & [H1 _ H3])|(encoded & s1 & H1 & Hq1 & Hs)]; [by rewrite H1, H3| |apply quiet_lift].
  apply quiet_inv in Hs as [(e & -> & Hq2)|(lv & s2 & H2 & Hq2 & Hs)]; [|clear Hq2|apply quiet_db, reads_preference].
  { pose proof (same_trans _ _ _ Hq1 Hq2) as [H4 _ H6]. by rewrite H4, H6. }
  apply on_db_inv in H2 as (x & H2 & ->). apply notificationPreference_inv in H2 as [Hx Hl]. injection H1 as _ <-. change (lv = level) in Hl.
  set (s2 := mkNState x _ _) in Hs. assert (Hr2 : nrows s2 = nrows s) by exact Hx. rewrite Hl in Hs.
  assert (Hcase : level = NotificationPreferenceReject /\ (r, s') = (Ok tt, s2) \/
    level <> NotificationPreferenceReject /\ exists n, return_notice (c_now (n_call src)) d n /\ (let! _ := deliver src d level n in ret tt) s2 = (r, s')).
  { destruct (localizedAlarm _ _ _ _ _ _) as [title body']. destruct level; [right|right|by left]; (split; [done|]; eexists; split; [|exact Hs]; done). }
  clear Hs. destruct Hcase as [[Hrej [= -> ->]]|[Hw (n & Hn & Hs)]].
  - rewrite Hr2. split_and!; [done|done|]. exists None. split_and!; [done|by split; [intros [? [=]]|]|done|by rewrite app_nil_r].
  - apply bind_inv in Hs as [(e & Hs & ->)|(v & s3 & Hs & [= <- <-])]; apply deliver_inv in Hs; try done.
    + destruct Hs as [[H4 _ H6]|(_ & [_ _ H4 _ H6] & _)]; rewrite H4, H6, Hr2; done.
    + destruct Hs as [-> [_ Hf H4 H5 H6]]. rewrite Hr2 in *. rewrite H4, H6. split_and!; [done|done|]. exists (Some n). split_and!; [done|by split|by intros ? [= <-]|exact H5].
Qed.
Lemma connected_after id now host t d : t_daemons t !! id = Some d -> (forall k y, t_daemons t !! k = Some y -> dm_ID y = k) ->
  with_daemons (update_where (is_daemon id) (set_disconnected None)) (with_daemons (update_where (is_daemon id) (touched now host)) t) =
  with_daemons <[id := set_disconnected None (touched now host d)]> t.
Proof.
  intros Hd Hk. unfold with_daemons. cbn [t_daemons t_actions t_requests t_credentials t_feed]. f_equal. unfold is_daemon. rewrite (update_where_key dm_ID (touched now host) _ id d Hk Hd).
  rewrite (update_where_key dm_ID (set_disconnected None) _ id (touched now host d)); [apply insert_insert_eq| |apply lookup_insert_eq].
  intros k y [[<- <-]|[_ Hy]]%lookup_insert_Some; [by apply Hk in Hd|by apply Hk].
Qed.
Lemma ingest_rest src d id sent input s r s' : t_daemons (nrows s) !! id = Some d ->
  let now := c_now (n_call src) in let row := metric_row (n_uuid src 2) id sent now input in
  let level := level_for (nrows s) d (dm_AccountID d) kind_reconnected in
  (let! _ := on_db (exec (create_metric row)) in
   let! _ := on_db (exec (touch_daemon id now (new_host input d))) in
   let! affected := on_db (exec (mark_connected id)) in
   if affected =? 1 then notify_return src d else ret tt) s = (r, s') ->
  (f_metrics (t_feed (nrows s')) = f_metrics (t_feed (nrows s)) \/ f_metrics (t_feed (nrows s')) = <[n_uuid src 2 := row]> (f_metrics (t_feed (nrows s)))) /\
  match r with
  | Err _ => True
  | Ok _ => exists v, nrows s' = noted v (with_daemons <[id := set_disconnected None (touched now (new_host input d) d)]> (with_metrics <[n_uuid src 2 := row]> (nrows s))) /\
      (is_Some v <-> is_down d = true /\ level <> NotificationPreferenceReject) /\ (forall n, v = Some n -> return_notice now d n) /\
      ns_events s' = ns_events s ++ match v with Some n => publications src (n_uuid src 1) d level n | None => [] end
  end.
Proof.
  intros Hd now row level Hs. pose proof (keyed_daemons (ns_db s)) as Hk. change (rows (ns_db s)) with (nrows s) in Hk.
  apply bind_inv in Hs as [(e & H1 & ->)|([] & s1 & H1 & Hs)]; apply on_db_inv in H1 as (x1 & H1 & ->); apply (sql_change _ _ _ _ _ _ (create_metric_law row)) in H1.
  { split; [left; unfold nrows; cbn; by rewrite H1|done]. }
  destruct H1 as [_ H1]. change (mt_ID row) with (n_uuid src 2) in H1.
  apply bind_inv in Hs as [(e & H2 & ->)|([] & s2 & H2 & Hs)]; apply on_db_inv in H2 as (x2 & H2 & ->); apply (sql_change _ _ _ _ _ _ (touch_daemon_law id now (new_host input d))) in H2; cbn in H2.
  { split; [right; unfold nrows; cbn; by rewrite H2, H1|done]. }
  apply bind_inv in Hs as [(e & H3 & ->)|(n & s3 & H3 & Hs)]; apply on_db_inv in H3 as (x3 & H3 & ->); apply (sql_change _ _ _ _ _ _ (mark_connected_law id)) in H3; cbn in H3.
  { split; [right; unfold nrows; cbn; by rewrite H3, H2, H1|done]. }
  rewrite H2, H1 in H3. cbn [t_daemons with_daemons with_metrics with_feed] in H3. unfold is_daemon in H3 at 1. erewrite lookup_update_where in H3 by exact Hd.
  rewrite bool_decide_true in H3 by (by apply Hk). destruct H3 as [Hn H3]. rewrite (connected_after id now _ _ d) in H3 by done.
  set (s3 := mkNState x3 _ _) in Hs. assert (Hr3 : nrows s3 = with_daemons <[id := set_disconnected None (touched now (new_host input d) d)]> (with_metrics <[n_uuid src 2 := row]> (nrows s))) by exact H3.
  change (is_down (touched now (new_host input d) d)) with (is_down d) in Hn. destruct (is_down d) eqn:Ed; rewrite Hn in Hs; cbn in Hs.
  - apply notify_return_inv in Hs as (Hm & _ & Hs). split; [right; by rewrite Hm, Hr3|]. destruct r as [u|e]; [|done]. destruct Hs as (v & Hv & Hl & Hn' & He).
    exists v. rewrite Hv, Hr3 in *. split_and!; [done|by rewrite Hl; split; [|intros [_ ?]]|by intros m Hm'; apply Hn'|exact He].
  - injection Hs as <- <-. split; [right; by rewrite Hr3|]. exists None. split_and!; [done|by split; [intros [? [=]]|intros [[=] _]]|done|by rewrite app_nil_r].
Qed.
(** C31. A metric of a daemon: whatever fails, a metric row appears only for a report
    from the daemon's secret that is in bounds and within the quotas of its workspace.
    Taken, it leaves exactly its row, the daemon marked as heard of now and connected,
    and if it was disconnected the one notification of its return, published unless
    its account rejects it or wants silence. *)
Theorem heartbeat_exact src id secret input s r s' : IngestMetric src id secret input s = (r, s') ->
  let now := c_now (n_call src) in
  (f_metrics (t_feed (nrows s')) = f_metrics (t_feed (nrows s)) \/
   exists d sent quotas, admissible src id secret input s d sent quotas /\
     f_metrics (t_feed (nrows s')) = <[n_uuid src 2 := metric_row (n_uuid src 2) id sent now input]> (f_metrics (t_feed (nrows s)))) /\
  match r with
  | Err _ => True
  | Ok _ => exists d sent quotas v, admissible src id secret input s d sent quotas /\
      let row := metric_row (n_uuid src 2) id sent now input in
      let level := level_for (nrows s) d (dm_AccountID d) kind_reconnected in
      nrows s' = noted v (with_daemons <[id := set_disconnected None (touched now (new_host input d) d)]> (with_metrics <[n_uuid src 2 := row]> (nrows s))) /\
      (is_Some v <-> is_down d = true /\ level <> NotificationPreferenceReject) /\
      (forall n, v = Some n -> return_notice now d n) /\
      ns_events s' = ns_events s ++ match v with Some n => publications src (n_uuid src 1) d level n | None => [] end
  end.
Proof.
  intros Hs now. unfold IngestMetric in Hs. cbv zeta in Hs.
  apply quiet_inv in Hs as [(e & -> & [H1 _ H3])|(d & s1 & H1 & Hq1 & Hs)]; [split; [left; by rewrite H1|done]| |apply quiet_db, reads_authenticate].
  apply on_db_inv in H1 as (x & H1 & ->). apply authenticate_ok in H1 as (Hx & Hd & Hen & Hsec). pose proof (keyed_daemons _ _ _ Hd) as Hid. rewrite Hid in Hs.
  change (rows (ns_db s)) with (nrows s) in *. set (s1 := mkNState x _ _) in *. assert (Hr1 : nrows s1 = nrows s) by exact Hx.
  apply lift_inv in Hs as [(e & _ & -> & ->)|(sent & Hsent & Hs)]; [split; [by left; rewrite Hr1|done]|].
  apply lift_inv in Hs as [(e & _ & -> & ->)|(quotas & Hq & Hs)]; [split; [by left; rewrite Hr1|done]|].
  assert (Hth : forall r0 s2, throttle d quotas now s1 = (r0, s2) -> nrows s2 = nrows s /\ ns_events s2 = ns_events s /\ r0 = (enforcePollInterval d quotas now (ns_pollHit s)).1).
  { intros r0 s2 Ht. unfold throttle in Ht. cbn in Ht. destruct (enforcePollInterval d quotas now (ns_pollHit s)) as [r1 hits]. by injection Ht as <- <-. }
  apply bind_inv in Hs as [(e & Ht & ->)|([] & s2 & Ht & Hs)]; apply Hth in Ht as (Hr2 & He2 & Ht); [split; [by left; rewrite Hr2|done]|].
  apply lift_inv in Hs as [(e & _ & -> & ->)|([] & Hold & Hs)]; [split; [by left; rewrite Hr2|done]|].
  apply checked_metric_ok in Hsent as (Hsent & Hnum & Hpct). pose proof (too_old_false _ _ _ (proj1 (guard_ok _ _ _) Hold)) as Hage.
  assert (Had : admissible src id secret input s d sent quotas) by (by split).
  apply ingest_rest in Hs as [Hm Hs]; [|by rewrite Hr2]. rewrite Hr2, He2 in *. split; [destruct Hm as [Hm|Hm]; [by left|right; by exists d, sent, quotas]|].
  destruct r as [u|e]; [|done]. destruct Hs as (v & H1 & H2 & H3 & H4). exists d, sent, quotas, v. by split_and!.
Qed.

(** ** Logs *)

(** A stored line and the entry it was made from. *)
Definition line_of (d : Daemon) (quotas : gmap str Z) (now : Z) (entry : LogInput) (row : DaemonLog) : Prop :=
  lg_DaemonID row = dm_ID d /\ lg_ContainerID row = TrimSpace (li_ContainerID entry) /\ lg_Line row = li_Line entry /\ lg_ReceivedAt row = now /\
  li_Timestamp entry = Some (lg_Timestamp row) /\ (1 <= List.length (lg_ContainerID row) <= 128)%nat /\ (1 <= List.length (lg_Line row) <= 4096)%nat /\
  ValidString (lg_ContainerID row) = true /\ ValidString (lg_Line row) = true /\
  (0 < retention_days quotas -> days_before now (retention_days quotas) <= lg_Timestamp row).
Lemma bounded (s : str) n : bool_decide (s = []) || (Z.of_nat n <? Z.of_nat (List.length s)) || negb (ValidString s) = false ->
  (1 <= List.length s <= n)%nat /\ ValidString s = true.
Proof. intros [[H1%bool_decide_eq_false H2%Z.ltb_ge]%orb_false_iff H3%negb_false_iff]%orb_false_iff. split; [|done]. destruct s; [done|]. cbn [List.length] in *. lia. Qed.
Lemma log_rows_ok uuid d quotas now entries : forall k rows, log_rows uuid k (dm_ID d) quotas now entries = Ok rows -> Forall2 (line_of d quotas now) entries rows.
Proof.
  induction entries as [|entry entries IH]; intros k rows Hr; cbn [log_rows] in Hr; [by injection Hr as <-|].
  destruct (log_row (uuid k) (dm_ID d) quotas now entry) as [row|] eqn:E; [|done]. cbn [res_bind] in Hr. destruct (log_rows uuid (S k) _ _ _ _) as [rest|] eqn:Er; [|done].
  injection Hr as <-. constructor; [|by eapply IH]. unfold log_row in E. destruct (guard _ _) as [[]|] eqn:G1; [|done]. cbn [res_bind] in E.
  destruct (li_Timestamp entry) as [at_|] eqn:Et; [|done]. destruct (guard (too_old _ _ _) _) as [[]|] eqn:G2; [|done]. cbn [res_bind] in E.
  destruct (guard _ (Errorf "line exceeds bounds or is empty" [])) as [[]|] eqn:G3; [|done]. injection E as <-. apply guard_ok in G1, G2, G3.
  apply (bounded _ 128) in G1 as [B1 V1]. apply (bounded _ 4096) in G3 as [B3 V3]. unfold line_of. cbn. split_and!; try done; try lia. by apply too_old_false.
Qed.
(** A batch of log lines is stored as a whole, each entry as one line, in bounds and
    within the retention of the workspace, or nothing of it is. *)
Theorem logs_exact src id secret entries x r x' : IngestLogs src id secret entries x = (r, x') ->
  match r with
  | Err _ => rows x' = rows x
  | Ok _ => exists d quotas lines, t_daemons (rows x) !! id = Some d /\ dm_Enabled d = true /\ CompareHashAndPassword (dm_SecretHash d) secret = true /\
      workspaceQuota (n_call src) (dm_WorkspaceID d) = Ok quotas /\ (1 <= List.length entries <= 500)%nat /\
      Forall2 (line_of d quotas (c_now (n_call src))) entries lines /\
      Forall (fun l => f_logs (t_feed (rows x)) !! lg_ID l = None) lines /\ NoDup (lg_ID <$> lines) /\
      rows x' = with_logs (fun m => list_to_map ((fun l => (lg_ID l, l)) <$> lines) ∪ m) (rows x)
  end.
Proof.
  intros Hx. unfold IngestLogs in Hx. calm Hx Hd Hr. settled Hx Hn. settled Hx Hq. settled Hx Hl. apply authenticate_ok in Hd as (_ & Hd & Hen & Hsec).
  apply (sql_change _ _ _ _ _ _ (create_logs_law a2)) in Hx. rewrite Hr in Hx. destruct r as [u|e]; [|done]. destruct Hx as (Hnd & Hf & Hx).
  apply guard_ok, orb_false_iff in Hn as [Hn1%bool_decide_eq_false Hn2%Z.ltb_ge]. apply log_rows_ok in Hl. exists a, a1, a2. split_and!; try done; [|lia]. destruct entries; [done|cbn; lia].
Qed.

(** ** Retention *)

(** Data of a daemon from before the retention window of its workspace. *)
Definition expired (c : Call) t (daemon : str) (at_ : Z) : Prop :=
  exists d quotas, t_daemons t !! daemon = Some d /\ workspaceQuota c (dm_WorkspaceID d) = Ok quotas /\ 0 < retention_days quotas /\
    at_ < days_before (c_now c) (retention_days quotas).
Definition shrunk `{Countable K} {A} (due : A -> Prop) (m m' : gmap K A) : Prop :=
  (forall k v, m' !! k = Some v -> m !! k = Some v) /\ (forall k v, m !! k = Some v -> m' !! k = Some v \/ m' !! k = None /\ due v).
Lemma shrunk_refl `{Countable K} {A} (due : A -> Prop) (m : gmap K A) : shrunk due m m.
Proof. split; auto. Qed.
Lemma shrunk_trans `{Countable K} {A} (due : A -> Prop) (m1 m2 m3 : gmap K A) : shrunk due m1 m2 -> shrunk due m2 m3 -> shrunk due m1 m3.
Proof.
  intros [H1 H2] [G1 G2]. split; [auto|]. intros k v Hv. destruct (H2 k v Hv) as [Hv2|[Hn Hd]]; [by apply G2|]. right. split; [|done].
  destruct (m3 !! k) as [w|] eqn:E; [|done]. apply G1 in E. congruence.
Qed.
Lemma shrunk_filter `{Countable K} {A} (due : A -> Prop) (P : A -> bool) (m : gmap K A) : (forall v, P v = true -> due v) ->
  shrunk due m (filter (fun kv => P kv.2 = false) m).
Proof.
  intros HP. split; [by intros k v [Hv _]%map_lookup_filter_Some|]. intros k v Hv. destruct (P v) eqn:E; [right|left; by apply map_lookup_filter_Some].
  split; [|by apply HP]. apply map_lookup_filter_None. right. intros w Hw. replace w with v by congruence. cbn. by rewrite E.
Qed.
(** Only expired metrics, logs and containers went. *)
Record pruned (c : Call) t t' : Prop := {
  pn_daemons : t_daemons t' = t_daemons t;
  pn_rest : t_actions t' = t_actions t /\ t_requests t' = t_requests t /\ t_credentials t' = t_credentials t /\
    f_notifications (t_feed t') = f_notifications (t_feed t) /\ f_preferences (t_feed t') = f_preferences (t_feed t);
  pn_metrics : shrunk (fun m => expired c t (mt_DaemonID m) (mt_ReceivedAt m)) (f_metrics (t_feed t)) (f_metrics (t_feed t'));
  pn_logs : shrunk (fun l => expired c t (lg_DaemonID l) (lg_ReceivedAt l)) (f_logs (t_feed t)) (f_logs (t_feed t'));
  pn_containers : shrunk (fun r => expired c t (dc_DaemonID r) (dc_LastSeenAt r)) (f_containers (t_feed t)) (f_containers (t_feed t'));
}.
Lemma pruned_refl c t t' : t' = t -> pruned c t t'.
Proof. intros ->. split; try done; apply shrunk_refl. Qed.
Lemma pruned_trans c t t1 t2 : pruned c t t1 -> pruned c t1 t2 -> pruned c t t2.
Proof.
  intros [A1 A2 A3 A4 A5] [B1 B2 B3 B4 B5]. assert (He : forall d a, expired c t1 d a = expired c t d a) by (intros; unfold expired; by rewrite A1).
  split; [congruence|naive_solver congruence|..]; (eapply shrunk_trans; [eassumption|]).
  - destruct B3 as [B B']. split; [done|]. intros k v Hv. rewrite <-He. by apply B'.
  - destruct B4 as [B B']. split; [done|]. intros k v Hv. rewrite <-He. by apply B'.
  - destruct B5 as [B B']. split; [done|]. intros k v Hv. rewrite <-He. by apply B'.
Qed.
Lemma in_workspace_expired c t w quotas daemon at_ : workspaceQuota c w = Ok quotas -> 0 < retention_days quotas ->
  in_workspace t w daemon && (at_ <? days_before (c_now c) (retention_days quotas)) = true -> expired c t daemon at_.
Proof.
  intros Hq Hd [Hw Ha%Z.ltb_lt]%andb_true_iff. unfold in_workspace in Hw. destruct (t_daemons t !! daemon) as [d|] eqn:E; [|done].
  apply bool_decide_eq_true in Hw as <-. by exists d, quotas.
Qed.
Lemma pruned_metrics c t w quotas : workspaceQuota c w = Ok quotas -> 0 < retention_days quotas ->
  pruned c t (with_metrics (filter (fun kv => in_workspace t w (mt_DaemonID kv.2) && (mt_ReceivedAt kv.2 <? days_before (c_now c) (retention_days quotas)) = false)) t).
Proof.
  intros Hq Hd. split; try done; try apply shrunk_refl. cbn. apply (shrunk_filter _ (fun m => in_workspace t w (mt_DaemonID m) && (mt_ReceivedAt m <? days_before (c_now c) (retention_days quotas)))).
  intros v. by apply in_workspace_expired.
Qed.
Lemma pruned_logs c t w quotas : workspaceQuota c w = Ok quotas -> 0 < retention_days quotas ->
  pruned c t (with_logs (filter (fun kv => in_workspace t w (lg_DaemonID kv.2) && (lg_ReceivedAt kv.2 <? days_before (c_now c) (retention_days quotas)) = false)) t).
Proof.
  intros Hq Hd. split; try done; try apply shrunk_refl. cbn. apply (shrunk_filter _ (fun m => in_workspace t w (lg_DaemonID m) && (lg_ReceivedAt m <? days_before (c_now c) (retention_days quotas)))).
  intros v. by apply in_workspace_expired.
Qed.
Lemma pruned_containers c t w quotas : workspaceQuota c w = Ok quotas -> 0 < retention_days quotas ->
  pruned c t (with_containers (filter (fun kv => in_workspace t w (dc_DaemonID kv.2) && (dc_LastSeenAt kv.2 <? days_before (c_now c) (retention_days quotas)) = false)) t).
Proof.
  intros Hq Hd. split; try done; try apply shrunk_refl. cbn. apply (shrunk_filter _ (fun m => in_workspace t w (dc_DaemonID m) && (dc_LastSeenAt m <? days_before (c_now c) (retention_days quotas)))).
  intros v. by apply in_workspace_expired.
Qed.
Lemma attempt_inv {A B} (m : M A) (k : res A -> M B) x r x' : bind (attempt m) k x = (r, x') -> exists a x1, m x = (a, x1) /\ k a x1 = (r, x').
Proof. unfold bind, attempt. destruct (m x) as [a x1]. intros Hk. by exists a, x1. Qed.
(** A database on which these statements always answer. *)
Definition reliable : Prop := forall w cutoff x, (exists x', prune_metrics w cutoff x = (inl tt, x')) /\ (exists x', prune_logs w cutoff x = (inl tt, x')) /\
  (exists x', prune_containers w cutoff x = (inl tt, x')).
(** Nothing of a workspace is left that has expired. *)
Definition clean (c : Call) t (w : str) : Prop :=
  (forall k m, f_metrics (t_feed t) !! k = Some m -> in_workspace t w (mt_DaemonID m) = true -> ~ expired c t (mt_DaemonID m) (mt_ReceivedAt m)) /\
  (forall k l, f_logs (t_feed t) !! k = Some l -> in_workspace t w (lg_DaemonID l) = true -> ~ expired c t (lg_DaemonID l) (lg_ReceivedAt l)) /\
  (forall k r, f_containers (t_feed t) !! k = Some r -> in_workspace t w (dc_DaemonID r) = true -> ~ expired c t (dc_DaemonID r) (dc_LastSeenAt r)).
Lemma clean_pruned c t t' w : clean c t w -> pruned c t t' -> clean c t' w.
Proof.
  intros (H1 & H2 & H3) [P1 P2 [P3 _] [P4 _] [P5 _]]. unfold clean, expired, in_workspace in *. rewrite P1. split_and!; intros k v Hv; [apply (H1 k), P3|apply (H2 k), P4|apply (H3 k), P5]; done.
Qed.
Lemma in_workspace_due c t w quotas daemon at_ : workspaceQuota c w = Ok quotas -> in_workspace t w daemon = true ->
  in_workspace t w daemon && (at_ <? days_before (c_now c) (retention_days quotas)) = false -> ~ expired c t daemon at_.
Proof.
  intros Hq Hw Hf (d & q & Hd & Hq' & _ & Ha). rewrite Hw in Hf. cbn in Hf. apply Z.ltb_ge in Hf. unfold in_workspace in Hw. rewrite Hd in Hw.
  apply bool_decide_eq_true in Hw. rewrite Hw in Hq'. replace q with quotas in * by congruence. lia.
Qed.
Lemma clean_none c t w : (forall quotas, workspaceQuota c w = Ok quotas -> retention_days quotas <= 0) -> clean c t w.
Proof.
  intros Hq. assert (Hn : forall daemon at_, in_workspace t w daemon = true -> ~ expired c t daemon at_); [|unfold clean; split_and!; intros ? ? _; apply Hn].
  intros daemon at_ Hw (d & quotas & Hd & Hdq & Hpos & _). unfold in_workspace in Hw. rewrite Hd in Hw. apply bool_decide_eq_true in Hw.
  rewrite Hw in Hdq. apply Hq in Hdq. lia.
Qed.
(** One of the three deletions: done, or passed over with nothing changed. *)
Lemma prune_step c (m : db -> (unit + db_error) * db) (f : tables -> tables) x a x1 : changes m (fun t _ t' => t' = f t) -> exec m x = (a, x1) ->
  (forall t, pruned c t (f t)) -> pruned c (rows x) (rows x1) /\ ((exists x2, m x = (inl tt, x2)) -> a = Ok tt /\ rows x1 = f (rows x)).
Proof.
  intros Hc Hx Hp. pose proof (sql_change _ _ _ _ _ _ Hc Hx) as He. split.
  - destruct a; rewrite He; [done|by apply pruned_refl].
  - intros [x2 Hm]. unfold exec, sql in Hx. rewrite Hm in Hx. injection Hx as <- <-. done.
Qed.
Lemma prune_workspace_ok c w x r x' : prune_workspace c w x = (r, x') ->
  r = Ok tt /\ pruned c (rows x) (rows x') /\ (reliable -> clean c (rows x') w).
Proof.
  unfold prune_workspace. destruct (workspaceQuota c w) as [quotas|e] eqn:Eq.
  2: { intros [= <- <-]. split_and!; [done|by apply pruned_refl|]. intros _. apply clean_none. congruence. }
  destruct (retention_days quotas <=? 0) eqn:Ed.
  { intros [= <- <-]. apply Z.leb_le in Ed. split_and!; [done|by apply pruned_refl|]. intros _. apply clean_none. congruence. }
  apply Z.leb_gt in Ed. intros Hx. apply attempt_inv in Hx as (a1 & x1 & H1 & Hx). apply (prune_step c _ _ _ _ _ (prune_metrics_law w _)) in H1 as [P1 R1]; [|intros t; by apply pruned_metrics].
  destruct a1 as [u1|e1].
  2: { injection Hx as <- <-. split_and!; [done|done|]. intros Hrel. by destruct (R1 (proj1 (Hrel _ _ _))) as [[=] _]. }
  apply attempt_inv in Hx as (a2 & x2 & H2 & Hx). apply (prune_step c _ _ _ _ _ (prune_logs_law w _)) in H2 as [P2 R2]; [|intros t; by apply pruned_logs].
  apply attempt_inv in Hx as (a3 & x3 & H3 & Hx). apply (prune_step c _ _ _ _ _ (prune_containers_law w _)) in H3 as [P3 R3]; [|intros t; by apply pruned_containers].
  injection Hx as <- <-. split_and!; [done|eapply pruned_trans; [exact P1|eapply pruned_trans; [exact P2|exact P3]]|].
  intros Hrel. destruct (R1 (proj1 (Hrel _ _ _))) as [_ E1]. destruct (R2 (proj1 (proj2 (Hrel _ _ _)))) as [_ E2]. destruct (R3 (proj2 (proj2 (Hrel _ _ _)))) as [_ E3].
  assert (Hd1 : t_daemons (rows x1) = t_daemons (rows x)) by apply P1. assert (Hd2 : t_daemons (rows x2) = t_daemons (rows x)) by (rewrite <-Hd1; apply P2).
  assert (Hw : forall id, in_workspace (rows x3) w id = in_workspace (rows x) w id) by (intros id; unfold in_workspace; by rewrite (pn_daemons _ _ _ P3), Hd2).
  assert (Hw1 : forall id, in_workspace (rows x1) w id = in_workspace (rows x) w id) by (intros id; unfold in_workspace; by rewrite Hd1).
  assert (Hw2 : forall id, in_workspace (rows x2) w id = in_workspace (rows x) w id) by (intros id; unfold in_workspace; by rewrite Hd2).
  unfold clean. split_and!; intros k v Hv Hin; eapply in_workspace_due; try done; rewrite Hw in *; revert Hv; rewrite E3; cbn [with_containers with_feed t_feed f_metrics f_logs f_containers];
    [rewrite E2; cbn [with_logs with_feed t_feed f_metrics]; rewrite E1|rewrite E2|]; intros [_ Hv]%map_lookup_filter_Some; cbn in Hv; rewrite ?Hw1, ?Hw2 in Hv; exact Hv.
Qed.
Lemma prune_all_ok c ws : forall x r x', prune_all c ws x = (r, x') -> r = Ok tt /\ pruned c (rows x) (rows x') /\ (reliable -> forall w, w ∈ ws -> clean c (rows x') w).
Proof.
  induction ws as [|w ws IH]; intros x r x' Hx; cbn in Hx; [injection Hx as <- <-; split_and!; [done|by apply pruned_refl|by intros _ w ?%elem_of_nil]|].
  apply bind_inv in Hx as [(e & Hx & ->)|([] & x1 & H1 & Hx)]; [by apply prune_workspace_ok in Hx as [[=] _]|].
  apply prune_workspace_ok in H1 as (_ & P1 & C1). apply IH in Hx as (-> & P2 & C2). split_and!; [done|by eapply pruned_trans|].
  intros Hrel v [->|Hv]%elem_of_cons; [eapply clean_pruned; [by apply C1|done]|by apply C2].
Qed.
(** Retention removes only metrics, logs and containers from before the window of
    their daemon's workspace, whatever fails on the way, and nothing else; when the
    deletions answer, nothing that has expired is left in any workspace whose quotas
    are known. *)
Theorem retention_exact c x r x' : PruneMetrics c x = (r, x') ->
  pruned c (rows x) (rows x') /\
  (r = Ok tt -> reliable -> forall id d, t_daemons (rows x') !! id = Some d -> clean c (rows x') (dm_WorkspaceID d)).
Proof.
  intros Hx. unfold PruneMetrics in Hx. apply bind_inv in Hx as [(e & Hx & ->)|(ws & x1 & H1 & Hx)].
  - split; [|done]. apply pruned_refl. by apply (sql_query _ _ _ _ _ _ _ workspace_ids_law) in Hx as [Hr _].
  - apply (sql_query _ _ _ _ _ _ _ workspace_ids_law) in H1 as [Hr [_ Hw]]. apply prune_all_ok in Hx as (-> & P & C). rewrite Hr in *. split; [done|].
    intros _ Hrel id d Hd. apply C; [done|]. apply Hw. rewrite (pn_daemons _ _ _ P) in Hd. by exists id, d.
Qed.

(** ** Reading it *)

Definition may_read (c : Call) (account id : str) t : Prop := exists d, t_daemons t !! id = Some d /\ confirmed c account (dm_WorkspaceID d).
Lemma read_as {A} c account id (m : M A) x a x' : (let! _ := daemonForAccount c account id in m) x = (Ok a, x') ->
  may_read c account id (rows x) /\ exists x1, rows x1 = rows x /\ m x1 = (Ok a, x').
Proof. intros Hx. apply bind_ok in Hx as (d & x1 & H1 & Hx). apply daemonForAccount_ok in H1 as (Hr & Hd & _ & Hc). split; [by exists d|by exists x1]. Qed.
Lemma filter_of_spec value y : opt_eq (filter_of value) y = true <-> (TrimSpace value <> [] -> y = TrimSpace value).
Proof. unfold filter_of. cbv zeta. case_bool_decide as Hv; cbn; [tauto|]. rewrite bool_decide_eq_true. tauto. Qed.
Lemma window_ext {A} (le : A -> A -> Prop) (P Q : A -> Prop) limit l : (forall y, P y <-> Q y) -> window le P limit l -> window le Q limit l.
Proof. intros He [H1 H2 H3 H4 H5]. split; [intros y Hy; by apply He, H1|done|done|intros y Hy; by apply H4, He|done]. Qed.
Lemma list_limit_range limit : 0 < list_limit limit <= 500.
Proof. unfold list_limit. destruct (limit <=? 0) eqn:E1, (500 <? limit) eqn:E2; cbn; lia. Qed.
Lemma metrics_limit_range limit : 0 < metrics_limit limit <= 100.
Proof. unfold metrics_limit. repeat case_match; lia. Qed.
(** What a daemon reported is read by confirmed members of its workspace only, and
    reading changes nothing: each list is the newest of the rows asked for, as many as
    fit, none newer left out; the health is that of the metric sent last, stale when it
    was received more than five minutes ago. *)
Theorem reports_exact c account id :
  (forall limit before x l x', ListMetrics c account id limit before x = (Ok l, x') ->
     rows x' = rows x /\ may_read c account id (rows x) /\ (List.length l <= 100)%nat /\
     window (newer mt_SentAt) (fun m => f_metrics (t_feed (rows x)) !! mt_ID m = Some m /\ mt_DaemonID m = id /\ forall b, before = Some b -> mt_SentAt m < b)
       (Z.to_nat (metrics_limit limit)) l) /\
  (forall container limit before x l x', ListLogs c account id container limit before x = (Ok l, x') ->
     rows x' = rows x /\ may_read c account id (rows x) /\ (List.length l <= 500)%nat /\
     window (newer lg_Timestamp) (fun m => f_logs (t_feed (rows x)) !! lg_ID m = Some m /\ lg_DaemonID m = id /\
       (TrimSpace container <> [] -> lg_ContainerID m = TrimSpace container) /\ forall b, before = Some b -> lg_Timestamp m < b) (Z.to_nat (list_limit limit)) l) /\
  (forall compose state limit before x l x', ListContainerStatus c account id compose state limit before x = (Ok l, x') ->
     rows x' = rows x /\ may_read c account id (rows x) /\ (List.length l <= 500)%nat /\
     window (newer dc_LastSeenAt) (fun m => f_containers (t_feed (rows x)) !! container_key m = Some m /\ dc_DaemonID m = id /\
       (TrimSpace compose <> [] -> dc_ComposeProject m = TrimSpace compose) /\ (TrimSpace state <> [] -> dc_State m = TrimSpace state) /\
       forall b, before = Some b -> dc_LastSeenAt m < b) (Z.to_nat (list_limit limit)) l) /\
  (forall x v x', DaemonHealth c account id x = (Ok v, x') ->
     rows x' = rows x /\ may_read c account id (rows x) /\ exists m, f_metrics (t_feed (rows x)) !! mt_ID m = Some m /\ mt_DaemonID m = id /\
       (forall k y, f_metrics (t_feed (rows x)) !! k = Some y -> mt_DaemonID y = id -> mt_SentAt y <= mt_SentAt m) /\
       hv_Score v = mt_HealthScore m /\ hv_EvaluatedAt v = mt_SentAt m /\ hv_ReceivedAt v = mt_ReceivedAt m /\
       (hv_Stale v = true <-> 5 * 60 * second < time_Sub (c_now c) (mt_ReceivedAt m))).
Proof.
  split_and!.
  - intros limit before x l x' (Hm & x1 & Hr & Hx)%read_as. apply (sql_query _ _ _ _ _ _ _ (find_metrics_law _ _ _)) in Hx as [Hr' Hw]. rewrite Hr in *.
    pose proof (metrics_limit_range limit). pose proof (wn_limit _ _ _ _ Hw). split_and!; [done|done|lia|]. eapply window_ext; [|exact Hw].
    intros m. unfold stored_in, metric_matches. by rewrite andb_true_iff, bool_decide_eq_true, before_ok_spec.
  - intros container limit before x l x' (Hm & x1 & Hr & Hx)%read_as. apply (sql_query _ _ _ _ _ _ _ (find_logs_law _ _ _ _)) in Hx as [Hr' Hw]. rewrite Hr in *.
    pose proof (list_limit_range limit). pose proof (wn_limit _ _ _ _ Hw). split_and!; [done|done|lia|]. eapply window_ext; [|exact Hw].
    intros m. unfold stored_in, log_matches. rewrite !andb_true_iff, bool_decide_eq_true, before_ok_spec, filter_of_spec. tauto.
  - intros compose state limit before x l x' (Hm & x1 & Hr & Hx)%read_as. apply (sql_query _ _ _ _ _ _ _ (find_containers_law _ _ _ _ _)) in Hx as [Hr' Hw]. rewrite Hr in *.
    pose proof (list_limit_range limit). pose proof (wn_limit _ _ _ _ Hw). split_and!; [done|done|lia|]. eapply window_ext; [|exact Hw].
    intros m. unfold stored_in, container_matches. rewrite !andb_true_iff, bool_decide_eq_true, before_ok_spec, !filter_of_spec. tauto.
  - intros x v x' (Hm & x1 & Hr & Hx)%read_as. apply bind_ok in Hx as (row & x2 & H2 & [= <- <-]). apply (sql_query _ _ _ _ _ _ _ (latest_metric_law _)) in H2 as [Hr' Hw]. rewrite Hr in *.
    split_and!; [done|done|]. destruct Hw as [W1 _ _ W4 _]. destruct (W1 row) as [Hrow Hd]; [by left|]. unfold metric_matches in Hd. cbn in Hd. rewrite andb_true_r, bool_decide_eq_true in Hd.
    exists row. split_and!; try done; [|cbn; rewrite Z.ltb_lt; done].
    intros k y Hy Hyd. destruct (Z.le_gt_cases (mt_SentAt y) (mt_SentAt row)) as [Hle|Hgt]; [done|]. pose proof Hy as Hk. rewrite <-Hr in Hk. apply keyed_metrics in Hk.
    destruct (W4 y) as [_ [Hle _]%Forall_cons]; [split; [by rewrite Hk|unfold metric_matches; by rewrite bool_decide_true]|intros ->%list_elem_of_singleton; lia|exact Hle].
Qed.
End telemetry.

(** ** A box that reports, falls silent and returns *)

#[local] Existing Instance demo_crypto.
#[local] Existing Instance demo_unicode.
#[local] Existing Instance demo_floats.
#[local] Existing Instance demo_json.
#[local] Existing Instance demo_times.
Definition demo_metric (sent : Z) : MetricInput :=
  mkMetricInput (Some sent) ($" host-2 ") 60 0 (FNum 1) 4 (FNum 0) (FNum 0) (FNum 0) (FNum 50) 0 0 0 0 0 0 0 0 0 0 97 ($"healthy").
Definition minutes (n : Z) : Z := n * 60 * second.
(** Heard of at the start, then silent for five minutes. *)
Definition demo_heard : res unit * nstate := IngestMetric (demo_sources 0 "a") ($"d1") ($"old") (demo_metric 0) (mkNState demo_db [] ∅).
Definition demo_survey (n : Z) (base : string) (s : nstate) : res unit * nstate :=
  EvaluateDisconnectedDaemonsWithCooldown (demo_sources (minutes n) base) 0 0 None s.
Definition demo_silence : res unit * nstate := demo_survey 5 "b" demo_heard.2.
Definition demo_return : res unit * nstate := IngestMetric (demo_sources (minutes 9) "c") ($"d1") ($"old") (demo_metric (minutes 9)) demo_silence.2.

Lemma disconnect_exact_witness : demo_silence.1 = Ok tt /\ ev_Kind <$> ns_events demo_silence.2 = [kind_disconnected] /\
  ev_Kind <$> ns_events (demo_survey 31 "e" (demo_survey 16 "d" demo_return.2).2).2 = [kind_disconnected; kind_reconnected] /\
  exists l new, surveyed (demo_sources (minutes 5) "b") DefaultDaemonDisconnectAfter DefaultDaemonDisconnectNotificationCooldown (minutes 5) l demo_heard.2 demo_silence.2 new.
Proof.
  assert (Ho : demo_silence.1 = Ok tt) by (vm_compute; reflexivity). split; [exact Ho|]. split; [vm_compute; reflexivity|]. split; [vm_compute; reflexivity|].
  assert (He : demo_silence = (Ok tt, demo_silence.2)) by (rewrite <-Ho; apply surjective_pairing).
  destruct (disconnect_exact (D := ListDatabase) (demo_sources (minutes 5) "b") 0 0 None demo_heard.2 demo_silence.2 He) as (l & new & _ & _ & Hs & _).
  exists l, new. exact Hs.
Defined.
Lemma heartbeat_exact_witness : demo_return.1 = Ok tt /\ ev_Kind <$> ns_events demo_return.2 = [kind_disconnected; kind_reconnected] /\
  exists d sent quotas, admissible (demo_sources (minutes 9) "c") ($"d1") ($"old") (demo_metric (minutes 9)) demo_silence.2 d sent quotas.
Proof.
  pose proof (heartbeat_exact (D := ListDatabase) (demo_sources (minutes 9) "c") ($"d1") ($"old") (demo_metric (minutes 9)) demo_silence.2 _ _ (surjective_pairing _)) as [_ Hh].
  change (IngestMetric _ _ _ _ _) with demo_return in Hh. destruct (demo_return.1) as [[]|e] eqn:E; [|vm_compute in E; discriminate E].
  split; [reflexivity|]. split; [vm_compute; reflexivity|]. destruct Hh as (d & sent & quotas & v & Ha & _). exists d, sent, quotas. exact Ha.
Defined.
Definition demo_container (id name : string) : ContainerStatusInput := mkContainerStatusInput ($id) ($"docker") ($name) [] ($"running") [] [].
Definition demo_snapshot (now : Z) (ids : list string) (s : list_db) : res unit * list_db :=
  IngestContainerStatus (demo_call now "k") ($"d1") ($"old") ((fun id => demo_container id "web") <$> ids) [$" docker "] s.
(** A recreate: the new container takes the place of the old one. *)
Lemma snapshot_exact_witness :
  let out := demo_snapshot 2 ["new"%string] (demo_snapshot 1 ["old"%string] demo_db).2 in
  out.1 = Ok tt /\ (map_to_list (f_containers (t_feed (rows out.2)))).*1 = [($"d1", $"new")] /\
  exists d, t_daemons (rows (demo_snapshot 1 ["old"%string] demo_db).2) !! ($"d1") = Some d.
Proof.
  intros out. pose proof (snapshot_exact (D := ListDatabase) (demo_call 2 "k") ($"d1") ($"old") [demo_container "new" "web"] [$" docker "] (demo_snapshot 1 ["old"%string] demo_db).2 _ _ (surjective_pairing _)) as Hs.
  change (IngestContainerStatus _ _ _ _ _ _) with out in Hs. destruct (out.1) as [[]|e] eqn:E; [|vm_compute in E; discriminate E].
  split; [reflexivity|]. split; [vm_compute; reflexivity|]. destruct Hs as (d & covered & batch & g & Hd & _). exists d. exact Hd.
Defined.
Definition demo_lines : list LogInput := [mkLogInput ($"c1 ") (Some 5) ($"started"); mkLogInput ($"c1") (Some 6) ($"ready")].
Lemma logs_exact_witness :
  let out := IngestLogs (demo_sources 9 "l") ($"d1") ($"old") demo_lines demo_db in
  out.1 = Ok tt /\ exists d quotas lines, Forall2 (line_of d quotas 9) demo_lines lines.
Proof.
  intros out. pose proof (logs_exact (D := ListDatabase) (demo_sources 9 "l") ($"d1") ($"old") demo_lines demo_db _ _ (surjective_pairing _)) as Hl.
  change (IngestLogs _ _ _ _ _) with out in Hl. destruct (out.1) as [[]|e] eqn:E; [|vm_compute in E; discriminate E].
  split; [reflexivity|]. destruct Hl as (d & quotas & lines & _ & _ & _ & _ & _ & Hf & _). exists d, quotas, lines. exact Hf.
Defined.
(** A workspace that keeps data for a day. *)
Definition demo_keeper : Call :=
  mkCall (minutes 1500) (Ok []) (Ok []) (fun p => Ok p) (Some (mkWorkspaceClient (fun _ _ _ => Ok true) (fun _ => Ok {[ $"metrics_retention_days" := 1 ]}))).
Lemma retention_exact_witness :
  let out := PruneMetrics demo_keeper (ns_db demo_return.2) in
  out.1 = Ok tt /\ mt_SentAt <$> (map_to_list (f_metrics (t_feed (rows out.2)))).*2 = [] /\ clean demo_keeper (rows out.2) ($"ws").
Proof.
  intros out. assert (Ho : out.1 = Ok tt) by (vm_compute; reflexivity). split; [exact Ho|]. split; [vm_compute; reflexivity|].
  pose proof (proj2 (retention_exact (D := ListDatabase) demo_keeper (ns_db demo_return.2) _ _ (surjective_pairing _)) Ho) as Hc.
  destruct (t_daemons (rows out.2) !! ($"d1")) as [d|] eqn:E; [|vm_compute in E; discriminate E].
  replace ($"ws") with (dm_WorkspaceID d) by (vm_compute in E; injection E as <-; reflexivity). eapply Hc; [|exact E].
  intros w cutoff x. split_and!; eexists; reflexivity.
Defined.
Lemma reports_exact_witness :
  let out := ListMetrics (demo_call 9 "x") ($"ada") ($"d1") 0 None (ns_db demo_return.2) in
  exists l, out.1 = Ok l /\ mt_SentAt <$> l = [minutes 9; 0] /\ (List.length l <= 100)%nat.
Proof.
  intros out. destruct (out.1) as [l|e] eqn:E; [|vm_compute in E; discriminate E]. exists l. split; [reflexivity|].
  split; [vm_compute in E; injection E as <-; vm_compute; reflexivity|].
  apply (proj1 (reports_exact (D := ListDatabase) (demo_call 9 "x") ($"ada") ($"d1")) 0 None (ns_db demo_return.2) l out.2).
  change (out = (Ok l, out.2)). rewrite <-E. apply surjective_pairing.
Defined.
