(* ===== verification/Interleave.v ===== *)
(** * Interleave: calls that run_alone at the same time

    A call as the statements it issues, one after the other, on a state it shares with
    other calls; a statement is atomic, and the statements of other calls may come
    between any two. A call may also park until it is woken or gives up. The calls of
    a pool take their steps in any order. *)

From S2P Require Import Prelude GoStr.

Lemma omap_once {A B} (f : A -> option B) (l : list A) i j x y b :
  NoDup (omap f l) -> l !! i = Some x -> l !! j = Some y -> f x = Some b -> f y = Some b -> j = i.
Proof.
  revert i j. induction l as [|z l IH]; intros i j Hn Hi Hj Hx Hy; [done|].
  assert (Hin : forall k w, l !! k = Some w -> f w = Some b -> b ∈ omap f l).
  { intros k w Hk Hw. apply list_elem_of_omap. exists w. split; [by eapply list_elem_of_lookup_2|done]. }
  destruct i as [|i], j as [|j]; cbn in Hi, Hj, Hn; [done| | |].
  - injection Hi as ->. rewrite Hx in Hn. apply NoDup_cons in Hn as [Hn _]. by destruct Hn; eapply Hin.
  - injection Hj as ->. rewrite Hy in Hn. apply NoDup_cons in Hn as [Hn _]. by destruct Hn; eapply Hin.
  - f_equal. eapply IH; eauto. destruct (f z); [by apply NoDup_cons in Hn as [_ Hn]|done].
Qed.
(** What waiting for a wake-up takes from the state, when there is one. *)
Class Waiting (S : Type) := take_token : nat -> S -> option S.

Section prog.
Context {S : Type} `{!Waiting S}.
Inductive prog (A : Type) : Type :=
  | Done (r : res A)
  | Stmt (X : Type) (m : S -> X * S) (k : X -> prog A)
  | Park (w : nat) (k : bool -> prog A).
#[global] Arguments Done {_} _.
#[global] Arguments Stmt {_ _} _ _.
#[global] Arguments Park {_} _ _.
Fixpoint prog_bind {A B} (p : prog A) (f : A -> prog B) : prog B :=
  match p with
  | Done (Ok a) => f a
  | Done (Err e) => Done (Err e)
  | Stmt m k => Stmt m (fun x => prog_bind (k x) f)
  | Park w k => Park w (fun b => prog_bind (k b) f)
  end.
(** One statement that may fail. *)
Definition stmt {A} (m : S -> res A * S) : prog A := Stmt m Done.
Definition step {A} (m : S -> A * S) : prog A := Stmt m (fun a => Done (Ok a)).
Definition refuse (b : bool) (e : error) : prog unit := Done (guard b e).

(** A call alone. A park with no wake-up to take gives up. *)
Fixpoint run_alone {A} (p : prog A) (s : S) : res A * S :=
  match p with
  | Done r => (r, s)
  | Stmt m k => let '(x, s) := m s in run_alone (k x) s
  | Park w k => match take_token w s with Some s => run_alone (k true) s | None => run_alone (k false) s end
  end.

(** ** The steps of a pool *)

Inductive label := Next (i : nat) | Woken (i : nat).
Definition pool_step {A} (l : label) (c : S * list (prog A)) : option (S * list (prog A)) :=
  let '(s, ps) := c in
  match l with
  | Next i =>
      match ps !! i with
      | Some (Stmt m k) => let '(x, s) := m s in Some (s, <[i := k x]> ps)
      | Some (Park w k) => Some (s, <[i := k false]> ps)
      | _ => None
      end
  | Woken i =>
      match ps !! i with
      | Some (Park w k) => match take_token w s with Some s => Some (s, <[i := k true]> ps) | None => None end
      | _ => None
      end
  end.
Fixpoint pool_steps {A} (ls : list label) (c : S * list (prog A)) : option (S * list (prog A)) :=
  match ls with
  | [] => Some c
  | l :: ls => match pool_step l c with Some c => pool_steps ls c | None => None end
  end.

(** ** Reasoning *)

(** One step of the call at a place of the pool. *)
Definition moves {A} (s : S) (p : prog A) (s' : S) (p' : prog A) : Prop :=
  match p with
  | Done _ => False
  | Stmt m k => exists x, m s = (x, s') /\ p' = k x
  | Park w k => s' = s /\ p' = k false \/ take_token w s = Some s' /\ p' = k true
  end.
Lemma pool_step_moves {A} l s (ps : list (prog A)) s' ps' : pool_step l (s, ps) = Some (s', ps') ->
  exists i p p', ps !! i = Some p /\ moves s p s' p' /\ ps' = <[i := p']> ps.
Proof.
  unfold pool_step. destruct l as [i|i]; destruct (ps !! i) as [[r|X m k|w k]|] eqn:Ei; try done.
  - destruct (m s) as [x s1] eqn:Em. intros [= <- <-]. exists i, (Stmt m k), (k x). split_and!; [done| |done]. by exists x.
  - intros [= <- <-]. exists i, (Park w k), (k false). split_and!; [done| |done]. by left.
  - destruct (take_token w s) as [s1|] eqn:Et; [|done]. intros [= <- <-]. exists i, (Park w k), (k true). split_and!; [done| |done]. by right.
Qed.
(** Whatever every step of every call preserves holds throughout. *)
Lemma pool_invariant {A} (I : S -> list (prog A) -> Prop) ls s ps s' ps' :
  (forall s ps i p s' p', I s ps -> ps !! i = Some p -> moves s p s' p' -> I s' (<[i := p']> ps)) ->
  I s ps -> pool_steps ls (s, ps) = Some (s', ps') -> I s' ps'.
Proof.
  intros Hstep. revert s ps. induction ls as [|l ls IH]; intros s ps Hi; cbn [pool_steps]; [by intros [= <- <-]|].
  destruct (pool_step l (s, ps)) as [[s1 ps1]|] eqn:E; [|done]. apply IH.
  apply pool_step_moves in E as (i & p & p' & Hp & Hm & ->). by eapply Hstep.
Qed.

(** Every statement of a call relates the states around it so. *)
Fixpoint every (R : S -> S -> Prop) {A} (p : prog A) : Prop :=
  match p with
  | Done _ => True
  | Stmt m k => (forall s x s', m s = (x, s') -> R s s') /\ forall x, every R (k x)
  | Park w k => (forall s s', take_token w s = Some s' -> R s s') /\ forall b, every R (k b)
  end.
Lemma every_bind R {A B} (p : prog A) (f : A -> prog B) : every R p -> (forall a, every R (f a)) -> every R (prog_bind p f).
Proof.
  intros Hp Hf. induction p as [[a|e]|X m k IH|w k IH]; cbn in *; [apply Hf|done| |]; (split; [apply Hp|intros x; apply IH, Hp]).
Qed.
Lemma every_stmt R {A} (m : S -> res A * S) : (forall s r s', m s = (r, s') -> R s s') -> every R (stmt m).
Proof. by intros Hm. Qed.
Lemma every_step R {A} (m : S -> A * S) : (forall s r s', m s = (r, s') -> R s s') -> every R (step m).
Proof. by intros Hm. Qed.
Lemma every_refuse R b e : every R (refuse b e).
Proof. done. Qed.
Lemma every_done R {A} (r : res A) : every R (Done r).
Proof. done. Qed.
Lemma every_weaken (R R' : S -> S -> Prop) {A} (p : prog A) : (forall s s', R s s' -> R' s s') -> every R p -> every R' p.
Proof. intros HR Hp. induction p as [r|X m k IH|w k IH]; cbn in *; [done| |]; (split; [|intros x; apply IH, Hp]); intros; eapply HR, Hp; eassumption. Qed.
Lemma every_moves (R : S -> S -> Prop) {A} (p : prog A) s s' p' : (forall s, R s s) -> every R p -> moves s p s' p' -> R s s' /\ every R p'.
Proof.
  intros Hr Hp Hm. destruct p as [r|X m k|w k]; cbn in *; [done| |].
  - destruct Hm as (x & Hm & ->). split; [by eapply Hp|apply Hp].
  - destruct Hm as [[-> ->]|[Ht ->]]; (split; [|apply Hp]); [apply Hr|by eapply Hp].
Qed.
Lemma every_run_alone (R : S -> S -> Prop) {A} (p : prog A) s r s' : (forall s, R s s) -> (forall s1 s2 s3, R s1 s2 -> R s2 s3 -> R s1 s3) ->
  every R p -> run_alone p s = (r, s') -> R s s'.
Proof.
  intros Hr Ht. revert s. induction p as [r0|X m k IH|w k IH]; intros s Hp; cbn in *.
  - intros [= _ <-]. apply Hr.
  - destruct (m s) as [x s1] eqn:Em. intros Hk. destruct Hp as [Hm Hp]. eauto.
  - destruct Hp as [Hw Hp]. destruct (take_token w s) as [s1|] eqn:Et; intros Hk; [|by eapply IH]. eauto.
Qed.
(** Running one after the other. *)
Lemma run_alone_bind {A B} (p : prog A) (f : A -> prog B) s :
  run_alone (prog_bind p f) s = match run_alone p s with (Ok a, s) => run_alone (f a) s | (Err e, s) => (Err e, s) end.
Proof.
  revert s. induction p as [[a|e]|X m k IH|w k IH]; intros s; cbn; try done.
  - destruct (m s) as [x s1]. apply IH.
  - destruct (take_token w s); apply IH.
Qed.
End prog.
#[global] Arguments prog : clear implicits.
Notation "'await!' x ':=' m 'in' k" := (prog_bind m (fun x => k))
  (at level 10, x pattern, m at level 100, k at level 200, format "'[' 'await!'  x  ':='  m  'in' ']' '/' k") : go_scope.
#[export] Hint Resolve every_bind every_refuse every_done : go.
