(* ===== verification/CloudTerminalDB.v ===== *)
(** * CloudTerminalDB: the statements on terminal sessions

    What [internal/cloud/terminal.go] asks of the table of [database.TerminalSession]:
    an interface [TerminalDatabase], one operation for each form of statement gorm
    makes of it, with its laws; [update_sessions] answers gorm's [RowsAffected]. At
    the end they hold of the database of lists. *)

From S2P Require Import Prelude GoStr Config CloudDB CloudFeedDB.
Open Scope Z_scope.

Definition older {A} (at_ : A -> Z) (x y : A) : Prop := at_ x <= at_ y.
#[export] Instance older_dec {A} (at_ : A -> Z) x y : Decision (older at_ x y).
Proof. unfold older. apply _. Defined.
#[export] Instance older_trans {A} (at_ : A -> Z) : Transitive (older at_).
Proof. unfold older. intros x y z. lia. Qed.
#[export] Instance older_total {A} (at_ : A -> Z) : Total (older at_).
Proof. unfold older. intros x y. lia. Qed.
(** The rows of a table a condition holds of. *)
Definition matching (P : TerminalSession -> bool) (m : gmap str TerminalSession) : gmap str TerminalSession := filter (fun kv => P kv.2 = true) m.
Definition of_session (daemon id : str) (r : TerminalSession) : bool := bool_decide (ts_ID r = id) && bool_decide (ts_DaemonID r = daemon).

Class TerminalDatabase (D : Database) := {
  create_session : TerminalSession -> db -> (unit + db_error) * db;
  count_sessions : (TerminalSession -> bool) -> db -> (Z + db_error) * db;
  first_session : str -> str -> db -> (TerminalSession + db_error) * db;
  oldest_sessions : (TerminalSession -> bool) -> nat -> db -> (list TerminalSession + db_error) * db;
  newest_sessions : (TerminalSession -> bool) -> nat -> db -> (list TerminalSession + db_error) * db;
  update_sessions : (TerminalSession -> bool) -> (TerminalSession -> TerminalSession) -> db -> (Z + db_error) * db;
  delete_sessions : (TerminalSession -> bool) -> db -> (unit + db_error) * db;
}.
Class TerminalLaws (D : Database) (T : TerminalDatabase D) : Prop := {
  keyed_sessions : forall s id r, t_sessions (rows s) !! id = Some r -> ts_ID r = id;
  create_session_law r : changes (create_session r) (fun t _ t' => t_sessions t !! ts_ID r = None /\ t' = with_sessions <[ts_ID r := r]> t);
  count_sessions_law P : queries (count_sessions P) (fun t n => n = Z.of_nat (size (matching P (t_sessions t)))) (fun _ => False);
  first_session_law daemon id : queries (first_session daemon id)
    (fun t r => t_sessions t !! id = Some r /\ ts_DaemonID r = daemon) (fun t => forall r, t_sessions t !! id = Some r -> ts_DaemonID r <> daemon);
  oldest_sessions_law P limit : queries (oldest_sessions P limit)
    (fun t l => window (older ts_CreatedAt) (stored_in ts_ID (t_sessions t) P) limit l) (fun _ => False);
  newest_sessions_law P limit : queries (newest_sessions P limit)
    (fun t l => window (newer ts_CreatedAt) (stored_in ts_ID (t_sessions t) P) limit l) (fun _ => False);
  update_sessions_law P f : (forall r, ts_ID (f r) = ts_ID r) -> changes (update_sessions P f)
    (fun t n t' => n = Z.of_nat (size (matching P (t_sessions t))) /\ t' = with_sessions (update_where P f) t);
  delete_sessions_law P : changes (delete_sessions P) (fun t _ t' => t' = with_sessions (filter (fun kv => P kv.2 = false)) t);
}.

(** ** The database of lists *)

#[export] Instance ListTerminals : TerminalDatabase ListDatabase := {
  create_session r s := if bool_decide (t_sessions (list_rows s) !! ts_ID r = None) then done_ tt (set_ld_sessions (r :: ld_sessions s) s) else refused s;
  count_sessions P s := done_ (Z.of_nat (size (matching P (t_sessions (list_rows s))))) s;
  first_session daemon id s :=
    ask (match t_sessions (list_rows s) !! id with Some r => if bool_decide (ts_DaemonID r = daemon) then Some r else None | None => None end) s;
  oldest_sessions P limit s := done_ (in_order (older ts_CreatedAt) P limit (live ts_ID (ld_sessions s))) s;
  newest_sessions P limit s := done_ (in_order (newer ts_CreatedAt) P limit (live ts_ID (ld_sessions s))) s;
  update_sessions P f s :=
    done_ (Z.of_nat (size (matching P (t_sessions (list_rows s))))) (set_ld_sessions (change P f (ld_sessions s)) s);
  delete_sessions P s := done_ tt (set_ld_sessions (filter (fun r => P r = false) (live ts_ID (ld_sessions s))) s);
}.
#[export] Instance ListTerminalLaws : TerminalLaws ListDatabase ListTerminals.
Proof.
  split.
  - intros s id r Hr. by apply by_key_key in Hr.
  - intros r s res s'. cbn. case_bool_decide; by intros [= <- <-].
  - by intros P s r s' [= <- <-].
  - intros daemon id s r s' [= <- <-]. split; [done|]. cbn. destruct (by_key ts_ID (ld_sessions s) !! id) as [q|]; [|done].
    cbn. case_bool_decide as Hq; cbn; [done|]. by intros q' [= <-].
  - intros P limit s r s' [= <- <-]. split; [done|]. apply window_in_order; apply _.
  - intros P limit s r s' [= <- <-]. split; [done|]. apply window_in_order; apply _.
  - intros P f Hf s r s' [= <- <-]. split; [done|]. unfold rows, ListDatabase, list_rows, with_sessions, set_ld_sessions, change.
    cbn [ld_daemons ld_actions ld_requests ld_credentials ld_feed ld_sessions t_daemons t_actions t_requests t_credentials t_feed t_sessions].
    by rewrite (by_key_update ts_ID P f).
  - intros P s r s' [= <- <-]. unfold rows, ListDatabase, list_rows, with_sessions, set_ld_sessions.
    cbn [ld_daemons ld_actions ld_requests ld_credentials ld_feed ld_sessions t_daemons t_actions t_requests t_credentials t_feed t_sessions].
    by rewrite (by_key_live_filter ts_ID _ (fun r => P r = false)).
Qed.
