(* ===== verification/CloudTerminal.v ===== *)
(** * CloudTerminal: relayed terminal sessions, as the cloud keeps them

    [internal/cloud/terminal.go]: the life of a session, from the ticket a browser
    gets to the end of its sockets, and the long poll through which a daemon picks
    sessions up. The calls are programs of [Interleave]: requests are served at the
    same time, a statement of one may come between two of another. They share the
    database and the table of waiters in the memory of the service. *)

From S2P Require Import Prelude GoStr Regex Base64 Config Alarms CloudDB CloudFeedDB Cloud Interleave CloudTerminalDB.
Open Scope Z_scope.

(** ** The life of a session *)

Definition terminalStatusPending : str := $"pending".
Definition terminalStatusOffered : str := $"offered".
Definition terminalStatusActive : str := $"active".
Definition terminalStatusClosed : str := $"closed".
Definition terminalStatusFailed : str := $"failed".
Definition terminalStatusesLive : list str := [terminalStatusPending; terminalStatusOffered; terminalStatusActive].
Definition terminalStatusesOver : list str := [terminalStatusClosed; terminalStatusFailed].
Definition seconds (n : Z) : Z := n * 1000000000.
Definition terminalTicketTTL : Z := seconds 60.
Definition terminalLeaseDuration : Z := seconds 90.
Definition terminalPendingExpiry : Z := seconds (3 * 60).
Definition terminalRetention : Z := seconds (7 * 24 * 3600).
Definition terminalActiveMaxAge : Z := seconds (24 * 3600).
Definition terminalDefaultWorkspaceSessions : Z := 4.
Definition terminalQuotaKey : string := "terminal_sessions".
Definition terminalPendingLimit : nat := 8.
Definition cloudTmuxName : regex :=
  RCat (cls [rng "A" "Z"; rng "a" "z"; rng "0" "9"]) (upto (cls [rng "A" "Z"; rng "a" "z"; rng "0" "9"; one "_.-"]) 39).

Definition is_live (r : TerminalSession) : bool := bool_decide (ts_Status r ∈ terminalStatusesLive).
Definition is_over (r : TerminalSession) : bool := bool_decide (ts_Status r ∈ terminalStatusesOver).

(** The columns the updates set. *)
Definition set_ticket (hash : str) (now : Z) (r : TerminalSession) : TerminalSession :=
  mkTerminalSession (ts_ID r) (ts_DaemonID r) (ts_WorkspaceID r) (ts_AccountID r) (ts_InvokedBy r) (ts_Shell r) (ts_User r) (ts_Tmux r)
    (ts_Columns r) (ts_Rows r) hash (ts_Status r) (ts_LeasedAt r) (ts_StartedAt r) (ts_EndedAt r) (ts_ExitCode r) (ts_Error r)
    (ts_BytesIn r) (ts_BytesOut r) (ts_CreatedAt r) now.
Definition set_offer (status : str) (leased : option Z) (now : Z) (r : TerminalSession) : TerminalSession :=
  mkTerminalSession (ts_ID r) (ts_DaemonID r) (ts_WorkspaceID r) (ts_AccountID r) (ts_InvokedBy r) (ts_Shell r) (ts_User r) (ts_Tmux r)
    (ts_Columns r) (ts_Rows r) (ts_TicketHash r) status leased (ts_StartedAt r) (ts_EndedAt r) (ts_ExitCode r) (ts_Error r)
    (ts_BytesIn r) (ts_BytesOut r) (ts_CreatedAt r) now.
Definition set_active (now : Z) (r : TerminalSession) : TerminalSession :=
  mkTerminalSession (ts_ID r) (ts_DaemonID r) (ts_WorkspaceID r) (ts_AccountID r) (ts_InvokedBy r) (ts_Shell r) (ts_User r) (ts_Tmux r)
    (ts_Columns r) (ts_Rows r) (ts_TicketHash r) terminalStatusActive (ts_LeasedAt r) (Some now) (ts_EndedAt r) (ts_ExitCode r) (ts_Error r)
    (ts_BytesIn r) (ts_BytesOut r) (ts_CreatedAt r) now.
Definition set_end (status : str) (code : Z) (error : str) (bytesIn bytesOut now : Z) (r : TerminalSession) : TerminalSession :=
  mkTerminalSession (ts_ID r) (ts_DaemonID r) (ts_WorkspaceID r) (ts_AccountID r) (ts_InvokedBy r) (ts_Shell r) (ts_User r) (ts_Tmux r)
    (ts_Columns r) (ts_Rows r) (ts_TicketHash r) status (ts_LeasedAt r) (ts_StartedAt r) (Some now) code error
    bytesIn bytesOut (ts_CreatedAt r) now.
Definition set_failed (error : str) (now : Z) (r : TerminalSession) : TerminalSession :=
  set_end terminalStatusFailed (ts_ExitCode r) error (ts_BytesIn r) (ts_BytesOut r) now r.
Definition set_closed (now : Z) (r : TerminalSession) : TerminalSession :=
  set_end terminalStatusClosed (ts_ExitCode r) (ts_Error r) (ts_BytesIn r) (ts_BytesOut r) now r.

Record TerminalTicket := mkTerminalTicket { tt_SessionID : str; tt_Ticket : str; tt_ExpiresAt : Z; tt_DaemonID : str }.
Record TerminalSessionView := mkTerminalSessionView {
  sv_ID : str; sv_DaemonID : str; sv_InvokedBy : str; sv_Shell : str; sv_User : str; sv_Tmux : str; sv_Cols : Z; sv_Rows : Z;
  sv_Status : str; sv_ExitCode : Z; sv_Error : str; sv_BytesIn : Z; sv_BytesOut : Z; sv_StartedAt : option Z; sv_EndedAt : option Z;
  sv_CreatedAt : Z;
}.
Definition viewTerminalSession (r : TerminalSession) : TerminalSessionView :=
  mkTerminalSessionView (ts_ID r) (ts_DaemonID r) (ts_InvokedBy r) (ts_Shell r) (ts_User r) (ts_Tmux r) (ts_Columns r) (ts_Rows r)
    (ts_Status r) (ts_ExitCode r) (ts_Error r) (ts_BytesIn r) (ts_BytesOut r) (ts_StartedAt r) (ts_EndedAt r) (ts_CreatedAt r).
(** What a call asks for beyond [Call]: [uuid.NewString], and 32 bytes of [rand.Read]. *)
Record TerminalSource := mkTerminalSource { tm_call : Call; tm_uuid : str; tm_random : res str }.
Definition newTerminalTicket (src : TerminalSource) : res str :=
  match tm_random src with Ok buf => Ok (RawURL_Encode buf) | Err e => Err e end.

(** ** The waiters

    A waiter is a channel with room for one token; the table holds pointers to them. *)

Record terminalWaiter := mkWaiter { w_ch : bool; w_at : Z }.
Record waiters := mkWaiters { wt_heap : list terminalWaiter; wt_map : gmap str nat }.
Definition set_token (token : bool) (w : terminalWaiter) : terminalWaiter := mkWaiter token (w_at w).
Definition wakeTerminalWaiters (daemonID : str) (ws : waiters) : waiters :=
  match wt_map ws !! daemonID with
  | Some p => mkWaiters (alter (set_token true) p (wt_heap ws)) (wt_map ws)
  | None => ws
  end.
(** The registration of [TerminalWait]. *)
Definition registerWait (daemonID : str) (now : Z) (ws : waiters) : nat * waiters :=
  match wt_map ws !! daemonID with
  | None => let p := List.length (wt_heap ws) in (p, mkWaiters (wt_heap ws ++ [mkWaiter false now]) (<[daemonID := p]> (wt_map ws)))
  | Some p => (p, mkWaiters (alter (fun w => mkWaiter (w_ch w) now) p (wt_heap ws)) (wt_map ws))
  end.
Definition quiet_since (cutoff : Z) (heap : list terminalWaiter) (p : nat) : bool :=
  match heap !! p with Some w => w_at w <? cutoff | None => false end.
Definition releaseTerminalWait (daemonID : str) (p : nat) (now : Z) (ws : waiters) : waiters :=
  let m := if bool_decide (wt_map ws !! daemonID = Some p) then delete daemonID (wt_map ws) else wt_map ws in
  let m := if 10000 <? Z.of_nat (size m) then filter (fun kv => quiet_since (now - seconds 3600) (wt_heap ws) kv.2 = false) m else m in
  mkWaiters (wt_heap ws) m.

Section terminal.
Context `{TerminalDatabase, Crypto}.
Record cstate := mkCState { cs_db : db; cs_wait : waiters }.
#[export] Instance cstate_waiting : Waiting cstate := fun p s =>
  match wt_heap (cs_wait s) !! p with
  | Some w => if w_ch w then Some (mkCState (cs_db s) (mkWaiters (<[p := set_token false w]> (wt_heap (cs_wait s))) (wt_map (cs_wait s)))) else None
  | None => None
  end.
Notation P := (prog cstate).
(** One statement on the database, and one step on the waiters. *)
Definition db_stmt {A} (m : M A) : P A := stmt (fun s => let '(r, d) := m (cs_db s) in (r, mkCState d (cs_wait s))).
Definition wait_step {A} (f : waiters -> A * waiters) : P A := step (fun s => let '(a, w) := f (cs_wait s) in (a, mkCState (cs_db s) w)).
Definition hashTerminalTicket (ticket : str) : str := sha256_hex ticket.

(** ** Creating *)

Definition checked_session (shell user tmux : str) (cols rows : Z) : res (str * str * str) :=
  let? _ := guard ((cols <? 0) || (1000 <? cols)) (Errorf "cols must be between 0 and 1000" []) in
  let? _ := guard ((rows <? 0) || (500 <? rows)) (Errorf "rows must be between 0 and 500" []) in
  let shell := TrimSpace shell in let user := TrimSpace user in let tmux := TrimSpace tmux in
  let? _ := guard (1024 <? Z.of_nat (List.length shell)) (Errorf "shell must be at most 1024 bytes" []) in
  let? _ := guard (64 <? Z.of_nat (List.length user)) (Errorf "user must be at most 64 bytes" []) in
  let? _ := guard (64 <? Z.of_nat (List.length tmux)) (Errorf "tmux must match [A-Za-z0-9][A-Za-z0-9_.-]{0,39}" []) in
  let? _ := guard (negb (bool_decide (tmux = [])) && negb (matches cloudTmuxName tmux)) (Errorf "tmux must match [A-Za-z0-9][A-Za-z0-9_.-]{0,39}" []) in
  Ok (shell, user, tmux).
Definition session_limit (quotas : gmap str Z) : Z :=
  let limit := dimension quotas terminalQuotaKey in if limit <=? 0 then terminalDefaultWorkspaceSessions else limit.
Definition live_in (workspace : str) (r : TerminalSession) : bool := bool_decide (ts_WorkspaceID r = workspace) && is_live r.
Definition new_session (src : TerminalSource) (d : Daemon) (accountID invokedBy shell user tmux : str) (cols rows : Z) (ticket : str) : TerminalSession :=
  let now := c_now (tm_call src) in
  mkTerminalSession (tm_uuid src) (dm_ID d) (dm_WorkspaceID d) accountID invokedBy shell user tmux cols rows (hashTerminalTicket ticket)
    terminalStatusPending None None None 0 [] 0 0 now now.
Definition CreateTerminalSession (src : TerminalSource) (accountID daemonID invokedBy shell user tmux : str) (cols rows : Z) : P TerminalTicket :=
  let c := tm_call src in
  await! d := db_stmt (daemonForAccount c accountID daemonID) in
  await! _ := refuse (negb (dm_TerminalRelayEnabled d)) ErrForbidden in
  await! checked := Done (checked_session shell user tmux cols rows) in
  let '(shell, user, tmux) := checked in
  await! quotas := Done (workspaceQuota c (dm_WorkspaceID d)) in
  await! live := db_stmt (exec (count_sessions (live_in (dm_WorkspaceID d)))) in
  await! _ := refuse (session_limit quotas <=? live) ErrRateLimited in
  await! ticket := Done (match newTerminalTicket src with Ok ticket => Ok ticket | Err e => Err (Errorf "mint terminal ticket: %w" [FErr e]) end) in
  await! _ := db_stmt (exec (create_session (new_session src d accountID invokedBy shell user tmux cols rows ticket))) in
  await! _ := wait_step (fun ws => (tt, wakeTerminalWaiters (dm_ID d) ws)) in
  Done (Ok (mkTerminalTicket (tm_uuid src) ticket (c_now c + terminalTicketTTL) (dm_ID d))).

(** ** The browser's handshake *)

Definition ticket_error (r : TerminalSession) (now : Z) (ticket : str) : bool :=
  negb (is_live r) || (ts_CreatedAt r + terminalTicketTTL <? now) || bool_decide (ts_TicketHash r = []) ||
  negb (bool_decide (hashTerminalTicket ticket = ts_TicketHash r)).
(** [id = ? AND ticket_hash = ?] *)
Definition with_ticket (id hash : str) (r : TerminalSession) : bool := bool_decide (ts_ID r = id) && bool_decide (ts_TicketHash r = hash).
Definition AuthenticateTerminalTicket (src : TerminalSource) (daemonID sessionID ticket : str) : P TerminalSessionView :=
  let now := c_now (tm_call src) in
  let sessionID := TrimSpace sessionID in
  await! _ := refuse (bool_decide (sessionID = []) || bool_decide (ticket = [])) ErrUnauthorized in
  await! row := db_stmt (sql ErrUnauthorized (first_session daemonID sessionID)) in
  await! _ := refuse (ticket_error row now ticket) ErrUnauthorized in
  await! affected := db_stmt (exec (update_sessions (with_ticket (ts_ID row) (ts_TicketHash row)) (set_ticket [] now))) in
  await! _ := refuse (affected =? 0) ErrUnauthorized in
  Done (Ok (viewTerminalSession (set_ticket [] (ts_UpdatedAt row) row))).

(** ** The daemon's pickup *)

Definition lease_expired (daemonID : str) (now : Z) (r : TerminalSession) : bool :=
  bool_decide (ts_DaemonID r = daemonID) && bool_decide (ts_Status r = terminalStatusOffered) &&
  match ts_LeasedAt r with Some at_ => at_ <? now - terminalLeaseDuration | None => false end.
Definition waiting_for (daemonID : str) (now : Z) (r : TerminalSession) : bool :=
  bool_decide (ts_DaemonID r = daemonID) && bool_decide (ts_Status r = terminalStatusPending) && (now - terminalPendingExpiry <? ts_CreatedAt r).
Definition still_pending (daemonID : str) (ids : list str) (r : TerminalSession) : bool :=
  bool_decide (ts_DaemonID r = daemonID) && bool_decide (ts_ID r ∈ ids) && bool_decide (ts_Status r = terminalStatusPending).
Definition offered (now : Z) (r : TerminalSession) : TerminalSession := set_offer terminalStatusOffered (Some now) (ts_UpdatedAt r) r.
Definition unauthorized {A} (r : res A) : res A := match r with Ok a => Ok a | Err _ => Err ErrUnauthorized end.
Definition with_daemon (daemonID secret : str) : P Daemon :=
  db_stmt (fun s => let '(r, s) := authenticateDaemon daemonID secret s in (unauthorized r, s)).
Definition ListPendingTerminalSessions (src : TerminalSource) (daemonID secret : str) : P (list TerminalSessionView) :=
  let now := c_now (tm_call src) in
  await! _ := with_daemon daemonID secret in
  await! _ := db_stmt (exec (update_sessions (lease_expired daemonID now) (set_offer terminalStatusPending None now))) in
  await! found := db_stmt (exec (oldest_sessions (waiting_for daemonID now) terminalPendingLimit)) in
  if bool_decide (found = []) then Done (Ok [])
  else
    await! _ := db_stmt (exec (update_sessions (still_pending daemonID (ts_ID <$> found)) (set_offer terminalStatusOffered (Some now) now))) in
    Done (Ok (viewTerminalSession ∘ offered now <$> found)).
(** [internal/handler/terminal.go]: the long poll. Each use of the clock has its own
    source; the wait has been parsed, at most thirty seconds. *)
Definition terminalMaxWait : Z := seconds 30.
Definition park (daemonID : str) (p : nat) (now wait : Z) : P bool :=
  let released (woken : bool) : P bool :=
    await! _ := wait_step (fun ws => (tt, releaseTerminalWait daemonID p now ws)) in Done (Ok woken) in
  if wait <=? 0 then released false else Park p released.
Definition listPendingTerminalSessions (registered before after : TerminalSource) (daemonID secret : str) (wait : Z) : P (list TerminalSessionView) :=
  let wait := Z.min wait terminalMaxWait in
  await! p := wait_step (registerWait daemonID (c_now (tm_call registered))) in
  await! sessions := ListPendingTerminalSessions before daemonID secret in
  if bool_decide (sessions = []) && (0 <? wait) then
    await! _ := park daemonID p (c_now (tm_call after)) wait in
    ListPendingTerminalSessions after daemonID secret
  else
    await! _ := park daemonID p (c_now (tm_call after)) 0 in
    Done (Ok sessions).

(** ** Attaching and ending *)

Definition with_id (id : str) (r : TerminalSession) : bool := bool_decide (ts_ID r = id).
Definition live_with (id : str) (r : TerminalSession) : bool := with_id id r && is_live r.
Definition AttachTerminalAgent (src : TerminalSource) (daemonID secret sessionID : str) : P TerminalSessionView :=
  let now := c_now (tm_call src) in
  await! _ := with_daemon daemonID secret in
  let sessionID := TrimSpace sessionID in
  await! _ := refuse (bool_decide (sessionID = [])) ErrNotFound in
  await! row := db_stmt (sql ErrNotFound (first_session daemonID sessionID)) in
  await! _ := refuse (negb (is_live row)) ErrNotFound in
  if negb (bool_decide (ts_Status row = terminalStatusActive)) || negb (is_Some_b (ts_StartedAt row)) then
    await! _ := db_stmt (exec (update_sessions (with_id (ts_ID row)) (set_active now))) in
    Done (Ok (viewTerminalSession (set_active now row)))
  else Done (Ok (viewTerminalSession row)).
Definition FinishTerminalSession (now : Z) (sessionID status : str) (exitCode : Z) (failure : str) (bytesIn bytesOut : Z) : P unit :=
  await! _ := refuse (negb (bool_decide (status ∈ terminalStatusesOver))) (Errorf "invalid terminal status %q" [FStr status]) in
  await! _ := db_stmt (exec (update_sessions (live_with sessionID) (set_end status exitCode (take 512 failure) bytesIn bytesOut now))) in
  Done (Ok tt).
Definition sessions_limit (limit : Z) : Z := let limit := if limit <=? 0 then 50 else limit in if 100 <? limit then 100 else limit.
Definition ListTerminalSessions (src : TerminalSource) (accountID daemonID : str) (limit : Z) : P (list TerminalSessionView) :=
  await! _ := db_stmt (daemonForAccount (tm_call src) accountID daemonID) in
  await! found := db_stmt (exec (newest_sessions (fun r => bool_decide (ts_DaemonID r = daemonID)) (Z.to_nat (sessions_limit limit)))) in
  Done (Ok (viewTerminalSession <$> found)).
Definition CloseTerminalSession (src : TerminalSource) (accountID daemonID sessionID : str) : P unit :=
  await! _ := db_stmt (daemonForAccount (tm_call src) accountID daemonID) in
  await! row := db_stmt (sql ErrNotFound (first_session daemonID sessionID)) in
  if is_over row then Done (Ok tt)
  else
    await! _ := db_stmt (exec (update_sessions (live_with (ts_ID row)) (set_closed (c_now (tm_call src))))) in
    Done (Ok tt).
Definition never_attached (now : Z) (r : TerminalSession) : bool :=
  bool_decide (ts_Status r ∈ [terminalStatusPending; terminalStatusOffered]) && (ts_CreatedAt r <? now - terminalPendingExpiry).
Definition stale_active (now : Z) (r : TerminalSession) : bool :=
  bool_decide (ts_Status r = terminalStatusActive) && (default (ts_CreatedAt r) (ts_StartedAt r) <? now - terminalActiveMaxAge).
Definition past_retention (now : Z) (r : TerminalSession) : bool := is_over r && (ts_UpdatedAt r <? now - terminalRetention).
Definition SweepTerminalSessions (now : Z) : P unit :=
  await! _ := db_stmt (exec (update_sessions (never_attached now) (set_failed ($"not picked up") now))) in
  await! _ := db_stmt (exec (update_sessions (stale_active now) (set_failed ($"stale session") now))) in
  await! _ := db_stmt (exec (delete_sessions (past_retention now))) in
  Done (Ok tt).

(** ** A call *)

Inductive terminal_call :=
  | CCreate (src : TerminalSource) (accountID daemonID invokedBy shell user tmux : str) (cols rows : Z)
  | CTicket (src : TerminalSource) (daemonID sessionID ticket : str)
  | CPickup (registered before after : TerminalSource) (daemonID secret : str) (wait : Z)
  | CAttach (src : TerminalSource) (daemonID secret sessionID : str)
  | CFinish (now : Z) (sessionID status : str) (exitCode : Z) (failure : str) (bytesIn bytesOut : Z)
  | CList (src : TerminalSource) (accountID daemonID : str) (limit : Z)
  | CClose (src : TerminalSource) (accountID daemonID sessionID : str)
  | CSweep (now : Z).
Inductive terminal_answer := ATicket (t : TerminalTicket) | AView (v : TerminalSessionView) | AViews (l : list TerminalSessionView) | ADone.
Definition answering {A} (f : A -> terminal_answer) (p : P A) : P terminal_answer := await! a := p in Done (Ok (f a)).
Definition serve (c : terminal_call) : P terminal_answer :=
  match c with
  | CCreate src accountID daemonID invokedBy shell user tmux cols rows =>
      answering ATicket (CreateTerminalSession src accountID daemonID invokedBy shell user tmux cols rows)
  | CTicket src daemonID sessionID ticket => answering AView (AuthenticateTerminalTicket src daemonID sessionID ticket)
  | CPickup registered before after daemonID secret wait =>
      answering AViews (listPendingTerminalSessions registered before after daemonID secret wait)
  | CAttach src daemonID secret sessionID => answering AView (AttachTerminalAgent src daemonID secret sessionID)
  | CFinish now sessionID status exitCode failure bytesIn bytesOut =>
      answering (fun _ => ADone) (FinishTerminalSession now sessionID status exitCode failure bytesIn bytesOut)
  | CList src accountID daemonID limit => answering AViews (ListTerminalSessions src accountID daemonID limit)
  | CClose src accountID daemonID sessionID => answering (fun _ => ADone) (CloseTerminalSession src accountID daemonID sessionID)
  | CSweep now => answering (fun _ => ADone) (SweepTerminalSessions now)
  end.
End terminal.
