(* ===== verification/CloudTerminalFacts.v ===== *)
(** * CloudTerminalFacts: tickets, leases and the life of a terminal session

    The theorems of [CloudTerminal]: what creating a session takes and does, that a
    ticket opens one socket however the handshakes interleave, how a session lives
    when calls come one after the other and what their interleaving can break, and
    what the pickup leases. *)

From S2P Require Import Prelude GoStr Regex GoMatch Base64 Config Alarms CloudDB CloudFeedDB Cloud CloudFacts Interleave CloudTerminalDB CloudTerminal.
Open Scope Z_scope.

Section facts.
Context `{D : Database} `{L : !DatabaseLaws D} `{T : !TerminalDatabase D} `{TL : !TerminalLaws D T} `{Crypto}.
Implicit Types (s : cstate) (t : tables).
Notation P := (prog cstate).
Definition crows s : tables := rows (cs_db s).

(** ** What a call can do to a session *)

(** What of a session never changes. *)
Definition identity r : str * str * str * str * (str * str * str * str) * (Z * Z * Z) :=
  (ts_ID r, ts_DaemonID r, ts_WorkspaceID r, ts_AccountID r, (ts_InvokedBy r, ts_Shell r, ts_User r, ts_Tmux r),
   (ts_Columns r, ts_Rows r, ts_CreatedAt r)).
Definition same_session r r' : Prop := identity r' = identity r /\ (ts_TicketHash r' = ts_TicketHash r \/ ts_TicketHash r' = []).
(** Sessions go on or go away; at most the one named appears. *)
Record evolves (new : option str) t t' : Prop := {
  ev_rest : exists g, t' = with_sessions g t;
  ev_rows : forall id r', t_sessions t' !! id = Some r' ->
    (exists r, t_sessions t !! id = Some r /\ same_session r r') \/ new = Some id /\ t_sessions t !! id = None;
}.
Definition steps_by (R : tables -> tables -> Prop) s s' : Prop := R (crows s) (crows s').
Notation steps_as new := (steps_by (evolves new)).
Lemma same_session_refl r : same_session r r.
Proof. split; [done|by left]. Qed.
Lemma same_session_id r r' : same_session r r' -> ts_ID r' = ts_ID r.
Proof. by intros [[=] _]. Qed.
#[export] Instance evolves_refl new : Reflexive (evolves new).
Proof. intros t. split; [exists (fun m => m); by destruct t|]. intros id r' Hr. left. exists r'. split; [done|apply same_session_refl]. Qed.
Lemma evolves_sessions g t : (forall id r', g (t_sessions t) !! id = Some r' -> exists r, t_sessions t !! id = Some r /\ same_session r r') ->
  evolves None t (with_sessions g t).
Proof. intros Hg. split; [by exists g|]. intros id r' Hr. left. by apply Hg. Qed.
Lemma evolves_update Q f t : (forall r, same_session r (f r)) -> evolves None t (with_sessions (update_where Q f) t).
Proof.
  intros Hf. apply evolves_sessions. intros id r'. unfold update_where. rewrite lookup_fmap, fmap_Some. intros (r & Hr & ->).
  exists r. split; [done|]. destruct (Q r); [apply Hf|apply same_session_refl].
Qed.
Lemma evolves_delete Q t : evolves None t (with_sessions (filter (fun kv => Q kv.2 = false)) t).
Proof. apply evolves_sessions. intros id r' [Hr _]%map_lookup_filter_Some. exists r'. split; [done|apply same_session_refl]. Qed.
Lemma evolves_eq new t t' : t' = t -> evolves new t t'.
Proof. intros ->. reflexivity. Qed.
(** The statements of the calls, for a relation of what may become of the tables. *)
Lemma db_stmt_every R {A} (m : M A) : (forall x r x', m x = (r, x') -> R (rows x) (rows x')) -> every (steps_by R) (db_stmt m).
Proof.
  intros Hm. apply every_stmt. intros s r s'. destruct (m (cs_db s)) as [r0 d] eqn:E. intros [= <- <-]. by eapply Hm.
Qed.
Section statements.
Context (R : tables -> tables -> Prop) {HR : Reflexive R}.
Lemma every_reads {A} (m : M A) : reads m -> every (steps_by R) (db_stmt m).
Proof. intros Hm. apply db_stmt_every. intros x r x' Hx. rewrite (Hm _ _ _ Hx). apply HR. Qed.
Lemma every_query {A} missing (m : db -> (A + db_error) * db) answers none : queries m answers none -> every (steps_by R) (db_stmt (sql missing m)).
Proof. intros Hq. by eapply every_reads, reads_sql. Qed.
Lemma every_change {A} missing (m : db -> (A + db_error) * db) effect : changes m effect -> (forall t a t', effect t a t' -> R t t') -> every (steps_by R) (db_stmt (sql missing m)).
Proof.
  intros Hc He. apply db_stmt_every. intros x r x' Hx. apply (sql_change _ _ _ _ _ _ Hc) in Hx. destruct r; [by eapply He|]. rewrite Hx. apply HR.
Qed.
Lemma every_update Q f : (forall r, ts_ID (f r) = ts_ID r) -> (forall t, R t (with_sessions (update_where Q f) t)) -> every (steps_by R) (db_stmt (exec (update_sessions Q f))).
Proof. intros Hf HQ. eapply every_change; [by apply update_sessions_law|]. intros t n t' [_ ->]. apply HQ. Qed.
Lemma every_delete Q : (forall t, R t (with_sessions (filter (fun kv => Q kv.2 = false)) t)) -> every (steps_by R) (db_stmt (exec (delete_sessions Q))).
Proof. intros HQ. eapply every_change; [apply delete_sessions_law|]. intros t n t' ->. apply HQ. Qed.
Lemma every_create q : (forall t, t_sessions t !! ts_ID q = None -> R t (with_sessions <[ts_ID q := q]> t)) -> every (steps_by R) (db_stmt (exec (create_session q))).
Proof. intros HQ. eapply every_change; [apply create_session_law|]. intros t n t' [Hn ->]. by apply HQ. Qed.
Lemma every_wait {A} (f : waiters -> A * waiters) : every (steps_by R) (wait_step f).
Proof. apply every_step. intros s r s'. destruct (f (cs_wait s)) as [a w]. intros [= <- <-]. apply HR. Qed.
Lemma every_with_daemon id secret : every (steps_by R) (with_daemon id secret).
Proof.
  apply every_reads. intros x r x'. destruct (authenticateDaemon id secret x) as [r0 x0] eqn:E. intros [= <- <-].
  by eapply reads_authenticate.
Qed.
Lemma every_first missing daemon id : every (steps_by R) (db_stmt (sql missing (first_session daemon id))).
Proof. eapply every_query, first_session_law. Qed.
Lemma every_account c account id : every (steps_by R) (db_stmt (daemonForAccount c account id)).
Proof. apply every_reads, reads_daemonForAccount. Qed.
Lemma every_park_token p {A} (k : bool -> P A) : (forall b, every (steps_by R) (k b)) -> every (steps_by R) (Park p k).
Proof.
  intros Hk. split; [|done]. intros s s'. unfold take_token, cstate_waiting. destruct (_ !! _) as [w|]; [|done]. destruct (w_ch w); [|done]. intros [= <-]. apply HR.
Qed.
End statements.
Hint Extern 0 (Reflexive _) => typeclasses eauto : go.
Hint Resolve every_wait every_with_daemon every_first every_account evolves_update evolves_delete : go.
(** Open a call into its statements. *)
Ltac every_call :=
  repeat first
    [ apply every_done | apply every_refuse
    | apply every_bind; [|intros ?]
    | solve [auto with go]
    | apply every_update; [typeclasses eauto|done|intros ?; solve [auto with go]]
    | apply every_delete; [typeclasses eauto|intros ?; solve [auto with go]]
    | apply every_park_token; [typeclasses eauto|intros ?]
    | eapply every_query; [typeclasses eauto|first [apply count_sessions_law|apply oldest_sessions_law|apply newest_sessions_law]]
    | progress cbv zeta | case_match ].
Hint Extern 1 (same_session _ _) => (split; [done|first [by left|by right]]) : go.
Lemma every_pending src daemon secret : every (steps_as None) (ListPendingTerminalSessions src daemon secret).
Proof. unfold ListPendingTerminalSessions. every_call. Qed.
Lemma every_park daemon p now wait : every (steps_as None) (park daemon p now wait).
Proof. unfold park. every_call. Qed.
Lemma evolves_create q t : t_sessions t !! ts_ID q = None -> evolves (Some (ts_ID q)) t (with_sessions <[ts_ID q := q]> t).
Proof.
  intros Hn. split; [by exists <[ts_ID q := q]>|]. cbn. intros id r' [[<- <-]|[_ Hr]]%lookup_insert_Some; [by right|left].
  exists r'. split; [done|apply same_session_refl].
Qed.
Hint Resolve every_pending every_park : go.
Lemma every_ticket src daemon session ticket : every (steps_as None) (AuthenticateTerminalTicket src daemon session ticket).
Proof. unfold AuthenticateTerminalTicket. every_call. Qed.
Lemma every_serve c : match c with CCreate _ _ _ _ _ _ _ _ _ => True | _ => every (steps_as None) (serve c) end.
Proof.
  destruct c; cbn [serve]; try done; apply every_bind; try done.
  - apply every_ticket.
  - unfold listPendingTerminalSessions. every_call.
  - unfold AttachTerminalAgent. every_call.
  - unfold FinishTerminalSession. every_call.
  - unfold ListTerminalSessions. every_call.
  - unfold CloseTerminalSession. every_call.
  - unfold SweepTerminalSessions. every_call.
Qed.

(** ** A ticket opens one socket *)

(** A call that may still make the session named. *)
Fixpoint creating (new : option str) {A} (p : P A) : Prop :=
  match p with
  | Done _ => True
  | Stmt m k =>
      (forall s x s', m s = (x, s') -> steps_as None s s') /\ (forall x, creating new (k x)) \/
      (forall s x s', m s = (x, s') -> steps_as new s s') /\ (forall x, creating None (k x))
  | Park w k => (forall s s', take_token w s = Some s' -> steps_as None s s') /\ forall b, creating new (k b)
  end.
Lemma every_creating new {A} (p : P A) : every (steps_as None) p -> creating new p.
Proof. induction p as [r|X m k IH|w k IH]; cbn; [done| |]; intros [Hm Hk]; [left|]; split; auto. Qed.
Lemma creating_bind new {A B} (p : P A) (f : A -> P B) : every (steps_as None) p -> (forall a, creating new (f a)) -> creating new (prog_bind p f).
Proof.
  intros Hp Hf. induction p as [[a|e]|X m k IH|w k IH]; cbn in *; [apply Hf|done|left|]; (split; [apply Hp|intros x; apply IH, Hp]).
Qed.
Lemma creating_stmt new {A B} (m : cstate -> res A * cstate) (f : A -> P B) : (forall s x s', m s = (x, s') -> steps_as new s s') ->
  (forall a, every (steps_as None) (f a)) -> creating new (prog_bind (stmt m) f).
Proof. intros Hm Hf. right. split; [done|]. intros [a|e]; cbn; [by apply every_creating|done]. Qed.
Lemma creating_then new {A B} (p : P A) (f : A -> P B) : creating new p -> (forall a, every (steps_as None) (f a)) -> creating new (prog_bind p f).
Proof.
  intros Hp Hf. revert new Hp. induction p as [[a|e]|X m k IH|w k IH]; intros new Hp; cbn in *; [by apply every_creating|done| |].
  - destruct Hp as [[Hm Hk]|[Hm Hk]]; [left|right]; (split; [done|]); intros x; by apply IH.
  - split; [apply Hp|]. intros b. by apply IH, Hp.
Qed.
Definition made_by (c : terminal_call) : option str := match c with CCreate src _ _ _ _ _ _ _ _ => Some (tm_uuid src) | _ => None end.
Lemma creating_serve c : creating (made_by c) (serve c).
Proof.
  pose proof (every_serve c) as Hs. destruct c as [src account daemon invokedBy shell user tmux cols rows| | | | | | |]; try by apply every_creating.
  clear Hs. cbn [serve made_by]. apply creating_then; [|done]. unfold CreateTerminalSession. cbv zeta.
  apply creating_bind; [auto with go|intros d]. apply creating_bind; [done|intros _]. apply creating_bind; [done|intros [[shell' user'] tmux']].
  apply creating_bind; [done|intros quotas]. apply creating_bind; [every_call|intros live].
  apply creating_bind; [done|intros _]. apply creating_bind; [done|intros ticket]. apply creating_stmt.
  - apply (every_create _ (new_session src d account invokedBy shell' user' tmux' cols rows ticket)). intros t. apply evolves_create.
  - intros _. every_call.
Qed.

Lemma matching_some Q m : Z.of_nat (size (matching Q m)) <> 0 -> exists k q, m !! k = Some q /\ Q q = true.
Proof.
  intros Hn. destruct (map_choose (matching Q m)) as (k & q & Hq); [intros He; apply Hn; by rewrite He, map_size_empty|].
  apply map_lookup_filter_Some in Hq as [Hq Hm]. by exists k, q.
Qed.
(** A handshake that has not yet won: what is left of it takes the ticket in the
    statement before it answers, or fails. *)
Definition spends (id : str) s s' : Prop :=
  (exists r, t_sessions (crows s) !! id = Some r /\ ts_TicketHash r <> []) /\
  forall r, t_sessions (crows s') !! id = Some r -> ts_TicketHash r = [].
Fixpoint claims (id : str) {A} (p : P A) : Prop :=
  match p with
  | Done (Ok _) => False
  | Done (Err _) => True
  | Stmt m k => forall s x s', m s = (x, s') -> steps_as None s s' /\ (claims id (k x) \/ (exists a, k x = Done (Ok a)) /\ spends id s s')
  | Park w k => False
  end.
Lemma claims_refuse id {A} b e (p : P A) : (b = false -> claims id p) -> claims id (prog_bind (refuse b e) (fun _ => p)).
Proof. intros Hp. destruct b; cbn; [done|by apply Hp]. Qed.
Lemma claims_ticket src daemon session ticket : claims (TrimSpace session) (serve (CTicket src daemon session ticket)).
Proof.
  cbn [serve]. unfold answering, AuthenticateTerminalTicket. cbv zeta. set (now := c_now _). set (id := TrimSpace session).
  destruct (bool_decide (id = []) || bool_decide (ticket = [])); [done|]. cbn. intros s x s'.
  destruct (sql ErrUnauthorized (first_session daemon id) (cs_db s)) as [r d] eqn:E. intros [= <- <-].
  pose proof (reads_sql _ _ _ _ (first_session_law daemon id) _ _ _ E) as Hd. split; [by apply evolves_eq|].
  apply (sql_query _ _ _ _ _ _ _ (first_session_law daemon id)) in E as [_ E]. left. destruct r as [row|e]; [|done]. cbn.
  destruct E as [Hrow _]. apply keyed_sessions in Hrow as Hid. rewrite Hid.
  destruct (ticket_error row now ticket) eqn:Et; [done|]. cbn. intros s1 x s1'.
  destruct (exec (update_sessions _ _) (cs_db s1)) as [n d1] eqn:E1. intros [= <- <-].
  apply (sql_change _ _ _ _ _ _ (update_sessions_law (with_ticket id (ts_TicketHash row)) (set_ticket [] now) (fun r => eq_refl))) in E1.
  destruct n as [n|e]; cbn [prog_bind]; [|split; [by apply evolves_eq|by left]]. destruct E1 as [Hn E1]. split.
  { unfold steps_as, crows. cbn [cs_db]. rewrite E1. apply evolves_update. intros r. split; [done|by right]. }
  destruct (n =? 0) eqn:En; [by left|right]. split; [by eexists|]. apply Z.eqb_neq in En. subst n.
  assert (Hh : ts_TicketHash row <> []).
  { unfold ticket_error in Et. rewrite !orb_false_iff, !bool_decide_eq_false in Et. tauto. }
  split; cbn [cs_db].
  - destruct (matching_some _ _ En) as (k & q & Hq & Hm). apply keyed_sessions in Hq as Hk.
    unfold with_ticket in Hm. rewrite andb_true_iff, !bool_decide_eq_true in Hm. destruct Hm as [Hm Hqh]. exists q. split; [unfold crows; congruence|congruence].
  - intros q. unfold crows. cbn [cs_db]. rewrite E1. cbn. unfold update_where. rewrite lookup_fmap, fmap_Some. intros (q0 & Hq0 & ->).
    destruct (with_ticket _ _ q0) eqn:Ew; [done|]. destruct (matching_some _ _ En) as (k & q & Hq & Hm).
    apply keyed_sessions in Hq as Hk. unfold with_ticket in Hm, Ew. rewrite andb_true_iff, !bool_decide_eq_true in Hm. destruct Hm as [Hm Hqh].
    assert (q0 = q) as -> by congruence. rewrite !bool_decide_true in Ew by congruence. discriminate Ew.
Qed.
Lemma creating_moves new {A} (p : P A) s s' p' : creating new p -> moves s p s' p' ->
  steps_as None s s' /\ creating new p' \/ steps_as new s s' /\ creating None p'.
Proof.
  intros Hp Hm. destruct p as [r|X m k|w k]; [done| |].
  - destruct Hm as (x & Hm & ->). destruct Hp as [[Hs Hk]|[Hs Hk]]; [left|right]; eauto.
  - left. destruct Hp as [Hw Hk]. destruct Hm as [[-> ->]|[Ht ->]]; eauto using evolves_eq.
    split; [by apply evolves_eq|apply Hk].
Qed.
Lemma claims_moves id {A} (p : P A) s s' p' : claims id p -> moves s p s' p' -> claims id p' \/ (exists a, p' = Done (Ok a)) /\ spends id s s'.
Proof. intros Hp Hm. destruct p as [r|X m k|w k]; try done. destruct Hm as (x & Hm & ->). by apply Hp in Hm as [_ Hm]. Qed.

(** The handshakes that answered with a session. *)
Definition opened_by (cs : list terminal_call) (ps : list (P terminal_answer)) (id : str) (i : nat) : Prop :=
  exists src daemon session ticket a, cs !! i = Some (CTicket src daemon session ticket) /\ TrimSpace session = id /\ ps !! i = Some (Done (Ok a)).
Record tickets_ok (cs : list terminal_call) (s : cstate) (ps : list (P terminal_answer)) : Prop := {
  tk_pending : exists pend : list (option str), List.length pend = List.length ps /\
    (forall i new p, pend !! i = Some new -> ps !! i = Some p -> creating new p) /\
    (forall i id, pend !! i = Some (Some id) -> t_sessions (crows s) !! id = None /\ (forall j, ~ opened_by cs ps id j) /\ forall j, pend !! j = Some (Some id) -> j = i);
  tk_claims : forall i src daemon session ticket p, cs !! i = Some (CTicket src daemon session ticket) -> ps !! i = Some p ->
    claims (TrimSpace session) p \/ exists a, p = Done (Ok a);
  tk_once : forall id i j, opened_by cs ps id i -> opened_by cs ps id j -> i = j;
  tk_spent : forall id i r, opened_by cs ps id i -> t_sessions (crows s) !! id = Some r -> ts_TicketHash r = [];
}.
Lemma opened_step cs s ps i p s' p' id j : tickets_ok cs s ps -> ps !! i = Some p -> moves s p s' p' -> opened_by cs (<[i := p']> ps) id j ->
  opened_by cs ps id j \/ j = i /\ spends id s s'.
Proof.
  intros Hok Hp Hm (src & daemon & session & ticket & a & Hc & Hid & [(-> & -> & _)|[Hn Hj]]%list_lookup_insert_Some).
  - right. split; [done|]. destruct (tk_claims _ _ _ Hok _ _ _ _ _ _ Hc Hp) as [Hcl|[a0 ->]]; [|done].
    apply (claims_moves _ _ _ _ _ Hcl) in Hm as [[]|[_ Hs]]. by rewrite <-Hid.
  - left. by exists src, daemon, session, ticket, a.
Qed.
Lemma evolves_absent new t t' id : evolves new t t' -> t_sessions t !! id = None -> new <> Some id -> t_sessions t' !! id = None.
Proof. intros He Hn Hd. destruct (t_sessions t' !! id) as [r|] eqn:E; [|done]. apply (ev_rows _ _ _ He) in E as [(r0 & Hr & _)|[? _]]; congruence. Qed.
Lemma tickets_step cs s ps i p s' p' : tickets_ok cs s ps -> ps !! i = Some p -> moves s p s' p' -> tickets_ok cs s' (<[i := p']> ps).
Proof.
  intros Hok Hp Hm. pose proof (fun id j => opened_step cs s ps i p s' p' id j Hok Hp Hm) as Hopen.
  destruct (tk_pending _ _ _ Hok) as (pend & Hlen & Hcr & Hnew). assert (Hi : is_Some (pend !! i)) by (rewrite lookup_lt_is_Some, Hlen; by eapply lookup_lt_Some).
  destruct Hi as [new Hi]. assert (Hstep : exists new' pend', evolves new' (crows s) (crows s') /\ (new' = None /\ pend' = pend \/ new' = new /\ pend' = <[i := None]> pend) /\
    forall p0, pend' !! i = Some p0 -> creating p0 p').
  { destruct (creating_moves _ _ _ _ _ (Hcr _ _ _ Hi Hp) Hm) as [[Hs Hc]|[Hs Hc]].
    - exists None, pend. split_and!; [done|by left|]. intros p0. rewrite Hi. by intros [= <-].
    - exists new, (<[i := None]> pend). split_and!; [done|by right|]. intros p0. rewrite list_lookup_insert_eq by (by eapply lookup_lt_Some). by intros [= <-]. }
  destruct Hstep as (new' & pend' & He & Hcase & Hc').
  assert (Hsub : forall k id, pend' !! k = Some (Some id) -> pend !! k = Some (Some id) /\ new' <> Some id).
  { intros k id. destruct Hcase as [[-> ->]|[-> ->]]; [done|]. intros [(_ & [=] & _)|[Hk Hd]]%list_lookup_insert_Some. split; [done|].
    intros ->. destruct (Hnew _ _ Hi) as (_ & _ & Hu). by apply Hk, eq_sym, Hu. }
  split.
  - exists pend'. rewrite length_insert. split_and!.
    + destruct Hcase as [[_ ->]|[_ ->]]; by rewrite ?length_insert.
    + intros k n q Hk [(-> & <- & _)|[Hne Hq]]%list_lookup_insert_Some; [by apply Hc'|]. apply (Hcr k); [|done].
      destruct Hcase as [[_ ->]|[_ ->]]; [done|by rewrite list_lookup_insert_ne in Hk].
    + intros k id Hk. destruct (Hsub _ _ Hk) as [Hk0 Hne]. destruct (Hnew _ _ Hk0) as (Habs & Hno & Hu). split_and!.
      * by eapply evolves_absent.
      * intros j [Hj|[_ [(r & Hr & _) _]]]%Hopen; [by eapply Hno|congruence].
      * intros j Hj. by apply Hu, (Hsub _ _ Hj).
  - intros j src daemon session ticket q Hc [(-> & <- & _)|[Hne Hq]]%list_lookup_insert_Some; [|by eapply tk_claims].
    destruct (tk_claims _ _ _ Hok _ _ _ _ _ _ Hc Hp) as [Hcl|[a ->]]; [|done].
    apply (claims_moves _ _ _ _ _ Hcl) in Hm as [Hcl'|[Ha _]]; [by left|by right].
  - assert (Hspent : forall id j, opened_by cs ps id j -> ~ spends id s s').
    { intros id j Hj [(r & Hr & Hh) _]. by apply Hh, (tk_spent _ _ _ Hok id j r). }
    intros id j k [Hj|[-> Hs]]%Hopen [Hk|[-> Hs']]%Hopen; [by eapply tk_once|by destruct (Hspent _ _ Hj)|by destruct (Hspent _ _ Hk)|done].
  - intros id j r [Hj|[_ [_ Hs]]]%Hopen Hr; [|by apply Hs]. apply (ev_rows _ _ _ He) in Hr as [(r0 & Hr0 & [_ Ht])|[-> Hn]].
    + pose proof (tk_spent _ _ _ Hok _ _ _ Hj Hr0) as H0. destruct Ht as [->|]; done.
    + destruct Hcase as [[[=] _]|[Heq _]]. rewrite <-Heq in Hi. destruct (Hnew _ _ Hi) as (_ & Hno & _). by destruct (Hno j).
Qed.
Lemma tickets_start cs s : NoDup (omap made_by cs) -> Forall (fun id => t_sessions (crows s) !! id = None) (omap made_by cs) -> tickets_ok cs s (serve <$> cs).
Proof.
  intros Hn Hf. assert (Hno : forall id i, ~ opened_by cs (serve <$> cs) id i).
  { intros id i (src & daemon & session & ticket & a & Hc & _ & Hp). rewrite list_lookup_fmap, Hc in Hp. cbn [fmap option_fmap option_map] in Hp.
    pose proof (claims_ticket src daemon session ticket) as Hcl. apply Some_inj in Hp. by rewrite Hp in Hcl. }
  split; [|intros i src daemon session ticket p Hc Hp; left|by intros id i j Hi%Hno|by intros id i r Hi%Hno].
  - exists (made_by <$> cs). rewrite !length_fmap. split_and!; [done| |].
    + intros i new p. rewrite !list_lookup_fmap. destruct (cs !! i) as [c|]; [|done]. intros [= <-] [= <-]. apply creating_serve.
    + intros i id Hi. assert (Hin : forall j, (made_by <$> cs) !! j = Some (Some id) -> exists c, cs !! j = Some c /\ made_by c = Some id).
      { intros j. rewrite list_lookup_fmap, fmap_Some. intros (c & Hc & Hm). by exists c. }
      destruct (Hin _ Hi) as (c & Hc & Hm). split_and!; [|apply Hno|].
      * rewrite Forall_forall in Hf. apply Hf, list_elem_of_omap. exists c. split; [by apply list_elem_of_lookup_2 in Hc|done].
      * intros j Hj. destruct (Hin _ Hj) as (c' & Hc' & Hm'). by eapply (omap_once made_by).
  - rewrite list_lookup_fmap, Hc in Hp. injection Hp as <-. apply claims_ticket.
Qed.

(** ** Calls alone *)

Lemma alone_done {A B} (r0 : res A) (f : A -> P B) s r s' : run_alone (prog_bind (Done r0) f) s = (r, s') ->
  (exists e, r0 = Err e /\ r = Err e /\ s' = s) \/ exists a, r0 = Ok a /\ run_alone (f a) s = (r, s').
Proof. destruct r0 as [a|e]; cbn; [right; by exists a|]. intros [= <- <-]. left. by exists e. Qed.
Lemma alone_db {A B} (m : M A) (f : A -> P B) s r s' : run_alone (prog_bind (db_stmt m) f) s = (r, s') ->
  exists r0 d, m (cs_db s) = (r0, d) /\ match r0 with Ok a => run_alone (f a) (mkCState d (cs_wait s)) = (r, s') | Err e => r = Err e /\ s' = mkCState d (cs_wait s) end.
Proof.
  cbn. destruct (m (cs_db s)) as [[a|e] d] eqn:E; cbn; intros Hr; exists (Ok a), d || exists (Err e), d; [done|]. by injection Hr as <- <-.
Qed.
Lemma alone_reads {A B} (m : M A) (f : A -> P B) s r s' : reads m -> run_alone (prog_bind (db_stmt m) f) s = (r, s') ->
  ((exists e, r = Err e) /\ crows s' = crows s /\ cs_wait s' = cs_wait s) \/
  exists a s1, m (cs_db s) = (Ok a, cs_db s1) /\ crows s1 = crows s /\ cs_wait s1 = cs_wait s /\ run_alone (f a) s1 = (r, s').
Proof.
  intros Hm (r0 & d & E & Hr)%alone_db. pose proof (Hm _ _ _ E) as Hd. destruct r0 as [a|e].
  - right. by exists a, (mkCState d (cs_wait s)).
  - left. destruct Hr as [-> ->]. split; [by exists e|done].
Qed.
Lemma alone_query {A B} missing (m : db -> (A + db_error) * db) answers none (f : A -> P B) s r s' : queries m answers none ->
  run_alone (prog_bind (db_stmt (sql missing m)) f) s = (r, s') ->
  ((exists e, r = Err e) /\ crows s' = crows s /\ cs_wait s' = cs_wait s) \/
  exists a s1, answers (crows s) a /\ crows s1 = crows s /\ cs_wait s1 = cs_wait s /\ run_alone (f a) s1 = (r, s').
Proof.
  intros Hq [Hl|(a & s1 & E & Hr & Hw & Hk)]%(alone_reads (sql missing m)); [by left| |by eapply reads_sql].
  right. apply (sql_query _ _ _ _ _ _ _ Hq) in E as [_ Ha]. by exists a, s1.
Qed.
Lemma alone_change {A B} missing (m : db -> (A + db_error) * db) effect (f : A -> P B) s r s' : changes m effect ->
  run_alone (prog_bind (db_stmt (sql missing m)) f) s = (r, s') ->
  ((exists e, r = Err e) /\ crows s' = crows s /\ cs_wait s' = cs_wait s) \/
  exists a s1, effect (crows s) a (crows s1) /\ cs_wait s1 = cs_wait s /\ run_alone (f a) s1 = (r, s').
Proof.
  intros Hc (r0 & d & E & Hr)%alone_db. apply (sql_change _ _ _ _ _ _ Hc) in E. destruct r0 as [a|e].
  - right. by exists a, (mkCState d (cs_wait s)).
  - left. destruct Hr as [-> ->]. split; [by exists e|done].
Qed.
Lemma alone_wait {A B} (g : waiters -> A * waiters) (f : A -> P B) s r s' : run_alone (prog_bind (wait_step g) f) s = (r, s') ->
  exists s1, crows s1 = crows s /\ cs_wait s1 = (g (cs_wait s)).2 /\ run_alone (f (g (cs_wait s)).1) s1 = (r, s').
Proof. cbn. destruct (g (cs_wait s)) as [a w]. cbn. intros Hr. by exists (mkCState (cs_db s) w). Qed.

(** ** Creating a session *)

Record session_params (shell user tmux : str) (cols rows : Z) (shell' user' tmux' : str) : Prop := {
  sp_trim : shell' = TrimSpace shell /\ user' = TrimSpace user /\ tmux' = TrimSpace tmux;
  sp_size : 0 <= cols <= 1000 /\ 0 <= rows <= 500;
  sp_len : Z.of_nat (List.length shell') <= 1024 /\ Z.of_nat (List.length user') <= 64;
  sp_tmux : tmux' = [] \/ lang cloudTmuxName tmux';
}.
Lemma checked_session_ok shell user tmux cols rows shell' user' tmux' :
  checked_session shell user tmux cols rows = Ok (shell', user', tmux') -> session_params shell user tmux cols rows shell' user' tmux'.
Proof.
  unfold checked_session. intros Hc. repeat (apply res_bind_ok in Hc as ([] & ?%guard_ok & Hc)). injection Hc as <- <- <-.
  repeat match goal with Ho : (_ || _) = false |- _ => apply orb_false_iff in Ho as [?%Z.ltb_ge ?%Z.ltb_ge] | Ho : (_ <? _) = false |- _ => apply Z.ltb_ge in Ho end.
  split; try done; try lia. destruct (decide (TrimSpace tmux = [])) as [|Hn]; [by left|right]. apply matches_spec.
  match goal with Ha : (_ && _) = false |- _ => rewrite bool_decide_false in Ha by done; by apply negb_false_iff in Ha end.
Qed.
Lemma size_matching_insert Q q m : m !! ts_ID q = None -> Q q = true -> size (matching Q (<[ts_ID q := q]> m)) = S (size (matching Q m)).
Proof.
  intros Hn Hq. unfold matching. rewrite map_filter_insert_True by done. apply map_size_insert_None. by apply map_lookup_filter_None_2; left.
Qed.
(** A session is made by a confirmed member for a daemon that relays terminals, its
    shell, user, tmux name and size in bounds: one row, pending, that holds the hash
    of the ticket the member gets, and the daemon's poll is woken; with it the live
    sessions of the workspace are at most what its quota allows. An error changes
    nothing. *)
Theorem session_created_exact src account daemon invokedBy shell user tmux cols rows s r s' :
  run_alone (CreateTerminalSession src account daemon invokedBy shell user tmux cols rows) s = (r, s') ->
  match r with
  | Err _ => crows s' = crows s /\ cs_wait s' = cs_wait s
  | Ok answer => exists d quotas shell' user' tmux' ticket,
      let row := new_session src d account invokedBy shell' user' tmux' cols rows ticket in
      t_daemons (crows s) !! daemon = Some d /\ dm_TerminalRelayEnabled d = true /\ confirmed (tm_call src) account (dm_WorkspaceID d) /\
      session_params shell user tmux cols rows shell' user' tmux' /\ newTerminalTicket src = Ok ticket /\
      answer = mkTerminalTicket (tm_uuid src) ticket (c_now (tm_call src) + terminalTicketTTL) daemon /\
      t_sessions (crows s) !! tm_uuid src = None /\ crows s' = with_sessions <[tm_uuid src := row]> (crows s) /\
      cs_wait s' = wakeTerminalWaiters daemon (cs_wait s) /\ workspaceQuota (tm_call src) (dm_WorkspaceID d) = Ok quotas /\
      Z.of_nat (size (matching (live_in (dm_WorkspaceID d)) (t_sessions (crows s')))) <= session_limit quotas
  end.
Proof.
  intros Hs. unfold CreateTerminalSession in Hs. cbv zeta in Hs.
  apply alone_reads in Hs as [((e & ->) & ? & ?)|(d & s1 & Hd & Hr1 & Hw1 & Hs)]; [done| |apply reads_daemonForAccount].
  apply daemonForAccount_ok in Hd as (_ & Hd & Hid & Hc).
  apply alone_done in Hs as [(e & _ & -> & ->)|([] & Hrel%guard_ok%negb_false_iff & Hs)]; [done|].
  apply alone_done in Hs as [(e & _ & -> & ->)|([[shell' user'] tmux'] & Hck%checked_session_ok & Hs)]; [done|].
  apply alone_done in Hs as [(e & _ & -> & ->)|(quotas & Hq & Hs)]; [done|].
  apply (alone_query _ _ _ _ _ _ _ _ (count_sessions_law _)) in Hs as [((e & ->) & ? & ?)|(live & s2 & Hlive & Hr2 & Hw2 & Hs)]; [split; congruence|].
  apply alone_done in Hs as [(e & _ & -> & ->)|([] & Hlim%guard_ok & Hs)]; [split; congruence|].
  apply alone_done in Hs as [(e & _ & -> & ->)|(ticket & Ht & Hs)]; [split; congruence|].
  apply (alone_change _ _ _ _ _ _ _ (create_session_law _)) in Hs as [((e & ->) & ? & ?)|(? & s3 & [Hn Hr3] & Hw3 & Hs)]; [split; congruence|].
  apply alone_wait in Hs as (s4 & Hr4 & Hw4 & Hs). cbn [run_alone] in Hs. injection Hs as <- <-.
  exists d, quotas, shell', user', tmux', ticket. cbn zeta.
  change (ts_ID (new_session src d account invokedBy shell' user' tmux' cols rows ticket)) with (tm_uuid src) in Hn, Hr3.
  rewrite Hr2, Hr1 in Hn, Hr3. rewrite Hr1 in Hlive. rewrite Hr4, Hr3, Hw4. cbn [fst snd]. rewrite Hw3, Hw2, Hw1, Hid. split_and!; try done.
  - destruct (newTerminalTicket src) as [t0|]; [|done]. by injection Ht as ->.
  - cbn [with_sessions t_sessions]. set (row := new_session _ _ _ _ _ _ _ _ _ _) in *. assert (Hlive' : live_in (dm_WorkspaceID d) row = true) by (unfold live_in; cbn; by rewrite bool_decide_true).
    pose proof (size_matching_insert _ row _ Hn Hlive') as Hsz. change (ts_ID row) with (tm_uuid src) in Hsz. rewrite Hsz. apply Z.leb_gt in Hlim. subst live. lia.
Qed.

(** ** The pickup *)

Definition knows_secret (id secret : str) t : Prop :=
  exists d, t_daemons t !! id = Some d /\ dm_Enabled d = true /\ CompareHashAndPassword (dm_SecretHash d) secret = true.
Lemma alone_with_daemon {B} id secret (f : Daemon -> P B) s r s' : run_alone (prog_bind (with_daemon id secret) f) s = (r, s') ->
  (r = Err ErrUnauthorized /\ crows s' = crows s /\ cs_wait s' = cs_wait s) \/
  exists d s1, knows_secret id secret (crows s) /\ crows s1 = crows s /\ cs_wait s1 = cs_wait s /\ run_alone (f d) s1 = (r, s').
Proof.
  intros (r0 & d & E & Hr)%alone_db. destruct (authenticateDaemon id secret (cs_db s)) as [r1 d1] eqn:E1. injection E as <- <-.
  destruct r1 as [dm|e]; cbn in Hr.
  - right. apply authenticate_ok in E1 as (Hd & Hk & He & Hc). exists dm, (mkCState d1 (cs_wait s)). split_and!; [|done..]. by exists dm.
  - left. destruct Hr as [-> ->]. split_and!; [done| |done]. by eapply reads_authenticate.
Qed.
(** The leases that have run out taken back. *)
Definition reclaimed (daemon : str) (now : Z) (m : gmap str TerminalSession) : gmap str TerminalSession :=
  update_where (lease_expired daemon now) (set_offer terminalStatusPending None now) m.
(** A pickup that answered: the sessions it leased, and the table it left. *)
Record picked (daemon : str) (now : Z) t t' (found : list TerminalSession) : Prop := {
  pi_window : window (older ts_CreatedAt) (stored_in ts_ID (reclaimed daemon now (t_sessions t)) (waiting_for daemon now)) terminalPendingLimit found;
  pi_rows : t' = with_sessions (update_where (still_pending daemon (ts_ID <$> found)) (set_offer terminalStatusOffered (Some now) now)) (with_sessions (reclaimed daemon now) t);
}.
Lemma with_sessions_none daemon f t : with_sessions (update_where (still_pending daemon []) f) t = t.
Proof.
  destruct t as [a1 a2 a3 a4 a5 m]. unfold with_sessions. cbn. f_equal. apply map_eq. intros k. unfold update_where. rewrite lookup_fmap.
  destruct (m !! k) as [r|]; [|done]. cbn. unfold still_pending. rewrite (bool_decide_false (_ ∈ [])) by (by intros ?%elem_of_nil). by rewrite andb_false_r.
Qed.
Lemma pickup_inv src daemon secret s r s' : run_alone (ListPendingTerminalSessions src daemon secret) s = (r, s') ->
  let now := c_now (tm_call src) in cs_wait s' = cs_wait s /\
  match r with
  | Err _ => crows s' = crows s \/ crows s' = with_sessions (reclaimed daemon now) (crows s)
  | Ok l => knows_secret daemon secret (crows s) /\ exists found, picked daemon now (crows s) (crows s') found /\ l = viewTerminalSession ∘ offered now <$> found
  end.
Proof.
  unfold ListPendingTerminalSessions. cbv zeta. generalize (c_now (tm_call src)). intros now Hs.
  apply alone_with_daemon in Hs as [(-> & Hx & Hy)|(d & s1 & Hk & Hr1 & Hw1 & Hs)]; [by split; [|left]|].
  apply (alone_change _ _ _ _ _ _ _ (update_sessions_law (lease_expired daemon now) (set_offer terminalStatusPending None now) (fun r => eq_refl))) in Hs
    as [((e & ->) & Hx & Hy)|(n & s2 & [_ Hr2] & Hw2 & Hs)]; [split; [congruence|left; congruence]|]. rewrite Hr1 in Hr2.
  apply (alone_query _ _ _ _ _ _ _ _ (oldest_sessions_law _ _)) in Hs as [((e & ->) & Hx & Hy)|(found & s3 & Hwin & Hr3 & Hw3 & Hs)];
    [split; [congruence|right; by rewrite Hx, Hr2]|]. rewrite Hr2 in Hwin.
  case_bool_decide as Hf; cbn [run_alone] in Hs.
  - injection Hs as <- <-. split; [congruence|]. split; [done|]. exists []. split; [|done]. subst found. split; [exact Hwin|].
    cbn [fmap list_fmap]. rewrite with_sessions_none. by rewrite Hr3, Hr2.
  - apply (alone_change _ _ _ _ _ _ _ (update_sessions_law (still_pending daemon (ts_ID <$> found)) (set_offer terminalStatusOffered (Some now) now) (fun r => eq_refl))) in Hs
      as [((e & ->) & Hx & Hy)|(n4 & s4 & [_ Hr4] & Hw4 & Hs)]; [split; [congruence|right; by rewrite Hx, Hr3, Hr2]|].
    cbn [run_alone] in Hs. injection Hs as <- <-. split; [congruence|]. split; [done|]. exists found. split; [|done]. split; [exact Hwin|].
    by rewrite Hr4, Hr3, Hr2.
Qed.
Lemma reclaimed_lookup daemon now m id r : reclaimed daemon now m !! id = Some r ->
  exists r0, m !! id = Some r0 /\ r = if lease_expired daemon now r0 then set_offer terminalStatusPending None now r0 else r0.
Proof. unfold reclaimed, update_where. rewrite lookup_fmap, fmap_Some. intros (r0 & Hr & ->). by exists r0. Qed.
(** What becomes of a session in a pickup. *)
Lemma picked_rows daemon now t t' found id r : (forall k q, t_sessions t !! k = Some q -> ts_ID q = k) -> picked daemon now t t' found -> t_sessions t !! id = Some r ->
  let r1 := if lease_expired daemon now r then set_offer terminalStatusPending None now r else r in
  t_sessions t' !! id = Some (if bool_decide (id ∈ ts_ID <$> found) then set_offer terminalStatusOffered (Some now) now r1 else r1) /\
  (id ∈ ts_ID <$> found -> ts_DaemonID r = daemon /\ (ts_Status r = terminalStatusPending \/ lease_expired daemon now r = true)).
Proof.
  intros Hkey [Hw ->] Hr r1. assert (H1 : reclaimed daemon now (t_sessions t) !! id = Some r1) by (unfold reclaimed, update_where; by rewrite lookup_fmap, Hr).
  assert (Hid : ts_ID r1 = id) by (unfold r1; apply Hkey in Hr; by destruct (lease_expired daemon now r)).
  assert (Hfound : id ∈ ts_ID <$> found -> waiting_for daemon now r1 = true).
  { intros (q & -> & Hq)%list_elem_of_fmap. apply (wn_rows _ _ _ _ Hw) in Hq as [Hq Hp]. congruence. }
  cbn [t_sessions with_sessions]. unfold update_where. rewrite lookup_fmap, H1. cbn. split.
  - f_equal. unfold still_pending. rewrite Hid. destruct (decide (id ∈ ts_ID <$> found)) as [Hf|Hf]; [|by rewrite (bool_decide_false (id ∈ _)), andb_false_r].
    rewrite (bool_decide_true (id ∈ _)) by done. specialize (Hfound Hf). unfold waiting_for in Hfound. rewrite !andb_true_iff in Hfound. destruct Hfound as [[-> ->] _]. done.
  - intros Hf%Hfound. unfold waiting_for in Hf. rewrite !andb_true_iff, !bool_decide_eq_true in Hf. destruct Hf as [[Hd Hp] _]. revert Hd Hp. unfold r1.
    destruct (lease_expired daemon now r) eqn:E; cbn; intros Hd Hp; split; auto.
Qed.

(** The pickup answers only the daemon's secret, with the oldest sessions of the
    daemon waiting for less than three minutes, at most eight, and leases exactly those;
    leases older than ninety seconds are taken back before, no other row is touched,
    and one pickup after another, none leases a session again while its lease lasts. *)
Theorem pickup_exact src daemon secret s r s' : run_alone (ListPendingTerminalSessions src daemon secret) s = (r, s') ->
  let now := c_now (tm_call src) in
  match r with
  | Err _ => crows s' = crows s \/ crows s' = with_sessions (reclaimed daemon now) (crows s)
  | Ok l => knows_secret daemon secret (crows s) /\ (List.length l <= 8)%nat /\ exists found,
      l = viewTerminalSession ∘ offered now <$> found /\ picked daemon now (crows s) (crows s') found /\
      (forall id q, t_sessions (crows s) !! id = Some q -> ts_DaemonID q <> daemon -> t_sessions (crows s') !! id = Some q) /\
      (forall src2 s2 l2 s2', crows s2 = crows s' -> run_alone (ListPendingTerminalSessions src2 daemon secret) s2 = (Ok l2, s2') ->
         c_now (tm_call src2) <= now + terminalLeaseDuration -> forall v, v ∈ sv_ID <$> l -> v ∉ sv_ID <$> l2)
  end.
Proof.
  intros Hs now. apply pickup_inv in Hs as [_ Hs]. fold now in Hs. destruct r as [l|e]; [|done]. destruct Hs as (Hk & found & Hp & ->). split; [done|].
  assert (Hkey : forall u k q, t_sessions (crows u) !! k = Some q -> ts_ID q = k) by (intros u; apply keyed_sessions).
  rewrite length_fmap. split; [apply (wn_limit _ _ _ _ (pi_window _ _ _ _ _ Hp))|]. exists found. split_and!; [done|done| |].
  - intros id q Hq Hd. destruct (picked_rows _ _ _ _ _ _ _ (Hkey s) Hp Hq) as [-> Hf]. f_equal.
    rewrite bool_decide_false by (intros Hin; by destruct (Hf Hin)). unfold lease_expired. by rewrite (bool_decide_false (ts_DaemonID q = daemon)).
  - intros src2 s2 l2 s2' Heq Hs2 Hle v Hv Hv2. apply pickup_inv in Hs2 as (_ & _ & found2 & Hp2 & ->). rewrite Heq in Hp2.
    rewrite <-list_fmap_compose in Hv, Hv2. change (v ∈ ts_ID <$> found) in Hv. change (v ∈ ts_ID <$> found2) in Hv2.
    apply list_elem_of_fmap in Hv as (q & -> & Hq). pose proof (wn_rows _ _ _ _ (pi_window _ _ _ _ _ Hp) _ Hq) as [Hq1 _].
    apply reclaimed_lookup in Hq1 as (r0 & Hr0 & Hq0). destruct (picked_rows _ _ _ _ _ _ _ (Hkey s) Hp Hr0) as [Hr' _]. cbn zeta in Hr'. rewrite <-Hq0 in Hr'.
    rewrite bool_decide_true in Hr' by (apply list_elem_of_fmap; by exists q).
    assert (Hkey' : forall k q, t_sessions (crows s') !! k = Some q -> ts_ID q = k) by apply Hkey.
    destruct (picked_rows _ _ _ _ _ _ _ Hkey' Hp2 Hr') as [_ Hf]. destruct (Hf Hv2) as [_ [Hst|Hex]]; [done|].
    unfold lease_expired in Hex. cbn in Hex. rewrite !andb_true_iff in Hex. destruct Hex as [_ Hex%Z.ltb_lt]. unfold terminalLeaseDuration, seconds in *. lia.
Qed.

(** ** The life of a session, calls one after the other *)

Definition stage r : nat := if is_over r then 2 else if bool_decide (ts_Status r = terminalStatusActive) then 1 else 0.
Record session_wf r : Prop := {
  wf_status : is_live r = true \/ is_over r = true;
  wf_ended : is_Some (ts_EndedAt r) <-> is_over r = true;
  wf_started : ts_Status r = terminalStatusActive -> is_Some (ts_StartedAt r);
  wf_leased : ts_Status r = terminalStatusOffered -> is_Some (ts_LeasedAt r);
}.
(** A session goes from waiting to active to over, and then stays as it is. *)
Record lives r r' : Prop := {
  lv_same : same_session r r';
  lv_stage : (stage r <= stage r')%nat;
  lv_over : is_over r = true -> r' = r;
  lv_wf : session_wf r -> session_wf r';
}.
Lemma lives_refl r : lives r r.
Proof. split; auto using same_session_refl. Qed.
Lemma lives_trans r r1 r' : lives r r1 -> lives r1 r' -> lives r r'.
Proof.
  intros [[I1 T1] S1 O1 W1] [[I2 T2] S2 O2 W2]. split; auto; [|lia|].
  - split; [congruence|]. destruct T2 as [->|]; [done|by right].
  - intros Ho. specialize (O1 Ho) as ->. by apply O2.
Qed.
Lemma live_not_over r : is_live r = true -> is_over r = false.
Proof.
  unfold is_live, is_over, terminalStatusesLive, terminalStatusesOver. rewrite bool_decide_eq_true, bool_decide_eq_false.
  intros [->|[->| ->%list_elem_of_singleton]%elem_of_cons]%elem_of_cons; apply (bool_decide_unpack _); vm_compute; exact I.
Qed.
Lemma stage_waiting r : ts_Status r ∈ [terminalStatusPending; terminalStatusOffered] -> is_live r = true /\ is_over r = false /\ stage r = 0%nat.
Proof.
  intros Hs. assert (Hl : is_live r = true).
  { unfold is_live. apply bool_decide_eq_true. unfold terminalStatusesLive. apply elem_of_cons in Hs as [->|Hs]; [by left|right]. apply list_elem_of_singleton in Hs as ->. by left. }
  apply live_not_over in Hl as Ho. split_and!; [done..|]. unfold stage. rewrite Ho, bool_decide_false; [done|].
  apply elem_of_cons in Hs as [->|Hs]; [|apply list_elem_of_singleton in Hs as ->]; apply (bool_decide_unpack _); vm_compute; exact I.
Qed.
Lemma stage_live r : is_live r = true -> (stage r <= 1)%nat.
Proof. intros Hl%live_not_over. unfold stage. rewrite Hl. destruct (bool_decide _); lia. Qed.
Lemma over_end r status : ts_Status r = status -> status ∈ terminalStatusesOver -> is_over r = true /\ stage r = 2%nat.
Proof. intros <- Hs. assert (Ho : is_over r = true) by (by apply bool_decide_eq_true). split; [done|]. unfold stage. by rewrite Ho. Qed.

(** The updates of the columns. *)
Lemma lives_end r status code error bi bo now : is_live r = true -> status ∈ terminalStatusesOver -> lives r (set_end status code error bi bo now r).
Proof.
  intros Hl Hs. destruct (over_end (set_end status code error bi bo now r) status eq_refl Hs) as [Ho Hst]. split.
  - split; [done|by left].
  - rewrite Hst. pose proof (stage_live _ Hl). lia.
  - by rewrite (live_not_over _ Hl).
  - assert (Hne : status <> terminalStatusActive /\ status <> terminalStatusOffered).
    { split; intros ->; revert Hs; apply (bool_decide_unpack _); vm_compute; exact I. }
    intros _. split; [by right|by split; [|by eexists]|intros He; by destruct (proj1 Hne)|intros He; by destruct (proj2 Hne)].
Qed.
Lemma lives_offer r status leased now : is_live r = true -> stage r = 0%nat -> status = terminalStatusPending \/ status = terminalStatusOffered /\ is_Some leased ->
  lives r (set_offer status leased now r).
Proof.
  intros Hl H0 Hcase. assert (Hw : ts_Status (set_offer status leased now r) ∈ [terminalStatusPending; terminalStatusOffered]).
  { cbn. destruct Hcase as [->|[-> _]]; [by left|right; by left]. }
  destruct (stage_waiting _ Hw) as (Hl' & Ho' & Hst). split.
  - split; [done|by left].
  - rewrite H0. lia.
  - by rewrite (live_not_over _ Hl).
  - intros [W1 W2 W3 W4]. split; [by left| |intros He|intros He].
    + cbn. rewrite W2, (live_not_over _ Hl), Ho'. done.
    + exfalso. rewrite He in Hw. revert Hw. apply (bool_decide_unpack _). vm_compute. exact I.
    + cbn in He |- *. destruct Hcase as [->|[_ Hs]]; [|done]. exfalso. revert He. apply (bool_decide_unpack _). vm_compute. exact I.
Qed.
Lemma lives_active r now : is_live r = true -> lives r (set_active now r).
Proof.
  intros Hl. assert (Hl' : is_live (set_active now r) = true) by (apply bool_decide_eq_true; right; right; by left).
  pose proof (live_not_over _ Hl') as Ho'. assert (Hst : stage (set_active now r) = 1%nat) by (unfold stage; rewrite Ho'; by rewrite bool_decide_true).
  split.
  - split; [done|by left].
  - rewrite Hst. by apply stage_live.
  - by rewrite (live_not_over _ Hl).
  - intros [W1 W2 W3 W4]. split; [by left| |by eexists|].
    + cbn. by rewrite W2, (live_not_over _ Hl), Ho'.
    + cbn. intros He. exfalso. revert He. apply (bool_decide_unpack _). vm_compute. exact I.
Qed.
Lemma lives_ticket r now : is_live r = true -> lives r (set_ticket [] now r).
Proof. intros Hl. split; [split; [done|by right]|done|by rewrite (live_not_over _ Hl)|]. intros [W1 W2 W3 W4]. by split. Qed.
(** Nothing goes away, and what is new is in order. *)
Record ages t t' : Prop := {
  ag_rows : forall id r, t_sessions t !! id = Some r -> exists r', t_sessions t' !! id = Some r' /\ lives r r';
  ag_new : forall id r', t_sessions t' !! id = Some r' -> t_sessions t !! id = None -> session_wf r';
}.
#[local] Instance ages_refl : Reflexive ages.
Proof. intros t. split; [intros id r Hr; exists r; split; [done|apply lives_refl]|intros id r Hr Hn; congruence]. Qed.
#[local] Instance ages_trans : Transitive ages.
Proof.
  intros t t1 t' [R1 N1] [R2 N2]. split.
  - intros id r (r1 & H1 & L1)%R1. apply R2 in H1 as (r' & H' & L2). exists r'. split; [done|by eapply lives_trans].
  - intros id r' Hr' Hn. destruct (t_sessions t1 !! id) as [r1|] eqn:E1; [|by eapply N2]. pose proof (N1 _ _ E1 Hn) as W1.
    apply R2 in E1 as (r2 & H2 & L2). replace r' with r2 by congruence. by apply (lv_wf _ _ L2).
Qed.
Lemma ages_update Q f t : (forall id r, t_sessions t !! id = Some r -> Q r = true -> lives r (f r)) -> ages t (with_sessions (update_where Q f) t).
Proof.
  intros Hf. split; cbn; unfold update_where; intros id r; rewrite lookup_fmap.
  - intros Hr. rewrite Hr. cbn. eexists. split; [done|]. destruct (Q r) eqn:EQ; [by eapply Hf|apply lives_refl].
  - intros Hr Hn. by rewrite Hn in Hr.
Qed.
Lemma ages_create q t : t_sessions t !! ts_ID q = None -> session_wf q -> ages t (with_sessions <[ts_ID q := q]> t).
Proof.
  intros Hn Hw. split; cbn; intros id r.
  - intros Hr. rewrite lookup_insert_ne by congruence. exists r. split; [done|apply lives_refl].
  - by intros [[<- <-]|[_ Hr]]%lookup_insert_Some Hid; [|congruence].
Qed.
Lemma status_live r status : ts_Status r = status -> status ∈ terminalStatusesLive -> is_live r = true.
Proof. intros <- Hs. by apply bool_decide_eq_true. Qed.
Lemma waiting_in status : status = terminalStatusPending \/ status = terminalStatusOffered -> status ∈ [terminalStatusPending; terminalStatusOffered].
Proof. intros [->| ->]; [by left|right; by left]. Qed.
Lemma ages_offer Q status leased now t : (forall r, Q r = true -> ts_Status r = terminalStatusPending \/ ts_Status r = terminalStatusOffered) ->
  status = terminalStatusPending \/ status = terminalStatusOffered /\ is_Some leased -> ages t (with_sessions (update_where Q (set_offer status leased now)) t).
Proof.
  intros HQ Hs. apply ages_update. intros id r _ Hr. apply HQ, waiting_in, stage_waiting in Hr as (Hl & _ & H0). by apply lives_offer.
Qed.
Lemma ages_end Q f t : (forall r, Q r = true -> is_live r = true) -> (forall r, exists status code error bi bo now, f r = set_end status code error bi bo now r /\ status ∈ terminalStatusesOver) ->
  ages t (with_sessions (update_where Q f) t).
Proof. intros HQ Hf. apply ages_update. intros id r _ Hr. destruct (Hf r) as (st & c & e & bi & bo & n & -> & Hst). apply lives_end; auto. Qed.
Lemma failed_over : terminalStatusFailed ∈ terminalStatusesOver.
Proof. right. by left. Qed.
Lemma closed_over : terminalStatusClosed ∈ terminalStatusesOver.
Proof. by left. Qed.
Lemma new_session_wf src d account invokedBy shell user tmux cols rows ticket : session_wf (new_session src d account invokedBy shell user tmux cols rows ticket).
Proof.
  set (q := new_session _ _ _ _ _ _ _ _ _ _). assert (Hw : ts_Status q ∈ [terminalStatusPending; terminalStatusOffered]) by by left.
  destruct (stage_waiting _ Hw) as (Hl & Ho & _). split; [by left| |intros He|intros He]; [rewrite Ho; by split; [intros [? [=]]|]| |]; exfalso; revert He; apply (bool_decide_unpack _); vm_compute; exact I.
Qed.
Notation aging := (every (steps_by ages)).
Lemma aging_leases daemon now : aging (db_stmt (exec (update_sessions (lease_expired daemon now) (set_offer terminalStatusPending None now)))).
Proof.
  apply every_update; [apply _|done|]. intros t. apply ages_offer; [|by left]. intros r. unfold lease_expired. rewrite !andb_true_iff, !bool_decide_eq_true. tauto.
Qed.
Lemma aging_offers daemon ids now : aging (db_stmt (exec (update_sessions (still_pending daemon ids) (set_offer terminalStatusOffered (Some now) now)))).
Proof.
  apply every_update; [apply _|done|]. intros t. apply ages_offer; [|right; eauto]. intros r. unfold still_pending. rewrite !andb_true_iff, !bool_decide_eq_true. tauto.
Qed.
Lemma live_with_live id r : live_with id r = true -> is_live r = true.
Proof. unfold live_with. by intros [_ ?]%andb_true_iff. Qed.
Lemma aging_close id now : aging (db_stmt (exec (update_sessions (live_with id) (set_closed now)))).
Proof.
  apply every_update; [apply _|done|]. intros t. apply ages_end; [apply live_with_live|]. intros r. repeat eexists. apply closed_over.
Qed.
Lemma aging_end id status code error bi bo now : status ∈ terminalStatusesOver ->
  aging (db_stmt (exec (update_sessions (live_with id) (set_end status code error bi bo now)))).
Proof. intros Hs. apply every_update; [apply _|done|]. intros t. apply ages_end; [apply live_with_live|]. intros r. by repeat eexists. Qed.
Lemma aging_create src d account invokedBy shell user tmux cols rows ticket :
  aging (db_stmt (exec (create_session (new_session src d account invokedBy shell user tmux cols rows ticket)))).
Proof. apply every_create; [apply _|]. intros t Hn. apply ages_create; [done|apply new_session_wf]. Qed.
Hint Resolve aging_leases aging_offers aging_close aging_create : go.
Lemma aging_pending src daemon secret : aging (ListPendingTerminalSessions src daemon secret).
Proof. unfold ListPendingTerminalSessions. every_call. Qed.
Hint Resolve aging_pending : go.
Definition in_context (c : terminal_call) : bool := match c with CTicket _ _ _ _ | CAttach _ _ _ _ | CSweep _ => true | _ => false end.
Lemma aging_serve c : in_context c = false -> aging (serve c).
Proof.
  destruct c; cbn [serve in_context]; try done; intros _; apply every_bind; try done.
  - unfold CreateTerminalSession. every_call.
  - unfold listPendingTerminalSessions, park. every_call.
  - unfold FinishTerminalSession. case_bool_decide as Hs; [|done]. apply every_bind; [done|intros _]. apply every_bind; [|done]. by apply aging_end.
  - unfold ListTerminalSessions. every_call.
  - unfold CloseTerminalSession. every_call.
Qed.

Lemma update_where_one `{Countable K} {A} (Q : A -> bool) (f : A -> A) (m : gmap K A) k r : m !! k = Some r -> Q r = true -> (forall i y, m !! i = Some y -> Q y = true -> i = k) ->
  update_where Q f m = <[k := f r]> m.
Proof.
  intros Hr HQ Hone. apply map_eq. intros i. unfold update_where. rewrite lookup_fmap. destruct (decide (i = k)) as [->|Hi].
  - rewrite Hr, lookup_insert_eq. cbn. by rewrite HQ.
  - rewrite lookup_insert_ne by done. destruct (m !! i) as [y|] eqn:E; [|done]. cbn. destruct (Q y) eqn:Ey; [|done]. by destruct Hi; eapply Hone.
Qed.
Lemma update_session Q f t id r : (forall k q, t_sessions t !! k = Some q -> ts_ID q = k) -> t_sessions t !! id = Some r -> Q r = true -> (forall q, Q q = true -> ts_ID q = id) ->
  with_sessions (update_where Q f) t = with_sessions <[id := f r]> t.
Proof. intros Hk Hr HQ Hid. unfold with_sessions. f_equal. apply update_where_one; [done..|]. intros i y Hy HQy. rewrite <-(Hk _ _ Hy). by apply Hid. Qed.
(** A handshake alone. *)
Lemma ticket_inv src daemon session ticket s r s' : run_alone (AuthenticateTerminalTicket src daemon session ticket) s = (r, s') ->
  let now := c_now (tm_call src) in let id := TrimSpace session in
  match r with
  | Err _ => crows s' = crows s
  | Ok v => exists row, t_sessions (crows s) !! id = Some row /\ ts_DaemonID row = daemon /\ is_live row = true /\ now <= ts_CreatedAt row + terminalTicketTTL /\
      ts_TicketHash row <> [] /\ hashTerminalTicket ticket = ts_TicketHash row /\ v = viewTerminalSession row /\
      crows s' = with_sessions <[id := set_ticket [] now row]> (crows s)
  end.
Proof.
  unfold AuthenticateTerminalTicket. cbv zeta. generalize (c_now (tm_call src)). intros now Hs.
  apply alone_done in Hs as [(e & _ & -> & ->)|([] & _ & Hs)]; [done|].
  apply (alone_query _ _ _ _ _ _ _ _ (first_session_law _ _)) in Hs as [((e & ->) & Hr & _)|(row & s1 & [Hrow Hd] & Hr1 & _ & Hs)]; [done|].
  apply alone_done in Hs as [(e & _ & -> & ->)|([] & Ht%guard_ok & Hs)]; [done|]. unfold ticket_error in Ht.
  rewrite !orb_false_iff, !negb_false_iff, bool_decide_eq_true, bool_decide_eq_false, Z.ltb_ge in Ht. destruct Ht as [[[Hl Hn] Hne] Hh].
  apply keyed_sessions in Hrow as Hid. rewrite Hid in Hs. assert (Hq : with_ticket (TrimSpace session) (ts_TicketHash row) row = true).
  { unfold with_ticket. by rewrite !bool_decide_true. }
  apply (alone_change _ _ _ _ _ _ _ (update_sessions_law (with_ticket (TrimSpace session) (ts_TicketHash row)) (set_ticket [] now) (fun r => eq_refl))) in Hs
    as [((e & ->) & Hr & _)|(n & s2 & [Hcount Hr2] & _ & Hs)]; [congruence|].
  assert (Hn0 : (n =? 0) = false).
  { apply Z.eqb_neq. subst n. intros H0. assert (He : matching (with_ticket (TrimSpace session) (ts_TicketHash row)) (t_sessions (crows s1)) = ∅) by (apply map_size_empty_inv; lia).
    assert (Hin : matching (with_ticket (TrimSpace session) (ts_TicketHash row)) (t_sessions (crows s1)) !! TrimSpace session = Some row) by (apply map_lookup_filter_Some; by rewrite Hr1).
    by rewrite He, lookup_empty in Hin. }
  rewrite Hn0 in Hs. cbn in Hs. injection Hs as <- <-. exists row. split_and!; try done. rewrite Hr2, Hr1.
  apply update_session; [apply keyed_sessions|done|done|]. intros q. unfold with_ticket. by intros [Hi%bool_decide_eq_true _]%andb_true_iff.
Qed.
(** C7. A ticket is taken within a minute, from a session that is not over, and only when
    its hash is the one stored, which is then emptied. Whatever calls are served at the
    same time, in whatever order their statements come, and whatever fails: at most one
    handshake is given a session, so a ticket opens one socket at most. (The generator
    names no two sessions the same.) *)
Theorem ticket_once :
  (forall src daemon session ticket s v s', run_alone (AuthenticateTerminalTicket src daemon session ticket) s = (Ok v, s') ->
     exists row, t_sessions (crows s) !! TrimSpace session = Some row /\ ts_DaemonID row = daemon /\ is_live row = true /\
       c_now (tm_call src) <= ts_CreatedAt row + terminalTicketTTL /\ ts_TicketHash row <> [] /\ hashTerminalTicket ticket = ts_TicketHash row /\
       v = viewTerminalSession row /\ crows s' = with_sessions <[TrimSpace session := set_ticket [] (c_now (tm_call src)) row]> (crows s)) /\
  (forall cs ls s s' ps' id i j, NoDup (omap made_by cs) -> Forall (fun id => t_sessions (crows s) !! id = None) (omap made_by cs) ->
     pool_steps ls (s, serve <$> cs) = Some (s', ps') -> opened_by cs ps' id i -> opened_by cs ps' id j -> i = j).
Proof.
  split; [intros src daemon session ticket s v s' Hs; exact (ticket_inv _ _ _ _ _ _ _ Hs)|].
  intros cs ls s s' ps' id i j Hn Hf Hs. apply (tk_once cs s' ps'). eapply (pool_invariant (tickets_ok cs)); [|by apply tickets_start|exact Hs].
  intros. by eapply tickets_step.
Qed.
Lemma attach_inv src daemon secret session s r s' : run_alone (AttachTerminalAgent src daemon secret session) s = (r, s') ->
  let now := c_now (tm_call src) in let id := TrimSpace session in
  match r with
  | Err _ => crows s' = crows s
  | Ok v => knows_secret daemon secret (crows s) /\ exists row, t_sessions (crows s) !! id = Some row /\ ts_DaemonID row = daemon /\ is_live row = true /\
      (crows s' = crows s /\ v = viewTerminalSession row /\ ts_Status row = terminalStatusActive \/
       crows s' = with_sessions <[id := set_active now row]> (crows s) /\ v = viewTerminalSession (set_active now row))
  end.
Proof.
  unfold AttachTerminalAgent. cbv zeta. generalize (c_now (tm_call src)). intros now Hs.
  apply alone_with_daemon in Hs as [(-> & Hr & _)|(d & s1 & Hk & Hr1 & _ & Hs)]; [done|].
  apply alone_done in Hs as [(e & _ & -> & ->)|([] & _ & Hs)]; [done|].
  apply (alone_query _ _ _ _ _ _ _ _ (first_session_law _ _)) in Hs as [((e & ->) & Hr & _)|(row & s2 & [Hrow Hd] & Hr2 & _ & Hs)]; [congruence|].
  apply alone_done in Hs as [(e & _ & -> & ->)|([] & Hl%guard_ok%negb_false_iff & Hs)]; [congruence|]. rewrite Hr1 in Hrow. apply keyed_sessions in Hrow as Hid.
  destruct (negb _ || _) eqn:Ea.
  - apply (alone_change _ _ _ _ _ _ _ (update_sessions_law (with_id (ts_ID row)) (set_active now) (fun r => eq_refl))) in Hs
      as [((e & ->) & Hr & _)|(n & s3 & [_ Hr3] & _ & Hs)]; [congruence|]. cbn in Hs. injection Hs as <- <-. split; [done|]. exists row. split_and!; try done. right. split; [|done].
    rewrite Hr3, Hr2, Hr1, Hid. apply update_session; [apply keyed_sessions|done|unfold with_id; by rewrite bool_decide_true|]. intros q. apply bool_decide_eq_true.
  - injection Hs as <- <-. split; [done|]. exists row. split_and!; try done. left. apply orb_false_iff in Ea as [Ea%negb_false_iff%bool_decide_eq_true _].
    split_and!; [congruence|done|done].
Qed.
Lemma ages_insert t id r r' : t_sessions t !! id = Some r -> lives r r' -> ages t (with_sessions <[id := r']> t).
Proof.
  intros Hr Hl. split; cbn; intros k q; [|intros Hq Hn; destruct (decide (k = id)) as [->|Hk]; [congruence|by rewrite lookup_insert_ne, Hn in Hq]].
  intros Hq. destruct (decide (k = id)) as [->|Hk]; [rewrite lookup_insert_eq|rewrite lookup_insert_ne by done; exists q; split; [done|apply lives_refl]].
  exists r'. split; [done|by replace q with r by congruence].
Qed.
(** The sweep alone: what it ends and what it removes. *)
Lemma sweep_inv now s r s' : run_alone (SweepTerminalSessions now) s = (r, s') ->
  ages (crows s) (crows s') \/
  exists t, ages (crows s) t /\ crows s' = with_sessions (filter (fun kv => past_retention now kv.2 = false)) t /\
    forall id q, t_sessions (crows s) !! id = Some q -> exists q', t_sessions t !! id = Some q' /\ (q' = q \/ ts_UpdatedAt q' = now).
Proof.
  unfold SweepTerminalSessions. intros Hs.
  apply (alone_change _ _ _ _ _ _ _ (update_sessions_law (never_attached now) (set_failed ($"not picked up") now) (fun r => eq_refl))) in Hs
    as [((e & ->) & Hr & _)|(n1 & s1 & [_ Hr1] & _ & Hs)]; [left; by rewrite Hr|].
  assert (A1 : ages (crows s) (crows s1)).
  { rewrite Hr1. apply ages_end; [|intros q; repeat eexists; apply failed_over]. intros q. unfold never_attached. rewrite andb_true_iff, bool_decide_eq_true.
    intros [Hw _]. by apply stage_waiting. }
  apply (alone_change _ _ _ _ _ _ _ (update_sessions_law (stale_active now) (set_failed ($"stale session") now) (fun r => eq_refl))) in Hs
    as [((e & ->) & Hr & _)|(n2 & s2 & [_ Hr2] & _ & Hs)]; [left; by rewrite Hr|].
  assert (A2 : ages (crows s) (crows s2)).
  { etrans; [exact A1|]. rewrite Hr2. apply ages_end; [|intros q; repeat eexists; apply failed_over]. intros q. unfold stale_active. rewrite andb_true_iff, bool_decide_eq_true.
    intros [Hw _]. apply (status_live _ _ Hw). right. right. by left. }
  apply (alone_change _ _ _ _ _ _ _ (delete_sessions_law (past_retention now))) in Hs as [((e & ->) & Hr & _)|(n3 & s3 & Hr3 & _ & Hs)]; [left; by rewrite Hr|].
  cbn in Hs. injection Hs as <- <-. right. exists (crows s2). split_and!; [done|done|]. intros id q Hq. rewrite Hr2, Hr1. cbn. unfold update_where.
  rewrite !lookup_fmap, Hq. cbn. eexists. split; [done|]. destruct (never_attached now q); [right; by destruct (stale_active now _)|]. destruct (stale_active now q); [by right|by left].
Qed.
(** One call alone. *)
Definition kept c r (o : option TerminalSession) : Prop :=
  match o with Some r' => lives r r' | None => exists now, c = CSweep now /\ past_retention now r = true end.
Lemma serve_ages c s r s' : run_alone (serve c) s = (r, s') ->
  (forall id q, t_sessions (crows s) !! id = Some q -> kept c q (t_sessions (crows s') !! id)) /\
  (forall id q', t_sessions (crows s') !! id = Some q' -> t_sessions (crows s) !! id = None -> session_wf q').
Proof.
  intros Hs. assert (Hages : ages (crows s) (crows s') -> (forall id q, t_sessions (crows s) !! id = Some q -> kept c q (t_sessions (crows s') !! id)) /\
    (forall id q', t_sessions (crows s') !! id = Some q' -> t_sessions (crows s) !! id = None -> session_wf q')).
  { intros [R N]. split; [|exact N]. intros id q (q' & -> & Hl)%R. exact Hl. }
  destruct (in_context c) eqn:Ec.
  2: { apply Hages. apply (every_run_alone (steps_by ages) _ _ _ _) in Hs; [done| | |by apply aging_serve]; [intros u; apply ages_refl|]. intros u1 u2 u3. apply ages_trans. }
  destruct c as [|src daemon session ticket| |src daemon secret session| | | |now]; try done; cbn [serve] in Hs; unfold answering in Hs; rewrite run_alone_bind in Hs.
  - destruct (run_alone (AuthenticateTerminalTicket src daemon session ticket) s) as [r0 s0] eqn:E. apply ticket_inv in E. apply Hages. destruct r0 as [v|e]; injection Hs as <- <-; [|by rewrite E].
    destruct E as (row & Hrow & _ & Hl & _ & _ & _ & _ & ->). eapply ages_insert; [done|by apply lives_ticket].
  - destruct (run_alone (AttachTerminalAgent src daemon secret session) s) as [r0 s0] eqn:E. apply attach_inv in E. apply Hages. destruct r0 as [v|e]; injection Hs as <- <-; [|by rewrite E].
    destruct E as (_ & row & Hrow & _ & Hl & [(-> & _)|(-> & _)]); [done|]. eapply ages_insert; [done|by apply lives_active].
  - destruct (run_alone (SweepTerminalSessions now) s) as [r0 s0] eqn:E. assert (s0 = s') as -> by (by destruct r0; injection Hs as _ <-). apply sweep_inv in E as [Ha|(t & Ha & -> & Hold)]; [by apply Hages|].
    cbn [t_sessions with_sessions]. split.
    + intros id q Hq. destruct (Hold _ _ Hq) as (q' & Hq' & Hcase). unfold kept. destruct (filter _ _ !! id) as [x|] eqn:Ef.
      * apply map_lookup_filter_Some in Ef as [Hx _]. destruct (ag_rows _ _ Ha _ _ Hq) as (y & Hy & Hl). by replace x with y by congruence.
      * apply map_lookup_filter_None in Ef as [Hx|Hx]; [congruence|]. specialize (Hx _ Hq'). cbn in Hx. apply not_false_is_true in Hx. exists now. split; [done|].
        destruct Hcase as [<-|Hu]; [done|]. exfalso. unfold past_retention in Hx. rewrite Hu in Hx. apply andb_true_iff in Hx as [_ Hx%Z.ltb_lt]. unfold terminalRetention, seconds in Hx. lia.
    + intros id q' [Hq' _]%map_lookup_filter_Some Hn. by eapply ag_new.
Qed.

Fixpoint serve_all (cs : list terminal_call) (s : cstate) : cstate :=
  match cs with [] => s | c :: cs => serve_all cs (run_alone (serve c) s).2 end.
(** C27. Calls one after the other, whatever fails: a session goes from waiting to active
    to over and never back, what it is stays the same, its ticket is only ever used up,
    and once over it never changes until a sweep removes it a week later; its row is
    always in order: an end is recorded exactly when it is over, a start when it is
    active, a lease when it is offered. *)
Theorem terminal_lifecycle cs s : map_Forall (fun _ => session_wf) (t_sessions (crows s)) ->
  map_Forall (fun _ => session_wf) (t_sessions (crows (serve_all cs s))) /\
  forall c r s', run_alone (serve c) (serve_all cs s) = (r, s') -> forall id q, t_sessions (crows (serve_all cs s)) !! id = Some q ->
    match t_sessions (crows s') !! id with
    | Some q' => same_session q q' /\ (stage q <= stage q')%nat /\ (is_over q = true -> q' = q)
    | None => exists now, c = CSweep now /\ is_over q = true /\ ts_UpdatedAt q < now - terminalRetention
    end.
Proof.
  intros Hw. split.
  - revert s Hw. induction cs as [|c cs IH]; intros s Hw; [done|]. cbn [serve_all]. apply IH. destruct (run_alone (serve c) s) as [r s'] eqn:E. cbn.
    apply serve_ages in E as [Hk Hn]. intros id q Hq. destruct (t_sessions (crows s) !! id) as [q0|] eqn:E0; [|by eapply Hn].
    specialize (Hk _ _ E0). unfold kept in Hk. rewrite Hq in Hk. apply (lv_wf _ _ Hk). by eapply Hw.
  - intros c r s' [Hk _]%serve_ages id q Hq. specialize (Hk _ _ Hq). unfold kept in Hk. destruct (t_sessions (crows s') !! id) as [q'|].
    + destruct Hk as [H1 H2 H3 _]. done.
    + destruct Hk as (now & -> & Hp). exists now. split; [done|]. by apply andb_true_iff in Hp as [Ho Ht%Z.ltb_lt].
Qed.

(** ** Registrations *)

(** The table points to waiters that exist. *)
Definition pointers_ok (ws : waiters) : Prop := forall id p, wt_map ws !! id = Some p -> (p < List.length (wt_heap ws))%nat.
Lemma registerWait_ok id now ws p ws' : pointers_ok ws -> registerWait id now ws = (p, ws') ->
  pointers_ok ws' /\ wt_map ws' !! id = Some p /\ exists w, wt_heap ws' !! p = Some w /\ w_at w = now.
Proof.
  intros Hok. unfold registerWait. destruct (wt_map ws !! id) as [q|] eqn:E; intros [= <- <-]; cbn.
  - split_and!; [|done|].
    + intros i j Hi. cbn in *. rewrite length_alter. by eapply Hok.
    + apply Hok in E as Hl. destruct (lookup_lt_is_Some_2 _ _ Hl) as [w Hw]. rewrite list_lookup_alter_eq, Hw. by eexists.
  - split_and!.
    + intros i j. cbn. rewrite length_app. cbn. intros [[<- <-]|[_ Hi]]%lookup_insert_Some; [lia|]. apply Hok in Hi. lia.
    + by rewrite lookup_insert_eq.
    + rewrite lookup_app_r, Nat.sub_diag by lia. by eexists.
Qed.
Lemma release_map id p now ws i q : wt_map (releaseTerminalWait id p now ws) !! i = Some q -> wt_map ws !! i = Some q.
Proof.
  unfold releaseTerminalWait. cbn. intros Hi. assert (Hd : (if bool_decide (wt_map ws !! id = Some p) then delete id (wt_map ws) else wt_map ws) !! i = Some q).
  { revert Hi. generalize (if bool_decide (wt_map ws !! id = Some p) then delete id (wt_map ws) else wt_map ws). intros m. destruct (10000 <? _); [|done].
    by intros [Hi _]%map_lookup_filter_Some. }
  case_bool_decide; [by apply lookup_delete_Some in Hd as [_ Hd]|done].
Qed.
End facts.

(** ** A small cloud *)

#[local] Existing Instance demo_crypto.
Definition relay_daemon : Daemon := mkDaemon ($"d1") ($"ada") ($"ws") ($"box") ($"hash:old") ($"host-1") true true None None 0.
Definition relay_workspaces : WorkspaceClient :=
  mkWorkspaceClient (fun w a _ => Ok (bool_decide (w = $"ws" /\ a = $"ada"))) (fun _ => Ok {[ $"terminal_sessions" := 1 ]}).
Definition relay_source (now : Z) (id : string) : TerminalSource :=
  mkTerminalSource (mkCall now (Ok ($id)) (Ok ($"fresh")) (fun p => Ok ($"hash:" ++ p)) (Some relay_workspaces)) ($id) (Ok ($"0123456789abcdef0123456789abcdef")).
Definition relay_state : cstate := mkCState (D := ListDatabase) (mkListDB [relay_daemon] [] [] [] no_feed []) (mkWaiters [] ∅).
Definition relay_create (now : Z) (id : string) : terminal_call := CCreate (relay_source now id) ($"ada") ($"d1") ($"@ada") ($"/bin/bash") [] [] 80 24.
Definition relay_pickup (now : Z) : terminal_call :=
  CPickup (relay_source now "p") (relay_source now "p") (relay_source now "p") ($"d1") ($"old") 0.
Definition relay_one : cstate := serve_all [relay_create 0 "s1"] relay_state.
Definition relay_ticket : str := match newTerminalTicket (relay_source 0 "s1") with Ok t => t | Err _ => [] end.
Definition answers_of (ps : list (prog cstate terminal_answer)) : list (option terminal_answer) :=
  (fun p => match p with Done (Ok a) => Some a | _ => None end) <$> ps.
Definition sessions_of (s : cstate) : list (str * str * bool) :=
  (fun r => (ts_ID r, ts_Status r, is_Some_b (ts_EndedAt r))) <$> values (t_sessions (crows s)).

(** The sessions and the answers after the calls have taken these steps. *)
Definition after_steps (ls : list label) (s : cstate) (cs : list terminal_call) : option (list (str * str * bool) * list (option terminal_answer)) :=
  (fun c => (sessions_of c.1, answers_of c.2)) <$> pool_steps ls (s, serve <$> cs).

(** What the interleaving of statements breaks: two creations pass the same count, and
    the workspace has more live sessions than its quota; an attach that has read a
    session before a close ended it makes it active again, its end on record; two
    pickups lease the same session. *)
Theorem terminal_races :
  (exists ls a b, session_limit {[ $"terminal_sessions" := 1 ]} = 1 /\ after_steps ls relay_state [relay_create 0 "s1"; relay_create 0 "s2"] =
     Some ([($"s2", terminalStatusPending, false); ($"s1", terminalStatusPending, false)], [Some (ATicket a); Some (ATicket b)])) /\
  (exists ls v, after_steps ls relay_one [CAttach (relay_source 1 "x") ($"d1") ($"old") ($"s1"); CClose (relay_source 2 "y") ($"ada") ($"d1") ($"s1")] =
     Some ([($"s1", terminalStatusActive, true)], [Some (AView v); Some ADone])) /\
  (exists ls v, sv_ID v = $"s1" /\ after_steps ls relay_one [relay_pickup 1; relay_pickup 1] =
     Some ([($"s1", terminalStatusOffered, false)], [Some (AViews [v]); Some (AViews [v])])).
Proof.
  split_and!.
  - exists [Next 0; Next 0; Next 1; Next 1; Next 0; Next 0; Next 1; Next 1]. do 2 eexists. split; vm_compute; reflexivity.
  - exists [Next 0; Next 0; Next 1; Next 1; Next 1; Next 0]. eexists. vm_compute. reflexivity.
  - exists [Next 0; Next 0; Next 0; Next 0; Next 1; Next 1; Next 1; Next 1; Next 0; Next 0; Next 1; Next 1]. eexists. split; [|vm_compute; reflexivity]. reflexivity.
Qed.

Lemma session_created_exact_witness :
  let out := run_alone (CreateTerminalSession (relay_source 0 "s1") ($"ada") ($"d1") ($"@ada") ($"/bin/bash") [] [] 80 24) relay_state in
  exists a, out.1 = Ok a /\ t_sessions (crows relay_state) !! ($"s1") = None /\ confirmed (tm_call (relay_source 0 "s1")) ($"ada") ($"ws").
Proof.
  intros out. pose proof (session_created_exact (D := ListDatabase) (relay_source 0 "s1") ($"ada") ($"d1") ($"@ada") ($"/bin/bash") [] [] 80 24 relay_state out.1 out.2 (surjective_pairing _)) as Hc.
  destruct (out.1) as [a|e] eqn:E; [|vm_compute in E; discriminate E]. exists a. split; [reflexivity|].
  destruct Hc as (d & quotas & sh & us & tm & tk & Hd & _ & Hconf & _ & _ & _ & Hn & _). split; [exact Hn|].
  vm_compute in Hd. injection Hd as <-. exact Hconf.
Defined.
Definition relay_handshakes : list terminal_call :=
  [CTicket (relay_source 1 "x") ($"d1") ($"s1") relay_ticket; CTicket (relay_source 1 "y") ($"d1") ($" s1") relay_ticket].
Lemma answers_lookup ps i a : answers_of ps !! i = Some (Some a) -> ps !! i = Some (Done (Ok a)).
Proof. unfold answers_of. rewrite list_lookup_fmap, fmap_Some. intros ([[b|e]|X m k|w k] & Hp & [=]). by subst. Qed.
(** Two handshakes with one ticket, the second the first to reach its update. *)
Definition relay_race : list label := [Next 0; Next 1; Next 1; Next 0]%nat.
Lemma ticket_once_witness :
  match pool_steps relay_race (relay_one, serve <$> relay_handshakes) with
  | Some (s, ps) => opened_by relay_handshakes ps ($"s1") 1 /\ forall i, opened_by relay_handshakes ps ($"s1") i -> i = 1%nat
  | None => False
  end.
Proof.
  assert (Ha : exists v rest, (fun x => x.2) <$> after_steps relay_race relay_one relay_handshakes = Some [None; Some (AView v)] /\ rest = tt) by (do 2 eexists; split; [vm_compute; reflexivity|reflexivity]).
  destruct Ha as (v & _ & Ha & _). unfold after_steps in Ha.
  destruct (pool_steps relay_race (relay_one, serve <$> relay_handshakes)) as [[s ps]|] eqn:E; [|discriminate Ha].
  assert (Ho : opened_by relay_handshakes ps ($"s1") 1).
  { exists (relay_source 1 "y"), ($"d1"), ($" s1"), relay_ticket, (AView v). split; [reflexivity|]. split; [vm_compute; reflexivity|].
    apply answers_lookup. injection Ha as Ha. cbn [snd] in Ha. by rewrite Ha. }
  split; [exact Ho|]. intros i Hi.
  exact (proj2 (ticket_once (D := ListDatabase)) relay_handshakes _ relay_one s ps ($"s1") i 1%nat NoDup_nil_2 (Forall_nil_2 _) E Hi Ho).
Defined.
Lemma pickup_exact_witness :
  let out := run_alone (ListPendingTerminalSessions (relay_source 1 "p") ($"d1") ($"old")) relay_one in
  exists l, out.1 = Ok l /\ sv_ID <$> l = [$"s1"] /\
    forall src2 l2 s2', run_alone (ListPendingTerminalSessions src2 ($"d1") ($"old")) out.2 = (Ok l2, s2') -> c_now (tm_call src2) <= 90000000001 -> $"s1" ∉ sv_ID <$> l2.
Proof.
  intros out. pose proof (pickup_exact (D := ListDatabase) (relay_source 1 "p") ($"d1") ($"old") relay_one out.1 out.2 (surjective_pairing _)) as Hp.
  destruct (out.1) as [l|e] eqn:E; [|vm_compute in E; discriminate E]. exists l. split; [reflexivity|].
  assert (Hl : sv_ID <$> l = [$"s1"]) by (vm_compute in E; injection E as <-; vm_compute; reflexivity). split; [exact Hl|].
  destruct Hp as (_ & _ & found & _ & _ & _ & Hx). intros src2 l2 s2' Hs Ht. apply (Hx src2 out.2 l2 s2' eq_refl Hs).
  - exact Ht.
  - rewrite Hl. by left.
Defined.
Lemma terminal_lifecycle_witness :
  map_Forall (fun _ => session_wf) (t_sessions (crows relay_state)) /\ map_Forall (fun _ => session_wf) (t_sessions (crows (serve_all [relay_create 0 "s1"; relay_pickup 1] relay_state))).
Proof.
  assert (H0 : map_Forall (fun _ => session_wf) (t_sessions (crows relay_state))) by (intros id q Hq; vm_compute in Hq; discriminate Hq).
  split; [exact H0|]. exact (proj1 (terminal_lifecycle (D := ListDatabase) [relay_create 0 "s1"; relay_pickup 1] relay_state H0)).
Defined.
