(* ===== verification/CloudWakeup.v ===== *)
(** * CloudWakeup: a session created while its daemon polls wakes the poll

    The long poll of [internal/handler/terminal.go] with [CreateTerminalSession] and the
    waiters of [internal/cloud/terminal.go], as programs of one pool: whatever other
    requests the cloud serves in between, at any statement, a poll does not park past a
    session that was created after it began. *)

From S2P Require Import Prelude GoStr Alarms CloudDB CloudFeedDB Cloud CloudFacts Interleave CloudTerminalDB CloudTerminal CloudTerminalFacts.
Open Scope Z_scope.

Section wakeup.
Context `{TerminalDatabase, Crypto}.
Notation P := (prog cstate).

(** ** What the calls do to the waiters *)

(** A wake, a release and the token a woken poll takes; a registration is apart. *)
Inductive wait_op := WWake (daemonID : str) | WRelease (daemonID : str) (p : nat) (now : Z) | WTake (p : nat).
Definition do_wait (op : wait_op) (ws : waiters) : waiters :=
  match op with
  | WWake daemonID => wakeTerminalWaiters daemonID ws
  | WRelease daemonID p now => releaseTerminalWait daemonID p now ws
  | WTake p => match wt_heap ws !! p with Some w => mkWaiters (<[p := set_token false w]> (wt_heap ws)) (wt_map ws) | None => ws end
  end.
Definition does (may : wait_op -> Prop) (s s' : cstate) : Prop :=
  cs_wait s' = cs_wait s \/ exists op, may op /\ cs_wait s' = do_wait op (cs_wait s).
(** Every step of a program does one of these at most. *)
Fixpoint issues (may : wait_op -> Prop) {A} (q : P A) : Prop :=
  match q with
  | Done _ => True
  | Stmt m k => (forall s x s', m s = (x, s') -> does may s s') /\ forall x, issues may (k x)
  | Park w k => may (WTake w) /\ forall b, issues may (k b)
  end.
Lemma issues_bind may {A B} (q : P A) (f : A -> P B) : issues may q -> (forall a, issues may (f a)) -> issues may (prog_bind q f).
Proof. intros Hq Hf. induction q as [[a|e]|X m k IH|w k IH]; cbn in *; [apply Hf|done| |]; (split; [apply Hq|intros x; apply IH, Hq]). Qed.
Lemma issues_db may {A} (m : M A) : issues may (db_stmt m).
Proof. split; [|done]. intros s x s'. destruct (m (cs_db s)) as [r d]. intros [= _ <-]. by left. Qed.
Lemma issues_wait (may : wait_op -> Prop) op {A} (f : waiters -> A * waiters) : (forall ws, (f ws).2 = do_wait op ws) -> may op -> issues may (wait_step f).
Proof.
  intros Hf Hm. split; [|done]. intros s x s'. specialize (Hf (cs_wait s)). destruct (f (cs_wait s)) as [a ws]. cbn in Hf. subst ws. intros [= _ <-].
  right. by exists op.
Qed.
Lemma issues_moves may {A} s (q : P A) s' q' : issues may q -> moves s q s' q' -> does may s s' /\ issues may q'.
Proof.
  destruct q as [r|X m k|w k]; cbn; [done| |].
  - intros [Hm Hk] (x & Hx & ->). split; [by eapply Hm|apply Hk].
  - intros [Hm Hk] [[-> ->]|[Ht ->]]; (split; [|apply Hk]); [by left|]. right. exists (WTake w). split; [done|]. cbn.
    unfold take_token, cstate_waiting in Ht. destruct (wt_heap (cs_wait s) !! w) as [t|]; [|done]. destruct (w_ch t); [|done]. by injection Ht as <-.
Qed.
(** A program that does not park. *)
Fixpoint no_park {A} (q : P A) : Prop :=
  match q with Done _ => True | Stmt m k => forall x, no_park (k x) | Park w k => False end.
Lemma no_park_bind {A B} (q : P A) (f : A -> P B) : no_park q -> (forall a, no_park (f a)) -> no_park (prog_bind q f).
Proof. intros Hq Hf. induction q as [[a|e]|X m k IH|w k IH]; cbn in *; [apply Hf|done| |done]. intros x. apply IH, Hq. Qed.
Lemma no_park_moves {A} s (q : P A) s' q' : no_park q -> moves s q s' q' -> no_park q'.
Proof. destruct q as [r|X m k|w k]; cbn; [done| |done]. intros Hk (x & _ & ->). apply Hk. Qed.
(** Open a call into its statements. *)
Ltac statements :=
  repeat match goal with
  | |- True => exact I
  | |- issues _ (Done _) => exact I
  | |- no_park (Done _) => exact I
  | |- issues _ (db_stmt _) => apply issues_db
  | |- issues _ (prog_bind _ _) => apply issues_bind; [|intros ?]
  | |- no_park (prog_bind _ _) => apply no_park_bind; [|intros ?]
  | |- no_park (db_stmt _) => intros ?
  | |- no_park (wait_step _) => intros ?
  | |- _ => progress unfold with_daemon, refuse, answering
  | |- _ => progress cbv zeta
  | |- _ => case_match
  end.
Definition wakes (op : wait_op) : Prop := exists id, op = WWake id.
Lemma create_issues src account daemon invoked shell user tmux cols rows :
  issues wakes (CreateTerminalSession src account daemon invoked shell user tmux cols rows).
Proof.
  unfold CreateTerminalSession. statements. apply (issues_wait _ (WWake (dm_ID a))); [done|by eexists].
Qed.
Lemma pending_issues may src daemon secret : issues may (ListPendingTerminalSessions src daemon secret).
Proof. unfold ListPendingTerminalSessions. statements. Qed.
Lemma pending_no_park src daemon secret : no_park (ListPendingTerminalSessions src daemon secret).
Proof. unfold ListPendingTerminalSessions. statements. Qed.

(** ** Whose waiter it is *)

(** Each waiter belongs to one daemon, under which alone the table may list it. *)
Definition owned (own : list str) (ws : waiters) : Prop :=
  List.length own = List.length (wt_heap ws) /\ forall id p, wt_map ws !! id = Some p -> own !! p = Some id.
Lemma owned_op own ws op : owned own ws -> owned own (do_wait op ws).
Proof.
  intros [Hl Hm]. destruct op as [id|id p now|p]; cbn.
  - unfold wakeTerminalWaiters. destruct (wt_map ws !! id); [|done]. split; cbn; [by rewrite length_alter|done].
  - split; [done|]. intros i q Hi%release_map. by apply Hm.
  - destruct (wt_heap ws !! p); [|done]. split; cbn; [by rewrite length_insert|done].
Qed.
Lemma owned_does own may s s' : owned own (cs_wait s) -> does may s s' -> owned own (cs_wait s').
Proof. intros Ho [->|(op & _ & ->)]; [done|by apply owned_op]. Qed.
Lemma owned_register own ws id now p ws' : owned own ws -> registerWait id now ws = (p, ws') ->
  exists own', own `prefix_of` own' /\ owned own' ws' /\ own' !! p = Some id.
Proof.
  intros [Hl Hm]. unfold registerWait. destruct (wt_map ws !! id) as [q|] eqn:E; intros [= <- <-].
  - exists own. split_and!; [done| |by apply Hm]. split; cbn; [by rewrite length_alter|done].
  - exists (own ++ [id]). split_and!; [by eexists| |].
    + split; cbn; [by rewrite !length_app, Hl|]. intros i q [[<- <-]|[_ Hi]]%lookup_insert_Some; [rewrite <-Hl; by apply list_lookup_middle|].
      by apply lookup_app_l_Some, Hm.
    + rewrite <-Hl. by apply list_lookup_middle.
Qed.

(** ** Where a call is *)

(** A poll after its registration. *)
Definition polling (before after : TerminalSource) (daemonID secret : str) (wait : Z) (p : nat) : P terminal_answer :=
  answering AViews (
    let wait := Z.min wait terminalMaxWait in
    await! sessions := ListPendingTerminalSessions before daemonID secret in
    if bool_decide (sessions = []) && (0 <? wait) then
      await! _ := park daemonID p (c_now (tm_call after)) wait in
      ListPendingTerminalSessions after daemonID secret
    else
      await! _ := park daemonID p (c_now (tm_call after)) 0 in
      Done (Ok sessions)).
Definition registers (id : str) (now : Z) (s : cstate) : nat * cstate := let '(p, ws) := registerWait id now (cs_wait s) in (p, mkCState (cs_db s) ws).
Lemma serve_poll registered before after id secret wait :
  serve (CPickup registered before after id secret wait) = Stmt (registers id (c_now (tm_call registered))) (polling before after id secret wait).
Proof. reflexivity. Qed.
Definition poll_ops (id : str) (p : nat) (now : Z) (op : wait_op) : Prop := op = WRelease id p now \/ op = WTake p.
Lemma park_issues id p now wait : issues (poll_ops id p now) (park id p now wait).
Proof.
  assert (Hr : forall b : bool, issues (poll_ops id p now) (await! _ := wait_step (fun ws => (tt, releaseTerminalWait id p now ws)) in Done (Ok b) : P bool)).
  { intros b. apply issues_bind; [|done]. apply (issues_wait _ (WRelease id p now)); [done|by left]. }
  unfold park. case_match; [apply Hr|]. split; [by right|apply Hr].
Qed.
Lemma polling_issues before after id secret wait p : issues (poll_ops id p (c_now (tm_call after))) (polling before after id secret wait p).
Proof.
  unfold polling. statements; try apply pending_issues; apply park_issues.
Qed.
(** A poll is before its registration, or on with the waiter of its daemon; the others
    wake at most. *)
Definition position (own : list str) (c : terminal_call) (q : P terminal_answer) : Prop :=
  match c with
  | CPickup _ _ after id _ _ => q = serve c \/ exists p, own !! p = Some id /\ issues (poll_ops id p (c_now (tm_call after))) q
  | _ => issues wakes q
  end.
Lemma position_grows own own' c q : own `prefix_of` own' -> position own c q -> position own' c q.
Proof.
  intros Hp. destruct c; cbn; try done. intros [?|(p & Hl & Hq)]; [by left|right]. exists p. split; [by eapply prefix_lookup_Some|done].
Qed.
Lemma position_serve own c : position own c (serve c).
Proof.
  destruct c; cbn [position]; try (by left); cbn [serve]; statements; try apply create_issues.
  all: unfold AuthenticateTerminalTicket, AttachTerminalAgent, FinishTerminalSession, ListTerminalSessions, CloseTerminalSession, SweepTerminalSessions; statements.
Qed.
Lemma position_moves own c s q s' q' : owned own (cs_wait s) -> position own c q -> moves s q s' q' ->
  exists own', own `prefix_of` own' /\ owned own' (cs_wait s') /\ position own' c q'.
Proof.
  intros Ho Hp Hm. assert (Hin : forall may, issues may q -> owned own (cs_wait s') /\ issues may q').
  { intros may Hq. destruct (issues_moves _ _ _ _ _ Hq Hm) as [Hd Hq']. split; [by eapply owned_does|done]. }
  destruct c as [| |registered before after id secret wait| | | | |]; cbn [position] in *; try (apply Hin in Hp as [? ?]; by exists own).
  destruct Hp as [->|(p & Hl & Hq)].
  - rewrite serve_poll in Hm. destruct Hm as (p & Hx & ->). unfold registers in Hx. destruct (registerWait _ _ _) as [p' ws'] eqn:E.
    injection Hx as -> <-. destruct (owned_register _ _ _ _ _ _ Ho E) as (own' & Hpre & Ho' & Hl). exists own'. split_and!; [done..|].
    right. exists p. split; [done|apply polling_issues].
  - apply Hin in Hq as [? ?]. exists own. split_and!; [done..|]. right. by exists p.
Qed.

(** ** The waiter of one poll *)

(** The waiter [p] of [id] is in the table, its last registration not older than [since];
    a token waits in it. *)
Record registered (id : str) (p : nat) (since : Z) (ws : waiters) : Prop := {
  rg_map : wt_map ws !! id = Some p;
  rg_at : exists w, wt_heap ws !! p = Some w /\ since <= w_at w;
}.
Definition token (p : nat) (ws : waiters) : Prop := exists w, wt_heap ws !! p = Some w /\ w_ch w = true.
(** The table stays registered, and keeps the token. *)
Definition keeps (id : str) (p : nat) (since : Z) (ws ws' : waiters) : Prop :=
  registered id p since ws -> registered id p since ws' /\ (token p ws -> token p ws').
Definition harmless (id : str) (p : nat) (since : Z) (op : wait_op) : Prop :=
  match op with
  | WWake _ => True
  | WRelease id' _ now => id' <> id /\ now <= since + seconds 3600
  | WTake p' => p' <> p
  end.
Lemma heap_keeps id p since ws f q : (forall w, w_at (f w) = w_at w /\ (w_ch w = true -> w_ch (f w) = true)) ->
  keeps id p since ws (mkWaiters (alter f q (wt_heap ws)) (wt_map ws)).
Proof.
  intros Hf [Hm (w & Hw & Ha)]. assert (Hl : exists w', wt_heap (mkWaiters (alter f q (wt_heap ws)) (wt_map ws)) !! p = Some w' /\ w_at w' = w_at w /\ (w_ch w = true -> w_ch w' = true)).
  { cbn. rewrite list_lookup_alter. destruct (decide (q = p)) as [->|_]; rewrite Hw; [|by exists w]. exists (f w). by destruct (Hf w). }
  destruct Hl as (w' & Hw' & Ea & Ec). split; [split; [done|exists w'; rewrite Ea; by split]|].
  intros (w2 & Hw2 & Hc). replace w2 with w in Hc by congruence. exists w'. auto.
Qed.
Lemma op_keeps id p since ws op : harmless id p since op -> keeps id p since ws (do_wait op ws).
Proof.
  destruct op as [id'|id' p' now|p']; cbn [harmless do_wait].
  - intros _. unfold wakeTerminalWaiters. destruct (wt_map ws !! id') as [q|]; [by apply heap_keeps|by intros ?].
  - intros [Hne Ht] [Hm (w & Hw & Ha)]. split; [|by intros (w2 & ? & ?); exists w2]. split; [|by exists w]. unfold releaseTerminalWait. cbn.
    assert (Hd : (if bool_decide (wt_map ws !! id' = Some p') then delete id' (wt_map ws) else wt_map ws) !! id = Some p) by (case_bool_decide; [by rewrite lookup_delete_ne|done]).
    revert Hd. generalize (if bool_decide (wt_map ws !! id' = Some p') then delete id' (wt_map ws) else wt_map ws). intros m Hd. destruct (10000 <? _); [|done].
    apply map_lookup_filter_Some. split; [done|]. unfold quiet_since. cbn. rewrite Hw. apply Z.ltb_ge. lia.
  - intros Hne Hr. destruct (wt_heap ws !! p') as [w'|] eqn:E; [|by split]. destruct Hr as [Hm (w & Hw & Ha)].
    split; [split; [done|]; exists w; cbn; by rewrite list_lookup_insert_ne|]. intros (w2 & Hw2 & Hc). exists w2. cbn. by rewrite list_lookup_insert_ne.
Qed.
Lemma register_keeps own id p since ws id' now : owned own ws -> own !! p = Some id -> id' <> id -> keeps id p since ws (registerWait id' now ws).2.
Proof.
  intros [Hl Ho] Hp Hne [Hm (w & Hw & Ha)]. unfold registerWait. destruct (wt_map ws !! id') as [q|] eqn:E; cbn.
  - assert (q <> p) by (intros ->; specialize (Ho _ _ E); congruence).
    split; [split; [done|]; exists w; cbn; by rewrite list_lookup_alter_ne|]. intros (w2 & Hw2 & Hc). exists w2. cbn. by rewrite list_lookup_alter_ne.
  - assert (Hlk : forall w2, wt_heap ws !! p = Some w2 -> (wt_heap ws ++ [mkWaiter false now]) !! p = Some w2) by (intros; by apply lookup_app_l_Some).
    split; [split; cbn; [by rewrite lookup_insert_ne by congruence|exists w; auto]|]. intros (w2 & Hw2 & Hc). exists w2. cbn. auto.
Qed.
Lemma registered_new id now ws p ws' own : owned own ws -> registerWait id now ws = (p, ws') -> registered id p now ws'.
Proof.
  intros [Hl Ho] Hr. apply registerWait_ok in Hr as (_ & Hm & w & Hw & Ha); [split; [done|]; exists w; split; [done|lia]|].
  intros i q Hq%Ho. apply lookup_lt_Some in Hq. lia.
Qed.
(** A step of a call that is no poll of the daemon, and releases within the hour. *)
Definition apart (id : str) (since : Z) (c : terminal_call) : Prop :=
  match c with CPickup _ _ after id' _ _ => id' <> id /\ c_now (tm_call after) <= since + seconds 3600 | _ => True end.
Lemma does_keeps (may : wait_op -> Prop) id p since s s' : (forall op, may op -> harmless id p since op) -> does may s s' -> keeps id p since (cs_wait s) (cs_wait s').
Proof. intros Hh [->|(op & Hop & ->)]; [by intros ?|]. by apply op_keeps, Hh. Qed.
Lemma others_keep own id p since c s q s' q' : owned own (cs_wait s) -> own !! p = Some id -> apart id since c -> position own c q -> moves s q s' q' ->
  keeps id p since (cs_wait s) (cs_wait s').
Proof.
  intros Ho Hp Ha Hq Hm. assert (Hin : forall may, issues may q -> (forall op, may op -> harmless id p since op) -> keeps id p since (cs_wait s) (cs_wait s')).
  { intros may Hi Hh. destruct (issues_moves _ _ _ _ _ Hi Hm) as [Hd _]. by eapply does_keeps. }
  assert (Hwake : issues wakes q -> keeps id p since (cs_wait s) (cs_wait s')) by (intros Hi; apply (Hin _ Hi); by intros op [? ->]).
  destruct c as [| |registered before after id' secret wait| | | | |]; cbn [position apart] in *; auto. destruct Ha as [Hne Ht], Hq as [->|(p' & Hl & Hq)].
  - rewrite serve_poll in Hm. destruct Hm as (p' & Hx & ->). unfold registers in Hx. pose proof (register_keeps own id p since (cs_wait s) id' (c_now (tm_call registered)) Ho Hp Hne) as Hk.
    destruct (registerWait _ _ _) as [p2 ws']. by injection Hx as _ <-.
  - apply (Hin _ Hq). intros op [->| ->]; cbn; [by split|]. intros ->. congruence.
Qed.

(** ** The poll, and the call that creates *)

(** On its way to the park, where [resumes] holds of what follows, or past it. *)
Fixpoint awaits (p : nat) (resumes : (bool -> P terminal_answer) -> Prop) (q : P terminal_answer) : Prop :=
  no_park q \/
  match q with
  | Done _ => False
  | Stmt m k => (forall s x s', m s = (x, s') -> cs_wait s' = cs_wait s) /\ forall x, awaits p resumes (k x)
  | Park w k => w = p /\ resumes k /\ forall b, no_park (k b)
  end.
Lemma awaits_past p resumes q : no_park q -> awaits p resumes q.
Proof. intros Hq. destruct q; by left. Qed.
(** A poll that is woken, or gives up, releases its waiter and lists again. *)
Definition lists_again (after : TerminalSource) (id secret : str) (p : nat) (k : bool -> P terminal_answer) : Prop :=
  forall b s, run_alone (k b) s = run_alone (answering AViews (ListPendingTerminalSessions after id secret))
    (mkCState (cs_db s) (releaseTerminalWait id p (c_now (tm_call after)) (cs_wait s))).
Lemma release_no_park id p now (b : bool) : no_park (await! _ := wait_step (fun ws => (tt, releaseTerminalWait id p now ws)) in Done (Ok b) : P bool).
Proof. done. Qed.
Lemma awaits_quiet {A B} p resumes (q : P A) (f : A -> P B) (g : B -> P terminal_answer) : issues (fun _ => False) q -> no_park q ->
  (forall a, awaits p resumes (prog_bind (f a) g)) -> awaits p resumes (prog_bind (prog_bind q f) g).
Proof.
  intros Hq Hn Hf. induction q as [[a|e]|X m k IH|w k IH]; cbn in *; [apply Hf|by left| |done]. right. destruct Hq as [Hm Hq].
  split; [|intros x; apply IH; [apply Hq|apply Hn]]. intros s x s' Hx. by destruct (Hm _ _ _ Hx) as [?|(? & [] & _)].
Qed.
Lemma awaits_polling before after id secret wait p : awaits p (lists_again after id secret p) (polling before after id secret wait p).
Proof.
  unfold polling, answering. cbv zeta. apply awaits_quiet; [apply pending_issues|apply pending_no_park|]. intros l. case_match eqn:E.
  - unfold park. rewrite (proj2 (Z.leb_gt _ 0)) by (apply andb_true_iff in E as [_ ?%Z.ltb_lt]; lia). right. split_and!; [done| |].
    + intros b s. reflexivity.
    + intros b. unfold answering. statements. apply pending_no_park.
  - apply awaits_past. unfold park. cbn. done.
Qed.

(** A call that has yet to answer with a ticket of [id] will wake the waiter of [id] in
    the step before it does. *)
Fixpoint pledges {A} (bad : A -> Prop) (id : str) (q : P A) : Prop :=
  match q with
  | Done (Ok a) => ~ bad a
  | Done (Err _) => True
  | Stmt m k => forall s x s', m s = (x, s') -> pledges bad id (k x) \/
      (exists r, k x = Done r) /\ (forall p, wt_map (cs_wait s) !! id = Some p -> is_Some (wt_heap (cs_wait s) !! p) -> token p (cs_wait s'))
  | Park w k => forall b, pledges bad id (k b)
  end.
Lemma pledges_bind {A B} (bad : B -> Prop) id (q : P A) (f : A -> P B) : (forall a, pledges bad id (f a)) -> pledges bad id (prog_bind q f).
Proof.
  intros Hf. induction q as [[a|e]|X m k IH|w k IH]; cbn; [apply Hf|done| |intros b; apply IH]. intros s x s' _. left. apply IH.
Qed.
Lemma pledges_answer {A B} (bad : B -> Prop) id (g : A -> B) (q : P A) : pledges (fun a => bad (g a)) id q -> pledges bad id (prog_bind q (fun a => Done (Ok (g a)))).
Proof.
  induction q as [[a|e]|X m k IH|w k IH]; cbn; [done|done| |intros Hk b; by apply IH]. intros Hk s x s' Hx. destruct (Hk s x s' Hx) as [Hp|[[r Hr] Ht]]; [left; by apply IH|right].
  split; [|done]. rewrite Hr. destruct r; by eexists.
Qed.
Definition ticket_of (id : str) (a : terminal_answer) : Prop := match a with ATicket t => tt_DaemonID t = id | _ => False end.
Lemma pledges_create id src account daemon invoked shell user tmux cols rows :
  pledges (fun t => tt_DaemonID t = id) id (CreateTerminalSession src account daemon invoked shell user tmux cols rows).
Proof.
  unfold CreateTerminalSession. do 3 (apply pledges_bind; intros ?). destruct a1 as [[sh us] tm].
  do 5 (apply pledges_bind; intros ?). intros s x s'. cbn. intros [= <- <-]. cbn. destruct (decide (dm_ID a = id)) as [->|Hne]; [right|by left].
  split; [by eexists|]. intros p Hp [w Hw]. unfold wakeTerminalWaiters. rewrite Hp. exists (set_token true w). cbn. by rewrite list_lookup_alter_eq, Hw.
Qed.
Lemma pledges_serve id c : pledges (ticket_of id) id (serve c).
Proof.
  assert (Hno : forall A (g : A -> terminal_answer) (q : P A), (forall a, ~ ticket_of id (g a)) -> pledges (ticket_of id) id (answering g q))
    by (intros A g q Hg; apply pledges_bind; intros a; apply Hg).
  destruct c; cbn [serve]; try (apply Hno; by intros ? []). apply (pledges_answer (ticket_of id) id ATicket), pledges_create.
Qed.
Definition finished {A} (q : P A) : Prop := exists r, q = Done r.
Lemma pledges_moves id (q : P terminal_answer) s s' q' : pledges (ticket_of id) id q -> moves s q s' q' ->
  pledges (ticket_of id) id q' \/ finished q' /\ forall p since, registered id p since (cs_wait s) -> token p (cs_wait s').
Proof.
  destruct q as [r|X m k|w k]; cbn; [done| |].
  - intros Hk (x & Hx & ->). destruct (Hk _ _ _ Hx) as [Hp|[Hd Ht]]; [by left|right]. split; [done|]. intros p since [Hm (w & Hw & _)]. apply Ht; [done|by eexists].
  - intros Hk [[_ ->]|[_ ->]]; left; apply Hk.
Qed.

(** ** A run of the pool *)

Definition mover (l : label) : nat := match l with Next i | Woken i => i end.
Lemma step_of {A} l s (ps : list (P A)) s' ps' : pool_step l (s, ps) = Some (s', ps') ->
  exists q q', ps !! mover l = Some q /\ moves s q s' q' /\ ps' = <[mover l := q']> ps.
Proof.
  unfold pool_step. destruct l as [i|i]; cbn [mover]; destruct (ps !! i) as [[r|X m k|w k]|]; try done.
  - destruct (m s) as [x s1] eqn:Em. intros [= <- <-]. do 2 eexists. split_and!; [done| |done]. by exists x.
  - intros [= <- <-]. do 2 eexists. split_and!; [done| |done]. by left.
  - destruct (take_token w s) as [s1|] eqn:Et; [|done]. intros [= <- <-]. do 2 eexists. split_and!; [done| |done]. by right.
Qed.
Lemma moved {A} l s (ps : list (P A)) s' ps' n q : pool_step l (s, ps) = Some (s', ps') -> ps !! n = Some q ->
  exists q', ps' !! n = Some q' /\ (mover l = n /\ moves s q s' q' \/ mover l <> n /\ q' = q).
Proof.
  intros (q0 & q1 & Hq0 & Hm & ->)%step_of Hn. destruct (decide (mover l = n)) as [<-|Hne].
  - replace q0 with q in Hm by congruence. exists q1. split; [|by left]. apply list_lookup_insert_eq. by eapply lookup_lt_Some.
  - exists q. split; [|by right]. by rewrite list_lookup_insert_ne.
Qed.
Section run.
Variables (cs : list terminal_call) (id : str).
Definition pool_ok (own : list str) (s : cstate) (ps : list (P terminal_answer)) : Prop :=
  owned own (cs_wait s) /\ List.length ps = List.length cs /\
  forall n c q, cs !! n = Some c -> ps !! n = Some q -> position own c q /\ (pledges (ticket_of id) id q \/ finished q).
Lemma pool_start own s : owned own (cs_wait s) -> pool_ok own s (serve <$> cs).
Proof.
  intros Ho. split_and!; [done|apply length_fmap|]. intros n c q Hc. rewrite list_lookup_fmap, Hc. intros [= <-]. split; [apply position_serve|left; apply pledges_serve].
Qed.
Lemma pool_ok_step own l s ps s' ps' : pool_ok own s ps -> pool_step l (s, ps) = Some (s', ps') -> exists own', own `prefix_of` own' /\ pool_ok own' s' ps'.
Proof.
  intros (Ho & Hl & Hps) Hs. destruct (step_of _ _ _ _ _ Hs) as (q & q' & Hq & Hm & ->). pose proof (lookup_lt_Some _ _ _ Hq) as Hlt.
  rewrite Hl in Hlt. apply lookup_lt_is_Some in Hlt as [c Hc]. destruct (Hps _ _ _ Hc Hq) as [Hpos Hpl].
  destruct (position_moves _ _ _ _ _ _ Ho Hpos Hm) as (own' & Hpre & Ho' & Hpos'). exists own'. split; [done|]. split_and!; [done|by rewrite length_insert|].
  intros n c1 q1 Hc1 Hq1. apply list_lookup_insert_Some in Hq1 as [(<- & <- & _)|(_ & Hq1)].
  - replace c1 with c by congruence. split; [done|]. destruct Hpl as [Hpl|[r ->]]; [|done]. destruct (pledges_moves _ _ _ _ _ Hpl Hm) as [?|[? _]]; auto.
  - destruct (Hps _ _ _ Hc1 Hq1) as [? ?]. split; [by eapply position_grows|done].
Qed.
Lemma pool_ok_run own ls s ps s' ps' : pool_ok own s ps -> pool_steps ls (s, ps) = Some (s', ps') -> exists own', own `prefix_of` own' /\ pool_ok own' s' ps'.
Proof.
  revert own s ps. induction ls as [|l ls IH]; intros own s ps Hp; cbn [pool_steps]; [intros [= <- <-]; by exists own|].
  destruct (pool_step l (s, ps)) as [[s1 ps1]|] eqn:E; [|done]. intros Hr. destruct (pool_ok_step _ _ _ _ _ _ Hp E) as (own1 & H1 & Hp1).
  destruct (IH _ _ _ Hp1 Hr) as (own2 & H2 & Hp2). exists own2. split; [by etrans|done].
Qed.
(** The poll [i] has registered [p] and is on its way to the park, or past it. *)
Variables (i p : nat) (since : Z) (resumes : (bool -> P terminal_answer) -> Prop).
Definition watching (own : list str) (s : cstate) (ps : list (P terminal_answer)) : Prop :=
  pool_ok own s ps /\ own !! p = Some id /\ exists q, ps !! i = Some q /\ (no_park q \/ awaits p resumes q /\ registered id p since (cs_wait s)).
Definition allowed (l : label) : Prop := mover l = i \/ forall c, cs !! mover l = Some c -> apart id since c.
Lemma awaits_moves s (q : P terminal_answer) s' q' : awaits p resumes q -> moves s q s' q' -> no_park q' \/ awaits p resumes q' /\ cs_wait s' = cs_wait s.
Proof.
  intros Ha Hm. assert (Hn : no_park q -> no_park q') by (intros ?; by eapply no_park_moves). destruct q as [r|X m k|w k]; cbn in Ha, Hm; [done| |].
  - destruct Ha as [Ha|[Hw Hk]]; [auto|right]. destruct Hm as (x & Hx & ->). split; [apply Hk|by eapply Hw].
  - destruct Ha as [Ha|(_ & _ & Hk)]; [auto|left]. destruct Hm as [[_ ->]|[_ ->]]; apply Hk.
Qed.
Lemma watching_step own l s ps s' ps' : watching own s ps -> allowed l -> pool_step l (s, ps) = Some (s', ps') ->
  (exists own', watching own' s' ps') /\
  ((exists q', ps' !! i = Some q' /\ no_park q') \/ registered id p since (cs_wait s) /\ (token p (cs_wait s) -> token p (cs_wait s'))).
Proof.
  intros (Hok & Hp & q & Hq & Hst) Hl Hs. destruct (pool_ok_step _ _ _ _ _ _ Hok Hs) as (own' & Hpre & Hok').
  pose proof (prefix_lookup_Some _ _ _ _ Hp Hpre) as Hp'. destruct (moved _ _ _ _ _ _ _ Hs Hq) as (q' & Hq' & [[Hi Hm]|[Hi ->]]).
  - destruct Hst as [Hn|[Ha Hr]].
    + assert (no_park q') by (by eapply no_park_moves). split; [exists own'; split_and!; [done..|]; exists q'; auto|left; eauto].
    + destruct (awaits_moves _ _ _ _ Ha Hm) as [Hn|[Ha' Hw]]; [split; [exists own'; split_and!; [done..|]; exists q'; auto|left; eauto]|].
      split; [|right; by rewrite Hw]. exists own'. split_and!; [done..|]. exists q'. split; [done|right]. by rewrite Hw.
  - destruct Hst as [Hn|[Ha Hr]]; [split; [exists own'; split_and!; [done..|]; exists q; auto|left; eauto]|].
    destruct (step_of _ _ _ _ _ Hs) as (q1 & q1' & Hq1 & Hm & _). destruct Hok as (Ho & Hlen & Hps). pose proof (lookup_lt_Some _ _ _ Hq1) as Hlt.
    rewrite Hlen in Hlt. apply lookup_lt_is_Some in Hlt as [c Hc]. destruct (Hps _ _ _ Hc Hq1) as [Hpos _]. destruct Hl as [Hl|Hl]; [done|].
    destruct (others_keep own id p since c s q1 s' q1' Ho Hp (Hl _ Hc) Hpos Hm Hr) as [Hr' Ht]. split; [|right; by split].
    exists own'. split_and!; [done..|]. exists q. split; [done|right]. by split.
Qed.
Lemma watching_run own ls s ps s' ps' : watching own s ps -> Forall allowed ls -> pool_steps ls (s, ps) = Some (s', ps') -> exists own', watching own' s' ps'.
Proof.
  revert own s ps. induction ls as [|l ls IH]; intros own s ps Hw Hl; cbn [pool_steps]; [intros [= <- <-]; by exists own|]. apply Forall_cons in Hl as [Hl Hls].
  destruct (pool_step l (s, ps)) as [[s1 ps1]|] eqn:E; [|done]. destruct (watching_step _ _ _ _ _ _ Hw Hl E) as [[own1 Hw1] _]. by apply (IH own1).
Qed.
(** Call [j] has yet to wake, or the token waits. *)
Definition owed (j : nat) (s : cstate) (ps : list (P terminal_answer)) : Prop :=
  (exists q, ps !! i = Some q /\ no_park q) \/ (exists q, ps !! j = Some q /\ pledges (ticket_of id) id q) \/ token p (cs_wait s).
Lemma owed_run j own ls s ps s' ps' : watching own s ps -> Forall allowed ls -> owed j s ps -> pool_steps ls (s, ps) = Some (s', ps') -> owed j s' ps'.
Proof.
  revert own s ps. induction ls as [|l ls IH]; intros own s ps Hw Hl Hd; cbn [pool_steps]; [by intros [= <- <-]|]. apply Forall_cons in Hl as [Hl Hls].
  destruct (pool_step l (s, ps)) as [[s1 ps1]|] eqn:E; [|done]. destruct (watching_step _ _ _ _ _ _ Hw Hl E) as [[own1 Hw1] Hk]. apply (IH own1); [done..|].
  destruct Hk as [?|[Hr Ht]]; [by left|]. destruct Hd as [(q & Hq & Hn)|[(q & Hq & Hp)|Hd]]; [left|right|right; right; auto].
  - destruct (moved _ _ _ _ _ _ _ E Hq) as (q' & Hq' & [[_ Hm]|[_ ->]]); [|eauto]. exists q'. split; [done|by eapply no_park_moves].
  - destruct (moved _ _ _ _ _ _ _ E Hq) as (q' & Hq' & [[_ Hm]|[_ ->]]); [|left; eauto].
    destruct (pledges_moves _ _ _ _ _ Hp Hm) as [?|[_ Hwake]]; [left; eauto|right; by eapply Hwake].
Qed.
End run.

(** A poll begins at [Next i], in a service that has served any calls since it started. *)
Lemma poll_begins cs id i since secret wait registered before after d0 ls0 s0 ps0 s ps :
  cs !! i = Some (CPickup registered before after id secret wait) -> since = c_now (tm_call registered) ->
  pool_steps ls0 (mkCState d0 (mkWaiters [] ∅), serve <$> cs) = Some (s0, ps0) -> Forall (fun l => mover l <> i) ls0 -> pool_step (Next i) (s0, ps0) = Some (s, ps) ->
  exists p own, watching cs id i p since (lists_again after id secret p) own s ps.
Proof.
  intros Hc -> Hrun Hi Hs. assert (Hq : ps0 !! i = Some (serve (CPickup registered before after id secret wait))).
  { assert (Hq : (serve <$> cs) !! i = Some (serve (CPickup registered before after id secret wait))) by (by rewrite list_lookup_fmap, Hc).
    revert Hrun Hq. generalize (mkCState d0 (mkWaiters [] ∅)) as x, (serve <$> cs) as qs. induction ls0 as [|l ls0 IH]; intros x qs; cbn [pool_steps]; [by intros [= <- <-]|].
    destruct (pool_step l (x, qs)) as [[x1 qs1]|] eqn:E; [|done]. intros Hr Hq. apply Forall_cons in Hi as [Hl Hls]. apply (IH Hls x1 qs1 Hr).
    destruct (moved _ _ _ _ _ _ _ E Hq) as (q' & Hq' & [[? _]|[_ ->]]); done. }
  destruct (pool_ok_run cs id [] _ _ _ _ _ (pool_start cs id [] (mkCState d0 (mkWaiters [] ∅)) ltac:(split; [done|intros ? ?; cbn; by rewrite lookup_empty])) Hrun) as (own0 & _ & Hok0).
  destruct (pool_ok_step _ _ _ _ _ _ _ _ Hok0 Hs) as (own & Hpre & Hok). unfold pool_step in Hs. rewrite Hq, serve_poll in Hs. unfold registers in Hs.
  destruct (registerWait id _ (cs_wait s0)) as [p ws] eqn:E. injection Hs as <- <-. exists p, own.
  pose proof (registered_new _ _ _ _ _ _ (proj1 Hok0) E) as Hr. split_and!; [done| |].
  - apply (proj2 (proj1 Hok)), Hr.
  - exists (polling before after id secret wait p). split; [apply list_lookup_insert_eq; by eapply lookup_lt_Some|right]. split; [apply awaits_polling|done].
Qed.
End wakeup.

(** ** Two polls of one daemon *)

#[local] Existing Instance demo_crypto.
Definition relay_wait (now : Z) (id : string) : terminal_call := CPickup (relay_source now "p") (relay_source now "p") (relay_source now "p") ($id) ($"old") (seconds 30).
(** Both park with the one waiter of the daemon; the first gives up; then a session is
    created. *)
Definition shared_run : list label := repeat (Next 0) 4 ++ repeat (Next 1) 4 ++ [Next 0; Next 0] ++ repeat (Next 2) 4.
Definition shared_end : option (cstate * list (prog cstate terminal_answer)) :=
  pool_steps shared_run (relay_state, serve <$> [relay_wait 1 "d1"; relay_wait 2 "d1"; relay_create 3 "s1"]).

Definition shared_lost (c : cstate * list (prog cstate terminal_answer)) : bool :=
  match c.2 !! 1%nat, c.2 !! 2%nat with
  | Some (Park 0 _), Some (Done (Ok (ATicket t))) => bool_decide (tt_DaemonID t = $"d1") && negb (is_Some_b (take_token 0%nat c.1))
  | _, _ => false
  end.
Lemma shared_end_lost : from_option shared_lost false shared_end = true.
Proof. vm_compute. reflexivity. Qed.

(** C28. A session that is created while its daemon polls reaches the poll. Whatever calls
    the cloud has served since it started and serves meanwhile, at whatever statements
    they interleave: if a poll of a daemon has begun before a creation for the daemon
    answers with a ticket, and is parked after it, then the poll can be woken at once; and
    on waking, or on giving up, it releases its waiter and lists again. This needs that no
    other poll of the same daemon takes a step after the poll began, and that the others
    release within an hour of it. Two polls of one daemon share a waiter: when the first
    gives up it takes the waiter out of the table, and a session created after does not
    wake the second. *)
Theorem wakeup_reaches :
  (forall `{TerminalDatabase, Crypto} cs i j registered before after id secret wait d0 ls0 c0 ls1 s1 ps1 q1 ls2 s2 ps2 p k t,
    cs !! i = Some (CPickup registered before after id secret wait) ->
    pool_steps ls0 (mkCState d0 (mkWaiters [] ∅), serve <$> cs) = Some c0 -> Forall (fun l => mover l <> i) ls0 ->
    pool_steps (Next i :: ls1) c0 = Some (s1, ps1) -> ps1 !! j = Some q1 -> ~ finished q1 ->
    pool_steps ls2 (s1, ps1) = Some (s2, ps2) -> ps2 !! j = Some (Done (Ok (ATicket t))) -> tt_DaemonID t = id ->
    Forall (allowed cs id i (c_now (tm_call registered))) (ls1 ++ ls2) -> ps2 !! i = Some (Park p k) ->
    is_Some (take_token p s2) /\ lists_again after id secret p k) /\
  (exists s ps k t, shared_end = Some (s, ps) /\ ps !! 1%nat = Some (Park 0 k) /\ ps !! 2%nat = Some (Done (Ok (ATicket t))) /\
    tt_DaemonID t = $"d1" /\ take_token 0%nat s = None).
Proof.
  split; cycle 1.
  { pose proof shared_end_lost as Hl. destruct shared_end as [[s ps]|]; [|done]. unfold shared_lost in Hl. cbn [from_option fst snd] in Hl.
    destruct (ps !! 1%nat) as [[| |[|w] k]|] eqn:E1; try done. destruct (ps !! 2%nat) as [[[[t| | |]|]| |]|] eqn:E2; try done.
    apply andb_true_iff in Hl as [Hd%bool_decide_eq_true Ht]. exists s, ps, k, t. split_and!; [done..|]. by destruct (take_token 0%nat s). }
  intros D T C cs i j registered before after id secret wait d0 ls0 [s0 ps0] ls1 s1 ps1 q1 ls2 s2 ps2 p k t Hc H0 Hi H1 Hq1 Hnf H2 Hj Ht Hal Hpark. cbn [pool_steps] in H1.
  destruct (pool_step (Next i) (s0, ps0)) as [[s ps]|] eqn:E; [|done]. apply Forall_app in Hal as [Hal1 Hal2].
  destruct (poll_begins cs id i _ secret wait registered before after d0 ls0 s0 ps0 s ps Hc eq_refl H0 Hi E) as (p' & own & Hw).
  destruct (watching_run _ _ _ _ _ _ _ _ _ _ _ _ Hw Hal1 H1) as [own1 Hw1]. pose proof (watching_run _ _ _ _ _ _ _ _ _ _ _ _ Hw1 Hal2 H2) as (own2 & _ & _ & q & Hq & Hst).
  assert (Hpl : pledges (ticket_of id) id q1).
  { destruct Hw1 as ((_ & Hlen & Hps) & _). pose proof (lookup_lt_Some _ _ _ Hq1) as Hlt. rewrite Hlen in Hlt. apply lookup_lt_is_Some in Hlt as [c Hcj].
    by destruct (Hps _ _ _ Hcj Hq1) as [_ [?|?]]. }
  assert (Hd : owed id i p' j s1 ps1) by (right; left; eauto). pose proof (owed_run _ _ _ _ _ _ j _ _ _ _ _ _ Hw1 Hal2 Hd H2) as Hd2.
  replace q with (Park p k) in Hst by congruence. destruct Hst as [[]|[Ha _]]. destruct Ha as [[]|(-> & Hk & _)]. split; [|done].
  destruct Hd2 as [(q' & Hq' & Hn)|[(q' & Hq' & Hp)|(w & Hw' & Hch)]].
  - replace q' with (Park p' k) in Hn by congruence. done.
  - replace q' with (Done (Ok (ATicket t)) : prog cstate terminal_answer) in Hp by congruence. by destruct Hp.
  - unfold take_token, cstate_waiting. rewrite Hw', Hch. by eexists.
Qed.
(** The session is created between the listing of the poll and its park, while a poll of
    another daemon comes and goes. *)
Definition woken_calls : list terminal_call := [relay_wait 1 "d1"; relay_create 2 "s1"; relay_wait 1 "d2"].
Definition woken_first : list label := [Next 0; Next 0; Next 1; Next 1]%nat.
Definition woken_then : list label := [Next 0; Next 1; Next 2; Next 1]%nat.
Definition woken_state : option (cstate * list (prog cstate terminal_answer)) := pool_steps [Next 2] (relay_state, serve <$> woken_calls).
Definition is_ticket (q : prog cstate terminal_answer) : bool := match q with Done (Ok (ATicket t)) => bool_decide (tt_DaemonID t = $"d1") | _ => false end.
Definition is_parked (q : prog cstate terminal_answer) : bool := match q with Park 1 _ => true | _ => false end.
Definition holds_at (f : prog cstate terminal_answer -> bool) (n : nat) (c : option (cstate * list (prog cstate terminal_answer))) : bool :=
  match c with Some c => from_option f false (c.2 !! n) | None => false end.
Definition woken_middle := match woken_state with Some c => pool_steps (Next 0 :: woken_first) c | None => None end.
Definition woken_end := match woken_middle with Some c => pool_steps woken_then c | None => None end.
Lemma woken_facts : holds_at (fun q => match q with Stmt _ _ => true | _ => false end) 1 woken_middle = true /\ holds_at is_ticket 1 woken_end = true /\ holds_at is_parked 0 woken_end = true.
Proof. by vm_compute. Qed.
Lemma wakeup_reaches_witness : exists s ps k, woken_end = Some (s, ps) /\ ps !! 0%nat = Some (Park 1 k) /\ is_Some (take_token 1%nat s).
Proof.
  destruct woken_facts as (Hm & Ht & Hp). unfold woken_end in *. destruct woken_middle as [[s1 ps1]|] eqn:E1; [|discriminate Hm].
  destruct (pool_steps woken_then (s1, ps1)) as [[s ps]|] eqn:E2; [|discriminate Ht]. cbn [holds_at snd] in Hm, Ht, Hp.
  destruct (ps1 !! 1%nat) as [q1|] eqn:Eq1; [|discriminate Hm]. destruct (ps !! 1%nat) as [[[[t| | |]|]| |]|] eqn:Eq; try discriminate Ht.
  destruct (ps !! 0%nat) as [[| |[|[|w]] k]|] eqn:Ek; try discriminate Hp. exists s, ps, k. split; [reflexivity|]. split; [exact Ek|].
  unfold woken_middle in E1. destruct woken_state as [c0|] eqn:E0; [|discriminate E1].
  apply (proj1 wakeup_reaches ListDatabase _ _ woken_calls 0%nat 1%nat (relay_source 1 "p") (relay_source 1 "p") (relay_source 1 "p") ($"d1") ($"old") (seconds 30)
    (cs_db relay_state) [Next 2] c0 woken_first s1 ps1 q1 woken_then s ps 1%nat k t eq_refl E0); try assumption.
  - constructor; [discriminate|constructor].
  - intros [r ->]. discriminate Hm.
  - by apply bool_decide_eq_true in Ht.
  - repeat (apply Forall_cons; split); try apply Forall_nil_2; try (left; reflexivity); right; intros c Hc; injection Hc as <-; try exact I.
    split; [discriminate|]. vm_compute. discriminate.
Defined.
