(* ===== verification/TerminalPair.v ===== *)
(** * TerminalPair: the two sockets of a relayed session

    [internal/handler/terminal.go]: the credential in a browser's handshake, and the
    registry that pairs the browser's socket with the daemon's and forwards frames
    between them. The goroutines of the sockets are a machine that takes one step for
    each point where they touch what they share; frames are taken as they arrive, and
    what JSON says of a text frame is an argument. *)

From S2P Require Import Prelude GoStr Base64 CloudTerminal.
Open Scope Z_scope.

(** ** The credential *)

Definition terminalSubprotocolPrefix : str := $"maidcafe.terminal.".
(** The first token of the header with the prefix, for both functions. *)
Definition offered_token (header : str) : option str :=
  List.find (fun token => HasPrefix token terminalSubprotocolPrefix) (TrimSpace <$> split_on (ch ",") header).
Definition terminalSubprotocolToken (header : str) : option str :=
  match offered_token header with
  | None => None
  | Some token => let raw := TrimPrefix token terminalSubprotocolPrefix in if bool_decide (raw = []) then None else RawURL_Decode raw
  end.
Definition terminalOfferedSubprotocols (header : str) : list str := match offered_token header with Some token => [token] | None => [] end.
(** [strings.Cut], at a byte. *)
Fixpoint Cut (s : str) (sep : ascii) : option (str * str) :=
  match s with
  | [] => None
  | c :: r => if bool_decide (c = sep) then Some ([], r) else match Cut r sep with Some (before, after) => Some (c :: before, after) | None => None end
  end.
(** The session and the ticket a browser's handshake names. *)
Definition browser_credential (header : str) : option (str * str) :=
  token ← terminalSubprotocolToken header;
  match Cut token (ch ".") with
  | Some (sessionID, ticket) => if bool_decide (sessionID = []) || bool_decide (ticket = []) then None else Some (sessionID, ticket)
  | None => None
  end.

(** ** The registry *)

Inductive terminalRole := terminalRoleBrowser | terminalRoleAgent.
#[export] Instance terminalRole_eq_dec : EqDecision terminalRole.
Proof. solve_decision. Defined.
Definition peer (role : terminalRole) : terminalRole := match role with terminalRoleBrowser => terminalRoleAgent | terminalRoleAgent => terminalRoleBrowser end.
Record frame := mkFrame { fr_text : bool; fr_data : str }.
(** What is stored of the end of a session: status, exit code, reason, bytes in and out. *)
Record end_state := mkEnd { en_status : str; en_code : Z; en_reason : str; en_in : Z; en_out : Z }.
(** The writes of an end to the database: how many were tried, whether one answered
    without an error, and what reached the row of the session, if it was still live (a
    write may reach it and its answer be lost). *)
Record end_store := mkStore { st_tries : nat; st_told : bool; st_row : option end_state }.
(** A pair; [pr_exit] is the first exit frame seen, [pr_shut] whether its sockets were
    closed once, [pr_pumps] how many pumps run, [pr_end] the end that was fixed, once. *)
Record terminalPair := mkPair {
  pr_id : str; pr_browser : option nat; pr_agent : option nat; pr_in : Z; pr_out : Z; pr_exit : option (Z * str);
  pr_shut : bool; pr_pumps : nat; pr_end : option end_state; pr_store : end_store;
}.
Definition pr_ready (tp : terminalPair) : bool := is_Some_b (pr_browser tp) && is_Some_b (pr_agent tp).
Definition slot (role : terminalRole) (tp : terminalPair) : option nat := match role with terminalRoleBrowser => pr_browser tp | terminalRoleAgent => pr_agent tp end.
Definition new_pair (id : str) : terminalPair := mkPair id None None 0 0 None false 0 None (mkStore 0 false None).
Definition with_slot (role : terminalRole) (conn : nat) (tp : terminalPair) : terminalPair :=
  match role with
  | terminalRoleBrowser => mkPair (pr_id tp) (Some conn) (pr_agent tp) (pr_in tp) (pr_out tp) (pr_exit tp) (pr_shut tp) (pr_pumps tp) (pr_end tp) (pr_store tp)
  | terminalRoleAgent => mkPair (pr_id tp) (pr_browser tp) (Some conn) (pr_in tp) (pr_out tp) (pr_exit tp) (pr_shut tp) (pr_pumps tp) (pr_end tp) (pr_store tp)
  end.
Definition with_pumps (n : nat) (tp : terminalPair) : terminalPair :=
  mkPair (pr_id tp) (pr_browser tp) (pr_agent tp) (pr_in tp) (pr_out tp) (pr_exit tp) (pr_shut tp) n (pr_end tp) (pr_store tp).
Definition with_shut (tp : terminalPair) : terminalPair :=
  mkPair (pr_id tp) (pr_browser tp) (pr_agent tp) (pr_in tp) (pr_out tp) (pr_exit tp) true (pr_pumps tp) (pr_end tp) (pr_store tp).
(** Where the goroutine of a socket is: before its slot, waiting for the peer, in its
    pump between two frames, with a frame read and not counted, with a frame counted
    and not written, about to record an end, between two writes of it to the
    database, about to release the pair, returned, or turned away. *)
Inductive stage :=
  | Arriving
  | Waiting
  | Pumping
  | Counting (f : frame)
  | Writing (f : frame)
  | Finishing (status reason : str)
  | Storing
  | Releasing
  | Served
  | Refused.
(** A socket: whether it is closed, the frames read from it and the frames of the peer
    written to it (the relay's own notices are left out). *)
Record socket := mkSocket { sk_role : terminalRole; sk_pair : nat; sk_stage : stage; sk_closed : bool; sk_sent : list frame; sk_got : list frame }.
Definition at_stage (st : stage) (s : socket) : socket := mkSocket (sk_role s) (sk_pair s) st (sk_closed s) (sk_sent s) (sk_got s).
Definition closed (s : socket) : socket := mkSocket (sk_role s) (sk_pair s) (sk_stage s) true (sk_sent s) (sk_got s).
Definition sends (f : frame) (s : socket) : socket := mkSocket (sk_role s) (sk_pair s) (Counting f) (sk_closed s) (sk_sent s ++ [f]) (sk_got s).
Definition receives (f : frame) (s : socket) : socket := mkSocket (sk_role s) (sk_pair s) (sk_stage s) (sk_closed s) (sk_sent s) (sk_got s ++ [f]).
Record registry := mkRegistry { rg_pairs : gmap str nat; rg_heap : list terminalPair; rg_sockets : list socket }.
Definition newTerminalRegistry : registry := mkRegistry ∅ [] [].
Definition set_pair (p : nat) (tp : terminalPair) (reg : registry) : registry :=
  mkRegistry (rg_pairs reg) (<[p := tp]> (rg_heap reg)) (rg_sockets reg).
Definition set_socket (c : nat) (s : socket) (reg : registry) : registry :=
  mkRegistry (rg_pairs reg) (rg_heap reg) (<[c := s]> (rg_sockets reg)).
(** What a text frame of the daemon says, when it is an exit frame: code and reason. *)
Class ExitFrames := { exit_frame : str -> option (Z * str) }.

Section registry.
Context `{ExitFrames}.
(** [register], up to its first unlock: the pair of the session, made when there is none. *)
Definition register_pair (sessionID : str) (role : terminalRole) (reg : registry) : registry :=
  match rg_pairs reg !! sessionID with
  | Some p => mkRegistry (rg_pairs reg) (rg_heap reg) (rg_sockets reg ++ [mkSocket role p Arriving false [] []])
  | None =>
      let p := List.length (rg_heap reg) in
      mkRegistry (<[sessionID := p]> (rg_pairs reg)) (rg_heap reg ++ [new_pair sessionID]) (rg_sockets reg ++ [mkSocket role p Arriving false [] []])
  end.
(** [register], under the pair's lock: the slot of the role, or a duplicate. *)
Definition register_slot (c : nat) (s : socket) (tp : terminalPair) (reg : registry) : registry :=
  match slot (sk_role s) tp with
  | Some _ => set_socket c (closed (at_stage Refused s)) reg
  | None => set_socket c (at_stage Waiting s) (set_pair (sk_pair s) (with_slot (sk_role s) c tp) reg)
  end.
Definition release (p : nat) (tp : terminalPair) (reg : registry) : registry :=
  if bool_decide (rg_pairs reg !! pr_id tp = Some p) then mkRegistry (delete (pr_id tp) (rg_pairs reg)) (rg_heap reg) (rg_sockets reg) else reg.
Definition shutdown (p : nat) (tp : terminalPair) (reg : registry) : registry :=
  if pr_shut tp then reg
  else
    let close (conn : option nat) (l : list socket) := match conn with Some c => alter closed c l | None => l end in
    mkRegistry (rg_pairs reg) (<[p := with_shut tp]> (rg_heap reg)) (close (pr_agent tp) (close (pr_browser tp) (rg_sockets reg))).
Definition close (sessionID : str) (reg : registry) : registry :=
  match rg_pairs reg !! sessionID with
  | Some p => match rg_heap reg !! p with Some tp => shutdown p tp reg | None => reg end
  | None => reg
  end.
Definition observeText (data : str) (seen : option (Z * str)) : option (Z * str) :=
  match seen with Some e => Some e | None => exit_frame data end.
(** A frame read from the socket of a role. *)
Definition counted (role : terminalRole) (f : frame) (tp : terminalPair) : terminalPair :=
  let n := Z.of_nat (List.length (fr_data f)) in
  match role with
  | terminalRoleBrowser => mkPair (pr_id tp) (pr_browser tp) (pr_agent tp) (pr_in tp + n) (pr_out tp) (pr_exit tp) (pr_shut tp) (pr_pumps tp) (pr_end tp) (pr_store tp)
  | terminalRoleAgent =>
      mkPair (pr_id tp) (pr_browser tp) (pr_agent tp) (pr_in tp) (pr_out tp + n)
        (if fr_text f then observeText (fr_data f) (pr_exit tp) else pr_exit tp) (pr_shut tp) (pr_pumps tp) (pr_end tp) (pr_store tp)
  end.
Definition terminalCloseReason : str := $"socket closed".
(** [finishTerminalPair]: the first of the two goroutines fixes the end ... *)
Definition finishTerminalPair (status reason : str) (tp : terminalPair) : terminalPair :=
  let code := match pr_exit tp with Some (code, _) => code | None => 0 end in
  let reason := if bool_decide (reason = []) then match pr_exit tp with Some (_, reason) => reason | None => terminalCloseReason end else reason in
  mkPair (pr_id tp) (pr_browser tp) (pr_agent tp) (pr_in tp) (pr_out tp) (pr_exit tp) (pr_shut tp) (pr_pumps tp)
    (Some (mkEnd status code reason (pr_in tp) (pr_out tp))) (pr_store tp).
(** ... and tries to write it, at most three times. *)
Definition finishAttempts : nat := 3.
Definition store_attempt (reached told : bool) (tp : terminalPair) : terminalPair :=
  mkPair (pr_id tp) (pr_browser tp) (pr_agent tp) (pr_in tp) (pr_out tp) (pr_exit tp) (pr_shut tp) (pr_pumps tp) (pr_end tp)
    (mkStore (S (st_tries (pr_store tp))) told (if reached then pr_end tp else st_row (pr_store tp))).
(** The once is over: a write was answered, or all failed and a warning was logged. *)
Definition recorded (tp : terminalPair) : bool := st_told (pr_store tp) || (finishAttempts <=? st_tries (pr_store tp))%nat.

(** ** The steps

    A socket arrives and takes its slot; its wait ends with a peer or without; its pump
    reads a frame, counts it and writes it, which succeeds or not; a read fails; the end
    is fixed, when all pumps have returned or after the longest wait, by the goroutine
    that comes first, while the other waits until it was written; a write of the end
    reaches the database or not, and is answered or not; the pair is released; a member
    revokes the session. *)
Inductive pair_label :=
  | LAttach (sessionID : str) (role : terminalRole)
  | LRegister (conn : nat)
  | LPaired (conn : nat)
  | LAbandoned (conn : nat)
  | LRead (conn : nat) (f : frame)
  | LCount (conn : nat)
  | LWrite (conn : nat) (taken : bool)
  | LEnd (conn : nat)
  | LFinish (conn : nat) (late : bool)
  | LStore (conn : nat) (reached told : bool)
  | LRelease (conn : nat)
  | LRevoke (sessionID : str).
Definition label_conn (l : pair_label) : nat :=
  match l with
  | LAttach _ _ | LRevoke _ => 0%nat
  | LRegister c | LPaired c | LAbandoned c | LRead c _ | LCount c | LWrite c _ | LEnd c | LFinish c _ | LStore c _ _ | LRelease c => c
  end.
(** The end of a pump: the sockets are closed, then it is retired. *)
Definition end_pump (c : nat) (s : socket) (tp : terminalPair) (reg : registry) : registry :=
  let tp := with_pumps (pred (pr_pumps tp)) tp in
  shutdown (sk_pair s) tp (set_socket c (at_stage (Finishing terminalStatusClosed []) s) (set_pair (sk_pair s) tp reg)).
(** A step of the goroutine of socket [c]. *)
Definition serve_step (l : pair_label) (c : nat) (s : socket) (tp : terminalPair) (reg : registry) : option registry :=
  let p := sk_pair s in
  match l, sk_stage s with
  | LRegister _, Arriving => Some (register_slot c s tp reg)
  | LPaired _, Waiting => if pr_ready tp then Some (set_socket c (at_stage Pumping s) (set_pair p (with_pumps (S (pr_pumps tp)) tp) reg)) else None
  | LAbandoned _, Waiting => Some (set_socket c (closed (at_stage (Finishing terminalStatusFailed ($"peer not attached")) s)) reg)
  | LRead _ f, Pumping => if sk_closed s then None else Some (set_socket c (sends f s) reg)
  | LCount _, Counting f => Some (set_socket c (at_stage (Writing f) s) (set_pair p (counted (sk_role s) f tp) reg))
  | LWrite _ taken, Writing f =>
      if taken then
        match slot (peer (sk_role s)) tp with
        | Some d =>
            match rg_sockets reg !! d with
            | Some t => if sk_closed t then None else Some (set_socket d (receives f t) (set_socket c (at_stage Pumping s) reg))
            | None => None
            end
        | None => None
        end
      else Some (end_pump c s tp reg)
  | LEnd _, Pumping => Some (end_pump c s tp reg)
  | LFinish _ late, Finishing status reason =>
      match pr_end tp with
      | None => if bool_decide (pr_pumps tp = 0%nat) || late then Some (set_socket c (at_stage Storing s) (set_pair p (finishTerminalPair status reason tp) reg)) else None
      | Some _ => if recorded tp then Some (set_socket c (at_stage Releasing s) reg) else None
      end
  | LStore _ reached told, Storing =>
      if told && negb reached then None
      else
        let tp := store_attempt reached told tp in
        Some (set_socket c (at_stage (if recorded tp then Releasing else Storing) s) (set_pair p tp reg))
  | LRelease _, Releasing => Some (release p tp (set_socket c (at_stage Served s) reg))
  | _, _ => None
  end.
Definition pair_step (l : pair_label) (reg : registry) : option registry :=
  match l with
  | LAttach sessionID role => Some (register_pair sessionID role reg)
  | LRevoke sessionID => Some (close sessionID reg)
  | _ =>
      match rg_sockets reg !! label_conn l with
      | Some s => match rg_heap reg !! sk_pair s with Some tp => serve_step l (label_conn l) s tp reg | None => None end
      | None => None
      end
  end.
Fixpoint pair_steps (ls : list pair_label) (reg : registry) : option registry :=
  match ls with
  | [] => Some reg
  | l :: ls => match pair_step l reg with Some reg => pair_steps ls reg | None => None end
  end.
End registry.
