(* ===== verification/AtomicSave.v ===== *)
(** * AtomicSave: a file that is replaced as a whole

    What the stores of the daemon do to persist themselves: a temporary file beside
    the target, written, and renamed over it. A save is a list of system calls on the
    two names; each may fail, a write after some of its bytes, and the first failure
    ends the save. A crash leaves what a prefix of the calls did. The JSON of what is
    stored is an interface with its round trip as a law. *)

From S2P Require Import Prelude GoStr.

(** The content of the target and of the temporary file. *)
Record disk := mkDisk { dk_file : option str; dk_temp : option str }.
Inductive disk_op := DMkdir | DCreate | DWrite (data : str) | DSync | DChmod | DClose | DRename.
(** [fail] is [None] for a call that succeeds; a write that fails wrote [n] bytes. *)
Definition disk_call (op : disk_op) (fail : option nat) (d : disk) : disk :=
  match op, fail with
  | DCreate, None => mkDisk (dk_file d) (Some [])
  | DWrite data, None => mkDisk (dk_file d) ((fun t => t ++ data) <$> dk_temp d)
  | DWrite data, Some n => mkDisk (dk_file d) ((fun t => t ++ take n data) <$> dk_temp d)
  | DRename, None => match dk_temp d with Some t => mkDisk (Some t) None | None => d end
  | _, _ => d
  end.
(** The calls in order, up to the first that fails; whether all succeeded. *)
Fixpoint disk_calls (ops : list disk_op) (faults : nat -> option nat) (i : nat) (d : disk) : bool * disk :=
  match ops with
  | [] => (true, d)
  | op :: ops =>
      match faults i with
      | None => disk_calls ops faults (S i) (disk_call op None d)
      | Some n => (false, disk_call op (Some n) d)
      end
  end.

(** ** What a save leaves *)

(** After a prefix of a save of [data], the target is as it was, or all of [data]. *)
Definition save_ops (before_write between : list disk_op) (data : str) : list disk_op :=
  before_write ++ [DCreate; DWrite data] ++ between ++ [DRename].
Definition quiet (op : disk_op) : bool := match op with DMkdir | DSync | DChmod | DClose => true | _ => false end.
Lemma quiet_call op fail d : quiet op = true -> disk_call op fail d = d.
Proof. by destruct op, fail. Qed.
Lemma quiet_calls ops rest faults i d : forallb quiet ops = true ->
  disk_calls (ops ++ rest) faults i d = (false, d) \/ disk_calls (ops ++ rest) faults i d = disk_calls rest faults (i + List.length ops) d.
Proof.
  revert i. induction ops as [|op ops IH]; intros i; cbn -[disk_call]; [rewrite Nat.add_0_r; by right|]. intros [Hop Hops]%andb_true_iff.
  destruct (faults i); rewrite quiet_call by done; [by left|]. destruct (IH (S i) Hops) as [-> | ->]; [by left|right]. by rewrite Nat.add_succ_comm.
Qed.
Lemma saved_or_kept pre between data faults d : forallb quiet pre = true -> forallb quiet between = true ->
  match disk_calls (save_ops pre between data) faults 0 d with
  | (true, d') => dk_file d' = Some data
  | (false, d') => dk_file d' = dk_file d
  end.
Proof.
  intros Hpre Hbet. unfold save_ops. destruct (quiet_calls pre ([DCreate; DWrite data] ++ between ++ [DRename]) faults 0 d Hpre) as [-> | ->]; [done|].
  cbn -[disk_call]. destruct (faults _); [done|]. destruct (faults _); [done|]. set (d1 := disk_call (DWrite data) None _).
  destruct (quiet_calls between [DRename] faults (S (S (List.length pre))) d1 Hbet) as [-> | ->]; [done|]. unfold d1. cbn. by destruct (faults _).
Qed.
(** A crash keeps the target: only the rename changes it. *)
Lemma no_rename ops faults i d : DRename ∉ ops -> dk_file (disk_calls ops faults i d).2 = dk_file d.
Proof.
  revert i d. induction ops as [|op ops IH]; intros i d; [done|]. intros [Hop Hops]%not_elem_of_cons. cbn [disk_calls].
  destruct (faults i); [|rewrite IH by done]; by destruct op.
Qed.
Lemma crash_safe pre between data faults d n : forallb quiet pre = true -> forallb quiet between = true ->
  let d' := (disk_calls (take n (save_ops pre between data)) faults 0 d).2 in dk_file d' = dk_file d \/ dk_file d' = Some data.
Proof.
  intros Hpre Hbet d'. destruct (decide (n < List.length (save_ops pre between data))%nat) as [Hlt|Hge].
  - left. apply no_rename. unfold save_ops in *. rewrite !app_assoc in *. set (front := (pre ++ [DCreate; DWrite data]) ++ between) in *.
    rewrite length_app in Hlt. cbn in Hlt. rewrite take_app_le by lia. intros Hin. assert (Hf : DRename ∈ front).
    { rewrite <-(take_drop n front). apply elem_of_app. by left. }
    assert (Hq : forall l, forallb quiet l = true -> DRename ∉ l) by (intros l Hl Hin'; rewrite forallb_forall in Hl; apply list_elem_of_In, Hl in Hin'; done).
    unfold front in Hf. rewrite !elem_of_app in Hf. destruct Hf as [[Hf|Hf]|Hf]; [by apply Hq in Hf| |by apply Hq in Hf].
    apply elem_of_cons in Hf as [?|Hf]; [done|]. by apply list_elem_of_singleton in Hf.
  - pose proof (saved_or_kept pre between data faults d Hpre Hbet) as H. unfold d'. rewrite take_ge by lia. clear d'.
    destruct (disk_calls (save_ops pre between data) faults 0 d) as [[] d2]; [by right|by left].
Qed.

(** ** What is stored *)

Class JSONCodec (A : Type) := { Encode : A -> option str; Decode : str -> option A }.
(** What is encoded is read back, for the values text can carry, with or without the
    newline that may follow it. *)
Class CodecLaws (A : Type) `{JSONCodec A} (faithful : A -> Prop) := {
  Decode_Encode a data : faithful a -> Encode a = Some data -> Decode data = Some a;
  Decode_newline data : Decode (data ++ [newline]) = Decode data;
}.
