(* ===== verification/Watched.v ===== *)
(** * Watched: the list of watched processes

    [internal/daemon/watched_store.go] and its routes in [internal/daemon/app.go]: the
    list seeded from the configuration, changed by the API, and persisted with
    [AtomicSave]. The calls run under the store's lock, so a run is a list of them; what
    the system answers to the calls of a save is an argument. *)

From S2P Require Import Prelude GoStr Regex Config Executor AtomicSave.
Open Scope Z_scope.

(** ** The list *)

(** The loop of [normalizeWatchedNames], before its sort. *)
Fixpoint accepted_names (seen names : list str) : list str :=
  match names with
  | [] => []
  | raw :: names =>
      let name := TrimSpace raw in
      if bool_decide (name = []) || negb (ValidWatchedProcessName name) then accepted_names seen names
      else if bool_decide (name ∈ seen) then accepted_names seen names
      else name :: accepted_names (name :: seen) names
  end.
Definition normalizeWatchedNames (names : list str) : list str := sort_strings (accepted_names [] names).

(** ** The store

    [json.Unmarshal] of [null] gives a nil slice, which is not a list. *)

Record watchedProcessStore := mkWatched { wp_path : str; wp_names : list str }.
Abbreviation faults := (nat -> option nat).

Section watched.
Context `{JSONCodec (option (list str))}.
Notation state := (watchedProcessStore * disk)%type.
Definition watched_ops (data : str) : list disk_op := save_ops [DMkdir] [DClose] data.
Definition saveLocked (f : faults) (s : watchedProcessStore) (d : disk) : bool * disk :=
  if bool_decide (wp_path s = []) then (true, d)
  else match Encode (Some (wp_names s)) with None => (false, d) | Some data => disk_calls (watched_ops data) f 0 d end.
(** A save whose error is dropped. *)
Definition seed_names (f : faults) (s : watchedProcessStore) (seeded : list str) (d : disk) : state :=
  let s := mkWatched (wp_path s) (normalizeWatchedNames seeded) in
  (s, if bool_decide (wp_path s = []) || bool_decide (wp_names s = []) then d else (saveLocked f s d).2).
Definition newWatchedProcessStore (f : faults) (path : str) (seeded : list str) (d : disk) : state :=
  match dk_file d ≫= Decode with
  | Some (Some names) => (mkWatched path (normalizeWatchedNames names), d)
  | _ => seed_names f (mkWatched path []) seeded d
  end.
Definition Reseed (f : faults) (seeded : list str) (st : state) : state :=
  if is_Some_b (dk_file st.2) then st else seed_names f st.1 seeded st.2.
Definition List_ (st : state) : list str := wp_names st.1.
(** The answer of a change: the list, or the error of the save. *)
Definition changed (f : faults) (s : watchedProcessStore) (d : disk) : option (list str) * state :=
  let '(ok, d) := saveLocked f s d in (if ok then Some (wp_names s) else None, (s, d)).
Definition Add (f : faults) (name : str) (st : state) : option (list str) * state :=
  let '(s, d) := st in
  if bool_decide (name ∈ wp_names s) then (Some (wp_names s), st)
  else changed f (mkWatched (wp_path s) (sort_strings (wp_names s ++ [name]))) d.
Definition Remove (f : faults) (name : str) (st : state) : option (list str) * state :=
  let '(s, d) := st in
  if bool_decide (name ∈ wp_names s) then changed f (mkWatched (wp_path s) (filter (fun x => x <> name) (wp_names s))) d
  else (Some (wp_names s), st).

(** ** The routes

    The body of a request, or a failed read; [decode] gives the name in its JSON. *)
Inductive watched_answer := WList (names : list str) | WError (status : Z).
Definition respond (r : option (list str) * state) : watched_answer * state :=
  let '(a, st) := r in (match a with Some names => WList names | None => WError 500 end, st).
Definition post_watched (f : faults) (decode : str -> option str) (maxBody : Z) (body : option str) (st : state) : watched_answer * state :=
  match body with
  | None => (WError StatusBadRequest, st)
  | Some body =>
      let body := take (Z.to_nat (maxBody + 1)) body in
      if maxBody <? Z.of_nat (List.length body) then (WError StatusRequestEntityTooLarge, st)
      else
        match decode body with
        | None => (WError StatusBadRequest, st)
        | Some raw =>
            let name := TrimSpace raw in
            if negb (ValidWatchedProcessName name) then (WError StatusBadRequest, st) else respond (Add f name st)
        end
  end.
Definition delete_watched (f : faults) (name : str) (st : state) : watched_answer * state := respond (Remove f name st).
Inductive watched_call :=
  | WPost (decode : str -> option str) (maxBody : Z) (body : option str)
  | WDelete (name : str)
  | WReload (seeded : list str).
Definition watched_step (f : faults) (c : watched_call) (st : state) : watched_answer * state :=
  match c with
  | WPost decode maxBody body => post_watched f decode maxBody body st
  | WDelete name => delete_watched f name st
  | WReload seeded => let st := Reseed f seeded st in (WList (List_ st), st)
  end.
Fixpoint watched_run (cs : list (faults * watched_call)) (st : state) : list watched_answer * state :=
  match cs with
  | [] => ([], st)
  | (f, c) :: cs => let '(a, st) := watched_step f c st in let '(l, st) := watched_run cs st in (a :: l, st)
  end.

(** ** The list is in order *)

Record names_ok (names : list str) : Prop := {
  no_sorted : StronglySorted str_le names;
  no_once : NoDup names;
  no_valid : Forall (fun n => ValidWatchedProcessName n = true) names;
}.
Lemma watched_graphic n : ValidWatchedProcessName n = true -> n <> [] /\ Forall (fun c => is_graphic c = true) n.
Proof. intros Hv. split; [apply (matches_nonempty watchedProcessNamePattern); [vm_compute; reflexivity|exact Hv]|apply (matches_all is_graphic watchedProcessNamePattern); [vm_compute; reflexivity|exact Hv]]. Qed.
#[local] Opaque ValidWatchedProcessName TrimSpace.
Lemma accepted_spec seen names : NoDup (accepted_names seen names) /\
  forall n, n ∈ accepted_names seen names <-> ValidWatchedProcessName n = true /\ n <> [] /\ n ∉ seen /\ n ∈ TrimSpace <$> names.
Proof.
  revert seen. induction names as [|raw names IH]; intros seen; cbn [accepted_names fmap list_fmap].
  { split; [constructor|]. intros n. rewrite !elem_of_nil. tauto. }
  assert (Hskip : TrimSpace raw = [] \/ ValidWatchedProcessName (TrimSpace raw) = false \/ TrimSpace raw ∈ seen ->
    NoDup (accepted_names seen names) /\ forall n, n ∈ accepted_names seen names <-> ValidWatchedProcessName n = true /\ n <> [] /\ n ∉ seen /\ n ∈ TrimSpace raw :: (TrimSpace <$> names)).
  { intros Hp. destruct (IH seen) as [Hn Hin]. split; [done|]. intros n. rewrite Hin, elem_of_cons. split; [tauto|].
    intros (Hv & Hne & Hs & [->|?]); [|tauto]. destruct Hp as [?|[?|?]]; [done|congruence|done]. }
  destruct (bool_decide (TrimSpace raw = []) || negb _) eqn:E1.
  { apply Hskip. apply orb_true_iff in E1 as [E1%bool_decide_eq_true|E1%negb_true_iff]; tauto. }
  destruct (bool_decide (TrimSpace raw ∈ seen)) eqn:E2; [apply bool_decide_eq_true in E2; apply Hskip; tauto|apply bool_decide_eq_false in E2]. apply orb_false_iff in E1 as [Ene%bool_decide_eq_false Ev%negb_false_iff].
  destruct (IH (TrimSpace raw :: seen)) as [Hn Hin]. split.
  - apply NoDup_cons. split; [|done]. rewrite Hin, elem_of_cons. tauto.
  - intros n. rewrite !elem_of_cons, Hin, elem_of_cons. split; [|destruct (decide (n = TrimSpace raw)) as [->|]; tauto].
    intros [->|?]; tauto.
Qed.
Lemma normalize_ok names : names_ok (normalizeWatchedNames names).
Proof.
  destruct (accepted_spec [] names) as [Hn Hin]. split; [apply sort_strings_sorted|by apply NoDup_sort_strings|].
  apply Forall_forall. intros n. unfold normalizeWatchedNames. rewrite elem_of_sort_strings. by intros [? _]%Hin.
Qed.
Lemma accepted_same seen names : NoDup names -> Forall (fun n => ValidWatchedProcessName n = true) names -> (forall n, n ∈ names -> n ∉ seen) ->
  accepted_names seen names = names.
Proof.
  revert seen. induction names as [|n names IH]; intros seen Hd Hv Hs; [done|]. apply NoDup_cons in Hd as [Hn Hd]. apply Forall_cons in Hv as [Hv Hvs].
  destruct (watched_graphic n Hv) as [Hne Hg]. cbn [accepted_names]. rewrite (TrimSpace_graphic n Hg), Hv, (bool_decide_false (n = [])) by done. cbn [orb negb].
  rewrite bool_decide_false by (apply Hs, list_elem_of_here). f_equal. apply IH; [done..|]. intros m Hm. rewrite not_elem_of_cons. split; [by intros ->|].
  by apply Hs, list_elem_of_further.
Qed.
Lemma normalize_same names : names_ok names -> normalizeWatchedNames names = names.
Proof.
  intros [Hs Hd Hv]. unfold normalizeWatchedNames. rewrite accepted_same; [by apply sort_strings_fixed|done|done|intros n _; apply not_elem_of_nil].
Qed.
Lemma insert_ok name names : names_ok names -> ValidWatchedProcessName name = true -> name ∉ names -> names_ok (sort_strings (names ++ [name])).
Proof.
  intros [Hs Hd Hv] Hn Hin. split; [apply sort_strings_sorted| |].
  - apply NoDup_sort_strings, NoDup_app. split_and!; [done| |apply NoDup_singleton]. intros x Hx ->%list_elem_of_singleton. done.
  - apply Forall_forall. intros n. rewrite elem_of_sort_strings, elem_of_app, list_elem_of_singleton. intros [Hx| ->]; [|done]. by eapply Forall_forall in Hv.
Qed.
Lemma filter_ok P `{forall x, Decision (P x)} names : names_ok names -> names_ok (filter P names).
Proof.
  intros [Hs Hd Hv]. split; [|by apply NoDup_filter|].
  - by apply StronglySorted_filter.
  - apply Forall_forall. intros n [_ Hn]%list_elem_of_filter. by eapply Forall_forall in Hv.
Qed.
(** ** Changes, restarts and failed saves *)

Definition store_ok (path : str) (st : state) : Prop := wp_path st.1 = path /\ names_ok (wp_names st.1).
(** The next start reads the list that is in memory. *)
Definition survives (st : state) : Prop := forall f seeded, newWatchedProcessStore f (wp_path st.1) seeded st.2 = st.
Definition ascii_names (a : option (list str)) : Prop := match a with Some l => Forall (fun n => forallb is_ascii n = true) l | None => True end.
Lemma names_ascii names : names_ok names -> ascii_names (Some names).
Proof.
  intros [_ _ Hv]. cbn. eapply Forall_impl; [exact Hv|]. intros n Hn. destruct (watched_graphic n Hn) as [_ Hg]. rewrite forallb_forall.
  intros c Hc. eapply Forall_forall in Hg; [|by apply list_elem_of_In]. unfold is_ascii. unfold is_graphic, in_range in Hg.
  apply andb_true_iff in Hg as [_ Hg]. apply Nat.leb_le in Hg. apply Nat.ltb_lt. lia.
Qed.
Lemma saved_survives `{!CodecLaws (option (list str)) ascii_names} f s d d' : names_ok (wp_names s) -> wp_path s <> [] ->
  saveLocked f s d = (true, d') -> survives (s, d').
Proof.
  intros Hok Hp. unfold saveLocked. rewrite bool_decide_false by done. destruct (Encode _) as [data|] eqn:Ee; [|done]. intros Hs.
  pose proof (saved_or_kept [DMkdir] [DClose] data f d eq_refl eq_refl) as Hk. fold (watched_ops data) in Hk. rewrite Hs in Hk.
  intros f' seeded. unfold newWatchedProcessStore. cbn. rewrite Hk. cbn. rewrite (Decode_Encode _ data (names_ascii _ Hok) Ee). cbn.
  rewrite normalize_same by done. by destruct s.
Qed.
Lemma failed_keeps f s d d' : saveLocked f s d = (false, d') -> dk_file d' = dk_file d.
Proof.
  unfold saveLocked. case_bool_decide; [done|]. destruct (Encode _) as [data|]; [|by intros [= <-]]. intros Hs.
  pose proof (saved_or_kept [DMkdir] [DClose] data f d eq_refl eq_refl) as Hk. fold (watched_ops data) in Hk. by rewrite Hs in Hk.
Qed.
Lemma seed_ok f s seeded d path : wp_path s = path -> store_ok path (seed_names f s seeded d).
Proof. intros Hp. split; [done|apply normalize_ok]. Qed.
Lemma new_store_ok f path seeded d : store_ok path (newWatchedProcessStore f path seeded d).
Proof. unfold newWatchedProcessStore. destruct (_ ≫= _) as [[names|]|]; [split; [done|apply normalize_ok]|by apply seed_ok..]. Qed.
Lemma reseed_ok path f seeded st : store_ok path st -> store_ok path (Reseed f seeded st).
Proof. intros Hok. unfold Reseed. destruct (is_Some_b _); [done|]. by apply seed_ok, Hok. Qed.
Lemma add_inv path f name st r st' : store_ok path st -> ValidWatchedProcessName name = true -> Add f name st = (r, st') ->
  store_ok path st' /\ (forall n, n ∈ wp_names st'.1 <-> n = name \/ n ∈ wp_names st.1) /\
  match r with
  | Some names => names = wp_names st'.1 /\ (name ∈ wp_names st.1 /\ st' = st \/ saveLocked f st'.1 st.2 = (true, st'.2))
  | None => name ∉ wp_names st.1 /\ dk_file st'.2 = dk_file st.2
  end.
Proof.
  destruct st as [s d]. intros [Hp Hok] Hv. unfold Add, changed. case_bool_decide as Hin; cbn in *.
  - intros [= <- <-]. split_and!; [done| |done|by left]. intros n. cbn. naive_solver.
  - destruct (saveLocked f _ d) as [ok d'] eqn:Es. intros [= <- <-]. cbn. split_and!; [split; [done|by apply insert_ok]| |].
    + intros n. rewrite elem_of_sort_strings, elem_of_app, list_elem_of_singleton. tauto.
    + destruct ok; [by split; [|right]|]. split; [done|]. by eapply failed_keeps.
Qed.
Lemma remove_inv path f name st r st' : store_ok path st -> Remove f name st = (r, st') ->
  store_ok path st' /\ (forall n, n ∈ wp_names st'.1 <-> n <> name /\ n ∈ wp_names st.1) /\
  match r with
  | Some names => names = wp_names st'.1 /\ (name ∉ wp_names st.1 /\ st' = st \/ saveLocked f st'.1 st.2 = (true, st'.2))
  | None => name ∈ wp_names st.1 /\ dk_file st'.2 = dk_file st.2
  end.
Proof.
  destruct st as [s d]. intros [Hp Hok]. unfold Remove, changed. case_bool_decide as Hin; cbn in *.
  - destruct (saveLocked f _ d) as [ok d'] eqn:Es. intros [= <- <-]. cbn. split_and!; [split; [done|by apply filter_ok]| |].
    + intros n. by rewrite list_elem_of_filter.
    + destruct ok; [by split; [|right]|]. split; [done|]. by eapply failed_keeps.
  - intros [= <- <-]. split_and!; [done| |done|by left]. intros n. cbn. split; [|tauto]. intros Hn. split; [by intros ->|done].
Qed.
Lemma post_inv f decode maxBody body st a st' : post_watched f decode maxBody body st = (a, st') ->
  (exists status, a = WError status /\ st' = st) \/
  exists raw r, ValidWatchedProcessName (TrimSpace raw) = true /\ Add f (TrimSpace raw) st = (r, st') /\ respond (r, st') = (a, st') /\
    exists data, body = Some data /\ decode (take (Z.to_nat (maxBody + 1)) data) = Some raw.
Proof.
  unfold post_watched. destruct body as [body|]; [|intros [= <- <-]; eauto]. cbv zeta. destruct (_ <? _); [intros [= <- <-]; eauto|].
  destruct (decode _) as [raw|] eqn:Ed; [|intros [= <- <-]; eauto]. destruct (ValidWatchedProcessName _) eqn:Ev; cbn; [|intros [= <- <-]; eauto].
  destruct (Add f (TrimSpace raw) st) as [r st2] eqn:Ea. cbn. intros [= <- <-]. right. exists raw, r. split_and!; [done..|]. eauto.
Qed.
Lemma step_ok path f c st : store_ok path st -> store_ok path (watched_step f c st).2.
Proof.
  intros Hok. destruct c as [decode maxBody body|name|seeded]; cbn [watched_step].
  - destruct (post_watched f decode maxBody body st) as [a st'] eqn:E. apply post_inv in E as [(? & _ & ->)|(raw & r & Hv & Ha & _)]; [done|].
    by apply (add_inv _ _ _ _ _ _ Hok Hv) in Ha as [? _].
  - unfold delete_watched. destruct (Remove f name st) as [r st'] eqn:E. by apply (remove_inv _ _ _ _ _ _ Hok) in E as [? _].
  - by apply reseed_ok.
Qed.
Lemma run_ok path cs st : store_ok path st -> store_ok path (watched_run cs st).2.
Proof.
  revert st. induction cs as [|[f c] cs IH]; intros st Hok; [done|]. cbn [watched_run]. pose proof (step_ok path f c st Hok) as H1.
  destruct (watched_step f c st) as [a st1]. specialize (IH st1 H1). by destruct (watched_run cs st1) as [l st2].
Qed.
Lemma post_retry f decode maxBody body st st' : post_watched f decode maxBody body st = (WError 500, st') -> forall f',
  post_watched f' decode maxBody body st' = (WList (wp_names st'.1), st') /\ dk_file st'.2 = dk_file st.2.
Proof.
  unfold post_watched. destruct body as [body|]; [|done]. cbv zeta. destruct (_ <? _); [done|]. destruct (decode _) as [raw|]; [|done].
  destruct (ValidWatchedProcessName _); [cbn [negb]|done]. unfold Add, changed. destruct st as [s d]. case_bool_decide as Hin; [done|].
  destruct (saveLocked f _ d) as [ok d'] eqn:Es. destruct ok; [done|]. intros [= <-] f'. cbn. split; [|by eapply failed_keeps].
  rewrite bool_decide_true; [done|]. rewrite elem_of_sort_strings, elem_of_app, list_elem_of_singleton. by right.
Qed.
(** C40. The list of watched processes, after any run of its routes and reloads and
    whatever calls of the saves fail: sorted, without repeats, and of valid names only.
    A change that is answered with the list is exact, and is kept by the next start,
    whatever that is seeded with; a reload changes nothing once the file exists; an
    error leaves the file as it was. But when the save of an addition fails, the name
    stays in memory, and every retry is answered as a success without being saved. *)
Theorem watched_exact `{!CodecLaws (option (list str)) ascii_names} f0 path seeded d0 cs f c a st' : path <> [] ->
  let st := (watched_run cs (newWatchedProcessStore f0 path seeded d0)).2 in watched_step f c st = (a, st') ->
  names_ok (wp_names st.1) /\
  match c, a with
  | WPost decode maxBody body, WList names => exists raw data, body = Some data /\ decode (take (Z.to_nat (maxBody + 1)) data) = Some raw /\
      names = wp_names st'.1 /\ (forall n, n ∈ names <-> n = TrimSpace raw \/ n ∈ wp_names st.1) /\ (TrimSpace raw ∈ wp_names st.1 /\ st' = st \/ survives st')
  | WPost decode maxBody body, WError status => dk_file st'.2 = dk_file st.2 /\
      (status = 500 -> forall f', post_watched f' decode maxBody body st' = (WList (wp_names st'.1), st'))
  | WDelete name, WList names => names = wp_names st'.1 /\ (forall n, n ∈ names <-> n <> name /\ n ∈ wp_names st.1) /\
      (name ∉ wp_names st.1 /\ st' = st \/ survives st')
  | WDelete name, WError _ => dk_file st'.2 = dk_file st.2
  | WReload _, _ => is_Some (dk_file st.2) -> st' = st
  end.
Proof.
  intros Hp st Hstep. assert (Hok : store_ok path st) by apply run_ok, new_store_ok. clearbody st. split; [apply Hok|].
  assert (Hsave : forall s, store_ok path st' -> saveLocked f st'.1 s = (true, st'.2) -> survives st').
  { intros s [E Hn] Hs. destruct st' as [s' d']. eapply saved_survives; [done| |exact Hs]. cbn in E. by rewrite E. }
  destruct c as [decode maxBody body|name|seeded']; cbn [watched_step] in Hstep.
  - destruct a as [names|status].
    + apply post_inv in Hstep as [(? & ? & _)|(raw & r & Hv & Ha & Hr & data & Hb & Hd)]; [done|]. exists raw, data.
      destruct (add_inv _ _ _ _ _ _ Hok Hv Ha) as (Hok' & Hin & Hres). cbn in Hr. destruct r as [l|]; [|done]. injection Hr as <-. destruct Hres as (-> & Hres).
      split_and!; [done..|]. destruct Hres as [Hs|Hs]; [by left|right; by eapply Hsave].
    + split; [|intros ->; intros f'; by eapply post_retry]. apply post_inv in Hstep as [(? & _ & ->)|(raw & r & Hv & Ha & Hr & _)]; [done|].
      destruct (add_inv _ _ _ _ _ _ Hok Hv Ha) as (_ & _ & Hres). cbn in Hr. destruct r; [done|]. apply Hres.
  - unfold delete_watched in Hstep. destruct (Remove f name st) as [r st2] eqn:Er. destruct (remove_inv _ _ _ _ _ _ Hok Er) as (Hok' & Hin & Hres).
    cbn in Hstep. destruct r as [l|]; injection Hstep as <- <-; [|apply Hres]. destruct Hres as (-> & Hres). split_and!; [done..|].
    destruct Hres as [Hs|Hs]; [by left|right; by eapply Hsave].
  - injection Hstep as <- <-. intros Hd. unfold Reseed, is_Some_b. by destruct Hd as [x ->].
Qed.
End watched.
(** One list that has a text, and the text that is it. *)
Definition one_list : list str := [$"java"; $"nginx"].
#[local] Instance one_codec : JSONCodec (option (list str)) := {
  Encode a := if bool_decide (a = Some one_list) then Some ($"[1]") else None;
  Decode data := if bool_decide (filter (fun c => c <> newline) data = $"[1]") then Some (Some one_list) else None;
}.
Definition demo_post (raw : str) : watched_call := WPost (fun _ => Some raw) 100 (Some []).
Definition all_well : nat -> option nat := fun _ => None.
Lemma watched_exact_witness :
  let st := (watched_run [(all_well, demo_post ($"nginx"))] (newWatchedProcessStore all_well ($"/w.json") [] (mkDisk None None))).2 in
  names_ok (wp_names st.1) /\ (watched_step all_well (demo_post ($" java ")) st).1 = WList one_list.
Proof.
  intros st. assert (E : (watched_step all_well (demo_post ($" java ")) st).1 = WList one_list) by (vm_compute; reflexivity). split; [|exact E].
  pose proof (fun L => watched_exact (CodecLaws0 := L) all_well ($"/w.json") [] (mkDisk None None) [(all_well, demo_post ($"nginx"))] all_well (demo_post ($" java "))
    (watched_step all_well (demo_post ($" java ")) st).1 (watched_step all_well (demo_post ($" java ")) st).2) as Hw.
  refine (proj1 (Hw _ _ (surjective_pairing _))); [|discriminate]. split.
  - intros a data _. cbn. case_bool_decide; [subst a; intros [= <-]; reflexivity|discriminate].
  - intros data. cbn. by rewrite filter_app, app_nil_r.
Defined.
