(* ===== verification/ComposeStacks.v ===== *)
(** * ComposeStacks: the registry of managed compose stacks

    [internal/daemon/compose_stacks.go] and its routes in [compose_stacks_http.go]: the
    registry and its file, the scan that fills it, and the requests. A root of a scan is
    the tree [filepath.WalkDir] sees there; YAML and JSON are interfaces. The registry is
    the one the native operations of [Ops] look projects up in. *)

From S2P Require Import Prelude GoStr GoPath Config Alarms Executor Ops AtomicSave.
Open Scope Z_scope.

(** ** The registry *)

Section store.
Context `{Unicode, JSONCodec (list composeStack)}.
Definition key (s : composeStack) : str := ToLower (st_Project s).
Record composeStackStore := mkStackStore { sr_path : str; sr_stacks : gmap str composeStack }.
Notation state := (composeStackStore * disk)%type.
Definition load_one (m : gmap str composeStack) (s : composeStack) : gmap str composeStack :=
  if bool_decide (st_Project s = []) || bool_decide (st_Directory s = []) then m else <[key s := s]> m.
Definition load (path : str) (d : disk) : gmap str composeStack :=
  if bool_decide (path = []) then ∅ else match dk_file d ≫= Decode with Some l => fold_left load_one l ∅ | None => ∅ end.
Definition newComposeStackStore (path : str) (d : disk) : composeStackStore := mkStackStore path (load path d).
(** [sort.Slice] by the project; no two stacks have the same. *)
Definition project_le (s t : composeStack) : Prop := str_le (st_Project s) (st_Project t).
#[export] Instance project_le_dec s t : Decision (project_le s t).
Proof. unfold project_le. apply _. Defined.
Definition listLocked (s : composeStackStore) : list composeStack := merge_sort project_le ((map_to_list (sr_stacks s)).*2).
Definition Get (s : composeStackStore) (project : str) : option composeStack := sr_stacks s !! ToLower (TrimSpace project).
(** The temporary file is fresh, and is removed when the save fails after its creation. *)
Definition stack_ops (data : str) : list disk_op := save_ops [DMkdir] [DSync; DChmod; DClose] (data ++ [newline]).
Definition saveLocked (f : nat -> option nat) (s : composeStackStore) (d : disk) : disk :=
  if bool_decide (sr_path s = []) then d
  else
    match Encode (listLocked s) with
    | None => d
    | Some data =>
        let '(ok, d) := disk_calls (stack_ops data) f 0 (mkDisk (dk_file d) None) in
        if ok then d else match f (List.length (stack_ops data)) with None => mkDisk (dk_file d) None | Some _ => d end
    end.
(** A stack of a scan: added, updated, or the same but for its files. *)
Definition apply_one (acc : gmap str composeStack * list composeStack * list composeStack) (s : composeStack) :=
  let '(m, added, updated) := acc in
  match m !! key s with
  | None => (<[key s := s]> m, added ++ [s], updated)
  | Some old =>
      (<[key s := s]> m, added,
       if negb (bool_decide (st_Directory old = st_Directory s)) || negb (bool_decide (st_Services old = st_Services s)) then updated ++ [s] else updated)
  end.
(** Not found by the scan, and its directory is gone. *)
Definition vanished (exists_ : str -> bool) (seen : list str) (kv : str * composeStack) : bool :=
  negb (bool_decide (kv.1 ∈ seen)) && negb (exists_ (st_Directory kv.2)).
Definition Apply (f : nat -> option nat) (exists_ : str -> bool) (scanned : list composeStack) (st : state) :
    (list composeStack * list composeStack * list composeStack) * state :=
  let '(s, d) := st in
  let '(m, added, updated) := fold_left apply_one scanned (sr_stacks s, [], []) in
  let removed := (map_to_list (filter (fun kv => vanished exists_ (key <$> scanned) kv = true) m)).*2 in
  let s := mkStackStore (sr_path s) (filter (fun kv => vanished exists_ (key <$> scanned) kv = false) m) in
  if bool_decide (added = []) && bool_decide (updated = []) && bool_decide (removed = []) then (([], [], []), (s, d))
  else ((added, updated, removed), (s, saveLocked f s d)).
Definition Remove (f : nat -> option nat) (project : str) (st : state) : option composeStack * state :=
  let '(s, d) := st in
  let k := ToLower (TrimSpace project) in
  match sr_stacks s !! k with
  | None => (None, st)
  | Some stack => let s := mkStackStore (sr_path s) (delete k (sr_stacks s)) in (Some stack, (s, saveLocked f s d))
  end.
End store.

(** ** Reading one file *)

(** The services in the order the range over their map visits them. *)
Record composeDocument := mkDocument { doc_Name : str; doc_Services : list str }.
Class ComposeYAML := { Unmarshal_compose : str -> option composeDocument }.
Definition composeFileMaxBytes : Z := 256 * 1024.
(** What the scan meets: a file, what [os.Stat] says of it (a directory or not, its
    size) and its content; or a directory, its entries in order, and whether reading
    them failed. *)
Inductive dirent :=
  | EFile (name : str) (stat : option (bool * Z)) (content : option str)
  | EDir (name : str) (entries : list dirent) (broken : bool).
Definition entry_name (e : dirent) : str := match e with EFile name _ _ | EDir name _ _ => name end.
Definition size_of (s : str) : Z := Z.of_nat (List.length s).
Definition readComposeDocument `{ComposeYAML} (stat : option (bool * Z)) (content : option str) : option composeDocument :=
  match stat, content with
  | Some (isDir, size), Some data =>
      if isDir || (composeFileMaxBytes <? size) || (composeFileMaxBytes <? size_of data) then None else Unmarshal_compose data
  | _, _ => None
  end.
Definition isComposeFileName `{Unicode} (name : str) : bool :=
  let lowered := ToLower name in HasSuffix lowered ($".yml") || HasSuffix lowered ($".yaml").
Definition isComposeOverrideFile `{Unicode} (path : str) : bool :=
  let name := ToLower (Base path) in
  Contains name ($".override.") || HasSuffix name ($"override.yml") || HasSuffix name ($"override.yaml").
(** Base files first, then overrides, each in order. *)
Definition file_le `{Unicode} (a b : str) : Prop :=
  if negb (Bool.eqb (isComposeOverrideFile a) (isComposeOverrideFile b)) then isComposeOverrideFile a = false else str_le a b.
#[export] Instance file_le_dec `{Unicode} a b : Decision (file_le a b).
Proof. unfold file_le. destruct (negb _); apply _. Defined.
Definition orderComposeFiles `{Unicode} (files : list str) : list str := merge_sort file_le files.
(** The loop of [dedupeSorted] over [values], sorted, from index [i] on with [k] values
    out, which stand in the same array. *)
Fixpoint dedupe_loop (todo i k : nat) (values : list str) : list str :=
  match todo with
  | O => take k values
  | S todo =>
      match values !! i with
      | Some value =>
          if bool_decide (i = 0%nat) || negb (bool_decide (values !! pred i = Some value)) then dedupe_loop todo (S i) (S k) (<[k := value]> values)
          else dedupe_loop todo (S i) k values
      | None => take k values
      end
  end.
Definition dedupeSorted (values : list str) : list str := let values := sort_strings values in dedupe_loop (List.length values) 0 0 values.

(** ** The scan *)

Record composeScanLimits := mkLimits { li_depth : Z; li_maxFiles : Z }.
Definition composeScanLimitsDefault : composeScanLimits := mkLimits 3 400.
Definition composeDefaultScanRoots : list str := [$"/opt"; $"/srv"; $"/root"; $"/home"; $"/etc/compose"; $"/var/lib/compose"].
Record composeStackBuilder := mkBuilder { sb_stack : composeStack; sb_declared : bool }.
Record scan_state := mkScan { sc_read : Z; sc_ticks : nat; sc_dirs : gmap str composeStackBuilder }.
Definition tick (st : scan_state) : scan_state := mkScan (sc_read st) (S (sc_ticks st)) (sc_dirs st).
Definition count_sep (path : str) : Z := Z.of_nat (List.length (filter (fun c => c = slash) path)).

Section scan.
Context `{Unicode, ComposeYAML}.
Definition recordComposeFile (path : str) (document : composeDocument) (now : Z) (dirs : gmap str composeStackBuilder) : gmap str composeStackBuilder :=
  let directory := Dir path in
  let b := default (mkBuilder (mkComposeStack (Base directory) directory [] [] 0) false) (dirs !! directory) in
  let name := TrimSpace (doc_Name document) in
  let declares := negb (bool_decide (name = [])) && negb (sb_declared b) in
  let s := sb_stack b in
  <[directory := mkBuilder
      (mkComposeStack (if declares then name else st_Project s) (st_Directory s) (st_Files s ++ [path]) (st_Services s ++ doc_Services document) now)
      (sb_declared b || declares)]> dirs.

(** [ctx_done n] is what [ctx.Err] says the [n]-th time. *)
Variable ctx_done : nat -> bool.
Variable limits : composeScanLimits.
Variable now : Z.
Definition over (st : scan_state) : bool := ctx_done (sc_ticks st) || (li_maxFiles limits <=? sc_read st).
Definition visit_file (path : str) (stat : option (bool * Z)) (content : option str) (st : scan_state) : scan_state :=
  let dirs :=
    match readComposeDocument stat content with
    | Some document => if bool_decide (doc_Services document = []) then sc_dirs st else recordComposeFile path document now (sc_dirs st)
    | None => sc_dirs st
    end in
  mkScan (sc_read st + 1) (sc_ticks st) dirs.
(** [filepath.WalkDir] with the callback of the scan; [true] for [fs.SkipAll]. *)
Fixpoint walk (rootDepth : Z) (top : bool) (path : str) (e : dirent) (st : scan_state) : bool * scan_state :=
  if over st then (true, tick st)
  else
    let st := tick st in
    match e with
    | EFile name stat content => (false, if isComposeFileName name then visit_file path stat content st else st)
    | EDir name entries broken =>
        if (negb top && HasPrefix name dot) || (li_depth limits <=? count_sep path - rootDepth) || broken then (false, st)
        else
          (fix visit (es : list dirent) (st : scan_state) : bool * scan_state :=
             match es with
             | [] => (false, st)
             | e :: es =>
                 let '(stop, st) := walk rootDepth false (Join [path; entry_name e]) e st in
                 if stop then (true, st) else visit es st
             end) entries st
    end.
(** A root that is not there is [None]. *)
Fixpoint scan_roots (roots : list (str * option dirent)) (st : scan_state) : scan_state :=
  match roots with
  | [] => st
  | (root, tree) :: roots =>
      if over st then tick st
      else
        let st := tick st in
        scan_roots roots (match tree with Some e => (walk (count_sep (Clean root)) true root e st).2 | None => st end)
  end.
Definition stack_le (s t : composeStack) : Prop :=
  if bool_decide (st_Project s = st_Project t) then str_le (st_Directory s) (st_Directory t) else str_le (st_Project s) (st_Project t).
#[export] Instance stack_le_dec s t : Decision (stack_le s t).
Proof. unfold stack_le. case_bool_decide; apply _. Defined.
Definition finish_stack (b : composeStackBuilder) : composeStack :=
  let s := sb_stack b in
  mkComposeStack (st_Project s) (st_Directory s) (orderComposeFiles (st_Files s)) (dedupeSorted (st_Services s)) (st_ScannedAt s).
End scan.
Definition defaulted (l : composeScanLimits) : composeScanLimits :=
  mkLimits (if li_depth l <=? 0 then li_depth composeScanLimitsDefault else li_depth l)
    (if li_maxFiles l <=? 0 then li_maxFiles composeScanLimitsDefault else li_maxFiles l).
Definition scanComposeStacks `{Unicode, ComposeYAML} (ctx_done : nat -> bool) (roots : list (str * option dirent)) (limits : composeScanLimits) (now : Z) : list composeStack :=
  merge_sort stack_le ((finish_stack ∘ snd) <$> map_to_list (sc_dirs (scan_roots ctx_done (defaulted limits) now roots (mkScan 0 0 ∅)))).

(** ** What a request may name *)

Definition validateComposeScanPath (value : str) : res str :=
  let value := TrimSpace value in
  if bool_decide (value = []) then Err (Errorf "empty path" [])
  else if negb (IsAbs value) then Err (Errorf "path %q is not absolute" [FStr value])
  else if ContainsAny value [byte 0; byte 10; byte 13] || Contains value ($"/../") then Err (Errorf "path %q is not usable" [FStr value])
  else
    let cleaned := Clean value in
    if HasSuffix cleaned ($"/..") then Err (Errorf "path %q is not usable" [FStr value]) else Ok cleaned.
Record composeScanInput := mkScanInput { in_Path : str; in_Roots : list str; in_Depth : Z }.
Definition composeScanMaxRoots : Z := 32.
(** The request's depth over the configured one over the default, at most twelve. *)
Definition composeScanLimits_of (configured requested : Z) : composeScanLimits :=
  let depth := if 0 <? configured then configured else li_depth composeScanLimitsDefault in
  let depth := if 0 <? requested then requested else depth in
  mkLimits (if 12 <? depth then 12 else depth) (li_maxFiles composeScanLimitsDefault).
Definition composeScanDefaults (configured : list str) : list str := if bool_decide (configured = []) then composeDefaultScanRoots else configured.
Fixpoint validated (roots : list str) : res (list str) :=
  match roots with
  | [] => Ok []
  | root :: roots => let? cleaned := validateComposeScanPath root in let? rest := validated roots in Ok (cleaned :: rest)
  end.
Definition composeScanRoots (configured : list str) (input : composeScanInput) : res (list str) :=
  let named := negb (bool_decide (TrimSpace (in_Path input) = [])) in
  let several := negb (bool_decide (in_Roots input = [])) in
  if named && several then Err (Errorf "send either a path or roots, not both" [])
  else if named then let? path := validateComposeScanPath (in_Path input) in Ok [path]
  else if several then
    if composeScanMaxRoots <? Z.of_nat (List.length (in_Roots input)) then Err (Errorf "at most %d roots per scan" [FInt composeScanMaxRoots])
    else validated (in_Roots input)
  else Ok (composeScanDefaults configured).

(** ** The view of the registry

    Each stack with its containers in the daemon's snapshot, when there is one; the order
    of containers of the same name is not specified by the code, and is kept here. *)
Record composeStackContainer := mkStackContainer { kc_ID : str; kc_Name : str; kc_Image : str; kc_State : str; kc_Runtime : str }.
Record composeStackView := mkStackView { vw_stack : composeStack; vw_Running : nat; vw_Total : nat; vw_Containers : list composeStackContainer }.
Definition name_le (a b : composeStackContainer) : Prop := str_le (kc_Name a) (kc_Name b).
#[export] Instance name_le_dec a b : Decision (name_le a b).
Proof. unfold name_le. apply _. Defined.
Definition by_project `{Unicode} (runtimes : list containersRuntimePayload) (k : str) : list composeStackContainer :=
  concat ((fun r => omap (fun c =>
      let project := TrimSpace (ct_ComposeProject c) in
      if bool_decide (project = []) || negb (bool_decide (ToLower project = k)) then None
      else Some (mkStackContainer (ct_ID c) (ct_Name c) (ct_Image c) (ct_State c) (rt_Runtime r))) (rt_Containers r)) <$> runtimes).
Definition composeStackViews `{Unicode} (stacks : list composeStack) (snapshot : option (list containersRuntimePayload)) : list composeStackView :=
  (fun s =>
     match snapshot with
     | None => mkStackView s 0 0 []
     | Some runtimes =>
         let containers := merge_sort name_le (by_project runtimes (key s)) in
         mkStackView s (List.length (filter (fun c => kc_State c = $"running") containers)) (List.length containers) containers
     end) <$> stacks.
(** The tool a compose step tries first. *)
Definition composeToolResolution `{Unicode} `{OpsHost} (runtimePath : str) : str :=
  match composeTools runtimePath with t :: _ => join [ch " "] (Base (tl_command t) :: tl_prefix t) | [] => [] end.

(** ** The routes *)

Definition StatusInternalServerError : Z := 500.
Section routes.
Context `{Unicode, ComposeYAML, JSONCodec (list composeStack), ExecEnv}.
(** The body of a signed request, read under its limit, and its JSON. *)
Definition signedScanInput (decode : str -> option composeScanInput) (secret : str) (maxBody : Z) (body : option str) (signature : str) : composeScanInput + Z :=
  match body with
  | None => inr StatusBadRequest
  | Some body =>
      let body := take (Z.to_nat (maxBody + 1)) body in
      if maxBody <? size_of body then inr StatusRequestEntityTooLarge
      else if negb (signatureValid secret body signature) then inr StatusUnauthorized
      else if bool_decide (body = []) then inl (mkScanInput [] [] 0)
      else match decode body with Some input => inl input | None => inr StatusBadRequest end
  end.
Record scan_answer := mkScanAnswer { sa_roots : list str; sa_found : nat; sa_added : list str; sa_updated : list str; sa_removed : list str }.
Definition stackNames (stacks : list composeStack) : list str := sort_strings (st_Project <$> stacks).
(** [tree] is what stands at each path, [exists_] whether a directory does. *)
Definition handleComposeStacksScan (f : nat -> option nat) (ctx_done : nat -> bool) (tree : str -> option dirent) (exists_ : str -> bool) (now : Z)
    (configuredRoots : list str) (configuredDepth : Z) (input : composeScanInput + Z) (st : composeStackStore * disk) : (scan_answer + Z) * (composeStackStore * disk) :=
  match input with
  | inr status => (inr status, st)
  | inl input =>
      match composeScanRoots configuredRoots input with
      | Err _ => (inr StatusBadRequest, st)
      | Ok roots =>
          let found := scanComposeStacks ctx_done ((fun r => (r, tree r)) <$> roots) (composeScanLimits_of configuredDepth (in_Depth input)) now in
          let '((added, updated, removed), st) := Apply f exists_ found st in
          (inl (mkScanAnswer roots (List.length found) (stackNames added) (stackNames updated) (stackNames removed)), st)
      end
  end.
Definition handleComposeStackRemove (f : nat -> option nat) (project : str) (st : composeStackStore * disk) : (composeStack + Z) * (composeStackStore * disk) :=
  let project := TrimSpace project in
  if bool_decide (project = []) then (inr StatusBadRequest, st)
  else match Remove f project st with (Some stack, st) => (inl stack, st) | (None, st) => (inr StatusNotFound, st) end.
End routes.
