(* ===== verification/ComposeStacksFacts.v ===== *)
(** * ComposeStacksFacts: what a scan finds and the registry keeps

    The theorems of [ComposeStacks]: the stacks of a scan against a reference over the
    files it met, the registry after a scan and after a restart, and the paths a
    request may name. *)

From S2P Require Import Prelude GoStr GoPath Config Executor Ops AtomicSave ComposeStacks.
Open Scope Z_scope.

(** ** The services, sorted and without repeats *)

Lemma str_lt_of s t : str_le s t -> s <> t -> ~ str_le t s.
Proof. intros H Hne Hts. by apply Hne, str_le_antisym. Qed.
Lemma sorted_last l x y : StronglySorted str_le (l ++ [x]) -> y ∈ l ++ [x] -> str_le y x.
Proof.
  intros Hs Hy. apply elem_of_app in Hy as [Hy|Hy%list_elem_of_singleton]; [|subst; apply str_le_refl].
  eapply StronglySorted_app_1_elem_of; [exact Hs|done|by apply list_elem_of_singleton].
Qed.
Lemma sorted_snoc l x : StronglySorted str_le l -> (forall y, y ∈ l -> str_le y x) -> StronglySorted str_le (l ++ [x]).
Proof.
  intros Hs Hx. induction Hs as [|y l Hs IH Hy]; cbn; [repeat constructor|]. constructor; [apply IH; intros z Hz; by apply Hx, list_elem_of_further|].
  apply Forall_app. split; [done|]. repeat constructor. apply Hx, list_elem_of_here.
Qed.
Record strictly_sorted (l : list str) : Prop := { ss_sorted : StronglySorted str_le l; ss_once : NoDup l }.
(** [O] is out, [G] was left behind, [P] was read and [Q] is to come. *)
Lemma dedupe_loop_spec Q : forall O G P, List.length P = List.length (O ++ G) -> last (O ++ G) = last P -> (forall x, x ∈ O <-> x ∈ P) ->
  strictly_sorted O -> StronglySorted str_le (P ++ Q) ->
  let r := dedupe_loop (List.length Q) (List.length (O ++ G)) (List.length O) (O ++ G ++ Q) in strictly_sorted r /\ forall x, x ∈ r <-> x ∈ P ++ Q.
Proof.
  induction Q as [|v Q IH]; intros O G P Hlen Hlast Hin HO HS; cbn [List.length dedupe_loop].
  - rewrite !app_nil_r, take_app_length. done.
  - assert (Hv : (O ++ G ++ v :: Q) !! List.length (O ++ G) = Some v) by (rewrite app_assoc; by apply list_lookup_middle).
    rewrite Hv. assert (Hprev : bool_decide (List.length (O ++ G) = 0%nat) || negb (bool_decide ((O ++ G ++ v :: Q) !! pred (List.length (O ++ G)) = Some v)) = negb (bool_decide (last P = Some v))).
    { rewrite <-Hlast. rewrite app_assoc. destruct (decide (O ++ G = [])) as [->|Hne]; [done|].
      assert (Hpos : List.length (O ++ G) <> 0%nat) by by destruct (O ++ G). rewrite bool_decide_false by done. cbn [orb].
      by rewrite lookup_app_l, last_lookup by lia. }
    rewrite Hprev. clear Hprev. assert (HSP : StronglySorted str_le (P ++ [v])) by (rewrite cons_middle, app_assoc in HS; by eapply StronglySorted_app_1_l).
    destruct (decide (last P = Some v)) as [Hl|Hl].
    + rewrite bool_decide_true by done. cbn [negb].
      replace (dedupe_loop (List.length Q) (S (List.length (O ++ G))) (List.length O) (O ++ G ++ v :: Q))
        with (dedupe_loop (List.length Q) (List.length (O ++ (G ++ [v]))) (List.length O) (O ++ (G ++ [v]) ++ Q))
        by (f_equal; [rewrite !length_app; cbn; lia|by rewrite <-!app_assoc]).
      rewrite (cons_middle v P Q), (app_assoc P [v] Q) in HS |- *. apply IH; [|by rewrite app_assoc, !last_snoc| |done|done].
      * rewrite !app_assoc, !(length_app _ [v]). by rewrite Hlen.
      * intros x. rewrite Hin, elem_of_app, list_elem_of_singleton. split; [by left|]. intros [?| ->]; [done|].
        apply last_Some in Hl as [P' ->]. apply elem_of_app. right. by apply list_elem_of_singleton.
    + rewrite bool_decide_false by done. cbn [negb]. assert (HO' : strictly_sorted (O ++ [v])).
      { assert (Hle : forall y, y ∈ O -> str_le y v) by (intros y Hy; apply (sorted_last P v y HSP), elem_of_app; left; by apply Hin).
        split; [by apply sorted_snoc; [apply HO|]|]. apply NoDup_app. split_and!; [apply HO| |apply NoDup_singleton]. intros y Hy ->%list_elem_of_singleton.
        apply Hl. destruct (last P) as [z|] eqn:Ez; [|apply last_None in Ez; subst P; by apply Hin, elem_of_nil in Hy].
        apply last_Some in Ez as [P' ->]. f_equal. apply str_le_antisym; [apply (sorted_last (P' ++ [z]) v z HSP); rewrite !elem_of_app, list_elem_of_singleton; auto|].
        apply (sorted_last P'); [by eapply StronglySorted_app_1_l|by apply Hin]. }
      replace (dedupe_loop (List.length Q) (S (List.length (O ++ G))) (S (List.length O)) (<[List.length O:=v]> (O ++ G ++ v :: Q)))
        with (dedupe_loop (List.length Q) (List.length ((O ++ [v]) ++ (match G with [] => [] | _ :: G' => G' ++ [v] end))) (List.length (O ++ [v]))
               ((O ++ [v]) ++ (match G with [] => [] | _ :: G' => G' ++ [v] end) ++ Q)).
      2: { f_equal; [destruct G; rewrite !length_app; cbn; rewrite ?length_app; cbn; lia|rewrite length_app; cbn; lia|].
           rewrite insert_app_r_alt, Nat.sub_diag by lia. destruct G as [|g G]; cbn; by rewrite <-!app_assoc. }
      rewrite (cons_middle v P Q), (app_assoc P [v] Q) in HS |- *. apply IH; [| | |done|done].
      * destruct G; rewrite !length_app in *; cbn in *; rewrite ?length_app in *; cbn in *; lia.
      * destruct G; rewrite ?app_nil_r, ?app_assoc, !last_snoc; done.
      * intros x. by rewrite !elem_of_app, Hin.
Qed.
Lemma dedupeSorted_spec l : strictly_sorted (dedupeSorted l) /\ forall x, x ∈ dedupeSorted l <-> x ∈ l.
Proof.
  unfold dedupeSorted. destruct (dedupe_loop_spec (sort_strings l) [] [] []) as [Hs Hin]; try done.
  - split; constructor.
  - apply sort_strings_sorted.
  - split; [exact Hs|]. intros x. rewrite <-(elem_of_sort_strings x l). apply Hin.
Qed.

(** ** The scan against its candidates *)

Section scan.
Context `{Unicode, ComposeYAML}.
Variable limits : composeScanLimits.
Variable now : Z.
(** A candidate file with what it declares, if it is taken. *)
Abbreviation candidate := (str * option composeDocument)%type.
Definition taken (stat : option (bool * Z)) (content : option str) : option composeDocument :=
  match readComposeDocument stat content with Some d => if bool_decide (doc_Services d = []) then None else Some d | None => None end.
(** The candidates below a root, in the order of the walk. *)
Fixpoint candidates (rootDepth : Z) (top : bool) (path : str) (e : dirent) : list candidate :=
  match e with
  | EFile name stat content => if isComposeFileName name then [(path, taken stat content)] else []
  | EDir name entries broken =>
      if (negb top && HasPrefix name dot) || (li_depth limits <=? count_sep path - rootDepth) || broken then []
      else concat (map (fun e => candidates rootDepth false (Join [path; entry_name e]) e) entries)
  end.
Definition root_candidates (r : str * option dirent) : list candidate :=
  match r.2 with Some e => candidates (count_sep (Clean r.1)) true r.1 e | None => [] end.
Definition all_candidates (roots : list (str * option dirent)) : list candidate := concat (root_candidates <$> roots).
Definition record_one (dirs : gmap str composeStackBuilder) (c : candidate) : gmap str composeStackBuilder :=
  match c.2 with Some d => recordComposeFile c.1 d now dirs | None => dirs end.
Definition record_all (l : list candidate) (dirs : gmap str composeStackBuilder) : gmap str composeStackBuilder := fold_left record_one l dirs.
Lemma record_all_app l k dirs : record_all (l ++ k) dirs = record_all k (record_all l dirs).
Proof. apply fold_left_app. Qed.
#[local] Opaque Join.
(** Induction over a tree. *)
Lemma dirent_induction (P : dirent -> Prop) :
  (forall name stat content, P (EFile name stat content)) -> (forall name entries broken, Forall P entries -> P (EDir name entries broken)) -> forall e, P e.
Proof.
  intros Hf Hd. fix IH 1. intros [name stat content|name entries broken]; [apply Hf|apply Hd].
  induction entries as [|e entries IHl]; constructor; [apply IH|exact IHl].
Qed.

Section walk.
Variable ctx_done : nat -> bool.
Hypothesis done_mono : forall n m, (n <= m)%nat -> ctx_done n = true -> ctx_done m = true.
(** A walk processed the first [n] candidates, and stopped short only when it had to. *)
Record walked (l : list candidate) (stop : bool) (st st' : scan_state) : Prop := {
  wk_dirs : exists n, (n <= List.length l)%nat /\ sc_dirs st' = record_all (take n l) (sc_dirs st) /\ sc_read st' = sc_read st + Z.of_nat n /\
    (stop = false -> n = List.length l);
  wk_stop : stop = true -> over ctx_done limits st' = true;
  wk_read : sc_read st <= li_maxFiles limits -> sc_read st' <= li_maxFiles limits;
  wk_ticks : (sc_ticks st <= sc_ticks st')%nat;
}.
Lemma over_tick st : over ctx_done limits st = true -> over ctx_done limits (tick st) = true.
Proof.
  unfold over. cbn. intros [Hc| ->]%orb_true_iff; [|apply orb_true_r]. apply orb_true_iff. left. eapply done_mono; [|exact Hc]. lia.
Qed.
Lemma walked_stop l st : over ctx_done limits st = true -> walked l true st (tick st).
Proof. intros Ho. split; cbn; [|by intros _; apply over_tick|lia|lia]. exists 0%nat. cbn. split_and!; [lia|done|lia|done]. Qed.
Lemma walked_nil st : walked [] false st (tick st).
Proof. split; cbn; [|done|lia|lia]. exists 0%nat. cbn. split_and!; [lia|done|lia|done]. Qed.
Lemma walked_app l k stop st st1 st2 : walked l false st st1 -> walked k stop st1 st2 -> walked (l ++ k) stop st st2.
Proof.
  intros [(n & Hn & Hd & Hr & Hall) _ Hrd Ht] [(m & Hm & Hd2 & Hr2 & Hall2) Hs2 Hrd2 Ht2]. rewrite (Hall eq_refl) in *. split; [|done|auto|lia].
  exists (List.length l + m)%nat. rewrite length_app. split_and!; [lia| |lia|intros E; rewrite (Hall2 E); done].
  rewrite take_app_add, record_all_app, Hd2, Hd, (take_ge l) by lia. done.
Qed.
Lemma walked_more l k st st' : walked l true st st' -> walked (l ++ k) true st st'.
Proof.
  intros [(n & Hn & Hd & Hr & _) Hs Hrd Ht]. split; [|done..]. exists n. rewrite length_app, take_app_le by done. split_and!; [lia|done..].
Qed.
Lemma walked_from l stop st st' : walked l stop (tick st) st' -> walked l stop st st'.
Proof. intros [Hd Hs Hr Ht]. split; [done|done|exact Hr|cbn in Ht; lia]. Qed.
Lemma walk_spec rd e : forall top path st, walked (candidates rd top path e) (walk ctx_done limits now rd top path e st).1 st (walk ctx_done limits now rd top path e st).2.
Proof.
  induction e as [name stat content|name entries broken IH] using dirent_induction; intros top path st; cbn [walk candidates].
  - destruct (over ctx_done limits st) eqn:Eo; [by apply walked_stop|]. cbn. destruct (isComposeFileName name); [|apply walked_nil].
    apply orb_false_iff in Eo as [_ Eo%Z.leb_gt]. split; cbn; [|done|lia|lia]. exists 1%nat. cbn. split_and!; [lia| |lia|done].
    unfold record_one, taken. cbn. destruct (readComposeDocument stat content) as [d|]; [|done]. by case_bool_decide.
  - destruct (over ctx_done limits st) eqn:Eo; [by apply walked_stop|]. cbn. destruct (_ || _); [apply walked_nil|]. apply walked_from.
    generalize (tick st). clear st Eo. induction IH as [|e entries He _ IHl]; intros st; cbn [map concat].
    + split; cbn; [|done|lia|lia]. exists 0%nat. cbn. split_and!; [lia|done|lia|done].
    + specialize (He false (Join [path; entry_name e]) st). destruct (walk ctx_done limits now rd false (Join [path; entry_name e]) e st) as [stop st1]. cbn in He.
      destruct stop; cbn; [by apply walked_more|]. eapply walked_app; [exact He|]. apply IHl.
Qed.
Lemma scan_roots_spec roots st : exists stop, walked (all_candidates roots) stop st (scan_roots ctx_done limits now roots st).
Proof.
  revert st. induction roots as [|[root tree] roots IH]; intros st; cbn [scan_roots].
  - exists false. split; [|done|auto|lia]. exists 0%nat. cbn. split_and!; [lia|done|lia|done].
  - destruct (over ctx_done limits st) eqn:Eo; [exists true; by apply walked_stop|].
    unfold all_candidates. cbn [fmap list_fmap concat]. fold (all_candidates roots). set (st1 := match tree with Some e => _ | None => _ end).
    assert (Hw : exists stop, walked (root_candidates (root, tree)) stop st st1).
    { unfold st1, root_candidates. cbn. destruct tree as [e|]; [|exists false; apply walked_nil]. eexists. apply walked_from, walk_spec. }
    destruct Hw as [[] Hw].
    + exists true. apply walked_more. assert (Hst : scan_roots ctx_done limits now roots st1 = st1 \/ scan_roots ctx_done limits now roots st1 = tick st1).
      { destruct roots as [|[r t] roots]; [by left|]. cbn [scan_roots]. rewrite (wk_stop _ _ _ _ Hw eq_refl). by right. }
      destruct Hst as [-> | ->]; [done|]. destruct Hw as [Hd Hs Hr Ht]. split; [done|by intros E; apply over_tick, Hs|done|cbn; lia].
    + destruct (IH st1) as [stop Hw2]. exists stop. by eapply walked_app.
Qed.
End walk.

(** ** From the files of a directory to its stack *)

(** The files of a directory that were taken, in order. *)
Definition hits (d : str) (l : list candidate) : list (str * composeDocument) :=
  omap (fun c => match c.2 with Some doc => if bool_decide (Dir c.1 = d) then Some (c.1, doc) else None | None => None end) l.
Definition declared_names (h : list (str * composeDocument)) : list str := filter (fun n => n <> []) ((TrimSpace ∘ doc_Name ∘ snd) <$> h).
Definition stack_name (d : str) (h : list (str * composeDocument)) : str := default (Base d) (head (declared_names h)).
Definition raw_stack (d : str) (h : list (str * composeDocument)) : composeStack :=
  mkComposeStack (stack_name d h) d h.*1 (concat ((doc_Services ∘ snd) <$> h)) (if bool_decide (h = []) then 0 else now).
Lemma hits_app d l k : hits d (l ++ k) = hits d l ++ hits d k.
Proof. apply omap_app. Qed.
Lemma declared_app h k : declared_names (h ++ k) = declared_names h ++ declared_names k.
Proof. unfold declared_names. by rewrite fmap_app, filter_app. Qed.
Lemma record_spec l d :
  record_all l ∅ !! d = if bool_decide (hits d l = []) then None else Some (mkBuilder (raw_stack d (hits d l)) (negb (bool_decide (declared_names (hits d l) = [])))).
Proof.
  revert d. induction l as [|[path o] l IH] using rev_ind; intros d; [done|]. rewrite record_all_app, hits_app. cbn [record_all fold_left record_one fst snd].
  destruct o as [doc|]; cbn [hits omap list_omap fst snd]; [|rewrite app_nil_r; apply IH].
  destruct (decide (Dir path = d)) as [Hd|Hd]; [|rewrite (bool_decide_false (Dir path = d)), app_nil_r by done; unfold record_one, recordComposeFile; cbn; rewrite lookup_insert_ne by done; apply IH].
  rewrite (bool_decide_true (Dir path = d)) by done. rewrite bool_decide_false by (by destruct (hits d l)).
  unfold record_one, recordComposeFile. cbn [fst snd]. rewrite Hd, lookup_insert_eq, (IH d). f_equal.
  set (h := hits d l). rewrite declared_app. unfold raw_stack, stack_name. rewrite !declared_app, !fmap_app, concat_app, (bool_decide_false (h ++ _ = [])) by (by destruct h).
  assert (Ed : declared_names [(path, doc)] = if bool_decide (TrimSpace (doc_Name doc) = []) then [] else [TrimSpace (doc_Name doc)]).
  { unfold declared_names. change ((TrimSpace ∘ doc_Name ∘ snd) <$> [(path, doc)]) with [TrimSpace (doc_Name doc)]. rewrite filter_cons, filter_nil.
    case_decide as Hn; [by rewrite bool_decide_false|]. destruct (decide (TrimSpace (doc_Name doc) = [])); [by rewrite bool_decide_true|done]. }
  rewrite Ed. destruct (decide (h = [])) as [Eh|Eh].
  - rewrite Eh. cbn. rewrite app_nil_r. by case_bool_decide.
  - rewrite (bool_decide_false (h = [])) by done. cbn [default sb_stack sb_declared st_Project st_Directory st_Files st_Services].
    destruct (declared_names h) as [|n0 ns] eqn:En; cbn; rewrite ?app_nil_r; case_bool_decide as Ec; cbn; rewrite ?app_nil_r; try done; by rewrite bool_decide_false.
Qed.
Definition finished (d : str) (h : list (str * composeDocument)) : composeStack :=
  mkComposeStack (stack_name d h) d (orderComposeFiles h.*1) (dedupeSorted (concat ((doc_Services ∘ snd) <$> h))) now.
Lemma finish_raw d h : h <> [] -> forall b, finish_stack (mkBuilder (raw_stack d h) b) = finished d h.
Proof. intros Hh b. unfold finish_stack, finished, raw_stack. cbn. by rewrite bool_decide_false. Qed.
End scan.

(** ** The order of the stacks and of the files *)

#[export] Instance stack_le_total : Total stack_le.
Proof.
  intros s t. unfold stack_le. destruct (decide (st_Project s = st_Project t)) as [E|E].
  - rewrite !bool_decide_true by congruence. apply str_le_total.
  - rewrite !bool_decide_false by congruence. apply str_le_total.
Qed.
#[export] Instance stack_le_trans : Transitive stack_le.
Proof.
  intros s t u. unfold stack_le. intros H1 H2. destruct (decide (st_Project s = st_Project t)) as [E1|E1], (decide (st_Project t = st_Project u)) as [E2|E2].
  - rewrite bool_decide_true in H1, H2 |- * by congruence. by eapply str_le_trans.
  - rewrite bool_decide_true in H1 by done. rewrite bool_decide_false in H2 |- * by congruence. congruence.
  - rewrite bool_decide_false in H1 by done. rewrite bool_decide_true in H2 by done. rewrite bool_decide_false by congruence. congruence.
  - rewrite bool_decide_false in H1, H2 by done. destruct (decide (st_Project s = st_Project u)) as [E3|E3].
    + exfalso. apply E1, str_le_antisym; [done|]. by rewrite E3.
    + rewrite bool_decide_false by done. by eapply str_le_trans.
Qed.
Section files.
Context `{Unicode}.
#[export] Instance file_le_total : Total file_le.
Proof. intros a b. unfold file_le. destruct (isComposeOverrideFile a), (isComposeOverrideFile b); cbn; auto; apply str_le_total. Qed.
#[export] Instance file_le_trans : Transitive file_le.
Proof.
  intros a b c. unfold file_le. destruct (isComposeOverrideFile a), (isComposeOverrideFile b), (isComposeOverrideFile c); cbn; try done; apply str_le_trans.
Qed.
Lemma orderComposeFiles_spec l : orderComposeFiles l ≡ₚ l /\ StronglySorted file_le (orderComposeFiles l).
Proof. split; [apply merge_sort_Permutation|apply (StronglySorted_merge_sort file_le)]. Qed.
End files.

(** ** Where the candidates are *)

Lemma count_join l : Forall name_ok l -> l <> [] -> List.length (filter (fun c => c = slash) (join [slash] l)) = pred (List.length l).
Proof.
  assert (Hno : forall x, name_ok x -> filter (fun c => c = slash) x = []).
  { intros x [_ Hx]. induction x as [|c x IH]; [done|]. apply not_elem_of_cons in Hx as [Hc Hx]. rewrite filter_cons, decide_False by congruence. by apply IH. }
  intros Hl. induction Hl as [|x l Hx Hl IH]; [done|]. intros _. destruct l as [|y l]; [cbn [join]; by rewrite Hno|].
  rewrite join_cons, !filter_app, !length_app, Hno, IH by done. done.
Qed.
Lemma count_sep_abs l : Forall proper l -> l <> [] -> count_sep (abs_path l) = Z.of_nat (List.length l).
Proof.
  intros Hl Hne. unfold count_sep, abs_path. rewrite filter_cons, decide_True by done. cbn [List.length].
  rewrite count_join by (done || by apply Forall_proper_name). destruct l; [done|cbn; lia].
Qed.
Lemma Join_clean l x : Forall proper l -> l <> [] -> proper x -> Join [abs_path l; x] = abs_path (l ++ [x]).
Proof.
  intros Hl Hne Hx. transitivity (Clean (abs_path l ++ slash :: x)); [done|].
  pose proof (abs_path_app l [x] Hne ltac:(done)) as E. cbn [join] in E. rewrite <-E. apply Clean_abs_path, Forall_app. split; [done|by apply Forall_singleton].
Qed.
Inductive well_named : dirent -> Prop :=
  | wn_file name stat content : well_named (EFile name stat content)
  | wn_dir name entries broken : Forall (fun e => proper (entry_name e) /\ well_named e) entries -> well_named (EDir name entries broken).
Definition visible (x : str) : Prop := HasPrefix x dot = false.
Section inside.
Context `{Unicode, ComposeYAML}.
Lemma candidates_inside limits l e : Forall proper l -> l <> [] -> well_named e -> forall k top c, Forall proper k ->
  c ∈ candidates limits (Z.of_nat (List.length l)) top (abs_path (l ++ k)) e -> exists k', c.1 = abs_path (l ++ k ++ k') /\ Forall proper k' /\
  (k' <> [] -> Z.of_nat (List.length (k ++ k')) <= li_depth limits /\ (top = true \/ visible (entry_name e))) /\ Forall visible (removelast k').
Proof.
  intros Hl Hne. induction e as [name stat content|name entries broken IH] using dirent_induction; intros Hw k top c Hk; cbn [candidates].
  - destruct (isComposeFileName name); [|by rewrite elem_of_nil]. intros ->%list_elem_of_singleton. exists []. rewrite !app_nil_r. by repeat constructor.
  - destruct (_ || _) eqn:Eb; [by rewrite elem_of_nil|]. apply orb_false_iff in Eb as [Eb _]. apply orb_false_iff in Eb as [Ehid Edepth].
    assert (Hlk : Forall proper (l ++ k)) by by apply Forall_app. assert (Hlkne : l ++ k <> []) by by destruct l.
    rewrite (count_sep_abs (l ++ k) Hlk Hlkne), length_app in Edepth. apply Z.leb_gt in Edepth.
    intros Hin. apply list_elem_of_In, in_concat in Hin as (cs & Hcs & Hc%list_elem_of_In). apply in_map_iff in Hcs as (e & <- & He%list_elem_of_In).
    inversion Hw as [|? ? ? Hall]; subst. eapply Forall_forall in Hall as [Hx Hwe]; [|exact He]. eapply Forall_forall in IH; [|exact He].
    rewrite (Join_clean (l ++ k)), <-(app_assoc l k) in Hc by done. destruct (IH Hwe (k ++ [entry_name e]) false c) as (k' & Ec & Hk' & Hd & Hv); [apply Forall_app; split; [done|by apply Forall_singleton]|exact Hc|].
    exists (entry_name e :: k'). rewrite <-(app_assoc k) in Ec. split_and!; [exact Ec|by constructor| |].
    + intros _. split; [|destruct top; [by left|right; by cbn in Ehid]]. destruct k' as [|y k']; [rewrite length_app; cbn; lia|].
      destruct Hd as [Hd _]; [done|]. by rewrite <-app_assoc in Hd.
    + destruct k' as [|y k']; [constructor|]. destruct Hd as [_ [?|Hvis]]; [done|done|]. by constructor.
Qed.
End inside.

(** ** What a request may name *)

Lemma clean_no_parent l : Forall proper l -> HasSuffix (abs_path l) ($"/..") = false.
Proof.
  intros Hl. unfold HasSuffix. apply bool_decide_eq_false. intros [p Hp].
  assert (Hc : components (abs_path l) = components p ++ [dotdot]).
  { rewrite Hp. change ($"/..") with (slash :: dotdot). rewrite components_app_slash. f_equal. }
  rewrite components_abs in Hc by by apply Forall_proper_name. rewrite Hc in Hl. apply Forall_app in Hl as [_ Hl].
  apply Forall_cons in Hl as [(_ & _ & Hd) _]. done.
Qed.
Lemma scan_path_ok value p : validateComposeScanPath value = Ok p -> exists l, p = abs_path l /\ Forall proper l /\ p = Clean (TrimSpace value).
Proof.
  unfold validateComposeScanPath. cbv zeta. destruct (bool_decide _); [done|]. destruct (IsAbs (TrimSpace value)) eqn:Ea; [|done]. cbn [negb].
  destruct (_ || _); [done|]. destruct (HasSuffix _ _); [done|]. intros [= <-]. destruct (Clean_abs _ Ea) as (l & E & Hl). by exists l.
Qed.

(** ** What a scan finds *)

Lemma Base_ne p : Base p <> [].
Proof.
  unfold Base. destruct (bool_decide (p = [])); [done|]. destruct (last (components p)) as [x|] eqn:E; [|done].
  apply last_Some in E as [l E]. pose proof (components_name_ok p) as Hn. rewrite E in Hn. apply Forall_app in Hn as [_ Hn].
  apply Forall_cons in Hn as [[Hx _] _]. exact Hx.
Qed.
Lemma stack_name_ne d h : stack_name d h <> [].
Proof.
  unfold stack_name. destruct (declared_names h) as [|n l] eqn:E; [apply Base_ne|]. cbn.
  assert (Hn : n ∈ declared_names h) by (rewrite E; apply list_elem_of_here). by apply list_elem_of_filter in Hn as [? _].
Qed.
Section found.
Context `{Unicode, ComposeYAML}.
Lemma found_elem now l dirs s : dirs = record_all now l ∅ ->
  s ∈ (finish_stack ∘ snd) <$> map_to_list dirs <-> exists h, h = hits (st_Directory s) l /\ h <> [] /\ s = finished now (st_Directory s) h.
Proof.
  intros ->. rewrite list_elem_of_fmap. split.
  - intros ([d b] & -> & Hb%elem_of_map_to_list). rewrite record_spec in Hb. destruct (decide (hits d l = [])) as [E|E]; [by rewrite bool_decide_true in Hb|].
    rewrite bool_decide_false in Hb by done. injection Hb as <-. cbn [compose snd]. rewrite finish_raw by done. by exists (hits d l).
  - intros (h & -> & Hne & E). eexists (st_Directory s, _). split; [|apply elem_of_map_to_list; rewrite record_spec, bool_decide_false by done; reflexivity].
    cbn [compose snd]. by rewrite finish_raw.
Qed.
Lemma found_directories now l : NoDup (st_Directory <$> ((finish_stack ∘ snd) <$> map_to_list (record_all now l ∅))).
Proof.
  rewrite <-list_fmap_compose. rewrite (list_fmap_ext _ fst); [apply NoDup_fst_map_to_list|]. intros i [d b] Hi.
  apply list_elem_of_lookup_2, elem_of_map_to_list in Hi. rewrite record_spec in Hi. destruct (bool_decide _); [done|]. injection Hi as <-. done.
Qed.
(** A scan against the trees it met. It takes the files with a YAML name in the order
    of the walk, at most as many as its limit and, when its time is not up, exactly that
    many or all; and its answer is one stack for each directory in which it could read
    one that declares services: the first name declared there or the directory's, those
    files with the overrides last, and their services sorted and once each. Below a clean
    root no file is deeper than the depth allows or behind a hidden directory. *)
Theorem scan_exact ctx_done roots limits now : (forall n m, (n <= m)%nat -> ctx_done n = true -> ctx_done m = true) ->
  let lim := defaulted limits in let all := all_candidates lim roots in let found := scanComposeStacks ctx_done roots limits now in
  (exists n, Z.of_nat n <= li_maxFiles lim /\ ((forall t, ctx_done t = false) -> n = Nat.min (Z.to_nat (li_maxFiles lim)) (List.length all)) /\
    (forall s, s ∈ found <-> exists h, h = hits (st_Directory s) (take n all) /\ h <> [] /\ s = finished now (st_Directory s) h)) /\
  StronglySorted stack_le found /\ NoDup (st_Directory <$> found) /\
  (forall s, s ∈ found -> strictly_sorted (st_Services s) /\ StronglySorted file_le (st_Files s) /\ st_Project s <> []) /\
  (forall l e c, Forall proper l -> l <> [] -> well_named e -> c ∈ root_candidates lim (abs_path l, Some e) ->
    exists k, c.1 = abs_path (l ++ k) /\ Forall proper k /\ Z.of_nat (List.length k) <= li_depth lim /\ Forall visible (removelast k)).
Proof.
  intros Hmono lim all found. destruct (scan_roots_spec lim now ctx_done Hmono roots (mkScan 0 0 ∅)) as [stop [(n & Hn & Hd & Hr & Hall) Hs Hmax _]].
  cbn in Hd, Hr, Hmax. fold all in Hn, Hd, Hall. set (st := scan_roots ctx_done lim now roots (mkScan 0 0 ∅)) in *.
  assert (Hdepth : 0 < li_depth lim) by (unfold lim, defaulted; cbn; destruct (Z.leb_spec (li_depth limits) 0); lia).
  assert (Hlim : 0 < li_maxFiles lim) by (unfold lim, defaulted; cbn; destruct (Z.leb_spec (li_maxFiles limits) 0); lia).
  assert (Hfound : forall s, s ∈ found <-> exists h, h = hits (st_Directory s) (take n all) /\ h <> [] /\ s = finished now (st_Directory s) h).
  { intros s. unfold found, scanComposeStacks. fold lim st. rewrite merge_sort_Permutation. by apply found_elem. }
  assert (Hle : Z.of_nat n <= li_maxFiles lim) by (specialize (Hmax (Z.lt_le_incl _ _ Hlim)); rewrite Hr in Hmax; exact Hmax). clear Hmax.
  split_and!.
  - exists n. split_and!; [lia| |exact Hfound]. intros Hno. destruct stop; [|specialize (Hall eq_refl); lia].
    specialize (Hs eq_refl). unfold over in Hs. rewrite Hno in Hs. cbn [orb] in Hs. apply Z.leb_le in Hs. lia.
  - apply (StronglySorted_merge_sort stack_le).
  - unfold found, scanComposeStacks. fold lim st. rewrite merge_sort_Permutation, Hd. apply found_directories.
  - intros s (h & _ & Hne & ->)%Hfound. split_and!; [apply dedupeSorted_spec|apply orderComposeFiles_spec|apply stack_name_ne].
  - intros l e c Hl Hne Hw Hc. unfold root_candidates in Hc. cbn [fst snd] in Hc. rewrite Clean_abs_path, count_sep_abs in Hc by done.
    rewrite <-(app_nil_r l) in Hc at 2. destruct (candidates_inside lim l e Hl Hne Hw [] true c) as (k & Ec & Hk & Hdp & Hv); [constructor|exact Hc|].
    exists k. split_and!; [exact Ec|done| |done]. destruct k as [|x k]; [apply Z.lt_le_incl, Hdepth|]. by destruct Hdp.
Qed.
End found.

(** ** The registry after a scan, and after a restart *)

Section registry.
Context `{Unicode, JSONCodec (list composeStack)}.
Definition usable (s : composeStack) : Prop := st_Project s <> [] /\ st_Directory s <> [].
Definition registry_ok (m : gmap str composeStack) : Prop := forall k s, m !! k = Some s -> key s = k /\ usable s.
(** The last stack of a list with a key. *)
Definition latest (k : str) (l : list composeStack) : option composeStack := last (filter (fun s => key s = k) l).
Lemma latest_snoc k l s : latest k (l ++ [s]) = if decide (key s = k) then Some s else latest k l.
Proof.
  unfold latest. rewrite filter_app, filter_cons, filter_nil. destruct (decide (key s = k)); [apply last_snoc|by rewrite app_nil_r].
Qed.
Lemma latest_some k l s : latest k l = Some s -> s ∈ l /\ key s = k.
Proof.
  unfold latest. intros Hs. apply last_Some in Hs as [l' E]. assert (Hin : s ∈ filter (fun s => key s = k) l) by (rewrite E; apply elem_of_app; right; by apply list_elem_of_singleton).
  by apply list_elem_of_filter in Hin as [? ?].
Qed.
Lemma latest_none k l : latest k l = None <-> k ∉ key <$> l.
Proof.
  unfold latest. rewrite last_None. split.
  - intros E Hk. apply list_elem_of_fmap in Hk as (s & -> & Hs). assert (Hin : s ∈ filter (fun s0 => key s0 = key s) l) by by apply list_elem_of_filter.
    rewrite E in Hin. by apply elem_of_nil in Hin.
  - intros Hk. destruct (filter _ l) as [|s l'] eqn:E; [done|]. exfalso. apply Hk. assert (Hin : s ∈ filter (fun s0 => key s0 = k) l) by (rewrite E; apply list_elem_of_here).
    apply list_elem_of_filter in Hin as [<- Hs]. by apply list_elem_of_fmap_2.
Qed.
(** The scan's loop. *)
Record applied (m0 : gmap str composeStack) (l : list composeStack) (acc : gmap str composeStack * list composeStack * list composeStack) : Prop := {
  ap_map : forall k, acc.1.1 !! k = match latest k l with Some s => Some s | None => m0 !! k end;
  ap_added : forall s, s ∈ acc.1.2 -> s ∈ l /\ m0 !! key s = None;
  ap_new : forall s, s ∈ l -> m0 !! key s = None -> exists t, t ∈ acc.1.2 /\ key t = key s;
  ap_updated : forall s, s ∈ acc.2 -> s ∈ l;
  ap_news : acc.2 = [] -> acc.1.2 = [] -> forall s, s ∈ l -> exists old, m0 !! key s = Some old /\ st_Directory s = st_Directory old /\ st_Services s = st_Services old;
}.
Lemma apply_fold m0 l : applied m0 l (fold_left apply_one l (m0, [], [])).
Proof.
  induction l as [|s l IH] using rev_ind; [split; cbn; try done; intros; by match goal with Hx : _ ∈ [] |- _ => apply elem_of_nil in Hx end|].
  rewrite fold_left_app. cbn [fold_left]. destruct (fold_left apply_one l (m0, [], [])) as [[m added] updated]. destruct IH as [A1 A2 A3 A4 A5]. cbn in *.
  assert (Hold : m !! key s = None -> m0 !! key s = None) by (rewrite A1; by destruct (latest (key s) l)).
  assert (Hmap : forall k, (<[key s:=s]> m) !! k = match latest k (l ++ [s]) with Some s => Some s | None => m0 !! k end).
  { intros k. rewrite latest_snoc. destruct (decide (key s = k)) as [<-|Hk]; [by rewrite lookup_insert_eq|]. by rewrite lookup_insert_ne, A1. }
  unfold apply_one. destruct (m !! key s) as [old|] eqn:Em; split; cbn; try done.
  - intros t [? ?]%A2. split; [|done]. apply elem_of_app. by left.
  - intros t [Ht|Ht%list_elem_of_singleton]%elem_of_app Hn; [by apply A3|]. subst t. rewrite A1 in Em. destruct (latest (key s) l) as [u|] eqn:El; [|congruence].
    apply latest_some in El as [Hu Eu]. rewrite <-Eu in Hn. destruct (A3 _ Hu Hn) as (t & Ht & Et). exists t. split; [done|congruence].
  - intros t. destruct (_ || _); rewrite ?elem_of_app; [intros [?|?]; [left; by apply A4|by right]|left; by apply A4].
  - destruct (_ || _) eqn:Eb; [intros Hnil; by destruct updated|]. intros Hu Ha t [Ht|Ht%list_elem_of_singleton]%elem_of_app; [by apply A5|]. subst t.
    apply orb_false_iff in Eb as [Ed%negb_false_iff%bool_decide_eq_true Es%negb_false_iff%bool_decide_eq_true].
    rewrite A1 in Em. destruct (latest (key s) l) as [u|] eqn:El; [|exists old; by rewrite Em].
    injection Em as ->. apply latest_some in El as [Hin Ek]. destruct (A5 Hu Ha old Hin) as (o & Ho & E1 & E2). rewrite Ek in Ho. exists o. split; [done|]. split; congruence.
  - intros t. rewrite !elem_of_app, !list_elem_of_singleton. intros [Ht| ->]; [apply A2 in Ht as [? ?]; by split; [left|]|by split; [right|apply Hold]].
  - intros t [Ht|Ht%list_elem_of_singleton]%elem_of_app Hn.
    + destruct (A3 _ Ht Hn) as (u & Hu & Eu). exists u. split; [apply elem_of_app; by left|done].
    + exists s. subst t. split; [apply elem_of_app; right; by apply list_elem_of_singleton|done].
  - intros t Ht. apply elem_of_app. left. by apply A4.
  - intros _ Hnil. by destruct added.
Qed.
(** A registry that is written is read back. *)
Lemma load_fold l m : NoDup (key <$> l) -> Forall usable l ->
  (forall s, s ∈ l -> fold_left load_one l m !! key s = Some s) /\ (forall k, k ∉ key <$> l -> fold_left load_one l m !! k = m !! k).
Proof.
  revert m. induction l as [|s l IH]; intros m Hd Hu; [split; [by intros s Hs%elem_of_nil|done]|]. apply NoDup_cons in Hd as [Hn Hd]. apply Forall_cons in Hu as [[Hp Hdir] Hu].
  cbn [fold_left]. unfold load_one at 2 4. rewrite !bool_decide_false by done. cbn [orb]. destruct (IH (<[key s:=s]> m) Hd Hu) as [H1 H2]. split.
  - intros t [->|Ht]%elem_of_cons; [|by apply H1]. by rewrite H2, lookup_insert_eq.
  - intros k Hk. rewrite fmap_cons, not_elem_of_cons in Hk. destruct Hk as [Hne Hk]. rewrite H2, lookup_insert_ne by (done || congruence). done.
Qed.
Lemma listed s : registry_ok (sr_stacks s) -> NoDup (key <$> listLocked s) /\ Forall usable (listLocked s) /\ (forall t, t ∈ listLocked s <-> sr_stacks s !! key t = Some t).
Proof.
  intros Hok. unfold listLocked. set (vals := (map_to_list (sr_stacks s)).*2).
  assert (Hin : forall t, t ∈ vals <-> sr_stacks s !! key t = Some t).
  { intros t. unfold vals. rewrite list_elem_of_fmap. split; [intros ([k t'] & -> & Hk%elem_of_map_to_list); by destruct (Hok _ _ Hk) as [<- _]|].
    intros Ht. exists (key t, t). split; [done|]. by apply elem_of_map_to_list. }
  assert (Hkeys : key <$> vals = (map_to_list (sr_stacks s)).*1).
  { unfold vals. rewrite <-list_fmap_compose. apply list_fmap_ext. intros i [k t] Hi. apply list_elem_of_lookup_2, elem_of_map_to_list in Hi. cbn. by destruct (Hok _ _ Hi) as [-> _]. }
  rewrite (merge_sort_Permutation project_le vals). split_and!; [rewrite Hkeys; apply NoDup_fst_map_to_list| |intros t; by rewrite (merge_sort_Permutation project_le vals)].
  apply Forall_forall. intros t Ht%Hin. by apply (Hok _ _ Ht).
Qed.
Lemma reloaded s : registry_ok (sr_stacks s) -> fold_left load_one (listLocked s) ∅ = sr_stacks s.
Proof.
  intros Hok. destruct (listed s Hok) as (Hd & Hu & Hin). destruct (load_fold (listLocked s) ∅ Hd Hu) as [H1 H2]. apply map_eq. intros k.
  destruct (sr_stacks s !! k) as [t|] eqn:Ek.
  - destruct (Hok _ _ Ek) as [<- _]. apply H1. by apply Hin.
  - rewrite H2; [done|]. intros Hk. apply list_elem_of_fmap in Hk as (t & -> & Ht). apply Hin in Ht. congruence.
Qed.
(** A save replaces the file by the whole registry, or leaves it. *)
Lemma save_inv f s d : dk_file (saveLocked f s d) = dk_file d \/ sr_path s <> [] /\ exists data, Encode (listLocked s) = Some data /\ dk_file (saveLocked f s d) = Some (data ++ [newline]).
Proof.
  unfold saveLocked. case_bool_decide as Hp; [by left|]. destruct (Encode (listLocked s)) as [data|]; [|by left].
  pose proof (saved_or_kept [DMkdir] [DSync; DChmod; DClose] (data ++ [newline]) f (mkDisk (dk_file d) None) eq_refl eq_refl) as Hk. fold (stack_ops data) in Hk.
  destruct (disk_calls _ f 0 _) as [[] d']; [right; eauto|left]. destruct (f _); [done|]. exact Hk.
Qed.
(** The next start reads the registry that is in memory. *)
Definition restarts (st : composeStackStore * disk) : Prop := load (sr_path st.1) st.2 = sr_stacks st.1.
Lemma saved_restarts faithful `{!CodecLaws (list composeStack) faithful} f s d : registry_ok (sr_stacks s) -> faithful (listLocked s) ->
  dk_file (saveLocked f s d) = dk_file d \/ restarts (s, saveLocked f s d).
Proof.
  intros Hok Hf. destruct (save_inv f s d) as [?|(Hp & data & He & Hd)]; [by left|right]. unfold restarts, load. cbn. rewrite bool_decide_false by done.
  rewrite Hd. cbn. rewrite Decode_newline, (Decode_Encode _ _ Hf He). by apply reloaded.
Qed.
Lemma Apply_inv f exists_ scanned s d :
  let '((added, updated, removed), (s', d')) := Apply f exists_ scanned (s, d) in
  exists m a u, applied (sr_stacks s) scanned (m, a, u) /\ sr_path s' = sr_path s /\
    sr_stacks s' = filter (fun kv => vanished exists_ (key <$> scanned) kv = false) m /\
    let gone := (map_to_list (filter (fun kv => vanished exists_ (key <$> scanned) kv = true) m)).*2 in
    added = a /\ updated = u /\ removed = gone /\ (added = [] /\ updated = [] /\ removed = [] /\ d' = d \/ ~ (added = [] /\ updated = [] /\ removed = []) /\ d' = saveLocked f s' d).
Proof.
  unfold Apply. pose proof (apply_fold (sr_stacks s) scanned) as Ha. destruct (fold_left apply_one scanned (sr_stacks s, [], [])) as [[m a] u].
  cbv zeta. destruct (_ && _) eqn:Eb; exists m, a, u; cbn; [|split_and!; auto; right; split; [|done]; intros (-> & -> & E); by rewrite E in Eb].
  apply andb_true_iff in Eb as [Eb Er%bool_decide_eq_true]. apply andb_true_iff in Eb as [->%bool_decide_eq_true ->%bool_decide_eq_true]. split_and!; auto.
Qed.
(** A scan is applied exactly: the registry then holds the last stack the scan found for
    each project, without regard to case, and of the others those whose directory is
    still there; what is answered as added was not there, as updated was scanned, as
    removed is gone. The file is replaced as a whole or not at all, and when it is, the
    next start reads the same registry. A scan that found nothing new does not write, and
    then a stack may differ from the file in its files and its time alone. *)
Theorem registry_exact faithful `{!CodecLaws (list composeStack) faithful} f exists_ scanned s d :
  registry_ok (sr_stacks s) -> Forall usable scanned ->
  let '((added, updated, removed), (s', d')) := Apply f exists_ scanned (s, d) in
  registry_ok (sr_stacks s') /\
  (forall k, sr_stacks s' !! k = match latest k scanned with
     | Some t => Some t
     | None => match sr_stacks s !! k with Some t => if exists_ (st_Directory t) then Some t else None | None => None end end) /\
  (forall t, t ∈ added -> t ∈ scanned /\ sr_stacks s !! key t = None) /\ (forall t, t ∈ updated -> t ∈ scanned) /\
  (forall t, t ∈ removed <-> sr_stacks s !! key t = Some t /\ latest (key t) scanned = None /\ exists_ (st_Directory t) = false) /\
  (dk_file d' = dk_file d \/ (faithful (listLocked s') -> restarts (s', d'))) /\
  (added = [] -> updated = [] -> removed = [] -> d' = d /\ forall k t, sr_stacks s' !! k = Some t ->
     exists old, sr_stacks s !! k = Some old /\ st_Directory t = st_Directory old /\ st_Services t = st_Services old).
Proof.
  intros Hok Hus. pose proof (Apply_inv f exists_ scanned s d) as Hinv. destruct (Apply f exists_ scanned (s, d)) as [[[added updated] removed] [s' d']].
  destruct Hinv as (m & a & u & [A1 A2 A3 A4 A5] & Hpath & Hst & -> & -> & Hgone & Hd). cbn in A1, A2, A3, A4, A5.
  assert (Hm : forall k t, m !! k = Some t -> key t = k /\ usable t).
  { intros k t. rewrite A1. destruct (latest k scanned) as [w|] eqn:El; [|apply Hok]. intros [= <-]. apply latest_some in El as [Hin <-].
    split; [done|]. by eapply Forall_forall in Hus. }
  assert (Hmap : forall k, sr_stacks s' !! k = match latest k scanned with Some t => Some t | None => match sr_stacks s !! k with Some t => if exists_ (st_Directory t) then Some t else None | None => None end end).
  { intros k. rewrite Hst, map_lookup_filter, A1. unfold vanished. destruct (latest k scanned) as [t|] eqn:El; cbn.
    - rewrite bool_decide_true; [done|]. destruct (decide (k ∈ key <$> scanned)) as [?|Hn]; [done|]. apply latest_none in Hn. congruence.
    - rewrite bool_decide_false by by apply latest_none. destruct (sr_stacks s !! k) as [t|]; [|done]. cbn. by destruct (exists_ _). }
  assert (Hok' : registry_ok (sr_stacks s')).
  { intros k t Hk. apply Hm. rewrite Hst in Hk. by apply map_lookup_filter_Some in Hk as [? _]. }
  split_and!; [done|done|exact A2|exact A4| | |].
  - intros t. rewrite Hgone, list_elem_of_fmap. unfold vanished. split.
    + intros ([k t'] & -> & Hk%elem_of_map_to_list). apply map_lookup_filter_Some in Hk as [Hk Hv]. cbn in *. destruct (Hm _ _ Hk) as [<- _].
      apply andb_true_iff in Hv as [Hv%negb_true_iff%bool_decide_eq_false He%negb_true_iff]. apply latest_none in Hv. by rewrite A1, Hv in Hk.
    + intros (Hk & Hl & He). exists (key t, t). split; [done|]. apply elem_of_map_to_list, map_lookup_filter_Some. rewrite A1, Hl. split; [done|]. cbn.
      apply latest_none in Hl. by rewrite bool_decide_false, He.
  - destruct Hd as [(_ & _ & _ & ->)|[_ ->]]; [by left|]. destruct (save_inv f s' d) as [?|(Hp & data & He & Hdk)]; [by left|right]. intros Hf.
    destruct (saved_restarts faithful f s' d Hok' Hf) as [E|?]; [|done]. unfold restarts, load. cbn. rewrite bool_decide_false by done.
    rewrite Hdk. cbn. rewrite Decode_newline, (Decode_Encode _ _ Hf He). by apply reloaded.
  - intros -> -> ->. split; [destruct Hd as [(_ & _ & _ & ->)|[Hn _]]; [done|by destruct Hn]|]. intros k t Hk. rewrite Hmap in Hk.
    destruct (latest k scanned) as [w|] eqn:El; [injection Hk as ->; apply latest_some in El as [Hin <-]; by apply A5|].
    destruct (sr_stacks s !! k) as [old|]; [|done]. destruct (exists_ _); [|done]. injection Hk as ->. by exists t.
Qed.
End registry.
(** What a request may name: the configured defaults, or clean absolute paths without a
    parent segment, at most thirty-two; and the walk is at most twelve deep. *)
Lemma request_in_bounds configured input roots depth : composeScanRoots configured input = Ok roots ->
  (roots = composeScanDefaults configured \/ Forall (fun r => exists l, r = abs_path l /\ Forall proper l) roots /\ Z.of_nat (List.length roots) <= composeScanMaxRoots) /\
  1 <= li_depth (composeScanLimits_of depth (in_Depth input)) <= 12 /\ li_maxFiles (composeScanLimits_of depth (in_Depth input)) = 400.
Proof.
  intros Hr. split.
  - unfold composeScanRoots in Hr. destruct (_ && _); [done|]. destruct (negb (bool_decide (TrimSpace _ = []))).
    + destruct (validateComposeScanPath (in_Path input)) as [p|] eqn:Ep; [|done]. injection Hr as <-. right. apply scan_path_ok in Ep as (l & E & Hl & _).
      split; [apply Forall_singleton; by exists l|done].
    + destruct (negb _); [|injection Hr as <-; by left]. destruct (composeScanMaxRoots <? _) eqn:El; [done|]. apply Z.ltb_ge in El. right.
      assert (Hv : forall rs out, validated rs = Ok out -> Forall (fun r => exists l, r = abs_path l /\ Forall proper l) out /\ List.length out = List.length rs).
      { induction rs as [|r rs IH]; intros out; cbn [validated]; [by intros [= <-]|]. destruct (validateComposeScanPath r) as [p|] eqn:Ep; [|done].
        cbn [res_bind]. destruct (validated rs) as [rest|]; [|done]. intros [= <-]. destruct (IH rest eq_refl) as [Hf Hl]. cbn [List.length]. rewrite Hl. split; [|done].
        constructor; [|done]. apply scan_path_ok in Ep as (l & E & Hp & _). by exists l. }
      destruct (Hv _ _ Hr) as [Hf ->]. done.
  - unfold composeScanLimits_of. cbn [li_depth li_maxFiles]. split; [|done]. destruct (Z.ltb_spec 0 depth), (Z.ltb_spec 0 (in_Depth input)); cbn [li_depth composeScanLimitsDefault];
      match goal with |- context [12 <? ?x] => destruct (Z.ltb_spec 12 x) end; lia.
Qed.
(** A native operation on a project without a directory runs where the scan found it. *)
Lemma scan_then_act `{Unicode, JSONCodec (list composeStack)} f exists_ scanned s d r project t :
  let st' := (Apply f exists_ scanned (s, d)).2 in nr_stacks r = Some (sr_stacks st'.1) -> latest (ToLower (TrimSpace project)) scanned = Some t ->
  composeDirectory r project [] = Ok (st_Directory t, st_Files t).
Proof.
  intros st' Hr Ht. pose proof (Apply_inv f exists_ scanned s d) as Hinv. unfold st' in Hr. destruct (Apply f exists_ scanned (s, d)) as [[[added updated] removed] [s' d']].
  destruct Hinv as (m & a & u & [A1 _ _ _ _] & _ & Hst & _). cbn in Hr, A1. unfold composeDirectory, composeStack_of. cbn. rewrite Hr, Hst.
  assert (Hm : m !! ToLower (TrimSpace project) = Some t) by by rewrite A1, Ht.
  assert (Hk : filter (fun kv => vanished exists_ (key <$> scanned) kv = false) m !! ToLower (TrimSpace project) = Some t); [|by rewrite Hk].
  apply map_lookup_filter_Some. split; [done|]. unfold vanished. cbn. rewrite bool_decide_true; [done|].
  apply latest_some in Ht as [Hin <-]. by apply list_elem_of_fmap_2.
Qed.

(** ** A host *)

Definition stack_unicode : Unicode := {| unicode_ToLower := id; unicode_Quote := id |}.
(** Each line of a file is a service; the first is the project. *)
Definition stack_yaml : ComposeYAML := {| Unmarshal_compose data := match split_on newline data with name :: services => Some (mkDocument name services) | [] => None end |}.
Definition a_file (name : string) (lines : list string) : dirent :=
  EFile ($name) (Some (false, 1)) (Some (join [newline] ((fun l => $l) <$> lines))).
Definition srv_app : dirent := EDir ($"app") [a_file "compose.override.yml" [""; "web"]; a_file "compose.yml" ["Shop"; "web"; "db"]; a_file "notes.txt" ["x"; "y"]] false.
Definition srv_tree : dirent := EDir ($"srv") [EDir ($".git") [a_file "ci.yml" ["ci"; "ci"]] false; srv_app] false.
Definition scan_host (roots : list (str * option dirent)) : list composeStack :=
  scanComposeStacks (H := stack_unicode) (H0 := stack_yaml) (fun _ => false) roots (mkLimits 0 0) 7.
Definition shop_stack (files : list str) : composeStack := mkComposeStack ($"Shop") ($"/srv/app") files [$"db"; $"web"] 7.
Lemma scan_exact_witness : scan_host [($"/srv", Some srv_tree)] = [shop_stack [$"/srv/app/compose.yml"; $"/srv/app/compose.override.yml"]] /\
  NoDup (st_Directory <$> scan_host [($"/srv", Some srv_tree)]).
Proof.
  split; [vm_compute; reflexivity|].
  exact (proj1 (proj2 (proj2 (scan_exact (H := stack_unicode) (H0 := stack_yaml) (fun _ => false) [($"/srv", Some srv_tree)] (mkLimits 0 0) 7 (fun _ _ _ H => H))))).
Defined.
(** Roots that overlap name every file below both twice. *)
Example overlapping_roots : scan_host [($"/srv", Some srv_tree); ($"/srv/app", Some srv_app)] =
  [shop_stack [$"/srv/app/compose.yml"; $"/srv/app/compose.yml"; $"/srv/app/compose.override.yml"; $"/srv/app/compose.override.yml"]].
Proof. vm_compute. reflexivity. Qed.
(** A trailing parent segment is resolved, not refused. *)
Example trailing_parent : validateComposeScanPath ($"/srv/..") = Ok ($"/").
Proof. vm_compute. reflexivity. Qed.
Definition one_stack : composeStack := shop_stack [$"/srv/app/compose.yml"].
(** The registries that have a text: the empty one, and that of [one_stack]. *)
Definition stack_codec : JSONCodec (list composeStack) := {|
  Encode l := match l with [] => Some ($"[]") | [s] => if bool_decide (st_Files s = [$"/srv/app/compose.yml"]) then Some ($"[1]") else None | _ => None end;
  Decode data := let text := filter (fun c => c <> newline) data in
    if bool_decide (text = $"[]") then Some [] else if bool_decide (text = $"[1]") then Some [one_stack] else None;
|}.
Definition one_or_none (l : list composeStack) : Prop := l = [] \/ l = [one_stack].
Lemma stack_laws : CodecLaws (H := stack_codec) (list composeStack) one_or_none.
Proof.
  split.
  - intros l data [-> | ->]; cbn; intros [= <-]; vm_compute; reflexivity.
  - intros data. cbn. by rewrite filter_app, app_nil_r.
Qed.
Definition new_host : composeStackStore * disk := (mkStackStore ($"/v/s.json") ∅, mkDisk None None).
Lemma registry_exact_witness :
  let '((added, updated, removed), (s', d')) := Apply (H := stack_unicode) (H0 := stack_codec) (fun _ => None) (fun _ => true) [one_stack] new_host in
  added = [one_stack] /\ dk_file d' = Some ($"[1]" ++ [newline]) /\ sr_stacks s' !! ($"shop") = Some one_stack.
Proof.
  pose proof (registry_exact (H := stack_unicode) (H0 := stack_codec) one_or_none (CodecLaws0 := stack_laws) (fun _ => None) (fun _ => true) [one_stack] new_host.1 new_host.2) as Hx.
  assert (Ha : (Apply (H := stack_unicode) (H0 := stack_codec) (fun _ => None) (fun _ => true) [one_stack] new_host).1.1.1 = [one_stack]) by (vm_compute; reflexivity).
  assert (Hd : dk_file (Apply (H := stack_unicode) (H0 := stack_codec) (fun _ => None) (fun _ => true) [one_stack] new_host).2.2 = Some ($"[1]" ++ [newline])) by (vm_compute; reflexivity).
  change (new_host.1, new_host.2) with new_host in Hx. destruct (Apply _ _ _ new_host) as [[[added updated] removed] [s' d']]. cbn [fst snd] in Ha, Hd.
  split; [exact Ha|]. split; [exact Hd|].
  destruct Hx as (_ & Hmap & _); [intros k t Hk; vm_compute in Hk; discriminate Hk|repeat constructor; discriminate|]. rewrite Hmap. vm_compute. reflexivity.
Defined.
