(* ===== verification/Cors.v ===== *)
(** * Cors: the origins a browser may call from

    [internal/daemon/cors.go]: the middleware and its allowlist, over the model of
    [path.Match]. The parser of URLs and Unicode case folding are interfaces. *)

From S2P Require Import Prelude GoStr GoMatch Config.
Open Scope Z_scope.

(** The scheme and the host of a parsed URL; case folding. *)
Class Origins := { url_Parse : str -> option (str * str); FoldEqual : str -> str -> bool }.

Section cors.
Context `{Origins}.
Definition corsAllowedMethods : str := $"GET, POST, PUT, PATCH, DELETE, OPTIONS".
Definition corsAllowedHeaders : str := $"Authorization, Content-Type".
Definition corsExposedHeaders : str := $"X-MaidCafe-File-Size".
Definition corsMaxAge : str := $"600".
(** What a pattern is matched against. *)
Definition origin_target (scheme host pattern : str) : str := if Contains pattern ($"://") then scheme ++ $"://" ++ host else host.
Definition originAllowed (patterns : list str) (origin requestHost : str) : bool :=
  match url_Parse origin with
  | None => false
  | Some (scheme, host) =>
      if bool_decide (host = []) then false
      else if FoldEqual requestHost host then true
      else existsb (fun pattern => bool_decide (path_Match pattern (origin_target scheme host pattern) = Some true)) patterns
  end.
Definition corsAllowHeaders (requested : str) : str :=
  let requested := TrimSpace requested in if bool_decide (requested = []) then corsAllowedHeaders else requested.
(** The headers set, and whether the handler runs or the request is answered. *)
Record cors_request := mkCorsRequest { cq_Origin : str; cq_Host : str; cq_preflight : bool; cq_RequestHeaders : str }.
Record cors_answer := mkCorsAnswer { ca_headers : list (str * str); ca_status : option Z }.
Definition StatusNoContent : Z := 204.
Definition corsMiddleware (patterns : list str) (r : cors_request) : cors_answer :=
  let origin := TrimSpace (cq_Origin r) in
  if bool_decide (origin = []) then mkCorsAnswer [] None
  else
    let vary := [($"Vary", $"Origin")] in
    if negb (originAllowed patterns origin (cq_Host r)) then mkCorsAnswer vary None
    else
      let allowed := vary ++ [($"Access-Control-Allow-Origin", origin)] in
      if cq_preflight r then
        mkCorsAnswer (allowed ++ [($"Access-Control-Allow-Methods", corsAllowedMethods); ($"Access-Control-Allow-Headers", corsAllowHeaders (cq_RequestHeaders r));
          ($"Access-Control-Max-Age", corsMaxAge)]) (Some StatusNoContent)
      else mkCorsAnswer (allowed ++ [($"Access-Control-Expose-Headers", corsExposedHeaders)]) None.

(** ** The patterns an operator writes *)

(** No character that [path.Match] reads. *)
Definition plain (p : str) : Prop := Forall (fun c => c ∉ $"*?[\") p.
Fixpoint after (chunk t : str) : option str :=
  match chunk, t with
  | [], _ => Some t
  | c :: chunk, d :: t => if bool_decide (c = d) then after chunk t else None
  | _ :: _, [] => None
  end.
Lemma after_spec chunk t r : after chunk t = Some r <-> t = chunk ++ r.
Proof.
  revert t. induction chunk as [|c chunk IH]; intros t; cbn; [split; congruence|]. destruct t as [|d t]; [done|].
  case_bool_decide as Hc; [subst d; rewrite IH; split; congruence|]. split; [done|]. congruence.
Qed.
Lemma plain_cons c p : plain (c :: p) -> c <> ch "*" /\ c <> ch "?" /\ c <> ch "[" /\ c <> ch "\" /\ plain p.
Proof. intros [Hc Hp]%Forall_cons. cbn in Hc. rewrite !not_elem_of_cons in Hc. naive_solver. Qed.
Lemma matchChunk_plain chunk : forall fuel s, plain chunk -> (List.length chunk <= fuel)%nat ->
  matchChunk fuel chunk s = Some (match s with Some t => after chunk t | None => None end).
Proof.
  induction chunk as [|c chunk IH]; intros fuel s Hp Hf; [destruct fuel; by destruct s|]. destruct fuel as [|fuel]; [cbn in Hf; lia|]. cbn in Hf.
  apply plain_cons in Hp as (_ & H2 & H3 & H4 & Hp). cbn [matchChunk]. rewrite (bool_decide_false (c = ch "[")), (bool_decide_false (c = ch "?")), (bool_decide_false (c = ch "\")) by done.
  rewrite IH by (done || lia). destruct s as [[|d t]|]; [done| |done]. cbn [after]. by case_bool_decide.
Qed.
Lemma chunk_plain chunk t : plain chunk -> chunk_match chunk t = Some (after chunk t).
Proof. intros Hp. unfold chunk_match. by rewrite matchChunk_plain. Qed.
Lemma scan_plain p : plain p -> forall inrange, scan inrange p = (p, []).
Proof.
  induction p as [|c p IH]; intros Hp inrange; [done|]. apply plain_cons in Hp as (H1 & _ & H3 & H4 & Hp). cbn [scan].
  rewrite (bool_decide_false (c = ch "\")), (bool_decide_false (c = ch "*")) by done. cbn [andb]. by rewrite IH.
Qed.
Lemma match_plain p name : plain p -> path_Match p name = Some (bool_decide (name = p)).
Proof.
  intros Hp. unfold path_Match. destruct p as [|c p]; [cbn; f_equal; by apply bool_decide_ext|]. cbn [List.length match_loop].
  assert (Hs : scanChunk (c :: p) = (false, c :: p, [])).
  { unfold scanChunk. cbn [skip_stars]. pose proof (plain_cons _ _ Hp) as (H1 & _). rewrite bool_decide_false by done. by rewrite scan_plain. }
  rewrite Hs, chunk_plain by done. cbn [andb negb orb]. rewrite (bool_decide_true (@nil ascii = [])) by done. cbn [negb].
  destruct (after (c :: p) name) as [t|] eqn:Ea.
  - rewrite orb_false_r. apply after_spec in Ea as ->. destruct (decide (t = [])) as [->|Ht].
    + rewrite bool_decide_true, app_nil_r, bool_decide_true by done. by destruct (List.length p).
    + rewrite (bool_decide_false (t = [])) by done. cbn. rewrite bool_decide_false; [done|]. intros E. apply (f_equal List.length) in E. cbn in E. rewrite length_app in E. destruct t; [done|cbn in E; lia].
  - cbn. rewrite bool_decide_false; [done|]. intros ->. assert (after (c :: p) (c :: p) = Some []) by (apply after_spec; by rewrite app_nil_r). congruence.
Qed.
(** A star before plain text: the text at the end, and no slash before it. *)
Lemma star_plain p name r : plain p -> p <> [] -> star_match p true name = Some r ->
  match r with Some t => t = [] /\ exists q, name = q ++ p /\ q <> [] /\ ch "/" ∉ q | None => forall q, name = q ++ p -> q <> [] -> ch "/" ∈ q end.
Proof.
  intros Hp Hne. revert r. induction name as [|c name IH]; intros r; cbn [star_match].
  { intros [= <-] q E Hq. destruct q; [done|]. discriminate E. }
  destruct (decide (c = ch "/")) as [->|Hc].
  { rewrite bool_decide_true by done. intros [= <-] q E Hq. destruct q as [|d q]; [done|]. injection E as <- _. apply list_elem_of_here. }
  rewrite bool_decide_false, chunk_plain by done. cbn [andb]. assert (Hrec : forall r, star_match p true name = Some r -> after p name <> Some [] ->
    match r with Some t => t = [] /\ exists q, c :: name = q ++ p /\ q <> [] /\ ch "/" ∉ q | None => forall q, c :: name = q ++ p -> q <> [] -> ch "/" ∈ q end).
  { intros r' Hr Hno. specialize (IH r' Hr). destruct r' as [t|].
    - destruct IH as (-> & q & -> & Hq & Hs). split; [done|]. exists (c :: q). split_and!; [done..|]. apply not_elem_of_cons. by split.
    - intros q E Hq. destruct q as [|d q]; [done|]. injection E as <- E. destruct q as [|d q].
      + exfalso. apply Hno, after_spec. by rewrite app_nil_r.
      + apply list_elem_of_further. by apply IH. }
  destruct (after p name) as [t|] eqn:Ea.
  - destruct (decide (t = [])) as [->|Ht].
    + rewrite bool_decide_true by done. cbn. intros [= <-]. split; [done|]. apply after_spec in Ea as ->. exists [c]. rewrite app_nil_r. split_and!; [done..|].
      intros E%list_elem_of_singleton. by apply Hc.
    + rewrite bool_decide_false by done. cbn. intros Hr. apply (Hrec r Hr). congruence.
  - intros Hr. by apply (Hrec r Hr).
Qed.
Lemma star_plain_total p name : plain p -> exists r, star_match p true name = Some r.
Proof.
  intros Hp. induction name as [|c name IH]; cbn [star_match]; [by eexists|]. case_bool_decide; [by eexists|]. rewrite chunk_plain by done.
  destruct (after p name) as [t|]; [|done]. destruct (true && _); [done|by eexists].
Qed.
Lemma match_star p name : plain p -> path_Match (ch "*" :: p) name = Some true <-> exists q, name = q ++ p /\ ch "/" ∉ q.
Proof.
  intros Hp. unfold path_Match. cbn [List.length match_loop]. destruct (decide (p = [])) as [->|Hne].
  { change (scanChunk [ch "*"]) with (true, @nil ascii, @nil ascii). cbn [andb]. rewrite bool_decide_true by done. split.
    - intros [= Hn%negb_true_iff%has_byte_false]. exists name. by rewrite app_nil_r.
    - intros (q & -> & Hn). by rewrite app_nil_r, (proj2 (has_byte_false _ _) Hn). }
  assert (Hs : scanChunk (ch "*" :: p) = (true, p, [])).
  { unfold scanChunk. cbn [skip_stars]. rewrite bool_decide_true by done. destruct p as [|c p]; [done|]. cbn [skip_stars].
    pose proof (plain_cons _ _ Hp) as (H1 & _). rewrite bool_decide_false by done. by rewrite scan_plain. }
  rewrite Hs, chunk_plain, (bool_decide_false (p = [])), (bool_decide_true (@nil ascii = [])) by done. cbn [andb negb].
  destruct (star_plain_total p name Hp) as [r Hr]. rewrite Hr. pose proof (star_plain p name r Hp Hne Hr) as Hspec.
  assert (Hlen : forall n, match_loop n [] [] = Some true) by by intros [].
  assert (Hother : match r with Some t => match_loop (List.length p) [] t | None => Some false end = Some true <-> exists q, name = q ++ p /\ q <> [] /\ ch "/" ∉ q).
  { destruct r as [t|].
    - destruct Hspec as (-> & q & Hq). rewrite Hlen. split; [intros _; by exists q|done].
    - split; [done|]. intros (q & E & Hq & Hn). exfalso. by apply Hn, Hspec. }
  destruct (after p name) as [t|] eqn:Ea.
  - rewrite orb_false_r. apply after_spec in Ea. destruct (decide (t = [])) as [->|Ht].
    + rewrite bool_decide_true, Hlen by done. split; [|done]. intros _. exists []. rewrite app_nil_r in Ea. split; [done|apply not_elem_of_nil].
    + rewrite bool_decide_false by done. destruct r; (rewrite Hother; split; [intros (q & ? & _ & ?); by exists q|]);
      (intros (q & E & Hn); exists q; split_and!; [done| |done]; intros ->; rewrite E in Ea; apply (f_equal List.length) in Ea; rewrite !length_app in Ea; destruct t; [done|cbn in Ea; lia]).
  - destruct r; (rewrite Hother; split; [intros (q & ? & _ & ?); by exists q|]);
      (intros (q & E & Hn); exists q; split_and!; [done| |done]; intros ->; cbn in E; subst name; assert (after p p = Some []) by (apply after_spec; by rewrite app_nil_r); congruence).
Qed.

(** ** Who may read what *)

(** A pattern without metacharacters, or one that starts with a star and has no other. *)
Definition written (pattern : str) : Prop := plain pattern \/ exists p, pattern = ch "*" :: p /\ plain p.
Definition allows (pattern name : str) : Prop := name = pattern \/ exists p q, pattern = ch "*" :: p /\ name = q ++ p /\ ch "/" ∉ q.
Lemma written_match pattern name : written pattern -> name <> [] -> (forall c, c ∈ name -> c <> ch "*") -> path_Match pattern name = Some true <-> allows pattern name.
Proof.
  intros [Hp|(p & -> & Hp)] Hne Hstar.
  - rewrite match_plain by done. split; [intros [= E%bool_decide_eq_true]; by left|]. intros [->|(p & q & -> & _)]; [by rewrite bool_decide_true|].
    apply Forall_cons in Hp as [Hc _]. exfalso. apply Hc. apply list_elem_of_here.
  - rewrite match_star by done. split; [intros (q & ? & ?); right; by exists p, q|]. intros [->|(p' & q & [= <-] & ? & ?)]; [|by exists q].
    exfalso. apply (Hstar (ch "*")); [apply list_elem_of_here|done].
Qed.
Lemma origin_written patterns origin host_ scheme host : url_Parse origin = Some (scheme, host) -> host <> [] -> ch "*" ∉ scheme ++ host -> Forall written patterns ->
  originAllowed patterns origin host_ = true <-> FoldEqual host_ host = true \/ exists p, p ∈ patterns /\ allows p (origin_target scheme host p).
Proof.
  intros Hu Hh Hs Hw. unfold originAllowed. rewrite Hu, bool_decide_false by done. destruct (FoldEqual host_ host); [split; [by left|done]|].
  apply not_elem_of_app in Hs as [Hs1 Hs2]. assert (Ht : forall p, origin_target scheme host p <> [] /\ forall c, c ∈ origin_target scheme host p -> c <> ch "*").
  { intros p. unfold origin_target. destruct (Contains p _); [|split; [done|by intros c Hc ->]]. split; [by destruct scheme|].
    intros c Hc ->. rewrite !elem_of_app in Hc. destruct Hc as [Hc|[Hc|Hc]]; [done| |done]. revert Hc. by apply (bool_decide_unpack (ch "*" ∉ $"://")). }
  rewrite existsb_exists. split.
  - intros (p & Hp%list_elem_of_In & Hm%bool_decide_eq_true). right. exists p. split; [done|]. eapply Forall_forall in Hw; [|exact Hp].
    destruct (Ht p). by apply written_match.
  - intros [?|(p & Hp & Ha)]; [done|]. exists p. split; [by apply list_elem_of_In|]. apply bool_decide_eq_true. eapply Forall_forall in Hw; [|exact Hp].
    destruct (Ht p). by apply written_match.
Qed.
Lemma double_star `{Unicode} origin host_ scheme host : url_Parse origin = Some (scheme, host) -> host <> [] -> ch "/" ∉ host ->
  originAllowed [$"**"] origin host_ = true /\ is_ok (validateOriginPattern ($"**")) = true.
Proof.
  intros Hu Hh Hs. split; [|by vm_compute]. unfold originAllowed. rewrite Hu, bool_decide_false by done. destruct (FoldEqual host_ host); [done|].
  cbn [existsb]. change (origin_target scheme host ($"**")) with host. assert (Hm : path_Match ($"**") host = Some true); [|by rewrite bool_decide_true].
  transitivity (Some (negb (has_byte (ch "/") host))); [reflexivity|]. by rewrite (proj2 (has_byte_false _ _) Hs).
Qed.
(** C35. What the middleware lets a browser read. A request without an origin is left alone;
    otherwise the answer varies by origin. The origin is named, as the caller's own and
    only that, exactly when it is allowed, credentials are never, and a preflight is
    answered without its handler exactly then. With patterns as operators write them, an
    origin is allowed when its host is the request's own, or when the host, or the scheme
    and the host for a pattern that names a scheme, is a pattern, or ends with what
    follows the star of one, with no slash before. A second star, though, passes the
    configuration's ban of the bare star, and allows every origin. *)
Theorem cors_exact `{Unicode} patterns r : let a := corsMiddleware patterns r in let origin := TrimSpace (cq_Origin r) in
  (origin = [] -> a = mkCorsAnswer [] None) /\
  (origin <> [] -> ($"Vary", $"Origin") ∈ ca_headers a) /\
  (forall v, ($"Access-Control-Allow-Origin", v) ∈ ca_headers a <-> v = origin /\ origin <> [] /\ originAllowed patterns origin (cq_Host r) = true) /\
  (forall v, ($"Access-Control-Allow-Credentials", v) ∉ ca_headers a) /\
  (is_Some (ca_status a) <-> origin <> [] /\ originAllowed patterns origin (cq_Host r) = true /\ cq_preflight r = true) /\
  (forall scheme host, url_Parse origin = Some (scheme, host) -> host <> [] -> ch "*" ∉ scheme ++ host ->
    (Forall written patterns -> originAllowed patterns origin (cq_Host r) = true <->
      FoldEqual (cq_Host r) host = true \/ exists p, p ∈ patterns /\ allows p (origin_target scheme host p)) /\
    (ch "/" ∉ host -> originAllowed [$"**"] origin (cq_Host r) = true /\ is_ok (validateOriginPattern ($"**")) = true)).
Proof.
  intros a origin. assert (Hlast : forall scheme host, url_Parse origin = Some (scheme, host) -> host <> [] -> ch "*" ∉ scheme ++ host ->
    (Forall written patterns -> originAllowed patterns origin (cq_Host r) = true <->
      FoldEqual (cq_Host r) host = true \/ exists p, p ∈ patterns /\ allows p (origin_target scheme host p)) /\
    (ch "/" ∉ host -> originAllowed [$"**"] origin (cq_Host r) = true /\ is_ok (validateOriginPattern ($"**")) = true)).
  { intros scheme host Hu Hh Hs. split; [by intros Hw; apply origin_written|intros Hn; by eapply double_star]. }
  unfold a, corsMiddleware. fold origin. clearbody origin.
  destruct (decide (origin = [])) as [E|E]; [|destruct (originAllowed patterns origin (cq_Host r)) eqn:Ea; [destruct (cq_preflight r)|]].
  all: rewrite ?E, ?(bool_decide_true (@nil ascii = [])), ?(bool_decide_false (origin = [])) by done; cbn [negb ca_headers ca_status app].
  all: split_and!; try exact Hlast; try done; try (intros v; rewrite ?elem_of_cons, ?elem_of_nil; naive_solver); rewrite ?elem_of_cons, ?is_Some_alt; try naive_solver.
Qed.
End cors.
(** A parser of origins, and a wildcard host. *)
Definition page_origins : Origins := {|
  url_Parse origin := match cut (ch "/") origin with Some (_, rest) => Some ($"https", TrimPrefix rest [ch "/"]) | None => None end;
  FoldEqual s t := bool_decide (s = t);
|}.
Lemma cors_exact_witness : exists p, p ∈ [$"*.example.com"] /\ allows p (origin_target ($"https") ($"a.example.com") p).
Proof.
  set (r := mkCorsRequest ($"https://a.example.com") ($"host") false []).
  destruct (cors_exact (H := page_origins) (H0 := {| unicode_ToLower := id; unicode_Quote := id |}) [$"*.example.com"] r) as (_ & _ & _ & _ & _ & Hx).
  destruct (Hx ($"https") ($"a.example.com")) as [Hw _]; [vm_compute; reflexivity|discriminate|by apply (bool_decide_unpack (ch "*" ∉ _))|].
  destruct (proj1 (Hw ltac:(apply Forall_singleton; right; exists ($".example.com"); split; [reflexivity|by apply (bool_decide_unpack (plain _))]))) as [Hf|He].
  - vm_compute. reflexivity.
  - discriminate Hf.
  - exact He.
Defined.
