(* ===== verification/Logs.v ===== *)
(** * Logs: container logs, captured, watched and uploaded

    [internal/daemon/logs.go] and the logs tick of [internal/daemon/app.go]: the tails of
    the running containers, the rings and files that keep them, the alerts, the frames,
    and the buffer of what is uploaded. What a command prints and how it ends, the text
    of a time and the alert patterns are interfaces; a time is its nanoseconds. The
    clock is read once per container, and once for what a tick does with the lines. *)

From S2P Require Import Prelude GoStr Config Alarms AuditLog Executor Ops.
Open Scope Z_scope.

(** The zero [time.Time]: the first day of the year one. *)
Definition zero_time : Z := -62135596800 * 1000000000.
Definition containerLogRingLines : nat := 1000.
Definition containerLogFileBytes : Z := 512 * 1024.
Definition containerLogTailBytes : nat := Z.to_nat (256 * 1024).
Record containerLogLine := mkLogLine { ll_TS : Z; ll_Line : str }.
(** The last [n] of a list, as [l[len(l)-n:]] when it is longer. *)
Definition tail_of {A} (n : nat) (l : list A) : list A := if (n <? List.length l)%nat then drop (List.length l - n) l else l.

Class LogsEnv := {
  ParseRFC3339Nano : str -> option Z;
  FormatRFC3339Nano : Z -> str;
  compile_pattern : str -> option (str -> bool);
  Marshal_log : containerLogLine -> option str;
}.

(** ** Alerts *)

Record logAlertRule := mkLogAlertRule { lr_name : str; lr_pattern : str -> bool; lr_container : str; lr_title : str; lr_cooldown : Z }.
Record logAlertEvaluator := mkLogAlerts { la_rules : list logAlertRule; la_last : gmap str Z }.
Definition newLogAlertEvaluator : logAlertEvaluator := mkLogAlerts [] ∅.
Definition alert_rule `{LogsEnv} (alert : LogAlertConfig) : option logAlertRule :=
  if match alert_Enabled alert with Some enabled => negb enabled | None => false end then None
  else
    match compile_pattern (alert_Pattern alert) with
    | None => None
    | Some pattern =>
        let cooldown := cooldown_of (alert_CooldownSeconds alert) in
        Some (mkLogAlertRule (alert_Name alert) pattern (alert_Container alert) (alert_Title alert) (if cooldown <=? 0 then 5 * Minute else cooldown))
    end.
Definition SetAlerts `{LogsEnv} (alerts : list LogAlertConfig) (e : logAlertEvaluator) : logAlertEvaluator := mkLogAlerts (omap alert_rule alerts) (la_last e).
Record logAlertMatch := mkLogAlertMatch { lm_Rule : str; lm_Title : str; lm_Container : str; lm_Line : containerLogLine }.
Definition alert_key_of (rule : logAlertRule) (container : str) : str := lr_name rule ++ NULsep ++ container.
Fixpoint match_rules (rules : list logAlertRule) (container : str) (line : containerLogLine) (now : Z) (last : gmap str Z) : list logAlertMatch * gmap str Z :=
  match rules with
  | [] => ([], last)
  | rule :: rules =>
      let key := alert_key_of rule container in
      if (negb (bool_decide (lr_container rule = [])) && negb (bool_decide (lr_container rule = container)))
         || negb (lr_pattern rule (ll_Line line))
         || match last !! key with Some previous => time_Sub now previous <? lr_cooldown rule | None => false end
      then match_rules rules container line now last
      else
        let '(matches, last) := match_rules rules container line now (<[key := now]> last) in
        (mkLogAlertMatch (lr_name rule) (lr_title rule) container line :: matches, last)
  end.
Definition Match (container : str) (line : containerLogLine) (now : Z) (e : logAlertEvaluator) : list logAlertMatch * logAlertEvaluator :=
  let '(matches, last) := match_rules (la_rules e) container line now (la_last e) in (matches, mkLogAlerts (la_rules e) last).

(** ** The upload buffer *)

Record LogUploadEntry := mkLogUpload { lu_ContainerID : str; lu_Timestamp : Z; lu_Line : str }.
Record logUploadBuffer := mkUploadBuffer { ub_pending : list LogUploadEntry; ub_lastTry : option Z }.
Definition newLogUploadBuffer : logUploadBuffer := mkUploadBuffer [] None.
Definition logUploadMax : nat := 5000.
Definition upload_entry (container : str) (line : containerLogLine) : LogUploadEntry := mkLogUpload container (ll_TS line) (ll_Line line).
Definition Add (container : str) (lines : list containerLogLine) (b : logUploadBuffer) : logUploadBuffer :=
  mkUploadBuffer (tail_of logUploadMax (ub_pending b ++ (upload_entry container <$> lines))) (ub_lastTry b).
(** [publish] is the publisher, when there is one, and whether it delivers; the batch it
    was given, and whether it did. *)
Definition Flush (publish : option (list LogUploadEntry -> bool)) (enabled : bool) (interval maxLines now : Z) (b : logUploadBuffer)
    : option (list LogUploadEntry * bool) * logUploadBuffer :=
  match publish with
  | None => (None, b)
  | Some publish =>
      if negb enabled || (maxLines <=? 0) then (None, b)
      else if bool_decide (ub_pending b = []) || match ub_lastTry b with Some t => time_Sub now t <? interval | None => false end then (None, b)
      else
        let count := Nat.min (Z.to_nat maxLines) (List.length (ub_pending b)) in
        let batch := take count (ub_pending b) in
        let ok := publish batch in
        (Some (batch, ok), mkUploadBuffer (if ok then drop count (ub_pending b) else ub_pending b) (Some now))
  end.

(** ** The store *)

Record containerLogTail := mkLogTail { lt_lines : list containerLogLine; lt_lastTS : Z }.
Record containerLogStore := mkLogStore { ls_dir : str; ls_retention : Z; ls_tails : gmap str containerLogTail }.
Definition Day : Z := 24 * Hour.
Definition newContainerLogStore (storageDir : str) (retentionDays : Z) : containerLogStore :=
  let retention := wrap64 (retentionDays * Day) in
  let retention := if retention <=? 0 then 7 * Day else retention in
  mkLogStore storageDir (if 30 * Day <? retention then 30 * Day else retention) ∅.
Definition Cursor (s : containerLogStore) (id : str) : Z := match ls_tails s !! id with Some tail => lt_lastTS tail | None => zero_time end.
Definition Snapshot (s : containerLogStore) (id : str) (limit : Z) : list containerLogLine :=
  let limit := if (limit <=? 0) || (Z.of_nat containerLogRingLines <? limit) then 200 else limit in
  match ls_tails s !! id with Some tail => tail_of (Z.to_nat limit) (lt_lines tail) | None => [] end.

(** The files of the directory, by name. Each call may fail; a write that fails wrote
    some bytes. *)
Record logFile := mkLogFile { lf_data : str; lf_mtime : Z }.
Abbreviation logDir := (gmap str logFile).
Record logIO := mkLogIO {
  lo_mkdir : bool; lo_stat : bool; lo_rename : bool; lo_open : bool; lo_write : nat -> option nat; lo_readdir : bool;
  lo_info : str -> bool; lo_remove : str -> bool;
}.
Definition log_name (id : str) : str := id ++ $".jsonl".
Definition rotated_name (name : str) : str := name ++ $".1".
Fixpoint encode_lines `{LogsEnv} (f : nat -> option nat) (i : nat) (lines : list containerLogLine) (data : str) : str :=
  match lines with
  | [] => data
  | line :: lines =>
      match Marshal_log line with
      | None => data
      | Some json =>
          match f i with
          | Some n => data ++ take n (json ++ [newline])
          | None => encode_lines f (S i) lines (data ++ json ++ [newline])
          end
      end
  end.
Definition appendDiskLocked `{LogsEnv} (f : logIO) (now : Z) (id : str) (lines : list containerLogLine) (disk : logDir) : logDir :=
  if negb (lo_mkdir f) then disk
  else
    let name := log_name id in
    let disk :=
      match disk !! name with
      | Some file =>
          if lo_stat f && (containerLogFileBytes <=? Z.of_nat (List.length (lf_data file))) && lo_rename f then <[rotated_name name := file]> (delete name disk) else disk
      | None => disk
      end in
    if negb (lo_open f) then disk
    else
      let before := default (mkLogFile [] now) (disk !! name) in
      let data := encode_lines (lo_write f) 0 lines (lf_data before) in
      <[name := mkLogFile data (if bool_decide (data = lf_data before) then lf_mtime before else now)]> disk.
Definition expired_log (f : logIO) (cutoff : Z) (entry : str * logFile) : bool :=
  HasSuffix entry.1 ($".jsonl") && lo_info f entry.1 && (lf_mtime entry.2 <? cutoff).
Definition remove_log (f : logIO) (name : str) (disk : logDir) : logDir := if lo_remove f name then delete name disk else disk.
Definition pruneLocked (f : logIO) (retention now : Z) (disk : logDir) : logDir :=
  if negb (lo_readdir f) then disk
  else fold_left (fun disk entry => if expired_log f (now - retention) entry then remove_log f (rotated_name entry.1) (remove_log f entry.1 disk) else disk) (map_to_list disk) disk.
Definition later (t : Z) (line : containerLogLine) : Z := if t <? ll_TS line then ll_TS line else t.
Definition tail_append (lines : list containerLogLine) (tail : containerLogTail) : containerLogTail :=
  mkLogTail (tail_of containerLogRingLines (lt_lines tail ++ lines)) (fold_left later lines (lt_lastTS tail)).
Definition Append `{LogsEnv} (f : logIO) (now : Z) (id : str) (lines : list containerLogLine) (st : containerLogStore * logDir) : containerLogStore * logDir :=
  let '(s, disk) := st in
  if bool_decide (lines = []) then st
  else
    let tail := tail_append lines (default (mkLogTail [] zero_time) (ls_tails s !! id)) in
    let s := mkLogStore (ls_dir s) (ls_retention s) (<[id := tail]> (ls_tails s)) in
    (s, if bool_decide (ls_dir s = []) then disk else pruneLocked f (ls_retention s) now (appendDiskLocked f now id lines disk)).

(** ** The collector *)

(** What a command printed, chunk by chunk, both streams in the order they arrived, and
    whether it succeeded; [None] when it could not be started. *)
Abbreviation command_runner := (list str -> option (list str * bool)).
(** The combined buffer is [limitedBuffer] again: a chunk that crosses the limit ends the
    copy with an error. *)
Definition runCommandBounded (exec : command_runner) (argv : list str) : str * bool :=
  match exec argv with
  | None => ([], false)
  | Some (chunks, ok) => let '(b, short) := copy_output (mkLimitedBuffer [] containerLogTailBytes) chunks in (lb_buf b, ok && negb short)
  end.
(** Lines without a time in front are of the time they are read. *)
Definition parse_log_line `{LogsEnv} (now : Z) (raw : str) : containerLogLine :=
  match cut (ch " ") raw with
  | Some (c :: stamp, rest) => match ParseRFC3339Nano (c :: stamp) with Some ts => mkLogLine ts rest | None => mkLogLine now raw end
  | _ => mkLogLine now raw
  end.
Definition parseLogLines `{LogsEnv} (now : Z) (out : str) : list containerLogLine := parse_log_line now <$> filter (fun raw => raw <> []) (Scan out).
Definition acceptTail `{LogsEnv} (now cursor : Z) (out : str) : list containerLogLine := filter (fun line => cursor < ll_TS line) (parseLogLines now out).
Definition tail_args `{LogsEnv} (cursor : Z) (id : str) : list str :=
  [$"logs"] ++ (if bool_decide (cursor = zero_time) then [$"--tail"; $"200"] else [$"--since"; FormatRFC3339Nano cursor]) ++ [$"--timestamps"; id].
(** The lines of one container since its cursor, and the runtimes known to need sudo. *)
Definition tail `{LogsEnv, OpsHost} (exec : command_runner) (now cursor : Z) (runtimePath id : str) (sudo : gset str) : option (list containerLogLine) * gset str :=
  let args := tail_args cursor id in
  let accept out := Some (acceptTail now cursor out) in
  let direct sudo :=
    let '(out, ok) := runCommandBounded exec (runtimePath :: args) in
    if ok then (accept out, sudo)
    else
      match elevationAttempt runtimePath args with
      | None => (None, sudo)
      | Some argv => let '(out, ok) := runCommandBounded exec argv in if ok then (accept out, {[runtimePath]} ∪ sudo) else (None, sudo)
      end in
  if bool_decide (runtimePath ∈ sudo) then
    let '(out, ok) := runCommandBounded exec ([$"sudo"; $"-n"; runtimePath] ++ args) in
    if ok then (accept out, sudo) else direct (sudo ∖ {[runtimePath]})
  else direct sudo.

Record logs_state := mkLogsState { lg_store : containerLogStore; lg_disk : logDir; lg_sudo : gset str }.
(** What was captured of a container, in the order of the containers. *)
Abbreviation captured := (list (str * list containerLogLine)).
Section collect.
Context `{LogsEnv, OpsHost}.
(** What a tick meets: the commands, the time each container is read at, the disk. *)
Variable exec : command_runner.
Variable clock : str -> Z.
Variable disk_io : str -> logIO.
Definition collect_one (path : str) (container : containerEntry) (acc : captured * logs_state) : captured * logs_state :=
  let '(out, st) := acc in
  if negb (bool_decide (ct_State container = $"running")) then acc
  else
    let id := ct_ID container in
    let '(lines, sudo) := tail exec (clock id) (Cursor (lg_store st) id) path id (lg_sudo st) in
    match lines with
    | Some ((_ :: _) as lines) =>
        let '(store, disk) := Append (disk_io id) (clock id) id lines (lg_store st, lg_disk st) in
        (out ++ [(id, lines)], mkLogsState store disk sudo)
    | _ => (out, mkLogsState (lg_store st) (lg_disk st) sudo)
    end.
Definition collect_runtime (paths : gmap str str) (runtimes : gmap str (list containerEntry)) (acc : captured * logs_state) (runtime : str) : captured * logs_state :=
  match runtimes !! runtime, paths !! runtime with
  | Some containers, Some path => fold_left (fun acc c => collect_one path c acc) containers acc
  | _, _ => acc
  end.
(** The map of the source holds the last entry of an id. *)
Definition collect (paths : gmap str str) (runtimes : gmap str (list containerEntry)) (st : logs_state) : captured * logs_state :=
  fold_left (collect_runtime paths runtimes) [$"podman"; $"docker"] ([], st).
End collect.

(** ** The tick *)

Definition matchManagedContainer (id name compose : str) (containers composes : list str) : bool :=
  (bool_decide (containers = []) && bool_decide (composes = []))
  || existsb (fun c => let c := TrimSpace c in negb (bool_decide (c = [])) && (bool_decide (c = name) || HasPrefix id c)) containers
  || existsb (fun c => let c := TrimSpace c in negb (bool_decide (c = [])) && bool_decide (c = compose)) composes.
Definition no_entry : containerEntry := mkContainerEntry [] [] [] [] [] [].
(** Both maps keep the last of a key. *)
Definition by_runtime (payload : list containersRuntimePayload) : gmap str (list containerEntry) :=
  fold_left (fun m r => <[rt_Runtime r := rt_Containers r]> m) payload ∅.
Definition by_id (payload : list containersRuntimePayload) : gmap str containerEntry :=
  fold_left (fun m r => fold_left (fun m c => <[ct_ID c := c]> m) (rt_Containers r) m) payload ∅.
Record logs_config := mkLogsConfig {
  lc_uploadEnabled : bool; lc_uploadInterval : Z; lc_batchLines : Z; lc_managedContainers : list str; lc_managedComposes : list str;
}.
Definition managed (cfg : logs_config) (id : str) (entry : containerEntry) : bool :=
  matchManagedContainer id (ct_Name entry) (ct_ComposeProject entry) (lc_managedContainers cfg) (lc_managedComposes cfg).
Record log_notification := mkLogNotification { ln_Title : str; ln_Body : str; ln_Rule : str; ln_Container : str; ln_TS : Z }.
Definition log_notice (m : logAlertMatch) : log_notification :=
  mkLogNotification (lm_Title m) (take 4096 (TrimSpace (ll_Line (lm_Line m)))) (lm_Rule m) (lm_Container m) (ll_TS (lm_Line m)).
Fixpoint match_lines (container : str) (now : Z) (lines : list containerLogLine) (e : logAlertEvaluator) : list logAlertMatch * logAlertEvaluator :=
  match lines with
  | [] => ([], e)
  | line :: lines => let '(ms, e) := Match container line now e in let '(rest, e) := match_lines container now lines e in (ms ++ rest, e)
  end.
(** What a tick sends: notifications and frames. *)
Record log_output := mkLogOutput { lp_notices : list log_notification; lp_frames : list (str * list containerLogLine); lp_upload : option (list LogUploadEntry * bool) }.
Record logs_app := mkLogsApp { ap_logs : logs_state; ap_alerts : logAlertEvaluator; ap_upload : logUploadBuffer }.
Record logs_tick_input := mkLogsTick {
  ti_payload : list containersRuntimePayload; ti_paths : gmap str str; ti_exec : command_runner; ti_clock : str -> Z; ti_disk : str -> logIO;
  ti_config : logs_config; ti_now : Z; ti_publish : option (list LogUploadEntry -> bool); ti_subscribers : nat;
}.
(** The range over what was collected, in some order of its own. *)
Definition fan_out (t : logs_tick_input) (acc : list log_notification * list (str * list containerLogLine) * (logAlertEvaluator * logUploadBuffer))
    (c : str * list containerLogLine) : list log_notification * list (str * list containerLogLine) * (logAlertEvaluator * logUploadBuffer) :=
  let '((notices, frames), (alerts, upload)) := acc in
  let '(id, lines) := c in
  let '(ms, alerts) := match_lines id (ti_now t) lines alerts in
  ((notices ++ (if is_Some_b (ti_publish t) then log_notice <$> ms else []),
    if (ti_subscribers t =? 0)%nat then frames else frames ++ [c]),
   (alerts, if managed (ti_config t) id (default no_entry (by_id (ti_payload t) !! id)) then Add id lines upload else upload)).
Definition collected_of (out : captured) : list (str * list containerLogLine) := map_to_list (list_to_map (rev out) : gmap str (list containerLogLine)).
Definition logs_tick `{LogsEnv, OpsHost} (t : logs_tick_input) (a : logs_app) : captured * log_output * logs_app :=
  let '(out, logs) := collect (ti_exec t) (ti_clock t) (ti_disk t) (ti_paths t) (by_runtime (ti_payload t)) (ap_logs a) in
  let '((notices, frames), (alerts, upload)) := fold_left (fan_out t) (collected_of out) (([], []), (ap_alerts a, ap_upload a)) in
  let cfg := ti_config t in
  let '(sent, upload) := Flush (ti_publish t) (lc_uploadEnabled cfg) (lc_uploadInterval cfg) (lc_batchLines cfg) (ti_now t) upload in
  (out, mkLogOutput notices frames sent, mkLogsApp logs alerts upload).
Fixpoint logs_run `{LogsEnv, OpsHost} (ts : list logs_tick_input) (a : logs_app) : list (captured * log_output) * logs_app :=
  match ts with
  | [] => ([], a)
  | t :: ts => let '(r, a) := logs_tick t a in let '(rs, a) := logs_run ts a in (r :: rs, a)
  end.
