(* ===== verification/LogsFacts.v ===== *)
(** * LogsFacts: no line twice, none lost on the way up

    Over any run of the logs tick: what the rings and cursors hold, what is uploaded, and
    which alerts are sent. *)

From S2P Require Import Prelude GoStr Config Alarms AuditLog Executor Ops Logs.
Open Scope Z_scope.

(** ** The last lines *)

Section tails.
Context {A : Type}.
Implicit Types l k : list A.
Lemma tail_of_drop n l : tail_of n l = drop (List.length l - n) l.
Proof. unfold tail_of. destruct (Nat.ltb_spec n (List.length l)); [done|]. by replace (List.length l - n)%nat with 0%nat by lia. Qed.
Lemma tail_of_all n l : (List.length l <= n)%nat -> tail_of n l = l.
Proof. intros Hl. rewrite tail_of_drop. by replace (List.length l - n)%nat with 0%nat by lia. Qed.
Lemma tail_of_more n l k : tail_of n (tail_of n l ++ k) = tail_of n (l ++ k).
Proof.
  rewrite !tail_of_drop, !length_app, !length_drop. destruct (decide (List.length l <= n)%nat) as [Hl|Hl].
  - replace (List.length l - n)%nat with 0%nat by lia. rewrite drop_0. f_equal. lia.
  - destruct (decide (List.length k <= n)%nat) as [Hk|Hk].
    + rewrite !(drop_app_le) by (rewrite ?length_drop; lia). rewrite drop_drop. f_equal. f_equal. lia.
    + rewrite !(drop_app_ge) by (rewrite ?length_drop; lia). f_equal. rewrite length_drop. lia.
Qed.
Lemma tail_of_suffix n l : tail_of n l `suffix_of` l.
Proof. rewrite tail_of_drop. exists (take (List.length l - n) l). by rewrite take_drop. Qed.
End tails.

(** ** What was captured *)

Section captured.
Context `{LogsEnv, OpsHost}.
(** The lines of one container, in the order they were captured. *)
Definition history (id : str) (ev : captured) : list containerLogLine := concat ((fun e => if decide (e.1 = id) then e.2 else []) <$> ev).
Lemma history_app id ev ev' : history id (ev ++ ev') = history id ev ++ history id ev'.
Proof. unfold history. by rewrite fmap_app, concat_app. Qed.
Lemma history_one id id' lines : history id [(id', lines)] = if decide (id' = id) then lines else [].
Proof. unfold history. cbn. by rewrite app_nil_r. Qed.
Definition cursor_of (lines : list containerLogLine) : Z := fold_left later lines zero_time.
Lemma later_ge lines t : t <= fold_left later lines t /\ Forall (fun l => ll_TS l <= fold_left later lines t) lines.
Proof.
  revert t. induction lines as [|l lines IH]; intros t; cbn [fold_left]; [split; [lia|constructor]|]. destruct (IH (later t l)) as [H1 H2].
  assert (t <= later t l /\ ll_TS l <= later t l) as [? ?] by (unfold later; destruct (Z.ltb_spec t (ll_TS l)); lia). split; [lia|]. constructor; [lia|done].
Qed.
(** Every line is newer than all that was captured of its container before. *)
Definition in_order (ev : captured) : Prop :=
  forall pre id lines post, ev = pre ++ (id, lines) :: post -> forall x y, x ∈ history id pre -> y ∈ lines -> ll_TS x < ll_TS y.
Record store_holds (ev : captured) (s : containerLogStore) : Prop := {
  sh_tail id : default (mkLogTail [] zero_time) (ls_tails s !! id) = mkLogTail (tail_of containerLogRingLines (history id ev)) (cursor_of (history id ev));
  sh_order : in_order ev;
}.
Lemma Cursor_holds ev s id : store_holds ev s -> Cursor s id = cursor_of (history id ev).
Proof. intros [Ht _]. specialize (Ht id). unfold Cursor. destruct (ls_tails s !! id); cbn in Ht; [by subst|by injection Ht]. Qed.
Lemma new_holds dir days : store_holds [] (newContainerLogStore dir days).
Proof. split; [done|]. by intros [|? ?] ? ? ? ?. Qed.
Lemma in_order_snoc ev id lines : in_order ev -> (forall x y, x ∈ history id ev -> y ∈ lines -> ll_TS x < ll_TS y) -> in_order (ev ++ [(id, lines)]).
Proof.
  intros Ho Hl pre id' lines' post E. destruct post as [|e post _] using rev_ind.
  - apply app_inj_tail in E as [<- [= <- <-]]. exact Hl.
  - rewrite app_comm_cons, app_assoc in E. apply app_inj_tail in E as [E _]. by eapply Ho.
Qed.
Lemma Append_holds ev f now id lines s disk : lines <> [] -> store_holds ev s -> Forall (fun l => cursor_of (history id ev) < ll_TS l) lines ->
  store_holds (ev ++ [(id, lines)]) (Append f now id lines (s, disk)).1.
Proof.
  intros Hne Hs Hnew. pose proof Hs as [Ht Ho]. split.
  - intros id'. unfold Append. rewrite bool_decide_false by done. cbn [fst ls_tails]. rewrite history_app, history_one. destruct (decide (id = id')) as [<-|Hd].
    + rewrite lookup_insert_eq. cbn [default]. rewrite Ht. unfold tail_append. cbn [lt_lines lt_lastTS]. rewrite tail_of_more. f_equal. unfold cursor_of. by rewrite fold_left_app.
    + by rewrite lookup_insert_ne, app_nil_r by done.
  - apply in_order_snoc; [done|]. intros x y Hx Hy. eapply Forall_forall in Hnew; [|exact Hy]. destruct (later_ge (history id ev) zero_time) as [_ Hm].
    eapply Forall_forall in Hm; [|exact Hx]. unfold cursor_of in Hnew. cbn in *. lia.
Qed.
Lemma accept_new now cursor out : Forall (fun l => cursor < ll_TS l) (acceptTail now cursor out).
Proof. apply Forall_forall. intros l Hl. by apply list_elem_of_filter in Hl as [? _]. Qed.
Lemma tail_new exec now cursor path id sudo lines sudo' : tail exec now cursor path id sudo = (Some lines, sudo') -> Forall (fun l => cursor < ll_TS l) lines.
Proof.
  unfold tail. intros Ht. repeat (case_bool_decide || (destruct (runCommandBounded _ _) as [? []]) || destruct (elevationAttempt _ _));
    simplify_eq; first [apply accept_new|discriminate].
Qed.
Lemma collect_one_holds exec clock io path c ev out st : store_holds (ev ++ out) (lg_store st) ->
  let r := collect_one exec clock io path c (out, st) in store_holds (ev ++ r.1) (lg_store r.2).
Proof.
  intros Hs. unfold collect_one. destruct (negb _); [done|]. destruct (tail _ _ _ _ _ _) as [[[|l lines]|] sudo] eqn:Et; [done| |done].
  destruct (Append _ _ _ _ _) as [store disk] eqn:Ea. cbn [fst snd lg_store]. pose proof (Append_holds (ev ++ out) (io (ct_ID c)) (clock (ct_ID c)) (ct_ID c) (l :: lines) (lg_store st) (lg_disk st)) as Ha.
  rewrite Ea in Ha. rewrite app_assoc. apply Ha; [done..|]. apply tail_new in Et. by rewrite (Cursor_holds _ _ _ Hs) in Et.
Qed.
(** An invariant of the loops. *)
Lemma collect_ind exec clock io paths runtimes (P : captured * logs_state -> Prop) st :
  (forall path c acc, P acc -> P (collect_one exec clock io path c acc)) -> P ([], st) -> P (collect exec clock io paths runtimes st).
Proof.
  intros Hstep. unfold collect. generalize ([] : captured, st). induction [$"podman"; $"docker"] as [|r rs IH]; intros acc Hacc; [done|]. cbn [fold_left]. apply IH.
  unfold collect_runtime. destruct (runtimes !! r) as [cs|]; [|done]. destruct (paths !! r) as [path|]; [|done].
  clear -Hacc Hstep. revert acc Hacc. induction cs as [|c cs IH]; intros acc Hacc; [done|]. cbn [fold_left]. by apply IH, Hstep.
Qed.
Lemma collect_holds exec clock io paths runtimes ev st : store_holds ev (lg_store st) ->
  let r := collect exec clock io paths runtimes st in store_holds (ev ++ r.1) (lg_store r.2).
Proof.
  intros Hs. apply (collect_ind _ _ _ _ _ (fun r => store_holds (ev ++ r.1) (lg_store r.2))); [|by rewrite app_nil_r].
  intros path c [out st'] Ho. by apply collect_one_holds.
Qed.
Lemma logs_tick_logs t a : let r := logs_tick t a in
  let c := collect (ti_exec t) (ti_clock t) (ti_disk t) (ti_paths t) (by_runtime (ti_payload t)) (ap_logs a) in r.1.1 = c.1 /\ ap_logs r.2 = c.2.
Proof.
  unfold logs_tick. destruct (collect _ _ _ _ _ _) as [out logs]. destruct (fold_left _ _ _) as [[? ?] [? ?]]. by destruct (Flush _ _ _ _ _ _).
Qed.
Definition captured_in (rs : list (captured * log_output)) : captured := concat rs.*1.
Lemma logs_run_holds ts ev a : store_holds ev (lg_store (ap_logs a)) ->
  let r := logs_run ts a in store_holds (ev ++ captured_in r.1) (lg_store (ap_logs r.2)).
Proof.
  revert ev a. induction ts as [|t ts IH]; intros ev a Hs; cbn [logs_run]; [by rewrite app_nil_r|].
  destruct (logs_tick_logs t a) as [E1 E2]. destruct (logs_tick t a) as [[out lo] a1]. cbn in E1, E2.
  assert (H1 : store_holds (ev ++ out) (lg_store (ap_logs a1))) by (rewrite E1, E2; by apply collect_holds).
  specialize (IH _ _ H1). destruct (logs_run ts a1) as [rs a2]. cbn in IH |- *. unfold captured_in. cbn [fmap list_fmap concat fst]. by rewrite app_assoc.
Qed.
(** A command whose output crosses the limit has failed. *)
Lemma bounded_crossing exec argv chunks ok : exec argv = Some (chunks, ok) -> crosses containerLogTailBytes chunks -> (runCommandBounded exec argv).2 = false.
Proof.
  intros He Hc. unfold runCommandBounded. rewrite He. destruct (copy_output_spec containerLogTailBytes chunks []) as [_ Hs]; [unfold containerLogTailBytes; lia|apply Nat.le_0_l|].
  destruct (copy_output _ chunks) as [b short]. cbn [fst snd] in Hs |- *. rewrite (proj2 Hs), andb_false_r by exact Hc. done.
Qed.
Definition too_much (exec : command_runner) (argv : list str) : Prop := exists chunks ok, exec argv = Some (chunks, ok) /\ crosses containerLogTailBytes chunks.
Lemma tail_too_much exec now cursor path id sudo : let args := tail_args cursor id in
  too_much exec (path :: args) -> too_much exec ($"sudo" :: $"-n" :: path :: args) -> (tail exec now cursor path id sudo).1 = None.
Proof.
  intros args (c1 & o1 & E1 & X1) (c2 & o2 & E2 & X2). apply (bounded_crossing _ _ _ _ E1) in X1. apply (bounded_crossing _ _ _ _ E2) in X2.
  unfold tail. fold args. cbn [app]. destruct (runCommandBounded exec (path :: args)) as [? []]; [done|]. destruct (runCommandBounded exec ($"sudo" :: $"-n" :: path :: args)) as [? b2] eqn:Eb2. cbn in X2. subst b2.
  assert (Hd : forall sudo : gset str, (match elevationAttempt path args with None => (None, sudo) | Some argv => let '(out, ok) := runCommandBounded exec argv in
    if ok then (Some (acceptTail now cursor out), {[path]} ∪ sudo) else (None, sudo) end).1 = None).
  { intros sudo'. unfold elevationAttempt, elevationPrefix. destruct oh_root; [done|]. destruct (LookPath _); [|done]. cbn [app]. by rewrite Eb2. }
  case_bool_decide; apply Hd.
Qed.

(** ** What is uploaded *)

(** What a tick offers to the buffer: the lines of the managed containers. *)
Definition offered (t : logs_tick_input) (c : str * list containerLogLine) : list LogUploadEntry :=
  if managed (ti_config t) c.1 (default no_entry (by_id (ti_payload t) !! c.1)) then upload_entry c.1 <$> c.2 else [].
Definition offers (t : logs_tick_input) (out : captured) : list LogUploadEntry := concat (offered t <$> collected_of out).
Definition batch_of (r : option (list LogUploadEntry * bool)) : list LogUploadEntry := match r with Some (batch, true) => batch | _ => [] end.
Definition delivered (o : log_output) : list LogUploadEntry := batch_of (lp_upload o).
Definition bounded (b : logUploadBuffer) : Prop := (List.length (ub_pending b) <= logUploadMax)%nat.
Lemma fan_upload t cs acc : bounded acc.2.2 -> let r := fold_left (fan_out t) cs acc in
  ub_pending r.2.2 = tail_of logUploadMax (ub_pending acc.2.2 ++ concat (offered t <$> cs)) /\ ub_lastTry r.2.2 = ub_lastTry acc.2.2 /\ bounded r.2.2.
Proof.
  revert acc. induction cs as [|[id lines] cs IH]; intros [[ns fs] [al b]] Hb; cbn [fold_left snd] in *.
  { cbn. rewrite app_nil_r, tail_of_all by done. done. }
  assert (Hstep : exists acc', fan_out t ((ns, fs), (al, b)) (id, lines) = acc' /\ ub_pending acc'.2.2 = tail_of logUploadMax (ub_pending b ++ offered t (id, lines)) /\ ub_lastTry acc'.2.2 = ub_lastTry b).
  { eexists; split; [reflexivity|]. unfold fan_out, offered. destruct (match_lines id (ti_now t) lines al) as [ms al']. cbn [fst snd].
    destruct (managed _ _ _); [done|]. by rewrite app_nil_r, tail_of_all. }
  destruct Hstep as (acc' & -> & Hp & Ht). assert (Hb' : bounded acc'.2.2) by (unfold bounded; rewrite Hp, tail_of_drop, length_drop; lia).
  destruct (IH acc' Hb') as (H1 & H2 & H3). cbn [fmap list_fmap concat]. rewrite H1, H2, Hp, tail_of_more, <-app_assoc, Ht. done.
Qed.
Lemma Flush_spec publish enabled interval maxLines now b : let r := Flush publish enabled interval maxLines now b in
  ub_pending b = batch_of r.1 ++ ub_pending r.2 /\
  match r.1 with
  | Some (batch, ok) => batch <> [] /\ batch `prefix_of` ub_pending b /\ Z.of_nat (List.length batch) <= maxLines /\ enabled = true /\ is_Some publish /\
      (forall t, ub_lastTry b = Some t -> interval <= time_Sub now t) /\ ub_lastTry r.2 = Some now
  | None => r.2 = b
  end.
Proof.
  unfold Flush. destruct publish as [publish|]; [|done]. destruct (negb enabled || (maxLines <=? 0)) eqn:Ee; [done|]. apply orb_false_iff in Ee as [->%negb_false_iff Hm%Z.leb_gt].
  case_bool_decide as Hp; [done|]. cbn [orb]. destruct (match ub_lastTry b with Some t => time_Sub now t <? interval | None => false end) eqn:Et; [done|]. cbn [fst snd ub_pending ub_lastTry].
  set (count := Nat.min _ _). split; [unfold batch_of; destruct (publish _); [by rewrite take_drop|done]|]. split_and!; [|eexists; symmetry; apply take_drop| |done|by eexists| |done].
  - assert (0 < count)%nat by (unfold count; destruct (ub_pending b); [done|cbn; lia]). destruct count; [lia|]. by destruct (ub_pending b).
  - rewrite length_take. unfold count. lia.
  - intros t E. rewrite E in Et. by apply Z.ltb_ge in Et.
Qed.
(** One tick. *)
Lemma tick_upload t a : bounded (ap_upload a) -> let r := logs_tick t a in
  tail_of logUploadMax (ub_pending (ap_upload a) ++ offers t r.1.1) = delivered r.1.2 ++ ub_pending (ap_upload r.2) /\ bounded (ap_upload r.2) /\
  (forall batch ok, lp_upload r.1.2 = Some (batch, ok) -> lc_uploadEnabled (ti_config t) = true /\ is_Some (ti_publish t) /\ Z.of_nat (List.length batch) <= lc_batchLines (ti_config t) /\
     (forall l, ub_lastTry (ap_upload a) = Some l -> lc_uploadInterval (ti_config t) <= time_Sub (ti_now t) l) /\ ub_lastTry (ap_upload r.2) = Some (ti_now t)).
Proof.
  intros Hb. unfold logs_tick. destruct (collect _ _ _ _ _ _) as [out logs]. destruct (fan_upload t (collected_of out) (([], []), (ap_alerts a, ap_upload a)) Hb) as (H1 & H2 & H3).
  destruct (fold_left _ _ _) as [[notices frames] [alerts upload]]. cbn [fst snd] in *. destruct (Flush_spec (ti_publish t) (lc_uploadEnabled (ti_config t)) (lc_uploadInterval (ti_config t)) (lc_batchLines (ti_config t)) (ti_now t) upload) as [F1 F2].
  destruct (Flush _ _ _ _ _ _) as [sent upload']. cbn [fst snd] in *. unfold offers, delivered. cbn [lp_upload ap_upload fst snd]. rewrite <-H1. split_and!; [exact F1| |].
  - unfold bounded in *. rewrite F1, length_app in H3. lia.
  - intros batch ok ->. rewrite <-H2. destruct F2 as (_ & _ & ? & ? & ? & ? & ?). by split_and!.
Qed.
(** The ticks of a run in which the buffer never overflows. *)
Fixpoint fits (ts : list logs_tick_input) (a : logs_app) : Prop :=
  match ts with
  | [] => True
  | t :: ts => let r := logs_tick t a in (List.length (ub_pending (ap_upload a) ++ offers t r.1.1) <= logUploadMax)%nat /\ fits ts r.2
  end.
Fixpoint offered_run (ts : list logs_tick_input) (rs : list (captured * log_output)) : list LogUploadEntry :=
  match ts, rs with t :: ts, r :: rs => offers t r.1 ++ offered_run ts rs | _, _ => [] end.
Definition delivered_run (rs : list (captured * log_output)) : list LogUploadEntry := concat (delivered ∘ snd <$> rs).
Lemma run_upload ts a : bounded (ap_upload a) -> let r := logs_run ts a in
  bounded (ap_upload r.2) /\ delivered_run r.1 ++ ub_pending (ap_upload r.2) `sublist_of` ub_pending (ap_upload a) ++ offered_run ts r.1 /\
  (fits ts a -> delivered_run r.1 ++ ub_pending (ap_upload r.2) = ub_pending (ap_upload a) ++ offered_run ts r.1).
Proof.
  revert a. induction ts as [|t ts IH]; intros a Hb; cbn [logs_run fits offered_run]; [cbn; by rewrite app_nil_r|].
  destruct (tick_upload t a Hb) as (H1 & H2 & _). destruct (logs_tick t a) as [[out lo] a1]. cbn [fst snd] in *. destruct (IH a1 H2) as (I1 & I2 & I3).
  destruct (logs_run ts a1) as [rs a2]. cbn [fst snd] in *. unfold delivered_run in *. cbn [fmap list_fmap concat compose snd]. rewrite <-!(app_assoc (delivered lo)). split_and!; [done| |].
  - trans (delivered lo ++ ub_pending (ap_upload a1) ++ offered_run ts rs); [apply sublist_app; [done|exact I2]|].
    rewrite !app_assoc, <-H1. apply sublist_app; [|done]. rewrite tail_of_drop; apply sublist_drop.
  - intros [Hf Hfs]. rewrite (I3 Hfs). rewrite (app_assoc (delivered lo)), <-H1, tail_of_all by done. by rewrite app_assoc.
Qed.

(** ** Which alerts are sent

    The rules are asked one after the other; a run of the tick asks these. *)

Record question := mkQuestion { qu_rule : logAlertRule; qu_container : str; qu_line : containerLogLine; qu_now : Z }.
Definition in_scope (q : question) : bool :=
  (bool_decide (lr_container (qu_rule q) = []) || bool_decide (lr_container (qu_rule q) = qu_container q)) && lr_pattern (qu_rule q) (ll_Line (qu_line q)).
Definition held (q : question) (last : gmap str Z) : bool :=
  match last !! alert_key_of (qu_rule q) (qu_container q) with Some previous => time_Sub (qu_now q) previous <? lr_cooldown (qu_rule q) | None => false end.
Fixpoint asks (qs : list question) (last : gmap str Z) : list question * gmap str Z :=
  match qs with
  | [] => ([], last)
  | q :: qs =>
      if in_scope q && negb (held q last) then let '(fired, last) := asks qs (<[alert_key_of (qu_rule q) (qu_container q) := qu_now q]> last) in (q :: fired, last)
      else asks qs last
  end.
Lemma asks_app qs qs' last : asks (qs ++ qs') last = let '(f, last) := asks qs last in let '(f', last) := asks qs' last in (f ++ f', last).
Proof.
  revert last. induction qs as [|q qs IH]; intros last; cbn [asks app]; [by destruct (asks qs' last)|].
  destruct (in_scope q && _); [|apply IH]. rewrite IH. destruct (asks qs _) as [f last']. by destruct (asks qs' last').
Qed.
Definition fired_match (q : question) : logAlertMatch := mkLogAlertMatch (lr_name (qu_rule q)) (lr_title (qu_rule q)) (qu_container q) (qu_line q).
Lemma match_rules_asks rules container line now last :
  match_rules rules container line now last = let '(f, last) := asks ((fun r => mkQuestion r container line now) <$> rules) last in (fired_match <$> f, last).
Proof.
  revert last. induction rules as [|rule rules IH]; intros last; [done|]. cbn [match_rules fmap list_fmap asks].
  unfold in_scope, held. cbn [qu_rule qu_container qu_line qu_now].
  destruct (bool_decide (lr_container rule = [])), (bool_decide (lr_container rule = container)), (lr_pattern rule (ll_Line line)); cbn [negb andb orb]; try apply IH.
  all: destruct (match last !! alert_key_of rule container with Some previous => time_Sub now previous <? lr_cooldown rule | None => false end); cbn [negb]; [apply IH|].
  all: rewrite IH; by destruct (asks _ _).
Qed.
Definition line_questions (rules : list logAlertRule) (now : Z) (container : str) (lines : list containerLogLine) : list question :=
  concat ((fun line => (fun r => mkQuestion r container line now) <$> rules) <$> lines).
Lemma match_lines_asks rules now container lines last :
  match_lines container now lines (mkLogAlerts rules last) = let '(f, last) := asks (line_questions rules now container lines) last in (fired_match <$> f, mkLogAlerts rules last).
Proof.
  revert last. induction lines as [|line lines IH]; intros last; [done|]. unfold line_questions in *. cbn [match_lines fmap list_fmap concat]. unfold Match. cbn [la_rules la_last].
  rewrite match_rules_asks, asks_app. destruct (asks _ last) as [f last']. rewrite IH. destruct (asks _ last') as [f' last'']. by rewrite fmap_app.
Qed.
Definition tick_questions (rules : list logAlertRule) (t : logs_tick_input) (out : captured) : list question :=
  concat ((fun c => line_questions rules (ti_now t) c.1 c.2) <$> collected_of out).
Lemma fan_alerts rules t cs ns fs last b : is_Some (ti_publish t) ->
  let '(f, last') := asks (concat ((fun c => line_questions rules (ti_now t) c.1 c.2) <$> cs)) last in
  let r := fold_left (fan_out t) cs ((ns, fs), (mkLogAlerts rules last, b)) in r.1.1 = ns ++ (log_notice ∘ fired_match <$> f) /\ r.2.1 = mkLogAlerts rules last'.
Proof.
  intros [publish Hp]. revert ns fs last b. induction cs as [|[id lines] cs IH]; intros ns fs last b; [cbn; by rewrite app_nil_r|].
  cbn [fmap list_fmap concat fst snd fold_left]. rewrite asks_app. destruct (asks (line_questions _ _ _ _) last) as [f1 last1] eqn:E1.
  assert (Hone : exists fs' b', fan_out t ((ns, fs), (mkLogAlerts rules last, b)) (id, lines) = ((ns ++ (log_notice <$> (fired_match <$> f1)), fs'), (mkLogAlerts rules last1, b'))).
  { unfold fan_out. rewrite match_lines_asks, E1, Hp. cbn [is_Some_b]. by do 2 eexists. }
  destruct Hone as (fs' & b' & ->). specialize (IH (ns ++ (log_notice <$> (fired_match <$> f1))) fs' last1 b'). destruct (asks (concat _) last1) as [f2 last2].
  destruct IH as [I1 I2]. cbv zeta. rewrite I1, I2. split; [|done]. by rewrite fmap_app, <-app_assoc, <-!list_fmap_compose.
Qed.
Fixpoint run_questions (rules : list logAlertRule) (ts : list logs_tick_input) (rs : list (captured * log_output)) : list question :=
  match ts, rs with t :: ts, r :: rs => tick_questions rules t r.1 ++ run_questions rules ts rs | _, _ => [] end.
Definition notices_of (rs : list (captured * log_output)) : list log_notification := concat (lp_notices ∘ snd <$> rs).
Lemma run_alerts rules ts a : la_rules (ap_alerts a) = rules -> Forall (fun t => is_Some (ti_publish t)) ts ->
  let r := logs_run ts a in notices_of r.1 = log_notice ∘ fired_match <$> (asks (run_questions rules ts r.1) (la_last (ap_alerts a))).1.
Proof.
  revert a. induction ts as [|t ts IH]; intros a Hr Hp; [done|]. apply Forall_cons in Hp as [Hp Hps]. cbn [logs_run].
  assert (Hstep : let r := logs_tick t a in let '(f, last) := asks (tick_questions rules t r.1.1) (la_last (ap_alerts a)) in
    lp_notices r.1.2 = log_notice ∘ fired_match <$> f /\ ap_alerts r.2 = mkLogAlerts rules last).
  { unfold logs_tick. destruct (collect _ _ _ _ _ _) as [out logs]. destruct (ap_alerts a) as [rules' last] eqn:Ea. cbn in Hr. subst rules'.
    pose proof (fan_alerts rules t (collected_of out) [] [] last (ap_upload a) Hp) as Hf. cbn [la_last]. fold (tick_questions rules t out) in Hf.
    destruct (fold_left _ _ _) as [[notices frames] [alerts upload]]. destruct (Flush _ _ _ _ _ _) as [sent upload']. cbn [fst snd ap_alerts lp_notices].
    destruct (asks _ last) as [f last']. cbv zeta in Hf. cbn [fst snd] in Hf. by destruct Hf as [-> ->]. }
  destruct (logs_tick t a) as [[out lo] a1]. cbn [fst snd] in Hstep. destruct (asks (tick_questions rules t out) (la_last (ap_alerts a))) as [f last] eqn:Ef.
  destruct Hstep as [H1 H2]. assert (Hr1 : la_rules (ap_alerts a1) = rules) by by rewrite H2. specialize (IH a1 Hr1 Hps). destruct (logs_run ts a1) as [rs a2].
  cbn [fst snd run_questions] in *. unfold notices_of in *. cbn [fmap list_fmap concat compose snd]. rewrite asks_app, Ef, IH, H1, H2. cbn [la_last].
  destruct (asks _ last) as [f' last']. cbn [fst]. by rewrite fmap_app.
Qed.
(** The rules fire at their distance, and always when they may. *)
Definition same_alert (q q' : question) : Prop := alert_key_of (qu_rule q) (qu_container q) = alert_key_of (qu_rule q') (qu_container q').
Record asked (qs fired : list question) (last : gmap str Z) : Prop := {
  ak_last k t : last !! k = Some t -> exists q, q ∈ fired /\ alert_key_of (qu_rule q) (qu_container q) = k /\ qu_now q = t;
  ak_newest q : q ∈ fired -> exists t, last !! alert_key_of (qu_rule q) (qu_container q) = Some t /\ qu_now q <= t;
  ak_scope q : q ∈ fired -> q ∈ qs /\ in_scope q = true;
  ak_apart i j q q' : (i < j)%nat -> fired !! i = Some q -> fired !! j = Some q' -> same_alert q q' -> lr_cooldown (qu_rule q') <= time_Sub (qu_now q') (qu_now q);
  ak_answered q : q ∈ qs -> in_scope q = true -> exists q', q' ∈ fired /\ same_alert q' q /\ (q' = q \/ time_Sub (qu_now q) (qu_now q') < lr_cooldown (qu_rule q));
}.
Lemma time_Sub_mono now a b : a <= b -> time_Sub now b <= time_Sub now a.
Proof. unfold time_Sub. lia. Qed.
Lemma asks_spec qs : Forall (fun q => 0 < lr_cooldown (qu_rule q)) qs -> asked qs (asks qs ∅).1 (asks qs ∅).2.
Proof.
  induction qs as [|q qs IH] using rev_ind; intros Hc; [split; cbn; intros *; rewrite ?lookup_empty, ?elem_of_nil; done|].
  apply Forall_app in Hc as [Hc Hq]. apply Forall_cons in Hq as [Hq _]. specialize (IH Hc). rewrite asks_app. destruct (asks qs ∅) as [fired last]. cbn [fst snd] in IH. cbn [asks].
  destruct IH as [I1 I2 I3 I4 I5]. set (k := alert_key_of (qu_rule q) (qu_container q)). destruct (in_scope q) eqn:Es; cbn [andb].
  2:{ cbn. rewrite app_nil_r. split; [done|done| |done|]; [intros q' Hq'; destruct (I3 q' Hq'); rewrite elem_of_app; tauto|].
      intros q' [Hin|Hin%list_elem_of_singleton]%elem_of_app; [|subst q']; [by apply I5|congruence]. }
  destruct (held q last) eqn:Eh; cbn [negb fst snd].
  - rewrite app_nil_r. split; [done|done| |done|]; [intros q' Hq'; destruct (I3 q' Hq'); rewrite elem_of_app; tauto|].
    intros q' [Hin|Hin%list_elem_of_singleton]%elem_of_app Hs; [|subst q']; [by apply I5|]. unfold held in Eh. fold k in Eh. destruct (last !! k) as [t|] eqn:El; [|done].
    apply Z.ltb_lt in Eh. destruct (I1 k t El) as (q' & Hf & Hk & <-). exists q'. split_and!; [done|done|by right].
  - assert (Hgap : forall q', q' ∈ fired -> same_alert q' q -> lr_cooldown (qu_rule q) <= time_Sub (qu_now q) (qu_now q')).
    { intros q' Hin Hs. destruct (I2 q' Hin) as (t & Ht & Hle). rewrite Hs in Ht. fold k in Ht. unfold held in Eh. fold k in Eh. rewrite Ht in Eh. apply Z.ltb_ge in Eh.
      pose proof (time_Sub_mono (qu_now q) _ _ Hle). lia. }
    split.
    + intros k' t. destruct (decide (k = k')) as [<-|Hk]; [rewrite lookup_insert_eq; intros [= <-]; exists q; rewrite elem_of_app, list_elem_of_singleton; auto|].
      rewrite lookup_insert_ne by done. intros (q' & Hf & ?)%I1. exists q'. rewrite elem_of_app. auto.
    + intros q' [Hin|Hin%list_elem_of_singleton]%elem_of_app; [|subst q']; [|exists (qu_now q); fold k; rewrite lookup_insert_eq; split; [done|lia]].
      destruct (decide (k = alert_key_of (qu_rule q') (qu_container q'))) as [E|Hk]; [|rewrite lookup_insert_ne by done; by apply I2].
      rewrite <-E, lookup_insert_eq. exists (qu_now q). split; [done|]. specialize (Hgap q' Hin (eq_sym E)). unfold time_Sub, min_int64, max_int64 in Hgap. lia.
    + intros q' [Hin|Hin%list_elem_of_singleton]%elem_of_app; [|subst q']; [destruct (I3 q' Hin); split; [apply elem_of_app; by left|done]|split; [apply elem_of_app; right; by apply list_elem_of_singleton|done]].
    + intros i j q1 q2 Hij H1 H2 Hs. apply lookup_snoc_Some in H2 as [[Hj H2]|[-> <-]].
      * rewrite lookup_app_l in H1 by lia. exact (I4 i j q1 q2 Hij H1 H2 Hs).
      * rewrite lookup_app_l in H1 by lia. apply Hgap; [by eapply list_elem_of_lookup_2|done].
    + intros q' [Hin|Hin%list_elem_of_singleton]%elem_of_app Hs'; [|subst q']; [destruct (I5 q' Hin Hs') as (q2 & Hf & ?); exists q2; rewrite elem_of_app; auto|].
      exists q. rewrite elem_of_app, list_elem_of_singleton. split_and!; [by right|done|by left].
Qed.
Lemma collected_in out id lines : (id, lines) ∈ collected_of out -> (id, lines) ∈ out.
Proof. intros Hc%elem_of_map_to_list%elem_of_list_to_map_2. by apply list_elem_of_In, in_rev, list_elem_of_In in Hc. Qed.

(** ** What the daemon keeps, uploads and announces *)

Definition logs_start (alerts : list LogAlertConfig) (dir : str) (days : Z) (disk : logDir) : logs_app :=
  mkLogsApp (mkLogsState (newContainerLogStore dir days) disk ∅) (SetAlerts alerts newLogAlertEvaluator) newLogUploadBuffer.
Lemma tail_of_tail {A} n m (l : list A) : (n <= m)%nat -> tail_of n (tail_of m l) = tail_of n l.
Proof. intros Hn. rewrite !tail_of_drop, length_drop, drop_drop. f_equal. lia. Qed.
Definition snapshot_limit (limit : Z) : nat := if (limit <=? 0) || (1000 <? limit) then 200 else Z.to_nat limit.
Lemma Snapshot_holds ev s id limit : store_holds ev s -> Snapshot s id limit = tail_of (snapshot_limit limit) (history id ev).
Proof.
  intros [Ht _]. specialize (Ht id). assert (Hl : (snapshot_limit limit <= containerLogRingLines)%nat).
  { unfold snapshot_limit, containerLogRingLines. destruct (Z.leb_spec limit 0), (Z.ltb_spec 1000 limit); cbn [orb]; lia. }
  unfold Snapshot. change (Z.of_nat containerLogRingLines) with 1000. replace (Z.to_nat (if (limit <=? 0) || (1000 <? limit) then 200 else limit)) with (snapshot_limit limit) by (unfold snapshot_limit; by destruct (_ || _)).
  destruct (ls_tails s !! id) as [kept|]; cbn [default] in Ht.
  - cbn in Ht. subst kept. cbn [lt_lines]. by rewrite tail_of_tail.
  - injection Ht as Ht _. transitivity (tail_of (snapshot_limit limit) (tail_of containerLogRingLines (history id ev))); [by rewrite <-Ht|by rewrite tail_of_tail].
Qed.
(** C36. After any run of the logs tick, with any runtimes, disk and clock: what a client
    reads of a container is the last of all lines captured of it, in their order; the
    cursor is the newest of their times, and a line is captured only when it is newer
    than every line of its container captured before, so none is kept twice. But a
    container whose commands print more than 256 KiB is not captured at all: the copy
    into the buffer fails, nothing is kept, and the next tick asks for the same lines. *)
Theorem capture_exact alerts dir days disk ts :
  let r := logs_run ts (logs_start alerts dir days disk) in let ev := captured_in r.1 in let s := lg_store (ap_logs r.2) in
  (forall id limit, Snapshot s id limit = tail_of (snapshot_limit limit) (history id ev)) /\
  (forall id, Cursor s id = cursor_of (history id ev)) /\
  (forall pre id lines post, ev = pre ++ (id, lines) :: post -> forall x y, x ∈ history id pre -> y ∈ lines -> ll_TS x < ll_TS y) /\
  (forall exec clock io path c st, let args := tail_args (Cursor (lg_store st) (ct_ID c)) (ct_ID c) in
     too_much exec (path :: args) -> too_much exec ($"sudo" :: $"-n" :: path :: args) ->
     let r := collect_one exec clock io path c ([], st) in r.1 = [] /\ lg_store r.2 = lg_store st /\ tail_args (Cursor (lg_store r.2) (ct_ID c)) (ct_ID c) = args).
Proof.
  intros r ev s. assert (Hs : store_holds ev s) by apply (logs_run_holds ts [] (logs_start alerts dir days disk)), new_holds.
  split_and!; [intros; by apply Snapshot_holds|intros; by apply Cursor_holds|apply Hs|]. intros exec clock io path c st args H1 H2.
  unfold collect_one. destruct (negb _); [done|]. pose proof (tail_too_much exec (clock (ct_ID c)) _ path (ct_ID c) (lg_sudo st) H1 H2) as Hn.
  destruct (tail _ _ _ _ _ _) as [lines sudo]. cbn in Hn. by subst lines.
Qed.
(** What is uploaded of the logs. Only lines of containers the operator manages leave
    the host, only while uploading is enabled, in batches of the configured size and no
    more often than configured. What was delivered and what is still waiting are, in
    their order, lines offered to the buffer, none of them twice; and as long as the
    buffer never holds more than 5000 lines nothing is lost, whatever requests fail. *)
Theorem upload_exact alerts dir days disk ts : let r := logs_run ts (logs_start alerts dir days disk) in
  let uploaded := delivered_run r.1 in let waiting := ub_pending (ap_upload r.2) in
  uploaded ++ waiting `sublist_of` offered_run ts r.1 /\ (List.length waiting <= 5000)%nat /\
  (fits ts (logs_start alerts dir days disk) -> uploaded ++ waiting = offered_run ts r.1) /\
  (forall pre t post, ts = pre ++ t :: post -> let a := (logs_run pre (logs_start alerts dir days disk)).2 in let o := logs_tick t a in
     (forall e, e ∈ offers t o.1.1 -> exists c, (lu_ContainerID e, c) ∈ o.1.1 /\ managed (ti_config t) (lu_ContainerID e) (default no_entry (by_id (ti_payload t) !! lu_ContainerID e)) = true) /\
     (forall batch ok, lp_upload o.1.2 = Some (batch, ok) -> lc_uploadEnabled (ti_config t) = true /\ Z.of_nat (List.length batch) <= lc_batchLines (ti_config t) /\
        (forall l, ub_lastTry (ap_upload a) = Some l -> lc_uploadInterval (ti_config t) <= time_Sub (ti_now t) l))).
Proof.
  intros r uploaded waiting. destruct (run_upload ts (logs_start alerts dir days disk)) as (H1 & H2 & H3); [unfold bounded; cbn; lia|].
  split_and!; [exact H2|exact H1|exact H3|]. intros pre t post -> a o. split.
  - intros e He. unfold offers in He. apply list_elem_of_In, in_concat in He as (l & Hl%list_elem_of_In & He%list_elem_of_In).
    apply list_elem_of_fmap in Hl as ([id lines] & -> & Hc). unfold offered in He. cbn [fst snd] in He. destruct (managed _ _ _) eqn:Em; [|by apply elem_of_nil in He].
    apply list_elem_of_fmap in He as (line & -> & _). cbn [lu_ContainerID]. exists lines. split; [|exact Em].
    by apply collected_in.
  - intros batch ok Hu. destruct (run_upload pre (logs_start alerts dir days disk)) as (Hb & _); [unfold bounded; cbn; lia|].
    destruct (tick_upload t a Hb) as (_ & _ & Ht). destruct (Ht batch ok Hu) as (? & _ & ? & ? & _). by split_and!.
Qed.
(** Every question is about a line captured in the same tick. *)
Lemma run_questions_in rules ts rs q : q ∈ run_questions rules ts rs ->
  qu_rule q ∈ rules /\ exists lines, (qu_container q, lines) ∈ captured_in rs /\ qu_line q ∈ lines.
Proof.
  revert rs. induction ts as [|t ts IH]; intros [|[out lo] rs] Hq; [by apply elem_of_nil in Hq..|]. cbn [run_questions fst] in Hq. unfold captured_in. cbn [fmap list_fmap concat fst].
  apply elem_of_app in Hq as [Hq|Hq]; [|destruct (IH rs Hq) as [? (lines & ? & ?)]; split; [done|]; exists lines; rewrite elem_of_app; auto].
  unfold tick_questions in Hq. apply list_elem_of_In, in_concat in Hq as (l & Hl%list_elem_of_In & Hq%list_elem_of_In). apply list_elem_of_fmap in Hl as ([id lines] & -> & Hc).
  unfold line_questions in Hq. apply list_elem_of_In, in_concat in Hq as (l & Hl%list_elem_of_In & Hq%list_elem_of_In). apply list_elem_of_fmap in Hl as (line & -> & Hline).
  apply list_elem_of_fmap in Hq as (rule & -> & Hr). cbn. split; [done|]. exists lines. rewrite elem_of_app. split; [left; by apply collected_in|done].
Qed.
Lemma alert_rule_positive alerts : Forall (fun rule => 0 < lr_cooldown rule) (omap alert_rule alerts).
Proof.
  apply Forall_forall. intros rule (alert & _ & Hr)%list_elem_of_omap. unfold alert_rule in Hr. destruct (match alert_Enabled alert with Some _ => _ | None => _ end); [done|].
  destruct (compile_pattern _); [|done]. injection Hr as <-. cbn [lr_cooldown]. destruct (Z.leb_spec (cooldown_of (alert_CooldownSeconds alert)) 0); [unfold Minute, Second; lia|done].
Qed.
Lemma alert_key_inj q q' : byte 0 ∉ lr_name (qu_rule q) -> byte 0 ∉ lr_name (qu_rule q') -> same_alert q q' ->
  lr_name (qu_rule q) = lr_name (qu_rule q') /\ qu_container q = qu_container q'.
Proof.
  intros H1 H2 Hs. unfold same_alert, alert_key_of in Hs. cbn [NULsep app] in Hs.
  assert (Hno : forall n, byte 0 ∉ n -> Forall (fun c => c <> byte 0) n) by (intros n Hn; apply Forall_forall; by intros c Hc ->).
  destruct (app_cons_inj_mid (fun c => c <> byte 0) _ _ _ _ _ _ (Hno _ H1) (Hno _ H2) (fun f => f eq_refl) (fun f => f eq_refl) Hs) as (? & _ & ?). done.
Qed.
Lemma same_alert_intro q q' : lr_name (qu_rule q) = lr_name (qu_rule q') -> qu_container q = qu_container q' -> same_alert q q'.
Proof. unfold same_alert, alert_key_of. by intros -> ->. Qed.
(** The log alerts of a daemon that can publish. The notifications are those of some
    of the questions whether a rule matches a captured line: each of a rule whose pattern
    matches, about a line of a container that the rule names or that no rule need name.
    Two of one rule and container are at least its cooldown apart, and a line that
    matches is announced, or its rule was announced for the container less than the
    cooldown before. But what a rule names is compared with the container's id: a rule
    that names a container by its name, as the documentation has it, is never announced. *)
Theorem log_alerts_exact alerts dir days disk ts : Forall (fun alert => byte 0 ∉ alert_Name alert) alerts -> Forall (fun t => is_Some (ti_publish t)) ts ->
  let r := logs_run ts (logs_start alerts dir days disk) in let qs := run_questions (omap alert_rule alerts) ts r.1 in
  exists fired, notices_of r.1 = log_notice ∘ fired_match <$> fired /\
    (forall q, q ∈ fired -> q ∈ qs /\ qu_rule q ∈ omap alert_rule alerts /\ lr_pattern (qu_rule q) (ll_Line (qu_line q)) = true /\
       (exists lines, (qu_container q, lines) ∈ captured_in r.1 /\ qu_line q ∈ lines) /\ (lr_container (qu_rule q) = [] \/ lr_container (qu_rule q) = qu_container q)) /\
    (forall i j q q', (i < j)%nat -> fired !! i = Some q -> fired !! j = Some q' -> lr_name (qu_rule q) = lr_name (qu_rule q') -> qu_container q = qu_container q' ->
       lr_cooldown (qu_rule q') <= time_Sub (qu_now q') (qu_now q)) /\
    (forall q, q ∈ qs -> in_scope q = true -> exists q', q' ∈ fired /\ lr_name (qu_rule q') = lr_name (qu_rule q) /\ qu_container q' = qu_container q /\
       (q' = q \/ time_Sub (qu_now q) (qu_now q') < lr_cooldown (qu_rule q))).
Proof.
  intros Hnames Hpub r qs. pose proof (run_alerts (omap alert_rule alerts) ts (logs_start alerts dir days disk) eq_refl Hpub) as Hn. cbn [logs_start ap_alerts SetAlerts la_last newLogAlertEvaluator] in Hn.
  exists (asks qs ∅).1. split; [exact Hn|]. clear Hn. assert (Hin : forall q, q ∈ qs -> qu_rule q ∈ omap alert_rule alerts /\ exists lines, (qu_container q, lines) ∈ captured_in r.1 /\ qu_line q ∈ lines) by (intros q Hq; by eapply run_questions_in).
  clearbody qs. assert (Hnul : forall q, q ∈ qs -> byte 0 ∉ lr_name (qu_rule q)).
  { intros q Hq. destruct (Hin q Hq) as [(alert & Ha & Hr)%list_elem_of_omap _]. eapply Forall_forall in Hnames; [|exact Ha]. unfold alert_rule in Hr.
    destruct (match alert_Enabled alert with Some _ => _ | None => _ end); [done|]. destruct (compile_pattern _); [|done]. by injection Hr as <-. }
  destruct (asks_spec qs) as [_ _ A3 A4 A5].
  { apply Forall_forall. intros q [Hq _]%Hin. pose proof (alert_rule_positive alerts) as Hp. by eapply Forall_forall in Hp. }
  split_and!.
  - intros q Hq. destruct (A3 q Hq) as [Hqs Hs]. destruct (Hin q Hqs) as [Hr Hl]. unfold in_scope in Hs. apply andb_true_iff in Hs as [Hs Hp]. apply orb_true_iff in Hs as [Hs%bool_decide_eq_true|Hs%bool_decide_eq_true]; split_and!; auto.
  - intros i j q q' Hij H1 H2 En Ec. exact (A4 i j q q' Hij H1 H2 (same_alert_intro _ _ En Ec)).
  - intros q Hq Hs. destruct (A5 q Hq Hs) as (q' & Hf & Hsame & Hor). exists q'. destruct (alert_key_inj q' q) as [? ?]; [by apply Hnul, A3|by apply Hnul|done|]. by split_and!.
Qed.
End captured.

(** ** A container that logs an error *)

#[local] Instance demo_logs_env : LogsEnv := {
  ParseRFC3339Nano s := Atoi s;
  FormatRFC3339Nano t := fmt_d t;
  compile_pattern p := Some (fun line => Contains line p);
  Marshal_log line := Some (ll_Line line);
}.
#[local] Instance demo_logs_host : OpsHost := {
  oh_runtimes := ∅; oh_root := true; LookPath _ := None; inspectContainer _ _ := Err (Errorf "" []); sudo_version _ := false;
  store_listing _ := Ok []; store_running _ _ := None; store_image _ _ := None; EqualFold s t := bool_decide (s = t);
}.
Definition demo_log_alert (name container : str) : LogAlertConfig := mkLogAlertConfig name ($"error") container ($"Errors") None 0.
Definition demo_printed : str := $"5 one error" ++ [newline] ++ $"7 fine" ++ [newline].
Definition demo_tick (now : Z) (printed : list str) : logs_tick_input :=
  mkLogsTick [mkRuntimePayload ($"podman") true None [] None [] [] [mkContainerEntry ($"c1") ($"web") ($"nginx") ($"running") ($"Up") []]] {[ $"podman" := $"/usr/bin/podman" ]}
    (fun _ => Some (printed, true)) (fun _ => now) (fun _ => mkLogIO true true true true (fun _ => None) true (fun _ => true) (fun _ => true))
    (mkLogsConfig true 0 1 [$"web"] []) now (Some (fun _ => true)) 0.
Definition demo_log_alerts : list LogAlertConfig := [demo_log_alert ($"any") []; demo_log_alert ($"named") ($"web")].
Definition demo_ticks : list logs_tick_input := [demo_tick 10 [demo_printed]; demo_tick 20 [demo_printed ++ $"9 error again"]].
Definition demo_logs_run := logs_run demo_ticks (logs_start demo_log_alerts ($"/logs") 7 ∅).
(** Two ticks print the same lines, which are kept once. *)
Lemma capture_exact_witness : Snapshot (lg_store (ap_logs demo_logs_run.2)) ($"c1") 2 = [mkLogLine 7 ($"fine"); mkLogLine 9 ($"error again")] /\
  Cursor (lg_store (ap_logs demo_logs_run.2)) ($"c1") = 9.
Proof.
  destruct (capture_exact demo_log_alerts ($"/logs") 7 ∅ demo_ticks) as (H1 & H2 & _). split.
  - etransitivity; [exact (H1 ($"c1") 2)|]. vm_compute. reflexivity.
  - etransitivity; [exact (H2 ($"c1"))|]. vm_compute. reflexivity.
Defined.
Lemma upload_exact_witness : delivered_run demo_logs_run.1 ++ ub_pending (ap_upload demo_logs_run.2) = [mkLogUpload ($"c1") 5 ($"one error"); mkLogUpload ($"c1") 7 ($"fine"); mkLogUpload ($"c1") 9 ($"error again")].
Proof.
  destruct (upload_exact demo_log_alerts ($"/logs") 7 ∅ demo_ticks) as (_ & _ & H & _). etransitivity; [apply H|vm_compute; reflexivity].
  repeat split; apply Nat.leb_le; vm_compute; reflexivity.
Defined.
(** The rule for the container's name never fires; the other is held back for its cooldown. *)
Lemma log_alerts_exact_witness : notices_of demo_logs_run.1 = [mkLogNotification ($"Errors") ($"one error") ($"any") ($"c1") 5] /\
  exists fired, notices_of demo_logs_run.1 = log_notice ∘ fired_match <$> fired /\ List.length fired = 1%nat.
Proof.
  assert (E : notices_of demo_logs_run.1 = [mkLogNotification ($"Errors") ($"one error") ($"any") ($"c1") 5]) by (vm_compute; reflexivity). split; [exact E|].
  destruct (log_alerts_exact demo_log_alerts ($"/logs") 7 ∅ demo_ticks) as (fired & Hf & _).
  - apply (bool_decide_unpack _). vm_compute. exact I.
  - repeat constructor; by eexists.
  - exists fired. split; [exact Hf|]. fold demo_logs_run in Hf. rewrite E in Hf. apply (f_equal List.length) in Hf. rewrite length_fmap in Hf. by symmetry.
Defined.
