(* ===== verification/Status.v ===== *)
(** * Status: the containers of a host, as the cloud shows them

    The status batch of [internal/daemon/app.go] and its post, run against the ingestion
    of [CloudTelemetry]: the two programs together. *)

From S2P Require Import Prelude GoStr Config Alarms Logs CloudDB CloudFeedDB Localize Cloud CloudFacts CloudNotify CloudNotifyFacts CloudTelemetry CloudTelemetryFacts.
Open Scope Z_scope.

(** ** The batch *)

Section batch.
Variables containers composes : list str.
Definition status_entry (runtime : str) (c : containerEntry) : ContainerStatusInput :=
  mkContainerStatusInput (ct_ID c) runtime (ct_Name c) (ct_Image c) (ct_State c) (ct_Status c) (ct_ComposeProject c).
Definition answered (group : containersRuntimePayload) : bool := rt_Available group && negb (is_Some_b (rt_Error group)).
(** The loop over the groups: the entries, the runtimes in the order they appear, and
    those of which a store did not answer. *)
Definition status_group (acc : list ContainerStatusInput * list str * list str) (group : containersRuntimePayload) : list ContainerStatusInput * list str * list str :=
  let '((entries, order), partial) := acc in
  let order := if bool_decide (rt_Runtime group ∈ order) then order else order ++ [rt_Runtime group] in
  if negb (answered group) then ((entries, order), rt_Runtime group :: partial)
  else
    let kept := filter (fun c => matchManagedContainer (ct_ID c) (ct_Name c) (ct_ComposeProject c) containers composes = true) (rt_Containers group) in
    ((entries ++ (status_entry (rt_Runtime group) <$> kept), order), partial).
Definition containerStatusBatch (payload : list containersRuntimePayload) : list ContainerStatusInput * list str :=
  let '((entries, order), partial) := fold_left status_group payload (([], []), []) in
  (entries, filter (fun runtime => runtime ∉ partial) order).

(** The containers the batch is to name, and the runtimes it may speak for. *)
Definition listed (payload : list containersRuntimePayload) (runtime : str) (c : containerEntry) : Prop :=
  exists group, group ∈ payload /\ answered group = true /\ rt_Runtime group = runtime /\ c ∈ rt_Containers group /\
    matchManagedContainer (ct_ID c) (ct_Name c) (ct_ComposeProject c) containers composes = true.
Definition speaks_for (payload : list containersRuntimePayload) (runtime : str) : Prop :=
  runtime ∈ rt_Runtime <$> payload /\ forall group, group ∈ payload -> rt_Runtime group = runtime -> answered group = true.
#[export] Instance speaks_for_dec payload runtime : Decision (speaks_for payload runtime).
Proof.
  unfold speaks_for. destruct (decide (Forall (fun group => rt_Runtime group = runtime -> answered group = true) payload)) as [Hf|Hf]; rewrite Forall_forall in Hf; [|right; by intros [_ ?]].
  destruct (decide (runtime ∈ rt_Runtime <$> payload)); [by left|right; by intros [? _]].
Defined.
Lemma batch_spec payload :
  (forall e, e ∈ (containerStatusBatch payload).1 <-> exists runtime c, listed payload runtime c /\ e = status_entry runtime c) /\
  (forall runtime, runtime ∈ (containerStatusBatch payload).2 <-> speaks_for payload runtime) /\ NoDup (containerStatusBatch payload).2.
Proof.
  assert (Hinv : forall r, fold_left status_group payload (([], []), []) = r ->
    (forall e, e ∈ r.1.1 <-> exists runtime c, listed payload runtime c /\ e = status_entry runtime c) /\ (forall x, x ∈ r.1.2 <-> x ∈ rt_Runtime <$> payload) /\ NoDup r.1.2 /\
    (forall x, x ∈ r.2 <-> exists group, group ∈ payload /\ rt_Runtime group = x /\ answered group = false)).
  { induction payload as [|group payload IH] using rev_ind; intros r <-.
    { cbn. repeat split; try (by intros ?%elem_of_nil); [|constructor|]; [intros (? & ? & (? & ?%elem_of_nil & _) & _); done|by intros (? & ?%elem_of_nil & _)]. }
    rewrite fold_left_app. cbn [fold_left]. destruct (fold_left status_group payload _) as [[entries order] partial]. destruct (IH _ eq_refl) as (I1 & I2 & I3 & I4). cbn [fst snd] in *. unfold status_group.
    set (order' := if bool_decide (rt_Runtime group ∈ order) then order else order ++ [rt_Runtime group]).
    assert (Ho : forall x, x ∈ order' <-> x ∈ rt_Runtime <$> payload ++ [group]).
    { intros x. rewrite fmap_app, elem_of_app. cbn [fmap list_fmap]. rewrite list_elem_of_singleton, <-I2. unfold order'. case_bool_decide; [|by rewrite elem_of_app, list_elem_of_singleton]. split; [by left|intros [?| ->]; done]. }
    assert (Hn : NoDup order') by (unfold order'; case_bool_decide as Hd; [done|]; apply NoDup_app; split_and!; [done| |apply NoDup_singleton]; by intros y Hy ->%list_elem_of_singleton).
    assert (Hl : forall runtime c, listed (payload ++ [group]) runtime c <-> listed payload runtime c \/ answered group = true /\ rt_Runtime group = runtime /\ c ∈ rt_Containers group /\ matchManagedContainer (ct_ID c) (ct_Name c) (ct_ComposeProject c) containers composes = true).
    { intros runtime c. split.
      - intros (g & [?|Hg%list_elem_of_singleton]%elem_of_app & ?); [left; by exists g|subst g; by right].
      - intros [(g & ? & ?)|?]; [exists g|exists group]; rewrite elem_of_app, list_elem_of_singleton; tauto. }
    assert (Hp : forall x, (exists g, g ∈ payload ++ [group] /\ rt_Runtime g = x /\ answered g = false) <-> (exists g, g ∈ payload /\ rt_Runtime g = x /\ answered g = false) \/ rt_Runtime group = x /\ answered group = false).
    { intros x. split.
      - intros (g & [?|Hg%list_elem_of_singleton]%elem_of_app & ?); [left; by exists g|subst g; by right].
      - intros [(g & ? & ?)|?]; [exists g|exists group]; rewrite elem_of_app, list_elem_of_singleton; tauto. }
    destruct (answered group) eqn:Ea; cbn [negb fst snd]; split_and!; try done.
    - intros e. rewrite elem_of_app, I1. setoid_rewrite Hl. rewrite list_elem_of_fmap. setoid_rewrite list_elem_of_filter. split.
      + intros [(rt & c & ? & ->)|(c & -> & ? & ?)]; [exists rt, c; tauto|exists (rt_Runtime group), c; split; [right|]; done].
      + intros (rt & c & [?|(_ & <- & ? & ?)] & ->); [left; by exists rt, c|right; by exists c].
    - intros x. rewrite I4, Hp. naive_solver.
    - intros e. rewrite I1. setoid_rewrite Hl. naive_solver.
    - intros x. rewrite elem_of_cons, I4, Hp. naive_solver. }
  unfold containerStatusBatch. destruct (fold_left status_group payload _) as [[entries order] partial]. destruct (Hinv _ eq_refl) as (I1 & I2 & I3 & I4). cbn [fst snd] in *. split_and!; [done| |by apply NoDup_filter].
  intros x. rewrite list_elem_of_filter, I2, I4. unfold speaks_for. split.
  - intros [Hno Hx]. split; [done|]. intros g Hg Hr. destruct (answered g) eqn:Ea; [done|]. exfalso. apply Hno. by exists g.
  - intros [Hx Hall]. split; [|done]. intros (g & Hg & Hr & Ha). rewrite (Hall g Hg Hr) in Ha. done.
Qed.
End batch.

(** ** Daemon and cloud together *)

Section status.
Context `{D : Database} `{L : !DatabaseLaws D} `{F : !FeedDatabase D} `{FL : !FeedLaws D F} `{CR : Crypto, UN : Unicode, FT : FloatText, JS : Json, TT : TimeText}.
(** One tick of the daemon: nothing is sent when the snapshot covers no runtime; what is
    sent the cloud takes or refuses. *)
Definition publishContainerStatus (c : Call) (id secret : str) (payload : list containersRuntimePayload) (containers composes : list str) : M unit :=
  let '(entries, covered) := containerStatusBatch containers composes payload in
  if bool_decide (covered = []) then ret tt else IngestContainerStatus c id secret entries covered.
Lemma container_rows_from d now l rows row : container_rows d now l = Ok rows -> row ∈ rows -> exists e, e ∈ l /\ container_row d now e = Ok row.
Proof.
  revert rows. induction l as [|e l IH]; intros rows Hr Hrow; cbn in Hr; [injection Hr as <-; by apply elem_of_nil in Hrow|].
  destruct (container_row d now e) as [row'|] eqn:Ee; [|done]. cbn in Hr. destruct (container_rows d now l) as [rest|]; [|done]. cbn in Hr. injection Hr as <-.
  apply elem_of_cons in Hrow as [->|Hrow]; [exists e|destruct (IH rest eq_refl Hrow) as (e' & ? & ?); exists e']; rewrite elem_of_cons; auto.
Qed.
Definition runtime_names : list str := [$"podman"; $"docker"].
Lemma trimmed_runtimes l : Forall (fun r => r ∈ runtime_names) l -> TrimSpace <$> l = l.
Proof.
  induction 1 as [|r l Hr _ IH]; [done|]. cbn [fmap list_fmap]. rewrite IH. f_equal. revert r Hr. apply Forall_forall. repeat constructor.
Qed.
Lemma covered_law runtimes covered : normalizeCoveredRuntimes runtimes = Ok covered -> forall r, r ∈ covered <-> r ∈ TrimSpace <$> runtimes.
Proof.
  unfold normalizeCoveredRuntimes. destruct (guard _ _) as [[]|]; [|done]. intros Hc%covered_runtimes_ok r. destruct Hc as [_ Hc]. rewrite Hc. pose proof (not_elem_of_nil r). tauto.
Qed.
Lemma too_many c id secret entries covered x u x' : 500 < Z.of_nat (List.length entries) -> IngestContainerStatus c id secret entries covered x <> (Ok u, x').
Proof.
  intros Hl Hx. unfold IngestContainerStatus in Hx. apply bind_ok in Hx as (d & y & _ & Hx). apply bind_ok in Hx as (v & y' & Hw & _). unfold when_ in Hw.
  destruct (Z.ltb_spec 500 (Z.of_nat (List.length entries))); [done|lia].
Qed.
(** C32. The containers of a daemon in the cloud after one status tick, daemon and cloud
    together. Every managed container of a runtime store that answered is shown as the
    snapshot has it. One the tick does not name is dropped exactly when the snapshot is
    the whole truth of its runtime, so never while a store of that runtime did not
    answer. Without any such runtime nothing is sent; a batch that is refused changes
    nothing, and one of more than 500 containers always is. *)
Theorem status_end_to_end c id secret payload containers composes x r x' :
  Forall (fun group => rt_Runtime group ∈ runtime_names) payload ->
  publishContainerStatus c id secret payload containers composes x = (r, x') ->
  let shown cid y := f_containers (t_feed (rows y)) !! (id, cid) in
  let named cid := exists runtime e, listed containers composes payload runtime e /\ TrimSpace (ct_ID e) = cid in
  match r with
  | Err _ => rows x' = rows x
  | Ok _ =>
      (~ exists runtime, speaks_for payload runtime) /\ x' = x \/
      exists d, t_daemons (rows x) !! id = Some d /\ dm_Enabled d = true /\
        (forall cid, named cid -> exists runtime e row, listed containers composes payload runtime e /\ TrimSpace (ct_ID e) = cid /\
           container_row d (c_now c) (status_entry runtime e) = Ok row /\ shown cid x' = Some (merged row (shown cid x))) /\
        (forall cid old, ~ named cid -> shown cid x = Some old ->
           shown cid x' = if bool_decide (speaks_for payload (dc_Runtime old) \/ dc_Runtime old = []) then None else Some old)
  end /\
  (500 < Z.of_nat (List.length (containerStatusBatch containers composes payload).1) -> rows x' = rows x).
Proof.
  intros Hnames Hx shown named. destruct (batch_spec containers composes payload) as (He & Hc & _). unfold publishContainerStatus in Hx.
  destruct (containerStatusBatch containers composes payload) as [entries covered]. cbn [fst snd] in *. assert (Hcovered : TrimSpace <$> covered = covered).
  { apply trimmed_runtimes, Forall_forall. intros rt [(g & -> & Hg)%list_elem_of_fmap _]%Hc. by eapply Forall_forall in Hnames. }
  case_bool_decide as Hz.
  { injection Hx as <- <-. split; [left|done]. split; [|done]. intros [rt Hr%Hc]. subst covered. by apply elem_of_nil in Hr. }
  pose proof (snapshot_exact _ _ _ _ _ _ _ _ Hx) as Hs. split; [|intros Hbig; destruct r as [u|e]; [|exact Hs]; exfalso; by eapply too_many in Hx].
  destruct r as [u|e]; [right|exact Hs]. destruct Hs as (d & cov & batch & g & Hd & Hen & _ & Hcov & Hb & _ & _ & Hin & Hout). exists d. split_and!; [done|done| |].
  all: destruct (container_rows_ok _ _ _ _ Hb) as [_ Hids]; assert (Hnamed : forall cid, named cid <-> cid ∈ dc_ContainerID <$> batch) by
    (intros cid; rewrite Hids, list_elem_of_fmap; split; [intros (rt & e & Hl & <-); exists (status_entry rt e); split; [done|]; apply He; by exists rt, e
      |intros (e & -> & (rt & e' & Hl & ->)%He); by exists rt, e']).
  - intros cid (row & Hrow & <- & Hshown)%Hnamed%Hin. destruct (container_rows_from _ _ _ _ _ Hb Hrow) as (e & Hin' & Hr). apply He in Hin' as (rt & e' & Hl & ->). exists rt, e', row. split_and!; [done| |done|exact Hshown].
    unfold container_row in Hr. destruct (guard _ _); [|done]. by injection Hr as <-.
  - intros cid old Hno Hold. unfold shown. rewrite (Hout cid old) by (by rewrite <-?Hnamed). pose proof (covered_law _ _ Hcov) as Hlaw. rewrite Hcovered in Hlaw.
    assert (Hne : cov <> []). { destruct covered as [|rt l]; [done|]. intros ->. apply (elem_of_nil rt), Hlaw, list_elem_of_here. }
    rewrite (bool_decide_true (cov <> [])) by done. cbn [andb].
    rewrite bool_decide_or, (bool_decide_ext (speaks_for payload (dc_Runtime old)) (dc_Runtime old ∈ cov)); [done|]. by rewrite Hlaw, Hc.
Qed.
End status.

(** ** A container is recreated while the other runtime does not answer *)

#[local] Existing Instance demo_crypto.
#[local] Existing Instance demo_unicode.
#[local] Existing Instance demo_floats.
#[local] Existing Instance demo_json.
#[local] Existing Instance demo_times.
Definition demo_entry (id name : string) : containerEntry := mkContainerEntry ($id) ($name) [] ($"running") [] [].
Definition demo_groups (podman_error : option str) (pods docks : list containerEntry) : list containersRuntimePayload :=
  [mkRuntimePayload ($"podman") true podman_error [] None [] [] pods; mkRuntimePayload ($"docker") true None [] None [] [] docks].
Definition demo_publish (now : Z) (payload : list containersRuntimePayload) (s : list_db) : res unit * list_db :=
  publishContainerStatus (D := ListDatabase) (demo_call now "k") ($"d1") ($"old") payload [] [] s.
Definition demo_before : list_db := (demo_publish 1 (demo_groups None [demo_entry "p" "pod"] [demo_entry "old" "web"]) demo_db).2.
Lemma status_end_to_end_witness : let out := demo_publish 2 (demo_groups (Some ($"timeout")) [] [demo_entry "new" "web"]) demo_before in
  out.1 = Ok tt /\ (map_to_list (f_containers (t_feed (rows out.2)))).*1 ≡ₚ [($"d1", $"new"); ($"d1", $"p")] /\
  f_containers (t_feed (rows out.2)) !! ($"d1", $"p") = f_containers (t_feed (rows demo_before)) !! ($"d1", $"p").
Proof.
  intros out. assert (Eo : out.1 = Ok tt) by (vm_compute; reflexivity). split; [exact Eo|]. split; [apply (bool_decide_unpack _); vm_compute; exact I|].
  destruct (status_end_to_end (D := ListDatabase) (demo_call 2 "k") ($"d1") ($"old") (demo_groups (Some ($"timeout")) [] [demo_entry "new" "web"]) [] [] demo_before (Ok tt) out.2) as [[[Hno _]|(d & _ & _ & _ & Hkeep)] _].
  - repeat constructor.
  - rewrite <-Eo. apply surjective_pairing.
  - exfalso. apply Hno. exists ($"docker"). apply (bool_decide_unpack _). vm_compute. exact I.
  - match goal with |- _ = ?before => destruct before as [row|] eqn:E end; [|vm_compute in E; discriminate E].
    rewrite (Hkeep ($"p") row); [|intros (rt & e & (g & Hg & Ha & _ & He & _) & Hp)|exact E].
    + assert (Hr : dc_Runtime row = $"podman") by (vm_compute in E; injection E as <-; reflexivity). rewrite Hr. vm_compute. reflexivity.
    + apply elem_of_cons in Hg as [->|Hg%list_elem_of_singleton]; [discriminate Ha|]. subst g. apply list_elem_of_singleton in He. subst e. vm_compute in Hp. discriminate Hp.
Defined.
