(* ===== verification/DaemonTerminal.v ===== *)
(** * DaemonTerminal: who gets a shell on the host, and which

    [internal/daemon/terminal.go], [terminal_ws.go], [terminal_relay.go] and
    [terminal_tmux.go] up to the start of a session: the gates of the socket, of the
    cloud relay and of the session routes, the request with its defaults and allowlists,
    and the command that is started. What the host has, whether the handshake is taken
    and how the start ends are arguments; [DaemonSession] is what follows the start. *)

From S2P Require Import Prelude GoStr Regex GoPath GoNet Base64 Config ConfigFacts Executor TerminalPair.
Open Scope Z_scope.

(** ** Peers

    [net.SplitHostPort], of which only the host is used, and the networks of the
    package net, on the 16 bytes of an address. *)
Definition SplitHost (hostport : str) : option str :=
  match cut_last (ch ":") hostport with
  | None => None
  | Some (before, _) =>
      match hostport with
      | c :: rest =>
          if bool_decide (c = ch "[") then
            match cut (ch "]") rest with
            | None => None
            | Some (host, after) =>
                (* the closing bracket is followed by the last colon *)
                if negb (bool_decide (before = c :: host ++ [ch "]"])) then None
                else if has_byte (ch "[") rest || has_byte (ch "]") after then None else Some host
            end
          else if has_byte (ch ":") before || has_byte (ch "[") hostport || has_byte (ch "]") hostport then None else Some before
      | [] => None
      end
  end.
Fixpoint trim_brackets_left (s : str) : str :=
  match s with c :: r => if bool_decide (c ∈ [ch "["; ch "]"]) then trim_brackets_left r else s | [] => [] end.
Definition trim_brackets (s : str) : str := rev (trim_brackets_left (rev (trim_brackets_left s))).
Definition byte_at (ip : ip16) (n : nat) : Z := nth n ip 0.
Definition IsLoopback (ip : ip16) : bool := if is4 ip then byte_at ip 12 =? 127 else bool_decide (ip = replicate 15 0 ++ [1]).
Definition IsPrivate (ip : ip16) : bool :=
  if is4 ip then
    (byte_at ip 12 =? 10) || ((byte_at ip 12 =? 172) && (Z.land (byte_at ip 13) 240 =? 16)) || ((byte_at ip 12 =? 192) && (byte_at ip 13 =? 168))
  else Z.land (byte_at ip 0) 254 =? 252.
Definition IsLinkLocalUnicast (ip : ip16) : bool :=
  if is4 ip then (byte_at ip 12 =? 169) && (byte_at ip 13 =? 254) else (byte_at ip 0 =? 254) && (Z.land (byte_at ip 1) 192 =? 128).
Definition terminalCGNAT (ip : ip16) : bool := is4 ip && (byte_at ip 12 =? 100) && (Z.land (byte_at ip 13) 192 =? 64).
Definition terminalRemoteAllowed (policy : TerminalConfig) (remoteAddr : str) : bool :=
  if term_AllowRemote policy then true
  else
    let host := default remoteAddr (SplitHost remoteAddr) in
    match ParseIP (trim_brackets host) with
    | None => false
    | Some ip => IsLoopback ip || IsPrivate ip || IsLinkLocalUnicast ip || terminalCGNAT ip
    end.

(** ** Requests *)

Definition terminalDefaultCols : Z := 80.
Definition terminalDefaultRows : Z := 24.
Definition terminalMinCols : Z := 1.
Definition terminalMaxCols : Z := 1000.
Definition terminalMinRows : Z := 1.
Definition terminalMaxRows : Z := 500.
Definition terminalTmuxName : regex :=
  RCat (cls [rng "A" "Z"; rng "a" "z"; rng "0" "9"]) (upto (cls [rng "A" "Z"; rng "a" "z"; rng "0" "9"; one "_.-"]) 39).
Record terminalRequest := mkTermRequest { tq_Shell : str; tq_User : str; tq_Cols : Z; tq_Rows : Z; tq_Tmux : str }.
Definition errTerminalShellNotAllowed : error := Errorf "terminal shell not allowed" [].
Definition errTerminalUserNotAllowed : error := Errorf "terminal user not allowed" [].
Definition errTerminalTooMany : error := Errorf "too many terminal sessions" [].
Definition errTerminalTmuxInvalid : error := Errorf "terminal tmux name is invalid" [].
Definition errTerminalTmuxUnavailable : error := Errorf "tmux is not installed on this host" [].
Definition Resolve (policy : TerminalConfig) (req : terminalRequest) : res terminalRequest :=
  let shell := if bool_decide (tq_Shell req = []) then default [] (head (term_Shells policy)) else tq_Shell req in
  if negb (bool_decide (shell ∈ term_Shells policy)) then Err errTerminalShellNotAllowed
  else if negb (bool_decide (tq_User req = [])) && negb (bool_decide (tq_User req ∈ term_Users policy)) then Err errTerminalUserNotAllowed
  else if negb (bool_decide (tq_Tmux req = [])) && negb (matches terminalTmuxName (tq_Tmux req)) then Err errTerminalTmuxInvalid
  else Ok (mkTermRequest shell (tq_User req) (if tq_Cols req =? 0 then terminalDefaultCols else tq_Cols req) (if tq_Rows req =? 0 then terminalDefaultRows else tq_Rows req) (tq_Tmux req)).
Definition terminalSessionCap (policy : TerminalConfig) : Z := if term_MaxSessions policy <=? 0 then TerminalDefaultMaxSessions else term_MaxSessions policy.
Definition terminalQueryDimension (raw : str) (min max : Z) : option Z :=
  let value := TrimSpace raw in
  if bool_decide (value = []) then Some 0
  else match Atoi value with Some n => if (n <? min) || (max <? n) then None else Some n | None => None end.
(** The query of a handshake, each value as it is sent. *)
Record terminal_query := mkTermQuery { qy_shell : str; qy_user : str; qy_tmux : str; qy_cols : str; qy_rows : str }.
Definition terminalQueryRequest (q : terminal_query) : option terminalRequest :=
  cols ← terminalQueryDimension (qy_cols q) terminalMinCols terminalMaxCols;
  rows ← terminalQueryDimension (qy_rows q) terminalMinRows terminalMaxRows;
  Some (mkTermRequest (TrimSpace (qy_shell q)) (TrimSpace (qy_user q)) cols rows (TrimSpace (qy_tmux q))).

(** ** The command *)

Class TerminalHost := {
  terminalSupported : bool;
  LookPath_tmux : option str;
  UserHomeDir : str;
  account_home : str -> option str;
}.
(** The environment is added to the daemon's own, or passed through sudo. *)
Record terminal_command := mkTermCommand { tm_argv : list str; tm_Dir : str; tm_Env : list str }.
Definition buildTerminalCommand `{TerminalHost} (policy : TerminalConfig) (req : terminalRequest) : res terminal_command :=
  let cwd :=
    if bool_decide (term_Cwd policy = []) then (if bool_decide (tq_User req = []) then UserHomeDir else default [] (account_home (tq_User req)))
    else term_Cwd policy in
  let cwd := if bool_decide (cwd = []) then $"/" else cwd in
  let env := $"TERM=xterm-256color" :: term_Env policy in
  let? argv :=
    (if bool_decide (tq_Tmux req = []) then Ok [tq_Shell req; $"-l"]
     else
       match LookPath_tmux with
       | None => Err errTerminalTmuxUnavailable
       | Some bin => Ok ([bin; $"-CC"; $"new-session"; $"-A"; $"-s"; tq_Tmux req] ++ if bool_decide (term_Cwd policy = []) then [] else [$"-c"; term_Cwd policy])
       end) in
  if bool_decide (tq_User req = []) then Ok (mkTermCommand argv cwd env)
  else Ok (mkTermCommand ([$"sudo"; $"-H"; $"-u"; tq_User req] ++ env ++ argv) cwd []).
(** [start] runs a command on a pty of the request's size. *)
Abbreviation starter := (terminal_command -> Z -> Z -> res unit).
Definition Open_ `{TerminalHost} (start : starter) (policy : TerminalConfig) (req : terminalRequest) (count : Z) : res terminal_command :=
  if terminalSessionCap policy <=? count then Err errTerminalTooMany
  else
    let? cmd := buildTerminalCommand policy req in
    let? _ := start cmd (tq_Cols req) (tq_Rows req) in
    Ok cmd.

(** ** The socket *)

Definition terminalSubprotocolSecret (header : str) : option str :=
  match offered_token header with
  | None => None
  | Some token => let raw := TrimPrefix token terminalSubprotocolPrefix in if bool_decide (raw = []) then None else RawURL_Decode raw
  end.
Definition offeredSubprotocols (header : str) : list str := match offered_token header with Some token => [token] | None => [] end.
Record handshake := mkHandshake { hs_RemoteAddr : str; hs_Authorization : str; hs_Subprotocols : str; hs_query : terminal_query }.
Definition terminalCredential (h : handshake) : option str :=
  match terminalSubprotocolSecret (hs_Subprotocols h) with
  | Some secret => Some secret
  | None => let '(secret, ok) := bearerSecret (hs_Authorization h) in if ok then Some secret else None
  end.
Definition terminalExpectedSecret (policy : TerminalConfig) (metricsSecret : str) : str := if bool_decide (term_Secret policy = []) then metricsSecret else term_Secret policy.
(** What becomes of an attempt: refused with a status, before or after the handshake; a
    start that fails, which is audited; a shell. *)
Inductive terminal_outcome := Refused (status : Z) | Dropped | StartFailed (e : error) | Started (req : terminalRequest) (cmd : terminal_command).
Definition resolve_status (e : error) : Z :=
  match e with
  | Errorf f _ => if bool_decide (f = "terminal shell not allowed"%string) || bool_decide (f = "terminal user not allowed"%string) then 403 else 400
  | _ => 400
  end.
(** [accept] is the subprotocol a taken handshake negotiated, given those offered; the
    sessions are counted before it and again, under the lock, when the shell starts. *)
Definition handleTerminal `{TerminalHost} (accept : list str -> option str) (start : starter) (policy : TerminalConfig) (metricsSecret : str) (h : handshake) (count count' : Z) : terminal_outcome :=
  if negb (term_Enabled policy) then Refused 403
  else if negb terminalSupported then Refused 501
  else if negb (terminalRemoteAllowed policy (hs_RemoteAddr h)) then Refused 403
  else
    let expected := terminalExpectedSecret policy metricsSecret in
    if bool_decide (terminalCredential h = None) || bool_decide (expected = []) || negb (bool_decide (terminalCredential h = Some expected)) then Refused 401
    else
      match terminalQueryRequest (hs_query h) with
      | None => Refused 400
      | Some request =>
          match Resolve policy request with
          | Err e => Refused (resolve_status e)
          | Ok request =>
              if negb (bool_decide (tq_Tmux request = [])) && negb (is_Some_b LookPath_tmux) then Refused 501
              else if terminalSessionCap policy <=? count then Refused 429
              else
                match accept (offeredSubprotocols (hs_Subprotocols h)) with
                | None => Dropped
                | Some negotiated =>
                    if is_Some_b (terminalSubprotocolSecret (hs_Subprotocols h)) && bool_decide (negotiated = []) then Dropped
                    else match Open_ start policy request count' with Err e => StartFailed e | Ok cmd => Started request cmd end
                end
          end
      end.

(** ** The relay *)

Record terminalRelaySession := mkRelaySession { rs_ID : str; rs_request : terminalRequest; rs_InvokedBy : str }.
Definition StatusPolicyViolation : Z := 1008.
Definition terminalRelayIdentityAllowed (policy : TerminalConfig) (identity : str) : bool :=
  bool_decide (relay_Users (term_Relay policy) = []) || bool_decide (identity ∈ relay_Users (term_Relay policy)).
Definition terminalRelayPollWait (policy : TerminalConfig) : Z := if relay_PollWait (term_Relay policy) <=? 0 then TerminalRelayDefaultPollWait else relay_PollWait (term_Relay policy).
(** [dialled] is whether the agent socket could be reached. *)
Definition serve `{TerminalHost} (dialled : bool) (start : starter) (policy : TerminalConfig) (handed : terminalRelaySession) (count count' : Z) : terminal_outcome :=
  if negb dialled then Dropped
  else if negb (relay_Enabled (term_Relay policy)) then Refused StatusPolicyViolation
  else if negb (terminalRelayIdentityAllowed policy (rs_InvokedBy handed)) then Refused StatusPolicyViolation
  else
    match Resolve policy (rs_request handed) with
    | Err _ => Refused StatusPolicyViolation
    | Ok request =>
        if terminalSessionCap policy <=? count then Refused StatusPolicyViolation
        else match Open_ start policy request count' with Err e => StartFailed e | Ok cmd => Started request cmd end
    end.

(** ** The tmux routes *)

Record tmuxSessionView := mkTmuxView { tx_Name : str; tx_Windows : Z; tx_Created : Z; tx_Attached : Z }.
Fixpoint trim_cr (s : str) : str :=
  match s with [] => [] | c :: r => match trim_cr r with [] => if bool_decide (c = byte 13) then [] else [c] | r => c :: r end end.
Definition parse_tmux_row (line : str) : option tmuxSessionView :=
  let line := trim_cr line in
  if bool_decide (TrimSpace line = []) then None
  else
    match split_on (byte 9) line with
    | name :: windows :: created :: attached :: _ =>
        windows ← Atoi (TrimSpace windows); created ← Atoi (TrimSpace created); attached ← Atoi (TrimSpace attached);
        Some (mkTmuxView name windows created attached)
    | _ => None
    end.
Definition parseTmuxSessions (output : str) : list tmuxSessionView := omap parse_tmux_row (split_on newline output).
Definition tmuxListFormat : str := $"#{session_name}" ++ byte 9 :: $"#{session_windows}" ++ byte 9 :: $"#{session_created}" ++ byte 9 :: $"#{session_attached}".
Definition tmuxCommand `{TerminalHost} (user : str) (args : list str) : option (list str) :=
  match LookPath_tmux with
  | None => None
  | Some bin => Some ((if bool_decide (user = []) then [] else [$"sudo"; $"-H"; $"-u"; user]) ++ bin :: args)
  end.
Definition terminalUserAllowed (policy : TerminalConfig) (user : str) : bool := bool_decide (user ∈ term_Users policy).
Definition authorizeTerminalHTTP (policy : TerminalConfig) (metricsSecret authorization : str) : bool :=
  let '(secret, ok) := bearerSecret authorization in
  let expected := terminalExpectedSecret policy metricsSecret in
  ok && negb (bool_decide (expected = [])) && bool_decide (secret = expected).
(** The status of a refusal, or the user. *)
Definition terminalSessionsGate `{TerminalHost} (policy : TerminalConfig) (metricsSecret authorization user : str) : str + Z :=
  let user := TrimSpace user in
  if negb (authorizeTerminalHTTP policy metricsSecret authorization) then inr 401
  else if negb (term_Enabled policy) then inr 403
  else if negb terminalSupported then inr 501
  else if negb (bool_decide (user = [])) && negb (terminalUserAllowed policy user) then inr 403
  else inl user.
(** What the host answers to a command: its exit code, standard output and error. *)
Abbreviation tmux_runner := (list str -> Z * str * str).
Definition listTmuxSessions `{TerminalHost, Unicode} (run : tmux_runner) (user : str) : option (res (list tmuxSessionView)) :=
  match tmuxCommand user [$"list-sessions"; $"-F"; tmuxListFormat] with
  | None => None
  | Some argv =>
      let '((code, out), err) := run argv in
      Some (if code =? 0 then Ok (parseTmuxSessions out)
            else if (code =? 1) && Contains (ToLower err) ($"no server running") then Ok []
            else Err (Errorf "list tmux sessions: %s" [FStr (TrimSpace err)]))
  end.
Definition handleTerminalSessions `{TerminalHost, Unicode} (run : tmux_runner) (policy : TerminalConfig) (metricsSecret authorization user : str) : list tmuxSessionView + Z :=
  match terminalSessionsGate policy metricsSecret authorization user with
  | inr status => inr status
  | inl user => match listTmuxSessions run user with None => inr 501 | Some (Ok l) => inl l | Some (Err _) => inr 500 end
  end.
(** The status, and the commands that were run. *)
Definition handleTerminalSessionKill `{TerminalHost} (run : tmux_runner) (policy : TerminalConfig) (metricsSecret authorization user name : str) : Z * list (list str) :=
  match terminalSessionsGate policy metricsSecret authorization user with
  | inr status => (status, [])
  | inl user =>
      let name := TrimSpace name in
      if negb (matches terminalTmuxName name) then (400, [])
      else
        match tmuxCommand user [$"has-session"; $"-t"; ch "=" :: name], tmuxCommand user [$"kill-session"; $"-t"; name] with
        | Some has, Some kill =>
            if negb ((run has).1.1 =? 0) then (404, [has]) else if (run kill).1.1 =? 0 then (200, [has; kill]) else (500, [has; kill])
        | _, _ => (501, [])
        end
  end.

(** ** Networks *)

Lemma small_bytes (P : Z -> bool) : forallb P (Z.of_nat <$> seq 0 256) = true -> forall b, 0 <= b < 256 -> P b = true.
Proof.
  intros Hf b Hb. rewrite forallb_forall in Hf. apply Hf, list_elem_of_In, list_elem_of_fmap. exists (Z.to_nat b). split; [lia|]. apply elem_of_seq. lia.
Qed.
(** The peers that need no leave: this host, private networks, the link, and a tailnet. *)
Definition nearby_v4 (a b : Z) : Prop := a = 127 \/ a = 10 \/ (a = 172 /\ 16 <= b <= 31) \/ (a = 192 /\ b = 168) \/ (a = 169 /\ b = 254) \/ (a = 100 /\ 64 <= b <= 127).
Lemma nearby_v4_spec a b c d : 0 <= a < 256 -> 0 <= b < 256 -> let ip := v4_prefix ++ [a; b; c; d] in
  IsLoopback ip || IsPrivate ip || IsLinkLocalUnicast ip || terminalCGNAT ip = true <-> nearby_v4 a b.
Proof.
  intros Ha Hb ip. assert (H4 : is4 ip = true) by by apply bool_decide_true.
  assert (H16 : (Z.land b 240 =? 16) = (16 <=? b) && (b <=? 31)) by (apply Bool.eqb_prop; by apply (small_bytes (fun b => Bool.eqb (Z.land b 240 =? 16) ((16 <=? b) && (b <=? 31))) eq_refl)).
  assert (H64 : (Z.land b 192 =? 64) = (64 <=? b) && (b <=? 127)) by (apply Bool.eqb_prop; by apply (small_bytes (fun b => Bool.eqb (Z.land b 192 =? 64) ((64 <=? b) && (b <=? 127))) eq_refl)).
  unfold IsLoopback, IsPrivate, IsLinkLocalUnicast, terminalCGNAT. rewrite H4. change (byte_at ip 12) with a. change (byte_at ip 13) with b. rewrite H16, H64. unfold nearby_v4.
  rewrite !orb_true_iff, !andb_true_iff, !Z.eqb_eq, !Z.leb_le. tauto.
Qed.
(** A peer of the link is written with its zone, which the parser refuses. *)
Example link_local_refused policy : term_AllowRemote policy = false -> terminalRemoteAllowed policy ($"[fe80::1%eth0]:4242") = false /\ terminalRemoteAllowed policy ($"[fe80::1]:4242") = true.
Proof. intros Hp. unfold terminalRemoteAllowed. rewrite Hp. split; vm_compute; reflexivity. Qed.

(** ** What is started *)

Definition program (policy : TerminalConfig) (req : terminalRequest) (tmux : option str) : list str :=
  match tmux with
  | None => [tq_Shell req; $"-l"]
  | Some bin => [bin; $"-CC"; $"new-session"; $"-A"; $"-s"; tq_Tmux req] ++ if bool_decide (term_Cwd policy = []) then [] else [$"-c"; term_Cwd policy]
  end.
(** A shell the policy grants, as an account it grants, or a tmux session of a plain name;
    nothing else of the request is part of the command. *)
Record granted `{TerminalHost} (policy : TerminalConfig) (req : terminalRequest) (cmd : terminal_command) : Prop := {
  gr_shell : tq_Shell req ∈ term_Shells policy;
  gr_user : tq_User req = [] \/ tq_User req ∈ term_Users policy;
  gr_tmux : tq_Tmux req = [] \/ is_Some LookPath_tmux /\ Forall (fun c => c ∉ $" :=$'\;&|") (tq_Tmux req) /\ HasPrefix (tq_Tmux req) ($"-") = false /\ HasPrefix (tq_Tmux req) ($".") = false;
  gr_argv : let prog := program policy req (if bool_decide (tq_Tmux req = []) then None else LookPath_tmux) in
    tm_argv cmd = if bool_decide (tq_User req = []) then prog else [$"sudo"; $"-H"; $"-u"; tq_User req; $"TERM=xterm-256color"] ++ term_Env policy ++ prog;
  gr_dir : tm_Dir cmd <> [] /\ (term_Cwd policy <> [] -> tm_Dir cmd = term_Cwd policy);
}.
Lemma tmux_name_safe name : matches terminalTmuxName name = true ->
  Forall (fun c => c ∉ $" :=$'\;&|") name /\ HasPrefix name ($"-") = false /\ HasPrefix name ($".") = false.
Proof.
  intros Hm. split.
  - eapply Forall_impl; [apply (matches_all (fun c => negb (has_byte c ($" :=$'\;&|"))) terminalTmuxName name); [vm_compute; reflexivity|exact Hm]|].
    intros c Hc%negb_true_iff%has_byte_false. exact Hc.
  - split; apply not_true_iff_false; intros (r & ->)%HasPrefix_spec; cbn in Hm;
      apply (matches_first (fun c => negb (bool_decide (c = ch "-")) && negb (bool_decide (c = ch "."))) terminalTmuxName) in Hm; try (vm_compute; reflexivity); vm_compute in Hm; discriminate Hm.
Qed.
Lemma Resolve_ok policy req req' : Resolve policy req = Ok req' ->
  tq_Shell req' ∈ term_Shells policy /\ (tq_User req' = [] \/ tq_User req' ∈ term_Users policy) /\ (tq_Tmux req' = [] \/ matches terminalTmuxName (tq_Tmux req') = true) /\
  tq_Cols req' = (if tq_Cols req =? 0 then terminalDefaultCols else tq_Cols req) /\ tq_Rows req' = (if tq_Rows req =? 0 then terminalDefaultRows else tq_Rows req).
Proof.
  unfold Resolve. intros Hr. cbv zeta in Hr. destruct (negb (bool_decide (_ ∈ term_Shells policy))) eqn:E1; [done|]. destruct (negb (bool_decide (tq_User req = [])) && _) eqn:E2; [done|].
  destruct (negb (bool_decide (tq_Tmux req = [])) && _) eqn:E3; [done|]. injection Hr as <-. cbn. apply negb_false_iff, bool_decide_eq_true in E1.
  apply andb_false_iff in E2. apply andb_false_iff in E3. rewrite !negb_false_iff, !bool_decide_eq_true in E2. rewrite !negb_false_iff, bool_decide_eq_true in E3. by split_and!.
Qed.
Lemma slash_or (c : str) : (if bool_decide (c = []) then $"/" else c) <> [].
Proof. destruct (decide (c = [])); [by rewrite bool_decide_true|by rewrite bool_decide_false]. Qed.
Section terminal.
Context `{TerminalHost}.
Lemma Open_granted start policy req req' count cmd : Resolve policy req = Ok req' -> Open_ start policy req' count = Ok cmd ->
  granted policy req' cmd /\ count < terminalSessionCap policy.
Proof.
  intros (R1 & R2 & R3 & _)%Resolve_ok Ho. unfold Open_ in Ho. destruct (Z.leb_spec (terminalSessionCap policy) count); [done|]. split; [|done].
  apply res_bind_ok in Ho as (cmd' & Hb & Ho). apply res_bind_ok in Ho as (u & _ & [= <-]). unfold buildTerminalCommand in Hb. cbv zeta in Hb. apply res_bind_ok in Hb as (argv & Ha & Hb).
  assert (Hp : argv = program policy req' (if bool_decide (tq_Tmux req' = []) then None else LookPath_tmux) /\ (tq_Tmux req' = [] \/ is_Some LookPath_tmux)).
  { destruct (decide (tq_Tmux req' = [])) as [Hz|Hz]; [rewrite bool_decide_true in * by done; injection Ha as <-; split; [done|by left]|]. rewrite bool_decide_false in * by done. destruct LookPath_tmux as [bin|]; [|done]. injection Ha as <-. split; [done|]. right. by eexists. }
  destruct Hp as [-> Ht]. split; [done|done| | |].
  - destruct Ht as [?|Ht]; [by left|]. destruct R3 as [?|Hm]; [by left|]. right. destruct (tmux_name_safe _ Hm) as (? & ? & ?). by split_and!.
  - destruct (decide (tq_User req' = [])) as [E|E]; rewrite ?(bool_decide_true (tq_User req' = [])), ?(bool_decide_false (tq_User req' = [])) in * by done; injection Hb as <-; done.
  - destruct (bool_decide (tq_User req' = [])); injection Hb as <-; cbn [tm_Dir]; (split; [apply slash_or|intros Hc; by rewrite !(bool_decide_false (term_Cwd policy = []))]).
Qed.
Lemma dimension_range raw min max n : terminalQueryDimension raw min max = Some n -> n = 0 \/ min <= n <= max.
Proof.
  unfold terminalQueryDimension. case_bool_decide; [intros [= <-]; by left|]. destruct (Atoi _) as [v|]; [|done]. destruct (Z.ltb_spec v min), (Z.ltb_spec max v); try done. intros [= <-]. right. lia.
Qed.
(** C16. Who gets a shell. Over the socket: a peer the policy lets in, near or with leave,
    that shows the secret of the terminal, or of the daemon when there is none, which is
    never empty; through the relay: an identity the policy accepts, while it is on. And
    then below the limit of sessions, as counted when the shell starts, and only a
    configured shell or a tmux session, as the daemon or a configured account: of the
    request nothing but the name of the session and the size gets into what runs, and
    the name can be no option. A tmux session is ended, too, only for the secret. *)
Theorem shell_authorised accept start policy metricsSecret h count count' dialled handed run authorization user name :
  let expected := terminalExpectedSecret policy metricsSecret in
  (forall req cmd, handleTerminal accept start policy metricsSecret h count count' = Started req cmd ->
     term_Enabled policy = true /\
     (term_AllowRemote policy = true \/ exists ip, ParseIP (trim_brackets (default (hs_RemoteAddr h) (SplitHost (hs_RemoteAddr h)))) = Some ip /\
        IsLoopback ip || IsPrivate ip || IsLinkLocalUnicast ip || terminalCGNAT ip = true) /\
     terminalCredential h = Some expected /\ expected <> [] /\ granted policy req cmd /\ count' < terminalSessionCap policy /\
     1 <= tq_Cols req <= 1000 /\ 1 <= tq_Rows req <= 500 /\ start cmd (tq_Cols req) (tq_Rows req) = Ok tt) /\
  (forall req cmd, serve dialled start policy handed count count' = Started req cmd ->
     relay_Enabled (term_Relay policy) = true /\ (relay_Users (term_Relay policy) = [] \/ rs_InvokedBy handed ∈ relay_Users (term_Relay policy)) /\
     granted policy req cmd /\ count' < terminalSessionCap policy) /\
  (let '(status, commands) := handleTerminalSessionKill run policy metricsSecret authorization user name in
   commands <> [] -> bearerSecret authorization = (expected, true) /\ expected <> [] /\ term_Enabled policy = true /\ (TrimSpace user = [] \/ TrimSpace user ∈ term_Users policy) /\
     matches terminalTmuxName (TrimSpace name) = true).
Proof.
  intros expected. split_and!.
  - intros req cmd Hh. unfold handleTerminal in Hh. fold expected in Hh. destruct (term_Enabled policy); [cbn [negb] in Hh|done]. destruct terminalSupported; [cbn [negb] in Hh|done].
    destruct (terminalRemoteAllowed policy (hs_RemoteAddr h)) eqn:Er; [cbn [negb] in Hh|done]. destruct (_ || _ || _) eqn:Ec; [done|]. apply orb_false_iff in Ec as [Ec Ec3]. apply orb_false_iff in Ec as [_ Ec2%bool_decide_eq_false].
    apply negb_false_iff, bool_decide_eq_true in Ec3. destruct (terminalQueryRequest (hs_query h)) as [q|] eqn:Eq; [|done]. destruct (Resolve policy q) as [request|] eqn:Ers; [|done].
    destruct (_ && _); [done|]. destruct (_ <=? count); [done|]. destruct (accept _) as [negotiated|]; [|done]. destruct (_ && _); [done|].
    destruct (Open_ start policy request count') as [cmd'|] eqn:Eo; [|done]. injection Hh as <- <-. pose proof (Open_granted _ _ _ _ _ _ Ers Eo) as [Hg Hc].
    pose proof (Resolve_ok _ _ _ Ers) as (_ & _ & _ & Hcols & Hrows). unfold terminalQueryRequest in Eq. destruct (terminalQueryDimension (qy_cols _) _ _) as [cols|] eqn:E1; [|done].
    cbn in Eq. destruct (terminalQueryDimension (qy_rows _) _ _) as [rows|] eqn:E2; [|done]. injection Eq as <-. cbn in Hcols, Hrows. apply dimension_range in E1, E2.
    unfold terminalMinCols, terminalMaxCols, terminalMinRows, terminalMaxRows in *.
    assert (Hd : 1 <= tq_Cols request <= 1000 /\ 1 <= tq_Rows request <= 500).
    { rewrite Hcols, Hrows. unfold terminalDefaultCols, terminalDefaultRows. destruct (Z.eqb_spec cols 0), (Z.eqb_spec rows 0); lia. }
    split_and!; try done; try apply Hd.
    + unfold terminalRemoteAllowed in Er. destruct (term_AllowRemote policy); [by left|right]. destruct (ParseIP _) as [ip|]; [|done]. by exists ip.
    + unfold Open_ in Eo. destruct (_ <=? _); [done|]. apply res_bind_ok in Eo as (c & _ & Eo). apply res_bind_ok in Eo as ([] & Hs & [= <-]). done.
  - intros req cmd Hs. unfold serve in Hs. destruct dialled; [cbn [negb] in Hs|done]. destruct (relay_Enabled _); [cbn [negb] in Hs|done]. destruct (terminalRelayIdentityAllowed _ _) eqn:Ei; [cbn [negb] in Hs|done].
    destruct (Resolve policy (rs_request handed)) as [request|] eqn:Ers; [|done]. destruct (_ <=? count); [done|]. destruct (Open_ start policy request count') as [cmd'|] eqn:Eo; [|done]. injection Hs as <- <-.
    pose proof (Open_granted _ _ _ _ _ _ Ers Eo) as [Hg Hc]. split_and!; try done. unfold terminalRelayIdentityAllowed in Ei. by apply orb_true_iff in Ei as [?%bool_decide_eq_true|?%bool_decide_eq_true]; [left|right].
  - unfold handleTerminalSessionKill, terminalSessionsGate, authorizeTerminalHTTP. destruct (bearerSecret authorization) as [secret ok]. fold expected.
    destruct ok; [|done]. destruct (bool_decide (expected = [])) eqn:E1; [done|]. destruct (bool_decide (secret = expected)) eqn:E2; [|done]. apply bool_decide_eq_false in E1. apply bool_decide_eq_true in E2 as ->. cbn [andb negb].
    destruct (term_Enabled policy); [cbn [negb]|done]. destruct terminalSupported; [cbn [negb]|done].
    destruct (negb (bool_decide (TrimSpace user = [])) && _) eqn:Eu; [done|]. apply andb_false_iff in Eu. rewrite !negb_false_iff, bool_decide_eq_true in Eu. unfold terminalUserAllowed in Eu. rewrite bool_decide_eq_true in Eu.
    destruct (matches terminalTmuxName (TrimSpace name)); [cbn [negb]|done]. destruct (tmuxCommand _ _) as [has|]; [|done]. destruct (tmuxCommand _ _) as [kill|]; [|done]. destruct (negb _); [done|]. by destruct ((run kill).1.1 =? 0).
Qed.
End terminal.

(** ** A handshake from a tailnet *)

#[local] Instance demo_terminal_host : TerminalHost := {| terminalSupported := true; LookPath_tmux := Some ($"/usr/bin/tmux"); UserHomeDir := []; account_home _ := None |}.
Definition demo_policy : TerminalConfig :=
  mkTerminalConfig true ($"s3cret") [$"/bin/bash"] [$"ops"] [] [] [] false 0 0 0 (mkTerminalRelayConfig false [] 0).
Definition demo_handshake : handshake :=
  mkHandshake ($"100.100.1.2:4000") ($"bearer s3cret") [] (mkTermQuery [] ($"ops") ($"work") [] ($"40")).
Definition demo_command : terminal_command :=
  mkTermCommand [$"sudo"; $"-H"; $"-u"; $"ops"; $"TERM=xterm-256color"; $"/usr/bin/tmux"; $"-CC"; $"new-session"; $"-A"; $"-s"; $"work"] ($"/") [].
Lemma shell_authorised_witness :
  let out := handleTerminal (fun _ => Some []) (fun _ _ _ => Ok tt) demo_policy ($"m") demo_handshake 0 1 in
  out = Started (mkTermRequest ($"/bin/bash") ($"ops") 80 40 ($"work")) demo_command /\ granted demo_policy (mkTermRequest ($"/bin/bash") ($"ops") 80 40 ($"work")) demo_command.
Proof.
  intros out. assert (E : out = Started (mkTermRequest ($"/bin/bash") ($"ops") 80 40 ($"work")) demo_command) by (vm_compute; reflexivity). split; [exact E|].
  destruct (shell_authorised (fun _ => Some []) (fun _ _ _ => Ok tt) demo_policy ($"m") demo_handshake 0 1 false (mkRelaySession [] (mkTermRequest [] [] 0 0 []) []) (fun _ => (0, [], [])) [] [] []) as (Hd & _).
  exact (proj1 (proj2 (proj2 (proj2 (proj2 (Hd _ _ E)))))).
Defined.
