(* ===== verification/DaemonSession.v ===== *)
(** * DaemonSession: a shell, its output and its end

    A live session of [internal/daemon/terminal.go] and [terminal_ws.go]: the shell and
    its pty, the goroutine that reads the pty, the one that reaps the shell, the pump and
    the read loop of the socket, a shutdown of the daemon, and the one call of Close that
    wins. One label is one step of one of them, between two points where they touch what
    they share; every interleaving is a list of labels. Timers may fire at any time. *)

From S2P Require Import Prelude GoStr.
Open Scope Z_scope.

(** ** The state *)

Definition terminalOutputQueue : nat := 64.
Definition terminalReasonIdle : str := $"idle timeout".
Definition terminalReasonLifetime : str := $"lifetime exceeded".
Definition terminalReasonClient : str := $"client closed".
Definition terminalReasonUnreachable : str := $"client unreachable".
Definition terminalReasonShutdown : str := $"daemon shutdown".
Definition terminalReasonProtocol : str := $"protocol error".
(** The shell: running, exited with the code its wait will report, or reaped; whether a
    process still holds the other end of the pty; what was written and not yet read; and
    all that was ever written. *)
Inductive proc := Running | Exited (code : Z) | Reaped.
#[export] Instance proc_eq_dec : EqDecision proc.
Proof. solve_decision. Defined.
Record child := mkChild { ch_proc : proc; ch_writers : bool; ch_pty : list str; ch_written : list str }.
(** [readOutput]; when it has returned, whether it had read everything. *)
Inductive reader := Reading | Holding (chunk : str) | ReadDone (all : bool).
(** [reap]; [Draining] waits for the reader, or its grace. *)
Inductive reaper := Waiting | Draining (code : Z) | ReapDone.
(** The call of [closeSession] that wins, by who made it and how far it is. *)
Inductive caller := ByPump | ByLoop | ByManager.
#[export] Instance caller_eq_dec : EqDecision caller.
Proof. solve_decision. Defined.
Inductive close_phase := CCheck | CGrace | CKilled | CFinish | CPty | CLeave | CAudit.
Record close_state := mkClose { cl_closed : bool; cl_reason : str; cl_by : option (caller * close_phase) }.
Inductive frame := FHello | FOutput (chunk : str) | FError | FExit (code : Z) (reason : str).
(** [terminalPump]: before the priority test, at the select, writing, waiting for a close
    it called (and whether it then returns), draining, about to report the exit, and to hang up. *)
Inductive pump := PumpHello | PumpLoop | PumpSelect | PumpWriting (chunk : str) | PumpClosing (returns : bool) | PumpDrain | PumpDrainWriting (chunk : str) | PumpExit | PumpHangup | PumpDone.
(** [terminalReadLoop] and what follows it in [runTerminalSession]. *)
Inductive read_loop := LoopReading | LoopClosing | LoopEnded | LoopLast | LoopAwait | LoopReturned.
Inductive manager := ManagerIdle | ManagerHas | ManagerClosing | ManagerDone.
Record conn := mkConn { cn_frames : list frame; cn_up : bool; cn_cancelled : bool }.
(** Whether the manager lists the session, the audit entries, and the state of the shell
    at each signal sent to its process group. *)
Record books := mkBooks { bk_listed : bool; bk_audit : list (Z * str); bk_signals : list proc }.
(** [se_exit] is the exit code once Done is closed, and whether the reader was awaited. *)
Record sess := mkSess {
  se_child : child; se_open : bool; se_reader : reader; se_out : list str; se_reaper : reaper; se_exit : option (Z * bool);
  se_close : close_state; se_conn : conn; se_pump : pump; se_loop : read_loop; se_manager : manager; se_books : books;
}.
Definition started : sess :=
  mkSess (mkChild Running true [] []) true Reading [] Waiting None (mkClose false [] None) (mkConn [] true false) PumpHello LoopReading ManagerIdle (mkBooks true [] []).
Definition set_child c s := mkSess c (se_open s) (se_reader s) (se_out s) (se_reaper s) (se_exit s) (se_close s) (se_conn s) (se_pump s) (se_loop s) (se_manager s) (se_books s).
Definition set_open o s := mkSess (se_child s) o (se_reader s) (se_out s) (se_reaper s) (se_exit s) (se_close s) (se_conn s) (se_pump s) (se_loop s) (se_manager s) (se_books s).
Definition set_reader r s := mkSess (se_child s) (se_open s) r (se_out s) (se_reaper s) (se_exit s) (se_close s) (se_conn s) (se_pump s) (se_loop s) (se_manager s) (se_books s).
Definition set_out q s := mkSess (se_child s) (se_open s) (se_reader s) q (se_reaper s) (se_exit s) (se_close s) (se_conn s) (se_pump s) (se_loop s) (se_manager s) (se_books s).
Definition set_reaper r s := mkSess (se_child s) (se_open s) (se_reader s) (se_out s) r (se_exit s) (se_close s) (se_conn s) (se_pump s) (se_loop s) (se_manager s) (se_books s).
Definition set_exit e s := mkSess (se_child s) (se_open s) (se_reader s) (se_out s) (se_reaper s) e (se_close s) (se_conn s) (se_pump s) (se_loop s) (se_manager s) (se_books s).
Definition set_close c s := mkSess (se_child s) (se_open s) (se_reader s) (se_out s) (se_reaper s) (se_exit s) c (se_conn s) (se_pump s) (se_loop s) (se_manager s) (se_books s).
Definition set_conn c s := mkSess (se_child s) (se_open s) (se_reader s) (se_out s) (se_reaper s) (se_exit s) (se_close s) c (se_pump s) (se_loop s) (se_manager s) (se_books s).
Definition set_pump p s := mkSess (se_child s) (se_open s) (se_reader s) (se_out s) (se_reaper s) (se_exit s) (se_close s) (se_conn s) p (se_loop s) (se_manager s) (se_books s).
Definition set_loop l s := mkSess (se_child s) (se_open s) (se_reader s) (se_out s) (se_reaper s) (se_exit s) (se_close s) (se_conn s) (se_pump s) l (se_manager s) (se_books s).
Definition set_manager m s := mkSess (se_child s) (se_open s) (se_reader s) (se_out s) (se_reaper s) (se_exit s) (se_close s) (se_conn s) (se_pump s) (se_loop s) m (se_books s).
Definition set_books b s := mkSess (se_child s) (se_open s) (se_reader s) (se_out s) (se_reaper s) (se_exit s) (se_close s) (se_conn s) (se_pump s) (se_loop s) (se_manager s) b.

(** ** The shared operations *)

(** [finish]: the first code counts. *)
Definition finish (code : Z) (drained : bool) (s : sess) : sess := match se_exit s with Some _ => s | None => set_exit (Some (code, drained)) s end.
(** [Close]: the first caller wins and works through the phases; others return. *)
Definition Close (by_ : caller) (reason : str) (s : sess) : sess :=
  let c := se_close s in
  if cl_closed c then s else set_close (mkClose true (if bool_decide (cl_reason c = []) then reason else cl_reason c) (Some (by_, CCheck))) s.
Definition closing_by (by_ : caller) (s : sess) : bool := match cl_by (se_close s) with Some (b, _) => bool_decide (b = by_) | None => false end.
Definition phase (p : close_phase) (s : sess) : sess :=
  let c := se_close s in set_close (mkClose (cl_closed c) (cl_reason c) (match cl_by c with Some (b, _) => Some (b, p) | None => None end)) s.
Definition signal (s : sess) : sess := let b := se_books s in set_books (mkBooks (bk_listed b) (bk_audit b) (bk_signals b ++ [ch_proc (se_child s)])) s.
Definition exit_code (s : sess) : Z := match se_exit s with Some (code, _) => code | None => 0 end.
(** A step of the closer; a timeout ends a grace. *)
Definition closeSession (timeout : bool) (s : sess) : option sess :=
  match cl_by (se_close s) with
  | None => None
  | Some (by_, p) =>
      let done := is_Some_b (se_exit s) in
      match p with
      | CCheck => Some (if done then phase CFinish s else phase CGrace (signal s))
      | CGrace => if done then Some (phase CFinish s) else if timeout then Some (phase CKilled (signal s)) else None
      | CKilled => if done || timeout then Some (phase CFinish s) else None
      | CFinish => Some (phase CPty (finish (exit_code s) false s))
      | CPty => Some (phase CLeave (set_open false s))
      | CLeave => let b := se_books s in Some (phase CAudit (set_books (mkBooks false (bk_audit b) (bk_signals b)) s))
      | CAudit =>
          let b := se_books s in let c := se_close s in
          Some (set_close (mkClose (cl_closed c) (cl_reason c) None) (set_books (mkBooks (bk_listed b) (bk_audit b ++ [(exit_code s, cl_reason c)]) (bk_signals b)) s))
      end
  end.
(** A frame on the connection; a failed write takes it down. *)
Definition send_frame (ok : bool) (f : frame) (s : sess) : sess :=
  let c := se_conn s in
  if ok && cn_up c then set_conn (mkConn (cn_frames c ++ [f]) true (cn_cancelled c)) s else set_conn (mkConn (cn_frames c) false (cn_cancelled c)) s.
Definition hang_up (s : sess) : sess := let c := se_conn s in set_conn (mkConn (cn_frames c) false (cn_cancelled c)) s.
Definition cancel (s : sess) : sess := let c := se_conn s in set_conn (mkConn (cn_frames c) (cn_up c) true) s.
Definition pump_returns (s : sess) : sess := cancel (set_pump PumpDone s).

(** ** The steps *)

Inductive label :=
  | ShellWrites (chunk : str) | ShellExits (code : Z) | WritersGone
  | ReaderReads | ReaderPushes | ReaderDrops | ReaderEnds
  | Reaps | Drained | DrainGrace
  | PumpGreets (ok : bool) | PumpSeesDone | PumpSeesCancel | PumpGoesOn | PumpTakes | PumpSeesEnd | PumpWrites (ok : bool) | PumpPings (ok : bool) | PumpExpires (lifetime : bool)
  | PumpResumes | PumpDrains | PumpDrained | PumpReports (ok : bool) | PumpHangs
  | LoopInput (ok : bool) | LoopResize | LoopBad (ok : bool) | LoopEof | LoopStops | LoopCloses | LoopResumes | LoopReturns
  | ManagerLists | ManagerCloses | ManagerResumes
  | Cancelled | CloserSteps | CloserTimesOut.
Definition shell_step (l : label) (s : sess) : option sess :=
  let c := se_child s in
  match l with
  | ShellWrites chunk => if ch_writers c && se_open s then Some (set_child (mkChild (ch_proc c) true (ch_pty c ++ [chunk]) (ch_written c ++ [chunk])) s) else None
  | ShellExits code => match ch_proc c with Running => Some (set_child (mkChild (Exited code) (ch_writers c) (ch_pty c) (ch_written c)) s) | _ => None end
  | WritersGone => if bool_decide (ch_proc c = Running) then None else Some (set_child (mkChild (ch_proc c) false (ch_pty c) (ch_written c)) s)
  | _ => None
  end.
Definition readOutput (l : label) (s : sess) : option sess :=
  let c := se_child s in
  match l, se_reader s with
  | ReaderReads, Reading =>
      match ch_pty c with
      | chunk :: rest => if se_open s then Some (set_reader (Holding chunk) (set_child (mkChild (ch_proc c) (ch_writers c) rest (ch_written c)) s)) else None
      | [] => None
      end
  | ReaderPushes, Holding chunk => if (List.length (se_out s) <? terminalOutputQueue)%nat then Some (set_reader Reading (set_out (se_out s ++ [chunk]) s)) else None
  | ReaderDrops, Holding chunk => if cl_closed (se_close s) then Some (set_reader (ReadDone false) s) else None
  | ReaderEnds, Reading =>
      let all := bool_decide (ch_pty c = []) && negb (ch_writers c) in
      if negb (se_open s) || all then Some (set_reader (ReadDone all) s) else None
  | _, _ => None
  end.
Definition reap (l : label) (s : sess) : option sess :=
  let c := se_child s in
  match l, se_reaper s with
  | Reaps, Waiting => match ch_proc c with Exited code => Some (set_reaper (Draining code) (set_child (mkChild Reaped (ch_writers c) (ch_pty c) (ch_written c)) s)) | _ => None end
  | Drained, Draining code => match se_reader s with ReadDone _ => Some (set_reaper ReapDone (finish code true s)) | _ => None end
  | DrainGrace, Draining code => Some (set_reaper ReapDone (finish code false s))
  | _, _ => None
  end.
(** A failed write of the drain ends the pump without an exit frame. *)
Definition drainTerminalOutput (l : label) (s : sess) : option sess :=
  match se_pump s, l with
  | PumpDrain, PumpDrains => match se_out s with chunk :: rest => Some (set_pump (PumpDrainWriting chunk) (set_out rest s)) | [] => None end
  | PumpDrainWriting chunk, PumpWrites ok => if ok && cn_up (se_conn s) then Some (set_pump PumpDrain (send_frame true (FOutput chunk) s)) else Some (pump_returns (hang_up s))
  | PumpDrain, PumpDrained => match se_out s with [] => Some (set_pump PumpExit s) | _ => None end
  | _, _ => None
  end.
Definition terminalExit (l : label) (s : sess) : option sess :=
  match se_pump s, l with
  | PumpExit, PumpReports ok => Some (set_pump PumpHangup (send_frame ok (FExit (exit_code s) (cl_reason (se_close s))) s))
  | PumpHangup, PumpHangs => Some (pump_returns (hang_up s))
  | _, _ => drainTerminalOutput l s
  end.
Definition terminalPump (l : label) (s : sess) : option sess :=
  match se_pump s, l with
  | PumpHello, PumpGreets ok => Some (set_pump PumpLoop (send_frame ok FHello s))
  | PumpLoop, PumpSeesDone | PumpSelect, PumpSeesDone => if is_Some_b (se_exit s) then Some (set_pump PumpDrain s) else None
  | PumpLoop, PumpSeesCancel | PumpSelect, PumpSeesCancel => if cn_cancelled (se_conn s) then Some (pump_returns (hang_up s)) else None
  | PumpLoop, PumpGoesOn => if is_Some_b (se_exit s) || cn_cancelled (se_conn s) then None else Some (set_pump PumpSelect s)
  | PumpSelect, PumpTakes => match se_out s with chunk :: rest => Some (set_pump (PumpWriting chunk) (set_out rest s)) | [] => None end
  | PumpSelect, PumpSeesEnd => match se_out s, se_reader s with [], ReadDone _ => Some (set_pump PumpLoop s) | _, _ => None end
  | PumpWriting chunk, PumpWrites ok =>
      if ok && cn_up (se_conn s) then Some (set_pump PumpLoop (send_frame true (FOutput chunk) s)) else Some (set_pump (PumpClosing true) (Close ByPump terminalReasonUnreachable (hang_up s)))
  | PumpSelect, PumpPings ok => Some (if ok then set_pump PumpLoop s else set_pump (PumpClosing true) (Close ByPump terminalReasonUnreachable s))
  | PumpSelect, PumpExpires lifetime => Some (set_pump (PumpClosing false) (Close ByPump (if lifetime then terminalReasonLifetime else terminalReasonIdle) s))
  | PumpClosing returns, PumpResumes => if closing_by ByPump s then None else Some (if returns then pump_returns s else set_pump PumpLoop s)
  | _, _ => terminalExit l s
  end.
Definition terminalReadLoop (l : label) (s : sess) : option sess :=
  match se_loop s, l with
  | LoopReading, LoopInput ok => Some (if ok && se_open s then s else set_loop LoopClosing (Close ByLoop terminalReasonUnreachable s))
  | LoopReading, LoopResize => Some s
  | LoopReading, LoopBad ok => Some (set_loop LoopClosing (Close ByLoop terminalReasonProtocol (send_frame ok FError s)))
  | LoopReading, LoopEof => Some (set_loop LoopEnded s)
  | LoopClosing, LoopStops => if closing_by ByLoop s then None else Some (set_loop LoopEnded s)
  | _, _ => None
  end.
(** What follows the read loop; the pump is awaited. *)
Definition runTerminalSession (l : label) (s : sess) : option sess :=
  match se_loop s, l with
  | LoopEnded, LoopCloses => Some (set_loop LoopLast (Close ByLoop (if is_Some_b (se_exit s) then [] else terminalReasonClient) s))
  | LoopLast, LoopResumes => if closing_by ByLoop s then None else Some (set_loop LoopAwait s)
  | LoopAwait, LoopReturns => match se_pump s with PumpDone => Some (cancel (set_loop LoopReturned s)) | _ => None end
  | _, _ => None
  end.
Definition CloseAll (l : label) (s : sess) : option sess :=
  match se_manager s, l with
  | ManagerIdle, ManagerLists => if bk_listed (se_books s) then Some (set_manager ManagerHas s) else None
  | ManagerHas, ManagerCloses => Some (set_manager ManagerClosing (Close ByManager terminalReasonShutdown s))
  | ManagerClosing, ManagerResumes => if closing_by ByManager s then None else Some (set_manager ManagerDone s)
  | _, _ => None
  end.
Definition sess_step (l : label) (s : sess) : option sess :=
  match l with
  | ShellWrites _ | ShellExits _ | WritersGone => shell_step l s
  | ReaderReads | ReaderPushes | ReaderDrops | ReaderEnds => readOutput l s
  | Reaps | Drained | DrainGrace => reap l s
  | LoopInput _ | LoopResize | LoopBad _ | LoopEof | LoopStops => terminalReadLoop l s
  | LoopCloses | LoopResumes | LoopReturns => runTerminalSession l s
  | ManagerLists | ManagerCloses | ManagerResumes => CloseAll l s
  | Cancelled => Some (cancel s)
  | CloserSteps => closeSession false s
  | CloserTimesOut => closeSession true s
  | _ => terminalPump l s
  end.
Fixpoint sess_run (ls : list label) (s : sess) : option sess :=
  match ls with [] => Some s | l :: ls => match sess_step l s with Some s => sess_run ls s | None => None end end.
