(* ===== verification/DaemonSessionFacts.v ===== *)
(** * DaemonSessionFacts: what a client receives, and how a session ends

    Invariants of the reachable states of [DaemonSession], over every interleaving, and
    the end of a closing session. *)

From S2P Require Import Prelude GoStr DaemonSession.
Open Scope Z_scope.

(** ** Reading a state *)

(** The pump's frames, the output among them, and what is on its way to the client. *)
Definition outputs (fs : list frame) : list str := omap (λ f, match f with FOutput c => Some c | _ => None end) fs.
Definition pumped (fs : list frame) : list frame := List.filter (λ f, match f with FError => false | _ => true end) fs.
Definition in_pump (p : pump) : list str := match p with PumpWriting c | PumpDrainWriting c => [c] | _ => [] end.
Definition in_reader (r : reader) : list str := match r with Holding c => [c] | _ => [] end.
Definition greeted (p : pump) : bool := match p with PumpHello => false | _ => true end.
Definition ending (p : pump) : bool := match p with PumpDrain | PumpDrainWriting _ | PumpExit | PumpHangup => true | _ => false end.
Definition reachable (s : sess) : Prop := ∃ ls, sess_run ls started = Some s.

Lemma outputs_app fs gs : outputs (fs ++ gs) = outputs fs ++ outputs gs.
Proof. apply omap_app. Qed.
Lemma pumped_app fs gs : pumped (fs ++ gs) = pumped fs ++ pumped gs.
Proof. apply List.filter_app. Qed.
Lemma sess_run_app ls ls' s : sess_run (ls ++ ls') s = match sess_run ls s with Some s => sess_run ls' s | None => None end.
Proof. revert s; induction ls as [|l ls IH]; intros s; [done|]; simpl; destruct (sess_step l s); auto. Qed.
Lemma sess_induct (P : sess → Prop) : P started → (∀ l s s', P s → sess_step l s = Some s' → P s') → ∀ s, reachable s → P s.
Proof.
  intros H0 HS s [ls Hr]; revert s Hr; induction ls as [|l ls IH] using rev_ind; intros s Hr; [by simplify_eq/=|].
  rewrite sess_run_app in Hr; destruct (sess_run ls started) as [t|] eqn:E; [|done]; simpl in Hr.
  destruct (sess_step l t) as [u|] eqn:El; simplify_eq; eauto.
Qed.

(** Case analysis of a step: the label, then every test of its operation. *)
Ltac step_tests H :=
  repeat match type of H with
  | match ?x with _ => _ end = Some _ =>
      lazymatch x with context [match _ with _ => _ end] => fail | _ => let E := fresh "E" in destruct x eqn:E; try discriminate H end
  | (if ?x then _ else _) = Some _ => let E := fresh "E" in destruct x eqn:E; try discriminate H
  end.
Ltac sess_label H :=
  simpl in H;
  unfold shell_step, readOutput, reap, terminalPump, terminalExit, drainTerminalOutput, terminalReadLoop, runTerminalSession, CloseAll in H; cbv zeta in H;
  step_tests H; try (injection H as H; subst).
Ltac sess_cases l H := destruct l; sess_label H.

(** ** The close *)

Definition past (p q : close_phase) : bool :=
  let n p := match p with CCheck => 0 | CGrace => 1 | CKilled => 2 | CFinish => 3 | CPty => 4 | CLeave => 5 | CAudit => 6 end in n q <=? n p.
Definition close_ok (s : sess) : Prop :=
  let c := se_close s in let b := se_books s in
  match cl_closed c, cl_by c with
  | false, None => cl_reason c = [] ∧ se_open s = true ∧ bk_listed b = true ∧ bk_audit b = []
  | false, Some _ => False
  | true, Some (_, p) => bk_audit b = [] ∧ (past p CPty = true → is_Some (se_exit s)) ∧ (past p CLeave = true → se_open s = false) ∧ (past p CAudit = true → bk_listed b = false)
  | true, None => bk_audit b = [(exit_code s, cl_reason c)] ∧ is_Some (se_exit s) ∧ se_open s = false ∧ bk_listed b = false
  end ∧ (cl_closed c = true → cl_reason c = [] → is_Some (se_exit s)).
Definition loop_ok (s : sess) : Prop :=
  match se_loop s with
  | LoopReturned => cl_closed (se_close s) = true ∧ se_pump s = PumpDone
  | LoopLast | LoopAwait => cl_closed (se_close s) = true
  | _ => True
  end.

Create HintDb sess.
Lemma close_keep s s' : se_close s' = se_close s → se_exit s' = se_exit s → se_open s' = se_open s → se_books s' = se_books s → close_ok s → close_ok s'.
Proof. unfold close_ok, exit_code. by intros -> -> -> ->. Qed.
Lemma close_finish code d s : (cl_closed (se_close s) = true → cl_by (se_close s) = None → is_Some (se_exit s)) → close_ok s → close_ok (finish code d s).
Proof.
  intros Hn Hc; unfold finish; destruct (se_exit s) eqn:E; [done|]. revert Hn Hc; unfold close_ok, exit_code; simpl; rewrite E.
  destruct (cl_closed _), (cl_by _) as [[? p]|]; naive_solver.
Qed.
Lemma close_closed s : close_ok s → cl_closed (se_close s) = true → cl_by (se_close s) = None → is_Some (se_exit s).
Proof. unfold close_ok. intros Hc H1 H2; rewrite H1, H2 in Hc. naive_solver. Qed.
Lemma close_Close b r s : (r = [] → is_Some (se_exit s)) → close_ok s → close_ok (Close b r s).
Proof.
  intros Hr Hc; unfold Close; destruct (cl_closed (se_close s)) eqn:E; [done|].
  revert Hr Hc; unfold close_ok; simpl; rewrite E; destruct (cl_by _) as [[? ?]|]; [naive_solver|]. intros Hr ((-> & -> & -> & ->) & _); simpl. naive_solver.
Qed.
Lemma close_closer t s s' : close_ok s → closeSession t s = Some s' → close_ok s'.
Proof.
  intros Hc; unfold closeSession; destruct (cl_by (se_close s)) as [[b p]|] eqn:Eb; [|done].
  destruct s as [c o r q re e [cl rs by_] cn pu lo ma [li au si]]; simpl in *; subst by_.
  unfold close_ok in Hc; simpl in Hc; destruct cl; [|naive_solver].
  unfold close_ok, finish, exit_code, phase, signal, set_close, set_exit, set_open, set_books; simpl.
  destruct Hc as ((-> & H1 & H2 & H3) & H4); destruct p, e as [[ec ed]|]; simpl in *; destruct t; simpl; intros ?; simplify_eq; simpl; naive_solver.
Qed.
Lemma send_keep ok f s : se_close (send_frame ok f s) = se_close s ∧ se_exit (send_frame ok f s) = se_exit s ∧ se_open (send_frame ok f s) = se_open s ∧ se_books (send_frame ok f s) = se_books s.
Proof. unfold send_frame; by destruct (ok && _). Qed.
Lemma close_send ok f s : close_ok s → close_ok (send_frame ok f s).
Proof. destruct (send_keep ok f s) as (? & ? & ? & ?); by apply close_keep. Qed.
Lemma close_step l s s' : close_ok s → sess_step l s = Some s' → close_ok s'.
Proof.
  intros Hc Hs. pose proof (close_closed s Hc). sess_cases l Hs; try done; try (by eapply close_closer).
  all: repeat first
    [ done | match goal with |- close_ok (if ?b then _ else _) => destruct b end | apply close_send
    | match goal with |- close_ok (?f _ ?t) => change (close_ok t) | |- close_ok (pump_returns ?t) => change (close_ok t) | |- close_ok (hang_up ?t) => change (close_ok t) end
    | apply close_finish; [by eauto|] | apply close_Close; [by intros ?; destruct (se_exit s); repeat case_match; eauto|] ].
Qed.
Lemma close_reachable s : reachable s → close_ok s.
Proof. apply (sess_induct close_ok); [done | intros; by eapply close_step]. Qed.

(** What one step can do to the flags that are only ever set once. *)
Ltac sess_open := unfold Close, finish, closeSession, phase, pump_returns, hang_up, cancel, signal, send_frame, finish in *; cbv zeta in *.
Lemma send_same ok f s : se_reader (send_frame ok f s) = se_reader s ∧ se_pump (send_frame ok f s) = se_pump s ∧ se_loop (send_frame ok f s) = se_loop s
  ∧ se_child (send_frame ok f s) = se_child s ∧ se_out (send_frame ok f s) = se_out s.
Proof. unfold send_frame; by destruct (ok && _). Qed.
Lemma Close_closed b r s : cl_closed (se_close (Close b r s)) = true.
Proof. unfold Close; cbv zeta; by destruct (cl_closed (se_close s)) eqn:E. Qed.
Lemma closer_same t s s' : closeSession t s = Some s' → se_child s' = se_child s ∧ se_reader s' = se_reader s ∧ se_out s' = se_out s ∧ se_conn s' = se_conn s
  ∧ se_pump s' = se_pump s ∧ se_loop s' = se_loop s.
Proof.
  unfold closeSession, finish; cbv zeta; destruct (cl_by _) as [[? []]|]; repeat case_match; intros ?; simplify_eq/=; done.
Qed.
Ltac sess_solve l Hs :=
  sess_cases l Hs; first
    [ done | simpl in *; first [done | congruence]
    | sess_open; repeat case_match; simplify_eq/=; bools; first [done | congruence | by eauto | idtac] ].
Lemma closed_mono l s s' : sess_step l s = Some s' → cl_closed (se_close s) = true → cl_closed (se_close s') = true ∧ cl_reason (se_close s') = cl_reason (se_close s).
Proof. intros Hs Hc; sess_solve l Hs. Qed.
Lemma exit_mono l s s' e : sess_step l s = Some s' → se_exit s = Some e → se_exit s' = Some e.
Proof. intros Hs He; sess_solve l Hs. Qed.
Lemma reader_mono l s s' b : sess_step l s = Some s' → se_reader s = ReadDone b → se_reader s' = ReadDone b.
Proof. intros Hs He; sess_solve l Hs. Qed.
Lemma exit_new l s s' c : sess_step l s = Some s' → se_exit s = None → se_exit s' = Some (c, true) → ∃ b, se_reader s = ReadDone b.
Proof. intros Hs H1 H2; sess_solve l Hs. Qed.
Lemma reader_new l s s' b : sess_step l s = Some s' → se_reader s ≠ ReadDone b → se_reader s' = ReadDone b →
  se_child s' = se_child s ∧ se_exit s' = se_exit s ∧ if b then ch_pty (se_child s) = [] ∧ ch_writers (se_child s) = false else cl_closed (se_close s) = true ∨ se_open s = false.
Proof.
  intros Hs H1 H2; assert (l = ReaderDrops ∨ l = ReaderEnds) as [-> | ->].
  - sess_cases l Hs; auto; exfalso; simpl in *; try congruence; revert H2; sess_open; repeat case_match; simplify_eq/=; congruence.
  - sess_label Hs. simplify_eq/=; auto.
  - sess_label Hs; simplify_eq/=. case_bool_decide; destruct (ch_writers (se_child s)) eqn:?, (se_open s) eqn:?; simplify_eq/=; auto.
Qed.

#[export] Instance reader_decide : EqDecision reader.
Proof. solve_decision. Defined.
#[export] Instance read_loop_decide : EqDecision read_loop.
Proof. solve_decision. Defined.

(** ** The end of the reader, the pump and the read loop *)

Definition ends_ok (s : sess) : Prop :=
  (se_reader s = ReadDone false → cl_closed (se_close s) = true) ∧
  (∀ c, se_exit s = Some (c, true) → ∃ b, se_reader s = ReadDone b ∧ (b = false → cl_closed (se_close s) = true ∧ cl_reason (se_close s) ≠ [])) ∧
  (ending (se_pump s) = true → is_Some (se_exit s)) ∧ loop_ok s.
Lemma ending_new l s s' : sess_step l s = Some s' → ending (se_pump s') = true → ending (se_pump s) = true ∨ se_exit s ≠ None.
Proof. intros Hs H1; sess_solve l Hs; right; destruct (se_exit s), (se_pump s); discriminate. Qed.
Lemma loop_step l s s' : loop_ok s → sess_step l s = Some s' → loop_ok s'.
Proof.
  intros Hl Hs; destruct (decide (se_loop s' = se_loop s)) as [Eq|Ne].
  - assert (se_pump s = PumpDone → se_pump s' = PumpDone) as Hp by (intros Hp; clear Eq; sess_solve l Hs).
    pose proof (closed_mono l s s' Hs). unfold loop_ok in *; rewrite Eq; destruct (se_loop s); naive_solver.
  - sess_cases l Hs; try (exfalso; apply Ne; sess_open; repeat case_match; done).
    1-7: try match goal with |- loop_ok (if ?b then _ else _) => destruct b end; unfold loop_ok in *; simpl; rewrite ?E in *; auto using Close_closed.
    all: by destruct Ne; eapply closer_same.
Qed.
Lemma ends_step l s s' : close_ok s → ends_ok s → sess_step l s = Some s' → ends_ok s'.
Proof.
  intros [Hc Hc'] (H1 & H2 & H3 & H4) Hs; pose proof (closed_mono l s s' Hs) as Hm. split_and!; [| | | by eapply loop_step].
  - intros Hr; apply Hm. destruct (decide (se_reader s = ReadDone false)) as [|Hn]; [auto|].
    destruct (reader_new _ _ _ _ Hs Hn Hr) as (_ & _ & [?|Ho]); [done|]. revert Hc; destruct (cl_closed _), (cl_by _); naive_solver.
  - intros c He; destruct (se_exit s) as [e|] eqn:Ee.
    + rewrite (exit_mono _ _ _ _ Hs Ee) in He; simplify_eq. destruct (H2 _ eq_refl) as (b & Hb & Hf). exists b; split; [by eapply reader_mono|].
      intros Hb'; destruct (Hf Hb') as [Hcl ?], (Hm Hcl) as [-> ->]; done.
    + destruct (exit_new _ _ _ _ Hs Ee He) as [b Hb]; exists b; split; [by eapply reader_mono|]. intros ->.
      destruct (Hm (H1 Hb)) as [-> ->]; split; [done|]. intros Hn; destruct (Hc' (H1 Hb) Hn); congruence.
  - intros Hp. assert (is_Some (se_exit s)) as [e He]; [|exists e; by eapply exit_mono].
    destruct (ending_new _ _ _ Hs Hp) as [?|?]; [auto|]. by destruct (se_exit s).
Qed.

(** ** The flow of the output *)

Definition flow_ok (s : sess) : Prop :=
  let w := ch_written (se_child s) in let o := outputs (cn_frames (se_conn s)) in
  (se_reader s = ReadDone true → ch_pty (se_child s) = [] ∧ ch_writers (se_child s) = false) ∧
  o `prefix_of` w ∧
  (cn_up (se_conn s) = true → ∃ rest, o ++ in_pump (se_pump s) ++ se_out s ++ in_reader (se_reader s) ++ rest = w ∧ (se_reader s ≠ ReadDone false → rest = ch_pty (se_child s))).
Lemma flow_keep s s' : se_child s' = se_child s → se_reader s' = se_reader s → se_out s' = se_out s → se_conn s' = se_conn s → in_pump (se_pump s') = in_pump (se_pump s) → flow_ok s → flow_ok s'.
Proof. unfold flow_ok. by intros -> -> -> -> ->. Qed.
Lemma flow_down s s' : se_child s' = se_child s → se_reader s' = se_reader s → outputs (cn_frames (se_conn s')) = outputs (cn_frames (se_conn s)) → cn_up (se_conn s') = false → flow_ok s → flow_ok s'.
Proof. unfold flow_ok. intros -> -> -> -> (? & ? & _). split_and!; [done..|discriminate]. Qed.
Lemma outputs_send ok f s : outputs [f] = [] → outputs (cn_frames (se_conn (send_frame ok f s))) = outputs (cn_frames (se_conn s)).
Proof. intros Hf; unfold send_frame; destruct (ok && _); simpl; [|done]. by rewrite outputs_app, Hf, app_nil_r. Qed.
Lemma flow_send ok f s : outputs [f] = [] → flow_ok s → flow_ok (send_frame ok f s).
Proof.
  intros Hf Hs; destruct (ok && cn_up (se_conn s)) eqn:E.
  - revert Hs; unfold flow_ok, send_frame; rewrite E; simpl; rewrite outputs_app, Hf, app_nil_r. apply andb_true_iff in E as [_ ->]; done.
  - eapply flow_down, Hs; try apply send_same; [by apply outputs_send|]. unfold send_frame; by rewrite E.
Qed.
Lemma Close_same b r s : se_child (Close b r s) = se_child s ∧ se_reader (Close b r s) = se_reader s ∧ se_out (Close b r s) = se_out s ∧ se_conn (Close b r s) = se_conn s
  ∧ se_pump (Close b r s) = se_pump s.
Proof. unfold Close; cbv zeta; by destruct (cl_closed _). Qed.
Lemma flow_Close b r s : flow_ok s → flow_ok (Close b r s).
Proof. destruct (Close_same b r s) as (? & ? & ? & ? & ?); apply flow_keep; congruence. Qed.
Lemma flow_finish c d s : flow_ok s → flow_ok (finish c d s).
Proof. unfold finish; by destruct (se_exit s). Qed.
Lemma flow_closer t s s' : closeSession t s = Some s' → flow_ok s → flow_ok s'.
Proof. intros (? & ? & ? & ? & ? & ?)%closer_same; apply flow_keep; congruence. Qed.
(** The pump takes a chunk, and writes it. *)
Lemma flow_take p chunk rest s : in_pump (se_pump s) = [] → in_pump p = [chunk] → se_out s = chunk :: rest → flow_ok s → flow_ok (set_pump p (set_out rest s)).
Proof. unfold flow_ok; simpl. intros -> -> ->; done. Qed.
Lemma flow_write p chunk s : in_pump (se_pump s) = [chunk] → in_pump p = [] → cn_up (se_conn s) = true → flow_ok s → flow_ok (set_pump p (send_frame true (FOutput chunk) s)).
Proof.
  intros Hp Hp' Hu (H1 & H2 & H3); unfold send_frame; rewrite Hu; destruct (H3 Hu) as (rest & Heq & Hr); rewrite Hp in Heq.
  unfold flow_ok; simpl; rewrite outputs_app, Hp'; simpl. split_and!; [done| |].
  - exists (se_out s ++ in_reader (se_reader s) ++ rest). rewrite <-Heq, <-!(assoc_L (++)); done.
  - intros _; exists rest; rewrite <-Heq, <-!(assoc_L (++)); done.
Qed.
Lemma flow_pump p t s : se_pump t = se_pump s → in_pump p = in_pump (se_pump s) → flow_ok t → flow_ok (set_pump p t).
Proof. unfold flow_ok; simpl. by intros -> ->. Qed.
(** The shell writes, the reader takes, queues or drops a chunk, or ends. *)
Lemma flow_shell chunk c s : flow_ok s → ch_writers (se_child s) = true →
  flow_ok (set_child (mkChild c true (ch_pty (se_child s) ++ [chunk]) (ch_written (se_child s) ++ [chunk])) s).
Proof.
  intros (H1 & H2 & H3) Hw; unfold flow_ok; simpl; split_and!.
  - intros Hr; destruct (H1 Hr); congruence.
  - by apply prefix_app_r.
  - intros Hu; destruct (H3 Hu) as (rest & <- & Hr); exists (rest ++ [chunk]); rewrite <-!(assoc_L (++)); split; [done|]. intros Hn; by rewrite (Hr Hn).
Qed.
Lemma flow_reads chunk rest c s : se_reader s = Reading → ch_pty (se_child s) = chunk :: rest → flow_ok s →
  flow_ok (set_reader (Holding chunk) (set_child (mkChild c (ch_writers (se_child s)) rest (ch_written (se_child s))) s)).
Proof.
  intros Hr Hp (H1 & H2 & H3); unfold flow_ok; simpl; split_and!; [done|done|].
  intros Hu; destruct (H3 Hu) as (tail & <- & Ht); rewrite Hr in Ht; rewrite Hr, (Ht ltac:(done)), Hp. by exists rest.
Qed.
Lemma flow_pushes chunk s : se_reader s = Holding chunk → flow_ok s → flow_ok (set_reader Reading (set_out (se_out s ++ [chunk]) s)).
Proof.
  intros Hr (H1 & H2 & H3); unfold flow_ok; simpl; split_and!; [done|done|].
  intros Hu; destruct (H3 Hu) as (tail & <- & Ht); rewrite Hr in *. exists tail; rewrite <-!(assoc_L (++)); split; [done|]. intros _; by apply Ht.
Qed.
Lemma flow_ends b s : (b = true → ch_pty (se_child s) = [] ∧ ch_writers (se_child s) = false) → (∃ chunks, in_reader (se_reader s) = chunks ∧ (b = true → chunks = [])) →
  se_reader s ≠ ReadDone false → flow_ok s → flow_ok (set_reader (ReadDone b) s).
Proof.
  intros Hb (chunks & Hc & Hb') Hn (H1 & H2 & H3); unfold flow_ok; simpl; split_and!; [by intros [= ->]; auto|done|].
  intros Hu; destruct (H3 Hu) as (tail & <- & Ht); rewrite Hc. exists (chunks ++ tail); split; [done|].
  intros Hb''; rewrite Hb' by (by destruct b). by apply Ht.
Qed.
Lemma flow_step l s s' : flow_ok s → sess_step l s = Some s' → flow_ok s'.
Proof.
  intros Hf Hs. sess_cases l Hs; try exact Hf; try by eapply flow_closer.
  all: [> apply flow_shell; [done|by bools] | unfold flow_ok in *; simpl; naive_solver | by apply flow_reads | by apply flow_pushes
       | apply flow_ends; rewrite ?E; [done|by eexists|done|done] | apply flow_ends; rewrite ?E; [by intros ?; bools|by exists []|done|done] | .. ].
  all: try match goal with |- flow_ok (if ?b then _ else _) => destruct b end.
  all: try exact Hf.
  all: try (by eapply flow_take; rewrite ?E).
  all: try (by eapply flow_write; rewrite ?E; bools).
  all: try (by eapply (flow_down s); try apply send_same; try by apply outputs_send).
  all: try (by eapply (flow_down s); simpl; rewrite ?(proj1 (Close_same _ _ _)); try done; destruct (Close_same ByPump terminalReasonUnreachable (hang_up s)) as (? & Hrd & ? & Hcn & ?); rewrite ?Hrd, ?Hcn).
  all: try change (flow_ok (pump_returns s)) with (flow_ok (set_pump PumpDone s)).
  all: repeat first [exact Hf | apply flow_Close | apply flow_finish | apply flow_send; [done|]
    | eapply (flow_pump _ _ s); [first [done | apply Close_same | apply send_same]|by rewrite E|]
    | match goal with |- flow_ok (?f _ ?t) => change (flow_ok t) end].
Qed.

(** ** The frames *)

Definition over (p : pump) : bool := match p with PumpHangup | PumpDone => true | _ => false end.
Definition drained_ok (s : sess) : Prop := se_pump s = PumpExit → ∀ c, se_exit s = Some (c, true) → se_out s = [].
Definition frames_ok (s : sess) : Prop :=
  let fs := pumped (cn_frames (se_conn s)) in let o := outputs (cn_frames (se_conn s)) in
  (fs = [] ∧ o = [] ∧ (greeted (se_pump s) = true → cn_up (se_conn s) = false)) ∨
  (fs = FHello :: map FOutput o ∧ greeted (se_pump s) = true) ∨
  (∃ code reason d, fs = FHello :: map FOutput o ++ [FExit code reason] ∧ over (se_pump s) = true ∧ se_exit s = Some (code, d) ∧
    (reason = [] ∨ cl_closed (se_close s) = true ∧ reason = cl_reason (se_close s)) ∧
    (reason = [] → d = true → o = ch_written (se_child s) ∧ se_reader s = ReadDone true)).
Lemma out_frozen l s s' b : sess_step l s = Some s' → ending (se_pump s) = true → se_reader s = ReadDone b → se_out s = [] → se_out s' = [].
Proof. intros Hs H1 H2 H3; sess_solve l Hs. Qed.
Lemma exit_pump l s s' : sess_step l s = Some s' → se_pump s' = PumpExit → se_pump s = PumpExit ∨ se_out s = [] ∧ se_out s' = [].
Proof. intros Hs H1; sess_solve l Hs. Qed.
Lemma drained_step l s s' : ends_ok s → drained_ok s → sess_step l s = Some s' → ends_ok s' → drained_ok s'.
Proof.
  intros (_ & He & Hp & _) Hd Hs _ Hx c Hc; destruct (exit_pump _ _ _ Hs Hx) as [Hq|[_ ?]]; [|done].
  destruct Hp as [e Hse]; [by rewrite Hq|]. rewrite (exit_mono _ _ _ _ Hs Hse) in Hc; simplify_eq.
  destruct (He _ Hse) as (b & Hb & _). eapply out_frozen; [done|by rewrite Hq|done|eauto].
Qed.
Lemma written_mono l s s' : sess_step l s = Some s' → ch_writers (se_child s) = false → ch_written (se_child s') = ch_written (se_child s).
Proof. intros Hs H1; sess_solve l Hs. Qed.
Lemma over_mono l s s' : sess_step l s = Some s' → over (se_pump s) = true → over (se_pump s') = true.
Proof. intros Hs H1; sess_solve l Hs; by rewrite E0. Qed.
Lemma up_mono l s s' : sess_step l s = Some s' → cn_up (se_conn s') = true → cn_up (se_conn s) = true.
Proof. intros Hs H1; sess_solve l Hs. Qed.
Lemma greeted_mono l s s' : sess_step l s = Some s' → greeted (se_pump s) = true → greeted (se_pump s') = true.
Proof. intros Hs H1; sess_solve l Hs; by rewrite E0. Qed.
(** Whoever is not the pump leaves its frames alone. *)
Definition pump_sends (l : label) : bool := match l with PumpGreets _ | PumpWrites _ | PumpReports _ => true | _ => false end.
Lemma frames_same l s s' : sess_step l s = Some s' → pump_sends l = false →
  pumped (cn_frames (se_conn s')) = pumped (cn_frames (se_conn s)) ∧ outputs (cn_frames (se_conn s')) = outputs (cn_frames (se_conn s)) ∧ (greeted (se_pump s') = true → greeted (se_pump s) = true).
Proof.
  intros Hs Hl; sess_cases l Hs; try done; sess_open; repeat case_match; simplify_eq/=; rewrite ?pumped_app, ?outputs_app; simpl; rewrite ?app_nil_r; rewrite ?E; try done.
Qed.
Lemma pump_frame ok f s : let s' := send_frame ok f s in pumped [f] = [f] →
  if ok && cn_up (se_conn s) then pumped (cn_frames (se_conn s')) = pumped (cn_frames (se_conn s)) ++ [f] ∧ outputs (cn_frames (se_conn s')) = outputs (cn_frames (se_conn s)) ++ outputs [f]
  else cn_frames (se_conn s') = cn_frames (se_conn s) ∧ cn_up (se_conn s') = false.
Proof. intros s' Hf; unfold s', send_frame; destruct (ok && _); simpl; [|done]. by rewrite pumped_app, outputs_app, Hf. Qed.
(** An exit frame without a reason, of a shell whose output was read to its end, comes after all of it. *)
Lemma all_delivered s c : ends_ok s → flow_ok s → drained_ok s → se_pump s = PumpExit → cn_up (se_conn s) = true → se_exit s = Some (c, true) → cl_reason (se_close s) = [] →
  outputs (cn_frames (se_conn s)) = ch_written (se_child s) ∧ se_reader s = ReadDone true.
Proof.
  intros (_ & He & _) (H1 & _ & H3) Hd Hp Hu Hx Hr; destruct (He _ Hx) as ([] & Hb & Hf); [|by destruct (Hf eq_refl)].
  destruct (H3 Hu) as (rest & <- & Hrest). rewrite Hp, (Hd Hp _ Hx), Hb in *; simpl.
  rewrite (Hrest ltac:(done)), (proj1 (H1 eq_refl)), app_nil_r; done.
Qed.
Lemma frames_lost s s' : cn_frames (se_conn s') = cn_frames (se_conn s) → cn_up (se_conn s') = false → greeted (se_pump s') = true → over (se_pump s) = false →
  frames_ok s → frames_ok s'.
Proof. unfold frames_ok; intros -> -> -> Ho [(-> & -> & _)|[[-> _]|(? & ? & ? & _ & ? & _)]]; [by left|by right; left|congruence]. Qed.
Lemma frames_output p chunk s : greeted (se_pump s) = true → over (se_pump s) = false → greeted p = true → cn_up (se_conn s) = true →
  frames_ok s → frames_ok (set_pump p (send_frame true (FOutput chunk) s)).
Proof.
  intros Hg Ho Hp Hu Hf; pose proof (pump_frame true (FOutput chunk) s eq_refl) as H; rewrite Hu in H; destruct H as [H1 H2].
  unfold frames_ok in *; right; left; simpl; rewrite H1, H2. destruct Hf as [(_ & _ & Hn)|[[-> _]|(? & ? & ? & _ & ? & _)]]; [|by rewrite map_app|congruence].
  rewrite Hn in Hu; done.
Qed.
Lemma frames_exit ok s : close_ok s → ends_ok s → flow_ok s → drained_ok s → se_pump s = PumpExit → frames_ok s →
  frames_ok (set_pump PumpHangup (send_frame ok (FExit (exit_code s) (cl_reason (se_close s))) s)).
Proof.
  intros [Hc _] He Hw Hd Hp Hf. set (f := FExit _ _); pose proof (pump_frame ok f s eq_refl) as H; destruct (ok && cn_up (se_conn s)) eqn:E; destruct H as [H1 H2].
  2: by eapply frames_lost; rewrite ?Hp.
  apply andb_true_iff in E as [-> Hu]. destruct (proj1 (proj2 (proj2 He)) ltac:(by rewrite Hp)) as [[c d] Hx].
  unfold frames_ok in *; right; right; simpl; rewrite H1, H2, app_nil_r. exists c, (cl_reason (se_close s)), d.
  unfold send_frame; rewrite Hu; simpl. split_and!; [|done|done| |].
  - destruct Hf as [(_ & _ & Hn)|[[-> _]|(? & ? & ? & _ & Ho & _)]]; [by rewrite Hp, Hu in Hn; specialize (Hn eq_refl)| |by rewrite Hp in Ho].
    unfold f, exit_code; by rewrite Hx.
  - destruct (cl_closed (se_close s)); [by right|left]. destruct (cl_by (se_close s)); [done|by destruct Hc].
  - intros Hr ->; by eapply all_delivered.
Qed.
Lemma frames_step l s s' : close_ok s → ends_ok s → flow_ok s → drained_ok s → frames_ok s → sess_step l s = Some s' → frames_ok s'.
Proof.
  intros Hc He Hw Hd Hf Hs; destruct (pump_sends l) eqn:El; [destruct l; try done; clear El|].
  - sess_label Hs; pose proof (pump_frame ok FHello s eq_refl) as Hp; unfold frames_ok in *; simpl; rewrite E in Hf.
    destruct Hf as [(H1 & H2 & _)|[[_ ?]|(? & ? & ? & _ & ? & _)]]; [|done..].
    destruct (ok && _); destruct Hp as [-> ->]; rewrite H1, H2; auto.
  - sess_label Hs; bools; try (apply frames_output; by rewrite ?E).
    all: eapply frames_lost; rewrite ?E; try done; destruct (Close_same ByPump terminalReasonUnreachable (hang_up s)) as (_ & _ & _ & Hcn & _); simpl; by rewrite ?Hcn.
  - sess_label Hs; by apply frames_exit.
  - destruct (frames_same _ _ _ Hs El) as (Hp & Ho & Hg); unfold frames_ok; rewrite Hp, Ho.
    destruct Hf as [(H1 & H2 & H3)|[[H1 H2]|(c & r & d & H1 & H2 & H3 & H4 & H5)]].
    + left; split_and!; [done..|]. intros Hg'; destruct (cn_up (se_conn s')) eqn:Eu; [|done]. rewrite (up_mono _ _ _ Hs Eu) in H3; auto.
    + right; left; split; [done|by eapply greeted_mono].
    + right; right; exists c, r, d; split_and!; [done|by eapply over_mono|by eapply exit_mono| |].
      * destruct H4 as [->|[Hcl ->]]; [by left|right]. by destruct (closed_mono _ _ _ Hs Hcl) as [-> ->].
      * intros Hr Hd'; destruct (H5 Hr Hd') as [-> Hrd]; split; [|by eapply reader_mono]. symmetry; eapply written_mono; [done|]. by apply Hw.
Qed.
Definition sess_ok (s : sess) : Prop := close_ok s ∧ ends_ok s ∧ flow_ok s ∧ drained_ok s ∧ frames_ok s.
Lemma sess_ok_step l s s' : sess_ok s → sess_step l s = Some s' → sess_ok s'.
Proof.
  intros (H1 & H2 & H3 & H4 & H5) Hs; unfold sess_ok.
  assert (ends_ok s') by by eapply ends_step. split_and!; eauto using close_step, flow_step, drained_step, frames_step.
Qed.
Lemma sess_ok_reachable s : reachable s → sess_ok s.
Proof.
  apply sess_induct; [|by intros; eapply sess_ok_step]. unfold sess_ok; split_and!.
  - by split_and!.
  - by split_and!.
  - split_and!; [done|by exists []|]. intros _; by exists [].
  - done.
  - by left.
Qed.
Lemma sess_run_ok ls s s' : sess_ok s → sess_run ls s = Some s' → sess_ok s'.
Proof. revert s; induction ls as [|l ls IH]; intros s Hs Hr; simplify_eq/=; [done|]. destruct (sess_step l s) eqn:E; [|done]. eauto using sess_ok_step. Qed.

(** Without the grace of the reaper running out, only a close forces an end before the
    reader is done, and a close that does has a reason. *)
Definition ended_itself (s : sess) : Prop :=
  (∀ c, se_exit s = Some (c, false) → cl_closed (se_close s) = true ∧ cl_reason (se_close s) ≠ []) ∧
  (∀ c, FExit c [] ∈ cn_frames (se_conn s) → ∃ c', se_exit s = Some (c', true)).
Lemma exit_forced l s s' c : sess_step l s = Some s' → l ≠ DrainGrace → se_exit s = None → se_exit s' = Some (c, false) → cl_by (se_close s) ≠ None.
Proof. intros Hs Hl H1 H2; sess_solve l Hs. Qed.
Lemma exit_frame_new l s s' c r : sess_step l s = Some s' → FExit c r ∈ cn_frames (se_conn s') →
  FExit c r ∈ cn_frames (se_conn s) ∨ se_pump s = PumpExit ∧ r = cl_reason (se_close s).
Proof.
  intros Hs Hin; sess_cases l Hs; try (by left); sess_open; repeat case_match; simplify_eq/=; try (by left);
    apply elem_of_app in Hin as [?|Hin%list_elem_of_singleton]; try (by left); simplify_eq; by right.
Qed.
Lemma itself_step l s s' : l ≠ DrainGrace → close_ok s → ends_ok s → ended_itself s → sess_step l s = Some s' → ended_itself s'.
Proof.
  intros Hl [Hc Hc'] (_ & _ & He & _) [H1 H2] Hs; pose proof (closed_mono l s s' Hs) as Hm; split.
  - intros c Hx; destruct (se_exit s) as [e|] eqn:Ee.
    + rewrite (exit_mono _ _ _ _ Hs Ee) in Hx; simplify_eq. destruct (H1 _ eq_refl) as [Hcl ?]; by destruct (Hm Hcl) as [-> ->].
    + pose proof (exit_forced _ _ _ _ Hs Hl Ee Hx) as Hb. assert (cl_closed (se_close s) = true) as Hcl by (revert Hc; destruct (cl_closed _), (cl_by _); naive_solver).
      destruct (Hm Hcl) as [-> ->]; split; [done|]. intros Hr; destruct (Hc' Hcl Hr); congruence.
  - intros c Hin; destruct (exit_frame_new _ _ _ _ _ Hs Hin) as [Hin'|[Hp Hr]].
    + destruct (H2 c Hin') as [c' Hx]; exists c'; by eapply exit_mono.
    + destruct (He ltac:(by rewrite Hp)) as [[c' []] Hx]; [exists c'; by eapply exit_mono|]. by destruct (H1 _ Hx).
Qed.
Lemma itself_run ls s s' : DrainGrace ∉ ls → sess_ok s → ended_itself s → sess_run ls s = Some s' → ended_itself s'.
Proof.
  revert s; induction ls as [|l ls IH]; intros s Hl Hs Hi Hr; simplify_eq/=; [done|]. apply not_elem_of_cons in Hl as [Hl Hls].
  destruct (sess_step l s) as [t|] eqn:E; [|done]. apply (IH t); [done|by eapply sess_ok_step| |done]. eapply itself_step, E; [done|apply Hs..|done].
Qed.

(** ** What a client receives *)

(** C17. In every interleaving of a session's goroutines the client's frames are the hello,
    a prefix of what the shell wrote, in order and unaltered, and at most one exit frame,
    which carries the code the session ended with and either no reason or the one it was
    closed with; an error frame of the read loop is all that can stand between or after
    them. An exit frame without a reason comes after all the shell wrote, provided the
    reader was awaited, as it was unless the reaper's grace of two seconds ran out in the
    run; then the exit frame may overtake output ([exit_overtakes]), and what is still
    queued never arrives. The audit log has at most one entry, written after the pty is
    closed and the session unlisted, with the code and reason the session ended with; and
    the handler only returns from a closed session, after the pump. *)
Theorem session_sound ls s : sess_run ls started = Some s →
  (∃ chunks, chunks `prefix_of` ch_written (se_child s) ∧
    (pumped (cn_frames (se_conn s)) = [] ∧ chunks = [] ∨
     pumped (cn_frames (se_conn s)) = FHello :: map FOutput chunks ∨
     ∃ reason, pumped (cn_frames (se_conn s)) = FHello :: map FOutput chunks ++ [FExit (exit_code s) reason] ∧
       se_exit s ≠ None ∧ (reason = [] ∨ reason = cl_reason (se_close s)) ∧
       (reason = [] → se_exit s = Some (exit_code s, true) ∨ DrainGrace ∉ ls → chunks = ch_written (se_child s)))) ∧
  (bk_audit (se_books s) = [] ∨
   bk_audit (se_books s) = [(exit_code s, cl_reason (se_close s))] ∧ se_exit s ≠ None ∧ se_open s = false ∧ bk_listed (se_books s) = false) ∧
  (cl_closed (se_close s) = false → bk_audit (se_books s) = [] ∧ bk_listed (se_books s) = true) ∧
  (se_loop s = LoopReturned → cl_closed (se_close s) = true ∧ se_pump s = PumpDone).
Proof.
  intros Hr; assert (Hi : DrainGrace ∉ ls → ended_itself s) by (intros Hl; by eapply itself_run, Hr; [|apply sess_ok_reachable; by exists []|split; [by intros ?|by intros ? ?%not_elem_of_nil]]).
  destruct (sess_ok_reachable s) as ([Hc _] & (_ & _ & _ & Hl) & (_ & Hw & _) & _ & Hf); [by exists ls|]. split_and!.
  - exists (outputs (cn_frames (se_conn s))); split; [done|]. destruct Hf as [(? & ? & _)|[[? _]|(c & r & d & Hp & _ & Hx & Hq & Ha)]]; [auto..|].
    right; right; exists r. unfold exit_code; rewrite Hx. split_and!; [done|done|naive_solver|]. intros -> Hd.
    assert (FExit c [] ∈ cn_frames (se_conn s)) as Hin.
    { apply list_elem_of_In, (List.filter_In (λ f, match f with FError => false | _ => true end)). unfold pumped in Hp; rewrite Hp. right; apply in_app_iff; right; by left. }
    apply Ha; [done|]. destruct Hd as [[= ->]|Hl']; [done|]. destruct (Hi Hl') as [_ H2], (H2 c Hin); congruence.
  - destruct (cl_closed _), (cl_by _) as [[? ?]|], (se_exit s) eqn:?; simpl in Hc; try (left; naive_solver); right; naive_solver.
  - intros E; rewrite E in Hc; destruct (cl_by _); naive_solver.
  - intros E; unfold loop_ok in Hl; by rewrite E in Hl.
Qed.
(** A shell that prints and exits: everything arrives, then the exit frame, then nothing. *)
Definition quiet_day : list label :=
  [PumpGreets true; ShellWrites $"hi"; ReaderReads; ReaderPushes; PumpGoesOn; PumpTakes; PumpWrites true; ShellWrites $"bye"; ShellExits 3; WritersGone;
   ReaderReads; Reaps; ReaderPushes; ReaderEnds; Drained; PumpSeesDone; PumpDrains; PumpWrites true; PumpDrained; PumpReports true; PumpHangs; LoopEof; LoopCloses;
   CloserSteps; CloserSteps; CloserSteps; CloserSteps; CloserSteps; LoopResumes; LoopReturns].
Lemma session_sound_witness : ∃ s, sess_run quiet_day started = Some s ∧ cn_frames (se_conn s) = [FHello; FOutput $"hi"; FOutput $"bye"; FExit 3 []] ∧
  bk_audit (se_books s) = [(3, [])] ∧ (cl_closed (se_close s) = true ∧ se_pump s = PumpDone).
Proof.
  eexists; split; [vm_compute; reflexivity|]. split; [reflexivity|]. split; [reflexivity|]. by apply (session_sound quiet_day).
Defined.
(** A client too slow for the grace: the exit frame, without a reason, comes before what
    the reader still holds, and the handler returns with it undelivered. *)
Definition slow_client : list label :=
  [PumpGreets true; ShellWrites $"hi"; ReaderReads; ShellExits 0; WritersGone; Reaps; DrainGrace; PumpSeesDone; PumpDrained; PumpReports true; PumpHangs; LoopEof; LoopCloses;
   CloserSteps; CloserSteps; CloserSteps; CloserSteps; CloserSteps; LoopResumes; LoopReturns].
Example exit_overtakes : ∃ s, sess_run slow_client started = Some s ∧ cn_frames (se_conn s) = [FHello; FExit 0 []] ∧
  ch_written (se_child s) = [$"hi"] ∧ se_loop s = LoopReturned.
Proof. eexists; split; [vm_compute; reflexivity|]. by repeat split. Qed.

(** ** How a session ends *)

(** The steps a close has left, and the steps of the closer in a run. *)
Definition closing_left (s : sess) : nat :=
  match cl_by (se_close s) with
  | Some (_, p) => match p with CCheck => 7 | CGrace => 6 | CKilled => 5 | CFinish => 4 | CPty => 3 | CLeave => 2 | CAudit => 1 end
  | None => 0
  end.
Definition closer (l : label) : nat := match l with CloserSteps | CloserTimesOut => 1 | _ => 0 end.
Definition closer_steps (ls : list label) : nat := sum_list_with closer ls.
Lemma closing_step l s s' : cl_closed (se_close s) = true → sess_step l s = Some s' → (closer l + closing_left s' <= closing_left s)%nat.
Proof. intros Hc Hs; unfold closing_left; sess_cases l Hs; try done; try (simpl; lia); sess_open; rewrite ?Hc in *; repeat case_match; simplify_eq/=; rewrite ?Hc in *; lia || congruence. Qed.
Lemma closer_enabled s : cl_by (se_close s) ≠ None → is_Some (closeSession true s).
Proof. unfold closeSession; destruct (cl_by _) as [[? []]|]; try done; intros _; cbv zeta; rewrite ?orb_true_r; try destruct (is_Some_b _); by eexists. Qed.
Lemma closing_run ls s s' : cl_closed (se_close s) = true → sess_run ls s = Some s' →
  (closer_steps ls + closing_left s' <= closing_left s)%nat ∧ cl_closed (se_close s') = true ∧ cl_reason (se_close s') = cl_reason (se_close s).
Proof.
  revert s; induction ls as [|l ls IH]; intros s Hc Hr; simplify_eq/=; [done|]. destruct (sess_step l s) as [t|] eqn:E; [|done].
  pose proof (closing_step _ _ _ Hc E). destruct (closed_mono _ _ _ E Hc) as [Hc' Hr'], (IH t Hc' Hr) as (? & -> & ->). unfold closer_steps in *; simpl; split; [lia|done].
Qed.

(** From any state the rest of the session can be run to its end. *)
Definition leads (s s' : sess) : Prop := ∃ ls, sess_run ls s = Some s'.
#[export] Instance leads_preorder : PreOrder leads.
Proof. split; [intros s; by exists []|]. intros s t u [ls H1] [ls' H2]; exists (ls ++ ls'). by rewrite sess_run_app, H1. Qed.
Lemma leads_step l s s' : sess_step l s = Some s' → leads s s'.
Proof. intros H; exists [l]; simpl; by rewrite H. Qed.
(** The closer runs to its end. *)
Lemma close_completes n s : cl_closed (se_close s) = true → (closing_left s <= n)%nat →
  ∃ t, leads s t ∧ cl_closed (se_close t) = true ∧ cl_by (se_close t) = None ∧ se_pump t = se_pump s ∧ se_loop t = se_loop s.
Proof.
  revert s; induction n as [|n IH]; intros s Hc Hn; destruct (cl_by (se_close s)) as [[b p]|] eqn:Eb.
  - exfalso; unfold closing_left in Hn; rewrite Eb in Hn; destruct p; lia.
  - by exists s.
  - destruct (closer_enabled s) as [t Ht]; [by rewrite Eb|]. assert (sess_step CloserTimesOut s = Some t) as Hs by done.
    pose proof (closing_step _ _ _ Hc Hs) as Hm; simpl in Hm. destruct (closed_mono _ _ _ Hs Hc) as [Hc' _].
    destruct (IH t Hc') as (u & Hu & ? & ? & Hp & Hl); [lia|]. apply closer_same in Ht as (_ & _ & _ & _ & Hp' & Hl').
    exists u; split_and!; [by etrans; [by eapply leads_step|]|done|done|congruence|congruence].
  - by exists s.
Qed.
Lemma settles s : close_ok s → ∃ t, leads s t ∧ (cl_closed (se_close s) = true → cl_closed (se_close t) = true) ∧ cl_by (se_close t) = None ∧ se_pump t = se_pump s ∧ se_loop t = se_loop s.
Proof.
  intros [Hc _]; destruct (cl_closed (se_close s)) eqn:E; [|destruct (cl_by (se_close s)) eqn:Eb; [done|by exists s]].
  destruct (close_completes _ s E (Nat.le_refl _)) as (t & H1 & H2 & H3 & H4 & H5); by exists t.
Qed.
Lemma leads_ok s t : sess_ok s → leads s t → sess_ok t.
Proof. intros Hs [ls Hr]; by eapply sess_run_ok. Qed.
Definition loop_rank (r : read_loop) : nat := match r with LoopReading => 3 | LoopClosing => 3 | LoopEnded => 2 | LoopLast => 1 | LoopAwait | LoopReturned => 0 end.
Lemma loop_next s : sess_ok s → (0 < loop_rank (se_loop s))%nat → ∃ t, leads s t ∧ (loop_rank (se_loop t) < loop_rank (se_loop s))%nat.
Proof.
  intros Hs Hr; destruct (settles s) as (t & Ht & _ & Hb & _ & Hl); [apply Hs|]. rewrite <-Hl in *.
  destruct (se_loop t) eqn:E; simpl in Hr; try lia.
  - exists (set_loop LoopEnded t); split; [|simpl; lia]. etrans; [done|]. apply (leads_step LoopEof); simpl; unfold terminalReadLoop, runTerminalSession; by rewrite E.
  - exists (set_loop LoopEnded t); split; [|simpl; lia]. etrans; [done|]. apply (leads_step LoopStops); simpl; unfold terminalReadLoop, runTerminalSession, closing_by; by rewrite E, Hb.
  - eexists; split; [etrans; [done|]; apply (leads_step LoopCloses); simpl; unfold terminalReadLoop, runTerminalSession; by rewrite E|]. simpl; lia.
  - exists (set_loop LoopAwait t); split; [|simpl; lia]. etrans; [done|]. apply (leads_step LoopResumes); simpl; unfold terminalReadLoop, runTerminalSession, closing_by; by rewrite E, Hb.
Qed.
Lemma loop_waits n s : sess_ok s → (loop_rank (se_loop s) <= n)%nat → ∃ t, leads s t ∧ cl_by (se_close t) = None ∧ (se_loop t = LoopAwait ∨ se_loop t = LoopReturned).
Proof.
  revert s; induction n as [|n IH]; intros s Hs Hn; destruct (loop_rank (se_loop s)) as [|k] eqn:Er; try lia.
  1-2: destruct (settles s) as (t & Ht & _ & Hb & _ & Hl); [apply Hs|]; exists t; rewrite Hl; destruct (se_loop s); simpl in Er; auto; discriminate.
  destruct (loop_next s Hs) as (t & Ht & Hlt); [lia|]. destruct (IH t) as (u & Hu & ?); [by eapply leads_ok|lia|]. exists u; split; [by etrans|done].
Qed.
Definition pump_rank (p : pump) : nat :=
  match p with
  | PumpDone => 0 | PumpHangup | PumpDrainWriting _ | PumpClosing true => 1 | PumpExit | PumpWriting _ => 2 | PumpDrain => 3
  | PumpLoop | PumpSelect => 4 | PumpHello | PumpClosing false => 5
  end.
Lemma pump_next s : cl_closed (se_close s) = true → cl_by (se_close s) = None → se_exit s ≠ None → se_pump s ≠ PumpDone →
  ∃ l t, sess_step l s = Some t ∧ (pump_rank (se_pump t) < pump_rank (se_pump s))%nat ∧ se_loop t = se_loop s ∧ se_close t = se_close s ∧ se_exit t = se_exit s.
Proof.
  intros Hc Hb Hx Hp; assert (is_Some_b (se_exit s) = true) as Hx' by by destruct (se_exit s).
  exists (match se_pump s with
    | PumpHello => PumpGreets false | PumpLoop | PumpSelect => PumpSeesDone | PumpWriting _ | PumpDrainWriting _ => PumpWrites false
    | PumpClosing _ => PumpResumes | PumpDrain => if se_out s is [] then PumpDrained else PumpDrains | PumpExit => PumpReports false | _ => PumpHangs end).
  destruct (se_pump s) as [| | |c|[]| |c| | |] eqn:E; try done; try (destruct (se_out s) eqn:Eo); simpl; unfold terminalPump, terminalExit, drainTerminalOutput, closing_by; rewrite E, ?Hx', ?Hb, ?Eo; simpl.
  all: eexists; split; [reflexivity|]; simpl; unfold send_frame, Close; cbv zeta; simpl; rewrite ?Hc; simpl; auto with lia.
Qed.
Lemma pump_ends n s : cl_closed (se_close s) = true → cl_by (se_close s) = None → se_exit s ≠ None → (pump_rank (se_pump s) <= n)%nat →
  ∃ t, leads s t ∧ se_pump t = PumpDone ∧ se_loop t = se_loop s ∧ se_close t = se_close s.
Proof.
  revert s; induction n as [|n IH]; intros s Hc Hb Hx Hn.
  - exists s; split; [done|]. destruct (se_pump s) as [| | | |[]| | | | |]; simpl in Hn; try lia; done.
  - destruct (decide (pump_rank (se_pump s) = 0%nat)) as [E|E].
    + exists s; split; [done|]. destruct (se_pump s) as [| | | |[]| | | | |]; simpl in E; done.
    + destruct (pump_next s Hc Hb Hx) as (l & t & Hs & Hr & Hl & Hcl & He); [by intros Hp; rewrite Hp in E|].
      destruct (IH t) as (u & Hu & ? & ? & ?); [by rewrite Hcl|by rewrite Hcl|by rewrite He|lia|].
      exists u; split_and!; [by etrans; [by eapply leads_step|]|done|congruence|congruence].
Qed.

(** C18. A close always ends, and so can every session. While the winning call of Close is
    under way its next step is possible whatever the others do (at worst a grace runs out);
    in any run from there it takes at most seven steps of its own, after which the session
    has an exit code, its pty is closed, it is unlisted, and one audit entry with the final
    code and the reason of that call has been written. And no reachable state is a dead
    end: from each of them the handler can return. *)
Theorem session_close_ends ls s : sess_run ls started = Some s →
  (cl_closed (se_close s) = true →
    (cl_by (se_close s) ≠ None → is_Some (sess_step CloserTimesOut s)) ∧
    ∀ ls' s', sess_run ls' s = Some s' → (7 <= closer_steps ls')%nat ∨ cl_by (se_close s') = None →
      cl_by (se_close s') = None ∧ se_exit s' ≠ None ∧ se_open s' = false ∧ bk_listed (se_books s') = false ∧
      bk_audit (se_books s') = [(exit_code s', cl_reason (se_close s))]) ∧
  ∃ ls' s', sess_run ls' s = Some s' ∧ se_loop s' = LoopReturned.
Proof.
  intros Hr; assert (sess_ok s) as Hs by (apply sess_ok_reachable; by exists ls). split; [intros Hc; split; [by apply closer_enabled|]|].
  - intros ls' s' Hr' Hk; destruct (closing_run _ _ _ Hc Hr') as (Hn & Hc' & <-), (sess_run_ok _ _ _ Hs Hr') as [[Hcl _] _].
    assert (cl_by (se_close s') = None) as Hb.
    { destruct Hk as [Hk|?]; [|done]. unfold closing_left in Hn; destruct (cl_by (se_close s')) as [[? []]|], (cl_by (se_close s)) as [[? []]|]; simpl in Hn; lia || done. }
    rewrite Hc', Hb in Hcl; destruct Hcl as (? & [? Hx] & ? & ?); rewrite Hx; naive_solver.
  - destruct (loop_waits _ s Hs (Nat.le_refl _)) as (t & Ht & Hb & Hl); pose proof (leads_ok _ _ Hs Ht) as ([Hcl _] & (_ & _ & _ & Hlo) & _).
    assert (∃ u, leads s u ∧ se_loop u = LoopReturned) as (u & [ls' Hu] & ?); [|by eauto]. destruct Hl as [Hl|Hl]; [|by exists t].
    unfold loop_ok in Hlo; rewrite Hl in Hlo; rewrite Hlo, Hb in Hcl; destruct Hcl as (_ & [e He] & _).
    destruct (pump_ends _ t Hlo Hb ltac:(by rewrite He) (Nat.le_refl _)) as (u & Hu & Hp & Hlu & _).
    exists (cancel (set_loop LoopReturned u)); split; [|done]. etrans; [done|]. etrans; [done|]. apply (leads_step LoopReturns); simpl; unfold terminalReadLoop, runTerminalSession. by rewrite Hlu, Hl, Hp.
Qed.
(** A shell that ignores the hang-up and the kill. *)
Definition stubborn : list label := [PumpGreets true; ShellWrites $"x"; ReaderReads; LoopBad true].
Definition stubborn_close : list label := repeat CloserTimesOut 7 ++ [ReaderDrops].
Definition after_run (ls : list label) (s : sess) : sess := default s (sess_run ls s).
Lemma session_close_ends_witness : let s := after_run stubborn started in let s' := after_run stubborn_close s in
  sess_run stubborn started = Some s ∧ sess_run stubborn_close s = Some s' ∧ bk_signals (se_books s') = [Running; Running] ∧
  cn_frames (se_conn s') = [FHello; FError] ∧ se_open s' = false ∧ bk_audit (se_books s') = [(exit_code s', terminalReasonProtocol)].
Proof.
  intros s s'. assert (sess_run stubborn started = Some s) as H1 by (vm_compute; reflexivity).
  assert (sess_run stubborn_close s = Some s') as H2 by (vm_compute; reflexivity).
  assert (7 <= closer_steps stubborn_close)%nat as Hn by (vm_compute; lia).
  split; [exact H1|]. split; [exact H2|]. split; [vm_compute; reflexivity|]. split; [vm_compute; reflexivity|].
  destruct (proj2 (proj1 (session_close_ends stubborn s H1) ltac:(vm_compute; reflexivity)) stubborn_close s' H2 (or_introl Hn)) as (_ & _ & Ho & _ & Ha).
  split; [exact Ho|]. rewrite Ha; vm_compute; reflexivity.
Defined.
(** The shell is reaped while its output drains; a close then signals a pid that is no longer its own. *)
Example reaped_signalled : ∃ s, sess_run [PumpGreets true; ShellExits 0; Reaps; LoopEof; LoopCloses; CloserSteps] started = Some s ∧ bk_signals (se_books s) = [Reaped].
Proof. eexists; split; [vm_compute; reflexivity|reflexivity]. Qed.
