(* ===== verification/ConfigApi.v ===== *)
(** * ConfigApi: the configuration over the network, and its reload

    [internal/daemon/config_api.go] and [reload.go]: the view of the configuration with
    its secrets left out, the patch of a few keys of the file, and the reload that
    follows it. The file and its temporary sibling are the two names of [AtomicSave]; a
    reload runs [Config.Load] and [Config.ValidateDaemon] in a world in which the file has
    its present content. JSON, durations and URLs as text are interfaces. *)

From S2P Require Import Prelude GoStr GoOS Config Files Alarms Executor Ops AtomicSave.
From Stdlib Require Import QArith.
Open Scope Z_scope.

(** ** Values of a patch *)

Inductive json := JNull | JBool (b : bool) | JNumber (x : float64) | JString (s : str) | JArray (l : list json) | JObject (fields : list (str * json)).
(** The members of a decoded object are in the order a range over the map takes them;
    [order] is the order of the range at each call of [flushMissing]. *)
Class ApiEnv := {
  ParseDuration : str -> res Z;
  duration_String : Z -> str;
  unmarshal_patch : str -> option (list (str * json));
  map_order : nat -> list (str * str) -> list (str * str);
  url_String : str -> str;
}.
(** [int64(x)]; out of range it is what amd64 answers. *)
Definition int64_of (x : float64) : Z :=
  match x with
  | FNum q => let n := Z.quot (Qnum q) (Zpos (Qden q)) in if (min_int64 <=? n) && (n <=? max_int64) then n else min_int64
  | _ => min_int64
  end.
Definition float_eqb (x y : float64) : bool :=
  match x, y with FNum p, FNum q => Qeq_bool p q | FInf a, FInf b => Bool.eqb a b | _, _ => false end.
Definition replace_newlines (s : str) : str := concat ((fun c => if bool_decide (c = newline) then $"\n" else [c]) <$> s).
Definition tomlString `{Unicode} (value : str) : str := Quote (replace_newlines value).

Section rules.
Context `{Unicode, Host, ApiEnv}.
Record patchRule := mkRule { rule_validate : json -> res unit; rule_toml : json -> str }.
Definition must_be (what : string) : res unit := Err (Errorf what []).
Definition string_toml (value : json) : str := match value with JString s => tomlString s | _ => [] end.
Definition patchDurationRule : patchRule :=
  mkRule (fun value => match value with JString text => let? _ := ParseDuration text in Ok tt | _ => must_be "must be a duration string" end) string_toml.
Definition patchIntRule (min max : Z) : patchRule :=
  mkRule
    (fun value =>
      match value with
      | JNumber number =>
          let n := int64_of number in
          if negb (float_eqb number (value_of (float64_of_Z n))) || (n <? min) || (max <? n) then Err (Errorf "must be between %d and %d" [FInt min; FInt max]) else Ok tt
      | _ => must_be "must be an integer"
      end)
    (fun value => match value with JNumber number => fmt_d (int64_of number) | _ => [] end).
Definition is_string (value : json) : bool := match value with JString _ => true | _ => false end.
Definition patchStringListRule : patchRule :=
  mkRule
    (fun value => match value with JArray l => if forallb is_string l then Ok tt else must_be "must be an array of strings" | _ => must_be "must be an array of strings" end)
    (fun value => match value with JArray l => $"[" ++ join ($", ") (string_toml <$> l) ++ $"]" | _ => [] end).
Definition patchCloudURLRule : patchRule :=
  mkRule
    (fun value => match value with JString text => if bool_decide (TrimSpace text = []) then must_be "must be a URL string" else ValidateCloudURL text | _ => must_be "must be a URL string" end)
    (fun value => match value with JString text => tomlString (TrimSpace text) | _ => [] end).
Definition patchSecretRule : patchRule :=
  mkRule (fun value => match value with JString _ => Ok tt | _ => must_be "must be a string" end) string_toml.
Definition patchBoolRule : patchRule :=
  mkRule (fun value => match value with JBool _ => Ok tt | _ => must_be "must be boolean" end) (fun value => match value with JBool true => $"true" | _ => $"false" end).
Definition patchableDaemonKeys : list (str * patchRule) :=
  [($"metricsInterval", patchDurationRule); ($"streamInterval", patchDurationRule); ($"containersInterval", patchDurationRule);
   ($"imagesInterval", patchDurationRule); ($"processesInterval", patchDurationRule); ($"systemdInterval", patchDurationRule);
   ($"runtimesInterval", patchDurationRule); ($"databaseMetricsInterval", patchDurationRule); ($"logsInterval", patchDurationRule);
   ($"updateCheckInterval", patchDurationRule); ($"logsUploadInterval", patchDurationRule); ($"scriptTimeout", patchDurationRule);
   ($"processesLimit", patchIntRule 1 500); ($"maxBodyBytes", patchIntRule 1 (Z.shiftl 1 30)); ($"maxConcurrentRuns", patchIntRule 1 256);
   ($"logsUploadBatchLines", patchIntRule 1 500); ($"logsUploadEnabled", patchBoolRule); ($"statusUploadEnabled", patchBoolRule);
   ($"managedContainers", patchStringListRule); ($"managedComposes", patchStringListRule); ($"runtimes", patchStringListRule);
   ($"watchedProcesses", patchStringListRule); ($"cloudUrl", patchCloudURLRule); ($"cloudSecret", patchSecretRule)].
Definition rule_of (key : str) : option patchRule := snd <$> List.find (fun r => bool_decide (r.1 = key)) patchableDaemonKeys.
(** The loop over the patch: the literals, or nothing when a key or a value is refused. *)
Fixpoint patch_values (patch : list (str * json)) : option (list (str * str)) :=
  match patch with
  | [] => Some []
  | (key, value) :: patch =>
      match rule_of key with
      | None => None
      | Some rule =>
          match rule_validate rule value with
          | Err _ => None
          | Ok _ => match patch_values patch with Some values => Some ((key, rule_toml rule value) :: values) | None => None end
          end
      end
  end.

(** ** The patch of the file *)

(** The pattern of a key at the start of a line, white space around it and an equals sign after it: the indentation. *)
Definition key_line (key line : str) : option str :=
  let '(indent, rest) := span is_space line in
  if HasPrefix rest key then
    match (span is_space (drop (List.length key) rest)).2 with
    | c :: _ => if bool_decide (c = ch "=") then Some indent else None
    | [] => None
    end
  else None.
Definition header_line (line : str) : bool := HasPrefix (TrimSpace line) ($"[") && HasSuffix (TrimSpace line) ($"]").
Definition key_value (key value : str) : str := key ++ $" = " ++ value.
Definition missing (order : list (str * str)) (written : list str) : list str :=
  (fun kv => key_value kv.1 kv.2) <$> List.filter (fun kv => negb (bool_decide (kv.1 ∈ written))) order.
(** The first key of the range that is not written yet and matches the line. *)
Fixpoint replacement (values : list (str * str)) (written : list str) (line : str) : option (str * str) :=
  match values with
  | [] => None
  | (key, value) :: values =>
      if bool_decide (key ∈ written) then replacement values written line
      else match key_line key line with Some indent => Some (key, indent ++ key_value key value) | None => replacement values written line end
  end.
(** The loop over the lines; [n] counts the flushes. *)
Fixpoint patch_lines (values : list (str * str)) (lines written : list str) (inDaemon foundDaemon : bool) (n : nat) : list str :=
  let flush n := missing (map_order n values) written in
  match lines with
  | [] => (if inDaemon then flush n else []) ++ (if foundDaemon then [] else $"[daemon]" :: flush n)
  | line :: lines =>
      if header_line line then
        if bool_decide (TrimSpace line = $"[daemon]") then line :: patch_lines values lines written true true n
        else (if inDaemon then flush n else []) ++ line :: patch_lines values lines written false foundDaemon (if inDaemon then S n else n)
      else if inDaemon then
        match replacement values written line with
        | Some (key, line) => line :: patch_lines values lines (key :: written) true foundDaemon n
        | None => line :: patch_lines values lines written true foundDaemon n
        end
      else line :: patch_lines values lines written false foundDaemon n
  end.
Definition patchDaemonSection (text : str) (values : list (str * str)) : str := join [newline] (patch_lines values (split_on newline text) [] false false 0).
(** [writeFileAtomic]: WriteFile opens, writes and closes. *)
Definition writeFileAtomic (data : str) (faults : nat -> option nat) (d : disk) : bool * disk :=
  disk_calls [DCreate; DWrite data; DClose; DRename] faults 0 d.
End rules.

(** ** What runs *)

Record reloadableIntervals := mkIntervals {
  in_metrics : duration; in_stream : duration; in_containers : duration; in_images : duration; in_processes : duration;
  in_systemd : duration; in_runtimes : duration; in_database : duration; in_logs : duration; in_updateCheck : duration;
}.
Record reloadableConfig := mkReloadable {
  rc_actions : list WebhookConfig; rc_alarms : list AlarmConfig; rc_jobs : list JobConfig; rc_logAlerts : list LogAlertConfig;
  rc_runtimes : list str; rc_watchedProcesses : list str; rc_processesLimit : Z; rc_scriptTimeout : duration;
  rc_maxBodyBytes : Z; rc_maxConcurrentRuns : Z; rc_cloudURL : str; rc_cloudSecret : str;
  rc_logsUploadEnabled : bool; rc_logsUploadInterval : duration; rc_logsUploadBatchLines : Z;
  rc_managedContainers : list str; rc_managedComposes : list str; rc_statusUploadEnabled : bool; rc_version : str;
  rc_terminal : TerminalConfig; rc_files : FilesConfig; rc_compose : ComposeConfig; rc_priv : PrivConfig; rc_intervals : reloadableIntervals;
}.
Definition newReloadableConfig (cfg : DaemonConfig) : reloadableConfig :=
  let batchLines := if d_LogsUploadBatchLines cfg <=? 0 then 100 else d_LogsUploadBatchLines cfg in
  mkReloadable (d_Actions cfg) (d_Alarms cfg) (d_Jobs cfg) (d_LogAlerts cfg) (d_Runtimes cfg) (d_WatchedProcesses cfg) (d_ProcessesLimit cfg) (d_ScriptTimeout cfg)
    (d_MaxBodyBytes cfg) (d_MaxConcurrentRuns cfg) (d_CloudURL cfg) (d_CloudSecret cfg)
    (d_LogsUploadEnabled cfg) (d_LogsUploadInterval cfg) batchLines (d_ManagedContainers cfg) (d_ManagedComposes cfg) (d_StatusUploadEnabled cfg) (d_Version cfg)
    (d_Terminal cfg) (d_Files cfg) (d_Compose cfg) (d_Priv cfg)
    (mkIntervals (d_MetricsInterval cfg) (d_StreamInterval cfg) (d_ContainersInterval cfg) (d_ImagesInterval cfg) (d_ProcessesInterval cfg)
       (d_SystemdInterval cfg) (d_RuntimesInterval cfg) (d_DatabaseMetricsInterval cfg) (d_LogsInterval cfg) (d_UpdateCheckInterval cfg)).
(** The components and what each was last given: the executor, the native operations,
    the process collector, the seed of the watched list, jobs, log alerts (when there is
    an evaluator), the publisher (its base URL and secret) and the snapshot. *)
Record running := mkRunning {
  ru_hooks : gmap str WebhookConfig * gmap str WebhookConfig; ru_limits : Z * Z * Z; ru_opsTimeout : Z; ru_opsPriv : option opPrivPolicy;
  ru_runtimes : list str; ru_limit : Z; ru_seed : list str; ru_jobs : list JobConfig; ru_alerts : option (list LogAlertConfig);
  ru_publisher : option (str * str); ru_rt : reloadableConfig;
}.
Section reload.
Context `{Unicode, Host, ApiEnv}.
(** The helper runner the daemon found at start. *)
Variable helper : option privRunner.
Definition SetPrivilegedPolicy (priv : PrivConfig) (runner : option privRunner) : option opPrivPolicy :=
  (fun runner => mkOpPrivPolicy (priv_Helper priv) runner (priv_Systemd priv) (priv_Packages priv) (priv_Firewall priv)) <$> runner.
Fixpoint trim_slashes (s : str) : str := match s with c :: s => if bool_decide (c = ch "/") then trim_slashes s else c :: s | [] => [] end.
Definition cloud_url (cloudURL : str) : str := rev (trim_slashes (rev (TrimSpace cloudURL))).
Definition NewCloudPublisher (cfg : DaemonConfig) : option (str * str) :=
  if bool_decide (TrimSpace (d_CloudURL cfg) = []) || bool_decide (TrimSpace (d_CloudSecret cfg) = []) then None
  else
    match url_Parse (cloud_url (d_CloudURL cfg)) with
    | None => None
    | Some (scheme, host, hostname) =>
        if bool_decide (host = []) || negb (bool_decide (scheme = $"https")) && negb (bool_decide (scheme = $"http") && (bool_decide (hostname = $"localhost") || bool_decide (hostname = $"127.0.0.1")))
        then None else Some (url_String (cloud_url (d_CloudURL cfg)), d_CloudSecret cfg)
    end.
Definition publisher_Reload (cloudURL cloudSecret : str) : str * str :=
  match url_Parse (cloud_url cloudURL) with
  | None => ([], [])
  | Some (_, host, _) => if bool_decide (host = []) then ([], []) else (url_String (cloud_url cloudURL), TrimSpace cloudSecret)
  end.
(** One store of [applyReload]; [SetHooks] is that of [Executor]. *)
Inductive store := SHooks | STimeout | SMaxBody | SMaxRuns | SOpsTimeout | SOpsPriv | SRuntimes | SLimit | SSeed | SJobs | SAlerts | SPublisher | SSnapshot.
Definition apply_store (cfg : DaemonConfig) (s : store) (r : running) : running :=
  let '(timeout, body, runs) := ru_limits r in
  let mk hooks limits ot op rs li se jo al pu rt := mkRunning hooks limits ot op rs li se jo al pu rt in
  match s with
  | SHooks => let e := SetHooks (d_Webhooks cfg) (d_Actions cfg) (mkExecutor ∅ ∅ 0 0 0 0 false) in
      mk (ex_hooks e, ex_actions e) (ru_limits r) (ru_opsTimeout r) (ru_opsPriv r) (ru_runtimes r) (ru_limit r) (ru_seed r) (ru_jobs r) (ru_alerts r) (ru_publisher r) (ru_rt r)
  | STimeout => mk (ru_hooks r) (d_ScriptTimeout cfg, body, runs) (ru_opsTimeout r) (ru_opsPriv r) (ru_runtimes r) (ru_limit r) (ru_seed r) (ru_jobs r) (ru_alerts r) (ru_publisher r) (ru_rt r)
  | SMaxBody => mk (ru_hooks r) (timeout, d_MaxBodyBytes cfg, runs) (ru_opsTimeout r) (ru_opsPriv r) (ru_runtimes r) (ru_limit r) (ru_seed r) (ru_jobs r) (ru_alerts r) (ru_publisher r) (ru_rt r)
  | SMaxRuns => mk (ru_hooks r) (timeout, body, d_MaxConcurrentRuns cfg) (ru_opsTimeout r) (ru_opsPriv r) (ru_runtimes r) (ru_limit r) (ru_seed r) (ru_jobs r) (ru_alerts r) (ru_publisher r) (ru_rt r)
  | SOpsTimeout => mk (ru_hooks r) (ru_limits r) (d_ScriptTimeout cfg) (ru_opsPriv r) (ru_runtimes r) (ru_limit r) (ru_seed r) (ru_jobs r) (ru_alerts r) (ru_publisher r) (ru_rt r)
  | SOpsPriv =>
      mk (ru_hooks r) (ru_limits r) (ru_opsTimeout r) (match helper with None => ru_opsPriv r | Some _ => SetPrivilegedPolicy (d_Priv cfg) helper end)
        (ru_runtimes r) (ru_limit r) (ru_seed r) (ru_jobs r) (ru_alerts r) (ru_publisher r) (ru_rt r)
  | SRuntimes => mk (ru_hooks r) (ru_limits r) (ru_opsTimeout r) (ru_opsPriv r) (d_Runtimes cfg) (ru_limit r) (ru_seed r) (ru_jobs r) (ru_alerts r) (ru_publisher r) (ru_rt r)
  | SLimit => mk (ru_hooks r) (ru_limits r) (ru_opsTimeout r) (ru_opsPriv r) (ru_runtimes r) (d_ProcessesLimit cfg) (ru_seed r) (ru_jobs r) (ru_alerts r) (ru_publisher r) (ru_rt r)
  | SSeed => mk (ru_hooks r) (ru_limits r) (ru_opsTimeout r) (ru_opsPriv r) (ru_runtimes r) (ru_limit r) (d_WatchedProcesses cfg) (ru_jobs r) (ru_alerts r) (ru_publisher r) (ru_rt r)
  | SJobs => mk (ru_hooks r) (ru_limits r) (ru_opsTimeout r) (ru_opsPriv r) (ru_runtimes r) (ru_limit r) (ru_seed r) (d_Jobs cfg) (ru_alerts r) (ru_publisher r) (ru_rt r)
  | SAlerts =>
      mk (ru_hooks r) (ru_limits r) (ru_opsTimeout r) (ru_opsPriv r) (ru_runtimes r) (ru_limit r) (ru_seed r) (ru_jobs r)
        (match ru_alerts r with Some _ => Some (d_LogAlerts cfg) | None => None end) (ru_publisher r) (ru_rt r)
  | SPublisher =>
      mk (ru_hooks r) (ru_limits r) (ru_opsTimeout r) (ru_opsPriv r) (ru_runtimes r) (ru_limit r) (ru_seed r) (ru_jobs r) (ru_alerts r)
        (match ru_publisher r with Some _ => Some (publisher_Reload (d_CloudURL cfg) (d_CloudSecret cfg)) | None => NewCloudPublisher cfg end) (ru_rt r)
  | SSnapshot => mk (ru_hooks r) (ru_limits r) (ru_opsTimeout r) (ru_opsPriv r) (ru_runtimes r) (ru_limit r) (ru_seed r) (ru_jobs r) (ru_alerts r) (ru_publisher r) (newReloadableConfig cfg)
  end.
(** The stores in the order of the source. *)
Definition reload_stores : list store := [SHooks; STimeout; SMaxBody; SMaxRuns; SOpsTimeout; SOpsPriv; SRuntimes; SLimit; SSeed; SJobs; SAlerts; SPublisher; SSnapshot].
Definition applyReload (cfg : DaemonConfig) (r : running) : running := fold_left (fun r s => apply_store cfg s r) reload_stores r.
End reload.

(** ** Reload and the two handlers *)

(** viper: reading a file into a table, and decoding it. *)
Class Viper := {
  viper_table : Type;
  ReadInConfig : str -> res viper_table;
  Unmarshal_hook : viper_table -> res WebhookConfig;
  Unmarshal_alarm : viper_table -> res AlarmConfig;
  Unmarshal_job : viper_table -> res JobConfig;
  Unmarshal_alert : viper_table -> res LogAlertConfig;
  Unmarshal_config : Config -> option viper_table -> res Config;
  env_CONFIG_PATH : str;
}.
Section handlers.
Context `{Unicode, Host, ApiEnv, Viper, ExecEnv}.
Variable helper : option privRunner.
(** The path of the configuration, the file it names, and the metrics secret. *)
Variable configPath : str.
Variable config_file : fpath.
Variable MetricsSecret : str.

Definition load_config (path : str) : M (res Config) :=
  Load viper_table ReadInConfig Unmarshal_hook Unmarshal_alarm Unmarshal_job Unmarshal_alert Unmarshal_config env_CONFIG_PATH path.
(** Validation works on a copy of the daemon section: what it writes into the elements
    of the lists is shared with the original, the batch size it fills in is not. *)
Definition shared (cfg validated : DaemonConfig) : DaemonConfig :=
  set_d_lists (d_Actions validated) (d_Alarms validated) (d_Jobs validated) (d_LogAlerts validated) cfg.
Definition Reload (r : running) : M (res unit * running) :=
  if bool_decide (TrimSpace configPath = []) then ret (Err (Errorf "config reload requested but no config path is configured" []), r)
  else
    do cfg := load_config configPath in
    match cfg with
    | Err e => ret (Err e, r)
    | Ok cfg =>
        do validated := ValidateDaemon (Daemon cfg) in
        match validated with
        | Err e => ret (Err e, r)
        | Ok validated => ret (Ok tt, applyReload helper (shared (Daemon cfg) validated) r)
        end
    end.
(** The machine with the present content of the file. *)
Definition on_disk (d : disk) (w : world) : world :=
  set_fs (match dk_file d with Some data => <[config_file := Node (CFile data) 416 (w_euid w)]> (w_fs w) | None => delete config_file (w_fs w) end) w.

Record api_state := mkApi { as_disk : disk; as_running : running }.
(** [readSignedBody] over what the reader gives of the body. *)
Definition readSignedBody (maxBodyBytes : Z) (body : option str) (signature : str) : Z + str :=
  match body with
  | None => inl 400
  | Some body =>
      if maxBodyBytes <? Z.of_nat (List.length body) then inl 413
      else if negb (signatureValid MetricsSecret body signature) then inl 401 else inr body
  end.
(** [first] and [second] are the faults of the two writes of the file. *)
Definition handlePatchConfig (body : option str) (signature : str) (first second : nat -> option nat) (w : world) (st : api_state) : Z * api_state :=
  if bool_decide (TrimSpace configPath = []) then (400, st)
  else
    match readSignedBody (rc_maxBodyBytes (ru_rt (as_running st))) body signature with
    | inl status => (status, st)
    | inr body =>
        if bool_decide (body = []) then (400, st)
        else
          match unmarshal_patch body with
          | None => (400, st)
          | Some patch =>
              match patch_values patch with
              | None => (400, st)
              | Some values =>
                  match dk_file (as_disk st) with
                  | None => (500, st)
                  | Some existing =>
                      let '(ok, d) := writeFileAtomic (patchDaemonSection existing values) first (as_disk st) in
                      if negb ok then (500, mkApi d (as_running st))
                      else
                        match Reload (as_running st) (on_disk d w) with
                        | ((Ok _, r), _) => (200, mkApi d r)
                        | ((Err _, r), _) => (500, mkApi (writeFileAtomic existing second d).2 r)
                        end
                  end
              end
          end
    end.

Record redactedConfigView := mkView {
  cv_id : str; cv_host_id : str; cv_version : str; cv_transport : str; cv_listen : str; cv_cloud_url : str; cv_metrics_history_path : str;
  cv_metrics_retention_days : Z; cv_audit_path : str; cv_actions_dir : str; cv_alarms_dir : str; cv_jobs_dir : str; cv_logs_dir : str; cv_log_alerts_dir : str;
  cv_logs_upload_enabled : bool; cv_logs_upload_interval : str; cv_logs_upload_batch_lines : Z; cv_status_upload_enabled : bool;
  cv_managed_containers : list str; cv_managed_composes : list str; cv_metrics_interval : str; cv_stream_interval : str; cv_containers_interval : str;
  cv_images_interval : str; cv_processes_interval : str; cv_systemd_interval : str; cv_runtimes_interval : str; cv_logs_interval : str;
  cv_update_check_interval : str; cv_processes_limit : Z; cv_script_timeout : str; cv_max_body_bytes : Z; cv_max_concurrent_runs : Z;
  cv_runtimes : list str; cv_watched_processes : list str;
}.
(** The fields the source does not set are blank. *)
Definition newRedactedConfigView (cfg : DaemonConfig) : redactedConfigView :=
  mkView (d_ID cfg) (d_HostID cfg) (d_Version cfg) (d_Transport cfg) (d_Listen cfg) [] [] 0 [] (d_ActionsDir cfg) (d_AlarmsDir cfg) (d_JobsDir cfg) (d_LogsDir cfg)
    (d_LogAlertsDir cfg) (d_LogsUploadEnabled cfg) (duration_String (d_LogsUploadInterval cfg)) (d_LogsUploadBatchLines cfg) (d_StatusUploadEnabled cfg)
    (d_ManagedContainers cfg) (d_ManagedComposes cfg) (duration_String (d_MetricsInterval cfg)) (duration_String (d_StreamInterval cfg))
    (duration_String (d_ContainersInterval cfg)) (duration_String (d_ImagesInterval cfg)) (duration_String (d_ProcessesInterval cfg))
    (duration_String (d_SystemdInterval cfg)) (duration_String (d_RuntimesInterval cfg)) (duration_String (d_LogsInterval cfg))
    (duration_String (d_UpdateCheckInterval cfg)) (d_ProcessesLimit cfg) (duration_String (d_ScriptTimeout cfg)) (d_MaxBodyBytes cfg) (d_MaxConcurrentRuns cfg)
    (d_Runtimes cfg) (d_WatchedProcesses cfg).
(** A webhook with its secret blanked. *)
Definition redactedWebhooks (webhooks : list WebhookConfig) : list WebhookConfig :=
  (fun h => mkWebhookConfig (hook_Name h) [] (hook_Command h) (hook_Args h) (hook_Enabled h) (hook_NotifyOnSuccess h) (hook_NotifyOnFailure h) (hook_DisplayName h)
              (hook_Script h) (hook_Cwd h) (hook_User h) (hook_Env h) (hook_Timeout h)) <$> webhooks.
Record config_answer := mkAnswer {
  an_path : str; an_config : redactedConfigView; an_webhooks : list WebhookConfig; an_actions : list WebhookConfig; an_alarms : list AlarmConfig; an_jobs : list JobConfig;
}.
Definition handleGetConfig : M (Z + config_answer) :=
  if bool_decide (TrimSpace configPath = []) then ret (inl 400)
  else
    do cfg := load_config configPath in
    match cfg with
    | Err _ => ret (inl 500)
    | Ok cfg =>
        let d := Daemon cfg in
        ret (inr (mkAnswer configPath (newRedactedConfigView d) (redactedWebhooks (d_Webhooks d)) (d_Actions d) (d_Alarms d) (d_Jobs d)))
    end.
End handlers.
