(* ===== verification/ConfigApiFacts.v ===== *)
(** * ConfigApiFacts: what a patch changes, and what a reload leaves running

    The patched text read back line by line, the whole of the patch handler against the
    file and the running configuration, and the view without secrets. *)

From S2P Require Import Prelude GoStr Regex GoOS PrivSetFacts Config ConfigFacts Files Alarms Executor Ops AtomicSave ConfigApi.
From Stdlib Require Import QArith.
Open Scope Z_scope.
Open Scope Z_scope.

(** ** Reading lines *)

(** A bare key: letters, digits, underscore and hyphen. *)
Definition is_bare (c : ascii) : bool := is_lower c || is_upper c || is_digit c || bool_decide (c = ch "_" \/ c = ch "-").
Definition bare (key : str) : Prop := key <> [] /\ Forall (fun c => is_bare c = true) key.
(** What a line assigns to a key: the text after the equals sign. *)
Definition assigned (key line : str) : option str :=
  let '(_, rest) := span is_space line in
  if HasPrefix rest key then
    match (span is_space (drop (List.length key) rest)).2 with
    | c :: v => if bool_decide (c = ch "=") then Some v else None
    | [] => None
    end
  else None.
(** All that the [daemon] sections of the lines assign to a key, in order. *)
Fixpoint section_values (key : str) (lines : list str) (inDaemon : bool) : list str :=
  match lines with
  | [] => []
  | line :: lines =>
      if header_line line then section_values key lines (bool_decide (TrimSpace line = $"[daemon]"))
      else (if inDaemon then option_list (assigned key line) else []) ++ section_values key lines inDaemon
  end.
Definition opens (line : str) : bool := header_line line && bool_decide (TrimSpace line = $"[daemon]").
Definition sections (lines : list str) : nat := List.length (List.filter opens lines).
(** The lines that assign none of the keys in such a section. *)
Fixpoint untouched (keys : list str) (lines : list str) (inDaemon : bool) : list str :=
  match lines with
  | [] => []
  | line :: lines =>
      if header_line line then line :: untouched keys lines (bool_decide (TrimSpace line = $"[daemon]"))
      else if inDaemon && existsb (fun key => is_Some_b (assigned key line)) keys then untouched keys lines inDaemon
      else line :: untouched keys lines inDaemon
  end.

(** ** A written line *)

Lemma bare_char c : is_bare c = true -> is_graphic c = true /\ is_space c = false /\ c <> ch "=" /\ c <> ch "[".
Proof.
  intros Hc. pose proof (implies_spec is_bare (fun c => is_graphic c && negb (is_space c) && negb (bool_decide (c = ch "=")) && negb (bool_decide (c = ch "["))) eq_refl c Hc) as H.
  by repeat (bools; split_and?).
Qed.
Lemma space_char c : is_space c = true -> forall s, lead (c :: s) = Some s.
Proof.
  intros Hc s. pose proof (implies_spec is_space (fun c => in_range 9 13 c || (code c =? 32)%nat) eq_refl c Hc) as H. unfold lead. by rewrite H.
Qed.
Lemma graphic_lead_head a s : is_graphic a = true -> lead (a :: s) = None.
Proof.
  unfold lead, is_graphic, in_range. intros [?%Nat.leb_le ?%Nat.leb_le]%andb_true_iff.
  repeat match goal with |- context [(code a =? ?n)%nat] => rewrite (proj2 (Nat.eqb_neq (code a) n)) by lia end.
  rewrite (proj2 (Nat.leb_gt (code a) 13)) by lia. rewrite andb_false_r. simpl. destruct s as [|? [|? ?]]; done.
Qed.
Lemma span_indent indent c t : Forall (fun c => is_space c = true) indent -> is_space c = false -> span is_space (indent ++ c :: t) = (indent, c :: t).
Proof. intros Hi Hc. induction Hi as [|x indent Hx _ IH]; simpl; [by rewrite Hc|]. by rewrite Hx, IH. Qed.
Lemma span_spaces s : Forall (fun c => is_space c = true) (span is_space s).1.
Proof. induction s as [|c s IH]; simpl; [constructor|]. destruct (is_space c) eqn:E; [|constructor]. destruct (span is_space s); simpl in *. by constructor. Qed.
Lemma strip_indent n indent c t : Forall (fun c => is_space c = true) indent -> is_graphic c = true -> (List.length indent <= n)%nat -> strip lead n (indent ++ c :: t) = c :: t.
Proof.
  intros Hi Hc. revert n. induction Hi as [|x indent Hx _ IH]; intros n Hn; cbn [app] in *.
  - apply strip_none. by apply graphic_lead_head.
  - simpl in Hn. destruct n as [|n]; [lia|]. cbn [strip]. rewrite space_char by done. apply IH. lia.
Qed.
Lemma trimmed_prefix s : TrimRightSpace s `prefix_of` s.
Proof. unfold TrimRightSpace. destruct (strip_suffix trail trail_suffix (List.length s) (rev s)) as [p Hp]. exists (rev p). by rewrite <-rev_app_distr, <-Hp, rev_involutive. Qed.
Definition written_line (indent key value : str) : str := indent ++ key_value key value.
Lemma key_value_cons key value : bare key -> exists c t, is_bare c = true /\ key_value key value = c :: t.
Proof. intros [Hne Hk]. destruct Hk as [|c key Hc _]; [done|]. by exists c, (key ++ $" = " ++ value). Qed.
(** It is not a header, and it assigns its key, and no other. *)
Lemma written_header indent key value : Forall (fun c => is_space c = true) indent -> bare key -> header_line (written_line indent key value) = false.
Proof.
  intros Hi Hk. destruct (key_value_cons key value Hk) as (c & t & Hc & E). destruct (bare_char c Hc) as (Hg & _ & _ & Hb).
  unfold header_line, written_line, TrimSpace, TrimLeftSpace. rewrite E, strip_indent by (done || (rewrite length_app; lia)).
  apply andb_false_iff. left. apply not_true_iff_false. intros [r Hr]%HasPrefix_spec. destruct (trimmed_prefix (c :: t)) as [q Hq]. rewrite Hr in Hq. by injection Hq as ->.
Qed.
Lemma written_assigned indent key value key' : Forall (fun c => is_space c = true) indent -> bare key -> bare key' ->
  assigned key' (written_line indent key value) = if bool_decide (key' = key) then Some ($" " ++ value) else None.
Proof.
  intros Hi Hk Hk'. destruct (key_value_cons key value Hk) as (c & t & Hc & E). destruct (bare_char c Hc) as (_ & Hs & _).
  unfold assigned, written_line. rewrite E, span_indent, <-E by done. clear c t Hc E Hs. unfold key_value. case_bool_decide as Hkk.
  - subst key'. rewrite (proj2 (HasPrefix_spec _ _)) by (by eexists). rewrite drop_app_length. reflexivity.
  - destruct (HasPrefix _ key') eqn:Ep; [|done]. apply HasPrefix_spec in Ep as [r Hr].
    assert (exists c q, key = key' ++ c :: q) as (c & q & ->).
    { destruct (app_eq_inv _ _ _ _ Hr) as [[q [Hq _]]|[q [Hq Hq2]]].
      - destruct q as [|c q]; [rewrite app_nil_r in Hq; by subst|]. by exists c, q.
      - exfalso. destruct q as [|c q]; [rewrite app_nil_r in Hq; by subst|]. injection Hq2 as <- _. destruct Hk' as [_ Hk']. rewrite Hq in Hk'.
        apply Forall_app in Hk' as [_ [Hsp _]%Forall_cons]. by vm_compute in Hsp. }
    rewrite <-!(assoc_L (++)), drop_app_length. destruct Hk as [_ [_ [Hc _]%Forall_cons]%Forall_app]. destruct (bare_char c Hc) as (_ & Hs & Hne & _).
    simpl. rewrite Hs. simpl. by rewrite bool_decide_eq_false_2.
Qed.

(** ** Keys of a line *)

Definition first_bare (line : str) : str := (span is_bare (span is_space line).2).1.
Lemma span_app (f : ascii -> bool) s t : Forall (fun c => f c = true) s -> (forall c r, t = c :: r -> f c = false) -> span f (s ++ t) = (s, t).
Proof. intros Hs Ht. induction Hs as [|x s Hx _ IH]; simpl; [|by rewrite Hx, IH]. destruct t as [|c r]; [done|]. simpl. by rewrite (Ht c r). Qed.
Lemma span_eq (f : ascii -> bool) s : s = (span f s).1 ++ (span f s).2.
Proof. induction s as [|c s IH]; simpl; [done|]. destruct (f c); [|done]. destruct (span f s); simpl in *. by f_equal. Qed.
Lemma assigned_key key line v : bare key -> assigned key line = Some v -> first_bare line = key.
Proof.
  intros [_ Hk]. unfold assigned, first_bare. destruct (span is_space line) as [indent rest]. destruct (HasPrefix rest key) eqn:Ep; [|done].
  apply HasPrefix_spec in Ep as [r ->]. rewrite drop_app_length. intros Ha. simpl. rewrite span_app; [done|done|]. intros c t ->.
  simpl in Ha. destruct (is_bare c) eqn:Ec; [|done]. destruct (bare_char c Ec) as (_ & Hs & Hne & _). rewrite Hs in Ha. simpl in Ha. by rewrite bool_decide_eq_false_2 in Ha.
Qed.
Lemma key_line_assigned key line : match key_line key line with
  | Some indent => indent = (span is_space line).1 /\ is_Some (assigned key line)
  | None => assigned key line = None
  end.
Proof.
  unfold key_line, assigned. destruct (span is_space line) as [indent rest]. destruct (HasPrefix rest key); [|done].
  destruct ((span is_space (drop (List.length key) rest)).2) as [|c v]; [done|]. by case_bool_decide.
Qed.

Section patched.
Context `{ApiEnv}.
Variable values : list (str * str).
Hypothesis values_keys : NoDup values.*1.
Hypothesis values_bare : Forall bare values.*1.
Hypothesis order_values : forall n, map_order n values ≡ₚ values.

Lemma value_bare key value : (key, value) ∈ values -> bare key.
Proof. intros Hin. rewrite Forall_forall in values_bare. apply values_bare. by apply (list_elem_of_fmap_2 fst _ (key, value)). Qed.
Lemma value_unique key v v' : (key, v) ∈ values -> (key, v') ∈ values -> v = v'.
Proof.
  intros H1 H2. apply list_elem_of_lookup in H1 as [i Hi], H2 as [j Hj].
  assert (i = j) as ->; [|congruence]. eapply (NoDup_lookup values.*1); [done| |]; by rewrite list_lookup_fmap, ?Hi, ?Hj.
Qed.
Lemma replacement_spec vs written line : (forall kv, kv ∈ vs -> kv ∈ values) ->
  match replacement vs written line with
  | Some (key, line') => exists indent value, (key, value) ∈ values /\ key ∉ written /\ is_Some (assigned key line) /\
      indent = (span is_space line).1 /\ line' = written_line indent key value
  | None => forall key value, (key, value) ∈ vs -> key ∈ written \/ assigned key line = None
  end.
Proof.
  induction vs as [|[key value] vs IH]; intros Hin; simpl; [by intros ? ? ?%not_elem_of_nil|].
  assert (forall kv, kv ∈ vs -> kv ∈ values) as Hvs by (intros; apply Hin; by right). specialize (IH Hvs).
  case_bool_decide as Hw.
  - destruct (replacement vs written line) as [[? ?]|]; [done|]. intros k v [Hk|Hk]%elem_of_cons; [injection Hk as -> ->; by left|eauto].
  - pose proof (key_line_assigned key line) as Hk. destruct (key_line key line) as [indent|].
    + exists indent, value. destruct Hk. split_and!; try done. apply Hin. by left.
    + destruct (replacement vs written line) as [[? ?]|]; [done|]. intros k v [Hkv|Hkv]%elem_of_cons; [injection Hkv as -> ->; by right|eauto].
Qed.
(** What a flush adds, read back. *)
Definition kept (written : list str) (key value : str) : list str := if bool_decide (key ∈ written) then [] else [$" " ++ value].
Lemma missing_line k v : (k, v) ∈ values -> header_line (key_value k v) = false.
Proof. intros Hin. apply (written_header [] k v); [constructor|by eapply value_bare]. Qed.
Lemma missing_assigned key k v : bare key -> (k, v) ∈ values -> assigned key (key_value k v) = if bool_decide (key = k) then Some ($" " ++ v) else None.
Proof. intros Hk Hin. apply (written_assigned [] k v); [constructor|by eapply value_bare|done]. Qed.
Lemma missing_cons k v vs written : missing ((k, v) :: vs) written = (if bool_decide (k ∈ written) then [] else [key_value k v]) ++ missing vs written.
Proof. unfold missing. simpl. by destruct (bool_decide _). Qed.
Lemma flush_line key k v rest : bare key -> (k, v) ∈ values ->
  section_values key (key_value k v :: rest) true = (if bool_decide (key = k) then [$" " ++ v] else []) ++ section_values key rest true.
Proof. intros Hk Hin. cbn [section_values]. rewrite missing_line, missing_assigned by done. by case_bool_decide. Qed.
Lemma flush_values_in vs written key rest : bare key -> (forall kv, kv ∈ vs -> kv ∈ values) -> (forall value, (key, value) ∉ vs) ->
  section_values key (missing vs written ++ rest) true = section_values key rest true.
Proof.
  intros Hk. induction vs as [|[k v] vs IH]; intros Hin Hno; [done|]. rewrite missing_cons. specialize (IH ltac:(intros; apply Hin; by right)).
  assert (key <> k) by (intros ->; apply (Hno v); by left). case_bool_decide; cbn [app]; [|rewrite flush_line by (done || (apply Hin; by left)); rewrite bool_decide_eq_false_2 by done];
    apply IH; intros v' Hv'; apply (Hno v'); by right.
Qed.
Lemma flush_values vs written key value rest : NoDup vs.*1 -> (forall kv, kv ∈ vs -> kv ∈ values) -> (key, value) ∈ vs ->
  section_values key (missing vs written ++ rest) true = kept written key value ++ section_values key rest true.
Proof.
  induction vs as [|[k v] vs IH]; intros Hnd Hin Hkv; [by apply not_elem_of_nil in Hkv|]. cbn in Hnd. apply NoDup_cons in Hnd as [Hk Hnd].
  assert (bare key) as Hb by (eapply value_bare; by apply Hin). rewrite missing_cons. apply elem_of_cons in Hkv as [[= <- <-]|Hkv].
  - assert (section_values key (missing vs written ++ rest) true = section_values key rest true) as Hr.
    { apply flush_values_in; [done|intros; apply Hin; by right|]. intros v' Hv'. apply Hk. by apply (list_elem_of_fmap_2 fst _ (key, v')). }
    unfold kept. case_bool_decide; cbn [app]; [done|]. rewrite flush_line by (done || (apply Hin; by left)). rewrite bool_decide_eq_true_2 by done. cbn [app]. by rewrite Hr.
  - assert (key <> k) by (intros ->; apply Hk; by apply (list_elem_of_fmap_2 fst _ (k, value))). specialize (IH Hnd ltac:(intros; apply Hin; by right) Hkv).
    case_bool_decide; cbn [app]; [done|]. rewrite flush_line by (done || (apply Hin; by left)). by rewrite bool_decide_eq_false_2.
Qed.
Lemma flush_untouched vs written rest : (forall kv, kv ∈ vs -> kv ∈ values) -> untouched values.*1 (missing vs written ++ rest) true = untouched values.*1 rest true.
Proof.
  induction vs as [|[k v] vs IH]; intros Hin; [done|]. rewrite missing_cons. specialize (IH ltac:(intros; apply Hin; by right)). case_bool_decide; cbn [app]; [done|].
  cbn [untouched]. rewrite missing_line by (apply Hin; by left). rewrite (proj2 (List.existsb_exists _ _)); [done|].
  exists k. split; [apply list_elem_of_In; apply (list_elem_of_fmap_2 fst _ (k, v)), Hin; by left|].
  rewrite missing_assigned by (eapply value_bare, Hin; by left) || (apply Hin; by left). by rewrite bool_decide_eq_true_2.
Qed.

(** ** The loop *)

Lemma sections_cons line lines : sections (line :: lines) = ((if opens line then 1 else 0) + sections lines)%nat.
Proof. unfold sections. simpl. by destruct (opens line). Qed.
Lemma no_section_values key lines : sections lines = 0%nat -> section_values key lines false = [].
Proof.
  induction lines as [|line lines IH]; [done|]. rewrite sections_cons. unfold opens. intros Hs. cbn [section_values].
  destruct (header_line line); [|by apply IH]. destruct (bool_decide _); [done|]. by apply IH.
Qed.
Lemma no_section_untouched keys lines : sections lines = 0%nat -> untouched keys lines false = lines.
Proof.
  induction lines as [|line lines IH]; [done|]. rewrite sections_cons. unfold opens. intros Hs. cbn [untouched].
  destruct (header_line line); [destruct (bool_decide _); [done|]|]; cbn [andb]; by rewrite IH.
Qed.
(** Behind the section nothing changes. *)
Lemma patch_after lines written n : sections lines = 0%nat -> patch_lines values lines written false true n = lines.
Proof.
  revert n. induction lines as [|line lines IH]; intros n; [done|]. rewrite sections_cons. unfold opens. intros Hs. cbn [patch_lines].
  destruct (header_line line); [destruct (bool_decide _); [done|]|]; cbn [app]; by rewrite IH.
Qed.
Lemma order_in n kv : kv ∈ map_order n values -> kv ∈ values.
Proof. by rewrite order_values. Qed.
Lemma order_keys n : NoDup (map_order n values).*1.
Proof. by rewrite order_values. Qed.
Lemma flush_kept n written key value rest : (key, value) ∈ values ->
  section_values key (missing (map_order n values) written ++ rest) true = kept written key value ++ section_values key rest true.
Proof. intros Hin. apply flush_values; [apply order_keys|apply order_in|by rewrite order_values]. Qed.
(** One line inside the section: it stays, or it is replaced by one that assigns its key. *)
Lemma inside line lines written n : header_line line = false ->
  (patch_lines values (line :: lines) written true true n = line :: patch_lines values lines written true true n /\
   forall key value, (key, value) ∈ values -> key ∈ written \/ assigned key line = None) \/
  (exists key value indent, patch_lines values (line :: lines) written true true n = written_line indent key value :: patch_lines values lines (key :: written) true true n /\
   (key, value) ∈ values /\ key ∉ written /\ is_Some (assigned key line) /\ Forall (fun c => is_space c = true) indent).
Proof.
  intros Hl. cbn [patch_lines]. rewrite Hl. pose proof (replacement_spec values written line (fun _ H => H)) as Hr.
  destruct (replacement values written line) as [[key line']|]; [right|by left].
  destruct Hr as (indent & value & ? & ? & ? & -> & ->). exists key, value, (span is_space line).1. split_and!; [done..|apply span_spaces].
Qed.
Lemma section_line key line lines : header_line line = false -> section_values key (line :: lines) true = option_list (assigned key line) ++ section_values key lines true.
Proof. intros Hl. cbn [section_values]. by rewrite Hl. Qed.
Lemma other_unassigned key key' line : bare key -> bare key' -> key <> key' -> is_Some (assigned key' line) -> assigned key line = None.
Proof.
  intros Hk Hk' Hne [v' Hv']. destruct (assigned key line) as [v|] eqn:E; [|done]. destruct Hne. by rewrite <-(assigned_key key line v), <-(assigned_key key' line v').
Qed.
Lemma patch_end lines line written n : header_line line = true -> opens line = false -> sections lines = 0%nat ->
  patch_lines values (line :: lines) written true true n = missing (map_order n values) written ++ line :: lines.
Proof. intros Hl Ho Hs. unfold opens in Ho. rewrite Hl in Ho. cbn [patch_lines]. rewrite Hl, patch_after by done. destruct (bool_decide _); done. Qed.
Lemma header_values key line lines : header_line line = true -> opens line = false -> sections lines = 0%nat -> section_values key (line :: lines) true = [].
Proof. intros Hl Ho Hs. unfold opens in Ho. rewrite Hl in Ho. cbn [section_values andb] in *. rewrite Hl, Ho. by apply no_section_values. Qed.
Lemma split_sections line lines : sections (line :: lines) = 0%nat -> opens line = false /\ sections lines = 0%nat.
Proof. rewrite sections_cons. by destruct (opens line). Qed.
Lemma in_values key value lines written n : (key, value) ∈ values -> sections lines = 0%nat -> (List.length (section_values key lines true) <= 1)%nat ->
  (key ∈ written -> section_values key lines true = []) -> section_values key (patch_lines values lines written true true n) true = kept written key value.
Proof.
  intros Hin. assert (bare key) as Hb by (eapply value_bare; eassumption). revert written n. induction lines as [|line lines IH]; intros written n Hs Hlen Hw.
  - cbn [patch_lines]. by rewrite (flush_kept n written key value), app_nil_r.
  - apply split_sections in Hs as [Ho Hs]. destruct (header_line line) eqn:Hl.
    { rewrite patch_end, (flush_kept n written key value), header_values by done. by rewrite app_nil_r. }
    rewrite section_line in Hlen, Hw by done. destruct (inside line lines written n Hl) as [[-> Hno]|(k & v & indent & -> & Hkv & Hk & Ha & Hsp)].
    + rewrite section_line by done. assert (assigned key line = None) as Hn.
      { destruct (Hno key value Hin) as [Hkw|?]; [|done]. specialize (Hw Hkw). by destruct (assigned key line). }
      rewrite Hn in *. by apply IH.
    + assert (bare k) by (eapply value_bare; eassumption). rewrite section_line, written_assigned by (done || by apply written_header). case_bool_decide as Hkk.
      * subst k. rewrite (value_unique _ _ _ Hkv Hin). destruct Ha as [a Ha]. rewrite Ha in Hlen. simpl in Hlen.
        rewrite IH; [|done|lia|intros _; apply length_zero_iff_nil; lia]. unfold kept. rewrite bool_decide_eq_true_2 by by left. by rewrite bool_decide_eq_false_2.
      * rewrite (other_unassigned key k line) in Hlen, Hw by done. simpl. rewrite IH; [|done|done|].
        -- unfold kept. by rewrite (bool_decide_ext (key ∈ k :: written) (key ∈ written)) by (rewrite elem_of_cons; naive_solver).
        -- intros [?|?]%elem_of_cons; [done|auto].
Qed.
Lemma in_others key lines written n : bare key -> key ∉ values.*1 -> sections lines = 0%nat ->
  section_values key (patch_lines values lines written true true n) true = section_values key lines true.
Proof.
  intros Hb Hno. assert (forall m w rest, section_values key (missing (map_order m values) w ++ rest) true = section_values key rest true) as Hf.
  { intros m w rest. apply flush_values_in; [done|apply order_in|]. intros v Hv%order_in. apply Hno. by apply (list_elem_of_fmap_2 fst _ (key, v)). }
  revert written n. induction lines as [|line lines IH]; intros written n Hs; [cbn [patch_lines]; by rewrite Hf|].
  apply split_sections in Hs as [Ho Hs]. destruct (header_line line) eqn:Hl; [by rewrite patch_end, Hf|]. rewrite section_line by done.
  destruct (inside line lines written n Hl) as [[-> _]|(k & v & indent & -> & Hkv & _ & Ha & Hsp)]; [by rewrite section_line, IH|].
  assert (bare k) by (eapply value_bare; eassumption). assert (key <> k) by (intros ->; apply Hno; by apply (list_elem_of_fmap_2 fst _ (k, v))).
  rewrite section_line, written_assigned, bool_decide_eq_false_2 by (done || by apply written_header). by rewrite IH, (other_unassigned key k line).
Qed.
Lemma in_untouched lines written n : sections lines = 0%nat -> untouched values.*1 (patch_lines values lines written true true n) true = untouched values.*1 lines true.
Proof.
  revert written n. induction lines as [|line lines IH]; intros written n Hs.
  { cbn [patch_lines]. rewrite flush_untouched; [done|apply order_in]. }
  apply split_sections in Hs as [Ho Hs]. destruct (header_line line) eqn:Hl; [rewrite patch_end, flush_untouched; [done|apply order_in|done..]|].
  destruct (inside line lines written n Hl) as [[-> _]|(k & v & indent & -> & Hkv & _ & Ha & Hsp)]; cbn [untouched]; rewrite Hl; [by rewrite IH by done|].
  assert (k ∈ values.*1) as Hk by by apply (list_elem_of_fmap_2 fst _ (k, v)). assert (bare k) by (eapply value_bare; eassumption).
  rewrite written_header by done. rewrite !(proj2 (List.existsb_exists _ _)); [by rewrite IH| |]; exists k; (split; [by apply list_elem_of_In|]).
  - by destruct Ha as [a ->].
  - by rewrite written_assigned, bool_decide_eq_true_2.
Qed.
(** *** From the first line *)

Lemma daemon_header : header_line ($"[daemon]") = true /\ bool_decide (TrimSpace ($"[daemon]") = $"[daemon]") = true.
Proof. split; vm_compute; reflexivity. Qed.
(** A line in front of the section, and what a claim about the rest of the lines says of it. *)
Lemma before_line (claim : list str -> list str -> Prop) lines n :
  (forall m, claim [] ($"[daemon]" :: missing (map_order m values) [] )) ->
  (forall line lines m, opens line = true -> sections lines = 0%nat -> claim (line :: lines) (line :: patch_lines values lines [] true true m)) ->
  (forall line lines out, opens line = false -> claim lines out -> claim (line :: lines) (line :: out)) ->
  (sections lines <= 1)%nat -> claim lines (patch_lines values lines [] false false n).
Proof.
  intros H0 H1 H2. revert n. induction lines as [|line lines IH]; intros n Hs; [apply H0|]. rewrite sections_cons in Hs. cbn [patch_lines].
  destruct (opens line) eqn:Ho; unfold opens in Ho; destruct (header_line line) eqn:Hl; cbn [andb] in Ho; try done; rewrite ?Ho.
  - apply H1; [by unfold opens; rewrite Hl|lia].
  - cbn [app]. apply H2; [by unfold opens; rewrite Hl|]. apply IH. lia.
  - apply H2; [by unfold opens; rewrite Hl|]. apply IH. lia.
Qed.
Lemma section_before key line lines : opens line = false -> section_values key (line :: lines) false = section_values key lines false.
Proof. unfold opens. cbn [section_values]. destruct (header_line line); cbn [andb]; [by intros ->|done]. Qed.
Lemma section_opens key line lines : opens line = true -> section_values key (line :: lines) false = section_values key lines true.
Proof. unfold opens. intros [Hl Hd]%andb_true_iff. cbn [section_values]. by rewrite Hl, Hd. Qed.
Lemma section_added key rest : section_values key ($"[daemon]" :: rest) false = section_values key rest true.
Proof. apply section_opens. unfold opens. by destruct daemon_header as [-> ->]. Qed.
Lemma before_values key value lines n : (key, value) ∈ values -> (sections lines <= 1)%nat -> (List.length (section_values key lines false) <= 1)%nat ->
  section_values key (patch_lines values lines [] false false n) false = [$" " ++ value].
Proof.
  intros Hin Hs. apply (before_line (fun lines out => (List.length (section_values key lines false) <= 1)%nat -> section_values key out false = [$" " ++ value]) lines n); [| | |done].
  - intros m _. rewrite section_added, <-(app_nil_r (missing _ _)). by rewrite (flush_kept m [] key value).
  - intros line rest m Ho Hr. rewrite !section_opens by done. intros Hlen. rewrite (in_values key value) by (done || by intros ?%not_elem_of_nil). done.
  - intros line rest out Ho IH. by rewrite !section_before.
Qed.
Lemma before_others key lines n : bare key -> key ∉ values.*1 -> (sections lines <= 1)%nat ->
  section_values key (patch_lines values lines [] false false n) false = section_values key lines false.
Proof.
  intros Hb Hno Hs. apply (before_line (fun lines out => section_values key out false = section_values key lines false) lines n); [| | |done].
  - intros m. rewrite section_added, <-(app_nil_r (missing _ _)). apply flush_values_in; [done|apply order_in|]. intros v Hv%order_in. apply Hno. by apply (list_elem_of_fmap_2 fst _ (key, v)).
  - intros line rest m Ho Hr. rewrite !section_opens by done. by apply in_others.
  - intros line rest out Ho IH. by rewrite !section_before.
Qed.
Lemma before_untouched lines n : (sections lines <= 1)%nat ->
  untouched values.*1 (patch_lines values lines [] false false n) false = untouched values.*1 lines false ++ (if (sections lines =? 0)%nat then [$"[daemon]"] else []).
Proof.
  intros Hs. apply (before_line (fun lines out => untouched values.*1 out false = untouched values.*1 lines false ++ (if (sections lines =? 0)%nat then [$"[daemon]"] else [])) lines n); [| | |done].
  - intros m. cbn [untouched]. destruct daemon_header as [-> ->]. rewrite <-(app_nil_r (missing _ _)), flush_untouched; [done|apply order_in].
  - intros line rest m Ho Hr. rewrite sections_cons, Ho. unfold opens in Ho. apply andb_true_iff in Ho as [Hl Hd]. cbn [untouched]. rewrite Hl, Hd, in_untouched by done. by rewrite app_nil_r.
  - intros line rest out Ho IH. rewrite sections_cons, Ho. unfold opens in Ho. cbn [untouched]. destruct (header_line line); cbn [andb] in *; [rewrite Ho|]; by rewrite IH.
Qed.
(** The lines hold no newline when the values hold none. *)
Lemma lines_clean lines written inD found n : Forall (fun kv => newline ∉ kv.2) values -> Forall (fun line => newline ∉ line) lines ->
  Forall (fun line => newline ∉ line) (patch_lines values lines written inD found n).
Proof.
  intros Hv Hl. assert (forall k v, (k, v) ∈ values -> newline ∉ key_value k v) as Hkv.
  { intros k v Hin. unfold key_value. rewrite !not_elem_of_app. split_and!.
    - intros Hn. destruct (value_bare k v Hin) as [_ Hk]. rewrite Forall_forall in Hk. specialize (Hk _ Hn). by vm_compute in Hk.
    - apply (bool_decide_eq_true_1 (newline ∉ $" = ")). vm_compute. reflexivity.
    - rewrite Forall_forall in Hv. by apply (Hv (k, v)). }
  assert (forall m w, Forall (fun line => newline ∉ line) (missing (map_order m values) w)) as Hm.
  { intros m w. apply Forall_fmap, Forall_forall. intros [k v] Hin. apply Hkv, (order_in m). apply list_elem_of_In, List.filter_In in Hin as [Hin _]. by apply list_elem_of_In. }
  assert (newline ∉ $"[daemon]") as Hd by (apply (bool_decide_eq_true_1 (newline ∉ $"[daemon]")); vm_compute; reflexivity).
  revert written inD found n. induction Hl as [|line lines Hline Hl IH]; intros written inD found n; cbn [patch_lines].
  - apply Forall_app. split; [by destruct inD|]. destruct found; [constructor|]. by constructor.
  - destruct (header_line line) eqn:El; [destruct (bool_decide _); [by constructor|]; apply Forall_app; split; [by destruct inD|by constructor]|].
    destruct inD; [|by constructor]. pose proof (replacement_spec values written line (fun _ H => H)) as Hr.
    destruct (replacement values written line) as [[k line']|]; [|by constructor]. constructor; [|done].
    destruct Hr as (indent & v & Hin & _ & _ & -> & ->). unfold written_line. apply not_elem_of_app. split; [|by apply Hkv].
    intros Hn. apply Hline. rewrite (span_eq is_space line). apply elem_of_app. by left.
Qed.
End patched.

(** ** The literals *)

Section literals.
Context `{Unicode, Host, ApiEnv}.
Hypothesis quote_clean : forall s, newline ∉ unicode_Quote s.

Lemma Quote_clean s : newline ∉ Quote s.
Proof.
  unfold Quote. destruct (forallb is_ascii s); [|done]. intros [Hq|Hin]%elem_of_cons; [by vm_compute in Hq|].
  apply elem_of_app in Hin as [Hin|Hin]; [|by apply list_elem_of_singleton in Hin; vm_compute in Hin].
  apply list_elem_of_In, in_concat in Hin as (l & Hl & Hin). apply list_elem_of_In, list_elem_of_fmap in Hl as (c & -> & _). apply list_elem_of_In in Hin.
  assert (forallb (fun c => negb (bool_decide (newline ∈ quote_byte c))) all_bytes = true) as Hall by (vm_compute; reflexivity).
  rewrite forallb_forall in Hall. specialize (Hall c). rewrite <-list_elem_of_In in Hall. specialize (Hall (elem_of_all_bytes c)). by bools.
Qed.
Lemma digit_clean d : newline ∉ [byte (48 + Z.to_nat (d mod 10))].
Proof.
  intros Hd%list_elem_of_singleton. apply (f_equal code) in Hd. unfold newline in Hd. pose proof (Z.mod_pos_bound d 10 ltac:(lia)). rewrite !code_byte in Hd by lia. lia.
Qed.
Lemma decimal_clean n z : newline ∉ decimal_digits n z.
Proof. revert z. induction n as [|n IH]; intros z; simpl; [by apply not_elem_of_nil|]. rewrite not_elem_of_app. split; [|apply digit_clean]. destruct (_ <? _); [apply not_elem_of_nil|done]. Qed.
Lemma fmt_d_clean z : newline ∉ fmt_d z.
Proof. unfold fmt_d. destruct (z <? 0); [|apply decimal_clean]. intros [Hq|Hin]%elem_of_cons; [by vm_compute in Hq|]. by eapply decimal_clean. Qed.
Lemma join_clean sep l : newline ∉ sep -> Forall (fun s => newline ∉ s) l -> newline ∉ join sep l.
Proof.
  intros Hs Hl. induction Hl as [|x l Hx Hl IH]; [apply not_elem_of_nil|]. destruct l as [|y l]; [done|]. rewrite join_cons by done. by rewrite !not_elem_of_app.
Qed.
Ltac clean_literal := match goal with |- newline ∉ ?l => apply (bool_decide_eq_true_1 (newline ∉ l)); vm_compute; reflexivity end.
Lemma string_toml_clean value : newline ∉ string_toml value.
Proof. destruct value; try apply not_elem_of_nil. apply Quote_clean. Qed.
Lemma rule_clean key rule value : rule_of key = Some rule -> newline ∉ rule_toml rule value.
Proof.
  unfold rule_of. destruct (List.find _ _) as [[k r]|] eqn:Ef; [|done]. intros [= <-]. apply find_some in Ef as [Hin _]. simpl in Hin.
  assert (forall min max, newline ∉ rule_toml (patchIntRule min max) value) by (intros; destruct value; try apply not_elem_of_nil; apply fmt_d_clean).
  assert (newline ∉ rule_toml patchBoolRule value) by (destruct value as [|[]| | | |]; clean_literal).
  assert (newline ∉ rule_toml patchStringListRule value).
  { destruct value as [| | | |l|]; try apply not_elem_of_nil. change (newline ∉ $"[" ++ join ($", ") (string_toml <$> l) ++ $"]"). rewrite !not_elem_of_app. split_and!; [clean_literal| |clean_literal]. apply join_clean; [clean_literal|]. apply Forall_fmap, Forall_forall. intros x _. apply string_toml_clean. }
  assert (newline ∉ rule_toml patchCloudURLRule value) by (destruct value; try apply not_elem_of_nil; apply Quote_clean).
  pose proof (string_toml_clean value). repeat (destruct Hin as [[= _ <-]|Hin]; [done|]). done.
Qed.
Lemma rule_bare key rule : rule_of key = Some rule -> bare key.
Proof.
  unfold rule_of. destruct (List.find _ _) as [[k r]|] eqn:Ef; [|done]. intros _. apply find_some in Ef as [Hin Hk]. bools. simpl in Hk. subst k.
  assert (forallb (fun k => negb (bool_decide (k = [])) && forallb is_bare k) (fst <$> patchableDaemonKeys) = true) as Hall by (vm_compute; reflexivity).
  rewrite forallb_forall in Hall. specialize (Hall key (in_map fst _ _ Hin)). apply andb_true_iff in Hall as [Hne Hf]. bools. split; [done|]. by apply Forall_forallb.
Qed.
Lemma patch_values_valid patch values : patch_values patch = Some values -> Forall (fun kv => exists rule, rule_of kv.1 = Some rule /\ rule_validate rule kv.2 = Ok tt) patch.
Proof.
  revert values. induction patch as [|[key value] patch IH]; intros values; simpl; [by constructor|]. destruct (rule_of key) as [rule|] eqn:Er; [|done].
  destruct (rule_validate rule value) as [[]|] eqn:Ev; [|done]. destruct (patch_values patch) as [rest|]; [|done]. intros _. constructor; [by exists rule|by eapply IH].
Qed.
Lemma patch_values_spec patch values : patch_values patch = Some values -> values.*1 = patch.*1 /\ Forall bare values.*1 /\ Forall (fun kv => newline ∉ kv.2) values.
Proof.
  revert values. induction patch as [|[key value] patch IH]; intros values; simpl; [intros [= <-]; by repeat constructor|].
  destruct (rule_of key) as [rule|] eqn:Er; [|done]. destruct (rule_validate rule value) as [[]|] eqn:Ev; [|done]. destruct (patch_values patch) as [rest|]; [|done].
  intros [= <-]. destruct (IH rest eq_refl) as (Hk & ? & ?). simpl. split_and!; [f_equal; exact Hk|constructor; [by eapply rule_bare|done]|constructor; [by eapply rule_clean|done]].
Qed.
End literals.

(** ** The patched text *)

Section patch_text.
Context `{Unicode, Host, ApiEnv}.

(** C20. A patch sets what it names and leaves the rest alone. For a patch the handler
    accepts, of a file with at most one [daemon] section in which none of its keys is
    assigned twice, the section of the patched text assigns each key of the patch exactly
    once, its new literal, and every other key what it did; and apart from lines that
    assign keys of the patch all lines are kept, in order and unaltered, behind them a
    section header if there was none. *)
Theorem patch_exact text patch values : (forall s, newline ∉ unicode_Quote s) -> (forall n vs, map_order n vs ≡ₚ vs) -> NoDup patch.*1 -> patch_values patch = Some values ->
  let before := split_on newline text in
  let after := split_on newline (patchDaemonSection text values) in
  (sections before <= 1)%nat -> Forall (fun key => (List.length (section_values key before false) <= 1)%nat) patch.*1 ->
  (forall key value, (key, value) ∈ values -> section_values key after false = [$" " ++ value]) /\
  (forall key, bare key -> key ∉ patch.*1 -> section_values key after false = section_values key before false) /\
  untouched patch.*1 after false = untouched patch.*1 before false ++ (if (sections before =? 0)%nat then [$"[daemon]"] else []).
Proof.
  intros Hq Ho Hnd Hp before after Hs Hk. destruct (patch_values_spec Hq _ _ Hp) as (Hkeys & Hb & Hc). rewrite <-Hkeys in *.
  assert (after = patch_lines values before [] false false 0) as ->.
  { apply split_join; [|apply lines_clean; [done|done|done|by apply Forall_forall, split_on_no_sep]]. destruct before as [|line rest]; [done|]. cbn [patch_lines].
    destruct (header_line line); [by destruct (bool_decide _)|done]. }
  split_and!.
  - intros key value Hin. apply before_values; try done. rewrite Forall_forall in Hk. apply Hk. by apply (list_elem_of_fmap_2 fst _ (key, value)).
  - intros key Hbare Hno. by apply before_others.
  - by apply before_untouched.
Qed.
End patch_text.

(** ** The patch handler *)

Section handler.
Context `{Unicode, Host, ApiEnv, Viper, ExecEnv}.
Variable helper : option privRunner.
Variable configPath : str.
Variable config_file : fpath.
Variable MetricsSecret : str.

(** What a store takes of a configuration is in the snapshot, or the webhooks. *)
Lemma same_stores c c' s r : newReloadableConfig c = newReloadableConfig c' -> d_Webhooks c = d_Webhooks c' -> apply_store helper c s r = apply_store helper c' s r.
Proof.
  intros E Hw. pose proof (f_equal rc_actions E) as E1. pose proof (f_equal rc_jobs E) as E2. pose proof (f_equal rc_logAlerts E) as E3. pose proof (f_equal rc_runtimes E) as E4.
  pose proof (f_equal rc_watchedProcesses E) as E5. pose proof (f_equal rc_processesLimit E) as E6. pose proof (f_equal rc_scriptTimeout E) as E7. pose proof (f_equal rc_maxBodyBytes E) as E8.
  pose proof (f_equal rc_maxConcurrentRuns E) as E9. pose proof (f_equal rc_cloudURL E) as E10. pose proof (f_equal rc_cloudSecret E) as E11. pose proof (f_equal rc_priv E) as E12.
  cbn [newReloadableConfig rc_actions rc_jobs rc_logAlerts rc_runtimes rc_watchedProcesses rc_processesLimit rc_scriptTimeout rc_maxBodyBytes rc_maxConcurrentRuns rc_cloudURL rc_cloudSecret rc_priv] in *.
  unfold apply_store, NewCloudPublisher. destruct s; by rewrite ?E, ?Hw, ?E1, ?E2, ?E3, ?E4, ?E5, ?E6, ?E7, ?E8, ?E9, ?E10, ?E11, ?E12.
Qed.
Lemma same_applies c c' r : newReloadableConfig c = newReloadableConfig c' -> d_Webhooks c = d_Webhooks c' -> applyReload helper c r = applyReload helper c' r.
Proof.
  intros E Hw. unfold applyReload. generalize reload_stores. intros l. revert r. induction l as [|s l IH]; intros r; [done|]. cbn [fold_left]. by rewrite (same_stores c c'), IH.
Qed.
(** The copy that is validated and the original that is applied run alike. *)
Lemma shared_applies d c r : validate_values d = Ok c -> applyReload helper (shared d c) r = applyReload helper c r.
Proof.
  intros (rt & wp & batch & alerts & jobs & alarms & _ & _ & _ & _ & _ & _ & _ & _ & Hb & _ & _ & _ & _ & _ & ->)%validate_values_inv. apply same_applies; [|done].
  unfold check_upload in Hb. inv_ok. unfold newReloadableConfig. cbn. destruct (d_LogsUploadBatchLines d <=? 0) eqn:E; [done|by rewrite E].
Qed.
Lemma writeFileAtomic_spec data faults d :
  match writeFileAtomic data faults d with
  | (true, d') => dk_file d' = Some data
  | (false, d') => dk_file d' = dk_file d /\ exists k e, faults k = Some e
  end.
Proof.
  pose proof (saved_or_kept [] [DClose] data faults d eq_refl eq_refl) as Hs. unfold writeFileAtomic. change (save_ops [] [DClose] data) with [DCreate; DWrite data; DClose; DRename] in Hs.
  destruct (disk_calls _ faults 0 d) as [[] d'] eqn:E; [done|]. split; [done|]. cbn [disk_calls] in E.
  repeat match type of E with context [match faults ?k with _ => _ end] => destruct (faults k) eqn:?; [by eauto|] end. done.
Qed.

Lemma restored (P : Prop) existing second d (st : api_state) :
  (500 = 200 -> P) /\ (500 <> 200 -> as_running st = as_running st /\
    (dk_file (writeFileAtomic existing second d).2 = Some existing \/ 500 = 500 /\ exists k e, second k = Some e)).
Proof.
  split; [done|]. intros _. split; [done|]. pose proof (writeFileAtomic_spec existing second d) as Hw.
  destruct (writeFileAtomic existing second d) as [[] d']; [by left|right]. by destruct Hw.
Qed.
(** What an accepted patch leaves. *)
Definition patch_done (body : option str) (signature : str) (w : world) (st st' : api_state) : Prop :=
  exists text patch values existing cfg w' validated,
     body = Some text /\ MetricsSecret <> [] /\ TrimSpace signature = hmac_hex MetricsSecret text /\ Z.of_nat (List.length text) <= rc_maxBodyBytes (ru_rt (as_running st)) /\
     unmarshal_patch text = Some patch /\ Forall (fun kv => exists rule, rule_of kv.1 = Some rule /\ rule_validate rule kv.2 = Ok tt) patch /\ patch_values patch = Some values /\
     dk_file (as_disk st) = Some existing /\ dk_file (as_disk st') = Some (patchDaemonSection existing values) /\
     load_config configPath (on_disk config_file (as_disk st') w) = (Ok cfg, w') /\ (ValidateDaemon (Daemon cfg) w').1 = Ok validated /\
     daemon_ok validated /\ as_running st' = applyReload helper validated (as_running st).
Lemma patch_done_runs body signature w st st' : patch_done body signature w st st' -> exists existing, dk_file (as_disk st') = Some existing /\
  exists validated, daemon_ok validated /\ as_running st' = applyReload helper validated (as_running st).
Proof. intros (text & patch & values & existing & cfg & w' & validated & _ & _ & _ & _ & _ & _ & _ & _ & Hf & _ & _ & Hok & Hr). eauto. Qed.
(** C19. A patch is done as a whole or not at all, and only for who holds the metrics
    secret. Answered 200, the body was signed with it and within the limit, it names only
    patchable keys with valid values, the file holds the patched text, and every component
    was given the configuration that loading that file and validating it yields, which is
    a valid one. Answered otherwise, every component runs as before, and the file is what
    it was, unless a write that was to restore it failed. *)
Theorem patch_config_exact body signature first second w st :
  let '(status, st') := handlePatchConfig helper configPath config_file MetricsSecret body signature first second w st in
  (status = 200 -> patch_done body signature w st st') /\
  (status <> 200 -> as_running st' = as_running st /\ (dk_file (as_disk st') = dk_file (as_disk st) \/ status = 500 /\ exists k e, second k = Some e)).
Proof.
  unfold handlePatchConfig. case_bool_decide as Hpath; [by split; [|auto]|]. destruct (readSignedBody _ _ _ _) as [status|text] eqn:Eb.
  { split; [|auto]. intros ->. unfold readSignedBody in Eb. by repeat case_match. }
  assert (body = Some text /\ Z.of_nat (List.length text) <= rc_maxBodyBytes (ru_rt (as_running st)) /\ signatureValid MetricsSecret text signature = true) as (-> & Hlen & Hsig).
  { unfold readSignedBody in Eb. destruct body as [body|]; [|done]. destruct (_ <? _) eqn:El; [done|]. destruct (negb _) eqn:En; [done|]. injection Eb as ->. by bools. }
  apply signatureValid_true in Hsig as [Hsec Hmac]. case_bool_decide; [by split; [|auto]|].
  destruct (unmarshal_patch text) as [patch|] eqn:Ep; [|by split; [|auto]]. destruct (patch_values patch) as [values|] eqn:Ev; [|by split; [|auto]].
  destruct (dk_file (as_disk st)) as [existing|] eqn:Ef; [|by split; [|auto]].
  pose proof (writeFileAtomic_spec (patchDaemonSection existing values) first (as_disk st)) as Hw. destruct (writeFileAtomic _ first _) as [[] d]; cbn [negb].
  2: { split; [done|]. intros _. split; [done|]. left. simpl. destruct Hw as [Hw _]. congruence. }
  destruct (Reload helper configPath (as_running st) (on_disk config_file d w)) as [[[u|e] r] w2] eqn:Er; unfold Reload in Er; rewrite bool_decide_eq_false_2 in Er by done; unfold bind in Er;
    destruct (load_config configPath (on_disk config_file d w)) as [[cfg|e1] w1] eqn:El; try (destruct (ValidateDaemon (Daemon cfg) w1) as [[validated|e2] w3] eqn:Evd); try done; unfold ret in Er; simplify_eq.
  - split; [|done]. intros _. assert ((ValidateDaemon (Daemon cfg) w1).1 = Ok validated) as Hok by by rewrite Evd.
    destruct (ValidateDaemon_spec (w_euid w1) (w_fs w1) (Daemon cfg) w1 eq_refl eq_refl) as (_ & _ & Hval). destruct (Hval _ Hok) as [Hvv _].
    exists text, patch, values, existing, cfg, w1, validated. split_and!; try done; [|by eapply validate_values_ok|by apply shared_applies].
    by eapply patch_values_valid.
  - exact (restored _ existing second d st).
  - exact (restored _ existing second d st).
Qed.
End handler.

(** ** The theorems at work *)

Definition api_quote : Unicode := {| unicode_ToLower := id; unicode_Quote := fun _ => $"?" |}.
Definition a_patch : list (str * json) := [($"maxConcurrentRuns", JNumber (FNum (inject_Z 7))); ($"runtimes", JArray [JString ($"docker"); JString ($"podman")])].
Definition api_env : ApiEnv := {|
  ParseDuration := fun _ => Ok 0; duration_String := fmt_d; unmarshal_patch := fun _ => Some a_patch; map_order := fun _ l => rev l; url_String := id;
|}.
Definition lines_text (l : list str) : str := join [newline] l.
Definition a_text : str := lines_text [$"# host"; $"[daemon]"; $"id = 'h' # [daemon]"; $"  maxConcurrentRuns=4"; $"[[daemon.actions]]"; $"maxConcurrentRuns = 9"; []].
Definition a_values : list (str * str) := default [] (patch_values (H := api_quote) (H0 := ConfigFacts.demo_host) (H1 := api_env) a_patch).
Abbreviation api_patch := (patchDaemonSection (H1 := api_env)).
Example a_patched : api_patch a_text a_values =
  lines_text [$"# host"; $"[daemon]"; $"id = 'h' # [daemon]"; $"  maxConcurrentRuns = 7"; $"runtimes = [" ++ Quote (H := api_quote) ($"docker") ++ $", " ++ Quote (H := api_quote) ($"podman") ++ $"]";
    $"[[daemon.actions]]"; $"maxConcurrentRuns = 9"; []].
Proof. vm_compute. reflexivity. Qed.
Lemma patch_exact_witness : section_values ($"maxConcurrentRuns") (split_on newline (api_patch a_text a_values)) false = [$" 7"] /\
  untouched a_patch.*1 (split_on newline (api_patch a_text a_values)) false = untouched a_patch.*1 (split_on newline a_text) false.
Proof.
  assert (patch_values (H := api_quote) (H0 := ConfigFacts.demo_host) (H1 := api_env) a_patch = Some a_values) as Hp by (vm_compute; reflexivity).
  destruct (patch_exact (H := api_quote) (H0 := ConfigFacts.demo_host) (H1 := api_env) a_text a_patch a_values) as (Hv & _ & Hu).
  - intros s. apply (bool_decide_eq_true_1 (newline ∉ $"?")). vm_compute. reflexivity.
  - intros n vs. symmetry. apply Permutation_rev.
  - apply (bool_decide_eq_true_1 (NoDup _)). vm_compute. reflexivity.
  - exact Hp.
  - vm_compute. lia.
  - repeat constructor; vm_compute; lia.
  - split; [|exact Hu]. apply (Hv ($"maxConcurrentRuns") ($"7")). apply (bool_decide_eq_true_1 (_ ∈ a_values)). vm_compute. reflexivity.
Defined.
(** A header with a comment is not recognised: the text then has two [daemon] sections. *)
Example commented_header : api_patch (lines_text [$"[daemon] # the host"; $"maxConcurrentRuns = 4"]) [($"maxConcurrentRuns", $"7")] =
  lines_text [$"[daemon] # the host"; $"maxConcurrentRuns = 4"; $"[daemon]"; $"maxConcurrentRuns = 7"].
Proof. vm_compute. reflexivity. Qed.
(** A list over several lines loses its first line only. *)
Example multi_line_list : api_patch (lines_text [$"[daemon]"; $"runtimes = ["; $"  'docker',"; $"]"]) [($"runtimes", $"['podman']")] =
  lines_text [$"[daemon]"; $"runtimes = ['podman']"; $"  'docker',"; $"]"].
Proof. vm_compute. reflexivity. Qed.
(** A newline is escaped twice: the literal stands for a backslash and an n. *)
Example newline_escaped_twice : tomlString (H := api_quote) ($"a" ++ [newline] ++ $"b") = dquote :: $"a\\nb" ++ [dquote].
Proof. vm_compute. reflexivity. Qed.

(** A configuration that counts its slots as the file says. *)
Definition slots_config (n : Z) : DaemonConfig :=
  let c := identified ($"host-1") ($"s3cret") [] [] in
  mkDaemonConfig (d_ID c) (d_HostID c) (d_Version c) (d_Transport c) (d_Listen c) (d_MetricsSecret c) (d_MetricsHistoryPath c)
    (d_MetricsRetentionDays c) (d_AuditPath c) [] [] [] (d_LogsDir c) [] (d_Terminal c) (d_Files c) (d_Compose c) (d_Priv c) (d_CloudURL c) (d_CloudSecret c)
    (d_LogsUploadEnabled c) (d_LogsUploadInterval c) (d_LogsUploadBatchLines c) (d_ManagedContainers c)
    (d_ManagedComposes c) (d_StatusUploadEnabled c) (d_MetricsInterval c) (d_StreamInterval c)
    (d_ContainersInterval c) (d_ImagesInterval c) (d_ProcessesInterval c) (d_SystemdInterval c)
    (d_RuntimesInterval c) (d_DatabaseMetricsInterval c) (d_LogsInterval c) (d_UpdateCheckInterval c)
    (d_Runtimes c) (d_WatchedProcesses c) (d_WatchedProcessesFile c) (d_ProcessesLimit c) (d_RequestTimeout c)
    (d_ScriptTimeout c) (d_MaxBodyBytes c) n (d_Webhooks c) (d_Actions c) (d_Alarms c) (d_Jobs c) (d_LogAlerts c).
Definition api_viper : Viper := {|
  viper_table := str; ReadInConfig := fun text => Ok text; Unmarshal_hook := fun _ => Err (Errno EIO); Unmarshal_alarm := fun _ => Err (Errno EIO);
  Unmarshal_job := fun _ => Err (Errno EIO); Unmarshal_alert := fun _ => Err (Errno EIO);
  Unmarshal_config := fun c t => Ok (set_Daemon (slots_config (if Contains (default [] t) ($"maxConcurrentRuns = 7") then 7 else 4)) c);
  env_CONFIG_PATH := [];
|}.
Definition api_exec : ExecEnv := {| hmac_hex := fun secret body => secret ++ $":" ++ body; template_values := fun _ => ∅; error_text := fun _ => [] |}.
Definition api_start : running :=
  applyReload (H0 := ConfigFacts.demo_host) (H1 := api_env) None (slots_config 4) (mkRunning (∅, ∅) (0, 0, 0) 0 None [] 0 [] [] None None (newReloadableConfig (slots_config 4))).
Definition api_before : api_state := mkApi (mkDisk (Some a_text) None) api_start.
Definition api_done : api_state := Eval vm_compute in
  (handlePatchConfig (H := api_quote) (H0 := ConfigFacts.demo_host) (H1 := api_env) (H2 := api_viper) (H3 := api_exec) None ($"/etc/maidcafe.toml") [$"etc"; $"maidcafe.toml"] ($"s3cret")
    (Some ($"{}")) ($"s3cret:{}") (fun _ => None) (fun _ => None) PrivSetFacts.demo_world api_before).2.
Lemma api_answered :
  handlePatchConfig (H := api_quote) (H0 := ConfigFacts.demo_host) (H1 := api_env) (H2 := api_viper) (H3 := api_exec) None ($"/etc/maidcafe.toml") [$"etc"; $"maidcafe.toml"] ($"s3cret")
    (Some ($"{}")) ($"s3cret:{}") (fun _ => None) (fun _ => None) PrivSetFacts.demo_world api_before = (200, api_done).
Proof. vm_compute. reflexivity. Qed.
Lemma patch_config_exact_witness : ru_limits (as_running api_done) = (d_ScriptTimeout (slots_config 7), d_MaxBodyBytes (slots_config 7), 7) /\
  exists existing, dk_file (as_disk api_done) = Some existing /\ exists validated, daemon_ok (H := api_quote) validated /\
     as_running api_done = applyReload (H0 := ConfigFacts.demo_host) (H1 := api_env) None validated (as_running api_before).
Proof.
  split; [vm_compute; reflexivity|].
  pose proof (patch_config_exact (H := api_quote) (H0 := ConfigFacts.demo_host) (H1 := api_env) (H2 := api_viper) (H3 := api_exec) None ($"/etc/maidcafe.toml") [$"etc"; $"maidcafe.toml"] ($"s3cret")
    (Some ($"{}")) ($"s3cret:{}") (fun _ => None) (fun _ => None) PrivSetFacts.demo_world api_before) as Hp.
  rewrite api_answered in Hp. destruct Hp as [Hp _].
  exact (patch_done_runs _ _ _ _ _ _ _ _ _ (Hp eq_refl)).
Defined.
(** Two reloads at once: one has stored the hooks and limits of a configuration, the other
    all of another, and the first then finishes; the limits and the snapshot disagree. *)
Definition api_store (n : Z) (r : running) (s : store) : running := apply_store (H0 := ConfigFacts.demo_host) (H1 := api_env) None (slots_config n) s r.
Definition two_reloads : running :=
  fold_left (api_store 4) (drop 4 reload_stores) (fold_left (api_store 7) reload_stores (fold_left (api_store 4) (take 4 reload_stores) api_start)).
Example reloads_mix : (ru_limits two_reloads).2 = 7 /\ rc_maxConcurrentRuns (ru_rt two_reloads) = 4.
Proof. split; vm_compute; reflexivity. Qed.
(** The view has a field for the URL of the cloud, which is always blank. *)
Example cloud_url_blank c : cv_cloud_url (newRedactedConfigView (H1 := api_env) c) = [].
Proof. reflexivity. Qed.
