(* ===== verification/ContainerDetail.v ===== *)
(** * ContainerDetail: one container, read on request

    [internal/daemon/container_detail.go] and [containers_http.go]: which container a
    request names, the bounded read-only commands with their retry through [sudo -n], the
    fields taken out of an inspect, an image and a stats payload, and the three detail
    endpoints. What a command prints and how it ends, JSON, the text of a float, and the
    snapshot of the containers collector are interfaces; a timeout is an end. *)

From S2P Require Import Prelude GoStr Regex GoPath Config Alarms ImageRef Executor Ops Logs ConfigApi.
From Stdlib Require Import QArith SpecFloat.
Open Scope Z_scope.

Definition containerInspectBytes : nat := Z.to_nat (Z.shiftl 1 20).
Definition containerStatsBytes : nat := Z.to_nat (Z.shiftl 64 10).

(** ** Data *)

Record containerRef := mkContainerRef { cr_Runtime : str; cr_Path : str; cr_ID : str; cr_Name : str }.
Record containerInspect := mkInspect { in_JSON : str; in_ImageRef : str; in_ImageID : str; in_Labels : gmap str str; in_Elevated : bool }.
Record containerImageInfo := mkImageInfo { im_ID : str; im_RepoDigests : list str }.
Record containerStats := mkStats {
  cs_Container : str; cs_Name : str; cs_RuntimeName : str;
  cs_CPUPercent : option float64; cs_MemoryUsageBytes : option Z; cs_MemoryLimitBytes : option Z; cs_MemoryPercent : option float64;
  cs_NetworkInputBytes : option Z; cs_NetworkOutputBytes : option Z; cs_BlockInputBytes : option Z; cs_BlockOutputBytes : option Z;
  cs_PIDs : option Z; cs_FetchedAt : Z;
}.
(** One runtime of the collector's payload: its name and its containers, id and name. *)
Record runtimeEntries := mkRuntimeEntries { re_Runtime : str; re_Containers : list (str * str) }.

(** [unmarshal_object] decodes into [map[string]any] ([null] is a nil map), [unmarshal_raw]
    into a list of raw messages, [unmarshal_objects] into a list of maps; [range_order] is
    the order in which a range meets the members of a map when it looks for a key. *)
Class DetailEnv := {
  unmarshal_object : str -> option (list (str * json));
  unmarshal_raw : str -> option (list str);
  unmarshal_objects : str -> option (list (list (str * json)));
  range_order : str -> list (str * str) -> list (str * str);
  FormatFloat : float64 -> str;
  ParseFloat : str -> option spec_float;
}.

(** ** Which container *)

Definition ref_entries (paths : gmap str str) (runtime : runtimeEntries) : list containerRef :=
  let path := default [] (paths !! re_Runtime runtime) in
  if bool_decide (path = []) then [] else (fun entry => mkContainerRef (re_Runtime runtime) path entry.1 entry.2) <$> re_Containers runtime.
Definition containersForRead (snapshot : res (list runtimeEntries)) (paths : gmap str str) : res (list containerRef) :=
  let? payload := snapshot in Ok (concat (ref_entries paths <$> payload)).
Definition named (ref : str) (candidate : containerRef) : bool := bool_decide (cr_ID candidate = ref) || bool_decide (cr_Name candidate = ref).
Definition resolveContainer (containers : res (list containerRef)) (ref : str) : res (option containerRef) :=
  let ref := TrimSpace ref in
  if negb (matches nativeContainerRefPattern ref) then Ok None
  else
    let? refs := containers in
    match find (named ref) refs with
    | Some candidate => Ok (Some candidate)
    | None => Ok (find (fun candidate => HasPrefix (cr_ID candidate) ref) refs)
    end.

(** ** Runtime reads *)

(** What a command line does, both streams apart; a command that cannot be started ends
    with [OtherError]. *)
Abbreviation reader := (list str -> process).
Definition run_err (e : run_error) : error :=
  match e with
  | ExitError code => Foreign "exit status %d" [FInt code]
  | ErrShortWrite => Foreign "io.ErrShortWrite" []
  | OtherError e => e
  end.
Definition runReadOnce (exec : reader) (limit : nat) (argv : list str) : str * str * option run_error :=
  let p := exec argv in
  let '(stdout, short_out) := copy_output (mkLimitedBuffer [] limit) (pr_stdout p) in
  let '(stderr, short_err) := copy_output (mkLimitedBuffer [] 8192) (pr_stderr p) in
  (lb_buf stdout, lb_buf stderr, match pr_exit p with Some e => Some e | None => if short_out || short_err then Some ErrShortWrite else None end).

Section detail.
Context `{Unicode, OpsHost, DetailEnv}.

Definition runRuntimeReadStore (exec : reader) (limit : nat) (command : str) (args : list str) : res (str * bool) :=
  match runReadOnce exec limit (command :: args) with
  | (stdout, _, None) => Ok (stdout, false)
  | (_, stderr, Some err) =>
      match elevationAttempt command args with
      | Some elevated =>
          match runReadOnce exec limit elevated with
          | (elevatedOut, _, None) => Ok (elevatedOut, true)
          | _ => if bool_decide (TrimSpace stderr = []) then Err (Errorf "%s failed: %w" [FStr command; FErr (run_err err)]) else Err (Errorf "%s" [FStr (TrimSpace stderr)])
          end
      | None => if bool_decide (TrimSpace stderr = []) then Err (Errorf "%s failed: %w" [FStr command; FErr (run_err err)]) else Err (Errorf "%s" [FStr (TrimSpace stderr)])
      end
  end.
Definition runRuntimeRead (exec : reader) (limit : nat) (command : str) (args : list str) : res str :=
  let? out := runRuntimeReadStore exec limit command args in Ok out.1.
(** The last text is what was written: a failed retry's own output wins. *)
Definition runRuntimeReadBounded (exec : command_runner) (path : str) (args : list str) : res str :=
  let '(out, ok) := runCommandBounded exec (path :: args) in
  if ok then Ok out
  else
    let failed :=
      if bool_decide (TrimSpace out = []) then Err (Foreign "os/exec" []) else Err (Errorf "%s" [FStr (TrimSpace out)]) in
    match elevationAttempt path args with
    | Some elevated =>
        let '(elevatedOut, ok) := runCommandBounded exec elevated in
        if ok then Ok elevatedOut
        else if bool_decide (TrimSpace elevatedOut = []) then failed else Err (Errorf "%s" [FStr (TrimSpace elevatedOut)])
    | None => failed
    end.

(** ** Payloads *)

Abbreviation object := (list (str * json)).
Definition member (key : str) (o : object) : json := match find (fun kv => bool_decide (kv.1 = key)) o with Some kv => kv.2 | None => JNull end.
(** The object and the raw text it was read from. *)
Definition parseJSONObject (out : str) : res (object * str) :=
  let trimmed := TrimSpace out in
  if bool_decide (trimmed = []) then Err (Errorf "runtime returned no data" [])
  else
    match unmarshal_object trimmed with
    | Some o => Ok (o, trimmed)
    | None =>
        match unmarshal_raw trimmed with
        | Some [] => Err (Errorf "runtime returned an empty list" [])
        | Some (first :: _) =>
            match unmarshal_object first with
            | Some o => Ok (o, first)
            | None => Err (Errorf "runtime returned an unexpected payload: %w" [FErr (Foreign "encoding/json" [])])
            end
        | None =>
            let line := match cut newline trimmed with Some (line, _) => line | None => trimmed end in
            if bool_decide (line = []) then Err (Errorf "runtime returned an unexpected payload" [])
            else match unmarshal_object line with Some o => Ok (o, line) | None => Err (Errorf "runtime returned an unexpected payload" []) end
        end
    end.
Definition jsonObject (value : json) : object := match value with JObject o => o | _ => [] end.
Definition jsonString (value : json) : str := match value with JString text => TrimSpace text | _ => [] end.
Definition jsonStringMap (value : json) : gmap str str :=
  list_to_map (omap (fun kv => match kv.2 with JString text => Some (kv.1, text) | _ => None end) (jsonObject value)).
Definition parseContainerInspect (out : str) : res containerInspect :=
  let? (o, raw) := parseJSONObject out in
  let config := jsonObject (member ($"Config") o) in
  let labels := jsonStringMap (member ($"Labels") config) ∪ jsonStringMap (member ($"Labels") o) in
  let imageRef := jsonString (member ($"ImageName") o) in
  let imageRef := if bool_decide (imageRef = []) || HasPrefix imageRef ($"sha256:") then jsonString (member ($"Image") config) else imageRef in
  Ok (mkInspect raw (if HasPrefix imageRef ($"sha256:") then [] else imageRef) (jsonString (member ($"Image") o)) labels false).
Definition inspect_args (id : str) : list str := [$"inspect"; $"--format"; $"{{json .}}"; id].
Definition inspectContainer (exec : reader) (path id : str) : res containerInspect :=
  let? (out, elevated) := runRuntimeReadStore exec containerInspectBytes path (inspect_args id) in
  let? info := parseContainerInspect out in
  Ok (mkInspect (in_JSON info) (in_ImageRef info) (in_ImageID info) (in_Labels info) elevated).
Definition image_args (ref : str) : list str := [$"image"; $"inspect"; $"--format"; $"{{json .}}"; ref].
Definition image_of (o : object) : containerImageInfo :=
  let id := jsonString (member ($"Id") o) in
  mkImageInfo (if bool_decide (id = []) then jsonString (member ($"ID") o) else id)
    (match member ($"RepoDigests") o with JArray raw => filter (fun value => value <> []) (jsonString <$> raw) | _ => [] end).
Definition imageInfo (exec : reader) (path ref : str) : res containerImageInfo :=
  let? out := runRuntimeRead exec containerInspectBytes path (image_args ref) in
  let? (o, _) := parseJSONObject out in
  Ok (image_of o).

(** ** Statistics *)

Definition statsArgs (runtime id : str) : list str :=
  if bool_decide (runtime = $"podman") then [$"stats"; $"--no-stream"; $"--format=json"; id] else [$"stats"; $"--no-stream"; $"--format"; $"{{json .}}"; id].
Definition statValueString (value : json) : str :=
  match value with
  | JString text => TrimSpace text
  | JNumber x => FormatFloat x
  | JBool b => if b then $"true" else $"false"
  | _ => []
  end.
Fixpoint statLookup (values : list (str * str)) (keys : list str) : str :=
  match keys with
  | [] => []
  | key :: keys =>
      match find (fun kv => EqualFold kv.1 key && negb (bool_decide (kv.2 = []))) (range_order key values) with
      | Some kv => kv.2
      | None => statLookup values keys
      end
  end.
Definition trim_percent (s : str) : str := if HasSuffix s ($"%") then take (List.length s - 1) s else s.
Definition parseStatPercent (raw : str) : option float64 :=
  let raw := TrimSpace (trim_percent (TrimSpace raw)) in
  if bool_decide (raw = []) || HasPrefix raw ($"-") then None else value_of <$> ParseFloat raw.
Definition statUnitBytes : list (str * Z) :=
  [([], 1); ($"b", 1); ($"k", 1000); ($"kb", 1000); ($"kib", 2 ^ 10); ($"m", 10 ^ 6); ($"mb", 10 ^ 6); ($"mib", 2 ^ 20);
   ($"g", 10 ^ 9); ($"gb", 10 ^ 9); ($"gib", 2 ^ 30); ($"t", 10 ^ 12); ($"tb", 10 ^ 12); ($"tib", 2 ^ 40)].
Definition stat_digit (c : ascii) : bool := is_digit c || bool_decide (c = ch ".").
Fixpoint span_digits (s : str) : str * str :=
  match s with
  | c :: s' => if stat_digit c then let '(digits, rest) := span_digits s' in (c :: digits, rest) else ([], s)
  | [] => ([], [])
  end.
Definition stat_unit (unit : str) : option Z := snd <$> find (fun kv => bool_decide (kv.1 = unit)) statUnitBytes.
Definition parseStatBytes (raw : str) : option Z :=
  let raw := TrimSpace raw in
  if bool_decide (raw = []) || HasPrefix raw ($"-") then None
  else
    let '(digits, unit) := span_digits raw in
    match ParseFloat digits, stat_unit (ToLower (TrimSpace unit)) with
    | Some value, Some multiplier => Some (int64_of (value_of (float_mul value (float64_of_Z multiplier))))
    | _, _ => None
    end.
Definition parseStatPair (raw : str) : option Z * option Z :=
  if bool_decide (raw = []) || HasPrefix (TrimSpace raw) ($"-") then (None, None)
  else match cut slash raw with None => (parseStatBytes raw, None) | Some (l, r) => (parseStatBytes l, parseStatBytes r) end.
Definition stats_of (now : Z) (values : list (str * str)) (ref : containerRef) : containerStats :=
  let name := statLookup values [$"Name"; $"name"] in
  let memory := parseStatPair (statLookup values [$"MemUsage"; $"mem_usage"; $"MemUsageBytes"]) in
  let network := parseStatPair (statLookup values [$"NetIO"; $"netio"; $"net_io"]) in
  let block := parseStatPair (statLookup values [$"BlockIO"; $"blocki"; $"block_io"; $"BlockIOBytes"]) in
  let pids := statLookup values [$"PIDs"; $"PIDS"; $"pids"] in
  mkStats (cr_ID ref) (if bool_decide (name = []) then cr_Name ref else name) (cr_Runtime ref)
    (parseStatPercent (statLookup values [$"CPUPerc"; $"cpu_percent"; $"CPU"])) memory.1 memory.2
    (parseStatPercent (statLookup values [$"MemPerc"; $"mem_percent"])) network.1 network.2 block.1 block.2
    (if bool_decide (pids = []) then None else Atoi (TrimSpace pids)) now.
Definition parseContainerStats (now : Z) (out : str) (ref : containerRef) : res containerStats :=
  let list :=
    match unmarshal_objects (TrimSpace out) with
    | Some l => Some l
    | None => (fun single => [single]) <$> unmarshal_object (TrimSpace out)
    end in
  match list with
  | None => Err (Errorf "runtime returned an unexpected stats payload" [])
  | Some [] => Err (Errorf "runtime returned no stats" [])
  | Some (first :: _) => Ok (stats_of now ((fun kv => (kv.1, statValueString kv.2)) <$> first) ref)
  end.
Definition containerStatsFor (exec : reader) (now : Z) (ref : containerRef) : res containerStats :=
  let? out := runRuntimeRead exec containerStatsBytes (cr_Path ref) (statsArgs (cr_Runtime ref) (cr_ID ref)) in
  parseContainerStats now out ref.
Definition logs_args (tail : Z) (id : str) : list str := [$"logs"; $"--tail"; fmt_d tail; $"--timestamps"; id].
Definition runtimeLogs `{LogsEnv} (exec : command_runner) (now : Z) (path id : str) (tail : Z) : res (list containerLogLine) :=
  let? out := runRuntimeReadBounded exec path (logs_args tail id) in
  Ok (parseLogLines now out).

(** ** The endpoints *)

Inductive detail_body :=
  | DError (e : error)
  | DInspect (container name runtime inspect : str)
  | DStats (stats : containerStats)
  | DLogs (container source : str) (lines : list containerLogLine).
Definition no_such_container : Z * detail_body := (404, DError (Errorf "no such container" [])).
Definition with_container (containers : res (list containerRef)) (id : str) (k : containerRef -> Z * detail_body) : Z * detail_body :=
  match resolveContainer containers id with
  | Err err => (500, DError err)
  | Ok None => no_such_container
  | Ok (Some ref) => k ref
  end.
Definition handleContainerInspect (containers : res (list containerRef)) (exec : reader) (id : str) : Z * detail_body :=
  with_container containers id (fun ref =>
    match inspectContainer exec (cr_Path ref) (cr_ID ref) with
    | Err err => (502, DError err)
    | Ok info => (200, DInspect (cr_ID ref) (cr_Name ref) (cr_Runtime ref) (in_JSON info))
    end).
Definition handleContainerStats (containers : res (list containerRef)) (exec : reader) (now : Z) (id : str) : Z * detail_body :=
  with_container containers id (fun ref =>
    match containerStatsFor exec now ref with Err err => (502, DError err) | Ok stats => (200, DStats stats) end).
Definition log_source (query : str) : option str :=
  let source := ToLower (TrimSpace query) in
  if bool_decide (source = []) then Some ($"captured") else if bool_decide (source = $"captured") || bool_decide (source = $"runtime") then Some source else None.
Definition log_lines (query : str) : option Z :=
  let raw := TrimSpace query in
  if bool_decide (raw = []) then Some 200
  else match Atoi raw with Some parsed => if (parsed <? 1) || (Z.of_nat containerLogRingLines <? parsed) then None else Some parsed | None => None end.
Definition handleContainerLogs `{LogsEnv} (containers : res (list containerRef)) (store : containerLogStore) (exec : command_runner) (now : Z) (id source lines : str) : Z * detail_body :=
  match log_source source with
  | None => (400, DError (Errorf "source must be captured or runtime" []))
  | Some source =>
      match log_lines lines with
      | None => (400, DError (Errorf "lines must be between 1 and %d" [FInt (Z.of_nat containerLogRingLines)]))
      | Some lines =>
          if bool_decide (source = $"captured") then (200, DLogs id source (Snapshot store id lines))
          else
            with_container containers id (fun ref =>
              match runtimeLogs exec now (cr_Path ref) (cr_ID ref) lines with
              | Err err => (502, DError err)
              | Ok tail => (200, DLogs (cr_ID ref) source tail)
              end)
      end
  end.
End detail.

Example stat_bytes_ex :
  (fun raw => snd (span_digits raw)) <$> [$"1.5MiB"; $"3.092 MB"; $"12"] = [$"MiB"; $" MB"; []].
Proof. vm_compute. done. Qed.
Example stat_scientific :
  stat_unit ($"e+06b") = None.
Proof. vm_compute. done. Qed.
