(* ===== verification/Registry.v ===== *)
(** * Registry: what a tag points at

    [internal/daemon/registry.go]: one manifest request, the authentication dance a 401
    starts, and the cache of authorization headers. The other side is arbitrary: what
    answers a request may depend on all requests so far. One [Do] is one exchange of
    [net/http]'s client, redirects included; draining a body has no effect here. JSON,
    SHA-256, URLs and the files runtimes keep credentials in are interfaces. *)

From S2P Require Import Prelude GoStr Regex GoPath Base64 ImageRef Alarms.
Open Scope Z_scope.

Definition registryManifestBytes : Z := Z.shiftl 1 20.
Definition registryTokenBytes : Z := Z.shiftl 64 10.
Definition registryTokenTTLMargin : Z := 60 * 1000000000.
(** [io.LimitReader]: what is past the bound is not read, and nothing says so. *)
Definition limit_reader (n : Z) (body : str) : str := if Z.of_nat (List.length body) <=? n then body else take (Z.to_nat n) body.
Definition manifestMediaTypes : str :=
  join ($", ") [$"application/vnd.oci.image.index.v1+json"; $"application/vnd.docker.distribution.manifest.list.v2+json"; $"application/vnd.oci.image.manifest.v1+json";
    $"application/vnd.docker.distribution.manifest.v2+json"; $"application/vnd.docker.distribution.manifest.v1+json"].
Record registryManifestRef := mkManifestRef { mr_Digest : str; mr_MediaType : str; mr_PlatformKey : str }.
Record registryManifest := mkManifest { rm_Digest : str; rm_MediaType : str; rm_Manifests : list registryManifestRef }.
Definition HasDigest (m : registryManifest) (digest : str) : bool :=
  negb (bool_decide (digest = [])) && existsb (fun entry => bool_decide (mr_Digest entry = digest)) (rm_Manifests m).

(** An entry of an auth file, and a member of an index. *)
Record auth_entry := mkAuthEntry { ae_Auth : str; ae_Username : str; ae_Password : str }.
Record index_entry := mkIndexEntry { ie_Digest : str; ie_MediaType : str; ie_OS : str; ie_Architecture : str; ie_Variant : str }.
Class RegistryEnv := {
  token_payload : str -> res (str * str * Z);
  index_manifests : str -> res (list index_entry);
  sha256_hex : str -> str;
  (** the URL with its query parameters set, when it can be parsed *)
  url_set_query : str -> list (str * str) -> res str;
  (** why [http.NewRequest] refuses the URL *)
  request_refused : str -> option error;
  (** a string as the range over its runes writes it back *)
  unicode_runes : str -> str;
  auth_file : str -> option (gmap str auth_entry);
  env_DOCKER_CONFIG : str; env_REGISTRY_AUTH_FILE : str; env_XDG_RUNTIME_DIR : str; env_home : option str;
}.

Section registry.
Context `{Unicode, RegistryEnv}.

(** ** Credentials of the daemon's account *)

Definition registryAuthPaths : list str :=
  (if bool_decide (TrimSpace env_DOCKER_CONFIG = []) then [] else [Join [TrimSpace env_DOCKER_CONFIG; $"config.json"]]) ++
  (if bool_decide (TrimSpace env_REGISTRY_AUTH_FILE = []) then [] else [TrimSpace env_REGISTRY_AUTH_FILE]) ++
  (match env_home with Some home => if bool_decide (home = []) then [] else [Join [home; $".docker"; $"config.json"]; Join [home; $".config"; $"containers"; $"auth.json"]] | None => [] end) ++
  (if bool_decide (TrimSpace env_XDG_RUNTIME_DIR = []) then [] else [Join [TrimSpace env_XDG_RUNTIME_DIR; $"containers"; $"auth.json"]]).
Definition registryAuthKeys (registry : str) : list str :=
  if bool_decide (registry = dockerHubRegistry) || bool_decide (registry = dockerHubAPIHost) || bool_decide (registry = indexRegistry)
  then [$"https://index.docker.io/v1/"; indexRegistry; dockerHubRegistry; dockerHubAPIHost] else [registry].
Definition entry_credentials (entry : auth_entry) : option (str * str) :=
  if negb (bool_decide (ae_Username entry = [])) || negb (bool_decide (ae_Password entry = [])) then Some (ae_Username entry, ae_Password entry)
  else match DecodeString (TrimSpace (ae_Auth entry)) with Some decoded => cut colon decoded | None => None end.
Fixpoint first_entry (auths : gmap str auth_entry) (keys : list str) : option (str * str) :=
  match keys with
  | [] => None
  | key :: keys =>
      match auths !! key with
      | None => first_entry auths keys
      | Some entry => match entry_credentials entry with Some c => Some c | None => first_entry auths keys end
      end
  end.
Definition credentialsFromAuthFile (path registry : str) : option (str * str) :=
  match auth_file path with Some auths => first_entry auths (registryAuthKeys registry) | None => None end.
Fixpoint first_file (paths : list str) (registry : str) : option (str * str) :=
  match paths with
  | [] => None
  | path :: paths => match credentialsFromAuthFile path registry with Some c => Some c | None => first_file paths registry end
  end.
Definition readRegistryCredentials (registry : str) : option (str * str) := first_file registryAuthPaths registry.
Definition basicAuthorization (username password : str) : str := $"Basic " ++ EncodeToString (username ++ colon :: password).

(** ** Challenges *)

Record authChallenge := mkChallenge { ac_scheme : str; ac_realm : str; ac_service : str; ac_scope : str }.
Definition range_runes (s : str) : str := if forallb is_ascii s then s else unicode_runes s.
(** The loop of [splitAuthParams]; [current] is reversed. *)
Fixpoint split_params (s : str) (current : str) (quoted : bool) : list str :=
  match s with
  | [] => [rev current]
  | c :: s =>
      if bool_decide (c = dquote) then split_params s (c :: current) (negb quoted)
      else if bool_decide (c = ch ",") && negb quoted then rev current :: split_params s [] quoted
      else split_params s (c :: current) quoted
  end.
Definition splitAuthParams (value : str) : list str := split_params (range_runes value) [] false.
Fixpoint trim_quotes_left (s : str) : str := match s with c :: s => if bool_decide (c = dquote) then trim_quotes_left s else c :: s | [] => [] end.
Definition trim_quotes (s : str) : str := rev (trim_quotes_left (rev (trim_quotes_left s))).
Definition challenge_part (challenge : authChallenge) (part : str) : authChallenge :=
  match cut (ch "=") part with
  | None => challenge
  | Some (key, value) =>
      let value := trim_quotes (TrimSpace value) in
      let key := ToLower (TrimSpace key) in
      if bool_decide (key = $"realm") then mkChallenge (ac_scheme challenge) value (ac_service challenge) (ac_scope challenge)
      else if bool_decide (key = $"service") then mkChallenge (ac_scheme challenge) (ac_realm challenge) value (ac_scope challenge)
      else if bool_decide (key = $"scope") then mkChallenge (ac_scheme challenge) (ac_realm challenge) (ac_service challenge) value
      else challenge
  end.
Definition parseAuthChallenge (header : str) : authChallenge :=
  let header := TrimSpace header in
  if bool_decide (header = []) then mkChallenge [] [] [] []
  else
    let '(scheme, rest) := default (header, []) (cut (ch " ") header) in
    fold_left challenge_part (splitAuthParams rest) (mkChallenge (ToLower (TrimSpace scheme)) [] [] []).
(** [strings.Cut] at ["://"]. *)
Fixpoint cut_scheme (s : str) : option (str * str) :=
  match s with
  | [] => None
  | c :: s' => if HasPrefix s ($"://") then Some ([], drop 3 s) else (fun lr => (c :: lr.1, lr.2)) <$> cut_scheme s'
  end.
Definition token_url (realm service scope : str) : res str :=
  match url_set_query realm ((if bool_decide (service = []) then [] else [($"service", service)]) ++ [($"scope", scope)]) with
  | Ok endpoint => Ok endpoint
  | Err err => Err (Errorf "registry token endpoint %q: %w" [FStr realm; FErr err])
  end.
Definition tokenEndpoint (realm service scope registryBase : str) : res str :=
  match cut_scheme realm with
  | None => Err (Errorf "registry token endpoint %q is not an absolute URL" [FStr realm])
  | Some (scheme, _) =>
      let scheme := ToLower scheme in
      if negb (bool_decide (scheme = $"http")) && negb (bool_decide (scheme = $"https"))
      then Err (Errorf "registry token endpoint %q is not an http(s) URL" [FStr realm])
      else
        match cut_scheme registryBase with
        | Some (registryScheme, _) =>
            if negb (bool_decide (ToLower registryScheme = scheme)) then Err (Errorf "registry token endpoint %q is not reachable over %s" [FStr realm; FStr registryScheme])
            else token_url realm service scope
        | None => token_url realm service scope
        end
  end.

(** ** Manifests *)

Definition normalizeMediaType (contentType : str) : str := ToLower (TrimSpace (default (contentType, []) (cut (ch ";") contentType)).1).
Definition isIndexMediaType (mediaType : str) : bool :=
  bool_decide (mediaType = $"application/vnd.oci.image.index.v1+json") || bool_decide (mediaType = $"application/vnd.docker.distribution.manifest.list.v2+json").
Definition platform_key (entry : index_entry) : str :=
  ie_OS entry ++ (if bool_decide (ie_Architecture entry = []) then [] else slash :: ie_Architecture entry) ++ (if bool_decide (ie_Variant entry = []) then [] else slash :: ie_Variant entry).
Definition parseRegistryManifest (body contentType contentDigest : str) : res registryManifest :=
  let digest := TrimSpace contentDigest in
  let digest := if bool_decide (digest = []) then $"sha256:" ++ sha256_hex body else digest in
  let mediaType := normalizeMediaType contentType in
  if negb (matches imageDigestPattern digest) then Err (Errorf "registry returned an invalid manifest digest %q" [FStr digest])
  else if negb (isIndexMediaType mediaType) then Ok (mkManifest digest mediaType [])
  else
    match index_manifests body with
    | Err err => Err (Errorf "registry index: %w" [FErr err])
    | Ok entries => Ok (mkManifest digest mediaType ((fun e => mkManifestRef (ie_Digest e) (ie_MediaType e) (platform_key e)) <$> entries))
    end.

(** ** The client *)

(** A request: what it is for (the reference it serves, and for a token the realm,
    service and scope), its URL, and its Authorization header. *)
Inductive purpose := ForManifest (ref : imageReference) | ForToken (ref : imageReference) (realm service scope : str).
Record request := mkRequest { hr_for : purpose; hr_url : str; hr_authorization : str }.
Record response := mkHTTPResponse { hs_status : Z; hs_challenge : str; hs_type : str; hs_digest : str; hs_body : res str }.
(** Cached headers with their expiry, and the requests sent, the newest last, with their answers. *)
Record registryClient := mkClient { rc_authorization : gmap str (str * Z); rc_sent : list (request * res response) }.
Definition newRegistryClient : registryClient := mkClient ∅ [].
(** Who answers, and the clock; both may depend on everything sent. *)
Variable answer : list (request * res response) -> request -> res response.
Variable now : list (request * res response) -> Z.
Definition Do (r : request) (c : registryClient) : res response * registryClient :=
  let a := answer (rc_sent c) r in (a, mkClient (rc_authorization c) (rc_sent c ++ [(r, a)])).
Definition tokenKey (ref : imageReference) : str := ref_Registry ref ++ slash :: ref_Repository ref.
Definition cachedAuthorization (ref : imageReference) (c : registryClient) : str :=
  match rc_authorization c !! tokenKey ref with Some (header, expires) => if expires <? now (rc_sent c) then [] else header | None => [] end.
Definition storeAuthorization (ref : imageReference) (header : str) (ttl : Z) (c : registryClient) : registryClient :=
  mkClient (<[tokenKey ref := (header, now (rc_sent c) + ttl)]> (rc_authorization c)) (rc_sent c).
Definition baseURL (registry : str) : str := $"https://" ++ registry.
Definition token_ttl (expires_in : Z) : Z :=
  let ttl := cooldown_of expires_in in if registryTokenTTLMargin <? ttl then ttl - registryTokenTTLMargin else registryTokenTTLMargin.
Definition token_exchange (ref : imageReference) (challenge : authChallenge) (scope endpoint : str) (c : registryClient) : res str * registryClient :=
  let header := match readRegistryCredentials (ref_Registry ref) with Some (username, password) => basicAuthorization username password | None => [] end in
  let '(a, c) := Do (mkRequest (ForToken ref (ac_realm challenge) (ac_service challenge) scope) endpoint header) c in
  match a with
  | Err err => (Err (Errorf "registry token request: %w" [FErr err]), c)
  | Ok a =>
      if negb (hs_status a =? 200) then (Err (Errorf "registry token request answered %d for %s" [FInt (hs_status a); FStr (imageReference_String ref)]), c)
      else
        match hs_body a with
        | Err err => (Err (Errorf "read registry token: %w" [FErr err]), c)
        | Ok body =>
            match token_payload (limit_reader registryTokenBytes body) with
            | Err err => (Err (Errorf "registry token response: %w" [FErr err]), c)
            | Ok (token, access, expires_in) =>
                let token := if bool_decide (token = []) then access else token in
                if bool_decide (token = []) then (Err (Errorf "registry returned no token for %s" [FStr (imageReference_String ref)]), c)
                else let header := $"Bearer " ++ token in (Ok header, storeAuthorization ref header (token_ttl expires_in) c)
            end
        end
  end.
Definition authorize (ref : imageReference) (challenge : authChallenge) (c : registryClient) : res str * registryClient :=
  if bool_decide (ac_scheme challenge = $"basic") then
    match readRegistryCredentials (ref_Registry ref) with
    | None => (Err (Errorf "registry requires credentials for %s" [FStr (imageReference_String ref)]), c)
    | Some (username, password) => let header := basicAuthorization username password in (Ok header, storeAuthorization ref header (3600 * 1000000000) c)
    end
  else if negb (bool_decide (ac_scheme challenge = $"bearer"))
  then (Err (Errorf "registry requires an unsupported authentication scheme for %s" [FStr (imageReference_String ref)]), c)
  else if bool_decide (ac_realm challenge = []) then (Err (Errorf "registry sent no authentication endpoint for %s" [FStr (imageReference_String ref)]), c)
  else
    let scope := if bool_decide (ac_scope challenge = []) then $"repository:" ++ ref_Repository ref ++ $":pull" else ac_scope challenge in
    match tokenEndpoint (ac_realm challenge) (ac_service challenge) scope (baseURL (imageReference_APIHost ref)) with
    | Err err => (Err err, c)
    | Ok endpoint => match request_refused endpoint with Some err => (Err err, c) | None => token_exchange ref challenge scope endpoint c end
    end.
Definition registryStatusError (status : Z) (ref : imageReference) : error :=
  if status =? 404 then Errorf "registry has no tag %s" [FStr (imageReference_String ref)]
  else if (status =? 401) || (status =? 403) then Errorf "registry refused access to %s (log in with the runtime CLI on this host)" [FStr (imageReference_String ref)]
  else Errorf "registry answered %d for %s" [FInt status; FStr (imageReference_String ref)].
Definition TrimSuffix (s suffix : str) : str := if HasSuffix s suffix then take (List.length s - List.length suffix) s else s.
Definition manifest_url (ref : imageReference) : str :=
  TrimSuffix (baseURL (imageReference_APIHost ref)) ($"/") ++ $"/v2/" ++ ref_Repository ref ++ $"/manifests/" ++ ref_Tag ref.
(** The attempts that are left, the current one included. *)
Fixpoint manifest_attempts (attempts : nat) (first : bool) (ref : imageReference) (authorization : str) (c : registryClient) : res registryManifest * registryClient :=
  match attempts with
  | O => (Err (Errorf "registry authentication failed for %s" [FStr (imageReference_String ref)]), c)
  | S attempts =>
      match request_refused (manifest_url ref) with
      | Some err => (Err err, c)
      | None =>
          let '(a, c) := Do (mkRequest (ForManifest ref) (manifest_url ref) authorization) c in
          match a with
          | Err err => (Err (Errorf "registry request: %w" [FErr err]), c)
          | Ok a =>
              if hs_status a =? 401 then
                if negb first then (Err (Errorf "registry rejected the daemon's credentials for %s" [FStr (imageReference_String ref)]), c)
                else
                  match authorize ref (parseAuthChallenge (hs_challenge a)) c with
                  | (Err err, c) => (Err err, c)
                  | (Ok fresh, c) => manifest_attempts attempts false ref fresh c
                  end
              else if negb (hs_status a =? 200) then (Err (registryStatusError (hs_status a) ref), c)
              else
                match hs_body a with
                | Err err => (Err (Errorf "read registry manifest: %w" [FErr err]), c)
                | Ok body => (parseRegistryManifest (limit_reader registryManifestBytes body) (hs_type a) (hs_digest a), c)
                end
          end
      end
  end.
Definition manifest (ref : imageReference) (c : registryClient) : res registryManifest * registryClient :=
  if imageReference_Pinned ref then (Ok (mkManifest (ref_Digest ref) [] []), c)
  else manifest_attempts 2 true ref (cachedAuthorization ref c) c.
End registry.
