(* ===== verification/RegistryFacts.v ===== *)
(** * RegistryFacts: who is shown which credential

    The invariant of the registry client: which requests it may have sent, given all
    the answers before them, and what its cache of headers holds. *)

From S2P Require Import Prelude GoStr Regex GoPath Base64 Alarms ImageRef Registry.
Open Scope Z_scope.

Section facts.
Context `{Unicode, RegistryEnv}.
Abbreviation exchanges := (list (request * res response)).

(** ** Requests that may be sent *)

(** The account's own credential for a registry. *)
Definition own_header (registry header : str) : Prop :=
  exists username password, readRegistryCredentials registry = Some (username, password) /\ header = basicAuthorization username password.
(** A token that was answered to a token request for this very repository. *)
Definition issued (past : exchanges) (registry repository header : str) : Prop :=
  exists ref realm service scope url auth a body token access expires,
    (mkRequest (ForToken ref realm service scope) url auth, Ok a) ∈ past /\ ref_Registry ref = registry /\ ref_Repository ref = repository /\
    hs_status a = 200 /\ hs_body a = Ok body /\ token_payload (limit_reader registryTokenBytes body) = Ok (token, access, expires) /\
    header = $"Bearer " ++ (if bool_decide (token = []) then access else token).
Definition header_for (past : exchanges) (registry repository header : str) : Prop := own_header registry header \/ issued past registry repository header.
(** A manifest request for this reference was answered 401 with this challenge. *)
Definition challenged (past : exchanges) (ref : imageReference) (challenge : authChallenge) : Prop :=
  exists auth a, (mkRequest (ForManifest ref) (manifest_url ref) auth, Ok a) ∈ past /\ hs_status a = 401 /\ challenge = parseAuthChallenge (hs_challenge a).
Definition allowed (past : exchanges) (r : request) : Prop :=
  match hr_for r with
  | ForManifest ref =>
      hr_url r = $"https://" ++ imageReference_APIHost ref ++ $"/v2/" ++ ref_Repository ref ++ $"/manifests/" ++ ref_Tag ref /\
      (hr_authorization r = [] \/ header_for past (ref_Registry ref) (ref_Repository ref) (hr_authorization r))
  | ForToken ref realm service scope =>
      (exists challenge, challenged past ref challenge /\ ac_scheme challenge = $"bearer" /\ ac_realm challenge = realm /\ ac_service challenge = service) /\
      (exists scheme rest, realm = scheme ++ $"://" ++ rest /\ ToLower scheme = $"https") /\
      token_url realm service scope = Ok (hr_url r) /\
      (hr_authorization r = [] \/ own_header (ref_Registry ref) (hr_authorization r))
  end.
(** Each request was allowed by what came before it. *)
Definition confined (sent : exchanges) : Prop := forall past r a rest, sent = past ++ (r, a) :: rest -> allowed past r.
(** A registry as the name of an image spells it. *)
Definition registry_named (ref : imageReference) : Prop := slash ∉ ref_Registry ref /\ ref_Registry ref <> [].
(** The cache: each header under the name of the repository it is good for. *)
Definition cache_ok (c : registryClient) : Prop :=
  forall key header expires, rc_authorization c !! key = Some (header, expires) ->
  exists registry repository, key = registry ++ slash :: repository /\ slash ∉ registry /\ header_for (rc_sent c) registry repository header.
Definition client_ok (c : registryClient) : Prop := confined (rc_sent c) /\ cache_ok c.

(** ** Growing histories *)

Lemma header_for_more past more registry repository header : header_for past registry repository header -> header_for (past ++ more) registry repository header.
Proof.
  intros [?|(ref & realm & service & scope & url & auth & a & body & token & access & expires & Hin & ?)]; [by left|right].
  exists ref, realm, service, scope, url, auth, a, body, token, access, expires. split; [|done]. apply elem_of_app. by left.
Qed.
Lemma confined_snoc sent r a : confined sent -> allowed sent r -> confined (sent ++ [(r, a)]).
Proof.
  intros Hs Hr past r' a' rest E. destruct (decide (rest = [])) as [->|Hne].
  - apply app_inj_tail in E as [-> [= -> ->]]. done.
  - destruct (exists_last Hne) as (rest' & x & ->). rewrite app_comm_cons, app_assoc in E. apply app_inj_tail in E as [-> _]. by eapply Hs.
Qed.
Lemma key_inj a b r s : slash ∉ a -> slash ∉ b -> a ++ slash :: r = b ++ slash :: s -> a = b /\ r = s.
Proof.
  intros Ha Hb E. assert (cut slash (a ++ slash :: r) = Some (a, r)) as C1 by (by apply cut_spec).
  assert (cut slash (b ++ slash :: s) = Some (b, s)) as C2 by (by apply cut_spec). rewrite E, C2 in C1. by injection C1.
Qed.

(** ** The scheme *)

Lemma cut_scheme_spec s l r : cut_scheme s = Some (l, r) -> s = l ++ $"://" ++ r.
Proof.
  revert l. induction s as [|c s IH]; intros l; [done|]. cbn [cut_scheme]. destruct (HasPrefix (c :: s) ($"://")) eqn:E.
  - intros [= <- <-]. apply HasPrefix_spec in E as [k Hk]. change ($"://" ++ k) with (ch ":" :: ch "/" :: ch "/" :: k) in Hk. by injection Hk as -> ->.
  - destruct (cut_scheme s) as [[l' r']|]; [|done]. cbn. intros [= <- <-]. by rewrite (IH l').
Qed.
Lemma cut_base registry : cut_scheme (baseURL registry) = Some ($"https", registry).
Proof. reflexivity. Qed.
Lemma endpoint_https realm service scope host endpoint : tokenEndpoint realm service scope (baseURL host) = Ok endpoint ->
  (exists scheme rest, realm = scheme ++ $"://" ++ rest /\ ToLower scheme = $"https") /\ token_url realm service scope = Ok endpoint.
Proof.
  unfold tokenEndpoint. destruct (cut_scheme realm) as [[scheme rest]|] eqn:E; [|done]. apply cut_scheme_spec in E.
  destruct (negb _ && negb _); [done|]. rewrite cut_base. case_bool_decide as Hs; [|done]. cbn [negb]. intros Hu. split; [|done].
  exists scheme, rest. split; [done|]. rewrite <-Hs. done.
Qed.
Lemma url_of ref : registry_named ref -> manifest_url ref = $"https://" ++ imageReference_APIHost ref ++ $"/v2/" ++ ref_Repository ref ++ $"/manifests/" ++ ref_Tag ref.
Proof.
  intros [Hs Hn]. unfold manifest_url, TrimSuffix. destruct (HasSuffix _ _) eqn:E; [exfalso|done].
  apply bool_decide_eq_true in E as [k Hk]. unfold baseURL in Hk.
  assert (slash ∉ imageReference_APIHost ref /\ imageReference_APIHost ref <> []) as [Hs' Hn'].
  { unfold imageReference_APIHost. destruct (_ || _); [|done]. split; [|done]. apply (bool_decide_eq_false (slash ∈ dockerHubAPIHost)). vm_compute. done. }
  destruct (exists_last Hn') as (h & x & Hx). rewrite Hx, app_assoc in Hk. apply app_inj_tail in Hk as [_ ->]. apply Hs'. rewrite Hx, elem_of_app, list_elem_of_singleton. by right.
Qed.

(** ** The operations *)

Lemma ok_new : client_ok newRegistryClient.
Proof. split; [|by intros key header expires [=]]. intros past r a rest E. by destruct past. Qed.
Lemma ok_store clock ref header ttl c : registry_named ref -> header_for (rc_sent c) (ref_Registry ref) (ref_Repository ref) header ->
  client_ok c -> client_ok (storeAuthorization clock ref header ttl c).
Proof.
  intros [Hs _] Hh [Hc Ha]. split; [done|]. intros key h e. cbn [rc_authorization rc_sent storeAuthorization]. rewrite lookup_insert_Some.
  intros [[<- [= <- <-]]|[_ Hk]]; [|by eapply Ha]. exists (ref_Registry ref), (ref_Repository ref). done.
Qed.
Lemma ok_Do answer r c : allowed (rc_sent c) r -> client_ok c -> client_ok (Do answer r c).2.
Proof.
  intros Hr [Hc Ha]. split; [by apply confined_snoc|]. intros key h e Hk. destruct (Ha key h e Hk) as (reg & rep & ? & ? & ?).
  exists reg, rep. split_and!; [done..|]. by apply header_for_more.
Qed.
Lemma cached_good clock ref c : registry_named ref -> client_ok c ->
  cachedAuthorization clock ref c = [] \/ header_for (rc_sent c) (ref_Registry ref) (ref_Repository ref) (cachedAuthorization clock ref c).
Proof.
  intros [Hs _] [_ Ha]. unfold cachedAuthorization. destruct (rc_authorization c !! tokenKey ref) as [[h e]|] eqn:E; [|by left].
  destruct (e <? _); [by left|right]. destruct (Ha _ _ _ E) as (reg & rep & Hk & Hr & Hh). by destruct (key_inj _ _ _ _ Hs Hr Hk) as [-> ->].
Qed.
Lemma exchange_spec answer clock ref challenge scope endpoint c o c' : registry_named ref -> client_ok c -> challenged (rc_sent c) ref challenge -> ac_scheme challenge = $"bearer" ->
  tokenEndpoint (ac_realm challenge) (ac_service challenge) scope (baseURL (imageReference_APIHost ref)) = Ok endpoint ->
  token_exchange answer clock ref challenge scope endpoint c = (o, c') ->
  client_ok c' /\ forall header, o = Ok header -> header_for (rc_sent c') (ref_Registry ref) (ref_Repository ref) header.
Proof.
  intros Hn Hc Hch Hb He. apply endpoint_https in He as [Hs Hu]. unfold token_exchange.
  set (auth := match readRegistryCredentials _ with Some _ => _ | None => _ end).
  set (r := mkRequest (ForToken _ _ _ _) endpoint auth).
  assert (allowed (rc_sent c) r) as Hr.
  { split_and!; [by exists challenge|done|done|]. cbn [hr_authorization r]. unfold auth. destruct (readRegistryCredentials _) as [[u p]|] eqn:Ec; [right; by exists u, p|by left]. }
  pose proof (ok_Do answer r c Hr Hc) as Hok. unfold Do in *. cbn [fst snd] in Hok |- *.
  destruct (answer (rc_sent c) r) as [a|e]; [|by intros [= <- <-]]. destruct (hs_status a =? 200) eqn:E2; cbn [negb]; [|by intros [= <- <-]].
  destruct (hs_body a) as [body|] eqn:Eb; [|by intros [= <- <-]]. destruct (token_payload _) as [[[token access] expires]|] eqn:Et; [|by intros [= <- <-]].
  case_bool_decide as Ht; [by intros [= <- <-]|]. intros [= <- <-].
  assert (header_for (rc_sent c ++ [(r, Ok a)]) (ref_Registry ref) (ref_Repository ref) ($"Bearer " ++ (if bool_decide (token = []) then access else token))) as Hh.
  { right. exists ref, (ac_realm challenge), (ac_service challenge), scope, endpoint, auth, a, body, token, access, expires. apply Z.eqb_eq in E2.
    split_and!; [|done..]. rewrite elem_of_app, list_elem_of_singleton. by right. }
  split; [by apply ok_store|]. by intros header [= <-].
Qed.
Lemma authorize_spec answer clock ref challenge c o c' : registry_named ref -> client_ok c -> challenged (rc_sent c) ref challenge -> authorize answer clock ref challenge c = (o, c') ->
  client_ok c' /\ forall header, o = Ok header -> header_for (rc_sent c') (ref_Registry ref) (ref_Repository ref) header.
Proof.
  intros Hn Hc Hch. unfold authorize. case_bool_decide as Hb.
  - destruct (readRegistryCredentials (ref_Registry ref)) as [[u p]|] eqn:Er; [|by intros [= <- <-]]. intros [= <- <-].
    assert (header_for (rc_sent c) (ref_Registry ref) (ref_Repository ref) (basicAuthorization u p)) as Hh by (left; by exists u, p).
    split; [by apply ok_store|]. by intros header [= <-].
  - case_bool_decide as Hs; cbn [negb]; [|by intros [= <- <-]]. case_bool_decide; [by intros [= <- <-]|].
    destruct (tokenEndpoint _ _ _ _) as [endpoint|] eqn:Ee; [|by intros [= <- <-]]. destruct (request_refused endpoint); [by intros [= <- <-]|].
    by apply exchange_spec.
Qed.
Lemma attempts_spec answer clock n ref : registry_named ref -> forall first auth c o c', client_ok c ->
  auth = [] \/ header_for (rc_sent c) (ref_Registry ref) (ref_Repository ref) auth -> manifest_attempts answer clock n first ref auth c = (o, c') -> client_ok c'.
Proof.
  intros Hn. induction n as [|n IH]; intros first auth c o c' Hc Ha; cbn [manifest_attempts]; [by intros [= <- <-]|].
  destruct (request_refused _); [by intros [= <- <-]|]. set (r := mkRequest (ForManifest ref) (manifest_url ref) auth).
  assert (allowed (rc_sent c) r) as Hr by (split; [by apply url_of|done]).
  pose proof (ok_Do answer r c Hr Hc) as Hok. destruct (Do answer r c) as [a c1] eqn:Ed. cbn [snd] in Hok.
  assert (rc_sent c1 = rc_sent c ++ [(r, a)]) as Hsent by (by injection Ed as <- <-).
  destruct a as [a|]; [|by intros [= <- <-]]. destruct (hs_status a =? 401) eqn:E4.
  - destruct first; cbn [negb]; [|by intros [= <- <-]]. destruct (authorize _ _ _ _ _) as [oa c2] eqn:Eau.
    assert (challenged (rc_sent c1) ref (parseAuthChallenge (hs_challenge a))) as Hch.
    { exists auth, a. apply Z.eqb_eq in E4. rewrite Hsent, elem_of_app, list_elem_of_singleton. auto. }
    destruct (authorize_spec _ _ _ _ _ _ _ Hn Hok Hch Eau) as [Hc2 Hh].
    destruct oa as [fresh|]; [|by intros [= <- <-]]. eapply IH; [done|]. right. by apply Hh.
  - destruct (hs_status a =? 200); cbn [negb]; [|by intros [= <- <-]]. destruct (hs_body a); by intros [= <- <-].
Qed.
Lemma manifest_ok answer clock ref c : registry_named ref -> client_ok c -> client_ok (manifest answer clock ref c).2.
Proof.
  intros Hn Hc. unfold manifest. destruct (imageReference_Pinned ref); [done|]. destruct (manifest_attempts _ _ _ _ _ _ _) as [o c'] eqn:E.
  eapply attempts_spec; [done|done|by apply cached_good|done].
Qed.

(** ** What a lookup sends and returns *)

(** The registry's last answer is the manifest. *)
Definition published (sent : exchanges) (ref : imageReference) (m : registryManifest) : Prop :=
  exists auth a body, (mkRequest (ForManifest ref) (manifest_url ref) auth, Ok a) ∈ sent /\ hs_status a = 200 /\ hs_body a = Ok body /\
    parseRegistryManifest (limit_reader registryManifestBytes body) (hs_type a) (hs_digest a) = Ok m.
Lemma published_more sent more ref m : published sent ref m -> published (sent ++ more) ref m.
Proof. intros (auth & a & body & Hin & ?). exists auth, a, body. split; [|done]. apply elem_of_app. by left. Qed.
Lemma stays (c : registryClient) : exists more, rc_sent c = rc_sent c ++ more /\ (List.length more <= 1)%nat.
Proof. exists []. rewrite app_nil_r. split; [done|cbn; lia]. Qed.
Lemma exchange_sends answer clock ref challenge scope endpoint c :
  exists more, rc_sent (token_exchange answer clock ref challenge scope endpoint c).2 = rc_sent c ++ more /\ (List.length more <= 1)%nat.
Proof.
  unfold token_exchange, Do. set (r := mkRequest _ _ _). exists [(r, answer (rc_sent c) r)]. split; [|done].
  destruct (answer _ _) as [a|]; [|done]. destruct (negb _); [done|]. destruct (hs_body a); [|done]. destruct (token_payload _) as [[[? ?] ?]|]; [|done]. by case_bool_decide.
Qed.
Lemma authorize_sends answer clock ref challenge c : exists more, rc_sent (authorize answer clock ref challenge c).2 = rc_sent c ++ more /\ (List.length more <= 1)%nat.
Proof.
  unfold authorize. case_bool_decide; [destruct (readRegistryCredentials _) as [[? ?]|]; apply (stays c)|]. destruct (negb _); [apply stays|]. case_bool_decide; [apply stays|].
  destruct (tokenEndpoint _ _ _ _); [|apply stays]. destruct (request_refused _); [apply stays|apply exchange_sends].
Qed.
Lemma attempts_answered answer clock n ref : forall first auth c o c', manifest_attempts answer clock n first ref auth c = (o, c') ->
  (exists more, rc_sent c' = rc_sent c ++ more /\ (List.length more <= n + (if first then 1 else 0))%nat) /\
  forall m, o = Ok m -> published (rc_sent c') ref m.
Proof.
  induction n as [|n IH]; intros first auth c o c'; cbn [manifest_attempts].
  { intros [= <- <-]. split; [exists []; rewrite app_nil_r; split; [done|cbn; lia]|done]. }
  assert (forall x r, (x, c) = (o, c') -> x = Err r -> (exists more, rc_sent c' = rc_sent c ++ more /\ (List.length more <= S n + (if first then 1 else 0))%nat) /\
    forall m, o = Ok m -> published (rc_sent c') ref m) as Hstay.
  { intros x r [= <- <-] ->. split; [exists []; rewrite app_nil_r; split; [done|cbn; lia]|done]. }
  destruct (request_refused _); [intros E; by eapply Hstay|]. unfold Do. set (r := mkRequest _ _ _). destruct (answer (rc_sent c) r) as [a|]; cycle 1.
  { intros [= <- <-]. split; [eexists; split; [reflexivity|cbn; lia]|done]. }
  set (c1 := mkClient _ _). assert (rc_sent c1 = rc_sent c ++ [(r, Ok a)]) as Hsent by done.
  assert (forall x e, (x, c1) = (o, c') -> x = Err e -> (exists more, rc_sent c' = rc_sent c ++ more /\ (List.length more <= S n + (if first then 1 else 0))%nat) /\
    forall m, o = Ok m -> published (rc_sent c') ref m) as Hone.
  { intros x e [= <- <-] ->. split; [eexists; split; [done|cbn; lia]|done]. }
  destruct (hs_status a =? 401).
  - destruct first; cbn [negb]; [|intros E; by eapply Hone]. destruct (authorize_sends answer clock ref (parseAuthChallenge (hs_challenge a)) c1) as (more & Hm & Hl).
    destruct (authorize _ _ _ _ _) as [oa c2]. cbn [snd] in Hm. rewrite Hsent, <-app_assoc in Hm. destruct oa as [fresh|e].
    + intros E. destruct (IH _ _ _ _ _ E) as [(more' & Hm' & Hl') Hp]. split; [|done]. rewrite Hm, <-app_assoc in Hm'.
      eexists. split; [done|]. rewrite !length_app. cbn [List.length]. lia.
    + intros [= <- <-]. split; [|done]. eexists. split; [done|]. rewrite length_app. cbn [List.length]. lia.
  - destruct (hs_status a =? 200) eqn:E2; cbn [negb]; [|intros E; by eapply Hone]. destruct (hs_body a) as [body|] eqn:Eb; [|intros E; by eapply Hone].
    intros [= <- <-]. split; [eexists; split; [done|cbn; lia]|]. intros m Hm. exists auth, a, body. apply Z.eqb_eq in E2. split_and!; [|done..].
    rewrite Hsent, elem_of_app, list_elem_of_singleton. by right.
Qed.
Lemma manifest_answered answer clock ref c o c' : imageReference_Pinned ref = false -> manifest answer clock ref c = (o, c') ->
  (exists more, rc_sent c' = rc_sent c ++ more /\ (List.length more <= 3)%nat) /\ forall m, o = Ok m -> published (rc_sent c') ref m.
Proof. unfold manifest. intros ->. apply attempts_answered. Qed.
Lemma published_digest sent ref m : published sent ref m -> matches imageDigestPattern (rm_Digest m) = true.
Proof.
  intros (auth & a & body & _ & _ & _ & Hm). unfold parseRegistryManifest in Hm. destruct (matches _ _) eqn:E; cbn [negb] in Hm; [|done].
  destruct (negb _); [by injection Hm as <-|]. destruct (index_manifests _); [|done]. by injection Hm as <-.
Qed.
End facts.
