(* ===== verification/UpdateCheck.v ===== *)
(** * UpdateCheck: is a newer image published for a container

    [internal/daemon/updatecheck.go] and [containers_update_http.go]: the comparison of
    the digest an image was pulled at with the one its registry publishes, the cache of
    the answers, the rounds that refresh it and the pruning of what is gone. What the
    runtimes and the registries answer may change at every step: a [moment] is the world
    one check meets. *)

From S2P Require Import Prelude GoStr Regex GoPath Alarms ImageRef Ops ContainerDetail Registry.
Open Scope Z_scope.

Definition updateCheckRefreshFloor : Z := 60 * 1000000000.

(** ** Data *)

Record containerUpdateStatus := mkUpdateStatus {
  us_Container : str; us_Name : str; us_Runtime : str; us_Image : str; us_CheckedAt : Z; us_Outdated : option bool;
  us_Pinned : bool; us_RestartRequired : bool; us_LocalDigest : str; us_RemoteDigest : str; us_Error : option error;
}.
Record containerUpdatesPayload := mkUpdatesPayload { up_IntervalSeconds : Z; up_Containers : list containerUpdateStatus }.
Record updateChecker := mkUpdateChecker { uc_registry : registryClient; uc_results : gmap str containerUpdateStatus }.
Definition newUpdateChecker : updateChecker := mkUpdateChecker newRegistryClient ∅.
(** The clock, the two runtime reads, the registries, and whether the context is done. *)
Record moment := mkMoment {
  m_now : Z;
  m_inspect : str -> str -> res containerInspect;
  m_image : str -> str -> res containerImageInfo;
  m_answer : list (request * res response) -> request -> res response;
  m_clock : list (request * res response) -> Z;
  m_done : bool;
}.

(** ** What to ask *)

Definition name_ref (name : imageName) (tag : str) : imageReference := mkImageReference (in_Registry name) (in_Repository name) tag [].
(** The loop: the first name of the reference's own repository, or all that parse. *)
Fixpoint own_name (digests : list str) (ref : imageReference) : imageName + list imageName :=
  match digests with
  | [] => inr []
  | raw :: digests =>
      match parseImageNameDigest raw with
      | Err _ => own_name digests ref
      | Ok parsed =>
          if sameRepository parsed ref then inl parsed
          else match own_name digests ref with inl name => inl name | inr names => inr (parsed :: names) end
      end
  end.
Definition repository_name (name : imageName) : str := in_Registry name ++ slash :: in_Repository name.
Definition resolveUpdateQuery (ref : imageReference) (local : containerImageInfo) : res (imageReference * str) :=
  let tag := if bool_decide (ref_Tag ref = []) then $"latest" else ref_Tag ref in
  match own_name (im_RepoDigests local) ref with
  | inl name => Ok (name_ref name tag, in_Digest name)
  | inr [] => Err (Errorf "the local image %q records no registry digest, so it was built or imported here" [FStr (imageReference_String ref)])
  | inr [name] => Ok (name_ref name tag, in_Digest name)
  | inr names => Err (Errorf "the local image is known as %s and none of them is %s" [FStr (join ($", ") (repository_name <$> names)); FStr (ref_Repository ref)])
  end.

(** ** A check *)

Section checker.
Context `{Unicode, RegistryEnv}.

Definition base_status (w : moment) (ref : containerRef) (image : str) : containerUpdateStatus :=
  mkUpdateStatus (cr_ID ref) (cr_Name ref) (cr_Runtime ref) image (m_now w) None false false [] [] None.
Definition failed (s : containerUpdateStatus) (e : error) : containerUpdateStatus :=
  mkUpdateStatus (us_Container s) (us_Name s) (us_Runtime s) (us_Image s) (us_CheckedAt s) (us_Outdated s) (us_Pinned s) (us_RestartRequired s)
    (us_LocalDigest s) (us_RemoteDigest s) (Some e).
Definition restart_required (local : containerImageInfo) (info : containerInspect) : bool :=
  negb (bool_decide (im_ID local = [])) && negb (bool_decide (in_ImageID info = [])) && negb (bool_decide (im_ID local = in_ImageID info)).
(** From the registry on: the local image is known as [query], at [localDigest]. *)
Definition compare (w : moment) (s : containerUpdateStatus) (query : imageReference) (localDigest : str) (client : registryClient) : containerUpdateStatus * registryClient :=
  match manifest (m_answer w) (m_clock w) query client with
  | (Err err, client) => (failed s (Errorf "%s" [FErr err]), client)
  | (Ok manifest, client) =>
      let outdated := negb (bool_decide (rm_Digest manifest = localDigest)) && negb (HasDigest manifest localDigest) in
      (mkUpdateStatus (us_Container s) (us_Name s) (us_Runtime s) (us_Image s) (us_CheckedAt s) (Some outdated) false (us_RestartRequired s) localDigest (rm_Digest manifest) None, client)
  end.
Definition check (w : moment) (ref : containerRef) (client : registryClient) : containerUpdateStatus * registryClient :=
  match m_inspect w (cr_Path ref) (cr_ID ref) with
  | Err err => (failed (base_status w ref []) (Errorf "inspect container: %s" [FErr err]), client)
  | Ok info =>
      let s := base_status w ref (in_ImageRef info) in
      if bool_decide (in_ImageRef info = []) then (failed s (Errorf "the container records no image reference" []), client)
      else
        match parseImageReference (in_ImageRef info) with
        | Err _ => (failed s (Errorf "unusable image reference %q" [FStr (in_ImageRef info)]), client)
        | Ok imageRef =>
            if imageReference_Pinned imageRef then
              (mkUpdateStatus (us_Container s) (us_Name s) (us_Runtime s) (us_Image s) (us_CheckedAt s) (Some false) true false (ref_Digest imageRef) (ref_Digest imageRef) None, client)
            else
              match m_image w (cr_Path ref) (in_ImageRef info) with
              | Err err => (failed s (Errorf "read the local image: %s" [FErr err]), client)
              | Ok local =>
                  match resolveUpdateQuery imageRef local with
                  | Err err => (failed s (Errorf "%s" [FErr err]), client)
                  | Ok (query, localDigest) =>
                      compare w (mkUpdateStatus (us_Container s) (us_Name s) (us_Runtime s) (us_Image s) (us_CheckedAt s) None false (restart_required local info) localDigest [] None)
                        query localDigest client
                  end
              end
        end
  end.

(** ** The cache *)

Definition Status (c : updateChecker) (id : str) : option containerUpdateStatus := uc_results c !! id.
Definition store (status : containerUpdateStatus) (c : updateChecker) : updateChecker := mkUpdateChecker (uc_registry c) (<[us_Container status := status]> (uc_results c)).
Definition fresh (w : moment) (minAge : Z) (cached : option containerUpdateStatus) : option containerUpdateStatus :=
  match cached with Some s => if m_now w - us_CheckedAt s <? minAge then Some s else None | None => None end.
Definition check_and_store (w : moment) (ref : containerRef) (c : updateChecker) : containerUpdateStatus * updateChecker :=
  let '(status, client) := check w ref (uc_registry c) in (status, store status (mkUpdateChecker client (uc_results c))).
Definition Refresh (w : moment) (ref : containerRef) (minAge : Z) (c : updateChecker) : containerUpdateStatus * updateChecker :=
  match fresh w minAge (Status c (cr_ID ref)) with
  | Some cached => (cached, c)
  | None => check_and_store w ref c
  end.
Definition liveIDs (refs : list containerRef) : gset str := list_to_set (cr_ID <$> refs).
Definition forget (seen : gset str) (c : updateChecker) : updateChecker := mkUpdateChecker (uc_registry c) (filter (fun kv => kv.1 ∈ seen) (uc_results c)).
(** One moment per container; the flag is whether the round came to its end. *)
Fixpoint check_each (at_ref : nat -> moment) (minAge : Z) (i : nat) (refs : list containerRef) (c : updateChecker) : bool * updateChecker :=
  match refs with
  | [] => (true, c)
  | ref :: refs =>
      if m_done (at_ref i) then (false, c)
      else
        match fresh (at_ref i) minAge (Status c (cr_ID ref)) with
        | Some _ => check_each at_ref minAge (S i) refs c
        | None => check_each at_ref minAge (S i) refs (check_and_store (at_ref i) ref c).2
        end
  end.
Definition CheckAll (containers : res (list containerRef)) (at_ref : nat -> moment) (minAge : Z) (c : updateChecker) : updateChecker :=
  match containers with
  | Err _ | Ok [] => c
  | Ok refs => let '(ended, c) := check_each at_ref minAge 0 refs c in if ended then forget (liveIDs refs) c else c
  end.
Definition ForgetStale (containers : res (list containerRef)) (c : updateChecker) : updateChecker :=
  match containers with Err _ | Ok [] => c | Ok refs => forget (liveIDs refs) c end.
(** [sort.Slice] by name, then by id. *)
Definition result_le (a b : containerUpdateStatus) : Prop :=
  if bool_decide (us_Name a = us_Name b) then str_le (us_Container a) (us_Container b) else str_le (us_Name a) (us_Name b).
#[export] Instance result_le_dec a b : Decision (result_le a b).
Proof. unfold result_le. case_bool_decide; apply _. Defined.
Definition Results (c : updateChecker) : list containerUpdateStatus := merge_sort result_le ((map_to_list (uc_results c)).*2).

(** ** The endpoints *)

Definition handleContainerUpdateCheck (containers : res (list containerRef)) (id : str) (w : moment) (c : updateChecker) : (Z * (error + containerUpdateStatus)) * updateChecker :=
  match resolveContainer containers id with
  | Err err => ((500, inl err), c)
  | Ok None => ((404, inl (Errorf "no such container" [])), c)
  | Ok (Some ref) => let '(status, c) := Refresh w ref updateCheckRefreshFloor c in ((200, inr status), c)
  end.
Definition handleContainerUpdates (containers : res (list containerRef)) (interval : option Z) (c : updateChecker) : containerUpdatesPayload * updateChecker :=
  let c := ForgetStale containers c in
  (mkUpdatesPayload (default 0 interval) (Results c), c).
End checker.
