(* ===== verification/UpdateCheckFacts.v ===== *)
(** * UpdateCheckFacts: badges that can be trusted, credentials that stay home

    The invariant of the update checker over any sequence of its operations, against
    runtimes, registries and clocks that answer as they like: what a cached status says
    was published, and every request that went out was allowed. *)

From S2P Require Import Prelude GoStr Regex GoPath Base64 Alarms ImageRef Ops ContainerDetail Registry RegistryFacts UpdateCheck.
Open Scope Z_scope.

Section facts.
Context `{Unicode, RegistryEnv}.
Abbreviation exchanges := (list (request * res response)).

(** ** Histories *)

(** A round of the cadence, a request for one container, a request for the list. *)
Inductive update_op :=
  | ORound (containers : res (list containerRef)) (at_ref : nat -> moment) (minAge : Z)
  | OCheck (containers : res (list containerRef)) (id : str) (w : moment)
  | OList (containers : res (list containerRef)) (interval : option Z).
Definition run_op (c : updateChecker) (op : update_op) : updateChecker :=
  match op with
  | ORound containers at_ref minAge => CheckAll containers at_ref minAge c
  | OCheck containers id w => (handleContainerUpdateCheck containers id w c).2
  | OList containers interval => (handleContainerUpdates containers interval c).2
  end.
Definition reached (ops : list update_op) : updateChecker := fold_left run_op ops newUpdateChecker.
(** [w] is a moment of one of the operations. *)
Definition met (ops : list update_op) (w : moment) : Prop :=
  exists op, op ∈ ops /\ match op with ORound _ at_ref _ => exists i, w = at_ref i | OCheck _ _ w' => w = w' | OList _ _ => False end.

(** ** What a status means *)

(** The name the local image is known as: of the reference's own repository, or the only one. *)
Definition known_as (local : containerImageInfo) (r : imageReference) (name : imageName) : Prop :=
  let names := omap (fun raw => match parseImageNameDigest raw with Ok name => Some name | Err _ => None end) (im_RepoDigests local) in
  name ∈ names /\ (sameRepository name r = true \/ names = [name]).
(** The comparison that was made for a container at a moment, with what was published. *)
Definition compared (w : moment) (ref : containerRef) (sent : exchanges) (s : containerUpdateStatus) (outdated : bool) : Prop :=
  exists info r, m_inspect w (cr_Path ref) (cr_ID ref) = Ok info /\ us_Image s = in_ImageRef info /\ parseImageReference (in_ImageRef info) = Ok r /\
  if us_Pinned s then outdated = false /\ us_LocalDigest s = ref_Digest r /\ ref_Digest r <> []
  else ref_Digest r = [] /\
    exists local name m, m_image w (cr_Path ref) (in_ImageRef info) = Ok local /\ known_as local r name /\ us_LocalDigest s = in_Digest name /\
      published sent (name_ref name (ref_Tag r)) m /\ us_RemoteDigest s = rm_Digest m /\
      (outdated = false <-> rm_Digest m = in_Digest name \/ in_Digest name ∈ mr_Digest <$> rm_Manifests m) /\
      us_RestartRequired s = restart_required local info.
Definition told (w : moment) (ref : containerRef) (sent : exchanges) (s : containerUpdateStatus) : Prop :=
  us_Container s = cr_ID ref /\ us_Name s = cr_Name ref /\ us_CheckedAt s = m_now w /\
  match us_Outdated s with None => us_Error s <> None | Some outdated => us_Error s = None /\ compared w ref sent s outdated end.
Definition results_ok (ops : list update_op) (c : updateChecker) : Prop :=
  forall id s, uc_results c !! id = Some s -> us_Container s = id /\ exists w ref, met ops w /\ told w ref (rc_sent (uc_registry c)) s.

(** ** Names *)

Lemma own_name_spec digests r :
  let names := omap (fun raw => match parseImageNameDigest raw with Ok name => Some name | Err _ => None end) digests in
  match own_name digests r with inl name => name ∈ names /\ sameRepository name r = true | inr l => l = names end.
Proof.
  induction digests as [|raw digests IH]; [done|]. cbn [own_name omap list_omap]. destruct (parseImageNameDigest raw) as [name|]; [|done].
  destruct (sameRepository name r) eqn:E; [split; [apply elem_of_cons; by left|done]|]. destruct (own_name digests r) as [found|l]; cbn in *.
  - destruct IH. split; [|done]. apply elem_of_cons. by right.
  - by f_equal.
Qed.
Lemma query_spec r local query digest : resolveUpdateQuery r local = Ok (query, digest) ->
  exists name, known_as local r name /\ digest = in_Digest name /\ query = name_ref name (if bool_decide (ref_Tag r = []) then $"latest" else ref_Tag r).
Proof.
  unfold resolveUpdateQuery. pose proof (own_name_spec (im_RepoDigests local) r) as X. cbn zeta in X. destruct (own_name _ r) as [name|[|name [|name' l]]]; [|done| |done].
  - destruct X. intros [= <- <-]. exists name. split; [split; [done|by left]|done].
  - intros [= <- <-]. exists name. split; [|done]. unfold known_as. rewrite <-X. split; [apply elem_of_cons; by left|by right].
Qed.
Lemma name_registry raw name : parseImageNameDigest raw = Ok name -> slash ∉ in_Registry name /\ in_Registry name <> [] /\ in_Digest name <> [].
Proof.
  unfold parseImageNameDigest. destruct (cut_last at_sign _) as [[[|c nm] digest]|]; [done| |done]. destruct (matches imageDigestPattern digest) eqn:Ed; [|done]. cbn [negb].
  assert (digest <> []) as Hne by (intros ->; revert Ed; by vm_compute).
  assert (slash ∉ dockerHubRegistry /\ dockerHubRegistry <> []) as Hhub by (split; [apply (bool_decide_eq_false (slash ∈ dockerHubRegistry)); by vm_compute|done]).
  assert (forall registry repository : str, slash ∉ registry /\ registry <> [] ->
    (let registry := if bool_decide (registry = indexRegistry) then dockerHubRegistry else registry in
     Ok (mkImageName registry (if bool_decide (registry = dockerHubRegistry) && negb (Contains repository ($"/")) then libraryPrefix ++ repository else repository) digest)) = Ok name ->
    slash ∉ in_Registry name /\ in_Registry name <> [] /\ in_Digest name <> []) as Hpick.
  { intros registry repository Hr [= <-]. cbn. case_bool_decide; naive_solver. }
  destruct (cut slash (c :: nm)) as [[first rest]|] eqn:E; [|by apply Hpick]. destruct (looks_like_host first) eqn:El; [|by apply Hpick].
  apply Hpick. apply cut_spec in E as [_ ?]. split; [done|]. by intros ->.
Qed.
Lemma known_named local r name tag : known_as local r name -> registry_named (name_ref name tag).
Proof.
  intros [Hin _]. apply list_elem_of_omap in Hin as (raw & _ & E). destruct (parseImageNameDigest raw) eqn:Er; [|done]. injection E as ->. apply name_registry in Er as (? & ? & _). done.
Qed.
Lemma known_digest local r name : known_as local r name -> in_Digest name <> [].
Proof.
  intros [Hin _]. apply list_elem_of_omap in Hin as (raw & _ & E). destruct (parseImageNameDigest raw) eqn:Er; [|done]. injection E as ->. apply name_registry in Er as (_ & _ & ?). done.
Qed.

(** ** A check *)

Lemma outdated_spec (digest local : str) m : local <> [] ->
  negb (bool_decide (digest = local)) && negb (HasDigest m local) = false <-> digest = local \/ local ∈ mr_Digest <$> rm_Manifests m.
Proof.
  intros Hl. unfold HasDigest. rewrite (bool_decide_eq_false_2 (local = [])) by done. cbn [negb andb].
  rewrite andb_false_iff, !negb_false_iff, bool_decide_eq_true, existsb_exists, list_elem_of_fmap.
  setoid_rewrite bool_decide_eq_true. setoid_rewrite list_elem_of_In. naive_solver.
Qed.
Lemma told_more w ref sent more s : told w ref sent s -> told w ref (sent ++ more) s.
Proof.
  intros (? & ? & ? & Ho). split_and!; [done..|]. destruct (us_Outdated s) as [o|]; [|done]. destruct Ho as [? (info & r & ? & ? & ? & Hc)]. split; [done|].
  exists info, r. split_and!; [done..|]. destruct (us_Pinned s); [done|]. destruct Hc as (? & local & name & m & ? & ? & ? & Hp & ?). split; [done|].
  exists local, name, m. do 3 (split; [done|]). split; [by apply published_more|done].
Qed.
Lemma check_spec w ref client s client' : client_ok client -> check w ref client = (s, client') ->
  told w ref (rc_sent client') s /\ client_ok client' /\ exists more, rc_sent client' = rc_sent client ++ more /\ (List.length more <= 3)%nat.
Proof.
  intros Hok. assert (exists more, rc_sent client = rc_sent client ++ more /\ (List.length more <= 3)%nat) as Hno by (exists []; rewrite app_nil_r; split; [done|cbn; lia]).
  unfold check. destruct (m_inspect w _ _) as [info|e] eqn:Ei; [|by intros [= <- <-]]. case_bool_decide; [by intros [= <- <-]|].
  destruct (parseImageReference _) as [r|e] eqn:Er; [|by intros [= <- <-]]. destruct (imageReference_Pinned r) eqn:Epin.
  - intros [= <- <-]. split; [|done]. do 3 (split; [done|]). split; [done|]. exists info, r. do 3 (split; [done|]). cbn. split_and!; [done..|]. unfold imageReference_Pinned in Epin. by case_bool_decide.
  - assert (ref_Digest r = []) as Hd by (unfold imageReference_Pinned in Epin; by case_bool_decide).
    destruct (m_image w _ _) as [local|e] eqn:Em; [|by intros [= <- <-]]. destruct (resolveUpdateQuery r local) as [[query digest]|e] eqn:Eq; [|by intros [= <- <-]].
    apply query_spec in Eq as (name & Hname & -> & ->). assert (ref_Tag r <> []) as Ht by (by destruct (wf_version _ (parse_wf _ _ Er))).
    rewrite (bool_decide_eq_false_2 (ref_Tag r = [])) by done. unfold compare. destruct (manifest _ _ _ _) as [o client1] eqn:Ema.
    pose proof (manifest_ok (m_answer w) (m_clock w) _ client (known_named _ _ _ (ref_Tag r) Hname) Hok) as Hok'. rewrite Ema in Hok'. cbn [snd] in Hok'.
    apply manifest_answered in Ema as [Hsent Hp]; [|done]. destruct o as [m|]; [|by intros [= <- <-]]. intros [= <- <-]. split; [|done].
    do 3 (split; [done|]). split; [done|]. exists info, r. do 3 (split; [done|]). cbn. split; [done|]. exists local, name, m. do 3 (split; [done|]).
    split; [by apply Hp|]. split; [done|]. split; [|done]. apply outdated_spec. by eapply known_digest.
Qed.

(** ** The checker *)

Definition checker_ok (ops : list update_op) (c : updateChecker) : Prop := client_ok (uc_registry c) /\ results_ok ops c.
Lemma check_and_store_ok ops w ref c : met ops w -> checker_ok ops c -> checker_ok ops (check_and_store w ref c).2.
Proof.
  intros Hw [Hc Hr]. unfold check_and_store. destruct (check w ref (uc_registry c)) as [s client] eqn:E.
  destruct (check_spec _ _ _ _ _ Hc E) as (Ht & Hc' & more & Hm & _). split; [done|]. intros id s'. cbn. rewrite lookup_insert_Some. intros [[<- <-]|[_ Hs]].
  - split; [done|]. by exists w, ref.
  - destruct (Hr id s' Hs) as [? (w' & ref' & ? & ?)]. split; [done|]. exists w', ref'. split; [done|]. rewrite Hm. by apply told_more.
Qed.
Lemma Refresh_ok ops w ref minAge c : met ops w -> checker_ok ops c -> checker_ok ops (Refresh w ref minAge c).2.
Proof. intros Hw Hc. unfold Refresh. destruct (fresh _ _ _); [done|by apply check_and_store_ok]. Qed.
Lemma check_each_ok ops at_ref minAge refs : (forall i, met ops (at_ref i)) -> forall i c, checker_ok ops c -> checker_ok ops (check_each at_ref minAge i refs c).2.
Proof.
  intros Hw. induction refs as [|ref refs IH]; intros i c Hc; [done|]. cbn [check_each]. destruct (m_done _); [done|].
  destruct (fresh _ _ _); apply IH; [done|by apply check_and_store_ok].
Qed.
Lemma forget_ok ops seen c : checker_ok ops c -> checker_ok ops (forget seen c).
Proof. intros [Hc Hr]. split; [done|]. intros id s [Hs _]%map_lookup_filter_Some. by apply Hr. Qed.
Lemma run_op_ok ops op c : op ∈ ops -> checker_ok ops c -> checker_ok ops (run_op c op).
Proof.
  intros Hop Hc. destruct op as [containers at_ref minAge|containers id w|containers interval]; cbn [run_op].
  - unfold CheckAll. destruct containers as [[|ref refs]|]; [done| |done].
    pose proof (check_each_ok ops at_ref minAge (ref :: refs) (fun i => ex_intro _ _ (conj Hop (ex_intro _ i eq_refl))) 0 c Hc) as Hok.
    destruct (check_each _ _ _ _ _) as [[] c']; [by apply forget_ok|done].
  - unfold handleContainerUpdateCheck. destruct (resolveContainer _ _) as [[ref|]|]; [|done..].
    pose proof (Refresh_ok ops w ref updateCheckRefreshFloor c (ex_intro _ _ (conj Hop eq_refl)) Hc) as Hok. by destruct (Refresh _ _ _ _).
  - unfold handleContainerUpdates, ForgetStale. destruct containers as [[|ref refs]|]; [done|by apply forget_ok|done].
Qed.
Lemma reached_from ops : forall l c, (forall op, op ∈ l -> op ∈ ops) -> checker_ok ops c -> checker_ok ops (fold_left run_op l c).
Proof.
  induction l as [|op l IH]; intros c Hin Hc; [done|]. cbn [fold_left]. apply IH; [|apply run_op_ok; [|done]].
  - intros op' ?. apply Hin, elem_of_cons. by right.
  - apply Hin, elem_of_cons. by left.
Qed.
Lemma reached_ok ops : checker_ok ops (reached ops).
Proof. apply reached_from; [done|]. split; [apply ok_new|]. by intros id s [=]. Qed.

(** C22. A badge says what was published. After any sequence of rounds, single checks and
    listings, against runtimes and registries that answer as they like: each cached status
    is of the container it is kept for and of a check made at one of those moments. It has
    no verdict exactly when it has an error. With a verdict, the runtime reported the image
    reference it shows and the reference parses. A pinned one is never outdated. Otherwise
    the local image is known, under the reference's own repository or under the only name
    it has, at the digest shown; a registry answered 200 to a request for that repository
    and the reference's tag; and the container is outdated unless that answer's digest is
    the local one or its index lists it. *)
Theorem badges_sound (ops : list update_op) (id : str) (s : containerUpdateStatus) :
  Status (reached ops) id = Some s ->
  us_Container s = id /\ exists w ref, met ops w /\ told w ref (rc_sent (uc_registry (reached ops))) s.
Proof. apply reached_ok. Qed.

(** C21. Credentials stay home. Every request the update checks ever sent, given all the
    answers before it: a manifest request goes over https to the host of its reference, and
    carries nothing, the daemon account's own credential for that registry, or a token
    that was answered to a token request for that same registry and repository. A token
    request follows a 401 that named its realm, goes to an https realm, and carries nothing
    or the account's credential for the registry of the reference. *)
Theorem credentials_confined (ops : list update_op) (past : exchanges) (r : request) (a : res response) (rest : exchanges) :
  rc_sent (uc_registry (reached ops)) = past ++ (r, a) :: rest -> allowed past r.
Proof. apply reached_ok. Qed.

(** ** Rounds *)

Lemma check_container w ref client : us_Container (check w ref client).1 = cr_ID ref /\ us_CheckedAt (check w ref client).1 = m_now w.
Proof.
  unfold check, compare. destruct (m_inspect _ _ _); [|done]. case_bool_decide; [done|]. destruct (parseImageReference _) as [r|]; [|done].
  destruct (imageReference_Pinned r); [done|]. destruct (m_image _ _ _); [|done]. destruct (resolveUpdateQuery _ _) as [[? ?]|]; [|done]. by destruct (manifest _ _ _ _) as [[?|] ?].
Qed.
Lemma check_and_store_results w ref c : exists s, us_CheckedAt s = m_now w /\ uc_results (check_and_store w ref c).2 = <[cr_ID ref := s]> (uc_results c).
Proof.
  unfold check_and_store. destruct (check_container w ref (uc_registry c)) as [Hid Hat]. destruct (check w ref (uc_registry c)) as [s client].
  cbn in *. exists s. by rewrite Hid.
Qed.
(** Checked at this moment, or less than [minAge] before it. *)
Definition recent (w : moment) (minAge : Z) (s : containerUpdateStatus) : Prop := m_now w - us_CheckedAt s < minAge \/ us_CheckedAt s = m_now w.
Lemma fresh_some w minAge o s : fresh w minAge o = Some s -> o = Some s /\ recent w minAge s.
Proof. unfold fresh. destruct o as [s'|]; [|done]. destruct (_ <? _) eqn:E; [|done]. intros [= <-]. split; [done|left]. by apply Z.ltb_lt. Qed.
Lemma each_results at_ref minAge : (forall i, m_done (at_ref i) = false) -> forall refs i c,
  let out := check_each at_ref minAge i refs c in
  out.1 = true /\ dom (uc_results out.2) = dom (uc_results c) ∪ liveIDs refs /\
  (forall id, id ∉ liveIDs refs -> uc_results out.2 !! id = uc_results c !! id) /\
  (forall id s, id ∈ liveIDs refs -> uc_results out.2 !! id = Some s -> exists j, recent (at_ref j) minAge s).
Proof.
  intros Hd refs. induction refs as [|ref refs IH]; intros i c.
  { cbn. split_and!; [done|set_solver|done|]. intros id s Hid. set_solver. }
  cbn [check_each]. rewrite Hd.
  assert (exists c1 s, (match fresh (at_ref i) minAge (Status c (cr_ID ref)) with Some _ => check_each at_ref minAge (S i) refs c | None => check_each at_ref minAge (S i) refs (check_and_store (at_ref i) ref c).2 end)
    = check_each at_ref minAge (S i) refs c1 /\ uc_results c1 !! cr_ID ref = Some s /\ recent (at_ref i) minAge s /\
    (forall id, id <> cr_ID ref -> uc_results c1 !! id = uc_results c !! id) /\ dom (uc_results c1) = {[cr_ID ref]} ∪ dom (uc_results c)) as (c1 & s1 & -> & Hs1 & Hr1 & Ho & Hdom).
  { destruct (fresh _ _ _) as [s|] eqn:Ef.
    - apply fresh_some in Ef as [Ef ?]. exists c, s. split_and!; try done. apply (elem_of_dom_2 (uc_results c)) in Ef. set_solver.
    - destruct (check_and_store_results (at_ref i) ref c) as (s & Hs & Hc). exists (check_and_store (at_ref i) ref c).2, s. rewrite Hc. split_and!; [done|by rewrite lookup_insert_eq|by right| |by rewrite dom_insert_L].
      intros id Hne. by rewrite lookup_insert_ne. }
  destruct (IH (S i) c1) as (H1 & H2 & H3 & H4). unfold liveIDs in *. cbn [fmap list_fmap list_to_set]. split_and!; [done| | |].
  - rewrite H2, Hdom. set_solver.
  - intros id Hid. rewrite H3 by set_solver. apply Ho. set_solver.
  - intros id s Hid Hs. destruct (decide (id ∈@{gset str} list_to_set (cr_ID <$> refs))) as [Hin|Hin]; [by eapply H4|].
    assert (id = cr_ID ref) as -> by set_solver. rewrite H3, Hs1 in Hs by done. injection Hs as <-. by exists i.
Qed.
Lemma each_sends at_ref minAge refs : forall i c, client_ok (uc_registry c) ->
  exists more, rc_sent (uc_registry (check_each at_ref minAge i refs c).2) = rc_sent (uc_registry c) ++ more /\ (List.length more <= 3 * List.length refs)%nat.
Proof.
  induction refs as [|ref refs IH]; intros i c Hc; [exists []; rewrite app_nil_r; split; [done|cbn; lia]|]. cbn [check_each].
  destruct (m_done _); [exists []; rewrite app_nil_r; split; [done|cbn; lia]|]. destruct (fresh _ _ _).
  - destruct (IH (S i) c Hc) as (more & ? & ?). exists more. split; [done|]. cbn [List.length]. lia.
  - unfold check_and_store. destruct (check _ _ _) as [s client] eqn:E. destruct (check_spec _ _ _ _ _ Hc E) as (_ & Hc' & more & Hm & Hl).
    destruct (IH (S i) (store s (mkUpdateChecker client (uc_results c))) Hc') as (more' & Hm' & Hl'). cbn [snd]. rewrite Hm'. cbn [store uc_registry]. rewrite Hm, <-app_assoc.
    eexists. split; [done|]. rewrite length_app. cbn [List.length]. lia.
Qed.
Lemma each_fresh at_ref minAge refs c : forall i, (forall j ref, refs !! j = Some ref -> fresh (at_ref (i + j)%nat) minAge (Status c (cr_ID ref)) <> None) ->
  (check_each at_ref minAge i refs c).2 = c.
Proof.
  induction refs as [|ref refs IH]; intros i Hf; [done|]. cbn [check_each]. destruct (m_done _); [done|].
  pose proof (Hf 0%nat ref eq_refl) as Hf0. rewrite Nat.add_0_r in Hf0. destruct (fresh _ _ _); [|done]. apply IH. intros j ref' Hj. replace (S i + j)%nat with (i + S j)%nat by lia. by apply (Hf (S j)).
Qed.
#[export] Instance result_le_Total : Total result_le.
Proof. intros a b. unfold result_le. rewrite (bool_decide_ext (us_Name b = us_Name a) (us_Name a = us_Name b)) by done. case_bool_decide; apply str_le_total. Qed.
#[export] Instance result_le_Trans : Transitive result_le.
Proof.
  intros a b c. unfold result_le. repeat case_bool_decide; intros ? ?; try congruence; try by etrans.
  all: try (exfalso; congruence). exfalso. apply H1. apply (anti_symm str_le); congruence.
Qed.
Lemma round_ends at_ref minAge refs c : refs <> [] -> (forall i, m_done (at_ref i) = false) ->
  CheckAll (Ok refs) at_ref minAge c = forget (liveIDs refs) (check_each at_ref minAge 0 refs c).2.
Proof.
  intros Hne Hd. destruct (each_results at_ref minAge Hd refs 0 c) as [H1 _]. unfold CheckAll. destruct refs as [|ref refs]; [done|].
  destruct (check_each _ _ _ _ _) as [ended c']. cbn in H1. by rewrite H1.
Qed.

Lemma each_keeps at_ref minAge refs : forall i c, dom (uc_results c) ⊆ dom (uc_results (check_each at_ref minAge i refs c).2).
Proof.
  induction refs as [|ref refs IH]; intros i c; [done|]. cbn [check_each]. destruct (m_done _); [done|]. destruct (fresh _ _ _); [apply IH|].
  destruct (check_and_store_results (at_ref i) ref c) as (s & _ & Hs). etrans; [|apply IH]. rewrite Hs, dom_insert_L. set_solver.
Qed.
Lemma each_cut at_ref minAge refs i c j : (j < List.length refs)%nat -> m_done (at_ref (i + j)%nat) = true -> (check_each at_ref minAge i refs c).1 = false.
Proof.
  revert i c j. induction refs as [|ref refs IH]; intros i c j Hj Hd; cbn [List.length] in Hj; [lia|]. cbn [check_each].
  destruct (m_done (at_ref i)) eqn:E; [done|]. destruct j as [|j]; [rewrite Nat.add_0_r in Hd; congruence|].
  replace (i + S j)%nat with (S i + j)%nat in Hd by lia. destruct (fresh _ _ _); apply (IH _ _ j); (lia || done).
Qed.
(** What a listing of the runtimes says: the containers, none when it failed; and whether
    it lets a container count as one that still exists: an empty one, or a failed one,
    lets every container. *)
Definition listed (containers : res (list containerRef)) : list containerRef := match containers with Ok refs => refs | Err _ => [] end.
Definition exists_in (containers : res (list containerRef)) (id : str) : Prop := listed containers = [] \/ id ∈ liveIDs (listed containers).
Lemma ForgetStale_lookup containers c id s : Status (ForgetStale containers c) id = Some s <-> Status c id = Some s /\ exists_in containers id.
Proof.
  unfold exists_in, Status. destruct containers as [[|ref refs]|e]; cbn [ForgetStale listed]; [naive_solver| |naive_solver].
  cbn [forget uc_results]. rewrite map_lookup_filter_Some. cbn [fst]. naive_solver.
Qed.
Lemma Results_spec c s : s ∈ Results c <-> exists id, Status c id = Some s.
Proof.
  unfold Results, Status. rewrite merge_sort_Permutation, list_elem_of_fmap. split.
  - intros ([id s'] & -> & Hs%elem_of_map_to_list). by exists id.
  - intros (id & Hs). exists (id, s). split; [done|]. by apply elem_of_map_to_list.
Qed.

(** C23. Rounds and listings, in any state that can be reached, whatever the runtimes list
    and however the round ends. A round sends at most three requests per listed
    container, and none when every answer is young enough. One that lists containers and
    is not cut short ends with a status for exactly those, each checked at a moment of
    the round or less than the minimal age before one; one that is cut short forgets
    nothing; and one that lists none, or fails to list, changes nothing. The updates
    endpoint sends nothing and shows, in order of name and id, the status as cached of
    every container that has one and exists; when the daemon lists no container, or fails
    to, it shows all that is cached, so containers that are gone stay shown, and it never
    shows a container that was not checked. *)
Theorem update_rounds_exact (ops : list update_op) (containers : res (list containerRef)) (at_ref : nat -> moment) (minAge : Z) (interval : option Z) :
  let refs := listed containers in
  let c := reached ops in
  let c' := CheckAll containers at_ref minAge c in
  let '(payload, c2) := handleContainerUpdates containers interval c in
  (exists more, rc_sent (uc_registry c') = rc_sent (uc_registry c) ++ more /\ (List.length more <= 3 * List.length refs)%nat) /\
  ((forall i ref, refs !! i = Some ref -> fresh (at_ref i) minAge (Status c (cr_ID ref)) <> None) -> uc_registry c' = uc_registry c) /\
  (refs <> [] -> (forall i, m_done (at_ref i) = false) ->
     dom (uc_results c') = liveIDs refs /\ forall id s, Status c' id = Some s -> exists i, recent (at_ref i) minAge s) /\
  ((exists i, (i < List.length refs)%nat /\ m_done (at_ref i) = true) -> dom (uc_results c) ⊆ dom (uc_results c')) /\
  (refs = [] -> c' = c) /\
  uc_registry c2 = uc_registry c /\ StronglySorted result_le (up_Containers payload) /\
  (forall s, s ∈ up_Containers payload <-> exists id, Status c id = Some s /\ exists_in containers id).
Proof.
  intros refs c c'. unfold handleContainerUpdates.
  assert (Hround : c' = match refs with [] => c | _ => let '(ended, c) := check_each at_ref minAge 0 refs c in if ended then forget (liveIDs refs) c else c end) by (by destruct containers as [[|]|]).
  assert (Hreg : uc_registry c' = uc_registry (check_each at_ref minAge 0 refs c).2) by (rewrite Hround; destruct refs; [done|]; by destruct (check_each _ _ _ _ _) as [[] ?]).
  split_and!.
  - rewrite Hreg. apply each_sends. apply reached_ok.
  - intros Hy. by rewrite Hreg, each_fresh.
  - intros Hne Hd. destruct (each_results at_ref minAge Hd refs 0 c) as (_ & Hdom & _ & Hrec).
    assert (c' = forget (liveIDs refs) (check_each at_ref minAge 0 refs c).2) as -> by (rewrite <-round_ends by done; unfold c', refs in *; by destruct containers as [[|]|]). split.
    + cbn [forget uc_results]. apply set_eq. intros id. rewrite elem_of_dom. unfold is_Some. setoid_rewrite map_lookup_filter_Some. cbn [fst]. split; [naive_solver|].
      intros Hid. assert (id ∈ dom (uc_results (check_each at_ref minAge 0 refs c).2)) as [s Hs]%elem_of_dom by set_solver. by exists s.
    + intros id s. unfold Status. cbn [forget uc_results]. rewrite map_lookup_filter_Some. intros [Hs Hid]. by eapply Hrec.
  - intros (i & Hi & Hd). pose proof (each_cut at_ref minAge refs 0 c i Hi Hd) as Hcut. pose proof (each_keeps at_ref minAge refs 0 c) as Hk. rewrite Hround.
    destruct refs; [done|]. destruct (check_each _ _ _ _ _) as [ended c1]. cbn in Hcut, Hk. by subst ended.
  - intros He. by rewrite Hround, He.
  - by destruct containers as [[|]|].
  - apply StronglySorted_merge_sort; apply _.
  - intros s. cbn [up_Containers]. rewrite Results_spec. by setoid_rewrite ForgetStale_lookup.
Qed.
End facts.

(** ** A host with one container *)

Section demo.
#[local] Instance ascii_unicode : Unicode := { unicode_ToLower s := s; unicode_Quote s := s }.
#[local] Instance one_registry : RegistryEnv := {
  token_payload _ := Ok ($"t0k3n", [], 300); index_manifests _ := Ok []; sha256_hex s := s; url_set_query realm _ := Ok realm; request_refused _ := None;
  unicode_runes s := s; auth_file path := if bool_decide (path = $"/home/maid/.docker/config.json") then Some {[ $"ghcr.io" := mkAuthEntry [] ($"maid") ($"pw") ]} else None;
  env_DOCKER_CONFIG := []; env_REGISTRY_AUTH_FILE := []; env_XDG_RUNTIME_DIR := []; env_home := Some ($"/home/maid");
}.
Definition app_digest : str := $"sha256:" ++ replicate 64 (ch "a").
Definition app_container : containerRef := mkContainerRef ($"docker") ($"/usr/bin/docker") ($"c1") ($"app").
Definition ghcr (r : request) : response :=
  match hr_for r with
  | ForToken _ _ _ _ => mkHTTPResponse 200 [] [] [] (Ok ($"{}"))
  | ForManifest _ =>
      if bool_decide (hr_authorization r = []) then mkHTTPResponse 401 ($"Bearer realm=https://ghcr.io/token,service=ghcr.io") [] [] (Ok [])
      else mkHTTPResponse 200 [] ($"application/vnd.oci.image.manifest.v1+json") app_digest (Ok ($"{}"))
  end.
(** The local store already holds image [i2]; the container still runs [i1]. *)
Definition one_moment : moment :=
  mkMoment 1000 (fun _ _ => Ok (mkInspect [] ($"ghcr.io/team/app:v1") ($"i1") ∅ false)) (fun _ _ => Ok (mkImageInfo ($"i2") [$"ghcr.io/team/app@" ++ app_digest]))
    (fun _ r => Ok (ghcr r)) (fun _ => 1000) false.
Definition one_round : list update_op := [ORound (Ok [app_container]) (fun _ => one_moment) 0].
Definition app_ref : imageReference := mkImageReference ($"ghcr.io") ($"team/app") ($"v1") [].
Definition app_status : containerUpdateStatus :=
  mkUpdateStatus ($"c1") ($"app") ($"docker") ($"ghcr.io/team/app:v1") 1000 (Some false) false true app_digest app_digest None.
Definition first_try : request := mkRequest (ForManifest app_ref) ($"https://ghcr.io/v2/team/app/manifests/v1") [].
Definition token_request : request :=
  mkRequest (ForToken app_ref ($"https://ghcr.io/token") ($"ghcr.io") ($"repository:team/app:pull")) ($"https://ghcr.io/token") (basicAuthorization ($"maid") ($"pw")).
Definition second_try : request := mkRequest (ForManifest app_ref) ($"https://ghcr.io/v2/team/app/manifests/v1") ($"Bearer t0k3n").
Lemma one_round_sent : rc_sent (uc_registry (reached one_round)) = (fun r => (r, Ok (ghcr r))) <$> [first_try; token_request; second_try].
Proof. vm_compute. reflexivity. Qed.
Lemma one_round_status : Status (reached one_round) ($"c1") = Some app_status.
Proof. vm_compute. reflexivity. Qed.

(** A recreate would apply a newer image, and yet the container counts as current. *)
Example stale_but_current : us_Outdated app_status = Some false /\ us_RestartRequired app_status = true.
Proof. done. Qed.

Lemma badges_sound_witness : Status (reached one_round) ($"c1") = Some app_status /\ us_Container app_status = $"c1" /\
  exists w ref, met one_round w /\ told w ref (rc_sent (uc_registry (reached one_round))) app_status.
Proof. split; [exact one_round_status|]. exact (badges_sound one_round ($"c1") app_status one_round_status). Defined.
Lemma credentials_confined_witness : allowed ((fun r => (r, Ok (ghcr r))) <$> [first_try]) token_request /\ allowed ((fun r => (r, Ok (ghcr r))) <$> [first_try; token_request]) second_try.
Proof.
  split.
  - exact (credentials_confined one_round ((fun r => (r, Ok (ghcr r))) <$> [first_try]) token_request _ _ one_round_sent).
  - exact (credentials_confined one_round ((fun r => (r, Ok (ghcr r))) <$> [first_try; token_request]) second_try _ [] one_round_sent).
Defined.
Lemma update_rounds_exact_witness : [app_container] <> [] /\ m_done one_moment = false /\
  dom (uc_results (CheckAll (Ok [app_container]) (fun _ => one_moment) 60 (reached one_round))) = {[ $"c1" ]}.
Proof.
  split; [done|]. split; [reflexivity|]. destruct (update_rounds_exact one_round (Ok [app_container]) (fun _ => one_moment) 60 None) as (_ & _ & Hround & _).
  destruct Hround as [Hdom _]; [done|reflexivity|]. cbn zeta in Hdom. rewrite Hdom. unfold liveIDs. cbn [listed fmap list_fmap list_to_set cr_ID app_container]. apply union_empty_r_L.
Defined.
(** The last container of a host is gone, and still shown. *)
Example gone_but_shown : up_Containers (handleContainerUpdates (Ok []) None (reached one_round)).1 = [app_status].
Proof. vm_compute. reflexivity. Qed.
End demo.
