(* ===== verification/DayFiles.v ===== *)
(** * DayFiles: one file of JSON lines per day

    What [internal/daemon/process_history.go] and [metrics.go] share: samples are kept in
    files named after their UTC day, a line each. The text of a day is an interface. *)

From S2P Require Import Prelude GoStr Config Alarms AuditLog AtomicSave Logs.
Open Scope Z_scope.

(** Midnight of a day and its name, [2006-01-02]. *)
Definition day_start (t : Z) : Z := t / Day * Day.
Class DayText := { format_day : Z -> str; parse_day : str -> option Z }.
(** Names of days are distinct, and those of four-digit years are read back. *)
Definition year_10000 : Z := 253402300800 * 1000000000.
Class DayLaws `{DayText} := {
  format_day_inj t u : format_day (day_start t) = format_day (day_start u) -> day_start t = day_start u;
  parse_format t : zero_time <= t < year_10000 -> parse_day (format_day (day_start t)) = Some (day_start t);
}.
Definition jsonl : str := $".jsonl".
Definition day_name `{DayText} (t : Z) : str := format_day (day_start t) ++ jsonl.
Definition day_of_name `{DayText} (name : str) : option Z := if HasSuffix name jsonl then parse_day (take (List.length name - List.length jsonl) name) else None.
(** The names and contents of the regular files of a directory, when it exists. *)
Abbreviation dayDir := (option (gmap str str)).
(** Which calls succeed; a write that fails wrote some bytes. *)
Record day_io := mkDayIO { di_readdir : bool; di_mkdir : bool; di_remove : str -> bool; di_open : str -> bool; di_write : str -> option nat }.
Definition day_ok : day_io := mkDayIO true true (fun _ => true) (fun _ => true) (fun _ => None).
Definition written (f : day_io) (name data : str) : str := match di_write f name with None => data | Some n => take n data end.
(** Open for appending, or created; the directory has to exist. *)
Definition append_file (f : day_io) (name data : str) (disk : dayDir) : bool * dayDir :=
  match disk with
  | None => (false, disk)
  | Some files =>
      if negb (di_open f name) then (false, disk)
      else (negb (is_Some_b (di_write f name)), Some (<[name := default [] (files !! name) ++ written f name data]> files))
  end.

(** ** Lines *)

(** An encoded sample: one line, an object. *)
Record line_ok (l : str) : Prop := {
  line_newline : newline ∉ l;
  line_short : Z.of_nat (List.length l) < MaxScanTokenSize;
  line_object : last l = Some (ch "}");
  line_trim : TrimSpace l = l;
}.
Lemma dropCR_line l : line_ok l -> dropCR l = l.
Proof. intros Hl. unfold dropCR. by rewrite (line_object _ Hl). Qed.
Lemma line_ne l : line_ok l -> l <> [].
Proof. intros Hl ->. by pose proof (line_object _ Hl). Qed.
Definition file_of_lines (ls : list str) : str := concat ((fun l => l ++ [newline]) <$> ls).
Lemma file_of_lines_app ls ks : file_of_lines (ls ++ ks) = file_of_lines ls ++ file_of_lines ks.
Proof. unfold file_of_lines. by rewrite fmap_app, concat_app. Qed.
Lemma Scan_lines ls : Forall line_ok ls -> Scan (file_of_lines ls) = ls.
Proof.
  intros Hls. unfold Scan. assert (split_on newline (file_of_lines ls) = ls ++ [[]]) as ->.
  { induction Hls as [|l ls Hl Hls IH]; [done|]. unfold file_of_lines in *. cbn [fmap list_fmap concat]. rewrite <-app_assoc. cbn [app].
    rewrite split_on_app_sep by apply (line_newline _ Hl). by rewrite IH. }
  induction Hls as [|l ls Hl Hls IH]; [done|]. cbn [app]. rewrite scan_cons_short; [|by destruct ls|apply (line_short _ Hl)]. by rewrite dropCR_line, IH.
Qed.
(** The samples of a file, as both readers take them from its lines. *)
Lemma decode_lines {A} (dec : str -> option A) (ls : list str) (l : list A) : Forall line_ok ls -> Forall2 (fun line a => dec line = Some a) ls l ->
  omap dec (Scan (file_of_lines ls)) = l.
Proof.
  intros Hls Hd. rewrite Scan_lines by done. clear Hls. induction Hd as [|line a ls l Hla Hd IH]; [done|]. cbn [omap list_omap]. by rewrite Hla, IH.
Qed.

(** ** Names *)

Section names.
Context `{DayLaws}.
Lemma day_name_inj t u : day_name t = day_name u -> day_start t = day_start u.
Proof. intros E. apply format_day_inj. by apply (inj (.++ jsonl)) in E. Qed.
Lemma day_name_start t u : day_start t = day_start u -> day_name t = day_name u.
Proof. unfold day_name. by intros ->. Qed.
Lemma day_name_jsonl t : HasSuffix (day_name t) jsonl = true.
Proof. apply bool_decide_eq_true. by eexists. Qed.
Lemma day_of_day_name t : zero_time <= t < year_10000 -> day_of_name (day_name t) = Some (day_start t).
Proof.
  intros Ht. unfold day_of_name. rewrite day_name_jsonl. unfold day_name. rewrite length_app, Nat.add_sub, take_app_length. by apply parse_format.
Qed.
End names.
Lemma day_start_le t : day_start t <= t.
Proof. unfold day_start. pose proof (Z.mul_div_le t Day ltac:(unfold Day, Hour, Minute, Second; lia)). lia. Qed.
Lemma day_start_mono t u : t <= u -> day_start t <= day_start u.
Proof. intros Htu. unfold day_start. apply Z.mul_le_mono_nonneg_r; [unfold Day, Hour, Minute, Second; lia|]. apply Z.div_le_mono; [unfold Day, Hour, Minute, Second; lia|done]. Qed.

(** ** Lists *)

Lemma filter_or_perm {A} (P Q : A -> Prop) `{forall x, Decision (P x), forall x, Decision (Q x)} (l : list A) : (forall x, P x -> ~ Q x) ->
  filter P l ++ filter Q l ≡ₚ filter (fun x => P x \/ Q x) l.
Proof.
  intros Hd. induction l as [|x l IH]; [done|]. rewrite !filter_cons. destruct (decide (P x)) as [Hp|Hp].
  - rewrite (decide_True (P := P x \/ Q x)) by by left. rewrite (decide_False (P := Q x)) by auto. cbn [app]. by rewrite IH.
  - destruct (decide (Q x)) as [Hq|Hq].
    + rewrite (decide_True (P := P x \/ Q x)) by by right. rewrite <-Permutation_middle. by rewrite IH.
    + rewrite (decide_False (P := P x \/ Q x)) by naive_solver. done.
Qed.
Lemma filter_concat {A} (P : A -> Prop) `{forall x, Decision (P x)} (ls : list (list A)) : filter P (concat ls) = concat (filter P <$> ls).
Proof. induction ls as [|l ls IH]; [done|]. cbn [concat fmap list_fmap]. by rewrite filter_app, IH. Qed.

(** ** A directory that holds some samples *)

Section samples.
Context `{DayLaws} {A : Type} `{JSONCodec A} (time : A -> Z).
Implicit Types (l : list A).
Definition sample_ok (e : A) : Prop :=
  zero_time <= time e < year_10000 /\ exists line, Encode e = Some line /\ Decode line = Some e /\ line_ok line.
Definition same_day (t : Z) (x : A) : Prop := day_start (time x) = day_start t.
#[export] Instance same_day_dec t x : Decision (same_day t x).
Proof. unfold same_day. apply _. Defined.
Definition day_content (t : Z) (l : list A) : option str :=
  match filter (same_day t) l with [] => None | l => Some (file_of_lines (omap Encode l)) end.
Record files_hold (files : gmap str str) (l : list A) : Prop := {
  hold_days : forall t, files !! day_name t = day_content t l;
  hold_names : forall name data, HasSuffix name jsonl = true -> files !! name = Some data -> exists x, x ∈ l /\ name = day_name (time x);
}.
Lemma day_append_holds files l e data : Encode e = Some data -> files_hold files l ->
  files_hold (<[day_name (time e) := default [] (files !! day_name (time e)) ++ data ++ [newline]]> files) (l ++ [e]).
Proof.
  intros He [Hd Hn]. split.
  - intros t. unfold day_content. rewrite filter_app, filter_cons, filter_nil. destruct (decide (same_day t e)) as [Hs|Hs].
    + rewrite (day_name_start t (time e)) by done. rewrite lookup_insert_eq, Hd. unfold day_content.
      assert (filter (same_day (time e)) l = filter (same_day t) l) as -> by (apply list_filter_iff; intros x; unfold same_day in *; by rewrite Hs).
      assert (omap Encode [e] = [data]) as Hone by (cbn; by rewrite He).
      destruct (filter (same_day t) l) as [|x k]; cbn [app default from_option]; f_equal.
      * rewrite Hone. unfold file_of_lines. cbn. by rewrite app_nil_r.
      * change (x :: k ++ [e]) with ((x :: k) ++ [e]). rewrite omap_app, Hone, file_of_lines_app. unfold file_of_lines at 3. cbn. by rewrite app_nil_r.
    + rewrite lookup_insert_ne, Hd, app_nil_r; [done|]. intros E%day_name_inj. by apply Hs.
  - intros name data' Hj. rewrite lookup_insert_Some. intros [[<- _]|[_ Hs]].
    + exists e. split; [|done]. rewrite elem_of_app, list_elem_of_singleton. by right.
    + destruct (Hn _ _ Hj Hs) as (x & Hx & ->). exists x. split; [|done]. rewrite elem_of_app. by left.
Qed.
Lemma days_perm l days : NoDup days -> Forall (fun d => day_start d = d) days ->
  concat ((fun d => filter (same_day d) l) <$> days) ≡ₚ filter (fun x => day_start (time x) ∈ days) l.
Proof.
  induction days as [|d days IH]; intros Hnd Hs; cbn [fmap list_fmap concat].
  - induction l as [|x l IH]; [done|]. by rewrite filter_cons, decide_False by apply not_elem_of_nil.
  - apply NoDup_cons in Hnd as [Hd Hnd]. apply Forall_cons in Hs as [Hdd Hs]. rewrite IH by done. rewrite filter_or_perm.
    + apply reflexive_eq, list_filter_iff. intros x. unfold same_day. rewrite Hdd, elem_of_cons. done.
    + intros x. unfold same_day. rewrite Hdd. by intros ->.
Qed.
Variable dec : str -> option A.
Hypothesis dec_line : forall line, line_ok line -> dec line = Decode line.
Lemma encoded l : Forall sample_ok l -> Forall line_ok (omap Encode l) /\ Forall2 (fun line x => dec line = Some x) (omap Encode l) l.
Proof.
  induction 1 as [|x l (Ht & line & He & Hd & Hl) Hf [IH1 IH2]]; [done|]. cbn [omap list_omap]. rewrite He. split; constructor; try done. by rewrite dec_line.
Qed.
Lemma content_decodes t l : Forall sample_ok l ->
  match day_content t l with Some data => omap dec (Scan data) = filter (same_day t) l | None => filter (same_day t) l = [] end.
Proof.
  intros Hl. unfold day_content. assert (Hk : Forall sample_ok (filter (same_day t) l)).
  { rewrite Forall_forall in *. intros x [_ Hx]%list_elem_of_filter. auto. }
  destruct (filter (same_day t) l) as [|x k]; [done|]. destruct (encoded _ Hk). by apply decode_lines.
Qed.
End samples.
