(* ===== verification/Processes.v ===== *)
(** * Processes: the process table and the groups made of it

    The runtimes part of [internal/daemon/collectors.go]: what [ps] prints as entries, the
    groups of the configured runtimes and of the watched processes, what [jps] and [jstat]
    print, and the usage sample of each watched process. The text of a float is an
    interface. *)

From S2P Require Import Prelude GoStr Config Alarms.
From Stdlib Require Import SpecFloat.
Open Scope Z_scope.

(** [strings.Fields], over the white space of Unicode. *)
Definition flush (word : str) : list str := if bool_decide (word = []) then [] else [word].
Fixpoint fields_from (fuel : nat) (word s : str) : list str :=
  match fuel with
  | O => flush word
  | S fuel =>
      match lead s, s with
      | Some s, _ => flush word ++ fields_from fuel [] s
      | None, c :: s => fields_from fuel (word ++ [c]) s
      | None, [] => flush word
      end
  end.
Definition Fields (s : str) : list str := fields_from (S (List.length s)) [] s.
(** [strconv.ParseFloat]. *)
Class FloatText := { ParseFloat64 : str -> option spec_float }.
Definition float_add : spec_float -> spec_float -> spec_float := SFadd 53 1024.
Definition float_zero : spec_float := S754_zero false.

(** ** The table *)

Definition maxJvmProbePids : nat := 8.
Definition runtimeProcessTableLimit : nat := 300.
Record runtimeProcessEntry := mkProcessEntry {
  pe_PID : Z; pe_User : str; pe_CPUPercent : spec_float; pe_MemoryPercent : spec_float; pe_RSSKb : Z; pe_Threads : option Z; pe_Comm : str; pe_Command : str;
}.
Definition parse_process `{FloatText} (hasThreads : bool) (fields : list str) : option runtimeProcessEntry :=
  match fields with
  | pid :: user :: cpu :: mem :: rss :: rest =>
      match Atoi pid, ParseFloat64 cpu, ParseFloat64 mem, Atoi rss with
      | Some pid, Some cpu, Some mem, Some rss =>
          if hasThreads then
            match rest with
            | threads :: (comm :: _) as command =>
                match Atoi threads with Some threads => Some (mkProcessEntry pid user cpu mem rss (Some threads) comm (join ($" ") (tail command))) | None => None end
            | _ => None
            end
          else match rest with comm :: _ => Some (mkProcessEntry pid user cpu mem rss None comm (join ($" ") rest)) | [] => None end
      | _, _, _, _ => None
      end
  | _ => None
  end.
Definition parseRuntimeProcesses `{FloatText} (output : str) (hasThreads : bool) : list runtimeProcessEntry :=
  omap (fun line => parse_process hasThreads (Fields line)) (split_on newline output).
Definition ps_gnu : str := $"ps -eo pid=,user=,%cpu=,%mem=,rss=,nlwp=,comm=,args= --sort=-%cpu".
Definition ps_bsd : str := $"ps -Ao pid=,user=,%cpu=,%mem=,rss=,comm=,args= -r".
(** What a shell command prints, when it succeeds. *)
Definition readProcessTableCommand `{FloatText} (runShell : str -> res str) : res (list runtimeProcessEntry * bool) :=
  match runShell ps_gnu with
  | Ok out =>
      if bool_decide (TrimSpace out = []) then let? out := runShell ps_bsd in Ok (parseRuntimeProcesses out false, false)
      else Ok (parseRuntimeProcesses out true, true)
  | Err _ => let? out := runShell ps_bsd in Ok (parseRuntimeProcesses out false, false)
  end.
Definition capRuntimeProcessTable (entries : list runtimeProcessEntry) : list runtimeProcessEntry := take runtimeProcessTableLimit entries.
Definition processComm (entry : runtimeProcessEntry) : str :=
  if negb (bool_decide (pe_Comm entry = [])) then pe_Comm entry
  else match cut (ch " ") (pe_Command entry) with Some (comm, _) => comm | None => pe_Command entry end.

(** ** Groups *)

(** [Java] is filled in by the collector. *)
Record runtimeGroup := mkRuntimeGroup { rg_Runtime : str; rg_Available : bool; rg_Error : option str; rg_Processes : list runtimeProcessEntry }.
Record watchedProcessGroup := mkWatchedGroup { wg_Name : str; wg_Available : bool; wg_Error : option str; wg_Processes : list runtimeProcessEntry }.
(** The group a process joins: of the first name its command starts with, unless it is full. *)
Fixpoint join_group (limit : Z) (entry : runtimeProcessEntry) (groups : list runtimeGroup) : list runtimeGroup :=
  match groups with
  | [] => []
  | g :: groups =>
      if negb (HasPrefix (processComm entry) (rg_Runtime g)) then g :: join_group limit entry groups
      else if limit <=? Z.of_nat (List.length (rg_Processes g)) then g :: groups
      else mkRuntimeGroup (rg_Runtime g) true (rg_Error g) (rg_Processes g ++ [entry]) :: groups
  end.
Definition no_processes (name : str) : str := $"no " ++ name ++ $" processes found".
Definition finish_group (g : runtimeGroup) : runtimeGroup :=
  if rg_Available g then g else mkRuntimeGroup (rg_Runtime g) false (Some (no_processes (rg_Runtime g))) (rg_Processes g).
Definition groupRuntimeProcesses (entries : list runtimeProcessEntry) (limit : Z) (names : list str) : list runtimeGroup :=
  finish_group <$> fold_left (fun groups entry => join_group limit entry groups) entries ((fun name => mkRuntimeGroup name false None []) <$> names).
Fixpoint take_matching (limit : Z) (name : str) (entries : list runtimeProcessEntry) (found : list runtimeProcessEntry) : list runtimeProcessEntry :=
  match entries with
  | [] => found
  | entry :: entries =>
      if limit <=? Z.of_nat (List.length found) then found
      else take_matching limit name entries (if HasPrefix (processComm entry) name then found ++ [entry] else found)
  end.
Definition watched_group (entries : list runtimeProcessEntry) (limit : Z) (name : str) : watchedProcessGroup :=
  let found := take_matching limit name entries [] in
  let available := negb (bool_decide (found = [])) in
  mkWatchedGroup name available (if available then None else Some (no_processes name)) found.
Definition groupWatchedProcesses (entries : list runtimeProcessEntry) (limit : Z) (names : list str) : list watchedProcessGroup :=
  watched_group entries limit <$> sort_strings names.

(** ** Usage of the watched processes *)

Record processHistorySample := mkHistorySample { hs_Name : str; hs_TS : Z; hs_CPUPercent : spec_float; hs_RSSKb : Z; hs_ProcessCount : Z; hs_Threads : option Z }.
Definition sum_kb (values : list Z) : Z := fold_left (fun sum n => wrap64 (sum + n)) values 0.
Definition group_sample (now : Z) (group : watchedProcessGroup) : processHistorySample :=
  let processes := wg_Processes group in
  let threads := omap pe_Threads processes in
  mkHistorySample (wg_Name group) now (fold_left (fun sum entry => float_add sum (pe_CPUPercent entry)) processes float_zero) (sum_kb (pe_RSSKb <$> processes))
    (Z.of_nat (List.length processes)) (if bool_decide (threads = []) then None else Some (sum_kb threads)).
(** The samples of one tick of [recordHistory], in the order they are appended. *)
Definition recordHistory (table : res (list runtimeProcessEntry * bool)) (now limit : Z) (watched : list str) : list processHistorySample :=
  match table with
  | Err _ => []
  | Ok (entries, _) => group_sample now <$> groupWatchedProcesses (capRuntimeProcessTable entries) limit watched
  end.

(** ** Java *)

Record jvmProcessEntry := mkJvm { jv_PID : Z; jv_MainClass : str }.
Definition parseJpsOutput (output : str) : list jvmProcessEntry :=
  omap (fun line => match Fields line with [] => None | pid :: rest => (fun pid => mkJvm pid (join ($" ") rest)) <$> Atoi pid end) (split_on newline output).
Definition parse_gcutil `{FloatText} (line : str) : option (spec_float * Z * Z * spec_float) :=
  let fields := Fields line in
  if (List.length fields <? 11)%nat then None
  else
    match ParseFloat64 (nth 3 fields []), Atoi (nth 6 fields []), Atoi (nth 8 fields []), ParseFloat64 (nth 10 fields []) with
    | Some old, Some ygc, Some fgc, Some gct => Some (old, ygc, fgc, gct)
    | _, _, _, _ => None
    end.
Definition parseJstatGcutilOutput `{FloatText} (output : str) : res (spec_float * Z * Z * spec_float) :=
  match omap parse_gcutil (split_on newline output) with
  | line :: _ => Ok line
  | [] => Err (Errorf "no valid jstat -gcutil data line found" [])
  end.
Record javaJvmEntry := mkJavaJvm { jj_PID : Z; jj_MainClass : str; jj_stats : res (spec_float * Z * Z * spec_float) }.
(** The tools' paths, empty when missing, and what a command prints. *)
Definition collectJavaDetail `{FloatText} (jpsPath jstatPath : str) (runCommand : list str -> res str) : res (list javaJvmEntry) :=
  if bool_decide (jpsPath = []) || bool_decide (jstatPath = []) then Err (Errorf "jps/jstat were not found on this host (no JDK)" [])
  else
    match runCommand [jpsPath; $"-l"] with
    | Err err => Err (Errorf "jps -l: %w" [FErr err])
    | Ok out =>
        Ok ((fun jvm => mkJavaJvm (jv_PID jvm) (jv_MainClass jvm)
          match runCommand [jstatPath; $"-gcutil"; fmt_d (jv_PID jvm)] with
          | Err err => Err (Errorf "jstat -gcutil: %w" [FErr err])
          | Ok out => match parseJstatGcutilOutput out with Err err => Err (Errorf "parse jstat output: %w" [FErr err]) | Ok stats => Ok stats end
          end) <$> take maxJvmProbePids (parseJpsOutput out))
    end.

(** ** What the samples say *)

Lemma take_matching_spec limit name entries : 0 <= limit -> forall found, Z.of_nat (List.length found) <= limit ->
  take_matching limit name entries found = take (Z.to_nat limit) (found ++ filter (fun e => HasPrefix (processComm e) name = true) entries).
Proof.
  intros H0. induction entries as [|e entries IH]; intros found Hf; cbn [take_matching].
  - rewrite app_nil_r, take_ge; [done|lia].
  - destruct (Z.leb_spec limit (Z.of_nat (List.length found))).
    + rewrite take_app_le, take_ge by lia. done.
    + rewrite filter_cons. destruct (HasPrefix _ _) eqn:E; rewrite IH.
      * rewrite decide_True by done. by rewrite <-app_assoc.
      * rewrite length_app. cbn [List.length]. lia.
      * by rewrite decide_False by done.
      * lia.
Qed.
(** A process past the 300 busiest is recorded as gone. *)
Definition idle_process (name : str) : runtimeProcessEntry := mkProcessEntry 1 ($"root") float_zero float_zero 100 (Some 1) name name.
Example idle_counts_as_down :
  recordHistory (Ok (replicate 300 (idle_process ($"sh")) ++ [idle_process ($"nginx")], true)) 0 20 [$"nginx"] = [mkHistorySample ($"nginx") 0 float_zero 0 0 None].
Proof. vm_compute. reflexivity. Qed.
(** More processes than a group shows are not counted. *)
Example usage_is_capped :
  (fun s => hs_ProcessCount s) <$> recordHistory (Ok (replicate 30 (idle_process ($"nginx")), true)) 0 20 [$"nginx"] = [20].
Proof. vm_compute. reflexivity. Qed.
Example fields_ex : Fields ($"  1 root	 2 ") = [$"1"; $"root"; $"2"].
Proof. vm_compute. reflexivity. Qed.
