(* ===== verification/ProcessHistory.v ===== *)
(** * ProcessHistory: usage samples on disk

    [internal/daemon/process_history.go]: samples appended to the file of their day, the
    files that are removed as they expire, and the query over a range of days. JSON and
    the text of a day are interfaces; a time is its nanoseconds since 1970. *)

From S2P Require Import Prelude GoStr Config Alarms AuditLog AtomicSave Logs LogsFacts DayFiles Processes.
Open Scope Z_scope.

Definition processHistoryMaxSamples : nat := 1000.
Record processHistoryStore := mkHistory { ph_dir : str; ph_retention : Z; ph_ring : list processHistorySample }.
Definition newProcessHistoryStore (storageDir : str) (retentionDays : Z) : processHistoryStore :=
  let retention := wrap64 (retentionDays * Day) in
  let retention := if retention <=? 0 then 7 * Day else retention in
  mkHistory storageDir (if 30 * Day <? retention then 30 * Day else retention) [].

Section store.
Context `{DayText, JSONCodec processHistorySample}.

(** ** Appending *)

Definition expired (cutoff : Z) (name : str) : bool := match day_of_name name with Some day => day <? cutoff | None => false end.
(** In the order of the names; a removal that fails ends it. *)
Fixpoint remove_expired (f : day_io) (cutoff : Z) (names : list str) (files : gmap str str) : gmap str str :=
  match names with
  | [] => files
  | name :: names =>
      if negb (expired cutoff name) then remove_expired f cutoff names files
      else if di_remove f name then remove_expired f cutoff names (delete name files) else files
  end.
Definition pruneLocked (f : day_io) (retention now : Z) (disk : dayDir) : dayDir :=
  match disk with
  | None => if di_mkdir f then Some ∅ else None
  | Some files => if di_readdir f then Some (remove_expired f (day_start (now - retention)) (sort_strings (map_to_list files).*1) files) else disk
  end.
Definition Append (f : day_io) (sample : processHistorySample) (st : processHistoryStore * dayDir) : processHistoryStore * dayDir :=
  let '(s, disk) := st in
  if bool_decide (ph_dir s = []) then (mkHistory (ph_dir s) (ph_retention s) (tail_of processHistoryMaxSamples (ph_ring s ++ [sample])), disk)
  else
    let disk := pruneLocked f (ph_retention s) (hs_TS sample) disk in
    match Encode sample with
    | None => (s, disk)
    | Some data => (s, (append_file f (day_name (hs_TS sample)) (data ++ [newline]) disk).2)
    end.

(** ** Queries *)

Definition in_range (name : str) (from to : option Z) (sample : processHistorySample) : bool :=
  bool_decide (hs_Name sample = name) && match from with Some from => from <=? hs_TS sample | None => true end && match to with Some to => hs_TS sample <=? to | None => true end.
Definition query_limit (limit : Z) : nat := Z.to_nat (if (limit <=? 0) || (5000 <? limit) then 500 else limit).
Definition decode_line (line : str) : option processHistorySample := let line := TrimSpace line in if bool_decide (line = []) then None else Decode line.
(** The days of the loop: from the one of [start] on while not after [end_]. *)
Definition query_days (start end_ : Z) : list Z := (fun i => day_start start + Z.of_nat i * Day) <$> seq 0 (Z.to_nat ((end_ - day_start start) / Day + 1)).
(** What was found and whether every file could be opened. *)
Fixpoint read_days (f : day_io) (keep : processHistorySample -> bool) (days : list Z) (disk : dayDir) (out : list processHistorySample) : list processHistorySample * bool :=
  match days with
  | [] => (out, true)
  | day :: days =>
      match disk ≫= (.!! day_name day) with
      | None => read_days f keep days disk out
      | Some data =>
          if negb (di_open f (day_name day)) then (out, false)
          else read_days f keep days disk (out ++ filter (fun sample => keep sample = true) (omap decode_line (Scan data)))
      end
  end.
Definition sample_le (a b : processHistorySample) : Prop := hs_TS a <= hs_TS b.
#[export] Instance sample_le_dec a b : Decision (sample_le a b).
Proof. unfold sample_le. apply _. Defined.
Definition Query (f : day_io) (now : Z) (name : str) (from to : option Z) (limit : Z) (st : processHistoryStore * dayDir) : list processHistorySample :=
  let '(s, disk) := st in
  if bool_decide (ph_dir s = []) then tail_of (query_limit limit) (filter (fun sample => in_range name from to sample = true) (ph_ring s))
  else
    let days := query_days (default zero_time from) (default (now + Day) to) in
    let '(out, all) := read_days f (in_range name from to) days disk [] in
    if all then tail_of (query_limit limit) (merge_sort sample_le out) else out.
End store.

(** A query without a start opens a file for every day since the year one. *)
Example days_since_year_one now : 1767225600 * 1000000000 <= now -> 739000 <= Z.of_nat (List.length (query_days zero_time (now + Day))).
Proof.
  intros Hn. unfold query_days. rewrite length_fmap, length_seq. assert (Hd : day_start zero_time = zero_time) by reflexivity. rewrite Hd.
  rewrite Z2Nat.id; cycle 1.
  - apply Z.add_nonneg_nonneg; [|lia]. apply Z.div_pos; unfold zero_time, Day, Hour, Minute, Second; lia.
  - assert (738999 <= (now + Day - zero_time) / Day); [|lia]. apply Z.div_le_lower_bound; unfold zero_time, Day, Hour, Minute, Second in *; lia.
Qed.
