(* ===== verification/ProcessHistoryFacts.v ===== *)
(** * ProcessHistoryFacts: a query returns what was recorded

    The files of the directory hold exactly the samples that have not expired, and a
    query finds those of its name and range, in the order of their times. *)

From S2P Require Import Prelude GoStr Config Alarms AuditLog AtomicSave Logs LogsFacts DayFiles Processes ProcessHistory.
Open Scope Z_scope.

Section facts.
Context `{DayLaws, JSONCodec processHistorySample}.
Implicit Types (l es : list processHistorySample).
Abbreviation sample_ok := (sample_ok hs_TS).
Abbreviation same_day := (same_day hs_TS).
Abbreviation day_content := (day_content hs_TS).
Abbreviation files_hold := (files_hold hs_TS).

(** ** What the files hold *)

(** What is left of the samples, oldest append first, when each append removes the days
    before its own cutoff. *)
Definition unexpired (retention now : Z) (x : processHistorySample) : Prop := day_start (now - retention) <= day_start (hs_TS x).
#[local] Instance unexpired_dec r t x : Decision (unexpired r t x).
Proof. unfold unexpired. apply _. Defined.
Definition survivors (retention : Z) (es : list processHistorySample) : list processHistorySample :=
  fold_left (fun l e => filter (unexpired retention (hs_TS e)) l ++ [e]) es [].

(** ** Removing and appending *)

Lemma remove_lookup cutoff names files name :
  remove_expired day_ok cutoff names files !! name = if bool_decide (name ∈ names) && expired cutoff name then None else files !! name.
Proof.
  revert files. induction names as [|n names IH]; intros files; cbn [remove_expired]; [done|].
  destruct (expired cutoff n) eqn:En; cbn [negb di_remove day_ok]; rewrite IH.
  - destruct (decide (name = n)) as [->|Hne].
    + rewrite lookup_delete_eq, En, !andb_true_r, (bool_decide_eq_true_2 (n ∈ n :: names)) by (by left). by destruct (bool_decide _).
    + rewrite lookup_delete_ne by done. rewrite (bool_decide_ext (name ∈ n :: names) (name ∈ names)); [done|]. rewrite elem_of_cons. naive_solver.
  - destruct (decide (name = n)) as [->|Hne]; [by rewrite En, !andb_false_r|].
    rewrite (bool_decide_ext (name ∈ n :: names) (name ∈ names)); [done|]. rewrite elem_of_cons. naive_solver.
Qed.
Lemma expired_day x cutoff : sample_ok x -> expired cutoff (day_name (hs_TS x)) = (day_start (hs_TS x) <? cutoff).
Proof. intros [Ht _]. unfold expired. by rewrite day_of_day_name. Qed.
Lemma filter_days t retention now l : filter (same_day t) (filter (unexpired retention now) l) = if decide (day_start (now - retention) <= day_start t) then filter (same_day t) l else [].
Proof.
  destruct (decide _) as [Hc|Hc].
  - apply list_filter_filter_l. unfold same_day, unexpired. intros x ->. done.
  - rewrite list_filter_filter. induction l as [|x l IH]; [done|]. rewrite filter_cons, decide_False; [done|]. unfold same_day, unexpired. intros [-> ?]. done.
Qed.
Lemma prune_holds retention now files l : Forall sample_ok l -> files_hold files l ->
  files_hold (remove_expired day_ok (day_start (now - retention)) (sort_strings (map_to_list files).*1) files) (filter (unexpired retention now) l).
Proof.
  intros Hl [Hd Hn]. assert (Hin : forall name, is_Some (files !! name) <-> name ∈ sort_strings (map_to_list files).*1).
  { intros name. rewrite sort_strings_perm, list_elem_of_fmap. split.
    - intros [data Hdata]. exists (name, data). split; [done|]. by apply elem_of_map_to_list.
    - intros ([n data] & -> & Hm%elem_of_map_to_list). by exists data. }
  split.
  - intros t. rewrite remove_lookup. unfold day_content. rewrite filter_days. destruct (files !! day_name t) as [data|] eqn:E.
    + destruct (Hn _ _ (day_name_jsonl t) E) as (x & Hx & Ex). rewrite Forall_forall in Hl. rewrite (bool_decide_eq_true_2 (day_name t ∈ _)) by (by apply Hin; eexists).
      rewrite Ex, expired_day by auto. apply day_name_inj in Ex. rewrite Ex. cbn [andb]. rewrite <-E, Hd.
      destruct (Z.ltb_spec (day_start (hs_TS x)) (day_start (now - retention))); [by rewrite decide_False by lia|]. by rewrite decide_True by lia.
    + assert (day_content t l = None) as Hc by (by rewrite <-Hd). unfold day_content in Hc. replace (if _ && _ then None else None) with (None : option str) by (by destruct (_ && _)).
      destruct (filter (same_day t) l); [|done]. by destruct (decide _).
  - intros name data Hj. rewrite remove_lookup. destruct (bool_decide _ && expired _ name) eqn:Ee; [done|]. intros E.
    destruct (Hn _ _ Hj E) as (x & Hx & ->). exists x. split; [|done]. rewrite list_elem_of_filter. split; [|done].
    rewrite (bool_decide_eq_true_2 (day_name (hs_TS x) ∈ _)) in Ee by (by apply Hin; eexists). rewrite Forall_forall in Hl. rewrite expired_day in Ee by auto.
    unfold unexpired. cbn [andb] in Ee. apply Z.ltb_ge in Ee. done.
Qed.

(** ** Reading *)

Lemma decode_trimmed line : line_ok line -> decode_line line = Decode line.
Proof. intros Hl. unfold decode_line. by rewrite (line_trim _ Hl), bool_decide_eq_false_2 by by apply line_ne. Qed.
Lemma read_all keep days files l out : Forall sample_ok l -> files_hold files l ->
  read_days day_ok keep days (Some files) out = (out ++ concat ((fun d => filter (fun x => keep x = true) (filter (same_day d) l)) <$> days), true).
Proof.
  intros Hl [Hd _]. revert out. induction days as [|d days IH]; intros out; cbn [read_days fmap list_fmap concat]; [by rewrite app_nil_r|].
  cbn [mbind option_bind]. rewrite Hd. pose proof (content_decodes hs_TS decode_line decode_trimmed d l Hl) as Hc. destruct (day_content d l) as [data|].
  - cbn [negb di_open day_ok]. rewrite IH, Hc, <-app_assoc. done.
  - rewrite IH, Hc. done.
Qed.
Lemma query_days_spec start end_ : NoDup (query_days start end_) /\ Forall (fun d => day_start d = d) (query_days start end_) /\
  forall t, start <= t -> day_start t <= end_ -> day_start t ∈ query_days start end_.
Proof.
  assert (HD : 0 < Day) by done. unfold query_days. split_and!.
  - apply NoDup_fmap_2; [|apply NoDup_seq]. intros i j. nia.
  - apply Forall_fmap, Forall_forall. intros i _. cbn. unfold day_start. rewrite <-Z.mul_add_distr_r, Z.div_mul by lia. done.
  - intros t Hs He. apply list_elem_of_fmap. pose proof (Z.div_le_mono _ _ Day HD Hs) as Hq. exists (Z.to_nat (t / Day - start / Day)). unfold day_start in *. split; [rewrite Z2Nat.id by lia; ring|].
    rewrite elem_of_seq. split; [lia|]. assert ((t / Day - start / Day) <= (end_ - start / Day * Day) / Day); [|lia].
    apply Z.div_le_lower_bound; lia.
Qed.

(** ** Runs *)

Definition recorded (dir : str) (days : Z) (es : list processHistorySample) : processHistoryStore * dayDir :=
  fold_left (fun st e => Append day_ok e st) es (newProcessHistoryStore dir days, None).
Lemma survivors_in retention es x : x ∈ survivors retention es -> x ∈ es.
Proof.
  induction es as [|e es IH] using rev_ind; [done|]. unfold survivors. rewrite fold_left_app. cbn [fold_left]. rewrite !elem_of_app, list_elem_of_filter.
  intros [[_ ?]|?]; [left; by apply IH|by right].
Qed.
Lemma survivors_recent retention es x : x ∈ es -> Forall (fun e => hs_TS e - retention <= hs_TS x) es -> x ∈ survivors retention es.
Proof.
  induction es as [|e es IH] using rev_ind; [by intros ?%elem_of_nil|]. rewrite Forall_app, Forall_singleton, elem_of_app. intros Hx [Hf He].
  unfold survivors. rewrite fold_left_app. cbn [fold_left]. rewrite elem_of_app, list_elem_of_filter. destruct Hx as [Hx|Hx]; [left|by right].
  split; [|by apply IH]. by apply day_start_mono.
Qed.
Lemma recorded_holds dir days es : dir <> [] -> Forall sample_ok es -> es <> [] ->
  (recorded dir days es).1 = newProcessHistoryStore dir days /\
  exists files, (recorded dir days es).2 = Some files /\ files_hold files (survivors (ph_retention (newProcessHistoryStore dir days)) es).
Proof.
  intros Hdir Hes Hne. set (s := newProcessHistoryStore dir days). set (r := ph_retention s).
  assert ((recorded dir days es).1 = s /\ match (recorded dir days es).2 with Some files => files_hold files (survivors r es) | None => es = [] end) as [Hs Hd].
  { clear Hne. induction es as [|e es IH] using rev_ind; [done|]. apply Forall_app in Hes as [Hes (Ht & line & He & Hd & Hl)%Forall_singleton].
    destruct (IH Hes) as [IH1 IH2]. unfold recorded in *. rewrite fold_left_app. cbn [fold_left]. destruct (fold_left _ es _) as [s' disk]. cbn [fst snd] in *. subst s'.
    unfold Append. rewrite bool_decide_eq_false_2 by done. rewrite He. split; [done|]. cbn [snd].
    assert (Hp : exists files, pruneLocked day_ok r (hs_TS e) disk = Some files /\ files_hold files (filter (unexpired r (hs_TS e)) (survivors r es))).
    { unfold pruneLocked. destruct disk as [files|]; cbn [di_readdir di_mkdir day_ok].
      - eexists. split; [done|]. apply prune_holds; [|done]. rewrite Forall_forall in *. intros x Hx%survivors_in. auto.
      - subst es. exists ∅. split; [done|]. split; [done|]. by intros name data _ []%lookup_empty_Some. }
    destruct Hp as (files & Hp & Hh). change (ph_retention s) with r. rewrite Hp. unfold append_file, written. cbn [di_open di_write day_ok negb snd].
    unfold survivors. rewrite fold_left_app. by apply day_append_holds. }
  split; [done|]. destruct (recorded dir days es).2 as [files|]; [by exists files|done].
Qed.
#[export] Instance sample_le_total : Total sample_le.
Proof. intros a b. unfold sample_le. lia. Qed.
#[export] Instance sample_le_trans : Transitive sample_le.
Proof. intros a b c. unfold sample_le. lia. Qed.
Lemma retention_bounds dir days : 0 < ph_retention (newProcessHistoryStore dir days) <= 30 * Day.
Proof.
  unfold newProcessHistoryStore. cbn [ph_retention]. assert (HD : 0 < Day) by done. set (r := if _ <=? 0 then _ else _).
  assert (0 < r) as Hr by (unfold r; destruct (Z.leb_spec (wrap64 (days * Day)) 0); lia). destruct (Z.ltb_spec (30 * Day) r); lia.
Qed.
Lemma recorded_ring days es : recorded [] days es = (mkHistory [] (ph_retention (newProcessHistoryStore [] days)) (tail_of processHistoryMaxSamples es), None).
Proof.
  induction es as [|e es IH] using rev_ind; [done|]. unfold recorded in *. rewrite fold_left_app, IH. cbn [fold_left Append ph_dir ph_ring ph_retention].
  rewrite bool_decide_eq_true_2 by done. by rewrite tail_of_more.
Qed.
Lemma read_found keep start end_ files l : Forall sample_ok l -> files_hold files l ->
  (forall x, x ∈ l -> keep x = true -> start <= hs_TS x /\ day_start (hs_TS x) <= end_) ->
  (read_days day_ok keep (query_days start end_) (Some files) []).2 = true /\
  (read_days day_ok keep (query_days start end_) (Some files) []).1 ≡ₚ filter (fun x => keep x = true) l.
Proof.
  intros Hl Hf Hr. rewrite (read_all _ _ files l) by done. split; [done|]. destruct (query_days_spec start end_) as (Hnd & Hs & Hin). cbn [fst app].
  assert (concat ((fun d => filter (fun x => keep x = true) (filter (same_day d) l)) <$> query_days start end_)
    = filter (fun x => keep x = true) (concat ((fun d => filter (same_day d) l) <$> query_days start end_))) as ->.
  { rewrite filter_concat, <-list_fmap_compose. done. }
  rewrite days_perm by done. apply reflexive_eq. rewrite list_filter_filter. clear Hf Hl. induction l as [|x l IH]; [done|].
  rewrite !filter_cons, IH by (intros y ?; apply Hr; by right). destruct (decide (keep x = true)) as [Hk|Hk]; [|by rewrite decide_False by naive_solver].
  destruct (Hr x) as [? ?]; [by left|done|]. rewrite decide_True; [done|]. split; [done|]. by apply Hin.
Qed.

(** C26. A query returns what was recorded. After any samples were appended without an
    input or output error, a query returns the newest of the samples of its name within its
    bounds that have not expired, as many as its limit allows, in the order of their
    times; a sample less than the retention older than all others has not expired, and the
    retention is at most 30 days. Without a directory, it searches the last 1000. *)
Theorem history_exact (dir : str) (days : Z) (es : list processHistorySample) (name : str) (from to : option Z) (limit now : Z) :
  dir <> [] -> Forall sample_ok es -> (to = None -> Forall (fun e => day_start (hs_TS e) <= now + Day) es) ->
  let retention := ph_retention (newProcessHistoryStore dir days) in
  (exists found, found ≡ₚ filter (fun x => in_range name from to x = true) (survivors retention es) /\ StronglySorted sample_le found /\
    Query day_ok now name from to limit (recorded dir days es) = tail_of (query_limit limit) found) /\
  (forall x, x ∈ es -> Forall (fun e => hs_TS e - retention <= hs_TS x) es -> x ∈ survivors retention es) /\ 0 < retention <= 30 * Day /\
  Query day_ok now name from to limit (recorded [] days es) = tail_of (query_limit limit) (filter (fun x => in_range name from to x = true) (tail_of 1000 es)).
Proof.
  intros Hdir Hes Hto retention. split_and!; [|by apply survivors_recent|apply retention_bounds..|by rewrite recorded_ring].
  destruct (decide (es = [])) as [->|Hne].
  { exists []. split_and!; [done|constructor|]. unfold recorded, Query. cbn [fold_left ph_dir newProcessHistoryStore]. rewrite bool_decide_eq_false_2 by done.
    assert (forall ds, read_days day_ok (in_range name from to) ds None [] = ([], true)) as -> by (by induction ds). done. }
  destruct (recorded_holds dir days es Hdir Hes Hne) as (Hs & files & Hd & Hh). destruct (recorded dir days es) as [s disk]. cbn [fst snd] in *. subst s disk.
  assert (forall x, x ∈ survivors retention es -> x ∈ es /\ sample_ok x) as Hin by (intros x Hx%survivors_in; rewrite Forall_forall in Hes; auto).
  destruct (read_found (in_range name from to) (default zero_time from) (default (now + Day) to) files (survivors retention es)) as [Hall Hfound]; [|done|..].
  { apply Forall_forall. intros x Hx. by apply Hin. }
  { intros x Hx Hk. destruct (Hin x Hx) as [Hx' [? _]]. unfold in_range in Hk. apply andb_true_iff in Hk as [[_ Hf]%andb_true_iff Ht]. split.
    - destruct from as [f|]; cbn; [by apply Z.leb_le|lia].
    - pose proof (day_start_le (hs_TS x)). destruct to as [t|]; cbn; [apply Z.leb_le in Ht; lia|]. specialize (Hto eq_refl). rewrite Forall_forall in Hto. by apply Hto. }
  unfold Query. cbn [ph_dir newProcessHistoryStore]. rewrite bool_decide_eq_false_2 by done.
  destruct (read_days _ _ _ _ _) as [out all]. cbn [fst snd] in *. subst all. exists (merge_sort sample_le out). split_and!; [by rewrite merge_sort_Permutation| |done].
  apply StronglySorted_merge_sort; apply _.
Qed.
End facts.

(** ** Two samples of one process *)

Section demo.
Fixpoint pos_text (p : positive) : str := match p with xH => [] | xO p => ch "0" :: pos_text p | xI p => ch "1" :: pos_text p end.
Fixpoint pos_read (s : str) : positive := match s with [] => xH | c :: s => if bool_decide (c = ch "0") then xO (pos_read s) else xI (pos_read s) end.
Lemma pos_read_text p : pos_read (pos_text p) = p.
Proof. induction p as [p IH|p IH|]; [..|done]; cbn [pos_text pos_read]; by rewrite IH. Qed.
Definition int_text (z : Z) : str := match z with Z0 => $"z" | Zpos p => ch "+" :: pos_text p | Zneg p => ch "-" :: pos_text p end.
Definition int_read (s : str) : option Z :=
  match s with c :: s => if bool_decide (c = ch "+") then Some (Zpos (pos_read s)) else if bool_decide (c = ch "-") then Some (Zneg (pos_read s)) else Some 0 | [] => None end.
Lemma int_read_text z : int_read (int_text z) = Some z.
Proof. destruct z as [|p|p]; [done|..]; cbn; by rewrite pos_read_text. Qed.
#[local] Instance demo_days : DayText := { format_day := int_text; parse_day := int_read }.
#[local] Instance demo_day_laws : DayLaws.
Proof.
  split; intros t; [|intros _; apply int_read_text]. intros u E. apply (f_equal int_read) in E. cbn [format_day demo_days] in E. rewrite !int_read_text in E. by injection E.
Qed.
Definition sample_at (t : Z) : processHistorySample := mkHistorySample ($"nginx") t float_zero 10 1 None.
#[local] Instance demo_codec : JSONCodec processHistorySample :=
  { Encode x := Some ($"{" ++ int_text (hs_TS x) ++ $"}"); Decode line := sample_at <$> int_read (take (List.length line - 2) (drop 1 line)) }.
Definition noon : Z := 1767268800 * 1000000000.
Definition two_samples : list processHistorySample := [sample_at (noon - Day); sample_at noon].
Lemma two_ok : Forall (sample_ok hs_TS) two_samples.
Proof.
  repeat constructor; try (cbn; unfold zero_time, year_10000, noon, Day, Hour, Minute, Second; lia); (eexists; split; [reflexivity|]; split; [by vm_compute|]).
  all: split; [by apply (bool_decide_unpack _); vm_compute|by vm_compute..].
Qed.
Lemma history_exact_witness : $"/d" <> [] /\ Forall (sample_ok hs_TS) two_samples /\ Forall (fun e => day_start (hs_TS e) <= noon + Day) two_samples /\
  exists found, found ≡ₚ filter (fun x => in_range ($"nginx") (Some noon) None x = true) (survivors (7 * Day) two_samples) /\ StronglySorted sample_le found /\
    Query day_ok noon ($"nginx") (Some noon) None 1 (recorded ($"/d") 7 two_samples) = tail_of 1 found.
Proof.
  assert (Forall (fun e => day_start (hs_TS e) <= noon + Day) two_samples) as Hto by (repeat constructor; by vm_compute).
  split; [done|]. split; [exact two_ok|]. split; [exact Hto|]. exact (proj1 (history_exact ($"/d") 7 two_samples ($"nginx") (Some noon) None 1 noon ltac:(done) two_ok (fun _ => Hto))).
Defined.
End demo.
