(* ===== verification/Health.v ===== *)
(** * Health: one score for a host

    [internal/daemon/health.go]: the score of a sample as the weighted mean of seven
    dimensions, in binary64 arithmetic, with the checks and issues it is made of. Rendered
    values are their format and arguments. *)

From S2P Require Import Prelude GoStr Config Alarms ConfigApi Processes.
From Stdlib Require Import SpecFloat QArith.
Open Scope Z_scope.

(** ** binary64 *)

(** The float of a value that is one. *)
Definition float_of (x : float64) : spec_float :=
  match x with FNum q => float_div (float64_of_Z (Qnum q)) (float64_of_Z (Zpos (Qden q))) | FInf neg => S754_infinity neg | FNaN => S754_nan end.
Definition float_sub : spec_float -> spec_float -> spec_float := SFsub 53 1024.
(** [math.Round]: half away from zero. *)
Definition float_round (x : spec_float) : spec_float :=
  match x with
  | S754_finite neg m e =>
      if 0 <=? e then x
      else let n := (2 * Zpos m + 2 ^ (- e)) / 2 ^ (1 - e) in if n =? 0 then S754_zero neg else float64_of_Z (if neg then - n else n)
  | _ => x
  end.
Definition int_of (x : spec_float) : Z := int64_of (value_of x).
Definition hundred : spec_float := float64_of_Z 100.

(** ** Data *)

Inductive check_status := checkStatusOK | checkStatusWarning | checkStatusCritical.
#[export] Instance check_status_eq_dec : EqDecision check_status.
Proof. solve_decision. Defined.
Definition HealthHealthy : str := $"healthy".
Definition HealthDegraded : str := $"degraded".
Definition HealthCritical : str := $"critical".
Inductive health_unit := Upercent | Uper_core | Ubytes | Uratio.
(** A dimension: where it is critical, how much it weighs, and its value and detail where it applies. *)
Record healthSpec := mkHealthSpec {
  sp_name : str; sp_label : str; sp_unit : health_unit; sp_warn : spec_float; sp_crit : spec_float; sp_weight : spec_float;
  sp_measure : MetricsPayload -> option (spec_float * str);
}.
Record HealthCheck := mkHealthCheck {
  hc_Name : str; hc_Status : check_status; hc_Score : spec_float; hc_Value : spec_float; hc_Unit : health_unit; hc_Detail : str; hc_Warn : spec_float; hc_Crit : spec_float;
  hc_Message : option text; hc_Skipped : bool;
}.
Record HealthReport := mkHealthReport { hp_Score : Z; hp_Status : str; hp_EvaluatedAt : Z; hp_HostID : str; hp_Checks : list HealthCheck; hp_Issues : list text }.

(** ** The dimensions *)

Definition percent_of (part whole : Z) : spec_float := float_mul (float_div (float64_of_Z part) (float64_of_Z whole)) hundred.
(** The worst so far, and the mount it is of. *)
Definition worse (found : option (spec_float * str)) (usage : DiskUsage) : option (spec_float * str) :=
  if du_TotalKb usage <=? 0 then found
  else
    let used := percent_of (wrap64 (du_TotalKb usage - du_AvailableKb usage)) (du_TotalKb usage) in
    match found with Some (worst, _) => if SFltb worst used then Some (used, du_Mount usage) else found | None => Some (used, du_Mount usage) end.
Definition worstDiskUsage (sample : MetricsPayload) : option (spec_float * str) :=
  match fold_left worse (Disks sample) None with
  | Some found => Some found
  | None => if DiskTotalKb sample <=? 0 then None else Some (percent_of (wrap64 (DiskTotalKb sample - DiskAvailableKb sample)) (DiskTotalKb sample), [])
  end.
Definition hundredths (n : Z) : spec_float := float_div (float64_of_Z n) hundred.
Definition healthSpecs : list healthSpec := [
  mkHealthSpec ($"cpu") ($"CPU") Upercent (float64_of_Z 75) (float64_of_Z 95) (hundredths 22) (fun s => Some (float_of (CPUPercent s), []));
  mkHealthSpec ($"memory") ($"Memory") Upercent (float64_of_Z 80) (float64_of_Z 95) (hundredths 24) (fun s => Some (float_of (MemoryUsedPercent s), []));
  mkHealthSpec ($"swap") ($"Swap") Upercent (float64_of_Z 50) (float64_of_Z 90) (hundredths 10)
    (fun s => if SwapTotalKb s <=? 0 then None else Some (percent_of (wrap64 (SwapTotalKb s - SwapFreeKb s)) (SwapTotalKb s), []));
  mkHealthSpec ($"disk") ($"Disk usage") Upercent (float64_of_Z 80) (float64_of_Z 95) (hundredths 20) worstDiskUsage;
  mkHealthSpec ($"load") ($"Load") Uper_core (float64_of_Z 1) (float64_of_Z 3) (hundredths 14)
    (fun s => if CPUCount s <=? 0 then None else Some (float_div (float_of (Load1 s)) (float64_of_Z (CPUCount s)), []));
  mkHealthSpec ($"process_memory") ($"Process memory") Ubytes (float64_of_Z (Z.shiftl 512 20)) (float64_of_Z (Z.shiftl 2 30)) (hundredths 5)
    (fun s => Some (float64_of_Z (ProcessMemoryBytes s), []));
  mkHealthSpec ($"webhooks") ($"Webhook failures") Uratio (hundredths 10) (hundredths 50) (hundredths 5)
    (fun s => if WebhookExecutions s =? 0 then None else Some (float_div (float64_of_Z (WebhookFailures s)) (float64_of_Z (WebhookExecutions s)), []))].

(** ** Scores *)

Definition scoreHealthValue (value warn crit : spec_float) : spec_float * check_status :=
  if SFleb value warn then (hundred, checkStatusOK)
  else if SFleb crit value then (float_zero, checkStatusCritical)
  else (float_div (float_mul hundred (float_sub crit value)) (float_sub crit warn), checkStatusWarning).
Definition healthStatusForScore (score : Z) : str := if 90 <=? score then HealthHealthy else if 70 <=? score then HealthDegraded else HealthCritical.
Definition roundHealthValue (value : spec_float) : spec_float := float_div (float_round (float_mul value (float64_of_Z 10))) (float64_of_Z 10).
(** The divisions by 1024 that are left, at most six for a 64-bit count. *)
Fixpoint byte_unit (fuel : nat) (n div : Z) (exp : nat) : Z * nat :=
  match fuel with
  | O => (div, exp)
  | S fuel => if n <? 1024 then (div, exp) else byte_unit fuel (n / 1024) (div * 1024) (S exp)
  end.
Definition humanBytes (value : Z) : text :=
  if value <? 1024 then mkText "%d B" [TStr (fmt_d value)]
  else
    let '(div, exp) := byte_unit 6 (value / 1024) 1024 0 in
    mkText "%.1f %ciB" [TFloat (value_of (float_div (float64_of_Z value) (float64_of_Z div))); TStr (take 1 (drop exp ($"KMGTPE")))].
(** [uint64(x)]; below 2^63; out of range and for a NaN it is what amd64 answers. *)
Definition uint64_of (x : spec_float) : Z := let n := int_of x in if n <? 0 then n + 2 ^ 64 else n.
Definition formatHealthValue (unit : health_unit) (value : spec_float) : text :=
  match unit with
  | Upercent => mkText "%.1f%%" [TFloat (value_of value)]
  | Uper_core => mkText "%.2f per core" [TFloat (value_of value)]
  | Uratio => mkText "%.1f%%" [TFloat (value_of (float_mul value hundred))]
  | Ubytes => humanBytes (uint64_of value)
  end.
Definition healthCheckMessage (spec : healthSpec) (check : HealthCheck) : text :=
  let value := formatHealthValue (sp_unit spec) (hc_Value check) in
  let warn := formatHealthValue (sp_unit spec) (sp_warn spec) in
  let crit := formatHealthValue (sp_unit spec) (sp_crit spec) in
  mkText ("%s at " ++ tx_format value ++ " (warn " ++ tx_format warn ++ ", crit " ++ tx_format crit ++ ")")%string
    (TStr (sp_label spec ++ (if bool_decide (hc_Detail check = []) then [] else ch " " :: hc_Detail check)) :: tx_args value ++ tx_args warn ++ tx_args crit).
Definition with_message (c : HealthCheck) (m : option text) : HealthCheck :=
  mkHealthCheck (hc_Name c) (hc_Status c) (hc_Score c) (hc_Value c) (hc_Unit c) (hc_Detail c) (hc_Warn c) (hc_Crit c) m (hc_Skipped c).
Definition evaluateHealthCheck (spec : healthSpec) (sample : MetricsPayload) : HealthCheck :=
  match sp_measure spec sample with
  | None => mkHealthCheck (sp_name spec) checkStatusOK hundred (roundHealthValue float_zero) (sp_unit spec) [] (sp_warn spec) (sp_crit spec) None true
  | Some (value, detail) =>
      let '(score, status) := scoreHealthValue value (sp_warn spec) (sp_crit spec) in
      let check := mkHealthCheck (sp_name spec) status score (roundHealthValue value) (sp_unit spec) detail (sp_warn spec) (sp_crit spec) None false in
      if bool_decide (status = checkStatusOK) then check else with_message check (Some (healthCheckMessage spec check))
  end.
(** The sums of the scored checks so far. *)
Definition add_check (acc : spec_float * spec_float) (c : HealthCheck * spec_float) : spec_float * spec_float :=
  if hc_Skipped c.1 then acc else (float_add acc.1 (float_mul (hc_Score c.1) c.2), float_add acc.2 c.2).
Definition evaluateHealth (sample : MetricsPayload) (now : Z) : HealthReport :=
  let checks := (fun spec => evaluateHealthCheck spec sample) <$> healthSpecs in
  let '(weighted, weights) := fold_left add_check (zip checks (sp_weight <$> healthSpecs)) (float_zero, float_zero) in
  let score := if SFltb float_zero weights then int_of (float_round (float_div weighted weights)) else 100 in
  mkHealthReport score (healthStatusForScore score) now (m_HostID sample) checks
    (omap (fun c => if hc_Skipped c || bool_decide (hc_Status c = checkStatusOK) then None else hc_Message c) checks).

(** ** Clear verdicts *)

Definition weights_hundredths : list Z := [22; 24; 10; 20; 14; 5; 5].
(** What is weighed: nothing, a dimension that is fine, or one that is critical. *)
Definition verdict (c : HealthCheck) : option bool := if hc_Skipped c then None else Some (bool_decide (hc_Status c = checkStatusOK)).
Definition verdict_score (v : option bool) : spec_float := match v with Some false => float_zero | _ => hundred end.
Definition weigh (acc : spec_float * spec_float) (c : option bool * spec_float) : spec_float * spec_float :=
  match c.1 with None => acc | Some _ => (float_add acc.1 (float_mul (verdict_score c.1) c.2), float_add acc.2 c.2) end.
Definition weighed (vs : list (option bool)) : Z :=
  let '(weighted, weights) := fold_left weigh (zip vs (sp_weight <$> healthSpecs)) (float_zero, float_zero) in
  if SFltb float_zero weights then int_of (float_round (float_div weighted weights)) else 100.
(** The share of the weights that is fine, as a percentage rounded to the nearest integer. *)
Definition weight_where (P : option bool -> bool) (vs : list (option bool)) : Z :=
  fold_left Z.add ((fun vw => if P vw.1 then vw.2 else 0) <$> zip vs weights_hundredths) 0.
Definition share (vs : list (option bool)) : Z :=
  let fine := weight_where (fun v => bool_decide (v = Some true)) vs in
  let all := weight_where is_Some_b vs in (200 * fine + all) / (2 * all).
Lemma weighed_exact cpu memory swap disk load process_memory webhooks :
  weighed [Some cpu; Some memory; swap; disk; load; Some process_memory; webhooks] = share [Some cpu; Some memory; swap; disk; load; Some process_memory; webhooks].
Proof. destruct cpu, memory, swap as [[]|], disk as [[]|], load as [[]|], process_memory, webhooks as [[]|]; vm_compute; reflexivity. Qed.
Lemma share_bounds cpu memory swap disk load process_memory webhooks :
  0 <= share [Some cpu; Some memory; swap; disk; load; Some process_memory; webhooks] <= 100.
Proof. destruct cpu, memory, swap as [[]|], disk as [[]|], load as [[]|], process_memory, webhooks as [[]|]; vm_compute; split; discriminate. Qed.

Section report.
Variables (sample : MetricsPayload) (now : Z).
Lemma check_score spec : let c := evaluateHealthCheck spec sample in
  (hc_Status c = checkStatusWarning \/ hc_Skipped c = false /\ hc_Score c = verdict_score (verdict c) \/ hc_Skipped c = true) /\
  (hc_Skipped c = (match sp_measure spec sample with Some _ => false | None => true end)) /\
  (hc_Skipped c = false -> is_Some_b (hc_Message c) = negb (bool_decide (hc_Status c = checkStatusOK))).
Proof.
  unfold evaluateHealthCheck. destruct (sp_measure spec sample) as [[value detail]|]; [|split_and!; [by right; right|done|done]].
  unfold scoreHealthValue. destruct (SFleb value _); [split_and!; [right; left|..]; done|]. destruct (SFleb _ value); [split_and!; [right; left|..]; done|]. split_and!; [by left|done|done].
Qed.
Lemma fold_verdicts (cs : list HealthCheck) : Forall (fun c => hc_Skipped c = false -> hc_Score c = verdict_score (verdict c)) cs -> forall ws acc,
  fold_left add_check (zip cs ws) acc = fold_left weigh (zip (verdict <$> cs) ws) acc.
Proof.
  induction 1 as [|c cs Hc Hcs IH]; intros [|w ws] acc; [done..|]. cbn [fmap list_fmap]. change (zip (?x :: ?l) (?y :: ?k)) with ((x, y) :: zip l k). cbn [fold_left]. rewrite IH. f_equal.
  unfold add_check, weigh. cbn [fst snd]. destruct (hc_Skipped c) eqn:E; [unfold verdict; by rewrite E|]. rewrite Hc by done. unfold verdict. by rewrite E.
Qed.
Lemma count_issues (cs : list HealthCheck) : Forall (fun c => hc_Skipped c = false -> is_Some_b (hc_Message c) = negb (bool_decide (hc_Status c = checkStatusOK))) cs ->
  List.length (omap (fun c => if hc_Skipped c || bool_decide (hc_Status c = checkStatusOK) then None else hc_Message c) cs)
  = List.length (filter (fun v => v = Some false) (verdict <$> cs)).
Proof.
  induction 1 as [|c cs Hc Hcs IH]; [done|]. cbn [omap list_omap fmap list_fmap]. rewrite filter_cons.
  destruct (decide (verdict c = Some false)) as [Hv|Hv]; unfold verdict in Hv; destruct (hc_Skipped c); cbn [orb]; try done;
    specialize (Hc eq_refl); destruct (bool_decide (hc_Status c = checkStatusOK)); try done.
  cbn [negb] in Hc. destruct (hc_Message c); [|done]. cbn [List.length]. by rewrite IH.
Qed.

(** C33. The health score is the share of what is fine. For any sample none of whose
    dimensions is between its two thresholds, the score, computed in binary64, is exactly
    the weight of the applicable dimensions that are fine as a percentage of the weight of
    all that apply, rounded to the nearest integer; it is between 0 and 100, and there is
    one issue for each dimension that is critical. *)
Theorem health_exact :
  let r := evaluateHealth sample now in
  (forall c, c ∈ hp_Checks r -> hc_Status c <> checkStatusWarning) ->
  hp_Score r = share (verdict <$> hp_Checks r) /\ 0 <= hp_Score r <= 100 /\ hp_Status r = healthStatusForScore (hp_Score r) /\
  List.length (hp_Issues r) = List.length (filter (fun v => v = Some false) (verdict <$> hp_Checks r)).
Proof.
  intros r. assert (hp_Checks r = (fun spec => evaluateHealthCheck spec sample) <$> healthSpecs) as Hck by (unfold r, evaluateHealth; by destruct (fold_left _ _ _)).
  rewrite Hck. intros Hw. pose proof (fun spec => check_score spec) as Hall. cbn zeta in Hall.
  assert (hp_Score r = weighed (verdict <$> ((fun spec => evaluateHealthCheck spec sample) <$> healthSpecs))) as Hs.
  { unfold r, evaluateHealth, weighed. set (cs := (fun spec => evaluateHealthCheck spec sample) <$> healthSpecs) in *.
    rewrite fold_verdicts; [by destruct (fold_left weigh _ _)|]. apply Forall_forall. intros c Hc Hk.
    specialize (Hw c Hc). apply list_elem_of_fmap in Hc as (spec & -> & _). destruct (Hall spec) as [[?|[[_ ?]|?]] _]; congruence. }
  assert (exists cpu memory swap disk load process_memory webhooks,
    verdict <$> ((fun spec => evaluateHealthCheck spec sample) <$> healthSpecs) = [Some cpu; Some memory; swap; disk; load; Some process_memory; webhooks]) as (cpu & memory & swap & disk & load & process_memory & webhooks & E).
  { unfold healthSpecs. cbn [fmap list_fmap].
    assert (forall spec, verdict (evaluateHealthCheck spec sample) = match sp_measure spec sample with Some _ => Some (bool_decide (hc_Status (evaluateHealthCheck spec sample) = checkStatusOK)) | None => None end) as Hv.
    { intros spec. destruct (Hall spec) as (_ & Hk & _). unfold verdict. rewrite Hk. by destruct (sp_measure spec sample). }
    do 7 eexists. rewrite (Hv (mkHealthSpec _ ($"CPU") _ _ _ _ _)), (Hv (mkHealthSpec _ ($"Memory") _ _ _ _ _)), (Hv (mkHealthSpec _ ($"Process memory") _ _ _ _ _)).
    cbn [sp_measure]. reflexivity. }
  rewrite Hs, E. split_and!; [apply weighed_exact|rewrite weighed_exact; apply share_bounds..| |].
  - rewrite <-E, <-Hs. unfold r, evaluateHealth. by destruct (fold_left _ _ _).
  - rewrite <-E. unfold r, evaluateHealth. destruct (fold_left add_check _ _). cbn [hp_Issues hp_Checks]. apply count_issues. apply Forall_forall.
    intros c Hc. apply list_elem_of_fmap in Hc as (spec & -> & _). apply Hall.
Qed.
End report.
Lemma busy_checks_ok : forallb (fun c => negb (bool_decide (hc_Status c = checkStatusWarning))) (hp_Checks (evaluateHealth busy 0)) = true.
Proof. vm_compute. reflexivity. Qed.
Lemma health_exact_witness : (forall c, c ∈ hp_Checks (evaluateHealth busy 0) -> hc_Status c <> checkStatusWarning) /\
  hp_Score (evaluateHealth busy 0) = 74 /\ share (verdict <$> hp_Checks (evaluateHealth busy 0)) = 74.
Proof.
  assert (forall c, c ∈ hp_Checks (evaluateHealth busy 0) -> hc_Status c <> checkStatusWarning) as Hw.
  { intros c Hc E. pose proof busy_checks_ok as Hb. rewrite forallb_forall in Hb. specialize (Hb c (proj1 (list_elem_of_In _ _) Hc)). by rewrite E in Hb. }
  split; [exact Hw|]. pose proof (proj1 (health_exact busy 0 Hw)) as Hs. rewrite Hs. split; vm_compute; reflexivity.
Defined.
