(* ===== verification/MetricsHistory.v ===== *)
(** * MetricsHistory: samples of the host, in memory and on disk

    [internal/daemon/metrics.go]: a sample of what the host reports, the history that is
    kept within a retention, the files it is loaded from and compacted into, and its query.
    What the host reports, JSON and the text of a day are interfaces. *)

From S2P Require Import Prelude GoStr Config Alarms AuditLog AtomicSave Logs DayFiles Health.
From Stdlib Require Import SpecFloat.
Open Scope Z_scope.

(** ** A sample *)

Record partition := mkPartition { pt_Device : str; pt_Mountpoint : str; pt_Fstype : str }.
(** Each part of the host, when it can be read; sizes are bytes. *)
Record host_reads := mkHostReads {
  hr_now : Z; hr_alloc : Z; hr_cpus : Z; hr_cpu : option (list spec_float); hr_load : option (spec_float * spec_float * spec_float);
  hr_memory : option (Z * Z); hr_swap : option (Z * Z); hr_usage : str -> option (Z * Z); hr_partitions : option (list partition);
  hr_counters : option (list (str * Z * Z)); hr_uptime : option Z; hr_successes : Z; hr_failures : Z;
}.
Definition virtualFilesystems : list str := [
  $"tmpfs"; $"devtmpfs"; $"devfs"; $"udev"; $"proc"; $"sysfs"; $"cgroup"; $"cgroup2"; $"overlay"; $"squashfs"; $"ramfs"; $"hugetlbfs";
  $"mqueue"; $"shm"; $"devpts"; $"debugfs"; $"tracefs"; $"securityfs"; $"configfs"; $"fusectl"; $"pstore"; $"efivarfs"; $"autofs"; $"binfmt_misc";
  $"rpc_pipefs"; $"nsfs"; $"bpf"; $"iso9660"; $"udf"; $"none"; $"map"].
Definition reportablePartition (part : partition) : bool :=
  negb (bool_decide (pt_Fstype part ∈ virtualFilesystems)) &&
  (HasPrefix (pt_Device part) ($"/dev/") || HasPrefix (pt_Device part) ($"//") || Contains (pt_Device part) ($":")).
(** [int64(n / 1024)] of a [uint64]. *)
Definition kilobytes (n : Z) : Z := n / 1024.
Definition wrap_u64 (n : Z) : Z := n mod 2 ^ 64.
Fixpoint collect_disks (usage : str -> option (Z * Z)) (parts : list partition) (seen : list str) : list DiskUsage :=
  match parts with
  | [] => []
  | part :: parts =>
      if bool_decide (pt_Device part ∈ seen) || negb (reportablePartition part) then collect_disks usage parts seen
      else
        let rest := collect_disks usage parts (pt_Device part :: seen) in
        match usage (pt_Mountpoint part) with
        | Some (total, free) => mkDiskUsage (pt_Mountpoint part) (pt_Device part) (kilobytes total) (kilobytes free) :: rest
        | None => rest
        end
  end.
Definition collectDisks (r : host_reads) : list DiskUsage := match hr_partitions r with Some parts => collect_disks (hr_usage r) parts [] | None => [] end.
(** The total and what is available. *)
Definition usedMemory (stats : Z * Z) : Z * spec_float :=
  let '(total, available) := stats in
  if total =? 0 then (0, float64_of_Z 0)
  else
    let used := wrap_u64 (total - available) in
    if total <? used then (total, hundred) else (used, percent_of used total).
Definition add_counters (counters : list (str * Z * Z)) : Z * Z :=
  fold_left (fun acc c => let '(name, rx, tx) := c in if bool_decide (name = $"lo") || bool_decide (name = $"lo0") then acc else (wrap_u64 (acc.1 + rx), wrap_u64 (acc.2 + tx))) counters (0, 0).
Definition unscored (hostID : str) (r : host_reads) : MetricsPayload :=
  let '(load1, load5, load15) := default (float64_of_Z 0, float64_of_Z 0, float64_of_Z 0) (hr_load r) in
  let '(used, percent) := match hr_memory r with Some stats => usedMemory stats | None => (0, float64_of_Z 0) end in
  let '(swap_total, swap_free) := default (0, 0) (hr_swap r) in
  let '(disk_total, disk_free) := default (0, 0) (hr_usage r ($"/")) in
  let '(rx, tx) := match hr_counters r with Some counters => add_counters counters | None => (0, 0) end in
  mkMetricsPayload (hr_now r) hostID (default 0 (hr_uptime r)) (hr_alloc r)
    (value_of (match hr_cpu r with Some (value :: _) => value | _ => float64_of_Z 0 end)) (hr_cpus r) (value_of load1) (value_of load5) (value_of load15)
    (value_of percent) used (match hr_memory r with Some (total, _) => total | None => 0 end) (kilobytes swap_total) (kilobytes swap_free)
    (kilobytes disk_total) (kilobytes disk_free) (collectDisks r) rx tx (wrap_u64 (hr_successes r + hr_failures r)) (hr_failures r) 0 [].
Definition scored (s : MetricsPayload) : MetricsPayload :=
  let report := evaluateHealth s (SentAt s) in
  mkMetricsPayload (SentAt s) (m_HostID s) (UptimeSeconds s) (ProcessMemoryBytes s) (CPUPercent s) (CPUCount s) (Load1 s) (Load5 s) (Load15 s) (MemoryUsedPercent s)
    (MemoryUsedBytes s) (MemoryTotalBytes s) (SwapTotalKb s) (SwapFreeKb s) (DiskTotalKb s) (DiskAvailableKb s) (Disks s) (NetRxBytes s) (NetTxBytes s)
    (WebhookExecutions s) (WebhookFailures s) (hp_Score report) (hp_Status report).

(** ** The collector *)

Record MetricsHistoryQuery := mkMetricsQuery { mq_From : option Z; mq_To : option Z; mq_Before : option Z; mq_Limit : Z }.
Record MetricsCollector := mkCollector { mc_hostID : str; mc_history : list MetricsPayload; mc_storageDir : str; mc_retention : Z }.
Definition Collect (m : MetricsCollector) (r : host_reads) : MetricsPayload := scored (unscored (mc_hostID m) r).
Definition History (m : MetricsCollector) (query : MetricsHistoryQuery) : list MetricsPayload :=
  let limit := if mq_Limit query <=? 0 then 100 else mq_Limit query in
  let matching := filter (fun sample =>
    (match mq_From query with Some from => from <=? SentAt sample | None => true end) && (match mq_To query with Some to => SentAt sample <? to | None => true end) &&
    (match mq_Before query with Some before => SentAt sample <? before | None => true end) = true) (mc_history m) in
  tail_of (Z.to_nat limit) matching.
Fixpoint drop_before (cutoff : Z) (l : list MetricsPayload) : list MetricsPayload :=
  match l with s :: l' => if SentAt s <? cutoff then drop_before cutoff l' else l | [] => [] end.
(** The history that is left, and whether anything went. *)
Definition pruneLocked (retention now : Z) (history : list MetricsPayload) : list MetricsPayload * bool :=
  let kept := drop_before (now - retention) history in (kept, negb (List.length kept =? List.length history)%nat).
Definition sent_le (a b : MetricsPayload) : Prop := SentAt a <= SentAt b.
#[export] Instance sent_le_dec a b : Decision (sent_le a b).
Proof. unfold sent_le. apply _. Defined.

Section disk.
Context `{DayText, JSONCodec MetricsPayload}.
(** The order in which a range takes the days. *)
Variable range_days : list Z -> list Z.
Definition appendLocked (f : day_io) (storageDir : str) (sample : MetricsPayload) (disk : dayDir) : bool * dayDir :=
  if bool_decide (storageDir = []) then (true, disk)
  else match Encode sample with None => (false, disk) | Some line => append_file f (day_name (SentAt sample)) (line ++ [newline]) disk end.
(** Every file of lines goes, in the order of the names. *)
Fixpoint remove_files (f : day_io) (names : list str) (files : gmap str str) : bool * gmap str str :=
  match names with
  | [] => (true, files)
  | name :: names =>
      if negb (HasSuffix name jsonl) then remove_files f names files
      else if di_remove f name then remove_files f names (delete name files) else (false, files)
  end.
Fixpoint write_days (f : day_io) (days : list Z) (history : list MetricsPayload) (files : gmap str str) : bool * gmap str str :=
  match days with
  | [] => (true, files)
  | day :: days =>
      match mapM Encode (filter (fun s => day_start (SentAt s) = day) history) with
      | None => (false, files)
      | Some lines =>
          let files := <[day_name day := written f (day_name day) (file_of_lines lines)]> files in
          if is_Some_b (di_write f (day_name day)) then (false, files) else write_days f days history files
      end
  end.
Definition history_days (history : list MetricsPayload) : list Z := remove_dups ((fun s => day_start (SentAt s)) <$> history).
Definition compactStorageLocked (f : day_io) (storageDir : str) (history : list MetricsPayload) (disk : dayDir) : bool * dayDir :=
  if bool_decide (storageDir = []) then (true, disk)
  else
    match disk with
    | None => (false, disk)
    | Some files =>
        if negb (di_readdir f) then (false, disk)
        else
          let '(ok, files) := remove_files f (sort_strings (map_to_list files).*1) files in
          if negb ok then (false, Some files)
          else let '(ok, files) := write_days f (range_days (history_days history)) history files in (ok, Some files)
    end.
Definition Record_ (f : day_io) (payload : MetricsPayload) (st : MetricsCollector * dayDir) : MetricsCollector * dayDir :=
  let '(m, disk) := st in
  let '(history, pruned) := pruneLocked (mc_retention m) (SentAt payload) (mc_history m ++ [payload]) in
  let '(ok, disk) := appendLocked f (mc_storageDir m) payload disk in
  let disk := if ok && pruned then (compactStorageLocked f (mc_storageDir m) history disk).2 else disk in
  (mkCollector (mc_hostID m) history (mc_storageDir m) (mc_retention m), disk).

(** ** Loading *)

(** A line that fills the scanner's buffer is an error of the scan. *)
Definition scan_too_long (content : str) : bool := existsb (fun line => MaxScanTokenSize <=? Z.of_nat (List.length line)) (split_on newline content).
Fixpoint load_files (f : day_io) (cutoff : Z) (names : list str) (files : gmap str str) (history : list MetricsPayload) : option (list MetricsPayload) :=
  match names with
  | [] => Some history
  | name :: names =>
      if negb (HasSuffix name jsonl) then load_files f cutoff names files history
      else if negb (di_open f name) then None
      else
        let content := default [] (files !! name) in
        if scan_too_long content then None
        else load_files f cutoff names files (history ++ filter (fun s => cutoff <= SentAt s) (omap Decode (Scan content)))
  end.
(** A failed call ends it; what happened to the files until then stays. *)
Definition loadHistory (f : day_io) (now : Z) (m : MetricsCollector) (disk : dayDir) : option MetricsCollector * dayDir :=
  if negb (di_mkdir f) then (None, disk)
  else
    let files := default ∅ disk in
    if negb (di_readdir f) then (None, Some files)
    else
      match load_files f (now - mc_retention m) (sort_strings (map_to_list files).*1) files (mc_history m) with
      | None => (None, Some files)
      | Some history =>
          let history := merge_sort sent_le history in
          let '(ok, disk) := compactStorageLocked f (mc_storageDir m) history (Some files) in
          (if ok then Some (mkCollector (mc_hostID m) history (mc_storageDir m) (mc_retention m)) else None, disk)
      end.
Definition retention_days (days : Z) : Z := let days := if days <=? 0 then 7 else days in if 30 <? days then 30 else days.
Definition trim_jsonl (dir : str) : str := if HasSuffix dir jsonl then take (List.length dir - List.length jsonl) dir else dir.
Definition NewMetricsCollector (f : day_io) (now : Z) (hostID historyPath : str) (days : Z) (disk : dayDir) : option MetricsCollector * dayDir :=
  let m := mkCollector (TrimSpace hostID) [] (trim_jsonl (TrimSpace historyPath)) (retention_days days * Day) in
  if bool_decide (mc_storageDir m = []) then (Some m, disk) else loadHistory f now m disk.
End disk.
