(* ===== verification/MetricsHistoryFacts.v ===== *)
(** * MetricsHistoryFacts: the history survives a restart

    The files of the directory hold exactly the history that is in memory, after loading,
    after every sample, and after every compaction; so a collector that starts over them
    has the same history, less what has expired since. *)

From S2P Require Import Prelude GoStr Config Alarms AuditLog AtomicSave Logs LogsFacts DayFiles ProcessHistoryFacts Health MetricsHistory.
Open Scope Z_scope.

Section facts.
Context `{DayLaws, JSONCodec MetricsPayload}.
Variable range_days : list Z -> list Z.
Hypothesis range_perm : forall l, range_days l ≡ₚ l.
Implicit Types (l ps : list MetricsPayload).
Abbreviation sample_ok := (sample_ok SentAt).
Abbreviation files_hold := (files_hold SentAt).
Abbreviation collector := (MetricsCollector * dayDir)%type.

(** ** Compaction *)

Lemma remove_all names files : exists files', remove_files day_ok names files = (true, files') /\
  forall name, files' !! name = if bool_decide (name ∈ names) && HasSuffix name jsonl then None else files !! name.
Proof.
  revert files. induction names as [|n names IH]; intros files; cbn [remove_files]; [by eexists|].
  destruct (HasSuffix n jsonl) eqn:En; cbn [negb di_remove day_ok].
  - destruct (IH (delete n files)) as (files' & Hr & Hf). exists files'. split; [done|]. intros name. rewrite Hf. destruct (decide (name = n)) as [->|Hne].
    + rewrite lookup_delete_eq, En, !andb_true_r, (bool_decide_eq_true_2 (n ∈ n :: names)) by (by left). by destruct (bool_decide _).
    + rewrite lookup_delete_ne by done. rewrite (bool_decide_ext (name ∈ n :: names) (name ∈ names)); [done|]. rewrite elem_of_cons. naive_solver.
  - destruct (IH files) as (files' & Hr & Hf). exists files'. split; [done|]. intros name. rewrite Hf. destruct (decide (name = n)) as [->|Hne]; [by rewrite En, !andb_false_r|].
    rewrite (bool_decide_ext (name ∈ n :: names) (name ∈ names)); [done|]. rewrite elem_of_cons. naive_solver.
Qed.
Lemma encode_all l : Forall sample_ok l -> mapM Encode l = Some (omap Encode l).
Proof. induction 1 as [|x l (_ & line & He & _) Hl IH]; [done|]. cbn [omap list_omap]. rewrite He. cbn. by rewrite He, IH. Qed.
Lemma same_day_filter day l : filter (fun s => day_start (SentAt s) = day) l = match decide (day_start day = day) with left _ => filter (same_day SentAt day) l | right _ => [] end.
Proof.
  destruct (decide _) as [Hd|Hd].
  - apply list_filter_iff. intros x. unfold same_day. by rewrite Hd.
  - induction l as [|x l IH]; [done|]. rewrite filter_cons, decide_False; [done|]. intros <-. apply Hd. unfold day_start. by rewrite Z.div_mul.
Qed.
Lemma write_all l days files : Forall sample_ok l -> Forall (fun d => day_start d = d) days -> exists files', write_days day_ok days l files = (true, files') /\
  (forall d, d ∈ days -> files' !! day_name d = Some (file_of_lines (omap Encode (filter (same_day SentAt d) l)))) /\
  (forall name, (forall d, d ∈ days -> name <> day_name d) -> files' !! name = files !! name).
Proof.
  intros Hl. revert files. induction days as [|d days IH]; intros files Hs; cbn [write_days].
  - exists files. split_and!; [done|by intros d ?%elem_of_nil|done].
  - apply Forall_cons in Hs as [Hd Hs]. rewrite same_day_filter, decide_True by done. rewrite encode_all; cycle 1.
    { rewrite Forall_forall in *. intros x [_ Hx]%list_elem_of_filter. auto. }
    unfold written. cbn [di_write day_ok is_Some_b]. set (files1 := <[_ := _]> files). destruct (IH files1 Hs) as (files' & Hw & Hin & Hout). exists files'. split_and!; [done| |].
    + intros d' [->|Hd']%elem_of_cons; [|by apply Hin]. destruct (decide (d ∈ days)); [by apply Hin|]. rewrite Hout; [apply lookup_insert_eq|].
      intros d' Hd' E%day_name_inj. rewrite Forall_forall in Hs. rewrite (Hs d'), Hd in E by done. by subst.
    + intros name Hn. rewrite Hout; [|intros d' ?; apply Hn; by right]. apply lookup_insert_ne. apply not_eq_sym, Hn. by left.
Qed.
Lemma history_days_spec l : NoDup (history_days l) /\ Forall (fun d => day_start d = d) (history_days l) /\ forall d, d ∈ history_days l <-> exists x, x ∈ l /\ d = day_start (SentAt x).
Proof.
  unfold history_days. assert (Hin : forall d, d ∈ remove_dups ((fun s => day_start (SentAt s)) <$> l) <-> exists x, x ∈ l /\ d = day_start (SentAt x)).
  { intros d. rewrite elem_of_remove_dups, list_elem_of_fmap. naive_solver. }
  split_and!; [apply NoDup_remove_dups| |done]. apply Forall_forall. intros d (x & _ & ->)%Hin. unfold day_start. by rewrite Z.div_mul.
Qed.
Lemma compact_holds dir l files : dir <> [] -> Forall sample_ok l -> exists files', compactStorageLocked range_days day_ok dir l (Some files) = (true, Some files') /\ files_hold files' l.
Proof.
  intros Hdir Hl. unfold compactStorageLocked. rewrite bool_decide_eq_false_2 by done. cbn [di_readdir day_ok negb].
  destruct (remove_all (sort_strings (map_to_list files).*1) files) as (files1 & -> & Hg1). cbn [negb].
  destruct (history_days_spec l) as (Hnd & Hs & Hin). destruct (write_all l (range_days (history_days l)) files1 Hl) as (files2 & -> & Hg2 & Hg3); [by rewrite range_perm|].
  assert (Hout : forall name, HasSuffix name jsonl = true -> (forall d, d ∈ range_days (history_days l) -> name <> day_name d) -> files2 !! name = None).
  { intros name Hj Hn. rewrite Hg3, Hg1, Hj, andb_true_r by done. case_bool_decide as Hk; [done|]. destruct (files !! name) as [data|] eqn:E; [|done]. exfalso. apply Hk.
    rewrite sort_strings_perm, list_elem_of_fmap. exists (name, data). split; [done|]. by apply elem_of_map_to_list. }
  exists files2. split; [done|]. split.
  - intros t. unfold day_content. destruct (decide (day_start t ∈ history_days l)) as [Ht|Ht].
    + rewrite (day_name_start t (day_start t)) by (unfold day_start; by rewrite Z.div_mul). rewrite Hg2 by by rewrite range_perm.
      assert (filter (same_day SentAt (day_start t)) l = filter (same_day SentAt t) l) as -> by (apply list_filter_iff; intros x; unfold same_day, day_start; by rewrite Z.div_mul).
      apply Hin in Ht as (x & Hx & Ht). destruct (filter (same_day SentAt t) l) as [|y k] eqn:E; [|done].
      exfalso. eapply filter_nil_not_elem_of; [exact E| |exact Hx]. by unfold same_day.
    + rewrite Hout; [|apply day_name_jsonl|].
      * destruct (filter (same_day SentAt t) l) as [|y k] eqn:E; [done|]. exfalso. apply Ht, Hin. assert (y ∈ filter (same_day SentAt t) l) as [Hy ?]%list_elem_of_filter by (rewrite E; by left). by exists y.
      * intros d Hd E%day_name_inj. apply Ht. rewrite E. rewrite range_perm in Hd. rewrite Forall_forall in Hs. by rewrite Hs.
  - intros name data Hj E. destruct (decide (name ∈ day_name <$> range_days (history_days l))) as [Hd|Hd].
    + apply list_elem_of_fmap in Hd as (d & -> & Hd). rewrite range_perm in Hd. apply Hin in Hd as (x & Hx & ->). exists x. split; [done|]. apply day_name_start. unfold day_start. by rewrite Z.div_mul.
    + rewrite Hout in E; [done..|]. intros d Hd' ->. apply Hd, list_elem_of_fmap. by exists d.
Qed.

(** ** Recording *)

#[export] Instance sent_le_total : Total sent_le.
Proof. intros a b. unfold sent_le. lia. Qed.
#[export] Instance sent_le_trans : Transitive sent_le.
Proof. intros a b c. unfold sent_le. lia. Qed.
Definition since (cutoff : Z) (s : MetricsPayload) : Prop := cutoff <= SentAt s.
#[export] Instance since_dec cutoff s : Decision (since cutoff s).
Proof. unfold since. apply _. Defined.
Lemma drop_before_spec cutoff l : StronglySorted sent_le l -> drop_before cutoff l = filter (since cutoff) l.
Proof.
  induction 1 as [|x l Hl IH Hx]; [done|]. cbn [drop_before]. rewrite filter_cons.
  destruct (Z.ltb_spec (SentAt x) cutoff); [by rewrite decide_False by (unfold since; lia)|]. rewrite decide_True by done. f_equal.
  clear IH Hl. induction Hx as [|y l Hy Hl IH]; [done|]. unfold sent_le in Hy. rewrite filter_cons, decide_True by (unfold since; lia). by rewrite <-IH.
Qed.
Lemma sent_sorted_snoc l x : StronglySorted sent_le l -> Forall (fun s => SentAt s <= SentAt x) l -> StronglySorted sent_le (l ++ [x]).
Proof.
  induction 1 as [|y l Hl IH Hy]; intros Hx; [by repeat constructor|]. apply Forall_cons in Hx as [? Hx]. cbn [app]. constructor; [by apply IH|].
  apply Forall_app. split; [done|]. by constructor.
Qed.
Lemma sorted_filter (P : MetricsPayload -> Prop) `{forall x, Decision (P x)} l : StronglySorted sent_le l -> StronglySorted sent_le (filter P l).
Proof.
  induction 1 as [|x l Hl IH Hx]; [constructor|]. rewrite filter_cons. destruct (decide _); [|done]. constructor; [done|].
  rewrite Forall_forall in *. intros y [_ ?]%list_elem_of_filter. auto.
Qed.
(** What is known of a running collector. *)
Record collector_ok (st : collector) : Prop := {
  co_dir : mc_storageDir st.1 <> [];
  co_sorted : StronglySorted sent_le (mc_history st.1);
  co_samples : Forall sample_ok (mc_history st.1);
  co_files : exists files, st.2 = Some files /\ files_hold files (mc_history st.1);
}.
Lemma filter_all {A} (P : A -> Prop) `{forall x, Decision (P x)} (l : list A) : Forall P l -> filter P l = l.
Proof. induction 1 as [|x l Hx Hl IH]; [done|]. by rewrite filter_cons, decide_True, IH. Qed.
Lemma filter_length_lt {A} (P : A -> Prop) `{forall x, Decision (P x)} (l : list A) : List.length (filter P l) = List.length l -> filter P l = l.
Proof.
  induction l as [|x l IH]; [done|]. rewrite filter_cons. destruct (decide (P x)); cbn [List.length]; [intros [= E]; by rewrite IH|].
  intros E. pose proof (length_filter P l). lia.
Qed.
Lemma Record_ok p st : collector_ok st -> sample_ok p -> Forall (fun s => SentAt s <= SentAt p) (mc_history st.1) ->
  let st' := Record_ range_days day_ok p st in
  collector_ok st' /\ mc_storageDir st'.1 = mc_storageDir st.1 /\ mc_retention st'.1 = mc_retention st.1 /\ mc_hostID st'.1 = mc_hostID st.1 /\
  mc_history st'.1 = filter (since (SentAt p - mc_retention st.1)) (mc_history st.1 ++ [p]).
Proof.
  destruct st as [m disk]. intros [Hdir Hs Hok (files & Hd & Hh)] Hp Hle. cbn [fst snd] in *. subst disk. unfold Record_, pruneLocked.
  pose proof (sent_sorted_snoc _ _ Hs Hle) as Hs'. rewrite drop_before_spec by done. set (kept := filter _ _).
  destruct Hp as (Ht & line & He & Hdl & Hl). unfold appendLocked. rewrite bool_decide_eq_false_2 by done. rewrite He.
  unfold append_file, written. cbn [di_open di_write day_ok negb is_Some_b]. pose proof (day_append_holds SentAt files _ p line He Hh) as Hh'. set (files1 := <[_ := _]> files) in *.
  assert (Forall sample_ok (mc_history m ++ [p])) as Hok'.
  { apply Forall_app. split; [done|]. repeat constructor; [apply Ht|apply Ht|]. by exists line. }
  assert (Forall sample_ok kept) as Hkept by (unfold kept; rewrite Forall_forall in *; intros x [_ Hx]%list_elem_of_filter; auto).
  cbn [andb]. destruct (List.length kept =? List.length (mc_history m ++ [p]))%nat eqn:El; cbn [negb].
  - apply Nat.eqb_eq in El. apply filter_length_lt in El. fold kept in El. rewrite El. split_and!; try done.
    split; [done|done|done|]. by exists files1.
  - destruct (compact_holds (mc_storageDir m) kept files1 Hdir Hkept) as (files2 & -> & Hh2). split_and!; try done.
    split; [done|by apply sorted_filter|done|]. by exists files2.
Qed.

(** ** Loading *)

Lemma line_not_long line : line_ok line -> (MaxScanTokenSize <=? Z.of_nat (List.length line)) = false.
Proof. intros Hl. apply Z.leb_gt, (line_short _ Hl). Qed.
Lemma split_lines ls : Forall line_ok ls -> split_on newline (file_of_lines ls) = ls ++ [[]].
Proof.
  induction 1 as [|l ls Hl Hls IH]; [done|]. unfold file_of_lines in *. cbn [fmap list_fmap concat]. rewrite <-app_assoc. cbn [app].
  rewrite split_on_app_sep by apply (line_newline _ Hl). by rewrite IH.
Qed.
Lemma lines_not_long ls : Forall line_ok ls -> scan_too_long (file_of_lines ls) = false.
Proof.
  intros Hls. unfold scan_too_long. rewrite split_lines, existsb_app by done. cbn. rewrite orb_false_r. induction Hls as [|l ls Hl Hls IH]; [done|].
  cbn [existsb]. by rewrite line_not_long, IH.
Qed.
Definition decoded_file (files : gmap str str) (name : str) : list MetricsPayload := omap Decode (Scan (default [] (files !! name))).
Lemma load_spec cutoff names files : forall history out, load_files day_ok cutoff names files history = Some out ->
  out = history ++ filter (since cutoff) (concat (decoded_file files <$> filter (fun name => HasSuffix name jsonl = true) names)).
Proof.
  induction names as [|name names IH]; intros history out; cbn [load_files]; [intros [= <-]; by rewrite app_nil_r|]. rewrite filter_cons.
  destruct (HasSuffix name jsonl); cbn [negb]; [|rewrite decide_False by done; by apply IH]. rewrite decide_True by done. cbn [di_open day_ok negb].
  destruct (scan_too_long _); [done|]. intros Ho%IH. rewrite Ho. cbn [fmap list_fmap concat]. rewrite filter_app, <-app_assoc. done.
Qed.
Lemma load_total cutoff names files history : (forall name, name ∈ names -> HasSuffix name jsonl = true -> scan_too_long (default [] (files !! name)) = false) ->
  is_Some (load_files day_ok cutoff names files history).
Proof.
  revert history. induction names as [|name names IH]; intros history Hn; cbn [load_files]; [by eexists|].
  destruct (HasSuffix name jsonl) eqn:E; cbn [negb di_open day_ok]; [rewrite Hn; [|by left|done]|]; apply IH; intros n ?; apply Hn; by right.
Qed.
Lemma names_perm files l : files_hold files l -> filter (fun name => HasSuffix name jsonl = true) (sort_strings (map_to_list files).*1) ≡ₚ day_name <$> history_days l.
Proof.
  intros [Hd Hn]. destruct (history_days_spec l) as (Hnd & Hs & Hin). apply NoDup_Permutation.
  - apply NoDup_filter. rewrite sort_strings_perm. apply NoDup_fst_map_to_list.
  - apply NoDup_fmap_2_strong; [|done]. intros d d' Hd1 Hd2 E%day_name_inj. rewrite Forall_forall in Hs. by rewrite (Hs d), (Hs d') in E.
  - intros name. rewrite list_elem_of_filter, sort_strings_perm, !list_elem_of_fmap. split.
    + intros [Hj ([n data] & -> & E%elem_of_map_to_list)]. destruct (Hn _ _ Hj E) as (x & Hx & Hname). cbn [fst] in Hname |- *. exists (day_start (SentAt x)). split.
      * rewrite Hname. apply day_name_start. unfold day_start. by rewrite Z.div_mul.
      * apply Hin. by exists x.
    + intros (d & -> & (x & Hx & ->)%Hin). split; [apply day_name_jsonl|]. pose proof (Hd (day_start (SentAt x))) as E. unfold day_content in E.
      destruct (filter _ l) as [|y k] eqn:Ef; [exfalso; eapply filter_nil_not_elem_of; [exact Ef| |exact Hx]; unfold same_day, day_start; by rewrite Z.div_mul|].
      eexists (_, _). split; [done|]. by apply elem_of_map_to_list.
Qed.
Lemma files_decode files l : Forall sample_ok l -> files_hold files l ->
  concat (decoded_file files <$> filter (fun name => HasSuffix name jsonl = true) (sort_strings (map_to_list files).*1)) ≡ₚ l.
Proof.
  intros Hl Hf. rewrite (names_perm files l) by done. destruct (history_days_spec l) as (Hnd & Hs & Hin).
  assert (decoded_file files <$> (day_name <$> history_days l) = (fun d => filter (same_day SentAt d) l) <$> history_days l) as ->.
  { rewrite <-list_fmap_compose. apply list_fmap_ext. intros _ d _. cbn. unfold decoded_file. rewrite (hold_days _ _ _ Hf).
    pose proof (content_decodes SentAt Decode (fun _ _ => eq_refl) d l Hl) as Hc. by destruct (day_content SentAt d l). }
  rewrite days_perm by done. apply reflexive_eq. apply filter_all, Forall_forall. intros x Hx. apply Hin. by exists x.
Qed.
Lemma files_not_long files l name : Forall sample_ok l -> files_hold files l -> HasSuffix name jsonl = true -> scan_too_long (default [] (files !! name)) = false.
Proof.
  intros Hl [Hd Hn] Hj. destruct (files !! name) as [data|] eqn:E; [|done]. destruct (Hn _ _ Hj E) as (x & Hx & ->). rewrite Hd in E. unfold day_content in E.
  assert (Forall sample_ok (filter (same_day SentAt (SentAt x)) l)) as Hk by (rewrite Forall_forall in *; intros y [_ ?]%list_elem_of_filter; auto).
  destruct (filter _ l) as [|y k]; [done|]. injection E as <-. cbn [default from_option]. apply lines_not_long. exact (proj1 (encoded SentAt Decode (fun _ _ => eq_refl) (y :: k) Hk)).
Qed.

(** ** Runs *)

Definition run (ps : list MetricsPayload) (st : collector) : collector := fold_left (fun st p => Record_ range_days day_ok p st) ps st.
Definition after (retention : Z) (history ps : list MetricsPayload) : list MetricsPayload :=
  match last ps with Some p => filter (since (SentAt p - retention)) (history ++ ps) | None => history end.
Lemma sent_sorted_last (k : list MetricsPayload) x : StronglySorted sent_le (k ++ [x]) -> StronglySorted sent_le k /\ Forall (fun s => SentAt s <= SentAt x) k.
Proof.
  intros Hs. split; [by eapply StronglySorted_app_1_l|]. apply Forall_forall. intros s Hsk. eapply (StronglySorted_app_1_elem_of sent_le k [x]); [done|done|by left].
Qed.
Lemma metrics_run_ok ps st : collector_ok st -> Forall sample_ok ps -> StronglySorted sent_le (mc_history st.1 ++ ps) ->
  collector_ok (run ps st) /\ mc_storageDir (run ps st).1 = mc_storageDir st.1 /\ mc_retention (run ps st).1 = mc_retention st.1 /\ mc_hostID (run ps st).1 = mc_hostID st.1 /\
  mc_history (run ps st).1 = after (mc_retention st.1) (mc_history st.1) ps.
Proof.
  intros Hst. induction ps as [|p ps IH] using rev_ind; intros Hps Hs; [done|]. apply Forall_app in Hps as [Hps Hp]. rewrite Forall_singleton in Hp.
  rewrite app_assoc in Hs. apply sent_sorted_last in Hs as [Hs Hle]. destruct (IH Hps Hs) as (Hok & Hdir & Hret & Hid & Hh). unfold run in *. rewrite fold_left_app. cbn [fold_left].
  set (st1 := fold_left _ ps st) in *. assert (Forall (fun s => SentAt s <= SentAt p) (mc_history st1.1)) as Hle1.
  { rewrite Hh, Forall_forall in *. unfold after. intros x Hx. apply Hle. destruct (last ps); [by apply list_elem_of_filter in Hx as [_ ?]|]. apply elem_of_app. by left. }
  destruct (Record_ok p st1 Hok Hp Hle1) as (Hok' & ? & ? & ? & Hh'). split_and!; [done|congruence..|]. rewrite Hh', Hret, Hh. unfold after. rewrite last_snoc.
  destruct (last ps) as [q|] eqn:El; [|by apply last_None in El as ->]. rewrite !app_assoc, (filter_app _ _ [p]), (filter_app _ (_ ++ ps) [p]). f_equal. apply list_filter_filter_l.
  intros x. unfold since. assert (SentAt q <= SentAt p); [|lia]. rewrite Forall_forall in Hle. apply Hle, elem_of_app. right. apply last_Some in El as [k ->]. apply elem_of_app. right. by left.
Qed.
(** Whatever is read from the files of a directory can be written back. *)
Definition disk_good (files : gmap str str) : Prop := forall name, Forall sample_ok (decoded_file files name).
Lemma forall_concat {A} (P : A -> Prop) (ls : list (list A)) : Forall (Forall P) ls -> Forall P (concat ls).
Proof. induction 1; [constructor|]. cbn [concat]. by apply Forall_app. Qed.
Lemma New_ok now hostID path days disk m disk' : trim_jsonl (TrimSpace path) <> [] -> disk_good (default ∅ disk) ->
  NewMetricsCollector range_days day_ok now hostID path days disk = (Some m, disk') ->
  collector_ok (m, disk') /\ mc_storageDir m = trim_jsonl (TrimSpace path) /\ mc_retention m = retention_days days * Day /\ mc_hostID m = TrimSpace hostID.
Proof.
  intros Hdir Hg. unfold NewMetricsCollector. cbn [mc_storageDir]. rewrite bool_decide_eq_false_2 by done. unfold loadHistory. cbn [di_mkdir di_readdir day_ok negb mc_history mc_storageDir mc_retention].
  set (files := default ∅ disk) in *. destruct (load_files _ _ _ _ _) as [history|] eqn:El; [|done]. apply load_spec in El. cbn [app] in El.
  assert (Forall sample_ok history) as Hok.
  { rewrite El. apply Forall_forall. intros x [_ Hx]%list_elem_of_filter. revert x Hx. apply Forall_forall, forall_concat, Forall_fmap, Forall_forall. intros name _. apply Hg. }
  destruct (compact_holds (trim_jsonl (TrimSpace path)) (merge_sort sent_le history) files Hdir) as (files' & -> & Hh); [by rewrite merge_sort_Permutation|].
  intros [= <- <-]. split; [|done]. split; cbn [fst snd mc_history mc_storageDir].
  - done.
  - apply StronglySorted_merge_sort; apply _.
  - by rewrite merge_sort_Permutation.
  - by exists files'.
Qed.
Lemma New_again later hostID path days m disk : collector_ok (m, disk) -> mc_storageDir m = trim_jsonl (TrimSpace path) -> mc_retention m = retention_days days * Day ->
  exists m' disk', NewMetricsCollector range_days day_ok later hostID path days disk = (Some m', disk') /\
    mc_history m' ≡ₚ filter (since (later - retention_days days * Day)) (mc_history m) /\ StronglySorted sent_le (mc_history m').
Proof.
  intros [Hdir Hs Hok (files & Hdk & Hh)] Hd Hr. cbn [fst snd] in *. subst disk. unfold NewMetricsCollector. cbn [mc_storageDir]. rewrite bool_decide_eq_false_2 by congruence.
  unfold loadHistory. cbn [di_mkdir di_readdir day_ok negb mc_history mc_storageDir mc_retention default from_option]. unfold id.
  destruct (load_total (later - retention_days days * Day) (sort_strings (map_to_list files).*1) files []) as [history El].
  { intros name _ Hj. by eapply files_not_long. }
  rewrite El. apply load_spec in El. cbn [app] in El. pose proof (files_decode files _ Hok Hh) as Hp.
  assert (history ≡ₚ filter (since (later - retention_days days * Day)) (mc_history m)) as Hperm by (by rewrite El, Hp).
  assert (Forall sample_ok (merge_sort sent_le history)) as Hok'.
  { rewrite merge_sort_Permutation, Hperm. rewrite Forall_forall in *. intros x [_ Hx]%list_elem_of_filter. auto. }
  destruct (compact_holds (trim_jsonl (TrimSpace path)) _ files ltac:(congruence) Hok') as (files' & -> & _).
  do 2 eexists. split; [done|]. cbn [mc_history]. split; [by rewrite merge_sort_Permutation|]. apply StronglySorted_merge_sort; apply _.
Qed.

(** C25. The history survives a restart. A collector loads whatever the directory holds
    and records samples, without an input or output error and with times that do not go
    back: its history is then exactly what it loaded and recorded, less what was older
    than the retention when the last sample came; and a collector started again over
    the files has that history, less what has expired since, in the order of the times. *)
Theorem metrics_survive (now later : Z) (hostID path : str) (days : Z) (disk disk0 : dayDir) (m0 : MetricsCollector) (ps : list MetricsPayload) :
  trim_jsonl (TrimSpace path) <> [] -> disk_good (default ∅ disk) ->
  NewMetricsCollector range_days day_ok now hostID path days disk = (Some m0, disk0) ->
  Forall sample_ok ps -> StronglySorted sent_le (mc_history m0 ++ ps) ->
  let '(m, disk1) := run ps (m0, disk0) in
  mc_history m = after (retention_days days * Day) (mc_history m0) ps /\
  exists m' disk', NewMetricsCollector range_days day_ok later hostID path days disk1 = (Some m', disk') /\
    mc_history m' ≡ₚ filter (since (later - retention_days days * Day)) (mc_history m) /\ StronglySorted sent_le (mc_history m').
Proof.
  intros Hdir Hg Hnew Hps Hs. destruct (New_ok _ _ _ _ _ _ _ Hdir Hg Hnew) as (Hok & Hd & Hr & _).
  destruct (metrics_run_ok ps (m0, disk0) Hok Hps Hs) as (Hok' & Hd' & Hr' & _ & Hh). destruct (run ps (m0, disk0)) as [m disk1]. cbn [fst] in *.
  split; [by rewrite Hh, Hr|]. apply New_again; [done|congruence..].
Qed.
End facts.

(** ** Two samples and a restart *)

Section demo.
Definition nought : float64 := value_of (float64_of_Z 0).
Definition host_at (t : Z) : MetricsPayload := mkMetricsPayload t [] 0 0 nought 1 nought nought nought nought 0 0 0 0 0 0 [] 0 0 0 0 100 HealthHealthy.
#[local] Instance plain_days : DayText := { format_day := int_text; parse_day := int_read }.
#[local] Instance plain_day_laws : DayLaws.
Proof.
  split; intros t; [|intros _; apply int_read_text]. intros u E. apply (f_equal int_read) in E. cbn [format_day plain_days] in E.
  rewrite !int_read_text in E. by injection E.
Qed.
#[local] Instance host_codec : JSONCodec MetricsPayload :=
  { Encode x := Some ($"{" ++ int_text (SentAt x) ++ $"}"); Decode line := host_at <$> int_read (take (List.length line - 2) (drop 1 line)) }.
Definition midnight : Z := 1767225600 * 1000000000.
Definition eight_days : list MetricsPayload := [host_at midnight; host_at (midnight + 8 * Day)].
Lemma eight_ok : Forall (sample_ok SentAt) eight_days.
Proof.
  repeat constructor; try (cbn; unfold zero_time, year_10000, midnight, Day, Hour, Minute, Second; lia); (eexists; split; [reflexivity|]; split; [by vm_compute|]).
  all: split; [by apply (bool_decide_unpack _); vm_compute|by vm_compute..].
Qed.
Definition fresh_collector : MetricsCollector := mkCollector [] [] ($"/m") (7 * Day).
Lemma fresh_new : NewMetricsCollector (fun l => l) day_ok midnight [] ($"/m") 7 None = (Some fresh_collector, Some ∅).
Proof. vm_compute. reflexivity. Qed.
Lemma eight_sorted : StronglySorted sent_le eight_days.
Proof. repeat constructor. unfold sent_le. cbn. unfold Day, Hour, Minute, Second. lia. Qed.
Lemma metrics_survive_witness : $"/m" <> [] /\ Forall (sample_ok SentAt) eight_days /\ StronglySorted sent_le eight_days /\
  let '(m, disk1) := run (fun l => l) eight_days (fresh_collector, Some ∅) in
  mc_history m = after (7 * Day) [] eight_days /\
  exists m' disk', NewMetricsCollector (fun l => l) day_ok (midnight + 9 * Day) [] ($"/m") 7 disk1 = (Some m', disk') /\
    mc_history m' ≡ₚ filter (since (midnight + 9 * Day - 7 * Day)) (mc_history m) /\ StronglySorted sent_le (mc_history m').
Proof.
  split; [done|]. split; [exact eight_ok|]. split; [exact eight_sorted|].
  exact (metrics_survive (fun l => l) (fun l => reflexivity l) midnight (midnight + 9 * Day) [] ($"/m") 7 None (Some ∅) fresh_collector eight_days ltac:(done) (fun name => List.Forall_nil _) fresh_new eight_ok eight_sorted).
Defined.
(** The first sample is more than seven days old when the second comes. *)
Example eight_left : after (7 * Day) [] eight_days = [host_at (midnight + 8 * Day)].
Proof. vm_compute. reflexivity. Qed.
End demo.
