(* ===== verification/Stdio.v ===== *)
(** * Stdio: the daemon over a pipe

    [internal/daemon/stdio.go]: the loop that reads requests a line at a time, answers the
    quick ones, starts the others and answers them as they end, and reports metrics. An
    event is one case of its [select]; their order is arbitrary. JSON, times as text and
    what the other parts of the daemon answer are interfaces or part of the event. *)

From S2P Require Import Prelude GoStr Regex Config Alarms Files AuditLog AtomicSave Executor Ops Dispatch Watched Processes.
Open Scope Z_scope.

(** ** Messages *)

Record stdioRequest := mkStdioRequest { sq_ID : str; sq_Action : str; sq_Name : str; sq_Body : str }.
Inductive stdio_result :=
  | RNothing
  | RHealth (id : str)
  | RMetrics (sample : MetricsPayload)
  | RRuntimes (data : str)
  | RProcesses (processes : list str)
  | RSamples (name : str) (samples : list processHistorySample)
  | RExecution (result : executionResponse)
  | RFile (result : str).
Inductive stdio_message :=
  | MEvent (name : str) (data : stdio_result)
  | MResponse (id : str) (ok : bool) (err : option error) (result : stdio_result).
Definition respond_ok (id : str) (result : stdio_result) : stdio_message := MResponse id true None result.
Definition respond_err (id : str) (err : error) : stdio_message := MResponse id false (Some err) RNothing.

(** ** Work that was started *)

Inductive stdio_job := JFile (action body : str) | JOperation (slug : str) (params : opParams) | JAction (name body : str).
(** What a file action, an operation or an action came to; a file's result is its JSON. *)
Inductive stdio_outcome := OError (message : str) | OFile (result : str) | OExecuted (result : executionResponse).

(** What the rest of the daemon answers while a line is handled. *)
Record line_world := mkLineWorld {
  lw_collect : MetricsPayload;
  lw_runtimes : res str;
  lw_faults : faults;
  lw_history : str -> option Z -> option Z -> Z -> list processHistorySample;
}.
Class StdioEnv := {
  unmarshal_request : str -> res stdioRequest;
  unmarshal_string : str -> option str;
  json_valid : str -> bool;
  unmarshal_values : str -> option (gmap str json);
  unmarshal_name : str -> option str;
  unmarshal_query : str -> option (str * str * str * Z);
  ParseRFC3339 : str -> option Z;
}.
Inductive stdio_event :=
  | EvLine (raw : str) (w : line_world)
  | EvScanError (err : error)
  | EvEOF
  | EvDone
  | EvResult (i : nat) (o : stdio_outcome)
  | EvTick (sample : MetricsPayload) (publisher : bool).

Section stdio.
Context `{Unicode, StdioEnv, JSONCodec (option (list str))}.
(** The daemon's id. *)
Variable cfg_ID : str.

(** The state of the loop: the watched processes, what is running and whom it answers,
    what was written, and the samples that were published. *)
Record stdio_state := mkStdio {
  so_watched : watchedProcessStore * disk; so_running : list (str * stdio_job); so_written : list stdio_message; so_published : list MetricsPayload;
}.
(** How the loop returns. *)
Definition stdio_exit : Type := option error.
Definition write (ok : bool) (m : stdio_message) (s : stdio_state) : stdio_state * option stdio_exit :=
  if ok then (mkStdio (so_watched s) (so_running s) (so_written s ++ [m]) (so_published s), None) else (s, Some (Some (Foreign "write |1" []))).
Definition start (id : str) (job : stdio_job) (s : stdio_state) : stdio_state * option stdio_exit :=
  (mkStdio (so_watched s) (so_running s ++ [(id, job)]) (so_written s) (so_published s), None).
Definition stdioBody (raw : str) : res str :=
  if bool_decide (raw = []) || bool_decide (raw = $"null") then Ok []
  else match unmarshal_string raw with Some text => Ok text | None => if json_valid raw then Ok raw else Err (Errorf "body must be valid JSON or a string" []) end.
Definition bad_name : error := Errorf "name must match [A-Za-z0-9][A-Za-z0-9._-]*" [].
(** The two watched-process actions: [add] is what the raw action says. *)
Definition stdio_watched (ok : bool) (f : faults) (id : str) (add : bool) (body : str) (s : stdio_state) : stdio_state * option stdio_exit :=
  match unmarshal_name body with
  | None => write ok (respond_err id (Errorf "invalid JSON body" [])) s
  | Some raw =>
      let name := TrimSpace raw in
      if negb (ValidWatchedProcessName name) then write ok (respond_err id bad_name) s
      else
        let '(processes, watched) := if add then Add f name (so_watched s) else Remove f name (so_watched s) in
        let s := mkStdio watched (so_running s) (so_written s) (so_published s) in
        match processes with
        | None => write ok (respond_err id (Foreign "save" [])) s
        | Some processes => write ok (respond_ok id (RProcesses processes)) s
        end
  end.
Definition parse_bound (raw : str) : res (option Z) :=
  if bool_decide (raw = []) then Ok None else match ParseRFC3339 raw with Some t => Ok (Some t) | None => Err (Errorf "must be RFC3339" []) end.
Definition stdio_history (ok : bool) (query : str -> option Z -> option Z -> Z -> list processHistorySample) (id body : str) (s : stdio_state) : stdio_state * option stdio_exit :=
  match unmarshal_query body with
  | None => write ok (respond_err id (Errorf "invalid JSON body" [])) s
  | Some (raw, from, to, limit) =>
      let name := TrimSpace raw in
      if negb (ValidWatchedProcessName name) then write ok (respond_err id bad_name) s
      else
        match parse_bound from with
        | Err _ => write ok (respond_err id (Errorf "from must be RFC3339" [])) s
        | Ok from =>
            match parse_bound to with
            | Err _ => write ok (respond_err id (Errorf "to must be RFC3339" [])) s
            | Ok to => write ok (respond_ok id (RSamples name (query name from to limit))) s
            end
        end
  end.
(** What a request needs its body for. *)
Definition with_body (ok : bool) (request : stdioRequest) (k : str -> stdio_state -> stdio_state * option stdio_exit) (s : stdio_state) : stdio_state * option stdio_exit :=
  match stdioBody (sq_Body request) with Err err => write ok (respond_err (sq_ID request) err) s | Ok body => k body s end.
Definition operation_params (slug body : str) : opParams :=
  if bool_decide (body = []) then no_params else match unmarshal_values body with Some values => nativeParamsFromValues slug values | None => no_params end.
Definition stdio_line (ok : bool) (raw : str) (w : line_world) (s : stdio_state) : stdio_state * option stdio_exit :=
  match unmarshal_request raw with
  | Err err => write ok (respond_err [] err) s
  | Ok request =>
      let id := sq_ID request in
      let action := ToLower (TrimSpace (sq_Action request)) in
      if isFileActionSlug action then with_body ok request (fun body => start id (JFile action body)) s
      else if isNativeOpSlug action then with_body ok request (fun body => start id (JOperation action (operation_params action body))) s
      else if bool_decide (action = $"health") then write ok (respond_ok id (RHealth cfg_ID)) s
      else if bool_decide (action = $"metrics") then write ok (respond_ok id (RMetrics (lw_collect w))) s
      else if bool_decide (action = $"runtimes") then
        match lw_runtimes w with Err err => write ok (respond_err id err) s | Ok data => write ok (respond_ok id (RRuntimes data)) s end
      else if bool_decide (action = $"watched-processes") then write ok (respond_ok id (RProcesses (List_ (so_watched s)))) s
      else if bool_decide (action = $"watched-process-add") || bool_decide (action = $"watched-process-remove") then
        with_body ok request (stdio_watched ok (lw_faults w) id (HasSuffix (sq_Action request) ($"add"))) s
      else if bool_decide (action = $"process-history") then with_body ok request (stdio_history ok (lw_history w) id) s
      else if bool_decide (action = $"action") || bool_decide (action = $"invoke") then with_body ok request (fun body => start id (JAction (sq_Name request) body)) s
      else if bool_decide (action = $"shutdown") then
        match write ok (respond_ok id RNothing) s with (s, None) => (s, Some None) | stopped => stopped end
      else write ok (respond_err id (Errorf "unsupported action" [])) s
  end.
Definition outcome_response (id : str) (o : stdio_outcome) : stdio_message :=
  match o with
  | OError message => respond_err id (Foreign "%s" [FStr message])
  | OFile result => respond_ok id (RFile result)
  | OExecuted result => MResponse id (rs_OK result) None (RExecution result)
  end.
(** One turn of the loop; a result that nothing runs for cannot come. *)
Definition stdio_step (ok : bool) (ev : stdio_event) (s : stdio_state) : stdio_state * option stdio_exit :=
  match ev with
  | EvDone | EvEOF => (s, Some None)
  | EvScanError err => (s, Some (Some err))
  | EvLine raw w => stdio_line ok raw w s
  | EvResult i o =>
      match so_running s !! i with
      | None => (s, None)
      | Some (id, _) => write ok (outcome_response id o) (mkStdio (so_watched s) (delete i (so_running s)) (so_written s) (so_published s))
      end
  | EvTick sample publisher =>
      write ok (MEvent ($"metrics") (RMetrics sample)) (mkStdio (so_watched s) (so_running s) (so_written s) (so_published s ++ if publisher then [sample] else []))
  end.
(** The loop over some events, each with whether a write succeeds. *)
Fixpoint stdio_loop (evs : list (bool * stdio_event)) (s : stdio_state) : stdio_state * option stdio_exit :=
  match evs with
  | [] => (s, None)
  | (ok, ev) :: evs => match stdio_step ok ev s with (s, None) => stdio_loop evs s | stopped => stopped end
  end.
Definition runStdio (ok : bool) (watched : watchedProcessStore * disk) (evs : list (bool * stdio_event)) : stdio_state * option stdio_exit :=
  match write ok (MEvent ($"ready") (RHealth cfg_ID)) (mkStdio watched [] [] []) with (s, None) => stdio_loop evs s | stopped => stopped end.
End stdio.

(** ** Every request is answered once *)

Section facts.
Context `{Unicode, StdioEnv, JSONCodec (option (list str))}.
Variable cfg_ID : str.
Definition response_id (m : stdio_message) : option str := match m with MResponse id _ _ _ => Some id | MEvent _ _ => None end.
(** Who was answered, and who will be. *)
Definition accounted (s : stdio_state) : list str := omap response_id (so_written s) ++ (so_running s).*1.
(** Whom a line asks for: a line that is no request is answered without an id. *)
Definition asked (ev : stdio_event) : list str :=
  match ev with EvLine raw _ => [match unmarshal_request raw with Ok request => sq_ID request | Err _ => [] end] | _ => [] end.
(** The outcome of handling [ids] in state [s]: only a failed write loses an answer, and it
    ends the loop. *)
Definition answers (path : str) (ok : bool) (ids : list str) (s : stdio_state) (r : stdio_state * option stdio_exit) : Prop :=
  store_ok path (so_watched s) -> store_ok path (so_watched r.1) /\
  exists lost, (lost = [] \/ List.length lost = 1%nat /\ ok = false /\ r.2 <> None) /\ accounted r.1 ++ lost ≡ₚ accounted s ++ ids.
Lemma write_answers path ok id b e res s : answers path ok [id] s (write ok (MResponse id b e res) s).
Proof.
  intros Hs. unfold write. destruct ok; (split; [done|]).
  - exists []. split; [by left|]. rewrite app_nil_r. unfold accounted. cbn [fst so_written so_running]. rewrite omap_app. cbn [omap list_omap response_id].
    rewrite <-!app_assoc. apply Permutation_app_head. apply Permutation_app_comm.
  - exists [id]. split; [by right|done].
Qed.
Lemma start_answers path ok id job s : answers path ok [id] s (start id job s).
Proof.
  intros Hs. split; [done|]. exists []. split; [by left|]. rewrite app_nil_r. unfold accounted, start. cbn [fst so_written so_running]. by rewrite fmap_app, app_assoc.
Qed.
Lemma watched_answers path ok f id add body s : answers path ok [id] s (stdio_watched ok f id add body s).
Proof.
  unfold stdio_watched. destruct (unmarshal_name body) as [raw|]; [|apply write_answers]. destruct (ValidWatchedProcessName _) eqn:Ev; cbn [negb]; [|apply write_answers].
  intros Hs. destruct (if add then _ else _) as [processes watched] eqn:E.
  assert (store_ok path watched) as Hw.
  { destruct add; [by apply (add_inv _ _ _ _ _ _ Hs Ev) in E as [? _]|by apply (remove_inv _ _ _ _ _ _ Hs) in E as [? _]]. }
  destruct processes; exact (write_answers path ok id _ _ _ (mkStdio watched (so_running s) (so_written s) (so_published s)) Hw).
Qed.
Lemma body_answers path ok request k s : (forall body, answers path ok [sq_ID request] s (k body s)) -> answers path ok [sq_ID request] s (with_body ok request k s).
Proof. intros Hk. unfold with_body. destruct (stdioBody _); [apply Hk|apply write_answers]. Qed.
Lemma line_answers path ok raw w s : answers path ok (asked (EvLine raw w)) s (stdio_line cfg_ID ok raw w s).
Proof.
  unfold stdio_line, asked. destruct (unmarshal_request raw) as [request|]; [|apply write_answers]. cbv zeta.
  destruct (isFileActionSlug _); [apply body_answers; intros; apply start_answers|]. destruct (isNativeOpSlug _); [apply body_answers; intros; apply start_answers|].
  do 2 (case_bool_decide; [apply write_answers|]). case_bool_decide; [destruct (lw_runtimes w); apply write_answers|]. case_bool_decide; [apply write_answers|].
  destruct (_ || _); [apply body_answers; intros; apply watched_answers|]. case_bool_decide.
  - apply body_answers. intros body. unfold stdio_history. destruct (unmarshal_query body) as [[[[raw' from] to] limit]|]; [|apply write_answers].
    destruct (negb _); [apply write_answers|]. destruct (parse_bound from); [|apply write_answers]. destruct (parse_bound to); apply write_answers.
  - destruct (_ || _); [apply body_answers; intros; apply start_answers|]. case_bool_decide; [|apply write_answers].
    intros Hs. destruct (write_answers path ok (sq_ID request) true None RNothing s Hs) as [Hw (lost & Hl & Hp)]. fold (respond_ok (sq_ID request) RNothing) in *.
    destruct (write ok _ s) as [s' [e|]]; (split; [done|]); exists lost; (split; [|done]); destruct Hl as [?|(? & ? & ?)]; auto.
Qed.
Lemma step_answers path ok ev s : answers path ok (asked ev) s (stdio_step cfg_ID ok ev s).
Proof.
  assert (forall r, answers path ok [] s (s, r)) as Hsame by (intros r Hs; split; [done|]; exists []; split; [by left|done]).
  destruct ev as [raw w|err| | |i o|sample publisher]; cbn [stdio_step]; [apply line_answers|apply Hsame..| |].
  - destruct (so_running s !! i) as [[id job]|] eqn:E; [|apply Hsame]. set (s1 := mkStdio _ _ _ _). intros Hs.
    assert (accounted s1 ++ [id] ≡ₚ accounted s) as Hp.
    { unfold accounted, s1. cbn [so_written so_running]. rewrite <-app_assoc. apply Permutation_app_head. rewrite Permutation_app_comm. cbn [app].
      change (id :: (delete i (so_running s)).*1) with (((id, job) :: delete i (so_running s)).*1). apply fmap_Permutation. symmetry. by apply delete_Permutation. }
    assert (exists b e res, outcome_response id o = MResponse id b e res) as (b & e & res & ->) by (destruct o; eauto).
    destruct (write_answers path ok id b e res s1 Hs) as [Hw (lost & Hl & Hpl)]. split; [done|]. exists lost. split; [done|]. by rewrite Hpl, Hp, app_nil_r.
  - intros Hs. unfold write. destruct ok; (split; [done|]); exists []; (split; [by left|]); [|done]. unfold accounted. cbn [fst so_written so_running]. rewrite omap_app. cbn [omap list_omap response_id].
    by rewrite !app_nil_r.
Qed.
(** The requests a run has read when it returns: all of them, or those up to the event it
    returned at. *)
Lemma loop_answers path evs : forall s s' out, store_ok path (so_watched s) -> stdio_loop cfg_ID evs s = (s', out) ->
  store_ok path (so_watched s') /\ exists handled rest lost, evs = handled ++ rest /\ (out = None -> rest = []) /\
    (lost = [] \/ List.length lost = 1%nat /\ out <> None /\ exists ev, last handled = Some (false, ev)) /\
    accounted s' ++ lost ≡ₚ accounted s ++ concat ((fun ev => asked ev.2) <$> handled).
Proof.
  induction evs as [|[ok ev] evs IH]; intros s s' out Hs; cbn [stdio_loop].
  - intros [= <- <-]. split; [done|]. exists [], [], []. split_and!; [done..|by left|done].
  - destruct (step_answers path ok ev s Hs) as [Hs1 (lost & Hl & Hp)]. destruct (stdio_step cfg_ID ok ev s) as [s1 [e|]]; cbn [fst snd] in *.
    + intros [= <- <-]. split; [done|]. exists [(ok, ev)], evs, lost. split_and!; [done..| |cbn; by rewrite app_nil_r].
      destruct Hl as [?|(? & -> & ?)]; [by left|right]. split_and!; [done..|]. by exists ev.
    + destruct Hl as [->|(_ & _ & ?)]; [|done]. intros E. destruct (IH s1 s' out Hs1 E) as [Hs' (handled & rest & lost' & -> & Ho & Hl & Hp')]. split; [done|].
      exists ((ok, ev) :: handled), rest, lost'. split_and!; [done|done| |].
      * destruct Hl as [?|(? & ? & ev' & Hlast)]; [by left|right]. split_and!; [done..|]. exists ev'. destruct handled; [done|]. exact Hlast.
      * rewrite Hp'. cbn [fmap list_fmap concat snd]. rewrite app_assoc. rewrite app_nil_r in Hp. by rewrite Hp.
Qed.

(** C24. Every request over the pipe is answered once. Whatever the order in which lines
    arrive, work ends and ticks come: when the loop goes on or returns, the ids of the
    responses written and of the work still running are those of the lines read, each as
    often as it was asked, where a line that is no request is answered without an id;
    one answer is missing only when the last write failed, and that ends the loop. So
    with nothing running and no failed write, every line has had its one response. The
    watched processes are still a sorted list of valid names without repetition. *)
Theorem stdio_answers (path : str) (watched : watchedProcessStore * disk) (evs : list (bool * stdio_event)) (s : stdio_state) (out : option stdio_exit) :
  store_ok path watched -> runStdio cfg_ID true watched evs = (s, out) ->
  store_ok path (so_watched s) /\ exists handled rest lost, evs = handled ++ rest /\ (out = None -> rest = []) /\
    (lost = [] \/ List.length lost = 1%nat /\ out <> None /\ exists ev, last handled = Some (false, ev)) /\
    omap response_id (so_written s) ++ (so_running s).*1 ++ lost ≡ₚ concat ((fun ev => asked ev.2) <$> handled).
Proof.
  intros Hw. unfold runStdio, write. cbn. intros E. destruct (loop_answers path evs (mkStdio watched [] [MEvent ($"ready") (RHealth cfg_ID)] []) s out Hw E) as [Hs (handled & rest & lost & ? & ? & ? & Hp)].
  split; [done|]. exists handled, rest, lost. split_and!; [done..|]. unfold accounted in Hp. by rewrite <-app_assoc in Hp.
Qed.
End facts.

Section demo.
#[local] Instance pipe_unicode : Unicode := { unicode_ToLower s := s; unicode_Quote s := s }.
(** A line is an action, asked for by [7]; ["x"] is no request. *)
#[local] Instance pipe_env : StdioEnv := {
  unmarshal_request raw := if bool_decide (raw = $"x") then Err (Errorf "invalid" []) else Ok (mkStdioRequest ($"7") raw [] []);
  unmarshal_string _ := None; json_valid _ := true; unmarshal_values _ := None; unmarshal_name _ := Some ($"nginx"); unmarshal_query _ := None; ParseRFC3339 _ := None;
}.
#[local] Instance pipe_codec : JSONCodec (option (list str)) := { Encode _ := Some []; Decode _ := None }.
Definition quiet_world : line_world := mkLineWorld busy (Ok []) (fun _ => None) (fun _ _ _ _ => []).
Definition nginx_watched : watchedProcessStore * disk := (mkWatched [] [$"nginx"], mkDisk None None).
(** The case of the letters turns an addition into a removal. *)
Example uppercase_add_removes :
  wp_names (so_watched (runStdio ($"d") true nginx_watched [(true, EvLine ($"Watched-Process-ADD") quiet_world)]).1).1 = [] /\
  wp_names (so_watched (runStdio ($"d") true nginx_watched [(true, EvLine ($"watched-process-add") quiet_world)]).1).1 = [$"nginx"].
Proof. vm_compute. done. Qed.
Definition short_session : list (bool * stdio_event) :=
  [(true, EvLine ($"files.list") quiet_world); (true, EvLine ($"x") quiet_world); (true, EvResult 0 (OFile ($"[]"))); (true, EvEOF); (true, EvEOF)].
Definition short_end : stdio_state * option stdio_exit :=
  (mkStdio nginx_watched [] [MEvent ($"ready") (RHealth ($"d")); respond_err [] (Errorf "invalid" []); respond_ok ($"7") (RFile ($"[]"))] [], Some None).
Lemma nginx_ok : store_ok [] nginx_watched.
Proof. split; [done|]. split; [repeat constructor|apply NoDup_singleton|repeat constructor; by vm_compute]. Qed.
Lemma short_run : runStdio ($"d") true nginx_watched short_session = short_end.
Proof. vm_compute. reflexivity. Qed.
Lemma stdio_answers_witness : store_ok [] nginx_watched /\ runStdio ($"d") true nginx_watched short_session = short_end /\
  exists handled rest lost, short_session = handled ++ rest /\ (Some None = None (A := stdio_exit) -> rest = []) /\
    (lost = [] \/ List.length lost = 1%nat /\ Some None <> None (A := stdio_exit) /\ exists ev, last handled = Some (false, ev)) /\
    [[]; $"7"] ++ lost ≡ₚ concat ((fun ev => asked ev.2) <$> handled).
Proof.
  split; [exact nginx_ok|]. split; [exact short_run|].
  exact (proj2 (stdio_answers ($"d") [] nginx_watched short_session _ _ nginx_ok short_run)).
Defined.
End demo.
