(* ===== verification/FilesHttp.v ===== *)
(** * FilesHttp: the file API over HTTP and over the pipe

    [internal/daemon/files_http.go], [App.runStdioFileAction] of [files.go] and the file
    routes of [app.go]: who may ask, how a request becomes the parameters of an action,
    and the two raw routes. Decoding JSON is an interface; the orders in which Go ranges
    over the three literal maps are chosen anew for each request; the query is given
    decoded. *)

From S2P Require Import Prelude GoStr GoOS GoOSFacts Base64 Alarms Config Executor ConfigApi Files FilesFacts.
From Stdlib Require Import QArith.
Open Scope Z_scope.

(** ** Requests and answers *)

(** A body is the bytes that arrive, and whether reading fails after them. *)
Record body_stream := mkBody { bs_bytes : str; bs_fails : bool }.
(** The orders of the three ranges over literal maps; Go chooses them at each range. *)
Record map_orders := mkMapOrders { text_order : list str; flag_order : list str; number_order : list str }.
Record file_http := mkFileHttp {
  fh_Authorization : str; fh_Subprotocols : str; fh_Signature : str; fh_query : list (str * str); fh_body : body_stream;
  (** whether the client takes a streamed answer to its end *)
  fh_stays : bool;
  (** how the ranges run while this request is served *)
  fh_orders : map_orders;
}.
(** [io.ReadAll] of an [io.LimitReader]; a bound that is not positive reads nothing. *)
Definition read_all (limit : Z) (b : body_stream) : option str :=
  if limit <=? Z.of_nat (List.length (bs_bytes b)) then Some (take (Z.to_nat limit) (bs_bytes b))
  else if bs_fails b then None else Some (bs_bytes b).
Definition Query (r : file_http) (name : string) : str :=
  match List.find (fun kv => bool_decide (kv.1 = $name)) (fh_query r) with Some kv => kv.2 | None => [] end.
Inductive file_reply := ReplyError (e : fileActionError) | ReplyResult (result : fileResult) | ReplyContent (size : Z) (data : str) (complete : bool) | NoRoute.
Definition handled : Type := file_reply * list fileAudit.
Definition fileSourceHTTP : str := $"http".
Definition fileSourceStdio : str := $"stdio".
Definition unauthorized : fileActionError := fileError StatusUnauthorized "unauthorized" [].
Definition refuse (e : fileActionError) : M handled := ret (ReplyError e, []).

(** The object of a body, [None] for bytes that are no object (null is the empty one). *)
Class FilesJSON := { unmarshal_object : str -> option (gmap str json) }.
(** The parts of the daemon these handlers read; the secret is the one of the start. *)
Record HttpApp := mkHttpApp { ha_files : FileApp; ha_MetricsSecret : str; ha_maxBodyBytes : Z }.

(** ** Credentials *)

Definition fileTokenSubprotocolPrefix : str := $"maidcafe.files.".
Definition fileExpectedSecret (fileSecret metricsSecret : str) : str := if bool_decide (fileSecret = []) then metricsSecret else fileSecret.
Definition fileSubprotocolSecret (header : str) : option str :=
  match List.find (fun token => HasPrefix token fileTokenSubprotocolPrefix) (TrimSpace <$> split_on (ch ",") header) with
  | None => None
  | Some token => match RawURL_Decode (TrimPrefix token fileTokenSubprotocolPrefix) with Some [] | None => None | Some decoded => Some decoded end
  end.
Definition fileAuthorizedRequest (r : file_http) (metricsSecret fileSecret : str) (allowQueryToken : bool) : bool :=
  let expected := fileExpectedSecret fileSecret metricsSecret in
  if bool_decide (expected = []) then false
  else
    (let '(secret, ok) := bearerSecret (fh_Authorization r) in ok && bool_decide (secret = expected)) ||
    bool_decide (fileSubprotocolSecret (fh_Subprotocols r) = Some expected) ||
    (allowQueryToken && (let secret := TrimSpace (Query r "token") in negb (bool_decide (secret = [])) && bool_decide (secret = expected))).

(** ** Parameters *)

Definition no_file_request : fileActionRequest := mkFileActionRequest [] [] [] false false false None 0 0 [].
Definition set_text (key text : str) (q : fileActionRequest) : fileActionRequest :=
  let pick k old := if bool_decide (key = $k) then text else old in
  mkFileActionRequest (pick "path"%string (rq_Path q)) (pick "from"%string (rq_From q)) (pick "to"%string (rq_To q)) (rq_Parents q) (rq_Recursive q) (rq_Overwrite q) (rq_Follow q)
    (rq_Offset q) (rq_Limit q) (pick "content"%string (rq_Content q)).
Definition set_flag (key : str) (value : bool) (q : fileActionRequest) : fileActionRequest :=
  let pick k old := if bool_decide (key = $k) then value else old in
  mkFileActionRequest (rq_Path q) (rq_From q) (rq_To q) (pick "parents"%string (rq_Parents q)) (pick "recursive"%string (rq_Recursive q)) (pick "overwrite"%string (rq_Overwrite q))
    (rq_Follow q) (rq_Offset q) (rq_Limit q) (rq_Content q).
Definition set_number (key : str) (value : Z) (q : fileActionRequest) : fileActionRequest :=
  let pick k old := if bool_decide (key = $k) then value else old in
  mkFileActionRequest (rq_Path q) (rq_From q) (rq_To q) (rq_Parents q) (rq_Recursive q) (rq_Overwrite q) (rq_Follow q) (pick "offset"%string (rq_Offset q)) (pick "limit"%string (rq_Limit q))
    (rq_Content q).
Definition set_follow (value : option bool) (q : fileActionRequest) : fileActionRequest :=
  mkFileActionRequest (rq_Path q) (rq_From q) (rq_To q) (rq_Parents q) (rq_Recursive q) (rq_Overwrite q) value (rq_Offset q) (rq_Limit q) (rq_Content q).
Definition set_window (path : str) (offset limit : Z) (q : fileActionRequest) : fileActionRequest :=
  mkFileActionRequest path (rq_From q) (rq_To q) (rq_Parents q) (rq_Recursive q) (rq_Overwrite q) (rq_Follow q) offset limit (rq_Content q).
Definition bad (what : string) (key : str) : fileActionError := fileError StatusBadRequest what [FStr key].
Definition text_field (key : str) (value : json) (q : fileActionRequest) : fileActionRequest + fileActionError :=
  match value with JString text => inl (set_text key text q) | _ => inr (bad "%s must be a string" key) end.
Definition flag_field (key : str) (value : json) (q : fileActionRequest) : fileActionRequest + fileActionError :=
  match value with JBool b => inl (set_flag key b q) | _ => inr (bad "%s must be a boolean" key) end.
Definition float_negative (x : float64) : bool := match x with FNum q => negb (Qle_bool 0 q) | FInf neg => neg | FNaN => false end.
Definition number_field (key : str) (value : json) (q : fileActionRequest) : fileActionRequest + fileActionError :=
  match value with
  | JNumber x =>
      if negb (float_eqb x (FNum (inject_Z (int64_of x)))) then inr (bad "%s must be an integer" key)
      else if float_negative x then inr (bad "%s must not be negative" key)
      else inl (set_number key (int64_of x) q)
  | _ => inr (bad "%s must be an integer" key)
  end.
(** One range: the request as far as it came, and the error that ended it. *)
Fixpoint range_fields (field : str -> json -> fileActionRequest -> fileActionRequest + fileActionError) (values : gmap str json) (keys : list str) (q : fileActionRequest) :
    fileActionRequest * option fileActionError :=
  match keys with
  | [] => (q, None)
  | key :: keys =>
      match values !! key with
      | None => range_fields field values keys q
      | Some value => match field key value q with inl q => range_fields field values keys q | inr e => (q, Some e) end
      end
  end.
Definition and_then (r : fileActionRequest * option fileActionError) (k : fileActionRequest -> fileActionRequest * option fileActionError) : fileActionRequest * option fileActionError :=
  match r with (q, None) => k q | stopped => stopped end.
Definition ParseBool (s : str) : option bool :=
  if bool_decide (s ∈ [$"1"; $"t"; $"T"; $"TRUE"; $"true"; $"True"]) then Some true
  else if bool_decide (s ∈ [$"0"; $"f"; $"F"; $"FALSE"; $"false"; $"False"]) then Some false else None.
Definition fileQueryInt (r : file_http) (name : string) (fallback : Z) : Z + fileActionError :=
  let raw := TrimSpace (Query r name) in
  if bool_decide (raw = []) then inl fallback
  else
    match Atoi raw with
    | Some value => if value <? 0 then inr (bad "%s must be a non-negative integer" ($name)) else inl value
    | None => inr (bad "%s must be a non-negative integer" ($name))
    end.
Definition fileQueryWindow (r : file_http) (q : fileActionRequest) : fileActionRequest + fileActionError :=
  match fileQueryInt r "offset" 0 with
  | inr e => inr e
  | inl offset =>
      match fileQueryInt r "limit" 0 with
      | inr e => inr e
      | inl limit => inl (set_window (TrimSpace (Query r "path")) offset limit q)
      end
  end.
Definition queryBool (r : file_http) (name : string) (dst : bool) : bool :=
  if dst then true
  else let raw := TrimSpace (Query r name) in if bool_decide (raw = []) then false else default false (ParseBool raw).
Definition mergeFileQuery (r : file_http) (q : fileActionRequest) : fileActionRequest :=
  let text old name := if bool_decide (old = []) then TrimSpace (Query r name) else old in
  mkFileActionRequest (text (rq_Path q) "path"%string) (text (rq_From q) "from"%string) (text (rq_To q) "to"%string) (queryBool r "parents" (rq_Parents q))
    (queryBool r "recursive" (rq_Recursive q)) (queryBool r "overwrite" (rq_Overwrite q)) (rq_Follow q) (rq_Offset q) (rq_Limit q) (rq_Content q).

Definition fileBodyFromValues (o : map_orders) (values : gmap str json) (q : fileActionRequest) : fileActionRequest * option fileActionError :=
  and_then (range_fields text_field values (text_order o) q) (fun q =>
  and_then (range_fields flag_field values (flag_order o) q) (fun q =>
  and_then (range_fields number_field values (number_order o) q) (fun q =>
    match values !! ($"follow") with
    | None => (q, None)
    | Some (JBool value) => (set_follow (Some value) q, None)
    | Some _ => (q, Some (fileError StatusBadRequest "follow must be a boolean" []))
    end))).

(** ** Handlers *)

Section handlers.
Context `{FileEnv, ExecEnv, FilesJSON}.
Variable depth : nat.
Variable a : HttpApp.

Definition body_limit : Z :=
  match newFilePolicy (fa_files (ha_files a)) with
  | Some policy =>
      let inflated := wrap64 (fp_maxWrite policy + fp_maxWrite policy / 2 + 64 * 1024) in
      if ha_maxBodyBytes a <? inflated then inflated else ha_maxBodyBytes a
  | None => ha_maxBodyBytes a
  end.
Definition decodeFileBody (r : file_http) (q : fileActionRequest) : fileActionRequest + fileActionError :=
  match read_all (wrap64 (body_limit + 1)) (fh_body r) with
  | None => inr (fileError StatusBadRequest "read request body" [])
  | Some raw =>
      if body_limit <? Z.of_nat (List.length raw) then inr (fileError StatusRequestEntityTooLarge "request body too large" [])
      else if bool_decide (raw = []) then inl q
      else if negb (signatureValid (ha_MetricsSecret a) raw (fh_Signature r)) then inr unauthorized
      else
        match unmarshal_object raw with
        | None => inr (fileError StatusBadRequest "invalid JSON body" [])
        | Some values => match fileBodyFromValues (fh_orders r) values q with (q, None) => inl q | (_, Some e) => inr e end
        end
  end.
(** The gate all handlers share: the policy, then the credential. *)
Definition authorised (r : file_http) (allowQueryToken : bool) (k : filePolicy -> M handled) : M handled :=
  match filePolicyFrom (ha_files a) with
  | inr e => refuse e
  | inl policy => if negb (fileAuthorizedRequest r (ha_MetricsSecret a) (fp_secret policy) allowQueryToken) then refuse unauthorized else k policy
  end.
Definition reply_of (result : fres fileResult) : file_reply := match result with inl result => ReplyResult result | inr e => ReplyError e end.
Definition serveFileAction (action : str) (decorate : fileActionRequest -> fileActionRequest + fileActionError) (r : file_http) : M handled :=
  authorised r false (fun policy =>
    match decorate no_file_request with
    | inr e => refuse e
    | inl q => do (result, audits) := runFileAction depth (ha_files a) policy fileSourceHTTP action [] q in ret (reply_of result, audits)
    end).
Definition serveFileMutation (action : str) (r : file_http) : M handled :=
  serveFileAction action (fun q => match decodeFileBody r q with inr e => inr e | inl q => inl (mergeFileQuery r q) end) r.
Definition handleFileRoots (r : file_http) : M handled := serveFileAction fileActionRoots inl r.
Definition handleFileList (r : file_http) : M handled :=
  serveFileAction fileActionList (fun q => inl (set_window (TrimSpace (Query r "path")) (rq_Offset q) (rq_Limit q) q)) r.
Definition handleFileStat (r : file_http) : M handled :=
  serveFileAction fileActionStat (fun q =>
    let q := set_window (TrimSpace (Query r "path")) (rq_Offset q) (rq_Limit q) q in
    let raw := TrimSpace (Query r "follow") in
    if bool_decide (raw = []) then inl q
    else match ParseBool raw with Some follow => inl (set_follow (Some follow) q) | None => inr (fileError StatusBadRequest "follow must be a boolean" []) end) r.
Definition handleFileRead (r : file_http) : M handled :=
  serveFileAction fileActionRead (fun q => match fileQueryWindow r q with inr e => inr e | inl q => decodeFileBody r q end) r.
(** [io.Copy] of the window: what was read of it, and whether it all went out. *)
Definition copy_window (file : fpath) (offset window : Z) (stays : bool) : M (str * bool) :=
  do data := (if window =? 0 then ret (Ok []) else File_ReadAt file offset window) in
  ret (match data with Ok data => (data, stays) | Err _ => ([], false) end).
Definition http_audit (action target : str) (privileged : bool) (err : option fileActionError) : list fileAudit :=
  recordFileOp (ha_files a) fileSourceHTTP action [] target privileged err.
Definition handleFileContent (r : file_http) : M handled :=
  authorised r true (fun policy =>
    let path := TrimSpace (Query r "path") in
    match resolve policy path with
    | inr e => ret (ReplyError e, http_audit fileActionRead path false (Some e))
    | inl target =>
        match fileQueryInt r "offset" 0 with
        | inr e => refuse e
        | inl offset =>
            match fileQueryInt r "limit" 0 with
            | inr e => refuse e
            | inl limit =>
                do opened := openReadWindow policy target offset limit in
                match opened with
                | inr e => ret (ReplyError e, http_audit fileActionRead (ft_path target) false (Some e))
                | inl (file, size, window) =>
                    do (data, complete) := copy_window file offset window (fh_stays r) in
                    ret (ReplyContent size data complete, if complete then http_audit fileActionRead (ft_path target) false None else [])
                end
            end
        end
    end).
Definition handleFileWriteRaw (r : file_http) : M handled :=
  authorised r false (fun policy =>
    let path := TrimSpace (Query r "path") in
    match resolve policy path with
    | inr e => ret (ReplyError e, http_audit fileActionWrite path false (Some e))
    | inl target =>
        match read_all (wrap64 (fp_maxWrite policy + 1)) (fh_body r) with
        | None => refuse (fileError StatusBadRequest "read request body" [])
        | Some body =>
            if fp_maxWrite policy <? Z.of_nat (List.length body) then
              refuse (fileError StatusRequestEntityTooLarge "body exceeds maxWriteBytes (%d)" [FInt (fp_maxWrite policy)])
            else
              do (result, privileged) := writeFileData (ha_files a) policy target body in
              ret (reply_of result, http_audit fileActionWrite (ft_path target) privileged (match result with inl _ => None | inr e => Some e end))
        end
    end).

(** ** Routes *)

Inductive http_method := GET | POST | PUT | DELETE.
#[export] Instance http_method_eq_dec : EqDecision http_method.
Proof. solve_decision. Defined.
Definition file_routes : list (str * list http_method * (file_http -> M handled)) := [
  ($"roots", [GET; POST], handleFileRoots); ($"list", [GET; POST], handleFileList); ($"stat", [GET; POST], handleFileStat); ($"read", [GET; POST], handleFileRead);
  ($"content", [GET], handleFileContent); ($"content", [PUT; POST], handleFileWriteRaw);
  ($"write", [POST; PUT], serveFileMutation fileActionWrite); ($"mkdir", [POST; PUT], serveFileMutation fileActionMkdir); ($"move", [POST; PUT], serveFileMutation fileActionMove);
  ($"copy", [POST; PUT], serveFileMutation fileActionCopy); ($"delete", [POST; DELETE], serveFileMutation fileActionDelete)].
(** The name is what follows [/api/v1/files/]. *)
Definition serve_files (method : http_method) (name : str) (r : file_http) : M handled :=
  match List.find (fun route => bool_decide (route.1.1 = name) && bool_decide (method ∈ route.1.2)) file_routes with
  | Some route => route.2 r
  | None => ret (NoRoute, [])
  end.

(** ** The pipe *)

Definition runStdioFileAction (o : map_orders) (action body : str) : M handled :=
  match filePolicyFrom (ha_files a) with
  | inr e => refuse e
  | inl policy =>
      let run q := do (result, audits) := runFileAction depth (ha_files a) policy fileSourceStdio action fileSourceStdio q in ret (reply_of result, audits) in
      if bool_decide (body = []) then run no_file_request
      else
        match unmarshal_object body with
        | None => refuse (fileError StatusBadRequest "invalid JSON body" [])
        | Some values =>
            match fileBodyFromValues o values no_file_request with
            | (q, Some e) => ret (ReplyError e, recordFileOp (ha_files a) fileSourceStdio action fileSourceStdio (rq_Path q) false (Some e))
            | (q, None) => run q
            end
        end
  end.
End handlers.
