(* ===== verification/FilesHttpFacts.v ===== *)
(** * FilesHttpFacts: who changes files over HTTP, and that the transports agree

    The theorems of [FilesHttp]: what a request must present before it reads or changes
    a file, how a body becomes parameters whatever the order of the ranges, and that the
    pipe, the JSON routes and the raw route are one and the same action. *)

From S2P Require Import Prelude GoStr GoOS GoOSFacts Base64 Alarms Config Executor ConfigApi Files FilesFacts FilesHttp.
From Stdlib Require Import QArith.
Open Scope Z_scope.

(** ** Bodies *)

Definition text_keys : list str := [$"path"; $"from"; $"to"; $"content"].
Definition flag_keys : list str := [$"parents"; $"recursive"; $"overwrite"].
Definition number_keys : list str := [$"offset"; $"limit"].
(** A range visits each key of its map once. *)
Record orders_ok (o : map_orders) : Prop := {
  text_order_perm : text_order o ≡ₚ text_keys;
  flag_order_perm : flag_order o ≡ₚ flag_keys;
  number_order_perm : number_order o ≡ₚ number_keys;
}.
Definition whole (x : float64) : Prop := float_eqb x (FNum (inject_Z (int64_of x))) = true /\ float_negative x = false.
Definition is_text (values : gmap str json) (key : str) : Prop := match values !! key with None | Some (JString _) => True | Some _ => False end.
Definition is_flag (values : gmap str json) (key : str) : Prop := match values !! key with None | Some (JBool _) => True | Some _ => False end.
Definition is_number (values : gmap str json) (key : str) : Prop := match values !! key with None => True | Some (JNumber x) => whole x | Some _ => False end.
(** A body each of whose known members has its type. *)
Definition typed (values : gmap str json) : Prop :=
  Forall (is_text values) text_keys /\ Forall (is_flag values) (($"follow") :: flag_keys) /\ Forall (is_number values) number_keys.
Definition text_at (values : gmap str json) (key old : str) : str := match values !! key with Some (JString text) => text | _ => old end.
Definition flag_at (values : gmap str json) (key : str) (old : bool) : bool := match values !! key with Some (JBool b) => b | _ => old end.
Definition number_at (values : gmap str json) (key : str) (old : Z) : Z := match values !! key with Some (JNumber x) => int64_of x | _ => old end.
Definition follow_at (values : gmap str json) : option bool := match values !! ($"follow") with Some (JBool b) => Some b | _ => None end.
Definition decoded (values : gmap str json) : fileActionRequest :=
  mkFileActionRequest (text_at values ($"path") []) (text_at values ($"from") []) (text_at values ($"to") []) (flag_at values ($"parents") false) (flag_at values ($"recursive") false)
    (flag_at values ($"overwrite") false) (follow_at values) (number_at values ($"offset") 0) (number_at values ($"limit") 0) (text_at values ($"content") []).

(** What a range over some keys leaves. *)
Definition texts (values : gmap str json) (keys : list str) (q : fileActionRequest) : fileActionRequest :=
  let pick k old := if bool_decide ($k ∈ keys) then text_at values ($k) old else old in
  mkFileActionRequest (pick "path"%string (rq_Path q)) (pick "from"%string (rq_From q)) (pick "to"%string (rq_To q)) (rq_Parents q) (rq_Recursive q) (rq_Overwrite q) (rq_Follow q)
    (rq_Offset q) (rq_Limit q) (pick "content"%string (rq_Content q)).
Definition flags (values : gmap str json) (keys : list str) (q : fileActionRequest) : fileActionRequest :=
  let pick k old := if bool_decide ($k ∈ keys) then flag_at values ($k) old else old in
  mkFileActionRequest (rq_Path q) (rq_From q) (rq_To q) (pick "parents"%string (rq_Parents q)) (pick "recursive"%string (rq_Recursive q)) (pick "overwrite"%string (rq_Overwrite q))
    (rq_Follow q) (rq_Offset q) (rq_Limit q) (rq_Content q).
Definition numbers (values : gmap str json) (keys : list str) (q : fileActionRequest) : fileActionRequest :=
  let pick k old := if bool_decide ($k ∈ keys) then number_at values ($k) old else old in
  mkFileActionRequest (rq_Path q) (rq_From q) (rq_To q) (rq_Parents q) (rq_Recursive q) (rq_Overwrite q) (rq_Follow q) (pick "offset"%string (rq_Offset q)) (pick "limit"%string (rq_Limit q))
    (rq_Content q).

(** A range over keys, in general: [ok] says which values [field] takes, [set] what taking
    the members of [keys] amounts to. *)
Lemma range_spec (field : str -> json -> fileActionRequest -> fileActionRequest + fileActionError) (values : gmap str json) (ok : str -> Prop) (set : list str -> fileActionRequest -> fileActionRequest) :
  (forall q, set [] q = q) ->
  (forall key keys q, values !! key = None -> ok key /\ set (key :: keys) q = set keys q) ->
  (forall key value keys q, values !! key = Some value ->
     match field key value q with inl q' => ok key /\ set (key :: keys) q = set keys q' | inr e => ~ ok key /\ fe_status e = StatusBadRequest end) ->
  forall keys q, match range_fields field values keys q with
    | (q', None) => Forall ok keys /\ q' = set keys q
    | (_, Some e) => ~ Forall ok keys /\ fe_status e = StatusBadRequest
    end.
Proof.
  intros Hnil Hnone Hsome keys. induction keys as [|key keys IH]; intros q; cbn [range_fields]; [by rewrite Hnil|].
  destruct (values !! key) as [value|] eqn:E.
  - specialize (Hsome key value keys q E). destruct (field key value q) as [q1|e].
    + destruct Hsome as [Hok ->]. specialize (IH q1). destruct (range_fields _ _ _ _) as [q' [e|]]; rewrite Forall_cons; naive_solver.
    + rewrite Forall_cons. naive_solver.
  - destruct (Hnone key keys q E) as [Hok ->]. specialize (IH q). destruct (range_fields _ _ _ _) as [q' [e|]]; rewrite Forall_cons; naive_solver.
Qed.
(** Fields of one kind, whose values [at_] reads. *)
Lemma pick_cons {A : Type} (at_ : gmap str json -> str -> A -> A) (values : gmap str json) (name key : str) (keys : list str) (new old : A) :
  (forall old, at_ values key old = new) ->
  (if bool_decide (name ∈ key :: keys) then at_ values name old else old) =
  (if bool_decide (name ∈ keys) then at_ values name (if bool_decide (key = name) then new else old) else if bool_decide (key = name) then new else old).
Proof.
  intros Hat. destruct (decide (key = name)) as [<-|Hne].
  - rewrite (bool_decide_eq_true_2 (key ∈ key :: keys)) by constructor. rewrite (bool_decide_eq_true_2 (key = key)) by done. rewrite !Hat. by case_bool_decide.
  - rewrite (bool_decide_eq_false_2 (key = name)) by done. replace (bool_decide (name ∈ key :: keys)) with (bool_decide (name ∈ keys)); [done|].
    apply bool_decide_ext. rewrite elem_of_cons. naive_solver.
Qed.
Lemma pick_none {A : Type} (at_ : gmap str json -> str -> A -> A) (values : gmap str json) (name key : str) (keys : list str) (old : A) :
  (forall old, at_ values key old = old) ->
  (if bool_decide (name ∈ key :: keys) then at_ values name old else old) = (if bool_decide (name ∈ keys) then at_ values name old else old).
Proof.
  intros Hat. destruct (decide (name = key)) as [->|Hne].
  - rewrite Hat. by repeat case_bool_decide.
  - replace (bool_decide (name ∈ key :: keys)) with (bool_decide (name ∈ keys)); [done|]. apply bool_decide_ext. rewrite elem_of_cons. naive_solver.
Qed.
Lemma range_texts values keys q : match range_fields text_field values keys q with
  | (q', None) => Forall (is_text values) keys /\ q' = texts values keys q
  | (_, Some e) => ~ Forall (is_text values) keys /\ fe_status e = StatusBadRequest end.
Proof.
  apply range_spec; [by intros []| |].
  - intros key ks q' E. unfold is_text, texts. rewrite E. split; [done|]. f_equal; apply pick_none; intros; unfold text_at; by rewrite E.
  - intros key value ks q' E. unfold is_text, text_field. rewrite E. destruct value; try (split; [by intros []|done]). split; [done|].
    unfold texts, set_text. cbn. f_equal; apply pick_cons; intros; unfold text_at; by rewrite E.
Qed.
Lemma range_flags values keys q : match range_fields flag_field values keys q with
  | (q', None) => Forall (is_flag values) keys /\ q' = flags values keys q
  | (_, Some e) => ~ Forall (is_flag values) keys /\ fe_status e = StatusBadRequest end.
Proof.
  apply range_spec; [by intros []| |].
  - intros key ks q' E. unfold is_flag, flags. rewrite E. split; [done|]. f_equal; apply pick_none; intros; unfold flag_at; by rewrite E.
  - intros key value ks q' E. unfold is_flag, flag_field. rewrite E. destruct value; try (split; [by intros []|done]). split; [done|].
    unfold flags, set_flag. cbn. f_equal; apply pick_cons; intros; unfold flag_at; by rewrite E.
Qed.
Lemma range_numbers values keys q : match range_fields number_field values keys q with
  | (q', None) => Forall (is_number values) keys /\ q' = numbers values keys q
  | (_, Some e) => ~ Forall (is_number values) keys /\ fe_status e = StatusBadRequest end.
Proof.
  apply range_spec; [by intros []| |].
  - intros key ks q' E. unfold is_number, numbers. rewrite E. split; [done|]. f_equal; apply pick_none; intros; unfold number_at; by rewrite E.
  - intros key value ks q' E. unfold is_number, number_field, whole. rewrite E. destruct value; try (split; [by intros []|done]).
    destruct (float_eqb _ _); cbn [negb]; [|split; [by intros []|done]]. destruct (float_negative _); [split; [by intros []|done]|]. split; [done|].
    unfold numbers, set_number. cbn. f_equal; apply pick_cons; intros; unfold number_at; by rewrite E.
Qed.
Lemma and_then_spec (r : fileActionRequest * option fileActionError) k (P : Prop) (q' : fileActionRequest) (Q : fileActionRequest * option fileActionError -> Prop) :
  match r with (q1, None) => P /\ q1 = q' | (_, Some e) => ~ P /\ fe_status e = StatusBadRequest end ->
  (P -> Q (k q')) -> (forall q e, ~ P -> fe_status e = StatusBadRequest -> Q (q, Some e)) -> Q (and_then r k).
Proof. destruct r as [q1 [e|]]; cbn; [|intros [HP ->]; auto]. intros [? ?] _ HQ. by apply HQ. Qed.
(** A body decodes to the same request whatever the orders of the ranges. *)
Lemma decode_spec o values : orders_ok o -> match fileBodyFromValues o values no_file_request with
  | (q, None) => typed values /\ q = decoded values
  | (_, Some e) => ~ typed values /\ fe_status e = StatusBadRequest end.
Proof.
  intros [Htext Hflag Hnumber].
  set (Q := fun r : fileActionRequest * option fileActionError => match r with (q, None) => typed values /\ q = decoded values | (_, Some e) => ~ typed values /\ fe_status e = StatusBadRequest end).
  change (Q (fileBodyFromValues o values no_file_request)). unfold fileBodyFromValues.
  assert (forall q e, ~ typed values -> fe_status e = StatusBadRequest -> Q (q, Some e)) as Hbad by (intros; by split).
  eapply and_then_spec; [apply range_texts| |]; [intros Ht; rewrite Htext in Ht|intros q e Hno He; rewrite Htext in Hno; apply Hbad; [|exact He]; by intros (? & _)].
  eapply and_then_spec; [apply range_flags| |]; [intros Hf; rewrite Hflag in Hf|intros q e Hno He; rewrite Hflag in Hno; apply Hbad; [|exact He]; intros (_ & Hf & _); by apply Forall_cons in Hf as [_ ?]].
  eapply and_then_spec; [apply range_numbers| |]; [intros Hn; rewrite Hnumber in Hn|intros q e Hno He; rewrite Hnumber in Hno; apply Hbad; [|exact He]; by intros (_ & _ & ?)].
  assert (Hin : forall (k : str) (l l' : list str), l ≡ₚ l' -> k ∈ l' -> bool_decide (k ∈ l) = true) by (intros k l l' Hl Hk; apply bool_decide_eq_true_2; by rewrite Hl).
  assert (Hq : forall f, set_follow f (numbers values (number_order o) (flags values (flag_order o) (texts values (text_order o) no_file_request))) =
    set_follow f (decoded values)).
  { intros f. unfold numbers, flags, texts, decoded, set_follow. cbn [rq_Path rq_From rq_To rq_Parents rq_Recursive rq_Overwrite rq_Follow rq_Offset rq_Limit rq_Content no_file_request].
    rewrite !(Hin _ _ _ Htext), !(Hin _ _ _ Hflag), !(Hin _ _ _ Hnumber) by (by apply (bool_decide_unpack _)). done. }
  assert (is_flag values ($"follow") -> typed values) as Htyped by (intros; split_and!; [done|by apply Forall_cons|done]).
  assert (~ is_flag values ($"follow") -> ~ typed values) as Huntyped by (intros Hn' (_ & Hf' & _); by apply Forall_cons in Hf' as [? _]).
  unfold is_flag in *. destruct (values !! ($"follow")) as [value|] eqn:E.
  - destruct value; try (apply Hbad; [apply Huntyped; by intros []|done]). split; [by apply Htyped|].
    rewrite Hq. unfold decoded, follow_at, set_follow. by rewrite E.
  - split; [by apply Htyped|]. specialize (Hq None). unfold decoded, follow_at in *. rewrite E. exact Hq.
Qed.

(** ** Who may do what *)

Definition header_credential (a : HttpApp) (policy : filePolicy) (r : file_http) : Prop :=
  let expected := fileExpectedSecret (fp_secret policy) (ha_MetricsSecret a) in
  expected <> [] /\ (bearerSecret (fh_Authorization r) = (expected, true) \/ fileSubprotocolSecret (fh_Subprotocols r) = Some expected).
Definition query_credential (a : HttpApp) (policy : filePolicy) (r : file_http) : Prop :=
  let expected := fileExpectedSecret (fp_secret policy) (ha_MetricsSecret a) in expected <> [] /\ TrimSpace (Query r "token") = expected.
(** The body that was read is empty, or was signed with the secret of the metrics. *)
Definition body_signed `{ExecEnv} (a : HttpApp) (r : file_http) : Prop :=
  exists raw, read_all (wrap64 (body_limit a + 1)) (fh_body r) = Some raw /\ (raw = [] \/ signatureValid (ha_MetricsSecret a) raw (fh_Signature r) = true).
Lemma authorized_spec a policy r token :
  fileAuthorizedRequest r (ha_MetricsSecret a) (fp_secret policy) token = true <->
  header_credential a policy r \/ token = true /\ query_credential a policy r.
Proof.
  unfold fileAuthorizedRequest, header_credential, query_credential. destruct (bearerSecret _) as [secret ok]. cbv zeta. set (expected := fileExpectedSecret _ _).
  case_bool_decide as He; [naive_solver|]. rewrite !orb_true_iff, !andb_true_iff, negb_true_iff, bool_decide_eq_false, !bool_decide_eq_true. destruct ok, token; naive_solver congruence.
Qed.

Section handlers.
Context `{FileEnv, ExecEnv, FilesJSON}.
Variable depth : nat.
Variable a : HttpApp.
Variable helper : fpath -> Prop.
Context {helper_dec : forall q, Decision (helper q)}.
Hypothesis helper_stays : forall argv payload, touches helper (exec_command argv payload).
Definition policy_of (policy : filePolicy) : Prop := newFilePolicy (fa_files (ha_files a)) = Some policy.
(** What a handler guarantees: [who] holds of the policy when it does anything but
    refuse, and [may] when it changes a path. *)
Definition guarded (who : filePolicy -> Prop) (may : filePolicy -> Prop) (m : M handled) : Prop :=
  ((exists reply, m = ret (reply, []) /\ match reply with ReplyError _ | NoRoute => True | _ => False end) \/ exists policy, policy_of policy /\ who policy) /\
  changes_within m (fun fs q => exists policy, policy_of policy /\ who policy /\ may policy /\ allowed_change policy helper fs q).
Lemma guarded_weaken (who who' may may' : filePolicy -> Prop) m :
  (forall policy, who policy -> who' policy) -> (forall policy, may policy -> may' policy) -> guarded who may m -> guarded who' may' m.
Proof using. intros Hw Hm [[?|(policy & ? & ?)] Hc]; (split; [|eapply within_weaken; [|exact Hc]; naive_solver]); eauto. Qed.
Lemma guarded_refuse who may e : guarded who may (refuse e).
Proof using. split; [left; by exists (ReplyError e)|]. by apply looks_within, touches_ret. Qed.
Lemma authorised_guarded r token k (may : filePolicy -> Prop) :
  (forall policy, policy_of policy -> changes_within (k policy) (fun fs q => may policy /\ allowed_change policy helper fs q)) ->
  guarded (fun policy => header_credential a policy r \/ token = true /\ query_credential a policy r) may (authorised a r token k).
Proof using.
  intros Hk. unfold authorised, filePolicyFrom. destruct (newFilePolicy _) as [policy|] eqn:E; [|apply guarded_refuse].
  destruct (fileAuthorizedRequest _ _ _ _) eqn:Ea; cbn [negb]; [|apply guarded_refuse]. apply authorized_spec in Ea.
  split; [right; by exists policy|]. eapply within_weaken; [|by apply Hk]. cbv beta. intros fs q [? ?]. by exists policy.
Qed.
Lemma runFileAction_within policy source action invokedBy q : policy_of policy ->
  changes_within (runFileAction depth (ha_files a) policy source action invokedBy q) (fun fs p => action ∈ mutating /\ allowed_change policy helper fs p).
Proof using helper_stays helper_dec.
  intros _. unfold runFileAction. intros w p. unfold bind. pose proof (dispatch_within depth (ha_files a) policy helper helper_stays action q w p) as Hd.
  destruct (dispatchFileAction _ _ _ _ _ w) as [[result privileged] w']. intros Hne. destruct (Hd Hne) as [? Ha]. split; [done|]. by eapply accounted_allowed.
Qed.
Lemma serveFileAction_guarded action decorate r (may : Prop) : (forall q, decorate no_file_request = inl q -> action ∈ mutating -> may) ->
  guarded (fun policy => header_credential a policy r) (fun _ => action ∈ mutating /\ may) (serveFileAction depth a action decorate r).
Proof using helper_stays helper_dec.
  intros Hmay. unfold serveFileAction. eapply guarded_weaken; [| |apply (authorised_guarded r false _ (fun _ => action ∈ mutating /\ may))]; cbv beta; [naive_solver|done|].
  intros policy Hp. destruct (decorate no_file_request) as [q|e] eqn:E; [|by apply looks_within, touches_ret].
  intros w p. pose proof (runFileAction_within policy fileSourceHTTP action [] q Hp w p) as Hr. unfold bind. destruct (runFileAction _ _ _ _ _ _ _ w) as [[result audits] w']. intros Hne. destruct (Hr Hne). by eauto.
Qed.
Lemma decode_signed r q q' : decodeFileBody a r q = inl q' -> body_signed a r.
Proof using.
  unfold decodeFileBody, body_signed. destruct (read_all _ _) as [raw|]; [|done]. destruct (_ <? _); [done|]. case_bool_decide as Hr; [eauto|].
  destruct (signatureValid _ _ _) eqn:Es; cbn [negb]; [eauto|done].
Qed.
Lemma mutation_guarded action r :
  guarded (fun policy => header_credential a policy r) (fun _ => action ∈ mutating /\ body_signed a r) (serveFileMutation depth a action r).
Proof using helper_stays helper_dec.
  unfold serveFileMutation. apply serveFileAction_guarded. cbv beta. intros q. destruct (decodeFileBody _ _ _) eqn:E; [|done]. intros _ _. by eapply decode_signed.
Qed.
Lemma reading_guarded action decorate r : bool_decide (action ∈ mutating) = false ->
  guarded (fun policy => header_credential a policy r) (fun _ => False) (serveFileAction depth a action decorate r).
Proof using helper_stays helper_dec.
  intros Hm%bool_decide_eq_false. eapply guarded_weaken; [| |apply (serveFileAction_guarded action decorate r True)]; naive_solver.
Qed.
Lemma looks_copy_window file offset window stays : looks (copy_window file offset window stays).
Proof using. unfold copy_window, File_ReadAt. looking. Qed.
Lemma content_guarded r :
  guarded (fun policy => header_credential a policy r \/ query_credential a policy r) (fun _ => False) (handleFileContent a r).
Proof using.
  unfold handleFileContent. eapply guarded_weaken; [| |apply (authorised_guarded r true _ (fun _ => False))]; cbv beta; [naive_solver|done|].
  intros policy _. apply looks_within. cbv zeta. destruct (resolve _ _); [|apply touches_ret]. destruct (fileQueryInt _ _ _); [|apply touches_ret]. destruct (fileQueryInt _ _ _); [|apply touches_ret].
  apply touches_bind; [apply looks_openReadWindow|]. intros [[[file size] window]|e]; [|apply touches_ret].
  apply touches_bind; [apply looks_copy_window|]. intros [data complete]. apply touches_ret.
Qed.
Lemma raw_guarded r :
  guarded (fun policy => header_credential a policy r) (fun _ => True) (handleFileWriteRaw a r).
Proof using helper_stays helper_dec.
  unfold handleFileWriteRaw. eapply guarded_weaken; [| |apply (authorised_guarded r false _ (fun _ => True))]; cbv beta; [naive_solver|done|].
  intros policy _. cbv zeta. destruct (resolve policy _) as [t|e] eqn:Et; [|by apply looks_within, touches_ret].
  destruct (read_all _ _) as [body|]; [|by apply looks_within, touches_ret]. destruct (_ <? _); [by apply looks_within, touches_ret|].
  intros w p. pose proof (writeFileData_within (ha_files a) policy helper helper_stays _ t body Et w p) as Hw. unfold bind. destruct (writeFileData _ _ _ _ w) as [[result privileged] w'].
  intros Hne. split; [done|]. eapply accounted_allowed. by apply Hw.
Qed.
(** What each route needs: the credential in a header, or for the download in the query;
    to change a path, a method other than GET and a signed body, or the raw route. *)
Definition asks (method : http_method) (name : str) (r : file_http) (policy : filePolicy) : Prop :=
  header_credential a policy r \/ method = GET /\ name = $"content" /\ query_credential a policy r.
Definition changes (method : http_method) (name : str) (r : file_http) (policy : filePolicy) : Prop :=
  header_credential a policy r /\ method <> GET /\ (name = $"content" \/ body_signed a r).
Lemma route_guarded method name r : guarded (asks method name r) (changes method name r) (serve_files depth a method name r).
Proof using helper_stays helper_dec.
  unfold serve_files. destruct (List.find _ _) as [route|] eqn:E.
  - apply List.find_some in E as [Hin [Hn Hm]%andb_prop]. apply bool_decide_eq_true in Hn, Hm. subst name. unfold asks, changes.
    assert (Hread : forall action decorate n, bool_decide (action ∈ mutating) = false ->
      guarded (asks method n r) (changes method n r) (serveFileAction depth a action decorate r)).
    { intros action decorate n Hno. eapply guarded_weaken; [| |by apply reading_guarded]; unfold asks; naive_solver. }
    assert (Hmut : forall action n, method <> GET -> guarded (asks method n r) (changes method n r) (serveFileMutation depth a action r)).
    { intros action n Hget. destruct (mutation_guarded action r) as [Hwho Hc]. split.
      - destruct Hwho as [?|(policy & ? & ?)]; [by left|right]. exists policy. split; [done|by left].
      - eapply within_weaken; [|exact Hc]. cbv beta. intros fs q (policy & ? & Hh & [_ Hs] & ?). exists policy. split_and!; [done|by left|split_and!; [done..|by right]|done]. }
    assert (Hget : forall ms : list http_method, bool_decide (GET ∈ ms) = false -> method ∈ ms -> method <> GET) by (intros ms Hno Hms ->; by rewrite bool_decide_eq_true_2 in Hno).
    cbn [file_routes In] in Hin. destruct Hin as [<-|[<-|[<-|[<-|[<-|[<-|[<-|[<-|[<-|[<-|[<-|[]]]]]]]]]]]]; cbn [fst snd] in *; try (by apply Hread);
      try (refine (Hmut _ _ (Hget _ _ Hm)); reflexivity).
    + apply list_elem_of_singleton in Hm as ->. eapply guarded_weaken; [| |apply content_guarded]; naive_solver.
    + apply (Hget [PUT; POST] eq_refl) in Hm.
      destruct (raw_guarded r) as [Hwho Hc]. split.
      * destruct Hwho as [?|(policy & ? & ?)]; [by left|right]. exists policy. split; [done|by left].
      * eapply within_weaken; [|exact Hc]. cbv beta. intros fs q (policy & Hp & Hh & _ & Hal). exists policy. split; [exact Hp|]. split; [by left|]. split; [|exact Hal]. split; [exact Hh|]. split; [exact Hm|by left].
  - split; [left; by exists NoRoute|]. by apply looks_within, touches_ret.
Qed.
End handlers.

(** C4. What a request must present to use the file API over HTTP. For any route, method,
    request, state of the file system and failing system call: an answer other than a
    refusal goes to a caller with the file credential (of the files section, or else the
    one of the metrics) in a header, or, on the download route only, in the query. A
    path changes only for a caller with the credential in a header, not by GET, with
    writing enabled and where a configured root accounts for it; on every route but the
    raw upload the body must moreover be empty or signed (the upload takes the bytes of
    the file as they come, on the credential alone). And who presents no credential gets the
    same refusal in every state: nothing is looked at, changed or audited. *)
Theorem file_http_confined `{FileEnv, ExecEnv, FilesJSON} depth a (helper : fpath -> Prop) `{!forall q, Decision (helper q)} method name r w q :
  (forall argv payload, touches helper (exec_command argv payload)) ->
  let '((reply, audits), w') := serve_files depth a method name r w in
  (match reply with ReplyResult _ | ReplyContent _ _ _ => True | _ => False end -> exists policy, newFilePolicy (fa_files (ha_files a)) = Some policy /\ asks a method name r policy) /\
  (w_fs w' !! q <> w_fs w !! q -> exists policy, newFilePolicy (fa_files (ha_files a)) = Some policy /\ changes a method name r policy /\ fp_allowWrite policy = true /\
     exists root, root ∈ fp_roots policy /\ if fr_privileged root then helper q else exists base, os_resolve (w_fs w) LDir (fr_path root) = Ok base /\ base `prefix_of` q) /\
  ((forall policy, newFilePolicy (fa_files (ha_files a)) = Some policy -> ~ asks a method name r policy) ->
     exists refusal, match refusal with ReplyError _ | NoRoute => True | _ => False end /\ forall w1, serve_files depth a method name r w1 = ((refusal, []), w1)).
Proof.
  intros Hh. destruct (route_guarded depth a helper Hh method name r) as [Hwho Hc]. specialize (Hc w q). destruct (serve_files _ _ _ _ _ w) as [[reply audits] w'] eqn:E.
  split_and!.
  - intros Hr. destruct Hwho as [(refusal & Hm & Hn)|?]; [|done]. rewrite Hm in E. injection E as -> _ _. by destruct reply.
  - intros Hq. destruct (Hc Hq) as (policy & ? & _ & ? & ? & ?). by exists policy.
  - intros Hno. destruct Hwho as [(refusal & -> & Hn)|(policy & Hp & Ha)]; [by exists refusal|by destruct (Hno policy Hp)].
Qed.

(** ** One action, three transports *)

Lemma read_all_whole limit raw : Z.of_nat (List.length raw) <= limit < max_int64 -> read_all (wrap64 (limit + 1)) (mkBody raw false) = Some raw.
Proof.
  intros Hl. assert (wrap64 (limit + 1) = limit + 1) as -> by (unfold wrap64, max_int64 in *; rewrite Z.mod_small; lia). unfold read_all. cbn [bs_bytes bs_fails].
  destruct (_ <=? _) eqn:E; [lia|done].
Qed.
Lemma merge_nothing r q : fh_query r = [] -> mergeFileQuery r q = q.
Proof.
  intros Hq. assert (forall name, TrimSpace (Query r name) = []) as Hn by (intros; unfold Query; by rewrite Hq). unfold mergeFileQuery, queryBool. rewrite !Hn.
  destruct q as [path from to parents recursive overwrite ? ? ? ?]. cbn. f_equal; try (by destruct parents, recursive, overwrite); by case_bool_decide.
Qed.
Section agree.
Context `{FileEnv, ExecEnv, FilesJSON}.
Variable depth : nat.
Variable a : HttpApp.
Variable policy : filePolicy.
Hypothesis policy_is : newFilePolicy (fa_files (ha_files a)) = Some policy.
Lemma authorised_passes r k : header_credential a policy r -> authorised a r false k = k policy.
Proof using policy_is.
  intros Hr. unfold authorised, filePolicyFrom. rewrite policy_is. by rewrite (proj2 (authorized_spec a policy r false) (or_introl Hr)).
Qed.
(** A signed body within the limit. *)
Definition carries (r : file_http) (raw : str) : Prop :=
  header_credential a policy r /\ fh_query r = [] /\ fh_body r = mkBody raw false /\ raw <> [] /\ Z.of_nat (List.length raw) <= body_limit a < max_int64 /\
  signatureValid (ha_MetricsSecret a) raw (fh_Signature r) = true.
Lemma decode_carried r raw values : carries r raw -> unmarshal_object raw = Some values ->
  decodeFileBody a r no_file_request = match fileBodyFromValues (fh_orders r) values no_file_request with (q, None) => inl q | (_, Some e) => inr e end.
Proof using.
  intros (_ & _ & Hb & Hne & Hl & Hs) Hv. unfold decodeFileBody. rewrite Hb, read_all_whole by done. destruct (_ <? _) eqn:E; [lia|].
  rewrite bool_decide_eq_false_2 by done. rewrite Hs. cbn [negb]. by rewrite Hv.
Qed.
(** The JSON route of an action, on a body without a query. *)
Lemma json_route action r raw values : action ∈ fileActionRead :: mutating -> carries r raw -> unmarshal_object raw = Some values ->
  serve_files depth a POST (drop 6 action) r =
    match fileBodyFromValues (fh_orders r) values no_file_request with
    | (q, None) => do (result, audits) := runFileAction depth (ha_files a) policy fileSourceHTTP action [] q in ret (reply_of result, audits)
    | (_, Some e) => refuse e
    end.
Proof using policy_is.
  intros Ha Hr Hv. pose proof (decode_carried r raw values Hr Hv) as Hd. destruct Hr as (Hcred & Hq & _).
  apply elem_of_cons in Ha as [->|Ha].
  - change (serve_files depth a POST (drop 6 fileActionRead) r) with (handleFileRead depth a r). unfold handleFileRead, serveFileAction. rewrite authorised_passes by done.
    assert (fileQueryWindow r no_file_request = inl no_file_request) as -> by (unfold fileQueryWindow, fileQueryInt, Query; by rewrite Hq). rewrite Hd.
    by destruct (fileBodyFromValues _ _ _) as [q [e|]].
  - assert (serve_files depth a POST (drop 6 action) r = serveFileMutation depth a action r) as ->.
    { repeat (apply elem_of_cons in Ha as [->|Ha]; [reflexivity|]). by apply elem_of_nil in Ha. }
    unfold serveFileMutation, serveFileAction. rewrite authorised_passes, Hd by done. destruct (fileBodyFromValues _ _ _) as [q [e|]]; [done|]. by rewrite merge_nothing.
Qed.
Lemma pipe_route o action raw values : raw <> [] -> unmarshal_object raw = Some values ->
  runStdioFileAction depth a o action raw =
    match fileBodyFromValues o values no_file_request with
    | (q, None) => do (result, audits) := runFileAction depth (ha_files a) policy fileSourceStdio action fileSourceStdio q in ret (reply_of result, audits)
    | (q, Some e) => ret (ReplyError e, recordFileOp (ha_files a) fileSourceStdio action fileSourceStdio (rq_Path q) false (Some e))
    end.
Proof using policy_is.
  intros Hne Hv. unfold runStdioFileAction, filePolicyFrom. rewrite policy_is, bool_decide_eq_false_2, Hv by done. by destruct (fileBodyFromValues _ _ _) as [q [e|]].
Qed.
(** An upload: the bytes are the body, the path is in the query. *)
Definition uploads (r : file_http) (path data : str) : Prop :=
  header_credential a policy r /\ Query r "path" = path /\ TrimSpace path = path /\ fh_body r = mkBody data false /\ Z.of_nat (List.length data) <= fp_maxWrite policy < max_int64.
Lemma raw_route r path data q source invoker w : uploads r path data -> rq_Path q = path -> rq_Content q = EncodeToString data ->
  let '((result, _), w') := runFileAction depth (ha_files a) policy source fileActionWrite invoker q w in
  exists audits, serve_files depth a PUT ($"content") r w = ((reply_of result, audits), w').
Proof using policy_is.
  intros (Hcred & Hpath & Htrim & Hb & Hl) Hq Hc.
  change (serve_files depth a PUT ($"content") r) with (handleFileWriteRaw a r). unfold handleFileWriteRaw. rewrite authorised_passes by done. rewrite Hpath, Htrim, Hb. cbv zeta.
  unfold runFileAction, dispatchFileAction. rewrite !(bool_decide_eq_false_2 (fileActionWrite = _)) by done. rewrite (bool_decide_eq_true_2 (fileActionWrite = _)) by done.
  unfold resolved_in. rewrite Hq, Hc, DecodeString_EncodeToString. destruct (resolve policy path) as [t|e]; [|unfold bind, answer_err, ret; by eexists].
  rewrite read_all_whole by done. destruct (_ <? _) eqn:E; [lia|]. unfold bind. destruct (writeFileData _ _ _ _ w) as [[result privileged] w']. by eexists.
Qed.
End agree.

(** C5. The three transports are one file API. Take a JSON body and an action that has
    one (read, or one of the five that change files), POSTed over HTTP with the
    credential, signed and within the limit, and given to the pipe, where each side
    ranges over its maps in an order of its own. If each known member has its type, both
    have the same reply and the same effect, namely those of the action on the members
    of the body, and a raw upload of some bytes to a path has the reply and the effect of
    the write whose body holds that path and the bytes in base64. If some member has not,
    both refuse with 400 and touch nothing (which of several such members the refusal
    names depends on the order). *)
Theorem file_transports_agree `{FileEnv, ExecEnv, FilesJSON} depth a policy action raw values r o w :
  newFilePolicy (fa_files (ha_files a)) = Some policy -> action ∈ fileActionRead :: mutating -> carries a policy r raw -> unmarshal_object raw = Some values ->
  orders_ok (fh_orders r) -> orders_ok o ->
  let '((reply, _), w') := serve_files depth a POST (drop 6 action) r w in
  let '((reply_pipe, _), w_pipe) := runStdioFileAction depth a o action raw w in
  (typed values -> reply_pipe = reply /\ w_pipe = w' /\
     (forall source invoker, exists result audits,
        runFileAction depth (ha_files a) policy source action invoker (decoded values) w = ((result, audits), w') /\ reply = reply_of result) /\
     (forall r2 path data, action = fileActionWrite -> values !! ($"path") = Some (JString path) -> values !! ($"content") = Some (JString (EncodeToString data)) ->
        uploads a policy r2 path data -> exists audits, serve_files depth a PUT ($"content") r2 w = ((reply, audits), w'))) /\
  (~ typed values -> w' = w /\ w_pipe = w /\
     exists e e_pipe, reply = ReplyError e /\ reply_pipe = ReplyError e_pipe /\ fe_status e = StatusBadRequest /\ fe_status e_pipe = StatusBadRequest).
Proof.
  intros Hp Ha Hr Hv Ho Ho'. assert (Hne : raw <> []) by apply Hr. pose proof (decode_spec _ values Ho) as Hd. pose proof (decode_spec _ values Ho') as Hd'.
  rewrite (json_route depth a policy Hp action r raw values), (pipe_route depth a policy Hp o action raw values) by done.
  destruct (fileBodyFromValues (fh_orders r) _ _) as [q [e|]], (fileBodyFromValues o _ _) as [q' [e'|]]; destruct Hd as [Hty Hd], Hd' as [Hty' Hd']; try done.
  - cbn. split; [done|]. intros _. split_and!; [done..|by exists e, e'].
  - subst q q'. unfold bind.
    assert (Hsame : forall source invoker, exists audits, runFileAction depth (ha_files a) policy source action invoker (decoded values) w =
      (((dispatchFileAction depth (ha_files a) policy action (decoded values) w).1.1, audits), (dispatchFileAction depth (ha_files a) policy action (decoded values) w).2)).
    { intros source invoker. unfold runFileAction, bind. destruct (dispatchFileAction _ _ _ _ _ w) as [[result privileged] w']. by eexists. }
    destruct (Hsame fileSourceHTTP []) as [audits E], (Hsame fileSourceStdio fileSourceStdio) as [audits2 E2]. rewrite E, E2. unfold ret. cbv beta iota zeta.
    split; [intros _|done]. split_and!; [done..| |].
    + intros source invoker. destruct (Hsame source invoker) as [audits3 ->]. by do 2 eexists.
    + intros r2 path data -> Hpath Hcontent Hup. pose proof (raw_route depth a policy Hp r2 path data (decoded values) fileSourceHTTP [] w Hup) as Hraw.
      rewrite E in Hraw. apply Hraw; unfold decoded; cbn [rq_Path rq_Content]; unfold text_at; [by rewrite Hpath|by rewrite Hcontent].
Qed.

(** ** The theorems at work *)

Section demo.
#[local] Existing Instance site_env.
#[local] Instance http_exec : ExecEnv := { hmac_hex secret body := secret ++ $":" ++ body; template_values _ := ∅; error_text _ := [] }.
(** Two bodies: one writes a file, one deletes a directory that is to be empty. *)
Definition write_values : gmap str json := list_to_map [($"path", JString ($"/srv/www/a.txt")); ($"content", JString ($"aGk="))].
Definition delete_values : gmap str json := list_to_map [($"path", JString ($"/srv/www/new")); ($"recursive", JBool false)].
#[local] Instance http_json : FilesJSON := {
  unmarshal_object raw := if bool_decide (raw = $"w") then Some write_values else if bool_decide (raw = $"d") then Some delete_values else None;
}.
Definition in_order : map_orders := mkMapOrders text_keys flag_keys number_keys.
Definition backwards : map_orders := mkMapOrders (reverse text_keys) (reverse flag_keys) (reverse number_keys).
Lemma in_order_ok : orders_ok in_order.
Proof. by split. Qed.
Lemma backwards_ok : orders_ok backwards.
Proof. split; apply reverse_Permutation. Qed.
Definition http_app : HttpApp := mkHttpApp site_app ($"k") 65536.
Definition http_get (authorization signature body : str) (query : list (str * str)) : file_http :=
  mkFileHttp authorization [] signature query (mkBody body false) true in_order.
Definition a_txt : fpath := [$"srv"; $"www"; $"a.txt"].
Definition upload : file_http := http_get ($"Bearer k") [] ($"hi") [($"path", $"/srv/www/a.txt")].
Definition signed_write : file_http := http_get ($"Bearer k") ($"k:w") ($"w") [].
(** A write without a body needs no signature: the query alone empties the file. *)
Example unsigned_truncation :
  w_fs (serve_files 9 http_app POST ($"write") (http_get ($"Bearer k") [] [] [($"path", $"/srv/www/a.txt")]) site_world).2 !! a_txt = Some (Node (CFile []) 416 998).
Proof. vm_compute. reflexivity. Qed.
(** A query turns a signed deletion that is not recursive into one that is. *)
Example query_widens_signed : exists q, decodeFileBody http_app (http_get ($"Bearer k") ($"k:d") ($"d") []) no_file_request = inl q /\ rq_Recursive q = false /\
  rq_Recursive (mergeFileQuery (http_get ($"Bearer k") ($"k:d") ($"d") [($"recursive", $"true")]) q) = true.
Proof. eexists. split; [vm_compute; reflexivity|]. by vm_compute. Qed.
(** A download that breaks off is not in the audit log, and neither is a refused body. *)
Example broken_download : (serve_files 9 http_app GET ($"content") (mkFileHttp [] [] [] [($"path", $"/srv/www/a.txt"); ($"token", $"k")] (mkBody [] false) false in_order) site_world).1 =
  (ReplyContent 5 ($"hello") false, []).
Proof. vm_compute. reflexivity. Qed.
(** With the largest body limit the bound wraps around, and every body reads as empty. *)
Example body_limit_wraps : decodeFileBody (mkHttpApp site_app ($"k") max_int64) (http_get [] [] ($"w") []) no_file_request = inl no_file_request.
Proof. vm_compute. reflexivity. Qed.

Lemma file_http_confined_witness :
  let '(_, w') := serve_files 9 http_app PUT ($"content") upload site_world in
  w_fs w' !! a_txt <> w_fs site_world !! a_txt /\ exists policy, newFilePolicy site_config = Some policy /\ changes http_app PUT ($"content") upload policy.
Proof.
  pose proof (file_http_confined 9 http_app (fun _ => False) PUT ($"content") upload site_world a_txt (fun argv payload => touches_ret _ _)) as H.
  assert (Hne : w_fs (serve_files 9 http_app PUT ($"content") upload site_world).2 !! a_txt <> w_fs site_world !! a_txt).
  { assert (w_fs (serve_files 9 http_app PUT ($"content") upload site_world).2 !! a_txt = Some (Node (CFile ($"hi")) 416 998)) as -> by (vm_compute; reflexivity). discriminate. }
  destruct (serve_files 9 http_app PUT ($"content") upload site_world) as [[reply audits] w']. destruct H as (_ & H & _). split; [exact Hne|].
  destruct (H Hne) as (policy & Hp & Hc & _). exists policy. split; [exact Hp|exact Hc].
Defined.
Lemma header_k r : fh_Authorization r = $"Bearer k" -> header_credential http_app site_policy r.
Proof. intros Hr. split; [done|]. left. rewrite Hr. by vm_compute. Qed.
Lemma write_typed : typed write_values.
Proof. split_and!; by repeat (apply Forall_cons; split; [by vm_compute|]). Qed.
Lemma file_transports_agree_witness :
  let '((reply, _), w') := serve_files 9 http_app POST ($"write") signed_write site_world in
  let '((reply_pipe, _), w_pipe) := runStdioFileAction 9 http_app backwards fileActionWrite ($"w") site_world in
  reply = ReplyResult (WriteResult ($"/srv/www/a.txt") 2) /\ reply_pipe = reply /\ w_pipe = w' /\
  exists audits, serve_files 9 http_app PUT ($"content") upload site_world = ((reply, audits), w').
Proof.
  pose proof (file_transports_agree 9 http_app site_policy fileActionWrite ($"w") write_values signed_write backwards site_world eq_refl) as H.
  assert (Hr : (serve_files 9 http_app POST (drop 6 fileActionWrite) signed_write site_world).1.1 = ReplyResult (WriteResult ($"/srv/www/a.txt") 2)) by (vm_compute; reflexivity).
  change ($"write") with (drop 6 fileActionWrite). destruct (serve_files 9 http_app POST (drop 6 fileActionWrite) signed_write site_world) as [[reply audits] w'].
  destruct (runStdioFileAction _ _ _ _ _ _) as [[reply_pipe audits_pipe] w_pipe].
  split; [exact Hr|]. destruct H as [H _].
  - apply (bool_decide_unpack _). by vm_compute.
  - split_and!; [by apply header_k|done|done|done|by vm_compute|by vm_compute|by vm_compute].
  - reflexivity.
  - exact in_order_ok.
  - exact backwards_ok.
  - destruct (H write_typed) as (Hpipe & Hw & _ & Hraw). split; [exact Hpipe|]. split; [exact Hw|].
    apply (Hraw upload ($"/srv/www/a.txt") ($"hi") eq_refl); [by vm_compute|by vm_compute|].
    split_and!; [by apply header_k|done|by vm_compute|done|by vm_compute|by vm_compute].
Defined.
(** Two members of the wrong type: which one is refused depends on the order. *)
Example which_is_refused :
  let values : gmap str json := list_to_map [($"path", JNull); ($"to", JNull)] in
  (fileBodyFromValues in_order values no_file_request).2 = Some (bad "%s must be a string" ($"path")) /\
  (fileBodyFromValues backwards values no_file_request).2 = Some (bad "%s must be a string" ($"to")).
Proof. by vm_compute. Qed.
End demo.
