(* ===== verification/Relay.v ===== *)
(** * Relay: from the cloud's queue to a run on the daemon, and back

    The HTTP handlers of the relay in the cloud ([internal/handler/routes.go],
    [internal/server/router.go]) and the daemon's polling relay
    ([internal/daemon/relay.go]). The two programs meet in [pollOnce], which runs the
    cloud's handlers on the cloud's database. *)

From S2P Require Import Prelude GoStr GoMatch Base64 PrivFirewall Config AuditLog Executor Ops Dispatch CloudDB Cloud CloudFacts.
Open Scope Z_scope.

(** ** The cloud's handlers *)

(** [errors.Is] of one of the service's errors, through [%w]. *)
Fixpoint errors_Is (text : string) (e : error) : bool :=
  match e with
  | Errorf f args =>
      (bool_decide (f = text) && bool_decide (List.length args = 0%nat)) ||
      existsb (fun a => match a with FErr e => errors_Is text e | _ => false end) args
  | _ => false
  end.
Definition serviceStatus (e : error) : Z :=
  if errors_Is "unauthorized" e then StatusUnauthorized
  else if errors_Is "forbidden" e then 403
  else if errors_Is "not found" e then StatusNotFound
  else if errors_Is "rate limited" e then StatusTooManyRequests
  else if errors_Is "notification publish failed" e then StatusBadGateway
  else StatusInternalServerError.
Definition daemonSecret (authorization : str) : option str :=
  let v := TrimSpace authorization in
  if HasPrefix v ($"Bearer ") then
    let secret := TrimSpace (TrimPrefix v ($"Bearer ")) in
    if bool_decide (secret = []) then None else Some secret
  else None.
(** The account of the other program, by its identifier, nick and name. *)
Record Account := mkAccount { ac_Id : str; ac_Nick : str; ac_Name : str }.
Definition userHandle (a : Account) : str :=
  if negb (bool_decide (ac_Nick a = [])) then ac_Nick a
  else if negb (bool_decide (ac_Name a = [])) then ac_Name a
  else ac_Id a.

(** What the JSON encoder makes of a text: invalid UTF-8 is replaced, the rest is kept. *)
Class JSONText := { json_text : str -> str }.

Section cloud_http.
Context `{Database, Crypto}.
(** A handler: the status it answers, with what the answer carries. *)
Definition handler (A : Type) : Type := db -> (Z * option A) * db.
(** [userAuth] in [NewRouter]: who is asking, and the credential they used. *)
Definition userAuth (token : option str) (authenticate : option (res Account)) : handler (Account * option CredentialRow) := fun s =>
  match token, authenticate with
  | Some token, Some account =>
      if HasPrefix token CredentialTokenPrefix then
        match CredentialByToken token s with
        | (Err _, s) => ((StatusUnauthorized, None), s)
        | (Ok credential, s) => ((StatusOK, Some (mkAccount (cr_AccountID credential) [] [], Some credential)), s)
        end
      else
        match account with
        | Err _ => ((StatusUnauthorized, None), s)
        | Ok account => ((StatusOK, Some (account, None)), s)
        end
  | _, _ => ((StatusUnauthorized, None), s)
  end.
(** [None]: the body is not the JSON the handler takes. *)
Definition enqueueWebhook (c : Call) (who : Account) (credential : option CredentialRow) (id : str) (body_in : option (str * str * str)) : handler WebhookRequestView := fun s =>
  match body_in with
  | None => ((StatusBadRequest, None), s)
  | Some (name, encoded, signature) =>
      match DecodeString encoded with
      | None => ((StatusBadRequest, None), s)
      | Some body =>
          let invokedBy := match credential with Some q => cr_Label q | None => $"@" ++ userHandle who end in
          match EnqueueWebhook c (ac_Id who) id name body signature invokedBy credential s with
          | (Ok out, s) => ((201, Some out), s)
          | (Err e, s) => ((if errors_Is "forbidden" e || errors_Is "not found" e then serviceStatus e else StatusBadRequest, None), s)
          end
      end
  end.
Definition getWebhookResult (c : Call) (who : Account) (id requestID : str) : handler WebhookRequestView := fun s =>
  match GetWebhookResult c (ac_Id who) id requestID s with
  | (Ok out, s) => ((StatusOK, Some out), s)
  | (Err e, s) => ((serviceStatus e, None), s)
  end.
Definition listPendingWebhooks (c : Call) (authorization id raw : str) : handler (list WebhookRequestView) := fun s =>
  match daemonSecret authorization with
  | None => ((StatusUnauthorized, None), s)
  | Some secret =>
      let limit := if bool_decide (raw = []) then Some 50
                   else match Atoi raw with
                        | Some parsed => if (parsed <? 1) || (50 <? parsed) then None else Some parsed
                        | None => None
                        end in
      match limit with
      | None => ((StatusBadRequest, None), s)
      | Some limit =>
          match ListPendingWebhooks c id secret limit s with
          | (Ok out, s) => ((StatusOK, Some out), s)
          | (Err e, s) => ((serviceStatus e, None), s)
          end
      end
  end.
Definition completeWebhook (c : Call) (authorization id requestID : str) (body_in : option (Z * str * str)) : handler unit := fun s =>
  match daemonSecret authorization with
  | None => ((StatusUnauthorized, None), s)
  | Some secret =>
      match body_in with
      | None => ((StatusBadRequest, None), s)
      | Some (code, encoded, error) =>
          match DecodeString encoded with
          | None => ((StatusBadRequest, None), s)
          | Some body =>
              match CompleteWebhook c id secret requestID code body error s with
              | (Ok _, s) => ((204, Some tt), s)
              | (Err e, s) => ((serviceStatus e, None), s)
              end
          end
      end
  end.
End cloud_http.

(** ** The daemon's relay *)

Record relayWebhookRequest := mkRelayRequest { rl_ID : str; rl_Name : str; rl_Body : str; rl_Signature : str; rl_InvokedBy : str }.
Record relayResultPayload := mkRelayResult { rp_Code : Z; rp_Body : str; rp_Error : str }.
(** What the daemon is while it processes one request: its executor and host, its
    operations runner when it has one, and the decoding of a body into values. *)
Record daemon_env := mkDaemonEnv {
  de_executor : WebhookExecutor; de_host : host; de_ops : option ops_env; de_values : str -> option (gmap str json);
}.
Section relay.
Context `{Unicode, ExecEnv, JSONText}.
Definition relay_params (de : daemon_env) (name body : str) : opParams :=
  if bool_decide (body = []) then no_params
  else match de_values de body with Some values => nativeParamsFromValues name values | None => no_params end.
(** The result of a run as the relay reports it. *)
Definition result_of (response : executionResponse) (status : Z) : relayResultPayload :=
  if rs_OK response then mkRelayResult status (EncodeToString (rs_Stdout response)) []
  else if negb (bool_decide (rs_Stderr response = [])) then mkRelayResult status [] (rs_Stderr response)
  else if negb (status =? StatusOK) then mkRelayResult status [] ($"webhook execution failed")
  else mkRelayResult status [] [].
(** A request as the daemon runs it, its body decoded. *)
Definition run_request (de : daemon_env) (name body signature invokedBy : str) : relayResultPayload * list (event + op_event) :=
  match de_ops de, isNativeOpSlug name with
  | Some oe, true =>
      match dispatch oe name (relay_params de name body) ($"relay") invokedBy with
      | (inr failure, evs) => (mkRelayResult (of_status failure) [] (error_text (of_error failure)), inr <$> evs)
      | (inl (response, status), evs) => (result_of response status, inr <$> evs)
      end
  | _, _ =>
      let '((response, status), evs) := ExecuteWebhook (de_executor de) (de_host de) name body signature ($"relay") invokedBy in
      (result_of response status, inl <$> evs)
  end.
Definition process (de : daemon_env) (request : relayWebhookRequest) : relayResultPayload * list (event + op_event) :=
  match DecodeString (rl_Body request) with
  | None => (mkRelayResult 0 [] ($"invalid request body encoding"), [])
  | Some body => run_request de (rl_Name request) body (rl_Signature request) (rl_InvokedBy request)
  end.

(** A request on the network: it never arrives, it is handled and answered, or it is
    handled and the answer is lost. *)
Inductive net := Lost | Answered | Unanswered.
(** What the [i]-th request of a poll meets: the daemon, the network under its report,
    and the cloud's surroundings when the report is handled. *)
Record meeting := mkMeeting { mt_env : daemon_env; mt_net : net; mt_call : Call }.

Section poll.
Context `{D : Database, Crypto} (daemonID secret : str) (meet : nat -> meeting).
Definition bearer : str := $"Bearer " ++ secret.
Definition relay_request (v : WebhookRequestView) : relayWebhookRequest :=
  mkRelayRequest (wv_ID v) (wv_Name v) (wv_Body v) (wv_Signature v) (wv_InvokedBy v).
Definition report (m : meeting) (id : str) (result : relayResultPayload) (s : db) : db :=
  match mt_net m with
  | Lost => s
  | _ => (completeWebhook (mt_call m) bearer daemonID id (Some (rp_Code result, rp_Body result, json_text (rp_Error result))) s).2
  end.
(** A line of the daemon's log: the request, what it reported, and what it did. *)
Definition run_log : Type := relayWebhookRequest * relayResultPayload * list (event + op_event).
Fixpoint process_all (i : nat) (requests : list relayWebhookRequest) (s : db) : list run_log * db :=
  match requests with
  | [] => ([], s)
  | request :: requests =>
      let '(result, evs) := process (mt_env (meet i)) request in
      let s := report (meet i) (rl_ID request) result s in
      let '(log, s) := process_all (S i) requests s in
      ((request, result, evs) :: log, s)
  end.
Definition pollOnce (link : net) (c : Call) (s : db) : list run_log * db :=
  match link with
  | Lost => ([], s)
  | _ =>
      match listPendingWebhooks c bearer daemonID [] s, link with
      | ((_, Some views), s), Answered => process_all 0 (relay_request <$> views) s
      | (_, s), _ => ([], s)
      end
  end.
End poll.
End relay.

(** ** From the queue to the run and back *)

Section relay_facts.
Context `{Unicode, ExecEnv, JSONText} `{D : Database} `{L : !DatabaseLaws D} `{Crypto}.
Context (daemonID secret : str) (meet : nat -> meeting).

Lemma result_body response status : DecodeString (rp_Body (result_of response status)) = Some (if rs_OK response then rs_Stdout response else []).
Proof.
  unfold result_of. destruct (rs_OK response); [apply DecodeString_EncodeToString|].
  destruct (negb _); [done|]. by destruct (negb (status =? StatusOK)).
Qed.
Lemma run_request_body de name body signature invokedBy : exists b, DecodeString (rp_Body (run_request de name body signature invokedBy).1) = Some b.
Proof.
  unfold run_request.
  assert (He : exists b, DecodeString (rp_Body (let '((response, status), evs) := ExecuteWebhook (de_executor de) (de_host de) name body signature ($"relay") invokedBy in
    (result_of response status, (inl <$> evs) : list (event + op_event))).1) = Some b).
  { destruct (ExecuteWebhook _ _ _ _ _ _ _) as [[response status] evs]. eexists. apply result_body. }
  destruct (de_ops de) as [oe|]; [|exact He]. destruct (isNativeOpSlug name); [|exact He].
  destruct (dispatch oe name _ _ invokedBy) as [[[response status]|failure] evs]; eexists; [apply result_body|done].
Qed.
Lemma process_view de q : process de (relay_request (viewWebhookRequest q)) = run_request de (wr_Name q) (wr_Body q) (wr_Signature q) (wr_InvokedBy q).
Proof. unfold process. change (rl_Body _) with (EncodeToString (wr_Body q)). by rewrite DecodeString_EncodeToString. Qed.

(** What the daemon did for a stored request, the [i]-th of its poll. *)
Definition entry_of (i : nat) (q : WebhookRequest) : run_log :=
  let r := run_request (mt_env (meet i)) (wr_Name q) (wr_Body q) (wr_Signature q) (wr_InvokedBy q) in
  (relay_request (viewWebhookRequest q), r.1, r.2).
Fixpoint entries (i : nat) (l : list WebhookRequest) : list run_log :=
  match l with [] => [] | q :: l => entry_of i q :: entries (S i) l end.
(** The result of a run, as the cloud stores it. *)
Definition stored_result (result : relayResultPayload) (q : WebhookRequest) : Prop :=
  wr_Status q = webhookStatusDone /\ wr_ResultCode q = rp_Code result /\
  DecodeString (rp_Body result) = Some (wr_ResultBody q) /\ wr_ResultError q = take 512 (json_text (rp_Error result)).
Lemma report_spec m id result s : let s' := report daemonID secret m id result s in
  rows s' = rows s \/ exists q b now, t_requests (rows s) !! id = Some q /\ DecodeString (rp_Body result) = Some b /\
    rows s' = with_requests <[id := set_result webhookStatusDone (rp_Code result) b (take 512 (json_text (rp_Error result))) now q]> (rows s).
Proof.
  unfold report. assert (Hc : forall c body_in, let s' := (completeWebhook c (bearer secret) daemonID id body_in s).2 in
    body_in = Some (rp_Code result, rp_Body result, json_text (rp_Error result)) ->
    rows s' = rows s \/ exists q b now, t_requests (rows s) !! id = Some q /\ DecodeString (rp_Body result) = Some b /\
      rows s' = with_requests <[id := set_result webhookStatusDone (rp_Code result) b (take 512 (json_text (rp_Error result))) now q]> (rows s)).
  { intros c body_in s' ->. unfold s', completeWebhook. destruct (daemonSecret _) as [w|]; [|by left].
    destruct (DecodeString (rp_Body result)) as [b|] eqn:Eb; [|by left].
    destruct (CompleteWebhook c daemonID w id (rp_Code result) b _ s) as [r s1] eqn:Er. apply complete_spec in Er.
    replace (match r with Ok _ => _ | Err e => _ end.2) with s1 by (by destruct r).
    destruct Er as [Er|(q & Hq & _ & Er)]; [by left|right]. by exists q, b, (c_now c). }
  destruct (mt_net m); [by left|by apply Hc|by apply Hc].
Qed.
Lemma process_all_rows l : forall i s log s', NoDup (wr_ID <$> l) ->
  process_all daemonID secret meet i ((fun q => relay_request (viewWebhookRequest q)) <$> l) s = (log, s') ->
  log = entries i l /\
  (forall id, id ∉ wr_ID <$> l -> t_requests (rows s') !! id = t_requests (rows s) !! id) /\
  (forall j q q0, l !! j = Some q -> t_requests (rows s) !! wr_ID q = Some q0 ->
     exists q', t_requests (rows s') !! wr_ID q = Some q' /\ same_request q0 q' /\ (q' = q0 \/ stored_result (entry_of (i + j) q).1.2 q')).
Proof.
  induction l as [|q l IH]; intros i s log s' Hnd Hp; cbn [fmap list_fmap process_all] in Hp.
  { injection Hp as <- <-. split; [done|]. split; [done|]. by intros [|j] q q0. }
  rewrite process_view in Hp. change (wr_ID <$> q :: l) with (wr_ID q :: (wr_ID <$> l)) in *. apply NoDup_cons in Hnd as [Hq Hnd].
  destruct (run_request _ _ _ _ _) as [result evs] eqn:Er in Hp. cbn zeta in Hp.
  pose proof (report_spec (meet i) (rl_ID (relay_request (viewWebhookRequest q))) result s) as Hrep. cbv zeta in Hrep.
  change (rl_ID (relay_request (viewWebhookRequest q))) with (wr_ID q) in Hp, Hrep.
  set (s1 := report daemonID secret (meet i) (wr_ID q) result s) in Hp, Hrep.
  destruct (process_all daemonID secret meet (S i) _ s1) as [log1 s2] eqn:Ep. injection Hp as <- <-.
  apply IH in Ep as (-> & Hout & Hin); [|done]. split; [|split].
  - cbn [entries]. f_equal. unfold entry_of. by rewrite Er.
  - intros id [Hid Hid']%not_elem_of_cons. rewrite Hout by done. destruct Hrep as [->|(q1 & b & now & _ & _ & ->)]; [done|]. cbn. by rewrite lookup_insert_ne.
  - intros [|j] x q0 Hx Hq0; cbn in Hx.
    + injection Hx as <-. rewrite Hout, Nat.add_0_r by done. unfold entry_of. rewrite Er. cbn [fst snd].
      destruct Hrep as [->|(q1 & b & now & Hq1 & Hb & ->)]; [exists q0; split; [done|split; [by split_and!|by left]]|].
      cbn [with_requests t_requests]. rewrite lookup_insert_eq. replace q1 with q0 in * by congruence. eexists. split; [done|]. split; [by split_and!|right].
      by split_and!.
    + assert (Hne : wr_ID x <> wr_ID q) by (intros He; apply Hq; rewrite <-He; apply list_elem_of_fmap_2; by eapply list_elem_of_lookup_2).
      replace (i + S j)%nat with (S i + j)%nat by lia. apply (Hin j x q0 Hx).
      destruct Hrep as [->|(q1 & b & now & _ & _ & ->)]; [done|]. cbn. by rewrite lookup_insert_ne.
Qed.

(** C15. One poll of the daemon, end to end: what it runs is exactly, in order, the
    oldest pending requests the cloud holds for this daemon (at most 50, expired leases
    counting as pending), with the name, body, signature and invoker they were stored
    with; it gets any only as the enabled daemon, by its secret. Afterwards each of
    these requests is what it was, still leased when its report did not reach the cloud,
    and otherwise done with the status, the output and the first 512 bytes of the error
    of its own run. *)
Theorem relay_end_to_end link c s log s' : pollOnce daemonID secret meet link c s = (log, s') ->
  log = [] \/
  exists l, oldest (of_daemon_with daemonID webhookStatusPending) 50 (with_requests (release daemonID (c_now c)) (rows s)) l /\
    log = entries 0 l /\
    (exists d w, t_daemons (rows s) !! daemonID = Some d /\ dm_Enabled d = true /\ daemonSecret (bearer secret) = Some w /\
       CompareHashAndPassword (dm_SecretHash d) w = true) /\
    forall i q, l !! i = Some q -> exists q', t_requests (rows s') !! wr_ID q = Some q' /\ same_request q q' /\
      (wr_Status q' = webhookStatusLeased /\ wr_LeasedAt q' = Some (c_now c) \/ stored_result (entry_of i q).1.2 q').
Proof.
  unfold pollOnce. intros Hp.
  destruct link; [left; by injection Hp as <- _| |left; by destruct (listPendingWebhooks _ _ _ _ _) as [[? [?|]] ?]; injection Hp as <- _].
  unfold listPendingWebhooks in Hp. destruct (daemonSecret (bearer secret)) as [w|] eqn:Ew; [|left; by injection Hp as <- _].
  rewrite bool_decide_true in Hp by done. destruct (ListPendingWebhooks c daemonID w 50 s) as [[views|e] s1] eqn:El; [|left; by injection Hp as <- _].
  pose proof (poll_handed (D := D) c daemonID) as Hh. apply poll_spec in El. destruct El as ((d & Hd & He & Hc) & l & Ho & -> & Hr).
  right. exists l. split; [exact Ho|]. rewrite <-list_fmap_compose in Hp.
  apply process_all_rows in Hp as (Hlog & _ & Hin); [|by eapply ol_distinct]. split; [done|]. split; [by exists d, w|].
  intros i q Hq. assert (Hql : q ∈ l) by by eapply list_elem_of_lookup_2.
  destruct (ol_rows _ _ _ _ Ho q Hql) as [Hrow _]. cbn [with_requests t_requests] in Hrow.
  destruct (t_requests (rows s) !! wr_ID q) as [q0|] eqn:E0; [|unfold release in Hrow; by rewrite (lookup_update_where_None _ _ _ _ E0) in Hrow].
  destruct (Hh l _ s (wr_ID q) q0 Ho E0) as [_ Hl]; [by apply list_elem_of_fmap_2|].
  destruct (Hin i q (set_lease webhookStatusLeased (Some (c_now c)) (c_now c) q0) Hq) as (q' & Hq' & Hs & Hres); [by rewrite Hr|].
  exists q'. split; [done|]. split; [|destruct Hres as [->|Hres]; [by left|by right]].
  unfold release in Hrow. rewrite (lookup_update_where _ _ _ _ _ E0) in Hrow. injection Hrow as Hrow.
  assert (Hs0 : same_request q (set_lease webhookStatusLeased (Some (c_now c)) (c_now c) q0)) by (rewrite <-Hrow; destruct (expired _ _ q0); by split_and!).
  destruct Hs0 as (A1 & A2 & A3 & A4 & A5 & A6 & A7), Hs as (B1 & B2 & B3 & B4 & B5 & B6 & B7). split_and!; by etrans.
Qed.
End relay_facts.

(** ** A small relay *)

#[local] Instance demo_json : JSONText := { json_text s := s }.
#[local] Existing Instance demo_crypto.
#[local] Existing Instance Executor.demo_env.
Definition demo_meeting (i : nat) : meeting :=
  mkMeeting (mkDaemonEnv demo_executor demo_host None (fun _ => None)) Answered (demo_call 90 "u").
(** A member's signed request, waiting in the queue. *)
Definition demo_queue : list_db :=
  (serve_op (demo_call 5 "r1") ($"ada") ($"d1") (OpEnqueue ($" deploy ") ($"{}") ($"s3cret:{}") ($"@ada")) demo_db).2.
#[local] Existing Instance plain_unicode.
Definition demo_poll : list run_log * list_db := pollOnce (D := ListDatabase) ($"d1") ($"old") demo_meeting Answered (demo_call 10 "u") demo_queue.
Lemma relay_end_to_end_witness :
  demo_poll.1 <> [] /\
  (exists l, wr_Name <$> l = [$"deploy"] /\ demo_poll.1 = entries demo_meeting 0 l) /\
  (fun r => (wr_Status r, wr_ResultCode r)) <$> ld_requests demo_poll.2 !! 0%nat = Some (webhookStatusDone, 502).
Proof.
  assert (Hn : rl_Name <$> ((fun e : run_log => e.1.1) <$> demo_poll.1) = [$"deploy"]) by (vm_compute; reflexivity).
  split; [intros E; rewrite E in Hn; discriminate Hn|]. split; [|vm_compute; reflexivity].
  destruct (relay_end_to_end (D := ListDatabase) ($"d1") ($"old") demo_meeting Answered (demo_call 10 "u") demo_queue _ _ (surjective_pairing demo_poll)) as [E|(l & _ & Hl & _)];
    [rewrite E in Hn; discriminate Hn|].
  exists l. split; [|exact Hl]. rewrite Hl in Hn. destruct l as [|q [|q' l]]; [discriminate Hn| |discriminate Hn]. exact Hn.
Defined.
